(* ===== verification/_CoqProject ===== *)
-Q . S2P
Prelude.v
GoText.v
ResourceGuard.v
ResourceGuardSpec.v
ZipLimits.v
Thinking.v
ThinkingSpec.v
Runes.v
Interleave.v
NetSafety.v
MailAddr.v
Protocol.v
Message.v
MailAuth.v
AuthResults.v
ExactMessage.v
SqlDb.v
Calendar.v
Config.v
ConfigSpec.v
ScanNames.v
Scanner.v
ScannerSpec.v
ScannerProps.v
Archive.v
ArchiveSpec.v
IPReputation.v
IPReputationFacts.v
IPReputationSpec.v
IPAllowlist.v
Correspondents.v
SenderBlocklist.v
SenderListsFacts.v
SenderListsSpec.v
Rejections.v
RejectionsSpec.v
Activity.v
Registration.v
RegistrationProps.v
Rdap.v
RdapProps.v
ActivitySpec.v
AdminCmd.v
AdminFormat.v
AdminExec.v
AdminSpec.v
SmtpReply.v
EmailCommands.v
EmailCommandsSpec.v
Policy.v
AiClient.v
AiClientProps.v
Server.v
ServerProps.v
PromptText.v
PromptUrl.v
AttachedText.v
AttachedTextSpec.v
HtmlText.v
HtmlTextSpec.v
MsoCondition.v
CssNumber.v
Media.v
Visibility.v
Extract.v
ExtractMime.v
ExtractSpec.v
ExtractFacts.v
ExtractProps.v
Prompt.v
PromptSpec.v
ScanPolicy.v
Session.v
SessionFacts.v
SessionSpec.v
SessionPassive.v
SessionProps.v
SessionCommands.v
SessionActivity.v
Compose.v
