(* ===== verification/Prelude.v ===== *)
(** * MilterGuard: a verification of the mail filter

    MilterGuard is a Milter: an MTA hands it every SMTP connection and message,
    and it answers with a response per command and one decision per message.
    This library models the parts of the program that decide, in the order the
    data flows through them, and proves what they guarantee.

    ** The program and its model

    - Foundations.  [GoText] and [Runes] model what the program uses of Go's
      strings, unicode and utf8 packages on byte strings; [Calendar] models
      dates and numbers as text (time, strconv).
    - A connection carries length-prefixed frames.  [Protocol] models
      internal/milter/protocol.go and decision.go: reading and writing frames
      over a stream that may fail at any byte, decoding commands, macros and
      addresses, and building responses and SMTP replies.
    - Addresses and names come from the network.  [NetSafety] models
      internal/netsafety, [MailAddr] models internal/mailaddr.
    - The configuration decides what runs.  [Config] models internal/config:
      settings, defaults, validation, the socket address and loading.
    - [Server] models server.go and maintenance.go of internal/milter: which
      peers are admitted, the accept loop, its sessions and its stop, and the
      maintenance of the tables; [Compose] models composition.go and
      repositories.go, the services built from a configuration.
    - A message is accumulated under a byte budget.  [Message] models
      message.go, archive.go and header.go of internal/message.
    - Its contents are taken apart under a budget of memory and work.
      [ResourceGuard] models internal/resourceguard (memory.go, storage.go,
      table.go, callback.go, stop_sampler.go) and internal/termination: the
      ledger every allocation goes through and the termination of a stage.
      [ZipLimits] models internal/attachment/zip_limits.go, the admission of
      the directory of a ZIP archive; [ScanNames] and [Scanner] model
      internal/attachment/scanner.go: names, signatures, the MIME structure,
      archives inside archives, and [ScanPolicy] the policy that runs it.
    - What the AI service is shown is extracted from the message.  [PromptText]
      and [PromptUrl] model text_analysis.go and url_compaction.go of
      internal/message with the collectors of links; [AttachedText] models
      attachment_context.go and the headers of attached messages (rfc822.go);
      [HtmlText] models html_tree.go and html_helpers.go over a parsed page with
      the visibility of its nodes; [Extract] and [ExtractMime] model mime.go,
      mime_restart.go, termination.go, fallback_resources.go and
      processing_limits.go: the budget, the primary and the fallback stage, and
      the recursion over parts; [Prompt] models prompt.go, authentication.go,
      recipient.go and vision.go, the prompt that is built from it.
    - Whether a node of a page is visible is judged by internal/htmlextract.
      [MsoCondition] models conditional_styles.go, the conditional comments of
      Outlook; [CssNumber] models numbers.go over float64 as whole numbers of
      units of 2^-1074; [Media] models media.go, media conditions and the choice
      of the widths in which a page is judged; [Visibility] models analyze.go and
      visibility.go with emptyClip of clipping.go, the scopes of document.go and
      the paint layers of colour.go: the walk of each viewing case, its decisions
      and their merging.
    - Authentication evidence is computed from headers or by an internal
      verifier over the exact message.  [MailAuth] models evidence.go and
      alignment.go of internal/mailauth, [AuthResults] models
      authentication_results.go and received_spf.go, [ExactMessage] models
      exact_message.go.
    - The analyzer is an AI service.  [Thinking] models internal/thinking: the
      validation of the two catalogues of reasoning controls, the compilation
      of a plan from them, and the fragment merged into each request.
      [AiClient] models internal/ai: the request, its attempts and delays, and
      the answer.
    - The age of a sender's domain comes from RDAP.  [Rdap] models
      internal/rdap: the guarded connection, redirects, the shared list of
      services and the lookup; [Registration] models
      internal/milter/domain_registration.go as interleaved steps of concurrent
      calls.  [Interleave] holds what both share.
    - Adaptive state lives in SQLite tables.  [SqlDb] models
      internal/sqlitedb/store.go: transactions, retries of busy attempts and
      cancellation over a schedule of how attempts end.
      [IPReputation], [Correspondents], [SenderBlocklist], [Rejections] and
      [Activity] (activity, domain registrations, command history) model the
      repositories of internal/stores/sqlite, each operation as the statements
      it runs, with SQL filters as predicates on rows and rowids and timestamps
      (in milliseconds) as the tables keep them.
    - Rejected messages are kept in files.  [Archive] models
      internal/rejectedmail over the tree of the file system below the
      archive's directory, with failing calls and a concurrent cleanup.
    - Administrators and users send commands.  [AdminCmd], [AdminFormat] and
      [AdminExec] model internal/admincmd: the parser, every command over the
      repositories, all reply texts and the budget of a reply.  [EmailCommands]
      models the commands in mail (internal/milter/email_commands.go and
      aliases.go), [SmtpReply] models internal/smtpreply/message.go, the reply
      that is sent.
    - Policies turn evidence into actions.  [Policy] models
      ip_reputation.go, message_policy.go, connection_dns.go, analysis.go,
      activity.go and attachment_policy.go of internal/milter, and the class
      [PolicyStores], through which a session sees the repositories and the
      command processor; [sqlite_stores] is its implementation by the
      repository models.  [IPAllowlist] models the allowlists.
    - [Session] models session.go, session_protocol.go, session_identity.go,
      result_headers.go, sender_domain_policy.go, sender_blocklist_policy.go
      and the session part of email_commands.go: the [session] record with the
      fields of the struct, a state monad for handlers that send frames, use
      the repositories and make calls, and one definition per method, up to
      [handleCommand] and the read loop [run].  A command message runs the
      models of [EmailCommands] and [AdminExec] on the repositories of the
      session.

    ** What is proved

    - [SessionFacts], [SessionSpec], [SessionPassive], [SessionProps],
      [SessionCommands], [SessionActivity]: one final response per message; the
      invariant of every reachable session, with [reachable] the step relation
      of [handleCommand]; message edits only within the negotiated actions;
      outside the mode "enforce" nothing recorded but activity counts, proved
      against [PolicyStoresLaws] and so for every implementation of the
      repositories whose lookups do not write; command messages act only when
      authorized, and a user's only on that user's rows, for mailboxes that
      normalizing again leaves alone ([canonical_mailbox]); which activity
      events the repository accepts.
    - [Compose], [ConfigSpec]: what loads is valid, what is valid is kept when the
      services are built, thinking controls merge into the request checked at
      start-up, and a message the attachment policy accepts under such a
      configuration has lost no part of its MIME structure and is clean.
    - [ServerProps]: admitted sessions stay within the limit, no connection
      leaks, the server stops; failing repositories do not disturb each other.
    - [ScanNames], [ScannerSpec], [ScannerProps]: a clean result means that
      everything was read and allowed; scanning ends within its budgets; a
      blocked name is found whatever errors surround it.
    - [ExtractSpec], [ExtractFacts], [ExtractProps]: a small logic
      of what an extraction keeps ([runs_to]), and with it that extraction always
      ends with content, reports every loss, marks every attached message where
      the context of attachments is kept, keeps true offsets of the tags it wrote
      as long as the text needs no repair, and never goes back to an earlier stage.
    - [HtmlTextSpec]: annotations never nest and each text stands in its own;
      the visible text is what a reference without modes and links computes, and
      concealed text has no influence on it.
    - [Visibility], [Media], [CssNumber], [MsoCondition]: the labels of a page
      are exact over its viewing cases and nothing below a hidden element is
      visible; the chosen widths represent every width, with midpoints as
      rounded arithmetic computes them; media conditions are exact in three
      values; numbers are correctly rounded; the conditions of Outlook are those
      of their grammar that hold in every environment.
    - [PromptText], [PromptUrl], [AttachedTextSpec], [PromptSpec]: removal
      of reserved annotations against a declarative reading; bounds of links;
      cuts that split no tag when offsets are true; metadata and evidence of fixed shape; bounds of the
      body and the images of a prompt; and where text is lost or misplaced.
    - [AiClientProps]: rejections are justified by a complete valid answer,
      attempts, delays and token counts are bounded, requests carry the email.
    - [RdapProps], [RegistrationProps]: only public
      addresses are dialled, the first answer wins; one lookup per domain at a
      time, no answer is exchanged between calls, every call returns.
    - [IPReputationFacts], [IPReputationSpec]: the table invariant over all
      histories and faults; [RecordRejection] refines an abstract step on one
      address ([abs_reject]); escalation, decay, attempts, capacity.
    - [SenderListsFacts], [SenderListsSpec]: the invariant of
      the two sender tables, what classification may remove, promotion,
      matching against its declarative reading, precedence of the newest
      instruction, order of eviction.
    - [RejectionsSpec], [ActivitySpec]: the invariants of the other tables,
      listings against a declarative reading, what is added reads back.
    - [ArchiveSpec]: the archive stays a tree and loses nothing that is not its
      own; saved messages read back; cleanup removes exactly what has expired
      and, beyond that, the oldest messages of an archive that is too large.
    - [AdminSpec]: a user's command reads and changes only that user's rows, for
      mailboxes that normalizing again leaves alone, and an example of another.
    - [EmailCommandsSpec], [SmtpReply]: alias ownership is reachability; a
      reply always fits, is always built, keeps what its budget promised, and
      is measured exactly.
    - [ThinkingSpec]: accepted catalogues compile without a panic into complete
      plans with rendered fragments; every level selects a choice; a merge
      keeps the request and adds the fragment; accepted syntax trees are
      bounded.
    - [ResourceGuardSpec]: no program that allocates through the guard is
      charged more than its limit; guarded operations compute what plain ones
      do; appending is charged linearly, a table for its largest size.
    - [ZipLimits]: admission reads nothing out of range, charges every entry a
      reader could find, and never exceeds its budgets.
    - [Protocol]: frames and headers round-trip, reads are bounded, replies are
      one safe line, macros decode to what was sent.
    - [Message]: the byte budget, the longest body prefix, exact header counts,
      well-formed archives.
    - [ExactMessage]: the file store refines the memory store, appends are
      whole, hybrid slots are bounded.
    - [MailAuth], [AuthResults]: exact alignment, values that cannot forge
      properties, structure preserved by comment stripping; the results are
      exactly those of fields of trusted services, each once.
    - [NetSafety], [MailAddr]: routable IPv4 addresses as intervals, canonical
      names and mailboxes, and two places where the code does not do what it
      means to (zoned addresses, quoted local parts normalized twice).

    ** Conventions

    Strings and byte slices are lists of [ascii].  Machine integers are [Z] with
    their range as written in the code (the uint32 fields of frames and action
    masks are encoded in four bytes).  Times are nanoseconds, which the tables
    round down to milliseconds.  Scores and costs are rationals, since the code
    only compares the former and adds the latter.  Recursion is structural; the
    loops over a text that may skip several bytes at once ([chunks_go],
    [properties_go], [spf_gap], [spf_parameter_go], [count_headers]) take the
    length of that text as fuel, which is enough because each turn consumes a
    byte, and the search for a ZIP directory takes the size of its window.  So do
    the scanners of annotations, URLs and attached headers ([sanitize_go],
    [rewrite_go], [header_lines]); the cut of a body takes the character limit,
    since its allowance shrinks in every turn.  The scanner has the code's depth
    of sixteen for MIME and its configured depth for archives; the extraction has
    fuel ten, two more than the depth at which the code refuses to go on, and the
    theorems state that it is never exhausted.  A call for registration evidence
    takes at most nine steps, an analysis Retries+1 attempts.  The
    walk over aliases has the code's own bound of sixteen steps; the loops that
    shorten a reply take the number of attachments and the length of the text.
    An operation on the database draws how each attempt ends from a schedule, is
    retried at most [busyRetries] times after a busy error, and its theorems
    hold for every schedule; so do those of the archive for every schedule of
    failing calls, and those of the guard for every schedule of checkpoints.  An
    extraction draws the checks and charges of each operation from a schedule of
    demands; every way the code can meet a limit is one of them, so its theorems
    hold wherever the code checks.

    Code outside the repository is a parameter: [UnicodeTables] (case
    mapping and folding beyond ASCII), [NetMail] (net/mail), [NetIPText] (netip
    parsing), [HeaderDecoder] (mime words), [PublicSuffix] (the suffix list),
    [FileOps] (files of exact messages), [FloatSum] and [FloatText] (the sum and
    the text of floating-point costs), [ReplyMime] (boundaries and media types
    of a reply), [MessageSource] (saved messages and their text, for the
    command that shows one), [Allocator] (rounding of byte allocations),
    [UrlText] and [UrlDetails] (net/url), [Fingerprint] (hash of a plan),
    [ConfigFiles] (files and YAML), [NameText] and [Readers] (decoders and archive
    readers of the scanner), [AIJson] (JSON of requests and answers),
    [SuffixLaws] (what the suffix list promises), [HtmlLibrary] (the HTML parser,
    its tokens and the visibility of nodes), [MimeLibrary] (multipart reader,
    transfer and character decoders), [ImageLibrary] (image headers) and
    [PercentText] (a percentage as text).  [StyleEngine] stands for the part of
    internal/htmlextract that is not modelled.  Instances named
    [basic_tables], [simple_mail], [raw_text], [plain_decoder],
    [last_two_labels] and the like instantiate them in the witnesses.  What
    happens beside a session during a command (the DNS answer, the verifier, the
    scanner, the analyzer, text extraction, the aliases file, ticks of the
    progress timers) is a value of [Oracle], over which the session theorems
    quantify, as they do over the failures of writes.

    ** What is not modelled

    Logging, contexts as such (their effect on an operation is a fault, an event
    or an oracle answer), and panics of workers.  Of internal/htmlextract the
    parsing of documents and style sheets, the cascade, selectors, the values of
    properties, contrast and layout, over the vendored parsers: the style of an
    element and the contrast of a colour are the class [StyleEngine], and the
    verdict per node is an argument of [HtmlText].  The adapter to the vendored verifiers
    (internal/mailauth/moxverify), whose evidence is an oracle of the session.
    The token cost of an analysis (floating point), the SMTP client that submits a
    reply and the network itself, opening and migrating the database, process
    start-up, and the vendored forks, which are third-party code.

    This file holds the vocabulary all others share. *)
From Stdlib Require Export ZArith Lia Ascii.
From stdpp Require Export base tactics list sorting gmap strings.

#[global] Open Scope Z_scope.
#[global] Set Default Proof Using "Type".

(** Go strings and byte slices are byte sequences. *)
Abbreviation gostring := (list ascii).

Declare Scope go_scope.
Delimit Scope go_scope with go.

Definition lit (s : string) : gostring := String.list_ascii_of_string s.

Definition code (c : ascii) : Z := Z.of_N (N_of_ascii c).
Definition chr (z : Z) : ascii := ascii_of_N (Z.to_N (z mod 256)).

Lemma code_range c : 0 <= code c < 256.
Proof. unfold code. pose proof (N_ascii_bounded c). lia. Qed.

Lemma chr_code c : chr (code c) = c.
Proof.
  unfold chr. rewrite Z.mod_small by apply code_range.
  unfold code. rewrite N2Z.id. apply ascii_N_embedding.
Qed.

Lemma code_chr z : 0 <= z < 256 -> code (chr z) = z.
Proof.
  intros H. unfold chr, code. rewrite Z.mod_small by done.
  rewrite N_ascii_embedding by lia. lia.
Qed.

Lemma code_inj c d : code c = code d -> c = d.
Proof. intros H. rewrite <- (chr_code c), <- (chr_code d). by rewrite H. Qed.

Definition beq (a b : gostring) : bool := bool_decide (a = b).
Definition ceq (a b : ascii) : bool := bool_decide (a = b).

Definition NUL : ascii := chr 0.
Definition CR : ascii := chr 13.
Definition LF : ascii := chr 10.

Definition go_len (s : gostring) : Z := Z.of_nat (length s).
Lemma go_len_app (a b : gostring) : go_len (a ++ b) = go_len a + go_len b.
Proof. unfold go_len. rewrite length_app. lia. Qed.
Lemma go_len_take n (s : gostring) : go_len (take n s) = Z.min (Z.of_nat n) (go_len s).
Proof. unfold go_len. rewrite length_take. lia. Qed.
Lemma go_len_nonneg (s : gostring) : 0 <= go_len s.
Proof. unfold go_len. lia. Qed.

(** Induction on the length of a list. *)
Lemma list_length_ind {A} (P : list A -> Prop) :
  (forall s, (forall t, (length t < length s)%nat -> P t) -> P s) -> forall s, P s.
Proof.
  intros H s. remember (length s) as n eqn:E. revert s E.
  induction n as [n IH] using lt_wf_ind. intros s ->. apply H. intros t Ht. by eapply IH.
Qed.

Lemma beq_nil_false (s : gostring) : beq s [] = false -> s <> [].
Proof. unfold beq. by rewrite bool_decide_eq_false. Qed.

(** Evaluates the codes of literal characters before arithmetic. *)
Ltac eval_codes :=
  repeat match goal with
  | H : context [code ?c] |- _ =>
      is_ground c; let z := eval vm_compute in (code c) in progress change (code c) with z in H
  | |- context [code ?c] =>
      is_ground c; let z := eval vm_compute in (code c) in progress change (code c) with z
  end.
Ltac code_lia := eval_codes; lia.

(** ** Association lists

    Go maps whose keys are listed in some order. *)
Section Assoc.
Context {K V : Type} `{EqDecision K}.

Definition assoc_get (k : K) (l : list (K * V)) : option V := snd <$> List.find (λ e, bool_decide (e.1 = k)) l.
Definition assoc_replace (k : K) (v : V) (l : list (K * V)) : list (K * V) := (λ e, if bool_decide (e.1 = k) then (k, v) else e) <$> l.
Definition assoc_mem (k : K) (l : list (K * V)) : bool := existsb (λ e, bool_decide (e.1 = k)) l.
(** [m[k] = v] *)
Definition assoc_set (k : K) (v : V) (l : list (K * V)) : list (K * V) := if assoc_mem k l then assoc_replace k v l else l ++ [(k, v)].

Lemma find_assoc k (l : list (K * V)) : List.find (λ e, bool_decide (e.1 = k)) l = None <-> k ∉ (fst <$> l).
Proof.
  induction l as [|[a v] l IH]; [split; [set_solver|done]|]. cbn [List.find fst fmap list_fmap]. case_bool_decide as E.
  - split; [done|]. subst. set_solver.
  - rewrite IH. set_solver.
Qed.
Lemma assoc_get_app k k' v (l : list (K * V)) : k ∉ (fst <$> l) ->
  assoc_get k' (l ++ [(k, v)]) = if bool_decide (k' = k) then Some v else assoc_get k' l.
Proof.
  intros Hk. unfold assoc_get. induction l as [|[a w] l IH].
  - cbn. repeat case_bool_decide; by simplify_eq.
  - cbn [fmap list_fmap fst] in Hk. cbn [app List.find fst]. destruct (bool_decide (a = k')) eqn:Ea.
    + apply bool_decide_eq_true in Ea as ->. rewrite bool_decide_false; [done|]. intros ->. set_solver.
    + apply IH. set_solver.
Qed.
Lemma assoc_get_replace k k' v (l : list (K * V)) : k ∈ (fst <$> l) ->
  assoc_get k' (assoc_replace k v l) = if bool_decide (k' = k) then Some v else assoc_get k' l.
Proof.
  unfold assoc_get, assoc_replace. induction l as [|[a w] l IH]; [set_solver|]. intros Hk. cbn [fmap list_fmap fst List.find] in *.
  destruct (bool_decide (a = k)) eqn:Ea; cbn [fst].
  - apply bool_decide_eq_true in Ea as ->. destruct (bool_decide (k = k')) eqn:E; [apply bool_decide_eq_true in E as ->; by rewrite bool_decide_true|].
    apply bool_decide_eq_false in E. rewrite (bool_decide_false (k' = k)) by congruence. clear IH Hk.
    induction l as [|[b u] l IH]; [done|]. cbn [fmap list_fmap fst List.find]. destruct (bool_decide (b = k)) eqn:Eb; cbn [fst].
    + apply bool_decide_eq_true in Eb as ->. rewrite (bool_decide_false (k = k')) by done. exact IH.
    + destruct (bool_decide (b = k')); [done|exact IH].
  - apply bool_decide_eq_false in Ea. destruct (bool_decide (a = k')) eqn:E.
    + apply bool_decide_eq_true in E as ->. by rewrite bool_decide_false.
    + apply IH. set_solver.
Qed.
Lemma replace_keys k v (l : list (K * V)) : fst <$> assoc_replace k v l = fst <$> l.
Proof.
  unfold assoc_replace. rewrite <- list_fmap_compose. apply list_fmap_ext. intros i [a w] _. cbn. case_bool_decide; by subst.
Qed.
Lemma assoc_mem_spec k (l : list (K * V)) : assoc_mem k l = true <-> k ∈ (fst <$> l).
Proof.
  unfold assoc_mem. rewrite existsb_exists. split.
  - intros ([a v] & Hin & E). apply bool_decide_eq_true in E. cbn in E. subst. apply list_elem_of_fmap. exists (k, v). split; [done|by apply list_elem_of_In].
  - intros Hk. apply list_elem_of_fmap in Hk as ([a v] & -> & Hin). exists (a, v). split; [by apply list_elem_of_In|]. by apply bool_decide_eq_true.
Qed.
Lemma assoc_get_none k (l : list (K * V)) : assoc_get k l = None <-> k ∉ (fst <$> l).
Proof. unfold assoc_get. pose proof (find_assoc k l) as F. destruct (List.find _ _); rewrite <- F; done. Qed.
Lemma assoc_get_set k k' (v : V) (l : list (K * V)) : assoc_get k' (assoc_set k v l) = if bool_decide (k' = k) then Some v else assoc_get k' l.
Proof.
  unfold assoc_set. destruct (assoc_mem k l) eqn:E.
  - apply assoc_get_replace. by apply assoc_mem_spec.
  - apply assoc_get_app. rewrite <- assoc_mem_spec. congruence.
Qed.
Lemma assoc_get_cons k k' (v : V) (l : list (K * V)) : assoc_get k ((k', v) :: l) = if bool_decide (k' = k) then Some v else assoc_get k l.
Proof. unfold assoc_get. cbn [List.find fst]. by destruct (bool_decide (k' = k)). Qed.
Lemma assoc_get_elem k (v : V) (l : list (K * V)) : assoc_get k l = Some v -> (k, v) ∈ l.
Proof.
  unfold assoc_get. destruct (List.find _ l) as [[a w]|] eqn:E; [|done]. cbn. intros [= <-]. apply find_some in E as [Hin Ea].
  apply bool_decide_eq_true in Ea. cbn in Ea. subst. by apply list_elem_of_In.
Qed.
End Assoc.
