(* ===== verification/GoText.v ===== *)
(** * Go text primitives

    The operations of Go's [strings], [bytes] and [unicode/utf8] packages that
    the program uses, on byte sequences.  Unicode case mapping and case
    folding are tables of the Unicode database; they are the class
    [UnicodeTables], with the documented behaviour on ASCII as its laws. *)
From S2P Require Import Prelude.

(** ** Searching and cutting *)

Fixpoint hasPrefix (s p : gostring) {struct p} : bool :=
  match p, s with
  | [], _ => true
  | c :: p', d :: s' => ceq c d && hasPrefix s' p'
  | _ :: _, [] => false
  end.

Definition hasSuffix (s p : gostring) : bool := hasPrefix (rev s) (rev p).

Definition trimPrefix (s p : gostring) : gostring :=
  if hasPrefix s p then drop (length p) s else s.

Definition trimSuffix (s p : gostring) : gostring :=
  if hasSuffix s p then take (length s - length p) s else s.

(** [bytes.Cut] and [strings.Cut] at a one-byte separator. *)
Fixpoint cut (sep : ascii) (s : gostring) : option (gostring * gostring) :=
  match s with
  | [] => None
  | c :: s' =>
      if ceq c sep then Some ([], s')
      else match cut sep s' with
           | Some (before, after) => Some (c :: before, after)
           | None => None
           end
  end.

(** The part after the last occurrence of the separator, if there is one. *)
Fixpoint after_last (sep : ascii) (s : gostring) : option gostring :=
  match s with
  | [] => None
  | c :: s' =>
      match after_last sep s' with
      | Some r => Some r
      | None => if ceq c sep then Some s' else None
      end
  end.

Fixpoint indexByte (s : gostring) (c : ascii) : option nat :=
  match s with
  | [] => None
  | d :: s' => if ceq d c then Some 0%nat else S <$> indexByte s' c
  end.

Definition containsByte (s : gostring) (c : ascii) : bool :=
  existsb (ceq c) s.

(** [strings.Count] of a one-byte substring. *)
Definition countByte (s : gostring) (c : ascii) : nat :=
  length (List.filter (ceq c) s).

(** [strings.Split] at a one-byte separator: never empty. *)
Fixpoint split (sep : ascii) (s : gostring) : list gostring :=
  match s with
  | [] => [[]]
  | c :: s' =>
      if ceq c sep then [] :: split sep s'
      else match split sep s' with
           | [] => [[c]]
           | w :: ws => (c :: w) :: ws
           end
  end.

Fixpoint join (sep : gostring) (parts : list gostring) : gostring :=
  match parts with
  | [] => []
  | [p] => p
  | p :: rest => p ++ sep ++ join sep rest
  end.

(** [strings.ReplaceAll] for a non-empty pattern: scan left to right, skipping
    the bytes of a match. *)
Fixpoint replace_go (old new : gostring) (skip : nat) (s : gostring) : gostring :=
  match s with
  | [] => []
  | c :: s' =>
      match skip with
      | S k => replace_go old new k s'
      | O => if hasPrefix s old
             then new ++ replace_go old new (length old - 1) s'
             else c :: replace_go old new 0 s'
      end
  end.

Definition replaceAll (s old new : gostring) : gostring := replace_go old new 0 s.

(** [strings.FieldsFunc] for a predicate on single bytes: maximal runs of
    bytes that do not satisfy it. *)
Fixpoint fields_go (f : ascii -> bool) (cur : gostring) (s : gostring) : list gostring :=
  match s with
  | [] => match cur with [] => [] | _ => [rev cur] end
  | c :: s' =>
      if f c
      then match cur with [] => fields_go f [] s' | _ => rev cur :: fields_go f [] s' end
      else fields_go f (c :: cur) s'
  end.
Definition fieldsFunc (s : gostring) (f : ascii -> bool) : list gostring := fields_go f [] s.

(** Lexicographic byte order, Go's [<] on strings. *)
Fixpoint bytes_leb (a b : gostring) : bool :=
  match a, b with
  | [], _ => true
  | _ :: _, [] => false
  | c :: a', d :: b' =>
      if code c <? code d then true
      else if code c =? code d then bytes_leb a' b' else false
  end.

(** ** UTF-8 *)

Definition runeError : Z := 65533.
Definition runeSelf : Z := 128.

(** A byte that is not a continuation byte. *)
Definition runeStart (c : ascii) : bool := negb (Z.land (code c) 192 =? 128).

Definition in_range (lo hi : Z) (c : ascii) : bool :=
  (lo <=? code c) && (code c <=? hi).
Definition is_cont (c : ascii) : bool := in_range 128 191 c.

(** Admissible range of the second byte, by the first. *)
Definition second_range (b0 : Z) : Z * Z :=
  if b0 =? 224 then (160, 191)
  else if b0 =? 237 then (128, 159)
  else if b0 =? 240 then (144, 191)
  else if b0 =? 244 then (128, 143)
  else (128, 191).

Definition in_second (b0 : Z) (c : ascii) : bool :=
  let '(lo, hi) := second_range b0 in in_range lo hi c.

(** [utf8.DecodeRuneInString]: the first rune and its width; an invalid
    sequence gives [runeError] with width one. *)
Definition decode_rune (s : gostring) : Z * nat :=
  match s with
  | [] => (runeError, 0%nat)
  | c0 :: s1 =>
      let b0 := code c0 in
      if b0 <? 128 then (b0, 1%nat)
      else if (194 <=? b0) && (b0 <=? 223) then
        match s1 with
        | c1 :: _ => if is_cont c1 then ((b0 - 192) * 64 + (code c1 - 128), 2%nat)
                     else (runeError, 1%nat)
        | _ => (runeError, 1%nat)
        end
      else if (224 <=? b0) && (b0 <=? 239) then
        match s1 with
        | c1 :: c2 :: _ =>
            if in_second b0 c1 && is_cont c2
            then ((b0 - 224) * 4096 + (code c1 - 128) * 64 + (code c2 - 128), 3%nat)
            else (runeError, 1%nat)
        | _ => (runeError, 1%nat)
        end
      else if (240 <=? b0) && (b0 <=? 244) then
        match s1 with
        | c1 :: c2 :: c3 :: _ =>
            if in_second b0 c1 && is_cont c2 && is_cont c3
            then ((b0 - 240) * 262144 + (code c1 - 128) * 4096
                  + (code c2 - 128) * 64 + (code c3 - 128), 4%nat)
            else (runeError, 1%nat)
        | _ => (runeError, 1%nat)
        end
      else (runeError, 1%nat)
  end.

(** [utf8.AppendRune] onto the empty slice. *)
Definition encode_rune (r : Z) : gostring :=
  if (0 <=? r) && (r <? 128) then [chr r]
  else if (128 <=? r) && (r <? 2048) then
    [chr (192 + r / 64); chr (128 + r mod 64)]
  else if ((2048 <=? r) && (r <? 55296)) || ((57344 <=? r) && (r <? 65536)) then
    [chr (224 + r / 4096); chr (128 + r / 64 mod 64); chr (128 + r mod 64)]
  else if (65536 <=? r) && (r <? 1114112) then
    [chr (240 + r / 262144); chr (128 + r / 4096 mod 64);
     chr (128 + r / 64 mod 64); chr (128 + r mod 64)]
  else [chr 239; chr 191; chr 189].

(** The runes of a string in order, each with the bytes it was decoded from
    and whether those bytes are well-formed.  [fuel] is the number of bytes. *)
Record rune_chunk := RuneChunk { rc_rune : Z; rc_bytes : gostring; rc_valid : bool }.

Fixpoint chunks_go (fuel : nat) (s : gostring) : list rune_chunk :=
  match fuel, s with
  | S fuel', _ :: _ =>
      let '(r, w) := decode_rune s in
      RuneChunk r (take w s) (negb ((r =? runeError) && bool_decide (w = 1%nat)))
        :: chunks_go fuel' (drop w s)
  | _, _ => []
  end.
Definition rune_chunks (s : gostring) : list rune_chunk := chunks_go (length s) s.
Definition runes (s : gostring) : list Z := rc_rune <$> rune_chunks s.
Definition runeCount (s : gostring) : nat := length (rune_chunks s).

Definition validString (s : gostring) : bool := forallb rc_valid (rune_chunks s).

Definition flatten_runes (l : list rune_chunk) : gostring := concat (rc_bytes <$> l).

(** [strings.ToValidUTF8]: each maximal run of invalid bytes becomes one
    replacement. *)
Fixpoint to_valid_go (repl : gostring) (in_run : bool) (l : list rune_chunk) : gostring :=
  match l with
  | [] => []
  | k :: l' =>
      if rc_valid k then rc_bytes k ++ to_valid_go repl false l'
      else if in_run then to_valid_go repl true l'
      else repl ++ to_valid_go repl true l'
  end.
Definition replacement : gostring := [chr 239; chr 191; chr 189].
Definition toValidUTF8 (s : gostring) : gostring := to_valid_go replacement false (rune_chunks s).

(** [strings.Map]; the mapping drops a rune by returning [None]. *)
Definition map_runes (f : Z -> option Z) (s : gostring) : gostring :=
  concat ((λ r, match f r with Some r' => encode_rune r' | None => [] end) <$> runes s).

(** ** White space *)

(** UTF-8 encodings of the code points with Unicode property White_Space,
    the predicate [unicode.IsSpace]. *)
Definition space_runes : list Z :=
  [9; 10; 11; 12; 13; 32; 133; 160; 5760; 8192; 8193; 8194; 8195; 8196; 8197;
   8198; 8199; 8200; 8201; 8202; 8232; 8233; 8239; 8287; 12288].
Definition space_seqs : list gostring := encode_rune <$> space_runes.
Definition space_seqs_rev : list gostring := rev (A:=ascii) <$> space_seqs.

Definition strip_one (seqs : list gostring) (s : gostring) : option gostring :=
  match List.find (hasPrefix s) seqs with
  | Some q => Some (drop (length q) s)
  | None => None
  end.

Fixpoint strip_go (seqs : list gostring) (fuel : nat) (s : gostring) : gostring :=
  match fuel with
  | O => s
  | S fuel' => match strip_one seqs s with
               | Some s' => strip_go seqs fuel' s'
               | None => s
               end
  end.

Definition trimLeftSpace (s : gostring) : gostring := strip_go space_seqs (length s) s.
Definition trimRightSpace (s : gostring) : gostring :=
  rev (strip_go space_seqs_rev (length s) (rev s)).
Definition trimSpace (s : gostring) : gostring := trimRightSpace (trimLeftSpace s).

(** [strings.Fields]: maximal runs of characters that are not white space. *)
Fixpoint fields_chunks (cur : gostring) (l : list rune_chunk) : list gostring :=
  match l with
  | [] => match cur with [] => [] | _ => [cur] end
  | k :: l' =>
      if rc_valid k && bool_decide (rc_rune k ∈ space_runes)
      then match cur with [] => fields_chunks [] l' | _ => cur :: fields_chunks [] l' end
      else fields_chunks (cur ++ rc_bytes k) l'
  end.
Definition fields (s : gostring) : list gostring := fields_chunks [] (rune_chunks s).

(** [strings.Trim] with a cutset of ASCII bytes. *)
Fixpoint trimLeftSet (cutset : gostring) (s : gostring) : gostring :=
  match s with
  | [] => []
  | c :: s' => if existsb (ceq c) cutset then trimLeftSet cutset s' else s
  end.
Definition trimSet (s cutset : gostring) : gostring :=
  rev (trimLeftSet cutset (rev (trimLeftSet cutset s))).

(** [strings.TrimRight] with such a cutset. *)
Definition trimRightSet (s cutset : gostring) : gostring := rev (trimLeftSet cutset (rev s)).

(** [strings.Contains] *)
Fixpoint contains (s sub : gostring) : bool :=
  hasPrefix s sub || match s with [] => false | _ :: s => contains s sub end.

(** The bytes before the first one of [stops]: [s[:strings.IndexAny(s, stops)]]. *)
Fixpoint before_any (stops : gostring) (s : gostring) : gostring :=
  match s with [] => [] | c :: s => if existsb (ceq c) stops then [] else c :: before_any stops s end.

(** [path.Base] *)
Definition path_base (path : gostring) : gostring :=
  match path with
  | [] => ["."%char]
  | _ =>
      let path := trimRightSet path ["/"%char] in
      let path := match after_last "/"%char path with Some rest => rest | None => path end in
      match path with [] => ["/"%char] | _ => path end
  end.

(** [url.PathUnescape]; [None] is an [EscapeError]. *)
Definition unhex (c : ascii) : option Z :=
  let n := code c in
  if (48 <=? n) && (n <=? 57) then Some (n - 48)
  else if (97 <=? n) && (n <=? 102) then Some (n - 87)
  else if (65 <=? n) && (n <=? 70) then Some (n - 55)
  else None.
Fixpoint path_unescape (s : gostring) : option gostring :=
  match s with
  | [] => Some []
  | c :: s' =>
      if ceq c "%"%char then
        match s' with
        | a :: b :: rest =>
            match unhex a, unhex b, path_unescape rest with
            | Some x, Some y, Some t => Some (chr (16 * x + y) :: t)
            | _, _, _ => None
            end
        | _ => None
        end
      else (c ::.) <$> path_unescape s'
  end.

(** ** Case *)

Definition lowerZ (r : Z) : Z := if (65 <=? r) && (r <=? 90) then r + 32 else r.
Definition lower_ascii (c : ascii) : ascii := chr (lowerZ (code c)).
Definition upperZ (r : Z) : Z := if (97 <=? r) && (r <=? 122) then r - 32 else r.
Definition upper_ascii (c : ascii) : ascii := chr (upperZ (code c)).
Definition is_ascii (c : ascii) : bool := code c <? 128.

(** Unicode case tables: [unicode.ToLower], [unicode.ToUpper] and a canonical
    representative of each [unicode.SimpleFold] orbit. *)
Class UnicodeTables := {
  to_lower_rune : Z -> Z;
  to_upper_rune : Z -> Z;
  fold_rune : Z -> Z;
  to_lower_ascii : forall r, 0 <= r < 128 -> to_lower_rune r = lowerZ r;
  to_upper_ascii : forall r, 0 <= r < 128 -> to_upper_rune r = upperZ r;
  fold_ascii : forall r, 0 <= r < 128 -> fold_rune r = lowerZ r;
}.

Definition unicode_is_control (r : Z) : bool :=
  ((0 <=? r) && (r <=? 31)) || ((127 <=? r) && (r <=? 159)).

Section Case.
Context `{UnicodeTables}.

Definition toLower (s : gostring) : gostring :=
  if forallb is_ascii s then map lower_ascii s
  else map_runes (λ r, Some (to_lower_rune r)) s.
Definition toUpper (s : gostring) : gostring :=
  if forallb is_ascii s then map upper_ascii s
  else map_runes (λ r, Some (to_upper_rune r)) s.

Definition equalFold (s t : gostring) : bool :=
  bool_decide (map fold_rune (runes s) = map fold_rune (runes t)).
End Case.

(** Tables for evaluation: ASCII, and the code points outside ASCII whose lower
    case, upper case or fold is an ASCII letter. *)
Definition basic_tables : UnicodeTables.
Proof.
  refine {| to_lower_rune := λ r, if r =? 8490 then 107 else if r =? 304 then 105 else lowerZ r;
            to_upper_rune := λ r, if r =? 305 then 73 else if r =? 383 then 83 else upperZ r;
            fold_rune := λ r, if r =? 8490 then 107 else if r =? 383 then 115 else lowerZ r |}.
  - intros r Hr. repeat case_match; lia.
  - intros r Hr. repeat case_match; lia.
  - intros r Hr. repeat case_match; lia.
Defined.

(** ** Lemmas: prefixes, cutting, splitting *)

Lemma ceq_true a b : ceq a b = true <-> a = b.
Proof. unfold ceq. apply bool_decide_eq_true. Qed.
Lemma ceq_false a b : ceq a b = false <-> a <> b.
Proof. unfold ceq. apply bool_decide_eq_false. Qed.
Lemma ceq_refl a : ceq a a = true.
Proof. by apply ceq_true. Qed.
Lemma beq_true a b : beq a b = true <-> a = b.
Proof. unfold beq. apply bool_decide_eq_true. Qed.

Create HintDb gotext discriminated.
Create Rewrite HintDb gotext.
#[export] Hint Rewrite ceq_true ceq_false beq_true andb_true_iff orb_true_iff
  negb_true_iff Z.leb_le Z.ltb_lt Z.eqb_eq : gotext.

Lemma hasPrefix_spec s p : hasPrefix s p = true <-> exists t, s = p ++ t.
Proof.
  revert s; induction p as [|c p IH]; intros s; simpl.
  - split; [by exists s | done].
  - destruct s as [|d s].
    + split; [done | intros [t Ht]; discriminate].
    + rewrite andb_true_iff, ceq_true, IH. split.
      * intros [-> [t ->]]. by exists t.
      * intros [t Ht]. simplify_eq/=. eauto.
Qed.

Lemma hasPrefix_app p t : hasPrefix (p ++ t) p = true.
Proof. apply hasPrefix_spec. by exists t. Qed.

Lemma hasSuffix_spec s p : hasSuffix s p = true <-> exists t, s = t ++ p.
Proof.
  unfold hasSuffix. rewrite hasPrefix_spec. split.
  - intros [t Ht]. exists (rev t). rewrite <- (rev_involutive s), Ht, rev_app_distr.
    by rewrite rev_involutive.
  - intros [t ->]. exists (rev t). by rewrite rev_app_distr.
Qed.

Lemma trimSuffix_app t p : trimSuffix (t ++ p) p = t.
Proof.
  unfold trimSuffix. rewrite (proj2 (hasSuffix_spec _ _)) by by exists t.
  rewrite length_app. replace (length t + length p - length p)%nat with (length t) by lia.
  apply take_app_length.
Qed.

Lemma trimSuffix_length s p : (length (trimSuffix s p) <= length s)%nat.
Proof. unfold trimSuffix. case_match; [rewrite length_take; lia | lia]. Qed.

Lemma cut_Some sep s a b : cut sep s = Some (a, b) <-> s = a ++ sep :: b /\ sep ∉ a.
Proof.
  revert a b; induction s as [|c s IH]; intros a b; simpl.
  - split; [done | intros [Hs _]; destruct a; discriminate].
  - destruct (ceq c sep) eqn:E.
    + apply ceq_true in E as ->. split.
      * intros [= <- <-]. split; [done | apply not_elem_of_nil].
      * intros [Hs Hn]. destruct a as [|x a]; simplify_eq/=; [done|].
        exfalso. apply Hn. by left.
    + apply ceq_false in E. destruct (cut sep s) as [[a' b']|] eqn:Ec.
      * destruct (proj1 (IH _ _) eq_refl) as [-> Hn']. split.
        -- intros [= <- <-]. split; [done|]. set_solver.
        -- intros [Hs Hn]. destruct a as [|x a]; simplify_eq/=.
           assert (Some (a', b') = Some (a, b)) as [= -> ->]; [|done].
           apply IH. split; [done|set_solver].
      * split; [done|]. intros [Hs Hn]. destruct a as [|x a]; simplify_eq/=.
        assert (None = Some (a, b)); [|done]. apply IH. split; [done|set_solver].
Qed.

Lemma cut_app sep a b : sep ∉ a -> cut sep (a ++ sep :: b) = Some (a, b).
Proof. intros H. by apply cut_Some. Qed.

Lemma cut_None sep s : cut sep s = None <-> sep ∉ s.
Proof.
  split.
  - intros Hc Hin. apply list_elem_of_split in Hin as (a & b & ->).
    induction a as [|x a IH]; simpl in Hc.
    + by rewrite ceq_refl in Hc.
    + destruct (ceq x sep); [done|]. apply IH. by repeat case_match.
  - intros Hn. destruct (cut sep s) as [[a b]|] eqn:E; [|done].
    apply cut_Some in E as [-> _]. exfalso. set_solver.
Qed.

Lemma cut_length sep s a b : cut sep s = Some (a, b) -> length s = S (length a + length b).
Proof. intros [-> _]%cut_Some. rewrite length_app. simpl. lia. Qed.

Lemma indexByte_None s c : indexByte s c = None <-> c ∉ s.
Proof.
  induction s as [|d s IH]; simpl; [set_solver|].
  destruct (ceq d c) eqn:E; [apply ceq_true in E as ->; set_solver|].
  apply ceq_false in E. rewrite fmap_None, IH. set_solver.
Qed.

Lemma split_nonempty sep s : split sep s <> [].
Proof. destruct s; simpl; [done|]. repeat case_match; done. Qed.

Lemma split_join sep s : join [sep] (split sep s) = s.
Proof.
  induction s as [|c s IH]; simpl; [done|].
  pose proof (split_nonempty sep s) as Hne.
  destruct (ceq c sep) eqn:E.
  - apply ceq_true in E as ->. destruct (split sep s) eqn:Es; [done|].
    simpl in *. by rewrite IH.
  - destruct (split sep s) as [|w ws] eqn:Es; [done|].
    destruct ws; simpl in *; congruence.
Qed.

Lemma split_no_sep sep s : Forall (λ w, sep ∉ w) (split sep s).
Proof.
  induction s as [|c s IH]; simpl; [repeat constructor; set_solver|].
  destruct (ceq c sep) eqn:E; [constructor; [set_solver|done]|].
  apply ceq_false in E. destruct (split sep s) as [|w ws].
  - repeat constructor. set_solver.
  - apply Forall_cons in IH as [Hw Hws]. constructor; [set_solver|done].
Qed.

(** Labels of a dotted name, one separator less than pieces. *)
Lemma split_cons_app sep a b : sep ∉ a -> split sep (a ++ sep :: b) = a :: split sep b.
Proof.
  induction a as [|c a IH]; intros Hn; simpl.
  - by rewrite ceq_refl.
  - rewrite (proj2 (ceq_false c sep)) by set_solver.
    rewrite IH by set_solver. done.
Qed.

Lemma split_single sep a : sep ∉ a -> split sep a = [a].
Proof.
  induction a as [|c a IH]; intros Hn; simpl; [done|].
  rewrite (proj2 (ceq_false c sep)) by set_solver. by rewrite IH by set_solver.
Qed.

Lemma replace_char_length old new s :
  (length (replaceAll s [old] new) <= length s * Nat.max 1 (length new))%nat.
Proof.
  unfold replaceAll. induction s as [|c s IH]; [done|].
  cbn [replace_go hasPrefix length Nat.sub]. rewrite andb_true_r.
  destruct (ceq old c); rewrite ?length_app; cbn [length] in *; nia.
Qed.

Lemma replace_char old new s :
  replaceAll s [old] new = concat ((λ c, if ceq old c then new else [c]) <$> s).
Proof.
  unfold replaceAll. induction s as [|c s IH]; [done|].
  cbn [replace_go hasPrefix length Nat.sub]. rewrite andb_true_r.
  destruct (ceq old c) eqn:E; cbn; rewrite E; cbn; by rewrite <- IH.
Qed.

(** ** Lemmas: UTF-8 *)

Lemma decode_rune_width s : s <> [] ->
  (1 <= (decode_rune s).2 <= 4)%nat /\ ((decode_rune s).2 <= length s)%nat.
Proof.
  intros Hne. destruct s as [|c0 s]; [done|]. unfold decode_rune.
  repeat case_match; simpl; lia.
Qed.

Lemma take_width_S w (c : ascii) s : (1 <= w)%nat -> take w (c :: s) = c :: take (w - 1) s.
Proof. intros. destruct w; [lia|]. simpl. by rewrite Nat.sub_0_r. Qed.

(** A valid chunk: its bytes alone determine the decoding, whatever follows,
    the first byte starts a rune and the others continue it. *)
Definition wf_chunk (k : rune_chunk) : Prop :=
  rc_valid k = true /\ rc_bytes k <> [] /\
  (forall rest, decode_rune (rc_bytes k ++ rest) = (rc_rune k, length (rc_bytes k))) /\
  ~ (rc_rune k = runeError /\ length (rc_bytes k) = 1%nat) /\
  match rc_bytes k with
  | c :: tl => runeStart c = true /\ Forall (λ d, runeStart d = false) tl
  | [] => True
  end.

Lemma runeStart_cont c lo hi : 128 <= lo -> hi <= 191 -> in_range lo hi c = true -> runeStart c = false.
Proof.
  intros Hlo Hhi Hr. unfold in_range in Hr. autorewrite with gotext in Hr.
  assert (Hc : 128 <= code c <= 191) by lia. clear -Hc.
  unfold runeStart. rewrite negb_false_iff. apply Z.eqb_eq.
  destruct c as [[] [] [] [] [] [] [] []]; vm_compute in Hc |- *; try done;
    exfalso; destruct Hc as [H1 H2]; first [by apply H1 | by apply H2].
Qed.

Lemma runeStart_lead c : code c < 128 \/ 192 <= code c -> runeStart c = true.
Proof.
  intros Hc. unfold runeStart.
  destruct c as [[] [] [] [] [] [] [] []]; vm_compute in Hc |- *; try done;
    exfalso; destruct Hc as [H1|H1]; by apply H1 || discriminate.
Qed.

Lemma in_second_cont b0 c : in_second b0 c = true -> runeStart c = false.
Proof.
  unfold in_second, second_range. repeat case_match; intros Hr; simplify_eq;
    (eapply runeStart_cont; [| |exact Hr]; lia).
Qed.

Lemma decode_rune_wf s r w :
  s <> [] -> decode_rune s = (r, w) -> ~ (r = runeError /\ w = 1%nat) ->
  wf_chunk (RuneChunk r (take w s) true).
Proof.
  intros Hne Hd Hv. destruct s as [|c0 s]; [done|]. unfold decode_rune in Hd.
  unfold wf_chunk; cbn [rc_valid rc_bytes rc_rune].
  assert (Hc : forall d, is_cont d = true -> runeStart d = false)
    by (intros d; apply runeStart_cont; lia).
  repeat (case_match; simplify_eq/=; try (exfalso; by apply Hv));
    rewrite ?andb_true_iff, ?Z.leb_le in *; destruct_and?;
    (split_and!; [done|done| |done| |]);
    try (intros rest; unfold decode_rune; cbn [app length];
         repeat first [ rewrite (proj2 (Z.ltb_ge _ _)) by lia
                      | match goal with H : ?b = true |- context [?b] => rewrite H end
                      | match goal with H : ?b = false |- context [?b] => rewrite H end
                      | rewrite (proj2 (Z.leb_le _ _)) by lia ]; done);
    try (apply runeStart_lead; rewrite ?Z.ltb_lt, ?Z.ltb_ge in *; lia);
    repeat constructor; eauto using in_second_cont.
Qed.

Lemma chunks_go_flatten fuel s : (length s <= fuel)%nat -> flatten_runes (chunks_go fuel s) = s.
Proof.
  revert s; induction fuel as [|fuel IH]; intros s Hl.
  - by destruct s; simpl in *; [|lia].
  - destruct s as [|c s]; [done|]. cbn [chunks_go].
    pose proof (decode_rune_width (c :: s) ltac:(done)) as [Hw Hw'].
    destruct (decode_rune (c :: s)) as [r w] eqn:E. cbn [snd] in *.
    unfold flatten_runes. cbn [fmap list_fmap concat rc_bytes].
    change (take w (c :: s) ++ flatten_runes (chunks_go fuel (drop w (c :: s))) = c :: s).
    rewrite IH by (rewrite length_drop; simpl in *; lia). apply take_drop.
Qed.

Lemma rune_chunks_flatten s : flatten_runes (rune_chunks s) = s.
Proof. by apply chunks_go_flatten. Qed.

Lemma chunks_go_wf fuel s : Forall (λ k, rc_valid k = true -> wf_chunk k) (chunks_go fuel s).
Proof.
  revert s; induction fuel as [|fuel IH]; intros s; [constructor|].
  destruct s as [|c s]; [constructor|]. cbn [chunks_go].
  destruct (decode_rune (c :: s)) as [r w] eqn:E. constructor; [|apply IH].
  cbn [rc_valid]. intros Hv. rewrite Hv. apply decode_rune_wf; [done|done|].
  rewrite negb_true_iff, andb_false_iff in Hv. intros [-> ->].
  destruct Hv as [Hv|Hv]; [by rewrite Z.eqb_refl in Hv|by case_bool_decide].
Qed.

Lemma chunks_go_fuel fuel s : (length s <= fuel)%nat -> chunks_go fuel s = rune_chunks s.
Proof.
  unfold rune_chunks. revert s. induction fuel as [fuel IH] using lt_wf_ind; intros s Hl.
  destruct fuel as [|fuel]; [by destruct s; simpl in *; [|lia]|].
  destruct s as [|c s]; [done|]. cbn [chunks_go length].
  pose proof (decode_rune_width (c :: s) ltac:(done)) as [Hw Hw'].
  destruct (decode_rune (c :: s)) as [r w]. cbn [snd] in *. f_equal.
  cbn [length] in *.
  rewrite IH by (rewrite ?length_drop; simpl; lia).
  symmetry. apply IH; rewrite ?length_drop; simpl; lia.
Qed.

Lemma wf_chunk_cons k rest : wf_chunk k ->
  rune_chunks (rc_bytes k ++ rest) = k :: rune_chunks rest.
Proof.
  intros (Hv & Hne & Hd & Hbad & _). destruct k as [r bs v]; cbn in *; subst v.
  unfold rune_chunks. destruct bs as [|c bs]; [done|].
  cbn [app length chunks_go]. rewrite app_comm_cons, Hd.
  f_equal.
  - f_equal; [apply take_app_length|].
    rewrite negb_true_iff, andb_false_iff, Z.eqb_neq, bool_decide_eq_false.
    destruct (decide (r = runeError)); [right|by left]. intros ?. by apply Hbad.
  - rewrite drop_app_length. apply chunks_go_fuel. rewrite length_app. lia.
Qed.

Lemma rune_chunks_of_wf l : Forall wf_chunk l -> rune_chunks (flatten_runes l) = l.
Proof.
  induction 1 as [|k l Hk Hl IH]; [done|].
  unfold flatten_runes. cbn [fmap list_fmap concat].
  rewrite wf_chunk_cons by done. f_equal. exact IH.
Qed.

Lemma wf_chunk_valid l : Forall wf_chunk l -> forallb rc_valid l = true.
Proof. intros H. apply forallb_forall. intros k Hk. rewrite List.Forall_forall in H. by apply H in Hk as [? _]. Qed.

Lemma validString_chunks s : validString s = true -> Forall wf_chunk (rune_chunks s).
Proof.
  unfold validString. intros H. rewrite forallb_forall in H.
  apply List.Forall_forall. intros k Hk. pose proof (chunks_go_wf (length s) s) as Hw.
  rewrite List.Forall_forall in Hw. by apply Hw; [|apply H].
Qed.

Lemma validString_flatten l : Forall wf_chunk l -> validString (flatten_runes l) = true.
Proof. intros H. unfold validString. rewrite rune_chunks_of_wf by done. by apply wf_chunk_valid. Qed.

Definition replacement_chunk : rune_chunk := RuneChunk runeError replacement true.

Lemma replacement_chunk_wf : wf_chunk replacement_chunk.
Proof.
  unfold wf_chunk; cbn. split_and!; [done|done|done| |done|].
  - intros [_ ?]; discriminate.
  - repeat constructor.
Qed.

(** The chunks of the repaired string. *)
Fixpoint repaired (in_run : bool) (l : list rune_chunk) : list rune_chunk :=
  match l with
  | [] => []
  | k :: l' => if rc_valid k then k :: repaired false l'
               else if in_run then repaired true l' else replacement_chunk :: repaired true l'
  end.

Lemma to_valid_repaired b l : to_valid_go replacement b l = flatten_runes (repaired b l).
Proof.
  revert b; induction l as [|k l IH]; intros b; [done|]. simpl.
  destruct (rc_valid k); [|destruct b]; rewrite IH; done.
Qed.

Lemma repaired_wf b l : Forall (λ k, rc_valid k = true -> wf_chunk k) l -> Forall wf_chunk (repaired b l).
Proof.
  intros H. revert b. induction H as [|k l Hk Hl IH]; intros b; [constructor|]. simpl.
  destruct (rc_valid k) eqn:E; [|destruct b; [apply IH|]].
  - apply Forall_cons. split; [by apply Hk|apply IH].
  - apply Forall_cons. split; [apply replacement_chunk_wf|apply IH].
Qed.

Lemma toValidUTF8_chunks s : exists l, toValidUTF8 s = flatten_runes l /\ Forall wf_chunk l.
Proof.
  exists (repaired false (rune_chunks s)). unfold toValidUTF8.
  split; [apply to_valid_repaired | apply repaired_wf, chunks_go_wf].
Qed.

Lemma toValidUTF8_valid s : validString (toValidUTF8 s) = true.
Proof. destruct (toValidUTF8_chunks s) as (l & -> & Hl). by apply validString_flatten. Qed.

Lemma repaired_id l b : forallb rc_valid l = true -> repaired b l = l.
Proof.
  revert b; induction l as [|k l IH]; intros b; [done|]. simpl.
  intros [Hk Hl]%andb_true_iff. rewrite Hk. f_equal. by apply IH.
Qed.

Lemma toValidUTF8_id s : validString s = true -> toValidUTF8 s = s.
Proof.
  intros Hv. unfold toValidUTF8. rewrite to_valid_repaired, repaired_id by done.
  apply rune_chunks_flatten.
Qed.

(** The byte at which a valid string may be cut. *)
Definition cut_point (s : gostring) (n : nat) : Prop :=
  n = length s \/ exists c, s !! n = Some c /\ runeStart c = true.

Lemma flatten_cons k l : flatten_runes (k :: l) = rc_bytes k ++ flatten_runes l.
Proof. done. Qed.

Lemma take_cut_point l n :
  Forall wf_chunk l -> (n <= length (flatten_runes l))%nat -> cut_point (flatten_runes l) n ->
  exists l', take n (flatten_runes l) = flatten_runes l' /\ l' `prefix_of` l.
Proof.
  intros Hl. revert n. induction Hl as [|k l Hk Hl IH]; intros n Hn Hc.
  - exists []. split; [by destruct n | done].
  - destruct Hk as (Hv & Hne & Hd & Hbad & Hbytes). rewrite flatten_cons in *.
    destruct (decide (n = 0%nat)) as [->|Hn0]; [exists []; split; [done|apply prefix_nil]|].
    destruct (decide (length (rc_bytes k) <= n)%nat) as [Hle|Hgt].
    + destruct (IH (n - length (rc_bytes k))%nat) as (l' & Hl' & Hp).
      * rewrite length_app in Hn. lia.
      * destruct Hc as [->|(c & Hlk & Hs)].
        -- left. rewrite length_app. lia.
        -- right. exists c. split; [|done]. by rewrite lookup_app_r in Hlk by lia.
      * exists (k :: l'). rewrite take_app_ge by lia. rewrite Hl'. split; [done|].
        by apply prefix_cons.
    + exfalso. destruct Hc as [->|(c & Hlk & Hs)]; [rewrite length_app in Hgt; lia|].
      rewrite lookup_app_l in Hlk by lia.
      destruct (rc_bytes k) as [|b tl]; [done|]. destruct n as [|n]; [done|].
      destruct Hbytes as [_ Htl]. rewrite Forall_lookup in Htl.
      simpl in Hlk. apply Htl in Hlk. simpl in Hlk. congruence.
Qed.

(** ** Lemmas: trimming *)

(** A string to which no sequence of the list can be stripped. *)
Definition no_strip (seqs : list gostring) (s : gostring) : Prop :=
  Forall (λ q, hasPrefix s q = false) seqs.

Lemma strip_one_None seqs s : strip_one seqs s = None <-> no_strip seqs s.
Proof.
  unfold strip_one, no_strip. split.
  - destruct (List.find _ _) eqn:E; [done|]. intros _.
    apply List.Forall_forall. intros q Hq. by apply (find_none _ _ E).
  - intros Hn. destruct (List.find _ _) as [q|] eqn:E; [|done].
    apply find_some in E as [Hq Hp]. rewrite List.Forall_forall in Hn. by rewrite Hn in Hp.
Qed.

Lemma strip_one_Some seqs s s' : strip_one seqs s = Some s' ->
  exists q, q ∈ seqs /\ s = q ++ s'.
Proof.
  unfold strip_one. destruct (List.find _ _) as [q|] eqn:E; [|done]. intros [= <-].
  apply find_some in E as [Hq Hp]. exists q. split; [by apply list_elem_of_In|].
  apply hasPrefix_spec in Hp as [t ->]. by rewrite drop_app_length.
Qed.

Lemma strip_go_suffix seqs fuel s : exists p, s = p ++ strip_go seqs fuel s.
Proof.
  revert s; induction fuel as [|fuel IH]; intros s; [by exists []|]. simpl.
  destruct (strip_one seqs s) as [s'|] eqn:E; [|by exists []].
  apply strip_one_Some in E as (q & _ & ->). destruct (IH s') as [p Hp].
  exists (q ++ p). rewrite <- app_assoc. by rewrite <- Hp.
Qed.

Lemma strip_go_no_strip seqs fuel s :
  Forall (λ q, q <> []) seqs -> (length s <= fuel)%nat -> no_strip seqs (strip_go seqs fuel s).
Proof.
  intros Hne. revert s. induction fuel as [|fuel IH]; intros s Hl; simpl.
  - destruct s; [|simpl in *; lia]. apply List.Forall_forall. intros q Hq.
    rewrite List.Forall_forall in Hne. apply Hne in Hq. by destruct q.
  - destruct (strip_one seqs s) as [s'|] eqn:E; [|by apply strip_one_None].
    apply strip_one_Some in E as (q & Hq & ->). apply IH.
    rewrite List.Forall_forall in Hne. apply list_elem_of_In, Hne in Hq.
    rewrite length_app in Hl. destruct q; [done|]. simpl in Hl. lia.
Qed.

Lemma strip_go_id seqs fuel s : no_strip seqs s -> strip_go seqs fuel s = s.
Proof. destruct fuel; [done|]. intros H%strip_one_None. simpl. by rewrite H. Qed.

Lemma no_strip_prefix seqs s t : no_strip seqs (s ++ t) -> no_strip seqs s.
Proof.
  unfold no_strip. intros H. eapply Forall_impl; [exact H|]. intros q Hq. cbn beta in *.
  destruct (hasPrefix s q) eqn:E; [|done]. apply hasPrefix_spec in E as [u ->].
  rewrite <- Hq. symmetry. rewrite <- app_assoc. apply hasPrefix_app.
Qed.

Lemma space_seqs_nonempty : Forall (λ q, q <> []) space_seqs.
Proof. apply List.Forall_forall. intros q Hq ->. vm_compute in Hq. tauto || (repeat destruct Hq as [Hq|Hq]; done). Qed.
Lemma space_seqs_rev_nonempty : Forall (λ q, q <> []) space_seqs_rev.
Proof. apply List.Forall_forall. intros q Hq ->. vm_compute in Hq. repeat destruct Hq as [Hq|Hq]; done. Qed.

(** A string with no white space at either end. *)
Definition trimmed (s : gostring) : Prop :=
  no_strip space_seqs s /\ no_strip space_seqs_rev (rev s).

Lemma trimRightSpace_prefix s : exists t, s = trimRightSpace s ++ t.
Proof.
  unfold trimRightSpace. destruct (strip_go_suffix space_seqs_rev (length s) (rev s)) as [p Hp].
  exists (rev p). rewrite <- rev_app_distr, <- Hp. by rewrite rev_involutive.
Qed.

Lemma trimSpace_trimmed s : trimmed (trimSpace s).
Proof.
  unfold trimmed, trimSpace. split.
  - destruct (trimRightSpace_prefix (trimLeftSpace s)) as [t Ht].
    eapply no_strip_prefix. rewrite <- Ht.
    by apply strip_go_no_strip; [apply space_seqs_nonempty|].
  - unfold trimRightSpace. rewrite rev_involutive.
    apply strip_go_no_strip; [apply space_seqs_rev_nonempty|]. by rewrite length_rev.
Qed.

Lemma trimSpace_id s : trimmed s -> trimSpace s = s.
Proof.
  intros [Hl Hr]. unfold trimSpace, trimLeftSpace, trimRightSpace.
  rewrite !(strip_go_id space_seqs) by done. rewrite (strip_go_id space_seqs_rev) by done. apply rev_involutive.
Qed.

Lemma trimSpace_idem s : trimSpace (trimSpace s) = trimSpace s.
Proof. apply trimSpace_id, trimSpace_trimmed. Qed.

Lemma trimSpace_infix s : exists a b, s = a ++ trimSpace s ++ b.
Proof.
  unfold trimSpace. destruct (strip_go_suffix space_seqs (length s) s) as [p Hp].
  destruct (trimRightSpace_prefix (trimLeftSpace s)) as [t Ht].
  exists p, t. rewrite <- Ht. exact Hp.
Qed.

Lemma trimSpace_length s : (length (trimSpace s) <= length s)%nat.
Proof.
  destruct (trimSpace_infix s) as (a & b & Hs). apply (f_equal length) in Hs.
  rewrite !length_app in Hs. lia.
Qed.

(** ** Lemmas: case *)

Lemma lowerZ_idem r : lowerZ (lowerZ r) = lowerZ r.
Proof. unfold lowerZ. repeat case_match; rewrite ?andb_true_iff, ?Z.leb_le in *; lia. Qed.

Lemma lowerZ_byte r : 0 <= r < 128 -> 0 <= lowerZ r < 128.
Proof. unfold lowerZ. case_match; rewrite ?andb_true_iff, ?Z.leb_le in *; lia. Qed.

Lemma lower_ascii_idem c : is_ascii c = true -> lower_ascii (lower_ascii c) = lower_ascii c.
Proof.
  unfold is_ascii, lower_ascii. rewrite Z.ltb_lt. intros Hc. pose proof (code_range c).
  pose proof (lowerZ_byte (code c)). rewrite code_chr by lia. by rewrite lowerZ_idem.
Qed.

Lemma lower_ascii_ascii c : is_ascii c = true -> is_ascii (lower_ascii c) = true.
Proof.
  unfold is_ascii, lower_ascii. rewrite !Z.ltb_lt. intros Hc. pose proof (code_range c).
  pose proof (lowerZ_byte (code c)). rewrite code_chr by lia. lia.
Qed.

Lemma toLower_ascii `{UnicodeTables} s : forallb is_ascii s = true -> toLower s = map lower_ascii s.
Proof. unfold toLower. by intros ->. Qed.

(** A string of bytes that are lower-case already is its own lower case. *)
Definition is_lower (c : ascii) : bool := (code c <? 128) && negb (in_range 65 90 c).

Lemma toLower_id `{UnicodeTables} s : forallb is_lower s = true -> toLower s = s.
Proof.
  intros Hs. assert (Ha : forallb is_ascii s = true).
  { rewrite forallb_forall in Hs |- *. intros c Hc. apply Hs in Hc.
    unfold is_lower in Hc. unfold is_ascii. by apply andb_true_iff in Hc as [-> _]. }
  rewrite toLower_ascii by done. rewrite forallb_forall in Hs.
  rewrite <- (map_id s) at 2. apply map_ext_in. intros c Hc%Hs.
  unfold is_lower, in_range in Hc. unfold lower_ascii, lowerZ.
  apply andb_true_iff in Hc as [_ Hc]. rewrite negb_true_iff in Hc. rewrite Hc. apply chr_code.
Qed.

(** ** Lemmas: strings of ASCII runes *)

Lemma decode_rune_ascii c s r w : decode_rune (c :: s) = (r, w) -> r < 128 -> code c = r /\ w = 1%nat.
Proof.
  unfold decode_rune, in_second, second_range, is_cont, in_range, runeError.
  intros Hd Hr. pose proof (code_range c).
  repeat case_match; simplify_eq; rewrite ?andb_true_iff, ?Z.leb_le, ?Z.ltb_lt, ?Z.ltb_ge, ?Z.eqb_eq, ?Z.eqb_neq in *;
    first [done | lia].
Qed.

Lemma rune_chunks_cons c s :
  rune_chunks (c :: s) =
    let '(r, w) := decode_rune (c :: s) in
    RuneChunk r (take w (c :: s)) (negb ((r =? runeError) && bool_decide (w = 1%nat)))
      :: rune_chunks (drop w (c :: s)).
Proof.
  unfold rune_chunks at 1. cbn [length chunks_go].
  pose proof (decode_rune_width (c :: s) ltac:(done)) as [Hw Hw'].
  destruct (decode_rune (c :: s)) as [r w]. cbn [snd length] in *. f_equal.
  apply chunks_go_fuel. rewrite length_drop. simpl. lia.
Qed.

Lemma runes_ascii s : Forall (λ r, r < 128) (runes s) -> runes s = code <$> s.
Proof.
  induction s as [|c s IH]; [done|]. unfold runes. rewrite rune_chunks_cons.
  destruct (decode_rune (c :: s)) as [r w] eqn:E. cbn [fmap list_fmap rc_rune].
  intros [Hr Hrest]%Forall_cons. destruct (decode_rune_ascii _ _ _ _ E Hr) as [Hc ->].
  cbn [drop] in *. f_equal; [by rewrite Hc|]. by apply IH.
Qed.

Lemma runes_of_ascii s : forallb is_ascii s = true -> runes s = code <$> s.
Proof.
  induction s as [|c s IH]; [done|]. simpl. intros [Hc Hs]%andb_true_iff.
  unfold runes. rewrite rune_chunks_cons. unfold decode_rune.
  unfold is_ascii in Hc. rewrite Hc. cbn. f_equal. by apply IH.
Qed.

(** Printable ASCII bytes: no white space among them. *)
Definition is_plain (c : ascii) : bool := in_range 33 126 c.

Definition seqs_not_plain (seqs : list gostring) : bool :=
  forallb (λ q, match q with c :: _ => negb (is_plain c) | [] => false end) seqs.

Lemma no_strip_plain seqs s : seqs_not_plain seqs = true -> forallb is_plain s = true -> no_strip seqs s.
Proof.
  unfold seqs_not_plain. intros Hq Hs. rewrite forallb_forall in Hq.
  apply List.Forall_forall. intros q Hin%Hq. destruct q as [|c q]; [done|].
  destruct s as [|d s]; [done|]. simpl in *. apply andb_true_iff in Hs as [Hd _].
  destruct (ceq c d) eqn:E; [|done]. apply ceq_true in E as ->. by rewrite Hd in Hin.
Qed.

Lemma trimSpace_plain s : forallb is_plain s = true -> trimSpace s = s.
Proof.
  intros Hs. apply trimSpace_id. split.
  - by apply no_strip_plain.
  - apply no_strip_plain; [done|]. rewrite forallb_forall in *. intros c Hc. apply Hs. by apply in_rev.
Qed.

Lemma split_trailing sep t : split sep (t ++ [sep]) = split sep t ++ [[]].
Proof.
  induction t as [|c t IH]; simpl.
  - by rewrite ceq_refl.
  - destruct (ceq c sep); rewrite IH; [done|].
    pose proof (split_nonempty sep t). by destruct (split sep t).
Qed.

Lemma split_elem sep s c : c ∈ s -> c <> sep -> exists w, w ∈ split sep s /\ c ∈ w.
Proof.
  induction s as [|d s IH]; intros Hin Hne; [set_solver|]. simpl.
  apply elem_of_cons in Hin as [<-|Hin].
  - rewrite (proj2 (ceq_false c sep)) by done.
    destruct (split sep s) as [|w ws]; eexists; split; [by left|set_solver|by left|set_solver].
  - destruct (IH Hin Hne) as (w & Hw & Hc). destruct (ceq d sep); [exists w; set_solver|].
    destruct (split sep s) as [|w' ws]; [set_solver|].
    apply elem_of_cons in Hw as [->|Hw]; [exists (d :: w')|exists w]; set_solver.
Qed.

(** ** Truncation at rune boundaries *)

(** [for end > 0 && !utf8.RuneStart(value[end]) { end-- }] *)
Fixpoint back_to_start (value : gostring) (stop : nat) : nat :=
  match stop with
  | O => O
  | S k => match value !! stop with
           | Some c => if runeStart c then stop else back_to_start value k
           | None => stop
           end
  end.

Lemma back_to_start_le v n : (back_to_start v n <= n)%nat.
Proof. induction n as [|n IH]; simpl; [lia|]. repeat case_match; lia. Qed.

Lemma back_to_start_cut v n : v <> [] -> runeStart (hd NUL v) = true -> (n < length v)%nat ->
  cut_point v (back_to_start v n).
Proof.
  intros Hne Hh. induction n as [|n IH]; intros Hn.
  - right. destruct v as [|c v]; [done|]. by exists c.
  - cbn [back_to_start]. destruct (lookup_lt_is_Some_2 v (S n) Hn) as [c Hc]. rewrite Hc.
    destruct (runeStart c) eqn:E; [right; by exists c|]. apply IH. lia.
Qed.

(** ** Bytes of rewritten strings *)

Lemma elem_replace_char c s old new : c ∈ replaceAll s [old] new -> (c ∈ s /\ c <> old) \/ c ∈ new.
Proof.
  rewrite replace_char. intros Hin. apply list_elem_of_In, in_concat in Hin as (w & Hw & Hc).
  apply in_map_iff in Hw as (d & <- & Hd). destruct (ceq old d) eqn:E.
  - right. by apply list_elem_of_In.
  - left. apply ceq_false in E. destruct Hc as [->|[]]. split; [by apply list_elem_of_In|congruence].
Qed.

Lemma elem_flatten_repaired c b l : c ∈ flatten_runes (repaired b l) -> c ∈ flatten_runes l \/ c ∈ replacement.
Proof.
  revert b. induction l as [|k l IH]; intros b; [by left|]. cbn [repaired].
  destruct (rc_valid k); [|destruct b]; rewrite ?flatten_cons, ?elem_of_app.
  - intros [?|?%IH]; tauto.
  - intros ?%IH. tauto.
  - intros [?|?%IH]; tauto.
Qed.

Lemma elem_toValidUTF8 c s : c ∈ toValidUTF8 s -> c ∈ s \/ c ∈ replacement.
Proof.
  unfold toValidUTF8. rewrite to_valid_repaired. intros Hc%elem_flatten_repaired.
  by rewrite rune_chunks_flatten in Hc.
Qed.

(** ** Lemmas: byte order *)

Lemma bytes_leb_total a b : bytes_leb a b = true \/ bytes_leb b a = true.
Proof.
  revert b. induction a as [|c a IH]; intros b; [by left|]. destruct b as [|d b]; [by right|].
  cbn [bytes_leb]. destruct (Z.lt_total (code c) (code d)) as [Hl|[He|Hl]].
  - left. by rewrite (proj2 (Z.ltb_lt _ _)).
  - rewrite He, Z.ltb_irrefl, Z.eqb_refl. apply IH.
  - right. by rewrite (proj2 (Z.ltb_lt _ _)).
Qed.
Lemma bytes_leb_antisym a b : bytes_leb a b = true -> bytes_leb b a = true -> a = b.
Proof.
  revert b. induction a as [|c a IH]; intros b; [by destruct b|]. destruct b as [|d b]; [done|].
  cbn [bytes_leb]. repeat case_match; intros; try done; try lia.
  assert (c = d) as -> by (apply code_inj; lia). f_equal. auto.
Qed.
Lemma bytes_leb_trans a b c : bytes_leb a b = true -> bytes_leb b c = true -> bytes_leb a c = true.
Proof.
  revert b c. induction a as [|x a IH]; intros b c; [done|]. destruct b as [|y b]; [done|]. destruct c as [|z c]; [done|].
  cbn [bytes_leb]. repeat case_match; intros; try done; try lia. eauto.
Qed.

(** ** The part after the last separator *)

Lemma after_last_app sep a b : sep ∉ b -> after_last sep (a ++ sep :: b) = Some b.
Proof.
  intros Hb. assert (Hn : after_last sep b = None).
  { induction b as [|c b IH]; [done|]. cbn. rewrite IH by set_solver. by rewrite (proj2 (ceq_false c sep)) by set_solver. }
  induction a as [|c a IH]; cbn; [by rewrite Hn, ceq_refl|by rewrite IH].
Qed.
Lemma after_last_None sep s : sep ∉ s -> after_last sep s = None.
Proof. induction s as [|c s IH]; [done|]. cbn. intros Hs. rewrite IH by set_solver. by rewrite (proj2 (ceq_false c sep)) by set_solver. Qed.
Lemma after_last_absent sep s : after_last sep s = None -> sep ∉ s.
Proof.
  induction s as [|c s IH]; cbn; [by intros _ ?%elem_of_nil|]. destruct (after_last sep s); [done|].
  destruct (ceq c sep) eqn:E; [done|]. apply ceq_false in E. intros _ [-> |?]%elem_of_cons; [done|]. by apply IH.
Qed.
Lemma after_last_clean sep s rest : after_last sep s = Some rest -> sep ∉ rest.
Proof.
  revert rest. induction s as [|c s IH]; intros rest; [done|]. cbn. destruct (after_last sep s) as [r|] eqn:E; [intros [= <-]; by apply IH|].
  destruct (ceq c sep); [|done]. intros [= <-]. intros Hin. clear -E Hin. induction s as [|d s IH]; [by apply elem_of_nil in Hin|].
  cbn in E. destruct (after_last sep s); [done|]. destruct (ceq d sep) eqn:Ed; [done|]. apply ceq_false in Ed. set_solver.
Qed.
Lemma after_last_Some sep s rest : after_last sep s = Some rest -> exists p, s = p ++ sep :: rest.
Proof.
  revert rest. induction s as [|c s IH]; intros rest; [done|]. cbn. destruct (after_last sep s) as [r|]; [intros [= <-]; destruct (IH r eq_refl) as [p ->]; by exists (c :: p)|].
  destruct (ceq c sep) eqn:E; [|done]. intros [= <-]. apply ceq_true in E as ->. by exists [].
Qed.
