(* ===== verification/ResourceGuard.v ===== *)
(** * The resource guard (internal/resourceguard, internal/termination)

    Extraction of message content allocates only through a ledger: a request
    that does not fit exhausts the ledger and ends the stage.  [G] is the
    effect of these functions: they return, end the stage with a
    [termination.Failure], or panic as a programmer's error.

    The state is the ledger (a nil ledger admits everything) and the schedule
    of the checkpoints: [Some code] ends the stage there.  Sizes of Go types are
    arguments, and the rounding of the byte allocator is the class [Allocator].
    The adapters to parsers of the standard library (library.go) and the thread
    clocks are not modelled. *)
From S2P Require Import Prelude GoText.
Open Scope Z_scope.

Definition maxInt : Z := 2 ^ 63 - 1.
Definition WorkChunk : Z := 4096.

Inductive Code := NoCode | CPUExceeded | MemoryExceeded | Cancelled.
Record Failure := MkFailure { f_Code : Code; f_Limit : Z }.

Record Memory := MkMemory { limit : Z; used : Z; exhausted : bool }.
Definition NewMemory (l : Z) : Memory := MkMemory l 0 false.

Record guard := MkGuard { ledger : option Memory; stops : list (option Code) }.

Inductive ending (A : Type) := Returned (a : A) | Terminated (f : Failure) | Panicked.
Arguments Returned {A}. Arguments Terminated {A}. Arguments Panicked {A}.

Definition G (A : Type) : Type := guard -> ending A * guard.
Definition gret {A} (a : A) : G A := λ g, (Returned a, g).
Definition gbind {A B} (m : G A) (k : A -> G B) : G B := λ g,
  match m g with (Returned a, g) => k a g | (Terminated f, g) => (Terminated f, g) | (Panicked, g) => (Panicked, g) end.
Definition panic {A} : G A := λ g, (Panicked, g).
(** [termination.Fail]. *)
Definition Fail {A} (f : Failure) : G A :=
  match f_Code f with
  | CPUExceeded | MemoryExceeded | Cancelled => λ g, (Terminated f, g)
  | NoCode => panic
  end.
(** [termination.Recover] at a stage boundary: a termination becomes a value, a
    panic goes on. *)
Definition Recover {A} (m : G A) : G (Failure + A) := λ g,
  match m g with (Returned a, g) => (Returned (inr a), g) | (Terminated f, g) => (Returned (inl f), g) | (Panicked, g) => (Panicked, g) end.

Declare Scope guard_scope.
Delimit Scope guard_scope with guard.
Notation "'let+' x := m 'in' k" := (gbind m (λ x, k)) (at level 200, x binder, m at level 100, k at level 200, right associativity) : guard_scope.
Notation "m ;+ k" := (gbind m (λ _, k)) (at level 100, right associativity) : guard_scope.
Open Scope guard_scope.

(** ** The ledger (memory.go) *)

Definition get_ledger : G (option Memory) := λ g, (Returned (ledger g), g).
Definition set_ledger (m : Memory) : G unit := λ g, (Returned tt, MkGuard (Some m) (stops g)).

Definition Exhausted (m : option Memory) : bool := match m with Some m => exhausted m | None => false end.
Definition Limit (m : option Memory) : Z := match m with Some m => limit m | None => 0 end.
Definition Used (m : option Memory) : Z := match m with Some m => if exhausted m then limit m else used m | None => 0 end.
Definition Charged (m : option Memory) : Z := match m with Some m => used m | None => 0 end.

Definition unavailable : G unit :=
  let+ m := get_ledger in
  if Exhausted m then Fail (MkFailure MemoryExceeded (Limit m)) else gret tt.

Definition reject {A} : G A :=
  let+ m := get_ledger in
  match m with
  | Some m => set_ledger (MkMemory (limit m) (used m) true) ;+ Fail (MkFailure MemoryExceeded (limit m))
  | None => Fail (MkFailure MemoryExceeded 0)
  end.

(** Whether a request does not fit. *)
Definition too_large (m : Memory) (bytes : Z) : bool := (limit m <=? 0) || (limit m <? used m) || (limit m - used m <? bytes).

Definition Reserve (bytes : Z) : G unit :=
  if bytes <? 0 then panic
  else
    let+ m := get_ledger in
    match m with
    | None => gret tt
    | Some m =>
        unavailable ;+
        if bytes <=? 0 then gret tt
        else if too_large m bytes then reject
        else set_ledger (MkMemory (limit m) (used m + bytes) (exhausted m))
    end.

Definition TryReserve (bytes : Z) : G bool :=
  if bytes <? 0 then panic
  else
    let+ m := get_ledger in
    match m with
    | None => gret true
    | Some m =>
        unavailable ;+
        if bytes <=? 0 then gret true
        else if too_large m bytes then gret false
        else Reserve bytes ;+ gret true
    end.

Definition RecordUsage (bytes : Z) : G unit :=
  let+ m := get_ledger in
  match m with
  | None => gret tt
  | Some m =>
      if exhausted m || (bytes <=? 0) then gret tt
      else if too_large m bytes then set_ledger (MkMemory (limit m) (used m) true)
      else set_ledger (MkMemory (limit m) (used m + bytes) false)
  end.

(** A call of the checkpoint [stop]; a nil one does nothing. *)
Definition checkpoint (stop : bool) : G unit := λ g,
  if stop then
    match stops g with
    | Some c :: rest => Fail (MkFailure c 0) (MkGuard (ledger g) rest)
    | None :: rest => (Returned tt, MkGuard (ledger g) rest)
    | [] => (Returned tt, g)
    end
  else (Returned tt, g).

(** [StopSampler] *)
Record StopSampler := MkStopSampler { ss_remaining : Z; ss_reload : Z; ss_check : bool }.
Definition NewStopSampler (every : Z) (check : bool) : G StopSampler :=
  if every =? 0 then panic else gret (MkStopSampler 0 (every - 1) check).
Definition sampler_Check (s : StopSampler) : G StopSampler :=
  if negb (ss_remaining s =? 0) then gret (MkStopSampler (ss_remaining s - 1) (ss_reload s) (ss_check s))
  else checkpoint (ss_check s) ;+ gret (MkStopSampler (ss_reload s) (ss_reload s) (ss_check s)).

(** ** Storage (storage.go) *)

Definition storageBytes (count size : Z) : option Z :=
  if (count <? 0) || (negb (size =? 0) && (maxInt / size <? count)) then None else Some (count * size).

(** [(n + 15) &^ 15] *)
Definition round16 (n : Z) : Z := Z.land n (Z.lnot 15).
Definition New_ {A} (size : Z) (value : A) : G A := Reserve (round16 (size + 15)) ;+ gret value.
Definition Box {A} (size : Z) (value : A) : G A := Reserve (round16 (size + 15)) ;+ gret value.
Definition BindCheckpoint (size : Z) : G unit := Reserve (round16 (size + 31)).

(** The copy loops: pieces of [chunk] elements with a checkpoint between them.
    There are at most as many pieces as elements. *)
Fixpoint copy_chunks {A} (turns : nat) (chunk : nat) (stop first : bool) (src acc : list A) : G (list A) :=
  match turns with
  | O => gret acc
  | S turns =>
      match src with
      | [] => gret acc
      | _ => checkpoint (stop && negb first) ;+ copy_chunks turns chunk stop false (drop chunk src) (acc ++ take chunk src)
      end
  end.
Definition copy_all {A} (chunk : nat) (stop : bool) (src acc : list A) : G (list A) := copy_chunks (length src) chunk stop true src acc.
Definition chunk_of (size : Z) : nat := Z.to_nat (Z.max 1 (WorkChunk / Z.max 1 size)).

(** A slice: its elements and the capacity of its backing array. *)
Record slice (A : Type) := MkSlice { elems : list A; cap : Z }.
Arguments MkSlice {A}. Arguments elems {A}. Arguments cap {A}.
Definition len {A} (s : slice A) : Z := Z.of_nat (length (elems s)).

Section Slices.
Context {A : Type} (zero : A) (size : Z).

Definition MakeSlice (length capacity : Z) : G (slice A) :=
  match storageBytes capacity size with
  | None => panic
  | Some bytes => if (length <? 0) || (capacity <? length) then panic
                  else Reserve bytes ;+ gret (MkSlice (replicate (Z.to_nat length) zero) capacity)
  end.
Definition TryMakeSlice (length capacity : Z) : G (option (slice A)) :=
  match storageBytes capacity size with
  | None => panic
  | Some bytes => if (length <? 0) || (capacity <? length) then panic
                  else let+ ok := TryReserve bytes in
                       gret (if ok then Some (MkSlice (replicate (Z.to_nat length) zero) capacity) else None)
  end.

Definition GrowSliceFrom (s : slice A) (additional initial : Z) (stop : bool) : G (slice A) :=
  if (additional <? 0) || (maxInt - len s <? additional) then panic
  else
    unavailable ;+
    let needed := len s + additional in
    if needed <=? cap s then gret s
    else
      let capacity := if cap s <=? maxInt / 2 then Z.max needed (Z.max initial (2 * cap s)) else needed in
      checkpoint (stop && (WorkChunk / Z.max 1 size <? len s)) ;+
      let+ grown := MakeSlice (len s) capacity in
      let+ copied := copy_all (chunk_of size) stop (elems s) [] in
      gret (MkSlice copied (cap grown)).
Definition GrowSlice (s : slice A) (additional : Z) (stop : bool) : G (slice A) := GrowSliceFrom s additional 1 stop.

Definition Append (s : slice A) (stop : bool) (values : list A) : G (slice A) :=
  let+ grown := GrowSlice s (Z.of_nat (length values)) stop in
  let+ copied := copy_all (chunk_of size) stop values (elems grown) in
  gret (MkSlice copied (cap grown)).
End Slices.

(** The capacity a request of the byte allocator gets. *)
Class Allocator := {
  size_class : Z -> Z;
  size_class_ge : forall n, 0 <= n -> n <= size_class n;
}.

Section Text.
Context `{Allocator}.
#[local] Abbreviation bytes := (slice ascii).

Definition MakeBytes (size : Z) : G bytes :=
  if size <? 0 then panic
  else
    Reserve size ;+
    Reserve (size_class size - size) ;+
    gret (MkSlice (replicate (Z.to_nat size) NUL) (size_class size)).

(** Makes room for [additional] bytes; the contents stay. *)
Definition GrowText (b : bytes) (additional : Z) (stop : bool) : G bytes :=
  if (additional <? 0) || (maxInt - len b <? additional) then panic
  else
    unavailable ;+
    checkpoint (stop && ((WorkChunk <? additional) || (WorkChunk <? len b))) ;+
    if additional <=? cap b - len b then gret b
    else
      let capacity := if cap b <=? (maxInt - additional) / 2 then 2 * cap b + additional else len b + additional in
      Reserve capacity ;+
      Reserve (size_class capacity - capacity) ;+
      let+ copied := copy_all (Z.to_nat WorkChunk) stop (elems b) [] in
      gret (MkSlice copied (size_class capacity)).

Definition WriteString (b : bytes) (text : gostring) (stop : bool) : G bytes :=
  let+ b := GrowText b (go_len text) stop in
  let+ copied := copy_all (Z.to_nat WorkChunk) stop text (elems b) in
  gret (MkSlice copied (cap b)).
Definition WriteBytes := WriteString.

Definition empty_text : bytes := MkSlice [] 0.
Definition CopyString (data : gostring) (stop : bool) : G gostring :=
  if go_len data <=? 1 then unavailable ;+ Reserve (go_len data) ;+ gret data
  else let+ b := WriteBytes empty_text data stop in gret (elems b).

Definition Concat (left right : gostring) (stop : bool) : G gostring :=
  if go_len right =? 0 then unavailable ;+ gret left
  else if go_len left =? 0 then unavailable ;+ gret right
  else if maxInt - go_len left <? go_len right then panic
  else
    let+ b := GrowText empty_text (go_len left + go_len right) stop in
    let+ b := WriteString b left stop in
    let+ b := WriteString b right stop in
    gret (elems b).

Definition CloneBytes (data : gostring) (stop : bool) : G gostring :=
  if WorkChunk <? go_len data then
    checkpoint stop ;+
    MakeBytes (go_len data) ;+
    copy_all (Z.to_nat WorkChunk) stop data []
  else
    Reserve (go_len data) ;+
    Reserve (size_class (go_len data) - go_len data) ;+
    gret data.

Definition StringBytes (s : gostring) (nul stop : bool) : G gostring :=
  if nul && (go_len s =? maxInt) then panic
  else
    let size := if nul then go_len s + 1 else go_len s in
    checkpoint (stop && (WorkChunk <? go_len s)) ;+
    MakeSlice NUL 1 size size ;+
    let+ copied := copy_all (Z.to_nat WorkChunk) stop s [] in
    gret (if nul then copied ++ [NUL] else copied).

(** The loops over single bytes, with a checkpoint at every [WorkChunk]-th one. *)
Definition at_chunk (i : Z) : bool := (0 <? i) && (i mod WorkChunk =? 0).
Definition is_upper (c : ascii) : bool := (65 <=? code c) && (code c <=? 90).
Fixpoint scan_upper (i : Z) (s : gostring) (stop : bool) : G bool :=
  match s with
  | [] => gret false
  | c :: s => checkpoint (stop && at_chunk i) ;+ if is_upper c then gret true else scan_upper (i + 1) s stop
  end.
Fixpoint lower_bytes (i : Z) (s : gostring) (stop : bool) (acc : gostring) : G gostring :=
  match s with
  | [] => gret acc
  | c :: s => checkpoint (stop && at_chunk i) ;+ lower_bytes (i + 1) s stop (acc ++ [lower_ascii c])
  end.
Definition LowerASCII (s : gostring) (stop : bool) : G gostring :=
  let+ changed := scan_upper 0 s stop in
  if changed then GrowText empty_text (go_len s) stop ;+ lower_bytes 0 s stop []
  else unavailable ;+ gret s.
Definition LowerASCIIBytes (data : gostring) (stop : bool) : G gostring :=
  GrowText empty_text (go_len data) stop ;+ lower_bytes 0 data stop [].
End Text.

(** ** Tables (table.go) *)

(** A native map, [None] before the first entry, and the number of entries that
    have been paid for. *)
Record Table (K V : Type) := MkTable { data : option (list (K * V)); highWater : Z }.
Arguments MkTable {K V}. Arguments data {K V}. Arguments highWater {K V}.

Section Tables.
Context {K V : Type} `{EqDecision K} (keySize valueSize : Z).

Definition tableBaseBytes : Z := 128 + 8 * (keySize + valueSize).
Definition tableEntryBytes : Z := 4 * (keySize + valueSize) + 64.

Definition emptyTable : Table K V := MkTable None 0.
Definition entries (t : Table K V) : list (K * V) := default [] (data t).
Definition Len (t : Table K V) : Z := Z.of_nat (length (entries t)).
Definition Get (t : Table K V) (k : K) : option V := assoc_get k (entries t).

Definition set_ (t : Table K V) (k : K) (v : V) (optional : bool) : G (Table K V * bool) :=
  unavailable ;+
  match Get t k with
  | Some _ => gret (MkTable (Some (assoc_replace k v (entries t))) (highWater t), true)
  | None =>
      let cost := (if bool_decide (data t = None) then tableBaseBytes else 0) + (if highWater t <=? Len t then tableEntryBytes else 0) in
      let insert := MkTable (Some (entries t ++ [(k, v)])) (Z.max (highWater t) (Len t + 1)) in
      if optional then
        let+ ok := TryReserve cost in gret (if ok then (insert, true) else (t, false))
      else Reserve cost ;+ gret (insert, true)
  end.
Definition Set_ (t : Table K V) (k : K) (v : V) : G (Table K V) := let+ r := set_ t k v false in gret r.1.
Definition TrySet (t : Table K V) (k : K) (v : V) : G (Table K V * bool) := set_ t k v true.
Definition Reset_ (t : Table K V) : Table K V := MkTable ((λ _, []) <$> data t) (highWater t).
Definition Release (t : Table K V) : Table K V := emptyTable.
Definition Init (count : Z) : G (Table K V) :=
  match storageBytes count tableEntryBytes with
  | None => panic
  | Some size => if maxInt - tableBaseBytes <? size then panic
                 else Reserve (size + tableBaseBytes) ;+ gret (MkTable (Some []) count)
  end.
Definition MakeMap (count : Z) : G (list (K * V)) := let+ t := Init count in gret (entries t).

(** [tables] is [None] before the first entry; [tableSize] is the size of a table. *)
Definition TryCacheEntry (tableSize : Z) (tables : option (list (Table K V))) (count index : Z) (k : K) (v : V)
    : G (option (list (Table K V)) * bool) :=
  if (index <? 0) || (count <=? index) then panic
  else match tables with
  | Some ts =>
      if negb (Z.of_nat (length ts) =? count) then panic
      else match ts !! Z.to_nat index with
           | None => panic
           | Some t => let+ r := TrySet t k v in gret (Some (<[Z.to_nat index := r.1]> ts), r.2)
           end
  | None =>
      match storageBytes count tableSize with
      | None => panic
      | Some size =>
          let first := tableBaseBytes + tableEntryBytes in
          if maxInt - first <? size then panic
          else
            let+ ok := TryReserve (size + first) in
            if ok : bool
            then gret (Some (<[Z.to_nat index := MkTable (Some [(k, v)]) 1]> (replicate (Z.to_nat count) emptyTable)), true)
            else gret (None, false)
      end
  end.
End Tables.
