(* ===== verification/ResourceGuardSpec.v ===== *)
(** * The resource guard: accounting and contents

    Every storage operation keeps the ledger within its limit and fails closed
    once it is exhausted; the guarded operations compute what the plain ones
    do; and the charges of growing slices and tables are bounded. *)
From S2P Require Import Prelude GoText ResourceGuard.
Open Scope Z_scope.

Create HintDb guard.

(** ** The ledger *)

Definition ledger_ok (m : option Memory) : Prop := match m with None => True | Some m => 0 <= used m <= Z.max 0 (limit m) end.

(** What an operation may do to the ledger: charge it, or exhaust it while ending
    the stage.  An exhausted ledger stays as it is. *)
Record ledger_step (m m' : option Memory) (ended : option Failure) : Prop := LedgerStep {
  ls_ok : ledger_ok m';
  ls_nil : m = None -> m' = None;
  ls_limit : Limit m' = Limit m;
  ls_used : Charged m <= Charged m';
  ls_sticky : Exhausted m = true -> m' = m;
  ls_fresh : Exhausted m = false -> Exhausted m' = true -> ended = Some (MkFailure MemoryExceeded (Limit m));
}.
Definition failure_of {A} (e : ending A) : option Failure := match e with Terminated f => Some f | _ => None end.
Definition keeps {A} (m : G A) : Prop := forall g, ledger_ok (ledger g) -> ledger_step (ledger g) (ledger (m g).2) (failure_of (m g).1).
(** Fails closed: nothing is returned on an exhausted ledger. *)
Definition closed {A} (m : G A) : Prop := keeps m /\ forall g a, ledger_ok (ledger g) -> Exhausted (ledger g) = true -> (m g).1 <> Returned a.

Lemma ledger_step_refl m e : ledger_ok m -> ledger_step m m e.
Proof. intros Hm. split; try done. congruence. Qed.
Lemma ledger_step_trans m1 m2 m3 e : ledger_step m1 m2 None -> ledger_step m2 m3 e -> ledger_step m1 m3 e.
Proof.
  intros [A1 A2 A3 A4 A5 A6] [B1 B2 B3 B4 B5 B6]. split; [done|auto|congruence|lia| |].
  - intros He. rewrite B5; [by apply A5|]. by rewrite A5.
  - intros He He'. destruct (Exhausted m2) eqn:E2; [specialize (A6 He eq_refl); done|]. rewrite <- A3. by apply B6.
Qed.

Lemma keeps_ret {A} (a : A) : keeps (gret a).
Proof. intros g Hg. by apply ledger_step_refl. Qed.
Lemma keeps_panic {A} : keeps (@panic A).
Proof. intros g Hg. by apply ledger_step_refl. Qed.
Lemma keeps_fail {A} f : keeps (@Fail A f).
Proof. intros g Hg. unfold Fail. destruct (f_Code f); by apply ledger_step_refl. Qed.
Lemma keeps_bind {A B} (m : G A) (k : A -> G B) : keeps m -> (forall a, keeps (k a)) -> keeps (gbind m k).
Proof.
  intros Hm Hk g Hg. specialize (Hm g Hg). unfold gbind. destruct (m g) as [[a|f|] g1]; cbn [fst snd failure_of] in *; try done.
  eapply ledger_step_trans; [exact Hm|]. apply Hk. apply Hm.
Qed.
Lemma closed_bind_l {A B} (m : G A) (k : A -> G B) : closed m -> (forall a, keeps (k a)) -> closed (gbind m k).
Proof.
  intros [Hm Hc] Hk. split; [by apply keeps_bind|]. intros g b Hg He. specialize (Hc g). unfold gbind. destruct (m g) as [[a|f|] g1]; try done.
  exfalso. by apply (Hc a).
Qed.
Lemma closed_bind_r {A B} (m : G A) (k : A -> G B) : keeps m -> (forall a, closed (k a)) -> closed (gbind m k).
Proof.
  intros Hm Hk. split; [apply keeps_bind; [done|intros a; apply Hk]|]. intros g b Hg He. unfold gbind.
  specialize (Hm g Hg). destruct (m g) as [[a|f|] g1]; cbn [fst snd] in *; try done. destruct Hm as [Hok _ _ _ Hs _].
  apply Hk; [done|]. by rewrite Hs.
Qed.
Lemma closed_panic {A} : closed (@panic A).
Proof. split; [apply keeps_panic|done]. Qed.

Lemma checkpoint_keeps stop : keeps (checkpoint stop).
Proof. intros g Hg. unfold checkpoint. destruct stop; [|by apply ledger_step_refl]. destruct (stops g) as [|[[]|] rest]; by apply ledger_step_refl. Qed.
Lemma unavailable_closed : closed unavailable.
Proof.
  split.
  - intros g Hg. unfold unavailable, get_ledger, gbind. destruct (Exhausted (ledger g)); by apply ledger_step_refl.
  - intros g a _ He. unfold unavailable, get_ledger, gbind. by rewrite He.
Qed.

Lemma too_large_false m bytes : too_large m bytes = false -> 0 < limit m /\ used m <= limit m /\ used m + bytes <= limit m.
Proof. unfold too_large. rewrite !orb_false_iff. lia. Qed.

(** [Reserve] as one step. *)
Lemma Reserve_eq bytes g : Reserve bytes g =
  if bytes <? 0 then (Panicked, g)
  else match ledger g with
       | None => (Returned tt, g)
       | Some m => if exhausted m then (Terminated (MkFailure MemoryExceeded (limit m)), g)
                   else if bytes <=? 0 then (Returned tt, g)
                   else if too_large m bytes then (Terminated (MkFailure MemoryExceeded (limit m)), MkGuard (Some (MkMemory (limit m) (used m) true)) (stops g))
                   else (Returned tt, MkGuard (Some (MkMemory (limit m) (used m + bytes) false)) (stops g))
       end.
Proof.
  unfold Reserve. destruct (bytes <? 0); [done|]. unfold gbind at 1, get_ledger. cbn [fst snd]. destruct (ledger g) as [m|] eqn:El; [|done].
  unfold gbind at 1, unavailable, gbind at 1, get_ledger. rewrite El. cbn [Exhausted Limit]. destruct (exhausted m) eqn:Ee; [done|].
  cbn [gret]. destruct (bytes <=? 0); [done|]. destruct (too_large m bytes); [|done].
  unfold reject, gbind at 1, get_ledger. rewrite El. done.
Qed.

Lemma Reserve_closed bytes : closed (Reserve bytes).
Proof.
  split.
  - intros g Hg. rewrite Reserve_eq. destruct (Z.ltb_spec bytes 0); [by apply ledger_step_refl|].
    destruct (ledger g) as [m|] eqn:El; [|cbn [fst snd]; rewrite El; by apply ledger_step_refl].
    destruct (exhausted m) eqn:Ee; [cbn [fst snd]; rewrite El; by apply ledger_step_refl|].
    destruct (Z.leb_spec bytes 0); [cbn [fst snd]; rewrite El; by apply ledger_step_refl|].
    destruct (too_large m bytes) eqn:Et; cbn [fst snd ledger failure_of].
    + split; cbn; try done. congruence.
    + apply too_large_false in Et. cbn in Hg. split; cbn; try done; try lia; congruence.
  - intros g a Hg He. rewrite Reserve_eq. destruct (bytes <? 0); [done|]. destruct (ledger g) as [m|]; [|done]. cbn in He. by rewrite He.
Qed.
#[export] Hint Resolve keeps_ret keeps_panic keeps_fail checkpoint_keeps unavailable_closed Reserve_closed closed_panic : guard.
Lemma closed_keeps {A} (m : G A) : closed m -> keeps m.
Proof. by intros [? _]. Qed.

(** Descends through a program.  [closed_tac] looks for the first operation that
    fails closed; what follows only has to keep the ledger. *)
Ltac keeps_tac :=
  cbv zeta; repeat match goal with
  | |- keeps (gbind _ _) => apply keeps_bind; [|intros ?]
  | |- keeps (if ?b then _ else _) => destruct b
  | |- keeps (match ?x with _ => _ end) => destruct x
  | |- keeps _ => solve [eauto with guard | apply closed_keeps; eauto with guard]
  end.
Ltac closed_tac :=
  cbv zeta;
  match goal with
  | |- closed (gbind _ _) => first [apply closed_bind_l; [solve [closed_tac]|intros ?; keeps_tac; fail]
                                   |apply closed_bind_r; [keeps_tac; fail|intros ?; closed_tac]]
  | |- closed (if ?b then _ else _) => destruct b; closed_tac
  | |- closed (match ?x with _ => _ end) => destruct x; closed_tac
  | |- closed _ => solve [eauto with guard]
  end.

Lemma TryReserve_eq bytes g : TryReserve bytes g =
  match Reserve bytes g with
  | (Returned _, g') => (Returned true, g')
  | (Terminated f, g') => if Exhausted (ledger g) then (Terminated f, g') else (Returned false, g)
  | (Panicked, g') => (Panicked, g')
  end.
Proof.
  rewrite Reserve_eq. unfold TryReserve. destruct (bytes <? 0) eqn:Eb; [done|]. unfold gbind at 1, get_ledger. cbn [fst snd].
  destruct (ledger g) as [m|] eqn:El; [|done]. unfold gbind at 1, unavailable, gbind at 1, get_ledger. rewrite El. cbn [Exhausted Limit].
  destruct (exhausted m) eqn:Ee; [done|]. cbn [gret]. destruct (bytes <=? 0) eqn:Ez; [done|].
  destruct (too_large m bytes) eqn:Et; [done|]. unfold gbind. by rewrite Reserve_eq, Eb, El, Ee, Ez, Et.
Qed.
Lemma TryReserve_closed bytes : closed (TryReserve bytes).
Proof.
  destruct (Reserve_closed bytes) as [Hk Hc]. split.
  - intros g Hg. specialize (Hk g Hg). rewrite TryReserve_eq. destruct (Reserve bytes g) as [[u|f|] g'] eqn:E; cbn [fst snd failure_of] in *; try done.
    destruct (Exhausted (ledger g)) eqn:Ee; [done|]. by apply ledger_step_refl.
  - intros g a Hg He. specialize (Hc g). rewrite TryReserve_eq. destruct (Reserve bytes g) as [[u|f|] g']; cbn [fst] in *; [exfalso; by apply (Hc u)|by rewrite He|done].
Qed.
#[export] Hint Resolve TryReserve_closed : guard.

Lemma copy_chunks_keeps {A} turns chunk stop first (src acc : list A) : keeps (copy_chunks turns chunk stop first src acc).
Proof.
  revert first src acc. induction turns as [|turns IH]; intros first src acc; cbn [copy_chunks]; [auto with guard|].
  destruct src; [auto with guard|]. apply keeps_bind; [auto with guard|intros _; apply IH].
Qed.
Lemma copy_all_keeps {A} chunk stop (src acc : list A) : keeps (copy_all chunk stop src acc).
Proof. apply copy_chunks_keeps. Qed.
#[export] Hint Resolve copy_all_keeps : guard.

Lemma MakeSlice_closed {A} (zero : A) size l c : closed (MakeSlice zero size l c).
Proof. unfold MakeSlice. closed_tac. Qed.
Lemma TryMakeSlice_closed {A} (zero : A) size l c : closed (TryMakeSlice zero size l c).
Proof. unfold TryMakeSlice. closed_tac. Qed.
#[export] Hint Resolve MakeSlice_closed TryMakeSlice_closed : guard.
Lemma GrowSliceFrom_closed {A} (zero : A) size s n i stop : closed (GrowSliceFrom zero size s n i stop).
Proof. unfold GrowSliceFrom. closed_tac. Qed.
#[export] Hint Resolve GrowSliceFrom_closed : guard.
Lemma Append_closed {A} (zero : A) size s stop values : closed (Append zero size s stop values).
Proof. unfold Append, GrowSlice. closed_tac. Qed.

Section Closed.
Context `{Allocator}.
Lemma MakeBytes_closed n : closed (MakeBytes n).
Proof. unfold MakeBytes. closed_tac. Qed.
Lemma GrowText_closed b n stop : closed (GrowText b n stop).
Proof. unfold GrowText. closed_tac. Qed.
#[local] Hint Resolve MakeBytes_closed GrowText_closed : guard.
Lemma WriteString_closed b t stop : closed (WriteString b t stop).
Proof. unfold WriteString. closed_tac. Qed.
#[local] Hint Resolve WriteString_closed : guard.
Lemma CopyString_closed t stop : closed (CopyString t stop).
Proof. unfold CopyString, WriteBytes. closed_tac. Qed.
Lemma Concat_closed l r stop : closed (Concat l r stop).
Proof. unfold Concat. closed_tac. Qed.
Lemma CloneBytes_closed t stop : closed (CloneBytes t stop).
Proof. unfold CloneBytes. closed_tac. Qed.
Lemma StringBytes_closed t nul stop : closed (StringBytes t nul stop).
Proof. unfold StringBytes. closed_tac. Qed.
Lemma scan_upper_keeps i s stop : keeps (scan_upper i s stop).
Proof. revert i. induction s as [|c s IH]; intros i; cbn [scan_upper]; [auto with guard|]. keeps_tac. Qed.
Lemma lower_bytes_keeps i s stop acc : keeps (lower_bytes i s stop acc).
Proof. revert i acc. induction s as [|c s IH]; intros i acc; cbn [lower_bytes]; [auto with guard|]. keeps_tac. Qed.
#[local] Hint Resolve scan_upper_keeps lower_bytes_keeps : guard.
Lemma LowerASCII_closed s stop : closed (LowerASCII s stop).
Proof. unfold LowerASCII. closed_tac. Qed.
Lemma LowerASCIIBytes_closed s stop : closed (LowerASCIIBytes s stop).
Proof. unfold LowerASCIIBytes. closed_tac. Qed.
End Closed.

Section TablesClosed.
Context {K V : Type} `{EqDecision K} (ks vs : Z).
Lemma set_closed (t : Table K V) k v o : closed (set_ ks vs t k v o).
Proof. unfold set_. closed_tac. Qed.
#[local] Hint Resolve set_closed : guard.
Lemma Set_closed (t : Table K V) k v : closed (Set_ ks vs t k v).
Proof. unfold Set_. closed_tac. Qed.
Lemma Init_closed count : closed (Init (K:=K) (V:=V) ks vs count).
Proof. unfold Init. closed_tac. Qed.
Lemma TryCacheEntry_closed size ts count i k v : closed (TryCacheEntry (K:=K) (V:=V) ks vs size ts count i k v).
Proof. unfold TryCacheEntry, TrySet. closed_tac. Qed.
End TablesClosed.

(** ** Programs that allocate through the guard *)

(** A program whose allocations all go through the guard. *)
Inductive guarded `{Allocator} : forall {A : Type}, G A -> Prop :=
  | g_ret {A} (a : A) : guarded (gret a)
  | g_bind {A B} (m : G A) (k : A -> G B) : guarded m -> (forall a, guarded (k a)) -> guarded (gbind m k)
  | g_checkpoint stop : guarded (checkpoint stop)
  | g_reserve n : guarded (Reserve n)
  | g_try n : guarded (TryReserve n)
  | g_new {A} size (a : A) : guarded (New_ size a)
  | g_make {A} (zero : A) size l c : guarded (MakeSlice zero size l c)
  | g_trymake {A} (zero : A) size l c : guarded (TryMakeSlice zero size l c)
  | g_append {A} (zero : A) size s stop values : guarded (Append zero size s stop values)
  | g_bytes n : guarded (MakeBytes n)
  | g_write b t stop : guarded (WriteString b t stop)
  | g_copy t stop : guarded (CopyString t stop)
  | g_concat l r stop : guarded (Concat l r stop)
  | g_clone t stop : guarded (CloneBytes t stop)
  | g_string t nul stop : guarded (StringBytes t nul stop)
  | g_lower t stop : guarded (LowerASCII t stop)
  | g_lowerbytes t stop : guarded (LowerASCIIBytes t stop)
  | g_set {K V} {dec : EqDecision K} ks vs (t : Table K V) k v o : guarded (set_ ks vs t k v o)
  | g_init {K V} ks vs count : guarded (Init (K:=K) (V:=V) ks vs count)
  | g_cache {K V} {dec : EqDecision K} ks vs size (ts : option (list (Table K V))) count i k v : guarded (TryCacheEntry ks vs size ts count i k v).

Lemma guarded_keeps `{Allocator} {A} (m : G A) : guarded m -> keeps m.
Proof.
  induction 1; try (apply closed_keeps; eauto using MakeSlice_closed, TryMakeSlice_closed, Append_closed, MakeBytes_closed, WriteString_closed,
    CopyString_closed, Concat_closed, CloneBytes_closed, StringBytes_closed, LowerASCII_closed, LowerASCIIBytes_closed, set_closed, Init_closed,
    TryCacheEntry_closed with guard; fail).
  - apply keeps_ret.
  - by apply keeps_bind.
  - apply checkpoint_keeps.
  - unfold New_. keeps_tac.
Qed.

(** whatever a program does that allocates through the guard only, what it was
    charged never exceeds the limit of its ledger.  When a required request does
    not fit, the stage ends with the memory failure, so a program that returns
    has been refused nothing it needed; and an exhausted ledger stays exhausted
    and admits nothing to any later program. *)
Theorem ledger_never_overrun `{Allocator} {A B} (m : G A) (later : G B) (l : Z) (stops0 : list (option Code)) :
  guarded m -> guarded later ->
  let r := m (MkGuard (Some (NewMemory l)) stops0) in
  0 <= Charged (ledger r.2) <= Z.max 0 l /\
  (Exhausted (ledger r.2) = true -> r.1 = Terminated (MkFailure MemoryExceeded l) /\ ledger (later r.2).2 = ledger r.2).
Proof.
  intros Hm Hl r. pose proof (guarded_keeps m Hm (MkGuard (Some (NewMemory l)) stops0)) as Hk. cbn [ledger] in Hk.
  destruct Hk as [Hok Hnil Hlim Hused _ Hfresh]; [cbn; lia|]. fold r in Hok, Hlim, Hused, Hfresh. cbn [Limit NewMemory limit Exhausted exhausted] in *.
  split.
  - unfold ledger_ok in Hok. unfold Charged, Limit in *. destruct (ledger r.2); cbn in *; lia.
  - intros He. split; [|by apply (guarded_keeps later Hl)]. specialize (Hfresh eq_refl He). destruct (r.1) as [a|f|]; cbn in Hfresh; congruence.
Qed.

(** ** Charges *)

Lemma Reserve_charge bytes g u g' : Reserve bytes g = (Returned u, g') -> 0 <= bytes /\ Charged (ledger g') <= Charged (ledger g) + bytes.
Proof.
  rewrite Reserve_eq. destruct (Z.ltb_spec bytes 0); [done|]. destruct (ledger g) as [m|] eqn:El.
  - destruct (exhausted m); [done|]. destruct (Z.leb_spec bytes 0); [|destruct (too_large m bytes); [done|]]; intros E; injection E as <- <-;
      rewrite ?El; cbn [ledger Charged used]; lia.
  - intros E. injection E as <- <-. rewrite El. cbn. lia.
Qed.

Lemma gbind_returned {A B} (m : G A) (k : A -> G B) g b g' : gbind m k g = (Returned b, g') ->
  exists a g1, m g = (Returned a, g1) /\ k a g1 = (Returned b, g').
Proof. unfold gbind. destruct (m g) as [[a|f|] g1]; try done. eauto. Qed.
Lemma checkpoint_returned stop g u g' : checkpoint stop g = (Returned u, g') -> ledger g' = ledger g.
Proof. unfold checkpoint. destruct stop; [|by intros E; simplify_eq]. destruct (stops g) as [|[[]|] rest]; intros E; by simplify_eq. Qed.
Lemma unavailable_returned g u g' : unavailable g = (Returned u, g') -> g' = g.
Proof. unfold unavailable, gbind, get_ledger. destruct (Exhausted (ledger g)); [done|]. intros E. by injection E as _ <-. Qed.

(** Inversion of a program that returned. *)
Ltac returned :=
  repeat match goal with
  | H : gbind _ _ _ = (Returned _, _) |- _ => apply gbind_returned in H as (? & ? & ? & ?)
  | H : gret _ _ = (Returned _, _) |- _ => injection H as <- <-
  | H : panic _ = (Returned _, _) |- _ => discriminate H
  | H : unavailable _ = (Returned _, _) |- _ => apply unavailable_returned in H as ->
  | H : checkpoint _ _ = (Returned _, _) |- _ => apply checkpoint_returned in H
  | H : (if ?b then _ else _) _ = (Returned _, _) |- _ => let E := fresh "E" in destruct b eqn:E
  end.

Lemma copy_chunks_returned {A} turns chunk stop first (src acc : list A) g r g' : (0 < chunk)%nat -> (length src <= turns)%nat ->
  copy_chunks turns chunk stop first src acc g = (Returned r, g') -> r = acc ++ src /\ ledger g' = ledger g.
Proof.
  intros Hc. revert first src acc g. induction turns as [|turns IH]; intros first src acc g Ht; cbn [copy_chunks].
  { destruct src; [|cbn in Ht; lia]. intros E. injection E as <- <-. by rewrite app_nil_r. }
  destruct src as [|x src]; [intros E; injection E as <- <-; by rewrite app_nil_r|]. intros E. returned.
  apply IH in H0 as [-> Hl]; [|rewrite length_drop; cbn [length] in *; lia]. rewrite Hl. split; [|done]. by rewrite <- app_assoc, take_drop.
Qed.
Lemma copy_all_returned {A} chunk stop (src acc : list A) g r g' : (0 < chunk)%nat ->
  copy_all chunk stop src acc g = (Returned r, g') -> r = acc ++ src /\ ledger g' = ledger g.
Proof. intros Hc. by apply copy_chunks_returned. Qed.
Lemma chunk_of_pos size : (0 < chunk_of size)%nat.
Proof. unfold chunk_of. lia. Qed.
Lemma WorkChunk_pos : (0 < Z.to_nat WorkChunk)%nat.
Proof. unfold WorkChunk. lia. Qed.

(** ** Slices *)

Section Slices.
Context {A : Type} (zero : A) (size : Z) (Hsize : 0 <= size).
#[local] Set Default Proof Using "Type".

Lemma MakeSlice_returned l c g s g' : MakeSlice zero size l c g = (Returned s, g') ->
  cap s = c /\ 0 <= c /\ Charged (ledger g') <= Charged (ledger g) + c * size.
Proof.
  unfold MakeSlice, storageBytes. destruct ((c <? 0) || _) eqn:E0; [done|]. apply orb_false_iff in E0 as [E0 _]. intros H. returned.
  match goal with H : Reserve _ _ = _ |- _ => apply Reserve_charge in H as [_ H] end. split_and!; [done|lia|done].
Qed.

(** The capacity after a growth by one. *)
Definition next_cap (s : slice A) : Z := Z.max (len s + 1) (Z.max 1 (2 * cap s)).

Lemma Append_one s stop v g s' g' : cap s <= maxInt / 2 -> Append zero size s stop [v] g = (Returned s', g') ->
  elems s' = elems s ++ [v] /\
  if len s + 1 <=? cap s then cap s' = cap s /\ ledger g' = ledger g
  else cap s' = next_cap s /\ Charged (ledger g') <= Charged (ledger g) + next_cap s * size.
Proof.
  intros Hcap H. unfold Append, GrowSlice, GrowSliceFrom in H. change (Z.of_nat (length [v])) with 1 in H.
  apply gbind_returned in H as (grown & g1 & H1 & H2). apply gbind_returned in H2 as (copied & g2 & H2 & H3).
  apply copy_all_returned in H2 as [-> L2]; [|apply chunk_of_pos]. injection H3 as <- <-. cbn [elems cap].
  assert (Hg : elems grown = elems s /\ if len s + 1 <=? cap s then cap grown = cap s /\ ledger g1 = ledger g
    else cap grown = next_cap s /\ Charged (ledger g1) <= Charged (ledger g) + next_cap s * size).
  { returned; [done|]. rewrite (proj2 (Z.leb_le _ _) Hcap) in *. fold (next_cap s) in *.
    match goal with H : MakeSlice _ _ _ _ _ = _ |- _ => apply MakeSlice_returned in H as (Hc & _ & Hch) end.
    match goal with H : copy_all _ _ _ _ _ = _ |- _ => apply copy_all_returned in H as [-> L3]; [|apply chunk_of_pos] end.
    cbn [elems cap app]. split; [done|]. split; [done|]. rewrite L3. congruence. }
  destruct Hg as [-> Hg]. split; [done|]. rewrite L2. exact Hg.
Qed.

(** Appending the elements of a list one by one. *)
Fixpoint append_each (s : slice A) (stop : bool) (values : list A) : G (slice A) :=
  match values with
  | [] => gret s
  | v :: values => gbind (Append zero size s stop [v]) (λ s, append_each s stop values)
  end.

(** Paid at most for twice the capacity, which is at most twice the length. *)
Lemma append_each_charge values s stop g s' g' c0 :
  0 <= len s <= cap s -> cap s <= 2 * len s -> c0 + 2 * cap s * size >= Charged (ledger g) ->
  len s + Z.of_nat (length values) <= 2 ^ 60 ->
  append_each s stop values g = (Returned s', g') ->
  elems s' = elems s ++ values /\ Charged (ledger g') <= c0 + 4 * (len s + Z.of_nat (length values)) * size.
Proof using Hsize.
  revert s g. induction values as [|v values IH]; intros s g Hl Hc Hp Hb H; cbn [append_each] in H.
  { injection H as <- <-. rewrite app_nil_r. split; [done|]. cbn [length]. nia. }
  apply gbind_returned in H as (s1 & g1 & H1 & H2). assert (Hcap : cap s <= maxInt / 2) by (change (maxInt / 2) with 4611686018427387903; cbn [length] in Hb; lia).
  apply Append_one in H1 as [He H1]; [|done]. assert (Hlen : len s1 = len s + 1) by (unfold len; rewrite He, length_app; cbn; lia).
  apply IH in H2 as [He2 Hch].
  - rewrite He2, He, <- app_assoc. split; [done|]. rewrite Hlen in Hch. cbn [length]. nia.
  - rewrite Hlen. destruct (Z.leb_spec (len s + 1) (cap s)); [destruct H1 as [-> _]; lia|destruct H1 as [-> _]; unfold next_cap; lia].
  - rewrite Hlen. destruct (Z.leb_spec (len s + 1) (cap s)); [destruct H1 as [-> _]; lia|destruct H1 as [-> _]; unfold next_cap; lia].
  - destruct (Z.leb_spec (len s + 1) (cap s)) as [|Hgrow]; [destruct H1 as [-> ->]; lia|]. destruct H1 as [-> H1].
    assert (2 * cap s * size <= next_cap s * size) by (apply Z.mul_le_mono_nonneg_r; unfold next_cap; lia). lia.
  - rewrite Hlen. cbn [length] in Hb. lia.
Qed.
End Slices.

(** growing a slice element by element is charged linearly: every replacement of
    the backing array stays on the ledger for good, and still appending [n]
    elements to an empty slice costs at most four times the bytes of [n]
    elements, and leaves exactly these elements in order. *)
Theorem append_charge_linear {A} (zero : A) (size : Z) (stop : bool) (values : list A) (g g' : guard) (s' : slice A) :
  0 <= size -> Z.of_nat (length values) <= 2 ^ 60 ->
  append_each zero size (MkSlice [] 0) stop values g = (Returned s', g') ->
  elems s' = values /\ Charged (ledger g') - Charged (ledger g) <= 4 * Z.of_nat (length values) * size.
Proof.
  intros Hs Hn H. apply (append_each_charge zero size Hs values (MkSlice [] 0) stop g s' g' (Charged (ledger g))) in H as [He Hc].
  - split; [exact He|]. unfold len in Hc. cbn [elems length] in Hc. lia.
  - unfold len. cbn. lia.
  - unfold len. cbn. lia.
  - cbn. lia.
  - unfold len. cbn [elems length]. lia.
Qed.

(** ** Text *)

Section Text.
Context `{Allocator}.

Lemma GrowText_returned b n stop g b' g' : GrowText b n stop g = (Returned b', g') -> elems b' = elems b.
Proof.
  unfold GrowText. intros E. returned; [done|].
  match goal with H : copy_all _ _ _ _ _ = _ |- _ => apply copy_all_returned in H as [-> _]; [|apply WorkChunk_pos] end. done.
Qed.
Lemma WriteString_returned b t stop g b' g' : WriteString b t stop g = (Returned b', g') -> elems b' = elems b ++ t.
Proof.
  unfold WriteString. intros E. returned. cbn [elems].
  match goal with H : copy_all _ _ _ _ _ = _ |- _ => apply copy_all_returned in H as [-> _]; [|apply WorkChunk_pos] end.
  match goal with H : GrowText _ _ _ _ = _ |- _ => by apply GrowText_returned in H as -> end.
Qed.

Lemma lower_not_upper c : is_upper c = false -> lower_ascii c = c.
Proof. unfold is_upper, lower_ascii, lowerZ. intros ->. apply chr_code. Qed.
Lemma scan_upper_returned i s stop g r g' : scan_upper i s stop g = (Returned r, g') -> r = false -> map lower_ascii s = s.
Proof.
  revert i g. induction s as [|c s IH]; intros i g E Hr; [done|]. cbn [scan_upper] in E. returned; [done|].
  cbn [map]. rewrite lower_not_upper by done. f_equal. by eapply IH.
Qed.
Lemma lower_bytes_returned i s stop acc g r g' : lower_bytes i s stop acc g = (Returned r, g') -> r = acc ++ map lower_ascii s.
Proof.
  revert i acc g. induction s as [|c s IH]; intros i acc g E; cbn [lower_bytes] in E; [injection E as <- <-; by rewrite app_nil_r|].
  returned. cbn [map]. match goal with H : lower_bytes _ _ _ _ _ = _ |- _ => apply IH in H as -> end. by rewrite <- app_assoc.
Qed.

(** Without a ledger and without interruptions everything returns. *)
Definition off : guard := MkGuard None [].
Definition runs {A} (m : G A) (P : A -> Prop) : Prop := exists a, m off = (Returned a, off) /\ P a.

Lemma runs_ret {A} (a : A) (P : A -> Prop) : P a -> runs (gret a) P.
Proof. intros Ha. by exists a. Qed.
Lemma runs_bind {A B} (m : G A) (k : A -> G B) Q (P : B -> Prop) : runs m Q -> (forall a, Q a -> runs (k a) P) -> runs (gbind m k) P.
Proof. intros (a & Hm & Ha) Hk. destruct (Hk a Ha) as (b & Hb & HP). exists b. unfold gbind. by rewrite Hm. Qed.
Lemma runs_checkpoint stop : runs (checkpoint stop) (λ _, True).
Proof. exists tt. unfold checkpoint. by destruct stop. Qed.
Lemma runs_unavailable : runs unavailable (λ _, True).
Proof. by exists tt. Qed.
Lemma runs_reserve n : 0 <= n -> runs (Reserve n) (λ _, True).
Proof. intros Hn. exists tt. rewrite Reserve_eq. by rewrite (proj2 (Z.ltb_ge n 0)) by lia. Qed.
Lemma runs_copy {A} chunk stop (src acc : list A) : runs (copy_all chunk stop src acc) (λ _, True).
Proof.
  unfold copy_all. generalize (length src) as turns, true as first. intros turns. revert src acc.
  induction turns as [|turns IH]; intros src acc first; cbn [copy_chunks]; [by apply runs_ret|]. destruct src; [by apply runs_ret|].
  eapply runs_bind; [apply runs_checkpoint|intros _ _; apply IH].
Qed.
Ltac runs_tac :=
  repeat match goal with
  | |- runs (gbind _ _) _ => eapply runs_bind; [|intros ? ?]
  | |- runs (gret _) _ => by apply runs_ret
  | |- runs (checkpoint _) _ => apply runs_checkpoint
  | |- runs unavailable _ => apply runs_unavailable
  | |- runs (copy_all _ _ _ _) _ => apply runs_copy
  | |- runs (Reserve (size_class ?n - ?n)) _ => apply runs_reserve; pose proof (size_class_ge n); lia
  | |- runs (Reserve _) _ => apply runs_reserve; lia
  end.

Lemma runs_grow b n stop : 0 <= n -> n <= maxInt - len b -> 0 <= cap b -> runs (GrowText b n stop) (λ b', elems b' = elems b /\ 0 <= cap b').
Proof.
  intros Hn Hm Hc. assert (Hr : runs (GrowText b n stop) (λ b', 0 <= cap b')).
  { unfold GrowText. rewrite (proj2 (Z.ltb_ge n 0)), (proj2 (Z.ltb_ge _ n)) by lia. cbn [orb]. cbv zeta.
    assert (Hl : 0 <= len b) by (unfold len; lia). runs_tac. destruct (Z.leb_spec n (cap b - len b)); [runs_tac|].
    set (capacity := if cap b <=? (maxInt - n) / 2 then _ else _). assert (0 <= capacity) by (subst capacity; case_match; lia).
    runs_tac. apply runs_ret. cbn [cap]. pose proof (size_class_ge capacity). lia. }
  destruct Hr as (b' & E & Hb). exists b'. split; [exact E|]. split; [|exact Hb]. by apply GrowText_returned in E.
Qed.
Lemma runs_write b t stop : go_len t <= maxInt - len b -> 0 <= cap b -> runs (WriteString b t stop) (λ b', elems b' = elems b ++ t /\ 0 <= cap b').
Proof.
  intros Hm Hc. destruct (runs_grow b (go_len t) stop (go_len_nonneg t) Hm Hc) as (b1 & E1 & _ & Hb1).
  destruct (runs_copy (Z.to_nat WorkChunk) stop t (elems b1)) as (copied & E2 & _).
  assert (E : WriteString b t stop off = (Returned (MkSlice copied (cap b1)), off)) by (unfold WriteString, gbind; by rewrite E1, E2).
  exists (MkSlice copied (cap b1)). split; [exact E|]. split; [|exact Hb1]. by apply WriteString_returned in E.
Qed.
Lemma runs_make n : 0 <= n <= maxInt -> runs (MakeSlice NUL 1 n n) (λ _, True).
Proof.
  intros Hn. unfold MakeSlice, storageBytes. rewrite Z.div_1_r, (proj2 (Z.ltb_ge n 0)), (proj2 (Z.ltb_ge maxInt n)) by lia. cbn [negb andb orb Z.eqb].
  rewrite (proj2 (Z.ltb_ge n n)) by lia. runs_tac.
Qed.
Lemma runs_lower i s stop acc : runs (lower_bytes i s stop acc) (λ _, True).
Proof. revert i acc. induction s as [|c s IH]; intros i acc; cbn [lower_bytes]; [by apply runs_ret|]. eapply runs_bind; [apply runs_checkpoint|intros _ _; apply IH]. Qed.
Lemma runs_scan i s stop : runs (scan_upper i s stop) (λ _, True).
Proof.
  revert i. induction s as [|c s IH]; intros i; cbn [scan_upper]; [by apply runs_ret|]. eapply runs_bind; [apply runs_checkpoint|intros _ _].
  destruct (is_upper c); [by apply runs_ret|apply IH].
Qed.
Lemma runs_equal {A} (m : G A) x : runs m (λ _, True) -> (forall r g', m off = (Returned r, g') -> r = x) -> m off = (Returned x, off).
Proof. intros (r & E & _) Hx. by rewrite E, (Hx r off E). Qed.

Lemma runs_weaken {A} (m : G A) (P Q : A -> Prop) : runs m P -> (forall a, P a -> Q a) -> runs m Q.
Proof. intros (a & E & Ha) HQ. exists a. auto. Qed.
Lemma grow_empty n stop : 0 <= n <= maxInt -> runs (GrowText empty_text n stop) (λ b', elems b' = [] /\ 0 <= cap b').
Proof. intros Hn. apply (runs_grow empty_text n stop); unfold len; cbn [empty_text elems length cap]; lia. Qed.
Lemma write_empty t stop : go_len t <= maxInt -> runs (WriteString empty_text t stop) (λ b', elems b' = t /\ 0 <= cap b').
Proof. intros Hn. apply (runs_write empty_text t stop); unfold len; cbn [empty_text elems length cap]; lia. Qed.

Lemma CopyString_runs t stop : go_len t <= maxInt -> runs (CopyString t stop) (λ _, True).
Proof.
  intros Hm. pose proof (go_len_nonneg t). unfold CopyString, WriteBytes. case_match; [runs_tac|].
  eapply runs_bind; [by apply write_empty|intros; by apply runs_ret].
Qed.
Lemma MakeBytes_runs n : 0 <= n -> runs (MakeBytes n) (λ _, True).
Proof. intros Hn. unfold MakeBytes. rewrite (proj2 (Z.ltb_ge n 0)) by lia. runs_tac. Qed.
Lemma CloneBytes_runs t stop : runs (CloneBytes t stop) (λ _, True).
Proof.
  pose proof (go_len_nonneg t). unfold CloneBytes. case_match; [|runs_tac].
  eapply runs_bind; [apply runs_checkpoint|intros _ _]. eapply runs_bind; [by apply MakeBytes_runs|intros _ _]. runs_tac.
Qed.
Lemma Concat_runs left right stop : go_len left + go_len right < maxInt -> runs (Concat left right stop) (λ _, True).
Proof.
  intros Hm. pose proof (go_len_nonneg left). pose proof (go_len_nonneg right). unfold Concat. case_match; [runs_tac|]. case_match; [runs_tac|].
  rewrite (proj2 (Z.ltb_ge _ (go_len right))) by lia.
  eapply runs_bind; [apply grow_empty; lia|intros b1 [E1 C1]]. assert (L1 : len b1 = 0) by (unfold len; by rewrite E1).
  eapply runs_bind; [apply runs_write; [lia|done]|intros b2 [E2 C2]]. assert (L2 : len b2 = go_len left) by (unfold len; by rewrite E2, E1).
  eapply runs_bind; [apply runs_write; [lia|done]|intros; by apply runs_ret].
Qed.
Lemma StringBytes_runs t nul stop : go_len t < maxInt -> runs (StringBytes t nul stop) (λ _, True).
Proof.
  intros Hm. pose proof (go_len_nonneg t). unfold StringBytes. rewrite (proj2 (Z.eqb_neq _ maxInt)), andb_false_r by lia. cbv zeta.
  eapply runs_bind; [apply runs_checkpoint|intros _ _]. eapply runs_bind; [apply runs_make; destruct nul; lia|intros _ _]. runs_tac.
Qed.
Lemma LowerASCIIBytes_runs t stop : go_len t <= maxInt -> runs (LowerASCIIBytes t stop) (λ _, True).
Proof.
  intros Hm. pose proof (go_len_nonneg t). unfold LowerASCIIBytes. eapply runs_bind; [apply grow_empty; lia|intros; apply runs_lower].
Qed.
Lemma LowerASCII_runs t stop : go_len t <= maxInt -> runs (LowerASCII t stop) (λ _, True).
Proof.
  intros Hm. unfold LowerASCII. eapply runs_bind; [apply runs_scan|intros changed _].
  destruct changed; [by apply (LowerASCIIBytes_runs t stop)|runs_tac].
Qed.

Lemma CopyString_returned t stop g r g' : CopyString t stop g = (Returned r, g') -> r = t.
Proof.
  unfold CopyString, WriteBytes. intros E. returned; [done|].
  match goal with H : WriteString _ _ _ _ = _ |- _ => by apply WriteString_returned in H end.
Qed.
Lemma Concat_returned left right stop g r g' : Concat left right stop g = (Returned r, g') -> r = left ++ right.
Proof.
  unfold Concat. intros E. returned.
  - destruct right; [by rewrite app_nil_r|done].
  - by destruct left.
  - repeat match goal with H : WriteString _ _ _ _ = _ |- _ => apply WriteString_returned in H end.
    match goal with H : GrowText _ _ _ _ = _ |- _ => apply GrowText_returned in H end.
    change (elems empty_text) with (@nil ascii) in *. repeat match goal with H : elems ?x = _ |- context [elems ?x] => rewrite H end. done.
Qed.
Lemma CloneBytes_returned t stop g r g' : CloneBytes t stop g = (Returned r, g') -> r = t.
Proof.
  unfold CloneBytes. intros E. returned; [|done].
  match goal with H : copy_all _ _ _ _ _ = _ |- _ => by apply copy_all_returned in H as [-> _]; [|apply WorkChunk_pos] end.
Qed.
Lemma StringBytes_returned t nul stop g r g' : StringBytes t nul stop g = (Returned r, g') -> r = if nul then t ++ [NUL] else t.
Proof.
  unfold StringBytes. cbv zeta. intros E. returned;
    match goal with H : copy_all _ _ _ _ _ = _ |- _ => by apply copy_all_returned in H as [-> _]; [|apply WorkChunk_pos] end.
Qed.
Lemma LowerASCIIBytes_returned t stop g r g' : LowerASCIIBytes t stop g = (Returned r, g') -> r = map lower_ascii t.
Proof. unfold LowerASCIIBytes. intros E. returned. by eapply (lower_bytes_returned 0 _ _ []). Qed.
Lemma LowerASCII_returned t stop g r g' : LowerASCII t stop g = (Returned r, g') -> r = map lower_ascii t.
Proof. unfold LowerASCII. intros E. returned; [by eapply (lower_bytes_returned 0 _ _ [])|]. symmetry. by eapply scan_upper_returned. Qed.

(** the guarded text operations compute what the plain ones do.  Whatever the
    ledger, the chunks and the checkpoints, when they return, copies are equal to
    the original, a concatenation is the two texts one after the other, writing
    to a builder appends exactly the text, and lower-casing changes exactly the
    ASCII upper case letters; and without a ledger every text that fits a Go
    string is copied, joined and lower-cased: they do return. *)
Theorem guarded_text_exact (b : slice ascii) (left right : gostring) (nul stop : bool) :
  (forall g g' b', WriteString b right stop g = (Returned b', g') -> elems b' = elems b ++ right) /\
  (forall g g' r, CopyString right stop g = (Returned r, g') \/ CloneBytes right stop g = (Returned r, g') -> r = right) /\
  (forall g g' r, Concat left right stop g = (Returned r, g') -> r = left ++ right) /\
  (forall g g' r, StringBytes right nul stop g = (Returned r, g') -> r = if nul then right ++ [NUL] else right) /\
  (forall g g' r, LowerASCII right stop g = (Returned r, g') \/ LowerASCIIBytes right stop g = (Returned r, g') -> r = map lower_ascii right) /\
  (go_len left + go_len right < maxInt ->
   CopyString right stop off = (Returned right, off) /\ CloneBytes right stop off = (Returned right, off) /\
   Concat left right stop off = (Returned (left ++ right), off) /\
   StringBytes right nul stop off = (Returned (if nul then right ++ [NUL] else right), off) /\
   LowerASCII right stop off = (Returned (map lower_ascii right), off) /\
   LowerASCIIBytes right stop off = (Returned (map lower_ascii right), off)).
Proof.
  split_and!.
  - intros g g' b'. apply WriteString_returned.
  - intros g g' r [E|E]; [by apply CopyString_returned in E|by apply CloneBytes_returned in E].
  - intros g g' r. apply Concat_returned.
  - intros g g' r. apply StringBytes_returned.
  - intros g g' r [E|E]; [by apply LowerASCII_returned in E|by apply LowerASCIIBytes_returned in E].
  - intros Hm. pose proof (go_len_nonneg left). pose proof (go_len_nonneg right). split_and!; apply runs_equal.
    + apply CopyString_runs. lia.
    + intros r g'. apply CopyString_returned.
    + by apply CloneBytes_runs.
    + intros r g'. apply CloneBytes_returned.
    + by apply Concat_runs.
    + intros r g'. apply Concat_returned.
    + apply StringBytes_runs. lia.
    + intros r g'. apply StringBytes_returned.
    + apply LowerASCII_runs. lia.
    + intros r g'. apply LowerASCII_returned.
    + apply LowerASCIIBytes_runs. lia.
    + intros r g'. apply LowerASCIIBytes_returned.
Qed.
End Text.

(** ** Tables *)

Section Tables.
Context {K V : Type} `{EqDecision K} (ks vs : Z).

Definition table_keys (t : Table K V) : list K := fst <$> entries t.
(** A table holds each key once and has paid for all of its entries. *)
Definition table_ok (t : Table K V) : Prop := NoDup (table_keys t) /\ Len t <= highWater t /\ (data t = None -> highWater t = 0).
(** What a table that was never released has cost. *)
Definition table_cost (t : Table K V) : Z := match data t with None => 0 | Some _ => tableBaseBytes ks vs + highWater t * tableEntryBytes ks vs end.

Lemma Get_none t k : Get t k = None <-> k ∉ table_keys t.
Proof. unfold Get, assoc_get, table_keys. pose proof (find_assoc k (entries t)) as F. destruct (List.find _ _); rewrite <- F; done. Qed.

Lemma set_returned t k v g r g' : table_ok t -> set_ ks vs t k v false g = (Returned r, g') ->
  r.2 = true /\ table_ok r.1 /\ (forall k', Get r.1 k' = if bool_decide (k' = k) then Some v else Get t k') /\
  Charged (ledger g') - Charged (ledger g) <= table_cost r.1 - table_cost t.
Proof.
  intros (Hnd & Hhw & Hnone) H. unfold set_ in H. apply gbind_returned in H as (u & g1 & H1 & H). apply unavailable_returned in H1 as ->.
  destruct (Get t k) as [old|] eqn:Eg.
  - injection H as <- <-. assert (Hin : k ∈ table_keys t) by (destruct (decide (k ∈ table_keys t)) as [|Hn]; [done|]; by apply Get_none in Hn; rewrite Hn in Eg).
    cbn [fst snd]. split; [done|]. split.
    { unfold table_ok, table_keys, Len, entries in *. cbn [data highWater default]. unfold id in *. rewrite replace_keys. split_and!; [done| |done].
      unfold assoc_replace. by rewrite length_fmap. }
    split; [intros k'; apply (assoc_get_replace k k' v (entries t)); exact Hin|].
    unfold table_cost. cbn [data highWater]. destruct (data t) eqn:Ed; [lia|]. unfold table_keys, entries in Hin. rewrite Ed in Hin. cbn in Hin. set_solver.
  - apply Get_none in Eg. cbv zeta in H. apply gbind_returned in H as (u' & g1 & H1 & H). injection H as <- <-. cbn [fst snd].
    apply Reserve_charge in H1 as [_ Hc]. split; [done|]. split.
    { unfold table_ok, table_keys, Len, entries in *. cbn [data highWater default]. unfold id in *. rewrite fmap_app, length_app. cbn [fmap list_fmap length].
      split_and!; [|lia|done]. apply NoDup_app. split_and!; [done| |apply NoDup_singleton]. intros x Hx Hx'. set_solver. }
    split; [intros k'; apply (assoc_get_app k k' v (entries t)); exact Eg|].
    unfold table_cost. cbn [data highWater]. unfold Len, entries in *. destruct (data t) as [l|] eqn:Ed.
    + rewrite bool_decide_false in Hc by done. cbn [default] in *. unfold id in *. destruct (Z.leb_spec (highWater t) (Z.of_nat (length l))).
      * replace (highWater t `max` (Z.of_nat (length l) + 1)) with (highWater t + 1) by lia. lia.
      * replace (highWater t `max` (Z.of_nat (length l) + 1)) with (highWater t) by lia. lia.
    + rewrite (Hnone eq_refl) in *. rewrite bool_decide_true in Hc by done. cbn [default length] in *. change (Z.of_nat 0) with 0 in *. change (0 <=? 0) with true in Hc. cbv iota in Hc. change (0 `max` (0 + 1)) with 1. lia.
Qed.

(** A clear and refill costs nothing. *)
Lemma Reset_ok t : table_ok t -> table_ok (Reset_ t) /\ table_cost (Reset_ t) = table_cost t.
Proof.
  intros (_ & Hhw & Hnone). unfold table_ok, table_keys, table_cost, Reset_, Len, entries in *. destruct (data t); cbn in *; split_and!; try done; try constructor; lia.
Qed.

(** Entries set one after the other; [None] clears the table. *)
Fixpoint set_each (t : Table K V) (ops : list (option (K * V))) : G (Table K V) :=
  match ops with
  | [] => gret t
  | None :: ops => set_each (Reset_ t) ops
  | Some (k, v) :: ops => gbind (Set_ ks vs t k v) (λ t, set_each t ops)
  end.
(** The map these operations describe. *)
Definition described (m : K -> option V) (ops : list (option (K * V))) : K -> option V :=
  fold_left (λ m op, match op with None => λ _, None | Some (k, v) => λ k', if bool_decide (k' = k) then Some v else m k' end) ops m.

Lemma described_ext ops (m1 m2 : K -> option V) : (forall k, m1 k = m2 k) -> forall k, described m1 ops k = described m2 ops k.
Proof.
  unfold described. revert m1 m2. induction ops as [|[[k v]|] ops IH]; intros m1 m2 Hm; [done| |]; cbn [fold_left]; apply IH; [|done].
  intros k'. case_bool_decide; [done|apply Hm].
Qed.

Lemma set_each_returned ops t g t' g' : table_ok t -> set_each t ops g = (Returned t', g') ->
  table_ok t' /\ (forall k, Get t' k = described (Get t) ops k) /\ Charged (ledger g') - Charged (ledger g) <= table_cost t' - table_cost t.
Proof.
  revert t g. induction ops as [|[[k v]|] ops IH]; intros t g Ht H; cbn [set_each] in H.
  - injection H as <- <-. split_and!; [done|done|lia].
  - apply gbind_returned in H as (t1 & g1 & H1 & H2). unfold Set_ in H1. apply gbind_returned in H1 as ([t2 b] & g2 & H1 & H3). injection H3 as <- <-.
    apply set_returned in H1 as (_ & Ht1 & Hget & Hc1); [|done]. cbn [fst snd] in *. apply IH in H2 as (Ht' & Hget' & Hc2); [|done].
    split_and!; [done| |lia]. intros k'. rewrite Hget'. unfold described at 2. cbn [fold_left]. by apply described_ext.
  - destruct (Reset_ok t Ht) as [Hr Hcost]. apply IH in H as (Ht' & Hget' & Hc2); [|done]. split_and!; [done| |lia].
    intros k'. rewrite Hget'. unfold described at 2. cbn [fold_left]. apply described_ext. intros k0. unfold Get, Reset_, entries. by destruct (data t).
Qed.
End Tables.

(** a guarded table is a map that pays for its largest size once: after any
    sequence of assignments and clearings it maps every key to the value last
    assigned since the last clearing, and all of it has been charged at most the
    base allowance and one entry allowance for each of the largest number of
    entries it has held; refilling a cleared table is free. *)
Theorem table_charge_high_water {K V : Type} `{EqDecision K} (ks vs : Z) (ops : list (option (K * V))) (g g' : guard) (t' : Table K V) :
  set_each ks vs emptyTable ops g = (Returned t', g') ->
  (forall k, Get t' k = described (λ _, None) ops k) /\ Len t' <= highWater t' /\
  Charged (ledger g') - Charged (ledger g) <= match data t' with None => 0 | Some _ => tableBaseBytes ks vs + highWater t' * tableEntryBytes ks vs end.
Proof.
  intros E. apply set_each_returned in E as ((Hnd & Hhw & Hn) & Hget & Hc).
  - split_and!; [exact Hget|exact Hhw|]. unfold table_cost in Hc. cbn [emptyTable data] in Hc. lia.
  - unfold table_ok, table_keys, Len, entries. cbn. split_and!; [constructor|lia|done].
Qed.

(** ** Witnesses *)

(** An allocator that rounds up to sixteen bytes. *)
#[refine] Instance rounding : Allocator := {| size_class n := 16 * ((n + 15) / 16) |}.
Proof. intros n Hn. pose proof (Z.div_mod (n + 15) 16 ltac:(lia)). pose proof (Z.mod_pos_bound (n + 15) 16 ltac:(lia)). lia. Defined.

(** A required request that does not fit. *)
Definition greedy : G unit := Reserve 48 ;+ Reserve 80.
Lemma ledger_never_overrun_witness :
  let r := greedy (MkGuard (Some (NewMemory 100)) []) in
  r = (Terminated (MkFailure MemoryExceeded 100), MkGuard (Some (MkMemory 100 48 true)) []) /\
  0 <= Charged (ledger r.2) <= 100 /\ ledger (Reserve 1 r.2).2 = ledger r.2.
Proof.
  destruct (ledger_never_overrun greedy (Reserve 1) 100 []) as [Hc He].
  - apply g_bind; [apply g_reserve|intros _; apply g_reserve].
  - apply g_reserve.
  - split; [reflexivity|]. split; [exact Hc|]. apply He. reflexivity.
Defined.

Lemma append_charge_linear_witness :
  (append_each 0 8 (MkSlice [] 0) false [1; 2; 3] (MkGuard (Some (NewMemory 200)) [])).1 = Returned (MkSlice [1; 2; 3] 4) /\
  Charged (ledger (append_each 0 8 (MkSlice [] 0) false [1; 2; 3] (MkGuard (Some (NewMemory 200)) [])).2) <= 96.
Proof.
  split; [reflexivity|].
  destruct (append_charge_linear 0 8 false [1; 2; 3] (MkGuard (Some (NewMemory 200)) []) (MkGuard (Some (MkMemory 200 56 false)) []) (MkSlice [1; 2; 3] 4)) as [_ H];
    [lia|cbn; lia|reflexivity|exact H].
Defined.

Lemma table_charge_high_water_witness :
  exists t g', set_each 8 8 emptyTable [Some (1, 5); Some (2, 6); None; Some (3, 7); Some (3, 8)] (MkGuard (Some (NewMemory 1000)) []) = (Returned t, g') /\
  Get t 3 = Some 8 /\ Get t 1 = None /\ highWater t = 2 /\ Charged (ledger g') <= tableBaseBytes 8 8 + 2 * tableEntryBytes 8 8.
Proof.
  exists (MkTable (Some [(3, 8)]) 2), (MkGuard (Some (MkMemory 1000 512 false)) []). split; [reflexivity|].
  destruct (table_charge_high_water 8 8 [Some (1, 5); Some (2, 6); None; Some (3, 7); Some (3, 8)] (MkGuard (Some (NewMemory 1000)) [])
    (MkGuard (Some (MkMemory 1000 512 false)) []) (MkTable (Some [(3, 8)]) 2)) as (Hget & _ & Hc); [reflexivity|].
  split; [exact (Hget 3)|]. split; [exact (Hget 1)|]. split; [reflexivity|]. exact Hc.
Defined.
