(* ===== verification/ZipLimits.v ===== *)
(** * Limits on ZIP directories (internal/attachment/zip_limits.go)

    Before archive/zip may build its list of entries, the scanner walks the
    central directory itself and reserves every entry and every metadata byte
    against budgets shared by all archives of one message.  All offsets and
    counts come from the message, so every read is a possible panic: a read
    outside the data is the error [ZipPanic] here, and is proved impossible.

    [checks] are the answers of [state.check] in order; [true] is an
    interruption, and the list continues with [false]. *)
From S2P Require Import Prelude GoText.
Open Scope Z_scope.

Definition maxZIPMetadataBytes : Z := 1048576.

Inductive zip_error := ZipFormat | ZipFileCount | ZipMetadataLimit | ZipInterrupted | ZipPanic.

(** [scanState], the budgets. *)
Record scanState := MkScanState { archiveFiles : Z; zipMetadataBytes : Z; checks : list bool }.

(** ** An error monad over the checks *)

Definition ZM (A : Type) : Type := list bool -> (zip_error + A) * list bool.
Definition zret {A} (a : A) : ZM A := λ c, (inr a, c).
Definition zfail {A} (e : zip_error) : ZM A := λ c, (inl e, c).
Definition zbind {A B} (m : ZM A) (k : A -> ZM B) : ZM B := λ c, match m c with (inl e, c) => (inl e, c) | (inr a, c) => k a c end.
Definition zcheck : ZM unit := λ c,
  match c with true :: c => (inl ZipInterrupted, c) | false :: c => (inr tt, c) | [] => (inr tt, []) end.

Declare Scope zip_scope.
Delimit Scope zip_scope with zip.
Notation "'let*' x := m 'in' k" := (zbind m (λ x, k)) (at level 200, x binder, m at level 100, k at level 200, right associativity) : zip_scope.
Open Scope zip_scope.

(** ** Reading integers *)

Fixpoint le_value (s : gostring) : Z := match s with [] => 0 | c :: s => code c + 256 * le_value s end.
(** [binary.LittleEndian] on [data[p:]], for [n] bytes. *)
Definition read_le (n : nat) (data : gostring) (p : Z) : ZM Z :=
  if (0 <=? p) && (p + Z.of_nat n <=? go_len data) then zret (le_value (take n (drop (Z.to_nat p) data))) else zfail ZipPanic.
Definition u16 := read_le 2.
Definition u32 := read_le 4.
Definition u64 := read_le 8.

Definition end_signature : Z := 0x06054b50.
Definition header_signature : Z := 0x02014b50.
Definition locator_signature : Z := 0x07064b50.
Definition end64_signature : Z := 0x06064b50.

(** ** The end record *)

(** The inner loop, from [p] down to [start]; there are at most [turns] positions. *)
Fixpoint search_end (turns : nat) (data : gostring) (start p : Z) : ZM (option Z) :=
  match turns with
  | O => zret None
  | S turns =>
      if p <? start then zret None
      else
        let* _ := if p mod 4096 =? 0 then zcheck else zret tt in
        let* signature := u32 data p in
        if negb (signature =? end_signature) then search_end turns data start (p - 1)
        else
          let* comment := u16 data (p + 20) in
          if go_len data - p - 22 <? comment then zret None else zret (Some p)
  end.

Fixpoint search_windows (windows : list Z) (data : gostring) : ZM Z :=
  match windows with
  | [] => zfail ZipFormat
  | window :: windows =>
      let start := Z.max 0 (go_len data - window) in
      let* found := search_end (Z.to_nat (go_len data - 21 - start)) data start (go_len data - 22) in
      match found with
      | Some p => zret p
      | None => if start =? 0 then zfail ZipFormat else search_windows windows data
      end
  end.
Definition zipDirectoryEnd (data : gostring) : ZM Z := search_windows [1024; 66560] data.

(** ** The central directory *)

(** The loop; every turn moves on by at least 46 bytes. *)
Fixpoint count_headers (turns : nat) (data : gostring) (offset entryLimit byteLimit count used : Z) : ZM (Z * Z) :=
  match turns with
  | O => zret (count, used)
  | S turns =>
      if offset <=? go_len data - 46 then
        let* signature := u32 data offset in
        if negb (signature =? header_signature) then zret (count, used)
        else
          let* _ := zcheck in
          if entryLimit <=? count then zfail ZipFileCount
          else
            let* name := u16 data (offset + 28) in
            let* extra := u16 data (offset + 30) in
            let* comment := u16 data (offset + 32) in
            let length := 46 + name + extra + comment in
            if byteLimit - used <? length then zfail ZipMetadataLimit
            else if go_len data - offset <? length then zfail ZipFormat
            else count_headers turns data (offset + length) entryLimit byteLimit (count + 1) (used + length)
      else zret (count, used)
  end.
Definition countZIPDirectory (data : gostring) (offset entryLimit byteLimit : Z) : ZM (Z * Z) :=
  count_headers (length data) data offset entryLimit byteLimit 0 0.

(** ** Admission *)

(** What the end record says of the directory. *)
Record directory := MkDirectory { dir_records : Z; dir_size : Z; dir_offset : Z; dir_end : Z; dir_metadata : Z }.

(** The ZIP64 record, when the end record refers to one. *)
Definition zip64_directory (data : gostring) (end_ : Z) (d : directory) : ZM directory :=
  if (dir_records d =? 0xffff) || (dir_size d =? 0xffff) || (dir_offset d =? 0xffffffff) then
    let locator := end_ - 20 in
    if 0 <=? locator then
      let* s0 := u32 data locator in
      if s0 =? locator_signature then
        let* s1 := u32 data (locator + 4) in
        if s1 =? 0 then
          let* s2 := u32 data (locator + 16) in
          if s2 =? 1 then
            let* position := u64 data (locator + 8) in
            if (go_len data <? 56) || (go_len data - 56 <? position) then zfail ZipFormat
            else
              let* s := u32 data position in
              if negb (s =? end64_signature) then zfail ZipFormat
              else
                let* records := u64 data (position + 32) in
                let* size := u64 data (position + 40) in
                let* offset := u64 data (position + 48) in
                zret (MkDirectory records size offset position (dir_metadata d + 76))
          else zret d
        else zret d
      else zret d
    else zret d
  else zret d.

Definition read_directory (data : gostring) (end_ : Z) : ZM directory :=
  let* records := u16 data (end_ + 10) in
  let* size := u32 data (end_ + 12) in
  let* offset := u32 data (end_ + 16) in
  let* comment := u16 data (end_ + 20) in
  zip64_directory data end_ (MkDirectory records size offset end_ (22 + comment)).

(** Both candidate directories against the remaining budgets; the entries and
    the metadata bytes to reserve. *)
Definition measure_directory (data : gostring) (d : directory) (files bytes : Z) : ZM (Z * Z) :=
  if (files <? 0) || (files <? dir_records d) then zfail ZipFileCount
  else if (dir_end d <? dir_size d) || (go_len data <? dir_offset d) then zfail ZipFormat
  else
    let start := dir_end d - dir_size d in
    if go_len data <=? start then zfail ZipFormat
    else if bytes <? dir_metadata d then zfail ZipMetadataLimit
    else
      let left := bytes - dir_metadata d in
      let* first := countZIPDirectory data start files left in
      let* both := if dir_offset d <? start
                   then (let* other := countZIPDirectory data (dir_offset d) files left in zret (Z.max first.1 other.1, Z.max first.2 other.2))
                   else zret first in
      if both.1 <? dir_records d then zfail ZipFormat else zret (both.1, dir_metadata d + both.2).

Definition admitZIPDirectory (maxArchiveFiles : Z) (data : gostring) (state : scanState) : (zip_error + unit) * scanState :=
  let run := let* end_ := zipDirectoryEnd data in
             let* d := read_directory data end_ in
             measure_directory data d (maxArchiveFiles - archiveFiles state) (maxZIPMetadataBytes - zipMetadataBytes state) in
  match run (checks state) with
  | (inl e, c) => (inl e, MkScanState (archiveFiles state) (zipMetadataBytes state) c)
  | (inr (count, bytes), c) => (inr tt, MkScanState (archiveFiles state + count) (zipMetadataBytes state + bytes) c)
  end.

(** ** Specifications of monadic programs *)

(** [zspec m P]: whatever the checks answer, [m] does not panic, and its results
    satisfy [P]. *)
Definition zspec {A} (m : ZM A) (P : A -> Prop) : Prop :=
  forall c, match (m c).1 with inl e => e <> ZipPanic | inr a => P a end.

Lemma zspec_ret {A} (a : A) (P : A -> Prop) : P a -> zspec (zret a) P.
Proof. by intros Ha c. Qed.
Lemma zspec_fail {A} e (P : A -> Prop) : e <> ZipPanic -> zspec (zfail e) P.
Proof. by intros He c. Qed.
Lemma zspec_bind {A B} (m : ZM A) (k : A -> ZM B) (Q : A -> Prop) (P : B -> Prop) :
  zspec m Q -> (forall a, Q a -> zspec (k a) P) -> zspec (zbind m k) P.
Proof.
  intros Hm Hk c. unfold zbind. specialize (Hm c). destruct (m c) as [[e|a] c']; cbn [fst] in *; [done|]. apply Hk. exact Hm.
Qed.
Lemma zspec_weaken {A} (m : ZM A) (Q P : A -> Prop) : zspec m Q -> (forall a, Q a -> P a) -> zspec m P.
Proof. intros Hm HP c. specialize (Hm c). destruct ((m c).1); [done|]. by apply HP. Qed.
Lemma zspec_check : zspec zcheck (λ _, True).
Proof. intros [|[] c]; done. Qed.

Lemma le_value_range s : 0 <= le_value s < 256 ^ go_len s.
Proof.
  induction s as [|c s IH]; cbn [le_value]; [change (go_len []) with 0; rewrite Z.pow_0_r; lia|]. unfold go_len in *. cbn [length]. rewrite Nat2Z.inj_succ, Z.pow_succ_r by lia.
  pose proof (code_range c). lia.
Qed.
Lemma zspec_read n data p : 0 <= p -> p + Z.of_nat n <= go_len data -> zspec (read_le n data p) (λ v, 0 <= v).
Proof.
  intros Hp Hl. unfold read_le. rewrite (proj2 (Z.leb_le 0 p)), (proj2 (Z.leb_le _ (go_len data))) by lia.
  apply zspec_ret, le_value_range.
Qed.

(** Steps through a program; integer reads leave their bounds to prove. *)
Ltac zstep :=
  match goal with
  | |- zspec (zbind (read_le _ _ _) _) _ => eapply zspec_bind; [apply zspec_read; cbn; try lia|intros ? ?; cbv beta in *]
  | |- zspec (zbind (u16 _ _) _) _ => unfold u16
  | |- zspec (zbind (u32 _ _) _) _ => unfold u32
  | |- zspec (zbind (u64 _ _) _) _ => unfold u64
  | |- zspec (zbind zcheck _) _ => eapply zspec_bind; [apply zspec_check|intros _ _]
  | |- zspec (if ?b then _ else _) _ => let E := fresh "E" in destruct b eqn:E
  | |- zspec (zfail _) _ => apply zspec_fail; discriminate
  | |- zspec (zret _) _ => apply zspec_ret
  end.

(** ** The end record is inside the data *)

Definition end_ok (data : gostring) (p : Z) : Prop := 0 <= p /\ p + 22 <= go_len data.

Lemma search_end_spec turns data start p : 0 <= start -> p + 22 <= go_len data ->
  zspec (search_end turns data start p) (λ r, match r with Some q => end_ok data q | None => True end).
Proof.
  revert p. induction turns as [|turns IH]; intros p Hs Hp; cbn [search_end]; [by apply zspec_ret|].
  destruct (Z.ltb_spec p start); [by apply zspec_ret|].
  apply (zspec_bind _ _ (λ _, True)); [destruct (_ =? _); [apply zspec_check|by apply zspec_ret]|intros _ _].
  repeat zstep; [apply IH; lia|done|]. unfold end_ok. lia.
Qed.

Lemma zipDirectoryEnd_spec data : zspec (zipDirectoryEnd data) (end_ok data).
Proof.
  unfold zipDirectoryEnd. generalize [1024; 66560]. intros windows. induction windows as [|w windows IH]; cbn [search_windows]; [by apply zspec_fail|].
  cbv zeta. eapply zspec_bind; [apply search_end_spec; lia|]. intros [p|] Hp; [by apply zspec_ret|]. zstep; [by apply zspec_fail|exact IH].
Qed.

(** ** The chain of headers *)

Definition le_at (n : nat) (data : gostring) (p : Z) : Z := le_value (take n (drop (Z.to_nat p) data)).
Lemma read_le_at n data p : 0 <= p -> p + Z.of_nat n <= go_len data -> read_le n data p = zret (le_at n data p).
Proof. intros Hp Hl. unfold read_le. by rewrite (proj2 (Z.leb_le 0 p)), (proj2 (Z.leb_le _ (go_len data))) by lia. Qed.

Definition header_at (data : gostring) (p : Z) : Prop := p <= go_len data - 46 /\ le_at 4 data p = header_signature.
Definition header_length (data : gostring) (p : Z) : Z := 46 + le_at 2 data (p + 28) + le_at 2 data (p + 30) + le_at 2 data (p + 32).

(** [chain data p n bytes q]: [n] headers of [bytes] bytes lead from [p] to [q].
    This is what archive/zip reads: successive headers, until another signature. *)
Inductive chain (data : gostring) : Z -> Z -> Z -> Z -> Prop :=
  | chain_nil p : chain data p 0 0 p
  | chain_cons p n bytes q : header_at data p -> header_length data p <= go_len data - p ->
      chain data (p + header_length data p) n bytes q -> chain data p (n + 1) (bytes + header_length data p) q.

Lemma header_length_pos data p : 46 <= header_length data p.
Proof.
  unfold header_length, le_at. pose proof (proj1 (le_value_range (take 2 (drop (Z.to_nat (p + 28)) data)))).
  pose proof (proj1 (le_value_range (take 2 (drop (Z.to_nat (p + 30)) data)))).
  pose proof (proj1 (le_value_range (take 2 (drop (Z.to_nat (p + 32)) data)))). lia.
Qed.

Lemma chain_nonneg data p n bytes q : chain data p n bytes q -> 0 <= n /\ 0 <= bytes.
Proof. induction 1 as [|p n bytes q _ _ _ IH]; [lia|]. pose proof (header_length_pos data p). lia. Qed.

(** A chain that cannot go on is the longest one. *)
Lemma chain_longest data p n bytes q n' bytes' q' : chain data p n bytes q -> ~ header_at data q -> chain data p n' bytes' q' ->
  n' <= n /\ bytes' <= bytes.
Proof.
  intros Hc Hend. revert n' bytes' q'. induction Hc as [p|p n bytes q Hh Hl Hc IH]; intros n' bytes' q' Hc'.
  - inversion Hc'; subst; [lia|done].
  - inversion Hc' as [|p' n2 b2 q2 Hh2 Hl2 Hc2]; subst.
    + apply chain_nonneg in Hc. pose proof (header_length_pos data q'). lia.
    + destruct (IH Hend _ _ _ Hc2). lia.
Qed.

(** The walk finds the longest chain, within its limits. *)
Definition walked (data : gostring) (p entryLimit byteLimit count used : Z) (r : Z * Z) : Prop :=
  exists n bytes q, r = (count + n, used + bytes) /\ chain data p n bytes q /\ ~ header_at data q /\
    (count <= entryLimit -> count + n <= entryLimit) /\ (used <= byteLimit -> used + bytes <= byteLimit).

Lemma walked_end data p el bl count used : ~ header_at data p -> walked data p el bl count used (count, used).
Proof. intros Hn. exists 0, 0, p. rewrite !Z.add_0_r. split_and!; try done. constructor. Qed.

Lemma count_headers_spec turns data p el bl count used : 0 <= p -> go_len data - p <= Z.of_nat turns ->
  zspec (count_headers turns data p el bl count used) (walked data p el bl count used).
Proof.
  revert p count used. induction turns as [|turns IH]; intros p count used Hp Ht; cbn [count_headers].
  { apply zspec_ret, walked_end. unfold header_at. lia. }
  destruct (Z.leb_spec p (go_len data - 46)) as [Hin|Hout]; [|apply zspec_ret, walked_end; unfold header_at; lia].
  unfold u16, u32. rewrite !read_le_at by (cbn; lia). unfold zbind at 1, zret at 1.
  destruct (Z.eqb_spec (le_at 4 data p) header_signature) as [Hs|Hs]; cbn [negb]; [|apply zspec_ret, walked_end; unfold header_at; lia].
  change (zspec (zbind zcheck (λ _, if el <=? count then zfail ZipFileCount else
    let length := header_length data p in
    if bl - used <? length then zfail ZipMetadataLimit else if go_len data - p <? length then zfail ZipFormat
    else count_headers turns data (p + length) el bl (count + 1) (used + length))) (walked data p el bl count used)).
  pose proof (header_length_pos data p) as Hl. repeat zstep. cbv zeta. repeat zstep.
  eapply zspec_weaken; [apply IH; lia|]. intros r (n & bytes & q & -> & Hc & Hq & Hn & Hb).
  exists (n + 1), (bytes + header_length data p), q. split_and!; [f_equal; lia| |done|lia|lia].
  by constructor; [split|lia|].
Qed.

(** ** The directory *)

Record directory_ok (data : gostring) (d : directory) : Prop := DirectoryOk {
  do_records : 0 <= dir_records d;
  do_size : 0 <= dir_size d;
  do_offset : 0 <= dir_offset d;
  do_end : 0 <= dir_end d <= go_len data - 22;
  do_metadata : 0 <= dir_metadata d;
}.

Lemma read_directory_spec data e : end_ok data e -> zspec (read_directory data e) (directory_ok data).
Proof.
  unfold end_ok. intros He. unfold read_directory, zip64_directory. repeat zstep; cbv zeta; repeat zstep;
    repeat match goal with H : (_ || _) = false |- _ => apply orb_false_iff in H as [? ?] end;
    (split; cbn [dir_records dir_size dir_offset dir_end dir_metadata]; lia) || lia.
Qed.

(** The positions from which archive/zip may read the directory. *)
Definition candidate (d : directory) (p : Z) : Prop :=
  p = dir_end d - dir_size d \/ (p = dir_offset d /\ dir_offset d < dir_end d - dir_size d).

(** What a measured directory guarantees: the reserved entries and bytes cover
    every chain of headers from either candidate, and the advertised count. *)
Definition measured (data : gostring) (d : directory) (files bytes : Z) (r : Z * Z) : Prop :=
  0 <= r.1 <= files /\ dir_records d <= r.1 /\ 0 <= r.2 <= bytes /\
  forall p n b q, candidate d p -> chain data p n b q -> n <= r.1 /\ dir_metadata d + b <= r.2.

Lemma countZIPDirectory_spec data p files left : 0 <= p ->
  zspec (countZIPDirectory data p files left) (walked data p files left 0 0).
Proof. intros Hp. apply count_headers_spec; [done|]. unfold go_len. lia. Qed.

Lemma measure_directory_spec data d files bytes : directory_ok data d ->
  zspec (measure_directory data d files bytes) (measured data d files bytes).
Proof.
  intros [Hr Hs Ho He Hm]. unfold measure_directory. repeat zstep. apply orb_false_iff in E as [E _], E0 as [E0 _]. cbv zeta. repeat zstep.
  set (start := dir_end d - dir_size d) in *. set (left := bytes - dir_metadata d).
  apply (zspec_bind _ _ (walked data start files left 0 0)); [apply countZIPDirectory_spec; lia|].
  intros first (n1 & b1 & q1 & -> & Hc1 & Hq1 & Hn1 & Hb1).
  pose proof (chain_nonneg _ _ _ _ _ Hc1) as [Hn1' Hb1']. specialize (Hn1 ltac:(lia)). specialize (Hb1 ltac:(lia)).
  apply (zspec_bind _ _ (λ both, both.1 <= files /\ both.2 <= left /\ 0 <= both.1 /\ 0 <= both.2 /\
    forall p n b q, candidate d p -> chain data p n b q -> n <= both.1 /\ b <= both.2)).
  - destruct (Z.ltb_spec (dir_offset d) start) as [Hlt|Hge].
    + apply (zspec_bind _ _ (walked data (dir_offset d) files left 0 0)); [apply countZIPDirectory_spec; lia|].
      intros other (n2 & b2 & q2 & -> & Hc2 & Hq2 & Hn2 & Hb2). specialize (Hn2 ltac:(lia)). specialize (Hb2 ltac:(lia)).
      apply zspec_ret. cbn [fst snd]. split_and!; try lia. intros p n b q [->|[-> _]] Hc;
        [pose proof (chain_longest _ _ _ _ _ _ _ _ Hc1 Hq1 Hc)|pose proof (chain_longest _ _ _ _ _ _ _ _ Hc2 Hq2 Hc)]; lia.
    + apply zspec_ret. cbn [fst snd]. split_and!; try lia. intros p n b q [->|[_ Hlt]] Hc; [|fold start in Hlt; lia].
      pose proof (chain_longest _ _ _ _ _ _ _ _ Hc1 Hq1 Hc). lia.
  - intros both (H1 & H2 & H3 & H4 & H5). zstep; [by apply zspec_fail|]. apply zspec_ret. unfold measured. cbn [fst snd].
    split_and!; try lia. intros p n b q Hp Hc. destruct (H5 p n b q Hp Hc). lia.
Qed.

(** ** Properties *)

(** The budgets of a message before and after archives have been admitted. *)
Definition within_budget (maxArchiveFiles : Z) (s : scanState) : Prop :=
  0 <= archiveFiles s <= maxArchiveFiles /\ 0 <= zipMetadataBytes s <= maxZIPMetadataBytes.

(** The directory the end of the data describes. *)
Definition describes (data : gostring) (d : directory) : Prop :=
  exists c1 c2 e, (zipDirectoryEnd data c1).1 = inr e /\ (read_directory data e c2).1 = inr d.

Lemma zspec_run {A} (m : ZM A) P c a : zspec m P -> (m c).1 = inr a -> P a.
Proof. intros Hm Hc. specialize (Hm c). by rewrite Hc in Hm. Qed.

Lemma admit_spec maxArchiveFiles data s : exists r c,
  admitZIPDirectory maxArchiveFiles data s = (r, MkScanState (archiveFiles s + match r with inr _ => c.1.1 | inl _ => 0 end)
    (zipMetadataBytes s + match r with inr _ => c.1.2 | inl _ => 0 end) c.2) /\
  match r with
  | inl e => e <> ZipPanic
  | inr _ => exists d, describes data d /\
      measured data d (maxArchiveFiles - archiveFiles s) (maxZIPMetadataBytes - zipMetadataBytes s) c.1
  end.
Proof.
  unfold admitZIPDirectory, zbind. pose proof (zipDirectoryEnd_spec data (checks s)) as He.
  destruct (zipDirectoryEnd data (checks s)) as [[e|end_] c1] eqn:E1; cbn [fst] in He.
  { exists (inl e), ((0, 0), c1). cbn [fst snd]. rewrite !Z.add_0_r. done. }
  pose proof (read_directory_spec data end_ He c1) as Hd.
  destruct (read_directory data end_ c1) as [[e|d] c2] eqn:E2; cbn [fst] in Hd.
  { exists (inl e), ((0, 0), c2). cbn [fst snd]. rewrite !Z.add_0_r. done. }
  pose proof (measure_directory_spec data d (maxArchiveFiles - archiveFiles s) (maxZIPMetadataBytes - zipMetadataBytes s) Hd c2) as Hm.
  destruct (measure_directory data d _ _ c2) as [[e|[count bytes]] c3]; cbn [fst] in Hm.
  { exists (inl e), ((0, 0), c3). cbn [fst snd]. rewrite !Z.add_0_r. done. }
  exists (inr tt), ((count, bytes), c3). cbn [fst snd]. split; [done|]. exists d. split; [|exact Hm].
  exists (checks s), c1, end_. rewrite E1, E2. done.
Qed.

(** *** A context that never ends *)

Definition zquiet {A} (m : ZM A) : Prop := (m []).2 = [].
Lemma zquiet_ret {A} (a : A) : zquiet (zret a).
Proof. done. Qed.
Lemma zquiet_fail {A} e : zquiet (@zfail A e).
Proof. done. Qed.
Lemma zquiet_check : zquiet zcheck.
Proof. done. Qed.
Lemma zquiet_bind {A B} (m : ZM A) (k : A -> ZM B) : zquiet m -> (forall a, zquiet (k a)) -> zquiet (zbind m k).
Proof. unfold zquiet, zbind. destruct (m []) as [[e|a] c]; cbn; intros -> Hk; [done|apply Hk]. Qed.
Lemma zquiet_read n data p : zquiet (read_le n data p).
Proof. unfold read_le. by destruct (_ && _). Qed.
Ltac zquiet_step :=
  match goal with
  | |- zquiet (zbind _ _) => apply zquiet_bind; [|intros ?]
  | |- zquiet (if ?b then _ else _) => destruct b
  | |- zquiet (match ?b with Some _ => _ | None => _ end) => destruct b
  | |- zquiet (let _ := _ in _) => cbv zeta
  | |- zquiet zcheck => apply zquiet_check
  | |- zquiet (zret _) => apply zquiet_ret
  | |- zquiet (zfail _) => apply zquiet_fail
  | |- zquiet (u16 _ _) => apply zquiet_read
  | |- zquiet (u32 _ _) => apply zquiet_read
  | |- zquiet (u64 _ _) => apply zquiet_read
  end.

Lemma search_end_quiet turns data start p : zquiet (search_end turns data start p).
Proof. revert p. induction turns as [|turns IH]; intros p; cbn [search_end]; repeat (zquiet_step || apply IH). Qed.
Lemma count_headers_quiet turns data p el bl count used : zquiet (count_headers turns data p el bl count used).
Proof. revert p count used. induction turns as [|turns IH]; intros p count used; cbn [count_headers]; repeat (zquiet_step || apply IH). Qed.
Lemma zipDirectoryEnd_quiet data : zquiet (zipDirectoryEnd data).
Proof.
  unfold zipDirectoryEnd. generalize [1024; 66560]. intros windows. induction windows as [|w windows IH]; cbn [search_windows]; repeat (zquiet_step || apply search_end_quiet || apply IH).
Qed.
Lemma admit_quiet maxArchiveFiles data s : checks s = [] -> checks (admitZIPDirectory maxArchiveFiles data s).2 = [].
Proof.
  intros Hs. unfold admitZIPDirectory. rewrite Hs. cbv zeta.
  set (run := zbind (zipDirectoryEnd data) _). assert (Hq : zquiet run).
  { subst run. repeat (zquiet_step || apply zipDirectoryEnd_quiet || unfold read_directory, zip64_directory, measure_directory, countZIPDirectory || apply count_headers_quiet). }
  unfold zquiet in Hq. by destruct (run []) as [[e|[n b]] c]; cbn in *.
Qed.

(** checking an archive never reads outside its bytes, whatever they are and
    whenever the scan is interrupted, and the file and metadata budgets of the
    message hold afterwards: they only grow, by what was admitted, and a refused
    archive takes nothing from them. *)
Theorem zip_admission_safe (maxArchiveFiles : Z) (data : gostring) (s : scanState) :
  within_budget maxArchiveFiles s ->
  let r := admitZIPDirectory maxArchiveFiles data s in
  r.1 <> inl ZipPanic /\ within_budget maxArchiveFiles r.2 /\
  archiveFiles s <= archiveFiles r.2 /\ zipMetadataBytes s <= zipMetadataBytes r.2 /\
  (r.1 <> inr tt -> archiveFiles r.2 = archiveFiles s /\ zipMetadataBytes r.2 = zipMetadataBytes s).
Proof.
  intros [Hf Hb] r. destruct (admit_spec maxArchiveFiles data s) as (x & [[n b] c] & E & Hx). subst r. rewrite E. unfold within_budget. cbn [fst snd archiveFiles zipMetadataBytes].
  destruct x as [e|[]].
  - rewrite !Z.add_0_r. split_and!; try lia. congruence.
  - destruct Hx as (d & _ & Hm). unfold measured in Hm. cbn [fst snd] in *. split_and!; try lia; done.
Qed.

(** an admitted archive cannot make archive/zip build more than was reserved:
    from either position at which it may look for the directory, every chain of
    headers it could follow has at most the reserved number of entries and
    metadata bytes, and so has the count the archive advertises. *)
Theorem zip_admission_covers (maxArchiveFiles : Z) (data : gostring) (s s' : scanState) :
  admitZIPDirectory maxArchiveFiles data s = (inr tt, s') ->
  exists d, describes data d /\ dir_records d <= archiveFiles s' - archiveFiles s /\
    forall p n bytes q, candidate d p -> chain data p n bytes q ->
      n <= archiveFiles s' - archiveFiles s /\ dir_metadata d + bytes <= zipMetadataBytes s' - zipMetadataBytes s.
Proof.
  intros Ha. destruct (admit_spec maxArchiveFiles data s) as (x & [[n b] c] & E & Hx). rewrite Ha in E. injection E as <- ->.
  destruct Hx as (d & Hd & Hm). unfold measured in Hm. cbn [fst snd archiveFiles zipMetadataBytes] in *.
  exists d. split; [done|]. split; [lia|]. intros p n' b' q Hp Hc. destruct Hm as (_ & _ & _ & Hm). specialize (Hm p n' b' q Hp Hc). lia.
Qed.

(** ** An archive with one entry *)

Definition zeros (n : nat) : gostring := replicate n NUL.
Definition le_bytes (n : nat) (z : Z) : gostring := (λ i, chr (z / 256 ^ Z.of_nat i mod 256)) <$> seq 0 n.
Definition one_entry : gostring :=
  le_bytes 4 header_signature ++ zeros 24 ++ le_bytes 2 1 ++ zeros 16 ++ lit "a" ++
  le_bytes 4 end_signature ++ zeros 6 ++ le_bytes 2 1 ++ le_bytes 4 47 ++ zeros 6.
Definition fresh_state : scanState := MkScanState 0 0 [].

Lemma zip_admission_safe_witness : let r := admitZIPDirectory 10 one_entry fresh_state in
  r.1 = inr tt /\ archiveFiles r.2 = 1 /\ zipMetadataBytes r.2 = 69 /\ within_budget 10 r.2.
Proof.
  intros r. split; [vm_compute; reflexivity|]. split; [vm_compute; reflexivity|]. split; [vm_compute; reflexivity|].
  apply (zip_admission_safe 10 one_entry fresh_state). unfold within_budget. cbn. unfold maxZIPMetadataBytes. lia.
Defined.

Lemma zip_admission_covers_witness : exists d, describes one_entry d /\ dir_records d <= 1 /\
  forall p n bytes q, candidate d p -> chain one_entry p n bytes q -> n <= 1 /\ dir_metadata d + bytes <= 69.
Proof.
  exact (zip_admission_covers 10 one_entry fresh_state (MkScanState 1 69 []) eq_refl).
Defined.
