(* ===== verification/Thinking.v ===== *)
(** * Thinking plans (internal/thinking)

    The controls of a model's reasoning effort come from two files an operator
    may edit: endpoints, with a request fragment for each mode, and profiles,
    with the options of a model.  Both are validated, compiled into a plan (a
    ladder of choices), and a choice's fragment is merged into each request.

    JSON values are trees; the fields of an object are listed in the order in
    which a loop over the Go map meets them.  [cloneValue] copies a value, so in
    the model values are their own copies.  Reading the files and decoding YAML
    are left to the library: the model starts from the syntax tree
    ([validateYAMLTree]) and from the decoded records.  Error values carry no
    text.  A nil dereference or a failed type assertion is [Panicking]. *)
From S2P Require Import Prelude GoText.

(** ** Values *)

Inductive json :=
  | JNull | JBool (b : bool) | JNumber (n : Z)
  | JFloat (finite : bool) (bits : Z)
  | JString (s : gostring)
  | JArray (items : list json)
  | JObject (fields : list (gostring * json))
  | JAnyObject (fields : list (option gostring * json))  (* map[any]any; a key that is no string is [None] *)
  | JOther (entries : list (gostring * gostring)).        (* any other Go type; of a map[string]string, its entries *)

Inductive thinking_error :=
  | UnknownEndpoint | UnknownProfile | UnsupportedProtocol | AmbiguousOff | NoUsableOptions | FingerprintFailed
  | ToggleUnresolved | KeyCollision (key : gostring)
  | LevelOutOfRange | FieldConflict (path : gostring)
  | InvalidEndpointURL | InvalidRoute
  | BadSchema | MissingField | BadIdentifier | BadProtocol | BadParameters | BadMode | BadFragment | BadEffortValues | BadBudget | BadOption
  | NotJSON | YamlDepth | YamlNodes | YamlAlias | YamlTag | YamlKey | YamlDuplicate | YamlMerge | YamlField.
Inductive outcome (A : Type) := Done (a : A) | Failed (e : thinking_error) | Panicking.
Arguments Done {A}. Arguments Failed {A}. Arguments Panicking {A}.
Definition obind {A B} (m : outcome A) (k : A -> outcome B) : outcome B :=
  match m with Done a => k a | Failed e => Failed e | Panicking => Panicking end.
Declare Scope thinking_scope.
Delimit Scope thinking_scope with thinking.
Notation "'let-' x := m 'in' k" := (obind m (λ x, k)) (at level 200, x binder, m at level 100, k at level 200, right associativity) : thinking_scope.
Notation "m ;- k" := (obind m (λ _, k)) (at level 100, right associativity) : thinking_scope.
Open Scope thinking_scope.
Definition check (ok : bool) (e : thinking_error) : outcome unit := if ok then Done tt else Failed e.
Fixpoint check_each {A} (f : A -> outcome unit) (l : list A) : outcome unit :=
  match l with [] => Done tt | a :: l => f a ;- check_each f l end.

Inductive Mode := ModeOff | ModeOn | ModeEffort | ModeBudget.
#[export] Instance Mode_eq_dec : EqDecision Mode.
Proof. solve_decision. Defined.
Definition mode_text (m : Mode) : gostring :=
  match m with ModeOff => lit "off" | ModeOn => lit "on" | ModeEffort => lit "effort" | ModeBudget => lit "budget" end.
(** [validMode] of a mode's text. *)
Definition parse_mode (s : gostring) : option Mode :=
  if beq s (lit "off") then Some ModeOff else if beq s (lit "on") then Some ModeOn
  else if beq s (lit "effort") then Some ModeEffort else if beq s (lit "budget") then Some ModeBudget else None.
Definition validMode (s : gostring) : bool := match parse_mode s with Some _ => true | None => false end.

Abbreviation parameters := (list (gostring * option gostring)).
Record OptionDefinition := MkOption {
  op_ID : gostring; op_Label : gostring; op_Mode : gostring;
  op_Effort : option gostring; op_BudgetTokens : option Z; effortSet : bool; budgetSet : bool }.
Record EndpointDefinition := MkEndpoint {
  en_Protocol : gostring; en_Path : gostring; en_Requests : option (list (gostring * json));
  en_EffortValues : option (list gostring); en_BudgetMin : option Z; en_BudgetMax : option Z;
  en_TemplateDefaults : option parameters; en_SchemaVersion : Z }.
Record ProfileDefinition := MkProfile {
  pr_TemplateParameters : option parameters; pr_Options : option (list OptionDefinition); pr_SchemaVersion : Z }.
Record Catalogues := MkCatalogues { Endpoints : list (gostring * EndpointDefinition); Profiles : list (gostring * ProfileDefinition) }.

Definition toggle : gostring := lit "$template.thinking_toggle".
Definition effort_placeholder : gostring := lit "$effort".
Definition budget_placeholder : gostring := lit "$budget_tokens".

(** ** Rendering a fragment (render.go) *)

Section Render.
Context (option_ : OptionDefinition) (parameter : option (option gostring)).

(** The loop over the fields of an object: the fields rendered so far, and
    whether one was left out. *)
Fixpoint render_fields (render : json -> outcome (json * bool)) (fields result : list (gostring * json)) (removedDynamic : bool)
    : outcome (list (gostring * json) * bool) :=
  match fields with
  | [] => Done (result, removedDynamic)
  | (originalKey, originalValue) :: fields =>
      let put (key : gostring) :=
        let- r := render originalValue in
        if r.2 : bool then render_fields render fields result true
        else if assoc_mem key result then Failed (KeyCollision key)
        else render_fields render fields (result ++ [(key, r.1)]) removedDynamic in
      if beq originalKey toggle then
        match parameter with
        | None => Failed ToggleUnresolved
        | Some None => render_fields render fields result true
        | Some (Some key) => put key
        end
      else put originalKey
  end.
Fixpoint render_items (render : json -> outcome (json * bool)) (items : list json) : outcome (list json) :=
  match items with
  | [] => Done []
  | item :: items => let- r := render item in let- rest := render_items render items in Done (r.1 :: rest)
  end.

Fixpoint renderValue (value : json) (inArray : bool) {struct value} : outcome (json * bool) :=
  match value with
  | JObject fields =>
      let- r := render_fields (λ v, renderValue v false) fields [] false in
      Done (JObject r.1, negb (bool_decide (fields = [])) && match r.1 with [] => true | _ => false end && r.2 && negb inArray)
  | JArray items => let- items := render_items (λ v, renderValue v true) items in Done (JArray items, false)
  | JString s =>
      if beq s effort_placeholder then match op_Effort option_ with Some e => Done (JString e, false) | None => Panicking end
      else if beq s budget_placeholder then match op_BudgetTokens option_ with Some n => Done (JNumber n, false) | None => Panicking end
      else Done (JString s, false)
  | v => Done (v, false)
  end.
End Render.

Definition thinking_toggle : gostring := lit "thinking_toggle".
(** The endpoint's parameter, unless the profile has its own. *)
Definition resolved_parameter (endpointParameters profileParameters : option parameters) : option (option gostring) :=
  match assoc_get thinking_toggle (default [] profileParameters) with
  | Some override => Some override
  | None => assoc_get thinking_toggle (default [] endpointParameters)
  end.
Definition renderFragment (raw : list (gostring * json)) (o : OptionDefinition) (endpointParameters profileParameters : option parameters)
    : outcome (list (gostring * json)) :=
  let- r := renderValue o (resolved_parameter endpointParameters profileParameters) (JObject raw) false in
  match r.1 with JObject fields => Done fields | _ => Panicking end.

(** ** Plans (plan.go) *)

Record Exclusion := MkExclusion { ex_OptionID : gostring; ex_Reason : gostring }.
Record Choice := MkChoice {
  ch_Index : Z; ch_ID : gostring; ch_Label : gostring; ch_Mode : gostring; ch_Effort : gostring; ch_BudgetTokens : Z;
  ch_fragment : list (gostring * json) }.
Record Plan := MkPlan {
  endpointID : gostring; profileID : gostring; protocol : gostring; route : gostring;
  ladder : list Choice; exclusions : list Exclusion; sourceOptionsEmpty : bool; fingerprint : gostring }.

Definition MinimumLevel : Z := 0.
Definition MaximumLevel : Z := 4.

Definition is_mode (m : gostring) (mode : Mode) : bool := beq m (mode_text mode).

(** How one option of the profile ends up. *)
Inductive verdict := Excluded (reason : gostring) | Chosen (c : Choice).
Definition effort_refused (e : EndpointDefinition) (o : OptionDefinition) : outcome bool :=
  match en_EffortValues e with
  | Some values => if is_mode (op_Mode o) ModeEffort
                   then match op_Effort o with Some effort => Done (negb (existsb (beq effort) values)) | None => Panicking end
                   else Done false
  | None => Done false
  end.
Definition budget_refused (e : EndpointDefinition) (o : OptionDefinition) : outcome bool :=
  if is_mode (op_Mode o) ModeBudget then
    match op_BudgetTokens o with
    | Some tokens => Done ((tokens <? default 1 (en_BudgetMin e)) || match en_BudgetMax e with Some m => m <? tokens | None => false end)
    | None => Panicking
    end
  else Done false.
Definition compile_option (e : EndpointDefinition) (p : ProfileDefinition) (o : OptionDefinition) : outcome verdict :=
  match assoc_get (op_Mode o) (default [] (en_Requests e)) with
  | None => Done (Excluded (lit "endpoint does not support mode " ++ op_Mode o))
  | Some raw =>
      let- refused := effort_refused e o in
      if refused : bool then Done (Excluded (lit "effort is not allowed by endpoint"))
      else
        let- refused := budget_refused e o in
        if refused : bool then Done (Excluded (lit "budget is outside endpoint range"))
        else
          match raw with
          | JObject fields =>
              let- fragment := renderFragment fields o (en_TemplateDefaults e) (pr_TemplateParameters p) in
              match fragment with
              | [] => Done (Excluded (lit "rendered request fragment is empty"))
              | _ => Done (Chosen (MkChoice 0 (op_ID o) (op_Label o) (op_Mode o) (default [] (op_Effort o)) (default 0 (op_BudgetTokens o)) fragment))
              end
          | _ => Panicking
          end
  end.
Fixpoint compile_options (e : EndpointDefinition) (p : ProfileDefinition) (options : list OptionDefinition) (choices : list Choice) (excluded : list Exclusion)
    : outcome (list Choice * list Exclusion) :=
  match options with
  | [] => Done (choices, excluded)
  | o :: options =>
      let- v := compile_option e p o in
      match v with
      | Excluded reason => compile_options e p options choices (excluded ++ [MkExclusion (op_ID o) reason])
      | Chosen c => compile_options e p options (choices ++ [c]) excluded
      end
  end.

Definition is_off (c : Choice) : bool := is_mode (ch_Mode c) ModeOff.
Definition set_index (i : nat) (c : Choice) : Choice := MkChoice (Z.of_nat i) (ch_ID c) (ch_Label c) (ch_Mode c) (ch_Effort c) (ch_BudgetTokens c) (ch_fragment c).
(** Off first, the others in the order of the profile. *)
Definition order_choices (choices : list Choice) : list Choice :=
  imap set_index (match List.find is_off choices with Some c => [c] | None => [] end ++ List.filter (λ c, negb (is_off c)) choices).

(** JSON encoding and SHA-256 of the definitions a plan was made from. *)
Class Fingerprint := { fingerprint_of : gostring -> gostring -> EndpointDefinition -> ProfileDefinition -> option gostring }.

Section Plans.
Context `{Fingerprint}.

Definition CompilePlan (catalogues : Catalogues) (endpointID profileID : gostring) (supportedProtocols : list gostring) : outcome Plan :=
  match assoc_get endpointID (Endpoints catalogues) with
  | None => Failed UnknownEndpoint
  | Some e =>
      match assoc_get profileID (Profiles catalogues) with
      | None => Failed UnknownProfile
      | Some p =>
          if negb (existsb (beq (en_Protocol e)) supportedProtocols) then Failed UnsupportedProtocol
          else
            let options := default [] (pr_Options p) in
            if (1 <? length (List.filter (λ o, is_mode (op_Mode o) ModeOff) options))%nat then Failed AmbiguousOff
            else
              let sourceOptionsEmpty := match options with [] => true | _ => false end in
              let- r := compile_options e p options [] [] in
              if negb sourceOptionsEmpty && match r.1 with [] => true | _ => false end then Failed NoUsableOptions
              else
                match fingerprint_of endpointID profileID e p with
                | None => Failed FingerprintFailed
                | Some sum => Done (MkPlan endpointID profileID (en_Protocol e) (en_Path e) (order_choices r.1) r.2 sourceOptionsEmpty sum)
                end
      end
  end.
End Plans.

Definition scaleLevel (value sourceMaximum targetMaximum : Z) : Z :=
  if targetMaximum =? 0 then 0 else (value * targetMaximum + sourceMaximum / 2) / sourceMaximum.
(** Reads [ladder[0]]; an empty ladder panics there. *)
Definition normalizedChoiceIndex (l : list Choice) (level : Z) : outcome Z :=
  let n := Z.of_nat (length l) in
  if n =? 1 then Done 0
  else match l with
       | [] => Panicking
       | first :: _ =>
           if is_off first then
             if level =? MinimumLevel then Done 0 else Done (1 + scaleLevel (level - 1) (MaximumLevel - 1) (n - 2))
           else Done (scaleLevel level MaximumLevel (n - 1))
       end.

Record Resolution := MkResolution {
  Status : gostring; RequestedLevel : Z; EffectiveLevel : option Z; MaxLevel : option Z; OptionID : gostring; re_Label : gostring;
  re_Mode : gostring; re_Effort : gostring; re_BudgetTokens : Z; OffAvailable : bool; re_Fingerprint : gostring; Fragment : list (gostring * json) }.
Definition ResolveLevel (p : Plan) (level : Z) : outcome Resolution :=
  if (level <? MinimumLevel) || (MaximumLevel <? level) then Failed LevelOutOfRange
  else
    let off := match ladder p with first :: _ => is_off first | [] => false end in
    if sourceOptionsEmpty p
    then Done (MkResolution (lit "uncontrolled") level None None [] [] [] [] 0 off (fingerprint p) [])
    else
      let- index := normalizedChoiceIndex (ladder p) level in
      match (if index <? 0 then None else ladder p !! Z.to_nat index) with
      | None => Panicking
      | Some c => Done (MkResolution (lit "selected") level (Some level) (Some MaximumLevel) (ch_ID c) (ch_Label c) (ch_Mode c) (ch_Effort c) (ch_BudgetTokens c)
                          off (fingerprint p) (ch_fragment c))
      end.

(** The loop over the fields of a fragment. *)
Fixpoint merge_fields (merge : list (gostring * json) -> json -> gostring -> outcome (list (gostring * json)))
    (fields destination : list (gostring * json)) (path : gostring) : outcome (list (gostring * json)) :=
  match fields with
  | [] => Done destination
  | (key, incoming) :: fields =>
      match assoc_get key destination with
      | None => merge_fields merge fields (assoc_set key incoming destination) path
      | Some (JObject currentObject) =>
          match incoming with
          | JObject _ =>
              let- merged := merge currentObject incoming (path ++ lit "." ++ key) in
              merge_fields merge fields (assoc_replace key (JObject merged) destination) path
          | _ => Failed (FieldConflict (path ++ lit "." ++ key))
          end
      | Some _ => Failed (FieldConflict (path ++ lit "." ++ key))
      end
  end.
Fixpoint merge_value (destination : list (gostring * json)) (fragment : json) (path : gostring) {struct fragment} : outcome (list (gostring * json)) :=
  match fragment with
  | JObject fields => merge_fields merge_value fields destination path
  | _ => Done destination
  end.
Definition mergeObject (destination fragment : list (gostring * json)) (path : gostring) : outcome (list (gostring * json)) :=
  merge_value destination (JObject fragment) path.
Definition Merge (base fragment : list (gostring * json)) : outcome (list (gostring * json)) := mergeObject base fragment (lit "$").

Definition ValidateBaseRequest (p : Plan) (base : list (gostring * json)) : outcome unit :=
  check_each (λ c, Merge base (ch_fragment c) ;- Done tt) (ladder p).
Definition ApplyResolution (base : list (gostring * json)) (r : Resolution) : outcome (list (gostring * json)) :=
  if beq (Status r) (lit "uncontrolled") || match Fragment r with [] => true | _ => false end then Done base
  else Merge base (Fragment r).

(** ** Validation of the catalogues (catalogue.go) *)

Definition containsReservedToken (value : gostring) : bool :=
  contains value toggle || contains value effort_placeholder || contains value budget_placeholder.

Section Normalize.
(** The loops over arrays and objects. *)
Fixpoint normalize_items (f : json -> outcome json) (items : list json) : outcome (list json) :=
  match items with [] => Done [] | v :: items => let- v := f v in let- rest := normalize_items f items in Done (v :: rest) end.
Fixpoint normalize_fields (f : json -> outcome json) (fields result : list (gostring * json)) : outcome (list (gostring * json)) :=
  match fields with
  | [] => Done result
  | (k, v) :: fields => let- v := f v in normalize_fields f fields (assoc_set k v result)
  end.
Fixpoint normalize_any_fields (f : json -> outcome json) (fields : list (option gostring * json)) (result : list (gostring * json)) : outcome (list (gostring * json)) :=
  match fields with
  | [] => Done result
  | (None, _) :: _ => Failed NotJSON
  | (Some k, v) :: fields => let- v := f v in normalize_any_fields f fields (assoc_set k v result)
  end.
End Normalize.
Fixpoint normalizeJSON (v : json) : outcome json :=
  match v with
  | JFloat finite _ => if finite then Done v else Failed NotJSON
  | JArray items => let- items := normalize_items normalizeJSON items in Done (JArray items)
  | JObject fields => let- fields := normalize_fields normalizeJSON fields [] in Done (JObject fields)
  | JAnyObject fields => let- fields := normalize_any_fields normalizeJSON fields [] in Done (JObject fields)
  | JOther _ => Failed NotJSON
  | _ => Done v
  end.

Section Fragments.
Context (mode : Mode) (schemaVersion : Z).

Definition validate_key (key : gostring) (child : json) : outcome unit :=
  if beq key toggle then
    check (2 <=? schemaVersion) BadFragment ;- check (match child with JBool _ => true | _ => false end) BadFragment
  else if beq key effort_placeholder || beq key budget_placeholder then Failed BadFragment
  else check (negb (hasPrefix key (lit "$") || containsReservedToken key)) BadFragment.
Definition validate_text (value : gostring) : outcome unit :=
  if beq value effort_placeholder then check (bool_decide (mode = ModeEffort)) BadFragment
  else if beq value budget_placeholder then check (bool_decide (mode = ModeBudget)) BadFragment
  else if beq value toggle then Failed BadFragment
  else check (negb (hasPrefix value (lit "$") || containsReservedToken value)) BadFragment.
Fixpoint fragment_walk (value : json) : outcome unit :=
  match value with
  | JObject fields => check_each (λ kv, validate_key kv.1 kv.2 ;- fragment_walk kv.2) fields
  | JArray items => check_each fragment_walk items
  | JString s => validate_text s
  | _ => Done tt
  end.
Definition validateFragment (fragment : list (gostring * json)) : outcome unit := fragment_walk (JObject fragment).
End Fragments.

(** The regular expression [^[A-Za-z_][A-Za-z0-9_]*$]. *)
Definition name_start (c : ascii) : bool := in_range 65 90 c || in_range 97 122 c || ceq c "_"%char.
Definition parameterName (s : gostring) : bool :=
  match s with c :: s => name_start c && forallb (λ c, name_start c || in_range 48 57 c) s | [] => false end.
Definition validateParameters (ps : option parameters) : outcome unit :=
  check_each (λ nv, check (beq nv.1 thinking_toggle) BadParameters ;-
                    check (match nv.2 with Some v => parameterName v | None => true end) BadParameters) (default [] ps).

(** What [net/url] finds in a text: [None] when it does not parse. *)
Record URL := MkURL { u_Scheme : gostring; u_Host : gostring; u_RawQuery : gostring; u_Fragment : gostring; u_User : bool; u_EscapedPath : gostring }.
Class UrlText := { urlParse : gostring -> option URL; pathUnescape : gostring -> option gostring }.

Section Urls.
Context `{UrlText}.
Definition isAbs (u : URL) : bool := negb (beq (u_Scheme u) []).
Definition validateRoute (route : gostring) : outcome unit :=
  check (hasPrefix route (lit "/") && negb (hasPrefix route (lit "//"))) InvalidRoute ;-
  match urlParse route with
  | None => Failed InvalidRoute
  | Some u =>
      check (negb (isAbs u) && beq (u_Host u) [] && beq (u_RawQuery u) [] && beq (u_Fragment u) []) InvalidRoute ;-
      check_each (λ segment, match pathUnescape segment with Some decoded => check (negb (beq decoded (lit ".."))) InvalidRoute | None => Failed InvalidRoute end)
        (split "/"%char (u_EscapedPath u))
  end.
Fixpoint trimRightByte (s : gostring) (c : ascii) : gostring :=
  match s with
  | [] => []
  | d :: s => match trimRightByte s c with [] => if ceq d c then [] else [d] | t => d :: t end
  end.
Definition ResolveEndpointURL (base route : gostring) : outcome gostring :=
  match urlParse base with
  | None => Failed InvalidEndpointURL
  | Some u =>
      check (isAbs u && negb (beq (u_Host u) []) && (beq (u_Scheme u) (lit "http") || beq (u_Scheme u) (lit "https"))) InvalidEndpointURL ;-
      check (beq (u_RawQuery u) [] && beq (u_Fragment u) []) InvalidEndpointURL ;-
      check (negb (u_User u)) InvalidEndpointURL ;-
      Done (trimRightByte base "/"%char ++ route)
  end.

Definition schema_ok (v : Z) : bool := (v =? 1) || (v =? 2).
Definition catalogue_protocols : list gostring := [lit "openai_chat"; lit "ollama_chat"; lit "lm_studio_chat"].

(** The loop over the requests of an endpoint, which stores each fragment back. *)
Fixpoint validate_requests (schemaVersion : Z) (requests result : list (gostring * json)) : outcome (list (gostring * json)) :=
  match requests with
  | [] => Done result
  | (modeName, raw) :: requests =>
      match parse_mode modeName with
      | None => Failed BadMode
      | Some mode =>
          let- normalized := normalizeJSON raw in
          match normalized with
          | JObject fragment =>
              validateFragment mode schemaVersion fragment ;-
              validate_requests schemaVersion requests (assoc_set modeName (JObject fragment) result)
          | _ => Failed BadFragment
          end
      end
  end.
Fixpoint distinct_nonempty (values seen : list gostring) : bool :=
  match values with
  | [] => true
  | v :: values => negb (beq v []) && negb (existsb (beq v) seen) && distinct_nonempty values (v :: seen)
  end.
Definition validate_endpoint (schemaVersion : Z) (id : gostring) (e : EndpointDefinition) : outcome EndpointDefinition :=
  check (negb (beq (trimSpace id) [])) BadIdentifier ;-
  check (negb (beq (en_Protocol e) [])) MissingField ;-
  check (existsb (beq (en_Protocol e)) catalogue_protocols) BadProtocol ;-
  validateRoute (en_Path e) ;-
  match en_Requests e with
  | None => Failed MissingField
  | Some requests =>
      check (negb ((schemaVersion =? 1) && match en_TemplateDefaults e with Some _ => true | None => false end)) BadSchema ;-
      validateParameters (en_TemplateDefaults e) ;-
      let- requests := validate_requests schemaVersion requests requests in
      check (match en_EffortValues e with Some values => distinct_nonempty values [] | None => true end) BadEffortValues ;-
      let minimum := default 1 (en_BudgetMin e) in
      check (1 <=? minimum) BadBudget ;-
      check (match en_BudgetMax e with Some m => (minimum <=? m) && (1 <=? m) | None => true end) BadBudget ;-
      Done (MkEndpoint (en_Protocol e) (en_Path e) (Some requests) (en_EffortValues e) (en_BudgetMin e) (en_BudgetMax e) (en_TemplateDefaults e) schemaVersion)
  end.
Fixpoint validate_endpoints (schemaVersion : Z) (endpoints : list (gostring * EndpointDefinition)) : outcome (list (gostring * EndpointDefinition)) :=
  match endpoints with
  | [] => Done []
  | (id, e) :: rest => let- e := validate_endpoint schemaVersion id e in let- rest := validate_endpoints schemaVersion rest in Done ((id, e) :: rest)
  end.
Definition validateEndpointFile (schemaVersion : Z) (endpoints : option (list (gostring * EndpointDefinition))) : outcome (list (gostring * EndpointDefinition)) :=
  check (schema_ok schemaVersion) BadSchema ;-
  match endpoints with None => Failed MissingField | Some endpoints => validate_endpoints schemaVersion endpoints end.
End Urls.

Definition validate_option (o : OptionDefinition) : outcome unit :=
  check (negb (beq (op_Label o) []) && validMode (op_Mode o)) BadOption ;-
  if is_mode (op_Mode o) ModeEffort then
    check (effortSet o && match op_Effort o with Some e => negb (beq e []) | None => false end && negb (budgetSet o)) BadOption
  else if is_mode (op_Mode o) ModeBudget then
    check (budgetSet o && match op_BudgetTokens o with Some n => 1 <=? n | None => false end && negb (effortSet o)) BadOption
  else check (negb (effortSet o || budgetSet o)) BadOption.
Fixpoint validate_options (options : list OptionDefinition) (seen : list gostring) : outcome unit :=
  match options with
  | [] => Done tt
  | o :: options =>
      check (negb (beq (op_ID o) [] || beq (op_ID o) (lit "default"))) BadOption ;-
      check (negb (existsb (beq (op_ID o)) seen)) BadOption ;-
      validate_option o ;-
      validate_options options (op_ID o :: seen)
  end.
Definition validate_profile (schemaVersion : Z) (id : gostring) (p : ProfileDefinition) : outcome ProfileDefinition :=
  check (negb (beq (trimSpace id) [])) BadIdentifier ;-
  match pr_Options p with
  | None => Failed MissingField
  | Some options =>
      check (negb ((schemaVersion =? 1) && match pr_TemplateParameters p with Some _ => true | None => false end)) BadSchema ;-
      validateParameters (pr_TemplateParameters p) ;-
      validate_options options [] ;-
      Done (MkProfile (pr_TemplateParameters p) (Some options) schemaVersion)
  end.
Fixpoint validate_profiles (schemaVersion : Z) (profiles : list (gostring * ProfileDefinition)) : outcome (list (gostring * ProfileDefinition)) :=
  match profiles with
  | [] => Done []
  | (id, p) :: rest => let- p := validate_profile schemaVersion id p in let- rest := validate_profiles schemaVersion rest in Done ((id, p) :: rest)
  end.
Definition validateProfileFile (schemaVersion : Z) (profiles : option (list (gostring * ProfileDefinition))) : outcome (list (gostring * ProfileDefinition)) :=
  check (schema_ok schemaVersion) BadSchema ;-
  match profiles with None => Failed MissingField | Some profiles => validate_profiles schemaVersion profiles end.

(** ** The syntax tree of a catalogue *)

Definition maxCatalogueDepth : Z := 64.
Definition maxCatalogueNodes : Z := 100000.
Inductive Kind := DocumentNode | SequenceNode | MappingNode | ScalarNode | AliasNode.
#[export] Instance Kind_eq_dec : EqDecision Kind.
Proof. solve_decision. Defined.
Inductive yaml_node := YNode (kind : Kind) (tag value : gostring) (content : list yaml_node).
Definition y_kind (n : yaml_node) : Kind := let '(YNode k _ _ _) := n in k.
Definition y_tag (n : yaml_node) : gostring := let '(YNode _ t _ _) := n in t.
Definition y_value (n : yaml_node) : gostring := let '(YNode _ _ v _) := n in v.
Definition y_content (n : yaml_node) : list yaml_node := let '(YNode _ _ _ c) := n in c.

(** The keys of a mapping: every second node of its content. *)
Fixpoint mapping_keys (content : list yaml_node) : list yaml_node :=
  match content with [] => [] | [k] => [k] | k :: _ :: rest => k :: mapping_keys rest end.
Definition known_tag (kind : Kind) (tag : gostring) : bool :=
  match kind with
  | MappingNode => beq tag (lit "!!map")
  | SequenceNode => beq tag (lit "!!seq")
  | ScalarNode => existsb (beq tag) [lit "!!str"; lit "!!int"; lit "!!bool"; lit "!!null"; lit "!!float"]
  | _ => true
  end.
Fixpoint check_keys (keys : list yaml_node) (seen : list gostring) : outcome unit :=
  match keys with
  | [] => Done tt
  | key :: keys =>
      check (bool_decide (y_kind key = ScalarNode) && beq (y_tag key) (lit "!!str")) YamlKey ;-
      check (negb (beq (y_value key) (lit "<<"))) YamlMerge ;-
      check (negb (existsb (beq (y_value key)) seen)) YamlDuplicate ;-
      check_keys keys (y_value key :: seen)
  end.
(** [walk] over the children, threading the number of nodes seen. *)
Fixpoint walk_children (walk : yaml_node -> Z -> outcome Z) (children : list yaml_node) (nodes : Z) : outcome Z :=
  match children with [] => Done nodes | c :: children => let- nodes := walk c nodes in walk_children walk children nodes end.
Fixpoint yaml_walk (depth : Z) (node : yaml_node) (nodes : Z) {struct node} : outcome Z :=
  let '(YNode kind tag value content) := node in
  check (depth <=? maxCatalogueDepth) YamlDepth ;-
  check (nodes + 1 <=? maxCatalogueNodes) YamlNodes ;-
  check (negb (bool_decide (kind = AliasNode))) YamlAlias ;-
  check (known_tag kind tag) YamlTag ;-
  (if bool_decide (kind = MappingNode) then check_keys (mapping_keys content) [] else Done tt) ;-
  walk_children (yaml_walk (depth + 1)) content (nodes + 1).
Definition validateYAMLTree (root : yaml_node) : outcome unit := yaml_walk 0 root 0 ;- Done tt.

(** The fields of a mapping: pairs of keys and values. *)
Fixpoint mapping_pairs (content : list yaml_node) : list (yaml_node * yaml_node) :=
  match content with k :: v :: rest => (k, v) :: mapping_pairs rest | _ => [] end.
Definition validateStructuralMapping (node : yaml_node) (allowed nonNull : list gostring) : outcome unit :=
  check (bool_decide (y_kind node = MappingNode)) YamlField ;-
  check_each (λ kv, check (existsb (beq (y_value kv.1)) allowed) YamlField ;-
                    check (negb (existsb (beq (y_value kv.1)) nonNull && beq (y_tag kv.2) (lit "!!null"))) YamlField) (mapping_pairs (y_content node)).
