(* ===== verification/ThinkingSpec.v ===== *)
(** * Thinking plans: validated catalogues never fail at run time

    A plan compiled from validated catalogues is complete and its fragments are
    fully rendered; every level selects a choice; a merge keeps the request and
    adds the fragment; the syntax tree of an accepted catalogue is bounded. *)
From S2P Require Import Prelude GoText Thinking.

(** ** Levels *)

Lemma scaleLevel_range v s t : 0 < s -> 0 <= v <= s -> 0 <= t -> 0 <= scaleLevel v s t <= t.
Proof.
  intros Hs Hv Ht. unfold scaleLevel. destruct (Z.eqb_spec t 0); [lia|]. split.
  - apply Z.div_pos; [|done]. pose proof (Z.div_pos s 2). nia.
  - apply Z.lt_succ_r, Z.div_lt_upper_bound; [done|]. pose proof (Z.div_lt s 2). nia.
Qed.
Lemma scaleLevel_ends s t : 0 < s -> 0 <= t -> scaleLevel 0 s t = 0 /\ scaleLevel s s t = t.
Proof.
  intros Hs Ht. unfold scaleLevel. destruct (Z.eqb_spec t 0) as [->|]; [done|].
  assert (H2 : 0 <= s / 2 < s) by (split; [apply Z.div_pos; lia|apply Z.div_lt; lia]). split.
  - rewrite Z.mul_0_l, Z.add_0_l. by apply Z.div_small.
  - rewrite Z.mul_comm, Z.div_add_l by lia. rewrite Z.div_small; lia.
Qed.
Lemma scaleLevel_mono v v' s t : 0 < s -> 0 <= t -> v <= v' -> scaleLevel v s t <= scaleLevel v' s t.
Proof. intros Hs Ht Hv. unfold scaleLevel. destruct (Z.eqb_spec t 0); [lia|]. apply Z.div_le_mono; [done|]. nia. Qed.

(** The index of a ladder that is not empty, as a number. *)
Definition choice_index (l : list Choice) (level : Z) : Z := match normalizedChoiceIndex l level with Done i => i | _ => -1 end.

Lemma choice_in_ladder l level : l <> [] -> 0 <= level <= 4 -> exists i, normalizedChoiceIndex l level = Done i /\ 0 <= i < Z.of_nat (length l).
Proof.
  intros Hl Hv. unfold normalizedChoiceIndex, MinimumLevel, MaximumLevel. destruct l as [|first rest]; [done|].
  destruct (Z.eqb_spec (Z.of_nat (length (first :: rest))) 1) as [E1|E1]; [exists 0; rewrite E1; split; [done|lia]|].
  set (n := Z.of_nat (length (first :: rest))) in *. assert (Hn : 2 <= n) by (subst n; cbn [length] in *; lia). clearbody n.
  destruct (is_off first); [destruct (Z.eqb_spec level 0)|]; (eexists; split; [reflexivity|]).
  - lia.
  - pose proof (scaleLevel_range (level - 1) (4 - 1) (n - 2) ltac:(lia) ltac:(lia) ltac:(lia)). lia.
  - pose proof (scaleLevel_range level 4 (n - 1) ltac:(lia) ltac:(lia) ltac:(lia)). lia.
Qed.

(** the levels an operator can ask for span the choices of a plan: on every
    ladder with a choice, each level from 0 to 4 has an index within the ladder,
    a higher level never has a lower index, the highest level is the last choice,
    and the lowest is the first; where thinking can be turned off, level 0 alone
    does so unless off is the only choice. *)
Theorem levels_span_choices (l : list Choice) (level level' : Z) :
  l <> [] -> MinimumLevel <= level -> level <= level' -> level' <= MaximumLevel ->
  (exists i, normalizedChoiceIndex l level = Done i /\ 0 <= i < Z.of_nat (length l)) /\
  choice_index l level <= choice_index l level' /\
  choice_index l MinimumLevel = 0 /\ choice_index l MaximumLevel = Z.of_nat (length l) - 1 /\
  (forall first rest, l = first :: rest -> is_off first = true -> rest <> [] -> choice_index l level = 0 <-> level = 0).
Proof.
  intros Hl H1 H2 H3. unfold choice_index, normalizedChoiceIndex, MinimumLevel, MaximumLevel in *. destruct l as [|first rest]; [done|].
  destruct (Z.eqb_spec (Z.of_nat (length (first :: rest))) 1) as [E1|E1].
  { rewrite E1. split_and!; [exists 0; split; [done|lia]|lia|done|done|]. intros f r [= <- <-] _ Hr. destruct rest; [done|]. cbn [length] in E1. lia. }
  set (n := Z.of_nat (length (first :: rest))) in *. assert (Hn : 2 <= n) by (subst n; cbn [length] in *; lia). clearbody n.
  destruct (is_off first) eqn:Eo.
  - destruct (scaleLevel_ends 3 (n - 2)) as [S0 S3]; [lia|lia|]. change (4 - 1) with 3. change (4 =? 0) with false. cbv iota. rewrite S3.
    assert (Hhi : level' <> 0 -> 0 <= scaleLevel (level' - 1) 3 (n - 2)) by (intros; apply scaleLevel_range; lia).
    destruct (Z.eqb_spec level 0) as [->|Hz].
    + change (0 =? 0) with true. cbv iota. split_and!; [exists 0; split; [done|lia]| |done|lia|done]. destruct (Z.eqb_spec level' 0) as [|Hne]; [lia|]. specialize (Hhi Hne). lia.
    + pose proof (scaleLevel_range (level - 1) 3 (n - 2) ltac:(lia) ltac:(lia) ltac:(lia)) as Hr.
      pose proof (scaleLevel_mono (level - 1) (level' - 1) 3 (n - 2) ltac:(lia) ltac:(lia) ltac:(lia)) as Hmono.
      rewrite (proj2 (Z.eqb_neq level' 0)) by lia. split_and!; [eexists; split; [reflexivity|lia]|lia|done|lia|intros f r [= <- <-] _ _; lia].
  - pose proof (scaleLevel_range level 4 (n - 1) ltac:(lia) ltac:(lia) ltac:(lia)). pose proof (scaleLevel_mono level level' 4 (n - 1) ltac:(lia) ltac:(lia) ltac:(lia)).
    destruct (scaleLevel_ends 4 (n - 1)) as [S0 S4]; [lia|lia|].
    rewrite S0, S4. split_and!; [eexists; split; [reflexivity|lia]|lia|done|done|]. intros f r [= <- <-] Hf. congruence.
Qed.

(** ** Merging *)

(** The value at a path of keys. *)
Fixpoint at_path (v : json) (keys : list gostring) : option json :=
  match keys with
  | [] => Some v
  | k :: keys => match v with JObject fields => assoc_get k fields ≫= λ c, at_path c keys | _ => None end
  end.
Definition is_object (v : json) : bool := match v with JObject _ => true | _ => false end.
(** Go maps hold a key once. *)
Fixpoint unique_keys (v : json) : Prop :=
  match v with
  | JObject fields => NoDup (fst <$> fields) /\ (fix each fs := match fs with [] => True | kv :: fs => unique_keys kv.2 /\ each fs end) fields
  | _ => True
  end.
Lemma unique_fields fields : unique_keys (JObject fields) <-> NoDup (fst <$> fields) /\ Forall (λ kv, unique_keys kv.2) fields.
Proof.
  cbn [unique_keys]. split; intros [Hn He]; (split; [done|]).
  - clear Hn. induction fields as [|kv fields IH]; [constructor|]. destruct He. constructor; auto.
  - clear Hn. induction He; [done|]. by split.
Qed.

(** What became of a key. *)
Definition merged_key (fields destination r : list (gostring * json)) (k : gostring) : Prop :=
  match assoc_get k fields, assoc_get k destination with
  | None, d => assoc_get k r = d
  | Some i, None => assoc_get k r = Some i
  | Some i, Some d => exists a c m path, d = JObject a /\ i = JObject c /\ assoc_get k r = Some (JObject m) /\ merge_value a i path = Done m
  end.
Lemma merge_fields_spec fields destination path r : NoDup (fst <$> fields) ->
  merge_fields merge_value fields destination path = Done r -> forall k, merged_key fields destination r k.
Proof.
  revert destination. induction fields as [|[key incoming] fields IH]; intros destination Hnd; cbn [merge_fields].
  { intros [= <-] k. done. }
  cbn [fmap list_fmap fst] in Hnd. apply NoDup_cons in Hnd as [Hkey Hnd]. apply assoc_get_none in Hkey as Hkey'.
  assert (Hstep : forall d', merge_fields merge_value fields d' path = Done r -> (forall k, k <> key -> assoc_get k d' = assoc_get k destination) ->
    assoc_get key r = assoc_get key d' /\ forall k, k <> key -> merged_key ((key, incoming) :: fields) destination r k).
  { intros d' E Hd'. specialize (IH d' Hnd E). split.
    - specialize (IH key). unfold merged_key in IH. by rewrite Hkey' in IH.
    - intros k Hk. specialize (IH k). unfold merged_key in *. rewrite assoc_get_cons, bool_decide_false by done. by rewrite Hd' in IH. }
  destruct (assoc_get key destination) as [d|] eqn:Ed.
  - destruct d as [| | | | | |currentObject| |]; try done. destruct incoming as [| | | | | |io| |]; try done.
    destruct (merge_value currentObject (JObject io) (path ++ lit "." ++ key)) as [merged|e|] eqn:Em; cbn [obind]; [|done|done]. intros E k.
    assert (Hin : key ∈ (fst <$> destination)) by (destruct (decide (key ∈ (fst <$> destination))) as [|Hn]; [done|]; apply assoc_get_none in Hn; congruence).
    destruct (Hstep _ E) as [Hk Hother]; [intros k0 Hk0; by rewrite assoc_get_replace, bool_decide_false|]. destruct (decide (k = key)) as [->|Hne]; [|by apply Hother].
    unfold merged_key. rewrite assoc_get_cons, bool_decide_true, Ed by done. eexists _, _, _, _. split_and!; [done|done| |exact Em].
    rewrite Hk, assoc_get_replace, bool_decide_true by done. done.
  - intros E k. destruct (Hstep _ E) as [Hk Hother]; [intros k0 Hk0; by rewrite assoc_get_set, bool_decide_false|].
    destruct (decide (k = key)) as [->|Hne]; [|by apply Hother]. unfold merged_key. rewrite assoc_get_cons, bool_decide_true, Ed by done.
    by rewrite Hk, assoc_get_set, bool_decide_true.
Qed.

Lemma merge_paths keys b f path r : unique_keys (JObject f) -> merge_value b (JObject f) path = Done r ->
  match at_path (JObject f) keys, at_path (JObject b) keys with
  | None, d => at_path (JObject r) keys = d
  | Some i, None => at_path (JObject r) keys = Some i
  | Some i, Some d => is_object i = true /\ is_object d = true /\ exists m, at_path (JObject r) keys = Some (JObject m)
  end.
Proof.
  revert b f path r. induction keys as [|k keys IH]; intros b f path r Hu E; [cbn; eauto|].
  apply unique_fields in Hu as [Hnd Hu]. cbn [merge_value] in E. pose proof (merge_fields_spec _ _ _ _ Hnd E k) as Hk. unfold merged_key in Hk. cbn [at_path].
  destruct (assoc_get k f) as [i|] eqn:Ei; cbn [mbind option_bind].
  - destruct (assoc_get k b) as [d|] eqn:Ed; cbn [mbind option_bind].
    + destruct Hk as (a & c & m & p' & -> & -> & -> & Em). cbn [mbind option_bind]. apply assoc_get_elem in Ei.
      rewrite Forall_forall in Hu. specialize (Hu _ Ei). cbn [snd] in Hu. exact (IH _ _ _ _ Hu Em).
    + rewrite Hk. cbn [mbind option_bind]. by destruct (at_path i keys).
  - rewrite Hk. done.
Qed.

(** Induction over the values inside a value. *)
Lemma json_nested_ind (P : json -> Prop) :
  P JNull -> (forall b, P (JBool b)) -> (forall n, P (JNumber n)) -> (forall f b, P (JFloat f b)) -> (forall s, P (JString s)) ->
  (forall items, Forall P items -> P (JArray items)) -> (forall fields, Forall (λ kv, P kv.2) fields -> P (JObject fields)) ->
  (forall fields, Forall (λ kv, P kv.2) fields -> P (JAnyObject fields)) -> (forall entries, P (JOther entries)) -> forall v, P v.
Proof.
  intros Hn Hb Hz Hf Hs Ha Ho Hy Hx. fix go 1. intros v. destruct v as [| | | | |items|fields|fields|]; [done|auto|auto|auto|auto| | | |auto].
  - apply Ha. induction items as [|i items IH]; constructor; [apply go|exact IH].
  - apply Ho. induction fields as [|[k i] fields IH]; constructor; [apply go|exact IH].
  - apply Hy. induction fields as [|[k i] fields IH]; constructor; [apply go|exact IH].
Qed.

(** Both values have something at a path, and not two objects. *)
Definition conflict (b f : json) : Prop :=
  exists keys i d, at_path f keys = Some i /\ at_path b keys = Some d /\ is_object i && is_object d = false.
Lemma merge_total f : unique_keys f -> forall b path,
  match merge_value b f path with Done _ => True | Failed _ => conflict (JObject b) f | Panicking => False end.
Proof.
  induction f as [| | | | | |fields IH| |] using json_nested_ind; try done. intros Hu b path. apply unique_fields in Hu as [Hnd Hu]. cbn [merge_value].
  assert (Hg : forall rest done_ d, fields = done_ ++ rest -> (forall k, k ∈ (fst <$> rest) -> assoc_get k d = assoc_get k b) ->
    match merge_fields merge_value rest d path with Done _ => True | Failed _ => conflict (JObject b) (JObject fields) | Panicking => False end).
  2: { apply (Hg fields [] b); done. }
  induction rest as [|[key incoming] rest IHr]; intros done_ d Hf Hd; cbn [merge_fields]; [done|].
  assert (Hget : assoc_get key fields = Some incoming).
  { rewrite Hf in Hnd |- *. rewrite fmap_app in Hnd. apply NoDup_app in Hnd as (_ & Hdis & _). clear -Hdis. induction done_ as [|[k v] l IHl]; cbn [app].
    - by rewrite assoc_get_cons, bool_decide_true.
    - rewrite assoc_get_cons, bool_decide_false; [apply IHl; set_solver|]. intros ->. apply (Hdis key); set_solver. }
  assert (Hin : (key, incoming) ∈ fields) by (rewrite Hf; set_solver). rewrite (Hd key) by set_solver.
  assert (Hrest : forall d', (forall k, k <> key -> assoc_get k d' = assoc_get k d) ->
    match merge_fields merge_value rest d' path with Done _ => True | Failed _ => conflict (JObject b) (JObject fields) | Panicking => False end).
  { intros d' Hd'. apply (IHr (done_ ++ [(key, incoming)])); [by rewrite <- app_assoc|]. intros k Hk. rewrite Hd'; [apply Hd; set_solver|].
    intros ->. rewrite Hf, fmap_app in Hnd. apply NoDup_app in Hnd as (_ & _ & Hnd). cbn in Hnd. by apply NoDup_cons in Hnd as [Hnd _]. }
  assert (Hpath : forall keys i d0 dv, assoc_get key b = Some dv -> at_path incoming keys = Some i -> at_path dv keys = Some d0 -> is_object i && is_object d0 = false ->
    conflict (JObject b) (JObject fields)).
  { intros keys i d0 dv Eb Ei E0 Hne. exists (key :: keys), i, d0. cbn [at_path]. rewrite Hget, Eb. by cbn. }
  destruct (assoc_get key b) as [dv|] eqn:Eb.
  2: { apply Hrest. intros k Hk. by rewrite assoc_get_set, bool_decide_false. }
  assert (Hnow : is_object incoming && is_object dv = false -> conflict (JObject b) (JObject fields)) by (intros; by apply (Hpath [] incoming dv dv)).
  destruct dv as [| | | | | |cur| |]; try (apply Hnow; by rewrite andb_false_r). destruct incoming as [| | | | | |io| |]; try by apply Hnow.
  rewrite Forall_forall in IH, Hu. specialize (IH _ Hin (Hu _ Hin) cur (path ++ lit "." ++ key)). cbn [snd] in IH.
  destruct (merge_value cur (JObject io) (path ++ lit "." ++ key)) as [m|e|]; cbn [obind]; [|destruct IH as (ks & i & d0 & Hi & H0 & Hne); by apply (Hpath ks i d0 (JObject cur))|done].
  apply Hrest. intros k Hk. rewrite assoc_get_replace; [by rewrite bool_decide_false|].
  destruct (decide (key ∈ (fst <$> d))) as [|Hn]; [done|]. apply assoc_get_none in Hn. rewrite (Hd key) in Hn by set_solver. congruence.
Qed.

(** a request and a fragment merge exactly when they do not conflict, that is
    when at every path where both have a value both have an object; and then at
    every path the merged request has what the request has where the fragment has
    nothing, what the fragment has where the request has nothing, and an object
    where both have one.  So a merge never changes or drops a value of the
    request, and adds all of the fragment and nothing else. *)
Theorem merge_exact (base fragment : list (gostring * json)) :
  unique_keys (JObject fragment) ->
  (Merge base fragment <> Panicking) /\
  ((exists r, Merge base fragment = Done r) <-> ~ conflict (JObject base) (JObject fragment)) /\
  forall r, Merge base fragment = Done r -> forall keys,
    match at_path (JObject fragment) keys, at_path (JObject base) keys with
    | None, d => at_path (JObject r) keys = d
    | Some i, None => at_path (JObject r) keys = Some i
    | Some i, Some d => exists m, at_path (JObject r) keys = Some (JObject m)
    end.
Proof.
  intros Hu. unfold Merge, mergeObject. pose proof (merge_total (JObject fragment) Hu base (lit "$")) as Ht.
  assert (Hpaths : forall r, merge_value base (JObject fragment) (lit "$") = Done r -> _) by (intros r E keys; exact (merge_paths keys base fragment (lit "$") r Hu E)).
  destruct (merge_value base (JObject fragment) (lit "$")) as [r|e|]; [| |done]; (split; [done|]).
  - split.
    + split; [|by eauto]. intros _ (keys & i & d & Hi & Hd & Hne). specialize (Hpaths r eq_refl keys). rewrite Hi, Hd in Hpaths.
      destruct Hpaths as (H1 & H2 & _). by rewrite H1, H2 in Hne.
    + intros r' [= <-] keys. specialize (Hpaths r eq_refl keys). destruct (at_path (JObject fragment) keys), (at_path (JObject base) keys); try done. apply Hpaths.
  - split; [|done]. split; [intros [r [=]]|intros Hn; by apply Hn in Ht].
Qed.

(** ** Rendering *)

Lemma obind_done {A B} (m : outcome A) (k : A -> outcome B) r : obind m k = Done r -> exists a, m = Done a /\ k a = Done r.
Proof. destruct m; cbn; [by eauto|done|done]. Qed.
Lemma check_done ok e u : check ok e = Done u -> ok = true.
Proof. by destruct ok. Qed.
Lemma check_each_done {A} (f : A -> outcome unit) l u : check_each f l = Done u -> Forall (λ a, f a = Done tt) l.
Proof.
  induction l as [|a l IH]; cbn [check_each]; [constructor|]. intros E. apply obind_done in E as ([] & E1 & E2). constructor; auto.
Qed.
Ltac outcome_inv :=
  repeat match goal with
  | H : obind _ _ = Done _ |- _ => apply obind_done in H as (? & ? & ?)
  | H : check _ _ = Done _ |- _ => apply check_done in H
  end.

Section Rendering.
Context (o : OptionDefinition) (p : option (option gostring)).

(** What a loop over fields returns: distinct keys, and values that were rendered
    from the fields. *)
Definition field_of (fields : list (gostring * json)) (render : json -> outcome (json * bool)) (kv : gostring * json) : Prop :=
  exists k v b, (k, v) ∈ fields /\ render v = Done (kv.2, b) /\ (kv.1 = k /\ k <> toggle \/ k = toggle /\ p = Some (Some kv.1)).
Lemma render_fields_done render fields result removed r removed' : NoDup (fst <$> result) ->
  render_fields p render fields result removed = Done (r, removed') ->
  NoDup (fst <$> r) /\ forall kv, kv ∈ r -> kv ∈ result \/ field_of fields render kv.
Proof.
  revert result removed. induction fields as [|[k v] fields IH]; intros result removed Hnd; cbn [render_fields].
  { intros [= <- <-]. split; [done|]. by left. }
  assert (Hlater : forall kv, field_of fields render kv -> field_of ((k, v) :: fields) render kv).
  { intros kv (k0 & v0 & b0 & Hin & H). exists k0, v0, b0. split; [set_solver|done]. }
  assert (Hskip : forall rem, render_fields p render fields result rem = Done (r, removed') ->
    NoDup (fst <$> r) /\ forall kv, kv ∈ r -> kv ∈ result \/ field_of ((k, v) :: fields) render kv).
  { intros rem E. apply IH in E as [Hr He]; [|done]. split; [done|]. intros kv Hkv. destruct (He kv Hkv); auto. }
  assert (Hput : forall key, key = k /\ k <> toggle \/ k = toggle /\ p = Some (Some key) ->
    (let- x := render v in if x.2 : bool then render_fields p render fields result true
     else if assoc_mem key result then Failed (KeyCollision key) else render_fields p render fields (result ++ [(key, x.1)]) removed) = Done (r, removed') ->
    NoDup (fst <$> r) /\ forall kv, kv ∈ r -> kv ∈ result \/ field_of ((k, v) :: fields) render kv).
  { intros key Hkey E. apply obind_done in E as ([rv prune] & Ev & E). cbn [fst snd] in E. destruct prune; [by eapply Hskip|].
    destruct (assoc_mem key result) eqn:Em; [done|]. apply IH in E as [Hr He].
    - split; [done|]. intros kv Hkv. destruct (He kv Hkv) as [Hin|Hin]; [|auto]. apply elem_of_app in Hin as [Hin|Hin]; [auto|]. right.
      apply list_elem_of_singleton in Hin as ->. exists k, v, false. cbn. split; [set_solver|done].
    - rewrite fmap_app. apply NoDup_app. split_and!; [done| |apply NoDup_singleton]. intros x Hx Hx'. cbn in Hx'. apply list_elem_of_singleton in Hx' as ->.
      apply assoc_mem_spec in Hx. congruence. }
  unfold beq. case_bool_decide as Ek; [|by apply Hput; left]. destruct p as [[key|]|]; [apply Hput; by right|by apply Hskip|done].
Qed.

Lemma render_unique v : forall inArray r b, renderValue o p v inArray = Done (r, b) -> unique_keys r.
Proof.
  induction v as [|bv|nv|fin bits|s|items IH|fields IH|fields IH|] using json_nested_ind; intros inArray r b; cbn [renderValue].
  1-4: by intros [= <- <-].
  - repeat case_match; intros E; by simplify_eq.
  - intros E. outcome_inv. by simplify_eq.
  - intros E. apply obind_done in E as ([fs rem] & E & [= <- _]). apply render_fields_done in E as [Hnd He]; [|constructor]. apply unique_fields. split; [done|].
    apply Forall_forall. intros kv Hkv. destruct (He kv Hkv) as [Hn|(k & w & b' & Hin & Ev & _)]; [set_solver|]. rewrite Forall_forall in IH. exact (IH _ Hin _ _ _ Ev).
  - by intros [= <- <-].
  - by intros [= <- <-].
Qed.

(** The option has what the mode's placeholders stand for. *)
Definition option_fits (mode : Mode) : Prop :=
  (mode = ModeEffort -> op_Effort o <> None) /\ (mode = ModeBudget -> op_BudgetTokens o <> None).

Lemma render_fields_panics render fields result removed : (forall kv, kv ∈ fields -> render kv.2 <> Panicking) -> render_fields p render fields result removed <> Panicking.
Proof.
  revert result removed. induction fields as [|[k v] fields IH]; intros result removed Hr; cbn [render_fields]; [done|].
  assert (Hv : render v <> Panicking) by (apply (Hr (k, v)); set_solver).
  assert (IH' : forall result removed, render_fields p render fields result removed <> Panicking) by (intros; apply IH; intros; apply Hr; set_solver).
  destruct (render v) as [[rv [|]]|e|]; [| | |done]; cbn [obind fst snd]; repeat case_match; done.
Qed.
Lemma render_items_panics render items : (forall v, v ∈ items -> render v <> Panicking) -> render_items render items <> Panicking.
Proof.
  induction items as [|v items IH]; intros Hr; cbn [render_items]; [done|]. specialize (IH ltac:(intros; apply Hr; set_solver)).
  pose proof (Hr v ltac:(set_solver)) as Hv. destruct (render v); cbn [obind]; [|done|done]. by destruct (render_items render items).
Qed.
Lemma render_no_panic mode sv v : option_fits mode -> fragment_walk mode sv v = Done tt -> forall inArray, renderValue o p v inArray <> Panicking.
Proof.
  intros [He Hb]. induction v as [|bv|nv|fin bits|s|items IH|fields IH|fields IH|] using json_nested_ind; intros Hw inArray; cbn [renderValue]; try done.
  - cbn [fragment_walk] in Hw. unfold validate_text in Hw. destruct (beq s effort_placeholder).
    + apply check_done, bool_decide_eq_true in Hw. specialize (He Hw). by destruct (op_Effort o).
    + destruct (beq s budget_placeholder); [|done]. apply check_done, bool_decide_eq_true in Hw. specialize (Hb Hw). by destruct (op_BudgetTokens o).
  - cbn [fragment_walk] in Hw. apply check_each_done in Hw. rewrite Forall_forall in Hw, IH.
    pose proof (render_items_panics (λ v, renderValue o p v true) items) as H. specialize (H ltac:(intros v Hv; by apply IH; [|apply Hw])).
    by destruct (render_items _ items).
  - cbn [fragment_walk] in Hw. apply check_each_done in Hw. rewrite Forall_forall in Hw, IH.
    pose proof (render_fields_panics (λ v, renderValue o p v false) fields [] false) as H.
    specialize (H ltac:(intros kv Hkv; apply IH; [done|]; specialize (Hw kv Hkv); cbn in Hw; by outcome_inv)). by destruct (render_fields _ _ fields).
Qed.
End Rendering.

(** ** Fragments without placeholders *)

(** A JSON value. *)
Fixpoint plain (v : json) : bool :=
  match v with
  | JFloat finite _ => finite
  | JArray items => forallb plain items
  | JObject fields => forallb (λ kv, plain kv.2) fields
  | JAnyObject _ | JOther _ => false
  | _ => true
  end.
(** A JSON value without placeholders: no key and, but for the option's own effort,
    no text starts with a dollar sign. *)
Fixpoint rendered (effort : option gostring) (v : json) : bool :=
  match v with
  | JFloat finite _ => finite
  | JString s => negb (hasPrefix s (lit "$")) || bool_decide (effort = Some s)
  | JArray items => forallb (rendered effort) items
  | JObject fields => forallb (λ kv, negb (hasPrefix kv.1 (lit "$")) && rendered effort kv.2) fields
  | JAnyObject _ | JOther _ => false
  | _ => true
  end.

Lemma normalize_items_plain f items r : (forall v w, v ∈ items -> f v = Done w -> plain w = true) -> normalize_items f items = Done r -> forallb plain r = true.
Proof.
  revert r. induction items as [|v items IH]; intros r Hf E; cbn [normalize_items] in E; [by injection E as <-|].
  apply obind_done in E as (w & Ew & E). apply obind_done in E as (ws & Ews & [= <-]). cbn [forallb]. rewrite (Hf v w) by set_solver. apply IH; [|done].
  intros; eapply Hf; [|done]; set_solver.
Qed.
Lemma plain_set k v fields : plain v = true -> forallb (λ kv : gostring * json, plain kv.2) fields = true -> forallb (λ kv : gostring * json, plain kv.2) (assoc_set k v fields) = true.
Proof.
  intros Hv Hf. rewrite forallb_forall in Hf. unfold assoc_set, assoc_replace. destruct (assoc_mem k fields); apply forallb_forall; intros [a w] Hin; apply list_elem_of_In in Hin.
  - apply list_elem_of_fmap in Hin as ([b u] & E & Hin). apply list_elem_of_In, Hf in Hin. cbn in *. case_bool_decide; by simplify_eq.
  - apply elem_of_app in Hin as [Hin|Hin]; [by apply list_elem_of_In, Hf in Hin|]. apply list_elem_of_singleton in Hin. by simplify_eq.
Qed.
Lemma normalize_plain v : forall r, normalizeJSON v = Done r -> plain r = true.
Proof.
  induction v as [|bv|nv|fin bits|s|items IH|fields IH|fields IH|] using json_nested_ind; intros r; cbn [normalizeJSON]; try by intros [= <-].
  - destruct fin; [by intros [= <-]|done].
  - intros E. apply obind_done in E as (l & El & [= <-]). rewrite Forall_forall in IH. cbn [plain]. eapply normalize_items_plain; [|exact El]. intros v w Hv. by apply IH.
  - intros E. apply obind_done in E as (l & El & [= <-]). cbn [plain]. assert (H0 : forallb (λ kv : gostring * json, plain kv.2) [] = true) by done. revert H0 El.
    generalize (@nil (gostring * json)). induction fields as [|[k v] fields IHf]; intros acc Ha El; cbn [normalize_fields] in El; [by injection El as <-|].
    apply Forall_cons in IH as [Hv IH]. apply obind_done in El as (w & Ew & El). exact (IHf IH _ (plain_set k w acc (Hv w Ew) Ha) El).
  - intros E. apply obind_done in E as (l & El & [= <-]). cbn [plain]. assert (H0 : forallb (λ kv : gostring * json, plain kv.2) [] = true) by done. revert H0 El.
    generalize (@nil (gostring * json)). induction fields as [|[k v] fields IHf]; intros acc Ha El; cbn [normalize_any_fields] in El; [by injection El as <-|].
    apply Forall_cons in IH as [Hv IH]. destruct k as [k|]; [|done]. apply obind_done in El as (w & Ew & El). exact (IHf IH _ (plain_set k w acc (Hv w Ew) Ha) El).
Qed.

Lemma parameter_no_dollar s : parameterName s = true -> hasPrefix s (lit "$") = false.
Proof.
  destruct s as [|c s]; [done|]. unfold parameterName. intros H. apply andb_prop in H as [H _]. change (lit "$") with ["$"%char]. cbn [hasPrefix].
  destruct (ceq "$"%char c) eqn:E; [|done]. apply ceq_true in E as <-. done.
Qed.
(** A parameter that a validated catalogue can have. *)
Definition parameter_ok (p : option (option gostring)) : Prop := forall key, p = Some (Some key) -> parameterName key = true.

Lemma rendered_text mode s : validate_text mode s = Done tt -> s <> effort_placeholder -> s <> budget_placeholder -> hasPrefix s (lit "$") = false.
Proof.
  intros H He Hb. unfold validate_text, beq in H. rewrite (bool_decide_false _ He), (bool_decide_false _ Hb) in H. case_bool_decide; [done|].
  apply check_done in H. apply negb_true_iff, orb_false_iff in H as [H _]. done.
Qed.
Lemma render_clean o p mode sv v : parameter_ok p -> fragment_walk mode sv v = Done tt -> plain v = true ->
  forall inArray r b, renderValue o p v inArray = Done (r, b) -> rendered (op_Effort o) r = true.
Proof.
  intros Hp. induction v as [|bv|nv|fin bits|s|items IH|fields IH|fields IH|] using json_nested_ind; intros Hw Hpl inArray r pr; cbn [renderValue]; try by intros [= <- <-].
  - cbn [fragment_walk] in Hw. unfold beq. case_bool_decide as He.
    { destruct (op_Effort o) as [e|] eqn:Eo; [|done]. intros [= <- <-]. cbn [rendered]. by rewrite bool_decide_true, orb_true_r. }
    case_bool_decide as Hb; [destruct (op_BudgetTokens o); [by intros [= <- <-]|done]|]. intros [= <- <-]. cbn [rendered]. by rewrite (rendered_text mode s).
  - intros E. apply obind_done in E as (l & El & [= <- _]). cbn [fragment_walk plain] in *. apply check_each_done in Hw. cbn [rendered]. revert l El.
    induction items as [|v items IHi]; intros l El; cbn [render_items] in El; [by injection El as <-|]. apply obind_done in El as ([rv b] & Ev & El).
    apply obind_done in El as (rest & Er & [= <-]). apply Forall_cons in Hw as [Hv Hw]. apply Forall_cons in IH as [IHv IH]. cbn [forallb] in Hpl |- *.
    apply andb_prop in Hpl as [Hpv Hpl]. cbn [fst]. rewrite (IHv Hv Hpv true rv b Ev). by apply IHi.
  - intros E. apply obind_done in E as ([fs rem] & E & [= <- _]). cbn [fragment_walk plain] in *. apply check_each_done in Hw.
    apply render_fields_done in E as [_ He]; [|constructor]. cbn [rendered fst]. apply forallb_forall. intros kv Hkv. apply list_elem_of_In in Hkv.
    destruct (He kv Hkv) as [Hn|(k & w & b & Hin & Ev & Hk)]; [set_solver|]. rewrite Forall_forall in IH, Hw. rewrite forallb_forall in Hpl.
    specialize (Hw _ Hin). cbn [fst snd] in Hw. apply obind_done in Hw as ([] & Hkey & Hwalk). specialize (Hpl (k, w) ltac:(by apply list_elem_of_In)).
    pose proof (IH _ Hin Hwalk Hpl _ _ _ Ev) as Hr. cbn [snd] in Hr. rewrite Hr, andb_true_r. apply negb_true_iff. destruct Hk as [[-> Hne]|[-> Hpk]].
    + unfold validate_key, beq in Hkey. rewrite (bool_decide_false _ Hne) in Hkey. destruct (_ || _) in Hkey; [done|]. apply check_done, negb_true_iff, orb_false_iff in Hkey. apply Hkey.
    + by apply parameter_no_dollar, Hp.
Qed.

(** ** What validation gives *)

Lemma parse_mode_text s m : parse_mode s = Some m -> s = mode_text m.
Proof. unfold parse_mode, beq. repeat case_bool_decide; intros E; by simplify_eq. Qed.

Definition request_ok (sv : Z) (k : gostring) (v : json) : Prop :=
  exists mode fields, parse_mode k = Some mode /\ v = JObject fields /\ fragment_walk mode sv v = Done tt /\ plain v = true.
Lemma validate_requests_spec sv reqs result final k v : validate_requests sv reqs result = Done final -> assoc_get k final = Some v ->
  request_ok sv k v \/ (k ∉ (fst <$> reqs) /\ assoc_get k result = Some v).
Proof.
  revert result. induction reqs as [|[name raw] reqs IH]; intros result E Hk; cbn [validate_requests] in E.
  { injection E as <-. right. split; [set_solver|done]. }
  destruct (parse_mode name) as [mode|] eqn:Em; [|done]. apply obind_done in E as (n & En & E). destruct n as [| | | | | |fields| |]; try done.
  apply obind_done in E as ([] & Ef & E). destruct (IH _ E Hk) as [|[Hnot Hget]]; [by left|]. rewrite assoc_get_set in Hget. case_bool_decide as Hkk.
  - left. simplify_eq. exists mode, fields. split_and!; [done|done|exact Ef|]. by eapply normalize_plain.
  - right. split; [|done]. cbn. set_solver.
Qed.

Definition endpoint_ok (e : EndpointDefinition) : Prop :=
  (forall k v, assoc_get k (default [] (en_Requests e)) = Some v -> request_ok (en_SchemaVersion e) k v) /\
  (forall name key, assoc_get name (default [] (en_TemplateDefaults e)) = Some (Some key) -> parameterName key = true).
Lemma validateParameters_ok ps name key : validateParameters ps = Done tt -> assoc_get name (default [] ps) = Some (Some key) -> parameterName key = true.
Proof.
  intros E Hg. apply check_each_done in E. rewrite Forall_forall in E. apply assoc_get_elem, E in Hg. cbn [fst snd] in Hg. by outcome_inv.
Qed.
Lemma validate_endpoint_ok `{UrlText} sv id e e' : validate_endpoint sv id e = Done e' -> endpoint_ok e'.
Proof.
  unfold validate_endpoint. intros E. apply obind_done in E as (? & _ & E). apply obind_done in E as (? & _ & E). apply obind_done in E as (? & _ & E). apply obind_done in E as (? & _ & E).
  destruct (en_Requests e) as [reqs|]; [|done]. apply obind_done in E as (? & _ & E). apply obind_done in E as ([] & Ep & E). apply obind_done in E as (final & Er & E).
  cbv zeta in E. apply obind_done in E as (? & _ & E). apply obind_done in E as (? & _ & E). apply obind_done in E as (? & _ & E). injection E as <-. split.
  - cbn [en_Requests en_SchemaVersion default]. intros k v Hk. destruct (validate_requests_spec _ _ _ _ _ _ Er Hk) as [|[Hn Hg]]; [done|].
    exfalso. apply Hn. apply assoc_get_elem in Hg. apply list_elem_of_fmap. by exists (k, v).
  - cbn [en_TemplateDefaults]. intros name key. by apply validateParameters_ok.
Qed.
Lemma validate_endpoints_ok `{UrlText} sv es es' id e : validate_endpoints sv es = Done es' -> (id, e) ∈ es' -> endpoint_ok e.
Proof.
  revert es'. induction es as [|[i x] es IH]; intros es' E Hin; cbn [validate_endpoints] in E; [injection E as <-; set_solver|].
  apply obind_done in E as (x' & Ex & E). apply obind_done in E as (rest & Er & [= <-]). apply elem_of_cons in Hin as [[= -> ->]|Hin]; [by eapply validate_endpoint_ok|by eapply IH].
Qed.

Definition option_ok (o : OptionDefinition) : Prop := forall mode, parse_mode (op_Mode o) = Some mode -> option_fits o mode.
Definition profile_ok (p : ProfileDefinition) : Prop :=
  Forall option_ok (default [] (pr_Options p)) /\
  (forall name key, assoc_get name (default [] (pr_TemplateParameters p)) = Some (Some key) -> parameterName key = true).
Lemma validate_option_ok o : validate_option o = Done tt -> option_ok o.
Proof.
  intros E mode Hm. apply parse_mode_text in Hm. apply obind_done in E as (? & _ & E). unfold is_mode, beq in E. rewrite Hm in E. split; intros ->.
  - cbn in E. apply check_done in E. destruct (op_Effort o); [done|]. by rewrite andb_false_r in E.
  - change (bool_decide (mode_text ModeBudget = mode_text ModeEffort)) with false in E. rewrite bool_decide_true in E by done. cbv iota in E.
    apply check_done in E. destruct (op_BudgetTokens o); [done|]. by rewrite andb_false_r in E.
Qed.
Lemma validate_options_ok options seen : validate_options options seen = Done tt -> Forall option_ok options.
Proof.
  revert seen. induction options as [|o options IH]; intros seen E; [constructor|]. cbn [validate_options] in E. apply obind_done in E as (? & _ & E). apply obind_done in E as (? & _ & E).
  apply obind_done in E as ([] & Eo & E). constructor; [by apply validate_option_ok|by eapply IH].
Qed.
Lemma validate_profile_ok sv id p p' : validate_profile sv id p = Done p' -> profile_ok p'.
Proof.
  unfold validate_profile. intros E. apply obind_done in E as (? & _ & E). destruct (pr_Options p) as [options|]; [|done].
  apply obind_done in E as (? & _ & E). apply obind_done in E as ([] & Ep & E). apply obind_done in E as ([] & Eo & E). injection E as <-. split.
  - cbn. by eapply validate_options_ok.
  - cbn [pr_TemplateParameters]. intros name key. by apply validateParameters_ok.
Qed.
Lemma validate_profiles_ok sv ps ps' id p : validate_profiles sv ps = Done ps' -> (id, p) ∈ ps' -> profile_ok p.
Proof.
  revert ps'. induction ps as [|[i x] ps IH]; intros ps' E Hin; cbn [validate_profiles] in E; [injection E as <-; set_solver|].
  apply obind_done in E as (x' & Ex & E). apply obind_done in E as (rest & Er & [= <-]). apply elem_of_cons in Hin as [[= -> ->]|Hin]; [by eapply validate_profile_ok|by eapply IH].
Qed.

(** ** Compiling *)

Section Compile.
Context (e : EndpointDefinition) (p : ProfileDefinition) (He : endpoint_ok e) (Hp : profile_ok p).
#[local] Set Default Proof Using "All".

Lemma resolved_ok : parameter_ok (resolved_parameter (en_TemplateDefaults e) (pr_TemplateParameters p)).
Proof.
  intros key. unfold resolved_parameter. destruct (assoc_get thinking_toggle (default [] (pr_TemplateParameters p))) as [ov|] eqn:E.
  - intros [= ->]. by eapply (proj2 Hp).
  - intros E'. by eapply (proj2 He).
Qed.

(** A choice made from an option. *)
Definition made_from (o : OptionDefinition) (c : Choice) : Prop :=
  ch_ID c = op_ID o /\ ch_Mode c = op_Mode o /\ ch_fragment c <> [] /\ unique_keys (JObject (ch_fragment c)) /\ rendered (op_Effort o) (JObject (ch_fragment c)) = true.
Lemma compile_option_ok o : option_ok o ->
  match compile_option e p o with Panicking => False | Done (Chosen c) => made_from o c | _ => True end.
Proof.
  intros Ho. unfold compile_option. destruct (assoc_get (op_Mode o) (default [] (en_Requests e))) as [raw|] eqn:Er; [|done].
  apply (proj1 He) in Er as (mode & fields & Hm & -> & Hw & Hpl). destruct (Ho mode Hm) as [Heff Hbud]. apply parse_mode_text in Hm as Ht.
  assert (E1 : effort_refused e o <> Panicking).
  { unfold effort_refused, is_mode, beq. destruct (en_EffortValues e); [|done]. case_bool_decide as Hd; [|done]. rewrite Ht in Hd. destruct mode; try done. by destruct (op_Effort o); [|destruct (Heff eq_refl)]. }
  assert (E2 : budget_refused e o <> Panicking).
  { unfold budget_refused, is_mode, beq. case_bool_decide as Hd; [|done]. rewrite Ht in Hd. destruct mode; try done. by destruct (op_BudgetTokens o); [|destruct (Hbud eq_refl)]. }
  destruct (effort_refused e o) as [[]| |]; [done| |done|done]. cbn [obind]. destruct (budget_refused e o) as [[]| |]; [done| |done|done]. cbn [obind]. unfold renderFragment.
  set (par := resolved_parameter _ _). pose proof (render_no_panic o par mode (en_SchemaVersion e) _ (conj Heff Hbud) Hw false) as Hnp.
  destruct (renderValue o par (JObject fields) false) as [[r b]|er|] eqn:Ev; [|done|done]. cbn [obind fst].
  pose proof (render_clean o par mode (en_SchemaVersion e) _ resolved_ok Hw Hpl false r b Ev) as Hc. pose proof (render_unique o par _ _ _ _ Ev) as Hu.
  assert (Hobj : exists fs, r = JObject fs) by (cbn [renderValue] in Ev; apply obind_done in Ev as (x & _ & [= <- _]); by eexists). destruct Hobj as [fs ->].
  cbn [obind]. destruct fs as [|f fs]; [done|]. by split_and!.
Qed.

Definition is_off_option (o : OptionDefinition) : bool := is_mode (op_Mode o) ModeOff.
Lemma compile_options_ok options choices excluded : Forall option_ok options ->
  match compile_options e p options choices excluded with
  | Panicking => False
  | Failed _ => True
  | Done (cs, xs) =>
      (forall c, c ∈ cs -> c ∈ choices \/ exists o, o ∈ options /\ made_from o c) /\
      (ch_ID <$> cs) ++ (ex_OptionID <$> xs) ≡ₚ ((ch_ID <$> choices) ++ (ex_OptionID <$> excluded)) ++ (op_ID <$> options) /\
      (length (List.filter is_off cs) <= length (List.filter is_off choices) + length (List.filter is_off_option options))%nat
  end.
Proof.
  revert choices excluded. induction options as [|o options IH]; intros choices excluded Ho; cbn [compile_options].
  { split_and!; [by left|by rewrite app_nil_r|cbn; lia]. }
  apply Forall_cons in Ho as [Ho Hos]. pose proof (compile_option_ok o Ho) as H1. destruct (compile_option e p o) as [[reason|c]|er|]; [| |done|done]; cbn [obind].
  - specialize (IH choices (excluded ++ [MkExclusion (op_ID o) reason]) Hos). destruct (compile_options _ _ options _ _) as [[cs xs]|er|]; [|done|done].
    destruct IH as (Ha & Hb & Hc). split_and!.
    + intros c Hc'. destruct (Ha c Hc') as [|(o' & Hin & Hm)]; [by left|right; exists o'; split; [set_solver|done]].
    + rewrite Hb, fmap_app. cbn [fmap list_fmap ex_OptionID]. by rewrite <- !app_assoc.
    + cbn [List.filter]. destruct (is_off_option o); cbn [length]; lia.
  - specialize (IH (choices ++ [c]) excluded Hos). destruct (compile_options _ _ options _ _) as [[cs xs]|er|]; [|done|done].
    destruct IH as (Ha & Hb & Hc). split_and!.
    + intros c' Hc'. destruct (Ha c' Hc') as [Hin|(o' & Hin & Hm)]; [|right; exists o'; split; [set_solver|done]].
      apply elem_of_app in Hin as [|Hin]; [by left|]. apply list_elem_of_singleton in Hin as ->. right. exists o. split; [set_solver|done].
    + rewrite Hb, fmap_app. cbn [fmap list_fmap]. rewrite (proj1 H1). solve_Permutation.
    + assert (Hoff : is_off c = is_off_option o) by (unfold is_off, is_off_option; by rewrite (proj1 (proj2 H1))).
      rewrite List.filter_app, length_app in Hc. cbn [List.filter] in *. rewrite Hoff in Hc. destruct (is_off_option o); cbn [length] in *; lia.
Qed.
End Compile.

(** ** The ladder *)

Lemma find_filter_one {A} (f : A -> bool) (l : list A) : (length (List.filter f l) <= 1)%nat ->
  match List.find f l with Some c => [c] | None => [] end = List.filter f l.
Proof.
  induction l as [|a l IH]; [done|]. cbn [List.find List.filter]. destruct (f a) eqn:E; [|auto]. cbn [length]. intros H. by destruct (List.filter f l); [|cbn [length] in H; lia].
Qed.
Lemma filter_split {A} (f : A -> bool) (l : list A) : List.filter f l ++ List.filter (λ a, negb (f a)) l ≡ₚ l.
Proof.
  induction l as [|a l IH]; [done|]. cbn [List.filter]. destruct (f a); cbn [negb app]; [by rewrite IH|]. by rewrite <- Permutation_middle, IH.
Qed.
Lemma order_choices_spec cs : (length (List.filter is_off cs) <= 1)%nat ->
  (exists l, l ≡ₚ cs /\ order_choices cs = imap set_index l /\ forall i c, l !! i = Some c -> is_off c = true -> i = 0%nat).
Proof.
  intros H1. unfold order_choices. rewrite (find_filter_one is_off cs H1). eexists. split_and!; [apply filter_split|done|]. intros i c Hi Hc.
  destruct (List.filter is_off cs) as [|x [|y r]] eqn:Ef; [| |cbn in H1; lia].
  - cbn [app] in Hi. apply list_elem_of_lookup_2, list_elem_of_In, filter_In in Hi as [_ Hi]. by rewrite Hc in Hi.
  - destruct i as [|i]; [done|]. cbn [app lookup list_lookup] in Hi. apply list_elem_of_lookup_2, list_elem_of_In, filter_In in Hi as [_ Hi]. by rewrite Hc in Hi.
Qed.

(** A plan that is complete for the options of a profile. *)
Definition plan_complete (options : list OptionDefinition) (plan : Plan) : Prop :=
  (ch_ID <$> ladder plan) ++ (ex_OptionID <$> exclusions plan) ≡ₚ (op_ID <$> options) /\
  (sourceOptionsEmpty plan = false -> ladder plan <> []) /\
  (forall i c, ladder plan !! i = Some c -> ch_Index c = Z.of_nat i /\ (is_off c = true -> i = 0%nat) /\ exists o, o ∈ options /\ made_from o c).
Lemma compile_validated `{Fingerprint} `{UrlText} sv1 sv2 es ps es' ps' endpoint profile protocols :
  validateEndpointFile sv1 es = Done es' -> validateProfileFile sv2 ps = Done ps' ->
  match CompilePlan (MkCatalogues es' ps') endpoint profile protocols with
  | Panicking => False
  | Failed _ => True
  | Done plan => exists pd, assoc_get profile ps' = Some pd /\ plan_complete (default [] (pr_Options pd)) plan
  end.
Proof.
  intros Ev1 Ev2. unfold validateEndpointFile in Ev1. apply obind_done in Ev1 as (? & _ & Ev1). destruct es as [es|]; [|done].
  unfold validateProfileFile in Ev2. apply obind_done in Ev2 as (? & _ & Ev2). destruct ps as [ps|]; [|done]. unfold CompilePlan. cbn [Endpoints Profiles].
  destruct (assoc_get endpoint es') as [e|] eqn:Ee; [|done]. destruct (assoc_get profile ps') as [p|] eqn:Ep; [|done].
  destruct (negb _); [done|]. cbv zeta. destruct (Nat.ltb_spec 1 (length (List.filter (λ o, is_mode (op_Mode o) ModeOff) (default [] (pr_Options p))))) as [|Hoff]; [done|].
  assert (He : endpoint_ok e) by (eapply validate_endpoints_ok; [exact Ev1|by apply assoc_get_elem]).
  assert (Hp : profile_ok p) by (eapply validate_profiles_ok; [exact Ev2|by apply assoc_get_elem]).
  pose proof (compile_options_ok e p He Hp (default [] (pr_Options p)) [] [] (proj1 Hp)) as Hc.
  destruct (compile_options e p (default [] (pr_Options p)) [] []) as [[cs xs]|er|]; [|done|done]. cbn [obind fst snd]. destruct Hc as (Ha & Hb & Hc).
  destruct (negb _ && _) eqn:Eempty; [done|]. destruct (fingerprint_of endpoint profile e p) as [sum|]; [|done]. exists p. split; [done|]. unfold plan_complete. cbn [ladder exclusions sourceOptionsEmpty].
  destruct (order_choices_spec cs) as (l & Hl & -> & Hfirst); [unfold is_off_option in Hc; cbn [List.filter length] in Hc; lia|].
  assert (Hids : ch_ID <$> imap set_index l = ch_ID <$> l) by (rewrite fmap_imap; symmetry; rewrite <- (imap_const ch_ID l); by apply imap_ext).
  split_and!.
  - rewrite Hids, Hl. exact Hb.
  - intros Hs. rewrite Hs in Eempty. destruct cs as [|c0 cs]; [done|]. intros Hn. destruct l as [|c1 l]; [by apply Permutation_nil_cons in Hl|done].
  - intros i c Hi. apply list_lookup_imap_Some in Hi as (c0 & Hi & ->). split; [done|]. split; [intros Ho; by eapply Hfirst|].
    assert (Hin : c0 ∈ cs) by (rewrite <- Hl; by eapply list_elem_of_lookup_2). destruct (Ha c0 Hin) as [Hn|(o & Ho & Hm)]; [set_solver|]. exists o. by split.
Qed.

(** catalogues that were accepted cannot make the program fail later.  A plan
    is compiled from them without a panic, whatever endpoint, profile and
    protocols are asked for, and when it is compiled it is complete: every option
    of the profile is either a choice or excluded with a reason; the choices are
    numbered from 0, off only first; there is a choice unless the profile has no
    options; and every fragment is a non-empty JSON object with distinct keys in
    which no placeholder is left. *)
Theorem validated_catalogues_compile `{Fingerprint} `{UrlText} (sv1 sv2 : Z) (es : option (list (gostring * EndpointDefinition)))
    (ps : option (list (gostring * ProfileDefinition))) (es' : list (gostring * EndpointDefinition)) (ps' : list (gostring * ProfileDefinition))
    (endpoint profile : gostring) (protocols : list gostring) :
  validateEndpointFile sv1 es = Done es' -> validateProfileFile sv2 ps = Done ps' ->
  match CompilePlan (MkCatalogues es' ps') endpoint profile protocols with
  | Panicking => False
  | Failed _ => True
  | Done plan => exists pd, assoc_get profile ps' = Some pd /\
      ((ch_ID <$> ladder plan) ++ (ex_OptionID <$> exclusions plan) ≡ₚ (op_ID <$> default [] (pr_Options pd))) /\
      (sourceOptionsEmpty plan = false -> ladder plan <> []) /\
      (forall i c, ladder plan !! i = Some c -> ch_Index c = Z.of_nat i /\ (is_off c = true -> i = 0%nat) /\
         exists o, o ∈ default [] (pr_Options pd) /\ made_from o c)
  end.
Proof.
  intros E1 E2. exact (compile_validated sv1 sv2 es ps es' ps' endpoint profile protocols E1 E2).
Qed.

(** Every level resolves, to a fragment with unique keys that merges into the checked request. *)
Lemma resolution_checked `{Fingerprint} `{UrlText} (sv1 sv2 : Z) (es : option (list (gostring * EndpointDefinition)))
    (ps : option (list (gostring * ProfileDefinition))) (es' : list (gostring * EndpointDefinition)) (ps' : list (gostring * ProfileDefinition))
    (endpoint profile : gostring) (protocols : list gostring) (plan : Plan) (base : list (gostring * json)) (level : Z) :
  validateEndpointFile sv1 es = Done es' -> validateProfileFile sv2 ps = Done ps' ->
  CompilePlan (MkCatalogues es' ps') endpoint profile protocols = Done plan ->
  ValidateBaseRequest plan base = Done tt -> 0 <= level <= 4 ->
  exists res, ResolveLevel plan level = Done res /\ unique_keys (JObject (Fragment res)) /\ exists r, Merge base (Fragment res) = Done r.
Proof.
  intros E1 E2 Ec Eb Hl. pose proof (compile_validated sv1 sv2 es ps es' ps' endpoint profile protocols E1 E2) as Hc. rewrite Ec in Hc. destruct Hc as (pd & _ & _ & Hne & Hch).
  unfold ResolveLevel, MinimumLevel, MaximumLevel. rewrite (proj2 (Z.ltb_ge level 0)), (proj2 (Z.ltb_ge 4 level)) by lia. cbn [orb].
  destruct (sourceOptionsEmpty plan) eqn:Es.
  { eexists. split; [reflexivity|]. split; [by apply unique_fields; split; constructor|]. by exists base. }
  destruct (choice_in_ladder (ladder plan) level (Hne eq_refl) Hl) as (i & Hi & Hr). rewrite Hi. cbn [obind]. rewrite (proj2 (Z.ltb_ge i 0)) by lia.
  destruct (lookup_lt_is_Some_2 (ladder plan) (Z.to_nat i)) as [c Hc]; [lia|]. rewrite Hc. destruct (Hch _ _ Hc) as (_ & _ & o & _ & (_ & _ & Hf & Hu & _)).
  unfold ValidateBaseRequest in Eb. apply check_each_done in Eb. rewrite Forall_forall in Eb. specialize (Eb c (list_elem_of_lookup_2 _ _ _ Hc)).
  apply obind_done in Eb as (r & Er & _). eexists. split; [reflexivity|]. cbn [Fragment]. split; [done|by exists r].
Qed.
(** Every value of a request other than an object is in the result where it was. *)
Definition keeps_values (base r : list (gostring * json)) : Prop :=
  forall keys v, at_path (JObject base) keys = Some v -> is_object v = false -> at_path (JObject r) keys = Some v.
Lemma applied_keeps base res r : unique_keys (JObject (Fragment res)) -> ApplyResolution base res = Done r -> keeps_values base r.
Proof.
  intros Hu. unfold ApplyResolution. destruct (beq (Status res) (lit "uncontrolled") || _); [by intros [= <-] keys v ??|].
  intros Er keys v Hv Hleaf. pose proof (merge_paths keys base (Fragment res) (lit "$") r Hu Er) as Hp. rewrite Hv in Hp.
  destruct (at_path (JObject (Fragment res)) keys); [|done]. destruct Hp as (_ & Hp & _). congruence.
Qed.

(** A fragment that merges into one request, without adding to an object of it,
    merges into every request with no other fields. *)
Lemma applied_elsewhere base request res r : unique_keys (JObject (Fragment res)) -> Merge base (Fragment res) = Done r ->
  (forall k, k ∈ (fst <$> request) -> k ∈ (fst <$> base)) ->
  (forall k d, assoc_get k base = Some (JObject d) -> assoc_get k (Fragment res) = None) ->
  exists r', ApplyResolution request res = Done r' /\ keeps_values request r'.
Proof.
  intros Hu Em Hkeys Hobjects. assert (Ha : exists r', ApplyResolution request res = Done r').
  { unfold ApplyResolution. destruct (beq (Status res) (lit "uncontrolled") || _); [by eexists|]. unfold Merge, mergeObject in *.
    pose proof (merge_total (JObject (Fragment res)) Hu request (lit "$")) as Ht.
    destruct (merge_value request (JObject (Fragment res)) (lit "$")); [by eexists| |done]. exfalso.
    destruct Ht as ([|k keys] & i & d & Hi & Hd & Hne); cbn [at_path] in Hi, Hd; [injection Hi as <-; injection Hd as <-; done|].
    destruct (assoc_get k (Fragment res)) as [fi|] eqn:Ef; [|done]. destruct (assoc_get k request) as [fd|] eqn:Ed; [|done].
    assert (Hk : k ∈ (fst <$> base)) by (apply Hkeys, list_elem_of_fmap; exists (k, fd); split; [done|by apply assoc_get_elem]).
    apply unique_fields in Hu as [Hnd _]. cbn [merge_value] in Em. pose proof (merge_fields_spec _ _ _ _ Hnd Em k) as Hm. unfold merged_key in Hm. rewrite Ef in Hm.
    destruct (assoc_get k base) as [bd|] eqn:Eb; [|apply assoc_get_none in Eb; done]. destruct Hm as (a & _ & _ & _ & -> & _).
    specialize (Hobjects _ _ Eb). congruence. }
  destruct Ha as [r' Er]. exists r'. split; [done|]. by eapply applied_keeps.
Qed.

(** Every level resolves and merges into the checked request. *)
Lemma requests_built `{Fingerprint} `{UrlText} (sv1 sv2 : Z) (es : option (list (gostring * EndpointDefinition)))
    (ps : option (list (gostring * ProfileDefinition))) (es' : list (gostring * EndpointDefinition)) (ps' : list (gostring * ProfileDefinition))
    (endpoint profile : gostring) (protocols : list gostring) (plan : Plan) (base : list (gostring * json)) (level : Z) :
  validateEndpointFile sv1 es = Done es' -> validateProfileFile sv2 ps = Done ps' ->
  CompilePlan (MkCatalogues es' ps') endpoint profile protocols = Done plan ->
  ValidateBaseRequest plan base = Done tt -> 0 <= level <= 4 ->
  exists res r, ResolveLevel plan level = Done res /\ ApplyResolution base res = Done r /\
    forall keys v, at_path (JObject base) keys = Some v -> is_object v = false -> at_path (JObject r) keys = Some v.
Proof.
  intros E1 E2 Ec Eb Hl. destruct (resolution_checked sv1 sv2 es ps es' ps' endpoint profile protocols plan base level E1 E2 Ec Eb Hl) as (res & Hres & Hu & r & Er).
  exists res. unfold ApplyResolution. destruct (beq (Status res) (lit "uncontrolled") || _); [exists base; by split_and!|]. exists r. split_and!; [done|done|].
  intros keys v Hv Hleaf. unfold Merge, mergeObject in Er. pose proof (merge_paths keys base (Fragment res) (lit "$") r Hu Er) as Hp. rewrite Hv in Hp.
  destruct (at_path (JObject (Fragment res)) keys); [|done]. destruct Hp as (_ & Hp & _). congruence.
Qed.

(** the request that was checked cannot fail for its thinking controls or lose a
    part.  With a plan compiled from accepted catalogues, and an ordinary
    request that was checked against the plan, every level from 0 to 4 resolves,
    its fragment merges into the request, and every value of the request other
    than an object is in the result where it was. *)
Theorem requests_always_built `{Fingerprint} `{UrlText} (sv1 sv2 : Z) (es : option (list (gostring * EndpointDefinition)))
    (ps : option (list (gostring * ProfileDefinition))) (es' : list (gostring * EndpointDefinition)) (ps' : list (gostring * ProfileDefinition))
    (endpoint profile : gostring) (protocols : list gostring) (plan : Plan) (base : list (gostring * json)) (level : Z) :
  validateEndpointFile sv1 es = Done es' -> validateProfileFile sv2 ps = Done ps' ->
  CompilePlan (MkCatalogues es' ps') endpoint profile protocols = Done plan ->
  ValidateBaseRequest plan base = Done tt -> 0 <= level <= 4 ->
  exists res r, ResolveLevel plan level = Done res /\ ApplyResolution base res = Done r /\
    forall keys v, at_path (JObject base) keys = Some v -> is_object v = false -> at_path (JObject r) keys = Some v.
Proof. intros E1 E2 Ec Eb Hl. by eapply requests_built. Qed.

(** ** The syntax tree *)

Lemma yaml_nested_ind (P : yaml_node -> Prop) : (forall k t v content, Forall P content -> P (YNode k t v content)) -> forall n, P n.
Proof.
  intros Hn. fix go 1. intros [k t v content]. apply Hn. induction content as [|c content IH]; constructor; [apply go|exact IH].
Qed.
Fixpoint node_count (n : yaml_node) : Z := let '(YNode _ _ _ content) := n in 1 + foldr (λ c s, node_count c + s) 0 content.
Fixpoint node_height (n : yaml_node) : Z := let '(YNode _ _ _ content) := n in foldr (λ c s, Z.max (1 + node_height c) s) 0 content.
(** No alias, a tag of JSON, and the keys of a mapping are distinct strings. *)
Definition node_ok (n : yaml_node) : Prop :=
  y_kind n <> AliasNode /\ known_tag (y_kind n) (y_tag n) = true /\
  (y_kind n = MappingNode -> NoDup (y_value <$> mapping_keys (y_content n)) /\
     Forall (λ key, y_kind key = ScalarNode /\ y_tag key = lit "!!str" /\ y_value key <> lit "<<") (mapping_keys (y_content n))).
Inductive every_node (P : yaml_node -> Prop) : yaml_node -> Prop :=
  | every k t v content : P (YNode k t v content) -> Forall (every_node P) content -> every_node P (YNode k t v content).

Lemma check_keys_done keys seen : check_keys keys seen = Done tt ->
  NoDup (y_value <$> keys) /\ (forall v, v ∈ y_value <$> keys -> v ∉ seen) /\
  Forall (λ key, y_kind key = ScalarNode /\ y_tag key = lit "!!str" /\ y_value key <> lit "<<") keys.
Proof.
  revert seen. induction keys as [|key keys IH]; intros seen E; cbn [check_keys] in E; [split_and!; [constructor|set_solver|constructor]|].
  apply obind_done in E as (? & E1 & E). apply obind_done in E as (? & E2 & E). apply obind_done in E as (? & E3 & E). apply check_done in E1, E2, E3.
  apply IH in E as (Hnd & Hseen & Hall). apply andb_prop in E1 as [Ek Et]. apply bool_decide_eq_true in Ek. apply beq_true in Et.
  apply negb_true_iff in E2, E3. assert (Hv : y_value key ∉ seen).
  { intros Hin. assert (existsb (beq (y_value key)) seen = true); [|congruence]. apply existsb_exists. exists (y_value key). split; [by apply list_elem_of_In|by apply beq_true]. }
  split_and!.
  - cbn. apply NoDup_cons. split; [|done]. intros Hin. apply (Hseen _ Hin). set_solver.
  - cbn. intros v Hin. apply elem_of_cons in Hin as [->|Hin]; [done|]. specialize (Hseen _ Hin). set_solver.
  - constructor; [|done]. split_and!; [done|done|]. intros Heq. by rewrite Heq in E2.
Qed.
Definition walked (depth : Z) (node : yaml_node) : Prop := forall nodes n, yaml_walk depth node nodes = Done n ->
  n = nodes + node_count node /\ n <= maxCatalogueNodes /\ depth + node_height node <= maxCatalogueDepth /\ every_node node_ok node.
Lemma walk_children_done depth content m n : Forall (walked (depth + 1)) content -> m <= maxCatalogueNodes -> depth <= maxCatalogueDepth ->
  walk_children (yaml_walk (depth + 1)) content m = Done n ->
  n = m + foldr (λ c s, node_count c + s) 0 content /\ n <= maxCatalogueNodes /\
  depth + foldr (λ c s, Z.max (1 + node_height c) s) 0 content <= maxCatalogueDepth /\ Forall (every_node node_ok) content.
Proof.
  intros Hw Hm Hd. revert m Hm. induction Hw as [|c content Hc Hw IH]; intros m Hm E; cbn [walk_children foldr] in *.
  - injection E as <-. split_and!; [lia|done|lia|constructor].
  - apply obind_done in E as (m1 & E1 & E2). destruct (Hc _ _ E1) as (-> & Hn1 & Hd1 & Hok). destruct (IH _ Hn1 E2) as (-> & Hn2 & Hd2 & Hall).
    split_and!; [lia|done|lia|by constructor].
Qed.
Lemma yaml_walk_done node depth : walked depth node.
Proof.
  revert depth. induction node as [k t v content IH] using yaml_nested_ind. intros depth nodes n E. cbn [yaml_walk] in E.
  apply obind_done in E as (? & E1 & E). apply obind_done in E as (? & E2 & E). apply obind_done in E as (? & E3 & E). apply obind_done in E as (? & E4 & E). apply obind_done in E as ([] & E5 & E).
  apply check_done in E1, E2, E3, E4. apply Z.leb_le in E1, E2. apply negb_true_iff, bool_decide_eq_false in E3.
  assert (Hok : node_ok (YNode k t v content)).
  { split_and!; [done|done|]. cbn [y_kind y_content]. intros ->. rewrite bool_decide_true in E5 by done. apply check_keys_done in E5 as (? & _ & ?). done. }
  apply walk_children_done in E as (-> & Hn & Hd & Hall); [|eapply Forall_impl; [exact IH|auto]|done|done].
  cbn [node_count node_height]. split_and!; [lia|lia|done|by constructor].
Qed.

(** the syntax tree of a catalogue that is accepted is small and plain: at most
    100,000 nodes, at most 64 levels below its root, no alias anywhere (so no
    expansion can exceed these bounds), only the tags of JSON, and in every
    mapping the keys are distinct strings and none is a merge key. *)
Theorem yaml_tree_bounded (root : yaml_node) :
  validateYAMLTree root = Done tt ->
  node_count root <= 100000 /\ node_height root <= 64 /\ every_node node_ok root.
Proof.
  intros E. apply obind_done in E as (n & E & _). apply yaml_walk_done in E as (-> & Hn & Hd & Hall). unfold maxCatalogueNodes, maxCatalogueDepth in *.
  split_and!; [lia|lia|done].
Qed.

(** ** Witnesses *)

#[local] Instance no_urls : UrlText := {| urlParse s := Some (MkURL [] [] [] [] false s); pathUnescape := Some |}.
#[local] Instance constant_print : Fingerprint := {| fingerprint_of _ _ _ _ := Some (lit "print") |}.

Definition sample_endpoint : EndpointDefinition :=
  MkEndpoint (lit "openai_chat") (lit "/chat")
    (Some [(lit "off", JObject [(lit "options", JObject [(toggle, JBool false)])]);
           (lit "effort", JObject [(lit "reasoning", JObject [(lit "effort", JString effort_placeholder)])])])
    None None None (Some [(thinking_toggle, Some (lit "think"))]) 0.
Definition sample_profile : ProfileDefinition :=
  MkProfile None (Some [MkOption (lit "low") (lit "Low") (lit "effort") (Some (lit "low")) None true false;
                        MkOption (lit "none") (lit "Off") (lit "off") None None false false;
                        MkOption (lit "big") (lit "Big") (lit "budget") None (Some 1024) false true]) 0.
(** As validation stores them. *)
Definition sample_endpoints : list (gostring * EndpointDefinition) :=
  [(lit "e", MkEndpoint (en_Protocol sample_endpoint) (en_Path sample_endpoint) (en_Requests sample_endpoint) None None None (en_TemplateDefaults sample_endpoint) 2)].
Definition sample_profiles : list (gostring * ProfileDefinition) := [(lit "p", MkProfile None (pr_Options sample_profile) 2)].
Definition sample_plan : Plan :=
  match CompilePlan (MkCatalogues sample_endpoints sample_profiles) (lit "e") (lit "p") [lit "openai_chat"] with Done p => p | _ => MkPlan [] [] [] [] [] [] true [] end.
Definition sample_base : list (gostring * json) := [(lit "model", JString (lit "m")); (lit "options", JObject [(lit "num", JNumber 4)])].

Lemma levels_span_choices_witness : choice_index (ladder sample_plan) 0 = 0 /\ choice_index (ladder sample_plan) 1 <= choice_index (ladder sample_plan) 3.
Proof.
  destruct (levels_span_choices (ladder sample_plan) 1 3) as (_ & Hm & H0 & _); [vm_compute; discriminate|vm_compute; discriminate|lia|vm_compute; discriminate|].
  split; [exact H0|exact Hm].
Defined.
Lemma merge_exact_witness :
  unique_keys (JObject [(lit "options", JObject [(lit "think", JBool false)])]) /\
  Merge sample_base [(lit "options", JObject [(lit "think", JBool false)])] =
    Done [(lit "model", JString (lit "m")); (lit "options", JObject [(lit "num", JNumber 4); (lit "think", JBool false)])] /\
  at_path (JObject [(lit "model", JString (lit "m")); (lit "options", JObject [(lit "num", JNumber 4); (lit "think", JBool false)])]) [lit "options"; lit "num"] = Some (JNumber 4).
Proof.
  assert (Hu : unique_keys (JObject [(lit "options", JObject [(lit "think", JBool false)])])).
  { apply unique_fields. split; [apply NoDup_singleton|]. constructor; [|constructor]. apply unique_fields. split; [apply NoDup_singleton|]. constructor; [exact I|constructor]. }
  destruct (merge_exact sample_base [(lit "options", JObject [(lit "think", JBool false)])] Hu) as (_ & _ & Hr).
  assert (E : Merge sample_base [(lit "options", JObject [(lit "think", JBool false)])] =
    Done [(lit "model", JString (lit "m")); (lit "options", JObject [(lit "num", JNumber 4); (lit "think", JBool false)])]) by reflexivity.
  split; [exact Hu|]. split; [exact E|]. exact (Hr _ E [lit "options"; lit "num"]).
Defined.
Lemma sample_validated : validateEndpointFile 2 (Some [(lit "e", sample_endpoint)]) = Done sample_endpoints /\ validateProfileFile 2 (Some [(lit "p", sample_profile)]) = Done sample_profiles.
Proof. split; vm_compute; reflexivity. Qed.
Lemma validated_catalogues_compile_witness :
  CompilePlan (MkCatalogues sample_endpoints sample_profiles) (lit "e") (lit "p") [lit "openai_chat"] = Done sample_plan /\
  ch_ID <$> ladder sample_plan = [lit "none"; lit "low"] /\ ladder sample_plan <> [].
Proof.
  destruct sample_validated as [E1 E2].
  pose proof (validated_catalogues_compile 2 2 _ _ sample_endpoints sample_profiles (lit "e") (lit "p") [lit "openai_chat"] E1 E2) as H.
  assert (E : CompilePlan (MkCatalogues sample_endpoints sample_profiles) (lit "e") (lit "p") [lit "openai_chat"] = Done sample_plan) by (vm_compute; reflexivity).
  split; [exact E|]. split; [vm_compute; reflexivity|]. rewrite E in H. destruct H as (pd & _ & _ & Hne & _). apply Hne. vm_compute. reflexivity.
Defined.
Lemma requests_always_built_witness :
  exists res r, ResolveLevel sample_plan 4 = Done res /\ ApplyResolution sample_base res = Done r /\ at_path (JObject r) [lit "options"; lit "num"] = Some (JNumber 4).
Proof.
  destruct sample_validated as [E1 E2].
  destruct (requests_always_built 2 2 _ _ sample_endpoints sample_profiles (lit "e") (lit "p") [lit "openai_chat"] sample_plan sample_base 4 E1 E2) as (res & r & Er & Ea & Hk).
  - vm_compute. reflexivity.
  - vm_compute. reflexivity.
  - lia.
  - exists res, r. split; [exact Er|]. split; [exact Ea|]. apply Hk; reflexivity.
Defined.
Lemma yaml_tree_bounded_witness :
  node_count (YNode DocumentNode [] [] [YNode MappingNode (lit "!!map") [] [YNode ScalarNode (lit "!!str") (lit "a") []; YNode ScalarNode (lit "!!int") (lit "1") []]]) <= 100000.
Proof. apply yaml_tree_bounded. reflexivity. Defined.
