(* ===== verification/Runes.v ===== *)
(** * Runes: encoding, mapping and fields

    Lemmas on the UTF-8 functions of [GoText] that the bounded texts of the
    program rest on: encoding a rune and decoding it gives it back, mapped
    strings are valid, and [strings.Fields] yields words without white space. *)
From S2P Require Import Prelude GoText.

(** The rune that an encoder writes: surrogates and values out of range become
    the replacement character. *)
Definition valid_rune (r : Z) : bool := ((0 <=? r) && (r <? 55296)) || ((57344 <=? r) && (r <? 1114112)).
Definition coerce_rune (r : Z) : Z := if valid_rune r then r else runeError.
Definition rune_chunk_of (r : Z) : rune_chunk := RuneChunk (coerce_rune r) (encode_rune r) true.

Lemma is_cont_chr x : 0 <= x < 64 -> is_cont (chr (128 + x)) = true.
Proof. intros. unfold is_cont, in_range. rewrite code_chr by lia. lia. Qed.
Lemma runeStart_chr_cont x : 0 <= x < 64 -> runeStart (chr (128 + x)) = false.
Proof. intros. eapply (runeStart_cont _ 128 191); [lia|lia|]. by apply is_cont_chr. Qed.
Lemma runeStart_chr_lead x : 0 <= x < 256 -> x < 128 \/ 192 <= x -> runeStart (chr x) = true.
Proof. intros. apply runeStart_lead. by rewrite code_chr. Qed.

Lemma encode_decode_1 r rest : 0 <= r < 128 -> decode_rune (chr r :: rest) = (r, 1%nat).
Proof. intros. cbn. rewrite code_chr by lia. by rewrite (proj2 (Z.ltb_lt _ _)) by lia. Qed.

Lemma encode_decode_2 r rest : 128 <= r < 2048 ->
  decode_rune (chr (192 + r / 64) :: chr (128 + r mod 64) :: rest) = (r, 2%nat).
Proof.
  intros. pose proof (Z.mod_pos_bound r 64 ltac:(lia)). pose proof (Z.div_mod r 64 ltac:(lia)).
  unfold decode_rune. rewrite !code_chr by lia. rewrite is_cont_chr by lia.
  rewrite (proj2 (Z.ltb_ge _ _)) by lia. rewrite !(proj2 (Z.leb_le _ _)) by lia. cbn [andb]. f_equal. lia.
Qed.

Lemma encode_decode_3 r rest : 2048 <= r < 65536 -> valid_rune r = true ->
  decode_rune (chr (224 + r / 4096) :: chr (128 + r / 64 mod 64) :: chr (128 + r mod 64) :: rest) = (r, 3%nat).
Proof.
  intros Hr Hv. unfold valid_rune in Hv. pose proof (Z.mod_pos_bound r 64 ltac:(lia)). pose proof (Z.div_mod r 64 ltac:(lia)).
  assert (E : r / 64 = 64 * (r / 4096) + r / 64 mod 64).
  { pose proof (Z.div_mod (r / 64) 64 ltac:(lia)) as E. by rewrite Z.div_div in E by lia. }
  pose proof (Z.mod_pos_bound (r / 64) 64 ltac:(lia)).
  unfold decode_rune. rewrite !code_chr by lia. rewrite !is_cont_chr by lia.
  rewrite (proj2 (Z.ltb_ge _ _)) by lia. rewrite (proj2 (andb_false_iff _ _)) by (right; apply Z.leb_gt; lia).
  rewrite !(proj2 (Z.leb_le _ _)) by lia.
  assert (in_second (224 + r / 4096) (chr (128 + r / 64 mod 64)) = true) as ->; [|cbn [andb]; f_equal; lia].
  unfold in_second, second_range. repeat case_match; simplify_eq; unfold in_range; rewrite code_chr by lia; lia.
Qed.

Lemma encode_decode_4 r rest : 65536 <= r < 1114112 ->
  decode_rune (chr (240 + r / 262144) :: chr (128 + r / 4096 mod 64) :: chr (128 + r / 64 mod 64)
               :: chr (128 + r mod 64) :: rest) = (r, 4%nat).
Proof.
  intros Hr. pose proof (Z.mod_pos_bound r 64 ltac:(lia)). pose proof (Z.div_mod r 64 ltac:(lia)).
  assert (E : r / 64 = 64 * (r / 4096) + r / 64 mod 64).
  { pose proof (Z.div_mod (r / 64) 64 ltac:(lia)) as E. by rewrite Z.div_div in E by lia. }
  assert (E' : r / 4096 = 64 * (r / 262144) + r / 4096 mod 64).
  { pose proof (Z.div_mod (r / 4096) 64 ltac:(lia)) as E'. by rewrite Z.div_div in E' by lia. }
  pose proof (Z.mod_pos_bound (r / 64) 64 ltac:(lia)). pose proof (Z.mod_pos_bound (r / 4096) 64 ltac:(lia)).
  unfold decode_rune. rewrite !code_chr by lia. rewrite !is_cont_chr by lia.
  rewrite (proj2 (Z.ltb_ge _ _)) by lia. do 2 rewrite (proj2 (andb_false_iff _ _)) by (right; apply Z.leb_gt; lia).
  rewrite !(proj2 (Z.leb_le _ _)) by lia.
  assert (in_second (240 + r / 262144) (chr (128 + r / 4096 mod 64)) = true) as ->; [|cbn [andb]; f_equal; lia].
  unfold in_second, second_range. repeat case_match; simplify_eq; unfold in_range; rewrite code_chr by lia; lia.
Qed.

(** Whatever rune is encoded, the bytes are one valid chunk. *)
Lemma encode_rune_wf r : wf_chunk (rune_chunk_of r).
Proof.
  pose proof (Z.mod_pos_bound r 64 ltac:(lia)). pose proof (Z.mod_pos_bound (r / 64) 64 ltac:(lia)).
  pose proof (Z.mod_pos_bound (r / 4096) 64 ltac:(lia)).
  unfold rune_chunk_of, encode_rune, coerce_rune. repeat case_match;
    try (assert (valid_rune r = true) by (unfold valid_rune; lia); congruence);
    try (unfold valid_rune in *; exfalso; lia);
    try exact replacement_chunk_wf;
    (split; [done|split; [done|split; [|split; [|split]]]]); cbn [rc_rune rc_bytes length app];
    try (intros rest; first [apply encode_decode_1|apply encode_decode_2|apply encode_decode_3|apply encode_decode_4]; first [done|lia]);
    try (intros [? ?]; first [discriminate|unfold runeError in *; lia]);
    try (apply runeStart_chr_lead; clear H H0 H1; Z.div_mod_to_equations; lia); repeat first [apply Forall_nil; done|apply Forall_cons; split; [apply runeStart_chr_cont; lia|]].
Qed.

Lemma flatten_encoded l : concat (encode_rune <$> l) = flatten_runes (rune_chunk_of <$> l).
Proof. unfold flatten_runes. by rewrite <- list_fmap_compose. Qed.
Lemma encoded_wf l : Forall wf_chunk (rune_chunk_of <$> l).
Proof. apply Forall_fmap, Forall_forall. intros r _. apply encode_rune_wf. Qed.

(** Encoding runes and decoding the result gives them back. *)
Lemma runes_encode l : runes (concat (encode_rune <$> l)) = coerce_rune <$> l.
Proof.
  unfold runes. rewrite flatten_encoded, rune_chunks_of_wf by apply encoded_wf. by rewrite <- list_fmap_compose.
Qed.
Lemma valid_encode l : validString (concat (encode_rune <$> l)) = true.
Proof. rewrite flatten_encoded. apply validString_flatten, encoded_wf. Qed.

Lemma runes_app_valid s t : validString s = true -> runes (s ++ t) = runes s ++ runes t.
Proof.
  intros Hs%validString_chunks. unfold runes. rewrite <- (rune_chunks_flatten s) at 1.
  induction (rune_chunks s) as [|k l IH]; [done|]. inversion_clear Hs as [|? ? Hk Hl].
  rewrite flatten_cons, <- app_assoc, wf_chunk_cons by done. cbn [fmap list_fmap app]. f_equal. by apply IH.
Qed.
Lemma valid_app s t : validString s = true -> validString t = true -> validString (s ++ t) = true.
Proof.
  intros Hs%validString_chunks Ht%validString_chunks.
  rewrite <- (rune_chunks_flatten s), <- (rune_chunks_flatten t).
  assert (E : flatten_runes (rune_chunks s) ++ flatten_runes (rune_chunks t) = flatten_runes (rune_chunks s ++ rune_chunks t)).
  { unfold flatten_runes. by rewrite fmap_app, concat_app. }
  rewrite E. apply validString_flatten. by apply Forall_app.
Qed.

Lemma runeCount_runes s : runeCount s = length (runes s).
Proof. unfold runeCount, runes. by rewrite length_fmap. Qed.

(** The runes of a valid string are ones the encoder keeps. *)
Lemma decode_rune_valid s r w : decode_rune s = (r, w) -> valid_rune r = true.
Proof.
  unfold decode_rune. intros Hd. repeat case_match; simplify_eq; try done;
    unfold is_cont, in_second, second_range, in_range, valid_rune in *; repeat case_match; simplify_eq;
    repeat match goal with |- context [code ?c] => lazymatch goal with H : 0 <= code c < 256 |- _ => fail | _ => pose proof (code_range c) end end;
    lia.
Qed.
Lemma runes_valid s : Forall (λ r, valid_rune r = true) (runes s).
Proof.
  unfold runes, rune_chunks. generalize (length s) as n. intros n. revert s.
  induction n as [|n IH]; intros s; [constructor|]. destruct s as [|c s]; [constructor|]. cbn [chunks_go].
  destruct (decode_rune (c :: s)) as [r w] eqn:E. constructor; [by eapply decode_rune_valid|apply IH].
Qed.
Lemma coerce_runes s : coerce_rune <$> runes s = runes s.
Proof.
  rewrite <- (list_fmap_id (runes s)) at 2. apply list_fmap_ext. intros i r Hr. unfold coerce_rune.
  pose proof (runes_valid s) as Hv. rewrite Forall_lookup in Hv. by rewrite (Hv _ _ Hr).
Qed.

(** [strings.Map] with a total mapping to valid runes. *)
Lemma runes_map f s : (forall r, valid_rune r = true -> valid_rune (f r) = true) ->
  runes (map_runes (λ r, Some (f r)) s) = f <$> runes s.
Proof.
  intros Hf. unfold map_runes. rewrite (list_fmap_compose f encode_rune), runes_encode.
  rewrite <- list_fmap_compose. apply list_fmap_ext. intros i r Hr. unfold compose, coerce_rune.
  rewrite Hf; [done|]. pose proof (runes_valid s) as Hv. rewrite Forall_lookup in Hv. eauto.
Qed.
Lemma valid_map f s : validString (map_runes (λ r, Some (f r)) s) = true.
Proof. unfold map_runes. rewrite (list_fmap_compose f encode_rune). apply valid_encode. Qed.

(** ** Fields *)

(** A word: one or more valid runes, none of them white space. *)
Definition is_word (P : Z -> Prop) (s : gostring) : Prop :=
  s <> [] /\ validString s = true /\ Forall (λ r, r ∉ space_runes /\ P r) (runes s).

Lemma fields_chunks_words P cur l : Forall wf_chunk l -> Forall (λ k, P (rc_rune k)) l ->
  (cur = [] \/ is_word P cur) -> Forall (is_word P) (fields_chunks cur l).
Proof.
  intros Hl HP. revert cur. induction l as [|k l IH]; intros cur Hcur; cbn [fields_chunks].
  - destruct cur; [constructor|]. destruct Hcur as [|]; [done|]. by apply Forall_singleton.
  - inversion_clear Hl as [|? ? Hk Hl']. inversion_clear HP as [|? ? HPk HP'].
    assert (Hv : rc_valid k = true) by apply Hk. rewrite Hv. cbn [andb]. case_bool_decide as Hsp.
    + destruct cur; [apply IH; auto|]. destruct Hcur as [|]; [done|]. constructor; [done|]. apply IH; auto.
    + apply IH; [done|done|]. right.
      assert (Ek : runes (rc_bytes k) = [rc_rune k]).
      { unfold runes. pose proof (wf_chunk_cons k [] Hk) as E. rewrite app_nil_r in E. by rewrite E. }
      assert (Hvk : validString (rc_bytes k) = true).
      { unfold validString. pose proof (wf_chunk_cons k [] Hk) as E. rewrite app_nil_r in E. rewrite E. cbn. by rewrite Hv. }
      assert (Hne : rc_bytes k <> []) by apply Hk.
      destruct Hcur as [-> |(Hn & Hcv & Hf)].
      * split_and!; [done|done|]. cbn [app]. rewrite Ek. by apply Forall_singleton.
      * split_and!; [by destruct cur|by apply valid_app|]. rewrite runes_app_valid by done. rewrite Ek.
        apply Forall_app. split; [done|by apply Forall_singleton].
Qed.

Lemma fields_words P s : validString s = true -> Forall P (runes s) -> Forall (is_word P) (fields s).
Proof.
  intros Hs HP. apply fields_chunks_words; [by apply validString_chunks| |by left].
  unfold runes in HP. rewrite Forall_fmap in HP. exact HP.
Qed.

Lemma is_word_weaken (P Q : Z -> Prop) s : (forall r, P r -> Q r) -> is_word P s -> is_word Q s.
Proof. intros Hpq (H1 & H2 & H3). split_and!; [done|done|]. eapply Forall_impl; [exact H3|]. naive_solver. Qed.

(** Joining valid words with a valid separator. *)
Lemma valid_join sep l : validString sep = true -> Forall (λ s, validString s = true) l -> validString (join sep l) = true.
Proof.
  intros Hs. induction l as [|a l IH]; [done|]. intros Hl. inversion_clear Hl. cbn [join].
  destruct l; [done|]. apply valid_app; [done|]. apply valid_app; [done|]. by apply IH.
Qed.
Lemma runes_join (P : Z -> Prop) sep l : validString sep = true -> Forall P (runes sep) ->
  Forall (λ s, validString s = true /\ Forall P (runes s)) l -> Forall P (runes (join sep l)).
Proof.
  intros Hs Hsep. induction l as [|a l IH]; [constructor|]. intros Hl. inversion_clear Hl as [|? ? [Hv Ha] Hl'].
  cbn [join]. destruct l as [|b l]; [done|]. rewrite !runes_app_valid by done.
  apply Forall_app. split; [done|]. apply Forall_app. split; [done|]. by apply IH.
Qed.
