(* ===== verification/Interleave.v ===== *)
(** * Interleaved goroutines

    The shape of every concurrent component of the program: goroutines that
    run the same function share a structure behind a mutex, wait on channels
    and ask the outside world.  A goroutine is a local state (its program
    counter with the variables it still needs), one step of it is what it does
    between two points where another goroutine can get in, and an [Event] is
    what the outside decides at that step: the clock, whether the context has
    ended, the answer of a peer, which ready case a [select] takes.  A step
    that cannot be taken yet ([None]) is a goroutine that blocks.

    A schedule names, step by step, the goroutine that moves and the event; the
    theorems of a component hold for every schedule, so for every interleaving
    of any number of goroutines and every behaviour of the outside. *)
From S2P Require Import Prelude.
#[local] Open Scope nat_scope.

Record system (Shared Local : Type) := MkSystem { shared : Shared; threads : list Local }.
Arguments MkSystem {_ _} _ _.
Arguments shared {_ _} _.
Arguments threads {_ _} _.

Section Interleaving.
Context {Shared Local Event : Type} (step : Event -> Shared -> Local -> option (Shared * Local)).
#[local] Abbreviation sys := (system Shared Local).

(** Thread [i] takes a step. *)
Definition advance (i : nat) (e : Event) (y : sys) : option sys :=
  match threads y !! i with
  | None => None
  | Some l =>
      match step e (shared y) l with
      | None => None
      | Some (s, l) => Some (MkSystem s (<[i := l]> (threads y)))
      end
  end.

Fixpoint run (schedule : list (nat * Event)) (y : sys) : option sys :=
  match schedule with
  | [] => Some y
  | (i, e) :: schedule => match advance i e y with None => None | Some y => run schedule y end
  end.

Definition reaches (y y' : sys) : Prop := exists schedule, run schedule y = Some y'.

Lemma advance_inv i e y y' : advance i e y = Some y' ->
  exists l s l', threads y !! i = Some l /\ step e (shared y) l = Some (s, l') /\ y' = MkSystem s (<[i := l']> (threads y)).
Proof.
  unfold advance. destruct (threads y !! i) as [l|] eqn:E; [|done]. destruct (step e (shared y) l) as [[s l']|] eqn:Es; [|done].
  intros [= <-]. by exists l, s, l'.
Qed.

(** The rule for invariants: they hold at the start and every step keeps them. *)
Lemma run_invariant (I : sys -> Prop) :
  (forall i e y y', I y -> advance i e y = Some y' -> I y') -> forall schedule y y', I y -> run schedule y = Some y' -> I y'.
Proof.
  intros Hstep schedule. induction schedule as [|[i e] schedule IH]; intros y y' Hy; cbn [run]; [by intros [= <-]|].
  destruct (advance i e y) as [z|] eqn:E; [|done]. apply IH. by apply (Hstep i e y).
Qed.

Lemma run_app a b y : run (a ++ b) y = match run a y with None => None | Some z => run b z end.
Proof.
  revert y. induction a as [|[i e] a IH]; intros y; [done|]. cbn [run app]. by destruct (advance i e y).
Qed.

(** ** Termination *)

Section Measure.
Context (weight : Local -> nat).
Definition total (ls : list Local) : nat := sum_list_with weight ls.

Lemma total_insert ls i l l' : ls !! i = Some l -> total (<[i := l']> ls) + weight l = total ls + weight l'.
Proof.
  unfold total. revert i. induction ls as [|x ls IH]; intros [|i] Hi; try done; simpl in *.
  - injection Hi as ->. lia.
  - specialize (IH i Hi). lia.
Qed.

(** Every schedule is finite when every step of a thread uses up some of its weight. *)
Lemma run_bounded : (forall e s l s' l', step e s l = Some (s', l') -> weight l' < weight l) ->
  forall schedule y y', run schedule y = Some y' -> length schedule + total (threads y') <= total (threads y).
Proof.
  intros Hw schedule. induction schedule as [|[i e] schedule IH]; intros y y'; cbn [run]; [intros [= <-]; cbn; lia|].
  destruct (advance i e y) as [z|] eqn:E; [|done]. intros Hr. specialize (IH z y' Hr).
  apply advance_inv in E as (l & s & l' & Hl & Hs & ->). cbn [threads] in IH. pose proof (total_insert _ i l l' Hl) as Ht.
  specialize (Hw _ _ _ _ _ Hs). cbn [length]. lia.
Qed.

(** Changing the weights changes the total by as much per thread. *)
Lemma total_le (weight' : Local -> nat) k ls : (forall l, weight' l <= weight l + k) -> sum_list_with weight' ls <= total ls + k * length ls.
Proof. intros Hw. unfold total. induction ls as [|l ls IH]; [cbn; lia|]. cbn [sum_list_with length]. specialize (Hw l). lia. Qed.
End Measure.

(** The same for a measure of the whole system, under an invariant. *)
Lemma run_measure (I : sys -> Prop) (M : sys -> nat) :
  (forall i e y y', I y -> advance i e y = Some y' -> I y' /\ M y' < M y) ->
  forall schedule y y', I y -> run schedule y = Some y' -> I y' /\ length schedule + M y' <= M y.
Proof.
  intros Hstep schedule. induction schedule as [|[i e] schedule IH]; intros y y' Hy; cbn [run]; [intros [= <-]; cbn; by split|].
  destruct (advance i e y) as [z|] eqn:E; [|done]. destruct (Hstep i e y z Hy E) as [Hz Hlt]. intros Hr.
  destruct (IH z y' Hz Hr) as [H1 H2]. split; [done|]. cbn [length]. lia.
Qed.

(** ** Counting threads *)

Section Count.
Context (p : Local -> bool).
Definition count_threads (ls : list Local) : nat := length (List.filter p ls).
Definition of_bool (b : bool) : nat := if b then 1 else 0.

Lemma count_insert ls i l l' : ls !! i = Some l ->
  count_threads (<[i := l']> ls) + of_bool (p l) = count_threads ls + of_bool (p l').
Proof.
  unfold count_threads. revert i. induction ls as [|x ls IH]; intros [|i] Hi; try done; simpl in *.
  - injection Hi as ->. unfold of_bool. destruct (p l), (p l'); cbn; lia.
  - specialize (IH i Hi). destruct (p x); simpl; lia.
Qed.

Lemma count_none ls : Forall (λ l, p l = false) ls -> count_threads ls = 0%nat.
Proof. unfold count_threads. induction 1 as [|l ls Hl _ IH]; [done|]. cbn. by rewrite Hl. Qed.
End Count.
End Interleaving.

(** ** Single flight

    Work that several goroutines want at once is done by one of them: it claims
    a key in a table with a channel of its own, the others wait for the
    channel, and whoever finishes deletes the claim and closes the channel.
    The table is behind a mutex, so claiming and finishing are single steps.

    [flight] is what keeps this right, in any system of goroutines (Interleave)
    in which every step has one of the effects of [claim_effect]. *)

(** The claims with their channels, the closed channels, the number of channels made. *)
Record table (K : Type) `{Countable K} := MkTable { claims : gmap K nat; closed_ones : gset nat; made : nat }.
Arguments MkTable {_ _ _} _ _ _.
Arguments claims {_ _ _} _.
Arguments closed_ones {_ _ _} _.
Arguments made {_ _ _} _.

Lemma list_insert_cases {A} (ls : list A) i l l' j g : ls !! i = Some l -> <[i := l']> ls !! j = Some g ->
  (j = i /\ g = l') \/ (j <> i /\ ls !! j = Some g).
Proof.
  intros Hi Hj. destruct (decide (j = i)) as [-> | Hne]; [left|right].
  - rewrite list_lookup_insert_eq in Hj by (by eapply lookup_lt_Some). naive_solver.
  - by rewrite list_lookup_insert_ne in Hj.
Qed.
Lemma list_insert_same {A} (ls : list A) i l l' : ls !! i = Some l -> <[i := l']> ls !! i = Some l'.
Proof. intros Hi. apply list_lookup_insert_eq. by eapply lookup_lt_Some. Qed.
Lemma list_insert_other {A} (ls : list A) i j l' g : j <> i -> ls !! j = Some g -> <[i := l']> ls !! j = Some g.
Proof. intros Hne Hj. by rewrite list_lookup_insert_ne. Qed.

Section Flight.
Context {K : Type} `{Countable K} {Local : Type}.
(** The key that a goroutine has claimed, with its channel; what it waits for;
    whether it has closed a channel twice. *)
Context (owner waits : Local -> option (K * nat)) (crashed : Local -> bool).
Implicit Types (s : table K) (ls : list Local).
#[local] Set Default Proof Using "Type".

(** Claims and channels agree: every claim is in the table, with an open
    channel of its own, and belongs to exactly one goroutine; whoever waits,
    waits for a claim that is held or for a channel that is closed. *)
Record flight s ls : Prop := {
  fl_owner : forall i g d p, ls !! i = Some g -> owner g = Some (d, p) -> claims s !! d = Some p;
  fl_unique : forall i j g h d p q, ls !! i = Some g -> ls !! j = Some h -> owner g = Some (d, p) -> owner h = Some (d, q) -> i = j;
  fl_live : forall d p, claims s !! d = Some p -> exists i g, ls !! i = Some g /\ owner g = Some (d, p);
  fl_inj : forall d d' p, claims s !! d = Some p -> claims s !! d' = Some p -> d = d';
  fl_open : forall d p, claims s !! d = Some p -> p ∉ closed_ones s /\ (p < made s)%nat;
  fl_closed : forall p, p ∈ closed_ones s -> (p < made s)%nat;
  fl_waits : forall i g d p, ls !! i = Some g -> waits g = Some (d, p) -> p ∈ closed_ones s \/ claims s !! d = Some p;
  fl_sound : forall i g, ls !! i = Some g -> crashed g = false }.

(** A step that leaves claims and channels alone. *)
Lemma flight_neutral s s' ls i l l' : flight s ls -> ls !! i = Some l ->
  claims s' = claims s -> closed_ones s' = closed_ones s -> made s' = made s ->
  owner l' = owner l -> crashed l' = false -> (forall d p, waits l' = Some (d, p) -> p ∈ closed_ones s \/ claims s !! d = Some p) ->
  flight s' (<[i := l']> ls).
Proof.
  intros [Ho Hu Hl Hj Hop Hc Hw Hs] Hi E1 E2 E3 Eo Hnc Hw'. split; rewrite ?E1, ?E2, ?E3; try done.
  - intros j g d p [[-> ->]|[Hne Hg]]%(list_insert_cases _ _ l) Hg'; [|by eapply Ho|done]. rewrite Eo in Hg'. by eapply Ho.
  - intros j k g h d p q Hg Hh Hgo Hho.
    apply (list_insert_cases _ _ l) in Hg as [[-> ->]|[Hne Hg]], Hh as [[-> ->]|[Hne' Hh]]; try done; rewrite ?Eo in *; try (by eapply Hu).
  - intros d p Hp. destruct (Hl d p Hp) as (j & g & Hg & Hgo). destruct (decide (j = i)) as [-> | Hne].
    + exists i, l'. split; [by eapply list_insert_same|]. rewrite Eo. congruence.
    + exists j, g. split; [by apply list_insert_other|done].
  - intros j g d p [[-> ->]|[Hne Hg]]%(list_insert_cases _ _ l) Hg'; [by apply Hw'|by eapply Hw|done].
  - intros j g Hg. apply (list_insert_cases _ _ l) in Hg as [[_ ->]|[_ Hg]]; [done|by apply (Hs j)|done].
Qed.

(** A goroutine claims a domain that nobody has. *)
Lemma flight_claim s s' ls i l l' d : flight s ls -> ls !! i = Some l -> claims s !! d = None -> owner l = None ->
  claims s' = <[d := made s]> (claims s) -> closed_ones s' = closed_ones s -> made s' = S (made s) ->
  owner l' = Some (d, made s) -> waits l' = None -> crashed l' = false -> flight s' (<[i := l']> ls).
Proof.
  intros [Ho Hu Hl Hj Hop Hc Hw Hs] Hi Hd Ho0 E1 E2 E3 Eo Ew Hnc.
  assert (Hfree : forall j g d' p, j <> i -> ls !! j = Some g -> owner g = Some (d', p) -> d' <> d).
  { intros j g d' p _ Hg Hgo ->. specialize (Ho _ _ _ _ Hg Hgo). congruence. }
  split; rewrite ?E1, ?E2, ?E3.
  - intros j g d' p [[-> ->]|[Hne Hg]]%(list_insert_cases _ _ l) Hg'; [| |done].
    + rewrite Eo in Hg'. injection Hg' as <- <-. apply lookup_insert_eq.
    + rewrite lookup_insert_ne by (intros <-; by eapply Hfree). by eapply Ho.
  - intros j k g h d' p q Hg Hh Hgo Hho.
    apply (list_insert_cases _ _ l) in Hg as [[-> ->]|[Hne Hg]], Hh as [[-> ->]|[Hne' Hh]]; try done.
    + rewrite Eo in Hgo. injection Hgo as <- <-. by destruct (Hfree k h d q Hne' Hh Hho).
    + rewrite Eo in Hho. injection Hho as <- <-. by destruct (Hfree j g d p Hne Hg Hgo).
    + by eapply Hu.
  - intros d' p [[<- <-]|[Hne Hp]]%lookup_insert_Some.
    + exists i, l'. split; [by eapply list_insert_same|done].
    + destruct (Hl d' p Hp) as (j & g & Hg & Hgo). exists j, g. split; [|done]. apply list_insert_other; [|done]. intros ->. congruence.
  - intros d1 d2 p [[<- <-]|[Hne1 Hp1]]%lookup_insert_Some [[<- Hc2]|[Hne2 Hp2]]%lookup_insert_Some; try done.
    + apply Hop in Hp2 as [_ ?]. lia.
    + subst p. apply Hop in Hp1 as [_ ?]. lia.
    + by eapply Hj.
  - intros d' p [[<- <-]|[Hne Hp]]%lookup_insert_Some.
    + split; [|lia]. intros Hin%Hc. lia.
    + apply Hop in Hp as [? ?]. split; [done|lia].
  - intros p Hp%Hc. lia.
  - intros j g d' p [[-> ->]|[Hne Hg]]%(list_insert_cases _ _ l) Hg'; [congruence| |done].
    destruct (Hw _ _ _ _ Hg Hg') as [?|Hp]; [by left|right]. rewrite lookup_insert_ne; [done|]. intros <-. congruence.
  - intros j g Hg. apply (list_insert_cases _ _ l) in Hg as [[_ ->]|[_ Hg]]; [done|by apply (Hs j)|done].
Qed.

(** A goroutine gives its claim back and closes its channel. *)
Lemma flight_release s s' ls i l l' d p : flight s ls -> ls !! i = Some l -> owner l = Some (d, p) ->
  claims s' = base.delete d (claims s) -> closed_ones s' = {[p]} ∪ closed_ones s -> made s' = made s ->
  owner l' = None -> waits l' = None -> crashed l' = false -> flight s' (<[i := l']> ls).
Proof.
  intros [Ho Hu Hl Hj Hop Hc Hw Hs] Hi Hol E1 E2 E3 Eo Ew Hnc. pose proof (Ho _ _ _ _ Hi Hol) as Hd.
  split; rewrite ?E1, ?E2, ?E3.
  - intros j g d' q [[-> ->]|[Hne Hg]]%(list_insert_cases _ _ l) Hg'; [congruence| |done].
    rewrite lookup_delete_ne; [by eapply Ho|]. intros <-. apply Hne. by eapply Hu.
  - intros j k g h d' p' q Hg Hh Hgo Hho.
    apply (list_insert_cases _ _ l) in Hg as [[-> ->]|[Hne Hg]], Hh as [[-> ->]|[Hne' Hh]]; try done; try congruence. by eapply Hu.
  - intros d' q [Hne Hp]%lookup_delete_Some. destruct (Hl d' q Hp) as (j & g & Hg & Hgo). exists j, g. split; [|done].
    apply list_insert_other; [|done]. intros ->. congruence.
  - intros d1 d2 q [_ ?]%lookup_delete_Some [_ ?]%lookup_delete_Some. by eapply Hj.
  - intros d' q [Hne Hp]%lookup_delete_Some. destruct (Hop _ _ Hp) as [Hq Hlt]. split; [|done].
    intros [->%elem_of_singleton|?]%elem_of_union; [|done]. apply Hne. by eapply Hj.
  - intros q [->%elem_of_singleton|?]%elem_of_union; [by apply (Hop d)|by apply Hc].
  - intros j g d' q [[-> ->]|[Hne Hg]]%(list_insert_cases _ _ l) Hg'; [congruence| |done].
    destruct (Hw _ _ _ _ Hg Hg') as [?|Hp]; [left; set_solver|]. destruct (decide (d' = d)) as [-> | Hdd].
    + left. rewrite Hp in Hd. injection Hd as ->. set_solver.
    + right. by rewrite lookup_delete_ne.
  - intros j g Hg. apply (list_insert_cases _ _ l) in Hg as [[_ ->]|[_ Hg]]; [done|by apply (Hs j)|done].
Qed.

(** What one step may do to the table. *)
Inductive claim_effect s s' (g g' : Local) : Prop :=
  | Keeps : claims s' = claims s -> closed_ones s' = closed_ones s -> made s' = made s -> owner g' = owner g -> crashed g' = false ->
      (forall d p, waits g' = Some (d, p) -> claims s !! d = Some p) -> claim_effect s s' g g'
  | Claims d : claims s !! d = None -> owner g = None -> claims s' = <[d := made s]> (claims s) -> closed_ones s' = closed_ones s ->
      made s' = S (made s) -> owner g' = Some (d, made s) -> waits g' = None -> crashed g' = false -> claim_effect s s' g g'
  | Frees d p : owner g = Some (d, p) -> claims s' = base.delete d (claims s) -> closed_ones s' = {[p]} ∪ closed_ones s -> made s' = made s ->
      owner g' = None -> waits g' = None -> crashed g' = false -> claim_effect s s' g g'.

(** A goroutine has its claim, and its channel is open. *)
Lemma flight_owned s ls i g d p : flight s ls -> ls !! i = Some g -> owner g = Some (d, p) -> claims s !! d = Some p /\ p ∉ closed_ones s.
Proof. intros Hf Hg Hp. pose proof (fl_owner _ _ Hf _ _ _ _ Hg Hp) as Hd. split; [done|by apply (fl_open _ _ Hf d)]. Qed.

Lemma flight_effect s s' ls i g g' : flight s ls -> ls !! i = Some g -> claim_effect s s' g g' -> flight s' (<[i := g']> ls).
Proof.
  intros Hf Hg [E1 E2 E3 Eo Hnc Hw|d Hd Eo E1 E2 E3 Eo' Ew Hnc|d p Eo E1 E2 E3 Eo' Ew Hnc].
  - apply (flight_neutral s s' ls i g g'); try done. intros d p Hp. right. by apply Hw.
  - by apply (flight_claim s s' ls i g g' d).
  - by apply (flight_release s s' ls i g g' d p).
Qed.

(** At the start nobody has claimed anything. *)
Lemma flight_start n ls : (forall g, g ∈ ls -> owner g = None /\ waits g = None /\ crashed g = false) -> flight (MkTable ∅ ∅ n) ls.
Proof.
  intros Hls. assert (Hl : forall i g, ls !! i = Some g -> owner g = None /\ waits g = None /\ crashed g = false).
  { intros i g Hi. apply Hls. by eapply list_elem_of_lookup_2. }
  split; cbn [claims closed_ones made]; try done.
  - intros i g d p Hi Ho. destruct (Hl i g Hi) as (? & _). congruence.
  - intros i j g h d p q Hi _ Ho _. destruct (Hl i g Hi) as (? & _). congruence.
  - intros i g d p Hi Ho. destruct (Hl i g Hi) as (_ & ? & _). congruence.
  - intros i g Hi. by apply (Hl i g Hi).
Qed.
End Flight.
