(* ===== verification/NetSafety.v ===== *)
(** * internal/netsafety: addresses, prefixes and DNS names

    [Addr] and [Prefix] are the parts of Go's [net/netip] the program uses; the
    textual forms are the class [NetIPText].  [Module NetSafety] translates
    internal/netsafety/netsafety.go. *)
From S2P Require Import Prelude GoText.

(** ** net/netip *)

Inductive Addr :=
  | AddrInvalid
  | Addr4 (v : Z)
  | Addr6 (v : Z) (zone : gostring).

#[export] Instance Addr_eq_dec : EqDecision Addr.
Proof. solve_decision. Defined.

Definition addr_wf (a : Addr) : Prop :=
  match a with
  | AddrInvalid => True
  | Addr4 v => 0 <= v < 2 ^ 32
  | Addr6 v _ => 0 <= v < 2 ^ 128
  end.

Definition isValid (a : Addr) : bool := match a with AddrInvalid => false | _ => true end.
Definition is4 (a : Addr) : bool := match a with Addr4 _ => true | _ => false end.
Definition is6 (a : Addr) : bool := match a with Addr6 _ _ => true | _ => false end.
Definition is4In6 (a : Addr) : bool :=
  match a with Addr6 v _ => Z.shiftr v 32 =? 65535 | _ => false end.

Definition unmap (a : Addr) : Addr :=
  match a with
  | Addr6 v _ => if is4In6 a then Addr4 (v mod 2 ^ 32) else a
  | _ => a
  end.

Definition withZone (a : Addr) (zone : gostring) : Addr :=
  match a with Addr6 v _ => Addr6 v zone | _ => a end.

Definition bitLen (a : Addr) : Z :=
  match a with AddrInvalid => 0 | Addr4 _ => 32 | Addr6 _ _ => 128 end.

Definition isUnspecified (a : Addr) : bool :=
  bool_decide (a = Addr4 0) || bool_decide (a = Addr6 0 []).
Definition isLoopback (a : Addr) : bool :=
  match unmap a with
  | Addr4 v => Z.shiftr v 24 =? 127
  | Addr6 v _ => v =? 1
  | AddrInvalid => false
  end.
Definition isMulticast (a : Addr) : bool :=
  match unmap a with
  | Addr4 v => Z.shiftr v 28 =? 14
  | Addr6 v _ => Z.shiftr v 120 =? 255
  | AddrInvalid => false
  end.
Definition isLinkLocalUnicast (a : Addr) : bool :=
  match unmap a with
  | Addr4 v => Z.shiftr v 16 =? 43518
  | Addr6 v _ => Z.shiftr v 118 =? 1018
  | AddrInvalid => false
  end.
Definition isLinkLocalMulticast (a : Addr) : bool :=
  match unmap a with
  | Addr4 v => Z.shiftr v 8 =? 14680064
  | Addr6 v _ => Z.land (Z.shiftr v 112) 65295 =? 65282
  | AddrInvalid => false
  end.
Definition isPrivate (a : Addr) : bool :=
  match unmap a with
  | Addr4 v => (Z.shiftr v 24 =? 10) || (Z.shiftr v 20 =? 2753) || (Z.shiftr v 16 =? 49320)
  | Addr6 v _ => Z.shiftr v 121 =? 126
  | AddrInvalid => false
  end.
Definition isGlobalUnicast (a : Addr) : bool :=
  match a with
  | AddrInvalid => false
  | _ =>
      let a := unmap a in
      negb (bool_decide (a = Addr4 0) || bool_decide (a = Addr4 4294967295))
      && negb (bool_decide (a = Addr6 0 [])) && negb (isLoopback a)
      && negb (isMulticast a) && negb (isLinkLocalUnicast a)
  end.

Record Prefix := MkPrefix { pfx_addr : Addr; pfx_bits : Z }.

Definition hasZone (a : Addr) : bool :=
  match a with Addr6 _ (_ :: _) => true | _ => false end.

Definition addr_bits (a : Addr) : Z :=
  match a with AddrInvalid => 0 | Addr4 v => v | Addr6 v _ => v end.

(** [Prefix.Contains]: same family, no zone, equal leading bits. *)
Definition prefix_contains (p : Prefix) (a : Addr) : bool :=
  if negb (isValid (pfx_addr p)) || (pfx_bits p <? 0) || hasZone a then false
  else if (bitLen (pfx_addr p) =? 0) || (bitLen a =? 0)
          || negb (bitLen (pfx_addr p) =? bitLen a) then false
  else Z.shiftr (Z.lxor (addr_bits a) (addr_bits (pfx_addr p))) (bitLen a - pfx_bits p) =? 0.

(** [netip.PrefixFrom(addr, bits).Masked()] for bits within the family. *)
Definition prefix_masked (a : Addr) (bits : Z) : Prefix :=
  let h := bitLen a - bits in
  match a with
  | AddrInvalid => MkPrefix AddrInvalid (-1)
  | Addr4 v => MkPrefix (Addr4 (Z.shiftl (Z.shiftr v h) h)) bits
  | Addr6 v _ => MkPrefix (Addr6 (Z.shiftl (Z.shiftr v h) h) []) bits
  end.

(** Textual forms: [netip.ParseAddr], [netip.ParsePrefix] and [Addr.String]. *)
Class NetIPText := {
  parse_addr : gostring -> option Addr;
  parse_prefix : gostring -> option (Addr * Z);
  addr_string : Addr -> gostring;
  parse_addr_string : forall a, isValid a = true -> addr_wf a -> hasZone a = false ->
    parse_addr (addr_string a) = Some a;
  parse_addr_valid : forall s a, parse_addr s = Some a -> isValid a = true /\ addr_wf a;
  parse_prefix_valid : forall s a b, parse_prefix s = Some (a, b) ->
    isValid a = true /\ addr_wf a /\ hasZone a = false /\ 0 <= b <= bitLen a;
}.

Module NetSafety.

Definition ip4 (a b c d : Z) : Addr := Addr4 (a * 16777216 + b * 65536 + c * 256 + d).
Definition ip6_hi32 (h : Z) : Addr := Addr6 (Z.shiftl h 96) [].

Definition nonRoutablePrefixes : list Prefix :=
  [ MkPrefix (ip4 0 0 0 0) 8; MkPrefix (ip4 100 64 0 0) 10; MkPrefix (ip4 192 0 0 0) 24;
    MkPrefix (ip4 192 0 2 0) 24; MkPrefix (ip4 198 18 0 0) 15; MkPrefix (ip4 198 51 100 0) 24;
    MkPrefix (ip4 203 0 113 0) 24; MkPrefix (ip4 240 0 0 0) 4;
    MkPrefix (ip6_hi32 536936448) 32;            (* 2001::/32 *)
    MkPrefix (ip6_hi32 536939960) 32;            (* 2001:db8::/32 *)
    MkPrefix (ip6_hi32 537001984) 16 ].          (* 2002::/16 *)

Definition CanonicalIP (a : Addr) : Addr :=
  unmap (if is6 a then withZone a [] else a).

Definition ParseIPPrefix `{NetIPText} (value : gostring) : option Prefix :=
  let value := trimSpace value in
  match parse_prefix value with
  | Some (addr, bits) =>
      if is4In6 addr then
        if bits <? 96 then None else Some (prefix_masked (unmap addr) (bits - 96))
      else Some (prefix_masked (CanonicalIP addr) bits)
  | None =>
      match parse_addr value with
      | None => None
      | Some addr => let addr := CanonicalIP addr in Some (MkPrefix addr (bitLen addr))
      end
  end.

Definition AddressRoutable (addr : Addr) : bool :=
  if negb (isValid addr) then false
  else
    let addr := unmap addr in
    if negb (isGlobalUnicast addr) || isPrivate addr || isLoopback addr
       || isLinkLocalUnicast addr || isLinkLocalMulticast addr || isMulticast addr
       || isUnspecified addr then false
    else negb (existsb (λ p, prefix_contains p addr) nonRoutablePrefixes).

Definition label_char (allowUnderscore : bool) (r : Z) : bool :=
  ((97 <=? r) && (r <=? 122)) || ((48 <=? r) && (r <=? 57)) || (r =? 45)
  || (allowUnderscore && (r =? 95)).

(** One label of a name: no empty label, at most 63 bytes, no hyphen at either
    end, and only the permitted characters. *)
Definition label_ok (allowUnderscore : bool) (label : gostring) : bool :=
  match label with
  | [] => false
  | c :: _ =>
      negb ((63 <? go_len label) || ceq c "-" || ceq (List.last label " "%char) "-")
      && forallb (label_char allowUnderscore) (runes label)
  end.

Definition NormalizeDNSName `{UnicodeTables} (value : gostring) (allowUnderscore : bool) : gostring :=
  let value := trimSuffix (toLower (trimSpace value)) (lit ".") in
  if beq value [] || (253 <? go_len value) then []
  else if forallb (label_ok allowUnderscore) (split "." value) then value else [].

Definition DNSHostname `{UnicodeTables} (value : gostring) : gostring := NormalizeDNSName value false.

End NetSafety.
Export NetSafety.

(** ** Canonical addresses *)

(** The key form shared by all components: no zone, and not IPv4-mapped. *)
Definition canonical (a : Addr) : Prop := hasZone a = false /\ is4In6 a = false.

Lemma CanonicalIP_canonical a : canonical (CanonicalIP a).
Proof.
  unfold CanonicalIP, canonical. destruct a as [|v|v z]; cbn; [done|done|].
  destruct (Z.shiftr v 32 =? 65535) eqn:E; cbn; [done|]. by rewrite E.
Qed.

Lemma CanonicalIP_id a : canonical a -> CanonicalIP a = a.
Proof.
  intros [Hz Hm]. unfold CanonicalIP. destruct a as [|v|v z]; cbn in *; [done|done|].
  rewrite Hm. by destruct z.
Qed.

Lemma CanonicalIP_wf a : addr_wf a -> addr_wf (CanonicalIP a).
Proof.
  unfold CanonicalIP. destruct a as [|v|v z]; cbn; [done|done|].
  intros Hv. destruct (Z.shiftr v 32 =? 65535); cbn; [|done]. by apply Z.mod_pos_bound.
Qed.

Lemma CanonicalIP_valid a : isValid (CanonicalIP a) = isValid a.
Proof. unfold CanonicalIP. destruct a as [|v|v z]; cbn; [done|done|]. by case_match. Qed.

(** ** Leading bits as intervals *)

Lemma shiftr_interval v h q : 0 <= h ->
  Z.shiftr v h = q <-> q * 2 ^ h <= v < (q + 1) * 2 ^ h.
Proof.
  intros Hh. rewrite Z.shiftr_div_pow2 by done.
  assert (0 < 2 ^ h) by (apply Z.pow_pos_nonneg; lia).
  split; [intros <-|intros Hv].
  - pose proof (Z.mul_div_le v (2 ^ h)). pose proof (Z.mul_succ_div_gt v (2 ^ h)). nia.
  - symmetry. apply (Z.div_unique v (2 ^ h) q (v - q * 2 ^ h)); [left|]; lia.
Qed.

Lemma shiftr_lxor_zero a b h : Z.shiftr (Z.lxor a b) h = 0 <-> Z.shiftr a h = Z.shiftr b h.
Proof. rewrite Z.shiftr_lxor. apply Z.lxor_eq_0_iff. Qed.

Lemma prefix_contains4 p bits v : 0 <= bits <= 32 ->
  prefix_contains (MkPrefix (Addr4 p) bits) (Addr4 v) = true <->
  Z.shiftr p (32 - bits) * 2 ^ (32 - bits) <= v < (Z.shiftr p (32 - bits) + 1) * 2 ^ (32 - bits).
Proof.
  intros Hb. unfold prefix_contains; cbn.
  rewrite (proj2 (Z.ltb_ge bits 0)) by lia. cbn.
  rewrite Z.eqb_eq, shiftr_lxor_zero. apply shiftr_interval. lia.
Qed.

(** The IPv4 ranges that are not globally routable, as closed intervals. *)
Definition reserved4 : list (Z * Z) :=
  let r a b c d e f g h := (a * 16777216 + b * 65536 + c * 256 + d, e * 16777216 + f * 65536 + g * 256 + h) in
  [ r 0 0 0 0 0 255 255 255; r 10 0 0 0 10 255 255 255; r 100 64 0 0 100 127 255 255;
    r 127 0 0 0 127 255 255 255; r 169 254 0 0 169 254 255 255; r 172 16 0 0 172 31 255 255;
    r 192 0 0 0 192 0 0 255; r 192 0 2 0 192 0 2 255; r 192 168 0 0 192 168 255 255;
    r 198 18 0 0 198 19 255 255; r 198 51 100 0 198 51 100 255; r 203 0 113 0 203 0 113 255;
    r 224 0 0 0 255 255 255 255 ].

Definition in_reserved4 (v : Z) : Prop := Exists (λ '(lo, hi), lo <= v <= hi) reserved4.

Lemma routable4_false v : 0 <= v < 2 ^ 32 ->
  AddressRoutable (Addr4 v) = false <->
  (isGlobalUnicast (Addr4 v) = false \/ isPrivate (Addr4 v) = true \/ isLoopback (Addr4 v) = true \/
   isLinkLocalUnicast (Addr4 v) = true \/ isLinkLocalMulticast (Addr4 v) = true \/
   isMulticast (Addr4 v) = true \/ isUnspecified (Addr4 v) = true) \/
  Exists (λ p, prefix_contains p (Addr4 v) = true) nonRoutablePrefixes.
Proof.
  intros Hv. unfold AddressRoutable. cbn [isValid negb unmap].
  rewrite Exists_exists. split.
  - case_match eqn:E.
    + rewrite !orb_true_iff, negb_true_iff in E. tauto.
    + rewrite negb_false_iff, existsb_exists. intros (p & Hp & Hc). right.
      exists p. by rewrite list_elem_of_In.
  - intros [Hc|(p & Hp & Hc)].
    + case_match eqn:E; [done|]. rewrite !orb_false_iff, negb_false_iff in E. intuition congruence.
    + case_match; [done|]. rewrite negb_false_iff, existsb_exists.
      exists p. by rewrite <- list_elem_of_In.
Qed.

(** Bit tests of the netip predicates as interval conditions. *)
Ltac shift_intervals :=
  repeat match goal with
  | H : context [(Z.shiftr ?v ?h =? ?q) = true] |- _ => rewrite (Z.eqb_eq (Z.shiftr v h) q), (shiftr_interval v h q) in H by lia
  | |- context [(Z.shiftr ?v ?h =? ?q) = true] => rewrite (Z.eqb_eq (Z.shiftr v h) q), (shiftr_interval v h q) by lia
  end.

Lemma nonRoutable4 v :
  Exists (λ p, prefix_contains p (Addr4 v) = true) nonRoutablePrefixes <->
  (0 <= v < 16777216) \/ (1681915904 <= v < 1686110208) \/ (3221225472 <= v < 3221225728) \/
  (3221225984 <= v < 3221226240) \/ (3323068416 <= v < 3323199488) \/ (3325256704 <= v < 3325256960) \/
  (3405803776 <= v < 3405804032) \/ (4026531840 <= v < 4294967296).
Proof.
  unfold nonRoutablePrefixes, ip4, ip6_hi32.
  rewrite !Exists_cons, Exists_nil.
  rewrite !prefix_contains4 by lia.
  change (prefix_contains (MkPrefix (Addr6 _ _) _) (Addr4 v)) with false.
  cbn -[Z.le Z.lt]. intuition (try lia; try discriminate).
Qed.

(** Reserved ranges are exactly the unroutable IPv4 addresses. *)
Lemma routable4_intervals v : 0 <= v < 2 ^ 32 ->
  AddressRoutable (Addr4 v) = false <-> in_reserved4 v.
Proof.
  intros Hv. rewrite routable4_false by done. rewrite nonRoutable4.
  unfold in_reserved4, reserved4. rewrite !Exists_cons, Exists_nil.
  unfold isGlobalUnicast, isPrivate, isLoopback, isLinkLocalUnicast, isLinkLocalMulticast,
    isMulticast, isUnspecified. cbn [unmap].
  rewrite (bool_decide_false (Addr4 v = Addr6 0 [])) by done.
  rewrite <- !not_true_iff_false, !orb_true_iff, !andb_true_iff, !negb_true_iff,
    <- !not_true_iff_false, !orb_true_iff, !bool_decide_eq_true.
  shift_intervals.
  assert (Hi : forall k, Addr4 v = Addr4 k <-> v = k) by (intros k; split; [by intros [=]|by intros ->]).
  rewrite !Hi. cbn -[Z.le Z.lt]. lia.
Qed.

(** ** DNS names *)

(** What a normalized name is: bounded, with well-formed labels. *)
Definition dns_name (allowUnderscore : bool) (v : gostring) : Prop :=
  v <> [] /\ go_len v <= 253 /\ forallb (label_ok allowUnderscore) (split "." v) = true.

Lemma NormalizeDNSName_cases `{UnicodeTables} value u :
  NormalizeDNSName value u = [] \/ dns_name u (NormalizeDNSName value u).
Proof.
  unfold NormalizeDNSName. set (v := trimSuffix _ _).
  destruct (beq v [] || (253 <? go_len v)) eqn:E; [by left|].
  destruct (forallb _ _) eqn:El; [right|by left].
  apply orb_false_iff in E as [Hne Hlen]. rewrite Z.ltb_ge in Hlen.
  split_and!; [|done|done]. intros Hv. rewrite Hv in Hne. done.
Qed.

(** Characters of a name: lower-case letters, digits, hyphen, underscore, dot. *)
Definition name_char (c : ascii) : bool := label_char true (code c) || ceq c ".".

Lemma label_char_mono u r : label_char u r = true -> label_char true r = true.
Proof. unfold label_char. destruct u; [done|]. cbn. rewrite orb_false_r. by intros ->. Qed.

Lemma label_ok_chars u w : label_ok u w = true -> Forall (λ c, label_char u (code c) = true) w.
Proof.
  unfold label_ok. destruct w as [|c w]; [done|]. intros [_ Hr]%andb_true_iff.
  rewrite forallb_forall in Hr. rewrite runes_ascii in Hr.
  - apply List.Forall_forall. intros d Hd. apply Hr. apply in_map_iff. eauto.
  - apply List.Forall_forall. intros r Hin%Hr. unfold label_char in Hin.
    rewrite !orb_true_iff, !andb_true_iff, !Z.leb_le, !Z.eqb_eq in Hin. lia.
Qed.

Lemma dns_name_chars u v : dns_name u v -> Forall (λ c, name_char c = true) v.
Proof.
  intros (_ & _ & Hl). apply Forall_forall. intros c Hc. unfold name_char.
  destruct (decide (c = "."%char)) as [->|Hne]; [done|].
  destruct (split_elem "." v c Hc Hne) as (w & Hw & Hcw).
  rewrite forallb_forall in Hl. apply list_elem_of_In, Hl, label_ok_chars in Hw.
  rewrite Forall_forall in Hw. apply Hw, label_char_mono in Hcw. by rewrite Hcw.
Qed.

Lemma name_char_lower c : name_char c = true -> is_lower c = true /\ is_plain c = true.
Proof.
  unfold name_char, label_char, is_lower, is_plain, in_range.
  rewrite !orb_true_iff, !andb_true_iff, !negb_true_iff, !Z.leb_le, !Z.eqb_eq, Z.ltb_lt, ceq_true.
  rewrite andb_false_iff, !Z.leb_gt. intros [[[[Hc|Hc]|Hc]|Hc]| ->];
    [lia..|]. change (code ".") with 46. lia.
Qed.

Lemma forallb_Forall {A} (f : A -> bool) l : forallb f l = true <-> Forall (λ x, f x = true) l.
Proof. rewrite forallb_forall, List.Forall_forall. done. Qed.

Lemma dns_name_no_trailing_dot u v : dns_name u v -> hasSuffix v (lit ".") = false.
Proof.
  intros (_ & _ & Hl). destruct (hasSuffix v (lit ".")) eqn:E; [|done].
  apply hasSuffix_spec in E as [t ->]. change (lit ".") with ["."%char] in Hl.
  rewrite split_trailing, forallb_app in Hl. cbn in Hl. by rewrite andb_false_r in Hl.
Qed.

Lemma NormalizeDNSName_id `{UnicodeTables} v u : dns_name u v -> NormalizeDNSName v u = v.
Proof.
  intros Hn. pose proof (dns_name_chars _ _ Hn) as Hc. unfold NormalizeDNSName.
  rewrite (trimSpace_plain v); [rewrite (toLower_id v)|].
  - unfold trimSuffix. rewrite (dns_name_no_trailing_dot u v) by done.
    destruct Hn as (Hne & Hlen & Hl). rewrite Hl.
    rewrite (proj2 (Z.ltb_ge 253 (go_len v))) by done. destruct v; [done|]. done.
  - apply forallb_Forall. eapply Forall_impl; [exact Hc|]. intros c Hcc. by apply name_char_lower.
  - apply forallb_Forall. eapply Forall_impl; [exact Hc|]. intros c Hcc. by apply name_char_lower.
Qed.

Lemma NormalizeDNSName_idem `{UnicodeTables} v u :
  NormalizeDNSName (NormalizeDNSName v u) u = NormalizeDNSName v u.
Proof.
  destruct (NormalizeDNSName_cases v u) as [E|Hn]; [|by apply NormalizeDNSName_id].
  rewrite E. unfold NormalizeDNSName. by rewrite (trimSpace_plain []).
Qed.

Lemma dns_name_mono v : dns_name false v -> dns_name true v.
Proof.
  intros (Hne & Hlen & Hl). split_and!; [done|done|].
  rewrite forallb_Forall in *. eapply Forall_impl; [exact Hl|]. intros w.
  unfold label_ok. destruct w; [done|]. rewrite !andb_true_iff. intros [-> Hr]. split; [done|].
  rewrite forallb_Forall in *. eapply Forall_impl; [exact Hr|]. intros r. apply label_char_mono.
Qed.

(** ** A concrete textual form

    Big-endian bytes after a family letter: enough to evaluate the definitions
    that take a [NetIPText]. *)
Fixpoint be_bytes (n : nat) (v : Z) : gostring :=
  match n with O => [] | S k => be_bytes k (v / 256) ++ [chr v] end.
Definition be_value (s : gostring) : Z := fold_left (λ acc c, acc * 256 + code c) s 0.

Lemma be_value_snoc s c : be_value (s ++ [c]) = be_value s * 256 + code c.
Proof. unfold be_value. by rewrite fold_left_app. Qed.

Lemma be_bytes_length n v : length (be_bytes n v) = n.
Proof. revert v. induction n as [|n IH]; intros v; [done|]. cbn. rewrite length_app, IH. cbn. lia. Qed.

Lemma be_value_bytes n v : 0 <= v < 256 ^ Z.of_nat n -> be_value (be_bytes n v) = v.
Proof.
  revert v. induction n as [|n IH]; intros v Hv; [cbn in *; lia|]. cbn [be_bytes]. rewrite be_value_snoc.
  rewrite Nat2Z.inj_succ, Z.pow_succ_r in Hv by lia.
  rewrite IH by (split; [apply Z.div_pos|apply Z.div_lt_upper_bound]; lia).
  assert (code (chr v) = v mod 256) as ->.
  { pose proof (Z.mod_pos_bound v 256). unfold chr, code. rewrite N_ascii_embedding; lia. }
  pose proof (Z.div_mod v 256). lia.
Qed.

Lemma be_value_range s : 0 <= be_value s < 256 ^ Z.of_nat (length s).
Proof.
  induction s as [|c s IH] using rev_ind; [cbn; lia|]. rewrite be_value_snoc, length_app. cbn [length].
  rewrite Nat.add_1_r, Nat2Z.inj_succ, Z.pow_succ_r by lia. pose proof (code_range c). lia.
Qed.

Definition raw_string (a : Addr) : gostring :=
  match a with
  | AddrInvalid => []
  | Addr4 v => "4"%char :: be_bytes 4 v
  | Addr6 v _ => "6"%char :: be_bytes 16 v
  end.
Definition raw_parse (s : gostring) : option Addr :=
  match s with
  | c :: s => if ceq c "4" && bool_decide (length s = 4%nat) then Some (Addr4 (be_value s))
              else if ceq c "6" && bool_decide (length s = 16%nat) then Some (Addr6 (be_value s) [])
              else None
  | [] => None
  end.

Definition raw_text : NetIPText.
Proof.
  refine {| parse_addr := raw_parse; parse_prefix := λ _, None; addr_string := raw_string |}.
  - intros [|v|v zone]; cbn [isValid addr_wf hasZone]; [done| |].
    + intros _ Hv _. unfold raw_string, raw_parse. rewrite be_bytes_length, be_value_bytes; [done|]. exact Hv.
    + intros _ Hv Hz. destruct zone; [|done]. unfold raw_string, raw_parse. rewrite be_bytes_length.
      change (ceq "6" "4") with false. cbn [andb]. rewrite be_value_bytes; [done|]. exact Hv.
  - intros s a. unfold raw_parse. destruct s as [|c s]; [done|].
    destruct (ceq c "4"); case_bool_decide as H4; cbn [andb]; [intros [= <-]; split; [done|]| | |].
    + pose proof (be_value_range s) as Hr. rewrite H4 in Hr. exact Hr.
    + destruct (ceq c "6"); case_bool_decide as H6; cbn [andb]; intros [= <-]. split; [done|].
      pose proof (be_value_range s) as Hr. rewrite H6 in Hr. exact Hr.
    + destruct (ceq c "6"); case_bool_decide as H6; cbn [andb]; intros [= <-]. congruence.
    + destruct (ceq c "6"); case_bool_decide as H6; cbn [andb]; intros [= <-]. split; [done|].
      pose proof (be_value_range s) as Hr. rewrite H6 in Hr. exact Hr.
  - done.
Defined.

(** ** Properties *)

(** [AddressRoutable] on IPv4 decides membership in the union of reserved ranges: the bit
    tests of [netip] together with the prefix table reject an address exactly
    when it lies in one of the thirteen reserved intervals. *)
Theorem address_routable_ipv4 (v : Z) (Hv : 0 <= v < 2 ^ 32) :
  AddressRoutable (Addr4 v) = true <-> ~ in_reserved4 v.
Proof. rewrite <- (routable4_intervals v Hv). by rewrite not_false_iff_true. Qed.

Lemma address_routable_ipv4_witness :
  (0 <= 134744072 < 2 ^ 32) /\ (AddressRoutable (Addr4 134744072) = true <-> ~ in_reserved4 134744072).
Proof. split; [lia|]. apply (address_routable_ipv4 134744072). lia. Defined.

(** A zone identifier hides an address from the prefix table: [Prefix.Contains]
    is false for a zoned address, so a documentation address with a zone is
    reported routable although the same address without it is not. *)
Theorem address_routable_zone_gap :
  exists v, AddressRoutable (Addr6 v []) = false /\
            AddressRoutable (Addr6 v (lit "eth0")) = true /\
            AddressRoutable (CanonicalIP (Addr6 v (lit "eth0"))) = false.
Proof. exists (Z.shiftl 536939960 96 + 1). by vm_compute. Qed.

(** Normalized DNS names are canonical: the result is empty or a well-formed
    lower-case name of at most 253 bytes, normalizing again changes nothing,
    and every well-formed name is its own normal form. *)
Theorem normalize_dns_name_canonical `{UnicodeTables} (value : gostring) (u : bool) :
  (NormalizeDNSName value u = [] \/ dns_name u (NormalizeDNSName value u)) /\
  NormalizeDNSName (NormalizeDNSName value u) u = NormalizeDNSName value u /\
  (forall v, dns_name u v -> NormalizeDNSName v u = v).
Proof.
  split; [apply NormalizeDNSName_cases|]. split; [apply NormalizeDNSName_idem|].
  intros v. apply NormalizeDNSName_id.
Qed.

Lemma normalize_dns_name_canonical_witness :
  @NormalizeDNSName basic_tables (lit " Mail.Example.COM. ") false = lit "mail.example.com" /\
  (@NormalizeDNSName basic_tables (lit " Mail.Example.COM. ") false = [] \/
   dns_name false (@NormalizeDNSName basic_tables (lit " Mail.Example.COM. ") false)).
Proof.
  split; [by vm_compute|].
  apply (@normalize_dns_name_canonical basic_tables (lit " Mail.Example.COM. ") false).
Defined.
