(* ===== verification/MailAddr.v ===== *)
(** * internal/mailaddr: canonical mailboxes

    The RFC 5322 parser is Go's [net/mail]; it is the class [NetMail], whose law
    is the documented parse of a bare addr-spec.  [Module MailAddr] translates
    internal/mailaddr/address.go. *)
From S2P Require Import Prelude GoText NetSafety.

Record mailAddress := MailAddress { ma_name : gostring; ma_address : gostring }.

(** Characters of an RFC 5322 atom (ASCII). *)
Definition is_atext (c : ascii) : bool :=
  in_range 97 122 c || in_range 65 90 c || in_range 48 57 c
  || existsb (ceq c) (lit "!#$%&'*+-/=?^_`{|}~").

Definition dot_atom (s : gostring) : bool :=
  forallb (λ w, negb (beq w []) && forallb is_atext w) (split "." s).

(** [mail.ParseAddress] and [mail.ParseAddressList]. *)
Class NetMail := {
  parse_address : gostring -> option mailAddress;
  parse_address_list : gostring -> option (list mailAddress);
  parse_address_addr_spec : forall local domain,
    dot_atom local = true -> dns_name false domain ->
    parse_address (local ++ "@"%char :: domain) = Some (MailAddress [] (local ++ "@"%char :: domain));
}.

Module MailAddr.
Section MailAddr.
Context `{UnicodeTables, NetMail}.

(** The local closure [parse]: retry without one trailing dot. *)
Definition mailbox_parse (candidate : gostring) : option mailAddress :=
  match parse_address candidate with
  | Some a => Some a
  | None => if hasSuffix candidate (lit ".") then parse_address (trimSuffix candidate (lit ".")) else None
  end.

Definition Mailbox (value : gostring) : option gostring :=
  let value := trimSpace value in
  let enclosed :=
    if negb (bool_decide (countByte value "<" = 1%nat)) || negb (bool_decide (countByte value ">" = 1%nat))
    then None
    else match indexByte value "<", indexByte value ">" with
         | Some start, Some stop =>
             if bool_decide (stop <= start + 1)%nat then None
             else
               let enclosed := trimSpace (take (stop - (start + 1)) (drop (start + 1) value)) in
               match mailbox_parse enclosed with
               | Some a => if beq (ma_address a) [] || negb (beq (ma_name a) []) then None
                           else Some (ma_address a)
               | None => None
               end
         | _, _ => None
         end in
  match mailbox_parse value with
  | Some a => if beq (ma_address a) [] then enclosed else Some (ma_address a)
  | None => enclosed
  end.

Definition Normalize (value : gostring) : gostring :=
  let value := trimSpace value in
  if beq value [] || (320 <? go_len value) then []
  else
    match Mailbox value with
    | None => []
    | Some address =>
        match cut "@" address with
        | Some (l, d) =>
            if negb (bool_decide (countByte address "@" = 1%nat)) then []
            else
              let local := toLower (trimSpace l) in
              let domain := DNSHostname d in
              if beq local [] || beq domain [] || (254 <? go_len local + go_len domain + 1) then []
              else local ++ lit "@" ++ domain
        | None => []
        end
    end.

Definition Domain (value : gostring) : gostring :=
  match Mailbox value with
  | None => []
  | Some address =>
      match cut "@" address with
      | Some (_, d) => if bool_decide (countByte address "@" = 1%nat) then DNSHostname d else []
      | None => []
      end
  end.
End MailAddr.
End MailAddr.
Export MailAddr.

(** ** Canonical mailboxes *)

(** The keys the stores use: a local part and a canonical domain. *)
Definition mailbox_shape (m : gostring) : Prop :=
  exists local domain, m = local ++ lit "@" ++ domain /\ local <> [] /\
    dns_name false domain /\ go_len m <= 254.

(** Keys that survive being parsed again: a lower-case dot-atom local part. *)
Definition stable_mailbox (local domain : gostring) : Prop :=
  dot_atom local = true /\ forallb is_lower local = true /\ dns_name false domain /\
  go_len (local ++ lit "@" ++ domain) <= 254.

Section Facts.
Context `{UnicodeTables, NetMail}.

Lemma DNSHostname_cases d : DNSHostname d = [] \/ dns_name false (DNSHostname d).
Proof. apply NormalizeDNSName_cases. Qed.

Lemma Normalize_cases v : Normalize v = [] \/ mailbox_shape (Normalize v).
Proof.
  unfold Normalize. repeat case_match; try by left.
  rewrite !orb_false_iff, Z.ltb_ge in *. destruct_and?. right.
  match goal with H1 : beq (toLower ?a) [] = false, H2 : beq (DNSHostname ?d) [] = false |- _ =>
    apply beq_nil_false in H1; apply beq_nil_false in H2;
    exists (toLower a), (DNSHostname d); destruct (DNSHostname_cases d) as [?|Hd]; [done|] end.
  split_and!; [done|done|done|]. unfold go_len in *. rewrite !length_app. simpl. lia.
Qed.

Lemma Domain_cases v : Domain v = [] \/ dns_name false (Domain v).
Proof. unfold Domain. repeat case_match; (by left) || apply DNSHostname_cases. Qed.

Lemma atext_plain c : is_atext c = true -> is_plain c = true /\ c <> "@"%char.
Proof.
  clear. intros Hc. split.
  - revert Hc. destruct c as [[] [] [] [] [] [] [] []]; vm_compute; done.
  - intros ->. by vm_compute in Hc.
Qed.

Lemma dot_atom_chars local : dot_atom local = true ->
  Forall (λ c, is_plain c = true /\ c <> "@"%char) local.
Proof.
  intros Hd. apply Forall_forall. intros c Hc.
  destruct (decide (c = "."%char)) as [->|Hne]; [by split|].
  destruct (split_elem "." local c Hc Hne) as (w & Hw & Hcw).
  unfold dot_atom in Hd. rewrite forallb_forall in Hd. apply list_elem_of_In, Hd in Hw.
  apply andb_true_iff in Hw as [_ Hw]. rewrite forallb_forall in Hw.
  by apply atext_plain, Hw, list_elem_of_In.
Qed.

Lemma dot_atom_nonempty local : dot_atom local = true -> local <> [].
Proof. by intros Hd ->. Qed.

Lemma dns_name_no_at u d : dns_name u d -> "@"%char ∉ d.
Proof.
  intros Hd%dns_name_chars Hin. rewrite Forall_forall in Hd. by apply Hd in Hin.
Qed.

Lemma countByte_cut l d c : c ∉ l -> c ∉ d -> countByte (l ++ c :: d) c = 1%nat.
Proof.
  clear. intros Hl Hd. unfold countByte.
  assert (Hz : forall s, c ∉ s -> List.filter (ceq c) s = []).
  { induction s as [|x s IH]; intros Hs; [done|]. simpl.
    rewrite (proj2 (ceq_false c x)) by set_solver. apply IH. set_solver. }
  rewrite List.filter_app. simpl. rewrite ceq_refl, !Hz by done. done.
Qed.

Lemma addr_spec_plain local domain : dot_atom local = true -> dns_name false domain ->
  forallb is_plain (local ++ "@"%char :: domain) = true.
Proof.
  intros Hl Hd. rewrite forallb_app, andb_true_iff; simpl. split.
  - apply forallb_Forall. eapply Forall_impl; [by apply dot_atom_chars|]. by intros c [? _].
  - apply forallb_Forall. eapply Forall_impl; [by eapply dns_name_chars|].
    intros c Hc. by apply name_char_lower.
Qed.

Lemma Mailbox_addr_spec local domain : dot_atom local = true -> dns_name false domain ->
  Mailbox (local ++ "@"%char :: domain) = Some (local ++ "@"%char :: domain).
Proof.
  intros Hl Hd. unfold Mailbox. rewrite trimSpace_plain by by apply addr_spec_plain.
  unfold mailbox_parse. rewrite parse_address_addr_spec by done. cbn [ma_address].
  destruct (beq _ []) eqn:E; [|done]. apply beq_true in E. by destruct local.
Qed.

Lemma addr_spec_cut local domain : dot_atom local = true -> dns_name false domain ->
  cut "@" (local ++ "@"%char :: domain) = Some (local, domain) /\
  countByte (local ++ "@"%char :: domain) "@" = 1%nat.
Proof.
  intros Hl Hd. assert (Hn : "@"%char ∉ local).
  { intros Hin. apply dot_atom_chars in Hl. rewrite Forall_forall in Hl. by apply Hl in Hin as [_ ?]. }
  split; [by apply cut_app|]. apply countByte_cut; [done|]. by eapply dns_name_no_at.
Qed.

Lemma Domain_addr_spec local domain : dot_atom local = true -> dns_name false domain ->
  Domain (local ++ "@"%char :: domain) = domain.
Proof.
  intros Hl Hd. unfold Domain. rewrite Mailbox_addr_spec by done.
  destruct (addr_spec_cut local domain Hl Hd) as [-> ->]. cbn.
  by apply NormalizeDNSName_id.
Qed.

Lemma Normalize_stable local domain : stable_mailbox local domain ->
  Normalize (local ++ lit "@" ++ domain) = local ++ lit "@" ++ domain.
Proof.
  intros (Hl & Hlow & Hd & Hlen). change (lit "@" ++ domain) with ("@"%char :: domain) in *.
  unfold Normalize. rewrite trimSpace_plain by by apply addr_spec_plain.
  rewrite Mailbox_addr_spec by done.
  destruct (addr_spec_cut local domain Hl Hd) as [-> ->]. cbn [negb bool_decide decide_rel].
  rewrite bool_decide_true by done. cbn [negb].
  rewrite (trimSpace_plain local).
  2:{ apply forallb_Forall. eapply Forall_impl; [by apply dot_atom_chars|]. by intros c [? _]. }
  rewrite (toLower_id local) by done. unfold DNSHostname. rewrite NormalizeDNSName_id by done.
  assert (go_len (local ++ "@"%char :: domain) = go_len local + go_len domain + 1) as Hgl
    by (unfold go_len; rewrite length_app; simpl; lia).
  rewrite (proj2 (Z.ltb_ge 320 _)) by lia. rewrite (proj2 (Z.ltb_ge 254 _)) by lia.
  pose proof (dot_atom_nonempty local Hl). destruct Hd as (Hdn & _ & _).
  destruct local as [|c local]; [done|]. destruct domain as [|d domain]; [done|]. done.
Qed.

(** A mailbox that normalizing again leaves alone, as [stable_mailbox] is. *)
Definition canonical_mailbox (a : gostring) : Prop := a <> [] /\ Normalize a = a /\ trimSpace a = a.
Lemma canonical_stable local domain : stable_mailbox local domain -> canonical_mailbox (local ++ lit "@" ++ domain).
Proof.
  intros Hs. split; [by destruct local|]. split; [by apply Normalize_stable|]. apply trimSpace_plain. apply addr_spec_plain; apply Hs.
Qed.
Lemma canonical_at a : canonical_mailbox a -> "@"%char ∈ a.
Proof.
  intros (Hn & He & _). destruct (Normalize_cases a) as [E|(local & domain & E & _)]; [congruence|]. rewrite He in E. rewrite E. apply elem_of_app. right. apply list_elem_of_here.
Qed.
End Facts.

(** ** A parser for evaluation: bare addr-specs, and quoted local parts *)

Definition simple_parse (s : gostring) : option mailAddress :=
  match s with
  | c :: rest =>
      if ceq c (chr 34) then
        match cut (chr 34) rest with
        | Some (local, d :: domain) =>
            if ceq d "@" then Some (MailAddress [] (local ++ "@"%char :: domain)) else None
        | _ => None
        end
      else match cut "@" s with
           | Some (local, domain) => if dot_atom local && forallb name_char domain then Some (MailAddress [] s) else None
           | None => None
           end
  | [] => None
  end.

Definition simple_parse_list (s : gostring) : option (list mailAddress) :=
  mapM (λ w, simple_parse (trimSpace w)) (split "," s).

Definition simple_mail : NetMail.
Proof.
  refine {| parse_address := simple_parse; parse_address_list := simple_parse_list |}.
  intros local domain Hl Hd. unfold simple_parse.
  destruct local as [|c local]; [done|].
  destruct (ceq c (chr 34)) eqn:E.
  { apply ceq_true in E as ->. apply dot_atom_chars in Hl as Hc.
    assert (is_atext (chr 34) = true) as Hbad; [|by vm_compute in Hbad].
    unfold dot_atom in Hl. simpl in Hl. destruct (split "." local) as [|w ws] eqn:Es; cbn in Hl; done. }
  cbn [app]. rewrite E, app_comm_cons.
  rewrite (proj1 (addr_spec_cut (c :: local) domain Hl Hd)). rewrite Hl. cbn [andb].
  rewrite (proj2 (forallb_Forall name_char domain) (dns_name_chars _ _ Hd)). reflexivity.
Defined.

(** ** Properties *)

(** Normalized mailboxes: the result is empty or has one canonical domain and at
    most 254 bytes; a canonical mailbox with a dot-atom local part is a fixed
    point of [Normalize], and [Domain] returns its domain. *)
Theorem normalize_mailbox_canonical `{UnicodeTables, NetMail} (v local domain : gostring)
  (Hs : stable_mailbox local domain) :
  (Normalize v = [] \/ mailbox_shape (Normalize v)) /\
  Normalize (local ++ lit "@" ++ domain) = local ++ lit "@" ++ domain /\
  Domain (local ++ lit "@" ++ domain) = domain.
Proof.
  split; [apply Normalize_cases|]. split; [by apply Normalize_stable|].
  destruct Hs as (Hl & _ & Hd & _). by apply Domain_addr_spec.
Qed.

Lemma normalize_mailbox_canonical_witness :
  stable_mailbox (lit "first.last") (lit "example.com") /\
  @Domain basic_tables simple_mail (lit "first.last@example.com") = lit "example.com".
Proof.
  assert (Hs : stable_mailbox (lit "first.last") (lit "example.com")).
  { unfold stable_mailbox, dns_name. split_and!; by vm_compute. }
  split; [exact Hs|].
  apply (@normalize_mailbox_canonical basic_tables simple_mail [] (lit "first.last") (lit "example.com") Hs).
Defined.

(** Normalization is not idempotent on quoted local parts: when the parser
    returns the unquoted local part of a quoted string, as [net/mail] does, and
    rejects that text as a bare addr-spec, the first normalization keeps the
    mailbox and the second discards it. *)
Theorem normalize_quoted_local_lost `{UnicodeTables, NetMail}
  (Hq : parse_address ([chr 34] ++ lit "a b" ++ [chr 34] ++ lit "@evil.example")
        = Some (MailAddress [] (lit "a b@evil.example")))
  (Hbare : parse_address (lit "a b@evil.example") = None) :
  let once := Normalize ([chr 34] ++ lit "a b" ++ [chr 34] ++ lit "@evil.example") in
  once = lit "a b@evil.example" /\ Normalize once = [] /\ Domain once = [].
Proof.
  cbv zeta.
  assert (Ht1 : trimSpace ([chr 34] ++ lit "a b" ++ [chr 34] ++ lit "@evil.example")
    = [chr 34] ++ lit "a b" ++ [chr 34] ++ lit "@evil.example") by by vm_compute.
  assert (Ht2 : trimSpace (lit "a b@evil.example") = lit "a b@evil.example") by by vm_compute.
  assert (Hd : DNSHostname (lit "evil.example") = lit "evil.example")
    by (apply NormalizeDNSName_id; unfold dns_name; split_and!; by vm_compute).
  assert (Hl : toLower (trimSpace (lit "a b")) = lit "a b")
    by (change (trimSpace (lit "a b")) with (lit "a b"); by apply toLower_id).
  assert (H1 : Normalize ([chr 34] ++ lit "a b" ++ [chr 34] ++ lit "@evil.example") = lit "a b@evil.example").
  { assert (Hmb : Mailbox ([chr 34] ++ lit "a b" ++ [chr 34] ++ lit "@evil.example") = Some (lit "a b@evil.example"))
      by (unfold Mailbox; rewrite Ht1; unfold mailbox_parse; rewrite Hq; reflexivity).
    unfold Normalize. rewrite Ht1, Hmb.
    change (cut "@" (lit "a b@evil.example")) with (Some (lit "a b", lit "evil.example")).
    cbv beta iota zeta. rewrite Hl, Hd. by vm_compute. }
  rewrite H1. split; [done|].
  assert (Hm : Mailbox (lit "a b@evil.example") = None)
    by (unfold Mailbox; rewrite Ht2; unfold mailbox_parse; rewrite Hbare; by vm_compute).
  split; [unfold Normalize; rewrite Ht2, Hm; by vm_compute | unfold Domain; by rewrite Hm].
Qed.

Lemma normalize_quoted_local_lost_witness :
  @Normalize basic_tables simple_mail (lit "a b@evil.example") = [].
Proof.
  apply (@normalize_quoted_local_lost basic_tables simple_mail); by vm_compute.
Defined.
