(* ===== verification/Protocol.v ===== *)
(** * Frames, responses and payload parsing (internal/milter/protocol.go, decision.go)

    Frames over a stream of bytes that may end or fail at any point, the
    response frames, and the parsers of command payloads. *)
From S2P Require Import Prelude GoText NetSafety.

(** ** Commands and responses *)

Definition commandAbort : ascii := "A".
Definition commandBody : ascii := "B".
Definition commandConnect : ascii := "C".
Definition commandMacro : ascii := "D".
Definition commandEndBody : ascii := "E".
Definition commandHelo : ascii := "H".
Definition commandHeader : ascii := "L".
Definition commandMail : ascii := "M".
Definition commandEndHeaders : ascii := "N".
Definition commandOptionNegotiation : ascii := "O".
Definition commandQuitMilterConnection : ascii := "Q".
Definition commandRecipient : ascii := "R".
Definition commandData : ascii := "T".
Definition commandUnknown : ascii := "U".
Definition commandQuitSMTPConnection : ascii := "K".

Definition responseAccept : ascii := "a".
Definition responseContinue : ascii := "c".
Definition responseDiscard : ascii := "d".
Definition responseTempfail : ascii := "t".
Definition responseReply : ascii := "y".
Definition responseAddHeader : ascii := "h".
Definition responseChangeHeader : ascii := "m".
Definition responseDeleteRecipient : ascii := "-".
Definition responseProgress : ascii := "p".

Definition minimumProtocolVersion : Z := 2.
Definition supportedProtocolVersion : Z := 6.
Definition optionPayloadBytes : Z := 12.
Definition maxFrameBytes : Z := 1048576.
Definition maxSMTPReplyBytes : nat := 510.
Definition maxMacroPairs : nat := 128.
Definition maxAuthenticationBytes : Z := 1024.

Definition actionAddHeaders : Z := 1.
Definition actionChangeHeaders : Z := 16.
Definition actionDeleteRecipient : Z := 8.
Definition resultHeaderActions : Z := Z.lor actionAddHeaders actionChangeHeaders.

Inductive action := actionAccept | actionReject | actionTempfail.
#[export] Instance action_eq_dec : EqDecision action.
Proof. solve_decision. Defined.

(** ** 32-bit big-endian integers *)

Definition putUint32 (z : Z) : gostring :=
  [chr (Z.shiftr z 24); chr (Z.shiftr z 16); chr (Z.shiftr z 8); chr z].

Definition uint32 (b : gostring) : Z :=
  match b with
  | b0 :: b1 :: b2 :: b3 :: _ => code b0 * 16777216 + code b1 * 65536 + code b2 * 256 + code b3
  | _ => 0
  end.

(** ** Response payloads *)

Definition optionResponse (version actions : Z) : gostring :=
  commandOptionNegotiation :: putUint32 version ++ putUint32 actions ++ putUint32 0.

Definition addHeaderResponse (name value : gostring) : gostring :=
  responseAddHeader :: name ++ [NUL] ++ value ++ [NUL].

Definition deleteHeaderResponse (name : gostring) : gostring :=
  responseChangeHeader :: putUint32 1 ++ name ++ [NUL; NUL].

Definition deleteRecipientResponse (recipient : gostring) : gostring :=
  responseDeleteRecipient :: recipient ++ [NUL].

Definition truncateUTF8 (value : gostring) (maxBytes : nat) : gostring :=
  let value := toValidUTF8 value in
  if bool_decide (length value <= maxBytes)%nat then value
  else take (back_to_start value maxBytes) value.

Definition reply_clean (value : gostring) : gostring :=
  replaceAll (replaceAll (replaceAll value [NUL] []) [CR] (lit " ")) [LF] (lit " ").

Fixpoint trailing_percents (r : gostring) : nat :=
  match r with
  | c :: r' => if ceq c "%" then S (trailing_percents r') else 0
  | [] => 0
  end.

(** The text of a reply: cleaned, percent-escaped, bounded, with no unmatched
    percent left at the end. *)
Definition reply_text (code enhanced text : gostring) : gostring :=
  let reply := reply_clean code ++ lit " " ++ reply_clean enhanced ++ lit " " ++ reply_clean text in
  let reply := replaceAll reply (lit "%") (lit "%%") in
  let reply := truncateUTF8 reply maxSMTPReplyBytes in
  if Nat.odd (trailing_percents (rev reply)) then take (length reply - 1) reply else reply.

Definition replyCode (code enhanced text : gostring) : gostring :=
  responseReply :: reply_text code enhanced text ++ [NUL].

(** internal/milter/decision.go *)
Definition selectActionForMode (proposed : action) (mode : gostring) : action :=
  if negb (beq mode (lit "enforce")) then actionAccept else proposed.

Definition responseForAction (selected : action) (rejectMessage : gostring) : gostring :=
  match selected with
  | actionReject => replyCode (lit "550") (lit "5.7.1") rejectMessage
  | actionTempfail => [responseTempfail]
  | actionAccept => [responseAccept]
  end.

(** ** Payload parsing *)

Definition ends_nul (s : gostring) : bool := ceq (List.last s "x"%char) NUL.

Definition parseHeader (payload : gostring) : option (gostring * gostring) :=
  match cut NUL payload with
  | None => None
  | Some (name, remainder) =>
      if beq name [] || beq remainder [] || negb (ends_nul remainder) then None
      else
        let value := take (length remainder - 1) remainder in
        if containsByte value NUL then None else Some (name, value)
  end.

Definition parseEnvelopeAddress (payload : gostring) : option gostring :=
  match cut NUL payload with
  | Some (address, _) => if beq address [] then None else Some address
  | None => None
  end.

Definition parseConnectHostname (payload : gostring) : option gostring :=
  match cut NUL payload with
  | Some (hostname, _) => Some hostname
  | None => None
  end.

Definition parseSMTPIdentity (payload : gostring) : option gostring :=
  let body := take (length payload - 1) payload in
  if beq payload [] || negb (ends_nul payload) || containsByte body NUL then None else Some body.

Definition parseConnectIP `{NetIPText} (payload : gostring) : option Addr :=
  match cut NUL payload with
  | Some (_, (family :: _ :: _ :: addressBytes) as remainder) =>
      if bool_decide (length remainder < 4)%nat then None
      else if negb (ceq family "4") && negb (ceq family "6") then None
      else
        let body := take (length addressBytes - 1) addressBytes in
        if bool_decide (length addressBytes < 2)%nat || negb (ends_nul addressBytes)
           || containsByte body NUL then None
        else match parse_addr body with
             | None => None
             | Some addr =>
                 if (ceq family "4" && negb (is4 addr) && negb (is4In6 addr))
                    || (ceq family "6" && negb (is6 addr)) then None
                 else Some (CanonicalIP addr)
             end
  | _ => None
  end.

Section Macros.
Context `{UnicodeTables}.

(** One NUL-terminated argument at a time; [fuel] is the number of bytes, and
    every argument consumes at least its terminator. *)
Fixpoint smtputf8_go (fuel : nat) (arguments : gostring) : bool :=
  match fuel, arguments with
  | S fuel', _ :: _ =>
      match cut NUL arguments with
      | None => false
      | Some (argument, remainder) =>
          let name := match cut "=" argument with Some (n, _) => n | None => argument end in
          if equalFold name (lit "SMTPUTF8") then true else smtputf8_go fuel' remainder
      end
  | _, _ => false
  end.

Definition envelopeHasSMTPUTF8 (payload : gostring) : bool :=
  match cut NUL payload with
  | None => false
  | Some (_, arguments) => smtputf8_go (length arguments) arguments
  end.

Record sessionMacroValues := SessionMacroValues {
  AuthenticationIdentity : gostring;
  MTAHostname : gostring;
  ReceiverAddress : gostring;
  AuthenticationFound : bool;
  MTAHostnameFound : bool;
  ReceiverAddressFound : bool;
}.
Definition noMacroValues : sessionMacroValues := SessionMacroValues [] [] [] false false false.

(** The loop over name/value pairs; [left] counts the pairs still allowed.
    [None] is a malformed list.  The two booleans are [daemonAddressFound]
    and [interfaceAddressFound]. *)
Fixpoint macros_go (left : nat) (remainder : gostring) (values : sessionMacroValues)
    (daemonFound ifFound : bool) : option sessionMacroValues :=
  match remainder with
  | [] => Some values
  | _ =>
    match left with
    | O => None
    | S left' =>
      match cut NUL remainder with
      | None => None
      | Some (name, rest) =>
        if beq name [] then None else
        match cut NUL rest with
        | None => None
        | Some (value, rest) =>
          let macroName := trimSet name (lit "{}") in
          let '(SessionMacroValues ident host recv identF hostF recvF) := values in
          if equalFold macroName (lit "auth_authen") then
            if identF || (maxAuthenticationBytes <? go_len value) then None
            else macros_go left' rest (SessionMacroValues value host recv true hostF recvF) daemonFound ifFound
          else if equalFold macroName (lit "j") then
            if hostF || (253 <? go_len value) then None
            else macros_go left' rest (SessionMacroValues ident value recv identF true recvF) daemonFound ifFound
          else if equalFold macroName (lit "daemon_addr") then
            if daemonFound || (64 <? go_len value) then None
            else macros_go left' rest
                   (SessionMacroValues ident host (if ifFound then recv else value) identF hostF true) true ifFound
          else if equalFold macroName (lit "if_addr") then
            if ifFound || (64 <? go_len value) then None
            else macros_go left' rest (SessionMacroValues ident host value identF hostF true) daemonFound true
          else macros_go left' rest values daemonFound ifFound
        end
      end
    end
  end.

(** [None]: the payload is invalid.  Otherwise the command the macros belong
    to and their values. *)
Definition parseSessionMacros (payload : gostring) : option (ascii * sessionMacroValues) :=
  match payload with
  | [] => None
  | target :: remainder =>
      if beq remainder [] then Some (target, noMacroValues)
      else if negb (ends_nul remainder) then None
      else match macros_go maxMacroPairs remainder noMacroValues false false with
           | Some values => Some (target, values)
           | None => None
           end
  end.
End Macros.

(** ** Framed input *)

Inductive io_error := IO_EOF | IO_UnexpectedEOF | IO_Timeout | IO_Other | IO_InvalidLength (n : Z) | IO_ShortWrite.
#[export] Instance io_error_eq_dec : EqDecision io_error.
Proof. solve_decision. Defined.

(** A connection as its reader sees it: runs of bytes, each followed by the
    condition that interrupts the next read; at the end, end of file. *)
Definition Reader := list (gostring * io_error).

(** [io.ReadFull]: the bytes read, the error if fewer than [n] could be read,
    and the rest of the stream. *)
Definition readFull (n : nat) (r : Reader) : gostring * option io_error * Reader :=
  match r with
  | [] => ([], if bool_decide (n = 0%nat) then None else Some IO_EOF, [])
  | (data, err) :: r' =>
      if bool_decide (n <= length data)%nat then (take n data, None, (drop n data, err) :: r')
      else (data, Some (match err with
                        | IO_EOF => if beq data [] then IO_EOF else IO_UnexpectedEOF
                        | e => e end), r')
  end.

Definition readFrameProgress (reader : Reader) : (gostring * Z * option io_error) * Reader :=
  let '(header, err, reader) := readFull 4 reader in
  match err with
  | Some e => (([], go_len header, Some e), reader)
  | None =>
      let length := uint32 header in
      if (length =? 0) || (maxFrameBytes <? length)
      then (([], go_len header, Some (IO_InvalidLength length)), reader)
      else
        let '(frame, err, reader) := readFull (Z.to_nat length) reader in
        ((frame, go_len header + go_len frame, err), reader)
  end.

(** ** Framed output *)

(** An [io.Writer]: how many bytes one call accepted, and whether it failed. *)
Class Writer (W : Type) := { writer_write : W -> gostring -> (nat * bool) * W }.

(** The contract of [io.Writer] and the bytes that reached the peer. *)
Class WriterLaws (W : Type) `{Writer W} := {
  writer_sent : W -> gostring;
  writer_bound : forall w p n e w', writer_write w p = ((n, e), w') -> (n <= length p)%nat;
  writer_append : forall w p n e w', writer_write w p = ((n, e), w') ->
    writer_sent w' = writer_sent w ++ take n p;
}.

Section Writing.
Context {W : Type} `{Writer W}.

(** [fuel] is the number of payload bytes: every round writes at least one. *)
Fixpoint writeAll_go (fuel : nat) (w : W) (payload : gostring) : option io_error * W :=
  match payload with
  | [] => (None, w)
  | _ =>
      match fuel with
      | O => (Some IO_ShortWrite, w)
      | S fuel' =>
          let '((written, failed), w) := writer_write w payload in
          if failed : bool then (Some IO_Other, w)
          else if bool_decide (written = 0%nat) then (Some IO_ShortWrite, w)
          else writeAll_go fuel' w (drop written payload)
      end
  end.
Definition writeAll (w : W) (payload : gostring) : option io_error * W :=
  writeAll_go (length payload) w payload.

Definition writeFrame (w : W) (payload : gostring) : option io_error * W :=
  match writeAll w (putUint32 (go_len payload)) with
  | (None, w) => writeAll w payload
  | (Some e, w) => (Some e, w)
  end.
End Writing.

(** The bytes of one frame on the wire. *)
Definition frame_bytes (payload : gostring) : gostring := putUint32 (go_len payload) ++ payload.

(** ** Lemmas *)

Lemma uint32_put z rest : 0 <= z < 2 ^ 32 -> uint32 (putUint32 z ++ rest) = z.
Proof.
  intros Hz. unfold putUint32, uint32. cbn [app].
  assert (Hc : forall x, code (chr x) = x mod 256).
  { intros x. unfold code, chr. rewrite N_ascii_embedding; [|].
    - rewrite Z2N.id; [done|]. pose proof (Z.mod_pos_bound x 256). lia.
    - pose proof (Z.mod_pos_bound x 256). lia. }
  rewrite !Hc, !Z.shiftr_div_pow2 by lia. change (2 ^ 24) with 16777216.
  change (2 ^ 16) with 65536. change (2 ^ 8) with 256. change (2 ^ 32) with 4294967296 in Hz.
  rewrite (Z.mod_small (z / 16777216)) by (split; [apply Z.div_pos; lia|apply Z.div_lt_upper_bound; lia]).
  replace (z / 16777216) with (z / 256 / 256 / 256) by (rewrite !Z.div_div by lia; done).
  replace (z / 65536) with (z / 256 / 256) by (rewrite !Z.div_div by lia; done).
  pose proof (Z.div_mod z 256). pose proof (Z.div_mod (z / 256) 256). pose proof (Z.div_mod (z / 256 / 256) 256). lia.
Qed.

Lemma putUint32_length z : length (putUint32 z) = 4%nat.
Proof. done. Qed.

Lemma readFull_ok n data rest err r : length data = n ->
  readFull n ((data ++ rest, err) :: r) = (data, None, (rest, err) :: r).
Proof.
  intros <-. unfold readFull. rewrite bool_decide_true by (rewrite length_app; lia).
  by rewrite take_app_length, drop_app_length.
Qed.

Section WritingFacts.
Context {W : Type} `{WriterLaws W}.

Lemma writeAll_go_spec fuel (w : W) payload err w' : (length payload <= fuel)%nat ->
  writeAll_go fuel w payload = (err, w') ->
  exists sent, writer_sent w' = writer_sent w ++ sent /\ sent `prefix_of` payload /\
    (err = None -> sent = payload).
Proof.
  revert w payload. induction fuel as [|fuel IH]; intros w payload Hf Hw.
  - destruct payload; [|simpl in *; lia]. simpl in Hw. simplify_eq.
    exists []. rewrite app_nil_r. by split_and!; [|apply prefix_nil|].
  - destruct payload as [|c payload]; [simpl in Hw; simplify_eq; exists []; rewrite app_nil_r; by split_and!; [|apply prefix_nil|]|].
    cbn [writeAll_go] in Hw. destruct (writer_write w (c :: payload)) as [[n failed] w1] eqn:E.
    pose proof (writer_bound _ _ _ _ _ E) as Hn. pose proof (writer_append _ _ _ _ _ E) as Ha.
    destruct failed; [|destruct (bool_decide (n = 0%nat)) eqn:Hz].
    + simplify_eq. exists (take n (c :: payload)). split_and!; [done|apply prefix_take|done].
    + simplify_eq. exists (take n (c :: payload)). split_and!; [done|apply prefix_take|done].
    + destruct (IH w1 (drop n (c :: payload))) as (sent & Hs & Hp & He); [|done|].
      { apply bool_decide_eq_false in Hz. rewrite length_drop. simpl in *. lia. }
      exists (take n (c :: payload) ++ sent). rewrite Hs, Ha, <- app_assoc. split_and!; [done| |].
      * rewrite <- (take_drop n (c :: payload)) at 2. by apply prefix_app.
      * intros Hnone. rewrite He by done. apply take_drop.
Qed.

Lemma writeAll_spec (w : W) payload err w' : writeAll w payload = (err, w') ->
  exists sent, writer_sent w' = writer_sent w ++ sent /\ sent `prefix_of` payload /\
    (err = None -> sent = payload).
Proof. intros Hw. by eapply writeAll_go_spec. Qed.

Lemma writeFrame_spec (w : W) payload err w' : writeFrame w payload = (err, w') ->
  exists sent, writer_sent w' = writer_sent w ++ sent /\ sent `prefix_of` frame_bytes payload /\
    (err = None -> sent = frame_bytes payload).
Proof.
  unfold writeFrame, frame_bytes. destruct (writeAll w _) as [[e|] w1] eqn:E1; intros Hw.
  - simplify_eq. apply writeAll_spec in E1 as (sent & Hs & Hp & _).
    exists sent. split_and!; [done|by apply prefix_app_r|done].
  - apply writeAll_spec in E1 as (s1 & Hs1 & _ & He1). apply writeAll_spec in Hw as (s2 & Hs2 & Hp2 & He2).
    rewrite He1 in Hs1 by done. exists (putUint32 (go_len payload) ++ s2).
    rewrite Hs2, Hs1, <- app_assoc. split_and!; [done|by apply prefix_app|].
    intros ->. by rewrite He2.
Qed.
End WritingFacts.

(** ** Truncation at rune boundaries *)

Lemma truncateUTF8_chunks v n : exists l, Forall wf_chunk l /\ truncateUTF8 v n = flatten_runes l /\
  l `prefix_of` repaired false (rune_chunks v).
Proof.
  unfold truncateUTF8. cbv zeta.
  assert (Ht : toValidUTF8 v = flatten_runes (repaired false (rune_chunks v))) by apply to_valid_repaired.
  assert (Hw : Forall wf_chunk (repaired false (rune_chunks v))) by apply repaired_wf, chunks_go_wf.
  set (l := repaired false (rune_chunks v)) in *. rewrite Ht. clearbody l. clear Ht.
  case_bool_decide as Hl; [by exists l|].
  destruct l as [|k l]; [simpl in Hl; lia|].
  destruct (take_cut_point (k :: l) (back_to_start (flatten_runes (k :: l)) n)) as (l' & Hl' & Hp); [done| | |].
  - pose proof (back_to_start_le (flatten_runes (k :: l)) n). lia.
  - apply back_to_start_cut; [| |lia].
    + apply Forall_cons in Hw as [(_ & Hb & _) _]. rewrite flatten_cons. by destruct (rc_bytes k).
    + apply Forall_cons in Hw as [(_ & Hb & _ & _ & Hs) _]. rewrite flatten_cons.
      destruct (rc_bytes k); [done|]. by destruct Hs.
  - exists l'. split_and!; [|done|done].
    destruct Hp as [l'' Hp]. rewrite Hp in Hw. by apply Forall_app in Hw as [? _].
Qed.

Lemma truncateUTF8_length v n : (length (truncateUTF8 v n) <= n)%nat.
Proof.
  unfold truncateUTF8. cbv zeta. case_bool_decide; [done|]. rewrite length_take.
  pose proof (back_to_start_le (toValidUTF8 v) n). lia.
Qed.

Lemma truncateUTF8_valid v n : validString (truncateUTF8 v n) = true.
Proof. destruct (truncateUTF8_chunks v n) as (l & Hl & -> & _). by apply validString_flatten. Qed.

(** ** Percent escaping *)

(** A reader of libmilter text: a percent must be followed by a percent.  The
    state is whether an escape is open. *)
Fixpoint pct_run (open : bool) (s : gostring) : option bool :=
  match s with
  | [] => Some open
  | c :: s' => if ceq c "%" then pct_run (negb open) s'
               else if open then None else pct_run false s'
  end.
Definition pct_escaped (s : gostring) : Prop := pct_run false s = Some false.

Lemma pct_run_app b s t : pct_run b (s ++ t) = pct_run b s ≫= λ b', pct_run b' t.
Proof. revert b; induction s as [|c s IH]; intros b; [done|]. simpl. repeat case_match; simpl; auto. Qed.

Lemma pct_escape_all s b : pct_run false (replaceAll s (lit "%") (lit "%%") ++ b) = pct_run false b.
Proof.
  change (lit "%") with ["%"%char]. rewrite replace_char.
  induction s as [|c s IH]; [done|]. cbn [fmap list_fmap concat].
  rewrite <- app_assoc, pct_run_app. destruct (ceq "%" c) eqn:E; [exact IH|].
  cbn. rewrite (proj2 (ceq_false c "%")); [exact IH|]. apply ceq_false in E. congruence.
Qed.

(** Bytes of a chunk: one ASCII byte, or only bytes above ASCII. *)
Lemma chunk_shape s : Forall (λ k, (exists c, rc_bytes k = [c] /\ rc_valid k = true) \/
                                   Forall (λ c, 128 <= code c) (rc_bytes k)) (rune_chunks s).
Proof.
  induction s as [s IH] using list_length_ind.
  destruct s as [|c s]; [constructor|]. rewrite rune_chunks_cons.
  pose proof (decode_rune_width (c :: s) ltac:(done)) as [Hw Hw'].
  destruct (decode_rune (c :: s)) as [r w] eqn:E. cbn [snd] in *. constructor.
  2:{ apply IH. rewrite length_drop. simpl in *. lia. }
  cbn [rc_bytes rc_valid]. unfold decode_rune, in_second, is_cont, in_range, second_range in E.
  pose proof (code_range c).
  repeat (case_match; simplify_eq); rewrite ?andb_true_iff, ?Z.leb_le, ?Z.ltb_lt, ?Z.ltb_ge in *;
    try solve [right; cbn [take]; repeat (constructor; [lia|]); constructor].
  left. exists c. split; [done|]. unfold runeError. by rewrite (proj2 (Z.eqb_neq _ _)) by lia.
Qed.

Lemma pct_run_high b s : Forall (λ c, 128 <= code c) s -> s <> [] ->
  pct_run b s = if b then None else Some false.
Proof.
  intros Hs. revert b. induction Hs as [|c s Hc Hs IH]; intros b Hne; [done|]. simpl.
  assert (ceq c "%" = false) as ->.
  { apply ceq_false. intros ->. vm_compute in Hc. by apply Hc. }
  destruct b; [done|]. destruct s; [done|]. by apply IH.
Qed.

Lemma repaired_pct b open l res :
  Forall (λ k, (exists c, rc_bytes k = [c] /\ rc_valid k = true) \/ Forall (λ c, 128 <= code c) (rc_bytes k)) l ->
  Forall (λ k, rc_bytes k <> []) l -> (b = true -> open = false) ->
  pct_run open (flatten_runes l) = Some res -> pct_run open (flatten_runes (repaired b l)) = Some res.
Proof.
  intros Hl Hne. revert b open. induction Hl as [|k l Hk Hl IH]; intros b open Hb Hr; [done|].
  apply Forall_cons in Hne as [Hk0 Hne]. rewrite flatten_cons, pct_run_app in Hr.
  cbn [repaired]. destruct (rc_valid k) eqn:Ev.
  - rewrite flatten_cons, pct_run_app. destruct (pct_run open (rc_bytes k)) as [open'|]; [|done].
    simpl in *. by apply IH.
  - destruct Hk as [(c & _ & Hv)|Hk]; [congruence|].
    rewrite (pct_run_high open _ Hk Hk0) in Hr. destruct open; [done|]. simpl in Hr.
    destruct b; [by apply IH|]. rewrite flatten_cons, pct_run_app.
    rewrite (pct_run_high false); [|by repeat constructor|done]. simpl. by apply IH.
Qed.

Lemma rune_chunks_bytes_nonempty s : Forall (λ k, rc_bytes k <> []) (rune_chunks s).
Proof.
  induction s as [s IH] using list_length_ind.
  destruct s as [|c s]; [constructor|]. rewrite rune_chunks_cons.
  pose proof (decode_rune_width (c :: s) ltac:(done)) as [Hw Hw'].
  destruct (decode_rune (c :: s)) as [r w] eqn:E. cbn [snd] in *. constructor.
  - cbn. destruct w; [lia|done].
  - apply IH. rewrite length_drop. simpl in *. lia.
Qed.

Lemma toValidUTF8_pct s res : pct_run false s = Some res -> pct_run false (toValidUTF8 s) = Some res.
Proof.
  intros Hs. unfold toValidUTF8. rewrite to_valid_repaired. apply repaired_pct; [apply chunk_shape| |done|].
  - apply rune_chunks_bytes_nonempty.
  - by rewrite rune_chunks_flatten.
Qed.

Lemma pct_run_prefix s p res : p `prefix_of` s -> pct_run false s = Some res -> exists b, pct_run false p = Some b.
Proof. intros [t ->]. rewrite pct_run_app. destruct (pct_run false p); [eauto|done]. Qed.

(** An open escape at the end means an odd run of percents at the end. *)
Lemma pct_run_trailing s b : pct_run false s = Some b -> b = Nat.odd (trailing_percents (rev s)).
Proof.
  revert b. induction s as [|c s IH] using rev_ind; intros b Hs; [by simplify_eq/=|].
  rewrite pct_run_app in Hs. destruct (pct_run false s) as [b0|] eqn:E; [|done].
  specialize (IH b0 eq_refl). simpl in Hs. rewrite rev_app_distr. cbn [rev app trailing_percents].
  destruct (ceq c "%").
  - injection Hs as <-. by rewrite Nat.odd_succ, <- Nat.negb_odd, <- IH.
  - destruct b0; [done|]. by injection Hs as <-.
Qed.

Lemma trailing_odd_last s : Nat.odd (trailing_percents (rev s)) = true -> exists t, s = t ++ ["%"%char].
Proof.
  destruct s as [|c s _] using rev_ind; [done|]. rewrite rev_app_distr. cbn.
  destruct (ceq c "%") eqn:E; [|done]. apply ceq_true in E as ->. eauto.
Qed.

Lemma drop_last_percent s : pct_run false s = Some true -> exists t,
  s = t ++ ["%"%char] /\ pct_run false t = Some false.
Proof.
  intros Hs. pose proof (pct_run_trailing _ _ Hs) as Ht. destruct (trailing_odd_last s) as [t ->]; [done|].
  exists t. split; [done|]. rewrite pct_run_app in Hs. destruct (pct_run false t) as [[]|]; done.
Qed.

(** ** Bytes of a reply *)

Lemma elem_truncateUTF8 c s n : c ∈ truncateUTF8 s n -> c ∈ s \/ c ∈ replacement.
Proof.
  unfold truncateUTF8. cbv zeta. case_bool_decide.
  - apply elem_toValidUTF8.
  - intros Hc. apply elem_toValidUTF8.
    rewrite <- (take_drop (back_to_start (toValidUTF8 s) n) (toValidUTF8 s)). apply elem_of_app. by left.
Qed.

Definition line_bytes : gostring := [NUL; CR; LF].

Lemma reply_clean_lines c v : c ∈ line_bytes -> c ∉ reply_clean v.
Proof.
  intros Hl Hc. unfold reply_clean in Hc.
  assert (c <> " "%char) as Hsp by (intros ->; by vm_compute in Hl; set_solver).
  apply elem_replace_char in Hc as [[Hc H1]|Hc]; [|set_solver].
  apply elem_replace_char in Hc as [[Hc H2]|Hc]; [|set_solver].
  apply elem_replace_char in Hc as [[Hc H3]|Hc]; [|set_solver].
  unfold line_bytes in Hl. set_solver.
Qed.

Lemma take_pred_app (s : gostring) c : take (length (s ++ [c]) - 1) (s ++ [c]) = s.
Proof. rewrite length_app. simpl. replace (length s + 1 - 1)%nat with (length s) by lia. apply take_app_length. Qed.

(** The state of [reply_text] before its last step. *)
Lemma reply_text_cases code enhanced text : exists base b,
  (length base <= 510)%nat /\ pct_run false base = Some b /\ (forall c, c ∈ line_bytes -> c ∉ base) /\
  (if b then base = reply_text code enhanced text ++ ["%"%char] else base = reply_text code enhanced text).
Proof.
  unfold reply_text. set (raw := reply_clean code ++ _). cbv zeta.
  set (esc := replaceAll raw (lit "%") (lit "%%")).
  assert (He : pct_run false esc = Some false)
    by (unfold esc; rewrite <- (app_nil_r (replaceAll _ _ _)); apply pct_escape_all).
  assert (Hb : exists b, pct_run false (truncateUTF8 esc maxSMTPReplyBytes) = Some b).
  { destruct (truncateUTF8_chunks esc maxSMTPReplyBytes) as (l & _ & -> & [l' Hp]).
    apply toValidUTF8_pct in He. unfold toValidUTF8 in He.
    rewrite to_valid_repaired, Hp in He. unfold flatten_runes in He.
    rewrite fmap_app, concat_app, pct_run_app in He.
    change (concat (rc_bytes <$> l)) with (flatten_runes l) in He.
    destruct (pct_run false (flatten_runes l)); [eauto|done]. }
  destruct Hb as [b Hb]. exists (truncateUTF8 esc maxSMTPReplyBytes), b. split_and!.
  - apply truncateUTF8_length.
  - done.
  - intros c Hl Hc. apply elem_truncateUTF8 in Hc as [Hc|Hc].
    2:{ unfold line_bytes, replacement in *. vm_compute in Hl, Hc. set_solver. }
    unfold esc in Hc. change (lit "%") with ["%"%char] in Hc.
    assert (c ∉ lit "%%") as H1 by (unfold line_bytes in Hl; intros H1; vm_compute in Hl, H1; set_solver).
    assert (c ∉ lit " ") as H2 by (unfold line_bytes in Hl; intros H2; vm_compute in Hl, H2; set_solver).
    apply elem_replace_char in Hc as [[Hc _]|?]; [|done].
    unfold raw in Hc. rewrite !elem_of_app in Hc.
    pose proof (reply_clean_lines c code Hl). pose proof (reply_clean_lines c enhanced Hl).
    pose proof (reply_clean_lines c text Hl). tauto.
  - rewrite <- (pct_run_trailing _ _ Hb). destruct b; [|done].
    destruct (drop_last_percent _ Hb) as (t & Ht & _). rewrite Ht at 1 2. by rewrite Ht, take_pred_app.
Qed.

(** ** Macro lists *)

Inductive macro_kind := MacroAuth | MacroHost | MacroDaemon | MacroIf.
#[export] Instance macro_kind_eq_dec : EqDecision macro_kind.
Proof. solve_decision. Defined.

Section MacroFacts.
Context `{UnicodeTables}.

Definition classify (name : gostring) : option macro_kind :=
  let n := trimSet name (lit "{}") in
  if equalFold n (lit "auth_authen") then Some MacroAuth
  else if equalFold n (lit "j") then Some MacroHost
  else if equalFold n (lit "daemon_addr") then Some MacroDaemon
  else if equalFold n (lit "if_addr") then Some MacroIf else None.

(** The wire form of a list of name/value pairs. *)
Definition encode_pairs (ps : list (gostring * gostring)) : gostring :=
  concat ((λ '(n, v), n ++ NUL :: v ++ [NUL]) <$> ps).

(** The value given for a kind of macro. *)
Fixpoint macro_value (k : macro_kind) (ps : list (gostring * gostring)) : option gostring :=
  match ps with
  | [] => None
  | (n, v) :: ps' => if bool_decide (classify n = Some k) then Some v else macro_value k ps'
  end.

Definition macro_count (k : macro_kind) (ps : list (gostring * gostring)) : nat :=
  length (filter (λ p, classify p.1 = Some k) ps).

Definition pick (o : option gostring) (d : gostring) : gostring := from_option id d o.
Definition found (o : option gostring) (b : bool) : bool := b || bool_decide (is_Some o).

(** What the loop computes, from any intermediate state. *)
Definition macros_result (ps : list (gostring * gostring)) (values : sessionMacroValues) (ifFound : bool)
    : sessionMacroValues :=
  let '(SessionMacroValues ident host recv identF hostF recvF) := values in
  SessionMacroValues
    (pick (macro_value MacroAuth ps) ident) (pick (macro_value MacroHost ps) host)
    (pick (macro_value MacroIf ps) (if ifFound then recv else pick (macro_value MacroDaemon ps) recv))
    (found (macro_value MacroAuth ps) identF) (found (macro_value MacroHost ps) hostF)
    (found (macro_value MacroIf ps) (found (macro_value MacroDaemon ps) recvF)).

Definition kind_ok (k : macro_kind) (bound : Z) (seen : bool) (ps : list (gostring * gostring)) : Prop :=
  (macro_count k ps + (if seen then 1 else 0) <= 1)%nat /\
  (forall n v, (n, v) ∈ ps -> classify n = Some k -> go_len v <= bound).

Lemma kind_ok_skip k b seen n v ps : classify n <> Some k -> kind_ok k b seen ps -> kind_ok k b seen ((n, v) :: ps).
Proof.
  intros Hn [Hc Hb]. split.
  - unfold macro_count in *. rewrite filter_cons_False by done. done.
  - intros n' v' [Heq|Hin]%elem_of_cons Hk; [simplify_eq; done|eauto].
Qed.

Lemma kind_ok_hit k b n v ps : classify n = Some k -> go_len v <= b -> kind_ok k b true ps -> kind_ok k b false ((n, v) :: ps).
Proof.
  intros Hn Hv [Hc Hb]. split.
  - unfold macro_count in *. rewrite filter_cons_True by done. simpl. lia.
  - intros n' v' [Heq|Hin]%elem_of_cons Hk; [by simplify_eq|eauto].
Qed.

Lemma kind_ok_none k b ps : kind_ok k b true ps -> macro_value k ps = None.
Proof.
  intros [Hc _]. induction ps as [|[n v] ps IH]; [done|]. simpl. unfold macro_count in *.
  rewrite filter_cons in Hc. destruct (decide (classify (n, v).1 = Some k)); simpl in *; [lia|].
  rewrite bool_decide_false by done. apply IH. lia.
Qed.

Lemma kind_ok_value k b seen ps v : kind_ok k b seen ps -> macro_value k ps = Some v -> go_len v <= b.
Proof.
  intros [_ Hb] E. induction ps as [|[n w] ps IH]; [done|]. cbn [macro_value] in E.
  destruct (bool_decide (classify n = Some k)) eqn:Ek.
  - simplify_eq. apply bool_decide_eq_true in Ek. apply (Hb n v); [by left|done].
  - apply IH; [|done]. intros n' v' Hin. apply (Hb n' v'). by right.
Qed.

Lemma kind_ok_count k b seen ps : kind_ok k b seen ps -> (macro_count k ps <= 1)%nat.
Proof. intros [Hc _]. lia. Qed.

Lemma kind_ok_nil k b seen : kind_ok k b seen [].
Proof. split; [destruct seen; simpl; lia|]. intros n v Hin. by apply elem_of_nil in Hin. Qed.

Lemma macros_go_spec left rem values dF iF values' :
  macros_go left rem values dF iF = Some values' ->
  exists ps, rem = encode_pairs ps /\ (length ps <= left)%nat /\
    Forall (λ p, p.1 <> []) ps /\ values' = macros_result ps values iF /\
    kind_ok MacroAuth maxAuthenticationBytes (AuthenticationFound values) ps /\
    kind_ok MacroHost 253 (MTAHostnameFound values) ps /\
    kind_ok MacroDaemon 64 dF ps /\ kind_ok MacroIf 64 iF ps.
Proof.
  revert rem values dF iF. induction left as [|left IH]; intros rem values dF iF Hm.
  { destruct rem; [|done]. simplify_eq/=. exists []. destruct values' as [a h r af hf rf].
    split_and!; try solve [apply kind_ok_nil | done | simpl; lia]. by destruct iF, af, hf, rf. }
  destruct rem as [|c rem]; cbn [macros_go] in Hm.
  { simplify_eq. exists []. destruct values' as [a h r af hf rf].
    split_and!; try solve [apply kind_ok_nil | done | simpl; lia]. by destruct iF, af, hf, rf. }
  destruct (cut NUL (c :: rem)) as [[name rest]|] eqn:E1; [|done].
  destruct (beq name []) eqn:En; [done|]. apply beq_nil_false in En.
  destruct (cut NUL rest) as [[value rest']|] eqn:E2; [|done].
  apply cut_Some in E1 as [E1 _]. apply cut_Some in E2 as [-> _]. rewrite E1. clear E1.
  destruct values as [ident host recv identF hostF recvF].
  assert (Henc : forall ps, name ++ NUL :: value ++ NUL :: encode_pairs ps = encode_pairs ((name, value) :: ps))
    by (intros ps; unfold encode_pairs; cbn; rewrite <- app_assoc; cbn; by rewrite <- app_assoc).
  pose proof (eq_refl (classify name)) as Hcl. unfold classify in Hcl at 2.
  set (n := trimSet name (lit "{}")) in *.
  repeat (match type of Hm with context [if ?b then _ else _] => destruct b eqn:? end;
          rewrite ?orb_false_iff, ?Z.ltb_ge in *; destruct_and?; simplify_eq; try done);
    apply IH in Hm as (ps & -> & Hlen & Hne & -> & HA & HH & HD & HI); cbn [AuthenticationFound MTAHostnameFound] in *;
    exists ((name, value) :: ps); rewrite Henc; (split_and!; [done|simpl; lia|by constructor| |..]);
    try (by eapply kind_ok_hit); try (apply kind_ok_skip; [congruence|done]);
    unfold macros_result; cbn [macro_value]; rewrite ?Hcl;
    repeat first [rewrite bool_decide_true by done | rewrite bool_decide_false by congruence];
    repeat match goal with
    | H : kind_ok ?k _ true ps |- _ => rewrite (kind_ok_none _ _ _ H); clear H
    end; unfold pick, found; cbn; rewrite ?orb_true_r; try done.
Qed.
End MacroFacts.

(** ** A writer for evaluation: accepts at most [cw_max] bytes per call *)

Record chunk_writer := ChunkWriter { cw_out : gostring; cw_max : nat }.
#[export] Instance chunk_writer_writer : Writer chunk_writer :=
  {| writer_write w p := ((length (take (cw_max w) p), false),
                          ChunkWriter (cw_out w ++ take (cw_max w) p) (cw_max w)) |}.
#[export] Instance chunk_writer_laws : WriterLaws chunk_writer.
Proof.
  refine {| writer_sent := cw_out |}.
  - intros w p n e w' [= <- _ _]. rewrite length_take. lia.
  - intros w p n e w' [= <- _ <-]. cbn. f_equal. rewrite length_take.
    destruct (decide (cw_max w <= length p)%nat); [by rewrite Nat.min_l by lia|].
    rewrite Nat.min_r by lia. by rewrite !take_ge by lia.
Qed.

(** ** Properties *)

(** C32: A frame written without error is read back: whatever bytes [writeFrame]
    delivered, [readFrameProgress] consumes exactly them and returns the
    payload, leaving the following bytes in place. *)
Theorem frame_round_trip {W} `{WriterLaws W} (w w' : W) (payload : gostring)
  (Hlen : 1 <= go_len payload <= maxFrameBytes) (Hw : writeFrame w payload = (None, w')) :
  exists bytes, writer_sent w' = writer_sent w ++ bytes /\
    forall rest err r, readFrameProgress ((bytes ++ rest, err) :: r)
      = ((payload, 4 + go_len payload, None), (rest, err) :: r).
Proof.
  apply writeFrame_spec in Hw as (sent & Hs & _ & He). exists sent. split; [done|].
  intros rest err r. rewrite He by done. unfold frame_bytes, readFrameProgress, maxFrameBytes in *.
  rewrite <- app_assoc, readFull_ok by done.
  rewrite <- (app_nil_r (putUint32 _)), uint32_put by lia.
  rewrite (proj2 (Z.eqb_neq _ _)), (proj2 (Z.ltb_ge _ _)) by lia. cbn [orb].
  rewrite readFull_ok by (unfold go_len; lia). done.
Qed.

Lemma frame_round_trip_witness :
  exists bytes, forall rest err r, readFrameProgress ((bytes ++ rest, err) :: r)
      = ((lit "Mtest", 4 + 5, None), (rest, err) :: r).
Proof.
  destruct (frame_round_trip (ChunkWriter [] 3) (ChunkWriter (frame_bytes (lit "Mtest")) 3) (lit "Mtest"))
    as (bytes & _ & Hb); [by vm_compute|by vm_compute|]. exists bytes. exact Hb.
Defined.

(** The peer cannot force an oversized frame: a frame is returned without error
    only if it has between one and [maxFrameBytes] bytes, and in every case at
    most four header bytes and [maxFrameBytes] body bytes are consumed. *)
Theorem read_frame_bounds (r r' : Reader) (frame : gostring) (n : Z) (err : option io_error)
  (Hr : readFrameProgress r = ((frame, n, err), r')) :
  0 <= n <= 4 + maxFrameBytes /\ go_len frame <= maxFrameBytes /\
  (err = None -> 1 <= go_len frame /\ n = 4 + go_len frame).
Proof.
  unfold readFrameProgress in Hr.
  assert (Hfull : forall k s got e s', readFull k s = (got, e, s') ->
            (length got <= k)%nat /\ (e = None -> length got = k)).
  { clear. intros k s got e s'. unfold readFull. destruct s as [|[d er] s].
    - case_bool_decide; intros; simplify_eq/=; split; [lia|done|lia|done].
    - case_bool_decide; intros; simplify_eq/=; [rewrite length_take; lia|split; [lia|done]]. }
  destruct (readFull 4 r) as [[header e1] r1] eqn:E1. apply Hfull in E1 as [H1 H1'].
  unfold go_len in *. destruct e1; [simplify_eq; simpl; unfold maxFrameBytes; split_and!; [lia|lia|lia|done]|].
  destruct (_ || _) eqn:Eb; [simplify_eq; simpl; unfold maxFrameBytes; split_and!; [lia|lia|lia|done]|].
  rewrite orb_false_iff, Z.eqb_neq, Z.ltb_ge in Eb.
  destruct (readFull (Z.to_nat _) r1) as [[body e2] r2] eqn:E2. apply Hfull in E2 as [H2 H2'].
  simplify_eq. assert (0 <= uint32 header).
  { destruct header as [|a [|b [|c [|d ?]]]]; cbn [uint32]; try lia.
    pose proof (code_range a). pose proof (code_range b). pose proof (code_range c). pose proof (code_range d). lia. }
  unfold maxFrameBytes in *. split_and!; [lia|lia|lia|]. intros He. specialize (H2' He). specialize (H1' eq_refl). lia.
Qed.

Lemma read_frame_bounds_witness :
  readFrameProgress [([chr 0; chr 0; chr 0; chr 1; "Q"%char], IO_EOF)] = ((lit "Q", 5, None), [([], IO_EOF)]) /\
  go_len (lit "Q") <= maxFrameBytes.
Proof.
  split; [by vm_compute|].
  apply (read_frame_bounds [([chr 0; chr 0; chr 0; chr 1; "Q"%char], IO_EOF)] [([], IO_EOF)] (lit "Q") 5 None).
  by vm_compute.
Defined.

(** SMTP replies are safe to hand to the MTA whatever text they carry: at most
    510 bytes, one line with no NUL, and every percent sign is a complete
    libmilter escape pair. *)
Theorem reply_code_safe (code enhanced text : gostring) :
  exists body, replyCode code enhanced text = responseReply :: body ++ [NUL] /\
    (length body <= 510)%nat /\ pct_escaped body /\ (forall c, c ∈ line_bytes -> c ∉ body).
Proof.
  exists (reply_text code enhanced text). split; [done|].
  destruct (reply_text_cases code enhanced text) as (base & b & Hlen & Hrun & Hl & Hb).
  destruct b; subst base; [|done]. rewrite length_app in Hlen. split_and!.
  - lia.
  - destruct (drop_last_percent _ Hrun) as (t & Ht & Hp). apply app_inj_tail in Ht as [-> _]. done.
  - intros c Hc. specialize (Hl c Hc). set_solver.
Qed.

(** A header command decodes to what was sent: names and values without NUL
    survive the wire form, and nothing else is accepted. *)
Theorem parse_header_round_trip (payload name value : gostring) :
  parseHeader payload = Some (name, value) <->
  payload = name ++ [NUL] ++ value ++ [NUL] /\ name <> [] /\ NUL ∉ name /\ NUL ∉ value.
Proof.
  assert (Hc : forall s, containsByte s NUL = false <-> NUL ∉ s).
  { intros s. unfold containsByte. rewrite <- not_true_iff_false, existsb_exists. split.
    - intros Hn Hin. apply Hn. exists NUL. split; [by apply list_elem_of_In|apply ceq_refl].
    - intros Hn (c & Hin & Hcc). apply ceq_true in Hcc as <-. apply Hn. by apply list_elem_of_In. }
  unfold parseHeader, ends_nul. split.
  - destruct (cut NUL payload) as [[n rem]|] eqn:E; [|done]. apply cut_Some in E as [-> Hn].
    destruct (_ || _) eqn:Eb; [done|]. rewrite !orb_false_iff, negb_false_iff, ceq_true in Eb.
    destruct Eb as [[Hne Hrem] Hlast]. apply beq_nil_false in Hne, Hrem.
    destruct rem as [|c rem _] using rev_ind; [done|]. rewrite List.last_last in Hlast. subst c.
    rewrite take_pred_app. destruct (containsByte rem NUL) eqn:Ev; [done|]. apply Hc in Ev.
    intros [= <- <-]. done.
  - intros (-> & Hne & Hn & Hv). cbn [app]. rewrite cut_app by done.
    rewrite List.last_last, take_pred_app, ceq_refl, (proj2 (Hc value)) by done.
    destruct name; [done|]. unfold beq. rewrite !bool_decide_false; [done|by destruct value|done].
Qed.

(** Macro lists decode to what the MTA sent: an accepted list is the wire form of
    at most 128 named pairs in which each recognized macro occurs at most once
    and within its size bound; the identity is the auth_authen value, and the
    receiver address is if_addr when present, else daemon_addr, in any order. *)
Theorem session_macros_decode `{UnicodeTables} (target : ascii) (rem : gostring) (values : sessionMacroValues)
  (Hp : parseSessionMacros (target :: rem) = Some (target, values)) :
  exists ps, rem = encode_pairs ps /\ (length ps <= 128)%nat /\
    (forall k, (macro_count k ps <= 1)%nat) /\
    AuthenticationIdentity values = pick (macro_value MacroAuth ps) [] /\
    go_len (AuthenticationIdentity values) <= 1024 /\
    AuthenticationFound values = bool_decide (is_Some (macro_value MacroAuth ps)) /\
    ReceiverAddress values = pick (macro_value MacroIf ps) (pick (macro_value MacroDaemon ps) []).
Proof.
  assert (Hm : macros_go maxMacroPairs rem noMacroValues false false = Some values).
  { unfold parseSessionMacros in Hp. destruct (beq rem []) eqn:E; [apply beq_true in E as ->; by simplify_eq|].
    destruct (negb _); [done|]. by destruct (macros_go _ _ _ _ _); simplify_eq. }
  apply macros_go_spec in Hm as (ps & -> & Hlen & _ & -> & HA & HH & HD & HI).
  exists ps. split_and!; try done.
  - intros k. destruct k; by eapply kind_ok_count.
  - change (go_len (pick (macro_value MacroAuth ps) []) <= 1024).
    destruct (macro_value MacroAuth ps) as [v|] eqn:E; [|by vm_compute].
    exact (kind_ok_value _ _ _ _ _ HA E).
Qed.

Lemma session_macros_decode_witness :
  exists ps, lit "{auth_authen}" ++ [NUL] ++ lit "alice" ++ [NUL] = encode_pairs ps /\ (length ps <= 128)%nat.
Proof.
  destruct (@session_macros_decode basic_tables "M" (lit "{auth_authen}" ++ [NUL] ++ lit "alice" ++ [NUL])
    (SessionMacroValues (lit "alice") [] [] true false false)) as (ps & He & Hl & _); [by vm_compute|].
  exists ps. exact (conj He Hl).
Defined.
