(* ===== verification/Message.v ===== *)
(** * Bounded message state (internal/message/message.go, archive.go)

    [Message] is the state one SMTP transaction accumulates: retained header
    values, counters that keep counting when a value is dropped, the body
    prefix that fits the byte budget, and the header text kept for the
    rejected-mail archive.  Every operation that changes it is a definition:
    [New], [AddHeader], [addArchiveHeader], [AddBody]; the readers and
    [ArchiveBytes] follow.  RFC 2047 word decoding is the class
    [HeaderDecoder].  MIME and HTML extraction and prompt construction are not
    part of this file. *)
From S2P Require Import Prelude GoText.

(** [mime.WordDecoder.DecodeHeader] with the charset table of the fork:
    [None] is its error. *)
Class HeaderDecoder := { word_decode : gostring -> option gostring }.

Record Message := MkMessage {
  headers : gmap gostring (list gostring);
  decodedHeaders : gmap gostring (list gostring);
  headerOccurrences : gmap gostring Z;
  analysisTime : Z;
  body : gostring;
  Truncated : bool;
  BodyTruncated : bool;
  MIMEHeadersTruncated : bool;
  SavedArchiveTruncated : bool;
  maxBytes : Z;
  bodySize : Z;
  headerBytesByName : gmap gostring Z;
  fromHeaderCount : Z;
  toHeaderSeen : bool;
  archiveHeaders : gostring;
  archiveHeaderBytes : Z;
  archiveHeadersTruncated : bool;
}.

Definition set_headers (v : gmap gostring (list gostring)) (r : Message) : Message :=
  MkMessage v (decodedHeaders r) (headerOccurrences r) (analysisTime r) (body r) (Truncated r)
    (BodyTruncated r) (MIMEHeadersTruncated r) (SavedArchiveTruncated r) (maxBytes r) (bodySize
    r) (headerBytesByName r) (fromHeaderCount r) (toHeaderSeen r) (archiveHeaders r)
    (archiveHeaderBytes r) (archiveHeadersTruncated r).
Definition set_decodedHeaders (v : gmap gostring (list gostring)) (r : Message) : Message :=
  MkMessage (headers r) v (headerOccurrences r) (analysisTime r) (body r) (Truncated r)
    (BodyTruncated r) (MIMEHeadersTruncated r) (SavedArchiveTruncated r) (maxBytes r) (bodySize
    r) (headerBytesByName r) (fromHeaderCount r) (toHeaderSeen r) (archiveHeaders r)
    (archiveHeaderBytes r) (archiveHeadersTruncated r).
Definition set_headerOccurrences (v : gmap gostring Z) (r : Message) : Message :=
  MkMessage (headers r) (decodedHeaders r) v (analysisTime r) (body r) (Truncated r)
    (BodyTruncated r) (MIMEHeadersTruncated r) (SavedArchiveTruncated r) (maxBytes r) (bodySize
    r) (headerBytesByName r) (fromHeaderCount r) (toHeaderSeen r) (archiveHeaders r)
    (archiveHeaderBytes r) (archiveHeadersTruncated r).
Definition set_body (v : gostring) (r : Message) : Message :=
  MkMessage (headers r) (decodedHeaders r) (headerOccurrences r) (analysisTime r) v (Truncated
    r) (BodyTruncated r) (MIMEHeadersTruncated r) (SavedArchiveTruncated r) (maxBytes r)
    (bodySize r) (headerBytesByName r) (fromHeaderCount r) (toHeaderSeen r) (archiveHeaders r)
    (archiveHeaderBytes r) (archiveHeadersTruncated r).
Definition set_Truncated (v : bool) (r : Message) : Message :=
  MkMessage (headers r) (decodedHeaders r) (headerOccurrences r) (analysisTime r) (body r) v
    (BodyTruncated r) (MIMEHeadersTruncated r) (SavedArchiveTruncated r) (maxBytes r) (bodySize
    r) (headerBytesByName r) (fromHeaderCount r) (toHeaderSeen r) (archiveHeaders r)
    (archiveHeaderBytes r) (archiveHeadersTruncated r).
Definition set_BodyTruncated (v : bool) (r : Message) : Message :=
  MkMessage (headers r) (decodedHeaders r) (headerOccurrences r) (analysisTime r) (body r)
    (Truncated r) v (MIMEHeadersTruncated r) (SavedArchiveTruncated r) (maxBytes r) (bodySize r)
    (headerBytesByName r) (fromHeaderCount r) (toHeaderSeen r) (archiveHeaders r)
    (archiveHeaderBytes r) (archiveHeadersTruncated r).
Definition set_MIMEHeadersTruncated (v : bool) (r : Message) : Message :=
  MkMessage (headers r) (decodedHeaders r) (headerOccurrences r) (analysisTime r) (body r)
    (Truncated r) (BodyTruncated r) v (SavedArchiveTruncated r) (maxBytes r) (bodySize r)
    (headerBytesByName r) (fromHeaderCount r) (toHeaderSeen r) (archiveHeaders r)
    (archiveHeaderBytes r) (archiveHeadersTruncated r).
Definition set_bodySize (v : Z) (r : Message) : Message :=
  MkMessage (headers r) (decodedHeaders r) (headerOccurrences r) (analysisTime r) (body r)
    (Truncated r) (BodyTruncated r) (MIMEHeadersTruncated r) (SavedArchiveTruncated r) (maxBytes
    r) v (headerBytesByName r) (fromHeaderCount r) (toHeaderSeen r) (archiveHeaders r)
    (archiveHeaderBytes r) (archiveHeadersTruncated r).
Definition set_headerBytesByName (v : gmap gostring Z) (r : Message) : Message :=
  MkMessage (headers r) (decodedHeaders r) (headerOccurrences r) (analysisTime r) (body r)
    (Truncated r) (BodyTruncated r) (MIMEHeadersTruncated r) (SavedArchiveTruncated r) (maxBytes
    r) (bodySize r) v (fromHeaderCount r) (toHeaderSeen r) (archiveHeaders r)
    (archiveHeaderBytes r) (archiveHeadersTruncated r).
Definition set_fromHeaderCount (v : Z) (r : Message) : Message :=
  MkMessage (headers r) (decodedHeaders r) (headerOccurrences r) (analysisTime r) (body r)
    (Truncated r) (BodyTruncated r) (MIMEHeadersTruncated r) (SavedArchiveTruncated r) (maxBytes
    r) (bodySize r) (headerBytesByName r) v (toHeaderSeen r) (archiveHeaders r)
    (archiveHeaderBytes r) (archiveHeadersTruncated r).
Definition set_toHeaderSeen (v : bool) (r : Message) : Message :=
  MkMessage (headers r) (decodedHeaders r) (headerOccurrences r) (analysisTime r) (body r)
    (Truncated r) (BodyTruncated r) (MIMEHeadersTruncated r) (SavedArchiveTruncated r) (maxBytes
    r) (bodySize r) (headerBytesByName r) (fromHeaderCount r) v (archiveHeaders r)
    (archiveHeaderBytes r) (archiveHeadersTruncated r).
Definition set_archiveHeaders (v : gostring) (r : Message) : Message :=
  MkMessage (headers r) (decodedHeaders r) (headerOccurrences r) (analysisTime r) (body r)
    (Truncated r) (BodyTruncated r) (MIMEHeadersTruncated r) (SavedArchiveTruncated r) (maxBytes
    r) (bodySize r) (headerBytesByName r) (fromHeaderCount r) (toHeaderSeen r) v
    (archiveHeaderBytes r) (archiveHeadersTruncated r).
Definition set_archiveHeaderBytes (v : Z) (r : Message) : Message :=
  MkMessage (headers r) (decodedHeaders r) (headerOccurrences r) (analysisTime r) (body r)
    (Truncated r) (BodyTruncated r) (MIMEHeadersTruncated r) (SavedArchiveTruncated r) (maxBytes
    r) (bodySize r) (headerBytesByName r) (fromHeaderCount r) (toHeaderSeen r) (archiveHeaders
    r) v (archiveHeadersTruncated r).
Definition set_archiveHeadersTruncated (v : bool) (r : Message) : Message :=
  MkMessage (headers r) (decodedHeaders r) (headerOccurrences r) (analysisTime r) (body r)
    (Truncated r) (BodyTruncated r) (MIMEHeadersTruncated r) (SavedArchiveTruncated r) (maxBytes
    r) (bodySize r) (headerBytesByName r) (fromHeaderCount r) (toHeaderSeen r) (archiveHeaders
    r) (archiveHeaderBytes r) v.

Definition maxRetainedHeaderBytesPerName : Z := Z.shiftl 16 10.
Definition maxAuthenticationHeaderBytes : Z := Z.shiftl 32 10.
Definition maxHeaderValueBytes : Z := Z.shiftl 8 10.
Definition maxMIMEHeaderValueBytes : Z := Z.shiftl 64 10.

Definition countedSecurityHeaders : list gostring :=
  lit <$> ["x-milterguard-action"; "x-milterguard-classification"; "x-milterguard-confidence";
           "x-milterguard-internal"; "x-milterguard-policy"; "x-milterguard-score"]%string.
Definition structuralMIMEHeaders : list gostring :=
  lit <$> ["content-disposition"; "content-transfer-encoding"; "content-type"]%string.
Definition humanReadableHeaders : list gostring := lit <$> ["from"; "reply-to"; "subject"; "to"]%string.
Definition retainedHeaders : list gostring :=
  lit <$> ["authentication-results"; "content-disposition"; "content-transfer-encoding"; "content-type";
           "date"; "from"; "message-id"; "x-milterguard-action"; "x-milterguard-classification";
           "x-milterguard-confidence"; "x-milterguard-policy"; "x-milterguard-score";
           "x-milterguard-internal"; "received-spf"; "reply-to"; "return-path"; "subject"; "to"]%string.

(** A [map[string]bool] used as a set. *)
Definition in_set (name : gostring) (s : list gostring) : bool := bool_decide (name ∈ s).

(** Reading a Go map gives the zero value for an absent key. *)
Definition count_of (m : gmap gostring Z) (k : gostring) : Z := default 0 (m !! k).
Definition values_of (m : gmap gostring (list gostring)) (k : gostring) : list gostring := default [] (m !! k).

Definition New (now max : Z) : Message :=
  MkMessage ∅ ∅ ∅ now [] false false false false max 0 ∅ 0 false [] 0 false.

(** ** Archive headers *)

Definition CRLF : gostring := [CR; LF].

Definition archive_name_ok (name : gostring) : bool :=
  negb (beq name []) &&
  forallb (λ c, negb (containsByte [":"%char; CR; LF; NUL] c)) name &&
  forallb (λ r, (33 <=? r) && (r <=? 126)) (runes name).

Definition fold_value (value : gostring) : gostring :=
  let value := replaceAll value [NUL] [] in
  let value := replaceAll value CRLF [LF] in
  let value := replaceAll value [CR] [LF] in
  replaceAll value [LF] (CRLF ++ lit " ").

Definition archive_line (name value : gostring) : gostring := name ++ lit ": " ++ fold_value value ++ CRLF.

Definition addArchiveHeader (m : Message) (name value : gostring) : Message :=
  let name := trimSpace name in
  if negb (archive_name_ok name) then set_archiveHeadersTruncated true m
  else
    let line := archive_line name value in
    if maxBytes m ÷ 2 <? archiveHeaderBytes m + go_len line then set_archiveHeadersTruncated true m
    else set_archiveHeaders (archiveHeaders m ++ line)
           (set_archiveHeaderBytes (archiveHeaderBytes m + go_len line) m).

(** The position of the first CRLF. *)
Fixpoint index_crlf (s : gostring) : option nat :=
  match s with
  | c :: s' => if hasPrefix s CRLF then Some O else S <$> index_crlf s'
  | [] => None
  end.

Definition continues (rest : gostring) : bool :=
  match rest with c :: _ => ceq c " " || ceq c (chr 9) | [] => false end.

(** The scan over lines; [rest] is [headers[lineStart:]].  Every line consumes
    at least its CRLF, so [length headers] iterations are enough. *)
Fixpoint complete_go (fuel : nat) (rest : gostring) (lineStart lastComplete : nat) (max : Z) : nat :=
  match fuel with
  | O => lastComplete
  | S fuel' =>
      match index_crlf rest with
      | None => lastComplete
      | Some lineLength =>
          let lineEnd := (lineStart + lineLength + 2)%nat in
          let rest' := drop (lineLength + 2) rest in
          if continues rest' then complete_go fuel' rest' lineEnd lastComplete max
          else if max <? Z.of_nat lineEnd then lastComplete
          else complete_go fuel' rest' lineEnd lineEnd max
      end
  end.

Definition completeArchiveHeaderPrefix (headers : gostring) (max : Z) : gostring :=
  if max <=? 0 then []
  else if go_len headers <=? max then headers
  else take (complete_go (length headers) headers 0 0 max) headers.

Definition archiveTruncationHeader : gostring := lit "X-MilterGuard-Archive-Truncated: yes" ++ CRLF.

Definition ArchiveBytes (m : Message) : gostring :=
  let limit := maxBytes m in
  if limit <? 2 then []
  else
    let truncated := archiveHeadersTruncated m || BodyTruncated m in
    let includeMarker := truncated && (go_len archiveTruncationHeader + 2 <=? limit) in
    let reserved := if includeMarker then 2 + go_len archiveTruncationHeader else 2 in
    let hdrs := completeArchiveHeaderPrefix (archiveHeaders m) (limit - reserved) in
    let output := hdrs ++ (if includeMarker then archiveTruncationHeader else []) ++ CRLF in
    let remaining := limit - go_len output in
    if remaining <=? 0 then take (Z.to_nat (Z.min (go_len output) limit)) output
    else output ++ (if remaining <? go_len (body m) then take (Z.to_nat remaining) (body m) else body m).

(** ** Headers and body *)

Section Headers.
Context `{UnicodeTables, HeaderDecoder}.

Definition decodeHeaderValue (value : gostring) : gostring := toValidUTF8 (default value (word_decode value)).

(** The counters, which ignore every retention limit. *)
Definition count_header (m : Message) (name : gostring) : Message :=
  let m := if beq name (lit "from") then set_fromHeaderCount (fromHeaderCount m + 1) m else m in
  let m := if beq name (lit "to") then set_toHeaderSeen true m else m in
  if in_set name countedSecurityHeaders
  then set_headerOccurrences (<[name := count_of (headerOccurrences m) name + 1]> (headerOccurrences m)) m
  else m.

Definition value_limit (name : gostring) : Z :=
  if in_set name structuralMIMEHeaders then maxMIMEHeaderValueBytes else maxHeaderValueBytes.

Definition name_limit (name : gostring) : Z :=
  if in_set name structuralMIMEHeaders then maxMIMEHeaderValueBytes + 256
  else if beq name (lit "authentication-results") then maxAuthenticationHeaderBytes
  else maxRetainedHeaderBytesPerName.

Definition mark_truncated (m : Message) (name : gostring) : Message :=
  let m := set_Truncated true m in
  if in_set name structuralMIMEHeaders then set_MIMEHeadersTruncated true m else m.

Definition retain_header (m : Message) (name value : gostring) : Message :=
  let value := toValidUTF8 (trimSpace value) in
  let over := value_limit name <? go_len value in
  let value' := if over then take (back_to_start value (Z.to_nat (value_limit name))) value else value in
  let m := if over then mark_truncated m name else m in
  let entrySize := go_len name + go_len value' + 2 in
  if name_limit name <? count_of (headerBytesByName m) name + entrySize then mark_truncated m name
  else
    let m := set_headerBytesByName
               (<[name := count_of (headerBytesByName m) name + entrySize]> (headerBytesByName m)) m in
    let m := set_headers (<[name := values_of (headers m) name ++ [value']]> (headers m)) m in
    if in_set name humanReadableHeaders
    then set_decodedHeaders
           (<[name := values_of (decodedHeaders m) name ++ [decodeHeaderValue value']]> (decodedHeaders m)) m
    else m.

Definition AddHeader (m : Message) (name value : gostring) : Message :=
  let m := addArchiveHeader m name value in
  let name := toLower (trimSpace name) in
  let m := count_header m name in
  if negb (in_set name retainedHeaders) then m else retain_header m name value.

Definition HeaderOccurrences (m : Message) (name : gostring) : Z :=
  count_of (headerOccurrences m) (toLower (trimSpace name)).
Definition FromHeaderCount (m : Message) : Z := fromHeaderCount m.

Definition Header (m : Message) (name : gostring) : gostring :=
  join (lit ", ") (values_of (headers m) (toLower name)).
Definition FirstHeader (m : Message) (name : gostring) : gostring :=
  hd [] (values_of (headers m) (toLower name)).
Definition DecodedHeader (m : Message) (name : gostring) : gostring :=
  let name := toLower name in
  match decodedHeaders m !! name with
  | Some values => join (lit ", ") values
  | None => join (lit ", ") (values_of (headers m) name)
  end.
Definition HeaderValues (m : Message) (name : gostring) : list gostring :=
  values_of (headers m) (toLower (trimSpace name)).
Definition decodedHeaderValues (m : Message) (name : gostring) : list gostring :=
  match decodedHeaders m !! name with
  | Some values => values
  | None => values_of (headers m) name
  end.
End Headers.

Definition AddBody (m : Message) (p : gostring) : Message :=
  if beq p [] then m
  else
    let remaining := maxBytes m - archiveHeaderBytes m - 2 - bodySize m in
    if remaining <=? 0 then set_BodyTruncated true (set_Truncated true m)
    else
      let over := remaining <? go_len p in
      let p' := if over then take (Z.to_nat remaining) p else p in
      let m := if over then set_BodyTruncated true (set_Truncated true m) else m in
      set_body (body m ++ p') (set_bodySize (bodySize m + go_len p') m).

Definition BodyBytes (m : Message) : gostring := body m.

(** ** Transactions as sequences of operations *)

Inductive message_op :=
  | OpHeader (name value : gostring)
  | OpBody (chunk : gostring).

Section Runs.
Context `{UnicodeTables, HeaderDecoder}.

Definition apply_op (m : Message) (o : message_op) : Message :=
  match o with OpHeader name value => AddHeader m name value | OpBody chunk => AddBody m chunk end.
Definition run_ops (m : Message) (ops : list message_op) : Message := fold_left apply_op ops m.

(** The bytes a name is charged for its retained values. *)
Fixpoint charged (name : gostring) (values : list gostring) : Z :=
  match values with [] => 0 | v :: vs => go_len name + go_len v + 2 + charged name vs end.

Record message_wf (m : Message) : Prop := MessageWf {
  wf_header_bytes : archiveHeaderBytes m = go_len (archiveHeaders m);
  wf_header_half : archiveHeaderBytes m <= maxBytes m ÷ 2;
  wf_body_size : bodySize m = go_len (body m);
  wf_body_fits : bodySize m = 0 \/ bodySize m + 2 <= maxBytes m;
  wf_charged : forall name, count_of (headerBytesByName m) name = charged name (values_of (headers m) name);
  wf_name_limit : forall name, count_of (headerBytesByName m) name <= name_limit name;
}.

Lemma name_limit_pos name : 0 <= name_limit name.
Proof. unfold name_limit. repeat case_match; vm_compute; done. Qed.

Lemma count_empty k : count_of ∅ k = 0.
Proof. unfold count_of. by rewrite lookup_empty. Qed.
Lemma values_empty k : values_of ∅ k = [].
Proof. unfold values_of. by rewrite lookup_empty. Qed.

Lemma New_wf now max : 0 <= max -> message_wf (New now max).
Proof.
  intros Hm. split; try done; cbn; try lia.
  - apply Z.quot_pos; lia.
  - intros name. rewrite count_empty. apply name_limit_pos.
Qed.

Lemma charged_app name vs v : charged name (vs ++ [v]) = charged name vs + (go_len name + go_len v + 2).
Proof. induction vs as [|w vs IH]; cbn [charged app]; [lia|]. rewrite IH. lia. Qed.

(** What retaining a value leaves alone. *)
Record retain_frame (m m' : Message) : Prop := RetainFrame {
  rf_archive : archiveHeaders m' = archiveHeaders m;
  rf_max : maxBytes m' = maxBytes m;
  rf_from : fromHeaderCount m' = fromHeaderCount m;
  rf_occurrences : headerOccurrences m' = headerOccurrences m;
  rf_body : body m' = body m;
  rf_bodySize : bodySize m' = bodySize m;
  rf_bodyTruncated : BodyTruncated m' = BodyTruncated m;
}.

Lemma mark_truncated_frame m name : retain_frame m (mark_truncated m name).
Proof. unfold mark_truncated. cbv zeta. by case_match. Qed.

Lemma retain_header_frame m name value : retain_frame m (retain_header m name value).
Proof.
  unfold retain_header. cbv zeta. set (over := value_limit _ <? _).
  set (m1 := if over then mark_truncated m name else m).
  assert (Hf : retain_frame m m1) by (unfold m1; destruct over; [apply mark_truncated_frame|done]).
  clearbody m1. case_match.
  - destruct Hf, (mark_truncated_frame m1 name). split; congruence.
  - destruct Hf, (in_set name humanReadableHeaders); by split.
Qed.

Lemma addArchiveHeader_wf m name value : message_wf m -> message_wf (addArchiveHeader m name value).
Proof.
  intros [H1 H2 H3 H4 H5 H6]. unfold addArchiveHeader. cbv zeta. case_match; [by split|].
  case_match eqn:E; [by split|]. apply Z.ltb_ge in E.
  split; cbn; try done. rewrite H1, go_len_app. done.
Qed.

Lemma count_header_wf m name : message_wf m -> message_wf (count_header m name).
Proof. intros [H1 H2 H3 H4 H5 H6]. unfold count_header. repeat case_match; by split. Qed.

Lemma mark_truncated_wf m name : message_wf m -> message_wf (mark_truncated m name).
Proof. intros [H1 H2 H3 H4 H5 H6]. unfold mark_truncated. repeat case_match; by split. Qed.

Lemma retain_header_wf m name value : message_wf m -> message_wf (retain_header m name value).
Proof.
  intros Hm. unfold retain_header. cbv zeta.
  set (v := toValidUTF8 (trimSpace value)).
  set (over := value_limit name <? go_len v).
  set (v' := if over then _ else v). clearbody v'.
  set (m1 := if over then _ else m).
  assert (Hm1 : message_wf m1) by (unfold m1; destruct over; [by apply mark_truncated_wf|done]).
  clearbody m1. case_match eqn:E; [by apply mark_truncated_wf|]. apply Z.ltb_ge in E.
  destruct Hm1 as [H1 H2 H3 H4 H5 H6].
  match goal with |- message_wf (if _ then set_decodedHeaders _ ?m else _) => assert (Hm2 : message_wf m) end.
  - split; cbn; try done; intros n; destruct (decide (n = name)) as [->|Hn];
      unfold count_of, values_of in *; rewrite ?lookup_insert_eq, ?lookup_insert_ne by done; cbn; auto.
    rewrite H5, charged_app. done.
  - destruct Hm2. case_match; by split.
Qed.

Lemma AddHeader_wf m name value : message_wf m -> message_wf (AddHeader m name value).
Proof.
  intros Hm. unfold AddHeader. cbv zeta. case_match.
  - by apply count_header_wf, addArchiveHeader_wf.
  - by apply retain_header_wf, count_header_wf, addArchiveHeader_wf.
Qed.

Lemma quot2_bounds z : 0 <= z -> 0 <= z ÷ 2 /\ 2 * (z ÷ 2) <= z <= 2 * (z ÷ 2) + 1.
Proof. intros. rewrite Z.quot_div_nonneg by lia. pose proof (Z.div_mod z 2). pose proof (Z.mod_pos_bound z 2). lia. Qed.

Lemma AddBody_wf m p : message_wf m -> message_wf (AddBody m p).
Proof.
  intros [H1 H2 H3 H4 H5 H6]. unfold AddBody. case_match; [by split|]. cbv zeta.
  case_match eqn:E; [by split|]. apply Z.leb_gt in E.
  pose proof (go_len_nonneg (archiveHeaders m)).
  destruct (_ <? go_len p) eqn:E2; (apply Z.ltb_lt in E2 || apply Z.ltb_ge in E2); split; cbn; try done;
    rewrite ?go_len_app, ?go_len_take; try right; lia.
Qed.

Lemma apply_op_wf m o : message_wf m -> message_wf (apply_op m o).
Proof. destruct o; [apply AddHeader_wf | apply AddBody_wf]. Qed.

Lemma run_ops_wf m ops : message_wf m -> message_wf (run_ops m ops).
Proof. revert m. induction ops as [|o ops IH]; intros m Hm; [done|]. apply IH, apply_op_wf, Hm. Qed.
End Runs.

(** ** Archived fields *)

Definition unfold_lf (w : gostring) : gostring := concat ((λ c, if ceq LF c then CRLF ++ lit " " else [c]) <$> w).

Lemma fold_value_shape v : exists w, CR ∉ w /\ fold_value v = unfold_lf w.
Proof.
  unfold fold_value. cbv zeta. rewrite (replace_char LF). eexists. split; [|reflexivity].
  intros Hc. apply elem_replace_char in Hc as [[_ Hc]|Hc]; [done|]. apply list_elem_of_singleton in Hc. by vm_compute in Hc.
Qed.

Lemma index_crlf_app l rest : CR ∉ l -> index_crlf (l ++ CRLF ++ rest) = Some (length l).
Proof.
  induction l as [|c l IH]; intros Hl; [done|]. apply not_elem_of_cons in Hl as [Hc Hl].
  cbn [index_crlf app]. rewrite IH by done. unfold CRLF. cbn [hasPrefix].
  destruct (ceq CR c) eqn:E; [by apply ceq_true in E|done].
Qed.

Lemma complete_go_fuel max f1 : forall f2 rest pos last,
  (length rest <= f1)%nat -> (length rest <= f2)%nat ->
  complete_go f1 rest pos last max = complete_go f2 rest pos last max.
Proof.
  assert (Hnil : forall f pos last, complete_go f [] pos last max = last) by (by intros []).
  induction f1 as [|f1 IH]; intros f2 rest pos last H1 H2.
  { destruct rest; [|simpl in H1; lia]. by rewrite !Hnil. }
  destruct f2 as [|f2]; [destruct rest; [by rewrite !Hnil | simpl in H2; lia]|].
  cbn [complete_go]. destruct (index_crlf rest) as [n|] eqn:E; [|done]. cbv zeta.
  assert (Hd : (length (drop (n + 2) rest) <= f1 /\ length (drop (n + 2) rest) <= f2)%nat).
  { rewrite length_drop. destruct rest; [done|]. simpl in *. lia. }
  destruct Hd. repeat case_match; auto.
Qed.

Lemma complete_go_line fuel text rest pos last max : CR ∉ text ->
  (length (text ++ CRLF ++ rest) <= fuel)%nat ->
  complete_go fuel (text ++ CRLF ++ rest) pos last max =
  (let lineEnd := (pos + length text + 2)%nat in
   if continues rest then complete_go (length rest) rest lineEnd last max
   else if max <? Z.of_nat lineEnd then last else complete_go (length rest) rest lineEnd lineEnd max).
Proof.
  intros Ht Hf. destruct fuel as [|fuel]; [rewrite length_app in Hf; simpl in Hf; lia|].
  cbn [complete_go]. rewrite index_crlf_app by done. cbv zeta.
  assert (Hd : drop (length text + 2) (text ++ CRLF ++ rest) = rest).
  { rewrite app_assoc. apply drop_app_length'. rewrite length_app. done. }
  rewrite Hd. rewrite !length_app in Hf. simpl in Hf. repeat case_match; auto using complete_go_fuel with lia.
Qed.

Lemma complete_go_field w : forall text rest pos last max, CR ∉ text -> CR ∉ w -> continues rest = false ->
  complete_go (length (text ++ unfold_lf w ++ CRLF ++ rest)) (text ++ unfold_lf w ++ CRLF ++ rest) pos last max =
  (let stop := (pos + length (text ++ unfold_lf w ++ CRLF))%nat in
   if max <? Z.of_nat stop then last else complete_go (length rest) rest stop stop max).
Proof.
  induction w as [|c w IH]; intros text rest pos last max Ht Hw Hr.
  - change (unfold_lf []) with (@nil ascii). cbn [app]. rewrite complete_go_line by done. cbv zeta.
    rewrite Hr, !length_app. cbn [length CRLF]. rewrite Nat.add_assoc. done.
  - apply not_elem_of_cons in Hw as [Hc Hw].
    change (unfold_lf (c :: w)) with ((if ceq LF c then CRLF ++ lit " " else [c]) ++ unfold_lf w).
    destruct (ceq LF c) eqn:E.
    + rewrite <- !app_assoc. rewrite complete_go_line by done. cbv zeta. cbn [continues app lit].
      change (lit " " ++ ?x) with ([" "%char] ++ x).
      change (continues ([" "%char] ++ unfold_lf w ++ CRLF ++ rest)) with true. cbv iota.
      rewrite IH; [|set_solver|done|done]. cbv zeta. rewrite !length_app. cbn [length].
      replace (pos + length text + 2 + (1 + (length (unfold_lf w) + length CRLF)))%nat
        with (pos + (length text + (length CRLF + (1 + (length (unfold_lf w) + length CRLF)))))%nat; [done|].
      cbn [length CRLF]. lia.
    + replace (text ++ ([c] ++ unfold_lf w) ++ CRLF ++ rest) with ((text ++ [c]) ++ unfold_lf w ++ CRLF ++ rest)
        by (rewrite <- !app_assoc; done).
      replace (text ++ ([c] ++ unfold_lf w) ++ CRLF) with ((text ++ [c]) ++ unfold_lf w ++ CRLF)
        by (rewrite <- !app_assoc; done).
      apply IH; [set_solver|done|done].
Qed.

Lemma archive_name_chars name : archive_name_ok name = true ->
  name <> [] /\ Forall (λ c, 33 <= code c <= 126 /\ c <> ":"%char) name.
Proof.
  unfold archive_name_ok. rewrite !andb_true_iff. intros [[Hne Hb] Hr].
  split; [by apply beq_nil_false, negb_true_iff|].
  rewrite forallb_forall in Hb, Hr.
  assert (Ha : runes name = code <$> name).
  { apply runes_ascii. apply Forall_forall. intros r Hin%list_elem_of_In%Hr. lia. }
  rewrite Ha in Hr. apply Forall_forall. intros c Hin. split.
  - specialize (Hr (code c)). assert (In (code c) (code <$> name)) by (apply in_map; by apply list_elem_of_In).
    apply Hr in H. lia.
  - intros ->. apply list_elem_of_In, Hb in Hin. by vm_compute in Hin.
Qed.

(** The fields of an archive and their text. *)
Definition fields_text (fs : list (gostring * gostring)) : gostring :=
  concat ((λ f, archive_line f.1 f.2) <$> fs).
Definition fields_ok (fs : list (gostring * gostring)) : Prop := Forall (λ f, archive_name_ok f.1 = true) fs.

Lemma fields_text_cons f fs : fields_text (f :: fs) = archive_line f.1 f.2 ++ fields_text fs.
Proof. done. Qed.
Lemma fields_text_app fs gs : fields_text (fs ++ gs) = fields_text fs ++ fields_text gs.
Proof. unfold fields_text. by rewrite fmap_app, concat_app. Qed.

Lemma fields_not_continuation fs : fields_ok fs -> continues (fields_text fs) = false.
Proof.
  destruct fs as [|[n v] fs]; [done|]. intros [Hn _]%Forall_cons. rewrite fields_text_cons.
  apply archive_name_chars in Hn as [Hne Hc]. unfold archive_line. cbn [fst snd] in *.
  destruct n as [|c n]; [done|]. apply Forall_cons in Hc as [[Hc _] _]. cbn [app continues].
  apply orb_false_iff. split; apply ceq_false; intros ->; code_lia.
Qed.

Lemma complete_go_fields fs max : fields_ok fs -> forall pos, exists k,
  complete_go (length (fields_text fs)) (fields_text fs) pos pos max =
    (pos + length (fields_text (take k fs)))%nat /\
  (Z.of_nat pos <= max -> Z.of_nat (pos + length (fields_text (take k fs))) <= max) /\
  (k = length fs \/ (k < length fs)%nat /\ max < Z.of_nat (pos + length (fields_text (take (S k) fs)))).
Proof.
  induction 1 as [|[n v] fs Hn Hfs IH]; intros pos.
  { exists O. cbn. split_and!; [lia|lia|by left]. }
  rewrite fields_text_cons. cbn [fst snd] in *.
  destruct (fold_value_shape v) as (w & Hw & Hv).
  pose proof (archive_name_chars n Hn) as [_ Hc].
  assert (Hcr : CR ∉ n ++ lit ": ").
  { intros [Hin|Hin]%elem_of_app; [|by vm_compute in Hin; set_solver].
    rewrite Forall_forall in Hc. apply Hc in Hin as [Hin _]. code_lia. }
  set (stop := (pos + length (archive_line n v))%nat).
  assert (Hgo : complete_go (length (archive_line n v ++ fields_text fs)) (archive_line n v ++ fields_text fs) pos pos max
            = if max <? Z.of_nat stop then pos else complete_go (length (fields_text fs)) (fields_text fs) stop stop max).
  { pose proof (complete_go_field w (n ++ lit ": ") (fields_text fs) pos pos max Hcr Hw
                  (fields_not_continuation fs Hfs)) as Hf.
    unfold stop, archive_line. rewrite Hv. rewrite <- !app_assoc in *. exact Hf. }
  rewrite Hgo. destruct (max <? Z.of_nat stop) eqn:E.
  - apply Z.ltb_lt in E. exists O. cbn [take]. split_and!; [cbn; lia|cbn; lia|right; cbn [length]; split; [lia|]].
    rewrite take_0, fields_text_cons. cbn [fst snd fields_text fmap list_fmap concat]. rewrite app_nil_r. lia.
  - apply Z.ltb_ge in E. destruct (IH stop) as (k & -> & Hle & Hmax). exists (S k). cbn [take length].
    rewrite !fields_text_cons, !length_app. cbn [fst snd]. unfold stop in *.
    split_and!; [lia|lia|]. destruct Hmax as [->|[Hk Hmax]]; [by left|right].
    split; lia.
Qed.

Lemma completeArchiveHeaderPrefix_fields fs max : fields_ok fs -> 0 < max -> exists k,
  completeArchiveHeaderPrefix (fields_text fs) max = fields_text (take k fs) /\
  go_len (fields_text (take k fs)) <= max /\
  (k = length fs \/ (k < length fs)%nat /\ max < go_len (fields_text (take (S k) fs))).
Proof.
  intros Hfs Hmax. unfold completeArchiveHeaderPrefix. replace (max <=? 0) with false by lia.
  case_match eqn:E.
  - exists (length fs). rewrite firstn_all. split_and!; [done|lia|by left].
  - destruct (complete_go_fields fs max Hfs 0) as (k & -> & Hle & Hk). exists k. split_and!.
    + rewrite <- (take_drop k fs) at 2. rewrite fields_text_app. cbn [Nat.add]. by rewrite take_app_length.
    + unfold go_len. lia.
    + unfold go_len. destruct Hk as [->|[? ?]]; [by left|right]. split; [done|lia].
Qed.

Section ArchiveRuns.
Context `{UnicodeTables, HeaderDecoder}.

(** The archived text is always the text of some of the supplied fields, in
    the order in which they were supplied. *)
Definition supplied (ops : list message_op) : list (gostring * gostring) :=
  omap (λ o, match o with OpHeader n v => Some (trimSpace n, v) | OpBody _ => None end) ops.

Lemma AddHeader_archive m n v :
  archiveHeaders (AddHeader m n v) = archiveHeaders (addArchiveHeader m n v) /\
  maxBytes (AddHeader m n v) = maxBytes m.
Proof.
  unfold AddHeader. cbv zeta. set (m1 := addArchiveHeader m n v).
  assert (maxBytes m1 = maxBytes m) as <- by (unfold m1, addArchiveHeader; cbv zeta; repeat case_match; done).
  set (k := toLower (trimSpace n)).
  assert (Hc : archiveHeaders (count_header m1 k) = archiveHeaders m1 /\ maxBytes (count_header m1 k) = maxBytes m1)
    by (unfold count_header; cbv zeta; repeat case_match; done).
  destruct Hc as [<- <-]. case_match; [done|]. split; apply retain_header_frame.
Qed.

Lemma AddBody_archive m p :
  archiveHeaders (AddBody m p) = archiveHeaders m /\ maxBytes (AddBody m p) = maxBytes m.
Proof. unfold AddBody. cbv zeta. repeat case_match; done. Qed.

Lemma run_ops_archive ops : forall m fs, archiveHeaders m = fields_text fs -> fields_ok fs ->
  exists gs, archiveHeaders (run_ops m ops) = fields_text (fs ++ gs) /\ fields_ok (fs ++ gs) /\
             gs `sublist_of` supplied ops.
Proof.
  induction ops as [|o ops IH]; intros m fs Hm Hfs.
  { exists []. rewrite app_nil_r. by split_and!. }
  change (run_ops m (o :: ops)) with (run_ops (apply_op m o) ops).
  destruct o as [n v|p]; cbn [apply_op].
  - destruct (AddHeader_archive m n v) as [Ha _].
    destruct (decide (archiveHeaders (addArchiveHeader m n v) = archiveHeaders m)) as [Hs|Hs].
    + destruct (IH (AddHeader m n v) fs) as (gs & ? & ? & ?); [congruence|done|].
      exists gs. split_and!; [done|done|]. cbn. by apply sublist_cons.
    + assert (Hok : archive_name_ok (trimSpace n) = true /\
        archiveHeaders (addArchiveHeader m n v) = archiveHeaders m ++ archive_line (trimSpace n) v).
      { unfold addArchiveHeader in *. cbv zeta in *.
        destruct (archive_name_ok _); cbn [negb] in *; [|by destruct Hs].
        case_match; [by destruct Hs|done]. }
      destruct Hok as [Hok Hap].
      destruct (IH (AddHeader m n v) (fs ++ [(trimSpace n, v)])) as (gs & Hgs & Hgok & ?).
      { rewrite Ha, Hap, Hm, fields_text_app, fields_text_cons. cbn [fst snd]. by rewrite app_nil_r. }
      { apply Forall_app. split; [done|]. by constructor. }
      rewrite <- app_assoc in *. exists ((trimSpace n, v) :: gs). split_and!; [done|done|].
      cbn. by apply sublist_skip.
  - destruct (AddBody_archive m p) as [Ha _]. apply IH; [congruence|done].
Qed.

Lemma run_ops_max m ops : maxBytes (run_ops m ops) = maxBytes m.
Proof.
  revert m. induction ops as [|o ops IH]; intros m; [done|].
  change (run_ops m (o :: ops)) with (run_ops (apply_op m o) ops). rewrite IH.
  destruct o; cbn [apply_op]; [apply AddHeader_archive | apply AddBody_archive].
Qed.

Lemma ArchiveBytes_length m : 0 <= maxBytes m -> go_len (ArchiveBytes m) <= maxBytes m.
Proof.
  intros Hm. unfold ArchiveBytes. case_match; [unfold go_len; simpl; lia|]. cbv zeta.
  match goal with |- context [maxBytes m - go_len ?o] => set (output := o) end. clearbody output.
  destruct (_ <=? 0) eqn:E; [rewrite go_len_take; lia|]. apply Z.leb_gt in E.
  rewrite go_len_app. destruct (_ <? go_len (body m)) eqn:E2; rewrite ?go_len_take; lia.
Qed.
End ArchiveRuns.

Section BodyRuns.
Context `{UnicodeTables, HeaderDecoder}.

(** Room left for the body once the headers are known. *)
Definition body_room (m : Message) : Z := Z.max 0 (maxBytes m - archiveHeaderBytes m - 2).

Lemma AddBody_prefix m p all :
  body m = take (Z.to_nat (body_room m)) all -> bodySize m = go_len (body m) ->
  BodyTruncated m = (body_room m <? go_len all) ->
  let m' := AddBody m p in
  body m' = take (Z.to_nat (body_room m')) (all ++ p) /\ bodySize m' = go_len (body m') /\
  BodyTruncated m' = (body_room m' <? go_len (all ++ p)) /\ body_room m' = body_room m.
Proof.
  intros Hb Hs Ht. cbv zeta.
  assert (Hroom : body_room (AddBody m p) = body_room m)
    by (unfold body_room, AddBody; cbv zeta; repeat case_match; done).
  rewrite Hroom. unfold AddBody. destruct (beq p []) eqn:Ep.
  { apply bool_decide_eq_true in Ep as ->. rewrite app_nil_r. by split_and!. }
  apply beq_nil_false in Ep. assert (0 < go_len p) by (unfold go_len; destruct p; simpl; [done|lia]).
  assert (Hlen : bodySize m = Z.min (body_room m) (go_len all))
    by (rewrite Hs, Hb, go_len_take; unfold body_room; lia).
  assert (Hr : 0 <= body_room m) by (unfold body_room; lia).
  assert (Hrem : maxBytes m - archiveHeaderBytes m - 2 - bodySize m = body_room m - bodySize m \/
                 maxBytes m - archiveHeaderBytes m - 2 - bodySize m < 0 /\ body_room m = 0 /\ bodySize m = 0)
    by (unfold body_room in *; pose proof (go_len_nonneg all); lia).
  cbv zeta. case_match eqn:E.
  - apply Z.leb_le in E. cbn [body bodySize BodyTruncated set_BodyTruncated set_Truncated].
    rewrite go_len_app. pose proof (go_len_nonneg all).
    split_and!; [|done| |done].
    + rewrite Hb. rewrite take_app_le; [done|]. unfold go_len in *. lia.
    + symmetry. apply Z.ltb_lt. lia.
  - apply Z.leb_gt in E.
    assert (Hall : body_room m >= go_len all /\ bodySize m = go_len all) by (pose proof (go_len_nonneg all); lia).
    destruct Hall as [Hge Hsz]. assert (Hbm : body m = all) by (rewrite Hb; apply take_ge; unfold go_len in *; lia).
    destruct (_ <? go_len p) eqn:E2; (apply Z.ltb_lt in E2 || apply Z.ltb_ge in E2);
      cbn [body bodySize BodyTruncated set_BodyTruncated set_Truncated set_body set_bodySize];
      rewrite ?go_len_app, ?go_len_take, Hbm; split_and!; try done.
    + rewrite take_app_ge by (unfold go_len in *; lia). do 2 f_equal. unfold go_len in *. lia.
    + lia.
    + symmetry. apply Z.ltb_lt. lia.
    + symmetry. apply take_ge. rewrite length_app. unfold go_len in *. lia.
    + lia.
    + rewrite Ht. rewrite !(proj2 (Z.ltb_ge _ _)) by lia. done.
Qed.

Definition no_body (m : Message) : Prop := body m = [] /\ bodySize m = 0 /\ BodyTruncated m = false.

Lemma AddHeader_no_body m n v : no_body m -> no_body (AddHeader m n v).
Proof.
  unfold AddHeader. cbv zeta. intros Hm. set (m1 := addArchiveHeader m n v). set (k := toLower (trimSpace n)).
  assert (Hm1 : no_body (count_header m1 k)).
  { assert (no_body m1) by (unfold m1, addArchiveHeader; cbv zeta; repeat case_match; done).
    unfold count_header; cbv zeta; repeat case_match; done. }
  case_match; [done|]. destruct Hm1 as (? & ? & ?), (retain_header_frame (count_header m1 k) k v).
  split_and!; congruence.
Qed.

Lemma run_headers_no_body hdrs : forall m, no_body m -> no_body (run_ops m ((λ h, OpHeader h.1 h.2) <$> hdrs)).
Proof. induction hdrs as [|h hs IH]; intros m Hm; [done|]. by apply IH, AddHeader_no_body. Qed.

Lemma run_bodies_prefix chunks : forall m all,
  body m = take (Z.to_nat (body_room m)) all -> bodySize m = go_len (body m) ->
  BodyTruncated m = (body_room m <? go_len all) ->
  let m' := run_ops m (OpBody <$> chunks) in
  body m' = take (Z.to_nat (body_room m)) (all ++ concat chunks) /\
  BodyTruncated m' = (body_room m <? go_len (all ++ concat chunks)).
Proof.
  induction chunks as [|p chunks IH]; intros m all Hb Hs Ht m'.
  { subst m'. cbn. by rewrite app_nil_r. }
  destruct (AddBody_prefix m p all Hb Hs Ht) as (Hb' & Hs' & Ht' & Hr').
  destruct (IH (AddBody m p) (all ++ p) Hb' Hs' Ht') as [H1 H2].
  rewrite Hr' in *. cbn [concat]. rewrite app_assoc. by split.
Qed.
End BodyRuns.

Lemma fold_value_continuation v a b : fold_value v = a ++ CRLF ++ b -> exists b', b = " "%char :: b'.
Proof.
  destruct (fold_value_shape v) as (w & Hw & ->). revert a.
  induction w as [|c w IH]; intros a; [by destruct a|].
  apply not_elem_of_cons in Hw as [Hc Hw].
  change (unfold_lf (c :: w)) with ((if ceq LF c then CRLF ++ lit " " else [c]) ++ unfold_lf w).
  destruct (ceq LF c) eqn:E.
  - destruct a as [|a1 [|a2 [|a3 a]]]; cbn; intros [=].
    + subst. by eexists.
    + eapply (IH Hw a). done.
  - destruct a as [|a1 a]; cbn; intros [= -> Hr].
    + by destruct Hc.
    + by eapply (IH Hw a).
Qed.

Section HeaderCounts.
Context `{UnicodeTables, HeaderDecoder}.

Definition field_named (name : gostring) (o : message_op) : bool :=
  match o with OpHeader n _ => beq (toLower (trimSpace n)) name | OpBody _ => false end.
Definition times_named (name : gostring) (ops : list message_op) : Z :=
  Z.of_nat (length (List.filter (field_named name) ops)).

Definition same_counts (m m' : Message) : Prop :=
  fromHeaderCount m' = fromHeaderCount m /\ headerOccurrences m' = headerOccurrences m.

Lemma addArchiveHeader_counts m name value : same_counts m (addArchiveHeader m name value).
Proof. unfold addArchiveHeader. cbv zeta. repeat case_match; done. Qed.

Lemma AddBody_counts m p : same_counts m (AddBody m p).
Proof. unfold AddBody. cbv zeta. repeat case_match; done. Qed.

Lemma AddHeader_counts m n v :
  fromHeaderCount (AddHeader m n v) = fromHeaderCount m + (if beq (toLower (trimSpace n)) (lit "from") then 1 else 0) /\
  forall name, in_set name countedSecurityHeaders = true ->
    count_of (headerOccurrences (AddHeader m n v)) name =
    count_of (headerOccurrences m) name + (if beq (toLower (trimSpace n)) name then 1 else 0).
Proof.
  unfold AddHeader. cbv zeta. set (m1 := addArchiveHeader m n v). set (k := toLower (trimSpace n)).
  destruct (addArchiveHeader_counts m n v) as [<- <-]. fold m1.
  assert (Hm : same_counts (count_header m1 k)
            (if negb (in_set k retainedHeaders) then count_header m1 k else retain_header (count_header m1 k) k v))
    by (case_match; [done|split; apply retain_header_frame]).
  destruct Hm as [-> ->]. unfold count_header. cbv zeta. split.
  - repeat case_match; cbn; lia.
  - intros name Hname.
    destruct (in_set k countedSecurityHeaders) eqn:Ek.
    + assert (Ho : forall b1 b2, headerOccurrences
        (let m2 := if b1 : bool then set_fromHeaderCount (fromHeaderCount m1 + 1) m1 else m1 in
         if b2 : bool then set_toHeaderSeen true m2 else m2) = headerOccurrences m1) by (by intros [] []).
      cbn [headerOccurrences set_headerOccurrences]. rewrite Ho. unfold count_of, beq.
      case_bool_decide as Hk; [subst name; by rewrite lookup_insert_eq|].
      rewrite lookup_insert_ne by done. lia.
    + assert (beq k name = false) as ->.
      { apply bool_decide_eq_false. intros ->. congruence. }
      rewrite Z.add_0_r. repeat case_match; done.
Qed.

Lemma run_ops_counts ops : forall m,
  fromHeaderCount (run_ops m ops) = fromHeaderCount m + times_named (lit "from") ops /\
  forall name, in_set name countedSecurityHeaders = true ->
    count_of (headerOccurrences (run_ops m ops)) name = count_of (headerOccurrences m) name + times_named name ops.
Proof.
  induction ops as [|o ops IH]; intros m.
  { split; [|intros name _]; change (times_named _ []) with 0; by rewrite Z.add_0_r. }
  change (run_ops m (o :: ops)) with (run_ops (apply_op m o) ops).
  destruct (IH (apply_op m o)) as [-> Hc]. unfold times_named in *. destruct o as [n v|p].
  - destruct (AddHeader_counts m n v) as [Hf Hn]. cbn [apply_op List.filter field_named] in *. split.
    + rewrite Hf. case_match; cbn [length]; lia.
    + intros name Hname. rewrite Hc, Hn by done. destruct (beq _ name); cbn [length]; lia.
  - cbn [apply_op List.filter field_named] in *. destruct (AddBody_counts m p) as [-> Ho]. split; [done|].
    intros name Hname. by rewrite Hc, Ho.
Qed.
End HeaderCounts.

(** ** Properties *)

(** Every transaction stays within its byte budget, whatever headers and body
    chunks arrive in whatever order: the archived header text takes at most half
    of [maxBytes], the body fits beside the separator, the retained values of
    each field stay under that field's limit, and the reconstructed archive is
    never longer than [maxBytes]. *)
Theorem message_budget `{UnicodeTables, HeaderDecoder} (now max : Z) (ops : list message_op) (Hmax : 0 <= max) :
  let m := run_ops (New now max) ops in
  archiveHeaderBytes m = go_len (archiveHeaders m) /\ go_len (archiveHeaders m) <= max ÷ 2 /\
  bodySize m = go_len (body m) /\ (body m = [] \/ go_len (body m) + 2 <= max) /\
  (forall name, charged name (values_of (headers m) name) <= name_limit name) /\
  go_len (ArchiveBytes m) <= max.
Proof.
  intros m. pose proof (run_ops_wf (New now max) ops (New_wf now max Hmax)) as Hw. fold m in Hw.
  destruct Hw as [H1 H2 H3 H4 H5 H6].
  assert (Hm : maxBytes m = max) by apply (run_ops_max (New now max) ops).
  rewrite Hm in *. split_and!; try done; try lia.
  - destruct H4 as [H4|H4]; [left|right; lia]. apply length_zero_iff_nil. unfold go_len in *. lia.
  - intros name. by rewrite <- H5.
  - pose proof (ArchiveBytes_length m). lia.
Qed.

Definition plain_decoder : HeaderDecoder := {| word_decode := Some |}.
Definition sample_ops : list message_op :=
  [OpHeader (lit "From") (lit "a@example.org"); OpHeader (lit "Subject") (lit "hi" ++ [LF] ++ lit "Bcc: x");
   OpBody (lit "hello "); OpBody (lit "world")].

Lemma message_budget_witness :
  let m := @run_ops basic_tables plain_decoder (New 0 64) sample_ops in
  0 <= 64 /\ go_len (archiveHeaders m) = 21 /\ body m = lit "hello world" /\ go_len (ArchiveBytes m) <= 64.
Proof.
  intros m. split_and!; [done|by vm_compute|by vm_compute|].
  apply (@message_budget basic_tables plain_decoder 0 64 sample_ops). lia.
Defined.

(** When the headers come first, the retained body is exactly the longest
    prefix of the body that fits beside them, however the MTA cut it into
    chunks; it is marked truncated exactly when something was dropped, and the
    headers can never take more than half of the budget from it. *)
Theorem body_is_longest_prefix `{UnicodeTables, HeaderDecoder} (now max : Z)
    (hdrs : list (gostring * gostring)) (chunks : list gostring) (Hmax : 0 <= max) :
  let m0 := run_ops (New now max) ((λ h, OpHeader h.1 h.2) <$> hdrs) in
  let m := run_ops m0 (OpBody <$> chunks) in
  body m = take (Z.to_nat (body_room m0)) (concat chunks) /\
  BodyTruncated m = (body_room m0 <? go_len (concat chunks)) /\
  max ÷ 2 - 2 <= body_room m0.
Proof.
  intros m0 m.
  assert (Hw : message_wf m0) by apply run_ops_wf, New_wf, Hmax.
  assert (Hm : maxBytes m0 = max) by apply (run_ops_max (New now max)).
  assert (Hb : no_body m0) by (by apply run_headers_no_body).
  destruct Hb as (Hb & Hs & Ht).
  destruct (run_bodies_prefix chunks m0 []) as [H1 H2].
  - by rewrite Hb, take_nil.
  - by rewrite Hs, Hb.
  - rewrite Ht. symmetry. apply Z.ltb_ge. unfold body_room. change (go_len []) with 0. lia.
  - split_and!; [done|done|]. unfold body_room. destruct Hw as [_ Hh _ _ _ _]. rewrite Hm in *.
    pose proof (quot2_bounds max Hmax). lia.
Qed.

Lemma body_is_longest_prefix_witness :
  let m0 := @run_ops basic_tables plain_decoder (New 0 40) [OpHeader (lit "To") (lit "b@e")] in
  0 <= 40 /\
  body (@run_ops basic_tables plain_decoder m0 (OpBody <$> [lit "0123456789"; lit "0123456789"; lit "0123456789"]))
  = lit "01234567890123456789012345678".
Proof.
  intros m0. split; [done|].
  destruct (@body_is_longest_prefix basic_tables plain_decoder 0 40 [(lit "To", lit "b@e")]
              [lit "0123456789"; lit "0123456789"; lit "0123456789"]) as [H _]; [done|].
  etransitivity; [exact H|]. by vm_compute.
Defined.

(** Occurrence counts survive every retention limit: after any sequence of
    operations [FromHeaderCount] is the number of From fields received and
    [HeaderOccurrences] of each policy header the number of times it was
    received, including occurrences whose values were dropped. *)
Theorem header_counts_exact `{UnicodeTables, HeaderDecoder} (now max : Z) (ops : list message_op) (name : gostring)
    (Hname : in_set (toLower (trimSpace name)) countedSecurityHeaders = true) :
  let m := run_ops (New now max) ops in
  FromHeaderCount m = times_named (lit "from") ops /\
  HeaderOccurrences m name = times_named (toLower (trimSpace name)) ops.
Proof.
  intros m. destruct (run_ops_counts ops (New now max)) as [Hf Ho]. split.
  - by unfold FromHeaderCount, m.
  - unfold HeaderOccurrences, m. rewrite Ho by done. cbn [New headerOccurrences]. by rewrite count_empty.
Qed.

Lemma header_counts_exact_witness :
  let ops := [OpHeader (lit " X-MilterGuard-Policy") (lit "x");
              OpHeader (lit "X-MILTERGUARD-POLICY ") (lit "y"); OpHeader (lit "From") (lit "z")] in
  @in_set (@toLower basic_tables (trimSpace (lit "X-MilterGuard-Policy"))) countedSecurityHeaders = true /\
  @HeaderOccurrences basic_tables (@run_ops basic_tables plain_decoder (New 0 100) ops) (lit "X-MilterGuard-Policy") = 2.
Proof.
  intros ops. split; [by vm_compute|].
  destruct (@header_counts_exact basic_tables plain_decoder 0 100 ops (lit "X-MilterGuard-Policy")) as [_ H];
    [by vm_compute|]. etransitivity; [exact H|]. by vm_compute.
Defined.

(** A saved archive is a well-formed message: its header block is the text of
    some of the supplied fields, whole and in order, perhaps followed by the
    truncation marker, then the separator and a prefix of the retained body.
    No supplied value can add a field of its own, since every line break inside
    a value is followed by a space. *)
Theorem archive_is_wellformed `{UnicodeTables, HeaderDecoder} (now max : Z) (ops : list message_op) (Hmax : 2 <= max) :
  let m := run_ops (New now max) ops in
  exists fs marker b,
    ArchiveBytes m = fields_text fs ++ marker ++ CRLF ++ b /\
    fs `sublist_of` supplied ops /\ fields_ok fs /\
    (marker = [] \/ marker = archiveTruncationHeader /\ (archiveHeadersTruncated m || BodyTruncated m) = true) /\
    b `prefix_of` body m /\
    Forall (λ f, forall x y, fold_value f.2 = x ++ CRLF ++ y -> exists y', y = " "%char :: y') fs.
Proof.
  intros m. assert (Hm : maxBytes m = max) by apply (run_ops_max (New now max)).
  destruct (run_ops_archive ops (New now max) []) as (gs & Hgs & Hok & Hsub); [done|constructor|].
  cbn [app] in *. fold m in Hgs. unfold ArchiveBytes. rewrite Hm. replace (max <? 2) with false by lia. cbv zeta.
  set (mark := (_ || _) && _). set (reserved := if mark then _ else 2).
  set (marker := if mark then archiveTruncationHeader else []).
  assert (Hr : reserved = 2 + go_len marker /\ reserved <= max).
  { unfold reserved, marker, mark. destruct (archiveHeadersTruncated m || BodyTruncated m); cbn [andb];
      [|cbv iota; change (go_len []) with 0; lia].
    destruct (_ <=? max) eqn:E; cbv iota; [apply Z.leb_le in E|change (go_len []) with 0]; lia. }
  assert (Hfields : exists k, completeArchiveHeaderPrefix (archiveHeaders m) (max - reserved) = fields_text (take k gs) /\
            go_len (fields_text (take k gs)) <= max - reserved).
  { rewrite Hgs. destruct (decide (0 < max - reserved)) as [Hp|Hp].
    - destruct (completeArchiveHeaderPrefix_fields gs (max - reserved) Hok Hp) as (k & ? & ? & _). by exists k.
    - exists O. unfold completeArchiveHeaderPrefix. replace (max - reserved <=? 0) with true by lia.
      split; [done|]. change (go_len (fields_text (take 0 gs))) with 0. lia. }
  destruct Hfields as (k & -> & Hlen). set (fs := take k gs) in *.
  assert (Hout : go_len (fields_text fs ++ marker ++ CRLF) <= max).
  { rewrite !go_len_app. change (go_len CRLF) with 2. lia. }
  assert (Hsubs : fs `sublist_of` supplied ops) by (etransitivity; [apply sublist_take|done]).
  assert (Hfok : fields_ok fs) by (apply Forall_take, Hok).
  assert (Hmk : marker = [] \/ marker = archiveTruncationHeader /\ (archiveHeadersTruncated m || BodyTruncated m) = true).
  { unfold marker. destruct mark eqn:Em; [right|by left]. by apply andb_true_iff in Em as [-> _]. }
  assert (Hcont : Forall (λ f : gostring * gostring,
            forall x y, fold_value f.2 = x ++ CRLF ++ y -> exists y', y = " "%char :: y') fs)
    by (apply Forall_true; intros; by eapply fold_value_continuation).
  destruct (_ <=? 0) eqn:E.
  - exists fs, marker, []. rewrite app_nil_r. split_and!; try done; [|by apply prefix_nil].
    apply take_ge. unfold go_len in *. lia.
  - eexists fs, marker, _. rewrite <- !app_assoc. split_and!; try done.
    destruct (_ <? _); [apply prefix_take|done].
Qed.

Lemma archive_is_wellformed_witness :
  2 <= 64 /\ (exists fs marker b,
    ArchiveBytes (@run_ops basic_tables plain_decoder (New 0 64) sample_ops) = fields_text fs ++ marker ++ CRLF ++ b /\
    fs `sublist_of` supplied sample_ops).
Proof.
  split; [lia|].
  destruct (@archive_is_wellformed basic_tables plain_decoder 0 64 sample_ops) as (fs & mk & b & H & Hs & _); [lia|].
  exists fs, mk, b. exact (conj H Hs).
Defined.
