(* ===== verification/MailAuth.v ===== *)
(** * Authentication evidence (internal/mailauth/evidence.go, alignment.go)

    How authentication results become the alignment conclusions that policy
    uses.  The public suffix list is the class [PublicSuffix]. *)
From S2P Require Import Prelude GoText NetSafety.
Import NetSafety.

(** golang.org/x/net/publicsuffix: [EffectiveTLDPlusOne] ([None] is its error)
    and [PublicSuffix] (the suffix and whether an ICANN rule gave it). *)
Class PublicSuffix := {
  effective_tld_plus_one : gostring -> option gostring;
  public_suffix : gostring -> gostring * bool;
}.

Inductive Method := MethodDKIM | MethodSPF | MethodDMARC | MethodOther (name : gostring).
#[export] Instance Method_eq_dec : EqDecision Method.
Proof. solve_decision. Defined.

(** [Outcome], [ErrorCategory] and [SPFIdentity] are string types. *)
Definition OutcomeNone := lit "none".
Definition OutcomeNeutral := lit "neutral".
Definition OutcomePass := lit "pass".
Definition OutcomeFail := lit "fail".
Definition OutcomeSoftfail := lit "softfail".
Definition OutcomePolicy := lit "policy".
Definition OutcomeTemperror := lit "temperror".
Definition OutcomePermerror := lit "permerror".
Definition ErrorInternal := lit "internal".
Definition SPFIdentityMailFrom := lit "mailfrom".
Definition SPFIdentityHELO := lit "helo".

Record Result := MkResult {
  res_Method : Method;
  res_Outcome : gostring;
  res_Domain : gostring;
  res_SPFIdentity : gostring;
  res_Aligned : bool;
  res_Reason : gostring;
  res_ErrorCategory : gostring;
  res_BodyLengthLimited : bool;
  res_SPFMechanism : gostring;
  res_AlignedSPFPass : bool;
  res_AlignedDKIMPass : bool;
}.
#[export] Instance Result_eq_dec : EqDecision Result.
Proof. solve_decision. Defined.

(** A result as the header parsers build it: the other fields are zero. *)
Definition header_result (m : Method) (outcome domain identity : gostring) : Result :=
  MkResult m outcome domain identity false [] [] false [] false false.

Record Evidence := MkEvidence {
  ev_Results : list Result;
  DKIMAligned : bool;
  SPFAligned : bool;
  DMARCAligned : bool;
  VisibleDomain : gostring;
}.

Section MailAuth.
Context `{UnicodeTables, PublicSuffix}.

(** ** alignment.go *)

Definition NormalizeDomain (value : gostring) : gostring := NormalizeDNSName value true.

Definition DomainFromIdentity (value : gostring) : gostring :=
  let value := trimSet (trimSpace value) (lit "<>") in
  NormalizeDomain (match after_last "@" value with Some domain => domain | None => value end).

Definition DomainAligned (authenticatedDomain fromDomain : gostring) : bool :=
  let authenticatedDomain := NormalizeDomain authenticatedDomain in
  let fromDomain := NormalizeDomain fromDomain in
  if beq authenticatedDomain [] || beq fromDomain [] then false
  else match effective_tld_plus_one authenticatedDomain, effective_tld_plus_one fromDomain with
       | Some authenticatedOrg, Some fromOrg => equalFold authenticatedOrg fromOrg
       | _, _ => false
       end.

(** ** evidence.go *)

Definition set_Aligned (a : bool) (r : Result) : Result :=
  MkResult (res_Method r) (res_Outcome r) (res_Domain r) (res_SPFIdentity r) a (res_Reason r)
    (res_ErrorCategory r) (res_BodyLengthLimited r) (res_SPFMechanism r) (res_AlignedSPFPass r) (res_AlignedDKIMPass r).

Definition result_aligned (visibleDomain : gostring) (r : Result) : bool :=
  let aligned := beq (res_Outcome r) OutcomePass && DomainAligned (res_Domain r) visibleDomain in
  if bool_decide (res_Method r = MethodDMARC) && beq (res_Outcome r) OutcomePass &&
     (res_AlignedSPFPass r || res_AlignedDKIMPass r)
  then true else aligned.

(** One iteration of the loop over the copied results. *)
Definition evidence_step (visibleDomain : gostring) (e : Evidence) (r : Result) : Evidence :=
  let r := set_Aligned (result_aligned visibleDomain r) r in
  let a := res_Aligned r in
  let '(MkEvidence rs dkim spf dmarc dom) := e in
  let rs := rs ++ [r] in
  match res_Method r with
  | MethodDKIM => MkEvidence rs (dkim || a) spf dmarc dom
  | MethodSPF => MkEvidence rs dkim (spf || a) dmarc dom
  | MethodDMARC => MkEvidence rs dkim spf (dmarc || a) dom
  | MethodOther _ => MkEvidence rs dkim spf dmarc dom
  end.

Definition NewEvidence (results : list Result) (visibleDomain : gostring) : Evidence :=
  let visibleDomain := NormalizeDomain visibleDomain in
  fold_left (evidence_step visibleDomain) results (MkEvidence [] false false false visibleDomain).

Definition unavailable_step (reason : gostring) (results : list Result) (m : Method) : list Result :=
  if existsb (λ r, bool_decide (res_Method r = m)) results then results
  else results ++ [MkResult m OutcomeTemperror [] [] false reason ErrorInternal false [] false false].

Definition EvidenceWithUnavailableMethods (results : list Result) (visibleDomain reason : gostring)
    (methods : list Method) : Evidence :=
  NewEvidence (fold_left (unavailable_step reason) methods results) visibleDomain.

Definition AnyAligned (e : Evidence) : bool := DKIMAligned e || SPFAligned e || DMARCAligned e.
End MailAuth.

(** ** Alignment facts *)

Section AlignmentFacts.
Context `{UnicodeTables, PublicSuffix}.

Lemma NormalizeDomain_idem v : NormalizeDomain (NormalizeDomain v) = NormalizeDomain v.
Proof. apply NormalizeDNSName_idem. Qed.

Lemma DomainAligned_normalized a b : DomainAligned (NormalizeDomain a) (NormalizeDomain b) = DomainAligned a b.
Proof. unfold DomainAligned. by rewrite !NormalizeDomain_idem. Qed.

Lemma equalFold_sym a b : equalFold a b = equalFold b a.
Proof. unfold equalFold. apply bool_decide_ext. naive_solver. Qed.

Lemma DomainAligned_sym a b : DomainAligned a b = DomainAligned b a.
Proof.
  unfold DomainAligned. cbv zeta. rewrite orb_comm. destruct (_ || _); [done|].
  destruct (effective_tld_plus_one (NormalizeDomain a)), (effective_tld_plus_one (NormalizeDomain b)); [|done..].
  apply equalFold_sym.
Qed.

Definition any_aligned (m : Method) (domain : gostring) (rs : list Result) : bool :=
  existsb (λ r, bool_decide (res_Method r = m) && result_aligned domain r) rs.

Lemma evidence_fold domain rs : forall e,
  let e' := fold_left (evidence_step domain) rs e in
  ev_Results e' = ev_Results e ++ ((λ r, set_Aligned (result_aligned domain r) r) <$> rs) /\
  DKIMAligned e' = DKIMAligned e || any_aligned MethodDKIM domain rs /\
  SPFAligned e' = SPFAligned e || any_aligned MethodSPF domain rs /\
  DMARCAligned e' = DMARCAligned e || any_aligned MethodDMARC domain rs /\
  VisibleDomain e' = VisibleDomain e.
Proof.
  induction rs as [|r rs IH]; intros e.
  { cbn. rewrite app_nil_r, !orb_false_r. done. }
  cbn [fold_left]. destruct (IH (evidence_step domain e r)) as (H1 & H2 & H3 & H4 & H5).
  cbv zeta. rewrite H1, H2, H3, H4, H5. destruct e as [es a b c d]. cbn [fmap list_fmap].
  unfold evidence_step. cbn [set_Aligned res_Method res_Aligned any_aligned existsb].
  destruct (res_Method r); cbn [ev_Results DKIMAligned SPFAligned DMARCAligned VisibleDomain];
    rewrite ?bool_decide_eq_true_2 by done; rewrite <- ?app_assoc; split_and!; try done;
    rewrite ?(bool_decide_eq_false_2 (_ = _)) by done; rewrite ?orb_assoc; done.
Qed.

Lemma NewEvidence_fields rs visible :
  let d := NormalizeDomain visible in
  let e := NewEvidence rs visible in
  ev_Results e = ((λ r, set_Aligned (result_aligned d r) r) <$> rs) /\
  DKIMAligned e = any_aligned MethodDKIM d rs /\
  SPFAligned e = any_aligned MethodSPF d rs /\
  DMARCAligned e = any_aligned MethodDMARC d rs /\ VisibleDomain e = d.
Proof.
  cbv zeta. unfold NewEvidence. cbv zeta.
  by destruct (evidence_fold (NormalizeDomain visible) rs (MkEvidence [] false false false (NormalizeDomain visible)))
    as (-> & -> & -> & -> & ->).
Qed.

Lemma any_aligned_spec m d rs : any_aligned m d rs = true <->
  exists r, r ∈ rs /\ res_Method r = m /\ result_aligned d r = true.
Proof.
  unfold any_aligned. rewrite existsb_exists. setoid_rewrite andb_true_iff.
  setoid_rewrite bool_decide_eq_true. setoid_rewrite <- list_elem_of_In. naive_solver.
Qed.

Lemma unavailable_fold reason ms : forall rs,
  exists added, fold_left (unavailable_step reason) ms rs = rs ++ added /\
    Forall (λ r, res_Outcome r = OutcomeTemperror /\ res_Method r ∈ ms /\ res_AlignedSPFPass r = false) added /\
    (forall m, m ∈ ms -> exists r, r ∈ rs ++ added /\ res_Method r = m).
Proof.
  induction ms as [|m ms IH]; intros rs; [exists []; rewrite app_nil_r; split_and!; set_solver|].
  cbn [fold_left]. destruct (IH (unavailable_step reason rs m)) as (added & -> & Ha & Hm).
  unfold unavailable_step in *. destruct (existsb _ rs) eqn:E.
  - exists added. split_and!; [done|eapply Forall_impl; [exact Ha|]; naive_solver set_solver|].
    intros m' [->|Hin]%elem_of_cons; [|auto].
    apply existsb_exists in E as (r & Hr & Hb). apply bool_decide_eq_true in Hb.
    exists r. split; [|done]. apply elem_of_app. left. by apply list_elem_of_In.
  - eexists (_ :: added). split; [by rewrite <- app_assoc|]. split.
    + constructor; [split_and!; [done|set_solver|done]|]. eapply Forall_impl; [exact Ha|]. naive_solver set_solver.
    + intros m' [->|Hin]%elem_of_cons; [eexists; split; [apply elem_of_app; right; left|done]|].
      destruct (Hm m' Hin) as (r & Hr & He). rewrite <- app_assoc in Hr. eauto.
Qed.

Lemma temperror_not_aligned d r : res_Outcome r = OutcomeTemperror -> result_aligned d r = false.
Proof.
  intros Ho. unfold result_aligned. rewrite Ho. change (beq OutcomeTemperror OutcomePass) with false.
  by rewrite andb_false_r.
Qed.

Lemma any_aligned_app m d rs rs' : any_aligned m d (rs ++ rs') = any_aligned m d rs || any_aligned m d rs'.
Proof. apply existsb_app. Qed.

Lemma any_aligned_temperror m d rs : Forall (λ r, res_Outcome r = OutcomeTemperror) rs -> any_aligned m d rs = false.
Proof.
  induction 1 as [|r rs Hr Hrs IH]; [done|]. unfold any_aligned in *. cbn.
  by rewrite temperror_not_aligned, andb_false_r by done.
Qed.
End AlignmentFacts.

(** ** Properties *)

(** Alignment is concluded only from passing results: each flag of the evidence
    is set exactly when some result of that method passed and its domain has
    the same organizational domain as the visible sender, or, for DMARC alone,
    when the verifier itself recorded an aligned pass.  Any other outcome, an
    unusable domain or an unusable visible domain gives no alignment, and the
    results are kept in order. *)
Theorem evidence_alignment_exact `{UnicodeTables, PublicSuffix} (results : list Result) (visible : gostring) :
  let e := NewEvidence results visible in
  let aligned m := exists r, r ∈ results /\ res_Method r = m /\ res_Outcome r = OutcomePass /\
    (DomainAligned (res_Domain r) visible = true \/
     m = MethodDMARC /\ (res_AlignedSPFPass r || res_AlignedDKIMPass r) = true) in
  (DKIMAligned e = true <-> aligned MethodDKIM) /\
  (SPFAligned e = true <-> aligned MethodSPF) /\
  (DMARCAligned e = true <-> aligned MethodDMARC) /\
  (NormalizeDomain visible = [] -> forall m, m <> MethodDMARC -> ~ aligned m) /\
  ((λ r, (res_Method r, res_Outcome r, res_Domain r)) <$> ev_Results e) =
  ((λ r, (res_Method r, res_Outcome r, res_Domain r)) <$> results).
Proof.
  intros e aligned. destruct (NewEvidence_fields results visible) as (Hr & Hd & Hs & Hm & _).
  assert (Hiff : forall m, any_aligned m (NormalizeDomain visible) results = true <-> aligned m).
  { intros m. rewrite any_aligned_spec. unfold aligned.
    assert (Hres : forall r, res_Method r = m -> result_aligned (NormalizeDomain visible) r = true <->
      res_Outcome r = OutcomePass /\ (DomainAligned (res_Domain r) visible = true \/
        m = MethodDMARC /\ (res_AlignedSPFPass r || res_AlignedDKIMPass r) = true)).
    { intros r <-. unfold result_aligned.
      assert (DomainAligned (res_Domain r) (NormalizeDomain visible) = DomainAligned (res_Domain r) visible) as ->
        by (unfold DomainAligned; by rewrite NormalizeDomain_idem).
      unfold beq. do 2 case_bool_decide; cbn [andb]; destruct (_ || _), (DomainAligned _ _); naive_solver. }
    naive_solver. }
  fold e in Hr, Hd, Hs, Hm. rewrite Hd, Hs, Hm. split_and!; try apply Hiff.
  - intros Hn m Hne (r & _ & _ & _ & [Ha|[-> _]]); [|done].
    unfold DomainAligned in Ha. rewrite Hn, orb_true_r in Ha. done.
  - rewrite Hr, <- list_fmap_compose. done.
Qed.

Definition last_two_labels : PublicSuffix := {|
  effective_tld_plus_one := λ d, match rev (split "." d) with
                                 | a :: b :: _ => Some (b ++ lit "." ++ a) | _ => None end;
  public_suffix := λ d, (match rev (split "." d) with a :: _ => a | [] => d end, true) |}.

Lemma evidence_alignment_exact_witness :
  NormalizeDomain (H:=basic_tables) (lit "not a domain") = [] /\
  ~ (exists r, r ∈ [header_result MethodDKIM OutcomePass (lit "example.org") []] /\ res_Method r = MethodDKIM /\
     res_Outcome r = OutcomePass /\
     (@DomainAligned basic_tables last_two_labels (res_Domain r) (lit "not a domain") = true \/
      MethodDKIM = MethodDMARC /\ (res_AlignedSPFPass r || res_AlignedDKIMPass r) = true)).
Proof.
  assert (H : NormalizeDomain (H:=basic_tables) (lit "not a domain") = []) by (by vm_compute).
  split; [exact H|].
  destruct (@evidence_alignment_exact basic_tables last_two_labels
              [header_result MethodDKIM OutcomePass (lit "example.org") []] (lit "not a domain")) as (_ & _ & _ & Hn & _).
  apply (Hn H MethodDKIM). discriminate.
Defined.

(** Marking methods unavailable never changes a conclusion: the alignment flags
    are those of the results alone, the supplied results stay first and in
    order, and every requested method is represented afterwards. *)
Theorem unavailable_methods_neutral `{UnicodeTables, PublicSuffix} (results : list Result)
    (visible reason : gostring) (methods : list Method) :
  let e := EvidenceWithUnavailableMethods results visible reason methods in
  let e0 := NewEvidence results visible in
  DKIMAligned e = DKIMAligned e0 /\ SPFAligned e = SPFAligned e0 /\ DMARCAligned e = DMARCAligned e0 /\
  AnyAligned e = AnyAligned e0 /\ ev_Results e0 `prefix_of` ev_Results e /\
  (forall m, m ∈ methods -> m ∈ (res_Method <$> ev_Results e)).
Proof.
  intros e e0. unfold e, EvidenceWithUnavailableMethods.
  destruct (unavailable_fold reason methods results) as (added & -> & Ha & Hm).
  destruct (NewEvidence_fields (results ++ added) visible) as (Hr & Hd & Hs & Hdm & _).
  destruct (NewEvidence_fields results visible) as (Hr0 & Hd0 & Hs0 & Hdm0 & _).
  assert (Hno : forall m, any_aligned m (NormalizeDomain visible) added = false).
  { intros m. apply any_aligned_temperror. eapply Forall_impl; [exact Ha|]. naive_solver. }
  unfold AnyAligned, e0. rewrite Hr, Hd, Hs, Hdm, Hr0, Hd0, Hs0, Hdm0, !any_aligned_app, !Hno, !orb_false_r.
  split_and!; try done.
  - rewrite fmap_app. by eexists.
  - intros m (r & Hin & <-)%Hm. rewrite <- list_fmap_compose. apply list_elem_of_fmap. exists r. done.
Qed.
