(* ===== verification/AuthResults.v ===== *)
(** * Trusted authentication headers (internal/mailauth/authentication_results.go,
    received_spf.go)

    The parsers of Authentication-Results and Received-SPF.  An index into the
    header is represented by the text from that index on, so [value[i:]] is the
    argument of each scanning function.  The two regular expressions are
    written out as matchers with the case folding and word boundaries of Go's
    regexp package. *)
From S2P Require Import Prelude GoText NetSafety MailAuth.

(** ** The regular expressions

    [(?i)] also folds U+017F to s and U+212A to k; [\s] is five ASCII bytes and
    [\b] an ASCII word boundary. *)

Definition re_fold (r : Z) : Z :=
  if r =? 383 then 115 else if r =? 8490 then 107 else lowerZ r.
Definition re_space (c : ascii) : bool := bool_decide (code c ∈ [9; 10; 12; 13; 32]).
Definition re_word (r : Z) : bool :=
  ((48 <=? r) && (r <=? 57)) || ((65 <=? r) && (r <=? 90)) || (r =? 95) || ((97 <=? r) && (r <=? 122)).
Definition re_letter (r : Z) : bool := (97 <=? re_fold r) && (re_fold r <=? 122).
Definition re_result_char (r : Z) : bool := re_letter r || ((48 <=? r) && (r <=? 57)) || (r =? 95) || (r =? 45).

Fixpoint skip_while (f : ascii -> bool) (s : gostring) : gostring :=
  match s with c :: s' => if f c then skip_while f s' else s | [] => [] end.
Fixpoint take_while (f : ascii -> bool) (s : gostring) : gostring :=
  match s with c :: s' => if f c then c :: take_while f s' else [] | [] => [] end.

(** A case-folded literal; the text that remains after it. *)
Fixpoint re_literal (word : list Z) (s : gostring) : option gostring :=
  match word with
  | [] => Some s
  | l :: word' =>
      match s with
      | [] => None
      | _ => let '(r, w) := decode_rune s in
             if re_fold r =? l then re_literal word' (drop w s) else None
      end
  end.

Definition re_boundary (prev : bool) (s : gostring) : bool :=
  xorb prev (match s with c :: _ => re_word (code c) | [] => false end).

(** [[a-z0-9_-]{0,n}\b], longest match first: the number of bytes matched. *)
Fixpoint re_result_tail (n : nat) (prev : bool) (s : gostring) : option nat :=
  let stop := if re_boundary prev s then Some 0%nat else None in
  match n with
  | O => stop
  | S n' =>
      match s with
      | [] => stop
      | _ => let '(r, w) := decode_rune s in
             if re_result_char r
             then match re_result_tail n' (re_word r) (drop w s) with
                  | Some k => Some (w + k)%nat
                  | None => stop
                  end
             else stop
      end
  end.

(** [([a-z][a-z0-9_-]{0,31})\b]: the submatch and the text after it. *)
Definition re_result (s : gostring) : option (gostring * gostring) :=
  match s with
  | [] => None
  | _ => let '(r, w) := decode_rune s in
         if re_letter r
         then match re_result_tail 31 (re_word r) (drop w s) with
              | Some k => Some (take (w + k) s, drop (w + k) s)
              | None => None
              end
         else None
  end.

Definition keyword (w : string) : list Z := code <$> lit w.

(** [authenticationMethodPattern]: both submatches and the text after the match. *)
Definition match_method (clause : gostring) : option (gostring * gostring * gostring) :=
  let s := skip_while re_space clause in
  let after := List.find (λ o, match o with Some _ => true | None => false end)
                 [re_literal (keyword "dkim") s; re_literal (keyword "spf") s; re_literal (keyword "dmarc") s] in
  match after with
  | Some (Some rest) =>
      let name := take (length s - length rest) s in
      match skip_while re_space rest with
      | c :: rest => if ceq c "=" then
          match re_result (skip_while re_space rest) with
          | Some (outcome, remainder) => Some (name, outcome, remainder)
          | None => None
          end else None
      | [] => None
      end
  | _ => None
  end.

(** [receivedSPFResultPattern] *)
Definition match_spf_result (header : gostring) : option gostring := fst <$> re_result (skip_while re_space header).

(** ** Lexical helpers *)

Definition isAuthenticationWhitespace (c : ascii) : bool := ceq c " " || ceq c (chr 9) || ceq c CR || ceq c LF.
Definition skipAuthenticationWhitespace (s : gostring) : gostring := skip_while isAuthenticationWhitespace s.
Definition isAuthenticationNameByte (c : ascii) : bool :=
  in_range 97 122 c || in_range 65 90 c || in_range 48 57 c || ceq c "_" || ceq c "-".

Definition DQUOTE : ascii := chr 34.
Definition BACKSLASH : ascii := chr 92.

(** The rest of a quoted value; [acc] is the builder. *)
Fixpoint quoted_go (acc : gostring) (s : gostring) : option (gostring * gostring) :=
  match s with
  | [] => None
  | c :: s' =>
      if ceq c BACKSLASH then match s' with d :: s'' => quoted_go (acc ++ [d]) s'' | [] => None end
      else if ceq c DQUOTE then Some (acc, s')
      else quoted_go (acc ++ [c]) s'
  end.
Definition readAuthenticationQuotedValue (s : gostring) : option (gostring * gostring) :=
  match s with
  | c :: s' => if ceq c DQUOTE then quoted_go [] s' else None
  | [] => None
  end.

(** The value that starts at [s]: quoted, in angle brackets, or bare. *)
Definition read_property_value (s : gostring) : option (gostring * gostring) :=
  match s with
  | [] => None
  | c :: s' =>
      if ceq c DQUOTE then readAuthenticationQuotedValue s
      else if ceq c "<" then cut ">" s'
      else
        let value := take_while (λ c, negb (isAuthenticationWhitespace c)) s in
        if existsb (λ c, containsByte [DQUOTE; "<"%char; ">"%char] c) value then None
        else Some (value, drop (length value) s)
  end.

Section AuthResults.
Context `{UnicodeTables, PublicSuffix}.

Definition read_property_name (s : gostring) : option (gostring * gostring) :=
  let name := take_while isAuthenticationNameByte s in
  if beq name [] then None else Some (toLower name, drop (length name) s).

(** One assignment, from its separating white space on. *)
Definition read_assignment (s : gostring) : option (gostring * gostring * gostring) :=
  match read_property_name s with
  | None => None
  | Some (key, s) =>
      let s := skipAuthenticationWhitespace s in
      let qualified :=
        match s with
        | c :: s' =>
            if ceq c "." then
              match read_property_name (skipAuthenticationWhitespace s') with
              | Some (sub, s) => Some (key ++ lit "." ++ sub, skipAuthenticationWhitespace s)
              | None => None
              end
            else Some (key, s)
        | [] => Some (key, s)
        end in
      match qualified with
      | None => None
      | Some (key, s) =>
          match s with
          | c :: s' =>
              if negb (ceq c "=") then None
              else match read_property_value (skipAuthenticationWhitespace s') with
                   | Some (value, s) => Some (key, value, s)
                   | None => None
                   end
          | [] => None
          end
      end
  end.

(** [None] is the nil map of a malformed clause.  Every assignment consumes at
    least one byte, so the length of the clause is enough fuel. *)
Fixpoint properties_go (fuel : nat) (s : gostring) (properties : gmap gostring gostring) : option (gmap gostring gostring) :=
  match s, fuel with
  | [], _ => Some properties
  | _, O => None
  | _ :: _, S fuel' =>
      match skipAuthenticationWhitespace s with
      | [] => Some properties
      | next =>
          if bool_decide (length next = length s) then None
          else match read_assignment next with
               | None => None
               | Some (key, value, rest) =>
                   match properties !! key with
                   | Some _ => None
                   | None => properties_go fuel' rest (<[key := value]> properties)
                   end
               end
      end
  end.
Definition authenticationProperties (clause : gostring) : option (gmap gostring gostring) :=
  properties_go (length clause) clause ∅.

(** Reading the possibly nil map. *)
Definition property (properties : option (gmap gostring gostring)) (key : gostring) : option gostring :=
  properties ≫= λ m, m !! key.

Definition authenticationResultsSPFIdentity (properties : option (gmap gostring gostring)) : gostring * gostring :=
  let domain := DomainFromIdentity (default [] (property properties (lit "smtp.mailfrom"))) in
  if negb (beq domain []) then (domain, SPFIdentityMailFrom)
  else match property properties (lit "smtp.helo") with
       | Some identity => (DomainFromIdentity identity, SPFIdentityHELO)
       | None => ([], [])
       end.

Definition normalizeHeaderOutcome (m : Method) (value : gostring) : gostring :=
  let value := toLower value in
  if bool_decide (m = MethodSPF) && beq value (lit "tempfail") then OutcomeTemperror else value.

(** ** Comments and clauses *)

Fixpoint strip_go (s : gostring) (commentDepth : nat) (quoted escaped : bool) (clean : gostring) : option gostring :=
  match s with
  | [] => if bool_decide (commentDepth <> 0%nat) || quoted || escaped then None else Some clean
  | char :: s' =>
      match commentDepth with
      | S depth =>
          if escaped then strip_go s' commentDepth quoted false clean
          else if ceq char BACKSLASH then strip_go s' commentDepth quoted true clean
          else if ceq char "(" then strip_go s' (S commentDepth) quoted escaped clean
          else if ceq char ")" then
            strip_go s' depth quoted escaped (if bool_decide (depth = 0%nat) then clean ++ lit " " else clean)
          else strip_go s' commentDepth quoted escaped clean
      | O =>
          if quoted then
            let clean := clean ++ [char] in
            if escaped then strip_go s' 0 quoted false clean
            else if ceq char BACKSLASH then strip_go s' 0 quoted true clean
            else if ceq char DQUOTE then strip_go s' 0 false escaped clean
            else strip_go s' 0 quoted escaped clean
          else if ceq char "(" then strip_go s' 1 quoted escaped clean
          else if ceq char ")" then None
          else if ceq char DQUOTE then strip_go s' 0 true escaped (clean ++ [char])
          else strip_go s' 0 quoted escaped (clean ++ [char])
      end
  end.
Definition stripAuthenticationComments (value : gostring) : option gostring := strip_go value 0 false false [].

(** [cur] is [value[start:index]]. *)
Fixpoint clauses_go (s : gostring) (quoted escaped : bool) (cur : gostring) : list gostring :=
  match s with
  | [] => [cur]
  | char :: s' =>
      if quoted && escaped then clauses_go s' quoted false (cur ++ [char])
      else if quoted && ceq char BACKSLASH then clauses_go s' quoted true (cur ++ [char])
      else if ceq char DQUOTE then clauses_go s' (negb quoted) escaped (cur ++ [char])
      else if ceq char ";" && negb quoted then cur :: clauses_go s' quoted escaped []
      else clauses_go s' quoted escaped (cur ++ [char])
  end.
Definition splitAuthenticationClauses (value : gostring) : list gostring := clauses_go value false false [].

Definition appendUnique (results : list Result) (candidate : Result) : list Result :=
  if existsb (λ r, bool_decide (r = candidate)) results then results else results ++ [candidate].

Definition normalizeAuthservID (value : gostring) : gostring := trimSuffix (toLower (trimSpace value)) (lit ".").
Definition normalizedAuthservIDs (values : list gostring) : list gostring :=
  List.filter (λ v, negb (beq v [])) (normalizeAuthservID <$> values).
Definition trusts (trusted : list gostring) (id : gostring) : bool := bool_decide (id ∈ trusted).

(** ** received_spf.go *)

Definition spf_blank (c : ascii) : bool := ceq c " " || ceq c (chr 9).
Definition isSPFTokenByte (c : ascii) : bool :=
  in_range 33 126 c &&
  negb (containsByte ["("; ")"; "<"; ">"; "@"; ","; ";"; ":"; BACKSLASH; "["; "]"; "="; DQUOTE]%char c).

(** The text after the comment that starts at [s]; [None] if it is not closed. *)
Fixpoint skipSPFComment (depth : Z) (escaped : bool) (s : gostring) : option gostring :=
  match s with
  | [] => None
  | char :: s' =>
      if escaped then skipSPFComment depth false s'
      else if ceq char BACKSLASH then skipSPFComment depth true s'
      else if ceq char "(" then skipSPFComment (depth + 1) false s'
      else if ceq char ")" then if depth - 1 =? 0 then Some s' else skipSPFComment (depth - 1) false s'
      else skipSPFComment depth false s'
  end.

Fixpoint spf_quoted (escaped : bool) (decoded : gostring) (s : gostring) : option (gostring * gostring) :=
  match s with
  | [] => None
  | char :: s' =>
      if escaped then spf_quoted false (decoded ++ [char]) s'
      else if ceq char BACKSLASH then spf_quoted true decoded s'
      else if ceq char DQUOTE then Some (decoded, s')
      else spf_quoted false (decoded ++ [char]) s'
  end.
Definition readSPFParameterValue (s : gostring) : option (gostring * gostring) :=
  match s with
  | [] => None
  | c :: s' =>
      if negb (ceq c DQUOTE) then
        let value := take_while (λ c, negb (spf_blank c || ceq c ";" || ceq c "(")) s in
        if beq value [] then None else Some (value, drop (length value) s)
      else spf_quoted false [] s'
  end.

(** White space, semicolons and comments before a parameter name. *)
Fixpoint spf_gap (fuel : nat) (s : gostring) : option gostring :=
  match fuel with
  | O => None
  | S fuel' =>
      let s := skip_while (λ c, spf_blank c || ceq c ";") s in
      match s with
      | c :: _ => if ceq c "(" then
                    match skipSPFComment 0 false s with Some s => spf_gap fuel' s | None => None end
                  else Some s
      | [] => Some s
      end
  end.

Fixpoint spf_parameter_go (fuel : nat) (s wanted : gostring) : option gostring :=
  match fuel with
  | O => None
  | S fuel' =>
      match spf_gap (S (length s)) s with
      | None => None
      | Some s =>
          let key := take_while isSPFTokenByte s in
          if beq key [] then None
          else match skip_while spf_blank (drop (length key) s) with
               | c :: s' =>
                   if negb (ceq c "=") then None
                   else match readSPFParameterValue (skip_while spf_blank s') with
                        | None => None
                        | Some (parameter, rest) =>
                            if equalFold key wanted then Some parameter else spf_parameter_go fuel' rest wanted
                        end
               | [] => None
               end
      end
  end.
Definition receivedSPFParameter (value wanted : gostring) : option gostring :=
  let s := skip_while spf_blank value in
  let token := take_while isSPFTokenByte s in
  if beq token [] then None else spf_parameter_go (S (length value)) (drop (length token) s) wanted.

Definition receivedSPFEnvelopeDomain (header : gostring) : gostring :=
  DomainFromIdentity (default [] (receivedSPFParameter header (lit "envelope-from"))).

Definition received_spf_result (trusted : list gostring) (header : gostring) : option Result :=
  match receivedSPFParameter header (lit "receiver") with
  | Some receiver =>
      if negb (trusts trusted (normalizeAuthservID receiver)) then None
      else match match_spf_result header with
           | None => None
           | Some outcome =>
               let domain := receivedSPFEnvelopeDomain header in
               let scope := if negb (beq domain []) then SPFIdentityMailFrom else [] in
               let identity := receivedSPFParameter header (lit "identity") in
               let nullEnvelope :=
                 match receivedSPFParameter header (lit "envelope-from") with
                 | Some envelope => beq (trimSpace envelope) [] || beq (trimSpace envelope) (lit "<>")
                 | None => false
                 end in
               let helo := equalFold (default [] identity) (lit "helo")
                           || (negb (bool_decide (is_Some identity)) && nullEnvelope) in
               let '(domain, scope) :=
                 if helo then (DomainFromIdentity (default [] (receivedSPFParameter header (lit "helo"))), SPFIdentityHELO)
                 else (domain, scope) in
               Some (header_result MethodSPF (normalizeHeaderOutcome MethodSPF outcome) domain scope)
           end
  | None => None
  end.

Definition appendReceivedSPF (results : list Result) (headers : list gostring) (trusted : list gostring) : list Result :=
  fold_left (λ results header,
    match received_spf_result trusted header with Some r => appendUnique results r | None => results end) headers results.

(** ** Parse *)

Definition method_of (name : gostring) : Method :=
  if beq name (lit "dkim") then MethodDKIM else if beq name (lit "spf") then MethodSPF
  else if beq name (lit "dmarc") then MethodDMARC else MethodOther name.

(** One clause after the authserv-id. *)
Definition clause_result (clause : gostring) : option Result :=
  match match_method clause with
  | None => None
  | Some (name, outcome, rest) =>
      let properties := authenticationProperties rest in
      let m := method_of (toLower name) in
      let '(domain, identity) :=
        match m with
        | MethodDKIM => (NormalizeDomain (default [] (property properties (lit "header.d"))), [])
        | MethodSPF => authenticationResultsSPFIdentity properties
        | MethodDMARC => (NormalizeDomain (default [] (property properties (lit "header.from"))), [])
        | MethodOther _ => ([], [])
        end in
      Some (header_result m (normalizeHeaderOutcome m outcome) domain identity)
  end.

(** The clauses of a field whose authserv-id is trusted; none otherwise. *)
Definition trusted_clauses (trusted : list gostring) (header : gostring) : list gostring :=
  match stripAuthenticationComments header with
  | None => []
  | Some header =>
      match splitAuthenticationClauses header with
      | first :: ((_ :: _) as clauses) =>
          match fields first with
          | id :: _ => if trusts trusted (normalizeAuthservID id) then clauses else []
          | [] => []
          end
      | _ => []
      end
  end.

Definition parse_clause (acc : list Result * bool) (clause : gostring) : list Result * bool :=
  match clause_result clause with
  | None => acc
  | Some r => (appendUnique acc.1 r, acc.2 || bool_decide (res_Method r = MethodSPF))
  end.

Definition Parse (authenticationResults receivedSPF trustedAuthservIDs : list gostring) : list Result :=
  let trusted := normalizedAuthservIDs trustedAuthservIDs in
  let '(results, hasAuthenticationResultsSPF) :=
    fold_left (λ acc header, fold_left parse_clause (trusted_clauses trusted header) acc) authenticationResults ([], false) in
  if hasAuthenticationResultsSPF then results else appendReceivedSPF results receivedSPF trusted.

(** [HeaderVerifier.Verify], on the fields of the transaction it reads. *)
Definition HeaderVerifier_Verify (authenticationResults receivedSPF trustedAuthservIDs : list gostring)
    (visibleFromDomain : gostring) : Evidence :=
  NewEvidence (Parse authenticationResults receivedSPF trustedAuthservIDs) visibleFromDomain.
End AuthResults.

(** ** Scanning *)

Lemma take_while_app f a c r : forallb f a = true -> f c = false -> take_while f (a ++ c :: r) = a.
Proof.
  induction a as [|d a IH]; cbn; intros Ha Hc; [by rewrite Hc|].
  apply andb_true_iff in Ha as [-> Ha]. f_equal. auto.
Qed.

Lemma skip_while_stop f c r : f c = false -> skip_while f (c :: r) = c :: r.
Proof. cbn. by intros ->. Qed.

Lemma skip_while_length f s : (length (skip_while f s) <= length s)%nat.
Proof. induction s as [|c s IH]; cbn; [lia|]. case_match; cbn; lia. Qed.

Definition escape_quoted (v : gostring) : gostring :=
  concat ((λ c, if ceq c DQUOTE || ceq c BACKSLASH then [BACKSLASH; c] else [c]) <$> v).
Definition quoted_string (v : gostring) : gostring := DQUOTE :: escape_quoted v ++ [DQUOTE].

Lemma escape_quoted_cons c v : escape_quoted (c :: v) =
  (if ceq c DQUOTE || ceq c BACKSLASH then [BACKSLASH; c] else [c]) ++ escape_quoted v.
Proof. done. Qed.

Lemma quoted_go_escape v : forall acc rest,
  quoted_go acc (escape_quoted v ++ DQUOTE :: rest) = Some (acc ++ v, rest).
Proof.
  induction v as [|c v IH]; intros acc rest; [cbn; by rewrite app_nil_r|].
  rewrite escape_quoted_cons, <- app_assoc. destruct (ceq c DQUOTE || ceq c BACKSLASH) eqn:E.
  - cbn [app quoted_go]. rewrite ceq_refl, IH, <- app_assoc. done.
  - apply orb_false_iff in E as [E1 E2]. cbn [app quoted_go]. rewrite E1, E2, IH, <- app_assoc. done.
Qed.

Lemma readAuthenticationQuotedValue_quoted v rest :
  readAuthenticationQuotedValue (quoted_string v ++ rest) = Some (v, rest).
Proof.
  unfold quoted_string. cbn [app readAuthenticationQuotedValue]. rewrite ceq_refl.
  rewrite <- app_assoc. apply quoted_go_escape.
Qed.

(** Names of properties: a lower-case name, or two joined by a dot. *)
Definition property_name (n : gostring) : Prop :=
  n <> [] /\ forallb isAuthenticationNameByte n = true /\ forallb is_lower n = true.
Definition property_key (k : gostring) : Prop :=
  property_name k \/ exists a b, k = a ++ lit "." ++ b /\ property_name a /\ property_name b.

Section PropertyFacts.
Context `{UnicodeTables}.

Lemma read_property_name_ok n c r : property_name n -> isAuthenticationNameByte c = false ->
  read_property_name (n ++ c :: r) = Some (n, c :: r).
Proof.
  intros (Hne & Hn & Hl) Hc. unfold read_property_name. rewrite take_while_app by done. cbv zeta.
  destruct (beq n []) eqn:E; [by apply bool_decide_eq_true in E|]. rewrite toLower_id by done.
  by rewrite drop_app_length.
Qed.

Lemma read_value_quoted v rest :
  read_property_value (skipAuthenticationWhitespace (quoted_string v ++ rest)) = Some (v, rest).
Proof.
  unfold skipAuthenticationWhitespace, quoted_string. cbn [app]. rewrite skip_while_stop by done.
  unfold read_property_value. rewrite ceq_refl. apply readAuthenticationQuotedValue_quoted.
Qed.

Lemma skip_equals r : skipAuthenticationWhitespace ("="%char :: r) = "="%char :: r.
Proof. done. Qed.
Lemma skip_dot r : skipAuthenticationWhitespace ("."%char :: r) = "."%char :: r.
Proof. done. Qed.

Lemma read_assignment_ok k v rest : property_key k ->
  read_assignment (k ++ lit "=" ++ quoted_string v ++ rest) = Some (k, v, rest).
Proof.
  change (lit "=" ++ quoted_string v ++ rest) with ("="%char :: quoted_string v ++ rest).
  intros [Hk|(a & b & -> & Ha & Hb)]; unfold read_assignment.
  - rewrite read_property_name_ok by done. cbv zeta. rewrite skip_equals. change (ceq "=" ".") with false. change (ceq "=" "=") with true. cbv iota beta.
    cbn [negb]. by rewrite read_value_quoted.
  - change ((a ++ lit "." ++ b) ++ "="%char :: quoted_string v ++ rest)
      with ((a ++ "."%char :: b) ++ "="%char :: quoted_string v ++ rest).
    rewrite <- app_assoc. cbn [app]. rewrite read_property_name_ok by done. cbv zeta.
    rewrite skip_dot.
    change (ceq "." ".") with true. cbv iota.
    assert (Hs : skipAuthenticationWhitespace (b ++ "="%char :: quoted_string v ++ rest) = b ++ "="%char :: quoted_string v ++ rest).
    { destruct Hb as (Hne & Hn & _). destruct b as [|c b]; [done|]. apply skip_while_stop.
      cbn in Hn. apply andb_true_iff in Hn as [Hn _]. clear -Hn. revert c Hn.
      assert (forall c, isAuthenticationNameByte c = true -> isAuthenticationWhitespace c = false) as Hf; [|exact Hf].
      intros [[] [] [] [] [] [] [] []]; by vm_compute. }
    rewrite Hs, read_property_name_ok by done. rewrite skip_equals.
    change (ceq "=" "=") with true. cbn [negb]. by rewrite read_value_quoted.
Qed.

Definition render_properties (kvs : list (gostring * gostring)) : gostring :=
  concat ((λ kv, lit " " ++ kv.1 ++ lit "=" ++ quoted_string kv.2) <$> kvs).

Lemma property_key_head k : property_key k -> exists c k', k = c :: k' /\ isAuthenticationWhitespace c = false.
Proof.
  assert (Hw : forall c, isAuthenticationNameByte c = true -> isAuthenticationWhitespace c = false)
    by (intros [[] [] [] [] [] [] [] []]; by vm_compute).
  intros [(Hne & Hn & _)|(a & b & -> & (Hne & Hn & _) & _)].
  - destruct k as [|c k]; [done|]. cbn in Hn. apply andb_true_iff in Hn as [Hn _]. eauto.
  - destruct a as [|c a]; [done|]. cbn in Hn. apply andb_true_iff in Hn as [Hn _]. cbn. eauto.
Qed.

Lemma properties_go_render kvs : forall fuel m, (length (render_properties kvs) <= fuel)%nat ->
  Forall (λ kv, property_key kv.1) kvs -> NoDup kvs.*1 -> Forall (λ kv, m !! kv.1 = None) kvs ->
  properties_go fuel (render_properties kvs) m = Some (list_to_map kvs ∪ m).
Proof.
  induction kvs as [|[k v] kvs IH]; intros fuel m Hf Hk Hd Hm.
  { cbn. rewrite (left_id_L ∅ (∪)). by destruct fuel. }
  apply Forall_cons in Hk as [Hk Hks]. apply Forall_cons in Hm as [Hm Hms]. cbn [fmap list_fmap fst snd] in *.
  apply NoDup_cons in Hd as [Hnk Hd].
  change (render_properties ((k, v) :: kvs)) with (" "%char :: (k ++ lit "=" ++ quoted_string v) ++ render_properties kvs) in *.
  destruct fuel as [|fuel]; [cbn in Hf; lia|]. cbn [properties_go].
  destruct (property_key_head k Hk) as (c & k' & Hck & Hc).
  set (next := (k ++ lit "=" ++ quoted_string v) ++ render_properties kvs) in *.
  assert (Hs : skipAuthenticationWhitespace (" "%char :: next) = next).
  { unfold skipAuthenticationWhitespace. cbn [skip_while]. change (isAuthenticationWhitespace " ") with true. cbv iota.
    unfold next. rewrite Hck. cbn [app]. by apply skip_while_stop. }
  rewrite Hs. assert (Hn : exists d n', next = d :: n') by (unfold next; rewrite Hck; cbn; eauto).
  destruct Hn as (d & n' & Hn). rewrite Hn, <- Hn. rewrite bool_decide_eq_false_2 by (cbn; lia).
  unfold next. rewrite <- !app_assoc. rewrite read_assignment_ok by done. rewrite Hm.
  rewrite IH; try done.
  - f_equal. rewrite list_to_map_cons. rewrite <- insert_union_r; [by rewrite insert_union_l|].
    apply not_elem_of_list_to_map_1. done.
  - cbn [length] in Hf. unfold next in Hf. rewrite length_app in Hf. lia.
  - apply Forall_forall. intros [k2 v2] Hin. cbn. rewrite lookup_insert_ne.
    + rewrite Forall_forall in Hms. apply (Hms (k2, v2) Hin).
    + intros ->. apply Hnk. apply list_elem_of_fmap. by exists (k2, v2).
Qed.
End PropertyFacts.

(** ** Quoting state

    [scan] follows the quotes of a text: [None] once an unquoted byte of
    [bad] occurs, otherwise whether the end is inside quotes and escaped. *)
Fixpoint scan (bad : gostring) (s : gostring) (quoted escaped : bool) : option (bool * bool) :=
  match s with
  | [] => Some (quoted, escaped)
  | c :: s' =>
      if quoted then
        if escaped then scan bad s' true false
        else if ceq c BACKSLASH then scan bad s' true true
        else if ceq c DQUOTE then scan bad s' false false
        else scan bad s' true false
      else if containsByte bad c then None
      else if ceq c DQUOTE then scan bad s' true false
      else scan bad s' false false
  end.

(** Text whose quotes are closed and that has no unquoted byte of [bad]. *)
Definition closed (bad s : gostring) : Prop := scan bad s false false = Some (false, false).

Lemma scan_app bad s t : forall q e,
  scan bad (s ++ t) q e = scan bad s q e ≫= λ qe, scan bad t qe.1 qe.2.
Proof.
  induction s as [|c s IH]; intros q e; [done|]. cbn [app scan]. repeat case_match; auto.
Qed.

Definition parens : gostring := ["("%char; ")"%char].

Lemma paren_other c : ceq c "(" = false -> ceq c ")" = false -> containsByte parens c = false.
Proof. unfold containsByte, parens. cbn. by intros -> ->. Qed.

(** The builder always holds text without unquoted parentheses, in the quoting
    state the scanner is in. *)
Lemma strip_go_closed s : forall depth quoted escaped clean out,
  scan parens clean false false = Some (if bool_decide (depth = 0%nat) then (quoted, escaped) else (false, false)) ->
  (depth <> 0%nat -> quoted = false) -> (quoted = false -> depth = 0%nat -> escaped = false) ->
  strip_go s depth quoted escaped clean = Some out -> closed parens out.
Proof.
  induction s as [|c s IH]; intros depth quoted escaped clean out Hs Hq He Hout; cbn [strip_go] in Hout.
  - case_bool_decide as Hd; [done|]. destruct quoted, escaped; try done.
    injection Hout as <-. rewrite bool_decide_eq_true_2 in Hs by (destruct depth; [done|by destruct Hd]). exact Hs.
  - destruct depth as [|depth].
    + rewrite bool_decide_eq_true_2 in Hs by done. destruct quoted.
      * destruct escaped; [|destruct (ceq c BACKSLASH) eqn:E1; [|destruct (ceq c DQUOTE) eqn:E2]];
          (eapply IH; [| | |exact Hout]); try done; rewrite scan_app, Hs; cbn; by rewrite ?E1, ?E2.
      * assert (escaped = false) as -> by auto.
        destruct (ceq c "(") eqn:E1; [eapply IH; [| | |exact Hout]; done|].
        destruct (ceq c ")") eqn:E2; [done|].
        pose proof (paren_other c E1 E2) as Hp.
        destruct (ceq c DQUOTE) eqn:E3; (eapply IH; [| | |exact Hout]); try done;
          rewrite scan_app, Hs; cbn [mbind option_bind fst snd scan]; by rewrite Hp, E3.
    + rewrite bool_decide_eq_false_2 in Hs by done. assert (quoted = false) as -> by auto.
      destruct escaped; [eapply IH; [| | |exact Hout]; done|].
      destruct (ceq c BACKSLASH); [eapply IH; [| | |exact Hout]; done|].
      destruct (ceq c "("); [eapply IH; [| | |exact Hout]; done|].
      destruct (ceq c ")"); [|eapply IH; [| | |exact Hout]; done].
      eapply IH; [| | |exact Hout]; try done.
      case_bool_decide; [by rewrite scan_app, Hs | exact Hs].
Qed.

Lemma strip_go_settled s : forall quoted escaped clean,
  scan parens s quoted escaped = Some (false, false) -> (quoted = false -> escaped = false) ->
  strip_go s 0 quoted escaped clean = Some (clean ++ s).
Proof.
  induction s as [|c s IH]; intros quoted escaped clean Hs He; cbn [strip_go scan] in *.
  - injection Hs as -> ->. by rewrite app_nil_r.
  - replace (clean ++ c :: s) with ((clean ++ [c]) ++ s) by (by rewrite <- app_assoc).
    destruct quoted.
    + destruct escaped; [by apply IH|]. destruct (ceq c BACKSLASH); [by apply IH|].
      destruct (ceq c DQUOTE); by apply IH.
    + rewrite (He eq_refl) in *. destruct (containsByte parens c) eqn:Hp; [done|].
      unfold containsByte, parens in Hp. cbn in Hp. apply orb_false_iff in Hp as [-> Hp].
      apply orb_false_iff in Hp as [-> _].
      destruct (ceq c DQUOTE); by apply IH.
Qed.

Definition semicolon : gostring := [";"%char].

Lemma clauses_go_nonempty s : forall q e cur, clauses_go s q e cur <> [].
Proof. induction s as [|c s IH]; intros q e cur; cbn; [done|]. repeat case_match; auto. Qed.

Lemma join_cons_ne sep p ps : ps <> [] -> join sep (p :: ps) = p ++ sep ++ join sep ps.
Proof. by destruct ps. Qed.

Lemma clauses_go_join s : forall q e cur, join semicolon (clauses_go s q e cur) = cur ++ s.
Proof.
  induction s as [|c s IH]; intros q e cur; cbn [clauses_go]; [cbn; by rewrite app_nil_r|].
  repeat case_match; rewrite ?join_cons_ne by apply clauses_go_nonempty; rewrite ?IH, <- ?app_assoc; try done.
  match goal with H : _ && _ = true |- _ => apply andb_true_iff in H as [H _]; apply ceq_true in H as -> end. done.
Qed.

Lemma scan_weaken bad s : forall q e x, scan bad s q e = Some x -> scan [] s q e = Some x.
Proof.
  induction s as [|c s IH]; intros q e x; [done|]. cbn [scan]. change (containsByte [] c) with false. cbv iota.
  destruct q; repeat case_match; try done; eauto.
Qed.

(** Splitting text whose quotes are closed leaves only closed clauses. *)
Lemma clauses_go_closed s : forall q e cur,
  scan semicolon cur false false = Some (q, e) -> (q = false -> e = false) ->
  scan [] s q e = Some (false, false) -> Forall (closed semicolon) (clauses_go s q e cur).
Proof.
  induction s as [|c s IH]; intros q e cur Hc He Hs; cbn [clauses_go scan] in *.
  - injection Hs as -> ->. by constructor.
  - change (containsByte [] c) with false in Hs. cbv iota in Hs.
    destruct q, e; cbn [andb negb] in *; [| |by discriminate (He eq_refl)|].
    + apply IH; [|done|done]. by rewrite scan_app, Hc.
    + destruct (ceq c BACKSLASH) eqn:E1; [|destruct (ceq c DQUOTE) eqn:E2; [|rewrite andb_false_r]];
        (apply IH; [|done|done]); rewrite scan_app, Hc; cbn; by rewrite ?E1, ?E2.
    + destruct (ceq c DQUOTE) eqn:E2; [|destruct (ceq c ";") eqn:E3; cbn [andb]].
      * apply IH; [|done|done]. rewrite scan_app, Hc. apply ceq_true in E2 as ->. done.
      * constructor; [exact Hc|]. by apply IH.
      * apply IH; [|done|done]. rewrite scan_app, Hc.
        cbn [mbind option_bind fst snd scan]. unfold containsByte, semicolon. cbn. by rewrite E3, E2.
Qed.

(** ** Where results come from *)

Section ParseFacts.
Context `{UnicodeTables}.

Lemma appendUnique_elem rs c r : r ∈ appendUnique rs c <-> r ∈ rs \/ r = c.
Proof.
  unfold appendUnique. case_match eqn:E; [|set_solver]. split; [by left|]. intros [?| ->]; [done|].
  apply existsb_exists in E as (x & Hx & ->%bool_decide_eq_true). by apply list_elem_of_In.
Qed.

Lemma appendUnique_nodup rs c : NoDup rs -> NoDup (appendUnique rs c).
Proof.
  unfold appendUnique. case_match eqn:E; [done|]. intros Hn. apply NoDup_app. split_and!; [done| |apply NoDup_singleton].
  intros x Hx ->%list_elem_of_singleton. apply Bool.not_true_iff_false in E. apply E, existsb_exists.
  exists c. split; [by apply list_elem_of_In|by apply bool_decide_eq_true].
Qed.

(** What folding clauses in leaves in the results and in the SPF flag. *)
Definition clauses_folded (cs : list gostring) (acc acc' : list Result * bool) : Prop :=
  (forall r, r ∈ acc'.1 <-> r ∈ acc.1 \/ exists c, c ∈ cs /\ clause_result c = Some r) /\
  (acc'.2 = true <-> acc.2 = true \/
     exists c r, c ∈ cs /\ clause_result c = Some r /\ res_Method r = MethodSPF) /\
  (NoDup acc.1 -> NoDup acc'.1).

Lemma clauses_folded_app cs ds acc acc' acc'' :
  clauses_folded cs acc acc' -> clauses_folded ds acc' acc'' -> clauses_folded (cs ++ ds) acc acc''.
Proof.
  intros (I1 & F1 & N1) (I2 & F2 & N2). split_and!; [| |auto].
  - intros r. rewrite I2, I1. setoid_rewrite elem_of_app. naive_solver.
  - rewrite F2, F1. setoid_rewrite elem_of_app. split.
    + intros [[?|(c & r & ? & ? & ?)]|(c & r & ? & ? & ?)]; [by left|right; exists c, r; auto..].
    + intros [?|(c & r & [?|?] & ? & ?)]; [by left; left|left; right; by exists c, r|right; by exists c, r].
Qed.

Lemma parse_clause_folded c acc : clauses_folded [c] acc (parse_clause acc c).
Proof.
  unfold parse_clause, clauses_folded. setoid_rewrite list_elem_of_singleton.
  destruct (clause_result c) as [r0|] eqn:E; cbn [fst snd].
  - split_and!; [| |apply appendUnique_nodup].
    + intros r. rewrite appendUnique_elem. naive_solver.
    + rewrite orb_true_iff, bool_decide_eq_true. naive_solver.
  - split_and!; naive_solver.
Qed.

Lemma parse_clauses_folded cs : forall acc, clauses_folded cs acc (fold_left parse_clause cs acc).
Proof.
  induction cs as [|c cs IH]; intros acc; [unfold clauses_folded; set_solver|].
  eapply (clauses_folded_app [c] cs); [apply parse_clause_folded|apply IH].
Qed.

Lemma parse_headers_folded trusted hs : forall acc,
  clauses_folded (hs ≫= trusted_clauses trusted) acc
    (fold_left (λ acc header, fold_left parse_clause (trusted_clauses trusted header) acc) hs acc).
Proof.
  induction hs as [|h hs IH]; intros acc; [unfold clauses_folded; set_solver|].
  change ((h :: hs) ≫= trusted_clauses trusted) with (trusted_clauses trusted h ++ (hs ≫= trusted_clauses trusted)).
  eapply clauses_folded_app; [apply parse_clauses_folded|apply IH].
Qed.

Lemma appendReceivedSPF_folded trusted hs : forall rs,
  (forall r, r ∈ appendReceivedSPF rs hs trusted <->
     r ∈ rs \/ exists h, h ∈ hs /\ received_spf_result trusted h = Some r) /\
  (NoDup rs -> NoDup (appendReceivedSPF rs hs trusted)).
Proof.
  unfold appendReceivedSPF. induction hs as [|h hs IH]; intros rs; [set_solver|]. cbn [fold_left].
  destruct (received_spf_result trusted h) as [r0|] eqn:E.
  - destruct (IH (appendUnique rs r0)) as [I N]. split; [|eauto using appendUnique_nodup].
    intros r. rewrite I, appendUnique_elem. setoid_rewrite elem_of_cons. naive_solver.
  - destruct (IH rs) as [I N]. split; [|done]. intros r. rewrite I. setoid_rewrite elem_of_cons. naive_solver.
Qed.

(** ** The evidence a field gives

    [field_clause h id c]: after its comments are removed, the field [h] names
    the service [id] in its first clause and [c] is one of its other clauses.
    [trusted_id ids id]: [id] is, up to case, white space and a final dot, one of
    the configured identifiers. *)
Definition field_clause (header id clause : gostring) : Prop :=
  exists text first rest more, stripAuthenticationComments header = Some text /\
    splitAuthenticationClauses text = first :: rest /\ fields first = id :: more /\ clause ∈ rest.
Definition trusted_id (ids : list gostring) (id : gostring) : Prop :=
  normalizeAuthservID id <> [] /\ exists v, v ∈ ids /\ normalizeAuthservID v = normalizeAuthservID id.

(** The result a clause of a trusted Authentication-Results field reports, and
    the one a Received-SPF field of a trusted receiver reports. *)
Definition results_evidence (ids ar : list gostring) (r : Result) : Prop :=
  exists h id c, h ∈ ar /\ field_clause h id c /\ trusted_id ids id /\ clause_result c = Some r.
Definition received_evidence (ids spf : list gostring) (r : Result) : Prop :=
  exists h receiver, h ∈ spf /\ receivedSPFParameter h (lit "receiver") = Some receiver /\
    trusted_id ids receiver /\ received_spf_result [normalizeAuthservID receiver] h = Some r.

Lemma normalizedAuthservIDs_elem ids id : id ∈ normalizedAuthservIDs ids <->
  id <> [] /\ exists v, v ∈ ids /\ normalizeAuthservID v = id.
Proof.
  unfold normalizedAuthservIDs. rewrite list_elem_of_In, filter_In, <- list_elem_of_In, list_elem_of_fmap.
  unfold beq. rewrite negb_true_iff, bool_decide_eq_false. naive_solver.
Qed.

Lemma trusts_spec ids id : trusts (normalizedAuthservIDs ids) (normalizeAuthservID id) = true <-> trusted_id ids id.
Proof. unfold trusts, trusted_id. by rewrite bool_decide_eq_true, normalizedAuthservIDs_elem. Qed.

Lemma trusted_clauses_spec ids h c : c ∈ trusted_clauses (normalizedAuthservIDs ids) h <->
  exists id, field_clause h id c /\ trusted_id ids id.
Proof.
  setoid_rewrite <- trusts_spec. unfold trusted_clauses, field_clause. split.
  - intros Hc. destruct (stripAuthenticationComments h) as [text|] eqn:E1; [|set_solver].
    destruct (splitAuthenticationClauses text) as [|first [|c0 rest]] eqn:E2; [set_solver..|].
    destruct (fields first) as [|id more] eqn:E3; [set_solver|].
    destruct (trusts _ _) eqn:E4; [|set_solver]. exists id. split; [|done]. exists text, first, (c0 :: rest), more. auto.
  - intros (id & (text & first & rest & more & -> & -> & Hf & Hc) & Ht).
    destruct rest; [set_solver|]. by rewrite Hf, Ht.
Qed.

Lemma received_spf_spec ids h r : received_spf_result (normalizedAuthservIDs ids) h = Some r <->
  exists receiver, receivedSPFParameter h (lit "receiver") = Some receiver /\ trusted_id ids receiver /\
    received_spf_result [normalizeAuthservID receiver] h = Some r.
Proof.
  setoid_rewrite <- trusts_spec. unfold received_spf_result.
  destruct (receivedSPFParameter h (lit "receiver")) as [rc|]; [|naive_solver].
  assert (Ht : trusts [normalizeAuthservID rc] (normalizeAuthservID rc) = true)
    by (apply bool_decide_eq_true; set_solver).
  split.
  - destruct (trusts (normalizedAuthservIDs ids) (normalizeAuthservID rc)) eqn:E; [|done].
    intros Hr. exists rc. by rewrite Ht.
  - intros (rc' & [= <-] & -> & Hr). by rewrite Ht in Hr.
Qed.

(** The results of [Parse], without the order. *)
Lemma Parse_spec ar spf ids :
  NoDup (Parse ar spf ids) /\
  (forall r, r ∈ Parse ar spf ids <-> results_evidence ids ar r \/
     (received_evidence ids spf r /\ forall r', results_evidence ids ar r' -> res_Method r' <> MethodSPF)).
Proof.
  unfold Parse. cbv zeta.
  pose proof (parse_headers_folded (normalizedAuthservIDs ids) ar ([], false)) as Hf.
  destruct (fold_left _ ar ([], false)) as [rs has]. destruct Hf as (Hin & Hspf & Hnd). cbn [fst snd] in *.
  assert (Hnd' : NoDup rs) by (apply Hnd, NoDup_nil_2).
  assert (Hev : forall r, results_evidence ids ar r <->
    exists c, c ∈ (ar ≫= trusted_clauses (normalizedAuthservIDs ids)) /\ clause_result c = Some r).
  { intros r. unfold results_evidence. setoid_rewrite list_elem_of_bind. setoid_rewrite trusted_clauses_spec. naive_solver. }
  assert (Hrs : forall r, r ∈ rs <-> results_evidence ids ar r)
    by (intros r; rewrite Hin, Hev, elem_of_nil; naive_solver).
  destruct has.
  - split; [done|]. intros r. rewrite Hrs. split; [by left|]. intros [?|[_ Hno]]; [done|].
    destruct (proj1 Hspf eq_refl) as [?|(c & r' & Hc & Hr' & Hm)]; [done|].
    destruct (Hno r'); [|done]. apply Hev. eauto.
  - destruct (appendReceivedSPF_folded (normalizedAuthservIDs ids) spf rs) as [Ha Hn]. split; [auto|]. intros r.
    rewrite Ha, Hrs. setoid_rewrite received_spf_spec. fold (received_evidence ids spf r).
    assert (Hno : forall r', results_evidence ids ar r' -> res_Method r' <> MethodSPF).
    { intros r' (c & Hc & Hr')%Hev Hm. discriminate (proj2 Hspf (or_intror (ex_intro _ c (ex_intro _ r' (conj Hc (conj Hr' Hm)))))). }
    unfold received_evidence. naive_solver.
Qed.
End ParseFacts.

(** ** Properties *)

(** Values cannot forge properties: a clause that assigns distinct property
    names arbitrary quoted values, including values that contain quotes,
    semicolons, equals signs or text that looks like another assignment, is
    read back as exactly those assignments. *)
Theorem properties_no_smuggling `{UnicodeTables} (kvs : list (gostring * gostring))
    (Hkeys : Forall (λ kv, property_key kv.1) kvs) (Hdistinct : NoDup kvs.*1) :
  authenticationProperties (render_properties kvs) = Some (list_to_map kvs).
Proof.
  unfold authenticationProperties. rewrite properties_go_render; [by rewrite (right_id_L ∅ (∪))|done..|].
  apply Forall_true. intros. apply lookup_empty.
Qed.

Definition forged : list (gostring * gostring) :=
  [(lit "header.i", lit "x header.d=example.com " ++ [DQUOTE] ++ lit "; dkim=pass");
   (lit "header.d", lit "evil.example")].

Lemma properties_no_smuggling_witness :
  Forall (λ kv, property_key kv.1) forged /\ NoDup forged.*1 /\
  @authenticationProperties basic_tables (render_properties forged) = Some (list_to_map forged).
Proof.
  assert (Hk : Forall (λ kv, property_key kv.1) forged).
  { apply Forall_cons. split; [right; exists (lit "header"), (lit "i"); split_and!; by vm_compute|].
    apply Forall_cons. split; [right; exists (lit "header"), (lit "d"); split_and!; by vm_compute|constructor]. }
  assert (Hd : NoDup forged.*1) by (apply (bool_decide_unpack _); by vm_compute).
  split; [exact Hk|]. split; [exact Hd|]. exact (@properties_no_smuggling basic_tables forged Hk Hd).
Defined.

(** Comments and quoted strings cannot change the structure of a field: what is
    left after stripping has no unquoted parenthesis, is unchanged by a second
    stripping, is the concatenation of its clauses with semicolons, and no
    clause contains an unquoted semicolon or an open quote. *)
Theorem stripped_clauses_closed (value text : gostring) (Hstrip : stripAuthenticationComments value = Some text) :
  closed parens text /\ stripAuthenticationComments text = Some text /\
  join semicolon (splitAuthenticationClauses text) = text /\
  Forall (closed semicolon) (splitAuthenticationClauses text).
Proof.
  assert (Hc : closed parens text) by (eapply strip_go_closed; [..|exact Hstrip]; done).
  split_and!; [done| | |].
  - by apply (strip_go_settled text false false []).
  - apply clauses_go_join.
  - apply clauses_go_closed; [done|done|]. by eapply scan_weaken.
Qed.

Definition commented : gostring :=
  lit "mx.example (a; dkim=pass) ; spf=fail smtp.mailfrom=" ++ quoted_string (lit "a;b@(evil)") ++ lit " (x)".

Lemma stripped_clauses_closed_witness :
  exists text, stripAuthenticationComments commented = Some text /\
    Forall (closed semicolon) (splitAuthenticationClauses text).
Proof.
  eexists. assert (H : stripAuthenticationComments commented =
    Some (lit "mx.example   ; spf=fail smtp.mailfrom=" ++ quoted_string (lit "a;b@(evil)") ++ lit "  ")) by (by vm_compute).
  split; [exact H|]. apply (stripped_clauses_closed _ _ H).
Defined.

(** C40: Only trusted services produce evidence, and each of their results once:
    the results of [Parse] have no duplicates and are exactly those that a clause
    of an Authentication-Results field reports whose own authserv-id, after
    comments are removed, is one of the configured identifiers, together with
    those of the Received-SPF fields whose own receiver parameter is one; the
    latter count only if no clause of a trusted Authentication-Results field
    reports on SPF.  Without a usable trusted identifier there is no evidence. *)
Theorem parse_only_trusted `{UnicodeTables} (ar spf ids : list gostring) :
  NoDup (Parse ar spf ids) /\
  (forall r, r ∈ Parse ar spf ids <-> results_evidence ids ar r \/
     (received_evidence ids spf r /\ forall r', results_evidence ids ar r' -> res_Method r' <> MethodSPF)) /\
  (Forall (λ v, normalizeAuthservID v = []) ids -> Parse ar spf ids = []).
Proof.
  destruct (Parse_spec ar spf ids) as [Hn Hin]. split_and!; [done|done|]. rewrite Forall_forall. intros Hids.
  assert (Hno : forall id, trusted_id ids id -> False).
  { intros id (Hne & v & Hv & He). apply Hne. rewrite <- He. auto. }
  destruct (Parse ar spf ids) as [|r rs]; [done|].
  destruct (proj1 (Hin r) (list_elem_of_here _ _)) as [(? & ? & ? & _ & _ & Ht & _)|[(? & ? & _ & _ & Ht & _) _]];
    destruct (Hno _ Ht).
Qed.

(** A forged field beside two trusted ones that report the same result: the
    result is reported once and the forged one not at all. *)
Example parse_mixed_fields :
  @Parse basic_tables
    [lit "evil.example; dkim=pass header.d=bank.example";
     lit "MX.example. 1; dkim=fail header.d=bank.example";
     lit "mx.example; dkim=fail header.d=bank.example"]
    [lit "pass receiver=mx.example; envelope-from=a@bank.example"; lit "pass receiver=evil.example; envelope-from=a@bank.example"]
    [lit "mx.example"] =
  [@header_result MethodDKIM (lit "fail") (lit "bank.example") [];
   @header_result MethodSPF (lit "pass") (lit "bank.example") SPFIdentityMailFrom].
Proof. by vm_compute. Qed.

Lemma parse_only_trusted_witness :
  Forall (λ v, @normalizeAuthservID basic_tables v = []) [lit " . "] /\
  @Parse basic_tables [lit ".; dkim=pass header.d=evil.example"] [] [lit " . "] = [].
Proof.
  assert (H : Forall (λ v, @normalizeAuthservID basic_tables v = []) [lit " . "]) by (repeat constructor; by vm_compute).
  split; [exact H|]. destruct (@parse_only_trusted basic_tables
    [lit ".; dkim=pass header.d=evil.example"] [] [lit " . "]) as (_ & _ & Hn). exact (Hn H).
Defined.
