(* ===== verification/ExactMessage.v ===== *)
(** * Byte-exact message stores (internal/mailauth/exact_message.go)

    The stores that keep a message for DKIM verification: in memory, in an
    unlinked temporary file, or in memory while a slot is free ("hybrid").
    [BoundedLog] is what the interface [ExactMessage] promises; the memory store
    is that log, and the file store implements it over any [FileOps] whose
    writes are reported truthfully.  The factory is a state machine over the
    messages it has handed out; channel operations and [sync.Once] make each of
    its operations atomic. *)
From S2P Require Import Prelude GoText.

Inductive exact_error := ErrExactMessageClosed | ErrExactMessageTooLarge | ErrShortWrite | ErrFile | ErrBadLimit | ErrUnknownStorage.
#[export] Instance exact_error_eq_dec : EqDecision exact_error.
Proof. solve_decision. Defined.

(** [os.File] as the store uses it: [Write] reports the bytes written and
    whether it failed. *)
Class FileOps (F : Type) := {
  file_create : option F;
  file_write : F -> gostring -> (nat * bool) * F;
  file_content : F -> gostring;
  file_close : F -> bool;
}.
Class FileLaws (F : Type) `{FileOps F} := {
  file_create_empty : forall f, file_create = Some f -> file_content f = [];
  file_write_le : forall f p n e f', file_write f p = ((n, e), f') -> (n <= length p)%nat;
  file_write_content : forall f p n e f', file_write f p = ((n, e), f') -> file_content f' = file_content f ++ take n p;
}.

(** ** The memory store *)

Record memoryExactMessage := MemoryExactMessage { mem_data : gostring; mem_maxBytes : Z; mem_closed : bool }.

Definition mem_append (m : memoryExactMessage) (payload : gostring) : option exact_error * memoryExactMessage :=
  if mem_closed m then (Some ErrExactMessageClosed, m)
  else if mem_maxBytes m <? go_len (mem_data m) + go_len payload then (Some ErrExactMessageTooLarge, m)
  else (None, MemoryExactMessage (mem_data m ++ payload) (mem_maxBytes m) false).

(** The bytes and size behind [ReaderAt]. *)
Definition mem_ReaderAt (m : memoryExactMessage) : exact_error + (gostring * Z) :=
  if mem_closed m then inl ErrExactMessageClosed else inr (mem_data m, go_len (mem_data m)).
Definition mem_Close (m : memoryExactMessage) : option exact_error * memoryExactMessage :=
  (None, MemoryExactMessage [] (mem_maxBytes m) true).

(** The line [addExactHeader] appends. *)
Definition exact_header_line (name value : gostring) : gostring :=
  let value := replaceAll value [CR; LF] [LF] in
  let value := replaceAll value [CR] [LF] in
  let value := replaceAll value [LF] [CR; LF] in
  name ++ lit ": " ++ value ++ [CR; LF].

Inductive read_error := ReadNegative | ReadEOF.
(** [ReadAt] into a buffer of [n] bytes: the bytes copied and the error. *)
Definition exactBytes_ReadAt (b : gostring) (n : nat) (offset : Z) : gostring * option read_error :=
  if offset <? 0 then ([], Some ReadNegative)
  else if bool_decide (n = 0%nat) then ([], None)
  else if go_len b <=? offset then ([], Some ReadEOF)
  else let copied := take n (drop (Z.to_nat offset) b) in
       (copied, if bool_decide (length copied < n)%nat then Some ReadEOF else None).

(** ** The file store *)

Record fileExactMessage (F : Type) := FileExactMessage { fm_file : F; fm_maxBytes : Z; fm_size : Z; fm_closed : bool }.
Arguments FileExactMessage {F}. Arguments fm_file {F}. Arguments fm_maxBytes {F}.
Arguments fm_size {F}. Arguments fm_closed {F}.

Section FileStore.
Context {F : Type} `{FileOps F}.

Definition newFileExactMessage (maxBytes : Z) : exact_error + fileExactMessage F :=
  match file_create with
  | None => inl ErrFile
  | Some f => inr (FileExactMessage f maxBytes 0 false)
  end.

Definition file_append (m : fileExactMessage F) (payload : gostring) : option exact_error * fileExactMessage F :=
  if fm_closed m then (Some ErrExactMessageClosed, m)
  else if fm_maxBytes m <? fm_size m + go_len payload then (Some ErrExactMessageTooLarge, m)
  else
    let '((written, failed), f) := file_write (fm_file m) payload in
    let m := FileExactMessage f (fm_maxBytes m) (fm_size m + Z.of_nat written) false in
    if failed : bool then (Some ErrFile, m)
    else if bool_decide (written <> length payload) then (Some ErrShortWrite, m)
    else (None, m).

Definition file_ReaderAt (m : fileExactMessage F) : exact_error + (gostring * Z) :=
  if fm_closed m then inl ErrExactMessageClosed else inr (file_content (fm_file m), fm_size m).
Definition file_Close (m : fileExactMessage F) : option exact_error * fileExactMessage F :=
  if fm_closed m then (None, m)
  else (if file_close (fm_file m) then None else Some ErrFile,
        FileExactMessage (fm_file m) (fm_maxBytes m) (fm_size m) true).
End FileStore.

(** ** The interface *)

Inductive exact_op := XHeader (name value : gostring) | XEndHeaders | XBody (payload : gostring) | XClose.

Definition op_bytes (o : exact_op) : gostring :=
  match o with
  | XHeader n v => exact_header_line n v
  | XEndHeaders => [CR; LF]
  | XBody p => p
  | XClose => []
  end.

Definition mem_step (m : memoryExactMessage) (o : exact_op) : option exact_error * memoryExactMessage :=
  match o with XClose => mem_Close m | _ => mem_append m (op_bytes o) end.
Definition file_step {F} `{FileOps F} (m : fileExactMessage F) (o : exact_op) : option exact_error * fileExactMessage F :=
  match o with XClose => file_Close m | _ => file_append m (op_bytes o) end.

(** Runs a sequence of operations, collecting the results. *)
Fixpoint run {S} (step : S -> exact_op -> option exact_error * S) (s : S) (ops : list exact_op) : list (option exact_error) * S :=
  match ops with
  | [] => ([], s)
  | o :: ops' => let '(e, s1) := step s o in let '(es, s2) := run step s1 ops' in (e :: es, s2)
  end.

(** ** The factory *)

Inductive store_kind := StoreMemory (m : memoryExactMessage) | StoreFile | StoreLimited (m : memoryExactMessage) (released : bool).

(** [slots]/[slots_cap]: the buffered channel; [handed]: every message returned
    so far, by order of creation. *)
Record ExactMessageFactory := Factory { slots : Z; slots_cap : Z; handed : list store_kind }.

Definition NewExactMessageFactory (memoryMessageLimit : Z) : ExactMessageFactory :=
  Factory 0 (if memoryMessageLimit <? 0 then 0 else memoryMessageLimit) [].

(** [NewExactMessage]; [create] tells whether a temporary file can be created. *)
Definition NewExactMessage (create : bool) (storage : gostring) (maxBytes : Z) : exact_error + store_kind :=
  if maxBytes <? 1 then inl ErrBadLimit
  else if beq storage (lit "memory") then inr (StoreMemory (MemoryExactMessage [] maxBytes false))
  else if beq storage (lit "file") then if create then inr StoreFile else inl ErrFile
  else inl ErrUnknownStorage.

Definition hand_out (f : ExactMessageFactory) (r : exact_error + store_kind) : (exact_error + nat) * ExactMessageFactory :=
  match r with
  | inl e => (inl e, f)
  | inr k => (inr (length (handed f)), Factory (slots f) (slots_cap f) (handed f ++ [k]))
  end.

Definition factory_New (f : ExactMessageFactory) (create : bool) (storage : gostring) (maxBytes : Z)
    : (exact_error + nat) * ExactMessageFactory :=
  if negb (beq storage (lit "hybrid")) then hand_out f (NewExactMessage create storage maxBytes)
  else if slots f <? slots_cap f then
    let f := Factory (slots f + 1) (slots_cap f) (handed f) in
    match NewExactMessage create (lit "memory") maxBytes with
    | inl e => (inl e, Factory (slots f - 1) (slots_cap f) (handed f))
    | inr (StoreMemory m) => hand_out f (inr (StoreLimited m false))
    | inr k => hand_out f (inr k)
    end
  else hand_out f (NewExactMessage create (lit "file") maxBytes).

(** [Close] of a handed-out message. *)
Definition factory_Close (f : ExactMessageFactory) (i : nat) : ExactMessageFactory :=
  match handed f !! i with
  | Some (StoreLimited m released) =>
      let m := (mem_Close m).2 in
      Factory (if released : bool then slots f else slots f - 1) (slots_cap f) (<[i := StoreLimited m true]> (handed f))
  | Some (StoreMemory m) => Factory (slots f) (slots_cap f) (<[i := StoreMemory (mem_Close m).2]> (handed f))
  | _ => f
  end.

Inductive factory_step : ExactMessageFactory -> ExactMessageFactory -> Prop :=
  | step_New f create storage maxBytes : factory_step f (factory_New f create storage maxBytes).2
  | step_Close f i : factory_step f (factory_Close f i).

(** Messages that hold a memory slot. *)
Definition holds_slot (k : store_kind) : bool := match k with StoreLimited _ released => negb released | _ => false end.
Definition holders (l : list store_kind) : Z := Z.of_nat (length (List.filter holds_slot l)).

Lemma holders_app l k : holders (l ++ [k]) = holders l + if holds_slot k then 1 else 0.
Proof. unfold holders. rewrite List.filter_app, length_app. cbn. case_match; cbn; lia. Qed.

Lemma holders_insert l i k k' : l !! i = Some k ->
  holders (<[i := k']> l) = holders l - (if holds_slot k then 1 else 0) + (if holds_slot k' then 1 else 0).
Proof.
  revert i. induction l as [|x l IH]; intros i Hi; [done|]. unfold holders in *. destruct i as [|i].
  - injection Hi as ->. cbn. destruct (holds_slot k), (holds_slot k'); cbn [length]; lia.
  - change (<[S i := k']> (x :: l)) with (x :: <[i := k']> l). specialize (IH i Hi).
    cbn [List.filter]. destruct (holds_slot x); cbn [length]; lia.
Qed.

Definition factory_ok (f : ExactMessageFactory) : Prop := slots f = holders (handed f) /\ 0 <= slots f <= slots_cap f.

Lemma hand_out_ok f r : factory_ok f -> (forall k, r = inr k -> holds_slot k = false) -> factory_ok (hand_out f r).2.
Proof.
  intros [Hs Hc] Hk. unfold hand_out. destruct r as [e|k]; [done|]. split; cbn [snd slots handed slots_cap]; [|lia].
  rewrite holders_app, (Hk k eq_refl). lia.
Qed.

Lemma NewExactMessage_holds create storage max k : NewExactMessage create storage max = inr k -> holds_slot k = false.
Proof. unfold NewExactMessage. repeat case_match; intros; by simplify_eq. Qed.

Lemma factory_step_ok f f' : factory_step f f' -> factory_ok f -> factory_ok f' /\ slots_cap f' = slots_cap f.
Proof.
  intros [f0 create storage max|f0 i] Hok.
  - split; [|unfold factory_New, hand_out; repeat case_match; done].
    unfold factory_New. case_match; [apply hand_out_ok; [done|apply NewExactMessage_holds]|].
    destruct (slots f0 <? slots_cap f0) eqn:E; [|apply hand_out_ok; [done|apply NewExactMessage_holds]].
    apply Z.ltb_lt in E. destruct Hok as [Hs Hc].
    unfold NewExactMessage. destruct (max <? 1); cbn [snd].
    + split; cbn [slots handed slots_cap]; lia.
    + change (beq (lit "memory") (lit "memory")) with true. cbv iota.
      split; cbn [hand_out snd slots handed slots_cap]; [|lia]. rewrite holders_app. cbn. lia.
  - destruct Hok as [Hs Hc]. unfold factory_Close. split; [|repeat case_match; done].
    destruct (handed f0 !! i) as [k|] eqn:E; [|done]. destruct k as [m| |m [|]]; [| |split|split];
      cbn [slots handed slots_cap]; try (rewrite (holders_insert _ _ _ _ E); cbn [holds_slot negb]); try split; try done; try lia.
    + cbn [slots handed]. rewrite (holders_insert _ _ _ _ E). cbn. lia.
    + enough (1 <= holders (handed f0)) by lia. unfold holders.
      assert (Hin : StoreLimited m false ∈ List.filter holds_slot (handed f0)).
      { apply list_elem_of_In, filter_In. split; [|done]. apply list_elem_of_In. by eapply list_elem_of_lookup_2. }
      destruct (List.filter holds_slot (handed f0)); [by apply not_elem_of_nil in Hin|cbn; lia].
Qed.

(** ** The file store implements the log *)

Section Refinement.
#[local] Set Default Proof Using "All".
Context {F : Type} `{FileLaws F}.

(** The file store represents the log [m]. *)
Definition represents (m : memoryExactMessage) (f : fileExactMessage F) : Prop :=
  fm_maxBytes f = mem_maxBytes m /\ fm_closed f = mem_closed m /\
  (fm_closed f = false -> file_content (fm_file f) = mem_data m /\ fm_size f = go_len (mem_data m)).

(** Every write the run makes succeeds in full. *)
Definition reliable (e : option exact_error) : Prop := e <> Some ErrFile /\ e <> Some ErrShortWrite.

Lemma file_append_refines m f p e f' : represents m f -> file_append f p = (e, f') -> reliable e ->
  exists m', mem_append m p = (e, m') /\ represents m' f'.
Proof.
  intros (Hm & Hc & Hd) Hf [He1 He2]. unfold file_append, mem_append in *. rewrite <- Hc, <- Hm.
  destruct (fm_closed f) eqn:Ec; [simplify_eq; eexists; split; [done|]; unfold represents; rewrite Ec; naive_solver|].
  destruct (Hd eq_refl) as [Hd1 Hd2]. rewrite <- Hd2.
  destruct (_ <? _); [simplify_eq; eexists; split; [done|]; unfold represents; naive_solver|].
  destruct (file_write (fm_file f) p) as [[n failed] g] eqn:Ew.
  pose proof (file_write_content _ _ _ _ _ Ew) as Hw.
  destruct failed; [by simplify_eq|]. case_bool_decide as Hn; [by simplify_eq|].
  subst n. injection Hf as <- <-. eexists. split; [done|]. split_and!; cbn; [congruence|done|]. intros _.
  rewrite Hw, firstn_all, Hd1, Hd2. split; [done|]. unfold go_len. rewrite length_app. lia.
Qed.
End Refinement.

Section RunRefinement.
#[local] Set Default Proof Using "All".
Context {F : Type} `{FileLaws F}.

Lemma file_step_refines m (f f' : fileExactMessage F) o e : represents m f -> file_step f o = (e, f') -> reliable e ->
  exists m', mem_step m o = (e, m') /\ represents m' f'.
Proof.
  intros Hr Hf He. destruct o as [n v| |p|]; [by eapply file_append_refines..|].
  cbn in Hf. unfold file_Close in Hf. destruct Hr as (Hm & Hc & Hd), He as [He _].
  exists (mem_Close m).2. destruct (fm_closed f) eqn:Ec.
  - simplify_eq. split; [done|]. unfold represents. cbn. rewrite Ec. naive_solver.
  - destruct (file_close (fm_file f)); simplify_eq. split; [done|]. by split_and!.
Qed.

Lemma file_run_refines ops : forall m (f f' : fileExactMessage F) es, represents m f ->
  run file_step f ops = (es, f') -> Forall reliable es ->
  exists m', run mem_step m ops = (es, m') /\ represents m' f'.
Proof.
  induction ops as [|o ops IH]; intros m f f' es Hr Hrun Hes; cbn [run] in *; [simplify_eq; eauto|].
  destruct (file_step f o) as [e f1] eqn:E1. destruct (run file_step f1 ops) as [es1 f2] eqn:E2.
  simplify_eq. apply Forall_cons in Hes as [He Hes].
  destruct (file_step_refines m f f1 o e Hr E1 He) as (m1 & -> & Hr1).
  destruct (IH m1 f1 f' es1 Hr1 E2 Hes) as (m2 & -> & Hr2). eauto.
Qed.

Lemma represents_read m (f : fileExactMessage F) : represents m f -> file_ReaderAt f = mem_ReaderAt m.
Proof.
  intros (_ & Hc & Hd). unfold file_ReaderAt, mem_ReaderAt. rewrite <- Hc.
  destruct (fm_closed f); [done|]. by destruct (Hd eq_refl) as [-> ->].
Qed.
End RunRefinement.

(** Bytes a log keeps after a sequence of appends. *)
Fixpoint accepted (max : Z) (data : gostring) (ops : list exact_op) : gostring :=
  match ops with
  | [] => data
  | o :: ops' =>
      if max <? go_len data + go_len (op_bytes o) then accepted max data ops'
      else accepted max (data ++ op_bytes o) ops'
  end.

Lemma mem_run_accepted ops : forall m, mem_closed m = false -> Forall (λ o, o <> XClose) ops ->
  go_len (mem_data m) <= mem_maxBytes m ->
  let '(es, m') := run mem_step m ops in
  mem_data m' = accepted (mem_maxBytes m) (mem_data m) ops /\ mem_closed m' = false /\
  mem_maxBytes m' = mem_maxBytes m /\ go_len (mem_data m') <= mem_maxBytes m /\
  (Forall (λ e, e = None) es <-> mem_data m' = mem_data m ++ concat (op_bytes <$> ops)).
Proof.
  induction ops as [|o ops IH]; intros m Hc Ho Hlen; cbn [run].
  { cbn. rewrite app_nil_r. split_and!; try done. }
  apply Forall_cons in Ho as [Hne Ho].
  assert (Hstep : mem_step m o = mem_append m (op_bytes o)) by (by destruct o).
  rewrite Hstep. unfold mem_append. rewrite Hc. cbn [accepted].
  destruct (_ <? _) eqn:E.
  - specialize (IH m Hc Ho Hlen). destruct (run mem_step m ops) as [es m'].
    destruct IH as (Hd & Hcl & Hm & Hl & Hiff). split_and!; try done. split.
    + intros Hall. apply Forall_cons in Hall as [? _]. done.
    + intros Heq. exfalso. apply Z.ltb_lt in E. rewrite Heq in Hl. cbn [fmap list_fmap concat] in Hl.
      unfold go_len in *. rewrite !length_app in Hl. lia.
  - apply Z.ltb_ge in E.
    specialize (IH (MemoryExactMessage (mem_data m ++ op_bytes o) (mem_maxBytes m) false) eq_refl Ho).
    cbn [mem_data mem_maxBytes] in IH. destruct (run mem_step _ ops) as [es m'].
    destruct IH as (Hd & Hcl & Hm & Hl & Hiff); [unfold go_len in *; rewrite length_app; lia|].
    split_and!; try done. cbn [fmap list_fmap concat]. rewrite app_assoc, Forall_cons. naive_solver.
Qed.

Lemma factory_reach_ok f f' : rtc factory_step f f' -> factory_ok f -> factory_ok f' /\ slots_cap f' = slots_cap f.
Proof.
  induction 1 as [f|f f1 f2 Hs _ IH]; intros Hok; [done|].
  destruct (factory_step_ok f f1 Hs Hok) as [Hok1 Hc]. rewrite <- Hc. auto.
Qed.

(** ** Properties *)

(** C38: The file store is indistinguishable from the memory store as long as the
    file system writes what it is asked to: over any sequence of header,
    end-of-header, body and close calls both return the same errors, and what
    can be read afterwards is the same bytes, size or error. *)
Theorem file_store_refines_memory {F : Type} `{FileLaws F} (maxBytes : Z) (f0 f : fileExactMessage F)
    (ops : list exact_op) (es : list (option exact_error))
    (Hnew : newFileExactMessage maxBytes = inr f0) (Hrun : run file_step f0 ops = (es, f))
    (Hreliable : Forall reliable es) :
  exists m, run mem_step (MemoryExactMessage [] maxBytes false) ops = (es, m) /\ file_ReaderAt f = mem_ReaderAt m.
Proof.
  assert (Hr : represents (MemoryExactMessage [] maxBytes false) f0).
  { unfold newFileExactMessage in Hnew. destruct file_create as [g|] eqn:E; simplify_eq.
    split_and!; try done. intros _. cbn. by rewrite (file_create_empty _ E). }
  destruct (file_run_refines ops _ _ _ _ Hr Hrun Hreliable) as (m & -> & Hm).
  exists m. split; [done|]. by apply represents_read.
Qed.

(** A concrete file: its content. *)
#[export] Instance plain_file : FileOps gostring :=
  {| file_create := Some []; file_write := λ f p, ((length p, false), f ++ p); file_content := id; file_close := λ _, true |}.
#[export] Instance plain_file_laws : FileLaws gostring.
Proof.
  split; intros; cbn in *; simplify_eq; [done|done|]. by rewrite firstn_all.
Qed.

Definition sample_session : list exact_op := [XHeader (lit "To") (lit "a"); XEndHeaders; XBody (lit "hello"); XBody (lit "too long")].

Lemma file_store_refines_memory_witness :
  exists f, run file_step (FileExactMessage [] 16 0 false) sample_session =
    ([None; None; None; Some ErrExactMessageTooLarge], f) /\
  exists m, run mem_step (MemoryExactMessage [] 16 false) sample_session =
    ([None; None; None; Some ErrExactMessageTooLarge], m) /\ file_ReaderAt f = mem_ReaderAt m.
Proof.
  eexists. split; [by vm_compute|].
  eapply (file_store_refines_memory 16 (FileExactMessage [] 16 0 false)); [by vm_compute|by vm_compute|].
  repeat constructor; discriminate.
Defined.

(** A store never exceeds its limit and never keeps part of an append: before
    it is closed its content is the concatenation of exactly those appends that
    fitted when they arrived, it is complete exactly when no call failed, and it
    is at most [maxBytes] long. *)
Theorem memory_store_whole_appends (maxBytes : Z) (ops : list exact_op) (Hmax : 0 <= maxBytes)
    (Hopen : Forall (λ o, o <> XClose) ops) :
  let '(es, m) := run mem_step (MemoryExactMessage [] maxBytes false) ops in
  mem_data m = accepted maxBytes [] ops /\ go_len (mem_data m) <= maxBytes /\
  mem_ReaderAt m = inr (mem_data m, go_len (mem_data m)) /\
  (Forall (λ e, e = None) es <-> mem_data m = concat (op_bytes <$> ops)).
Proof.
  pose proof (mem_run_accepted ops (MemoryExactMessage [] maxBytes false) eq_refl Hopen Hmax) as Hrun.
  destruct (run mem_step _ ops) as [es m]. destruct Hrun as (Hd & Hc & _ & Hl & Hiff).
  split_and!; try done. unfold mem_ReaderAt. by rewrite Hc.
Qed.

Lemma memory_store_whole_appends_witness :
  0 <= 16 /\ Forall (λ o, o <> XClose) sample_session /\
  mem_data (run mem_step (MemoryExactMessage [] 16 false) sample_session).2 = accepted 16 [] sample_session.
Proof.
  assert (Ho : Forall (λ o, o <> XClose) sample_session) by (repeat constructor; discriminate).
  split; [lia|]. split; [exact Ho|].
  pose proof (memory_store_whole_appends 16 sample_session ltac:(lia) Ho) as H.
  destruct (run mem_step (MemoryExactMessage [] 16 false) sample_session) as [es m]. exact (proj1 H).
Defined.

(** Hybrid stores use at most the configured number of memory slots: however
    [New] and [Close] calls interleave, the occupied slots are exactly the
    handed-out memory stores that have not been closed, a store closed twice
    gives its slot back once, and the limit is never exceeded. *)
Theorem hybrid_slots_bounded (limit : Z) (f : ExactMessageFactory)
    (Hreach : rtc factory_step (NewExactMessageFactory limit) f) :
  slots f = holders (handed f) /\ 0 <= slots f <= Z.max 0 limit /\
  forall i, factory_Close (factory_Close f i) i = factory_Close f i.
Proof.
  destruct (factory_reach_ok _ _ Hreach) as [[Hs Hb] Hc].
  { split; cbn; [done|]. case_match; lia. }
  assert (Hcap : slots_cap f = Z.max 0 limit) by (rewrite Hc; cbn; case_match; lia).
  split_and!; [done|lia|lia|].
  intros i. unfold factory_Close. destruct (handed f !! i) as [[m| |m r]|] eqn:E; try (by rewrite E);
    cbn [handed]; rewrite list_lookup_insert_eq by (by eapply lookup_lt_Some); cbn [slots slots_cap];
    by rewrite list_insert_insert_eq.
Qed.

Lemma hybrid_slots_bounded_witness :
  let f := factory_Close (factory_New (factory_New (NewExactMessageFactory 1) true (lit "hybrid") 10).2 true (lit "hybrid") 10).2 0 in
  rtc factory_step (NewExactMessageFactory 1) f /\ slots f = holders (handed f).
Proof.
  intros f. assert (Hr : rtc factory_step (NewExactMessageFactory 1) f).
  { eapply rtc_l; [apply step_New|]. eapply rtc_l; [apply step_New|]. apply rtc_once. apply step_Close. }
  split; [exact Hr|]. apply (hybrid_slots_bounded 1 f Hr).
Defined.
