(* ===== verification/SqlDb.v ===== *)
(** * The shared database (internal/sqlitedb/store.go and its schema)

    The tables of schema.sql as lists of rows, in rowid order, with the SQL
    operations the repositories use: filtered deletes and updates, upserts on a
    unique key, rowid allocation, cascading deletes and [ORDER BY ... LIMIT]
    subselects.

    SQLite itself is a library; what the code relies on is that a transaction
    either commits all of its statements or none.  A transaction body is
    therefore a pure function on the tables, and the ways an attempt can end
    ([attempt]) are drawn from an explicit schedule, so that every theorem holds
    for every pattern of lock contention and failure.  [retry] is the bounded
    retry loop of [Store.retry]. *)
From Stdlib Require Import QArith.
From S2P Require Import Prelude.
Open Scope Z_scope.

(** ** Rows *)

Inductive IPBlockLevel := IPBlockLevelShort | IPBlockLevelRepeat.
#[export] Instance IPBlockLevel_eq_dec : EqDecision IPBlockLevel.
Proof. solve_decision. Defined.

(** [block_level] and [blocked_until_ms] are null together (a CHECK of the
    schema), so they are one optional pair. *)
Record ip_row := IPRow {
  ip_id : Z;
  ip_ip : gostring;
  ip_block : option (IPBlockLevel * Z);
  ip_legitimate_count : Z;
  ip_last_activity_at_ms : Z;
}.
Record strike_row := StrikeRow { st_id : Z; st_ip_reputation_id : Z; st_struck_at_ms : Z }.

Inductive CorrespondentKind :=
  | CorrespondentKindAuthenticatedOutbound | CorrespondentKindRepeatedLegitimateInbound | CorrespondentKindManual.
#[export] Instance CorrespondentKind_eq_dec : EqDecision CorrespondentKind.
Proof. solve_decision. Defined.

Record corr_row := CorrRow {
  co_id : Z;
  co_local_address : gostring;
  co_correspondent : gostring;
  co_learned_at_ms : Z;
  co_last_activity_at_ms : Z;
  co_whitelist_type : CorrespondentKind;
  co_legitimate_email_count : Z;
}.

Inductive SenderBlockKind := SenderBlockExactMailbox | SenderBlockDomain.
#[export] Instance SenderBlockKind_eq_dec : EqDecision SenderBlockKind.
Proof. solve_decision. Defined.

Record sblock_row := SBlockRow {
  sb_id : Z;
  sb_recipient : gostring;
  sb_sender_kind : SenderBlockKind;
  sb_sender_value : gostring;
  sb_expires_at_ms : Z;
}.

#[export] Instance ip_row_eq_dec : EqDecision ip_row.
Proof. solve_decision. Defined.
#[export] Instance strike_row_eq_dec : EqDecision strike_row.
Proof. solve_decision. Defined.
#[export] Instance corr_row_eq_dec : EqDecision corr_row.
Proof. solve_decision. Defined.
#[export] Instance sblock_row_eq_dec : EqDecision sblock_row.
Proof. solve_decision. Defined.

(** [rejections] has AUTOINCREMENT: its rowids come from a sequence that never
    goes back, kept beside the rows. *)
Record rej_row := RejRow { rj_id : Z; rj_sender : gostring; rj_subject : gostring; rj_rejected_at_ms : Z; rj_reason : gostring }.
Record rejrcpt_row := RejRcptRow { rr_rejection_id : Z; rr_recipient : gostring }.
Record dom_row := DomRow { dm_id : Z; dm_domain : gostring; dm_registered_at_ms : Z; dm_expires_at_ms : Z }.

(** Event types and outcomes are uint8 numbers, of which these are named. *)
Definition ActivityEventType : Type := Z.
Definition ActivityEventScan : ActivityEventType := 1.
Definition ActivityEventIPRejection : ActivityEventType := 2.
Definition ActivityEventCorrespondentAccept : ActivityEventType := 3.
Definition ActivityEventTrustedDomainAccept : ActivityEventType := 4.
Definition ActivityEventAttachmentRejection : ActivityEventType := 5.
Definition ActivityEventProtectedSenderDomainRejection : ActivityEventType := 6.
Definition ActivityEventSenderBlocklist : ActivityEventType := 7.
Definition ActivityEventHTMLDoS : ActivityEventType := 8.
Definition ActivityEventHTMLLimit : ActivityEventType := 9.
Definition ActivityEventIncompleteInspection : ActivityEventType := 10.
Definition ActivityOutcome : Type := Z.
Definition ActivityOutcomeAccepted : ActivityOutcome := 1.
Definition ActivityOutcomeRejected : ActivityOutcome := 2.
Definition ActivityOutcomeTempfailed : ActivityOutcome := 3.
Definition ActivityOutcomeResponseFailed : ActivityOutcome := 4.
Inductive ServiceMode := ServiceModeAccept | ServiceModeEnforce.
#[export] Instance ServiceMode_eq_dec : EqDecision ServiceMode.
Proof. solve_decision. Defined.

(** [analysis_failed] and [token_cost] are null together (a CHECK of the schema). *)
Record act_row := ActRow {
  ac_id : Z;
  ac_occurred_at_ms : Z;
  ac_event_type : ActivityEventType;
  ac_outcome : ActivityOutcome;
  ac_scan : option (bool * Q);
  ac_quantity : Z;
}.

Record Db := MkDb {
  ip_reputation : list ip_row;
  ip_strikes : list strike_row;
  correspondents : list corr_row;
  sender_blocklist : list sblock_row;
  rejections : list rej_row;
  rejections_seq : Z;
  rejection_recipients : list rejrcpt_row;
  activity : list act_row;
  service_status : option (Z * ServiceMode);
  domain_registrations : list dom_row;
  command_history : list (Z * gostring);
}.
Definition emptyDb : Db := MkDb [] [] [] [] [] 0 [] [] None [] [].

Definition set_ip_reputation v d := MkDb v (ip_strikes d) (correspondents d) (sender_blocklist d) (rejections d) (rejections_seq d) (rejection_recipients d) (activity d) (service_status d) (domain_registrations d) (command_history d).
Definition set_ip_strikes v d := MkDb (ip_reputation d) v (correspondents d) (sender_blocklist d) (rejections d) (rejections_seq d) (rejection_recipients d) (activity d) (service_status d) (domain_registrations d) (command_history d).
Definition set_correspondents v d := MkDb (ip_reputation d) (ip_strikes d) v (sender_blocklist d) (rejections d) (rejections_seq d) (rejection_recipients d) (activity d) (service_status d) (domain_registrations d) (command_history d).
Definition set_sender_blocklist v d := MkDb (ip_reputation d) (ip_strikes d) (correspondents d) v (rejections d) (rejections_seq d) (rejection_recipients d) (activity d) (service_status d) (domain_registrations d) (command_history d).
Definition set_rejections v d := MkDb (ip_reputation d) (ip_strikes d) (correspondents d) (sender_blocklist d) v (rejections_seq d) (rejection_recipients d) (activity d) (service_status d) (domain_registrations d) (command_history d).
Definition set_rejections_seq v d := MkDb (ip_reputation d) (ip_strikes d) (correspondents d) (sender_blocklist d) (rejections d) v (rejection_recipients d) (activity d) (service_status d) (domain_registrations d) (command_history d).
Definition set_rejection_recipients v d := MkDb (ip_reputation d) (ip_strikes d) (correspondents d) (sender_blocklist d) (rejections d) (rejections_seq d) v (activity d) (service_status d) (domain_registrations d) (command_history d).
Definition set_activity v d := MkDb (ip_reputation d) (ip_strikes d) (correspondents d) (sender_blocklist d) (rejections d) (rejections_seq d) (rejection_recipients d) v (service_status d) (domain_registrations d) (command_history d).
Definition set_service_status v d := MkDb (ip_reputation d) (ip_strikes d) (correspondents d) (sender_blocklist d) (rejections d) (rejections_seq d) (rejection_recipients d) (activity d) v (domain_registrations d) (command_history d).
Definition set_domain_registrations v d := MkDb (ip_reputation d) (ip_strikes d) (correspondents d) (sender_blocklist d) (rejections d) (rejections_seq d) (rejection_recipients d) (activity d) (service_status d) v (command_history d).
Definition set_command_history v d := MkDb (ip_reputation d) (ip_strikes d) (correspondents d) (sender_blocklist d) (rejections d) (rejections_seq d) (rejection_recipients d) (activity d) (service_status d) (domain_registrations d) v.

(** ** SQL operations on one table *)

Section Table.
Context {A : Type}.

(** [DELETE ... WHERE p], and the number of rows affected. *)
Definition delete_where (p : A -> bool) (rows : list A) : list A := List.filter (λ r, negb (p r)) rows.
Definition count_where (p : A -> bool) (rows : list A) : Z := Z.of_nat (length (List.filter p rows)).
(** [UPDATE ... SET f WHERE p] *)
Definition update_where (p : A -> bool) (f : A -> A) (rows : list A) : list A := (λ r, if p r then f r else r) <$> rows.

(** The rowid of an inserted row: one more than the largest in use. *)
Definition next_id (id : A -> Z) (rows : list A) : Z := 1 + foldr Z.max 0 (id <$> rows).

(** [ORDER BY key, id]: keys are compared first, then rowids. *)
Definition key_le (k : A -> Z) (id : A -> Z) (x y : A) : Prop := k x < k y \/ k x = k y /\ id x <= id y.
#[global] Instance key_le_dec k id x y : Decision (key_le k id x y).
Proof. unfold key_le. apply _. Defined.
Definition order_by (k : A -> Z) (id : A -> Z) (rows : list A) : list A := merge_sort (key_le k id) rows.
(** [SELECT id ... ORDER BY k, id LIMIT n] *)
Definition first_ids (k : A -> Z) (id : A -> Z) (n : nat) (rows : list A) : list Z := id <$> take n (order_by k id rows).
(** [... WHERE id IN ids] *)
Definition id_in (id : A -> Z) (ids : list Z) (r : A) : bool := bool_decide (id r ∈ ids).
End Table.

(** ** Attempts and retries *)

(** How one attempt at an operation ends: it takes effect, it fails with a busy
    error (after which the code waits, and the wait may be cancelled), or it
    fails otherwise.  A failed attempt has no effect on the tables. *)
Inductive attempt := AttemptOk | AttemptBusy | AttemptBusyCancelled | AttemptFail.
Inductive db_error := ErrBusy | ErrCancelled | ErrDb.
#[export] Instance db_error_eq_dec : EqDecision db_error.
Proof. solve_decision. Defined.

Record World := MkWorld { wdb : Db; wschedule : list attempt }.

Definition next_attempt (w : World) : attempt * World :=
  match wschedule w with
  | [] => (AttemptOk, w)
  | a :: rest => (a, MkWorld (wdb w) rest)
  end.

(** [Store.retry] around an operation with effect [f]; [retries] further
    attempts are allowed after a busy error. *)
Fixpoint retry {R} (retries : nat) (f : Db -> R * Db) (w : World) : (db_error + R) * World :=
  let '(a, w) := next_attempt w in
  match a with
  | AttemptOk => let '(r, d) := f (wdb w) in (inr r, MkWorld d (wschedule w))
  | AttemptFail => (inl ErrDb, w)
  | AttemptBusy | AttemptBusyCancelled =>
      match retries with
      | O => (inl ErrBusy, w)
      | S retries' => match a with
                      | AttemptBusyCancelled => (inl ErrCancelled, w)
                      | _ => retry retries' f w
                      end
      end
  end.

(** [DefaultOptions().BusyRetries] *)
Definition busyRetries : nat := 3.
(** [Store.WithTx], [Store.Exec] and [Row.Scan] all run under [retry]. *)
Definition withTx {R} (f : Db -> R * Db) (w : World) : (db_error + R) * World := retry busyRetries f w.
Definition exec {R} (f : Db -> R * Db) (w : World) : (db_error + R) * World := retry busyRetries f w.
Definition query {R} (f : Db -> R) (w : World) : (db_error + R) * World := retry busyRetries (λ d, (f d, d)) w.

(** ** Time *)

(** Times are nanoseconds since the epoch, durations nanoseconds. *)
Definition millisecond : Z := 1000000.
Definition minute : Z := 60000 * millisecond.
Definition unixMillis (t : Z) : Z := t / millisecond.
Definition timeFromMillis (ms : Z) : Z := ms * millisecond.

(** ** Facts *)

(** A retried operation happens at most once: either it reports an error and
    the tables are untouched, or its effect is applied exactly once. *)
Lemma retry_atomic {R} retries (f : Db -> R * Db) w :
  (exists e, retry retries f w = (inl e, MkWorld (wdb w) (wschedule (retry retries f w).2))) \/
  (exists r, (retry retries f w).1 = inr r /\ f (wdb w) = (r, wdb (retry retries f w).2)).
Proof.
  revert w. induction retries as [|n IH]; intros [d s]; (destruct s as [|[] s]; cbn [retry next_attempt wschedule wdb];
    [destruct (f d) as [r d'] eqn:E; right; exists r; cbn; by rewrite ?E|
     destruct (f d) as [r d'] eqn:E; right; exists r; cbn; by rewrite ?E| | |left; eexists; reflexivity]);
    try (left; eexists; reflexivity).
  destruct (IH (MkWorld d s)) as [(e & He)|(r & Hr & Hf)]; [left|right; by exists r].
  exists e. cbn [wdb] in He. rewrite He at 1. done.
Qed.

Lemma retry_error {R} n (f : Db -> R * Db) w e w' : retry n f w = (inl e, w') -> wdb w' = wdb w.
Proof.
  intros Hr. destruct (retry_atomic n f w) as [(e' & He)|(r & He & _)]; rewrite Hr in He; [|done].
  injection He as _ ->. done.
Qed.

Lemma retry_ok {R} n (f : Db -> R * Db) w r w' : retry n f w = (inr r, w') -> f (wdb w) = (r, wdb w').
Proof.
  intros Hr. destruct (retry_atomic n f w) as [(e' & He)|(r' & He & Hf)]; rewrite Hr in *; [done|].
  injection He as ->. done.
Qed.

(** Without contention the operation succeeds at once. *)
Lemma retry_quiet {R} n (f : Db -> R * Db) d : retry n f (MkWorld d []) = (inr (f d).1, MkWorld (f d).2 []).
Proof. destruct n; cbn; by destruct (f d). Qed.

Lemma query_db {R} (f : Db -> R) w r w' : query f w = (r, w') -> wdb w' = wdb w.
Proof.
  intros Hq. destruct r as [e|r]; [by eapply retry_error|]. apply retry_ok in Hq. by simplify_eq.
Qed.
Lemma query_ok {R} (f : Db -> R) w r w' : query f w = (inr r, w') -> r = f (wdb w).
Proof. intros Hq. apply retry_ok in Hq. by simplify_eq. Qed.

Lemma unixMillis_mono a b : a <= b -> unixMillis a <= unixMillis b.
Proof. intros. apply Z.div_le_mono; [done|lia]. Qed.
Lemma unixMillis_timeFromMillis ms : unixMillis (timeFromMillis ms) = ms.
Proof. unfold unixMillis, timeFromMillis. by apply Z.div_mul. Qed.
Lemma timeFromMillis_le t : timeFromMillis (unixMillis t) <= t < timeFromMillis (unixMillis t) + millisecond.
Proof.
  unfold unixMillis, timeFromMillis. pose proof (Z.div_mod t millisecond). pose proof (Z.mod_pos_bound t millisecond).
  unfold millisecond in *. lia.
Qed.

Section TableFacts.
Context {A : Type}.

Lemma delete_where_elem (p : A -> bool) rows r : r ∈ delete_where p rows <-> r ∈ rows /\ p r = false.
Proof. unfold delete_where. by rewrite list_elem_of_In, filter_In, <- list_elem_of_In, negb_true_iff. Qed.

Lemma count_delete (p : A -> bool) rows :
  count_where p rows = Z.of_nat (length rows) - Z.of_nat (length (delete_where p rows)).
Proof.
  unfold count_where, delete_where. induction rows as [|r rows IH]; [done|]. cbn. destruct (p r); cbn [negb length]; lia.
Qed.

Lemma next_id_fresh (id : A -> Z) rows r : r ∈ rows -> id r < next_id id rows.
Proof.
  unfold next_id. induction 1 as [r rows|r r' rows _ IH]; cbn [fmap list_fmap foldr]; lia.
Qed.

Lemma next_id_pos (id : A -> Z) rows : 0 < next_id id rows.
Proof. unfold next_id. induction rows as [|r rows IH]; cbn [fmap list_fmap foldr]; lia. Qed.

#[local] Instance key_le_total k id : Total (@key_le A k id).
Proof. intros x y. unfold key_le. lia. Qed.
#[local] Instance key_le_trans k id : Transitive (@key_le A k id).
Proof. intros x y z. unfold key_le. lia. Qed.

Lemma order_by_perm k id (rows : list A) : order_by k id rows ≡ₚ rows.
Proof. apply merge_sort_Permutation. Qed.
Lemma order_by_sorted k id (rows : list A) : StronglySorted (key_le k id) (order_by k id rows).
Proof. apply Sorted_StronglySorted; [apply _|]. apply Sorted_merge_sort; apply _. Qed.

Lemma first_ids_elem k id n (rows : list A) i : i ∈ first_ids k id n rows -> exists r, r ∈ rows /\ id r = i.
Proof.
  unfold first_ids. intros (r & -> & Hr)%list_elem_of_fmap. exists r. split; [|done].
  rewrite <- (order_by_perm k id rows). eapply elem_of_take in Hr as (j & Hj & _). by eapply list_elem_of_lookup_2.
Qed.
End TableFacts.

(** What holds of the tables survives an operation whose effect preserves it. *)
Lemma retry_preserves {R} n (f : Db -> R * Db) (P : Db -> Prop) w :
  (forall d, P d -> P (f d).2) -> P (wdb w) -> P (wdb (retry n f w).2).
Proof.
  intros Hf Hw. destruct (retry n f w) as [[e|r] w'] eqn:E; cbn.
  - by rewrite (retry_error n f w e w' E).
  - apply retry_ok in E. specialize (Hf (wdb w) Hw). by rewrite E in Hf.
Qed.

Lemma query_preserves {R} (f : Db -> R) (P : Db -> Prop) w : P (wdb w) -> P (wdb (query f w).2).
Proof. unfold query. apply (retry_preserves _ (λ d, (f d, d))). auto. Qed.
