(* ===== verification/Calendar.v ===== *)
(** * Dates and numbers as text

    The parts of Go's time and strconv packages that the administration
    commands and the archive use: the proleptic Gregorian calendar in UTC,
    [Time.AddDate], [Time.Format] with [time.DateTime], decimal numbers.
    Times are nanoseconds since the epoch. *)
From S2P Require Import Prelude GoText SqlDb.

(** ** Decimal numbers *)

Fixpoint digits_go (fuel : nat) (n : Z) (acc : gostring) : gostring :=
  match fuel with
  | O => acc
  | S fuel' => let acc := chr (48 + n mod 10) :: acc in
               if n / 10 =? 0 then acc else digits_go fuel' (n / 10) acc
  end.
(** [strconv.FormatInt(n, 10)], [%d]; a number has at most as many decimal
    digits as binary ones. *)
Definition itoa (n : Z) : gostring :=
  if n <? 0 then "-"%char :: digits_go (S (Z.to_nat (Z.log2 (- n)))) (- n) []
  else digits_go (S (Z.to_nat (Z.log2 n))) n [].

(** [%0<width>d] of a non-negative number. *)
Definition pad0 (width : nat) (n : Z) : gostring :=
  let s := itoa n in replicate (width - length s) "0"%char ++ s.

Definition is_digit (c : ascii) : bool := in_range 48 57 c.
Definition number_of (s : gostring) : Z := fold_left (λ n c, 10 * n + (code c - 48)) s 0.
(** [strconv.ParseUint(s, 10, bits)] *)
Definition parseUint (s : gostring) (bits : Z) : option Z :=
  if bool_decide (s = []) || negb (forallb is_digit s) then None
  else if number_of s <? 2 ^ bits then Some (number_of s) else None.

(** [strconv.Atoi] *)
Definition atoi (s : gostring) : option Z :=
  match s with
  | c :: rest => if ceq c "-"%char then Z.opp <$> parseUint rest 63
                 else if ceq c "+"%char then parseUint rest 63 else parseUint s 63
  | [] => None
  end.

(** ** The civil calendar *)

Record civil := Civil { cv_year : Z; cv_month : Z; cv_day : Z }.

(** Days from 1970-01-01; years start in March, eras have 400 years. *)
Definition days_from_civil (y m d : Z) : Z :=
  let y := if m <=? 2 then y - 1 else y in
  let era := y / 400 in
  let yoe := y mod 400 in
  let doy := (153 * ((m + 9) mod 12) + 2) / 5 + d - 1 in
  let doe := yoe * 365 + yoe / 4 - yoe / 100 + doy in
  era * 146097 + doe - 719468.

(** The year of the era and the day of that year: centuries, groups of four
    years, years. *)
Definition year_of_era (doe : Z) : Z * Z :=
  let c := Z.min (doe / 36524) 3 in
  let r := doe - 36524 * c in
  let q := r / 1461 in
  let r := r - 1461 * q in
  let y := Z.min (r / 365) 3 in
  (100 * c + 4 * q + y, r - 365 * y).

Definition civil_from_days (z : Z) : civil :=
  let z := z + 719468 in
  let '(yoe, doy) := year_of_era (z mod 146097) in
  let mp := (5 * doy + 2) / 153 in
  let d := doy - (153 * mp + 2) / 5 + 1 in
  let m := if mp <? 10 then mp + 3 else mp - 9 in
  Civil (yoe + z / 146097 * 400 + (if m <=? 2 then 1 else 0)) m d.

Definition second : Z := 1000 * millisecond.
Definition hour : Z := 60 * minute.
Definition day : Z := 24 * hour.
(** The zero [time.Time]: the first of January of the year 1. *)
Definition zeroTime : Z := -62135596800 * second.

Definition date_of (t : Z) : civil := civil_from_days (t / day).

(** [time.Date(year, month, day, ...)] in UTC at an offset into the day: months
    out of range carry into the year, days carry into the calendar. *)
Definition go_date (y m d offset : Z) : Z :=
  days_from_civil (y + (m - 1) / 12) ((m - 1) mod 12 + 1) 1 * day + (d - 1) * day + offset.

(** [Time.AddDate(years, months, 0)] *)
Definition addDate (t years months : Z) : Z :=
  let c := date_of t in go_date (cv_year c + years) (cv_month c + months) (cv_day c) (t mod day).

(** [t.UTC().Format(time.DateTime)], for the years 0 to 9999. *)
Definition format_date (c : civil) : gostring :=
  pad0 4 (cv_year c) ++ lit "-" ++ pad0 2 (cv_month c) ++ lit "-" ++ pad0 2 (cv_day c).
Definition format_datetime (t : Z) : gostring :=
  let s := (t mod day) / second in
  format_date (date_of t) ++ lit " " ++ pad0 2 (s / 3600) ++ lit ":" ++ pad0 2 (s / 60 mod 60) ++ lit ":" ++ pad0 2 (s mod 60).

(** ** Facts: the calendar *)

Definition is_leap (y : Z) : bool := (y mod 4 =? 0) && (negb (y mod 100 =? 0) || (y mod 400 =? 0)).
Definition month_days (y m : Z) : Z :=
  if m =? 2 then if is_leap y then 29 else 28
  else if (m =? 4) || (m =? 6) || (m =? 9) || (m =? 11) then 30 else 31.
Definition real_date (c : civil) : bool :=
  (1 <=? cv_month c) && (cv_month c <=? 12) && (1 <=? cv_day c) && (cv_day c <=? month_days (cv_year c) (cv_month c)).

Lemma year_of_era_spec doe yoe doy : 0 <= doe < 146097 -> year_of_era doe = (yoe, doy) ->
  0 <= yoe < 400 /\ 0 <= doy <= 365 /\ yoe * 365 + yoe / 4 - yoe / 100 + doy = doe /\
  (doy = 365 -> (yoe + 1) mod 4 = 0 /\ ((yoe + 1) mod 100 = 0 -> (yoe + 1) mod 400 = 0)).
Proof.
  intros Hd. unfold year_of_era. cbv zeta. set (c := Z.min (doe / 36524) 3). set (q := (doe - 36524 * c) / 1461).
  set (y := Z.min ((doe - 36524 * c - 1461 * q) / 365) 3). intros E. injection E as <- <-.
  assert (Hc : 0 <= c <= 3 /\ 36524 * c <= doe /\ (c < 3 -> doe < 36524 * c + 36524)) by (subst c; Z.div_mod_to_equations; lia).
  assert (Hq : 0 <= q <= 24 /\ 1461 * q <= doe - 36524 * c < 1461 * q + 1461) by (subst q; Z.div_mod_to_equations; lia).
  assert (Hy : 0 <= y <= 3 /\ 365 * y <= doe - 36524 * c - 1461 * q /\ (y < 3 -> doe - 36524 * c - 1461 * q < 365 * y + 365))
    by (subst y; Z.div_mod_to_equations; lia).
  clearbody c q y. assert (E4 : (100 * c + 4 * q + y) / 4 = 25 * c + q) by (Z.div_mod_to_equations; lia).
  assert (E100 : (100 * c + 4 * q + y) / 100 = c) by (Z.div_mod_to_equations; lia).
  split_and!; try lia. intros H365. assert (y = 3) as -> by lia. split; [|intros Hm].
  - replace (100 * c + 4 * q + 3 + 1) with ((25 * c + q + 1) * 4) by lia. by apply Z.mod_mul.
  - assert (q = 24) as -> by (Z.div_mod_to_equations; lia). assert (c = 3) as -> by lia. done.
Qed.

(** Every day of a year that starts in March. *)
Definition doy_ok (doy : Z) : bool :=
  let mp := (5 * doy + 2) / 153 in
  let d := doy - (153 * mp + 2) / 5 + 1 in
  let m := if mp <? 10 then mp + 3 else mp - 9 in
  ((153 * ((m + 9) mod 12) + 2) / 5 + d - 1 =? doy) && (1 <=? m) && (m <=? 12) && (1 <=? d) &&
  (if m =? 2 then (d <=? 28) || (doy =? 365) && (d =? 29) else d <=? month_days 0 m).
Lemma all_doy_ok : forallb (λ n, doy_ok (Z.of_nat n)) (seq 0 366) = true.
Proof. vm_compute. reflexivity. Qed.
Lemma doy_ok_all doy : 0 <= doy <= 365 -> doy_ok doy = true.
Proof.
  intros Hd. pose proof all_doy_ok as Ha. rewrite forallb_forall in Ha. rewrite <- (Z2Nat.id doy) by lia. apply Ha, in_seq. lia.
Qed.

(** The date of a day is a date of the calendar, and its day is the day. *)
Lemma civil_round_trip z :
  let c := civil_from_days z in days_from_civil (cv_year c) (cv_month c) (cv_day c) = z /\ real_date c = true.
Proof.
  unfold civil_from_days. cbv zeta. destruct (year_of_era ((z + 719468) mod 146097)) as [yoe doy] eqn:E.
  pose proof (Z.mod_pos_bound (z + 719468) 146097 ltac:(lia)) as Hb. pose proof (Z.div_mod (z + 719468) 146097 ltac:(lia)) as Hz.
  destruct (year_of_era_spec _ _ _ Hb E) as (Hy & Hd & Hdoe & Hleap). clear E.
  set (doe := (z + 719468) mod 146097) in *. set (era := (z + 719468) / 146097) in *. clearbody doe era.
  pose proof (doy_ok_all doy Hd) as Hok. unfold doy_ok in Hok. cbv zeta in Hok.
  set (mp := (5 * doy + 2) / 153) in *. set (d := doy - (153 * mp + 2) / 5 + 1) in *. set (m := if mp <? 10 then mp + 3 else mp - 9) in *.
  clearbody m d. clear mp. cbn [cv_year cv_month cv_day]. split.
  - unfold days_from_civil. cbv zeta.
    assert (Ey : (if m <=? 2 then yoe + era * 400 + (if m <=? 2 then 1 else 0) - 1 else yoe + era * 400 + (if m <=? 2 then 1 else 0)) = yoe + era * 400)
      by (destruct (m <=? 2); lia).
    rewrite Ey, Z.div_add, Z.mod_add, Z.div_small, Z.mod_small by lia. lia.
  - unfold real_date, month_days in *. cbn [cv_year cv_month cv_day]. destruct (Z.eqb_spec m 2) as [Em|Hm]; [|lia].
    rewrite (proj2 (Z.leb_le m 2)) by lia. destruct (Z.eqb_spec doy 365) as [Hdoy|]; [|case_match; lia].
    destruct (Hleap Hdoy) as [H4 H100]. assert (is_leap (yoe + era * 400 + 1) = true) as ->; [|lia].
    unfold is_leap. replace (yoe + era * 400 + 1) with (yoe + 1 + era * 100 * 4) at 1 by lia. rewrite Z.mod_add by lia.
    replace (yoe + era * 400 + 1) with (yoe + 1 + era * 4 * 100) at 1 by lia. rewrite Z.mod_add by lia.
    replace (yoe + era * 400 + 1) with (yoe + 1 + era * 400) by lia. rewrite Z.mod_add by lia. lia.
Qed.

(** ** Facts: decimal numbers *)

Lemma digits_go_spec fuel n acc : 0 <= n < 10 ^ Z.of_nat fuel ->
  exists ds, digits_go fuel n acc = ds ++ acc /\ forallb is_digit ds = true /\ number_of ds = n /\ (0 < fuel -> ds <> [])%nat.
Proof.
  revert n acc. induction fuel as [|fuel IH]; intros n acc Hn.
  - exists []. cbn in *. split_and!; [done|done|unfold number_of; cbn; lia|lia].
  - cbn [digits_go]. pose proof (Z.mod_pos_bound n 10 ltac:(lia)) as Hm. pose proof (Z.div_mod n 10 ltac:(lia)) as Hdm.
    assert (Hdig : is_digit (chr (48 + n mod 10)) = true) by (unfold is_digit, in_range; rewrite code_chr by lia; lia).
    destruct (Z.eqb_spec (n / 10) 0) as [E|E].
    + exists [chr (48 + n mod 10)]. cbn [forallb]. rewrite Hdig. split_and!; [done|done| |done].
      unfold number_of. cbn [fold_left]. rewrite code_chr by lia. lia.
    + destruct (IH (n / 10) (chr (48 + n mod 10) :: acc)) as (ds & E1 & E2 & E3 & _).
      { split; [apply Z.div_pos; lia|]. apply Z.div_lt_upper_bound; [lia|]. rewrite Nat2Z.inj_succ, Z.pow_succ_r in Hn by lia. lia. }
      exists (ds ++ [chr (48 + n mod 10)]). rewrite E1, <- app_assoc. split_and!; [done| | |by destruct ds].
      * rewrite forallb_app. cbn [forallb]. by rewrite E2, Hdig.
      * unfold number_of in *. rewrite fold_left_app. cbn [fold_left]. rewrite E3, code_chr by lia. lia.
Qed.

Lemma log2_fuel n : 0 <= n -> n < 10 ^ Z.of_nat (S (Z.to_nat (Z.log2 n))).
Proof.
  intros Hn. rewrite Nat2Z.inj_succ, Z2Nat.id by apply Z.log2_nonneg. destruct (Z.eq_dec n 0) as [-> |].
  - done.
  - pose proof (Z.log2_spec n ltac:(lia)) as [_ Hl]. eapply Z.lt_le_trans; [exact Hl|]. apply Z.pow_le_mono_l. lia.
Qed.

(** A number reads back from its decimal text. *)
Lemma itoa_digits n : 0 <= n -> forallb is_digit (itoa n) = true /\ number_of (itoa n) = n /\ itoa n <> [].
Proof.
  intros Hn. unfold itoa. rewrite (proj2 (Z.ltb_ge _ _)) by lia.
  destruct (digits_go_spec (S (Z.to_nat (Z.log2 n))) n []) as (ds & E1 & E2 & E3 & E4); [split; [done|by apply log2_fuel]|].
  rewrite E1, app_nil_r. split_and!; [done|done|apply E4; lia].
Qed.
Lemma parseUint_itoa n bits : 0 <= n < 2 ^ bits -> parseUint (itoa n) bits = Some n.
Proof.
  intros Hn. destruct (itoa_digits n) as (H1 & H2 & H3); [lia|]. unfold parseUint.
  rewrite bool_decide_false, H1, H2 by done. cbn [orb negb]. by rewrite (proj2 (Z.ltb_lt _ _)) by lia.
Qed.

(** ** Facts: padded numbers *)

Lemma number_of_zeros k s : number_of (replicate k "0"%char ++ s) = number_of s.
Proof. unfold number_of. induction k as [|k IH]; [done|]. cbn [replicate app fold_left]. exact IH. Qed.
Lemma number_of_pad0 k n : 0 <= n -> number_of (pad0 k n) = n.
Proof. intros Hn. unfold pad0. cbv zeta. rewrite number_of_zeros. by apply itoa_digits. Qed.
Lemma pad0_digits k n : 0 <= n -> forallb is_digit (pad0 k n) = true /\ pad0 k n <> [].
Proof.
  intros Hn. destruct (itoa_digits n Hn) as (Hd & _ & He). unfold pad0. cbv zeta. split.
  - rewrite forallb_app, Hd, andb_true_r. by induction (k - length (itoa n))%nat.
  - intros E. by apply app_eq_nil in E as [_ E].
Qed.
Lemma digits_go_length fuel n acc k : (0 < k)%nat -> n < 10 ^ Z.of_nat k -> 0 <= n -> (length (digits_go fuel n acc) <= k + length acc)%nat.
Proof.
  revert n acc k. induction fuel as [|fuel IH]; intros n acc k Hk Hn H0; cbn [digits_go]; [lia|].
  destruct (Z.eqb_spec (n / 10) 0) as [E|E]; cbn [length]; [lia|]. destruct k as [|[|k]]; [lia| |].
  - exfalso. apply E, Z.div_small. change (10 ^ Z.of_nat 1) with 10 in Hn. lia.
  - specialize (IH (n / 10) (chr (48 + n mod 10) :: acc) (S k)). cbn [length] in IH. rewrite Nat2Z.inj_succ, Z.pow_succ_r in Hn by lia.
    pose proof (Z.div_pos n 10 ltac:(lia) ltac:(lia)). pose proof (Z.div_lt_upper_bound n 10 (10 ^ Z.of_nat (S k)) ltac:(lia) ltac:(lia)).
    specialize (IH ltac:(lia) ltac:(lia) ltac:(lia)). lia.
Qed.
Lemma pad0_length k n : (0 < k)%nat -> 0 <= n < 10 ^ Z.of_nat k -> length (pad0 k n) = k.
Proof.
  intros Hk [H0 Hn]. unfold pad0, itoa. rewrite (proj2 (Z.ltb_ge _ _)) by lia. cbv zeta. rewrite length_app, length_replicate.
  pose proof (digits_go_length (S (Z.to_nat (Z.log2 n))) n [] k Hk Hn H0) as H. cbn [length] in H. lia.
Qed.

(** ** Facts: the order of dates *)

Lemma days_linear y m d : days_from_civil y m d = days_from_civil y m 1 + (d - 1).
Proof. unfold days_from_civil. cbv zeta. lia. Qed.
Lemma go_date_days y m d : 1 <= m <= 12 -> go_date y m d 0 = days_from_civil y m d * day.
Proof.
  intros Hm. unfold go_date. rewrite Z.div_small, Z.mod_small, (days_linear y m d) by lia.
  replace (y + 0) with y by lia. replace (m - 1 + 1) with m by lia. lia.
Qed.
(** The first of March of a year, from a fixed day on. *)
Definition march (y : Z) : Z := y / 400 * 146097 + (y mod 400 * 365 + y mod 400 / 4 - y mod 400 / 100).
Lemma march_step y : march y = march (y - 1) + 365 + (if is_leap y then 1 else 0).
Proof.
  unfold march, is_leap.
  destruct (Z.eqb_spec (y mod 4) 0), (Z.eqb_spec (y mod 100) 0), (Z.eqb_spec (y mod 400) 0); cbn [negb orb andb]; Z.div_mod_to_equations; lia.
Qed.
Lemma days_march y m d : days_from_civil y m d = march (if m <=? 2 then y - 1 else y) + (153 * ((m + 9) mod 12) + 2) / 5 + d - 1 - 719468.
Proof. unfold days_from_civil, march. cbv zeta. lia. Qed.

Lemma months_of m : 1 <= m <= 12 -> m ∈ [1; 2; 3; 4; 5; 6; 7; 8; 9; 10; 11; 12].
Proof. intros Hm. rewrite !elem_of_cons. lia. Qed.
(** Evaluates the divisions and comparisons of numerals. *)
Ltac eval_numerals :=
  repeat (match goal with
  | |- context [?a mod ?b] => let v := eval vm_compute in (a mod b) in change (a mod b) with v
  | |- context [?a / ?b] => let v := eval vm_compute in (a / b) in change (a / b) with v
  | |- context [?a <=? ?b] => let v := eval vm_compute in (a <=? b) in change (a <=? b) with v
  | |- context [?a =? ?b] => let v := eval vm_compute in (a =? b) in change (a =? b) with v
  end; cbv iota; cbn [orb]).
(** The month after a month starts after its last day. *)
Lemma month_after y m : 1 <= m <= 12 -> go_date y (m + 1) 1 0 = (days_from_civil y m 1 + month_days y m) * day.
Proof.
  intros Hm%months_of. unfold go_date. rewrite !days_march. pose proof (march_step y) as Hs. unfold month_days.
  assert (E : y + 1 - 1 = y) by lia. assert (E0 : y + 0 = y) by lia.
  rewrite !elem_of_cons in Hm. destruct_or! Hm; [subst m..|by apply not_elem_of_nil in Hm]; eval_numerals; rewrite ?E, ?E0; destruct (is_leap y); lia.
Qed.
(** The last day of a year. *)
Lemma year_after y m : 1 <= m <= 12 -> days_from_civil y m 1 + month_days y m <= days_from_civil (y + 1) 1 1.
Proof.
  intros Hm%months_of. rewrite !days_march. pose proof (march_step y) as Hs. unfold month_days. assert (E : y + 1 - 1 = y) by lia.
  rewrite !elem_of_cons in Hm. destruct_or! Hm; [subst m..|by apply not_elem_of_nil in Hm]; eval_numerals; rewrite ?E; destruct (is_leap y); lia.
Qed.
(** Dates of the calendar are ordered as their days are. *)
Lemma real_date_bounds c : real_date c = true ->
  1 <= cv_month c <= 12 /\ days_from_civil (cv_year c) (cv_month c) 1 <= days_from_civil (cv_year c) (cv_month c) (cv_day c) < days_from_civil (cv_year c) (cv_month c) 1 + month_days (cv_year c) (cv_month c).
Proof. unfold real_date. intros H. rewrite (days_linear _ _ (cv_day c)). lia. Qed.
Lemma date_of_days t : let c := date_of t in days_from_civil (cv_year c) (cv_month c) (cv_day c) = t / day /\ real_date c = true.
Proof. apply civil_round_trip. Qed.
