(* ===== verification/Config.v ===== *)
(** * Configuration (internal/config)

    The settings of the program with their defaults (config.go), the validation of
    every group and of the rules between groups (validation.go), the listener
    address (milter_socket.go), the file of trusted sender domains, and [Load],
    which puts them together with the catalogues of Thinking.v.

    YAML decoding and the file system are the class [ConfigFiles].  Scores and
    prices are [float64]: a rational number, a NaN or an infinity.  Durations are
    nanoseconds.  An error is [config_error]; the results of a validation are [None]
    for nil. *)
From Stdlib Require Import QArith.
From S2P Require Import Prelude GoText NetSafety MailAddr SqlDb Calendar Thinking.
Open Scope Z_scope.

(** ** Values *)

Inductive float64 := Finite (q : Q) | NaN | PosInf | NegInf.
Definition IsNaN (f : float64) : bool := match f with NaN => true | _ => false end.
Definition IsInf (f : float64) : bool := match f with PosInf | NegInf => true | _ => false end.
(** [f < q] and [f > q]; comparisons with a NaN are false. *)
Definition flt_lt (f : float64) (q : Q) : bool := match f with Finite x => negb (Qle_bool q x) | NegInf => true | _ => false end.
Definition flt_gt (f : float64) (q : Q) : bool := match f with Finite x => negb (Qle_bool x q) | PosInf => true | _ => false end.

Inductive config_error :=
  | CErr (message : gostring)
  | CEntry (message entry : gostring)
  | CLine (line : Z) (entry : gostring)
  | CThinking (err : option thinking_error)
  | CFile.

(** ** Settings *)

Record PersistenceConfig := MkPersistence { pe_DatabaseFile : gostring; pe_CleanupInterval : Z }.
Record ActivityConfig := MkActivityConfig { ac_Expiry : Z }.
Record SenderBlocklistConfig := MkSenderBlocklist {
  sb_Expiry : Z; sb_MaxEntries : Z; sb_IncludeSubdomains : bool; sb_RejectMessage : gostring }.
Record DomainRegistrationConfig := MkDomainRegistration { dr_Enabled : bool; dr_Timeout : Z; dr_MaxEntries : Z }.
Record RejectionHistoryConfig := MkRejectionHistory {
  rh_Expiry : Z; rh_MaxEntries : Z; rh_SaveMessages : bool; rh_MessageDirectory : gostring; rh_MessageMaxTotalBytes : Z }.
Record EmailCommandsConfig := MkEmailCommands {
  em_Enabled : bool; em_Recipient : gostring; em_AllowAuthenticatedUsers : bool; em_VerifySenderViaAliases : bool; em_AliasesFile : gostring;
  em_Administrators : list gostring; em_SendReplies : bool; em_SMTPHost : gostring; em_SMTPTLS : gostring; em_MaxMessageBytes : Z }.
Record AttachmentsConfig := MkAttachments {
  at_BlockExecutables : bool; at_AddIPReputationStrike : bool; at_BlockedExtensions : list gostring; at_InspectSignatures : bool; at_InspectArchives : bool;
  at_MaxAttachmentBytes : Z; at_MaxArchiveDepth : Z; at_MaxArchiveFiles : Z; at_MaxArchiveUncompressedBytes : Z;
  at_EncryptedArchiveAction : gostring; at_UnscannableAction : gostring; at_InvalidMIMEAction : gostring; at_RejectMessage : gostring }.
Record MilterConfig := MkMilter {
  mi_Socket : gostring; mi_Timeout : Z; mi_ConnectionDNSTimeout : Z; mi_MaxMessageSize : Z; mi_MaxConnections : Z; mi_AllowedPeerIPs : list gostring }.
Record AuthenticationConfig := MkAuthentication {
  au_Mode : gostring; au_TrustRequirement : gostring; au_Timeout : Z; au_MaxConcurrent : Z; au_MessageStorage : gostring; au_MemoryMessageLimit : Z }.
(** The deprecated settings are pointers; the last three are set by [Load]. *)
Record AIConfig := MkAI {
  ai_Endpoint : gostring; ai_EndpointType : gostring; ai_ThinkingLevel : Z; ai_ThinkingProfile : gostring; ai_EndpointsFile : gostring; ai_ProfilesFile : gostring;
  ai_APIKey : gostring; ai_APIKeyEnv : gostring; ai_Model : gostring; ai_PromptFile : gostring; ai_Timeout : Z; ai_Retries : Z; ai_MaxConcurrent : Z; ai_MaxBodyChars : Z;
  ai_CompactPromptURLs : bool; ai_MaxHTMLParseCPUMilliseconds : Z; ai_MaxHTMLParseMemoryBytes : Z; ai_HTMLResourceLimitAction : gostring;
  ai_LegacyHTMLResourceRejectMessage : option gostring; ai_LegacyHTMLParseCPULimitAction : option gostring; ai_LegacyHTMLDoSRejectMessage : option gostring;
  ai_IncompleteBodyAction : gostring; ai_VisionMode : gostring; ai_VisionMinTextChars : Z; ai_MaxImages : Z; ai_MaxImageBytes : Z; ai_MaxImagePixels : Z;
  ai_SiteURL : gostring; ai_AppName : gostring; ai_InputCostPerMillionTokens : float64; ai_OutputCostPerMillionTokens : float64;
  ai_ThinkingPlan : option Plan; ai_ThinkingResolution : option Resolution; ai_ResolvedEndpoint : gostring }.
Record FilteringConfig := MkFiltering {
  fi_LegacyLegitimateLowConfidenceScore : option float64; fi_RejectScore : float64; fi_LowConfidenceScore : float64; fi_AddEmailHeaders : bool; fi_AIErrorAction : gostring;
  fi_RejectMessage : gostring; fi_ScanAuthenticated : bool; fi_AuthenticatedOnlySenderDomains : list gostring; fi_SenderDomainAllowlistFile : gostring;
  fi_SenderDomainAllowlist : list gostring; fi_SenderDomainAllowlistRequireAuthentication : bool }.
Record IPReputationConfig := MkIPReputation {
  ir_RejectMessage : gostring; ir_BlockDuration : Z; ir_RepeatThreshold : Z; ir_RepeatWindow : Z; ir_RepeatBlockDuration : Z; ir_RepeatRefreshOnAttempt : bool;
  ir_LegitimatePerStrike : Z; ir_MaxEntries : Z; ir_IPAllowlist : list gostring; ir_DomainAllowlist : list gostring }.
Record LoggingConfig := MkLogging { lo_Level : gostring; lo_IncludeSubject : bool; lo_IncludeAIInput : bool; lo_IncludeConnections : bool }.
Record CorrespondentsConfig := MkCorrespondents {
  co_LearnAuthenticatedRecipients : bool; co_LearnLegitimateSenders : bool; co_LegitimateSenderMinMessages : Z; co_LegitimateSenderMinScore : float64;
  co_LegitimateSenderRequireAuthentication : bool; co_UseAllowlist : bool; co_Scope : gostring; co_RecipientMatch : gostring; co_BypassAI : bool;
  co_RequireAuthenticationForBypass : bool; co_TrustedAuthservIDs : list gostring; co_MaxEntries : Z; co_StaleAfter : Z }.
Record Config := MkConfig {
  c_Mode : gostring; c_Milter : MilterConfig; c_Authentication : AuthenticationConfig; c_AI : AIConfig; c_Activity : ActivityConfig;
  c_SenderBlocklist : SenderBlocklistConfig; c_Filtering : FilteringConfig; c_Attachments : AttachmentsConfig; c_EmailCommands : EmailCommandsConfig;
  c_Persistence : PersistenceConfig; c_RejectionHistory : RejectionHistoryConfig; c_Correspondents : CorrespondentsConfig; c_IPReputation : IPReputationConfig;
  c_DomainRegistration : DomainRegistrationConfig; c_Logging : LoggingConfig; c_Warnings : list gostring }.

Definition MTAHostnameAuthservID : gostring := lit "$mta_hostname".
Definition AuthenticationModeTrustedHeaders : gostring := lit "trusted_headers".
Definition AuthenticationModeInternal : gostring := lit "internal".
Definition maxMilterMessageSize : Z := Z.shiftl 100 20.
Definition mib (n : Z) : Z := Z.shiftl n 20.
Definition words (l : list string) : list gostring := lit <$> l.

(** ** Defaults *)

Definition defaultBlockedExtensions : list gostring := words
  ["exe"; "com"; "scr"; "pif"; "bat"; "cmd"; "ps1"; "vbs"; "js"; "jse"; "msi"; "dll"; "jar"; "lnk"; "iso";
   "cpl"; "hta"; "htc"; "chm"; "sct"; "scf"; "wsf"; "wsh"; "wsc"; "ws"; "vb"; "vbe"; "reg"; "url"; "website";
   "jnlp"; "application"; "appref-ms"; "xbap"; "msp"; "mst"; "msu"; "app"; "appx"; "msix"; "msixbundle"; "apk";
   "cab"; "img"; "vhd"; "vhdx"; "dmg"; "one"; "onepkg"; "7z"; "rar"; "z"]%string.
Definition defaultEndpointsFile : gostring := lit "/etc/milterguard/endpoints.yaml".
Definition defaultProfilesFile : gostring := lit "/etc/milterguard/thinking-profiles.yaml".

Definition defaults : Config := MkConfig (lit "accept")
  (MkMilter (lit "tcp:127.0.0.1:8895") minute (5 * second) (mib 10) 64 (words ["127.0.0.0/8"; "::1/128"]%string))
  (MkAuthentication AuthenticationModeInternal (lit "either") (10 * second) 8 (lit "hybrid") 8)
  (MkAI (lit "https://openrouter.ai/api/v1") (lit "openrouter") 0 (lit "none") defaultEndpointsFile defaultProfilesFile
     [] [] [] (lit "/etc/milterguard/detection-prompt.txt") (45 * second) 2 8 50000 true 250 (mib 64) (lit "reject")
     None None None (lit "scan") (lit "fallback") 500 2 (mib 2) 12000000
     (lit "https://github.com/PhilAnderson1/MilterGuard") (lit "MilterGuard") (Finite 0) (Finite 0) None None [])
  (MkActivityConfig (365 * day))
  (MkSenderBlocklist (365 * day) 10000 true (lit "Message rejected by recipient sender blocklist"))
  (MkFiltering None (Finite (1 # 2)) (Finite (4 # 5)) true (lit "accept") (lit "Message rejected as suspected spam or fraud") false []
     (lit "/etc/milterguard/trusted-sender-domains.txt") [] true)
  (MkAttachments true false defaultBlockedExtensions true true (mib 10) 2 100 (mib 50) (lit "reject") (lit "reject") (lit "reject")
     (lit "Message rejected because an attachment is prohibited or could not be safely inspected"))
  (MkEmailCommands false (lit "milterguard@example.com") false true (lit "/etc/aliases") [] true (lit "127.0.0.1:25") (lit "opportunistic") 65536)
  (MkPersistence (lit "/var/lib/milterguard/milterguard.db") (10 * minute))
  (MkRejectionHistory (30 * day) 100000 true (lit "/var/lib/milterguard/rejected-mail") (Z.shiftl 1 30))
  (MkCorrespondents true true 3 (Finite (4 # 5)) true true (lit "per_sender") (lit "all") true true [MTAHostnameAuthservID] 10000 (365 * day))
  (MkIPReputation (lit "Message rejected because the sending IP address is blocked by this server") hour 3 (30 * day) (30 * day) true 1 10000
     (words ["127.0.0.0/8"; "::1/128"]%string)
     (words ["google.com"; "outlook.com"; "yahoo.com"; "yahoo.net"; "me.com"; "icloud.com"; "protonmail.ch"; "zoho.com"; "zoho.eu"; "zohomail.com";
             "gmx.net"; "web.de"; "mail.com"; "yandex.net"]%string))
  (MkDomainRegistration true (3 * second) 10000)
  (MkLogging (lit "info") true false false)
  [].

(** ** Validation *)

(** The first error of a sequence of checks. *)
Fixpoint first_error (checks : list (option config_error)) : option config_error :=
  match checks with [] => None | Some e :: _ => Some e | None :: rest => first_error rest end.
Definition refuse (bad : bool) (message : string) : option config_error := if bad then Some (CErr (lit message)) else None.
(** A loop that refuses the first bad entry. *)
Definition refuse_entry (bad : gostring -> bool) (message : string) (entries : list gostring) : option config_error :=
  match List.find bad entries with Some entry => Some (CEntry (lit message) entry) | None => None end.
Definition one_of (value : gostring) (l : list string) : bool := existsb (beq value) (words l).
Definition blank (value : gostring) : bool := beq (trimSpace value) [].
Definition containsAny (value chars : gostring) : bool := existsb (λ c, existsb (ceq c) chars) value.
(** [filepath.IsAbs] *)
Definition filepath_IsAbs (p : gostring) : bool := hasPrefix p ["/"%char].

(** [net.SplitHostPort] *)
Definition SplitHostPort (hostport : gostring) : option (gostring * gostring) :=
  match after_last ":"%char hostport with
  | None => None
  | Some port =>
      let i := (length hostport - length port - 1)%nat in
      if hasPrefix hostport ["["%char] then
        match indexByte hostport "]"%char with
        | None => None
        | Some stop =>
            if negb (S stop =? i)%nat then None
            else if containsByte (drop 1 hostport) "["%char || containsByte (drop (S stop) hostport) "]"%char then None
            else Some (take (stop - 1) (drop 1 hostport), port)
        end
      else
        let host := take i hostport in
        if containsByte host ":"%char || containsByte hostport "["%char || containsByte hostport "]"%char then None
        else Some (host, port)
  end.

Section Validation.
Context `{UnicodeTables, NetIPText, NetMail, UrlText}.

Definition validPort (portText : gostring) : bool := match atoi portText with Some port => (1 <=? port) && (port <=? 65535) | None => false end.

Definition validDomainName (value : gostring) : bool :=
  let value := DNSHostname value in
  negb (beq value []) && match parse_addr value with Some _ => false | None => true end.
Definition validEmailAddress (value : gostring) : bool :=
  let value := trimSpace value in
  let normalized := Normalize value in
  negb (beq normalized []) && equalFold value normalized.
Definition validSMTPHost (value : gostring) : bool :=
  match SplitHostPort (trimSpace value) with
  | None => false
  | Some (host, portText) => negb (blank host) && negb (containsAny host (lit " " ++ [chr 9; CR; LF; NUL])) && validPort portText
  end.
Definition validAttachmentAction (value : gostring) : bool := one_of value ["accept"; "reject"; "tempfail"]%string.

Record MilterSocketAddress := MkSocketAddress { Network : gostring; Address : gostring }.
Definition ParseMilterSocket (value : gostring) : config_error + MilterSocketAddress :=
  if hasPrefix value (lit "unix:") then
    let path := trimPrefix value (lit "unix:") in
    if beq path [] || containsByte path NUL then inl (CErr (lit "milter.socket requires a valid Unix socket path after unix:"))
    else inr (MkSocketAddress (lit "unix") path)
  else if hasPrefix value (lit "tcp:") then
    let address := trimPrefix value (lit "tcp:") in
    match SplitHostPort address with
    | None => inl (CErr (lit "milter.socket requires a TCP address in host:port form"))
    | Some (host, portText) =>
        if negb (beq host []) && match parse_addr host with Some _ => false | None => true end && beq (DNSHostname host) []
        then inl (CEntry (lit "milter.socket contains an invalid TCP host") host)
        else if negb (validPort portText) then inl (CErr (lit "milter.socket TCP port must be between 1 and 65535"))
        else inr (MkSocketAddress (lit "tcp") address)
    end
  else inl (CErr (lit "milter.socket must begin with unix: or tcp:")).

Definition bad_prefix (entry : gostring) : bool := match NetSafety.ParseIPPrefix entry with Some _ => false | None => true end.

Definition validateGeneral (c : Config) : option config_error := first_error [
  refuse (negb (one_of (c_Mode c) ["accept"; "enforce"]%string)) "mode must be accept or enforce";
  refuse (negb (one_of (toLower (lo_Level (c_Logging c))) ["debug"; "info"; "warn"; "error"]%string)) "logging.level must be debug, info, warn, or error"].

Definition validateMilter (c : MilterConfig) : option config_error :=
  match ParseMilterSocket (mi_Socket c) with
  | inl err => Some err
  | inr listener => first_error [
      refuse ((mi_MaxMessageSize c <? 1) || (maxMilterMessageSize <? mi_MaxMessageSize c)) "milter.max_message_size must be between 1 and 104857600 bytes";
      refuse (mi_Timeout c <=? 0) "milter.timeout must be positive";
      refuse (mi_ConnectionDNSTimeout c <? 0) "milter.connection_dns_timeout must not be negative";
      refuse (mi_MaxConnections c <? 1) "milter.max_connections must be positive";
      refuse (beq (Network listener) (lit "tcp") && bool_decide (mi_AllowedPeerIPs c = [])) "milter.allowed_peer_ips must contain at least one address for a TCP listener";
      refuse_entry bad_prefix "invalid milter.allowed_peer_ips entry" (mi_AllowedPeerIPs c)]
  end.

Definition validateAuthentication (c : AuthenticationConfig) : option config_error := first_error [
  refuse (negb (one_of (au_Mode c) ["trusted_headers"; "internal"]%string)) "authentication.mode must be trusted_headers or internal";
  refuse (negb (one_of (au_TrustRequirement c) ["dkim"; "spf"; "either"; "both"]%string)) "authentication.trust_requirement must be dkim, spf, either, or both";
  refuse (au_Timeout c <=? 0) "authentication.timeout must be positive";
  refuse (au_MaxConcurrent c <? 1) "authentication.max_concurrent must be positive";
  refuse (negb (one_of (au_MessageStorage c) ["memory"; "file"; "hybrid"]%string)) "authentication.message_storage must be memory, file, or hybrid";
  refuse (au_MemoryMessageLimit c <? 1) "authentication.memory_message_limit must be positive"].

Definition validatePersistence (c : PersistenceConfig) : option config_error := first_error [
  refuse (pe_CleanupInterval c <? minute) "persistence.cleanup_interval must be at least 1m";
  refuse (blank (pe_DatabaseFile c)) "persistence.database_file is required"].

Definition validateDomainRegistration (c : DomainRegistrationConfig) : option config_error :=
  refuse (dr_Enabled c && ((dr_Timeout c <=? 0) || (dr_MaxEntries c <? 1))) "domain_registration requires a positive timeout and max_entries".

Definition bad_price (f : float64) : bool := IsNaN f || IsInf f || flt_lt f 0.
(** [math.MaxInt64 / time.Millisecond] *)
Definition maxMilliseconds : Z := (2 ^ 63 - 1) / millisecond.
Definition validateAI (c : AIConfig) : option config_error := first_error [
  refuse (beq (ai_Endpoint c) [] || beq (ai_Model c) [] || beq (ai_PromptFile c) []) "ai endpoint, model, and prompt_file are required";
  refuse (blank (ai_EndpointType c)) "ai.endpoint_type is required";
  refuse (blank (ai_ThinkingProfile c)) "ai.thinking_profile is required";
  refuse ((ai_ThinkingLevel c <? MinimumLevel) || (MaximumLevel <? ai_ThinkingLevel c)) "ai.thinking_level must be between 0 and 4";
  refuse (beq (ai_EndpointsFile c) [] || beq (ai_ProfilesFile c) []) "ai.endpoints_file and ai.profiles_file are required";
  match ResolveEndpointURL (ai_Endpoint c) (lit "/chat/completions") with Done _ => None | Failed e => Some (CThinking (Some e)) | Panicking => Some (CThinking None) end;
  refuse ((ai_Timeout c <=? 0) || (ai_MaxConcurrent c <? 1) || (ai_MaxBodyChars c <? 1)) "invalid ai timeout, max_concurrent, or max_body_chars";
  refuse ((ai_MaxHTMLParseCPUMilliseconds c <=? 0) || (maxMilliseconds <? ai_MaxHTMLParseCPUMilliseconds c)) "ai.max_html_parse_cpu_ms must be a positive duration in milliseconds";
  refuse ((ai_MaxHTMLParseMemoryBytes c <? mib 8) || (mib 512 <? ai_MaxHTMLParseMemoryBytes c)) "ai.max_html_parse_memory_bytes must be between 8388608 and 536870912 bytes";
  refuse (negb (one_of (ai_HTMLResourceLimitAction c) ["fallback"; "reject"; "dos-reject"]%string)) "ai.html_resource_limit_action must be fallback, reject, or dos-reject";
  refuse (negb (one_of (ai_IncompleteBodyAction c) ["scan"; "reject"]%string)) "ai incomplete_body_action must be scan or reject";
  refuse ((ai_Retries c <? 0) || (10 <? ai_Retries c)) "ai.retries must be between 0 and 10";
  refuse (bad_price (ai_InputCostPerMillionTokens c) || bad_price (ai_OutputCostPerMillionTokens c)) "ai token prices must be finite and nonnegative";
  refuse (negb (one_of (ai_VisionMode c) ["off"; "fallback"; "always"]%string)) "ai.vision_mode must be off, fallback, or always";
  refuse ((ai_VisionMinTextChars c <? 0) || (ai_MaxImages c <? 1) || (ai_MaxImageBytes c <? 1) || (ai_MaxImagePixels c <? 1)) "invalid AI vision limits"].

Definition validateActivity (c : ActivityConfig) : option config_error := refuse (ac_Expiry c <=? 0) "activity.expiry must be positive".

Definition validateSenderBlocklist (c : SenderBlocklistConfig) : option config_error := first_error [
  refuse (sb_Expiry c <? 24 * hour) "sender_blocklist.expiry must be at least 24h";
  refuse (sb_MaxEntries c <? 1) "sender_blocklist.max_entries must be positive";
  refuse (blank (sb_RejectMessage c)) "sender_blocklist.reject_message must not be empty"].

(** The bytes of an extension from index [i] of [n]; runes outside ASCII are refused
    at their first byte. *)
Fixpoint extension_chars (n i : nat) (rest : gostring) : bool :=
  match rest with
  | [] => true
  | c :: rest =>
      (in_range 97 122 c || in_range 48 57 c || (ceq c "-"%char && (0 <? i)%nat && (i <? n - 1)%nat)) && extension_chars n (S i) rest
  end.
Definition policy_extension (extension : gostring) : gostring := trimPrefix (toLower (trimSpace extension)) ["."%char].
Definition validateExtension (extension : gostring) : option config_error :=
  let extension := policy_extension extension in
  if beq extension [] then Some (CErr (lit "attachments.blocked_extensions contains an empty extension"))
  else if extension_chars (length extension) 0 extension then None
  else Some (CEntry (lit "invalid attachments.blocked_extensions entry") extension).
Definition outside (lo hi n : Z) : bool := (n <? lo) || (hi <? n).

Definition validateAttachments (c : AttachmentsConfig) : option config_error := first_error [
  refuse (at_BlockExecutables c && bool_decide (at_BlockedExtensions c = []) && negb (at_InspectSignatures c))
    "attachments requires blocked_extensions or inspect_file_signatures when block_executables is true";
  refuse (outside 1 (mib 64) (at_MaxAttachmentBytes c) || outside 1 8 (at_MaxArchiveDepth c) || outside 1 10000 (at_MaxArchiveFiles c)
    || outside 1 (Z.shiftl 1 30) (at_MaxArchiveUncompressedBytes c)) "invalid attachments limits";
  first_error (validateExtension <$> at_BlockedExtensions c);
  refuse (negb (validAttachmentAction (at_EncryptedArchiveAction c))) "attachments.encrypted_archive_action must be accept, reject, or tempfail";
  refuse (negb (validAttachmentAction (at_UnscannableAction c))) "attachments.unscannable_action must be accept, reject, or tempfail";
  refuse (negb (one_of (at_InvalidMIMEAction c) ["accept"; "reject"]%string)) "attachments.invalid_mime_action must be accept or reject";
  refuse (blank (at_RejectMessage c)) "attachments.reject_message must not be empty"].

Definition bad_identity (identity : gostring) : bool := blank identity || (1024 <? go_len identity) || containsAny identity [CR; LF; NUL].
Definition validateEmailCommands (c : EmailCommandsConfig) : option config_error := first_error [
  refuse (outside 1 65536 (em_MaxMessageBytes c)) "email_commands.max_message_bytes must be between 1 and 65536";
  refuse (negb (one_of (em_SMTPTLS c) ["off"; "opportunistic"; "required"]%string)) "email_commands.smtp_tls must be off, opportunistic, or required";
  refuse (em_Enabled c && negb (validEmailAddress (em_Recipient c))) "email_commands.recipient must be a valid email address";
  refuse (em_Enabled c && (negb (em_AllowAuthenticatedUsers c) && bool_decide (em_Administrators c = []))) "email_commands requires an administrator or allow_authenticated_users";
  refuse (em_Enabled c && (em_SendReplies c && negb (validSMTPHost (em_SMTPHost c)))) "email_commands.smtp_host must contain a valid host and port";
  refuse (em_Enabled c && (em_AllowAuthenticatedUsers c && em_VerifySenderViaAliases c && negb (hasPrefix (em_AliasesFile c) ["/"%char])))
    "email_commands.aliases_file must be an absolute path";
  refuse (existsb bad_identity (em_Administrators c)) "email_commands.administrators contains an invalid identity"].

Definition validateRejectionHistory (c : RejectionHistoryConfig) : option config_error := first_error [
  refuse (rh_Expiry c <? 0) "rejection_history.expiry must not be negative";
  refuse ((0 <? rh_Expiry c) && (rh_MaxEntries c <? 1)) "rejection_history.max_entries must be positive";
  refuse (rh_SaveMessages c && (rh_Expiry c <=? 0)) "rejection_history.expiry must be positive when save_messages is enabled";
  refuse (rh_SaveMessages c && negb (filepath_IsAbs (rh_MessageDirectory c))) "rejection_history.message_directory must be an absolute path"].

Definition bad_score (lo : Q) (f : float64) : bool := IsNaN f || flt_lt f lo || flt_gt f 1.
Definition validateFiltering (c : FilteringConfig) : option config_error := first_error [
  refuse (bad_score (1 # 2) (fi_RejectScore c)) "filtering.reject_score must be between 0.5 and 1";
  refuse (bad_score (1 # 2) (fi_LowConfidenceScore c)) "filtering.low_confidence_score must be between 0.5 and 1";
  refuse (blank (fi_RejectMessage c)) "filtering.reject_message must not be empty";
  refuse (negb (one_of (fi_AIErrorAction c) ["accept"; "tempfail"]%string)) "filtering.ai_error_action must be accept or tempfail";
  refuse_entry (λ d, negb (validDomainName d)) "invalid filtering.authenticated_only_sender_domains entry" (fi_AuthenticatedOnlySenderDomains c);
  refuse (negb (beq (fi_SenderDomainAllowlistFile c) []) && negb (filepath_IsAbs (fi_SenderDomainAllowlistFile c))) "filtering.sender_domain_allowlist must be an absolute path";
  refuse_entry (λ d, negb (validDomainName d)) "invalid filtering.sender_domain_allowlist entry" (fi_SenderDomainAllowlist c)].

Definition validateIPReputation (c : IPReputationConfig) : option config_error := first_error [
  refuse (blank (ir_RejectMessage c)) "ip_reputation.reject_message must not be empty";
  refuse (ir_BlockDuration c <? 0) "ip_reputation.block_duration must not be negative";
  refuse (ir_RepeatThreshold c <? 0) "ip_reputation.repeat_threshold must not be negative";
  refuse (ir_RepeatWindow c <? 0) "ip_reputation.repeat_window must not be negative";
  refuse (ir_RepeatBlockDuration c <? 0) "ip_reputation.repeat_block_duration must not be negative";
  refuse (ir_LegitimatePerStrike c <? 0) "ip_reputation.legitimate_messages_per_strike must not be negative";
  refuse ((0 <? ir_RepeatThreshold c) && ((ir_RepeatWindow c =? 0) || (ir_RepeatBlockDuration c =? 0)))
    "ip_reputation.repeat_window and repeat_block_duration must be positive when repeat escalation is enabled";
  refuse (ir_MaxEntries c <? 1) "ip_reputation.max_entries must be positive";
  refuse_entry bad_prefix "invalid ip_reputation.ip_allowlist entry" (ir_IPAllowlist c);
  refuse_entry (λ d, negb (validDomainName d)) "invalid ip_reputation.domain_allowlist entry" (ir_DomainAllowlist c)].

Definition validateCorrespondents (c : CorrespondentsConfig) : option config_error := first_error [
  refuse (negb (one_of (co_Scope c) ["global"; "per_sender"]%string)) "correspondents.scope must be global or per_sender";
  refuse (negb (one_of (co_RecipientMatch c) ["all"; "any"]%string)) "correspondents.recipient_match must be all or any";
  refuse (co_MaxEntries c <? 1) "correspondents.max_entries must be positive";
  refuse (co_LegitimateSenderMinMessages c <? 1) "correspondents.legitimate_sender_min_messages must be positive";
  refuse (bad_score 0 (co_LegitimateSenderMinScore c)) "correspondents.legitimate_sender_min_score must be between 0 and 1";
  refuse (co_StaleAfter c <? 0) "correspondents.stale_after must not be negative";
  refuse (co_BypassAI c && negb (co_UseAllowlist c)) "correspondents.bypass_ai requires use_allowlist";
  refuse_entry (λ id, negb (beq id MTAHostnameAuthservID) && negb (validDomainName id)) "invalid correspondents.trusted_authserv_ids entry" (co_TrustedAuthservIDs c)].

Definition validateCrossRules (c : Config) : option config_error :=
  let trustedHeaders := beq (au_Mode (c_Authentication c)) AuthenticationModeTrustedHeaders in
  let co := c_Correspondents c in
  let trustedIDsMissing := bool_decide (co_TrustedAuthservIDs co = []) in
  first_error [
    refuse (em_Enabled (c_EmailCommands c) && negb (co_UseAllowlist co)) "email_commands requires correspondents.use_allowlist";
    refuse (rh_SaveMessages (c_RejectionHistory c) && (rh_MessageMaxTotalBytes (c_RejectionHistory c) <? mi_MaxMessageSize (c_Milter c)))
      "rejection_history.message_max_total_bytes must be at least milter.max_message_size";
    refuse (trustedHeaders && negb (bool_decide (fi_SenderDomainAllowlist (c_Filtering c) = [])) && fi_SenderDomainAllowlistRequireAuthentication (c_Filtering c) && trustedIDsMissing)
      "filtering.sender_domain_allowlist_require_authentication requires correspondents.trusted_authserv_ids";
    refuse (trustedHeaders && co_BypassAI co && co_RequireAuthenticationForBypass co && trustedIDsMissing)
      "correspondents.require_authentication_for_bypass requires trusted_authserv_ids";
    refuse (trustedHeaders && co_LearnLegitimateSenders co && co_LegitimateSenderRequireAuthentication co && trustedIDsMissing)
      "correspondents.legitimate_sender_require_authentication requires trusted_authserv_ids when legitimate sender learning is enabled"].

Definition Validate (c : Config) : option config_error := first_error [
  validateGeneral c; validateMilter (c_Milter c); validateAuthentication (c_Authentication c); validatePersistence (c_Persistence c);
  validateDomainRegistration (c_DomainRegistration c); validateAI (c_AI c); validateActivity (c_Activity c); validateSenderBlocklist (c_SenderBlocklist c);
  validateAttachments (c_Attachments c); validateEmailCommands (c_EmailCommands c); validateRejectionHistory (c_RejectionHistory c);
  validateFiltering (c_Filtering c); validateIPReputation (c_IPReputation c); validateCorrespondents (c_Correspondents c); validateCrossRules c].
End Validation.

(** ** Loading *)

(** [filepath.Clean] on Unix: the components of the result, last first. *)
Fixpoint clean_components (rooted : bool) (components stack : list gostring) : list gostring :=
  match components with
  | [] => stack
  | part :: rest =>
      if beq part [] || beq part (lit ".") then clean_components rooted rest stack
      else if beq part (lit "..") then
        match stack with
        | [] => clean_components rooted rest (if rooted then [] else [part])
        | top :: below => clean_components rooted rest (if beq top (lit "..") then part :: stack else below)
        end
      else clean_components rooted rest (part :: stack)
  end.
Definition filepath_Clean (p : gostring) : gostring :=
  let rooted := hasPrefix p ["/"%char] in
  match rev (clean_components rooted (split "/"%char p) []) with
  | [] => if rooted then ["/"%char] else lit "."
  | parts => (if rooted then ["/"%char] else []) ++ join ["/"%char] parts
  end.
(** [filepath.Join] of a directory and a path that is not empty. *)
Definition filepath_Join (directory p : gostring) : gostring :=
  if beq directory [] then filepath_Clean p else filepath_Clean (directory ++ "/"%char :: p).
(** [filepath.Dir] *)
Definition filepath_Dir (p : gostring) : gostring :=
  filepath_Clean (match after_last "/"%char p with Some rest => take (length p - length rest) p | None => [] end).

Definition resolveConfigRelativePath (directory p : gostring) : gostring :=
  if beq p [] || filepath_IsAbs p then p else filepath_Join directory p.

(** What the YAML decoder says of a configuration file: no document, an error, or
    the decoded settings and what follows the document. *)
Inductive trailing := TrailingNothing | TrailingDocument | TrailingError.
Inductive decoded := DecodedEOF | DecodedError | DecodedConfig (c : Config) (rest : trailing).

Class ConfigFiles := {
  (** [os.ReadFile] *)
  ReadFile : gostring -> option gostring;
  (** [os.Open] and [io.ReadAll] of at most this many bytes *)
  ReadLimited : gostring -> Z -> option gostring;
  Getenv : gostring -> gostring;
  (** [filepath.Abs] *)
  Abs : gostring -> option gostring;
  (** strict decoding over the given settings *)
  yaml_decode : Config -> gostring -> decoded;
  (** decoding to a syntax tree *)
  yaml_tree : gostring -> option yaml_node;
  (** whether a document sets [filtering.low_confidence_score] or [ai.html_resource_limit_action] to a value *)
  yaml_sets_score : gostring -> option bool;
  yaml_sets_action : gostring -> option bool;
  (** [loadYAMLFile] of the two catalogues *)
  endpoint_file : gostring -> option (Z * option (list (gostring * EndpointDefinition)));
  profile_file : gostring -> option (Z * option (list (gostring * ProfileDefinition)));
}.

Section Loading.
Context `{UnicodeTables, NetIPText, NetMail, UrlText, Fingerprint, ConfigFiles}.

(** *** Trusted sender domains *)

Definition maxSenderDomainAllowlistBytes : Z := Z.shiftl 1 20.
Inductive allowlist_result := Domains (l : list gostring) | AllowlistUnavailable | AllowlistEmpty | AllowlistInvalid (err : config_error).

(** One turn of the loop: [None] is an invalid domain. *)
Definition allowlist_line (raw : gostring) : option (option gostring) :=
  let value := trimSpace raw in
  if beq value [] || hasPrefix value (lit "#") then Some None
  else
    let value := trimSuffix (toLower value) (lit ".") in
    if validDomainName value then Some (Some value) else None.
Fixpoint allowlist_lines (index : Z) (lines domains : list gostring) : config_error + list gostring :=
  match lines with
  | [] => inr domains
  | raw :: rest =>
      match allowlist_line raw with
      | None => inl (CLine (index + 1) (trimSuffix (toLower (trimSpace raw)) (lit ".")))
      | Some None => allowlist_lines (index + 1) rest domains
      | Some (Some value) => allowlist_lines (index + 1) rest (if bool_decide (value ∈ domains) then domains else domains ++ [value])
      end
  end.
Definition loadSenderDomainAllowlist (path : gostring) : allowlist_result :=
  match ReadLimited path (maxSenderDomainAllowlistBytes + 1) with
  | None => AllowlistUnavailable
  | Some b =>
      if maxSenderDomainAllowlistBytes <? go_len b then AllowlistInvalid (CErr (lit "filtering.sender_domain_allowlist exceeds 1 MiB"))
      else
        match allowlist_lines 0 (split LF b) [] with
        | inl err => AllowlistInvalid err
        | inr [] => AllowlistEmpty
        | inr domains => Domains domains
        end
  end.

(** *** Settings that must not be null *)

Definition null_setting (names : list gostring) (ai : yaml_node) : option gostring :=
  match List.find (λ p, existsb (beq (y_value p.1)) names && beq (y_tag p.2) (lit "!!null")) (mapping_pairs (y_content ai)) with
  | Some (name, _) => Some (y_value name)
  | None => None
  end.
Definition is_mapping (n : yaml_node) : bool := match y_kind n with MappingNode => true | _ => false end.
Definition null_in_root (names : list gostring) (root : yaml_node) : option gostring :=
  head (omap (λ p, if beq (y_value p.1) (lit "ai") && is_mapping p.2 then null_setting names p.2 else None) (mapping_pairs (y_content root))).
Definition rejectNullAISettings (source : gostring) (names : list gostring) : option config_error :=
  match yaml_tree source with
  | None => Some CFile
  | Some document =>
      match y_content document with
      | [] => None
      | root :: _ =>
          if negb (is_mapping root) then None
          else match null_in_root names root with Some name => Some (CEntry (lit "must not be null") name) | None => None end
      end
  end.

(** *** Deprecated settings *)

Definition set_Filtering (f : FilteringConfig) (c : Config) : Config :=
  MkConfig (c_Mode c) (c_Milter c) (c_Authentication c) (c_AI c) (c_Activity c) (c_SenderBlocklist c) f (c_Attachments c) (c_EmailCommands c) (c_Persistence c)
    (c_RejectionHistory c) (c_Correspondents c) (c_IPReputation c) (c_DomainRegistration c) (c_Logging c) (c_Warnings c).
Definition set_AI (a : AIConfig) (c : Config) : Config :=
  MkConfig (c_Mode c) (c_Milter c) (c_Authentication c) a (c_Activity c) (c_SenderBlocklist c) (c_Filtering c) (c_Attachments c) (c_EmailCommands c) (c_Persistence c)
    (c_RejectionHistory c) (c_Correspondents c) (c_IPReputation c) (c_DomainRegistration c) (c_Logging c) (c_Warnings c).
Definition add_warning (w : gostring) (c : Config) : Config :=
  MkConfig (c_Mode c) (c_Milter c) (c_Authentication c) (c_AI c) (c_Activity c) (c_SenderBlocklist c) (c_Filtering c) (c_Attachments c) (c_EmailCommands c) (c_Persistence c)
    (c_RejectionHistory c) (c_Correspondents c) (c_IPReputation c) (c_DomainRegistration c) (c_Logging c) (c_Warnings c ++ [w]).

Definition with_scores (f : FilteringConfig) (legacy : option float64) (low : float64) : FilteringConfig :=
  MkFiltering legacy (fi_RejectScore f) low (fi_AddEmailHeaders f) (fi_AIErrorAction f) (fi_RejectMessage f) (fi_ScanAuthenticated f)
    (fi_AuthenticatedOnlySenderDomains f) (fi_SenderDomainAllowlistFile f) (fi_SenderDomainAllowlist f) (fi_SenderDomainAllowlistRequireAuthentication f).
Definition with_allowlist (f : FilteringConfig) (domains : list gostring) : FilteringConfig :=
  MkFiltering (fi_LegacyLegitimateLowConfidenceScore f) (fi_RejectScore f) (fi_LowConfidenceScore f) (fi_AddEmailHeaders f) (fi_AIErrorAction f) (fi_RejectMessage f)
    (fi_ScanAuthenticated f) (fi_AuthenticatedOnlySenderDomains f) (fi_SenderDomainAllowlistFile f) domains (fi_SenderDomainAllowlistRequireAuthentication f).
(** The AI settings with the deprecated ones cleared and the action that applies. *)
Definition with_action (a : AIConfig) (reject parse dos : option gostring) (action : gostring) : AIConfig :=
  MkAI (ai_Endpoint a) (ai_EndpointType a) (ai_ThinkingLevel a) (ai_ThinkingProfile a) (ai_EndpointsFile a) (ai_ProfilesFile a) (ai_APIKey a) (ai_APIKeyEnv a) (ai_Model a)
    (ai_PromptFile a) (ai_Timeout a) (ai_Retries a) (ai_MaxConcurrent a) (ai_MaxBodyChars a) (ai_CompactPromptURLs a) (ai_MaxHTMLParseCPUMilliseconds a)
    (ai_MaxHTMLParseMemoryBytes a) action reject parse dos (ai_IncompleteBodyAction a) (ai_VisionMode a) (ai_VisionMinTextChars a) (ai_MaxImages a) (ai_MaxImageBytes a)
    (ai_MaxImagePixels a) (ai_SiteURL a) (ai_AppName a) (ai_InputCostPerMillionTokens a) (ai_OutputCostPerMillionTokens a) (ai_ThinkingPlan a) (ai_ThinkingResolution a)
    (ai_ResolvedEndpoint a).
(** The key, the catalogue paths and the compiled plan. *)
Definition with_runtime (a : AIConfig) (endpoints profiles key : gostring) (plan : option Plan) (resolution : option Resolution) (endpoint : gostring) : AIConfig :=
  MkAI (ai_Endpoint a) (ai_EndpointType a) (ai_ThinkingLevel a) (ai_ThinkingProfile a) endpoints profiles key (ai_APIKeyEnv a) (ai_Model a)
    (ai_PromptFile a) (ai_Timeout a) (ai_Retries a) (ai_MaxConcurrent a) (ai_MaxBodyChars a) (ai_CompactPromptURLs a) (ai_MaxHTMLParseCPUMilliseconds a)
    (ai_MaxHTMLParseMemoryBytes a) (ai_HTMLResourceLimitAction a) (ai_LegacyHTMLResourceRejectMessage a) (ai_LegacyHTMLParseCPULimitAction a) (ai_LegacyHTMLDoSRejectMessage a)
    (ai_IncompleteBodyAction a) (ai_VisionMode a) (ai_VisionMinTextChars a) (ai_MaxImages a) (ai_MaxImageBytes a)
    (ai_MaxImagePixels a) (ai_SiteURL a) (ai_AppName a) (ai_InputCostPerMillionTokens a) (ai_OutputCostPerMillionTokens a) plan resolution endpoint.

Definition resolve_legacy_score (b : gostring) (c : Config) : option Config :=
  let f := c_Filtering c in
  match fi_LegacyLegitimateLowConfidenceScore f with
  | None => Some c
  | Some legacy =>
      match yaml_sets_score b with
      | None => None
      | Some supplied => Some (add_warning (lit "filtering.legitimate_low_confidence_score is deprecated; use filtering.low_confidence_score (the new setting takes precedence when both are supplied)")
          (set_Filtering (with_scores f None (if supplied then fi_LowConfidenceScore f else legacy)) c))
      end
  end.
Definition drop_legacy_messages (c : Config) : Config :=
  let c := match ai_LegacyHTMLResourceRejectMessage (c_AI c) with
    | None => c
    | Some _ => let a := c_AI c in
        add_warning (lit "ai.html_resource_reject_message is deprecated and ignored; remove this setting (the resource-limit rejection message is fixed)")
          (set_AI (with_action a None (ai_LegacyHTMLParseCPULimitAction a) (ai_LegacyHTMLDoSRejectMessage a) (ai_HTMLResourceLimitAction a)) c)
    end in
  match ai_LegacyHTMLDoSRejectMessage (c_AI c) with
  | None => c
  | Some _ => let a := c_AI c in
      add_warning (lit "ai.html_dos_reject_message is deprecated and ignored; remove this setting (the resource-limit rejection message is fixed)")
        (set_AI (with_action a (ai_LegacyHTMLResourceRejectMessage a) (ai_LegacyHTMLParseCPULimitAction a) None (ai_HTMLResourceLimitAction a)) c)
  end.
Definition resolve_legacy_action (b : gostring) (c : Config) : option Config :=
  let a := c_AI c in
  match ai_LegacyHTMLParseCPULimitAction a with
  | None => Some c
  | Some legacy =>
      match yaml_sets_action b with
      | None => None
      | Some supplied => Some (add_warning (lit "ai.html_parse_cpu_limit_action is deprecated; use ai.html_resource_limit_action (the new setting takes precedence when both are supplied)")
          (set_AI (with_action a (ai_LegacyHTMLResourceRejectMessage a) None (ai_LegacyHTMLDoSRejectMessage a) (if supplied then ai_HTMLResourceLimitAction a else legacy)) c))
      end
  end.

(** *** The thinking plan *)

(** [thinking.LoadCatalogues] *)
Definition LoadCatalogues (endpointsPath profilesPath : gostring) : config_error + Catalogues :=
  if blank endpointsPath then inl (CErr (lit "ai.endpoints_file is required"))
  else if blank profilesPath then inl (CErr (lit "ai.profiles_file is required"))
  else
    match endpoint_file endpointsPath with
    | None => inl CFile
    | Some (v1, endpoints) =>
        match validateEndpointFile v1 endpoints with
        | Failed e => inl (CThinking (Some e)) | Panicking => inl (CThinking None)
        | Done endpoints =>
            match profile_file profilesPath with
            | None => inl CFile
            | Some (v2, profiles) =>
                match validateProfileFile v2 profiles with
                | Failed e => inl (CThinking (Some e)) | Panicking => inl (CThinking None)
                | Done profiles => inr (MkCatalogues endpoints profiles)
                end
            end
        end
    end.

(** The ordinary request of the AI client, with empty texts. *)
Definition baseRequest : list (gostring * json) :=
  [(lit "model", JString []); (lit "temperature", JNumber 0); (lit "response_format", JObject [(lit "type", JString (lit "json_object"))]); (lit "messages", JArray [])].
Definition outcome_result {A} (o : outcome A) : config_error + A :=
  match o with Done a => inr a | Failed e => inl (CThinking (Some e)) | Panicking => inl (CThinking None) end.

Definition bind {A B} (m : config_error + A) (k : A -> config_error + B) : config_error + B := match m with inl e => inl e | inr a => k a end.
Notation "'try' x := m 'in' k" := (bind m (λ x, k)) (at level 200, x binder, m at level 100, k at level 200, right associativity).

Definition exclusion_warning (endpointType : gostring) (x : Exclusion) : gostring :=
  lit "ai.thinking_profile option " ++ ex_OptionID x ++ lit " is unavailable for endpoint_type " ++ endpointType ++ lit ": " ++ ex_Reason x.

Definition load_thinking (c : Config) : config_error + Config :=
  let a := c_AI c in
  try catalogues := LoadCatalogues (ai_EndpointsFile a) (ai_ProfilesFile a) in
  try plan := outcome_result (CompilePlan catalogues (ai_EndpointType a) (ai_ThinkingProfile a) [lit "openai_chat"]) in
  try endpoint := outcome_result (ResolveEndpointURL (ai_Endpoint a) (route plan)) in
  try _ := outcome_result (ValidateBaseRequest plan baseRequest) in
  try resolution := outcome_result (ResolveLevel plan (ai_ThinkingLevel a)) in
  let c := foldl (λ c x, add_warning (exclusion_warning (ai_EndpointType a) x) c) c (exclusions plan) in
  inr (set_AI (with_runtime a (ai_EndpointsFile a) (ai_ProfilesFile a) (ai_APIKey a) (Some plan) (Some resolution) endpoint) c).

Definition load_allowlist (c : Config) : config_error + Config :=
  let file := fi_SenderDomainAllowlistFile (c_Filtering c) in
  if beq file [] then inr c
  else
    match loadSenderDomainAllowlist file with
    | Domains domains => inr (set_Filtering (with_allowlist (c_Filtering c) domains) c)
    | AllowlistUnavailable => inr (add_warning (lit "cannot read filtering.sender_domain_allowlist " ++ file ++ lit "; trusted sender domain bypass disabled") c)
    | AllowlistEmpty => inr (add_warning (lit "filtering.sender_domain_allowlist contains no domains; trusted sender domain bypass disabled") c)
    | AllowlistInvalid err => inl err
    end.

Definition some_or {A} (o : option A) : config_error + A := match o with Some a => inr a | None => inl CFile end.
Definition ok_or (e : option config_error) : config_error + unit := match e with Some err => inl err | None => inr tt end.

Definition Load (path : gostring) : config_error + Config :=
  try b := some_or (ReadFile path) in
  match yaml_decode defaults b with
  | DecodedEOF => inl (CErr (lit "configuration file is empty"))
  | DecodedError => inl CFile
  | DecodedConfig _ TrailingDocument => inl (CErr (lit "configuration file must contain exactly one YAML document"))
  | DecodedConfig _ TrailingError => inl (CErr (lit "invalid trailing YAML content"))
  | DecodedConfig c TrailingNothing =>
      try _ := ok_or (rejectNullAISettings b (words ["endpoint"; "endpoint_type"; "thinking_level"; "thinking_profile"; "endpoints_file"; "profiles_file"]%string)) in
      try c := some_or (resolve_legacy_score b c) in
      try c := some_or (resolve_legacy_action b (drop_legacy_messages c)) in
      let a := c_AI c in
      let key := if beq (ai_APIKey a) [] && negb (beq (ai_APIKeyEnv a) []) then Getenv (ai_APIKeyEnv a) else ai_APIKey a in
      try configPath := some_or (Abs path) in
      let relative := resolveConfigRelativePath (filepath_Dir configPath) in
      let c := set_AI (with_runtime a (relative (ai_EndpointsFile a)) (relative (ai_ProfilesFile a)) key (ai_ThinkingPlan a) (ai_ThinkingResolution a) (ai_ResolvedEndpoint a)) c in
      try c := load_thinking c in
      try c := load_allowlist c in
      try _ := ok_or (Validate c) in
      inr (if em_Enabled (c_EmailCommands c) && em_AllowAuthenticatedUsers (c_EmailCommands c) && negb (em_VerifySenderViaAliases (c_EmailCommands c))
           then add_warning (lit "email_commands allows ordinary authenticated users without alias verification; configure Postfix smtpd_sender_login_maps and reject_authenticated_sender_login_mismatch to enforce envelope-sender ownership") c
           else c)
  end.

Inductive level := LevelDebug | LevelInfo | LevelWarn | LevelError.
Definition LogLevel (c : Config) : level :=
  let name := toLower (lo_Level (c_Logging c)) in
  if beq name (lit "debug") then LevelDebug else if beq name (lit "warn") then LevelWarn else if beq name (lit "error") then LevelError else LevelInfo.
End Loading.
