(* ===== verification/ConfigSpec.v ===== *)
(** * What a loaded configuration guarantees

    A configuration that [Validate] accepts meets the preconditions of the
    components; [Load] returns only such configurations, with no deprecated setting
    left and with a thinking plan from which every request can be built; and the
    file of trusted sender domains is read exactly. *)
From Stdlib Require Import QArith.
From S2P Require Import Prelude GoText NetSafety MailAddr SqlDb Calendar Thinking ThinkingSpec Config.
Open Scope Z_scope.

(** ** Sequences of checks *)

Lemma first_error_none l : first_error l = None <-> Forall (λ e, e = None) l.
Proof.
  induction l as [|[e|] l IH]; cbn [first_error]; [done| |].
  - split; [done|]. intros [? _]%Forall_cons. done.
  - rewrite IH, Forall_cons. naive_solver.
Qed.
Lemma refuse_none bad message : refuse bad message = None <-> bad = false.
Proof. by destruct bad. Qed.
Lemma refuse_entry_none bad message entries : refuse_entry bad message entries = None <-> Forall (λ e, bad e = false) entries.
Proof.
  unfold refuse_entry. destruct (List.find bad entries) as [e|] eqn:E.
  - split; [done|]. intros Hf. apply find_some in E as [Hin Hb]. rewrite List.Forall_forall in Hf. by rewrite Hf in Hb.
  - split; [|done]. intros _. apply List.Forall_forall. intros x Hx. by apply (find_none _ _ E).
Qed.

(** Splits an accepted sequence of checks into its conditions. *)
Ltac accepted H :=
  rewrite ?first_error_none in H; repeat (let Hx := fresh "Hok" in apply Forall_cons in H as [Hx H]);
  clear H; repeat match goal with Hx : refuse _ _ = None |- _ => rewrite refuse_none in Hx
                              | Hx : refuse_entry _ _ _ = None |- _ => rewrite refuse_entry_none in Hx end.

Lemma one_of_spec value l : one_of value l = true <-> value ∈ words l.
Proof.
  unfold one_of. rewrite existsb_exists. setoid_rewrite <- list_elem_of_In. split.
  - intros (x & Hx & E). unfold beq in E. apply bool_decide_eq_true in E. by subst.
  - intros Hv. exists value. split; [done|]. unfold beq. by apply bool_decide_eq_true.
Qed.

(** A score within its bounds. *)
Lemma bad_score_false lo f : bad_score lo f = false -> exists q, f = Finite q /\ (lo <= q <= 1)%Q.
Proof.
  unfold bad_score, IsNaN, flt_lt, flt_gt. destruct f as [q| | |]; cbn; try done. intros [H1 H2]%orb_false_iff. exists q. split; [done|].
  apply negb_false_iff in H1, H2. by rewrite !Qle_bool_iff in *.
Qed.

(** ** Accepted settings *)

Section Accepted.
Context `{UnicodeTables, NetIPText, NetMail, UrlText}.

(** The safety-relevant conditions of an accepted configuration. *)
Record accepted_config (c : Config) : Prop := AcceptedConfig {
  ok_mode : c_Mode c = lit "accept" \/ c_Mode c = lit "enforce";
  ok_message_size : 1 <= mi_MaxMessageSize (c_Milter c) <= maxMilterMessageSize;
  ok_timeouts : 0 < mi_Timeout (c_Milter c) /\ 0 < au_Timeout (c_Authentication c) /\ 0 < ai_Timeout (c_AI c);
  ok_concurrency : 1 <= mi_MaxConnections (c_Milter c) /\ 1 <= au_MaxConcurrent (c_Authentication c) /\ 1 <= ai_MaxConcurrent (c_AI c);
  (** a listener reachable over the network admits listed peers only *)
  ok_listener : exists a, ParseMilterSocket (mi_Socket (c_Milter c)) = inr a /\
    ((Network a = lit "unix") \/ (Network a = lit "tcp" /\ mi_AllowedPeerIPs (c_Milter c) <> []));
  ok_peers : Forall (λ e, exists p, NetSafety.ParseIPPrefix e = Some p) (mi_AllowedPeerIPs (c_Milter c));
  ok_ip_allowlist : Forall (λ e, exists p, NetSafety.ParseIPPrefix e = Some p) (ir_IPAllowlist (c_IPReputation c));
  ok_domains : Forall (λ d, DNSHostname d <> []) (ir_DomainAllowlist (c_IPReputation c) ++ fi_AuthenticatedOnlySenderDomains (c_Filtering c) ++ fi_SenderDomainAllowlist (c_Filtering c));
  ok_scores : exists r l m, fi_RejectScore (c_Filtering c) = Finite r /\ fi_LowConfidenceScore (c_Filtering c) = Finite l /\
    co_LegitimateSenderMinScore (c_Correspondents c) = Finite m /\ ((1 # 2) <= r <= 1)%Q /\ ((1 # 2) <= l <= 1)%Q /\ (0 <= m <= 1)%Q;
  ok_html : mib 8 <= ai_MaxHTMLParseMemoryBytes (c_AI c) <= mib 512 /\ 0 < ai_MaxHTMLParseCPUMilliseconds (c_AI c);
  ok_level : 0 <= ai_ThinkingLevel (c_AI c) <= 4;
  ok_attachments : 1 <= at_MaxAttachmentBytes (c_Attachments c) <= mib 64 /\ 1 <= at_MaxArchiveDepth (c_Attachments c) <= 8 /\
    1 <= at_MaxArchiveFiles (c_Attachments c) <= 10000 /\ 1 <= at_MaxArchiveUncompressedBytes (c_Attachments c) <= 2 ^ 30;
  ok_extensions : Forall (λ e, validateExtension e = None) (at_BlockedExtensions (c_Attachments c));
  ok_actions : Forall (λ a, a ∈ words ["accept"; "reject"; "tempfail"]%string) [at_EncryptedArchiveAction (c_Attachments c); at_UnscannableAction (c_Attachments c)] /\
    at_InvalidMIMEAction (c_Attachments c) ∈ words ["accept"; "reject"]%string;
  (** every message that can be received fits into the archive of rejected mail *)
  ok_archive : rh_SaveMessages (c_RejectionHistory c) = true ->
    0 < rh_Expiry (c_RejectionHistory c) /\ mi_MaxMessageSize (c_Milter c) <= rh_MessageMaxTotalBytes (c_RejectionHistory c) /\
    filepath_IsAbs (rh_MessageDirectory (c_RejectionHistory c)) = true;
  ok_ip : 0 <= ir_BlockDuration (c_IPReputation c) /\ 1 <= ir_MaxEntries (c_IPReputation c) /\
    (0 < ir_RepeatThreshold (c_IPReputation c) -> 0 < ir_RepeatWindow (c_IPReputation c) /\ 0 < ir_RepeatBlockDuration (c_IPReputation c));
  (** commands are accepted for a real mailbox, and from somebody *)
  ok_commands : em_Enabled (c_EmailCommands c) = true -> Normalize (trimSpace (em_Recipient (c_EmailCommands c))) <> [] /\
    (em_AllowAuthenticatedUsers (c_EmailCommands c) = true \/ em_Administrators (c_EmailCommands c) <> []) /\ co_UseAllowlist (c_Correspondents c) = true;
  (** trust in headers is never configured without a trusted service *)
  ok_trust : au_Mode (c_Authentication c) = AuthenticationModeTrustedHeaders -> co_TrustedAuthservIDs (c_Correspondents c) = [] ->
    (co_BypassAI (c_Correspondents c) && co_RequireAuthenticationForBypass (c_Correspondents c) = false) /\
    (fi_SenderDomainAllowlist (c_Filtering c) = [] \/ fi_SenderDomainAllowlistRequireAuthentication (c_Filtering c) = false);
}.

Lemma ParseMilterSocket_network v a : ParseMilterSocket v = inr a -> Network a = lit "unix" \/ Network a = lit "tcp".
Proof. unfold ParseMilterSocket. repeat case_match; intros [= <-]; auto. Qed.
Lemma bad_prefix_false l : Forall (λ e, bad_prefix e = false) l -> Forall (λ e, exists p, NetSafety.ParseIPPrefix e = Some p) l.
Proof. intros Hl. eapply Forall_impl; [exact Hl|]. unfold bad_prefix. intros e He. cbn in He. destruct (NetSafety.ParseIPPrefix e); [by eexists|done]. Qed.
Lemma validDomainName_host d : negb (validDomainName d) = false -> DNSHostname d <> [].
Proof. unfold validDomainName. intros Hd%negb_false_iff%andb_true_iff. destruct Hd as [Hd _]. apply negb_true_iff in Hd. by apply beq_nil_false. Qed.

Lemma valid_domains l : Forall (λ d, negb (validDomainName d) = false) l -> Forall (λ d, DNSHostname d <> []) l.
Proof. induction 1 as [|d l Hd _ IH]; constructor; [exact (validDomainName_host d Hd)|exact IH]. Qed.

Lemma validateMilter_ok c : validateMilter c = None ->
  1 <= mi_MaxMessageSize c <= maxMilterMessageSize /\ 0 < mi_Timeout c /\ 1 <= mi_MaxConnections c /\
  (exists a, ParseMilterSocket (mi_Socket c) = inr a /\ ((Network a = lit "unix") \/ (Network a = lit "tcp" /\ mi_AllowedPeerIPs c <> []))) /\
  Forall (λ e, exists p, NetSafety.ParseIPPrefix e = Some p) (mi_AllowedPeerIPs c).
Proof.
  unfold validateMilter. destruct (ParseMilterSocket (mi_Socket c)) as [err|a] eqn:Hs; [done|]. intros Hv. accepted Hv. split_and!; try lia; [|by apply bad_prefix_false].
  exists a. split; [done|]. destruct (ParseMilterSocket_network _ _ Hs) as [E|E]; [by left|right; split; [done|]].
  intros Hn. rewrite E, Hn in Hok3. by vm_compute in Hok3.
Qed.
Lemma validateAuthentication_ok c : validateAuthentication c = None -> 0 < au_Timeout c /\ 1 <= au_MaxConcurrent c.
Proof. unfold validateAuthentication. intros Hv. accepted Hv. lia. Qed.
Lemma validateAI_ok c : validateAI c = None ->
  0 < ai_Timeout c /\ 1 <= ai_MaxConcurrent c /\ mib 8 <= ai_MaxHTMLParseMemoryBytes c <= mib 512 /\ 0 < ai_MaxHTMLParseCPUMilliseconds c /\ 0 <= ai_ThinkingLevel c <= 4.
Proof. unfold validateAI, MinimumLevel, MaximumLevel. intros Hv. accepted Hv. lia. Qed.
Lemma validateFiltering_ok c : validateFiltering c = None ->
  (exists r l, fi_RejectScore c = Finite r /\ fi_LowConfidenceScore c = Finite l /\ ((1 # 2) <= r <= 1)%Q /\ ((1 # 2) <= l <= 1)%Q) /\
  Forall (λ d, DNSHostname d <> []) (fi_AuthenticatedOnlySenderDomains c ++ fi_SenderDomainAllowlist c).
Proof.
  unfold validateFiltering. intros Hv. accepted Hv. split.
  - apply bad_score_false in Hok as (r & -> & Hr), Hok0 as (l & -> & Hl). by exists r, l.
  - apply Forall_app. split; [exact (valid_domains _ Hok3)|exact (valid_domains _ Hok5)].
Qed.
Lemma validateAttachments_ok c : validateAttachments c = None ->
  (1 <= at_MaxAttachmentBytes c <= mib 64 /\ 1 <= at_MaxArchiveDepth c <= 8 /\ 1 <= at_MaxArchiveFiles c <= 10000 /\ 1 <= at_MaxArchiveUncompressedBytes c <= 2 ^ 30) /\
  Forall (λ e, validateExtension e = None) (at_BlockedExtensions c) /\
  Forall (λ a, a ∈ words ["accept"; "reject"; "tempfail"]%string) [at_EncryptedArchiveAction c; at_UnscannableAction c] /\
  at_InvalidMIMEAction c ∈ words ["accept"; "reject"]%string.
Proof.
  unfold validateAttachments, outside. intros Hv. accepted Hv. change (Z.shiftl 1 30) with (2 ^ 30) in *. split_and!; try lia.
  - rewrite first_error_none in Hok1. by rewrite Forall_fmap in Hok1.
  - unfold validAttachmentAction in *. rewrite negb_false_iff, one_of_spec in *. apply Forall_cons; split; [done|]. apply Forall_singleton. done.
  - by rewrite negb_false_iff, one_of_spec in *.
Qed.
Lemma validateRejectionHistory_ok c : validateRejectionHistory c = None -> rh_SaveMessages c = true ->
  0 < rh_Expiry c /\ filepath_IsAbs (rh_MessageDirectory c) = true.
Proof. unfold validateRejectionHistory. intros Hv Hs. accepted Hv. rewrite Hs in *. cbn [andb] in *. rewrite negb_false_iff in *. split; [lia|done]. Qed.
Lemma validateIPReputation_ok c : validateIPReputation c = None ->
  0 <= ir_BlockDuration c /\ 1 <= ir_MaxEntries c /\ (0 < ir_RepeatThreshold c -> 0 < ir_RepeatWindow c /\ 0 < ir_RepeatBlockDuration c) /\
  Forall (λ e, exists p, NetSafety.ParseIPPrefix e = Some p) (ir_IPAllowlist c) /\ Forall (λ d, DNSHostname d <> []) (ir_DomainAllowlist c).
Proof.
  unfold validateIPReputation. intros Hv. accepted Hv. split_and!; [lia|lia|lia|by apply bad_prefix_false|exact (valid_domains _ Hok8)].
Qed.
Lemma validateEmailCommands_ok c : validateEmailCommands c = None -> em_Enabled c = true ->
  Normalize (trimSpace (em_Recipient c)) <> [] /\ (em_AllowAuthenticatedUsers c = true \/ em_Administrators c <> []).
Proof.
  unfold validateEmailCommands. intros Hv He. accepted Hv. rewrite He in *. cbn [andb] in *. split.
  - apply negb_false_iff in Hok1. unfold validEmailAddress in Hok1. apply andb_true_iff in Hok1 as [Hn _]. apply negb_true_iff in Hn. by apply beq_nil_false.
  - destruct (em_AllowAuthenticatedUsers c); [by left|right]. cbn [negb andb] in Hok2. by apply bool_decide_eq_false in Hok2.
Qed.

Lemma Validate_accepted c : Validate c = None -> accepted_config c.
Proof.
  unfold Validate. intros Hv. rewrite first_error_none in Hv. repeat (let Hx := fresh "G" in apply Forall_cons in Hv as [Hx Hv]). clear Hv.
  apply validateMilter_ok in G0 as (M1 & M2 & M3 & M4 & M5). apply validateAuthentication_ok in G1 as (A1 & A2). apply validateAI_ok in G4 as (I1 & I2 & I3 & I4 & I5).
  apply validateAttachments_ok in G7 as (T1 & T2 & T3 & T4). apply validateFiltering_ok in G10 as ((r & l & F1 & F2 & F3 & F4) & F5).
  apply validateIPReputation_ok in G11 as (R1 & R2 & R3 & R4 & R5).
  unfold validateGeneral in G. accepted G. unfold validateCorrespondents in G12. accepted G12. unfold validateCrossRules in G13. accepted G13.
  split; try done.
  - rewrite negb_false_iff, one_of_spec in Hok. apply elem_of_cons in Hok as [?|Hok]; [by left|]. apply elem_of_cons in Hok as [?|Hok]; [by right|by apply elem_of_nil in Hok].
  - apply Forall_app. split; [done|]. by apply Forall_app in F5; apply Forall_app.
  - apply bad_score_false in Hok5 as (m & Hm & Hm'). exists r, l, m. tauto.
  - intros Hs. destruct (validateRejectionHistory_ok _ G9 Hs) as [? ?]. rewrite Hs in Hok10. cbn [andb] in Hok10. split_and!; [done|lia|done].
  - intros He. destruct (validateEmailCommands_ok _ G8 He) as [? ?]. rewrite He in Hok9. cbn [andb] in Hok9. rewrite negb_false_iff in Hok9. done.
  - intros Hm Hids. rewrite Hm, Hids in *. rewrite (bool_decide_eq_true_2 ([] = [])) in * by done. change (beq _ AuthenticationModeTrustedHeaders) with true in *.
    cbn [andb] in *. rewrite !andb_true_r in *. split; [done|]. destruct (fi_SenderDomainAllowlistRequireAuthentication (c_Filtering c)); [left|by right].
    rewrite andb_true_r, negb_false_iff in Hok11. by apply bool_decide_eq_true in Hok11.
Qed.

(** ** Trusted sender domains *)

(** A line of the file: nothing, or a domain. *)
Definition line_ok (raw : gostring) : Prop := allowlist_line raw <> None.
Definition line_domain (raw : gostring) : list gostring := match allowlist_line raw with Some (Some d) => [d] | _ => [] end.
(** Each element at its first occurrence. *)
Definition add_new (l : list gostring) (d : gostring) : list gostring := if bool_decide (d ∈ l) then l else l ++ [d].

Lemma allowlist_lines_ok index lines domains : Forall line_ok lines -> allowlist_lines index lines domains = inr (foldl add_new domains (lines ≫= line_domain)).
Proof.
  intros Hl. revert index domains. induction Hl as [|raw lines Hraw Hl IH]; intros index domains; [done|]. cbn [allowlist_lines mbind list_bind].
  unfold line_ok in Hraw. unfold line_domain at 1. destruct (allowlist_line raw) as [[d|]|]; [|apply IH|done]. cbn [app foldl]. apply IH.
Qed.
Lemma allowlist_lines_inr index lines domains l : allowlist_lines index lines domains = inr l -> Forall line_ok lines.
Proof.
  revert index domains. induction lines as [|raw lines IH]; intros index domains; [by constructor|]. cbn [allowlist_lines].
  destruct (allowlist_line raw) as [[d|]|] eqn:E; [| |done]; intros Hl; (constructor; [by unfold line_ok; rewrite E|by eapply IH]).
Qed.
Lemma foldl_add_new ds l : NoDup l -> NoDup (foldl add_new l ds) /\ forall d, d ∈ foldl add_new l ds <-> d ∈ l \/ d ∈ ds.
Proof.
  revert l. induction ds as [|x ds IH]; intros l Hl; cbn [foldl]; [split; [done|]; intros d; rewrite elem_of_nil; tauto|].
  assert (Hx : NoDup (add_new l x) /\ forall d, d ∈ add_new l x <-> d ∈ l \/ d = x).
  { unfold add_new. case_bool_decide as Hin; [split; [done|]; naive_solver|]. split; [|intros d; rewrite elem_of_app, list_elem_of_singleton; tauto].
    apply NoDup_app. split_and!; [done| |apply NoDup_singleton]. intros y Hy ->%list_elem_of_singleton. done. }
  destruct Hx as [Hn Hx]. destruct (IH _ Hn) as [H3 H4]. split; [done|]. intros d. rewrite H4, Hx, elem_of_cons. tauto.
Qed.
Lemma allowlist_line_valid raw d : allowlist_line raw = Some (Some d) -> validDomainName d = true.
Proof. unfold allowlist_line. destruct (_ || _); [done|]. destruct (validDomainName _) eqn:E; [|done]. by intros [= <-]. Qed.
End Accepted.

Section Allowlist.
Context `{UnicodeTables, NetIPText, NetMail, UrlText, Fingerprint, ConfigFiles}.

(** the file of trusted sender domains is read exactly or not at all. A list
    is returned only when every line of a file of at most one mebibyte is blank, a
    comment or a domain name; it is never empty, has no duplicates, and contains
    exactly the domains of the lines, each a valid name. *)
Theorem allowlist_file_exact (path : gostring) (l : list gostring) :
  loadSenderDomainAllowlist path = Domains l <->
  exists b, ReadLimited path (maxSenderDomainAllowlistBytes + 1) = Some b /\ go_len b <= maxSenderDomainAllowlistBytes /\
    Forall line_ok (split LF b) /\ l = foldl add_new [] (split LF b ≫= line_domain) /\ l <> [] /\ NoDup l /\
    (forall d, d ∈ l <-> exists raw, raw ∈ split LF b /\ allowlist_line raw = Some (Some d)) /\ Forall (λ d, validDomainName d = true) l.
Proof.
  assert (Hspec : forall b, let l := foldl add_new [] (split LF b ≫= line_domain) in
    NoDup l /\ (forall d, d ∈ l <-> exists raw, raw ∈ split LF b /\ allowlist_line raw = Some (Some d))).
  { intros b. destruct (foldl_add_new (split LF b ≫= line_domain) [] (NoDup_nil_2 (A := gostring))) as [Hn Hin]. split; [done|]. intros d. rewrite Hin, elem_of_nil, list_elem_of_bind.
    unfold line_domain. split.
    - intros [[]|(raw & Hd & Hraw)]. exists raw. split; [done|]. destruct (allowlist_line raw) as [[x|]|]; [|by apply elem_of_nil in Hd..]. apply list_elem_of_singleton in Hd. by subst.
    - intros (raw & Hraw & E). right. exists raw. rewrite E. split; [by apply list_elem_of_singleton|done]. }
  unfold loadSenderDomainAllowlist. split.
  - destruct (ReadLimited path _) as [b|]; [|done]. destruct (Z.ltb_spec maxSenderDomainAllowlistBytes (go_len b)); [done|].
    destruct (allowlist_lines 0 (split LF b) []) as [err|ds] eqn:E; [done|]. pose proof (allowlist_lines_inr _ _ _ _ E) as Hl.
    rewrite allowlist_lines_ok in E by done. injection E as E. destruct ds as [|d ds]; [done|]. intros [= <-]. exists b.
    destruct (Hspec b) as [Hn Hin]. rewrite E in Hn, Hin. split_and!; try done. apply Forall_forall. intros x Hx. apply Hin in Hx as (raw & _ & Hx). by eapply allowlist_line_valid.
  - intros (b & -> & Hlen & Hl & -> & Hne & _). rewrite (proj2 (Z.ltb_ge _ _)) by done. rewrite allowlist_lines_ok by done. by destruct (foldl _ _ _).
Qed.
End Allowlist.

(** ** Loaded configurations *)

Section Loaded.
Context {UT : UnicodeTables} {NI : NetIPText} {NM : NetMail} {UR : UrlText} {FP : Fingerprint} {CF : ConfigFiles}.

Lemma bind_inr {A B} (m : config_error + A) (k : A -> config_error + B) b : bind m k = inr b -> exists a, m = inr a /\ k a = inr b.
Proof. destruct m as [e|a]; [done|]. intros Hb. by exists a. Qed.
Lemma outcome_inr {A} (o : outcome A) a : outcome_result o = inr a -> o = Done a.
Proof. destruct o; cbn; congruence. Qed.
Lemma some_or_inr {A} (o : option A) a : some_or o = inr a -> o = Some a.
Proof. destruct o; cbn; congruence. Qed.
Lemma ok_or_inr e u : ok_or e = inr u -> e = None.
Proof. by destruct e. Qed.

(** Warnings do not matter to validation. *)
Lemma Validate_warning w c : Validate (add_warning w c) = Validate c.
Proof. done. Qed.

Definition no_legacy (c : Config) : Prop :=
  fi_LegacyLegitimateLowConfidenceScore (c_Filtering c) = None /\ ai_LegacyHTMLResourceRejectMessage (c_AI c) = None /\
  ai_LegacyHTMLParseCPULimitAction (c_AI c) = None /\ ai_LegacyHTMLDoSRejectMessage (c_AI c) = None.

Lemma resolve_legacy_score_ok b c c' : resolve_legacy_score b c = Some c' ->
  fi_LegacyLegitimateLowConfidenceScore (c_Filtering c') = None /\ c_AI c' = c_AI c.
Proof.
  unfold resolve_legacy_score. destruct (fi_LegacyLegitimateLowConfidenceScore (c_Filtering c)) eqn:E; [|by intros [= <-]].
  destruct (yaml_sets_score b); [|done]. by intros [= <-].
Qed.
Lemma drop_legacy_messages_ok c : let c' := drop_legacy_messages c in
  c_Filtering c' = c_Filtering c /\ ai_LegacyHTMLResourceRejectMessage (c_AI c') = None /\ ai_LegacyHTMLDoSRejectMessage (c_AI c') = None.
Proof.
  cbv zeta. unfold drop_legacy_messages. destruct (ai_LegacyHTMLResourceRejectMessage (c_AI c)) eqn:E1; cbv zeta; cbn [c_AI set_AI add_warning];
    cbn [ai_LegacyHTMLDoSRejectMessage with_action]; destruct (ai_LegacyHTMLDoSRejectMessage (c_AI c)) eqn:E2; cbn; by rewrite ?E1, ?E2.
Qed.
Lemma resolve_legacy_action_ok b c c' : resolve_legacy_action b c = Some c' ->
  ai_LegacyHTMLResourceRejectMessage (c_AI c) = None -> ai_LegacyHTMLDoSRejectMessage (c_AI c) = None ->
  fi_LegacyLegitimateLowConfidenceScore (c_Filtering c) = None -> no_legacy c'.
Proof.
  unfold resolve_legacy_action, no_legacy. destruct (ai_LegacyHTMLParseCPULimitAction (c_AI c)) eqn:E; [|by intros [= <-]].
  destruct (yaml_sets_action b); [|done]. by intros [= <-].
Qed.

Lemma add_warnings_view (f : Exclusion -> gostring) xs c : let c' := foldl (λ c x, add_warning (f x) c) c xs in
  c_AI c' = c_AI c /\ c_Filtering c' = c_Filtering c.
Proof. cbv zeta. revert c. induction xs as [|x xs IH]; intros c; cbn [foldl]; [done|]. by destruct (IH (add_warning (f x) c)) as [-> ->]. Qed.

(** The plan of a loaded configuration: it resolves its own level and any other;
    every resolution merges into the request checked when the program starts, and,
    unless it adds to the format of the response, into every request with the same
    fields, as the AI client sends them. *)
Definition plan_ready (c : Config) : Prop :=
  exists plan resolution, ai_ThinkingPlan (c_AI c) = Some plan /\ ai_ThinkingResolution (c_AI c) = Some resolution /\
    ResolveLevel plan (ai_ThinkingLevel (c_AI c)) = Done resolution /\ protocol plan = lit "openai_chat" /\
    forall level, 0 <= level <= 4 -> exists res r, ResolveLevel plan level = Done res /\
      ApplyResolution baseRequest res = Done r /\ keeps_values baseRequest r /\
      (assoc_get (lit "response_format") (Fragment res) = None ->
       forall request, request.*1 = baseRequest.*1 ->
       exists r', ApplyResolution request res = Done r' /\ keeps_values request r').

(** The only object in the checked request is the format of the response. *)
Lemma base_objects k d : assoc_get k baseRequest = Some (JObject d) -> k = lit "response_format".
Proof.
  unfold baseRequest. rewrite !assoc_get_cons. repeat (case_bool_decide; [by subst; intros|]). done.
Qed.
Lemma checked_level (sv1 sv2 : Z) es ps es' ps' endpoint profile protocols plan level :
  validateEndpointFile sv1 es = Done es' -> validateProfileFile sv2 ps = Done ps' ->
  CompilePlan (MkCatalogues es' ps') endpoint profile protocols = Done plan ->
  ValidateBaseRequest plan baseRequest = Done tt -> 0 <= level <= 4 ->
  exists res r, ResolveLevel plan level = Done res /\ ApplyResolution baseRequest res = Done r /\ keeps_values baseRequest r /\
    (assoc_get (lit "response_format") (Fragment res) = None ->
     forall request, request.*1 = baseRequest.*1 -> exists r', ApplyResolution request res = Done r' /\ keeps_values request r').
Proof.
  intros E1 E2 Ec Eb Hl. destruct (resolution_checked sv1 sv2 es ps es' ps' endpoint profile protocols plan baseRequest level E1 E2 Ec Eb Hl) as (res & Hres & Hu & r & Er).
  destruct (requests_built sv1 sv2 es ps es' ps' endpoint profile protocols plan baseRequest level E1 E2 Ec Eb Hl) as (res' & r0 & Hres' & Ea & Hk).
  assert (res' = res) as -> by congruence. exists res, r0. split_and!; [done|done|exact Hk|]. intros Hnone request Hkeys.
  apply (applied_elsewhere baseRequest request res r Hu Er); [by intros k; rewrite Hkeys|]. intros k d Hd. by rewrite (base_objects k d Hd).
Qed.

Lemma CompilePlan_protocol catalogues endpoint profile plan : CompilePlan catalogues endpoint profile [lit "openai_chat"] = Done plan -> protocol plan = lit "openai_chat".
Proof.
  unfold CompilePlan. destruct (assoc_get endpoint _) as [e|]; [|done]. destruct (assoc_get profile _) as [p|]; [|done].
  destruct (existsb (beq (en_Protocol e)) [lit "openai_chat"]) eqn:E; cbn [negb]; [|done].
  cbn [existsb] in E. rewrite orb_false_r in E. unfold beq in E. apply bool_decide_eq_true in E. destruct (_ <? _)%nat; [done|].
  cbv zeta. intros Hc. apply obind_done in Hc as (r & _ & Hc). destruct (_ && _); [done|]. destruct (fingerprint_of _ _ _ _); [|done]. by injection Hc as <-.
Qed.

Lemma load_thinking_ok c c' : load_thinking c = inr c' -> plan_ready c' /\ c_Filtering c' = c_Filtering c /\
  (no_legacy c -> no_legacy c').
Proof.
  unfold load_thinking. intros Hl. apply bind_inr in Hl as (catalogues & Hcat & Hl). apply bind_inr in Hl as (plan & Hplan%outcome_inr & Hl).
  apply bind_inr in Hl as (endpoint & Hend & Hl). apply bind_inr in Hl as ([] & Hbase%outcome_inr & Hl). apply bind_inr in Hl as (res & Hres%outcome_inr & Hl).
  cbv zeta in Hl. destruct (add_warnings_view (exclusion_warning (ai_EndpointType (c_AI c))) (exclusions plan) c) as [_ Hf]. injection Hl as <-.
  cbn [c_Filtering set_AI c_AI]. split_and!; [|exact Hf|].
  - exists plan, res. cbn [c_AI set_AI ai_ThinkingPlan ai_ThinkingResolution ai_ThinkingLevel with_runtime]. split_and!; [done|done|done|by eapply CompilePlan_protocol|].
    unfold LoadCatalogues in Hcat. destruct (blank _); [done|]. destruct (blank _); [done|]. destruct (endpoint_file _) as [[v1 es]|]; [|done].
    destruct (validateEndpointFile v1 es) as [es'| |] eqn:E1; [|done..]. destruct (profile_file _) as [[v2 ps]|]; [|done].
    destruct (validateProfileFile v2 ps) as [ps'| |] eqn:E2; [|done..]. injection Hcat as <-.
    intros level Hlevel. by eapply checked_level.
  - unfold no_legacy. cbn [c_Filtering c_AI set_AI with_runtime ai_LegacyHTMLResourceRejectMessage ai_LegacyHTMLParseCPULimitAction ai_LegacyHTMLDoSRejectMessage]. by rewrite Hf.
Qed.

Lemma load_allowlist_ok c c' : load_allowlist c = inr c' -> c_AI c' = c_AI c /\
  fi_LegacyLegitimateLowConfidenceScore (c_Filtering c') = fi_LegacyLegitimateLowConfidenceScore (c_Filtering c).
Proof. unfold load_allowlist. destruct (beq _ _); [by intros [= <-]|]. destruct (loadSenderDomainAllowlist _); by intros [= <-]. Qed.

(** C31: a configuration that loads is fit to run. It passed every validation, no
    deprecated setting is left in it, and its thinking plan holds: the configured
    level and every other one resolve, and each resolution merges, losing no part,
    into the ordinary request that is checked at start-up.  The AI client sends
    requests with the same four fields but with another type for the format of the
    response; each resolution also merges into those, losing no part, unless it
    adds to that format.  If it does, loading may succeed and every analysis fail:
    [checked_request_differs]. *)
Theorem loaded_configuration_fit (path : gostring) (c : Config) :
  Load path = inr c -> accepted_config c /\ Validate c = None /\ no_legacy c /\ plan_ready c.
Proof.
  unfold Load. intros Hl. apply bind_inr in Hl as (b & _ & Hl). destruct (yaml_decode defaults b) as [| |c0 [| |]]; try done.
  apply bind_inr in Hl as (u & _ & Hl). apply bind_inr in Hl as (c1 & H1%some_or_inr & Hl). apply bind_inr in Hl as (c2 & H2%some_or_inr & Hl).
  apply bind_inr in Hl as (p & _ & Hl). apply bind_inr in Hl as (c3 & H3 & Hl). apply bind_inr in Hl as (c4 & H4 & Hl). apply bind_inr in Hl as (u' & Hv%ok_or_inr & Hl).
  apply resolve_legacy_score_ok in H1 as [L1 _]. destruct (drop_legacy_messages_ok c1) as (Lf & L2 & L3).
  assert (Hn2 : no_legacy c2) by (eapply resolve_legacy_action_ok; [exact H2|done|done|by rewrite Lf]).
  apply load_thinking_ok in H3 as (Hp & Hf & Hn). specialize (Hn Hn2). apply load_allowlist_ok in H4 as [Ha Hs].
  assert (Hp4 : plan_ready c4) by (unfold plan_ready in *; by rewrite Ha). assert (Hn4 : no_legacy c4) by (unfold no_legacy in *; by rewrite Ha, Hs).
  assert (Hc : Validate c = None /\ no_legacy c /\ plan_ready c) by (destruct (_ && _ && _) in Hl; injection Hl as <-; done).
  destruct Hc as (Hvc & ? & ?). split; [by apply Validate_accepted|done].
Qed.
End Loaded.

(** ** A configuration that loads *)

Module Sample.
#[local] Instance tables : UnicodeTables := basic_tables.
#[local] Instance addresses : NetIPText := raw_text.
#[local] Instance mail : NetMail := simple_mail.
(** Absolute HTTPS addresses, and paths. *)
#[local] Instance web_urls : UrlText := {|
  urlParse s := if hasPrefix s (lit "https://")
    then let '(host, path) := default (drop 8 s, []) (cut "/"%char (drop 8 s)) in Some (MkURL (lit "https") host [] [] false ("/"%char :: path))
    else Some (MkURL [] [] [] [] false s);
  pathUnescape := path_unescape |}.
#[local] Instance prints : Fingerprint := {| fingerprint_of _ _ _ _ := Some (lit "print") |}.

(** The defaults with a model, a Unix socket, and deprecated settings. *)
Definition settings : Config :=
  let a := with_action (c_AI defaults) (Some (lit "no")) (Some (lit "fallback")) None (lit "reject") in
  let a := MkAI (ai_Endpoint a) (lit "e") 3 (lit "p") (lit "endpoints.yaml") (lit "profiles.yaml") [] (lit "KEY") (lit "a-model") (ai_PromptFile a) (ai_Timeout a) (ai_Retries a)
    (ai_MaxConcurrent a) (ai_MaxBodyChars a) (ai_CompactPromptURLs a) (ai_MaxHTMLParseCPUMilliseconds a) (ai_MaxHTMLParseMemoryBytes a) (ai_HTMLResourceLimitAction a)
    (ai_LegacyHTMLResourceRejectMessage a) (ai_LegacyHTMLParseCPULimitAction a) (ai_LegacyHTMLDoSRejectMessage a) (ai_IncompleteBodyAction a) (ai_VisionMode a)
    (ai_VisionMinTextChars a) (ai_MaxImages a) (ai_MaxImageBytes a) (ai_MaxImagePixels a) (ai_SiteURL a) (ai_AppName a) (ai_InputCostPerMillionTokens a)
    (ai_OutputCostPerMillionTokens a) None None [] in
  let i := c_IPReputation defaults in
  MkConfig (lit "enforce") (MkMilter (lit "unix:/run/milterguard.sock") minute 0 (mib 10) 64 []) (c_Authentication defaults) a (c_Activity defaults)
    (c_SenderBlocklist defaults) (c_Filtering defaults) (c_Attachments defaults) (c_EmailCommands defaults) (c_Persistence defaults) (c_RejectionHistory defaults)
    (c_Correspondents defaults) (MkIPReputation (ir_RejectMessage i) hour 3 (30 * day) (30 * day) true 1 10000 [] (ir_DomainAllowlist i)) (c_DomainRegistration defaults)
    (c_Logging defaults) [].
Definition trusted_domains : gostring := lit "# partners" ++ [LF] ++ lit "Example.COM." ++ [LF; LF] ++ lit " example.com" ++ [LF] ++ lit "mail.example.org".

#[local] Instance files : ConfigFiles := {|
  ReadFile _ := Some []; ReadLimited _ _ := Some trusted_domains; Getenv _ := lit "secret"; Abs p := Some (lit "/etc/milterguard/" ++ p);
  yaml_decode _ _ := DecodedConfig settings TrailingNothing; yaml_tree _ := Some (YNode DocumentNode [] [] []);
  yaml_sets_score _ := Some false; yaml_sets_action _ := Some false;
  endpoint_file p := if beq p (lit "/etc/milterguard/endpoints.yaml") then Some (2, Some [(lit "e", sample_endpoint)]) else None;
  profile_file p := if beq p (lit "/etc/milterguard/profiles.yaml") then Some (2, Some [(lit "p", sample_profile)]) else None |}.

Definition loaded : Config := match Load (lit "milterguard.yaml") with inr c => c | inl _ => defaults end.
Lemma loaded_domains : fi_SenderDomainAllowlist (c_Filtering loaded) = words ["example.com"; "mail.example.org"]%string /\
  ai_HTMLResourceLimitAction (c_AI loaded) = lit "fallback" /\ ai_APIKey (c_AI loaded) = lit "secret".
Proof. by vm_compute. Qed.

Lemma loaded_configuration_witness : Load (lit "milterguard.yaml") = inr loaded /\ accepted_config loaded.
Proof.
  assert (E : Load (lit "milterguard.yaml") = inr loaded) by (vm_compute; reflexivity). split; [exact E|]. exact (proj1 (loaded_configuration_fit _ _ E)).
Defined.
End Sample.
