(* ===== verification/ScanNames.v ===== *)
(** * Attachment names and signatures (internal/attachment/scanner.go)

    The pure part of the attachment scanner: the names under which content is
    judged, the extensions of the policy, the recognition of archives and of
    prohibited content by their first bytes, and the file names that MIME
    headers declare.

    Code outside the repository is the class [NameText]: Unicode tables,
    [norm.NFKC], the character sets of golang.org/x/text, and the parsers of
    package mime. *)
From S2P Require Import Prelude GoText Runes.
Open Scope Z_scope.

(** ** Errors and readers *)

(** The error values of the scanner.  [CtxErr] is the error of an ended context,
    [ErrFormat] is [zip.ErrFormat], [ErrScan] is a [*ScanError]. *)
Inductive goerror :=
  | CtxErr
  | ErrFormat
  | ErrText (text : gostring)
  | ErrWrap (prefix : gostring) (err : goerror)
  | ErrScan (Path : gostring) (Encrypted Malformed : bool) (Err : goerror).

(** A reader: the bytes it delivers, and what ends them ([None] is [io.EOF]). *)
Record source := Source { src_bytes : gostring; src_fault : option goerror }.

Class NameText := {
  (** [norm.NFKC.String] *)
  nfkc : gostring -> gostring;
  (** [unicode.In(r, unicode.Cf)] *)
  is_format_rune : Z -> bool;
  (** [htmlindex.Get], and the decoder of the encoding *)
  html_encoding : gostring -> option (source -> source);
  (** [mime.ParseMediaType]: the media type and the parameters *)
  ParseMediaType : gostring -> goerror + gostring * list (gostring * gostring);
  (** [WordDecoder.DecodeHeader] with the given [CharsetReader] *)
  DecodeHeader : (gostring -> source -> goerror + source) -> gostring -> goerror + gostring;
  (** [strconv.Quote] *)
  quote : gostring -> gostring;
}.

Record Options := MkOptions {
  BlockedExtensions : list gostring;
  InspectSignatures : bool;
  InspectArchives : bool;
  MaxAttachmentBytes : Z;
  MaxArchiveDepth : Z;
  MaxArchiveFiles : Z;
  MaxArchiveUncompressedBytes : Z;
}.
Record Finding := MkFinding { f_Path : gostring; f_Detection : gostring }.
Record Scanner := MkScanner { options : Options; blocked : gset gostring }.

Definition DOT : ascii := "."%char.
Definition SLASH : ascii := "/"%char.
Definition COLON : ascii := ":"%char.
Definition SEMICOLON : ascii := ";"%char.
Definition BACKSLASH : ascii := chr 92.
Definition DOUBLE_QUOTE : ascii := chr 34.
Definition APOSTROPHE : ascii := chr 39.
Definition raw_bytes (l : list Z) : gostring := chr <$> l.

(** [strings.Cut]: before, after, found. *)
Definition cut_pair (sep : ascii) (s : gostring) : gostring * gostring * bool :=
  match cut sep s with Some (a, b) => (a, b, true) | None => (s, [], false) end.

Section Names.
Context `{UnicodeTables, NameText}.

(** ** Construction *)

Definition normalize_extension (extension : gostring) : gostring := trimPrefix (toLower (trimSpace extension)) [DOT].
Definition New (o : Options) : Scanner :=
  MkScanner o (list_to_set (List.filter (λ e, negb (beq e [])) (normalize_extension <$> BlockedExtensions o))).

(** ** Names *)

Definition ignorable_rune (r : Z) : bool :=
  unicode_is_control r || is_format_rune r || (r =? 0x34f) || ((0xfe00 <=? r) && (r <=? 0xfe0f)) || ((0xe0100 <=? r) && (r <=? 0xe01ef)).
Definition is_unnamed (value : gostring) : bool := beq value [DOT] || beq value [DOT; DOT] || beq value [SLASH] || beq value [].

Definition normalizeName (value : gostring) : gostring :=
  let value := toValidUTF8 value in
  let value := nfkc value in
  let value := replaceAll value [BACKSLASH] [SLASH] in
  let value := path_base value in
  let value := map_runes (λ r, if ignorable_rune r then None else Some r) value in
  let value := trimSpace value in
  if is_unnamed value then lit "unnamed" else value.

(** [string([]rune(value)[:n])] *)
Definition first_runes (n : nat) (value : gostring) : gostring := concat (encode_rune <$> take n (runes value)).
Definition cleanName (value : gostring) : gostring :=
  let value := normalizeName value in
  if (255 <? runeCount value)%nat then first_runes 255 value else value.

Definition cleanLocation (value : gostring) : gostring :=
  let parts := split SLASH (replaceAll value [BACKSLASH] [SLASH]) in
  match List.filter (λ part, negb (beq part (lit "unnamed"))) (cleanName <$> parts) with
  | [] => lit "message"
  | cleaned => join [SLASH] cleaned
  end.

Definition joinLocation (parent child : gostring) : gostring := cleanLocation parent ++ SLASH :: cleanName child.

(** [location[:slash+1]] is what precedes the part after the last slash. *)
Definition replaceLocationBase (location filename : gostring) : gostring :=
  let location := cleanLocation location in
  match after_last SLASH location with
  | Some rest => take (length location - length rest) location ++ cleanName filename
  | None => cleanName filename
  end.

Fixpoint strip_extension (filename lower : gostring) (extensions : list gostring) : gostring :=
  match extensions with
  | [] => lit "unnamed"
  | extension :: extensions =>
      if hasSuffix lower extension then
        let name := trimSpace (take (length filename - length extension) filename) in
        if negb (beq name []) then normalizeName name else strip_extension filename lower extensions
      else strip_extension filename lower extensions
  end.
Definition stripCompressionExtension (filename : gostring) (extensions : list gostring) : gostring :=
  let filename := normalizeName filename in strip_extension filename (toLower filename) extensions.

(** ** Extensions *)

Definition is_blocked (s : Scanner) (extension : gostring) : bool := bool_decide (extension ∈ blocked s).

(** The extensions of a name: every dotted part of every colon segment. *)
Definition name_extensions (filename : gostring) : list gostring :=
  concat ((λ segment, tail (split DOT (trimRightSet segment [DOT; " "%char]))) <$> split COLON filename).
(** The loops stop at the first blocked one; [[]] is none. *)
Definition blockedExtension (s : Scanner) (filename : gostring) : gostring :=
  match List.find (is_blocked s) (name_extensions (toLower (normalizeName filename))) with
  | Some extension => extension
  | None => []
  end.

(** ** Archives *)

Inductive archive_format := FmtZIP | FmtTAR | FmtGZIP | FmtBZIP2.

(** [None] is the empty string. *)
Definition archiveFormat (filename mediaType data : gostring) : option archive_format :=
  let lowerName := toLower filename in
  if hasPrefix data (raw_bytes [80; 75; 3; 4]) || hasPrefix data (raw_bytes [80; 75; 5; 6]) || hasPrefix data (raw_bytes [80; 75; 7; 8]) then Some FmtZIP
  else if hasPrefix data (raw_bytes [0x1f; 0x8b]) then Some FmtGZIP
  else if hasPrefix data (lit "BZh") then Some FmtBZIP2
  else if (265 <=? go_len data) && beq (take 5 (drop 257 data)) (lit "ustar") then Some FmtTAR
  else if hasSuffix lowerName (lit ".zip") || beq mediaType (lit "application/zip") then Some FmtZIP
  else if hasSuffix lowerName (lit ".tar") || beq mediaType (lit "application/x-tar") then Some FmtTAR
  else if hasSuffix lowerName (lit ".gz") || hasSuffix lowerName (lit ".gzip") || beq mediaType (lit "application/gzip") || beq mediaType (lit "application/x-gzip")
  then Some FmtGZIP
  else if hasSuffix lowerName (lit ".bz2") || hasSuffix lowerName (lit ".bzip2") || beq mediaType (lit "application/x-bzip2") then Some FmtBZIP2
  else None.

(** ** Signatures *)

Definition blocksAny (s : Scanner) (extensions : list gostring) : bool := existsb (is_blocked s) extensions.

(** [string(data[len(data)-512:len(data)-512+n])], guarded by the length. *)
Definition footer (n : nat) (data : gostring) : option gostring :=
  if 512 <=? go_len data then Some (take n (drop (length data - 512) data)) else None.
Definition byte_at (data : gostring) (n : nat) : Z := code (nth n data NUL).

Definition lnk_magic : gostring :=
  raw_bytes [0x4c; 0x00; 0x00; 0x00; 0x01; 0x14; 0x02; 0x00; 0x00; 0x00; 0x00; 0x00; 0xc0; 0x00; 0x00; 0x00; 0x00; 0x00; 0x00; 0x46].
Definition onenote_magic : gostring :=
  raw_bytes [0xe4; 0x52; 0x5c; 0x7b; 0x8c; 0xd8; 0xa7; 0x4d; 0xae; 0xb1; 0x53; 0x78; 0xd0; 0x29; 0x96; 0xd3].

(** The Unix compress header: magic, no reserved flags, 9 to 16 bits. *)
Definition compress_header (data : gostring) : bool :=
  (3 <=? go_len data) && hasPrefix data (raw_bytes [0x1f; 0x9d]) &&
  (Z.land (byte_at data 2) 0x60 =? 0) && (9 <=? Z.land (byte_at data 2) 0x1f) && (Z.land (byte_at data 2) 0x1f <=? 16).

Definition configuredFormatSignature (s : Scanner) (data : gostring) : gostring :=
  if blocksAny s [lit "lnk"] && hasPrefix data lnk_magic then lit "Windows shell link signature"
  else if blocksAny s [lit "cab"; lit "onepkg"] && hasPrefix data (lit "MSCF") then lit "Microsoft cabinet signature"
  else if blocksAny s [lit "chm"] && hasPrefix data (lit "ITSF") then lit "compiled HTML Help signature"
  else if blocksAny s [lit "iso"; lit "img"] && (32774 <=? go_len data) && beq (take 5 (drop (Z.to_nat 32769) data)) (lit "CD001") then lit "ISO disk image signature"
  else if blocksAny s [lit "vhdx"] && hasPrefix data (lit "vhdxfile") then lit "VHDX disk image signature"
  else if blocksAny s [lit "vhd"] && (hasPrefix data (lit "conectix") || bool_decide (footer 8 data = Some (lit "conectix"))) then lit "VHD disk image signature"
  else if blocksAny s [lit "dmg"] && bool_decide (footer 4 data = Some (lit "koly")) then lit "Apple disk image signature"
  else if blocksAny s [lit "one"; lit "onepkg"] && hasPrefix data onenote_magic then lit "Microsoft OneNote signature"
  else if blocksAny s [lit "apk"] && (8 <=? go_len data) && beq (take 4 data) (lit "dex" ++ [LF]) && (byte_at data 7 =? 0) then lit "Android DEX executable signature"
  else if is_blocked s (lit "z") && compress_header data then lit "Unix compress archive signature"
  else if is_blocked s (lit "rar") && (hasPrefix data (lit "Rar!" ++ raw_bytes [0x1a; 0x07; 0x00]) || hasPrefix data (lit "Rar!" ++ raw_bytes [0x1a; 0x07; 0x01; 0x00]))
  then lit "RAR archive signature"
  else if is_blocked s (lit "7z") && hasPrefix data (lit "7z" ++ raw_bytes [0xbc; 0xaf; 0x27; 0x1c]) then lit "7z archive signature"
  else [].

Definition macho_magics : list gostring :=
  raw_bytes <$> [[0xfe; 0xed; 0xfa; 0xce]; [0xce; 0xfa; 0xed; 0xfe]; [0xfe; 0xed; 0xfa; 0xcf]; [0xcf; 0xfa; 0xed; 0xfe]].
Definition macho_universal_magics : list gostring :=
  raw_bytes <$> [[0xca; 0xfe; 0xba; 0xbe]; [0xbe; 0xba; 0xfe; 0xca]; [0xca; 0xfe; 0xba; 0xbf]; [0xbf; 0xba; 0xfe; 0xca]].

Definition binaryExecutableSignature (data : gostring) : gostring :=
  if hasPrefix data (lit "MZ") then lit "DOS/Windows executable signature"
  else if hasPrefix data (chr 0x7f :: lit "ELF") then lit "ELF executable signature"
  else if existsb (hasPrefix data) macho_magics then lit "Mach-O executable signature"
  else if existsb (hasPrefix data) macho_universal_magics then lit "Mach-O universal executable signature"
  else [].

Definition dangerous : list gostring :=
  lit <$> ["ash"; "bash"; "csh"; "dash"; "fish"; "ksh"; "node"; "perl"; "php"; "pwsh"; "python"; "python2"; "python3"; "ruby"; "sh"; "tcsh"; "zsh"]%string.

Definition scriptInterpreter (data : gostring) : gostring :=
  if negb (hasPrefix data (lit "#!")) then []
  else
    let line := before_any [CR; LF] (drop 2 (take 256 data)) in
    match fields (toLower line) with
    | [] => []
    | first :: rest =>
        let interpreter := path_base first in
        let interpreter := match rest with second :: _ => if beq interpreter (lit "env") then path_base second else interpreter | [] => interpreter end in
        if existsb (beq interpreter) dangerous then interpreter else []
    end.

Definition executableSignature (data : gostring) : gostring :=
  let signature := binaryExecutableSignature data in
  if negb (beq signature []) then signature
  else
    let interpreter := scriptInterpreter data in
    if negb (beq interpreter []) then lit "executable script signature (" ++ interpreter ++ lit ")" else [].

Definition prohibitedSignature (s : Scanner) (data : gostring) : gostring :=
  let signature := configuredFormatSignature s data in
  if negb (beq signature []) then signature else executableSignature data.

Definition disguisedBinaryContent (s : Scanner) (data : gostring) : bool :=
  (InspectSignatures (options s) && (negb (beq (binaryExecutableSignature data) []) || negb (beq (configuredFormatSignature s data) [])))
  || (InspectArchives (options s) && match archiveFormat [] [] data with Some _ => true | None => false end).

(** ** File names of MIME headers *)

(** The loop of [splitMIMEParameters]: [cur] is [header[start:index]]. *)
Fixpoint split_parameters (quoted escaped : bool) (cur rest : gostring) : list gostring :=
  match rest with
  | [] => [cur]
  | c :: rest =>
      if escaped then split_parameters quoted false (cur ++ [c]) rest
      else if quoted && ceq c BACKSLASH then split_parameters quoted true (cur ++ [c]) rest
      else if ceq c DOUBLE_QUOTE then split_parameters (negb quoted) false (cur ++ [c]) rest
      else if ceq c SEMICOLON && negb quoted then cur :: split_parameters quoted false [] rest
      else split_parameters quoted false (cur ++ [c]) rest
  end.
Definition splitMIMEParameters (header : gostring) : list gostring := split_parameters false false [] header.

Definition parameter_key (parameter : gostring) : gostring := toLower (trimSpace (cut_pair "="%char parameter).1.1).
Definition hasFilenameParameter (header : gostring) : bool :=
  existsb (λ parameter, let key := parameter_key parameter in
    beq key (lit "filename") || beq key (lit "name") || hasPrefix key (lit "filename*") || hasPrefix key (lit "name*")) (splitMIMEParameters header).

(** charset.Lookup and charset.NewReaderLabel *)
Definition Lookup (label : gostring) : option (source -> source) := html_encoding label.
Definition NewReaderLabel (label : gostring) (input : source) : goerror + source :=
  match Lookup label with
  | None => inl (ErrText (lit "unsupported charset: " ++ quote label))
  | Some decoder => inr (decoder input)
  end.

Definition strip_quotes (value : gostring) : gostring :=
  if (2 <=? go_len value) && hasPrefix value [DOUBLE_QUOTE] && hasSuffix value [DOUBLE_QUOTE] then take (length value - 2) (drop 1 value) else value.

Definition decodeExtendedFilename (value : gostring) : goerror + gostring :=
  let '(label, remainder, ok) := cut_pair APOSTROPHE (strip_quotes value) in
  if negb ok || beq (trimSpace label) [] then inl (ErrText (lit "encoded attachment filename has no character set"))
  else
    let '(_, encoded, ok) := cut_pair APOSTROPHE remainder in
    if negb ok then inl (ErrText (lit "encoded attachment filename has no language separator"))
    else
      match path_unescape encoded with
      | None => inl (ErrText (lit "cannot unescape encoded attachment filename"))
      | Some bytesValue =>
          match NewReaderLabel label (Source bytesValue None) with
          | inl err => inl (ErrWrap (lit "unsupported attachment filename character set " ++ quote label ++ lit ": ") err)
          | inr reader =>
              match src_fault reader with
              | Some err => inl (ErrWrap (lit "cannot decode attachment filename character set " ++ quote label ++ lit ": ") err)
              | None => inr (src_bytes reader)
              end
          end
      end.

(** The name that an extended parameter gives, if there is one. *)
Fixpoint extended_parameter (parameters : list gostring) (baseKey : gostring) : goerror + option gostring :=
  match parameters with
  | [] => inr None
  | parameter :: parameters =>
      let '(_, raw, found) := cut_pair "="%char parameter in
      let key := parameter_key parameter in
      if beq key (baseKey ++ lit "*") then
        if negb found then inl (ErrText (lit "encoded attachment filename has no value"))
        else
          match decodeExtendedFilename (trimSpace raw) with
          | inl err => inl err
          | inr decoded => inr (Some (normalizeName decoded))
          end
      else if hasPrefix key (baseKey ++ lit "*") then inl (ErrText (lit "unsupported continued attachment filename encoding"))
      else extended_parameter parameters baseKey
  end.
Definition extendedFilenameParameter (header baseKey : gostring) : goerror + option gostring := extended_parameter (splitMIMEParameters header) baseKey.

Definition decodeFilename (value : gostring) : goerror + gostring :=
  match DecodeHeader NewReaderLabel value with
  | inl err =>
      if contains value (lit "=?") || contains value (lit "?=") then inl (ErrWrap (lit "cannot decode encoded attachment filename: ") err)
      else inr (normalizeName value)
  | inr decoded => inr (normalizeName decoded)
  end.

(** One turn of the inner loop: the name that one key of one header gives. *)
Definition filename_of_key (header : gostring) (params : list (gostring * gostring)) (key : gostring) : goerror + option gostring :=
  let raw := trimSpace (default [] (assoc_get key params)) in
  if negb (beq raw []) then
    match decodeFilename raw with inl err => inl err | inr decoded => inr (Some decoded) end
  else extendedFilenameParameter header key.
Definition filename_of_header (header : gostring) : goerror + option gostring :=
  match ParseMediaType header with
  | inl err => if hasFilenameParameter header then inl (ErrWrap (lit "invalid encoded attachment filename: ") err) else inr None
  | inr (_, params) =>
      match filename_of_key header params (lit "filename") with
      | inr None => filename_of_key header params (lit "name")
      | r => r
      end
  end.
(** [[]] is no name. *)
Definition attachmentFilename (contentDisposition contentType : gostring) : goerror + gostring :=
  match filename_of_header contentDisposition with
  | inl err => inl err
  | inr (Some filename) => inr filename
  | inr None =>
      match filename_of_header contentType with
      | inl err => inl err
      | inr (Some filename) => inr filename
      | inr None => inr []
      end
  end.

Definition explicitAttachment (contentDisposition : gostring) : bool :=
  match ParseMediaType contentDisposition with
  | inr (disposition, _) => equalFold disposition (lit "attachment")
  | inl _ => false
  end.
End Names.

(** ** Names that cannot hide an extension

    [blockedExtension] judges the normalized name: directories, letter case,
    trailing dots and spaces and alternate data streams do not hide a blocked
    extension, and a normalized name never contains a path separator, so that an
    entry of an archive cannot forge the location that is reported. *)

(** ** Trimming *)

Lemma trimLeftSet_app cs a c b : existsb (ceq c) cs = false -> trimLeftSet cs (a ++ c :: b) = trimLeftSet cs a ++ c :: b.
Proof. intros Hc. induction a as [|d a IH]; cbn; [by rewrite Hc|]. by destruct (existsb (ceq d) cs). Qed.
Lemma trimRightSet_app cs a c b : existsb (ceq c) cs = false -> trimRightSet (a ++ c :: b) cs = a ++ c :: trimRightSet b cs.
Proof.
  intros Hc. unfold trimRightSet. rewrite rev_app_distr. cbn [rev]. rewrite <- app_assoc. cbn [app].
  rewrite trimLeftSet_app by done. rewrite rev_app_distr. cbn [rev]. by rewrite rev_involutive, <- app_assoc.
Qed.
Lemma trimLeftSet_all cs s : Forall (λ c, existsb (ceq c) cs = true) s -> trimLeftSet cs s = [].
Proof. induction 1 as [|c s Hc _ IH]; [done|]. cbn. by rewrite Hc. Qed.
Lemma trimRightSet_all cs s : Forall (λ c, existsb (ceq c) cs = true) s -> trimRightSet s cs = [].
Proof. intros Hs. unfold trimRightSet. rewrite trimLeftSet_all; [done|]. by apply Forall_rev. Qed.
Lemma trimRightSet_prefix cs s : exists t, s = trimRightSet s cs ++ t.
Proof.
  unfold trimRightSet. assert (Hs : forall l, exists t, l = t ++ trimLeftSet cs l).
  { intros l. induction l as [|c l [t IH]]; [by exists []|]. cbn. destruct (existsb (ceq c) cs); [exists (c :: t); cbn; by rewrite <- IH|by exists []]. }
  destruct (Hs (rev s)) as [t Ht]. exists (rev t). rewrite <- rev_app_distr, <- Ht. by rewrite rev_involutive.
Qed.

(** ** Splitting *)

Lemma split_app_sep sep a b : split sep (a ++ sep :: b) = split sep a ++ split sep b.
Proof.
  induction a as [|c a IH]; cbn; [by rewrite ceq_refl|]. destruct (ceq c sep); rewrite IH; [done|].
  pose proof (split_nonempty sep a). by destruct (split sep a).
Qed.

(** Text without separators stays in one piece. *)
Lemma split_segment sep a w rest : sep ∉ w -> (rest = [] \/ exists m, rest = sep :: m) -> exists q, (q ++ w) ∈ split sep (a ++ w ++ rest).
Proof.
  intros Hw Hr. induction a as [|c a [q IH]]; cbn [app].
  - exists []. destruct Hr as [->|[m ->]]; [rewrite app_nil_r, split_single by done; set_solver|rewrite split_cons_app by done; set_solver].
  - cbn [split]. destruct (ceq c sep); [exists q; set_solver|].
    destruct (split sep (a ++ w ++ rest)) as [|h t]; [set_solver|]. apply elem_of_cons in IH as [<-|IH]; [exists (c :: q); set_solver|exists q; set_solver].
Qed.
Lemma split_last_tail sep a w : sep ∉ w -> w ∈ tail (split sep (a ++ sep :: w)).
Proof.
  intros Hw. rewrite split_app_sep, (split_single sep w) by done. pose proof (split_nonempty sep a). destruct (split sep a); [done|]. cbn. set_solver.
Qed.

(** ** Printable names *)

Definition printable (c : ascii) : bool := in_range 32 126 c.
Lemma printable_ascii c : printable c = true -> is_ascii c = true.
Proof. unfold printable, in_range, is_ascii. rewrite andb_true_iff, Z.leb_le, Z.leb_le, Z.ltb_lt. lia. Qed.
Lemma printable_all_ascii s : forallb printable s = true -> forallb is_ascii s = true.
Proof. rewrite !forallb_forall. intros Hs c Hc. by apply printable_ascii, Hs. Qed.

Definition only_space_first (seqs : list gostring) : bool :=
  forallb (λ q, match q with c :: rest => negb (printable c) || (ceq c " "%char && bool_decide (rest = [])) | [] => false end) seqs && existsb (beq [" "%char]) seqs.

(** White space at the start of a printable string is a space. *)
Lemma strip_go_printable seqs fuel s : only_space_first seqs = true -> forallb printable s = true -> (length s <= fuel)%nat ->
  strip_go seqs fuel s = trimLeftSet [" "%char] s.
Proof.
  unfold only_space_first. rewrite andb_true_iff, forallb_forall, existsb_exists. intros [Hq (sp & Hsp & Esp)].
  unfold beq in Esp. apply bool_decide_eq_true in Esp. subst sp. revert s.
  induction fuel as [|fuel IH]; intros s Hs Hl; [by destruct s; [|cbn in Hl; lia]|]. cbn [strip_go].
  destruct s as [|c s]; cbn [trimLeftSet existsb].
  { destruct (strip_one seqs []) as [s'|] eqn:E; [|done]. apply strip_one_Some in E as (q & Hin & E). apply list_elem_of_In, Hq in Hin. by destruct q. }
  cbn [forallb] in Hs. apply andb_true_iff in Hs as [Hc Hs]. rewrite orb_false_r. destruct (ceq c " "%char) eqn:Ec.
  - apply ceq_true in Ec. subst c. destruct (strip_one seqs (" "%char :: s)) as [s'|] eqn:E.
    + apply strip_one_Some in E as (q & Hin & E). apply list_elem_of_In, Hq in Hin. destruct q as [|d q]; [done|]. injection E as <- ->.
      apply orb_true_iff in Hin as [Hin|Hin]; [done|]. apply andb_true_iff in Hin as [_ Hin]. apply bool_decide_eq_true in Hin. subst q. cbn [app] in *.
      apply IH; [done|]. cbn [length] in Hl. lia.
    + apply strip_one_None in E. unfold no_strip in E. rewrite List.Forall_forall in E. specialize (E _ Hsp). by cbn in E.
  - destruct (strip_one seqs (c :: s)) as [s'|] eqn:E; [|done]. apply strip_one_Some in E as (q & Hin & E). apply list_elem_of_In, Hq in Hin.
    destruct q as [|d q]; [done|]. injection E as -> _. rewrite Hc, Ec in Hin. done.
Qed.

Lemma trimLeftSet_incl cs s c : c ∈ trimLeftSet cs s -> c ∈ s.
Proof. induction s as [|d s IH]; [done|]. cbn. destruct (existsb (ceq d) cs); [intros Hc; right; by apply IH|done]. Qed.
Lemma printable_elem s : forallb printable s = true <-> forall c, c ∈ s -> printable c = true.
Proof. rewrite forallb_forall. split; intros Hs c Hc; apply Hs; by apply list_elem_of_In. Qed.

Lemma trimSpace_printable s : forallb printable s = true -> trimSpace s = trimRightSet (trimLeftSet [" "%char] s) [" "%char].
Proof.
  intros Hs. unfold trimSpace, trimLeftSpace, trimRightSpace, trimRightSet. rewrite (strip_go_printable space_seqs); [|by vm_compute|done|done].
  rewrite strip_go_printable; [done|by vm_compute| |by rewrite length_rev].
  rewrite printable_elem in *. intros c Hc. apply Hs. apply (trimLeftSet_incl [" "%char]). apply list_elem_of_In, in_rev. by apply list_elem_of_In.
Qed.

Lemma ascii_valid s : forallb is_ascii s = true -> validString s = true.
Proof.
  induction s as [|c s IH]; [done|]. cbn [forallb]. intros [Hc Hs]%andb_true_iff. unfold validString. rewrite rune_chunks_cons.
  unfold decode_rune. unfold is_ascii in Hc. rewrite Hc. cbn [forallb rc_valid drop take].
  apply andb_true_iff. split; [|by apply IH]. apply Z.ltb_lt in Hc. apply negb_true_iff, andb_false_iff. left. apply Z.eqb_neq. unfold runeError. lia.
Qed.

Lemma encode_ascii c : is_ascii c = true -> encode_rune (code c) = [c].
Proof. unfold is_ascii, encode_rune. intros Hc. pose proof (code_range c). rewrite Hc, (proj2 (Z.leb_le 0 _)) by lia. cbn. by rewrite chr_code. Qed.

Lemma map_runes_id f s : forallb is_ascii s = true -> (forall c, c ∈ s -> f (code c) = Some (code c)) -> map_runes f s = s.
Proof.
  intros Ha Hf. unfold map_runes. rewrite runes_of_ascii by done. rewrite <- list_fmap_compose. induction s as [|c s IH]; [done|].
  cbn [forallb] in Ha. apply andb_true_iff in Ha as [Hc Ha]. cbn. rewrite (Hf c) by set_solver. rewrite encode_ascii by done. cbn. f_equal. apply IH; set_solver.
Qed.

Lemma replace_absent old new s : old ∉ s -> replaceAll s [old] new = s.
Proof.
  intros Hs. rewrite replace_char. induction s as [|c s IH]; [done|]. cbn. rewrite (proj2 (ceq_false old c)) by set_solver. cbn. f_equal. apply IH. set_solver.
Qed.
Lemma replace_app old new s t : replaceAll (s ++ t) [old] new = replaceAll s [old] new ++ replaceAll t [old] new.
Proof. rewrite !replace_char, fmap_app. apply concat_app. Qed.

Lemma trimRightSet_id cs s : (forall c, c ∈ s -> existsb (ceq c) cs = false) -> trimRightSet s cs = s.
Proof.
  intros Hs. unfold trimRightSet. assert (Hl : forall l, (forall c, c ∈ l -> existsb (ceq c) cs = false) -> trimLeftSet cs l = l).
  { intros [|c l] Hc; [done|]. cbn. by rewrite Hc by set_solver. }
  rewrite Hl; [apply rev_involutive|]. intros c Hc. apply Hs. apply list_elem_of_In, in_rev. by apply list_elem_of_In.
Qed.

(** The last component of a path. *)
Lemma path_base_name dir name : SLASH ∉ name -> name <> [] -> (dir = [] \/ exists d, dir = d ++ [SLASH]) -> path_base (dir ++ name) = name.
Proof.
  intros Hn Hne Hd. destruct name as [|c name]; [done|]. unfold path_base. destruct (dir ++ c :: name) as [|x y] eqn:E; [by destruct dir|]. rewrite <- E. clear E x y. cbv zeta.
  assert (Hno : forall d, d ∈ c :: name -> existsb (ceq d) [SLASH] = false).
  { intros d Hin. cbn. rewrite orb_false_r. apply ceq_false. intros ->. done. }
  rewrite trimRightSet_app by (apply Hno; set_solver). rewrite (trimRightSet_id _ name) by (intros d Hin; apply Hno; set_solver).
  destruct Hd as [->|[d ->]]; [by rewrite app_nil_l, after_last_None|]. rewrite <- app_assoc. cbn [app]. by rewrite after_last_app.
Qed.

(** ** Extensions of printable names *)

(** Documented facts about the Unicode tables: NFKC leaves ASCII text alone, and
    the first format character is U+00AD. *)
Class PlainNames `{NameText} := {
  nfkc_ascii : forall s, forallb is_ascii s = true -> nfkc s = s;
  format_not_ascii : forall r, 0 <= r < 128 -> is_format_rune r = false;
}.

Section Extensions.
Context {UT : UnicodeTables} {NT : NameText} {PN : PlainNames}.
#[local] Set Default Proof Using "Type*".

Lemma printable_kept c : printable c = true -> ignorable_rune (code c) = false.
Proof.
  unfold printable, in_range, ignorable_rune, unicode_is_control. rewrite andb_true_iff, !Z.leb_le. intros Hc.
  rewrite format_not_ascii by lia. repeat rewrite orb_false_r. repeat (apply orb_false_iff; split); lia.
Qed.

(** The base name of a path of ASCII characters, without white space at its ends. *)
Lemma normalizeName_printable dir name : forallb is_ascii dir = true -> (dir = [] \/ exists d c, dir = d ++ [c] /\ (c = SLASH \/ c = BACKSLASH)) ->
  forallb printable name = true -> SLASH ∉ name -> BACKSLASH ∉ name -> is_unnamed (trimSpace name) = false -> normalizeName (dir ++ name) = trimSpace name.
Proof.
  intros Hda Hd Hp Hs Hb Hu. assert (Hne : name <> []) by (intros ->; by vm_compute in Hu). unfold normalizeName.
  assert (Ha : forallb is_ascii (dir ++ name) = true) by (rewrite forallb_app, Hda; by apply printable_all_ascii).
  rewrite toValidUTF8_id by (by apply ascii_valid). rewrite nfkc_ascii by done. rewrite replace_app, (replace_absent _ _ name) by done.
  rewrite path_base_name; [|done|done|].
  - rewrite map_runes_id; [by rewrite Hu|by apply printable_all_ascii|]. intros c Hc. rewrite printable_elem in Hp. by rewrite printable_kept by (by apply Hp).
  - destruct Hd as [->|(d & c & -> & Hc)]; [by left|right]. exists (replaceAll d [BACKSLASH] [SLASH]). rewrite replace_app. f_equal.
    destruct Hc as [-> | ->]; by vm_compute.
Qed.

Definition spare (c : ascii) : bool := existsb (ceq c) [DOT; " "%char].
(** The characters of an extension: digits, letters and hyphens. *)
Definition ext_char (c : ascii) : bool := in_range 48 57 c || in_range 97 122 c || in_range 65 90 c || in_range 45 45 c.

Lemma ext_char_facts c : ext_char c = true -> printable c = true /\ spare c = false /\ c <> SLASH /\ c <> BACKSLASH /\ c <> COLON /\ c <> DOT /\ ceq c " "%char = false.
Proof.
  unfold ext_char, in_range, printable, in_range. rewrite !orb_true_iff, !andb_true_iff, !Z.leb_le. intros Hc.
  assert (Hne : forall d, code d < 45 \/ 45 < code d < 48 \/ 57 < code d < 65 \/ 90 < code d < 97 -> c <> d) by (intros d Hd ->; lia).
  pose proof (Hne DOT ltac:(vm_compute; intuition congruence)). pose proof (Hne " "%char ltac:(vm_compute; intuition congruence)).
  split_and!; [lia|lia| |apply Hne; vm_compute; intuition congruence..|done|by apply ceq_false].
  unfold spare. cbn [existsb]. rewrite !(proj2 (ceq_false c _)) by done. done.
Qed.

(** What follows the extension: dots and spaces, and possibly an alternate stream. *)
Definition spare_tail (rest : gostring) : Prop :=
  exists junk stream, rest = junk ++ stream /\ forallb spare junk = true /\ (stream = [] \/ exists m, stream = COLON :: m).

(** A name whose extension is [ext] is judged by [ext]. *)
Lemma extension_listed stem ext rest : forallb ext_char ext = true -> ext <> [] -> spare_tail rest -> ext ∈ name_extensions (stem ++ DOT :: ext ++ rest).
Proof.
  intros He Hne (junk & stream & -> & Hj & Hstream). rewrite forallb_forall in He, Hj.
  assert (Hcolon : COLON ∉ DOT :: ext ++ junk).
  { rewrite elem_of_cons, elem_of_app, !list_elem_of_In. intros [?|[Hc|Hc]]; [done| |].
    - apply He, ext_char_facts in Hc. naive_solver.
    - apply Hj in Hc. by vm_compute in Hc. }
  destruct (split_segment COLON stem (DOT :: ext ++ junk) stream Hcolon Hstream) as [q Hq].
  unfold name_extensions. apply list_elem_of_In, in_concat. exists (tail (split DOT (trimRightSet (q ++ DOT :: ext ++ junk) [DOT; " "%char]))). split.
  - apply list_elem_of_In, list_elem_of_fmap. eexists. split; [done|]. cbn [app] in Hq. by rewrite <- app_assoc in Hq.
  - apply list_elem_of_In. destruct (exists_last Hne) as (init & c & ->).
    assert (Hc : ext_char c = true) by (apply He, in_or_app; right; by left). apply ext_char_facts in Hc as (_ & Hc & _).
    replace (q ++ DOT :: (init ++ [c]) ++ junk) with ((q ++ DOT :: init) ++ c :: junk) by (by rewrite <- !app_assoc).
    rewrite trimRightSet_app by exact Hc. rewrite trimRightSet_all; [|apply List.Forall_forall; exact Hj].
    rewrite <- app_assoc. cbn [app]. apply split_last_tail. intros Hd%list_elem_of_In%He%ext_char_facts. naive_solver.
Qed.

Lemma forallb_printable_ext ext : forallb ext_char ext = true -> forallb printable ext = true.
Proof. rewrite !forallb_forall. intros He c Hc. by apply He, ext_char_facts in Hc as (? & _). Qed.

Lemma spare_tail_trim rest : spare_tail rest -> spare_tail (trimRightSet rest [" "%char]).
Proof.
  intros (junk & stream & -> & Hj & Hs). destruct Hs as [->|[m ->]].
  - rewrite app_nil_r. destruct (trimRightSet_prefix [" "%char] junk) as [t Ht]. exists (trimRightSet junk [" "%char]), []. rewrite app_nil_r. split_and!; [done| |by left].
    rewrite Ht, forallb_app in Hj. by apply andb_true_iff in Hj as [? _].
  - rewrite trimRightSet_app by done. eexists _, _. split_and!; [done..|]. right. by eexists.
Qed.

Lemma lower_spare c : spare c = true -> lower_ascii c = c.
Proof.
  unfold spare. cbn [existsb]. rewrite orb_false_r, orb_true_iff. intros [Hc|Hc]; apply ceq_true in Hc; subst c; by vm_compute.
Qed.
Lemma spare_tail_lower rest : spare_tail rest -> spare_tail (map lower_ascii rest).
Proof.
  intros (junk & stream & -> & Hj & Hs). rewrite map_app. exists junk, (map lower_ascii stream). split_and!; [|done|].
  - f_equal. rewrite <- (map_id junk) at 2. apply map_ext_in. intros c Hc. rewrite forallb_forall in Hj. by apply lower_spare, Hj.
  - destruct Hs as [->|[m ->]]; [by left|right]. by eexists.
Qed.
Lemma lower_ext_char c : ext_char c = true -> ext_char (lower_ascii c) = true.
Proof.
  unfold ext_char, in_range, lower_ascii, lowerZ. pose proof (code_range c).
  destruct ((65 <=? code c) && (code c <=? 90)) eqn:E; rewrite code_chr by lia; rewrite !orb_true_iff, !andb_true_iff, !Z.leb_le in *; lia.
Qed.

(** A plain file name: a stem, an extension, and what follows it. *)
Record plain_name (stem ext rest : gostring) : Prop := PlainName {
  pn_printable : forallb printable (stem ++ rest) = true;
  pn_slash : SLASH ∉ stem ++ rest;
  pn_backslash : BACKSLASH ∉ stem ++ rest;
  pn_ext : forallb ext_char ext = true;
  pn_nonempty : ext <> [];
  pn_rest : spare_tail rest;
}.
Definition directory_prefix (dir : gostring) : Prop :=
  forallb is_ascii dir = true /\ (dir = [] \/ exists d c, dir = d ++ [c] /\ (c = SLASH \/ c = BACKSLASH)).

Section PlainName.
Variables stem ext rest : gostring.
Hypothesis Hname : plain_name stem ext rest.
#[local] Set Default Proof Using "All".

Lemma plain_printable : forallb printable (stem ++ DOT :: ext ++ rest) = true.
Proof.
  destruct Hname as [Hp _ _ He _ _]. rewrite forallb_app in Hp. apply andb_true_iff in Hp as [Hp1 Hp2]. rewrite forallb_app, Hp1. cbn [forallb].
  by rewrite forallb_app, Hp2, forallb_printable_ext.
Qed.
Lemma plain_without c : c ∉ stem ++ rest -> c = SLASH \/ c = BACKSLASH -> c ∉ stem ++ DOT :: ext ++ rest.
Proof.
  destruct Hname as [_ _ _ He _ _]. rewrite forallb_forall in He. intros Hn Hc. rewrite elem_of_app, elem_of_cons, elem_of_app.
  intros [?|[E|[Hx%list_elem_of_In%He%ext_char_facts|?]]]; [set_solver|subst c; by destruct Hc| |set_solver]. naive_solver.
Qed.

Lemma plain_trim : trimSpace (stem ++ DOT :: ext ++ rest) = trimLeftSet [" "%char] stem ++ DOT :: ext ++ trimRightSet rest [" "%char].
Proof.
  rewrite trimSpace_printable by apply plain_printable. destruct Hname as [_ _ _ He Hne _]. rewrite trimLeftSet_app by done.
  destruct (exists_last Hne) as (init & c & ->). rewrite forallb_forall in He. specialize (He c ltac:(apply in_or_app; right; by left)).
  apply ext_char_facts in He as (_ & _ & _ & _ & _ & _ & Hsp).
  replace (trimLeftSet [" "%char] stem ++ DOT :: (init ++ [c]) ++ rest) with ((trimLeftSet [" "%char] stem ++ DOT :: init) ++ c :: rest) by (by rewrite <- !app_assoc).
  rewrite trimRightSet_app by (cbn; by rewrite Hsp). by rewrite <- !app_assoc.
Qed.

Lemma plain_named : is_unnamed (trimSpace (stem ++ DOT :: ext ++ rest)) = false.
Proof.
  rewrite plain_trim. destruct Hname as [_ _ _ He Hne _]. destruct ext as [|c e]; [done|]. cbn [forallb] in He. apply andb_true_iff in He as [Hc _].
  apply ext_char_facts in Hc as (_ & _ & H1 & _ & _ & H2 & _). unfold is_unnamed, beq.
  assert (Hin : c ∈ trimLeftSet [" "%char] stem ++ DOT :: (c :: e) ++ trimRightSet rest [" "%char]) by set_solver.
  generalize dependent (trimLeftSet [" "%char] stem ++ DOT :: (c :: e) ++ trimRightSet rest [" "%char]). intros l Hin.
  rewrite !bool_decide_eq_false_2; [done|intros ->; set_solver..].
Qed.

(** The extensions under which the name is judged contain its own. *)
Lemma plain_extension dir : directory_prefix dir -> map lower_ascii ext ∈ name_extensions (toLower (normalizeName (dir ++ stem ++ DOT :: ext ++ rest))).
Proof.
  intros [Hda Hd]. destruct Hname as [Hp Hs Hb He Hne Hr]. rewrite normalizeName_printable; [|done|done|by apply plain_printable|by apply plain_without; auto..|apply plain_named].
  assert (Ha : forallb is_ascii (trimSpace (stem ++ DOT :: ext ++ rest)) = true).
  { apply printable_all_ascii, printable_elem. intros c Hc. pose proof plain_printable as Hpr. rewrite printable_elem in Hpr. apply Hpr.
    destruct (trimSpace_infix (stem ++ DOT :: ext ++ rest)) as (a & b & ->). set_solver. }
  rewrite toLower_ascii by done. rewrite plain_trim, map_app. cbn [map]. rewrite map_app. change (lower_ascii DOT) with DOT.
  apply extension_listed; [|by destruct ext|by apply spare_tail_lower, spare_tail_trim].
  rewrite forallb_forall in *. intros c Hc. apply in_map_iff in Hc as (d & <- & Hd'). by apply lower_ext_char, He.
Qed.
End PlainName.

Lemma New_no_empty o : [] ∉ blocked (New o).
Proof. cbn [blocked New]. rewrite elem_of_list_to_set, list_elem_of_In, filter_In. intros [_ ?]. done. Qed.
Lemma New_blocked o e : e ∈ BlockedExtensions o -> normalize_extension e <> [] -> normalize_extension e ∈ blocked (New o).
Proof.
  intros He Hn. cbn [blocked New]. rewrite elem_of_list_to_set, list_elem_of_In, filter_In. split.
  - apply list_elem_of_In, list_elem_of_fmap. by exists e.
  - unfold beq. by rewrite bool_decide_eq_false_2.
Qed.
Lemma blockedExtension_finds s filename extension : [] ∉ blocked s -> extension ∈ name_extensions (toLower (normalizeName filename)) -> extension ∈ blocked s ->
  blockedExtension s filename <> [].
Proof.
  intros Hn Hin Hb. unfold blockedExtension. destruct (List.find _ _) as [x|] eqn:E.
  - apply find_some in E as [_ E]. unfold is_blocked in E. apply bool_decide_eq_true in E. by intros ->.
  - apply list_elem_of_In in Hin. pose proof (find_none _ _ E _ Hin) as Hf. unfold is_blocked in Hf. apply bool_decide_eq_false in Hf. exact (False_ind _ (Hf Hb)).
Qed.

(** An extension of the policy is found in every spelling of a name. *)
Lemma blocked_extension_in (o : Options) (e dir stem ext rest : gostring) :
  e ∈ BlockedExtensions o -> map lower_ascii ext = normalize_extension e -> directory_prefix dir -> plain_name stem ext rest ->
  blockedExtension (New o) (dir ++ stem ++ DOT :: ext ++ rest) <> [].
Proof.
  intros He Hn Hd Hname. symmetry in Hn. apply (blockedExtension_finds _ _ (map lower_ascii ext)); [apply New_no_empty|by apply plain_extension|].
  rewrite <- Hn. apply New_blocked; [done|]. rewrite Hn. destruct Hname as [_ _ _ _ Hne _]. by destruct ext.
Qed.
End Extensions.

(** ** Normalized names contain no separator *)

Section Locations.
Context {UT : UnicodeTables} {NT : NameText}.

Lemma encode_rune_byte c r : c ∈ encode_rune r -> is_ascii c = true -> code c = r.
Proof.
  unfold is_ascii. rewrite Z.ltb_lt. intros Hin Hc. assert (Hhigh : forall x, 128 <= x < 256 -> c <> chr x) by (intros x Hx ->; rewrite code_chr in Hc; lia).
  assert (Hcont : forall x, c <> chr (128 + x mod 64)) by (intros x; apply Hhigh; pose proof (Z.mod_pos_bound x 64); lia).
  unfold encode_rune in Hin.
  destruct ((0 <=? r) && (r <? 128)) eqn:E1; [apply list_elem_of_singleton in Hin; subst c; apply code_chr; lia|]. exfalso.
  destruct ((128 <=? r) && (r <? 2048)) eqn:E2.
  { pose proof (Z.div_mod r 64). pose proof (Z.mod_pos_bound r 64). repeat (apply elem_of_cons in Hin as [Hin|Hin]); [|by eapply Hcont|by apply elem_of_nil in Hin]. eapply Hhigh, Hin. lia. }
  destruct (((2048 <=? r) && (r <? 55296)) || ((57344 <=? r) && (r <? 65536))) eqn:E3.
  { pose proof (Z.div_mod r 4096). pose proof (Z.mod_pos_bound r 4096). repeat (apply elem_of_cons in Hin as [Hin|Hin]); [|by eapply Hcont..|by apply elem_of_nil in Hin].
    eapply Hhigh, Hin. lia. }
  destruct ((65536 <=? r) && (r <? 1114112)) eqn:E4.
  { pose proof (Z.div_mod r 262144). pose proof (Z.mod_pos_bound r 262144). repeat (apply elem_of_cons in Hin as [Hin|Hin]); [|by eapply Hcont..|by apply elem_of_nil in Hin].
    eapply Hhigh, Hin. lia. }
  repeat (apply elem_of_cons in Hin as [Hin|Hin]); [(eapply Hhigh, Hin; lia)..|by apply elem_of_nil in Hin].
Qed.

(** The ASCII bytes of a string are the runes below 128. *)
Lemma rune_byte r s : r ∈ runes s -> 0 <= r < 128 -> chr r ∈ s.
Proof.
  intros Hin Hr. induction s as [s IH] using list_length_ind. destruct s as [|c s]; [by apply elem_of_nil in Hin|].
  unfold runes in Hin. rewrite rune_chunks_cons in Hin. destruct (decode_rune (c :: s)) as [r' w] eqn:E.
  pose proof (decode_rune_width (c :: s) ltac:(done)) as [Hw _]. rewrite E in Hw. cbn [snd] in Hw. cbn [fmap list_fmap rc_rune] in Hin.
  apply elem_of_cons in Hin as [->|Hin].
  - destruct (decode_rune_ascii _ _ _ _ E) as [<- _]; [lia|]. rewrite chr_code. set_solver.
  - assert (Ht : chr r ∈ drop w (c :: s)) by (apply IH; [rewrite length_drop; cbn; lia|exact Hin]). rewrite <- (take_drop w (c :: s)). set_solver.
Qed.
Lemma encoded_byte c l : c ∈ concat (encode_rune <$> l) -> is_ascii c = true -> code c ∈ l.
Proof.
  intros Hin Hc. apply list_elem_of_In, in_concat in Hin as (w & Hw & Hin). apply list_elem_of_In, list_elem_of_fmap in Hw as (r & -> & Hr).
  by rewrite (encode_rune_byte c r) by (done || by apply list_elem_of_In).
Qed.
Lemma map_runes_byte f s c : (forall r r', f r = Some r' -> r' = r) -> c ∈ map_runes f s -> is_ascii c = true -> c ∈ s.
Proof.
  intros Hf Hin Hc. unfold map_runes in Hin. apply list_elem_of_In, in_concat in Hin as (w & Hw & Hin). apply list_elem_of_In, list_elem_of_fmap in Hw as (r & -> & Hr).
  destruct (f r) as [r'|] eqn:E; [|done]. apply Hf in E as ->. pose proof (encode_rune_byte c r ltac:(by apply list_elem_of_In) Hc) as Ec.
  rewrite <- (chr_code c). apply rune_byte; [by rewrite Ec|]. unfold is_ascii in Hc. pose proof (code_range c). lia.
Qed.

Lemma path_base_clean p : SLASH ∉ path_base p \/ path_base p = [SLASH].
Proof.
  unfold path_base. destruct p as [|x y]; [left; set_solver|]. cbv zeta. set (q := trimRightSet _ _). clearbody q. clear.
  assert (Hq : SLASH ∉ match after_last SLASH q with Some rest => rest | None => q end).
  { destruct (after_last SLASH q) as [rest|] eqn:E; [by eapply after_last_clean|]. intros Hin. induction q as [|d q IH]; [by apply elem_of_nil in Hin|].
    cbn in E. destruct (after_last SLASH q); [done|]. destruct (ceq d SLASH) eqn:Ed; [done|]. apply ceq_false in Ed. set_solver. }
  change SLASH with "/"%char in *. destruct (match after_last _ q with Some rest => rest | None => q end); [by right|by left].
Qed.

Lemma normalizeName_no_slash value : SLASH ∉ normalizeName value.
Proof.
  unfold normalizeName. set (base := path_base _). destruct (path_base_clean (replaceAll (nfkc (toValidUTF8 value)) [BACKSLASH] [SLASH])) as [Hb|Hb]; fold base in Hb.
  - set (mapped := map_runes _ base). assert (Hm : SLASH ∉ mapped).
    { intros Hin. apply Hb. eapply map_runes_byte; [|exact Hin|done]. intros r r'. cbv beta. destruct (ignorable_rune r); [discriminate|by intros [= ->]]. }
    destruct (is_unnamed (trimSpace mapped)); [by vm_compute; set_solver|]. intros Hin. apply Hm. destruct (trimSpace_infix mapped) as (a & b & ->). set_solver.
  - rewrite Hb. replace (is_unnamed _) with true; [vm_compute; set_solver|]. unfold map_runes. change (runes [SLASH]) with [47]. cbn [fmap list_fmap].
    destruct (ignorable_rune 47); by vm_compute.
Qed.
Lemma normalizeName_nonempty value : normalizeName value <> [].
Proof. unfold normalizeName. destruct (is_unnamed _) eqn:E; [done|]. intros Hn. by rewrite Hn in E. Qed.

Lemma cleanName_no_slash value : SLASH ∉ cleanName value.
Proof.
  unfold cleanName. destruct (_ <? _)%nat; [|apply normalizeName_no_slash]. unfold first_runes. intros Hin. apply (normalizeName_no_slash value).
  apply encoded_byte in Hin; [|done]. rewrite <- (chr_code SLASH). apply rune_byte; [|by vm_compute]. by apply elem_of_take in Hin as (i & Hi & _); apply list_elem_of_lookup_2 in Hi.
Qed.
Lemma cleanName_nonempty value : cleanName value <> [].
Proof.
  unfold cleanName. destruct (Nat.ltb_spec 255 (runeCount (normalizeName value))) as [Hl|]; [|apply normalizeName_nonempty].
  rewrite runeCount_runes in Hl. unfold first_runes. destruct (runes (normalizeName value)) as [|r l]; [cbn in Hl; lia|].
  assert (He : encode_rune r <> []) by (unfold encode_rune; repeat case_match; done). cbn [take fmap list_fmap concat]. by destruct (encode_rune r).
Qed.

(** a name inside a message or an archive cannot forge the location that is
    reported for it: the last component of the reported path is exactly the
    cleaned name, which is never empty and contains no separator. *)
Theorem entry_location_honest (parent child : gostring) :
  after_last SLASH (joinLocation parent child) = Some (cleanName child) /\ cleanName child <> [] /\
  (after_last SLASH (replaceLocationBase parent child) = Some (cleanName child) \/ replaceLocationBase parent child = cleanName child).
Proof.
  split; [apply after_last_app, cleanName_no_slash|]. split; [apply cleanName_nonempty|].
  unfold replaceLocationBase. cbv zeta. destruct (after_last SLASH (cleanLocation parent)) as [rest|] eqn:E; [left|by right].
  apply after_last_Some in E as [p ->]. replace (length (p ++ SLASH :: rest) - length rest)%nat with (length (p ++ [SLASH])) by (rewrite !length_app; cbn; lia).
  replace (p ++ SLASH :: rest) with ((p ++ [SLASH]) ++ rest) by (by rewrite <- app_assoc). rewrite take_app_length, <- app_assoc. apply after_last_app, cleanName_no_slash.
Qed.
End Locations.

(** ** A simple library, for evaluation *)

Definition parse_parameter (p : gostring) : gostring * gostring :=
  let '(k, v, _) := cut_pair "="%char p in (map lower_ascii (trimSpace k), trimSpace v).
Definition simple_media_type (header : gostring) : goerror + gostring * list (gostring * gostring) :=
  match split SEMICOLON header with
  | [] | [[]] => inl (ErrText (lit "mime: no media type"))
  | t :: params => inr (map lower_ascii (trimSpace t), parse_parameter <$> params)
  end.
Definition plain_names : NameText := {|
  nfkc s := s; is_format_rune r := bool_decide (r = 0xad); html_encoding label := if beq label (lit "utf-8") then Some (λ r, r) else None;
  ParseMediaType := simple_media_type; DecodeHeader _ value := inr value; quote s := DOUBLE_QUOTE :: s ++ [DOUBLE_QUOTE] |}.
Definition plain_names_ok : @PlainNames plain_names.
Proof. split; [done|]. intros r Hr. cbn. apply bool_decide_eq_false. lia. Qed.

Definition sample_options : Options := MkOptions [lit "exe"; lit ".JS"; lit "rar"] true true 1000 2 10 5000.
