(* ===== verification/Scanner.v ===== *)
(** * The attachment scanner (internal/attachment/scanner.go)

    [ScanContext] walks the MIME structure of a message, decodes every leaf and
    looks into archives.  The budgets of one message are the state of the monad
    [SM]; the recursion over MIME entities and over archives is bounded by the
    depth limits of the code, and the fuel of [scanMIME] and [scanFile] is one
    more than those limits.  [VStuck] stands for a read outside the data or for
    exhausted fuel; ScannerSpec.v proves that it cannot happen.

    The decoders of the Go library (multipart, net/mail, archive/zip, archive/tar,
    gzip, bzip2, flate, base64, quoted-printable) are the class [Readers]: each
    gives the content it finds in the data and what ended it.

    An ended context is seen at [state.check], whose answers are [checks] of
    ZipLimits.v, and inside reads, whose answers are [reads]: [Some n] says that
    the context ended after [n] bytes.  Any answers are possible. *)
From S2P Require Import Prelude GoText ZipLimits Calendar ScanNames.
Open Scope Z_scope.

Definition maxMIMEDepth : Z := 16.

(** ** Content readers *)

Abbreviation headers := (list (gostring * gostring)).
(** [Header.Get] *)
Definition header_get (h : headers) (key : gostring) : gostring := default [] (assoc_get key h).

Record part := MkPart { p_header : headers; p_body : source }.
Record zip_file := MkZipFile { z_name : gostring; z_dir : bool; z_flags : Z; z_size : Z; z_open : goerror + source }.
Record tar_entry := MkTarEntry { t_name : gostring; t_regular : bool; t_size : Z; t_body : source }.

Class Readers := {
  (** [multipart.NewReader] and [NextPart]: the parts, and the error after them *)
  multipart_parts : gostring -> gostring -> list part * option goerror;
  (** [mail.ReadMessage] *)
  ReadMessage : gostring -> goerror + headers * source;
  (** [zip.NewReader] *)
  zip_NewReader : gostring -> goerror + list zip_file;
  (** [tar.NewReader] and [Next] *)
  tar_entries : gostring -> list tar_entry * option goerror;
  (** [gzip.NewReader]: the stored name and the content *)
  gzip_NewReader : gostring -> goerror + gostring * source;
  bzip2_reader : gostring -> source;
  flate_reader : gostring -> source;
  base64_decoder : gostring -> source;
  quotedprintable_reader : gostring -> source;
}.

(** ** State and results *)

Record scanning := MkScanning { zstate : scanState; archiveBytes : Z; reads : list (option nat) }.

Inductive verdict :=
  | VClean
  | VFound (finding : Finding)
  | VError (err : goerror)
  | VStuck.

Definition SM (A : Type) : Type := scanning -> A * scanning.
Definition sret {A} (a : A) : SM A := λ st, (a, st).
Definition sbind {A B} (m : SM A) (k : A -> SM B) : SM B := λ st, let '(a, st) := m st in k a st.
Declare Scope scan_scope.
Delimit Scope scan_scope with scan.
Notation "'let!' x := m 'in' k" := (sbind m (λ x, k)) (at level 200, x binder, m at level 100, k at level 200, right associativity) : scan_scope.
Open Scope scan_scope.

(** [select] on the context *)
Definition ctx_done : SM bool := λ st,
  match checks (zstate st) with
  | [] => (false, st)
  | answer :: rest => (answer, MkScanning (MkScanState (archiveFiles (zstate st)) (zipMetadataBytes (zstate st)) rest) (archiveBytes st) (reads st))
  end.
(** The context during one reading operation. *)
Definition read_answer : SM (option nat) := λ st,
  match reads st with
  | [] => (None, st)
  | answer :: rest => (answer, MkScanning (zstate st) (archiveBytes st) rest)
  end.

(** A reader behind a [contextReader]. *)
Definition contextReader (reader : source) : SM source :=
  let! answer := read_answer in
  sret match answer with None => reader | Some n => Source (take n (src_bytes reader)) (Some CtxErr) end.

(** [io.ReadAll] of an [io.LimitedReader], then one more byte. *)
Definition read_bounded (limit : Z) (oversize : goerror) (reader : source) : gostring * option goerror :=
  if (Z.to_nat limit <? length (src_bytes reader))%nat then (take (Z.to_nat limit) (src_bytes reader), Some oversize)
  else (src_bytes reader, src_fault reader).

Definition readLimited (reader : source) (limit : Z) : gostring * option goerror :=
  if limit <? 1 then ([], Some (ErrText (lit "invalid attachment size limit")))
  else read_bounded limit (ErrText (lit "attachment size limit exceeded")) reader.

(** uint64(x) *)
Definition to_u64 (x : Z) : Z := x mod 2 ^ 64.

Section Scan.
Context `{UnicodeTables, NameText, Readers}.
Variable s : Scanner.

Definition state_check (location : gostring) : SM (option goerror) :=
  let! done := ctx_done in sret (if done then Some (ErrScan (cleanLocation location) false false CtxErr) else None).
Definition checked (location : gostring) (k : SM verdict) : SM verdict :=
  let! c := state_check location in match c with Some err => sret (VError err) | None => k end.

Definition fail_at (path : gostring) (err : goerror) : SM verdict := sret (VError (ErrScan path false false err)).
Definition malformed_at (path : gostring) (err : goerror) : SM verdict := sret (VError (ErrScan path false true err)).
Definition found_at (path detection : gostring) : SM verdict := sret (VFound (MkFinding path detection)).
Definition blocked_detection (extension : gostring) : gostring := lit "blocked extension ." ++ extension.

(** The checks that several functions make before they go on. *)
Definition extension_guard (name path : gostring) (k : SM verdict) : SM verdict :=
  let extension := blockedExtension s name in
  if negb (beq extension []) then found_at path (blocked_detection extension) else k.
Definition signature_guard (data path : gostring) (k : SM verdict) : SM verdict :=
  if InspectSignatures (options s) then
    let signature := prohibitedSignature s data in
    if negb (beq signature []) then found_at path signature else k
  else k.

(** ** Budgets *)

Definition checkArchiveFileSize (declaredSize : Z) (st : scanning) : option goerror :=
  if to_u64 (MaxAttachmentBytes (options s)) <? declaredSize then Some (ErrText (lit "archive entry size limit exceeded"))
  else
    let remaining := MaxArchiveUncompressedBytes (options s) - archiveBytes st in
    if (remaining <? 0) || (to_u64 remaining <? declaredSize) then Some (ErrText (lit "archive uncompressed-size limit exceeded")) else None.
Definition check_size (declaredSize : Z) : SM (option goerror) := λ st, (checkArchiveFileSize declaredSize st, st).

Definition beginArchiveFile (declaredSize : Z) : SM (option goerror) := λ st,
  if MaxArchiveFiles (options s) <=? archiveFiles (zstate st) then (Some (ErrText (lit "archive file-count limit exceeded")), st)
  else
    match checkArchiveFileSize declaredSize st with
    | Some err => (Some err, st)
    | None => (None, MkScanning (MkScanState (archiveFiles (zstate st) + 1) (zipMetadataBytes (zstate st)) (checks (zstate st))) (archiveBytes st) (reads st))
    end.

Definition get_archiveBytes : SM Z := λ st, (archiveBytes st, st).
Definition add_archiveBytes (n : Z) : SM unit := λ st, (tt, MkScanning (zstate st) (archiveBytes st + n) (reads st)).

(** The bytes read, and the error. *)
Definition readArchiveEntry (reader : source) : SM (gostring * option goerror) :=
  let! c := state_check (lit "archive entry") in
  match c with
  | Some err => sret ([], Some err)
  | None =>
      let! used := get_archiveBytes in
      let remaining := MaxArchiveUncompressedBytes (options s) - used in
      let exceeded := ErrText (lit "archive uncompressed-size limit exceeded") in
      if remaining <=? 0 then sret ([], Some exceeded)
      else
        let limit := Z.min (MaxAttachmentBytes (options s)) remaining in
        let oversize := if remaining <=? MaxAttachmentBytes (options s) then exceeded else ErrText (lit "archive entry size limit exceeded") in
        let! reader := contextReader reader in
        let r := read_bounded limit oversize reader in
        let! _ := add_archiveBytes (go_len r.1) in
        sret r
  end.

(** The reader that the encoding selects; [None] is an unsupported one. *)
Definition transfer_reader (encoding data : gostring) : option source :=
  let name := toLower (trimSpace encoding) in
  if beq name (lit "base64") then Some (base64_decoder data)
  else if beq name (lit "quoted-printable") then Some (quotedprintable_reader data)
  else if beq name [] || beq name (lit "7bit") || beq name (lit "8bit") || beq name (lit "binary") then Some (Source data None)
  else None.
Definition decodeTransferStrict (encoding data : gostring) (limit : Z) : SM (gostring * option goerror) :=
  match transfer_reader encoding data with
  | None => sret ([], Some (ErrText (lit "unsupported content-transfer-encoding " ++ quote encoding)))
  | Some reader => let! reader := contextReader reader in sret (readLimited reader limit)
  end.

(** ** Archives

    [inner] is [scanFile] one level deeper: location, name, media type, data, depth. *)
Definition file_scan : Type := gostring -> gostring -> gostring -> gostring -> Z -> SM verdict.
Definition octet_stream : gostring := lit "application/octet-stream".

Section Archives.
Variable inner : file_scan.

(** The code that follows a nested scan whose result may already be final. *)
Definition unless_final (m : SM verdict) (k : SM verdict) : SM verdict :=
  let! v := m in match v with VClean => k | _ => sret v end.
(** A nested scan of which only a finding counts. *)
Definition unless_found (m : SM verdict) (k : SM verdict) : SM verdict :=
  let! v := m in match v with VFound _ | VStuck => sret v | _ => k end.

(** [file.Open] reads through a [zipContextReaderAt]. *)
Definition open_entry (file : zip_file) : SM (goerror + source) :=
  let! answer := read_answer in
  sret match answer with None => z_open file | Some _ => inl (ErrScan (cleanLocation (lit "ZIP archive")) false false CtxErr) end.

Fixpoint scan_zip_files (location : gostring) (archiveDepth : Z) (files : list zip_file) : SM verdict :=
  match files with
  | [] => sret VClean
  | file :: files =>
      checked location (
      if z_dir file then scan_zip_files location archiveDepth files
      else
        let entryLocation := joinLocation location (z_name file) in
        if Z.odd (z_flags file) then sret (VError (ErrScan entryLocation true false (ErrText (lit "encrypted archive entry cannot be inspected"))))
        else extension_guard (z_name file) entryLocation (
          let! size := check_size (z_size file) in
          match size with
          | Some err => fail_at entryLocation err
          | None =>
              let! opened := open_entry file in
              match opened with
              | inl err => fail_at entryLocation (ErrWrap (lit "cannot open ZIP entry: ") err)
              | inr entry =>
                  let! r := readArchiveEntry entry in
                  signature_guard r.1 entryLocation (
                  match r.2 with
                  | Some err => fail_at entryLocation err
                  | None => unless_final (inner entryLocation (z_name file) octet_stream r.1 archiveDepth) (scan_zip_files location archiveDepth files)
                  end)
              end
          end))
  end.

(** Reads and slices of [data]; [None] is a panic. *)
Definition le_read (n : nat) (data : gostring) (p : Z) : option Z :=
  if (0 <=? p) && (p + Z.of_nat n <=? go_len data) then Some (le_at n data p) else None.
Definition slice (data : gostring) (a b : Z) : option gostring :=
  if (0 <=? a) && (a <=? b) && (b <=? go_len data) then Some (take (Z.to_nat (b - a)) (drop (Z.to_nat a) data)) else None.
Notation "'need' x := o 'in' k" := (match o with Some x => k | None => sret VStuck end) (at level 200, x binder, o at level 100, k at level 200, right associativity).

Definition local_signature : Z := 0x04034b50.
Definition localHeaderBytes : Z := 30.

(** What a local header says. *)
Record local_header := MkLocalHeader { lh_flags : Z; lh_method : Z; lh_compressed : Z; lh_uncompressed : Z; lh_name : Z; lh_extra : Z }.
Definition read_local_header (data : gostring) (offset : Z) : option local_header :=
  match le_read 2 data (offset + 6), le_read 2 data (offset + 8), le_read 4 data (offset + 18), le_read 4 data (offset + 22),
        le_read 2 data (offset + 26), le_read 2 data (offset + 28) with
  | Some f, Some m, Some c, Some u, Some n, Some e => Some (MkLocalHeader f m c u n e)
  | _, _, _, _, _, _ => None
  end.

(** The content of one entry: what can be read of it is scanned, and only a
    complete entry lets the loop go on. *)
Definition scan_partial_content (name entryLocation : gostring) (archiveDepth : Z) (incomplete : bool) (advance : SM verdict) (reader : source) : SM verdict :=
  let! r := readArchiveEntry reader in
  signature_guard r.1 entryLocation (
  let rest :=
    if (match r.2 with Some _ => true | None => false end) || incomplete
    then fail_at entryLocation (default (ErrText (lit "incomplete ZIP entry")) r.2)
    else advance in
  if InspectArchives (options s) && match archiveFormat name octet_stream r.1 with Some _ => true | None => false end
  then unless_found (inner entryLocation name octet_stream r.1 archiveDepth) rest
  else rest).

(** One entry; [advance] is the rest of the loop. *)
Definition scan_partial_entry (location data : gostring) (archiveDepth offset : Z) (h : local_header) (advance : Z -> SM verdict) : SM verdict :=
  let dataStart := offset + localHeaderBytes + lh_name h + lh_extra h in
  if (lh_name h <? 0) || (lh_extra h <? 0) || (dataStart <? offset) || (go_len data <? dataStart)
  then fail_at (cleanLocation location) (ErrText (lit "invalid partial ZIP entry header"))
  else
    need name := slice data (offset + localHeaderBytes) (offset + localHeaderBytes + lh_name h) in
    let entryLocation := joinLocation location name in
    if Z.odd (lh_flags h) then sret (VError (ErrScan entryLocation true false (ErrText (lit "encrypted archive entry cannot be inspected"))))
    else extension_guard name entryLocation (
      let! begun := beginArchiveFile (lh_uncompressed h) in
      match begun with
      | Some err => fail_at entryLocation err
      | None =>
          let whole := lh_compressed h <=? go_len data - dataStart in
          let availableEnd := if (0 <? lh_compressed h) && whole then dataStart + lh_compressed h else go_len data in
          need compressed := slice data dataStart availableEnd in
          let incomplete := (lh_compressed h =? 0) || negb whole || Z.testbit (lh_flags h) 3 in
          let read := scan_partial_content name entryLocation archiveDepth incomplete (advance (dataStart + lh_compressed h)) in
          if lh_method h =? 0 then read (Source compressed None)
          else if lh_method h =? 8 then read (flate_reader compressed)
          else fail_at entryLocation (ErrText (lit "unsupported ZIP compression method " ++ itoa (lh_method h)))
      end).

(** The loop; every turn moves on by at least [localHeaderBytes]. *)
Fixpoint scan_partial (turns : nat) (location data : gostring) (archiveDepth offset : Z) : SM verdict :=
  match turns with
  | O => sret VStuck
  | S turns =>
      let stop := fail_at (cleanLocation location) (ErrText (lit "incomplete ZIP archive")) in
      if offset + localHeaderBytes <=? go_len data then
        need signature := le_read 4 data offset in
        if signature =? local_signature then
          checked location (
          need h := read_local_header data offset in
          scan_partial_entry location data archiveDepth offset h (scan_partial turns location data archiveDepth))
        else stop
      else stop
  end.

Definition scanPartialZIP (location data : gostring) (archiveDepth : Z) : SM verdict :=
  checked location (
  if go_len data <? localHeaderBytes then sret VClean
  else
    need signature := le_read 4 data 0 in
    if negb (signature =? local_signature) then sret VClean
    else scan_partial (S (length data)) location data archiveDepth 0).

Definition zip_goerror (e : zip_error) : goerror :=
  match e with
  | ZipFormat => ErrFormat
  | ZipFileCount => ErrText (lit "archive file-count limit exceeded")
  | ZipMetadataLimit => ErrText (lit "ZIP metadata size limit exceeded")
  | ZipInterrupted | ZipPanic => ErrScan (cleanLocation (lit "ZIP directory")) false false CtxErr
  end.
Definition admit_directory (data : gostring) : SM (zip_error + unit) := λ st,
  let '(r, z) := admitZIPDirectory (MaxArchiveFiles (options s)) data (zstate st) in (r, MkScanning z (archiveBytes st) (reads st)).
(** [zip.NewReader] reads through a [zipContextReaderAt]. *)
Definition open_zip (data : gostring) : SM (goerror + list zip_file) :=
  let! answer := read_answer in
  sret match answer with None => zip_NewReader data | Some _ => inl (ErrScan (cleanLocation (lit "ZIP archive")) false false CtxErr) end.

(** An archive that archive/zip does not accept. *)
Definition scan_invalid_zip (location data : gostring) (archiveDepth : Z) (err : goerror) : SM verdict :=
  checked location (
  unless_final (scanPartialZIP location data archiveDepth) (fail_at (cleanLocation location) (ErrWrap (lit "invalid ZIP archive: ") err))).
Definition scanZIP (location data : gostring) (archiveDepth : Z) : SM verdict :=
  checked location (
  let! admitted := admit_directory data in
  match admitted with
  | inl ZipPanic => sret VStuck
  | inl ZipFormat => scan_invalid_zip location data archiveDepth ErrFormat
  | inl e => fail_at (cleanLocation location) (zip_goerror e)
  | inr _ =>
      let! opened := open_zip data in
      match opened with
      | inl err => scan_invalid_zip location data archiveDepth err
      | inr files => scan_zip_files location archiveDepth files
      end
  end).

Fixpoint scan_tar_entries (location : gostring) (archiveDepth : Z) (entries : list tar_entry) (final : option goerror) : SM verdict :=
  checked location (
  match entries with
  | [] => match final with None => sret VClean | Some err => fail_at (cleanLocation location) (ErrWrap (lit "invalid TAR archive: ") err) end
  | entry :: entries =>
      if negb (t_regular entry) then scan_tar_entries location archiveDepth entries final
      else
        let entryLocation := joinLocation location (t_name entry) in
        if t_size entry <? 0 then fail_at entryLocation (ErrText (lit "invalid negative archive entry size"))
        else
          let! begun := beginArchiveFile (to_u64 (t_size entry)) in
          match begun with
          | Some err => fail_at entryLocation err
          | None => extension_guard (t_name entry) entryLocation (
              let! r := readArchiveEntry (t_body entry) in
              signature_guard r.1 entryLocation (
              match r.2 with
              | Some err => fail_at entryLocation err
              | None => unless_final (inner entryLocation (t_name entry) octet_stream r.1 archiveDepth) (scan_tar_entries location archiveDepth entries final)
              end))
          end
  end).
Definition scanTAR (location data : gostring) (archiveDepth : Z) : SM verdict :=
  let '(entries, final) := tar_entries data in scan_tar_entries location archiveDepth entries final.

(** A compressed file: one entry of the budget, then its content. *)
Definition scan_compressed (location innerName : gostring) (reader : source) (archiveDepth : Z) : SM verdict :=
  let! begun := beginArchiveFile 0 in
  match begun with
  | Some err => fail_at (cleanLocation location) err
  | None =>
      let! r := readArchiveEntry reader in
      match r.2 with
      | Some err => fail_at (cleanLocation location) err
      | None => inner (joinLocation location innerName) innerName octet_stream r.1 archiveDepth
      end
  end.
Definition gzip_inner_name (storedName filename : gostring) : gostring :=
  if negb (beq (trimSpace storedName) []) then normalizeName (trimSpace storedName) else stripCompressionExtension filename [lit ".gz"; lit ".gzip"].

Definition scanFile_body (location filename mediaType data : gostring) (archiveDepth : Z) : SM verdict :=
  checked location (
  extension_guard filename (cleanLocation location) (
  signature_guard data (cleanLocation location) (
  if negb (InspectArchives (options s)) then sret VClean
  else
    match archiveFormat filename mediaType data with
    | None => sret VClean
    | Some format =>
        if MaxArchiveDepth (options s) <=? archiveDepth then fail_at (cleanLocation location) (ErrText (lit "archive nesting limit exceeded"))
        else
          match format with
          | FmtZIP => scanZIP location data (archiveDepth + 1)
          | FmtTAR => scanTAR location data (archiveDepth + 1)
          | FmtGZIP =>
              match gzip_NewReader data with
              | inl err => fail_at (cleanLocation location) (ErrWrap (lit "invalid gzip archive: ") err)
              | inr (storedName, reader) => scan_compressed location (gzip_inner_name storedName filename) reader (archiveDepth + 1)
              end
          | FmtBZIP2 => scan_compressed location (stripCompressionExtension filename [lit ".bz2"; lit ".bzip2"]) (bzip2_reader data) (archiveDepth + 1)
          end
    end))).
End Archives.

Fixpoint scan_file (fuel : nat) : file_scan :=
  match fuel with O => λ _ _ _ _ _, sret VStuck | S fuel => scanFile_body (scan_file fuel) end.
(** Archives are entered at depths below [MaxArchiveDepth]. *)
Definition scanFile : file_scan := scan_file (S (Z.to_nat (MaxArchiveDepth (options s)))).

(** ** MIME structure

    [inner] is [scanMIME] one level deeper: content type, transfer encoding,
    disposition, data, location, depth. *)
Definition mime_scan : Type := gostring -> gostring -> gostring -> gostring -> gostring -> Z -> SM verdict.

Section Entities.
Variable inner : mime_scan.

Definition scanRFC822 (data location : gostring) (mimeDepth : Z) : SM verdict :=
  checked location (
  if maxMIMEDepth <=? mimeDepth then fail_at location (ErrText (lit "attached-message nesting limit exceeded"))
  else
    match ReadMessage data with
    | inl err => malformed_at location (ErrWrap (lit "invalid attached email: ") err)
    | inr (header, body) =>
        let! body := contextReader body in
        match src_fault body with
        | Some err => fail_at location (ErrWrap (lit "cannot read attached email: ") err)
        | None => inner (header_get header (lit "Content-Type")) (header_get header (lit "Content-Transfer-Encoding"))
                    (header_get header (lit "Content-Disposition")) (src_bytes body) location (mimeDepth + 1)
        end
    end).

Definition part_content_type (mediaType : gostring) (h : headers) : gostring :=
  let contentType := header_get h (lit "Content-Type") in
  if beq mediaType (lit "multipart/digest") && beq (trimSpace contentType) [] then lit "message/rfc822" else contentType.
Definition part_location (location : gostring) (index : Z) (contentDisposition contentType : gostring) : gostring :=
  match attachmentFilename contentDisposition contentType with
  | inr ((_ :: _) as filename) => joinLocation location filename
  | _ => location ++ lit "/part-" ++ itoa index
  end.

(** The loop over the parts; the first error is kept while later parts are scanned. *)
Fixpoint scan_parts (mediaType location : gostring) (mimeDepth index : Z) (parts : list part) (final : option goerror) (firstError : option goerror)
    : SM verdict :=
  checked location (
  match parts with
  | [] =>
      match firstError, final with
      | Some err, _ => sret (VError err)
      | None, None => sret VClean
      | None, Some err => malformed_at location (ErrWrap (lit "cannot read MIME part: ") err)
      end
  | p :: parts =>
      let! body := contextReader (p_body p) in
      let contentType := part_content_type mediaType (p_header p) in
      let disposition := header_get (p_header p) (lit "Content-Disposition") in
      let partLocation := part_location location index disposition contentType in
      let! v := inner contentType (header_get (p_header p) (lit "Content-Transfer-Encoding")) disposition (src_bytes body) partLocation (mimeDepth + 1) in
      match v with
      | VFound _ | VStuck => sret v
      | _ =>
          let firstError := match firstError, v with Some err, _ => Some err | None, VError err => Some err | None, _ => None end in
          let firstError := match firstError, src_fault body with Some err, _ => Some err | None, Some err => Some (ErrScan partLocation false false err) | None, None => None end in
          scan_parts mediaType location mimeDepth (index + 1) parts final firstError
      end
  end).

Definition is_message (mediaType filename : gostring) : bool := beq mediaType (lit "message/rfc822") || hasSuffix (toLower filename) (lit ".eml").
Definition is_text (mediaType : gostring) : bool := beq mediaType (lit "text/plain") || beq mediaType (lit "text/html").

(** Content that could not be decoded completely. *)
Definition scan_undecoded (location filename mediaType decoded : gostring) (mimeDepth : Z) (err : goerror) : SM verdict :=
  signature_guard decoded (cleanLocation location) (
  unless_final (if is_message mediaType filename then scanRFC822 decoded location mimeDepth else sret VClean) (
  unless_found (if InspectArchives (options s) && match archiveFormat filename mediaType decoded with Some _ => true | None => false end
                then scanFile location filename mediaType decoded 0 else sret VClean) (
  fail_at location err))).

(** A leaf: everything but a multipart. *)
Definition scan_leaf (contentType transferEncoding contentDisposition data location : gostring) (mimeDepth : Z) (mediaType : gostring) : SM verdict :=
  match attachmentFilename contentDisposition contentType with
  | inl err => malformed_at (cleanLocation location) err
  | inr filename =>
      let named := negb (beq filename []) in
      let location := if named then replaceLocationBase location filename else location in
      (if named then extension_guard filename (cleanLocation location) else λ k, k) (
      let! r := decodeTransferStrict transferEncoding data (MaxAttachmentBytes (options s)) in
      match r.2 with
      | Some err => scan_undecoded location filename mediaType r.1 mimeDepth err
      | None =>
          if negb named && is_text mediaType then
            if ((0 <? mimeDepth) && beq (trimSpace contentType) []) || explicitAttachment contentDisposition || ((0 <? mimeDepth) && disguisedBinaryContent s r.1)
            then scanFile location [] mediaType r.1 0
            else sret VClean
          else if is_message mediaType filename then scanRFC822 r.1 location mimeDepth
          else scanFile location filename mediaType r.1 0
      end)
  end.

(** The media type and the parameters of an entity. *)
Definition entity_type (contentType : gostring) : goerror + gostring * list (gostring * gostring) :=
  if beq (trimSpace contentType) [] then inr (lit "text/plain", [])
  else
    match ParseMediaType contentType with
    | inl err => inl (ErrWrap (lit "invalid Content-Type: ") err)
    | inr (mediaType, params) => if beq mediaType [] then inl (ErrText (lit "empty Content-Type")) else inr (toLower mediaType, params)
    end.

Definition scanMIME_body : mime_scan := λ contentType transferEncoding contentDisposition data location mimeDepth,
  checked location (
  if maxMIMEDepth <=? mimeDepth then fail_at location (ErrText (lit "MIME nesting limit exceeded"))
  else
    match entity_type contentType with
    | inl err => malformed_at location err
    | inr (mediaType, params) =>
        if hasPrefix mediaType (lit "multipart/") then
          let boundary := default [] (assoc_get (lit "boundary") params) in
          if beq boundary [] then malformed_at location (ErrText (lit "multipart content has no boundary"))
          else
            let '(parts, final) := multipart_parts boundary data in
            scan_parts mediaType location mimeDepth 1 parts final None
        else scan_leaf contentType transferEncoding contentDisposition data location mimeDepth mediaType
    end).
End Entities.

Fixpoint scan_mime (fuel : nat) : mime_scan :=
  match fuel with O => λ _ _ _ _ _ _, sret VStuck | S fuel => scanMIME_body (scan_mime fuel) end.
Definition scanMIME : mime_scan := scan_mime (S (Z.to_nat maxMIMEDepth)).

(** [answers] and [interruptions] are what the context says; a background context never ends. *)
Definition ScanContext (answers : list bool) (interruptions : list (option nat)) (contentType transferEncoding contentDisposition body : gostring)
    : verdict * scanning :=
  scanMIME contentType transferEncoding contentDisposition body (lit "message") 0 (MkScanning (MkScanState 0 0 answers) 0 interruptions).
Definition Scan (contentType transferEncoding contentDisposition body : gostring) : verdict * scanning :=
  ScanContext [] [] contentType transferEncoding contentDisposition body.
End Scan.
