(* ===== verification/ScannerSpec.v ===== *)
(** * What a clean scan means

    Every function of Scanner.v is specified once: whatever the data, the
    decoders and the context do, it keeps the budgets of the message, it neither
    reads outside the data nor runs out of fuel, a finding names a rule of the
    policy, and a clean result means that everything inside was inspected. *)
From S2P Require Import Prelude GoText ZipLimits Calendar ScanNames Scanner.
Open Scope Z_scope.

(** ** Budgets and specifications of scans *)

Record budget (s : Scanner) (st : scanning) : Prop := Budget {
  bu_files : 0 <= archiveFiles (zstate st) <= MaxArchiveFiles (options s);
  bu_metadata : 0 <= zipMetadataBytes (zstate st) <= maxZIPMetadataBytes;
  bu_bytes : 0 <= archiveBytes st <= MaxArchiveUncompressedBytes (options s);
}.

(** A context that never ends. *)
Definition quiet (st : scanning) : Prop := checks (zstate st) = [] /\ reads st = [].

(** From any state within the budget, the budget holds afterwards, a context
    that never ends stays so, and the result satisfies [P]. *)
Definition sspec (s : Scanner) {A} (m : SM A) (P : A -> Prop) : Prop :=
  forall st, budget s st -> budget s (m st).2 /\ (quiet st -> quiet (m st).2) /\ P (m st).1.

Lemma sspec_ret s {A} (a : A) (P : A -> Prop) : P a -> sspec s (sret a) P.
Proof. by intros Ha st Hst. Qed.
Lemma sspec_bind s {A B} (m : SM A) (k : A -> SM B) (Q : A -> Prop) (P : B -> Prop) :
  sspec s m Q -> (forall a, Q a -> sspec s (k a) P) -> sspec s (sbind m k) P.
Proof.
  intros Hm Hk st Hst. unfold sbind. specialize (Hm st Hst). destruct (m st) as [a st']. cbn [fst snd] in Hm. destruct Hm as (Hb & Hq & Ha).
  destruct (Hk a Ha st' Hb) as (? & ? & ?). auto.
Qed.
Lemma sspec_weaken s {A} (m : SM A) (Q P : A -> Prop) : sspec s m Q -> (forall a, Q a -> P a) -> sspec s m P.
Proof. intros Hm HP st Hst. destruct (Hm st Hst) as (? & ? & ?). auto. Qed.

Lemma budget_view s st st' : archiveFiles (zstate st') = archiveFiles (zstate st) -> zipMetadataBytes (zstate st') = zipMetadataBytes (zstate st) ->
  archiveBytes st' = archiveBytes st -> budget s st -> budget s st'.
Proof. intros E1 E2 E3 [H1 H2 H3]. split; congruence. Qed.

Lemma ctx_done_spec s : sspec s ctx_done (λ _, True).
Proof.
  intros st Hst. unfold ctx_done, quiet. destruct (checks (zstate st)) eqn:E; [by split_and!; [|cbn; intuition|]|].
  split_and!; [by eapply budget_view; [..|exact Hst]|by intros [? ?]|done].
Qed.
Lemma read_answer_spec s : sspec s read_answer (λ _, True).
Proof.
  intros st Hst. unfold read_answer, quiet. destruct (reads st) eqn:E; [by split_and!; [|cbn; intuition|]|].
  split_and!; [by eapply budget_view; [..|exact Hst]|by intros [? ?]|done].
Qed.

(** A read that the context did not disturb gives what the reader has. *)
Lemma contextReader_spec s reader : sspec s (contextReader reader) (λ r, src_fault r = None -> r = reader).
Proof. unfold contextReader. eapply sspec_bind; [apply read_answer_spec|]. intros [n|] _; by apply sspec_ret. Qed.

Lemma read_bounded_complete limit oversize reader r : read_bounded limit oversize reader = r -> r.2 = None ->
  r.1 = src_bytes reader /\ src_fault reader = None /\ go_len r.1 <= Z.max 0 limit.
Proof.
  unfold read_bounded, go_len. destruct (Nat.ltb_spec (Z.to_nat limit) (length (src_bytes reader))); intros <- Hn; [done|]. cbn [fst snd] in *. split_and!; [done..|lia].
Qed.
Lemma read_bounded_length limit oversize reader : go_len (read_bounded limit oversize reader).1 <= Z.max 0 limit.
Proof. unfold read_bounded, go_len. destruct (Nat.ltb_spec (Z.to_nat limit) (length (src_bytes reader))); cbn [fst]; rewrite ?length_take; lia. Qed.

Section Spec.
Context {UT : UnicodeTables} {NT : NameText} {RD : Readers}.
Variable s : Scanner.

(** ** Content of archives *)

Record content := MkContent { c_name : gostring; c_type : gostring; c_data : gostring }.

(** [member f g]: [f] is taken for an archive, and the decoders find [g] in it. *)
Inductive member : content -> content -> Prop :=
  | member_zip f files e src : archiveFormat (c_name f) (c_type f) (c_data f) = Some FmtZIP -> zip_NewReader (c_data f) = inr files ->
      e ∈ files -> z_dir e = false -> z_open e = inr src -> member f (MkContent (z_name e) octet_stream (src_bytes src))
  | member_tar f e : archiveFormat (c_name f) (c_type f) (c_data f) = Some FmtTAR -> e ∈ (tar_entries (c_data f)).1 -> t_regular e = true ->
      member f (MkContent (t_name e) octet_stream (src_bytes (t_body e)))
  | member_gzip f stored src : archiveFormat (c_name f) (c_type f) (c_data f) = Some FmtGZIP -> gzip_NewReader (c_data f) = inr (stored, src) ->
      member f (MkContent (gzip_inner_name stored (c_name f)) octet_stream (src_bytes src))
  | member_bzip2 f : archiveFormat (c_name f) (c_type f) (c_data f) = Some FmtBZIP2 ->
      member f (MkContent (stripCompressionExtension (c_name f) [lit ".bz2"; lit ".bzip2"]) octet_stream (src_bytes (bzip2_reader (c_data f)))).

(** Neither the name nor the first bytes are prohibited. *)
Definition signature_ok (data : gostring) : Prop := InspectSignatures (options s) = true -> prohibitedSignature s data = [].
Definition acceptable (f : content) : Prop := blockedExtension s (c_name f) = [] /\ signature_ok (c_data f).
Definition sized (f : content) : Prop := go_len (c_data f) <= Z.max 0 (MaxAttachmentBytes (options s)).

(** [f] and, when archives are inspected, everything inside it at any depth. *)
Definition clean_content (f : content) : Prop :=
  acceptable f /\ (InspectArchives (options s) = true -> forall g, tc member f g -> acceptable g /\ sized g).

Lemma clean_content_members f : acceptable f ->
  (InspectArchives (options s) = true -> forall g, member f g -> sized g /\ clean_content g) -> clean_content f.
Proof.
  intros Hf Hm. split; [done|]. intros Ha g Hg. destruct Hg as [f g Hfg|f h g Hfh Hhg].
  - destruct (Hm Ha g Hfg) as [Hs [Hg _]]. done.
  - destruct (Hm Ha h Hfh) as [_ [_ Hh]]. by apply Hh.
Qed.

(** ** Results *)

(** A finding says which blocked extension or which signature it is about. *)
Definition justified (f : Finding) : Prop :=
  (exists extension, extension ∈ blocked s /\ f_Detection f = blocked_detection extension) \/
  (InspectSignatures (options s) = true /\ f_Detection f <> [] /\ exists data, prohibitedSignature s data = f_Detection f).

(** [good G v]: the scan ended, its finding is justified, and a clean result means [G]. *)
Definition good (G : Prop) (v : verdict) : Prop :=
  match v with VClean => G | VFound f => justified f | VError _ => True | VStuck => False end.

Lemma good_weaken (G G' : Prop) v : good G v -> (G -> G') -> good G' v.
Proof. destruct v; cbn; auto. Qed.

Lemma fail_spec path err G : sspec s (fail_at path err) (good G).
Proof. by apply sspec_ret. Qed.
Lemma malformed_spec path err G : sspec s (malformed_at path err) (good G).
Proof. by apply sspec_ret. Qed.

Lemma state_check_spec location : sspec s (state_check location) (λ _, True).
Proof. unfold state_check. eapply sspec_bind; [apply ctx_done_spec|]. intros ? _. by apply sspec_ret. Qed.
Lemma checked_spec location k G : sspec s k (good G) -> sspec s (checked location k) (good G).
Proof. intros Hk. unfold checked. eapply sspec_bind; [apply state_check_spec|]. intros [err|] _; [by apply sspec_ret|done]. Qed.

Lemma blockedExtension_blocked name : blockedExtension s name <> [] -> blockedExtension s name ∈ blocked s.
Proof.
  unfold blockedExtension. destruct (List.find _ _) as [e|] eqn:E; [|done]. intros _. apply find_some in E as [_ E].
  unfold is_blocked in E. by apply bool_decide_eq_true in E.
Qed.
Lemma extension_guard_spec name path k G : (blockedExtension s name = [] -> sspec s k (good G)) -> sspec s (extension_guard s name path k) (good G).
Proof.
  intros Hk. unfold extension_guard, beq. case_bool_decide as E; cbn [negb]; [by apply Hk|].
  apply sspec_ret. left. exists (blockedExtension s name). split; [by apply blockedExtension_blocked|done].
Qed.
Lemma signature_guard_spec data path k G : (signature_ok data -> sspec s k (good G)) -> sspec s (signature_guard s data path k) (good G).
Proof.
  intros Hk. unfold signature_guard, signature_ok in *. destruct (InspectSignatures (options s)) eqn:Hi; [|by apply Hk].
  unfold beq. case_bool_decide as E; cbn [negb]; [by apply Hk|].
  apply sspec_ret. right. cbn [f_Detection]. split_and!; [done..|by eexists].
Qed.
Lemma unless_final_spec m k G G' : sspec s m (good G') -> (G' -> sspec s k (good G)) -> sspec s (unless_final m k) (good G).
Proof. intros Hm Hk. eapply sspec_bind; [exact Hm|]. intros [|f|err|] Hv; cbn in Hv; [by apply Hk|by apply sspec_ret|by apply sspec_ret|done]. Qed.
Lemma unless_found_spec m k G G' : sspec s m (good G') -> sspec s k (good G) -> sspec s (unless_found m k) (good G).
Proof. intros Hm Hk. eapply sspec_bind; [exact Hm|]. intros [|f|err|] Hv; cbn in Hv; [done|by apply sspec_ret|done|done]. Qed.

(** ** Budgets *)

Lemma check_size_spec n : sspec s (check_size s n) (λ _, True).
Proof. by intros st Hst. Qed.
Lemma begin_spec n : sspec s (beginArchiveFile s n) (λ _, True).
Proof.
  intros st Hst. destruct Hst as [H1 H2 H3]. unfold beginArchiveFile. destruct (Z.leb_spec (MaxArchiveFiles (options s)) (archiveFiles (zstate st))); [done|].
  destruct (checkArchiveFileSize s n st); [done|]. split_and!; [split; cbn; lia|done..].
Qed.
Lemma admit_ok data : sspec s (admit_directory s data) (λ r, r <> inl ZipPanic).
Proof.
  intros st [H1 H2 H3]. unfold admit_directory. pose proof (admit_quiet (MaxArchiveFiles (options s)) data (zstate st)) as Hq.
  destruct (admit_spec (MaxArchiveFiles (options s)) data (zstate st)) as (r & [[n b] c] & E & Hr). rewrite E in *. cbn [fst snd] in *.
  assert (Hquiet : quiet st -> checks (zstate st) = [] /\ reads st = []) by done. split_and!.
  - destruct r as [e|[]]; cbn [fst snd] in *; [split; cbn; lia|]. destruct Hr as (d & _ & (Hn & _ & Hb & _)). cbn [fst snd] in *. split; cbn; lia.
  - intros [Hc Hd]. split; [|done]. cbn [zstate]. auto.
  - destruct r as [e|[]]; congruence.
Qed.

(** A whole entry was read, and it is within the limit for one attachment. *)
Definition complete (reader : source) (r : gostring * option goerror) : Prop :=
  r.2 = None -> r.1 = src_bytes reader /\ src_fault reader = None /\ go_len r.1 <= Z.max 0 (MaxAttachmentBytes (options s)).

Lemma readArchiveEntry_spec reader : sspec s (readArchiveEntry s reader) (complete reader).
Proof.
  unfold readArchiveEntry. eapply sspec_bind; [apply state_check_spec|]. intros [err|] _; [by apply sspec_ret|].
  intros st Hst. unfold sbind, get_archiveBytes. cbn [fst snd].
  destruct (Z.leb_spec (MaxArchiveUncompressedBytes (options s) - archiveBytes st) 0) as [|Hr]; [by split_and!; [..|intros ?]|].
  set (remaining := MaxArchiveUncompressedBytes (options s) - archiveBytes st) in *. cbv zeta.
  set (oversize := if _ <=? _ then _ else _). clearbody oversize.
  pose proof (contextReader_spec s reader st Hst) as Hc.
  assert (Hb : archiveBytes (contextReader reader st).2 = archiveBytes st).
  { unfold contextReader, sbind, read_answer. by destruct (reads st). }
  destruct (contextReader reader st) as [reader' st']. cbn [fst snd] in *. destruct Hc as ([H1' H2' H3'] & Hq & Hc). unfold sbind, add_archiveBytes, sret. cbn [fst snd].
  pose proof (read_bounded_length (Z.min (MaxAttachmentBytes (options s)) remaining) oversize reader') as Hl.
  pose proof (go_len_nonneg (read_bounded (Z.min (MaxAttachmentBytes (options s)) remaining) oversize reader').1).
  split_and!; [split; cbn; lia|intros Hquiet; exact (Hq Hquiet)|]. intros Hn. destruct (read_bounded_complete _ _ _ _ eq_refl Hn) as (Hd & Hf & Hlen).
  specialize (Hc Hf) as ->. split_and!; [done..|lia].
Qed.

(** ** Archives *)

Definition inner_ok (inner : file_scan) (depth : Z) : Prop :=
  forall location name type_ data, sspec s (inner location name type_ data depth) (good (clean_content (MkContent name type_ data))).

(** What a clean scan says of the content of an entry. *)
Definition entry_clean (name : gostring) (reader : source) : Prop :=
  src_fault reader = None /\ sized (MkContent name octet_stream (src_bytes reader)) /\ clean_content (MkContent name octet_stream (src_bytes reader)).

(** An entry that was read, and whose content is scanned by [inner] before [k]. *)
Lemma entry_spec inner depth name reader location r k G : inner_ok inner depth -> complete reader r ->
  (entry_clean name reader -> sspec s k (good G)) ->
  sspec s (match r.2 with Some err => fail_at location err | None => unless_final (inner location name octet_stream r.1 depth) k end) (good G).
Proof.
  intros Hi Hr Hk. unfold complete in Hr. destruct r as [data [err|]]; cbn [fst snd] in *; [apply fail_spec|]. destruct (Hr eq_refl) as (-> & Hf & Hl).
  eapply unless_final_spec; [apply Hi|]. intros Hc. by apply Hk.
Qed.

Lemma scan_zip_files_spec inner depth location files : inner_ok inner depth ->
  sspec s (scan_zip_files s inner location depth files)
    (good (forall e src, e ∈ files -> z_dir e = false -> z_open e = inr src -> entry_clean (z_name e) src)).
Proof.
  intros Hi. induction files as [|file files IH]; cbn [scan_zip_files]; [apply sspec_ret; intros e src He; by apply elem_of_nil in He|].
  apply checked_spec. destruct (z_dir file) eqn:Hd.
  { eapply sspec_weaken; [exact IH|]. intros v Hv. eapply good_weaken; [exact Hv|]. intros Hg e src [->|He]%elem_of_cons; [congruence|by apply Hg]. }
  cbv zeta. destruct (Z.odd _); [by apply sspec_ret|]. apply extension_guard_spec. intros _.
  eapply sspec_bind; [apply check_size_spec|]. intros [err|] _; [apply fail_spec|].
  eapply (sspec_bind _ _ _ (λ o, forall src, o = inr src -> z_open file = inr src)).
  { unfold open_entry. eapply sspec_bind; [apply read_answer_spec|]. intros [n|] _; by apply sspec_ret. }
  intros [err|src] Ho; [apply fail_spec|]. specialize (Ho src eq_refl).
  eapply sspec_bind; [apply readArchiveEntry_spec|]. intros r Hr. apply signature_guard_spec. intros _.
  apply (entry_spec _ _ _ src); [done..|]. intros Hc.
  eapply sspec_weaken; [exact IH|]. intros v Hv. eapply good_weaken; [exact Hv|].
  intros Hg e src' [->|He]%elem_of_cons Hd' Ho'; [congruence|by eapply Hg].
Qed.

Lemma scan_tar_entries_spec inner depth location entries final : inner_ok inner depth ->
  sspec s (scan_tar_entries s inner location depth entries final)
    (good (final = None /\ forall e, e ∈ entries -> t_regular e = true -> entry_clean (t_name e) (t_body e))).
Proof.
  intros Hi. induction entries as [|entry entries IH]; cbn [scan_tar_entries]; apply checked_spec.
  { destruct final; [apply fail_spec|]. apply sspec_ret. split; [done|]. intros e He; by apply elem_of_nil in He. }
  destruct (t_regular entry) eqn:Hd; cbn [negb].
  - cbv zeta. destruct (t_size entry <? 0); [apply fail_spec|]. eapply sspec_bind; [apply begin_spec|]. intros [err|] _; [apply fail_spec|].
    apply extension_guard_spec. intros _. eapply sspec_bind; [apply readArchiveEntry_spec|]. intros r Hr. apply signature_guard_spec. intros _.
    apply (entry_spec _ _ _ (t_body entry)); [done..|]. intros Hc.
    eapply sspec_weaken; [exact IH|]. intros v Hv. eapply good_weaken; [exact Hv|]. intros [Hf Hg]. split; [done|].
    intros e [->|He]%elem_of_cons Hd'; [done|by apply Hg].
  - eapply sspec_weaken; [exact IH|]. intros v Hv. eapply good_weaken; [exact Hv|]. intros [Hf Hg]. split; [done|].
    intros e [->|He]%elem_of_cons Hd'; [congruence|by apply Hg].
Qed.

Lemma scan_compressed_spec inner depth location name reader : inner_ok inner depth ->
  sspec s (scan_compressed s inner location name reader depth) (good (entry_clean name reader)).
Proof.
  intros Hi. unfold scan_compressed. eapply sspec_bind; [apply begin_spec|]. intros [err|] _; [apply fail_spec|].
  eapply sspec_bind; [apply readArchiveEntry_spec|]. intros [data [err|]] Hr; cbn [fst snd]; [apply fail_spec|].
  destruct (Hr eq_refl) as (Hd & Hf & Hl). cbn [fst] in *. subst data.
  eapply sspec_weaken; [apply Hi|]. intros v Hv. eapply good_weaken; [exact Hv|]. by intros Hc.
Qed.

(** *** Damaged ZIP archives *)

Lemma le_read_ok n data p : 0 <= p -> p + Z.of_nat n <= go_len data -> le_read n data p = Some (le_at n data p).
Proof. intros Hp Hl. unfold le_read. by rewrite (proj2 (Z.leb_le 0 p)), (proj2 (Z.leb_le _ (go_len data))) by lia. Qed.
Lemma le_at_nonneg n data p : 0 <= le_at n data p.
Proof. apply le_value_range. Qed.
Lemma slice_ok data a b : 0 <= a <= b -> b <= go_len data -> exists t, slice data a b = Some t.
Proof. intros Ha Hb. unfold slice. rewrite (proj2 (Z.leb_le 0 a)), (proj2 (Z.leb_le a b)), (proj2 (Z.leb_le b _)) by lia. by eexists. Qed.

Lemma read_local_header_ok data offset : 0 <= offset -> offset + localHeaderBytes <= go_len data ->
  exists h, read_local_header data offset = Some h /\ 0 <= lh_name h /\ 0 <= lh_extra h /\ 0 <= lh_compressed h.
Proof.
  unfold localHeaderBytes. intros Ho Hl. unfold read_local_header. rewrite !le_read_ok by (cbn; lia). eexists. split; [done|]. cbn [lh_name lh_extra lh_compressed].
  split_and!; apply le_at_nonneg.
Qed.

Lemma scan_partial_content_spec inner depth name location incomplete advance reader : inner_ok inner depth ->
  (incomplete = false -> sspec s advance (good True)) -> sspec s (scan_partial_content s inner name location depth incomplete advance reader) (good True).
Proof.
  intros Hi Ha. eapply sspec_bind; [apply readArchiveEntry_spec|]. intros r _. apply signature_guard_spec. intros _.
  assert (Hrest : sspec s (if (match r.2 with Some _ => true | None => false end) || incomplete
    then fail_at location (default (ErrText (lit "incomplete ZIP entry")) r.2) else advance) (good True)).
  { destruct (_ || _) eqn:Hstop; [apply fail_spec|]. apply Ha. by apply orb_false_iff in Hstop as [_ ?]. }
  cbv zeta. destruct (_ && _); [|exact Hrest]. eapply unless_found_spec; [apply Hi|exact Hrest].
Qed.

Lemma scan_partial_entry_spec inner depth location data offset h advance : inner_ok inner depth -> 0 <= offset ->
  0 <= lh_name h -> 0 <= lh_extra h -> 0 <= lh_compressed h ->
  (forall next, offset + localHeaderBytes <= next <= go_len data -> sspec s (advance next) (good True)) ->
  sspec s (scan_partial_entry s inner location data depth offset h advance) (good True).
Proof.
  intros Hi Ho Hn He Hc Ha. unfold scan_partial_entry. cbv zeta. unfold localHeaderBytes in *. destruct (_ || _) eqn:Hg; [apply fail_spec|].
  repeat (apply orb_false_iff in Hg as [Hg ?]). set (start := offset + 30 + lh_name h + lh_extra h) in *.
  destruct (slice_ok data (offset + 30) (offset + 30 + lh_name h)) as [name ->]; [lia..|].
  destruct (Z.odd _); [by apply sspec_ret|]. apply extension_guard_spec. intros _.
  eapply sspec_bind; [apply begin_spec|]. intros [err|] _; [apply fail_spec|].
  destruct (slice_ok data start (if (0 <? lh_compressed h) && (lh_compressed h <=? go_len data - start) then start + lh_compressed h else go_len data)) as [compressed ->];
    [destruct (_ && _) eqn:Hw; lia|destruct (_ && _) eqn:Hw; lia|].
  destruct (_ =? 0); [|destruct (_ =? 8); [|apply fail_spec]]; (apply scan_partial_content_spec; [done|]);
    intros Hstop; repeat (apply orb_false_iff in Hstop as [Hstop ?]); apply Ha; lia.
Qed.

Lemma scan_partial_spec inner depth turns location data offset : inner_ok inner depth -> 0 <= offset <= go_len data -> go_len data - offset < Z.of_nat turns ->
  sspec s (scan_partial s inner turns location data depth offset) (good True).
Proof.
  intros Hi. revert offset. induction turns as [|turns IH]; intros offset Ho Ht; [lia|]. cbn [scan_partial]. cbv zeta.
  destruct (Z.leb_spec (offset + localHeaderBytes) (go_len data)) as [Hl|]; [|apply fail_spec].
  rewrite le_read_ok by (unfold localHeaderBytes in *; cbn; lia). destruct (_ =? _); [|apply fail_spec]. apply checked_spec.
  destruct (read_local_header_ok data offset) as (h & -> & Hn & He & Hc); [lia..|].
  apply scan_partial_entry_spec; try lia; [done|]. intros next Hnext. apply IH; unfold localHeaderBytes in *; lia.
Qed.

Lemma scanPartialZIP_spec inner depth location data : inner_ok inner depth -> sspec s (scanPartialZIP s inner location data depth) (good True).
Proof.
  intros Hi. unfold scanPartialZIP. apply checked_spec. destruct (Z.ltb_spec (go_len data) localHeaderBytes) as [|Hl]; [by apply sspec_ret|].
  rewrite le_read_ok by (unfold localHeaderBytes in *; cbn; lia). destruct (negb _); [by apply sspec_ret|].
  apply scan_partial_spec; unfold localHeaderBytes, go_len in *; [done|lia..].
Qed.

(** *** All formats *)

Lemma scan_invalid_zip_spec inner depth location data err G : inner_ok inner depth -> sspec s (scan_invalid_zip s inner location data depth err) (good G).
Proof. intros Hi. apply checked_spec. eapply unless_final_spec; [by apply scanPartialZIP_spec|]. intros _. apply fail_spec. Qed.

Lemma scanZIP_spec inner depth location data : inner_ok inner depth ->
  sspec s (scanZIP s inner location data depth)
    (good (forall files e src, zip_NewReader data = inr files -> e ∈ files -> z_dir e = false -> z_open e = inr src -> entry_clean (z_name e) src)).
Proof.
  intros Hi. unfold scanZIP. apply checked_spec. eapply sspec_bind; [apply admit_ok|]. intros [e|[]] Hp.
  { destruct e; try apply fail_spec; [by apply scan_invalid_zip_spec|done]. }
  eapply (sspec_bind _ _ _ (λ o, forall files, o = inr files -> zip_NewReader data = inr files)).
  { unfold open_zip. eapply sspec_bind; [apply read_answer_spec|]. intros [n|] _; by apply sspec_ret. }
  intros [err|files] Ho; [by apply scan_invalid_zip_spec|]. eapply sspec_weaken; [by apply scan_zip_files_spec|].
  intros v Hv. eapply good_weaken; [exact Hv|]. intros Hg files' e src Hf. rewrite (Ho files eq_refl) in Hf. injection Hf as <-. apply Hg.
Qed.

Lemma scanFile_body_spec inner depth location name type_ data : (depth < MaxArchiveDepth (options s) -> inner_ok inner (depth + 1)) ->
  sspec s (scanFile_body s inner location name type_ data depth) (good (clean_content (MkContent name type_ data))).
Proof.
  intros Hi. unfold scanFile_body. apply checked_spec, extension_guard_spec. intros Hx. apply signature_guard_spec. intros Hs.
  assert (Hacc : acceptable (MkContent name type_ data)) by done.
  destruct (InspectArchives (options s)) eqn:Ha; cbn [negb]; [|apply sspec_ret, clean_content_members; [done|congruence]].
  destruct (archiveFormat name type_ data) as [format|] eqn:Hf.
  2:{ apply sspec_ret, clean_content_members; [done|]. intros _ g Hg. exfalso. inversion Hg; subst; cbn in *; congruence. }
  destruct (Z.leb_spec (MaxArchiveDepth (options s)) depth) as [|Hd]; [apply fail_spec|]. specialize (Hi Hd). destruct format.
  - eapply sspec_weaken; [by apply scanZIP_spec|]. intros v Hv. eapply good_weaken; [exact Hv|]. intros Hg. apply clean_content_members; [done|]. intros _ g Hm.
    inversion Hm as [f files e src E1 E2 E3 E4 E5| | |]; subst; cbn in *; try congruence. edestruct Hg as (_ & ? & ?); eauto.
  - unfold scanTAR. destruct (tar_entries data) as [entries final] eqn:Ht. eapply sspec_weaken; [by apply scan_tar_entries_spec|].
    intros v Hv. eapply good_weaken; [exact Hv|]. intros [_ Hg]. apply clean_content_members; [done|]. intros _ g Hm.
    inversion Hm as [|f e E1 E2 E3| |]; subst; cbn [c_name c_type c_data] in *; try congruence. rewrite Ht in E2. edestruct Hg as (_ & ? & ?); eauto.
  - destruct (gzip_NewReader data) as [err|[stored src]] eqn:Ht; [apply fail_spec|]. eapply sspec_weaken; [by apply scan_compressed_spec|].
    intros v Hv. eapply good_weaken; [exact Hv|]. intros (_ & ? & ?). apply clean_content_members; [done|]. intros _ g Hm.
    inversion Hm as [| |f stored' src' E1 E2|]; subst; cbn [c_name c_type c_data] in *; try congruence. rewrite Ht in E2. injection E2 as <- <-. done.
  - eapply sspec_weaken; [by apply scan_compressed_spec|].
    intros v Hv. eapply good_weaken; [exact Hv|]. intros (_ & ? & ?). apply clean_content_members; [done|]. intros _ g Hm.
    inversion Hm as [| | |f E1]; subst; cbn [c_name c_type c_data] in *; try congruence. done.
Qed.

Lemma scan_file_spec fuel depth : 0 <= depth -> Z.max 0 (MaxArchiveDepth (options s) - depth) < Z.of_nat fuel -> inner_ok (scan_file s fuel) depth.
Proof.
  revert depth. induction fuel as [|fuel IH]; intros depth Hd Hf location name type_ data; cbn [scan_file]; [lia|].
  apply scanFile_body_spec. intros Hlt. apply IH; lia.
Qed.
Lemma scanFile_spec : inner_ok (scanFile s) 0.
Proof. apply scan_file_spec; lia. Qed.

(** ** MIME entities *)

Record entity := MkEntity { e_type : gostring; e_encoding : gostring; e_disposition : gostring; e_data : gostring }.
Definition entity_of (h : headers) (contentType : gostring) (body : source) : entity :=
  MkEntity contentType (header_get h (lit "Content-Transfer-Encoding")) (header_get h (lit "Content-Disposition")) (src_bytes body).

Definition boundary_of (params : list (gostring * gostring)) : gostring := default [] (assoc_get (lit "boundary") params).

(** [sub e f]: [f] is a part of the multipart [e], or the message attached as [e]. *)
Inductive sub : entity -> entity -> Prop :=
  | sub_part e mediaType params p : entity_type (e_type e) = inr (mediaType, params) -> hasPrefix mediaType (lit "multipart/") = true ->
      p ∈ (multipart_parts (boundary_of params) (e_data e)).1 ->
      sub e (entity_of (p_header p) (part_content_type mediaType (p_header p)) (p_body p))
  | sub_message e mediaType params filename decoded h body :
      entity_type (e_type e) = inr (mediaType, params) -> hasPrefix mediaType (lit "multipart/") = false ->
      attachmentFilename (e_disposition e) (e_type e) = inr filename -> is_message mediaType filename = true ->
      transfer_reader (e_encoding e) (e_data e) = Some decoded -> ReadMessage (src_bytes decoded) = inr (h, body) ->
      sub e (entity_of h (header_get h (lit "Content-Type")) body).

(** Text for the reader of the message, which is not treated as a file. *)
Definition visible_text (nested : bool) (e : entity) (mediaType filename decoded : gostring) : Prop :=
  filename = [] /\ is_text mediaType = true /\ explicitAttachment (e_disposition e) = false /\
  (nested = true -> trimSpace (e_type e) <> [] /\ disguisedBinaryContent s decoded = false).

(** A leaf: its declared name is allowed, its content was decoded completely, and
    it is visible text, an attached message, or clean as a file. *)
Definition leaf_ok (nested : bool) (e : entity) (mediaType : gostring) : Prop :=
  exists filename decoded, attachmentFilename (e_disposition e) (e_type e) = inr filename /\
    (filename <> [] -> blockedExtension s filename = []) /\
    transfer_reader (e_encoding e) (e_data e) = Some decoded /\ src_fault decoded = None /\ go_len (src_bytes decoded) <= MaxAttachmentBytes (options s) /\
    (visible_text nested e mediaType filename (src_bytes decoded) \/
     (is_message mediaType filename = true /\ exists h body, ReadMessage (src_bytes decoded) = inr (h, body) /\ src_fault body = None) \/
     clean_content (MkContent filename mediaType (src_bytes decoded))).

(** A multipart: it is complete, and so is the body of every part. *)
Definition multipart_ok (e : entity) (params : list (gostring * gostring)) : Prop :=
  (multipart_parts (boundary_of params) (e_data e)).2 = None /\
  forall p, p ∈ (multipart_parts (boundary_of params) (e_data e)).1 -> src_fault (p_body p) = None.

Definition node_ok (nested : bool) (e : entity) : Prop :=
  exists mediaType params, entity_type (e_type e) = inr (mediaType, params) /\
    if hasPrefix mediaType (lit "multipart/") then multipart_ok e params else leaf_ok nested e mediaType.

(** [e] and every entity below it. *)
Definition clean_entity (nested : bool) (e : entity) : Prop := node_ok nested e /\ forall f, tc sub e f -> node_ok true f.

Lemma clean_entity_subs nested e : node_ok nested e -> (forall f, sub e f -> clean_entity true f) -> clean_entity nested e.
Proof.
  intros He Hs. split; [done|]. intros f Hf. destruct Hf as [e f Hef|e g f Heg Hgf].
  - by destruct (Hs f Hef).
  - destruct (Hs g Heg) as [_ Hg]. by apply Hg.
Qed.

Definition mime_ok (inner : mime_scan) (depth : Z) : Prop :=
  forall contentType encoding disposition data location,
    sspec s (inner contentType encoding disposition data location depth) (good (clean_entity true (MkEntity contentType encoding disposition data))).

(** The attached message was read completely, and it is clean. *)
Lemma scanRFC822_spec inner depth data location : mime_ok inner (depth + 1) ->
  sspec s (scanRFC822 inner data location depth)
    (good (exists h body, ReadMessage data = inr (h, body) /\ src_fault body = None /\ clean_entity true (entity_of h (header_get h (lit "Content-Type")) body))).
Proof.
  intros Hi. unfold scanRFC822. apply checked_spec. destruct (_ <=? _); [apply fail_spec|].
  destruct (ReadMessage data) as [err|[h body]] eqn:Hr; [apply malformed_spec|].
  eapply sspec_bind; [apply contextReader_spec|]. intros body' Hb. destruct (src_fault body') eqn:Hf; [apply fail_spec|]. specialize (Hb Hf) as ->.
  eapply sspec_weaken; [apply Hi|]. intros v Hv. eapply good_weaken; [exact Hv|]. intros Hc. by exists h, body.
Qed.

Lemma scan_undecoded_spec inner depth location filename mediaType decoded err G : mime_ok inner (depth + 1) ->
  sspec s (scan_undecoded s inner location filename mediaType decoded depth err) (good G).
Proof.
  intros Hi. unfold scan_undecoded. apply signature_guard_spec. intros _.
  eapply (unless_final_spec _ _ _ True); [|intros _; eapply (unless_found_spec _ _ _ True); [|apply fail_spec]].
  - destruct (is_message _ _); [|by apply sspec_ret]. eapply sspec_weaken; [by apply scanRFC822_spec|]. intros v Hv. by eapply good_weaken.
  - destruct (_ && _); [|by apply sspec_ret]. eapply sspec_weaken; [apply scanFile_spec|]. intros v Hv. by eapply good_weaken.
Qed.

Lemma decode_spec encoding data limit : sspec s (decodeTransferStrict encoding data limit) (λ r, r.2 = None ->
  exists reader, transfer_reader encoding data = Some reader /\ src_fault reader = None /\ r.1 = src_bytes reader /\ go_len r.1 <= limit).
Proof.
  unfold decodeTransferStrict. destruct (transfer_reader encoding data) as [reader|]; [|by apply sspec_ret].
  eapply sspec_bind; [apply contextReader_spec|]. intros reader' Hr. apply sspec_ret. unfold readLimited. destruct (Z.ltb_spec limit 1); [done|].
  intros Hn. destruct (read_bounded_complete _ _ _ _ eq_refl Hn) as (Hd & Hf & Hl). specialize (Hr Hf) as ->. exists reader. split_and!; [done..|lia].
Qed.

Section Leaf.
Variables (inner : mime_scan) (depth : Z) (e : entity) (mediaType : gostring) (params : list (gostring * gostring)).
Hypothesis Hinner : mime_ok inner (depth + 1).
Hypothesis Htype : entity_type (e_type e) = inr (mediaType, params).
Hypothesis Hleaf : hasPrefix mediaType (lit "multipart/") = false.
#[local] Set Default Proof Using "All".

(** A leaf without entities below it. *)
Lemma leaf_clean filename : leaf_ok (0 <? depth) e mediaType -> attachmentFilename (e_disposition e) (e_type e) = inr filename ->
  is_message mediaType filename = false -> clean_entity (0 <? depth) e.
Proof.
  intros Hl Hn Hm. apply clean_entity_subs; [exists mediaType, params; by rewrite Hleaf|].
  intros f Hf. exfalso. inversion Hf; subst; congruence.
Qed.

Lemma is_text_not_message filename : filename = [] -> is_text mediaType = true -> is_message mediaType filename = false.
Proof.
  intros -> Ht. unfold is_text, is_message, beq in *. apply orb_false_iff. split; [|by vm_compute].
  apply bool_decide_eq_false. intros ->. by vm_compute in Ht.
Qed.

Lemma scan_leaf_spec location : sspec s (scan_leaf s inner (e_type e) (e_encoding e) (e_disposition e) (e_data e) location depth mediaType) (good (clean_entity (0 <? depth) e)).
Proof.
  unfold scan_leaf. destruct (attachmentFilename (e_disposition e) (e_type e)) as [err|filename] eqn:Hname; [apply malformed_spec|]. cbv zeta.
  set (location' := if negb (beq filename []) then _ else location). clearbody location'.
  match goal with |- sspec s (_ ?m) _ => set (body := m) end.
  assert (Hbody : (filename <> [] -> blockedExtension s filename = []) -> sspec s body (good (clean_entity (0 <? depth) e))).
  2:{ unfold beq in *. case_bool_decide as Hf; cbn [negb]; [by apply Hbody|]. apply extension_guard_spec. auto. }
  intros Hx. subst body. eapply sspec_bind; [apply decode_spec|]. intros [bytes [err|]] Hd; cbn [fst snd] in *; [by apply scan_undecoded_spec|].
  destruct (Hd eq_refl) as (decoded & Ht & Hf & -> & Hl).
  assert (Hleaf_ok : visible_text (0 <? depth) e mediaType filename (src_bytes decoded) \/
     (is_message mediaType filename = true /\ exists h body, ReadMessage (src_bytes decoded) = inr (h, body) /\ src_fault body = None) \/
     clean_content (MkContent filename mediaType (src_bytes decoded)) -> leaf_ok (0 <? depth) e mediaType).
  { intros Hc. exists filename, decoded. split_and!; done. }
  destruct (negb (negb (beq filename [])) && is_text mediaType) eqn:Hvis.
  - rewrite negb_involutive in Hvis. apply andb_true_iff in Hvis as [Hn Hte]. apply bool_decide_eq_true in Hn. pose proof (is_text_not_message filename Hn Hte) as Hm.
    destruct (_ || _) eqn:Hscan.
    + eapply sspec_weaken; [apply scanFile_spec|]. intros v Hv. eapply good_weaken; [exact Hv|]. intros Hc.
      eapply leaf_clean; [apply Hleaf_ok|exact Hname|exact Hm]. right. right. by rewrite Hn.
    + apply sspec_ret. eapply leaf_clean; [apply Hleaf_ok|exact Hname|exact Hm]. left.
      apply orb_false_iff in Hscan as [[Hs1 Hs2]%orb_false_iff Hs3]. split_and!; [done..|]. intros Hnest. rewrite Hnest in *. cbn [andb] in *.
      split; [|done]. unfold beq in Hs1. by apply bool_decide_eq_false in Hs1.
  - destruct (is_message mediaType filename) eqn:Hm.
    + eapply sspec_weaken; [by apply scanRFC822_spec|]. intros v Hv. eapply good_weaken; [exact Hv|]. intros (h & body & Hr & Hb & Hc).
      apply clean_entity_subs; [exists mediaType, params; rewrite Hleaf; split; [done|]; apply Hleaf_ok; right; left; split; [done|]; by exists h, body|].
      intros f Hsub. inversion Hsub as [|? mt ps fn dec h' body' E1 E2 E3 E4 E5 E6]; subst; [congruence|]. rewrite Ht in E5. injection E5 as <-.
      rewrite Hr in E6. injection E6 as <- <-. exact Hc.
    + eapply sspec_weaken; [apply scanFile_spec|]. intros v Hv. eapply good_weaken; [exact Hv|]. intros Hc.
      eapply leaf_clean; [apply Hleaf_ok|exact Hname|exact Hm]. auto.
Qed.
End Leaf.

Lemma scan_parts_spec inner depth mediaType location index parts final firstError : mime_ok inner (depth + 1) ->
  sspec s (scan_parts inner mediaType location depth index parts final firstError)
    (good (firstError = None /\ final = None /\ forall p, p ∈ parts -> src_fault (p_body p) = None /\
       clean_entity true (entity_of (p_header p) (part_content_type mediaType (p_header p)) (p_body p)))).
Proof.
  intros Hi. revert index firstError. induction parts as [|p parts IH]; intros index firstError; cbn [scan_parts]; apply checked_spec.
  { destruct firstError as [err|]; [by apply sspec_ret|]. destruct final as [err|]; [apply malformed_spec|]. apply sspec_ret. split_and!; [done..|].
    intros p Hp. by apply elem_of_nil in Hp. }
  cbv zeta. eapply sspec_bind; [apply contextReader_spec|]. intros body Hb. eapply sspec_bind; [apply Hi|]. intros v Hv.
  assert (Hrest : forall first, (first = None -> firstError = None /\ v = VClean /\ src_fault body = None) ->
    sspec s (scan_parts inner mediaType location depth (index + 1) parts final first)
      (good (firstError = None /\ final = None /\ forall q, q ∈ p :: parts -> src_fault (p_body q) = None /\
       clean_entity true (entity_of (p_header q) (part_content_type mediaType (p_header q)) (p_body q))))).
  { intros first Hfirst. eapply sspec_weaken; [apply IH|]. intros v' Hv'. eapply good_weaken; [exact Hv'|]. intros (Hn & Hfin & Hparts).
    destruct (Hfirst Hn) as (-> & -> & Hbody). specialize (Hb Hbody) as ->. split_and!; [done..|].
    intros q [->|Hq]%elem_of_cons; [split; [done|exact Hv]|by apply Hparts]. }
  destruct v as [|f|err|]; cbn in Hv; [|by apply sspec_ret| |done]; apply Hrest; destruct firstError; try done; destruct (src_fault body); done.
Qed.

Lemma scanMIME_body_spec inner depth contentType encoding disposition data location : (depth < maxMIMEDepth -> mime_ok inner (depth + 1)) ->
  sspec s (scanMIME_body s inner contentType encoding disposition data location depth)
    (good (clean_entity (0 <? depth) (MkEntity contentType encoding disposition data))).
Proof.
  intros Hi. unfold scanMIME_body. apply checked_spec. destruct (Z.leb_spec maxMIMEDepth depth) as [|Hd]; [apply fail_spec|]. specialize (Hi Hd).
  destruct (entity_type contentType) as [err|[mediaType params]] eqn:Ht; [apply malformed_spec|].
  destruct (hasPrefix mediaType (lit "multipart/")) eqn:Hmulti.
  - fold (boundary_of params). cbv zeta. unfold beq. case_bool_decide; [apply malformed_spec|].
    destruct (multipart_parts (boundary_of params) data) as [parts final] eqn:Hp.
    eapply sspec_weaken; [by apply scan_parts_spec|]. intros v Hv. eapply good_weaken; [exact Hv|]. intros (_ & Hf & Hparts).
    apply clean_entity_subs.
    + exists mediaType, params. split; [done|]. rewrite Hmulti. unfold multipart_ok. cbn [e_data]. rewrite Hp. split; [done|]. intros p Hin. by apply Hparts.
    + intros f Hsub. inversion Hsub as [? mt ps p E1 E2 E3|]; subst; cbn [e_type e_data] in *; [|congruence].
      rewrite Ht in E1. injection E1 as <- <-. rewrite Hp in E3. by apply Hparts.
  - apply (scan_leaf_spec inner depth (MkEntity contentType encoding disposition data) mediaType params); done.
Qed.

Lemma scan_mime_spec fuel depth : 0 <= depth -> Z.max 0 (maxMIMEDepth - depth) < Z.of_nat fuel ->
  forall contentType encoding disposition data location,
    sspec s (scan_mime s fuel contentType encoding disposition data location depth) (good (clean_entity (0 <? depth) (MkEntity contentType encoding disposition data))).
Proof.
  revert depth. induction fuel as [|fuel IH]; intros depth Hd Hf contentType encoding disposition data location; cbn [scan_mime]; [lia|].
  apply scanMIME_body_spec. intros Hlt c en di da lo. pose proof (IH (depth + 1) ltac:(lia) ltac:(lia) c en di da lo) as Hi.
  by rewrite (proj2 (Z.ltb_lt 0 (depth + 1))) in Hi by lia.
Qed.
End Spec.
