(* ===== verification/ScannerProps.v ===== *)
(** * Properties of the attachment scanner

    Soundness of a clean result, the budgets of hostile messages, findings that
    errors elsewhere cannot mask, and names that cannot hide their extension. *)
From S2P Require Import Prelude GoText ZipLimits Calendar ScanNames Scanner ScannerSpec.
Open Scope Z_scope.

Section Masking.
Context {UT : UnicodeTables} {NT : NameText} {RD : Readers}.
Variable s : Scanner.

(** ** Scans that find something, when the context does not end *)

Definition finds (m : SM verdict) : Prop := forall st, budget s st -> quiet st -> exists f, (m st).1 = VFound f.

Lemma checked_quiet location k st : quiet st -> checked location k st = k st.
Proof. intros [Hc _]. unfold checked, state_check, sbind, ctx_done. by rewrite Hc. Qed.
Lemma contextReader_quiet reader st : quiet st -> contextReader reader st = (reader, st).
Proof. intros [_ Hr]. unfold contextReader, sbind, read_answer. by rewrite Hr. Qed.

Lemma checked_finds location k : finds k -> finds (checked location k).
Proof. intros Hk st Hb Hq. rewrite checked_quiet by done. by apply Hk. Qed.
Lemma blocked_finds name path k : blockedExtension s name <> [] -> finds (extension_guard s name path k).
Proof. intros Hx st _ _. unfold extension_guard, beq. case_bool_decide; [done|]. by eexists. Qed.
Lemma extension_guard_finds name path k : finds k -> finds (extension_guard s name path k).
Proof. intros Hk st Hb Hq. unfold extension_guard. destruct (negb _); [by eexists|by apply Hk]. Qed.

Lemma scan_parts_finds inner depth mediaType p parts final : mime_ok s inner (depth + 1) -> p ∈ parts ->
  (forall location, finds (inner (part_content_type mediaType (p_header p)) (header_get (p_header p) (lit "Content-Transfer-Encoding"))
    (header_get (p_header p) (lit "Content-Disposition")) (src_bytes (p_body p)) location (depth + 1))) ->
  forall location index firstError, finds (scan_parts inner mediaType location depth index parts final firstError).
Proof.
  intros Hi Hp Hf location. induction parts as [|q parts IH]; intros index firstError; [by apply elem_of_nil in Hp|].
  cbn [scan_parts]. apply checked_finds. intros st Hb Hq. cbv zeta. unfold sbind. rewrite contextReader_quiet by done.
  set (path := part_location _ _ _ _).
  apply elem_of_cons in Hp as [<-|Hp].
  - destruct (Hf path st Hb Hq) as [f Hfound]. destruct (inner _ _ _ _ path _ st) as [v st']. cbn in Hfound. subst v. by exists f.
  - pose proof (Hi (part_content_type mediaType (p_header q)) (header_get (p_header q) (lit "Content-Transfer-Encoding"))
      (header_get (p_header q) (lit "Content-Disposition")) (src_bytes (p_body q)) path st Hb) as Hspec.
    destruct (inner _ _ _ _ path _ st) as [v st']. cbn [fst snd] in Hspec. destruct Hspec as (Hb' & Hq' & Hv).
    destruct v as [|f|err|]; [by apply IH; [|auto..]|by exists f|by apply IH; [|auto..]|done].
Qed.

(** ** Blocked names below multiparts and attached messages *)

(** [hidden n e]: [n] levels below [e] there is a leaf whose declared name has a
    blocked extension, and the attached messages on the way can be read. *)
Inductive hidden : nat -> entity -> Prop :=
  | hidden_here e mediaType params filename : entity_type (e_type e) = inr (mediaType, params) -> hasPrefix mediaType (lit "multipart/") = false ->
      attachmentFilename (e_disposition e) (e_type e) = inr filename -> filename <> [] -> blockedExtension s filename <> [] -> hidden 0 e
  | hidden_part n e mediaType params p : entity_type (e_type e) = inr (mediaType, params) -> hasPrefix mediaType (lit "multipart/") = true ->
      boundary_of params <> [] -> p ∈ (multipart_parts (boundary_of params) (e_data e)).1 ->
      hidden n (entity_of (p_header p) (part_content_type mediaType (p_header p)) (p_body p)) -> hidden (S n) e
  | hidden_message n e mediaType params filename decoded h body :
      entity_type (e_type e) = inr (mediaType, params) -> hasPrefix mediaType (lit "multipart/") = false ->
      attachmentFilename (e_disposition e) (e_type e) = inr filename -> is_message mediaType filename = true ->
      transfer_reader (e_encoding e) (e_data e) = Some decoded -> src_fault decoded = None -> go_len (src_bytes decoded) <= MaxAttachmentBytes (options s) ->
      1 <= MaxAttachmentBytes (options s) -> ReadMessage (src_bytes decoded) = inr (h, body) -> src_fault body = None ->
      hidden n (entity_of h (header_get h (lit "Content-Type")) body) -> hidden (S n) e.

Lemma decode_quiet encoding data limit reader st : quiet st -> transfer_reader encoding data = Some reader -> src_fault reader = None ->
  go_len (src_bytes reader) <= limit -> 1 <= limit -> decodeTransferStrict encoding data limit st = ((src_bytes reader, None), st).
Proof.
  intros Hq Ht Hf Hl Hlim. unfold decodeTransferStrict. rewrite Ht. unfold sbind. rewrite contextReader_quiet by done.
  unfold sret, readLimited, read_bounded. rewrite (proj2 (Z.ltb_ge limit 1)) by done. unfold go_len in Hl.
  rewrite (proj2 (Nat.ltb_ge _ _)) by lia. by rewrite Hf.
Qed.

Lemma scanRFC822_finds inner depth data location h body : depth < maxMIMEDepth -> ReadMessage data = inr (h, body) -> src_fault body = None ->
  finds (inner (header_get h (lit "Content-Type")) (header_get h (lit "Content-Transfer-Encoding")) (header_get h (lit "Content-Disposition"))
    (src_bytes body) location (depth + 1)) -> finds (scanRFC822 inner data location depth).
Proof.
  intros Hd Hr Hf Hi. apply checked_finds. rewrite (proj2 (Z.leb_gt maxMIMEDepth depth)) by done. rewrite Hr. intros st Hb Hq.
  unfold sbind. rewrite contextReader_quiet by done. rewrite Hf. by apply Hi.
Qed.

Lemma message_not_text mediaType filename : is_message mediaType filename = true -> beq filename [] && is_text mediaType = false.
Proof.
  unfold is_message, is_text, beq. intros Hm. destruct (bool_decide (filename = [])) eqn:E; [|done]. apply bool_decide_eq_true in E. subst filename.
  apply orb_true_iff in Hm as [Hm|Hm]; [|by vm_compute in Hm]. apply bool_decide_eq_true in Hm. by subst mediaType.
Qed.

Lemma scan_leaf_finds inner depth location e mediaType filename decoded : attachmentFilename (e_disposition e) (e_type e) = inr filename ->
  is_message mediaType filename = true -> transfer_reader (e_encoding e) (e_data e) = Some decoded -> src_fault decoded = None ->
  go_len (src_bytes decoded) <= MaxAttachmentBytes (options s) -> 1 <= MaxAttachmentBytes (options s) ->
  (forall location, finds (scanRFC822 inner (src_bytes decoded) location depth)) ->
  finds (scan_leaf s inner (e_type e) (e_encoding e) (e_disposition e) (e_data e) location depth mediaType).
Proof.
  intros Hn Hm Ht Hf Hl Hlim Hi. unfold scan_leaf. rewrite Hn. cbv zeta.
  match goal with |- finds (_ ?m) => set (body := m) end.
  assert (Hbody : finds body).
  { intros st Hb Hq. subst body. unfold sbind. rewrite (decode_quiet _ _ _ decoded) by done. cbn [fst snd].
    rewrite negb_involutive, message_not_text by done. rewrite Hm. by apply Hi. }
  clearbody body. destruct (negb _); [by apply extension_guard_finds|done].
Qed.

Lemma hidden_found n e : hidden n e -> forall fuel depth location, 0 <= depth -> depth + Z.of_nat n < maxMIMEDepth ->
  Z.max 0 (maxMIMEDepth - depth) < Z.of_nat fuel -> finds (scan_mime s fuel (e_type e) (e_encoding e) (e_disposition e) (e_data e) location depth).
Proof.
  induction 1 as [e mt params fn Ht Hm Hn Hne Hx|n e mt params p Ht Hm Hbd Hp Hsub IH|n e mt params fn decoded h body Ht Hm Hn Hmsg Htr Hf Hl Hlim Hr Hb Hsub IH];
    intros fuel depth location Hd Hdn Hfuel; (destruct fuel as [|fuel]; [lia|]); cbn [scan_mime]; apply checked_finds;
    rewrite (proj2 (Z.leb_gt maxMIMEDepth depth)) by lia; rewrite Ht, Hm.
  - unfold scan_leaf. rewrite Hn. cbv zeta. unfold beq. rewrite (proj2 (bool_decide_eq_false _)) by done. cbn [negb]. by apply blocked_finds.
  - cbv zeta. fold (boundary_of params). unfold beq. rewrite (proj2 (bool_decide_eq_false _)) by done.
    destruct (multipart_parts (boundary_of params) (e_data e)) as [parts final]. apply (scan_parts_finds _ _ _ p); [|done|].
    + intros c en di da lo. pose proof (scan_mime_spec s fuel (depth + 1) ltac:(lia) ltac:(lia) c en di da lo) as Hs.
      by rewrite (proj2 (Z.ltb_lt 0 (depth + 1))) in Hs by lia.
    + intros lo. apply (IH fuel (depth + 1) lo); lia.
  - apply (scan_leaf_finds _ _ _ _ _ fn decoded); try done. intros lo. apply (scanRFC822_finds _ _ _ _ h body); [lia|done..|]. apply (IH fuel (depth + 1) lo); lia.
Qed.
End Masking.

(** ** The theorems *)

(** The limits of the configuration are not negative. *)
Definition limits_ok (s : Scanner) : Prop := 0 <= MaxArchiveFiles (options s) /\ 0 <= MaxArchiveUncompressedBytes (options s).

Section Theorems.
Context {UT : UnicodeTables} {NT : NameText} {RD : Readers}.

Lemma initial_budget s answers interruptions : limits_ok s -> budget s (MkScanning (MkScanState 0 0 answers) 0 interruptions).
Proof. intros [H1 H2]. split; cbn; unfold maxZIPMetadataBytes; lia. Qed.

Lemma ScanContext_good s answers interruptions contentType encoding disposition body : limits_ok s ->
  let r := ScanContext s answers interruptions contentType encoding disposition body in
  budget s r.2 /\ good s (clean_entity s false (MkEntity contentType encoding disposition body)) r.1.
Proof.
  intros Hl r. pose proof (scan_mime_spec s (S (Z.to_nat maxMIMEDepth)) 0 ltac:(lia) ltac:(unfold maxMIMEDepth; lia)
    contentType encoding disposition body (lit "message") _ (initial_budget s answers interruptions Hl)) as (Hb & _ & Hg). done.
Qed.

(** C9: scanning any message ends, without a read outside its bytes, within the
    depth limits of the code, and keeps every budget: the files of archives, the
    metadata of ZIP directories and the decompressed bytes of the whole message,
    whatever the decoders deliver and whenever the context ends. *)
Theorem scan_bounded (s : Scanner) (answers : list bool) (interruptions : list (option nat)) (contentType encoding disposition body : gostring) :
  limits_ok s ->
  let r := ScanContext s answers interruptions contentType encoding disposition body in
  r.1 <> VStuck /\ 0 <= archiveFiles (zstate r.2) <= MaxArchiveFiles (options s) /\
  0 <= zipMetadataBytes (zstate r.2) <= maxZIPMetadataBytes /\ 0 <= archiveBytes r.2 <= MaxArchiveUncompressedBytes (options s).
Proof.
  intros Hl r. destruct (ScanContext_good s answers interruptions contentType encoding disposition body Hl) as [[H1 H2 H3] Hg]. fold r in H1, H2, H3, Hg.
  split_and!; try lia. intros E. by rewrite E in Hg.
Qed.

(** C8: a clean result is sound. If the scanner reports neither a finding nor an
    error, then every MIME entity of the message, at any depth and inside attached
    messages, was read completely; every declared name is allowed; and every leaf
    that is not visible text or an attached message is free of blocked names and
    prohibited signatures, with everything inside its archives at any depth. *)
Theorem clean_scan_sound (s : Scanner) (answers : list bool) (interruptions : list (option nat)) (contentType encoding disposition body : gostring) :
  limits_ok s -> (ScanContext s answers interruptions contentType encoding disposition body).1 = VClean ->
  clean_entity s false (MkEntity contentType encoding disposition body).
Proof.
  intros Hl Hc. destruct (ScanContext_good s answers interruptions contentType encoding disposition body Hl) as [_ Hg]. by rewrite Hc in Hg.
Qed.

(** every finding names an extension of the policy or a signature that is
    prohibited. *)
Theorem finding_justified (s : Scanner) (answers : list bool) (interruptions : list (option nat)) (contentType encoding disposition body : gostring) (f : Finding) :
  limits_ok s -> (ScanContext s answers interruptions contentType encoding disposition body).1 = VFound f -> justified s f.
Proof.
  intros Hl Hc. destruct (ScanContext_good s answers interruptions contentType encoding disposition body Hl) as [_ Hg]. by rewrite Hc in Hg.
Qed.

(** C10: nothing elsewhere in a message masks a blocked name. If a part with a
    blocked name lies fewer than sixteen levels deep, below multiparts and readable
    attached messages, the scan of the whole message is a finding, even when other
    parts are malformed, encrypted, oversized or cannot be decoded. *)
Theorem blocked_name_not_masked (s : Scanner) (n : nat) (contentType encoding disposition body : gostring) :
  limits_ok s -> hidden s n (MkEntity contentType encoding disposition body) -> Z.of_nat n < maxMIMEDepth ->
  exists f, (Scan s contentType encoding disposition body).1 = VFound f.
Proof.
  intros Hl Hh Hn. apply (hidden_found s n _ Hh (S (Z.to_nat maxMIMEDepth)) 0 (lit "message")); [lia|lia|unfold maxMIMEDepth; lia|by apply initial_budget|done].
Qed.
End Theorems.

(** ** A simple mail library, for evaluation *)

(** Header lines up to an empty line, then the body. *)
Fixpoint header_lines (lines : list gostring) : list (gostring * gostring) * list gostring :=
  match lines with
  | [] => ([], [])
  | [] :: rest => ([], rest)
  | line :: rest => let '(h, body) := header_lines rest in let '(k, v, _) := cut_pair COLON line in ((k, trimSpace v) :: h, body)
  end.
Definition simple_message (data : gostring) : list (gostring * gostring) * source :=
  let '(h, body) := header_lines (split LF data) in (h, Source (join [LF] body) None).
(** Parts follow lines that consist of two dashes and the boundary. *)
Fixpoint part_lines (marker : gostring) (lines : list gostring) : list (list gostring) :=
  match lines with
  | [] => [[]]
  | line :: rest =>
      if beq line marker then [] :: part_lines marker rest
      else match part_lines marker rest with p :: ps => (line :: p) :: ps | [] => [[line]] end
  end.
Definition simple_parts (boundary data : gostring) : list part * option goerror :=
  ((λ lines, let '(h, body) := simple_message (join [LF] lines) in MkPart h body) <$> tail (part_lines (lit "--" ++ boundary) (split LF data)), None).
(** Archives that store their content after a short header. *)
Definition plain_readers : Readers := {|
  multipart_parts := simple_parts; ReadMessage data := inr (simple_message data); zip_NewReader _ := inl ErrFormat; tar_entries _ := ([], None);
  gzip_NewReader data := inr ([], Source (drop 2 data) None); bzip2_reader data := Source (drop 3 data) None; flate_reader data := Source data None;
  base64_decoder data := Source data None; quotedprintable_reader data := Source data None |}.

Definition sample_scanner : Scanner := @New basic_tables sample_options.
Definition text_lines (l : list string) : gostring := join [LF] (lit <$> l).

(** A text and a compressed report. *)
Definition clean_mail : gostring :=
  text_lines ["--x"; "Content-Type: text/plain"; ""; "see the report"; "--x";
    "Content-Type: application/gzip; name=report.txt.gz"; ""]%string ++ [LF; chr 0x1f; chr 0x8b] ++ lit "figures".
Definition multipart_x : gostring := lit "multipart/mixed; boundary=x".

#[local] Existing Instances basic_tables plain_names plain_readers.

Lemma scan_bounded_example : limits_ok sample_scanner /\ archiveBytes (ScanContext sample_scanner [] [] multipart_x [] [] clean_mail).2 <= 5000.
Proof. split; [by split|]. apply (scan_bounded sample_scanner [] [] multipart_x [] [] clean_mail). by split. Defined.

Lemma clean_scan_witness : (Scan sample_scanner multipart_x [] [] clean_mail).1 = VClean /\ clean_entity sample_scanner false (MkEntity multipart_x [] [] clean_mail).
Proof. split; [by vm_compute|]. apply (clean_scan_sound sample_scanner [] []); [by split|by vm_compute]. Defined.

(** A message with an unsupported encoding first, and an attached message with a
    script in it after that. *)
Definition hostile_mail : gostring :=
  text_lines ["--x"; "Content-Type: text/plain"; "Content-Transfer-Encoding: rot13"; ""; "uryyb"; "--x";
    "Content-Type: message/rfc822"; ""; "Content-Type: application/pdf; name=invoice.JS. "; ""; "%PDF"]%string.
Lemma hostile_hidden : hidden sample_scanner 2 (MkEntity multipart_x [] [] hostile_mail).
Proof.
  apply (hidden_part _ 1 _ (lit "multipart/mixed") [(lit "boundary", lit "x")] (nth 1 (simple_parts (lit "x") hostile_mail).1 (MkPart [] (Source [] None))));
    [by vm_compute|by vm_compute|by vm_compute|apply list_elem_of_In, nth_In; vm_compute; lia|].
  eapply (hidden_message _ 0 _ (lit "message/rfc822") [] []); [by vm_compute..|vm_compute; discriminate|vm_compute; discriminate|by vm_compute|by vm_compute|].
  eapply (hidden_here _ _ (lit "application/pdf") _ (lit "invoice.JS.")); by vm_compute.
Qed.
Lemma blocked_name_witness : (Scan sample_scanner multipart_x [] [] hostile_mail).1 = VFound (MkFinding (lit "message/invoice.JS.") (lit "blocked extension .js"))
  /\ exists f, (Scan sample_scanner multipart_x [] [] hostile_mail).1 = VFound f.
Proof. split; [by vm_compute|]. apply (blocked_name_not_masked sample_scanner 2); [by split|exact hostile_hidden|by vm_compute]. Defined.
