(* ===== verification/Archive.v ===== *)
(** * The archive of rejected mail (internal/rejectedmail/archive.go)

    The archive keeps one file per rejected message below a directory of its
    own, in a tree of years, months and days.  The model holds the part of the
    file system below that directory: a map from paths to directories, regular
    files and symbolic links.  A path is the list of its names, the innermost
    first, so the archive's directory is [[]]; the code's [filepath.Join] and
    [filepath.Rel] with the (clean) directory go between such a path and its
    text.

    Every call of the operating system takes one [tick]: it works, it fails
    having done part of its work, or an empty directory has disappeared before
    it (a concurrent cleanup).  Every inspection of the context takes one
    answer.  A path that leads through a symbolic link leaves the archive; the
    calls that would follow one fail.  Logging and the counts that only the log
    shows are left out. *)
From S2P Require Import Prelude GoText SqlDb Calendar.

(** ** The file system *)

Abbreviation path := (list gostring).
Inductive entry := EDir | EFile (contents : gostring) (modified : Z) | ELink.
#[export] Instance entry_eq_dec : EqDecision entry.
Proof. solve_decision. Defined.
Abbreviation tree := (gmap path entry).

Inductive fs_error := NotExist | AlreadyExists | NotEmpty | NotDirectory | SymbolicLink | CallFailed.
Inductive archive_failure := Fs (e : fs_error) | ContextDone | ErrReadLimit | Refused (text : gostring).

Inductive tick := Works | Faults (progress : nat) | Vanishes (p : path).
(** [diskClock] is the time the file system gives to a file written now. *)
Record world := MkWorld { tree_of : tree; ticks : list tick; context : list bool; diskClock : Z }.
Definition set_tree (t : tree) (w : world) : world := MkWorld t (ticks w) (context w) (diskClock w).

Definition IO (A : Type) : Type := world -> (archive_failure + A) * world.
Definition iret {A} (a : A) : IO A := λ w, (inr a, w).
Definition ifail {A} (e : archive_failure) : IO A := λ w, (inl e, w).
Definition ibind {A B} (m : IO A) (k : A -> IO B) : IO B := λ w, match m w with (inl e, w) => (inl e, w) | (inr a, w) => k a w end.
(** The error as a value. *)
Definition attempt_ {A} (m : IO A) : IO (archive_failure + A) := λ w, (inr (m w).1, (m w).2).

Declare Scope archive_scope.
Delimit Scope archive_scope with archive.
Notation "'let?' x := m 'in' k" := (ibind m (λ x, k)) (at level 200, x binder, m at level 100, k at level 200, right associativity) : archive_scope.
Notation "m ;? k" := (ibind m (λ _, k)) (at level 100, right associativity) : archive_scope.
Open Scope archive_scope.

Fixpoint for_each {A} (f : A -> IO unit) (l : list A) : IO unit :=
  match l with [] => iret tt | a :: l => f a ;? for_each f l end.

(** [ctx.Err()] *)
Definition ctx_check : IO unit := λ w,
  match context w with
  | true :: rest => (inl ContextDone, MkWorld (tree_of w) (ticks w) rest (diskClock w))
  | _ :: rest => (inr tt, MkWorld (tree_of w) (ticks w) rest (diskClock w))
  | [] => (inr tt, w)
  end.

Definition is_child (p q : path) : bool := match q with _ :: q => bool_decide (q = p) | [] => false end.
Definition empty_dir (p : path) (t : tree) : bool := negb (existsb (is_child p) (map_to_list t).*1).
Definition prune (p : path) (t : tree) : tree :=
  if bool_decide (p <> []) && bool_decide (t !! p = Some EDir) && empty_dir p t then delete p t else t.

Definition syscall {A : Type} (partial : nat -> tree -> tree) (run : tree -> (fs_error + A) * tree) : IO A := λ w,
  let step (t : tree) (rest : list tick) :=
    let '(r, t) := run t in
    (match r with inl e => inl (Fs e) | inr a => inr a end, MkWorld t rest (context w) (diskClock w)) in
  match ticks w with
  | [] => step (tree_of w) []
  | Works :: rest => step (tree_of w) rest
  | Vanishes p :: rest => step (prune p (tree_of w)) rest
  | Faults n :: rest => (inl (Fs CallFailed), MkWorld (partial n (tree_of w)) rest (context w) (diskClock w))
  end.
(** A call that leaves the tree alone when it fails. *)
Definition simple_call {A : Type} (run : tree -> (fs_error + A) * tree) : IO A := syscall (λ _ t, t) run.

(** Whether something can be made at a path: the path above is a directory (the
    archive's directory itself is made where it belongs). *)
Definition parent_error (p : path) (t : tree) : option fs_error :=
  match p with
  | [] => None
  | _ :: q => match t !! q with
              | Some EDir => None
              | Some (EFile _ _) => Some NotDirectory
              | Some ELink => Some SymbolicLink
              | None => Some NotExist
              end
  end.
Definition make_entry (p : path) (e : entry) (t : tree) : (fs_error + unit) * tree :=
  match t !! p, parent_error p t with
  | Some _, _ => (inl AlreadyExists, t)
  | None, Some f => (inl f, t)
  | None, None => (inr tt, <[p := e]> t)
  end.
(** [os.MkdirAll]: the directories of a path from the outermost on. *)
Fixpoint MkdirAll (p : path) : IO unit :=
  match p with [] => iret tt | _ :: parent => MkdirAll parent end ;?
  λ w, match tree_of w !! p with
       | Some EDir => (inr tt, w)
       | Some (EFile _ _) => (inl (Fs NotDirectory), w)
       | Some ELink => (inl (Fs SymbolicLink), w)
       | None => simple_call (make_entry p EDir) w
       end.

(** [os.OpenFile(path, O_WRONLY|O_CREATE|O_EXCL)] *)
Definition create_exclusive (p : path) : IO unit := λ w, simple_call (make_entry p (EFile [] (diskClock w))) w.

(** [file.Write]: a failing write may have stored a part. *)
Definition write_file (p : path) (data : gostring) : IO unit := λ w,
  syscall (λ n t, <[p := EFile (take n data) (diskClock w)]> t) (λ t, (inr tt, <[p := EFile data (diskClock w)]> t)) w.
Definition close_file : IO unit := simple_call (λ t, (inr tt, t)).

(** [os.Remove] *)
Definition remove_entry (p : path) (t : tree) : (fs_error + unit) * tree :=
  match t !! p with
  | None => (inl NotExist, t)
  | Some EDir => if empty_dir p t then (inr tt, delete p t) else (inl NotEmpty, t)
  | Some _ => (inr tt, delete p t)
  end.
Definition Remove (p : path) : IO unit := simple_call (remove_entry p).

Definition below (p q : path) : bool := bool_decide (p `suffix_of` q).
Definition deeper (a b : path) : Prop := (length b <= length a)%nat.
#[export] Instance deeper_dec a b : Decision (deeper a b).
Proof. unfold deeper. apply _. Defined.
(** [os.RemoveAll]: whatever is below the path; a failing call has removed some
    of it, contents before their directory. *)
Definition RemoveAll (p : path) : IO unit :=
  syscall (λ n t, foldr delete t (take n (merge_sort deeper (List.filter (below p) (map_to_list t).*1))))
          (λ t, (inr tt, filter (λ qe, below p qe.1 = false) t)).

Definition by_name (a b : gostring * entry) : Prop := bytes_leb a.1 b.1 = true.
#[export] Instance by_name_dec a b : Decision (by_name a b).
Proof. unfold by_name. apply _. Defined.
Definition child_of (p : path) (qe : path * entry) : option (gostring * entry) :=
  match qe.1 with n :: q => if bool_decide (q = p) then Some (n, qe.2) else None | [] => None end.
Definition children (p : path) (t : tree) : list (gostring * entry) := merge_sort by_name (omap (child_of p) (map_to_list t)).
(** [os.ReadDir] *)
Definition ReadDir (p : path) : IO (list (gostring * entry)) :=
  simple_call (λ t,
    match t !! p with
    | Some EDir => (inr (children p t), t)
    | Some (EFile _ _) => (inl NotDirectory, t)
    | Some ELink => (inl SymbolicLink, t)
    | None => (inl NotExist, t)
    end).

(** [os.OpenFile(path, O_RDONLY|O_NOFOLLOW)]: what was opened. *)
Definition open_nofollow (p : path) : IO entry :=
  simple_call (λ t,
    match t !! p with
    | None => (inl NotExist, t)
    | Some ELink => (inl SymbolicLink, t)
    | Some e => (inr e, t)
    end).
(** [file.Stat], [io.ReadAll] of an open file. *)
Definition file_call : IO unit := simple_call (λ t, (inr tt, t)).

(** ** Texts *)

(** The year of [Time.Format]. *)
Definition format_year (y : Z) : gostring := if y <? 0 then "-"%char :: pad0 4 (- y) else pad0 4 y.
Definition date_path (t : Z) : path :=
  let c := date_of t in [pad0 2 (cv_day c); pad0 2 (cv_month c); format_year (cv_year c)].

Definition hex_digit (n : Z) : ascii := if n <? 10 then chr (48 + n) else chr (87 + n).
Definition hex_text (s : gostring) : gostring := concat ((λ c, [hex_digit (code c / 16); hex_digit (code c mod 16)]) <$> s).
Definition record_name (recordID : Z) : gostring := itoa recordID ++ lit ".eml".
(** [now.Format("20060102T150405.000000000Z") + "-" + hex + ".eml"] *)
Definition random_name (now : Z) (random : gostring) : gostring :=
  let c := date_of now in
  let s := (now mod day) / second in
  format_year (cv_year c) ++ pad0 2 (cv_month c) ++ pad0 2 (cv_day c) ++ lit "T" ++
  pad0 2 (s / 3600) ++ pad0 2 (s / 60 mod 60) ++ pad0 2 (s mod 60) ++ lit "." ++ pad0 9 (now mod second) ++ lit "Z-" ++ hex_text random ++ lit ".eml".

(** The zero [time.Time] is the first instant of the year 1. *)
Definition zero_time : Z := go_date 1 1 1 0.

(** ** The archive *)

Record Options := MkOptions { Retention : Z; MaxTotalBytes : Z }.
Record StoredMessage := MkStoredMessage { Contents : gostring; Path : path }.
Record storedFile := MkStoredFile { sf_path : path; sf_size : Z; sf_modifiedAt : Z }.

Definition openArchiveFile (p directory : path) : IO unit :=
  let? r := attempt_ (create_exclusive p) in
  match r with
  | inl (Fs NotExist) => MkdirAll directory ;? create_exclusive p
  | inl e => ifail e
  | inr _ => iret tt
  end.

(** [random] is what the random generator returns, for a message without a record. *)
Definition saveAt (o : Options) (message : gostring) (recordID now : Z) (random : option gostring) : IO path :=
  if MaxTotalBytes o <? go_len message then ifail (Refused (lit "message exceeds rejected mail archive byte limit"))
  else
    let directory := date_path now in
    MkdirAll directory ;?
    let? name := if negb (recordID =? 0) then iret (record_name recordID)
                 else match random with Some bytes => iret (random_name now bytes) | None => ifail (Refused (lit "random")) end in
    let p := name :: directory in
    let? opened := attempt_ (openArchiveFile p directory) in
    match opened with
    | inl (Fs AlreadyExists) => ifail (Refused (lit "rejected message archive file already exists"))
    | inl e => ifail e
    | inr _ =>
        let? written := attempt_ (write_file p message) in
        match written with
        | inl e => attempt_ close_file ;? attempt_ (Remove p) ;? ifail e
        | inr _ =>
            let? closed := attempt_ close_file in
            match closed with
            | inl e => attempt_ (Remove p) ;? ifail e
            | inr _ => iret p
            end
        end
    end.

Definition Save (o : Options) (message : gostring) (now : Z) (random : option gostring) : IO path := saveAt o message 0 now random.

Definition SaveWithRecordIDAt (o : Options) (message : gostring) (recordID rejectedAt : Z) : IO path :=
  if recordID =? 0 then ifail (Refused (lit "rejection record ID must be greater than zero"))
  else if rejectedAt =? zero_time then ifail (Refused (lit "rejection time must be set"))
  else saveAt o message recordID rejectedAt None.

Definition record_path (recordID rejectedAt : Z) : path := record_name recordID :: date_path rejectedAt.
(** [present] tells whether there is an archive. *)
Definition ReadWithRecordID (present : bool) (recordID rejectedAt maxBytes : Z) : IO StoredMessage :=
  if negb present || (recordID =? 0) || (rejectedAt =? zero_time) then ifail (Fs NotExist)
  else if maxBytes <? 1 then ifail (Refused (lit "saved message read limit must be positive"))
  else
    let p := record_path recordID rejectedAt in
    let? e := open_nofollow p in
    file_call ;?
    match e with
    | EFile contents _ =>
        if maxBytes <? go_len contents then ifail ErrReadLimit
        else
          file_call ;?
          let contents := take (Z.to_nat (maxBytes + 1)) contents in
          if maxBytes <? go_len contents then ifail ErrReadLimit
          else iret (MkStoredMessage contents p)
    | _ => ifail (Refused (lit "saved message is not a regular file"))
    end.

(** ** Cleanup *)

Definition dateOnly (t : Z) : Z := let c := date_of t in go_date (cv_year c) (cv_month c) (cv_day c) 0.

Definition dateDirectoryNumber (e : gostring * entry) (width minimum maximum : Z) : option Z :=
  if negb (bool_decide (e.2 = EDir)) || negb (go_len e.1 =? width) then None
  else match atoi e.1 with
       | Some v => if (minimum <=? v) && (v <=? maximum) then Some v else None
       | None => None
       end.
#[export] Instance civil_eq_dec : EqDecision civil.
Proof. solve_decision. Defined.
(** Whether [time.Date] keeps a year, month and day as they are. *)
Definition same_date (y m d : Z) : bool := bool_decide (date_of (go_date y m d 0) = Civil y m d).
Definition validDayDirectory (e : gostring * entry) (year month : Z) : option Z :=
  match dateDirectoryNumber e 2 1 31 with
  | Some d => let value := go_date year month d 0 in
              if same_date year month d then Some value else None
  | None => None
  end.

Definition removeIfEmpty (p : path) : IO unit :=
  let? r := attempt_ (ReadDir p) in
  match r with inr [] => attempt_ (Remove p) ;? iret tt | _ => iret tt end.

Fixpoint removeEmptyParents (p : path) : IO unit :=
  match p with
  | [] => iret tt
  | _ :: parent =>
      let? r := attempt_ (ReadDir p) in
      match r with
      | inr [] => let? removed := attempt_ (Remove p) in
                  match removed with inl _ => iret tt | inr _ => removeEmptyParents parent end
      | _ => iret tt
      end
  end.

Definition expire_day (cutoff : Z) (year month : Z) (monthPath : path) (e : gostring * entry) : IO unit :=
  ctx_check ;?
  match validDayDirectory e year month with
  | Some d => if d <? cutoff then RemoveAll (e.1 :: monthPath) else iret tt
  | None => iret tt
  end.
Definition expire_month (cutoff : Z) (year : Z) (yearPath : path) (e : gostring * entry) : IO unit :=
  ctx_check ;?
  match dateDirectoryNumber e 2 1 12 with
  | Some month =>
      let monthPath := e.1 :: yearPath in
      if go_date year (month + 1) 1 0 <=? cutoff then RemoveAll monthPath
      else
        let? days := ReadDir monthPath in
        for_each (expire_day cutoff year month monthPath) days ;?
        removeIfEmpty monthPath
  | None => iret tt
  end.
Definition expire_year (cutoff : Z) (e : gostring * entry) : IO unit :=
  ctx_check ;?
  match dateDirectoryNumber e 4 1 9999 with
  | Some year =>
      let yearPath := [e.1] in
      if go_date (year + 1) 1 1 0 <=? cutoff then RemoveAll yearPath
      else
        let? months := ReadDir yearPath in
        for_each (expire_month cutoff year yearPath) months ;?
        removeIfEmpty yearPath
  | None => iret tt
  end.
Definition removeExpiredDateTrees (cutoff : Z) : IO unit :=
  let? years := ReadDir [] in for_each (expire_year cutoff) years.

Definition validMessagePath (p : path) : bool :=
  match p with
  | [_; d; m; y] =>
      (go_len y =? 4) && (go_len m =? 2) && (go_len d =? 2) &&
      match atoi y, atoi m, atoi d with
      | Some year, Some month, Some day => (1 <=? month) && (month <=? 12) && same_date year month day
      | _, _, _ => false
      end
  | _ => false
  end.

Section Measure.
Context `{UnicodeTables}.

(** [filepath.Ext] *)
Definition ext (name : gostring) : gostring := match after_last "."%char name with Some e => "."%char :: e | None => [] end.
Definition message_path (p : path) : bool :=
  match p with name :: _ => equalFold (ext name) (lit ".eml") && validMessagePath p | [] => false end.

(** The text of a path below the archive's directory. *)
Definition path_text (p : path) : gostring := join (lit "/") (rev p).
Definition path_le (a b : path) : Prop := bytes_leb (path_text a) (path_text b) = true.
#[global] Instance path_le_dec a b : Decision (path_le a b).
Proof. unfold path_le. apply _. Defined.

(** [filepath.WalkDir] with the function both measurements pass to it, over the
    tree as it stands: every entry is visited, reading a directory may fail, and
    the messages found are collected. *)
Fixpoint walk (paths : list path) (files : list storedFile) : IO (list storedFile) :=
  match paths with
  | [] => iret files
  | p :: paths =>
      ctx_check ;?
      λ w, match tree_of w !! p with
           | Some EDir => (file_call ;? walk paths files) w
           | Some (EFile contents modified) =>
               if message_path p then (file_call ;? walk paths (files ++ [MkStoredFile p (go_len contents) modified])) w
               else walk paths files w
           | _ => walk paths files w
           end
  end.
Definition all_paths (t : tree) : list path := merge_sort path_le (map_to_list t).*1.
Definition total_size (files : list storedFile) : Z := foldr Z.add 0 (sf_size <$> files).

Definition indexFiles : IO (list storedFile * Z) := λ w,
  (let? files := walk (all_paths (tree_of w)) [] in iret (files, total_size files)) w.
Definition archiveSize : IO Z := λ w,
  (let? files := walk (all_paths (tree_of w)) [] in iret (total_size files)) w.

Definition older (a b : storedFile) : Prop :=
  sf_modifiedAt a < sf_modifiedAt b \/ sf_modifiedAt a = sf_modifiedAt b /\ path_le (sf_path a) (sf_path b).
#[global] Instance older_dec a b : Decision (older a b).
Proof. unfold older. apply _. Defined.
Definition sortStoredFiles (files : list storedFile) : list storedFile := merge_sort older files.

Fixpoint evict (maximum : Z) (files : list storedFile) (total : Z) : IO Z :=
  match files with
  | [] => iret total
  | f :: files =>
      ctx_check ;?
      if total <=? maximum then iret total
      else
        Remove (sf_path f) ;?
        removeEmptyParents (tail (sf_path f)) ;?
        evict maximum files (total - sf_size f)
  end.

Definition Cleanup (o : Options) (now : Z) : IO unit :=
  ctx_check ;?
  MkdirAll [] ;?
  removeExpiredDateTrees (dateOnly (now - Retention o)) ;?
  let? total := archiveSize in
  if MaxTotalBytes o <? total then
    let? indexed := indexFiles in
    evict (MaxTotalBytes o) (sortStoredFiles indexed.1) indexed.2 ;?
    iret tt
  else iret tt.
End Measure.
