(* ===== verification/ArchiveSpec.v ===== *)
(** * The archive of rejected mail: what it keeps and what it removes

    The archive's tree stays a tree; saving never touches another message and
    reads back as it was saved; cleanup removes exactly the expired days, and
    beyond them only the oldest messages of an archive that is too large. *)
From S2P Require Import Prelude GoText SqlDb Calendar Archive.

(** ** Trees *)

(** What is at a path, directories apart. *)
Definition leaf (t : tree) (p : path) : option entry := match t !! p with Some EDir => None | e => e end.
Definition tree_wf (t : tree) : Prop := forall n p, t !! (n :: p) <> None -> t !! p = Some EDir.

Lemma leaf_delete_dir t p q : leaf t p = None -> leaf (delete p t) q = leaf t q.
Proof. unfold leaf. intros Hp. destruct (decide (p = q)) as [<-|Hn]; [by rewrite lookup_delete_eq, Hp|by rewrite lookup_delete_ne]. Qed.
Lemma leaf_insert_dir t p q : leaf t p = None -> leaf (<[p := EDir]> t) q = leaf t q.
Proof. unfold leaf. intros Hp. destruct (decide (p = q)) as [<-|Hn]; [by rewrite lookup_insert_eq, Hp|by rewrite lookup_insert_ne]. Qed.
Lemma leaf_some t p e : leaf t p = Some e -> t !! p = Some e /\ e <> EDir.
Proof. unfold leaf. destruct (t !! p) as [[]|] eqn:E; intros H; simplify_eq; done. Qed.

Lemma empty_dir_spec p t : empty_dir p t = true <-> forall n, t !! (n :: p) = None.
Proof.
  unfold empty_dir. rewrite negb_true_iff. split.
  - intros He n. destruct (t !! (n :: p)) as [e|] eqn:E; [|done]. exfalso.
    assert (existsb (is_child p) (map_to_list t).*1 = true) as H; [|congruence].
    apply existsb_exists. exists (n :: p). split; [|cbn; by apply bool_decide_true].
    apply list_elem_of_In, list_elem_of_fmap. exists (n :: p, e). split; [done|by apply elem_of_map_to_list].
  - intros Hn. destruct (existsb _ _) eqn:E; [|done]. apply existsb_exists in E as (q & Hq & Hc).
    apply list_elem_of_In, list_elem_of_fmap in Hq as ([q' e] & -> & Hq). apply elem_of_map_to_list in Hq. cbn in *.
    destruct q' as [|n q']; [done|]. cbn in Hc. apply bool_decide_eq_true in Hc as ->. by rewrite Hn in Hq.
Qed.

Lemma wf_delete t p : tree_wf t -> (forall n, t !! (n :: p) = None) -> tree_wf (delete p t).
Proof.
  intros Hw Hp n q H. destruct (decide (p = n :: q)) as [->|Hn]; [by rewrite lookup_delete_eq in H|]. rewrite lookup_delete_ne in H by done.
  specialize (Hw n q H). rewrite lookup_delete_ne; [done|]. intros ->. by rewrite Hp in H.
Qed.
Lemma wf_leaf_childless t p : tree_wf t -> t !! p <> Some EDir -> forall n, t !! (n :: p) = None.
Proof. intros Hw Hp n. destruct (t !! (n :: p)) eqn:E; [|done]. exfalso. apply Hp, (Hw n). by rewrite E. Qed.
Lemma wf_insert t p e : tree_wf t -> t !! p <> Some EDir \/ e = EDir -> match p with [] => True | _ :: q => t !! q = Some EDir end -> tree_wf (<[p := e]> t).
Proof.
  intros Hw He Hp n q H. destruct (decide (p = n :: q)) as [->|Hn].
  - rewrite lookup_insert_ne; [done|]. intros E. apply (f_equal length) in E. cbn in E. lia.
  - rewrite lookup_insert_ne in H by done. specialize (Hw n q H). destruct (decide (p = q)) as [<-|Hq]; [|by rewrite lookup_insert_ne].
    rewrite lookup_insert_eq. destruct He as [He|He]; congruence.
Qed.
(** The entries above an entry of a tree are directories. *)
Lemma wf_above t p q : tree_wf t -> t !! (p ++ q) <> None -> p <> [] -> t !! q = Some EDir.
Proof.
  intros Hw. induction p as [|n p IH]; [done|]. intros H _. cbn in H. apply Hw in H. destruct p as [|m p]; [done|]. apply IH; [by rewrite H|done].
Qed.

Lemma prune_cases p t : prune p t = t \/ prune p t = delete p t /\ t !! p = Some EDir /\ forall n, t !! (n :: p) = None.
Proof.
  unfold prune. destruct (bool_decide (p <> []) && bool_decide (t !! p = Some EDir) && empty_dir p t) eqn:E; [|by left].
  apply andb_prop in E as [E He]. apply andb_prop in E as [_ Hd]. apply bool_decide_eq_true in Hd. right. split_and!; [done|done|]. by apply empty_dir_spec.
Qed.
Lemma prune_leaf p t q : leaf (prune p t) q = leaf t q.
Proof. destruct (prune_cases p t) as [->|(-> & Hd & _)]; [done|]. apply leaf_delete_dir. unfold leaf. by rewrite Hd. Qed.
Lemma prune_wf p t : tree_wf t -> tree_wf (prune p t).
Proof. intros Hw. destruct (prune_cases p t) as [->|(-> & _ & Hc)]; [done|]. by apply wf_delete. Qed.
Lemma prune_some p t q : prune p t !! q <> None -> prune p t !! q = t !! q.
Proof.
  destruct (prune_cases p t) as [->|(-> & _ & _)]; [done|]. destruct (decide (p = q)) as [<-|Hn]; [by rewrite lookup_delete_eq|by rewrite lookup_delete_ne].
Qed.

(** ** Calls that remove nothing but what they may *)

(** The tree stays a tree and every leaf stays as it is, apart from those of [X],
    which may be gone. *)
Definition keeps_but (X : path -> Prop) (t t' : tree) : Prop :=
  (tree_wf t -> tree_wf t') /\ forall q, leaf t' q = leaf t q \/ X q /\ leaf t' q = None.
Abbreviation keeps := (keeps_but (λ _, False)).

#[export] Instance keeps_but_refl X : Reflexive (keeps_but X).
Proof. intros t. split; [done|]. by left. Qed.
#[export] Instance keeps_but_trans X : Transitive (keeps_but X).
Proof.
  intros t1 t2 t3 [W1 L1] [W2 L2]. split; [auto|]. intros q. destruct (L2 q) as [E|E]; [|by right]. rewrite E. apply L1.
Qed.
Lemma keeps_weaken (X Y : path -> Prop) t t' : (forall q, X q -> Y q) -> keeps_but X t t' -> keeps_but Y t t'.
Proof. intros HXY [W L]. split; [done|]. intros q. destruct (L q) as [|[]]; auto. Qed.
Lemma keeps_any X t t' : keeps t t' -> keeps_but X t t'.
Proof. by apply keeps_weaken. Qed.
Lemma keeps_leaf t t' q : keeps t t' -> leaf t' q = leaf t q.
Proof. intros [_ L]. by destruct (L q) as [|[]]. Qed.
Lemma keeps_none X t t' q : keeps_but X t t' -> leaf t q = None -> leaf t' q = None.
Proof. intros [_ L] H. destruct (L q) as [E|[_ E]]; congruence. Qed.
Lemma keeps_some X t t' q e : keeps_but X t t' -> leaf t' q = Some e -> leaf t q = Some e.
Proof. intros [_ L] H. destruct (L q) as [E|[_ E]]; congruence. Qed.
Lemma prune_keeps p t : keeps t (prune p t).
Proof. split; [apply prune_wf|]. intros q. left. apply prune_leaf. Qed.

Definition always {A} (X : path -> Prop) (m : IO A) : Prop := forall w, keeps_but X (tree_of w) (tree_of (m w).2).

Lemma always_ret {A} X (a : A) : always X (iret a).
Proof. intros w. reflexivity. Qed.
Lemma always_fail {A} X e : always X (@ifail A e).
Proof. intros w. reflexivity. Qed.
Lemma always_bind {A B} X (m : IO A) (k : A -> IO B) : always X m -> (forall a, always X (k a)) -> always X (ibind m k).
Proof.
  intros Hm Hk w. specialize (Hm w). unfold ibind. destruct (m w) as [[e|a] w1]; [done|]. etransitivity; [exact Hm|]. apply Hk.
Qed.
Lemma always_attempt {A} X (m : IO A) : always X m -> always X (attempt_ m).
Proof. intros Hm w. apply Hm. Qed.
Lemma always_each {A} X (f : A -> IO unit) l : (forall a, always X (f a)) -> always X (for_each f l).
Proof. intros Hf. induction l as [|a l IH]; [apply always_ret|]. apply always_bind; auto. Qed.
Lemma always_weaken {A} (X Y : path -> Prop) (m : IO A) : (forall q, X q -> Y q) -> always X m -> always Y m.
Proof. intros HXY Hm w. eapply keeps_weaken; [exact HXY|]. apply Hm. Qed.
Lemma ctx_check_tree w : tree_of (ctx_check w).2 = tree_of w.
Proof. unfold ctx_check. destruct (context w) as [|[] c]; done. Qed.
Lemma always_ctx X : always X ctx_check.
Proof. intros w. by rewrite ctx_check_tree. Qed.

Lemma always_syscall {A : Type} (X : path -> Prop) (partial : nat -> tree -> tree) (run : tree -> (fs_error + A) * tree) :
  (forall n t, keeps_but X t (partial n t)) -> (forall t, keeps_but X t (run t).2) -> always X (syscall partial run).
Proof.
  intros Hp Hr w. unfold syscall. destruct (ticks w) as [|[|n|p] rest].
  - specialize (Hr (tree_of w)). destruct (run (tree_of w)) as [r t]. exact Hr.
  - specialize (Hr (tree_of w)). destruct (run (tree_of w)) as [r t]. exact Hr.
  - apply Hp.
  - specialize (Hr (prune p (tree_of w))). destruct (run (prune p (tree_of w))) as [r t]. etransitivity; [apply keeps_any, prune_keeps|exact Hr].
Qed.
Lemma always_simple {A : Type} (X : path -> Prop) (run : tree -> (fs_error + A) * tree) : (forall t, keeps_but X t (run t).2) -> always X (simple_call run).
Proof. intros Hr. by apply always_syscall. Qed.
Lemma simple_keeps_at {A : Type} (X : path -> Prop) (run : tree -> (fs_error + A) * tree) w :
  (forall t, keeps (tree_of w) t -> keeps_but X t (run t).2) -> keeps_but X (tree_of w) (tree_of (simple_call run w).2).
Proof.
  intros Hr. unfold simple_call, syscall. destruct (ticks w) as [|[|n|p] rest]; [| |reflexivity|].
  - specialize (Hr (tree_of w) ltac:(reflexivity)). destruct (run (tree_of w)) as [r t]. exact Hr.
  - specialize (Hr (tree_of w) ltac:(reflexivity)). destruct (run (tree_of w)) as [r t]. exact Hr.
  - specialize (Hr (prune p (tree_of w)) (prune_keeps p _)). destruct (run (prune p (tree_of w))) as [r t]. etransitivity; [apply keeps_any, prune_keeps|exact Hr].
Qed.
(** A call that returned ran on the tree, or on the tree without an empty directory. *)
Lemma syscall_returned {A : Type} (partial : nat -> tree -> tree) (run : tree -> (fs_error + A) * tree) w a w' : syscall partial run w = (inr a, w') ->
  exists t, keeps (tree_of w) t /\ (forall q, t !! q <> None -> t !! q = tree_of w !! q) /\ run t = (inr a, tree_of w').
Proof.
  unfold syscall. destruct (ticks w) as [|[|n|p] rest]; [| |done|]; intros E.
  - exists (tree_of w). destruct (run (tree_of w)) as [[r|r] t]; [done|]. injection E as -> <-. by split_and!.
  - exists (tree_of w). destruct (run (tree_of w)) as [[r|r] t]; [done|]. injection E as -> <-. by split_and!.
  - exists (prune p (tree_of w)). destruct (run (prune p (tree_of w))) as [[r|r] t]; [done|]. injection E as -> <-.
    split_and!; [apply prune_keeps|intros q; apply prune_some|done].
Qed.

(** ** The calls *)

Lemma make_entry_keeps X p t : keeps_but X t (make_entry p EDir t).2.
Proof.
  unfold make_entry. destruct (t !! p) as [e|] eqn:E; [reflexivity|]. destruct (parent_error p t) as [f|] eqn:Ep; [reflexivity|]. cbn [snd]. split.
  - intros Hw. apply wf_insert; [done|by right|]. unfold parent_error in Ep. destruct p as [|n q]; [done|]. by destruct (t !! q) as [[]|].
  - intros q. left. apply leaf_insert_dir. unfold leaf. by rewrite E.
Qed.
Lemma MkdirAll_keeps X p : always X (MkdirAll p).
Proof.
  induction p as [|n p IH]; cbn [MkdirAll]; (apply always_bind; [by try apply always_ret|]); intros _ w;
    (destruct (tree_of w !! _) as [[]|]; [reflexivity|reflexivity|reflexivity|]); apply (always_simple X (make_entry _ EDir)), make_entry_keeps.
Qed.

Lemma remove_entry_spec p t : let r := remove_entry p t in
  keeps_but (eq p) t r.2 /\ (leaf t p = None -> keeps t r.2) /\ (r.1 = inr tt -> leaf r.2 p = None).
Proof.
  assert (Hr : forall X, keeps_but X t t) by reflexivity. unfold remove_entry. cbv zeta.
  assert (Hleaf : t !! p <> None -> t !! p <> Some EDir -> keeps_but (eq p) t (delete p t)).
  { intros Hs Hd. split; [intros Hw; apply wf_delete; [done|by apply wf_leaf_childless]|]. intros q. unfold leaf.
    destruct (decide (p = q)) as [<-|Hn]; [right; by rewrite lookup_delete_eq|left; by rewrite lookup_delete_ne]. }
  assert (Hgone : leaf (delete p t) p = None) by (unfold leaf; by rewrite lookup_delete_eq).
  destruct (t !! p) as [[|c m|]|] eqn:E; cbn [fst snd].
  - destruct (empty_dir p t) eqn:Ee; cbn [fst snd]; [|by split_and!].
    assert (Hk : keeps t (delete p t)).
    { split; [intros Hw; apply wf_delete; [done|by apply empty_dir_spec]|]. intros q. left. apply leaf_delete_dir. unfold leaf. by rewrite E. }
    split_and!; [by apply keeps_any|done|done].
  - split_and!; [by apply Hleaf|unfold leaf; by rewrite E|done].
  - split_and!; [by apply Hleaf|unfold leaf; by rewrite E|done].
  - split_and!; done.
Qed.
Lemma Remove_keeps p : always (eq p) (Remove p).
Proof. apply always_simple. intros t. apply remove_entry_spec. Qed.
(** Removing what is not a leaf removes no leaf. *)
Lemma Remove_dir p w : leaf (tree_of w) p = None -> keeps (tree_of w) (tree_of (Remove p w).2).
Proof.
  intros Hp. apply simple_keeps_at. intros t Ht. apply remove_entry_spec. by rewrite (keeps_leaf _ _ _ Ht).
Qed.
Lemma Remove_gone p w w' : Remove p w = (inr tt, w') -> leaf (tree_of w') p = None.
Proof. intros E. apply syscall_returned in E as (t & _ & _ & E). pose proof (remove_entry_spec p t) as (_ & _ & H). rewrite E in H. by apply H. Qed.

Lemma ReadDir_keeps X p : always X (ReadDir p).
Proof. apply always_simple. intros t. by destruct (t !! p) as [[]|]. Qed.
Lemma ReadDir_returned p w l w' : ReadDir p w = (inr l, w') ->
  keeps (tree_of w) (tree_of w') /\ tree_of w' !! p = Some EDir /\ l = children p (tree_of w').
Proof.
  intros E. apply syscall_returned in E as (t & Hk & _ & E). destruct (t !! p) as [[]|] eqn:Ep; [|done|done|done]. injection E as <- <-. done.
Qed.
Lemma children_spec p t n e : (n, e) ∈ children p t <-> t !! (n :: p) = Some e.
Proof.
  unfold children. rewrite merge_sort_Permutation, list_elem_of_omap. split.
  - intros ([q f] & Hq & Hc). apply elem_of_map_to_list in Hq. destruct q as [|n' q]; [done|]. unfold child_of in Hc. cbn [fst snd] in Hc.
    case_bool_decide; simplify_eq. done.
  - intros H. exists (n :: p, e). split; [by apply elem_of_map_to_list|]. unfold child_of. cbn [fst snd]. by rewrite bool_decide_true.
Qed.
Lemma file_call_keeps X : always X file_call.
Proof. by apply always_simple. Qed.
Lemma open_nofollow_keeps X p : always X (open_nofollow p).
Proof. apply always_simple. intros t. by destruct (t !! p) as [[]|]. Qed.

Lemma removeIfEmpty_keeps X p : always X (removeIfEmpty p).
Proof.
  intros w. unfold removeIfEmpty, ibind, attempt_. destruct (ReadDir p w) as [[e|l] w1] eqn:E.
  - cbn. pose proof (ReadDir_keeps X p w) as H. by rewrite E in H.
  - apply ReadDir_returned in E as (Hk & Hd & Hl). cbn [fst snd]. destruct l; [|by apply keeps_any].
    cbn [fst snd iret]. apply keeps_any. etransitivity; [exact Hk|]. apply Remove_dir. unfold leaf. by rewrite Hd.
Qed.
Lemma removeEmptyParents_keeps X p : always X (removeEmptyParents p).
Proof.
  induction p as [|n p IH]; [apply always_ret|]. cbn [removeEmptyParents]. intros w. unfold ibind at 1, attempt_ at 1.
  destruct (ReadDir (n :: p) w) as [[e|l] w1] eqn:E.
  - cbn. pose proof (ReadDir_keeps X (n :: p) w) as H. by rewrite E in H.
  - apply ReadDir_returned in E as (Hk & Hd & Hl). cbn [fst snd]. destruct l; [|by apply keeps_any].
    etransitivity; [apply keeps_any, Hk|]. unfold ibind, attempt_.
    assert (Hr : keeps (tree_of w1) (tree_of (Remove (n :: p) w1).2)) by (apply Remove_dir; unfold leaf; by rewrite Hd).
    destruct (Remove (n :: p) w1) as [[e|[]] w2]; cbn [fst snd iret] in *; [by apply keeps_any|]. etransitivity; [by apply keeps_any|apply IH].
Qed.

(** ** Saving *)

(** Nothing but the leaf at [p] has changed, and nothing was there. *)
Record adds (p : path) (t t' : tree) : Prop := Adds {
  adds_wf : tree_wf t -> tree_wf t';
  adds_new : leaf t p = None;
  adds_same : forall q, q <> p -> leaf t' q = leaf t q;
}.
Lemma adds_keeps_l p t1 t2 t3 : keeps t1 t2 -> adds p t2 t3 -> adds p t1 t3.
Proof.
  intros Hk [W N S]. split; [destruct Hk; auto|by rewrite <- (keeps_leaf _ _ _ Hk)|]. intros q Hq. by rewrite S, (keeps_leaf _ _ _ Hk).
Qed.
Lemma adds_keeps_r p t1 t2 t3 : adds p t1 t2 -> keeps_but (eq p) t2 t3 -> adds p t1 t3.
Proof.
  intros [W N S] [W' L]. split; [auto|done|]. intros q Hq. destruct (L q) as [E|[<- _]]; [|done]. by rewrite E, S.
Qed.
Lemma adds_trans_file p t1 t2 t3 : adds p t1 t2 -> (tree_wf t2 -> tree_wf t3) -> (forall q, q <> p -> leaf t3 q = leaf t2 q) -> adds p t1 t3.
Proof. intros [W N S] W' S'. split; [auto|done|]. intros q Hq. by rewrite S', S. Qed.

Lemma create_returned p w w' : create_exclusive p w = (inr tt, w') ->
  adds p (tree_of w) (tree_of w') /\ leaf (tree_of w') p = Some (EFile [] (diskClock w)).
Proof.
  intros E. apply syscall_returned in E as (t & Hk & _ & E). unfold make_entry in E. destruct (t !! p) as [e|] eqn:Ep; [done|].
  destruct (parent_error p t) as [f|] eqn:Ef; [done|]. injection E as <-. split.
  - eapply adds_keeps_l; [exact Hk|]. split.
    + intros Hw. apply wf_insert; [done|left; by rewrite Ep|]. unfold parent_error in Ef. destruct p as [|n q]; [done|]. by destruct (t !! q) as [[]|].
    + unfold leaf. by rewrite Ep.
    + intros q Hq. unfold leaf. by rewrite lookup_insert_ne.
  - unfold leaf. by rewrite lookup_insert_eq.
Qed.
Lemma create_failed p w e w' : create_exclusive p w = (inl e, w') -> keeps (tree_of w) (tree_of w').
Proof.
  unfold create_exclusive, simple_call, syscall, make_entry.
  destruct (ticks w) as [|[|n|q] rest]; [| |intros E; by injection E as _ <-|]; repeat case_match; intros E; simplify_eq; cbn [tree_of]; apply prune_keeps || reflexivity.
Qed.

Lemma openArchiveFile_spec p d w r w' : openArchiveFile p d w = (r, w') ->
  match r with
  | inl _ => keeps (tree_of w) (tree_of w')
  | inr _ => adds p (tree_of w) (tree_of w') /\ exists c, leaf (tree_of w') p = Some (EFile [] c)
  end.
Proof.
  unfold openArchiveFile, ibind, attempt_. destruct (create_exclusive p w) as [[e|[]] w1] eqn:E1; cbn [fst snd].
  - apply create_failed in E1. destruct e as [[]| | |]; try (intros E; by injection E as <- <-).
    pose proof (MkdirAll_keeps (λ _, False) d w1) as Hm. destruct (MkdirAll d w1) as [[e|[]] w2]; cbn [snd] in Hm.
    + intros E. injection E as <- <-. by etransitivity.
    + intros E2. assert (Hk : keeps (tree_of w) (tree_of w2)) by by etransitivity. destruct r as [e|[]].
      * apply create_failed in E2. by etransitivity.
      * apply create_returned in E2 as [Ha Hl]. split; [by eapply adds_keeps_l|by eexists].
  - intros E. injection E as <- <-. apply create_returned in E1 as [Ha Hl]. split; [done|by eexists].
Qed.

(** Writing to a file that is there. *)
Lemma write_spec p data w r w' c0 m0 : write_file p data w = (r, w') -> leaf (tree_of w) p = Some (EFile c0 m0) ->
  (tree_wf (tree_of w) -> tree_wf (tree_of w')) /\ (forall q, q <> p -> leaf (tree_of w') q = leaf (tree_of w) q) /\
  (r = inr tt -> exists c, leaf (tree_of w') p = Some (EFile data c)).
Proof.
  intros E Hp. assert (Hput : forall t d c, keeps (tree_of w) t ->
    (tree_wf (tree_of w) -> tree_wf (<[p := EFile d c]> t)) /\ (forall q, q <> p -> leaf (<[p := EFile d c]> t) q = leaf (tree_of w) q)).
  { intros t d c Hk. assert (Ht : t !! p = Some (EFile c0 m0)) by (rewrite <- (keeps_leaf _ _ _ Hk) in Hp; by apply leaf_some in Hp as [Hp _]). split.
    - intros Hw. apply (proj1 Hk) in Hw. apply wf_insert; [done|left; by rewrite Ht|]. destruct p as [|n q]; [done|]. apply (Hw n). by rewrite Ht.
    - intros q Hq. rewrite <- (keeps_leaf _ _ _ Hk). unfold leaf. by rewrite lookup_insert_ne. }
  unfold write_file, syscall in E. destruct (ticks w) as [|[|n|q] rest]; injection E as <- <-; cbn [tree_of].
  - destruct (Hput (tree_of w) data (diskClock w) ltac:(reflexivity)). split_and!; [done|done|]. intros _. eexists. unfold leaf. by rewrite lookup_insert_eq.
  - destruct (Hput (tree_of w) data (diskClock w) ltac:(reflexivity)). split_and!; [done|done|]. intros _. eexists. unfold leaf. by rewrite lookup_insert_eq.
  - destruct (Hput (tree_of w) (take n data) (diskClock w) ltac:(reflexivity)). by split_and!.
  - destruct (Hput (prune q (tree_of w)) data (diskClock w) (prune_keeps q _)). split_and!; [done|done|]. intros _. eexists. unfold leaf. by rewrite lookup_insert_eq.
Qed.
Lemma close_keeps X : always X close_file.
Proof. by apply always_simple. Qed.

Definition saved_as (recordID now : Z) (random : option gostring) : option path :=
  if negb (recordID =? 0) then Some (record_path recordID now) else (λ b, random_name now b :: date_path now) <$> random.

Lemma saveAt_spec o message id now random w r w' : saveAt o message id now random w = (r, w') ->
  (keeps (tree_of w) (tree_of w') /\ forall p, r <> inr p) \/
  exists p, saved_as id now random = Some p /\ adds p (tree_of w) (tree_of w') /\
    (forall p', r = inr p' -> p' = p /\ exists c, leaf (tree_of w') p = Some (EFile message c)).
Proof.
  unfold saveAt. destruct (MaxTotalBytes o <? go_len message); [intros E; injection E as <- <-; by left|]. unfold ibind at 1.
  pose proof (MkdirAll_keeps (λ _, False) (date_path now) w) as Hm. destruct (MkdirAll (date_path now) w) as [[e|[]] w1]; cbn [snd] in Hm; [intros E; injection E as <- <-; left; by split|].
  unfold ibind at 1.
  destruct ((if negb (id =? 0) then iret (record_name id) else match random with Some bytes => iret (random_name now bytes) | None => ifail (Refused (lit "random")) end) w1) as [[e|name] w1'] eqn:En.
  { intros E. injection E as <- <-. left. destruct (negb (id =? 0)); [done|]. destruct random; [done|]. injection En as _ <-. by split. }
  assert (Hn : saved_as id now random = Some (name :: date_path now) /\ w1' = w1).
  { unfold saved_as. destruct (negb (id =? 0)); [injection En as <- <-; done|]. destruct random; [injection En as <- <-; done|done]. }
  destruct Hn as [Hn ->]. set (p := name :: date_path now) in *. clearbody p. clear En name.
  unfold ibind at 1, attempt_ at 1. destruct (openArchiveFile p (date_path now) w1) as [[e|[]] w2] eqn:Eo; apply openArchiveFile_spec in Eo; cbn [fst snd].
  { intros E. left. assert (w' = w2 /\ exists f, r = inl f) as [-> [f ->]] by (destruct e as [[]| | |]; injection E as <- <-; eauto). split; [by etransitivity|done]. }
  destruct Eo as [Ha [c0 Hl0]]. apply (adds_keeps_l _ _ _ _ Hm) in Ha.
  unfold ibind at 1, attempt_ at 1. destruct (write_file p message w2) as [rw w3] eqn:Ew. destruct (write_spec _ _ _ _ _ _ _ Ew Hl0) as (Hw & Hs & Hd).
  apply (adds_trans_file _ _ _ _ Ha Hw) in Hs. clear Ha Hw. cbn [fst snd].
  assert (Hrm : forall w4 e4, keeps (tree_of w3) (tree_of w4) -> (let? _ := attempt_ (Remove p) in ifail e4) w4 = (r, w') ->
    exists p0, saved_as id now random = Some p0 /\ adds p0 (tree_of w) (tree_of w') /\ (forall p', r = inr p' -> p' = p0 /\ exists c, leaf (tree_of w') p0 = Some (EFile message c))).
  { intros w4 e4 H4 E. unfold ibind, attempt_, ifail in E. cbn [fst snd] in E. injection E as <- <-. exists p. split_and!; [done| |done].
    eapply adds_keeps_r; [exact Hs|]. etransitivity; [apply keeps_any, H4|apply Remove_keeps]. }
  destruct rw as [e|[]].
  - unfold ibind at 1, attempt_ at 1. intros E. right. eapply Hrm; [|exact E]. apply close_keeps.
  - destruct (Hd eq_refl) as [c Hc]. unfold ibind at 1, attempt_ at 1. pose proof (close_keeps (λ _, False) w3) as Hcl.
    destruct (close_file w3) as [[e|[]] w4]; cbn [fst snd] in *; intros E; right; [by eapply Hrm|]. injection E as <- <-. exists p. split_and!; [done| |].
    + eapply adds_keeps_r; [exact Hs|by apply keeps_any].
    + intros p' E'. injection E' as <-. split; [done|]. exists c. by rewrite (keeps_leaf _ _ _ Hcl).
Qed.

(** ** Names *)

Lemma itoa_inj a b : 0 <= a -> 0 <= b -> itoa a = itoa b -> a = b.
Proof. intros Ha Hb E. apply (f_equal number_of) in E. rewrite (proj1 (proj2 (itoa_digits a Ha))), (proj1 (proj2 (itoa_digits b Hb))) in E. done. Qed.
Lemma record_name_inj a b : 0 <= a -> 0 <= b -> record_name a = record_name b -> a = b.
Proof. intros Ha Hb E. apply itoa_inj; [done|done|]. unfold record_name in E. by apply app_inv_tail in E. Qed.
Lemma pad0_inj k a b : 0 <= a -> 0 <= b -> pad0 k a = pad0 k b -> a = b.
Proof. intros Ha Hb E. apply (f_equal number_of) in E. by rewrite !number_of_pad0 in E. Qed.
Lemma pad0_no_sign k n s : 0 <= n -> pad0 k n <> "-"%char :: s.
Proof. intros Hn E. destruct (pad0_digits k n Hn) as [Hd _]. rewrite E in Hd. done. Qed.
Lemma format_year_inj a b : format_year a = format_year b -> a = b.
Proof.
  unfold format_year. destruct (Z.ltb_spec a 0), (Z.ltb_spec b 0); intros E.
  - injection E as E. apply pad0_inj in E; lia.
  - symmetry in E. by apply pad0_no_sign in E.
  - by apply pad0_no_sign in E.
  - apply pad0_inj in E; lia.
Qed.
Lemma date_path_inj t1 t2 : date_path t1 = date_path t2 -> date_of t1 = date_of t2.
Proof.
  unfold date_path. cbv zeta. destruct (date_of_days t1) as [_ R1], (date_of_days t2) as [_ R2]. unfold real_date in *.
  destruct (date_of t1) as [y1 m1 d1], (date_of t2) as [y2 m2 d2]. cbn [cv_year cv_month cv_day] in *. intros E. injection E as Ed Em Ey.
  apply format_year_inj in Ey. apply pad0_inj in Ed; [|lia|lia]. apply pad0_inj in Em; [|lia|lia]. by subst.
Qed.

Lemma record_path_inj a b t1 t2 : 0 <= a -> 0 <= b -> record_path a t1 = record_path b t2 -> a = b /\ date_of t1 = date_of t2.
Proof.
  unfold record_path. intros Ha Hb E. pose proof (f_equal (hd []) E) as E1. pose proof (f_equal (@tail _) E) as E2. cbn [hd tail] in E1, E2.
  split; [by apply record_name_inj|by apply date_path_inj].
Qed.

(** ** Reading back *)

Lemma read_leaf id t maxBytes w contents c : id <> 0 -> t <> zero_time -> 1 <= maxBytes -> go_len contents <= maxBytes ->
  leaf (tree_of w) (record_path id t) = Some (EFile contents c) -> ticks w = [] ->
  (ReadWithRecordID true id t maxBytes w).1 = inr (MkStoredMessage contents (record_path id t)).
Proof.
  intros Hid Ht Hm Hlen Hl Hw. apply leaf_some in Hl as [Hl _]. unfold ReadWithRecordID.
  rewrite (proj2 (Z.eqb_neq id 0)), (proj2 (Z.eqb_neq t zero_time)), (proj2 (Z.ltb_ge maxBytes 1)) by lia. cbn [negb orb].
  unfold ibind, open_nofollow, file_call, simple_call, syscall. rewrite Hw, Hl. cbn [ticks tree_of context].
  rewrite (proj2 (Z.ltb_ge _ _)) by lia. cbn [ticks tree_of context]. unfold go_len in *. rewrite take_ge by lia.
  by rewrite (proj2 (Z.ltb_ge _ _)) by lia.
Qed.
(** Whatever fails, what is read is what is stored, within the limit. *)
Lemma read_returned present id t maxBytes w r w' : ReadWithRecordID present id t maxBytes w = (inr r, w') ->
  Path r = record_path id t /\ go_len (Contents r) <= maxBytes /\ exists c, leaf (tree_of w) (record_path id t) = Some (EFile (Contents r) c).
Proof.
  unfold ReadWithRecordID. destruct (negb present || (id =? 0) || (t =? zero_time)); [done|]. destruct (maxBytes <? 1); [done|].
  unfold ibind at 1. destruct (open_nofollow (record_path id t) w) as [[e|e] w1] eqn:E1; [done|]. apply syscall_returned in E1 as (tr & Hk & _ & E1).
  assert (Htr : tr !! record_path id t = Some e /\ e <> ELink) by (destruct (tr !! _) as [[]|]; by simplify_eq). destruct Htr as [Htr Hne].
  unfold ibind at 1. destruct (file_call w1) as [[f|[]] w2]; [done|]. destruct e as [|contents c|]; [done| |done].
  destruct (Z.ltb_spec maxBytes (go_len contents)) as [|Hle]; [done|]. unfold ibind. destruct (file_call w2) as [[f|[]] w3]; [done|].
  assert (Htake : take (Z.to_nat (maxBytes + 1)) contents = contents) by (apply take_ge; unfold go_len in Hle; lia). rewrite Htake.
  rewrite (proj2 (Z.ltb_ge _ _)) by lia. intros E. injection E as <- <-. cbn [Path Contents]. split_and!; [done|done|]. exists c.
  rewrite <- (keeps_leaf _ _ _ Hk). unfold leaf. by rewrite Htr.
Qed.

(** saving never damages the archive.  Whatever fails during a save, every file
    and link that was there is still there, unchanged; a save that returns has
    stored the whole message under the path it returns, where nothing was
    before. *)
Theorem archive_save_safe (o : Options) (message : gostring) (recordID now : Z) (random : option gostring) (w : world) :
  let '(r, w') := saveAt o message recordID now random w in
  (forall q e, leaf (tree_of w) q = Some e -> leaf (tree_of w') q = Some e) /\
  (tree_wf (tree_of w) -> tree_wf (tree_of w')) /\
  (forall p, r = inr p -> leaf (tree_of w) p = None /\ exists c, leaf (tree_of w') p = Some (EFile message c)).
Proof.
  destruct (saveAt o message recordID now random w) as [r w'] eqn:E. apply saveAt_spec in E as [[Hk Hr]|(p & Hp & [W N S] & Hr)].
  - split_and!; [intros q e Hq; by rewrite (keeps_leaf _ _ _ Hk)|apply Hk|]. intros p ->. exfalso.
    by apply (Hr p).
  - split_and!; [|done|].
    + intros q e Hq. rewrite S; [done|]. intros ->. congruence.
    + intros p' ->. destruct (Hr p' eq_refl) as [-> Hc]. done.
Qed.

(** C39: a message saved with a rejection record is the message read with it later:
    as long as its file is untouched, reading with the same record number and
    time returns exactly its bytes and path; no other record number, and no other
    day, leads to that file. *)
Theorem archive_round_trip (o : Options) (message : gostring) (recordID rejectedAt maxBytes : Z) (w w' : world) (p : path) :
  0 <= recordID -> 1 <= maxBytes -> go_len message <= maxBytes ->
  SaveWithRecordIDAt o message recordID rejectedAt w = (inr p, w') ->
  p = record_path recordID rejectedAt /\
  (forall later, leaf (tree_of later) p = leaf (tree_of w') p -> ticks later = [] ->
     (ReadWithRecordID true recordID rejectedAt maxBytes later).1 = inr (MkStoredMessage message p)) /\
  (forall recordID' rejectedAt', 0 <= recordID' -> record_path recordID' rejectedAt' = p -> recordID' = recordID /\ date_of rejectedAt' = date_of rejectedAt).
Proof.
  intros Hid Hm Hlen. unfold SaveWithRecordIDAt. destruct (Z.eqb_spec recordID 0) as [|Hz]; [done|]. destruct (Z.eqb_spec rejectedAt zero_time) as [|Ht]; [done|].
  intros E. apply saveAt_spec in E as [[_ Hr]|(p0 & Hp & _ & Hr)]; [by destruct (Hr p)|]. destruct (Hr p eq_refl) as [<- [c Hc]]. clear Hr.
  unfold saved_as in Hp. rewrite (proj2 (Z.eqb_neq _ _)) in Hp by done. injection Hp as <-. split_and!; [done| |].
  - intros later Hl Hw. rewrite Hc in Hl. by eapply read_leaf.
  - intros id' t' Hid' E. apply record_path_inj in E; [|done|done]. done.
Qed.

(** ** Removing trees *)

Lemma lookup_foldr_delete (ds : list path) (t : tree) q : foldr delete t ds !! q = if bool_decide (q ∈ ds) then None else t !! q.
Proof.
  induction ds as [|d ds IH]; [done|]. cbn [foldr]. destruct (decide (d = q)) as [->|Hn].
  - rewrite lookup_delete_eq, bool_decide_true by set_solver. done.
  - rewrite lookup_delete_ne, IH by done. destruct (decide (q ∈ ds)).
    + by rewrite !bool_decide_true by set_solver.
    + by rewrite !bool_decide_false by set_solver.
Qed.

#[export] Instance deeper_total : Total deeper.
Proof. intros a b. unfold deeper. lia. Qed.
#[export] Instance deeper_trans : Transitive deeper.
Proof. intros a b c. unfold deeper. lia. Qed.

Definition strictly_below (p q : path) : Prop := exists n l, q = n :: l ++ p.
Lemma below_cases p q : below p q = true <-> q = p \/ strictly_below p q.
Proof.
  unfold below. rewrite bool_decide_eq_true. split.
  - intros [l ->]. destruct l as [|n l]; [by left|right; by exists n, l].
  - intros [->|(n & l & ->)]; [done|by exists (n :: l)].
Qed.

Lemma remove_part_keeps p n t : leaf t p = None ->
  keeps_but (strictly_below p) t (foldr delete t (take n (merge_sort deeper (List.filter (below p) (map_to_list t).*1)))).
Proof.
  set (l := merge_sort deeper _). intros Hp.
  assert (Hl : forall q, q ∈ l -> below p q = true).
  { intros q Hq. subst l. rewrite merge_sort_Permutation in Hq. apply list_elem_of_In, filter_In in Hq. apply Hq. }
  assert (Hin : forall q, below p q = true -> t !! q <> None -> q ∈ l).
  { intros q Hb Hq. subst l. rewrite merge_sort_Permutation. apply list_elem_of_In, filter_In. split; [|done]. apply list_elem_of_In, list_elem_of_fmap.
    destruct (t !! q) as [e|] eqn:E; [|done]. exists (q, e). split; [done|by apply elem_of_map_to_list]. }
  assert (Htk : forall q, q ∈ take n l -> q ∈ l) by (intros q Hq; rewrite <- (take_drop n l); set_solver).
  assert (Hs : StronglySorted deeper (take n l ++ drop n l)) by (rewrite take_drop; apply StronglySorted_merge_sort; apply _).
  split.
  - intros Hw m q H. rewrite lookup_foldr_delete in H. case_bool_decide as Hm; [done|]. specialize (Hw m q H). rewrite lookup_foldr_delete.
    rewrite bool_decide_false; [done|]. intros Hq. assert (Hd : m :: q ∈ drop n l).
    { assert (Hbq : below p (m :: q) = true) by (apply below_cases; right; assert (Hb : q ∈ l) by (by apply (Htk q));
        apply Hl, below_cases in Hb as [->|(k & r & ->)]; [by exists m, []|by exists m, (k :: r)]).
      specialize (Hin _ Hbq H). rewrite <- (take_drop n l), elem_of_app in Hin. by destruct Hin. }
    pose proof (StronglySorted_app_1_elem_of _ _ _ _ _ Hs Hq Hd) as Hc. unfold deeper in Hc. cbn in Hc. lia.
  - intros q. unfold leaf at 1 3. rewrite !lookup_foldr_delete. case_bool_decide as Hq; [|by left].
    assert (Hb : q ∈ l) by (by apply (Htk q)). apply Hl, below_cases in Hb as [->|Hb]; [left; by rewrite Hp|right; by split].
Qed.
Lemma remove_tree_spec p t : let t' := filter (λ qe : path * entry, below p qe.1 = false) t in
  (leaf t p = None -> keeps_but (strictly_below p) t t') /\ forall q, below p q = true -> leaf t' q = None.
Proof.
  intros t'. assert (Hl : forall q, t' !! q = if below p q then None else t !! q).
  { intros q. subst t'. destruct (below p q) eqn:E.
    - apply map_lookup_filter_None. right. intros e _. cbn. congruence.
    - destruct (t !! q) as [e|] eqn:Eq; [by apply map_lookup_filter_Some|]. apply map_lookup_filter_None. by left. }
  clearbody t'. split.
  - intros Hp. split.
    + intros Hw n q. rewrite !Hl. destruct (below p (n :: q)) eqn:E; [done|]. intros H. specialize (Hw n q H). destruct (below p q) eqn:Eq; [|done].
      apply below_cases in Eq. assert (below p (n :: q) = true); [|congruence]. apply below_cases. right.
      destruct Eq as [->|(k & r & ->)]; [by exists n, []|by exists n, (k :: r)].
    + intros q. unfold leaf at 1 3. rewrite !Hl. destruct (below p q) eqn:E; [|by left]. apply below_cases in E as [->|E]; [left; by rewrite Hp|right; done].
  - intros q Hq. unfold leaf. by rewrite Hl, Hq.
Qed.
Lemma RemoveAll_keeps p w : leaf (tree_of w) p = None -> keeps_but (strictly_below p) (tree_of w) (tree_of (RemoveAll p w).2).
Proof.
  intros Hp. unfold RemoveAll, syscall. destruct (ticks w) as [|[|n|q] rest]; cbn [snd tree_of].
  - by apply remove_tree_spec.
  - by apply remove_tree_spec.
  - by apply remove_part_keeps.
  - etransitivity; [apply keeps_any, prune_keeps|]. apply remove_tree_spec. by rewrite prune_leaf.
Qed.
Lemma RemoveAll_gone p w u w' q : RemoveAll p w = (inr u, w') -> strictly_below p q -> leaf (tree_of w') q = None.
Proof.
  intros E Hq. apply syscall_returned in E as (t & _ & _ & E). injection E as _ E. rewrite <- E. apply (remove_tree_spec p t), below_cases. by right.
Qed.

(** ** Loops *)

Section Loops.
Context {A : Type} (X : path -> Prop) (Pre : A -> tree -> Prop) (f : A -> IO unit).
Hypothesis pre_stable : forall a t t', Pre a t -> keeps_but X t t' -> Pre a t'.
Hypothesis f_keeps : forall a w, Pre a (tree_of w) -> keeps_but X (tree_of w) (tree_of (f a w).2).
#[local] Set Default Proof Using "All".

Lemma each_keeps l w : (forall a, a ∈ l -> Pre a (tree_of w)) -> keeps_but X (tree_of w) (tree_of (for_each f l w).2).
Proof.
  revert w. induction l as [|a l IH]; intros w Hl; [reflexivity|]. cbn [for_each]. unfold ibind.
  pose proof (f_keeps a w (Hl a ltac:(set_solver))) as Hf. destruct (f a w) as [[e|[]] w1]; cbn [snd] in *; [done|].
  etransitivity; [exact Hf|]. apply IH. intros b Hb. eapply pre_stable; [|exact Hf]. apply Hl. set_solver.
Qed.
(** A loop that returned has run its body on every element. *)
Lemma each_returned l w u w' a : (forall a, a ∈ l -> Pre a (tree_of w)) -> for_each f l w = (inr u, w') -> a ∈ l ->
  exists w1 w2, f a w1 = (inr tt, w2) /\ keeps_but X (tree_of w) (tree_of w1) /\ keeps_but X (tree_of w2) (tree_of w').
Proof.
  revert w. induction l as [|b l IH]; intros w Hl E Ha; [set_solver|]. cbn [for_each] in E. unfold ibind in E.
  pose proof (f_keeps b w (Hl b ltac:(set_solver))) as Hf. destruct (f b w) as [[e|[]] w1] eqn:Eb; [done|]. cbn [snd] in Hf.
  assert (Hl1 : forall a, a ∈ l -> Pre a (tree_of w1)) by (intros c Hc; eapply pre_stable; [|exact Hf]; apply Hl; set_solver).
  apply elem_of_cons in Ha as [->|Ha].
  - exists w, w1. split_and!; [done|reflexivity|]. pose proof (each_keeps l w1 Hl1) as He. by rewrite E in He.
  - destruct (IH w1 Hl1 E Ha) as (w2 & w3 & E2 & K2 & K3). exists w2, w3. split_and!; [done|by etransitivity|done].
Qed.
End Loops.

(** ** Expiry *)

Definition dir_number (name : gostring) (width minimum maximum : Z) : option Z := dateDirectoryNumber (name, EDir) width minimum maximum.
(** The directories cleanup removes: years, months and days before the cutoff. *)
Definition expired_tree (cutoff : Z) (p : path) : bool :=
  match p with
  | [yn] => match dir_number yn 4 1 9999 with Some y => go_date (y + 1) 1 1 0 <=? cutoff | None => false end
  | [mn; yn] => match dir_number yn 4 1 9999, dir_number mn 2 1 12 with Some y, Some m => go_date y (m + 1) 1 0 <=? cutoff | _, _ => false end
  | [dn; mn; yn] =>
      match dir_number yn 4 1 9999, dir_number mn 2 1 12 with
      | Some y, Some m => match validDayDirectory (dn, EDir) y m with Some d => d <? cutoff | None => false end
      | _, _ => false
      end
  | _ => false
  end.
Definition expired (cutoff : Z) (q : path) : Prop := exists p, expired_tree cutoff p = true /\ strictly_below p q.

Lemma date_number_dir e width lo hi v : dateDirectoryNumber e width lo hi = Some v -> e.2 = EDir /\ dir_number e.1 width lo hi = Some v.
Proof.
  unfold dir_number, dateDirectoryNumber. destruct e as [n e]. cbn [fst snd]. case_bool_decide; [|done]. subst. rewrite bool_decide_true by done. done.
Qed.
Lemma valid_day_dir e y m d : validDayDirectory e y m = Some d -> e.2 = EDir /\ validDayDirectory (e.1, EDir) y m = Some d.
Proof.
  unfold validDayDirectory. destruct (dateDirectoryNumber e 2 1 31) as [v|] eqn:E; [|done]. apply date_number_dir in E as [He E].
  unfold dir_number in E. by rewrite E.
Qed.

(** A listed directory is not a leaf. *)
Definition listed (p : path) (e : gostring * entry) (t : tree) : Prop := e.2 = EDir -> leaf t (e.1 :: p) = None.
Lemma listed_stable X p e t t' : listed p e t -> keeps_but X t t' -> listed p e t'.
Proof. intros H Hk He. eapply keeps_none; [exact Hk|auto]. Qed.
Lemma children_listed p t e : e ∈ children p t -> listed p e t.
Proof. destruct e as [n e]. intros H He. apply children_spec in H. cbn in *. unfold leaf. by rewrite H, He. Qed.
(** An entry below a directory shows in the listing of that directory. *)
Lemma below_listed t n p q : tree_wf t -> strictly_below (n :: p) q -> leaf t q <> None -> (n, EDir) ∈ children p t.
Proof.
  intros Hw (k & l & ->) Hl. apply children_spec. apply (wf_above t (k :: l)); [done| |done]. unfold leaf in Hl. intros E. cbn in E. by rewrite E in Hl.
Qed.

(** Going on after a look at the context. *)
Lemma ctx_then {B} (m : IO B) w r w' : (let? _ := ctx_check in m) w = (r, w') ->
  exists w1, tree_of w1 = tree_of w /\ ((exists e, r = inl e /\ w' = w1) \/ m w1 = (r, w')).
Proof.
  unfold ibind. pose proof (ctx_check_tree w) as Ht. destruct (ctx_check w) as [[e|[]] w1]; cbn [snd] in Ht; intros E.
  - injection E as <- <-. exists w1. split; [done|left; eauto].
  - exists w1. by split; [|right].
Qed.

Section Expiry.
Context (cutoff : Z).
#[local] Abbreviation X := (expired cutoff).

Lemma RemoveAll_expired p w : expired_tree cutoff p = true -> leaf (tree_of w) p = None -> keeps_but X (tree_of w) (tree_of (RemoveAll p w).2).
Proof. intros He Hl. eapply keeps_weaken; [|by apply RemoveAll_keeps]. intros q Hq. by exists p. Qed.

Section Month.
Context (yn mn : gostring) (year month : Z) (Hy : dir_number yn 4 1 9999 = Some year) (Hm : dir_number mn 2 1 12 = Some month).
#[local] Set Default Proof Using "All".

Lemma expire_day_keeps e w : listed [mn; yn] e (tree_of w) -> keeps_but X (tree_of w) (tree_of (expire_day cutoff year month [mn; yn] e w).2).
Proof.
  intros Hl. destruct (expire_day cutoff year month [mn; yn] e w) as [r w'] eqn:E. cbn [snd].
  apply ctx_then in E as (w1 & Ht & [(f & -> & ->)|E]); [by rewrite Ht|]. rewrite <- Ht in *.
  destruct (validDayDirectory e year month) as [d|] eqn:Ev; [|by injection E as <- <-]. destruct (d <? cutoff) eqn:Ed; [|by injection E as <- <-].
  apply valid_day_dir in Ev as [He Ev]. pose proof (RemoveAll_expired (e.1 :: [mn; yn]) w1) as H. rewrite E in H. apply H; [|by apply Hl].
  cbn [expired_tree]. by rewrite Hy, Hm, Ev.
Qed.
Lemma expire_day_gone dn d w w' q : validDayDirectory (dn, EDir) year month = Some d -> d < cutoff ->
  expire_day cutoff year month [mn; yn] (dn, EDir) w = (inr tt, w') -> strictly_below [dn; mn; yn] q -> leaf (tree_of w') q = None.
Proof.
  intros Hv Hd E Hq. apply ctx_then in E as (w1 & Ht & [(f & [=] & _)|E]). rewrite Hv, (proj2 (Z.ltb_lt d cutoff)) in E by done.
  by eapply RemoveAll_gone.
Qed.
End Month.

Section Year.
Context (yn : gostring) (year : Z) (Hy : dir_number yn 4 1 9999 = Some year).
#[local] Set Default Proof Using "All".

Lemma expire_month_keeps e w : listed [yn] e (tree_of w) -> keeps_but X (tree_of w) (tree_of (expire_month cutoff year [yn] e w).2).
Proof.
  intros Hl. destruct (expire_month cutoff year [yn] e w) as [r w'] eqn:E. cbn [snd].
  apply ctx_then in E as (w1 & Ht & [(f & -> & ->)|E]); [by rewrite Ht|]. rewrite <- Ht in *.
  destruct (dateDirectoryNumber e 2 1 12) as [month|] eqn:Ev; [|by injection E as <- <-]. apply date_number_dir in Ev as [He Ev]. cbv zeta in E.
  destruct (go_date year (month + 1) 1 0 <=? cutoff) eqn:Ed.
  { pose proof (RemoveAll_expired (e.1 :: [yn]) w1) as H. rewrite E in H. apply H; [|by apply Hl]. cbn [expired_tree]. by rewrite Hy, Ev. }
  unfold ibind at 1 in E. destruct (ReadDir (e.1 :: [yn]) w1) as [[f|days] w2] eqn:E2.
  { injection E as <- <-. pose proof (ReadDir_keeps X (e.1 :: [yn]) w1) as H. by rewrite E2 in H. }
  apply ReadDir_returned in E2 as (K2 & _ & ->). etransitivity; [apply keeps_any, K2|]. unfold ibind in E.
  pose proof (each_keeps X (listed (e.1 :: [yn])) _ (listed_stable X (e.1 :: [yn])) (expire_day_keeps yn e.1 year month Hy Ev) (children (e.1 :: [yn]) (tree_of w2)) w2) as H.
  specialize (H (children_listed _ _)). destruct (for_each _ _ w2) as [[f|[]] w3]; cbn [snd] in H; [by injection E as <- <-|].
  etransitivity; [exact H|]. pose proof (removeIfEmpty_keeps X (e.1 :: [yn]) w3) as H'. by rewrite E in H'.
Qed.
Lemma expire_month_gone mn w w' p q : tree_wf (tree_of w) -> listed [yn] (mn, EDir) (tree_of w) -> expire_month cutoff year [yn] (mn, EDir) w = (inr tt, w') ->
  expired_tree cutoff p = true -> p = [mn; yn] \/ (exists dn, p = [dn; mn; yn]) -> strictly_below p q -> leaf (tree_of w') q = None.
Proof.
  intros Hw Hl E Hp Hc Hq. destruct (leaf (tree_of w') q) as [x|] eqn:Hx; [|done]. exfalso.
  apply ctx_then in E as (w1 & Ht & [(f & [=] & _)|E]). rewrite <- Ht in *. clear Ht w.
  assert (Hm : exists month, dir_number mn 2 1 12 = Some month).
  { destruct Hc as [->|[dn ->]]; cbn [expired_tree] in Hp; rewrite Hy in Hp; destruct (dir_number mn 2 1 12); eauto; done. }
  destruct Hm as [month Hm]. unfold dir_number in Hm. rewrite Hm in E. cbv zeta in E. cbn [fst] in E. fold (dir_number mn 2 1 12) in Hm.
  destruct (go_date year (month + 1) 1 0 <=? cutoff) eqn:Ed.
  { assert (Hb : strictly_below [mn; yn] q) by (destruct Hc as [->|[dn ->]]; [done|]; destruct Hq as (n & l & ->); exists n, (l ++ [dn]); by rewrite <- app_assoc).
    pose proof (RemoveAll_gone _ _ _ _ _ E Hb). congruence. }
  destruct Hc as [->|[dn ->]]; cbn [expired_tree] in Hp; rewrite Hy, Hm in Hp; [congruence|].
  destruct (validDayDirectory (dn, EDir) year month) as [d|] eqn:Ev; [|done]. apply Z.ltb_lt in Hp.
  unfold ibind at 1 in E. destruct (ReadDir [mn; yn] w1) as [[f|days] w2] eqn:E2; [done|]. apply ReadDir_returned in E2 as (K2 & _ & ->).
  unfold ibind in E. destruct (for_each _ _ w2) as [[f|[]] w3] eqn:E3; [done|]. pose proof (removeIfEmpty_keeps X [mn; yn] w3) as K4. rewrite E in K4. cbn [snd] in K4.
  pose proof (each_keeps X (listed [mn; yn]) _ (listed_stable X [mn; yn]) (expire_day_keeps yn mn year month Hy Hm) _ w2 (children_listed _ _)) as K3.
  rewrite E3 in K3. cbn [snd] in K3. pose proof (keeps_some _ _ _ _ _ K4 Hx) as Hx3. pose proof (keeps_some _ _ _ _ _ K3 Hx3) as Hx2.
  assert (Hin : (dn, EDir) ∈ children [mn; yn] (tree_of w2)) by (eapply below_listed; [apply K2, Hw|exact Hq|by rewrite Hx2]).
  destruct (each_returned X (listed [mn; yn]) _ (listed_stable X [mn; yn]) (expire_day_keeps yn mn year month Hy Hm) _ _ _ _ _ (children_listed _ _) E3 Hin) as (w4 & w5 & E4 & _ & K5).
  pose proof (expire_day_gone yn mn year month Hy Hm dn d w4 w5 q Ev Hp E4 Hq) as Hg. pose proof (keeps_none _ _ _ _ K5 Hg). congruence.
Qed.
End Year.

Lemma expire_year_keeps e w : listed [] e (tree_of w) -> keeps_but X (tree_of w) (tree_of (expire_year cutoff e w).2).
Proof.
  intros Hl. destruct (expire_year cutoff e w) as [r w'] eqn:E. cbn [snd].
  apply ctx_then in E as (w1 & Ht & [(f & -> & ->)|E]); [by rewrite Ht|]. rewrite <- Ht in *.
  destruct (dateDirectoryNumber e 4 1 9999) as [year|] eqn:Ev; [|by injection E as <- <-]. apply date_number_dir in Ev as [He Ev]. cbv zeta in E.
  destruct (go_date (year + 1) 1 1 0 <=? cutoff) eqn:Ed.
  { pose proof (RemoveAll_expired [e.1] w1) as H. rewrite E in H. apply H; [|by apply Hl]. cbn [expired_tree]. by rewrite Ev. }
  unfold ibind at 1 in E. destruct (ReadDir [e.1] w1) as [[f|months] w2] eqn:E2.
  { injection E as <- <-. pose proof (ReadDir_keeps X [e.1] w1) as H. by rewrite E2 in H. }
  apply ReadDir_returned in E2 as (K2 & _ & ->). etransitivity; [apply keeps_any, K2|]. unfold ibind in E.
  pose proof (each_keeps X (listed [e.1]) _ (listed_stable X [e.1]) (expire_month_keeps e.1 year Ev) _ w2 (children_listed _ _)) as H.
  destruct (for_each _ _ w2) as [[f|[]] w3]; cbn [snd] in H; [by injection E as <- <-|].
  etransitivity; [exact H|]. pose proof (removeIfEmpty_keeps X [e.1] w3) as H'. by rewrite E in H'.
Qed.
(** The expired trees are those of a year, a month or a day. *)
Lemma expired_tree_cases p : expired_tree cutoff p = true ->
  exists yn year, dir_number yn 4 1 9999 = Some year /\ (p = [yn] \/ exists mn, p = [mn; yn] \/ exists dn, p = [dn; mn; yn]).
Proof.
  destruct p as [|a [|b [|c [|]]]]; cbn [expired_tree]; try done; intros H; repeat case_match; try done; eauto 10.
Qed.
Lemma strictly_below_app l p q : strictly_below (l ++ p) q -> strictly_below p q.
Proof. intros (n & k & ->). exists n, (k ++ l). by rewrite <- app_assoc. Qed.

Lemma expire_year_gone yn year w w' p q : dir_number yn 4 1 9999 = Some year -> tree_wf (tree_of w) -> expire_year cutoff (yn, EDir) w = (inr tt, w') ->
  expired_tree cutoff p = true -> p = [yn] \/ (exists mn, p = [mn; yn] \/ exists dn, p = [dn; mn; yn]) -> strictly_below p q -> leaf (tree_of w') q = None.
Proof.
  intros Hy Hw E Hp Hc Hq. destruct (leaf (tree_of w') q) as [x|] eqn:Hx; [|done]. exfalso.
  apply ctx_then in E as (w1 & Ht & [(f & [=] & _)|E]). rewrite <- Ht in *. clear Ht w. unfold dir_number in Hy. rewrite Hy in E. cbv zeta in E. cbn [fst] in E.
  fold (dir_number yn 4 1 9999) in Hy. destruct (go_date (year + 1) 1 1 0 <=? cutoff) eqn:Ed.
  { assert (Hb : strictly_below [yn] q) by (destruct Hc as [->|[mn [->|[dn ->]]]]; [done|by apply (strictly_below_app [mn])|by apply (strictly_below_app [dn; mn])]).
    pose proof (RemoveAll_gone _ _ _ _ _ E Hb). congruence. }
  destruct Hc as [->|[mn Hc]]; [cbn [expired_tree] in Hp; rewrite Hy in Hp; congruence|].
  unfold ibind at 1 in E. destruct (ReadDir [yn] w1) as [[f|months] w2] eqn:E2; [done|]. apply ReadDir_returned in E2 as (K2 & _ & ->).
  unfold ibind in E. destruct (for_each _ _ w2) as [[f|[]] w3] eqn:E3; [done|]. pose proof (removeIfEmpty_keeps X [yn] w3) as K4. rewrite E in K4. cbn [snd] in K4.
  pose proof (each_keeps X (listed [yn]) _ (listed_stable X [yn]) (expire_month_keeps yn year Hy) _ w2 (children_listed _ _)) as K3.
  rewrite E3 in K3. cbn [snd] in K3. pose proof (keeps_some _ _ _ _ _ K4 Hx) as Hx3. pose proof (keeps_some _ _ _ _ _ K3 Hx3) as Hx2.
  assert (Hb : strictly_below [mn; yn] q) by (destruct Hc as [->|[dn ->]]; [done|by apply (strictly_below_app [dn])]).
  assert (Hw2 : tree_wf (tree_of w2)) by apply K2, Hw.
  assert (Hin : (mn, EDir) ∈ children [yn] (tree_of w2)) by (eapply below_listed; [done|exact Hb|by rewrite Hx2]).
  destruct (each_returned X (listed [yn]) _ (listed_stable X [yn]) (expire_month_keeps yn year Hy) _ _ _ _ _ (children_listed _ _) E3 Hin) as (w4 & w5 & E4 & K24 & K5).
  assert (Hl4 : listed [yn] (mn, EDir) (tree_of w4)) by (eapply listed_stable; [by apply children_listed|exact K24]).
  pose proof (expire_month_gone yn year Hy mn w4 w5 p q (proj1 K24 Hw2) Hl4 E4 Hp Hc Hq) as Hg. pose proof (keeps_none _ _ _ _ K5 Hg). congruence.
Qed.

Lemma removeExpired_keeps : always X (removeExpiredDateTrees cutoff).
Proof.
  intros w. unfold removeExpiredDateTrees, ibind. destruct (ReadDir [] w) as [[f|years] w1] eqn:E1.
  { pose proof (ReadDir_keeps X [] w) as H. by rewrite E1 in H. }
  apply ReadDir_returned in E1 as (K1 & _ & ->). etransitivity; [apply keeps_any, K1|].
  exact (each_keeps X (listed []) _ (listed_stable X []) expire_year_keeps _ w1 (children_listed _ _)).
Qed.
Lemma removeExpired_gone w w' q : tree_wf (tree_of w) -> removeExpiredDateTrees cutoff w = (inr tt, w') -> expired cutoff q -> leaf (tree_of w') q = None.
Proof.
  intros Hw E (p & Hp & Hq). destruct (leaf (tree_of w') q) as [x|] eqn:Hx; [|done]. exfalso.
  unfold removeExpiredDateTrees, ibind in E. destruct (ReadDir [] w) as [[f|years] w1] eqn:E1; [done|]. apply ReadDir_returned in E1 as (K1 & _ & ->).
  pose proof (each_keeps X (listed []) _ (listed_stable X []) expire_year_keeps _ w1 (children_listed _ _)) as K2. rewrite E in K2. cbn [snd] in K2.
  pose proof (keeps_some _ _ _ _ _ K2 Hx) as Hx1. destruct (expired_tree_cases p Hp) as (yn & year & Hy & Hc).
  assert (Hb : strictly_below [yn] q) by (destruct Hc as [->|[mn [->|[dn ->]]]]; [done|by apply (strictly_below_app [mn])|by apply (strictly_below_app [dn; mn])]).
  assert (Hw1 : tree_wf (tree_of w1)) by apply K1, Hw.
  assert (Hin : (yn, EDir) ∈ children [] (tree_of w1)) by (eapply below_listed; [done|exact Hb|by rewrite Hx1]).
  destruct (each_returned X (listed []) _ (listed_stable X []) expire_year_keeps _ _ _ _ _ (children_listed _ _) E Hin) as (w4 & w5 & E4 & K14 & K5).
  pose proof (expire_year_gone yn year w4 w5 p q Hy (proj1 K14 Hw1) E4 Hp Hc Hq) as Hg. pose proof (keeps_none _ _ _ _ K5 Hg). congruence.
Qed.
End Expiry.

(** ** Measuring *)

Section Capacity.
Context `{UnicodeTables}.

Definition describe (t : tree) (p : path) : option storedFile :=
  match leaf t p with
  | Some (EFile contents modified) => if message_path p then Some (MkStoredFile p (go_len contents) modified) else None
  | _ => None
  end.
(** The messages of an archive, and their bytes. *)
Definition messages (t : tree) : list storedFile := omap (describe t) (all_paths t).
Definition archive_bytes (t : tree) : Z := total_size (messages t).

Lemma describe_keeps t t' p : keeps t t' -> describe t' p = describe t p.
Proof. intros Hk. unfold describe. by rewrite (keeps_leaf _ _ _ Hk). Qed.
Lemma walk_keeps paths files : always (λ _, False) (walk paths files).
Proof.
  revert files. induction paths as [|p paths IH]; intros files; [apply always_ret|]. cbn [walk]. apply always_bind; [apply always_ctx|]. intros _ w.
  destruct (tree_of w !! p) as [[|c m|]|]; [| | apply IH|apply IH].
  - apply always_bind; [apply file_call_keeps|]. intros _. apply IH.
  - destruct (message_path p); [|apply IH]. apply always_bind; [apply file_call_keeps|]. intros _. apply IH.
Qed.
Lemma file_call_then {B} (m : IO B) w r w' : (let? _ := file_call in m) w = (inr r, w') -> exists w1, keeps (tree_of w) (tree_of w1) /\ m w1 = (inr r, w').
Proof.
  unfold ibind. pose proof (file_call_keeps (λ _, False) w) as Hk. destruct (file_call w) as [[e|[]] w1]; [done|]. intros E. by exists w1.
Qed.
Lemma walk_returned paths files w r w' : walk paths files w = (inr r, w') -> r = files ++ omap (describe (tree_of w)) paths.
Proof.
  revert files w. induction paths as [|p paths IH]; intros files w; cbn [walk].
  { intros E. injection E as <- _. cbn. by rewrite app_nil_r. }
  intros E. apply ctx_then in E as (w1 & Ht & [(f & [=] & _)|E]). rewrite <- Ht in *. clear w Ht.
  assert (Hmap : forall w2, keeps (tree_of w1) (tree_of w2) -> omap (describe (tree_of w2)) paths = omap (describe (tree_of w1)) paths).
  { intros w2 Hk. apply list_omap_ext. apply Forall_Forall2_diag, Forall_forall. intros q _. by apply describe_keeps. }
  cbn [omap list_omap]. unfold describe at 1, leaf. destruct (tree_of w1 !! p) as [[|c m|]|].
  - apply file_call_then in E as (w2 & Hk & E). apply IH in E as ->. by rewrite Hmap.
  - destruct (message_path p); [|by apply IH in E]. apply file_call_then in E as (w2 & Hk & E). apply IH in E as ->. by rewrite <- app_assoc, Hmap.
  - by apply IH in E.
  - by apply IH in E.
Qed.
Lemma archiveSize_returned w n w' : archiveSize w = (inr n, w') -> n = archive_bytes (tree_of w) /\ keeps (tree_of w) (tree_of w').
Proof.
  unfold archiveSize, ibind. pose proof (walk_keeps (all_paths (tree_of w)) [] w) as Hk. destruct (walk _ [] w) as [[e|files] w1] eqn:E; [done|].
  intros E'. injection E' as <- <-. apply walk_returned in E as ->. by split.
Qed.
Lemma indexFiles_returned w r w' : indexFiles w = (inr r, w') -> r = (messages (tree_of w), archive_bytes (tree_of w)) /\ keeps (tree_of w) (tree_of w').
Proof.
  unfold indexFiles, ibind. pose proof (walk_keeps (all_paths (tree_of w)) [] w) as Hk. destruct (walk _ [] w) as [[e|files] w1] eqn:E; [done|].
  intros E'. injection E' as <- <-. apply walk_returned in E as ->. by split.
Qed.

Lemma all_paths_elem t p : p ∈ all_paths t <-> t !! p <> None.
Proof.
  unfold all_paths. rewrite merge_sort_Permutation, list_elem_of_fmap. split.
  - intros ([q e] & -> & Hq). apply elem_of_map_to_list in Hq. cbn. by rewrite Hq.
  - intros Hp. destruct (t !! p) as [e|] eqn:E; [|done]. exists (p, e). split; [done|by apply elem_of_map_to_list].
Qed.
Lemma describe_path t p f : describe t p = Some f -> sf_path f = p /\ leaf t p <> None /\ message_path p = true.
Proof. unfold describe. repeat case_match; intros E; simplify_eq; done. Qed.
Lemma messages_elem t f : f ∈ messages t <-> describe t (sf_path f) = Some f.
Proof.
  unfold messages. rewrite list_elem_of_omap. split.
  - intros (p & _ & E). by destruct (describe_path _ _ _ E) as [-> _].
  - intros E. exists (sf_path f). split; [|done]. apply all_paths_elem. destruct (describe_path _ _ _ E) as (_ & Hl & _). unfold leaf in Hl.
    intros Hn. by rewrite Hn in Hl.
Qed.
Lemma messages_nodup t : NoDup (sf_path <$> messages t).
Proof.
  unfold messages. assert (Hn : NoDup (all_paths t)) by (unfold all_paths; rewrite merge_sort_Permutation; apply NoDup_fst_map_to_list).
  induction (all_paths t) as [|p l IH]; [constructor|]. apply NoDup_cons in Hn as [Hp Hn]. cbn [omap list_omap]. destruct (describe t p) as [f|] eqn:E; [|auto].
  cbn [fmap list_fmap]. apply NoDup_cons. split; [|auto]. destruct (describe_path _ _ _ E) as [-> _]. intros Hin.
  apply list_elem_of_fmap in Hin as (g & -> & Hg). apply list_elem_of_omap in Hg as (q & Hq & Eq). apply describe_path in Eq as [<- _]. done.
Qed.

Lemma total_size_app a b : total_size (a ++ b) = total_size a + total_size b.
Proof. unfold total_size. rewrite fmap_app. induction a as [|x a IH]; cbn; [lia|]. rewrite IH. lia. Qed.
Lemma total_size_perm a b : a ≡ₚ b -> total_size a = total_size b.
Proof. unfold total_size. induction 1; cbn in *; lia. Qed.
Lemma total_size_nonneg t l : (forall f, f ∈ l -> f ∈ messages t) -> 0 <= total_size l.
Proof.
  induction l as [|f l IH]; intros Hl; [done|]. unfold total_size in *. cbn [fmap list_fmap foldr]. specialize (IH ltac:(set_solver)).
  assert (Hf : f ∈ messages t) by set_solver. apply messages_elem in Hf. unfold describe in Hf. repeat case_match; try done.
  injection Hf as Hf. rewrite <- Hf at 1. cbn [sf_size]. match goal with |- context [go_len ?c] => pose proof (go_len_nonneg c) end. lia.
Qed.

(** ** Eviction *)

Definition paths_of (files : list storedFile) : list path := sf_path <$> files.

Lemma evict_keeps maximum files total : always (λ q, q ∈ paths_of files) (evict maximum files total).
Proof.
  revert total. induction files as [|f files IH]; intros total; [apply always_ret|]. cbn [evict]. apply always_bind; [apply always_ctx|]. intros _.
  destruct (total <=? maximum); [apply always_ret|]. apply always_bind; [|intros _; apply always_bind; [apply removeEmptyParents_keeps|intros _]].
  - eapply always_weaken; [|apply Remove_keeps]. intros q <-. unfold paths_of. set_solver.
  - eapply always_weaken; [|apply IH]. unfold paths_of. set_solver.
Qed.
(** Eviction removes the first files of the list, as few as bring the total to the maximum. *)
Lemma evict_returned maximum files total w r w' : evict maximum files total w = (inr r, w') ->
  exists k, r = total - total_size (take k files) /\ ((k <= length files)%nat /\ (r <= maximum \/ k = length files)) /\
    (forall q, leaf (tree_of w') q = if bool_decide (q ∈ paths_of (take k files)) then None else leaf (tree_of w) q) /\
    (forall j, (j < k)%nat -> maximum < total - total_size (take j files)) /\ (tree_wf (tree_of w) -> tree_wf (tree_of w')).
Proof.
  revert total w. induction files as [|f files IH]; intros total w; cbn [evict].
  { intros E. injection E as <- <-. exists 0%nat. cbn. split_and!; [lia|lia|by right|done|lia|done]. }
  intros E. apply ctx_then in E as (w1 & Ht & [(e & [=] & _)|E]). rewrite <- Ht in *. clear w Ht. destruct (Z.leb_spec total maximum) as [Hle|Hgt].
  { injection E as <- <-. exists 0%nat. cbn. split_and!; [lia|lia|by left|done|lia|done]. }
  unfold ibind at 1 in E. pose proof (Remove_keeps (sf_path f) w1) as K1. destruct (Remove (sf_path f) w1) as [[e|[]] w2] eqn:E1; [done|]. cbn [snd] in K1.
  apply Remove_gone in E1 as Hg. unfold ibind in E. pose proof (removeEmptyParents_keeps (λ _, False) (tail (sf_path f)) w2) as K2.
  destruct (removeEmptyParents (tail (sf_path f)) w2) as [[e|[]] w3]; [done|]. cbn [snd] in K2.
  apply IH in E as (k & -> & Hk & Hl & Hmin & Hw). exists (S k). cbn [take]. unfold total_size in *. cbn [fmap list_fmap foldr length]. split_and!.
  - lia.
  - destruct Hk as [Hk _]. lia.
  - destruct Hk as [_ [Hk| ->]]; [left; lia|by right].
  - intros q. rewrite Hl, (keeps_leaf _ _ _ K2). unfold paths_of. cbn [fmap list_fmap]. destruct (decide (q ∈ sf_path <$> take k files)) as [Hin|Hin].
    + by rewrite !bool_decide_true by set_solver.
    + rewrite bool_decide_false by done. destruct (decide (q = sf_path f)) as [->|Hne]; [by rewrite bool_decide_true by set_solver|].
      rewrite bool_decide_false by set_solver. destruct K1 as [_ L1]. by destruct (L1 q) as [->|[<- _]].
  - intros [|j] Hj; cbn [take fmap list_fmap foldr]; [lia|]. specialize (Hmin j ltac:(lia)). lia.
  - intros Hw0. apply Hw, K2, K1, Hw0.
Qed.

#[export] Instance older_total : Total older.
Proof.
  intros a b. unfold older, path_le. destruct (bytes_leb_total (path_text (sf_path a)) (path_text (sf_path b))); destruct (Z.lt_total (sf_modifiedAt a) (sf_modifiedAt b)) as [|[|]]; auto.
Qed.
#[export] Instance older_trans : Transitive older.
Proof. intros a b c. unfold older, path_le. intros [|[]] [|[]]; [lia|lia|lia|]. right. split; [lia|by eapply bytes_leb_trans]. Qed.

(** What remains of the messages after the first of their order are gone. *)
Lemma messages_after t t' k : let fs := sortStoredFiles (messages t) in
  (forall q, leaf t' q = if bool_decide (q ∈ paths_of (take k fs)) then None else leaf t q) -> messages t' ≡ₚ drop k fs.
Proof.
  intros fs Hl. assert (Hp : fs ≡ₚ messages t) by apply merge_sort_Permutation.
  assert (Hnd : NoDup (paths_of (take k fs ++ drop k fs))) by (rewrite take_drop; unfold paths_of; rewrite Hp; apply messages_nodup).
  unfold paths_of in Hnd. rewrite fmap_app in Hnd. apply NoDup_app in Hnd as (_ & Hdis & Hnd).
  apply NoDup_Permutation; [by eapply NoDup_fmap_1, messages_nodup|by eapply NoDup_fmap_1|]. intros f.
  rewrite messages_elem. assert (describe t' (sf_path f) = if bool_decide (sf_path f ∈ paths_of (take k fs)) then None else describe t (sf_path f)) as ->
    by (unfold describe; rewrite Hl; by case_bool_decide).
  destruct (decide (sf_path f ∈ paths_of (take k fs))) as [Hin|Hin].
  - rewrite bool_decide_true by done. split; [done|]. intros Hd. exfalso. eapply Hdis; [exact Hin|]. by apply list_elem_of_fmap_2.
  - rewrite bool_decide_false by done. rewrite <- messages_elem, <- Hp. rewrite <- (take_drop k fs) at 1. rewrite elem_of_app. split; [|by right].
    intros [Hf|Hf]; [|done]. exfalso. apply Hin. by apply list_elem_of_fmap_2.
Qed.

(** ** Cleanup *)

Lemma Cleanup_returned o now w w' : tree_wf (tree_of w) -> Cleanup o now w = (inr tt, w') ->
  let cutoff := dateOnly (now - Retention o) in
  exists t1 k, let fs := sortStoredFiles (messages t1) in
    keeps_but (expired cutoff) (tree_of w) t1 /\ (forall q, expired cutoff q -> leaf t1 q = None) /\
    (forall q, leaf (tree_of w') q = if bool_decide (q ∈ paths_of (take k fs)) then None else leaf t1 q) /\
    ((k <= length fs)%nat /\ (archive_bytes t1 - total_size (take k fs) <= MaxTotalBytes o \/ k = length fs)) /\
    (forall j, (j < k)%nat -> MaxTotalBytes o < archive_bytes t1 - total_size (take j fs)).
Proof.
  intros Hw E cutoff. apply ctx_then in E as (w0 & Ht & [(e & [=] & _)|E]). rewrite <- Ht in *. clear w Ht.
  unfold ibind at 1 in E. pose proof (MkdirAll_keeps (λ _, False) [] w0) as K0. destruct (MkdirAll [] w0) as [[e|[]] w1]; [done|]. cbn [snd] in K0.
  unfold ibind at 1 in E. fold cutoff in E. pose proof (removeExpired_keeps cutoff w1) as K1. destruct (removeExpiredDateTrees cutoff w1) as [[e|[]] w2] eqn:E1; [done|]. cbn [snd] in K1.
  assert (Hg : forall q, expired cutoff q -> leaf (tree_of w2) q = None) by (intros q; apply (removeExpired_gone cutoff w1 w2 q (proj1 K0 Hw) E1)).
  unfold ibind at 1 in E. destruct (archiveSize w2) as [[e|n] w3] eqn:E2; [done|]. apply archiveSize_returned in E2 as [-> K2].
  assert (K : keeps_but (expired cutoff) (tree_of w0) (tree_of w3)) by (etransitivity; [apply keeps_any, K0|]; etransitivity; [exact K1|by apply keeps_any]).
  assert (Hg3 : forall q, expired cutoff q -> leaf (tree_of w3) q = None) by (intros q Hq; rewrite (keeps_leaf _ _ _ K2); auto).
  assert (Hsize : archive_bytes (tree_of w2) = archive_bytes (tree_of w3)).
  { unfold archive_bytes. apply total_size_perm. apply NoDup_Permutation; [by eapply NoDup_fmap_1, messages_nodup|by eapply NoDup_fmap_1, messages_nodup|].
    intros f. rewrite !messages_elem. by rewrite (describe_keeps _ _ _ K2). }
  destruct (Z.ltb_spec (MaxTotalBytes o) (archive_bytes (tree_of w2))) as [Hover|Hfit].
  - unfold ibind at 1 in E. destruct (indexFiles w3) as [[e|r] w4] eqn:E3; [done|]. apply indexFiles_returned in E3 as [-> K3]. cbn [fst snd] in E.
    unfold ibind in E. destruct (evict _ _ _ w4) as [[e|r] w5] eqn:E4; [done|]. injection E as <-. apply evict_returned in E4 as (k & -> & Hk & Hl & Hmin & _).
    exists (tree_of w3), k. split_and!; [done|done| |apply Hk|apply Hk|done]. intros q. by rewrite Hl, (keeps_leaf _ _ _ K3).
  - injection E as <-. exists (tree_of w3), 0%nat. split_and!; [done|done|done|lia| |lia]. left. change (total_size (take 0 _)) with 0. rewrite <- Hsize. lia.
Qed.

(** Fewer messages are smaller. *)
Lemma archive_bytes_mono X t t' : keeps_but X t t' -> archive_bytes t' <= archive_bytes t.
Proof.
  intros Hk. assert (Hs : messages t' ⊆+ messages t).
  { apply NoDup_submseteq; [by eapply NoDup_fmap_1, messages_nodup|]. intros f Hf. apply messages_elem in Hf. apply messages_elem.
    unfold describe in *. destruct (leaf t' (sf_path f)) as [e|] eqn:E; [|done]. by rewrite (keeps_some _ _ _ _ _ Hk E). }
  apply submseteq_Permutation in Hs as [k Hp]. unfold archive_bytes. rewrite (total_size_perm _ _ Hp), total_size_app.
  pose proof (total_size_nonneg t k) as Hn. assert (0 <= total_size k); [|lia]. apply Hn. intros f Hf. rewrite Hp. set_solver.
Qed.
End Capacity.

(** ** The day of a record *)

Lemma atoi_pad0 k n : 0 <= n < 2 ^ 63 -> atoi (pad0 k n) = Some n.
Proof.
  intros Hn. destruct (pad0_digits k n) as [Hd He]; [lia|]. unfold atoi. destruct (pad0 k n) as [|c s] eqn:E; [done|]. pose proof Hd as Hd'. cbn [forallb] in Hd'.
  apply andb_prop in Hd' as [Hc _]. unfold is_digit, in_range in Hc.
  assert (ceq c "-"%char = false) as -> by (apply ceq_false; intros ->; done). assert (ceq c "+"%char = false) as -> by (apply ceq_false; intros ->; done).
  unfold parseUint. rewrite bool_decide_false, Hd by done. rewrite <- E, number_of_pad0 by lia. cbn [negb orb]. by rewrite (proj2 (Z.ltb_lt _ _)) by lia.
Qed.
Lemma dir_number_pad0 k n lo hi : (0 < k)%nat -> 0 <= n < 10 ^ Z.of_nat k -> n < 2 ^ 63 -> lo <= n <= hi -> dir_number (pad0 k n) (Z.of_nat k) lo hi = Some n.
Proof.
  intros Hk Hn H63 Hr. unfold dir_number, dateDirectoryNumber. cbn [fst snd]. rewrite bool_decide_true by done. unfold go_len. rewrite pad0_length, Z.eqb_refl by done.
  cbn [negb orb]. rewrite atoi_pad0 by lia. by rewrite (proj2 (Z.leb_le _ _)), (proj2 (Z.leb_le _ _)) by lia.
Qed.
Lemma dateOnly_day t : dateOnly t = t / day * day.
Proof.
  unfold dateOnly. cbv zeta. destruct (date_of_days t) as [Hd Hr]. cbv zeta in *. destruct (real_date_bounds _ Hr) as [Hm _]. rewrite go_date_days by done. by rewrite Hd.
Qed.
Lemma month_days_range y m : 28 <= month_days y m <= 31.
Proof. unfold month_days. repeat case_match; lia. Qed.

(** A record's message is in an expired tree exactly when its day is before the
    day of the cutoff. *)
Lemma record_expired id t c : 1 <= cv_year (date_of t) <= 9999 -> expired (dateOnly c) (record_path id t) <-> t / day < c / day.
Proof.
  intros Hyear. rewrite dateOnly_day. destruct (date_of_days t) as [Hd Hr]. cbv zeta in Hd, Hr. pose proof (real_date_bounds _ Hr) as [Hm Hb].
  unfold record_path, date_path. cbv zeta. rewrite Hd in Hb. assert (Hdt : date_of (t / day * day) = date_of t) by (unfold date_of; by rewrite Z.div_mul).
  destruct (date_of t) as [y m d] eqn:Ec. cbn [cv_year cv_month cv_day] in *. unfold real_date in Hr. cbn [cv_year cv_month cv_day] in Hr. pose proof (month_days_range y m).
  assert (Ey : dir_number (format_year y) 4 1 9999 = Some y) by (unfold format_year; rewrite (proj2 (Z.ltb_ge y 0)) by lia; apply (dir_number_pad0 4); lia).
  assert (Em : dir_number (pad0 2 m) 2 1 12 = Some m) by (apply (dir_number_pad0 2); lia).
  assert (Ed : validDayDirectory (pad0 2 d, EDir) y m = Some (t / day * day)).
  { unfold validDayDirectory. assert (E : dir_number (pad0 2 d) 2 1 31 = Some d) by (apply (dir_number_pad0 2); lia). unfold dir_number in E. rewrite E.
    cbv zeta. unfold same_date. rewrite go_date_days, Hd by done. by rewrite bool_decide_true by done. }
  pose proof (year_after y m Hm) as Hya. assert (Hday : 0 < day) by done. split.
  - intros (p & Hp & (n & l & E)). destruct (expired_tree_cases _ p Hp) as (yn & year & Hyn & Hc).
    destruct Hc as [->|[mn [->|[dn ->]]]].
    + assert (E' : l = [pad0 2 d; pad0 2 m] /\ yn = format_year y).
      { injection E as _ E. apply (app_inj_2 [pad0 2 d; pad0 2 m] l [format_year y] [yn]) in E as [<- E]; [|done]. by injection E as <-. }
      destruct E' as [_ ->]. cbn [expired_tree] in Hp. rewrite Ey in Hp. rewrite go_date_days in Hp by lia. apply Z.leb_le in Hp. nia.
    + assert (E' : mn = pad0 2 m /\ yn = format_year y).
      { injection E as _ E. apply (app_inj_2 [pad0 2 d] l [pad0 2 m; format_year y] [mn; yn]) in E as [_ E]; [|done]. by injection E as <- <-. }
      destruct E' as [-> ->]. cbn [expired_tree] in Hp. rewrite Ey, Em, month_after in Hp by done. apply Z.leb_le in Hp. nia.
    + assert (E' : dn = pad0 2 d /\ mn = pad0 2 m /\ yn = format_year y).
      { injection E as _ E. apply (app_inj_2 [] l [pad0 2 d; pad0 2 m; format_year y] [dn; mn; yn]) in E as [_ E]; [|done]. by injection E as <- <- <-. }
      destruct E' as (-> & -> & ->). cbn [expired_tree] in Hp. rewrite Ey, Em, Ed in Hp. apply Z.ltb_lt in Hp. nia.
  - intros Hlt. exists [pad0 2 d; pad0 2 m; format_year y]. split; [|by exists (record_name id), []]. cbn [expired_tree]. rewrite Ey, Em, Ed. apply Z.ltb_lt. nia.
Qed.

(** cleanup removes exactly what has expired.  After a cleanup that returns,
    nothing is left below a year, month or day that lies before the cutoff day;
    and when the archive was within its size, every other file is still there as
    it was.  For the message of a rejection this means: it is gone exactly when
    its day is before the day [Retention] ago. *)
Theorem cleanup_expires_exactly `{UnicodeTables} (o : Options) (now : Z) (w w' : world) :
  tree_wf (tree_of w) -> Cleanup o now w = (inr tt, w') ->
  (forall q, expired (dateOnly (now - Retention o)) q -> leaf (tree_of w') q = None) /\
  (archive_bytes (tree_of w) <= MaxTotalBytes o ->
   (forall q, leaf (tree_of w') q = leaf (tree_of w) q \/ expired (dateOnly (now - Retention o)) q) /\
   (forall recordID rejectedAt, 1 <= cv_year (date_of rejectedAt) <= 9999 ->
      leaf (tree_of w') (record_path recordID rejectedAt) =
      if rejectedAt / day <? (now - Retention o) / day then None else leaf (tree_of w) (record_path recordID rejectedAt))).
Proof.
  intros Hw E. destruct (Cleanup_returned o now w w' Hw E) as (t1 & k & K & Hg & Hl & Hk & Hmin). clear E. set (cutoff := dateOnly (now - Retention o)) in *.
  assert (Hgone : forall q, expired cutoff q -> leaf (tree_of w') q = None) by (intros q Hq; rewrite Hl, (Hg q Hq); by case_bool_decide).
  split; [exact Hgone|]. intros Hfit. assert (k = 0%nat) as ->.
  { destruct k as [|k]; [done|]. exfalso. specialize (Hmin 0%nat ltac:(lia)). change (total_size (take 0 _)) with 0 in Hmin.
    pose proof (archive_bytes_mono _ _ _ K). lia. }
  assert (Hsame : forall q, leaf (tree_of w') q = leaf (tree_of w) q \/ expired cutoff q).
  { intros q. rewrite Hl, bool_decide_false by (cbn; set_solver). destruct K as [_ L]. destruct (L q) as [->|[He _]]; auto. }
  split; [exact Hsame|]. intros id t Hy. destruct (Z.ltb_spec (t / day) ((now - Retention o) / day)) as [Hlt|Hge].
  - apply Hgone. by apply record_expired.
  - destruct (Hsame (record_path id t)) as [|He]; [done|]. apply record_expired in He; [lia|done].
Qed.

Section Evicted.
Context `{UnicodeTables} (t1 t' : tree) (k : nat).
#[local] Abbreviation fs := (sortStoredFiles (messages t1)).
Hypothesis left : forall q, leaf t' q = if bool_decide (q ∈ paths_of (take k fs)) then None else leaf t1 q.
#[local] Set Default Proof Using "All".

Lemma evicted_bytes : archive_bytes t' = archive_bytes t1 - total_size (take k fs).
Proof.
  unfold archive_bytes. rewrite (total_size_perm _ _ (messages_after t1 t' k left)).
  assert (Ht : total_size (messages t1) = total_size fs) by (apply total_size_perm; symmetry; apply merge_sort_Permutation).
  rewrite Ht. rewrite <- (take_drop k fs) at 2. rewrite total_size_app. lia.
Qed.
Lemma evicted_older f g : f ∈ take k fs -> g ∈ messages t' -> older f g.
Proof.
  intros Hf Hg. rewrite (messages_after t1 t' k left) in Hg. eapply (StronglySorted_app_1_elem_of older (take k fs) (drop k fs)); [|done|done].
  rewrite take_drop. apply StronglySorted_merge_sort; apply _.
Qed.
Lemma evicted_file q : leaf t1 q <> None -> leaf t' q = None -> exists f, f ∈ take k fs /\ describe t1 q = Some f.
Proof.
  intros H1 H2. rewrite left in H2. case_bool_decide as Hq; [|done]. apply list_elem_of_fmap in Hq as (f & -> & Hf). exists f. split; [done|].
  apply messages_elem. assert (Hin : f ∈ fs) by (rewrite <- (take_drop k fs); set_solver). unfold sortStoredFiles in Hin. by rewrite merge_sort_Permutation in Hin.
Qed.
(** The last file that went was needed. *)
Lemma evicted_needed maximum : (k <= length fs)%nat -> (forall j, (j < k)%nat -> maximum < archive_bytes t1 - total_size (take j fs)) -> (0 < k)%nat ->
  exists f, f ∈ take k fs /\ maximum < sf_size f + archive_bytes t'.
Proof.
  intros Hle Hmin Hk. rewrite evicted_bytes. destruct (lookup_lt_is_Some_2 fs (k - 1)) as [f Hf]; [lia|]. pose proof (take_S_r fs (k - 1) f Hf) as Htk.
  replace (S (k - 1)) with k in Htk by lia. exists f. rewrite Htk. split; [set_solver|]. rewrite total_size_app. specialize (Hmin (k - 1)%nat ltac:(lia)).
  unfold total_size at 2. cbn [fmap list_fmap foldr]. lia.
Qed.
End Evicted.

(** after a cleanup that returns the messages of the archive fit its maximum
    size, and no more was given up for that than needed, oldest first: a file
    that is gone without having expired was a message older than every message
    that is left, and the messages left together with one of those given up
    would not have fitted. *)
Theorem cleanup_capacity `{UnicodeTables} (o : Options) (now : Z) (w w' : world) :
  tree_wf (tree_of w) -> 0 <= MaxTotalBytes o -> Cleanup o now w = (inr tt, w') ->
  archive_bytes (tree_of w') <= MaxTotalBytes o /\
  forall q, leaf (tree_of w) q <> None -> leaf (tree_of w') q = None -> ~ expired (dateOnly (now - Retention o)) q ->
    (exists f, describe (tree_of w) q = Some f /\ forall g, g ∈ messages (tree_of w') -> older f g) /\
    (exists f, f ∈ messages (tree_of w) /\ leaf (tree_of w') (sf_path f) = None /\ MaxTotalBytes o < sf_size f + archive_bytes (tree_of w')).
Proof.
  intros Hw Hmax E. destruct (Cleanup_returned o now w w' Hw E) as (t1 & k & K & Hg & Hl & (Hle & Hk) & Hmin). clear E. split.
  { rewrite (evicted_bytes t1 (tree_of w') k Hl). destruct Hk as [Hk| ->]; [done|]. rewrite take_ge by done.
    assert (Ht : total_size (sortStoredFiles (messages t1)) = archive_bytes t1) by (apply total_size_perm, merge_sort_Permutation). lia. }
  intros q Hq Hq' Hne. assert (Hq1 : leaf t1 q = leaf (tree_of w) q) by (destruct K as [_ L]; by destruct (L q) as [|[]]).
  destruct (evicted_file t1 (tree_of w') k Hl q) as (f & Hf & Hd); [by rewrite Hq1|done|]. split.
  - exists f. split; [unfold describe in *; by rewrite <- Hq1|]. intros g. by apply (evicted_older t1 (tree_of w') k Hl).
  - destruct (evicted_needed t1 (tree_of w') k Hl (MaxTotalBytes o) Hle Hmin) as (f0 & Hf0 & Hn); [destruct k; [set_solver|lia]|].
    assert (Hin : f0 ∈ messages t1) by (rewrite <- (merge_sort_Permutation older (messages t1)); rewrite <- (take_drop k (merge_sort _ _)); apply elem_of_app; by left).
    exists f0. split_and!; [| |done].
    + apply messages_elem. apply messages_elem in Hin. unfold describe in *. destruct (leaf t1 (sf_path f0)) as [e|] eqn:E0; [|done].
      by rewrite (keeps_some _ _ _ _ _ K E0).
    + rewrite Hl, bool_decide_true; [done|]. by apply list_elem_of_fmap_2.
Qed.

(** ** Histories *)

Section Histories.
Context `{UnicodeTables} (o : Options).

(** Cleanup touches messages and expired trees only, whatever fails. *)
Lemma Cleanup_always now : always (λ q, expired (dateOnly (now - Retention o)) q \/ message_path q = true) (Cleanup o now).
Proof.
  set (X := λ q, _). apply always_bind; [apply always_ctx|intros _]. apply always_bind; [apply MkdirAll_keeps|intros _].
  apply always_bind; [eapply always_weaken; [|apply removeExpired_keeps]; intros q Hq; by left|intros _].
  apply always_bind; [|intros total; destruct (MaxTotalBytes o <? total); [|apply always_ret]].
  { intros w. apply keeps_any. apply (always_bind (λ _, False) _ _ (walk_keeps (all_paths (tree_of w)) [])). intros files. apply always_ret. }
  intros w. unfold ibind. destruct (indexFiles w) as [[e|r] w1] eqn:E; cbn [snd].
  { apply keeps_any. pose proof (always_bind (λ _, False) _ (λ files, iret (files, total_size files)) (walk_keeps (all_paths (tree_of w)) []) (λ _, always_ret _ _) w) as Hk.
    unfold indexFiles in E. by rewrite E in Hk. }
  apply indexFiles_returned in E as [-> K]. etransitivity; [apply keeps_any, K|]. cbn [fst snd].
  pose proof (evict_keeps (MaxTotalBytes o) (sortStoredFiles (messages (tree_of w))) (archive_bytes (tree_of w)) w1) as He.
  destruct (evict _ _ _ w1) as [[e|r] w2]; cbn [fst snd iret] in *; (eapply keeps_weaken; [|exact He]); intros q Hq; right; unfold paths_of, sortStoredFiles in Hq;
    rewrite merge_sort_Permutation in Hq; apply list_elem_of_fmap in Hq as (f & -> & Hf); by apply messages_elem, describe_path in Hf as (_ & _ & Hf).
Qed.

Inductive archive_op := OpSave (message : gostring) (recordID now : Z) (random : option gostring) | OpCleanup (now : Z).
(** What the file system and the context do during an operation. *)
Record circumstances := MkCircumstances { c_ticks : list tick; c_context : list bool; c_clock : Z }.
Definition run_op (t : tree) (x : archive_op * circumstances) : tree :=
  let w := MkWorld t (c_ticks x.2) (c_context x.2) (c_clock x.2) in
  match x.1 with
  | OpSave message recordID now random => tree_of (saveAt o message recordID now random w).2
  | OpCleanup now => tree_of (Cleanup o now w).2
  end.
Definition run_ops (t : tree) (ops : list (archive_op * circumstances)) : tree := fold_left run_op ops t.

Lemma run_op_keeps t x : (tree_wf t -> tree_wf (run_op t x)) /\
  forall q e, leaf t q = Some e -> message_path q = false -> (forall cutoff, ~ expired cutoff q) -> leaf (run_op t x) q = Some e.
Proof.
  destruct x as [[message id now random|now] c]; unfold run_op; cbn [fst snd]; set (w := MkWorld t _ _ _); change t with (tree_of w); clearbody w.
  - destruct (saveAt o message id now random w) as [r w'] eqn:E. cbn [snd]. apply saveAt_spec in E as [[Hk _]|(p & _ & [W N S] & _)].
    + split; [apply Hk|]. intros q e Hq _ _. by rewrite (keeps_leaf _ _ _ Hk).
    + split; [done|]. intros q e Hq _ _. rewrite S; [done|]. intros ->. congruence.
  - destruct (Cleanup_always now w) as [W L]. split; [exact W|]. intros q e Hq Hm Hx. destruct (L q) as [->|[[He|He] _]]; [done|by apply Hx in He|congruence].
Qed.
End Histories.

(** over every history of saves and cleanups, whatever fails in them, the
    archive stays a tree, and it never loses or changes anything that is not its
    own: a file or link that is neither a message nor below a directory named
    after a year, month or day that can expire stays as it is. *)
Theorem archive_history_invariant `{UnicodeTables} (o : Options) (ops : list (archive_op * circumstances)) (t : tree) :
  tree_wf t ->
  tree_wf (run_ops o t ops) /\
  forall q e, leaf t q = Some e -> message_path q = false -> (forall cutoff, ~ expired cutoff q) -> leaf (run_ops o t ops) q = Some e.
Proof.
  unfold run_ops. revert t. induction ops as [|x ops IH]; intros t Hw; [done|]. cbn [fold_left]. destruct (run_op_keeps o t x) as [W L].
  destruct (IH _ (W Hw)) as [W' L']. split; [done|]. intros q e Hq Hm Hx. apply L'; auto.
Qed.

(** ** Witnesses *)

#[local] Existing Instance basic_tables.
Definition limits : Options := MkOptions (30 * day) 8.
Definition empty_archive : world := MkWorld ∅ [] [] 1.
Definition may6 : Z := go_date 2024 5 6 (3 * hour).
Definition one_saved : world := (SaveWithRecordIDAt limits (lit "first") 7 may6 empty_archive).2.
(** The second save meets a directory that disappears. *)
Definition two_saved : world :=
  (SaveWithRecordIDAt limits (lit "other") 8 (may6 + day) (MkWorld (tree_of one_saved) [Works; Vanishes [lit "07"; lit "05"; lit "2024"]] [] 2)).2.

Lemma empty_wf : tree_wf (tree_of empty_archive).
Proof. intros n p H. change (tree_of empty_archive) with (∅ : tree) in H. by rewrite lookup_empty in H. Qed.
Lemma save_wf o message id t w : tree_wf (tree_of w) -> tree_wf (tree_of (SaveWithRecordIDAt o message id t w).2).
Proof.
  intros Hw. unfold SaveWithRecordIDAt. destruct (id =? 0); [done|]. destruct (t =? zero_time); [done|].
  destruct (saveAt o message id t None w) as [r w'] eqn:E. cbn [snd]. apply saveAt_spec in E as [[[W _] _]|(p & _ & [W _ _] & _)]; auto.
Qed.
Lemma one_saved_wf : tree_wf (tree_of one_saved).
Proof. apply save_wf, empty_wf. Qed.
Lemma two_saved_wf : tree_wf (tree_of two_saved).
Proof. apply save_wf, one_saved_wf. Qed.

Lemma archive_round_trip_witness :
  (ReadWithRecordID true 7 may6 100 two_saved).1 = inr (MkStoredMessage (lit "first") [lit "7.eml"; lit "06"; lit "05"; lit "2024"]).
Proof.
  destruct (archive_round_trip limits (lit "first") 7 may6 100 empty_archive one_saved [lit "7.eml"; lit "06"; lit "05"; lit "2024"]) as (_ & Hr & _).
  - lia.
  - lia.
  - vm_compute. discriminate.
  - vm_compute. reflexivity.
  - apply Hr; vm_compute; reflexivity.
Defined.

Definition after_cleanup (now : Z) (w : world) : world := (Cleanup limits now w).2.
Lemma cleanup_expires_exactly_witness :
  leaf (tree_of (after_cleanup (may6 + 31 * day) one_saved)) (record_path 7 may6) = None /\
  leaf (tree_of (after_cleanup (may6 + 30 * day) one_saved)) (record_path 7 may6) = Some (EFile (lit "first") 1).
Proof.
  split.
  - destruct (cleanup_expires_exactly limits (may6 + 31 * day) one_saved (after_cleanup (may6 + 31 * day) one_saved)) as (_ & Hk).
    + apply one_saved_wf.
    + vm_compute. reflexivity.
    + destruct Hk as [_ Hr]; [vm_compute; discriminate|]. rewrite Hr; [vm_compute; reflexivity|vm_compute; split; discriminate].
  - destruct (cleanup_expires_exactly limits (may6 + 30 * day) one_saved (after_cleanup (may6 + 30 * day) one_saved)) as (_ & Hk).
    + apply one_saved_wf.
    + vm_compute. reflexivity.
    + destruct Hk as [_ Hr]; [vm_compute; discriminate|]. rewrite Hr; [vm_compute; reflexivity|vm_compute; split; discriminate].
Defined.

Lemma cleanup_capacity_witness :
  archive_bytes (tree_of two_saved) = 10 /\ archive_bytes (tree_of (after_cleanup (may6 + day) two_saved)) <= 8 /\
  leaf (tree_of (after_cleanup (may6 + day) two_saved)) (record_path 7 may6) = None /\
  exists f, f ∈ messages (tree_of two_saved) /\ 8 < sf_size f + archive_bytes (tree_of (after_cleanup (may6 + day) two_saved)).
Proof.
  destruct (cleanup_capacity limits (may6 + day) two_saved (after_cleanup (may6 + day) two_saved)) as [Hfit Hev].
  - apply two_saved_wf.
  - vm_compute. discriminate.
  - vm_compute. reflexivity.
  - split; [vm_compute; reflexivity|]. split; [exact Hfit|]. split; [vm_compute; reflexivity|].
    destruct (Hev (record_path 7 may6)) as (_ & f & Hf & _ & Hn).
    + vm_compute. discriminate.
    + vm_compute. reflexivity.
    + intros He. apply record_expired in He; [|vm_compute; split; discriminate]. revert He. vm_compute. discriminate.
    + exists f. split; [exact Hf|exact Hn].
Defined.

(** A note somebody left in the archive's directory. *)
Definition note_only : tree := <[[lit "README"] := EFile (lit "keep") 0]> (<[[] := EDir]> ∅).
Lemma note_wf : tree_wf note_only.
Proof. apply wf_insert; [apply wf_insert; [intros n p H; by rewrite lookup_empty in H|by right|done]|by left|done]. Qed.
Lemma archive_history_invariant_witness :
  leaf (run_ops limits note_only [(OpSave (lit "first") 7 may6 None, MkCircumstances [Works; Faults 0] [] 1);
                                  (OpCleanup (may6 + 90 * day), MkCircumstances [] [] 1)]) [lit "README"] = Some (EFile (lit "keep") 0).
Proof.
  apply (archive_history_invariant limits); [exact note_wf|reflexivity|reflexivity|].
  intros cutoff (p & Hp & n & l & E). destruct (expired_tree_cases _ p Hp) as (yn & y & _ & Hc). injection E as _ E.
  destruct Hc as [->|[mn [->|[dn ->]]]]; symmetry in E; apply app_eq_nil in E as [_ E]; discriminate E.
Defined.
