(* ===== verification/IPReputation.v ===== *)
(** * Sending-IP reputation (internal/stores/sqlite/ip_reputation.go)

    Strikes, short and repeat blocks, their decay and their capacity limit, over
    the tables [ip_reputation] and [ip_strikes] of [SqlDb].  Every method of
    the repository is a definition; the statements of a transaction are the
    steps of its body, in order.  [now] is the value of the injected clock. *)
From S2P Require Import Prelude GoText NetSafety SqlDb.
Import NetSafety.

Definition repeatRefreshInterval : Z := minute.

Record IPReputationOptions := MkIPReputationOptions {
  BlockDuration : Z;
  RepeatThreshold : Z;
  RepeatWindow : Z;
  RepeatBlockDuration : Z;
  RepeatRefreshOnAttempt : bool;
  LegitimatePerStrike : Z;
  IPMaxEntries : Z;
}.

(** [stores.IPBlock]; the zero level and expiry are [None]. *)
Record IPBlock := MkIPBlock {
  blk_Address : Addr;
  blk_Level : option IPBlockLevel;
  blk_ExpiresAt : option Z;
  blk_StrikeCount : Z;
}.
Definition noIPBlock : IPBlock := MkIPBlock AddrInvalid None None 0.

Inductive repo_error :=
  | RepoDb (e : db_error) | RepoDisabled | RepoInvalid | RepoNoDuration | RepoBadLimit | RepoParse | RepoBadScope | RepoBadVerdict | RepoBadSender.
#[export] Instance repo_error_eq_dec : EqDecision repo_error.
Proof. solve_decision. Defined.

(** Wraps the error of a database operation. *)
Definition lift_db {R} (r : (db_error + R) * World) : (repo_error + R) * World :=
  match r with (inl e, w) => (inl (RepoDb e), w) | (inr x, w) => (inr x, w) end.

Section IPReputation.
Context `{NetIPText} (r : IPReputationOptions).

Definition enabled : bool :=
  (0 <? IPMaxEntries r) && ((0 <? BlockDuration r) || (0 <? RepeatThreshold r)).

(** ** Statements *)

Definition has_ip (ip : gostring) (row : ip_row) : bool := beq (ip_ip row) ip.
Definition has_id (id : Z) (row : ip_row) : bool := ip_id row =? id.
Definition strike_of (id : Z) (s : strike_row) : bool := st_ip_reputation_id s =? id.

(** Deleting rows of [ip_reputation] deletes their strikes. *)
Definition delete_ip_where (p : ip_row -> bool) (d : Db) : Db :=
  let gone := ip_id <$> List.filter p (ip_reputation d) in
  set_ip_strikes (delete_where (λ s, bool_decide (st_ip_reputation_id s ∈ gone)) (ip_strikes d))
    (set_ip_reputation (delete_where p (ip_reputation d)) d).

Definition expired_repeat (now_ms : Z) (row : ip_row) : bool :=
  match ip_block row with Some (IPBlockLevelRepeat, until) => until <=? now_ms | _ => false end.
Definition expired_short (now_ms : Z) (row : ip_row) : bool :=
  match ip_block row with Some (IPBlockLevelShort, until) => until <=? now_ms | _ => false end.

(** [INSERT ... ON CONFLICT(ip) DO UPDATE ... RETURNING id, block_level, blocked_until_ms] *)
Definition upsert_rejected (ip : gostring) (now_ms : Z) (d : Db) : (Z * option (IPBlockLevel * Z)) * Db :=
  match List.find (has_ip ip) (ip_reputation d) with
  | Some row =>
      ((ip_id row, ip_block row),
       set_ip_reputation (update_where (has_ip ip)
         (λ row, IPRow (ip_id row) (ip_ip row) (ip_block row) 0 now_ms) (ip_reputation d)) d)
  | None =>
      let id := next_id ip_id (ip_reputation d) in
      ((id, None), set_ip_reputation (ip_reputation d ++ [IPRow id ip None 0 now_ms]) d)
  end.

Definition insert_strike (id now_ms : Z) (d : Db) : Db :=
  set_ip_strikes (ip_strikes d ++ [StrikeRow (next_id st_id (ip_strikes d)) id now_ms]) d.

(** Strikes inside the window, newest first. *)
Definition newest_strikes (id cutoff : Z) (strikes : list strike_row) : list strike_row :=
  order_by (λ s, - st_struck_at_ms s) (λ s, - st_id s)
    (List.filter (λ s, strike_of id s && (cutoff <? st_struck_at_ms s)) strikes).

(** The [DELETE ... id NOT IN (SELECT ... LIMIT ?)] of [RecordRejection]. *)
Definition keep_newest (id cutoff threshold : Z) (strikes : list strike_row) : list strike_row :=
  let kept := st_id <$> take (Z.to_nat threshold) (newest_strikes id cutoff strikes) in
  delete_where (λ s, strike_of id s && negb (bool_decide (st_id s ∈ kept))) strikes.

Definition update_block (id : Z) (block : option (IPBlockLevel * Z)) (now_ms : Z) (d : Db) : Db :=
  set_ip_reputation (update_where (has_id id)
    (λ row, IPRow (ip_id row) (ip_ip row) block 0 now_ms) (ip_reputation d)) d.

(** ** RecordRejection *)

(** The block a rejection earns by itself, with its expiry time. *)
Definition earned_block (now strikeCount : Z) : option (IPBlockLevel * Z) :=
  if (0 <? RepeatThreshold r) && (RepeatThreshold r <=? strikeCount)
  then Some (IPBlockLevelRepeat, now + RepeatBlockDuration r)
  else if 0 <? BlockDuration r then Some (IPBlockLevelShort, now + BlockDuration r)
  else None.

(** An existing block wins while it is active and lasts longer. *)
Definition merged_block (now : Z) (existing : option (IPBlockLevel * Z)) (earned : option (IPBlockLevel * Z))
    : option (IPBlockLevel * Z) :=
  match existing with
  | None => earned
  | Some (level, until_ms) =>
      let until := timeFromMillis until_ms in
      let wins := match earned with
                  | None => true
                  | Some (earnedLevel, blockedUntil) =>
                      (blockedUntil <? until) ||
                      ((until =? blockedUntil) && bool_decide (level = IPBlockLevelRepeat) &&
                       negb (bool_decide (earnedLevel = IPBlockLevelRepeat)))
                  end in
      if (now <? until) && wins then Some (level, until) else earned
  end.

Definition stored_block (b : option (IPBlockLevel * Z)) : option (IPBlockLevel * Z) :=
  (λ '(level, until), (level, unixMillis until)) <$> b.

Definition strike_statements (id now : Z) (d : Db) : Db :=
  if 0 <? RepeatThreshold r then
    let d := insert_strike id (unixMillis now) d in
    set_ip_strikes (keep_newest id (unixMillis (now - RepeatWindow r)) (RepeatThreshold r) (ip_strikes d)) d
  else set_ip_strikes (delete_where (strike_of id) (ip_strikes d)) d.

Definition reject_body (addr : Addr) (now : Z) (d : Db) : (option (IPBlockLevel * Z) * Z) * Db :=
  let ip := addr_string addr in
  let now_ms := unixMillis now in
  let d := delete_ip_where (λ row, has_ip ip row && expired_repeat now_ms row) d in
  let '((id, existing), d) := upsert_rejected ip now_ms d in
  let d := strike_statements id now d in
  let strikeCount := count_where (strike_of id) (ip_strikes d) in
  let block := merged_block now existing (earned_block now strikeCount) in
  ((block, strikeCount), update_block id (stored_block block) now_ms d).

Definition RecordRejection (addr : Addr) (now : Z) (w : World) : (repo_error + IPBlock) * World :=
  if negb enabled || negb (isValid addr) then (inr noIPBlock, w)
  else
    let addr := CanonicalIP addr in
    match withTx (reject_body addr now) w with
    | (inl e, w) => (inl (RepoDb e), w)
    | (inr (block, strikeCount), w) => (inr (MkIPBlock addr (fst <$> block) (snd <$> block) strikeCount), w)
    end.

(** ** RecordLegitimate *)

Definition hasCurrentStrike (ip : gostring) (now : Z) (d : Db) : bool :=
  if (RepeatThreshold r <=? 0) || (RepeatWindow r <=? 0) then false
  else existsb (λ row, has_ip ip row &&
         existsb (λ s, strike_of (ip_id row) s && (unixMillis (now - RepeatWindow r) <? st_struck_at_ms s)) (ip_strikes d))
       (ip_reputation d).

Definition pruneStrikesTx (id now : Z) (d : Db) : Db :=
  if (RepeatThreshold r =? 0) || (RepeatWindow r <=? 0)
  then set_ip_strikes (delete_where (strike_of id) (ip_strikes d)) d
  else set_ip_strikes (delete_where (λ s, strike_of id s && (st_struck_at_ms s <=? unixMillis (now - RepeatWindow r)))
                         (ip_strikes d)) d.

Definition row_active (now : Z) (row : ip_row) : bool :=
  match ip_block row with Some (_, until_ms) => now <? timeFromMillis until_ms | None => false end.

(** The oldest strike of a row: the first by time, then by rowid. *)
Definition oldest_strike (id : Z) (strikes : list strike_row) : list Z :=
  first_ids st_struck_at_ms st_id 1 (List.filter (strike_of id) strikes).

Definition set_legitimate (id count : Z) (now_ms : option Z) (d : Db) : Db :=
  set_ip_reputation (update_where (has_id id)
    (λ row, IPRow (ip_id row) (ip_ip row) (ip_block row) count (default (ip_last_activity_at_ms row) now_ms))
    (ip_reputation d)) d.

Definition legitimate_body (ip : gostring) (now : Z) (d : Db) : unit * Db :=
  match List.find (has_ip ip) (ip_reputation d) with
  | None => (tt, d)
  | Some row =>
      let id := ip_id row in
      let d := pruneStrikesTx id now d in
      let strikeCount := count_where (strike_of id) (ip_strikes d) in
      let active := row_active now row in
      if strikeCount =? 0 then
        if negb active then (tt, delete_ip_where (has_id id) d)
        else (tt, set_legitimate id 0 None d)
      else
        let legitimate := ip_legitimate_count row + 1 in
        let remove := LegitimatePerStrike r <=? legitimate in
        let oldest := oldest_strike id (ip_strikes d) in
        let '(legitimate, strikeCount, d) :=
          if remove then
            let removed := count_where (id_in st_id oldest) (ip_strikes d) in
            (0, (if 0 <? removed then strikeCount - 1 else strikeCount),
             set_ip_strikes (delete_where (id_in st_id oldest) (ip_strikes d)) d)
          else (legitimate, strikeCount, d) in
        if (strikeCount =? 0) && negb active then (tt, delete_ip_where (has_id id) d)
        else (tt, set_legitimate id legitimate (Some (unixMillis now)) d)
  end.

Definition RecordLegitimate (addr : Addr) (now : Z) (w : World) : (repo_error + unit) * World :=
  if negb enabled || (LegitimatePerStrike r <=? 0) || negb (isValid addr) then (inr tt, w)
  else
    let ip := addr_string (CanonicalIP addr) in
    match query (hasCurrentStrike ip now) w with
    | (inl e, w) => (inl (RepoDb e), w)
    | (inr false, w) => (inr tt, w)
    | (inr true, w) => lift_db (withTx (legitimate_body ip now) w)
    end.

(** ** ActiveBlockForAttempt *)

Definition readActiveBlock (ip : gostring) (now : Z) (d : Db) : option (IPBlockLevel * Z * Z) :=
  let cutoff := if (0 <? RepeatThreshold r) && (0 <? RepeatWindow r)
                then unixMillis (now - RepeatWindow r) else unixMillis now in
  match List.find (λ row, has_ip ip row &&
          match ip_block row with Some (_, until) => unixMillis now <? until | None => false end) (ip_reputation d) with
  | Some row =>
      match ip_block row with
      | Some (level, until) =>
          Some (level, until, count_where (λ s, strike_of (ip_id row) s && (cutoff <? st_struck_at_ms s)) (ip_strikes d))
      | None => None
      end
  | None => None
  end.

Definition refreshable (ip : gostring) (now : Z) (row : ip_row) : bool :=
  let expires := now + RepeatBlockDuration r in
  has_ip ip row &&
  match ip_block row with
  | Some (IPBlockLevelRepeat, until) =>
      (unixMillis now <? until) && (until <=? unixMillis (expires - repeatRefreshInterval))
  | _ => false
  end.

(** The [UPDATE] of [refreshRepeatBlock]: the number of rows it changed. *)
Definition refresh_statement (ip : gostring) (now : Z) (d : Db) : Z * Db :=
  let expires := now + RepeatBlockDuration r in
  (count_where (refreshable ip now) (ip_reputation d),
   set_ip_reputation (update_where (refreshable ip now)
     (λ row, IPRow (ip_id row) (ip_ip row) (Some (IPBlockLevelRepeat, unixMillis expires))
               (ip_legitimate_count row) (unixMillis now)) (ip_reputation d)) d).

Definition ActiveBlockForAttempt (addr : Addr) (now : Z) (w : World) : (repo_error * IPBlock * bool + IPBlock * bool) * World :=
  if negb enabled || negb (isValid addr) then (inr (noIPBlock, false), w)
  else
    let addr := CanonicalIP addr in
    let ip := addr_string addr in
    match query (readActiveBlock ip now) w with
    | (inl e, w) => (inl (RepoDb e, noIPBlock, false), w)
    | (inr None, w) => (inr (noIPBlock, false), w)
    | (inr (Some (level, until, strikeCount)), w) =>
        match parse_addr ip with
        | None => (inl (RepoParse, noIPBlock, false), w)
        | Some parsed =>
            let expires := timeFromMillis until in
            let block := MkIPBlock parsed (Some level) (Some expires) strikeCount in
            if negb (bool_decide (level = IPBlockLevelRepeat)) || negb (RepeatRefreshOnAttempt r)
               || (now + RepeatBlockDuration r - expires <? repeatRefreshInterval)
            then (inr (block, true), w)
            else match exec (refresh_statement ip now) w with
                 | (inl e, w) => (inl (RepoDb e, block, true), w)
                 | (inr updated, w) =>
                     (inr (if updated =? 0 then block
                           else MkIPBlock parsed (Some level) (Some (now + RepeatBlockDuration r)) strikeCount, true), w)
                 end
        end
    end.

(** ** Administration *)

Definition Count (w : World) : (repo_error + Z) * World :=
  lift_db (query (λ d, Z.of_nat (length (ip_reputation d))) w).

Definition manual_statement (ip : gostring) (level : IPBlockLevel) (until_ms now_ms : Z) (d : Db) : unit * Db :=
  match List.find (has_ip ip) (ip_reputation d) with
  | Some _ => (tt, set_ip_reputation (update_where (has_ip ip)
                (λ row, IPRow (ip_id row) (ip_ip row) (Some (level, until_ms)) 0 now_ms) (ip_reputation d)) d)
  | None => (tt, set_ip_reputation (ip_reputation d ++
                [IPRow (next_id ip_id (ip_reputation d)) ip (Some (level, until_ms)) 0 now_ms]) d)
  end.

Definition AddManualBlock (addr : Addr) (now : Z) (w : World) : (repo_error + IPBlock) * World :=
  if negb enabled || negb (isValid addr) then (inl RepoDisabled, w)
  else
    let addr := CanonicalIP addr in
    let '(level, duration) := if RepeatBlockDuration r <=? 0 then (IPBlockLevelShort, BlockDuration r)
                              else (IPBlockLevelRepeat, RepeatBlockDuration r) in
    if duration <=? 0 then (inl RepoNoDuration, w)
    else
      let expires := now + duration in
      match exec (manual_statement (addr_string addr) level (unixMillis expires) (unixMillis now)) w with
      | (inl e, w) => (inl (RepoDb e), w)
      | (inr _, w) => (inr (MkIPBlock addr (Some level) (Some expires) 0), w)
      end.

Definition Delete (addr : Addr) (w : World) : (repo_error + bool) * World :=
  if negb (isValid addr) then (inl RepoInvalid, w)
  else
    let ip := addr_string (CanonicalIP addr) in
    match exec (λ d, (count_where (has_ip ip) (ip_reputation d), delete_ip_where (has_ip ip) d)) w with
    | (inl e, w) => (inl (RepoDb e), w)
    | (inr n, w) => (inr (0 <? n), w)
    end.

(** [limitedPage] of common.go. *)
Definition limitedPage {A} (entries : list A) (limit : Z) : list A * bool :=
  let truncated := limit <? Z.of_nat (length entries) in
  (if truncated then take (Z.to_nat limit) entries else entries, truncated).

Definition bytes_le (a b : gostring) : Prop := bytes_leb a b = true.
#[global] Instance bytes_le_dec a b : Decision (bytes_le a b).
Proof. unfold bytes_le. apply _. Defined.

Definition active_rows (now_ms : Z) (activeSince : option Z) (d : Db) : list ip_row :=
  List.filter (λ row,
    match ip_block row with Some (_, until) => now_ms <? until | None => false end &&
    match activeSince with Some since => unixMillis since <=? ip_last_activity_at_ms row | None => true end)
    (ip_reputation d).

Definition ListActiveBlocks (limit : Z) (activeSince : option Z) (now : Z) (w : World)
    : (repo_error + (list IPBlock * bool)) * World :=
  if negb enabled then (inr ([], false), w)
  else if limit <? 1 then (inl RepoBadLimit, w)
  else
    match query (λ d, take (Z.to_nat (limit + 1))
                   (merge_sort (λ a b, bytes_le (ip_ip a) (ip_ip b)) (active_rows (unixMillis now) activeSince d))) w with
    | (inl e, w) => (inl (RepoDb e), w)
    | (inr rows, w) =>
        match mapM (λ row, addr ← parse_addr (ip_ip row);
                     Some (MkIPBlock addr (fst <$> ip_block row) ((λ b, timeFromMillis b.2) <$> ip_block row) 0)) rows with
        | None => (inl RepoParse, w)
        | Some entries => (inr (limitedPage entries limit), w)
        end
    end.

(** ** Cleanup *)

(** [capacityExcessTx] *)
Definition capacity_excess {A} (rows : list A) (maximum : Z) : Z := Z.max (Z.of_nat (length rows) - maximum) 0.

(** One pass of the eviction loop: the oldest rows at one level. *)
Definition evict_level (level : option IPBlockLevel) (acc : Z * Z * Db) : Z * Z * Db :=
  let '(excess, total, d) := acc in
  if excess =? 0 then acc
  else
    let candidates := List.filter (λ row, bool_decide (fst <$> ip_block row = level)) (ip_reputation d) in
    let ids := first_ids ip_last_activity_at_ms ip_id (Z.to_nat excess) candidates in
    let removed := count_where (id_in ip_id ids) (ip_reputation d) in
    (excess - removed, total + removed, delete_ip_where (id_in ip_id ids) d).

Definition enforceCapacityTx (d : Db) : Z * Db :=
  let excess := capacity_excess (ip_reputation d) (IPMaxEntries r) in
  let '(_, total, d) := fold_left (λ acc level, evict_level level acc)
      [None; Some IPBlockLevelShort; Some IPBlockLevelRepeat] (excess, 0, d) in
  (total, d).

Definition has_no_evidence (d : Db) (row : ip_row) : bool :=
  match ip_block row with None => negb (existsb (strike_of (ip_id row)) (ip_strikes d)) | Some _ => false end.

Definition cleanup_body (now : Z) (d : Db) : Z * Db :=
  let now_ms := unixMillis now in
  let stale s := if (RepeatThreshold r =? 0) || (RepeatWindow r <=? 0) then true
                 else st_struck_at_ms s <=? unixMillis (now - RepeatWindow r) in
  let n1 := count_where stale (ip_strikes d) in
  let d := set_ip_strikes (delete_where stale (ip_strikes d)) d in
  let n2 := count_where (expired_repeat now_ms) (ip_reputation d) in
  let d := delete_ip_where (expired_repeat now_ms) d in
  let d := set_ip_reputation (update_where (expired_short now_ms)
             (λ row, IPRow (ip_id row) (ip_ip row) None (ip_legitimate_count row) (ip_last_activity_at_ms row))
             (ip_reputation d)) d in
  let n3 := count_where (has_no_evidence d) (ip_reputation d) in
  let d := delete_ip_where (has_no_evidence d) d in
  let '(n4, d) := enforceCapacityTx d in
  (n1 + n2 + n3 + n4, d).

Definition Cleanup (now : Z) (w : World) : (repo_error + Z) * World :=
  if negb enabled then (inr 0, w) else lift_db (withTx (cleanup_body now) w).
End IPReputation.
