(* ===== verification/IPReputationFacts.v ===== *)
(** * Sending-IP reputation: schema invariant and refinement

    The invariant of the two reputation tables ([ip_wf]: unique rowids and
    addresses, strikes that belong to a row, rowids in insertion order) and its
    preservation; the view of one address ([view]) and the abstract operations
    on views that the repository implements. *)
From S2P Require Import Prelude GoText NetSafety SqlDb IPReputation.
Import NetSafety.

Record ip_wf (d : Db) : Prop := IPWf {
  wf_ids : NoDup (ip_id <$> ip_reputation d);
  wf_ips : NoDup (ip_ip <$> ip_reputation d);
  wf_fk : Forall (λ s, st_ip_reputation_id s ∈ (ip_id <$> ip_reputation d)) (ip_strikes d);
  wf_strikes : StronglySorted Z.lt (st_id <$> ip_strikes d);
  wf_legitimate : Forall (λ row, 0 <= ip_legitimate_count row) (ip_reputation d);
}.

Lemma emptyDb_wf : ip_wf emptyDb.
Proof. split; constructor. Qed.

(** ** Filtering and mapping rows *)

Lemma filter_sublist {A} (f : A -> bool) l : List.filter f l `sublist_of` l.
Proof. induction l as [|x l IH]; cbn; [done|]. case_match; by constructor. Qed.

Lemma delete_where_sublist {A} (p : A -> bool) l : delete_where p l `sublist_of` l.
Proof. apply filter_sublist. Qed.

Lemma sublist_fmap {A B} (f : A -> B) l k : l `sublist_of` k -> (f <$> l) `sublist_of` (f <$> k).
Proof. induction 1; cbn; by constructor. Qed.

Lemma sublist_Forall {A} (P : A -> Prop) l k : l `sublist_of` k -> Forall P k -> Forall P l.
Proof. induction 1; intros Hk; [done| |]; apply Forall_cons in Hk as [? ?]; auto. Qed.

Lemma sublist_StronglySorted {A} (R : A -> A -> Prop) l k : l `sublist_of` k -> StronglySorted R k -> StronglySorted R l.
Proof.
  induction 1 as [|x l k Hs IH|x l k Hs IH]; intros Hk; [done| |]; apply StronglySorted_inv in Hk as [Hk Hx].
  - constructor; [auto|]. eapply sublist_Forall; eauto.
  - auto.
Qed.

Lemma sublist_same_length {A} (l k : list A) : l `sublist_of` k -> length l = length k -> l = k.
Proof.
  induction 1 as [|x l k Hs IH|x l k Hs IH]; cbn; intros Hl; [done|f_equal; auto|].
  apply sublist_length in Hs. lia.
Qed.

Lemma update_where_fmap {A B} (g : A -> B) p f (rows : list A) :
  (forall x, g (f x) = g x) -> g <$> update_where p f rows = g <$> rows.
Proof. intros Hg. unfold update_where. rewrite <- list_fmap_compose. apply list_fmap_ext. intros i x _. cbn. by case_match. Qed.

Lemma set_strikes_wf d l : ip_wf d -> l `sublist_of` ip_strikes d -> ip_wf (set_ip_strikes l d).
Proof.
  intros [H1 H2 H3 H4 H5] Hl. split; cbn; try done.
  - eapply sublist_Forall; eauto.
  - eapply sublist_StronglySorted; [by apply sublist_fmap|done].
Qed.

Lemma update_rows_wf d p f : ip_wf d ->
  (forall row, ip_id (f row) = ip_id row) -> (forall row, ip_ip (f row) = ip_ip row) ->
  (forall row, 0 <= ip_legitimate_count row -> 0 <= ip_legitimate_count (f row)) ->
  ip_wf (set_ip_reputation (update_where p f (ip_reputation d)) d).
Proof.
  intros [H1 H2 H3 H4 H5] Hid Hip Hl. split; cbn; rewrite ?update_where_fmap by done; try done.
  unfold update_where. apply Forall_fmap. eapply Forall_impl; [exact H5|]. intros row. cbn. case_match; auto.
Qed.

Lemma delete_ip_where_wf p d : ip_wf d -> ip_wf (delete_ip_where p d).
Proof.
  intros [H1 H2 H3 H4 H5]. unfold delete_ip_where.
  pose proof (delete_where_sublist p (ip_reputation d)) as Hs. split; cbn.
  - eapply sublist_NoDup; [exact H1|]. by apply sublist_fmap.
  - eapply sublist_NoDup; [exact H2|]. by apply sublist_fmap.
  - apply Forall_forall. intros s [Hin Hg]%delete_where_elem. rewrite Forall_forall in H3.
    specialize (H3 s Hin). apply list_elem_of_fmap in H3 as (row & Hrow & Hr).
    apply list_elem_of_fmap. exists row. split; [done|]. apply delete_where_elem. split; [done|].
    apply bool_decide_eq_false in Hg. destruct (p row) eqn:Ep; [|done]. exfalso. apply Hg. rewrite Hrow.
    apply list_elem_of_fmap. exists row. split; [done|]. apply list_elem_of_In, filter_In. by rewrite <- list_elem_of_In.
  - eapply sublist_StronglySorted; [|exact H4]. apply sublist_fmap, delete_where_sublist.
  - eapply sublist_Forall; eauto.
Qed.

Lemma append_row_wf d ip block n t : ip_wf d -> 0 <= n -> ip ∉ (ip_ip <$> ip_reputation d) ->
  ip_wf (set_ip_reputation (ip_reputation d ++ [IPRow (next_id ip_id (ip_reputation d)) ip block n t]) d).
Proof.
  intros [H1 H2 H3 H4 H5] Hn Hip. split; cbn; rewrite ?fmap_app; cbn [fmap list_fmap ip_id ip_ip]; try done.
  - apply NoDup_app. split_and!; [done| |apply NoDup_singleton].
    intros i (row & Hi & Hr)%list_elem_of_fmap Hi2%list_elem_of_singleton.
    pose proof (next_id_fresh ip_id _ _ Hr). lia.
  - apply NoDup_app. split_and!; [done| |apply NoDup_singleton]. intros i Hi ->%list_elem_of_singleton. done.
  - eapply Forall_impl; [exact H3|]. intros s Hs. apply elem_of_app. by left.
  - apply Forall_app. split; [done|]. by repeat constructor.
Qed.

Lemma insert_strike_wf id t d : ip_wf d -> id ∈ (ip_id <$> ip_reputation d) -> ip_wf (insert_strike id t d).
Proof.
  intros [H1 H2 H3 H4 H5] Hid. split; cbn; try done.
  - apply Forall_app. split; [done|]. by repeat constructor.
  - rewrite fmap_app. cbn [fmap list_fmap st_id].
    assert (Hf : Forall (λ i, i < next_id st_id (ip_strikes d)) (st_id <$> ip_strikes d)).
    { apply Forall_fmap, Forall_forall. intros s Hs. by apply next_id_fresh. }
    revert H4 Hf. generalize (next_id st_id (ip_strikes d)) as n. generalize (st_id <$> ip_strikes d) as l.
    induction 1 as [|x l Hl IH Hx]; intros Hf; [repeat constructor|].
    apply Forall_cons in Hf as [Hxn Hf]. cbn. constructor; [auto|]. apply Forall_app. split; [done|]. by repeat constructor.
Qed.

(** ** Rows by address *)

Lemma has_ip_true ip row : has_ip ip row = true <-> ip_ip row = ip.
Proof. unfold has_ip, beq. by rewrite bool_decide_eq_true. Qed.
Lemma has_id_true id row : has_id id row = true <-> ip_id row = id.
Proof. unfold has_id. by rewrite Z.eqb_eq. Qed.
Lemma strike_of_true id s : strike_of id s = true <-> st_ip_reputation_id s = id.
Proof. unfold strike_of. by rewrite Z.eqb_eq. Qed.

Lemma strike_of_false id s : strike_of id s = false <-> st_ip_reputation_id s <> id.
Proof. unfold strike_of. by rewrite Z.eqb_neq. Qed.

Lemma find_none_notin {A} (f : A -> bool) l : List.find f l = None <-> Forall (λ x, f x = false) l.
Proof.
  induction l as [|x l IH]; cbn; [split; [constructor|done]|]. rewrite Forall_cons. destruct (f x); [|naive_solver].
  split; [done|]. by intros [? _].
Qed.

Lemma find_some_elem {A} (f : A -> bool) l x : List.find f l = Some x -> x ∈ l /\ f x = true.
Proof. intros Hf. apply find_some in Hf as [Hin Hx]. split; [by apply list_elem_of_In|done]. Qed.

Lemma find_ip_none ip rows : List.find (has_ip ip) rows = None <-> ip ∉ (ip_ip <$> rows).
Proof.
  rewrite find_none_notin, list_elem_of_fmap, Forall_forall. split.
  - intros Hf (row & -> & Hr). specialize (Hf row Hr). apply Bool.not_true_iff_false in Hf. apply Hf. by apply has_ip_true.
  - intros Hn row Hr. apply Bool.not_true_iff_false. intros Hi%has_ip_true. apply Hn. by exists row.
Qed.

Lemma row_unique {A B} (g : A -> B) rows x y : NoDup (g <$> rows) -> x ∈ rows -> y ∈ rows -> g x = g y -> x = y.
Proof.
  induction rows as [|z rows IH]; cbn; [intros _ Hx; by apply not_elem_of_nil in Hx|].
  intros [Hz Hn]%NoDup_cons [->|Hx]%elem_of_cons [->|Hy]%elem_of_cons Hg; try done.
  - destruct Hz. rewrite Hg. by apply list_elem_of_fmap_2.
  - destruct Hz. rewrite <- Hg. by apply list_elem_of_fmap_2.
  - by apply IH.
Qed.

Lemma find_ip_unique d ip row : ip_wf d -> row ∈ ip_reputation d -> ip_ip row = ip ->
  List.find (has_ip ip) (ip_reputation d) = Some row.
Proof.
  intros Hw Hin Hip. destruct (List.find (has_ip ip) (ip_reputation d)) as [row'|] eqn:E.
  - apply find_some_elem in E as [Hin' Hip'%has_ip_true]. f_equal.
    eapply (row_unique ip_ip); [apply Hw| | |]; congruence || done.
  - apply find_ip_none in E. destruct E. rewrite <- Hip. by apply list_elem_of_fmap_2.
Qed.

(** ** Every operation preserves the invariant *)

Section Preservation.
Context `{NetIPText} (r : IPReputationOptions).

Lemma upsert_rejected_wf ip t d : ip_wf d ->
  ip_wf (upsert_rejected ip t d).2 /\ (upsert_rejected ip t d).1.1 ∈ (ip_id <$> ip_reputation (upsert_rejected ip t d).2).
Proof.
  intros Hw. unfold upsert_rejected. destruct (List.find _ _) as [row|] eqn:E; cbn [fst snd].
  - apply find_some_elem in E as [Hin _]. split; [by apply update_rows_wf|]. cbn.
    rewrite update_where_fmap by done. by apply list_elem_of_fmap_2.
  - apply find_ip_none in E. split; [by apply append_row_wf|]. cbn. rewrite fmap_app. set_solver.
Qed.

Lemma strike_statements_wf id now d : ip_wf d -> id ∈ (ip_id <$> ip_reputation d) -> ip_wf (strike_statements r id now d).
Proof.
  intros Hw Hid. unfold strike_statements. case_match; cbv zeta.
  - apply set_strikes_wf; [by apply insert_strike_wf|]. apply delete_where_sublist.
  - apply set_strikes_wf; [done|]. apply delete_where_sublist.
Qed.

Lemma reject_body_wf addr now d : ip_wf d -> ip_wf (reject_body r addr now d).2.
Proof.
  intros Hw. unfold reject_body. cbv zeta.
  set (d1 := delete_ip_where _ d). assert (Hw1 : ip_wf d1) by apply delete_ip_where_wf, Hw.
  destruct (upsert_rejected_wf (addr_string addr) (unixMillis now) d1 Hw1) as [Hw2 Hid].
  destruct (upsert_rejected _ _ d1) as [[id existing] d2]. cbn [fst snd] in *.
  apply update_rows_wf; [by apply strike_statements_wf|done..].
Qed.

Lemma pruneStrikesTx_wf id now d : ip_wf d -> ip_wf (pruneStrikesTx r id now d).
Proof. intros Hw. unfold pruneStrikesTx. case_match; (apply set_strikes_wf; [done|apply delete_where_sublist]). Qed.

Lemma set_legitimate_wf id n t d : ip_wf d -> 0 <= n -> ip_wf (set_legitimate id n t d).
Proof. intros Hw Hn. by apply update_rows_wf. Qed.

Lemma legitimate_body_wf ip now d : ip_wf d -> ip_wf (legitimate_body r ip now d).2.
Proof.
  intros Hw. unfold legitimate_body. destruct (List.find _ _) as [row|] eqn:E; [|done]. cbv zeta.
  pose proof (pruneStrikesTx_wf (ip_id row) now d Hw) as Hp. set (d1 := pruneStrikesTx r (ip_id row) now d) in *.
  clearbody d1. assert (Hl : 0 <= ip_legitimate_count row).
  { apply find_some_elem in E as [Hin _]. destruct Hw as [_ _ _ _ Hl]. rewrite Forall_forall in Hl. auto. }
  destruct (_ =? 0); [destruct (negb _); [by apply delete_ip_where_wf|by apply set_legitimate_wf]|].
  destruct (LegitimatePerStrike r <=? _).
  - assert (Hd : ip_wf (set_ip_strikes (delete_where (id_in st_id (oldest_strike (ip_id row) (ip_strikes d1))) (ip_strikes d1)) d1))
      by (apply set_strikes_wf; [done|apply delete_where_sublist]).
    destruct (_ && _); [by apply delete_ip_where_wf|by apply set_legitimate_wf].
  - destruct (_ && _); [by apply delete_ip_where_wf|]. apply set_legitimate_wf; [done|lia].
Qed.

Lemma refresh_statement_wf ip now d : ip_wf d -> ip_wf (refresh_statement r ip now d).2.
Proof. intros Hw. by apply update_rows_wf. Qed.

Lemma manual_statement_wf ip level until now d : ip_wf d -> ip_wf (manual_statement ip level until now d).2.
Proof.
  intros Hw. unfold manual_statement. destruct (List.find _ _) eqn:E; [by apply update_rows_wf|].
  apply append_row_wf; [done|done|]. by apply find_ip_none.
Qed.

Lemma evict_level_wf level acc : ip_wf acc.2 -> ip_wf (evict_level level acc).2.
Proof. destruct acc as [[excess total] d]. cbn. intros Hw. case_match; [done|]. by apply delete_ip_where_wf. Qed.

Lemma enforceCapacityTx_wf d : ip_wf d -> ip_wf (enforceCapacityTx r d).2.
Proof.
  intros Hw. unfold enforceCapacityTx. cbv zeta.
  set (acc := fold_left _ _ _). assert (Ha : ip_wf acc.2) by (unfold acc; cbn [fold_left]; by repeat apply evict_level_wf).
  by destruct acc as [[? ?] ?].
Qed.

Lemma cleanup_body_wf now d : ip_wf d -> ip_wf (cleanup_body r now d).2.
Proof.
  intros Hw. unfold cleanup_body. cbv zeta.
  set (d1 := set_ip_strikes _ d). assert (H1 : ip_wf d1) by (apply set_strikes_wf; [done|apply delete_where_sublist]).
  set (d2 := delete_ip_where _ d1). assert (H2 : ip_wf d2) by apply delete_ip_where_wf, H1.
  set (d3 := set_ip_reputation _ d2). assert (H3 : ip_wf d3) by (by apply update_rows_wf).
  set (d4 := delete_ip_where _ d3). assert (H4 : ip_wf d4) by apply delete_ip_where_wf, H3.
  pose proof (enforceCapacityTx_wf d4 H4) as H5. by destruct (enforceCapacityTx r d4).
Qed.

(** The operations of the repository as events with a time. *)
Inductive ip_op :=
  | IPReject (addr : Addr) (now : Z) | IPLegitimate (addr : Addr) (now : Z) | IPAttempt (addr : Addr) (now : Z)
  | IPManual (addr : Addr) (now : Z) | IPDelete (addr : Addr) | IPCleanup (now : Z)
  | IPList (limit : Z) (since : option Z) (now : Z) | IPCount.

Definition ip_apply (o : ip_op) (w : World) : World :=
  match o with
  | IPReject a t => (RecordRejection r a t w).2
  | IPLegitimate a t => (RecordLegitimate r a t w).2
  | IPAttempt a t => (ActiveBlockForAttempt r a t w).2
  | IPManual a t => (AddManualBlock r a t w).2
  | IPDelete a => (Delete a w).2
  | IPCleanup t => (Cleanup r t w).2
  | IPList limit since t => (ListActiveBlocks r limit since t w).2
  | IPCount => (Count w).2
  end.
Definition ip_run (ops : list ip_op) (w : World) : World := fold_left (λ w o, ip_apply o w) ops w.

(** A property of the tables that every statement of the repository preserves
    is preserved by every operation, whatever happens to its attempts. *)
Lemma ip_apply_preserves (P : Db -> Prop) o w :
  (forall a t d, P d -> P (reject_body r a t d).2) ->
  (forall ip t d, P d -> P (legitimate_body r ip t d).2) ->
  (forall ip t d, P d -> P (refresh_statement r ip t d).2) ->
  (forall ip l u t d, P d -> P (manual_statement ip l u t d).2) ->
  (forall p d, P d -> P (delete_ip_where p d)) ->
  (forall t d, P d -> P (cleanup_body r t d).2) ->
  P (wdb w) -> P (wdb (ip_apply o w)).
Proof.
  intros Hrej Hleg Href Hman Hdel Hcl Hw.
  assert (Hq : forall R (f : Db -> R), P (wdb (query f w).2)) by (intros; by apply query_preserves).
  destruct o as [a t|a t|a t|a t|a|t|limit since t|]; cbn [ip_apply].
  - unfold RecordRejection. case_match; [done|].
    pose proof (retry_preserves busyRetries (reject_body r (CanonicalIP a) t) P w ltac:(auto) Hw) as Hp.
    fold (@withTx _ (reject_body r (CanonicalIP a) t) w) in Hp. destruct (withTx _ w) as [[e|[b n]] w']; exact Hp.
  - unfold RecordLegitimate. case_match; [done|].
    specialize (Hq _ (hasCurrentStrike r (addr_string (CanonicalIP a)) t)).
    destruct (query _ w) as [[e|[]] w']; cbn [snd] in *; try done.
    pose proof (retry_preserves busyRetries (legitimate_body r (addr_string (CanonicalIP a)) t) P w' ltac:(auto) Hq) as Hp.
    fold (@withTx _ (legitimate_body r (addr_string (CanonicalIP a)) t) w') in Hp. destruct (withTx _ w') as [[e|u] w2]; exact Hp.
  - unfold ActiveBlockForAttempt. case_match; [done|]. cbv zeta.
    specialize (Hq _ (readActiveBlock r (addr_string (CanonicalIP a)) t)).
    destruct (query _ w) as [[e|[[[level until] n]|]] w']; cbn [snd] in *; try done.
    case_match; [|done]. case_match; [done|].
    pose proof (retry_preserves busyRetries (refresh_statement r (addr_string (CanonicalIP a)) t) P w' ltac:(auto) Hq) as Hp.
    fold (@exec _ (refresh_statement r (addr_string (CanonicalIP a)) t) w') in Hp. destruct (exec _ w') as [[e|u] w2]; exact Hp.
  - unfold AddManualBlock. case_match; [done|]. cbv zeta. destruct (if _ : bool then _ else _) as [level duration].
    case_match; [done|].
    match goal with |- context [exec ?f w] =>
      pose proof (retry_preserves busyRetries f P w ltac:(auto) Hw) as Hp; fold (@exec _ f w) in Hp; destruct (exec f w) as [[e|u] w2]; exact Hp end.
  - unfold Delete. case_match; [done|]. cbv zeta.
    match goal with |- context [exec ?f w] =>
      pose proof (retry_preserves busyRetries f P w ltac:(cbn; auto) Hw) as Hp; fold (@exec _ f w) in Hp; destruct (exec f w) as [[e|u] w2]; exact Hp end.
  - unfold Cleanup. case_match; [done|].
    pose proof (retry_preserves busyRetries (cleanup_body r t) P w ltac:(auto) Hw) as Hp.
    fold (@withTx _ (cleanup_body r t) w) in Hp. destruct (withTx _ w) as [[e|u] w2]; exact Hp.
  - unfold ListActiveBlocks. case_match; [done|]. case_match; [done|].
    match goal with |- context [query ?f w] => specialize (Hq _ f); destruct (query f w) as [[e|u] w2] end; [done|].
    by case_match.
  - unfold Count. match goal with |- context [query ?f w] => specialize (Hq _ f); destruct (query f w) as [[e|u] w2]; exact Hq end.
Qed.

Lemma ip_apply_wf o w : ip_wf (wdb w) -> ip_wf (wdb (ip_apply o w)).
Proof.
  apply ip_apply_preserves; auto using reject_body_wf, legitimate_body_wf, refresh_statement_wf, manual_statement_wf,
    delete_ip_where_wf, cleanup_body_wf.
Qed.

Lemma ip_run_wf ops w : ip_wf (wdb w) -> ip_wf (wdb (ip_run ops w)).
Proof. revert w. induction ops as [|o ops IH]; intros w Hw; [done|]. apply IH, ip_apply_wf, Hw. Qed.
End Preservation.

(** ** The view of one address *)

Record ip_view := IPView {
  v_block : option (IPBlockLevel * Z);
  v_legitimate : Z;
  v_last : Z;
  v_strikes : list Z;     (** times, oldest rowid first *)
}.

Definition strikes_of (id : Z) (d : Db) : list strike_row := List.filter (strike_of id) (ip_strikes d).
Definition row_view (d : Db) (row : ip_row) : ip_view :=
  IPView (ip_block row) (ip_legitimate_count row) (ip_last_activity_at_ms row) (st_struck_at_ms <$> strikes_of (ip_id row) d).
Definition row_of (ip : gostring) (d : Db) : option ip_row := List.find (has_ip ip) (ip_reputation d).
Definition view (ip : gostring) (d : Db) : option ip_view := row_view d <$> row_of ip d.

Definition lastn {A} (n : nat) (l : list A) : list A := drop (length l - n) l.

(** *** Lists *)

Lemma filter_filter {A} (f g : A -> bool) l : List.filter f (List.filter g l) = List.filter (λ x, g x && f x) l.
Proof. induction l as [|x l IH]; [done|]. cbn. destruct (g x); cbn; rewrite IH; done. Qed.

Lemma filter_ext_elem {A} (f g : A -> bool) l : (forall x, x ∈ l -> f x = g x) -> List.filter f l = List.filter g l.
Proof. intros Hfg. apply filter_ext_in. intros x Hx. apply Hfg. by apply list_elem_of_In. Qed.

Lemma filter_none {A} (f : A -> bool) l : (forall x, x ∈ l -> f x = false) -> List.filter f l = [].
Proof.
  induction l as [|x l IH]; [done|]. intros Hf. cbn. rewrite (Hf x) by (by left). apply IH. intros y Hy. apply Hf. by right.
Qed.

Lemma filter_all {A} (f : A -> bool) l : (forall x, x ∈ l -> f x = true) -> List.filter f l = l.
Proof.
  induction l as [|x l IH]; [done|]. intros Hf. cbn. rewrite (Hf x) by (by left). f_equal. apply IH. intros y Hy. apply Hf. by right.
Qed.

Lemma filter_ids_sublist {A} (id : A -> Z) l k : NoDup (id <$> l) -> k `sublist_of` l ->
  List.filter (λ x, bool_decide (id x ∈ (id <$> k))) l = k.
Proof.
  intros Hn Hs. induction Hs as [|x k l Hs IH|x k l Hs IH]; [done| |]; cbn [fmap list_fmap] in Hn;
    apply NoDup_cons in Hn as [Hx Hn]; cbn [List.filter].
  - rewrite bool_decide_eq_true_2 by (cbn; set_solver). f_equal.
    etransitivity; [|exact (IH Hn)]. apply filter_ext_elem. intros y Hy. apply bool_decide_ext. cbn [fmap list_fmap]. rewrite elem_of_cons.
    split; [|by right]. intros [He|?]; [|done]. destruct Hx. rewrite <- He. by apply list_elem_of_fmap_2.
  - rewrite bool_decide_eq_false_2; [by apply IH|]. intros Hi. apply Hx. eapply elem_of_sublist; [exact Hi|]. by apply sublist_fmap.
Qed.

Lemma StronglySorted_rev {A} (R S : A -> A -> Prop) l : (forall x y, R x y -> S y x) ->
  StronglySorted R l -> StronglySorted S (rev l).
Proof.
  intros HRS. induction 1 as [|x l Hl IH Hx]; [constructor|]. cbn.
  assert (Hall : Forall (λ y, S y x) (rev l)).
  { apply Forall_forall. intros y Hy. apply HRS. rewrite Forall_forall in Hx. apply Hx.
    apply list_elem_of_In. rewrite in_rev. by apply list_elem_of_In. }
  revert IH Hall. generalize (rev l) as k. clear. induction 1 as [|y k Hk IH Hy]; intros Hall; cbn; [repeat constructor|].
  apply Forall_cons in Hall as [Hyx Hall]. constructor; [auto|]. apply Forall_app. by split; [|repeat constructor].
Qed.

Lemma take_rev {A} n (l : list A) : take n (rev l) = rev (lastn n l).
Proof. unfold lastn. apply firstn_rev. Qed.

Lemma lastn_sublist {A} n (l : list A) : lastn n l `sublist_of` l.
Proof. apply sublist_drop. Qed.

Lemma lastn_length {A} n (l : list A) : length (lastn n l) = Nat.min n (length l).
Proof. unfold lastn. rewrite length_drop. lia. Qed.

Lemma lastn_fmap {A B} (f : A -> B) n l : f <$> lastn n l = lastn n (f <$> l).
Proof. unfold lastn. by rewrite fmap_drop, length_fmap. Qed.

Lemma StronglySorted_fmap {A B} (f : A -> B) (R : B -> B -> Prop) l :
  StronglySorted R (f <$> l) <-> StronglySorted (λ x y, R (f x) (f y)) l.
Proof.
  induction l as [|x l IH]; cbn; [split; constructor|]. split; intros Hs; apply StronglySorted_inv in Hs as [Hl Hx]; constructor.
  - by apply IH.
  - rewrite Forall_fmap in Hx; exact Hx.
  - by apply IH.
  - rewrite Forall_fmap; exact Hx.
Qed.

(** *** Rows *)

Lemma find_update ip p f rows : (forall row, ip_ip (f row) = ip_ip row) ->
  List.find (has_ip ip) (update_where p f rows) = (λ row, if p row then f row else row) <$> List.find (has_ip ip) rows.
Proof.
  intros Hf. unfold update_where. induction rows as [|row rows IH]; [done|]. cbn.
  assert (Hh : has_ip ip (if p row then f row else row) = has_ip ip row) by (unfold has_ip; case_match; by rewrite ?Hf).
  rewrite Hh. by destruct (has_ip ip row).
Qed.

Lemma find_delete ip p rows : NoDup (ip_ip <$> rows) ->
  List.find (has_ip ip) (delete_where p rows) = List.find (has_ip ip) rows ≫= λ row, if p row then None else Some row.
Proof.
  induction rows as [|row rows IH]; [done|]. cbn [fmap list_fmap]. intros [Hr Hn]%NoDup_cons.
  unfold delete_where in *. cbn. destruct (has_ip ip row) eqn:Eh; destruct (p row) eqn:Ep; cbn; rewrite ?Eh, ?Ep; auto.
  rewrite IH by done. apply has_ip_true in Eh. assert (List.find (has_ip ip) rows = None) as -> by (apply find_ip_none; congruence).
  done.
Qed.

Lemma find_app_single ip rows row : List.find (has_ip ip) (rows ++ [row]) =
  match List.find (has_ip ip) rows with Some x => Some x | None => if has_ip ip row then Some row else None end.
Proof. induction rows as [|x rows IH]; [done|]. cbn. by destruct (has_ip ip x). Qed.

Lemma view_other_strikes ip d l : (forall row, row_of ip d = Some row -> List.filter (strike_of (ip_id row)) l = strikes_of (ip_id row) d) ->
  view ip (set_ip_strikes l d) = view ip d.
Proof.
  intros Hl. unfold view. change (row_of ip (set_ip_strikes l d)) with (row_of ip d).
  destruct (row_of ip d) as [row|] eqn:E; [|done]. cbn. f_equal. unfold row_view, strikes_of in *. cbn. by rewrite Hl.
Qed.

Lemma view_delete p ip d : ip_wf d ->
  view ip (delete_ip_where p d) = row_of ip d ≫= λ row, if p row then None else Some (row_view d row).
Proof.
  intros Hw. unfold view, row_of, delete_ip_where. cbn [ip_reputation set_ip_strikes set_ip_reputation].
  rewrite find_delete by apply Hw. destruct (List.find _ _) as [row|] eqn:E; [|done]. cbn [mbind option_bind].
  destruct (p row) eqn:Ep; [done|]. cbn [fmap option_fmap option_map]. f_equal. unfold row_view, strikes_of. cbn.
  f_equal. f_equal. unfold delete_where. rewrite filter_filter. apply filter_ext_elem. intros s Hs.
  destruct (strike_of (ip_id row) s) eqn:Es; [|by rewrite andb_false_r]. rewrite andb_true_r.
  apply strike_of_true in Es. apply negb_true_iff, bool_decide_eq_false.
  intros (row' & Hid & Hin)%list_elem_of_fmap. apply list_elem_of_In, filter_In in Hin as [Hin Hp].
  apply find_some_elem in E as [Hrow _].
  assert (row = row') as <- by (eapply (row_unique ip_id); [apply Hw|done|by apply list_elem_of_In|congruence]). congruence.
Qed.

Lemma view_update p f ip d :
  (forall row, ip_ip (f row) = ip_ip row) -> (forall row, ip_id (f row) = ip_id row) ->
  view ip (set_ip_reputation (update_where p f (ip_reputation d)) d) =
  (λ row, row_view d (if p row then f row else row)) <$> row_of ip d.
Proof.
  intros Hip Hid. unfold view, row_of. cbn [ip_reputation set_ip_reputation]. rewrite find_update by done.
  destruct (List.find _ _) as [row|]; [|done]. done.
Qed.

Lemma row_of_ip ip d row : row_of ip d = Some row -> ip_ip row = ip /\ row ∈ ip_reputation d.
Proof. intros Hr. apply find_some_elem in Hr as [? ?%has_ip_true]. done. Qed.

Lemma row_of_ids ip ip' d row row' : ip_wf d -> row_of ip d = Some row -> row_of ip' d = Some row' -> ip <> ip' ->
  ip_id row <> ip_id row'.
Proof.
  intros Hw [Hi Hr]%row_of_ip [Hi' Hr']%row_of_ip Hne He.
  assert (row = row') by (eapply (row_unique ip_id); [apply Hw|done..]). congruence.
Qed.

(** ** The abstract rejection *)

Section Refinement.
Context `{NetIPText} (r : IPReputationOptions).

Definition view_expired (now_ms : Z) (v : ip_view) : bool :=
  match v_block v with Some (IPBlockLevelRepeat, until) => until <=? now_ms | _ => false end.

(** The specification of one rejection, in its own terms.  Blocks are compared by
    their end, and by their level when they end together. *)
Definition level_rank (level : IPBlockLevel) : Z := match level with IPBlockLevelRepeat => 1 | IPBlockLevelShort => 0 end.
Definition outlasts (a b : IPBlockLevel * Z) : bool := (b.2 <? a.2) || ((a.2 =? b.2) && (level_rank b.1 <=? level_rank a.1)).
Definition strongest (candidates : list (IPBlockLevel * Z)) : option (IPBlockLevel * Z) :=
  foldr (λ c best, match best with Some b => Some (if outlasts b c then b else c) | None => Some c end) None candidates.
(** The strikes inside the window, this rejection included. *)
Definition recent_strikes (now : Z) (old : list Z) : list Z :=
  List.filter (λ t, unixMillis (now - RepeatWindow r) <? t) (old ++ [unixMillis now]).
(** The blocks that may hold afterwards: a repeat block when the recent strikes
    reach the threshold, else a short one where that is configured, and the block
    the address has, while it lasts. *)
Definition block_candidates (now : Z) (old : list Z) (existing : option (IPBlockLevel * Z)) : list (IPBlockLevel * Z) :=
  (if (0 <? RepeatThreshold r) && negb (Z.of_nat (length (recent_strikes now old)) <? RepeatThreshold r) then [(IPBlockLevelRepeat, now + RepeatBlockDuration r)]
   else if 0 <? BlockDuration r then [(IPBlockLevelShort, now + BlockDuration r)] else []) ++
  match existing with Some (level, until_ms) => if now <? timeFromMillis until_ms then [(level, timeFromMillis until_ms)] else [] | None => [] end.

(** What one rejection does to an address: an expired repeat block is
    forgotten; the rejection joins the strikes that are still inside the window,
    of which the newest [RepeatThreshold] are kept; the strongest candidate is the
    block; the legitimate count starts again. *)
Definition abs_reject (now : Z) (v : option ip_view) : (option (IPBlockLevel * Z) * Z) * ip_view :=
  let now_ms := unixMillis now in
  let v := v ≫= λ v, if view_expired now_ms v then None else Some v in
  let old := default [] (v_strikes <$> v) in
  let strikes := if 0 <? RepeatThreshold r then lastn (Z.to_nat (RepeatThreshold r)) (recent_strikes now old) else [] in
  let count := Z.of_nat (length strikes) in
  let block := strongest (block_candidates now old (v ≫= v_block)) in
  ((block, count), IPView (stored_block block) 0 now_ms strikes).

Lemma lastn_count {A} n (l : list A) : length (lastn n l) = min n (length l).
Proof. unfold lastn. rewrite length_drop. lia. Qed.
Lemma merged_strongest now existing (earned : option (IPBlockLevel * Z)) :
  merged_block now existing earned =
  strongest (match earned with Some e => [e] | None => [] end ++
    match existing with Some (level, until_ms) => if now <? timeFromMillis until_ms then [(level, timeFromMillis until_ms)] else [] | None => [] end).
Proof.
  unfold merged_block. destruct existing as [[level until_ms]|]; [|by destruct earned]. destruct (now <? timeFromMillis until_ms); [|by destruct earned]. generalize (timeFromMillis until_ms). intros u.
  destruct earned as [[el eu]|]; [|done]. cbn [andb app strongest foldr]. unfold outlasts. cbn [fst snd].
  destruct (Z.ltb_spec eu u) as [|H1]; [done|]. cbn [orb]. destruct (Z.eqb_spec u eu) as [->|H2]; [|done]. by destruct level, el.
Qed.
(** The code computes the strongest candidate, from the strikes it kept. *)
Lemma strongest_block now old existing :
  merged_block now existing (earned_block r now (Z.of_nat (length (if 0 <? RepeatThreshold r then lastn (Z.to_nat (RepeatThreshold r)) (recent_strikes now old) else [])))) =
  strongest (block_candidates now old existing).
Proof.
  unfold block_candidates, earned_block. destruct (Z.ltb_spec 0 (RepeatThreshold r)) as [Ht|Ht]; cbn [andb].
  - rewrite lastn_count. replace (RepeatThreshold r <=? Z.of_nat (min (Z.to_nat (RepeatThreshold r)) (length (recent_strikes now old)))) with (negb (Z.of_nat (length (recent_strikes now old)) <? RepeatThreshold r))
      by (destruct (Z.ltb_spec (Z.of_nat (length (recent_strikes now old))) (RepeatThreshold r)), (Z.leb_spec (RepeatThreshold r) (Z.of_nat (min (Z.to_nat (RepeatThreshold r)) (length (recent_strikes now old))))); done || lia).
    destruct (negb _); [|destruct (0 <? BlockDuration r)]; apply merged_strongest.
  - destruct (0 <? BlockDuration r); apply merged_strongest.
Qed.

(** The strikes of an address are in the order of their times. *)
Definition chronological (v : option ip_view) (now : Z) : Prop :=
  StronglySorted Z.le (default [] (v_strikes <$> v) ++ [unixMillis now]).

Lemma strikes_ids_nodup d : ip_wf d -> NoDup (st_id <$> ip_strikes d).
Proof.
  intros [_ _ _ Hs _]. revert Hs. generalize (st_id <$> ip_strikes d) as l.
  induction 1 as [|x l Hl IH Hx]; constructor; [|done]. intros Hin. rewrite Forall_forall in Hx. apply Hx in Hin. lia.
Qed.

Lemma newest_strikes_rev id cutoff l :
  StronglySorted Z.lt (st_id <$> l) -> StronglySorted Z.le (st_struck_at_ms <$> List.filter (strike_of id) l) ->
  newest_strikes id cutoff l = rev (List.filter (λ s, strike_of id s && (cutoff <? st_struck_at_ms s)) l).
Proof.
  intros Hi Ht. unfold newest_strikes. set (L := List.filter _ l).
  assert (HL : L = List.filter (λ s, cutoff <? st_struck_at_ms s) (List.filter (strike_of id) l)) by (by rewrite filter_filter).
  assert (Hids : StronglySorted Z.lt (st_id <$> L)).
  { eapply sublist_StronglySorted; [|exact Hi]. apply sublist_fmap, filter_sublist. }
  assert (Hts : StronglySorted Z.le (st_struck_at_ms <$> L)).
  { eapply sublist_StronglySorted; [|exact Ht]. rewrite HL. apply sublist_fmap, filter_sublist. }
  clearbody L. clear -Hids Hts.
  assert (Hrev : StronglySorted (key_le (λ s, - st_struck_at_ms s) (λ s, - st_id s)) (rev L)).
  { apply (StronglySorted_rev (λ x y, st_struck_at_ms x <= st_struck_at_ms y /\ st_id x < st_id y)).
    - unfold key_le. lia.
    - rewrite StronglySorted_fmap in Hids, Hts. revert Hts. induction Hids as [|x l Hl IH Hx]; intros Hts; [constructor|].
      apply StronglySorted_inv in Hts as [Hts Htx]. constructor; [auto|]. rewrite Forall_forall in *. auto. }
  eapply (StronglySorted_unique_strong (key_le (λ s, - st_struck_at_ms s) (λ s, - st_id s))); [|apply order_by_sorted|exact Hrev|].
  - intros x y Hx Hy. unfold key_le. intros ? ?. assert (st_id x = st_id y) by lia.
    assert (Hn : NoDup (st_id <$> L)).
    { revert Hids. generalize (st_id <$> L). induction 1 as [|z k Hk IH Hz]; constructor; [|done].
      intros Hin. rewrite Forall_forall in Hz. apply Hz in Hin. lia. }
    eapply (row_unique st_id); [exact Hn| | |done].
    + by rewrite order_by_perm in Hx.
    + apply list_elem_of_In. rewrite in_rev. by apply list_elem_of_In.
  - rewrite order_by_perm. symmetry. rewrite <- Permutation_rev. done.
Qed.

Lemma keep_newest_same id cutoff n l : NoDup (st_id <$> l) ->
  StronglySorted Z.lt (st_id <$> l) -> StronglySorted Z.le (st_struck_at_ms <$> List.filter (strike_of id) l) ->
  List.filter (strike_of id) (keep_newest id cutoff n l) =
  lastn (Z.to_nat n) (List.filter (λ s, strike_of id s && (cutoff <? st_struck_at_ms s)) l).
Proof.
  intros Hn Hi Ht. unfold keep_newest. cbv zeta. rewrite newest_strikes_rev by done. rewrite take_rev.
  set (L := List.filter _ l). unfold delete_where. rewrite filter_filter.
  rewrite <- (filter_ids_sublist st_id l (lastn (Z.to_nat n) L)) at 1; [|done|].
  2: { etransitivity; [apply lastn_sublist|apply filter_sublist]. }
  apply filter_ext_elem. intros s Hs.
  assert (Hiff : st_id s ∈ (st_id <$> rev (lastn (Z.to_nat n) L)) <-> st_id s ∈ (st_id <$> lastn (Z.to_nat n) L)).
  { rewrite !list_elem_of_fmap. setoid_rewrite list_elem_of_In. by setoid_rewrite <- in_rev. }
  destruct (strike_of id s) eqn:Es; cbn [andb negb].
  - rewrite negb_involutive, andb_true_r. by apply bool_decide_ext.
  - symmetry. apply bool_decide_eq_false. intros (s' & Hid & Hs')%list_elem_of_fmap.
    eapply elem_of_sublist in Hs'; [|apply lastn_sublist].
    apply list_elem_of_In, filter_In in Hs' as [Hs' [Hst _]%andb_true_iff].
    assert (s = s') by (eapply (row_unique st_id); [exact Hn|done|by apply list_elem_of_In|done]). congruence.
Qed.

Lemma keep_newest_other id id' cutoff n l : id' <> id ->
  List.filter (strike_of id') (keep_newest id cutoff n l) = List.filter (strike_of id') l.
Proof.
  intros Hne. unfold keep_newest. cbv zeta. unfold delete_where. rewrite filter_filter. apply filter_ext_elem. intros s _.
  destruct (strike_of id' s) eqn:E; [|by rewrite andb_false_r]. apply strike_of_true in E.
  destruct (strike_of id s) eqn:E2; [apply strike_of_true in E2; congruence|done].
Qed.

Lemma filter_fmap_times c (l : list strike_row) f :
  st_struck_at_ms <$> List.filter (λ s, f s && (c <? st_struck_at_ms s)) l =
  List.filter (λ t, c <? t) (st_struck_at_ms <$> List.filter f l).
Proof.
  induction l as [|s l IH]; [done|]. cbn [List.filter]. destruct (f s); cbn [andb fmap list_fmap List.filter]; [|done].
  destruct (c <? st_struck_at_ms s); cbn [fmap list_fmap]; by rewrite IH.
Qed.

(** The strike statements, on the views. *)
Lemma strike_statements_view ip d row now : ip_wf d -> row_of ip d = Some row ->
  StronglySorted Z.le ((st_struck_at_ms <$> strikes_of (ip_id row) d) ++ [unixMillis now]) ->
  let d' := strike_statements r (ip_id row) now d in
  ip_reputation d' = ip_reputation d /\
  (forall ip', ip' <> ip -> view ip' d' = view ip' d) /\
  (st_struck_at_ms <$> strikes_of (ip_id row) d') =
    (if 0 <? RepeatThreshold r
     then lastn (Z.to_nat (RepeatThreshold r))
            (List.filter (λ t, unixMillis (now - RepeatWindow r) <? t)
               ((st_struck_at_ms <$> strikes_of (ip_id row) d) ++ [unixMillis now]))
     else []).
Proof.
  intros Hw Hrow Hch d'. subst d'. unfold strike_statements. destruct (0 <? RepeatThreshold r) eqn:E.
  - cbv zeta. set (d1 := insert_strike (ip_id row) (unixMillis now) d).
    assert (Hw1 : ip_wf d1).
    { apply insert_strike_wf; [done|]. apply row_of_ip in Hrow as [_ Hin]. by apply list_elem_of_fmap_2. }
    assert (Hs1 : st_struck_at_ms <$> List.filter (strike_of (ip_id row)) (ip_strikes d1) =
                  (st_struck_at_ms <$> strikes_of (ip_id row) d) ++ [unixMillis now]).
    { unfold d1, insert_strike, strikes_of. cbn [ip_strikes set_ip_strikes]. rewrite List.filter_app, fmap_app. cbn [List.filter].
      assert (strike_of (ip_id row) (StrikeRow (next_id st_id (ip_strikes d)) (ip_id row) (unixMillis now)) = true) as ->
        by (by apply strike_of_true). done. }
    split_and!; [done| |].
    + intros ip' Hne. rewrite view_other_strikes.
      * unfold d1, insert_strike. rewrite view_other_strikes; [done|]. intros row' Hrow'. rewrite List.filter_app. cbn [List.filter].
        match goal with |- context [strike_of ?i ?s] => assert (strike_of i s = false) as -> end; [|by rewrite app_nil_r].
        apply strike_of_false. cbn. by eapply (row_of_ids ip ip').
      * intros row' Hrow'. apply keep_newest_other.
        intros He. by eapply (row_of_ids ip ip' d row row').
    + unfold strikes_of at 1. cbn [ip_strikes set_ip_strikes].
      rewrite keep_newest_same; [|by apply strikes_ids_nodup|apply Hw1|by rewrite Hs1].
      rewrite lastn_fmap, filter_fmap_times, Hs1. done.
  - split_and!; [done| |].
    + intros ip' Hne. apply view_other_strikes. intros row' Hrow'. unfold delete_where, strikes_of. rewrite filter_filter.
      apply filter_ext_elem. intros s _. destruct (strike_of (ip_id row') s) eqn:Es; [|by rewrite andb_false_r].
      apply strike_of_true in Es. destruct (strike_of (ip_id row) s) eqn:Es2; [|done]. apply strike_of_true in Es2.
      exfalso. by eapply (row_of_ids ip ip' d row row' Hw Hrow Hrow'); congruence.
    + unfold strikes_of at 1. cbn [ip_strikes set_ip_strikes]. unfold delete_where. rewrite filter_filter.
      rewrite filter_none; [done|]. intros s _. by destruct (strike_of _ s).
Qed.

Lemma upsert_view ip now_ms d : ip_wf d ->
  let '((id, existing), d') := upsert_rejected ip now_ms d in
  existing = view ip d ≫= v_block /\
  (exists row, row_of ip d' = Some row /\ ip_id row = id /\
     st_struck_at_ms <$> strikes_of id d' = default [] (v_strikes <$> view ip d)) /\
  (forall ip', ip' <> ip -> view ip' d' = view ip' d).
Proof.
  intros Hw. unfold upsert_rejected. destruct (List.find _ _) as [row|] eqn:E; fold (row_of ip d) in E.
  - unfold view. rewrite E. cbn [fmap option_fmap option_map mbind option_bind row_view v_block v_strikes default].
    split_and!; [done| |].
    + eexists. split; [unfold row_of in *; cbn [ip_reputation set_ip_reputation]; rewrite find_update, E by done; done|].
      split; [by case_match|done].
    + intros ip' Hne. fold (view ip' d). change (?f <$> row_of ip' ?d') with (view ip' d').
      rewrite view_update by done. unfold view. destruct (row_of ip' d) as [row'|] eqn:E'; [|done]. cbn. f_equal.
      destruct (has_ip ip row') eqn:Eh; [|done]. apply has_ip_true in Eh. apply row_of_ip in E' as [? _]. congruence.
  - unfold view. rewrite E. cbn [fmap option_fmap option_map mbind option_bind default].
    assert (Hfresh : forall s, s ∈ ip_strikes d -> st_ip_reputation_id s <> next_id ip_id (ip_reputation d)).
    { intros s Hs He. pose proof (wf_fk d Hw) as Hfk. rewrite Forall_forall in Hfk.
      apply Hfk in Hs. apply list_elem_of_fmap in Hs as (row & Hid & Hr).
      pose proof (next_id_fresh ip_id _ _ Hr). lia. }
    split_and!; [done| |].
    + eexists. split; [unfold row_of in *; cbn [ip_reputation set_ip_reputation]; rewrite find_app_single, E; unfold has_ip, beq;
        rewrite bool_decide_eq_true_2 by done; done|]. split; [done|].
      unfold strikes_of. cbn [ip_strikes set_ip_reputation]. rewrite filter_none; [done|].
      intros s Hs. apply strike_of_false. auto.
    + intros ip' Hne. unfold row_of. cbn [ip_reputation set_ip_reputation]. rewrite find_app_single.
      destruct (List.find (has_ip ip') (ip_reputation d)) as [row'|] eqn:E'; [done|].
      unfold has_ip, beq. cbn. by rewrite bool_decide_eq_false_2 by congruence.
Qed.

Lemma reject_body_view addr now d : ip_wf d -> chronological (view (addr_string addr) d) now ->
  let ip := addr_string addr in
  let '(result, d') := reject_body r addr now d in
  result = (abs_reject now (view ip d)).1 /\ view ip d' = Some (abs_reject now (view ip d)).2 /\
  forall ip', ip' <> ip -> view ip' d' = view ip' d.
Proof.
  intros Hw Hch ip. unfold reject_body. cbv zeta. fold ip. fold ip in Hch.
  set (now_ms := unixMillis now).
  set (d1 := delete_ip_where (λ row, has_ip ip row && expired_repeat now_ms row) d).
  assert (Hw1 : ip_wf d1) by apply delete_ip_where_wf, Hw.
  assert (Hv1 : view ip d1 = view ip d ≫= λ v, if view_expired now_ms v then None else Some v).
  { unfold d1. rewrite view_delete by done. unfold view. destruct (row_of ip d) as [row|] eqn:E; [|done]. cbn.
    apply row_of_ip in E as [E _]. apply has_ip_true in E. rewrite E. done. }
  assert (Ho1 : forall ip', ip' <> ip -> view ip' d1 = view ip' d).
  { intros ip' Hne. unfold d1. rewrite view_delete by done. unfold view. destruct (row_of ip' d) as [row|] eqn:E; [|done]. cbn.
    apply row_of_ip in E as [E _]. assert (has_ip ip row = false) as ->; [|done].
    apply Bool.not_true_iff_false. rewrite has_ip_true. congruence. }
  assert (Hch1 : chronological (view ip d1) now).
  { rewrite Hv1. unfold chronological in *. destruct (view ip d) as [v|]; [|done]. cbn in *.
    destruct (view_expired now_ms v); cbn; [repeat constructor|done]. }
  destruct (upsert_rejected_wf ip now_ms d1 Hw1) as [Hw2 _].
  pose proof (upsert_view ip now_ms d1 Hw1) as Hup.
  destruct (upsert_rejected ip now_ms d1) as [[id existing] d2]. cbn [fst snd] in *.
  destruct Hup as (Hex & (row & Hrow & <- & Hst) & Ho2).
  destruct (strike_statements_view ip d2 row now Hw2 Hrow) as (Hrep & Ho3 & Hst3); [rewrite Hst; exact Hch1|].
  set (d3 := strike_statements r (ip_id row) now d2) in *.
  assert (Hcount : count_where (strike_of (ip_id row)) (ip_strikes d3) =
                   Z.of_nat (length (st_struck_at_ms <$> strikes_of (ip_id row) d3))) by (by rewrite length_fmap).
  rewrite Hst in Hst3. rewrite Hcount, Hst3, Hex. unfold abs_reject. cbv zeta. fold now_ms. rewrite <- Hv1, <- strongest_block. unfold recent_strikes. fold now_ms.
  set (strikes := if 0 <? RepeatThreshold r then _ else []) in *.
  set (block := merged_block _ _ _). split_and!; [done| |].
  - unfold update_block. rewrite view_update by done. unfold row_of in *. rewrite Hrep, Hrow.
    cbn [fmap option_fmap option_map]. f_equal. unfold has_id. rewrite Z.eqb_refl. unfold row_view. cbn.
    f_equal. exact Hst3.
  - intros ip' Hne. unfold update_block. rewrite view_update by done.
    rewrite <- (Ho1 ip' Hne), <- (Ho2 ip' Hne), <- (Ho3 ip' Hne). unfold view.
    destruct (row_of ip' d3) as [row'|] eqn:E'; [|done]. cbn. f_equal.
    unfold has_id. destruct (ip_id row' =? ip_id row) eqn:Eid; [|done]. apply Z.eqb_eq in Eid.
    unfold row_of in E', Hrow. rewrite Hrep in E'. exfalso. by eapply (row_of_ids ip ip' d2 row row' Hw2 Hrow E').
Qed.
End Refinement.

(** ** Legitimate mail *)

Section Legitimate.
Context `{NetIPText} (r : IPReputationOptions).

Definition view_active (now : Z) (v : ip_view) : bool :=
  match v_block v with Some (_, until_ms) => now <? timeFromMillis until_ms | None => false end.

(** Strikes of a view that are still inside the window. *)
Definition current_strikes (now : Z) (v : ip_view) : list Z :=
  List.filter (λ t, unixMillis (now - RepeatWindow r) <? t) (v_strikes v).

(** What a legitimate message does to an address with a current strike: the
    strikes outside the window go; every [LegitimatePerStrike]-th legitimate
    message removes the oldest of the others; an address without strikes and
    without an active block is forgotten. *)
Definition abs_legitimate (now : Z) (v : ip_view) : option ip_view :=
  let strikes := current_strikes now v in
  match strikes with
  | [] => Some v
  | _ :: rest =>
      let due := LegitimatePerStrike r <=? v_legitimate v + 1 in
      let kept := if due then rest else strikes in
      if bool_decide (kept = []) && negb (view_active now v) then None
      else Some (IPView (v_block v) (if due then 0 else v_legitimate v + 1) (unixMillis now) kept)
  end.

Lemma order_by_sorted_id (l : list strike_row) :
  StronglySorted Z.lt (st_id <$> l) -> StronglySorted Z.le (st_struck_at_ms <$> l) ->
  order_by st_struck_at_ms st_id l = l.
Proof.
  intros Hi Ht. assert (Hs : StronglySorted (key_le st_struck_at_ms st_id) l).
  { rewrite StronglySorted_fmap in Hi, Ht. revert Ht. induction Hi as [|x l Hl IH Hx]; intros Ht; [constructor|].
    apply StronglySorted_inv in Ht as [Ht Htx]. constructor; [auto|]. rewrite Forall_forall in *. intros y Hy.
    specialize (Hx y Hy). specialize (Htx y Hy). unfold key_le. lia. }
  eapply (StronglySorted_unique_strong (key_le st_struck_at_ms st_id)); [|apply order_by_sorted|exact Hs|apply order_by_perm].
  intros x y Hx Hy. unfold key_le. intros ? ?.
  assert (Hn : NoDup (st_id <$> l)).
  { revert Hi. generalize (st_id <$> l). induction 1 as [|z k Hk IH Hz]; constructor; [|done].
    intros Hin. rewrite Forall_forall in Hz. apply Hz in Hin. lia. }
  eapply (row_unique st_id); [exact Hn| |done|lia]. by rewrite order_by_perm in Hx.
Qed.

Lemma pruneStrikesTx_view id now d : 0 < RepeatThreshold r -> 0 < RepeatWindow r ->
  let d' := pruneStrikesTx r id now d in
  ip_reputation d' = ip_reputation d /\
  strikes_of id d' = List.filter (λ s, unixMillis (now - RepeatWindow r) <? st_struck_at_ms s) (strikes_of id d) /\
  (forall id', id' <> id -> strikes_of id' d' = strikes_of id' d).
Proof.
  intros Ht Hwin d'. unfold d', pruneStrikesTx.
  replace (RepeatThreshold r =? 0) with false by lia. replace (RepeatWindow r <=? 0) with false by lia. cbn [orb].
  unfold strikes_of, delete_where. cbn [ip_strikes ip_reputation set_ip_strikes]. split_and!; [done| |].
  - rewrite !filter_filter. apply filter_ext_elem. intros s _. destruct (strike_of id s); cbn; [|done].
    rewrite andb_true_r. rewrite Z.leb_antisym. apply negb_involutive.
  - intros id' Hne. rewrite filter_filter. apply filter_ext_elem. intros s _.
    destruct (strike_of id' s) eqn:E; [|by rewrite andb_false_r]. apply strike_of_true in E.
    assert (strike_of id s = false) as -> by (apply strike_of_false; congruence). done.
Qed.

(** Removing the oldest strike of one row. *)
Lemma remove_oldest id d s rest : ip_wf d -> strikes_of id d = s :: rest ->
  StronglySorted Z.le (st_struck_at_ms <$> strikes_of id d) ->
  oldest_strike id (ip_strikes d) = [st_id s] /\
  List.filter (strike_of id) (delete_where (id_in st_id [st_id s]) (ip_strikes d)) = rest /\
  (forall id', id' <> id -> List.filter (strike_of id') (delete_where (id_in st_id [st_id s]) (ip_strikes d)) = strikes_of id' d) /\
  count_where (id_in st_id [st_id s]) (ip_strikes d) = 1.
Proof.
  intros Hw Hs Ht. pose proof (strikes_ids_nodup d Hw) as Hn.
  assert (Hin : s ∈ ip_strikes d /\ strike_of id s = true).
  { assert (s ∈ strikes_of id d) as Hx by (rewrite Hs; left). unfold strikes_of in Hx.
    apply list_elem_of_In, filter_In in Hx as [? ?]. split; [by apply list_elem_of_In|done]. }
  destruct Hin as [Hin Hst].
  assert (Hids : forall x, x ∈ ip_strikes d -> id_in st_id [st_id s] x = bool_decide (x = s)).
  { intros x Hx. unfold id_in. apply bool_decide_ext. rewrite list_elem_of_singleton. split; [|by intros ->].
    intros He. by eapply (row_unique st_id). }
  split_and!.
  - unfold oldest_strike, first_ids. fold (strikes_of id d). rewrite order_by_sorted_id; [by rewrite Hs| |done].
    eapply sublist_StronglySorted; [|apply Hw]. apply sublist_fmap, filter_sublist.
  - unfold delete_where. rewrite filter_filter.
    assert (Hrest : List.filter (λ x, negb (bool_decide (x = s))) (strikes_of id d) = rest).
    { rewrite Hs. cbn. rewrite bool_decide_eq_true_2 by done. cbn. apply filter_all. intros y Hy.
      apply negb_true_iff, bool_decide_eq_false. intros ->.
      assert (Hnd : NoDup (st_id <$> strikes_of id d)) by (eapply sublist_NoDup; [exact Hn|]; apply sublist_fmap, filter_sublist).
      rewrite Hs in Hnd. cbn in Hnd. apply NoDup_cons in Hnd as [Hnd _]. apply Hnd. by apply list_elem_of_fmap_2. }
    rewrite <- Hrest. unfold strikes_of. rewrite filter_filter. apply filter_ext_elem. intros x Hx.
    rewrite Hids by done. apply andb_comm.
  - intros id' Hne. unfold delete_where, strikes_of. rewrite filter_filter. apply filter_ext_elem. intros x Hx.
    rewrite Hids by done. case_bool_decide as He; [|done]. subst x.
    apply strike_of_true in Hst. assert (strike_of id' s = false) as -> by (apply strike_of_false; congruence). done.
  - unfold count_where. rewrite (filter_ext_elem _ (λ x, bool_decide (x = s))) by done.
    clear -Hin Hn. induction (ip_strikes d) as [|x l IH]; [by apply not_elem_of_nil in Hin|].
    cbn [fmap list_fmap] in Hn. apply NoDup_cons in Hn as [Hx Hn]. cbn [List.filter]. case_bool_decide as E.
    + subst x. cbn [length]. rewrite filter_none; [done|]. intros y Hy. apply bool_decide_eq_false. intros ->.
      apply Hx. by apply list_elem_of_fmap_2.
    + assert (s ∈ l) by (by apply elem_of_cons in Hin as [->|?]). auto.
Qed.

Lemma hasCurrentStrike_view ip now d : ip_wf d -> hasCurrentStrike r ip now d = true ->
  0 < RepeatThreshold r /\ 0 < RepeatWindow r /\
  exists v, view ip d = Some v /\ current_strikes now v <> [].
Proof.
  intros Hw. unfold hasCurrentStrike. destruct ((RepeatThreshold r <=? 0) || (RepeatWindow r <=? 0)) eqn:E; [done|].
  apply orb_false_iff in E as [E1%Z.leb_gt E2%Z.leb_gt]. intros (row & Hrow & [Hip Hs]%andb_true_iff)%existsb_exists.
  split_and!; [done..|]. apply has_ip_true in Hip. apply list_elem_of_In in Hrow.
  exists (row_view d row). unfold view, row_of. rewrite (find_ip_unique d ip row) by done. split; [done|].
  apply existsb_exists in Hs as (s & Hin & [Hst Ht]%andb_true_iff). unfold current_strikes. cbn [row_view v_strikes].
  intros Hnil. assert (Hel : st_struck_at_ms s ∈ List.filter (λ t, unixMillis (now - RepeatWindow r) <? t)
      (st_struck_at_ms <$> strikes_of (ip_id row) d)); [|rewrite Hnil in Hel; by apply not_elem_of_nil in Hel].
  apply list_elem_of_In, filter_In. split; [|done]. apply list_elem_of_In, list_elem_of_fmap_2.
  apply list_elem_of_In, filter_In. done.
Qed.

(** Tables that differ from [d] at most in the strikes of one row. *)
Definition same_but (id : Z) (d d2 : Db) : Prop :=
  ip_reputation d2 = ip_reputation d /\ (forall id', id' <> id -> strikes_of id' d2 = strikes_of id' d).

Lemma row_view_same_but ip ip' d d2 row row' : ip_wf d -> row_of ip d = Some row -> row_of ip' d = Some row' -> ip' <> ip ->
  same_but (ip_id row) d d2 -> (ip_id row' =? ip_id row) = false /\ row_view d2 row' = row_view d row'.
Proof.
  intros Hw Hr Hr' Hne [_ Hs]. assert (Hid : ip_id row' <> ip_id row).
  { intros He. eapply (row_of_ids ip ip' d row row'); done. }
  split; [by apply Z.eqb_neq|]. unfold row_view. by rewrite Hs.
Qed.

Lemma view_set_legitimate ip now d row : ip_wf d -> row_of ip d = Some row -> forall d2 n ip', same_but (ip_id row) d d2 ->
  view ip' (set_legitimate (ip_id row) n (Some (unixMillis now)) d2) =
  if decide (ip' = ip) then Some (IPView (ip_block row) n (unixMillis now) (st_struck_at_ms <$> strikes_of (ip_id row) d2))
  else view ip' d.
Proof.
  intros Hw Erow d2 n ip' Hsame. unfold set_legitimate. rewrite view_update by done. unfold row_of.
  rewrite (proj1 Hsame). fold (row_of ip' d). case_decide as Hip.
  - subst ip'. rewrite Erow. cbn [fmap option_fmap option_map]. unfold has_id. by rewrite Z.eqb_refl.
  - unfold view. destruct (row_of ip' d) as [row'|] eqn:E'; [|done]. cbn [fmap option_fmap option_map]. f_equal.
    destruct (row_view_same_but ip ip' d d2 row row' Hw Erow E' Hip Hsame) as [He Hv]. unfold has_id. by rewrite He.
Qed.

Lemma view_delete_id ip d row : ip_wf d -> row_of ip d = Some row -> forall d2 ip', ip_wf d2 -> same_but (ip_id row) d d2 ->
  view ip' (delete_ip_where (has_id (ip_id row)) d2) = if decide (ip' = ip) then None else view ip' d.
Proof.
  intros Hw Erow d2 ip' Hw2 Hsame. rewrite view_delete by done. unfold row_of.
  rewrite (proj1 Hsame). fold (row_of ip' d). case_decide as Hip.
  - subst ip'. rewrite Erow. cbn. unfold has_id. by rewrite Z.eqb_refl.
  - unfold view. destruct (row_of ip' d) as [row'|] eqn:E'; [|done]. cbn [mbind option_bind fmap option_fmap option_map].
    destruct (row_view_same_but ip ip' d d2 row row' Hw Erow E' Hip Hsame) as [He Hv]. unfold has_id. rewrite He. by rewrite Hv.
Qed.

Lemma legitimate_body_view ip now d v : ip_wf d -> 0 < RepeatThreshold r -> 0 < RepeatWindow r ->
  view ip d = Some v -> StronglySorted Z.le (v_strikes v) -> current_strikes now v <> [] ->
  view ip (legitimate_body r ip now d).2 = abs_legitimate now v /\
  forall ip', ip' <> ip -> view ip' (legitimate_body r ip now d).2 = view ip' d.
Proof.
  intros Hw Hthr Hwin Hv Hsort Hcur. unfold view in Hv. destruct (row_of ip d) as [row|] eqn:Erow; [|done].
  cbn in Hv. injection Hv as <-. unfold legitimate_body. fold (row_of ip d). rewrite Erow. cbv zeta.
  set (id := ip_id row).
  destruct (pruneStrikesTx_view id now d Hthr Hwin) as (Hrep & Hst & Hother).
  pose proof (pruneStrikesTx_wf r id now d Hw) as Hw1. set (d1 := pruneStrikesTx r id now d) in *.
  assert (Htimes : st_struck_at_ms <$> strikes_of id d1 = current_strikes now (row_view d row)).
  { rewrite Hst. unfold current_strikes. cbn [row_view v_strikes]. fold id. clear.
    induction (strikes_of id d) as [|s l IH]; [done|]. cbn. destruct (_ <? st_struck_at_ms s); cbn; by rewrite IH. }
  assert (Hsort1 : StronglySorted Z.le (st_struck_at_ms <$> strikes_of id d1)).
  { rewrite Htimes. eapply sublist_StronglySorted; [apply filter_sublist|exact Hsort]. }
  destruct (strikes_of id d1) as [|s rest] eqn:Es; [by rewrite <- Htimes in Hcur|].
  assert (Hcount : count_where (strike_of id) (ip_strikes d1) = Z.of_nat (S (length rest))).
  { unfold count_where. fold (strikes_of id d1). by rewrite Es. }
  assert (Hnz : (Z.of_nat (S (length rest)) =? 0) = false) by done. rewrite Hcount, Hnz.
  destruct (remove_oldest id d1 s rest Hw1 Es) as (Hold & Hkeep & Hko & Hone); [by rewrite Es|].
  rewrite Hold, Hone. change (0 <? 1) with true. cbv iota.
  unfold abs_legitimate. cbv zeta. rewrite <- Htimes. cbn [fmap list_fmap v_legitimate v_block row_view].
  assert (Hact : view_active now (row_view d row) = row_active now row) by done. rewrite Hact.
  assert (Hset := view_set_legitimate ip now d row Hw Erow). assert (Hdel := view_delete_id ip d row Hw Erow). fold id in Hset, Hdel.
  destruct (LegitimatePerStrike r <=? ip_legitimate_count row + 1) eqn:Edue.
  - set (d2 := set_ip_strikes _ d1).
    assert (Hw2 : ip_wf d2) by (apply set_strikes_wf; [done|apply delete_where_sublist]).
    assert (Hs2 : same_but id d d2).
    { split; [done|]. intros id' Hne. unfold d2, strikes_of. cbn [ip_strikes set_ip_strikes]. rewrite Hko by done. apply Hother, Hne. }
    assert (Hzero : (Z.of_nat (S (length rest)) - 1 =? 0) = bool_decide (st_struck_at_ms <$> rest = [])).
    { destruct rest as [|s2 rest]; [done|]. rewrite bool_decide_eq_false_2 by done. apply Z.eqb_neq. cbn [length]. lia. }
    rewrite Hzero. destruct (bool_decide _ && negb _); cbn [snd].
    + split; [|intros ip' Hne]; rewrite Hdel; try done; [by rewrite decide_True|by rewrite decide_False].
    + split; [|intros ip' Hne]; rewrite Hset; try done; [rewrite decide_True by done|by rewrite decide_False].
      do 2 f_equal. unfold d2, strikes_of. cbn [ip_strikes set_ip_strikes]. by rewrite Hkeep.
  - rewrite Hnz. cbn [andb].
    rewrite bool_decide_eq_false_2 by done. cbn [andb snd].
    split; [|intros ip' Hne]; rewrite Hset; try done; [rewrite decide_True by done|by rewrite decide_False].
    by rewrite Es.
Qed.
End Legitimate.
