(* ===== verification/IPReputationSpec.v ===== *)
(** * Sending-IP reputation: what the repository guarantees

    Bounds on strikes, the effect of maintenance, and the properties of
    RecordRejection, RecordLegitimate, ActiveBlockForAttempt and Cleanup. *)
From S2P Require Import Prelude GoText NetSafety SqlDb IPReputation IPReputationFacts.
Import NetSafety.

(** ** At most [RepeatThreshold] strikes per address *)

Section StrikeBound.
Context `{NetIPText} (r : IPReputationOptions).

Definition strikes_bounded (d : Db) : Prop :=
  ip_wf d /\ forall id, (length (strikes_of id d) <= Z.to_nat (RepeatThreshold r))%nat.

Lemma strikes_bounded_sub d d' : ip_wf d' -> ip_strikes d' `sublist_of` ip_strikes d -> strikes_bounded d -> strikes_bounded d'.
Proof.
  intros Hw Hs [_ Hb]. split; [done|]. intros id. etransitivity; [|exact (Hb id)]. unfold strikes_of.
  apply sublist_length. revert Hs. generalize (ip_strikes d') (ip_strikes d). clear.
  induction 1 as [|x l k Hs IH|x l k Hs IH]; cbn; [done| |]; case_match; try done; by constructor.
Qed.

Lemma keep_newest_bound id cutoff n l : NoDup (st_id <$> l) ->
  (length (List.filter (strike_of id) (keep_newest id cutoff n l)) <= Z.to_nat n)%nat.
Proof.
  intros Hn. unfold keep_newest. cbv zeta. set (kept := take (Z.to_nat n) _).
  assert (Hlen : (length (st_id <$> kept) <= Z.to_nat n)%nat) by (rewrite length_fmap; apply firstn_le_length).
  etransitivity; [|exact Hlen]. rewrite <- (length_fmap st_id). apply submseteq_length, NoDup_submseteq.
  - eapply sublist_NoDup; [exact Hn|]. apply sublist_fmap. etransitivity; [apply filter_sublist|apply delete_where_sublist].
  - intros i (s & -> & Hs)%list_elem_of_fmap. apply list_elem_of_In, filter_In in Hs as [Hs Hst].
    apply list_elem_of_In, delete_where_elem in Hs as [_ Hd]. rewrite Hst in Hd. cbn in Hd.
    by apply negb_false_iff, bool_decide_eq_true in Hd.
Qed.

Lemma delete_ip_where_bounded p d : strikes_bounded d -> strikes_bounded (delete_ip_where p d).
Proof.
  intros Hb. apply (strikes_bounded_sub d); [apply delete_ip_where_wf, Hb| |done]. apply delete_where_sublist.
Qed.

Lemma upsert_strikes ip t d : ip_strikes (upsert_rejected ip t d).2 = ip_strikes d.
Proof. unfold upsert_rejected. by case_match. Qed.

Lemma reject_body_bounded addr now d : strikes_bounded d -> strikes_bounded (reject_body r addr now d).2.
Proof.
  intros Hb. split; [apply reject_body_wf, Hb|]. intros id. unfold reject_body. cbv zeta.
  set (d1 := delete_ip_where _ d). assert (Hb1 : strikes_bounded d1) by apply delete_ip_where_bounded, Hb.
  destruct (upsert_rejected_wf (addr_string addr) (unixMillis now) d1 (proj1 Hb1)) as [Hw2 Hid].
  pose proof (upsert_strikes (addr_string addr) (unixMillis now) d1) as Hst.
  destruct (upsert_rejected _ _ d1) as [[rid existing] d2]. cbn [fst snd] in *.
  assert (Hb2 : strikes_bounded d2) by (apply (strikes_bounded_sub d1); [done|by rewrite Hst|done]).
  unfold update_block, strikes_of. cbn [snd ip_strikes set_ip_reputation].
  unfold strike_statements. destruct (0 <? RepeatThreshold r) eqn:E; cbn [ip_strikes set_ip_strikes].
  - set (d3 := insert_strike rid (unixMillis now) d2).
    assert (Hw3 : ip_wf d3) by (by apply insert_strike_wf).
    destruct (decide (id = rid)) as [->|Hne]; [apply keep_newest_bound; by apply strikes_ids_nodup|].
    rewrite keep_newest_other by done. unfold d3, insert_strike. cbn [ip_strikes set_ip_strikes].
    rewrite List.filter_app. cbn [List.filter].
    match goal with |- context [if strike_of ?i ?s then _ else _] => assert (strike_of i s = false) as -> end.
    { apply strike_of_false. cbn. congruence. }
    rewrite app_nil_r. apply Hb2.
  - etransitivity; [|apply (proj2 Hb2 id)]. unfold delete_where, strikes_of.
    rewrite filter_filter. apply sublist_length. clear. induction (ip_strikes d2) as [|s l IH]; [done|]. cbn.
    destruct (strike_of rid s), (strike_of id s); cbn; try done; by constructor.
Qed.

Lemma legitimate_body_strikes ip now d : ip_strikes (legitimate_body r ip now d).2 `sublist_of` ip_strikes d.
Proof.
  assert (Hp : forall id, ip_strikes (pruneStrikesTx r id now d) `sublist_of` ip_strikes d).
  { intros id. unfold pruneStrikesTx. case_match; apply delete_where_sublist. }
  unfold legitimate_body. destruct (List.find _ _) as [row|]; [|done]. cbv zeta. specialize (Hp (ip_id row)).
  set (d1 := pruneStrikesTx r (ip_id row) now d) in *. clearbody d1.
  destruct (_ =? 0); [destruct (negb _); [etransitivity; [apply delete_where_sublist|done]|done]|].
  destruct (_ <=? _); destruct (_ && _); cbn [snd]; try done.
  - etransitivity; [apply delete_where_sublist|]. etransitivity; [apply delete_where_sublist|done].
  - etransitivity; [apply delete_where_sublist|done].
  - etransitivity; [apply delete_where_sublist|done].
Qed.

Lemma evict_level_strikes level acc : ip_strikes (evict_level level acc).2 `sublist_of` ip_strikes acc.2.
Proof. destruct acc as [[? ?] d]. cbn. case_match; [done|]. apply delete_where_sublist. Qed.

Lemma cleanup_body_strikes now d : ip_strikes (cleanup_body r now d).2 `sublist_of` ip_strikes d.
Proof.
  unfold cleanup_body. cbv zeta.
  match goal with |- context [enforceCapacityTx r ?x] => set (d4 := x) end.
  assert (H4 : ip_strikes d4 `sublist_of` ip_strikes d).
  { unfold d4. do 3 (etransitivity; [apply delete_where_sublist|]). done. }
  assert (H5 : ip_strikes (enforceCapacityTx r d4).2 `sublist_of` ip_strikes d4).
  { unfold enforceCapacityTx. cbv zeta. cbn [fold_left].
    match goal with |- context [evict_level ?a (evict_level ?b (evict_level ?c ?s))] =>
      pose proof (evict_level_strikes a (evict_level b (evict_level c s))) as E1;
      pose proof (evict_level_strikes b (evict_level c s)) as E2; pose proof (evict_level_strikes c s) as E3;
      destruct (evict_level a (evict_level b (evict_level c s))) as [[? ?] ?] end.
    cbn [snd] in *. etransitivity; [exact E1|]. etransitivity; [exact E2|exact E3]. }
  destruct (enforceCapacityTx r d4) as [n d5]. cbn [snd] in *. by etransitivity.
Qed.

Lemma ip_apply_bounded o w : strikes_bounded (wdb w) -> strikes_bounded (wdb (ip_apply r o w)).
Proof.
  apply ip_apply_preserves.
  - intros a t d. apply reject_body_bounded.
  - intros ip t d Hb. apply (strikes_bounded_sub d); [apply legitimate_body_wf, Hb|apply legitimate_body_strikes|done].
  - intros ip t d Hb. apply (strikes_bounded_sub d); [apply refresh_statement_wf, Hb|done|done].
  - intros ip l u t d Hb. apply (strikes_bounded_sub d); [apply manual_statement_wf, Hb| |done].
    unfold manual_statement. by case_match.
  - intros p d. apply delete_ip_where_bounded.
  - intros t d Hb. apply (strikes_bounded_sub d); [apply cleanup_body_wf, Hb|apply cleanup_body_strikes|done].
Qed.

Lemma ip_run_bounded ops w : strikes_bounded (wdb w) -> strikes_bounded (wdb (ip_run r ops w)).
Proof. revert w. induction ops as [|o ops IH]; intros w Hw; [done|]. apply IH, ip_apply_bounded, Hw. Qed.
End StrikeBound.

(** ** Maintenance *)

Section Eviction.

Definition oldest (n : nat) (rows : list ip_row) : list ip_row := take n (order_by ip_last_activity_at_ms ip_id rows).
Definition at_level (level : option IPBlockLevel) (row : ip_row) : bool := bool_decide (fst <$> ip_block row = level).
Definition evicted (level : option IPBlockLevel) (n : nat) (rows : list ip_row) : list ip_row :=
  oldest n (List.filter (at_level level) rows).
Definition survivors (level : option IPBlockLevel) (n : nat) (rows : list ip_row) : list ip_row :=
  delete_where (id_in ip_id (ip_id <$> evicted level n rows)) rows.

Lemma evicted_elem level n rows b : b ∈ evicted level n rows -> b ∈ rows /\ fst <$> ip_block b = level.
Proof.
  unfold evicted, oldest. intros Hb. eapply elem_of_take in Hb as (i & Hi & _). apply list_elem_of_lookup_2 in Hi.
  rewrite order_by_perm in Hi. apply list_elem_of_In, filter_In in Hi as [Hi Hl]. split; [by apply list_elem_of_In|].
  by apply bool_decide_eq_true in Hl.
Qed.

Lemma evicted_id level n rows x : NoDup (ip_id <$> rows) -> x ∈ rows ->
  id_in ip_id (ip_id <$> evicted level n rows) x = true <-> x ∈ evicted level n rows.
Proof.
  intros Hn Hx. unfold id_in. rewrite bool_decide_eq_true. split; [|by apply list_elem_of_fmap_2].
  intros (y & Hid & Hy)%list_elem_of_fmap. pose proof (evicted_elem _ _ _ _ Hy) as [Hy' _].
  assert (x = y) by (eapply (row_unique ip_id); done). by subst.
Qed.

Lemma survivors_elem level n rows x : NoDup (ip_id <$> rows) ->
  x ∈ survivors level n rows <-> x ∈ rows /\ x ∉ evicted level n rows.
Proof.
  intros Hn. unfold survivors. rewrite delete_where_elem. split; intros [Hx He]; (split; [done|]).
  - rewrite <- (evicted_id level n rows x) by done. by rewrite He.
  - apply Bool.not_true_iff_false. by rewrite evicted_id.
Qed.

Lemma evicted_count level n rows : NoDup (ip_id <$> rows) ->
  count_where (id_in ip_id (ip_id <$> evicted level n rows)) rows = Z.of_nat (length (evicted level n rows)).
Proof.
  intros Hn. unfold count_where. f_equal. apply Permutation_length. apply NoDup_Permutation.
  - eapply (sublist_NoDup _ rows); [by apply NoDup_fmap_1 in Hn|]. apply filter_sublist.
  - unfold evicted, oldest. eapply sublist_NoDup; [|apply sublist_take]. rewrite order_by_perm.
    eapply (sublist_NoDup _ rows); [by apply NoDup_fmap_1 in Hn|]. apply filter_sublist.
  - intros x. rewrite list_elem_of_In, filter_In, <- list_elem_of_In. split.
    + intros [Hx Hi]. by apply (evicted_id level n rows x).
    + intros Hx. pose proof (evicted_elem _ _ _ _ Hx) as [Hr _]. split; [done|]. by apply evicted_id.
Qed.

Lemma evicted_length level n rows :
  length (evicted level n rows) = Nat.min n (length (List.filter (at_level level) rows)).
Proof. unfold evicted, oldest. rewrite length_take. by rewrite (Permutation_length (order_by_perm _ _ _)). Qed.

Lemma evicted_oldest level n rows a b : a ∈ rows -> fst <$> ip_block a = level -> a ∉ evicted level n rows ->
  b ∈ evicted level n rows -> key_le ip_last_activity_at_ms ip_id b a.
Proof.
  unfold evicted, oldest. set (C := List.filter _ rows). intros Ha Hl Hna Hb.
  assert (HaC : a ∈ order_by ip_last_activity_at_ms ip_id C).
  { rewrite order_by_perm. apply list_elem_of_In, filter_In. split; [by apply list_elem_of_In|]. by apply bool_decide_eq_true. }
  pose proof (order_by_sorted ip_last_activity_at_ms ip_id C) as Hs.
  rewrite <- (take_drop n (order_by _ _ C)) in HaC, Hs. apply elem_of_app in HaC as [HaC|HaC]; [done|].
  revert Hs Hb HaC. generalize (take n (order_by ip_last_activity_at_ms ip_id C)) (drop n (order_by ip_last_activity_at_ms ip_id C)).
  intros l k. induction l as [|x l IH]; intros Hs Hb HaC; [by apply not_elem_of_nil in Hb|]. cbn in Hs.
  apply StronglySorted_inv in Hs as [Hs Hx]. apply elem_of_cons in Hb as [->|Hb]; [|by apply IH].
  rewrite Forall_forall in Hx. apply Hx. apply elem_of_app. by right.
Qed.

Lemma evicted_all level n rows : (length (List.filter (at_level level) rows) <= n)%nat ->
  forall x, x ∈ rows -> fst <$> ip_block x = level -> x ∈ evicted level n rows.
Proof.
  intros Hn x Hx Hl. unfold evicted, oldest. rewrite take_ge by (by rewrite (Permutation_length (order_by_perm _ _ _))).
  rewrite order_by_perm. apply list_elem_of_In, filter_In. split; [by apply list_elem_of_In|]. by apply bool_decide_eq_true.
Qed.

(** Priority of a row for eviction: no block, short block, repeat block. *)
Definition rank (row : ip_row) : Z :=
  match ip_block row with None => 0 | Some (IPBlockLevelShort, _) => 1 | Some (IPBlockLevelRepeat, _) => 2 end.
Definition evict_le (b a : ip_row) : Prop :=
  rank b < rank a \/ rank b = rank a /\ key_le ip_last_activity_at_ms ip_id b a.

Lemma rank_level row k : (fst <$> ip_block row = k) <->
  rank row = match k with None => 0 | Some IPBlockLevelShort => 1 | Some IPBlockLevelRepeat => 2 end.
Proof. unfold rank. destruct (ip_block row) as [[[] ?]|], k as [[]|]; cbn; split; try done; intros; simplify_eq; done. Qed.
End Eviction.

Section EvictionPasses.
(** State of the eviction loop: the rows left, the rows removed and the excess
    still to remove, when the levels below [k] have been dealt with. *)
Record evicting (rows0 : list ip_row) (k : Z) (excess : Z) (rows : list ip_row) : Prop := Evicting {
  ev_sub : rows `sublist_of` rows0;
  ev_excess : 0 <= excess;
  ev_sorted : forall a b, a ∈ rows -> b ∈ rows0 -> b ∉ rows -> evict_le b a;
  ev_below : 0 < excess -> forall a, a ∈ rows -> k <= rank a;
  ev_removed : forall b, b ∈ rows0 -> b ∉ rows -> rank b < k;
}.

Lemma sublist_ids rows0 rows : NoDup (ip_id <$> rows0) -> rows `sublist_of` rows0 -> NoDup (ip_id <$> rows).
Proof. intros Hn Hs. eapply sublist_NoDup; [exact Hn|]. by apply sublist_fmap. Qed.

Lemma evict_level_passes rows0 level k excess total d : NoDup (ip_id <$> rows0) ->
  k = match level with None => 0 | Some IPBlockLevelShort => 1 | Some IPBlockLevelRepeat => 2 end ->
  evicting rows0 k excess (ip_reputation d) ->
  let '(excess', total', d') := evict_level level (excess, total, d) in
  evicting rows0 (k + 1) excess' (ip_reputation d') /\
  Z.of_nat (length (ip_reputation d')) = Z.of_nat (length (ip_reputation d)) - (excess - excess') /\
  total' = total + (excess - excess').
Proof.
  intros Hn0 Hk [Hsub Hex Hso Hbe Hre]. unfold evict_level. destruct (excess =? 0) eqn:E.
  { apply Z.eqb_eq in E as ->. split_and!; [|lia|lia]. split; [done|lia|done|intros; lia|].
    intros b Hb Hnb. specialize (Hre b Hb Hnb). lia. }
  apply Z.eqb_neq in E. cbv zeta. set (R := ip_reputation d) in *.
  change (List.filter (λ row, bool_decide (fst <$> ip_block row = level)) R) with (List.filter (at_level level) R).
  change (first_ids ip_last_activity_at_ms ip_id (Z.to_nat excess) (List.filter (at_level level) R))
    with (ip_id <$> evicted level (Z.to_nat excess) R).
  set (n := Z.to_nat excess). pose proof (sublist_ids rows0 R Hn0 Hsub) as Hn.
  rewrite evicted_count by done. unfold delete_ip_where. cbn [ip_reputation set_ip_strikes set_ip_reputation].
  change (delete_where (id_in ip_id (ip_id <$> evicted level n R)) (ip_reputation d)) with (survivors level n R).
  pose proof (evicted_length level n R) as Hlen.
  pose proof (count_delete (id_in ip_id (ip_id <$> evicted level n R)) R) as Hcd. rewrite evicted_count in Hcd by done.
  fold (survivors level n R) in Hcd. split_and!; [|lia|lia].
  assert (Hgone : forall b, b ∈ rows0 -> b ∉ survivors level n R -> b ∉ R \/ b ∈ evicted level n R).
  { intros b Hb Hnb. destruct (decide (b ∈ R)) as [HbR|]; [right|by left].
    destruct (decide (b ∈ evicted level n R)) as [|Hne]; [done|]. destruct Hnb. by apply survivors_elem. }
  split.
  - etransitivity; [apply delete_where_sublist|done].
  - lia.
  - intros a b Ha Hb Hnb. apply survivors_elem in Ha as [Ha Hna]; [|done].
    destruct (Hgone b Hb Hnb) as [HbR|Hev]; [by apply Hso|]. pose proof (evicted_elem _ _ _ _ Hev) as [_ Hlb].
    apply rank_level in Hlb. pose proof (Hbe ltac:(lia) a Ha) as Hka.
    destruct (decide (rank a = k)) as [Hra|Hra]; [right|left; lia]. split; [lia|].
    eapply evicted_oldest; [exact Ha| |exact Hna|exact Hev]. apply rank_level. lia.
  - intros Hpos a Ha. apply survivors_elem in Ha as [Ha Hna]; [|done]. pose proof (Hbe ltac:(lia) a Ha) as Hka.
    destruct (decide (rank a = k)) as [Hra|]; [|lia]. destruct Hna. apply evicted_all; [lia|done|]. apply rank_level. lia.
  - intros b Hb Hnb. destruct (Hgone b Hb Hnb) as [HbR|Hev]; [specialize (Hre b Hb HbR); lia|].
    apply evicted_elem in Hev as [_ Hlb]. apply rank_level in Hlb. lia.
Qed.

Lemma enforceCapacityTx_spec (r : IPReputationOptions) d : 0 <= IPMaxEntries r -> NoDup (ip_id <$> ip_reputation d) ->
  let '(total, d') := enforceCapacityTx r d in
  ip_reputation d' `sublist_of` ip_reputation d /\
  Z.of_nat (length (ip_reputation d')) = Z.min (Z.of_nat (length (ip_reputation d))) (IPMaxEntries r) /\
  total = Z.of_nat (length (ip_reputation d)) - Z.of_nat (length (ip_reputation d')) /\
  forall a b, a ∈ ip_reputation d' -> b ∈ ip_reputation d -> b ∉ ip_reputation d' -> evict_le b a.
Proof.
  intros Hmax Hn. unfold enforceCapacityTx. cbv zeta. cbn [fold_left]. set (R := ip_reputation d).
  assert (Hex : capacity_excess R (IPMaxEntries r) = Z.max (Z.of_nat (length R) - IPMaxEntries r) 0) by done.
  set (e0 := capacity_excess R (IPMaxEntries r)) in *.
  assert (E0 : evicting R 0 e0 (ip_reputation d)).
  { split; [done|lia|done| |done]. intros _ a Ha. unfold rank. repeat case_match; lia. }
  pose proof (evict_level_passes R None 0 e0 0 d Hn eq_refl E0) as P1.
  destruct (evict_level None (e0, 0, d)) as [[e1 t1] d1]. destruct P1 as (E1 & L1 & T1).
  pose proof (evict_level_passes R (Some IPBlockLevelShort) _ e1 t1 d1 Hn eq_refl E1) as P2.
  destruct (evict_level _ (e1, t1, d1)) as [[e2 t2] d2]. destruct P2 as (E2 & L2 & T2).
  pose proof (evict_level_passes R (Some IPBlockLevelRepeat) _ e2 t2 d2 Hn eq_refl E2) as P3.
  destruct (evict_level _ (e2, t2, d2)) as [[e3 t3] d3]. destruct P3 as (E3 & L3 & T3).
  destruct E3 as [Hs He Hso Hbe _].
  assert (e3 = 0).
  { destruct (decide (0 < e3)) as [Hp|]; [|lia]. exfalso.
    destruct (ip_reputation d3) as [|a l] eqn:Ed3.
    - cbn in L3. unfold R in *. lia.
    - specialize (Hbe Hp a ltac:(left)). unfold rank in Hbe. repeat case_match; lia. }
  fold R in L1. split_and!; [done|lia|lia|done].
Qed.
End EvictionPasses.

(** ** Blocks *)

Section Blocks.
Context `{NetIPText} (r : IPReputationOptions).

(** The block a rejection leaves, whatever the clock did before. *)
Lemma reject_body_block addr now d : ip_wf d ->
  let ip := addr_string addr in
  let existing := view ip d ≫= λ v, if view_expired (unixMillis now) v then None else v_block v in
  let '((block, count), d') := reject_body r addr now d in
  block = merged_block now existing (earned_block r now count) /\
  exists v', view ip d' = Some v' /\ v_block v' = stored_block block.
Proof.
  intros Hw ip existing. unfold reject_body. cbv zeta. fold ip. set (now_ms := unixMillis now) in *.
  set (d1 := delete_ip_where (λ row, has_ip ip row && expired_repeat now_ms row) d).
  assert (Hw1 : ip_wf d1) by apply delete_ip_where_wf, Hw.
  assert (Hv1 : view ip d1 ≫= v_block = existing).
  { unfold d1, existing. rewrite view_delete by done. unfold view. destruct (row_of ip d) as [row|] eqn:E; [|done]. cbn.
    apply row_of_ip in E as [E _]. apply has_ip_true in E. rewrite E. cbn. unfold view_expired, expired_repeat. cbn.
    destruct (ip_block row) as [[[] until]|] eqn:Eb; cbn; try done.
    by destruct (until <=? now_ms). }
  pose proof (upsert_view ip now_ms d1 Hw1) as Hup.
  destruct (upsert_rejected ip now_ms d1) as [[id existing'] d2].
  destruct Hup as (Hex & (row & Hrow & <- & _) & _). rewrite Hex, Hv1. split; [done|].
  set (d3 := strike_statements r (ip_id row) now d2).
  assert (Hrow3 : row_of ip d3 = Some row).
  { rewrite <- Hrow. unfold d3, strike_statements, row_of. by case_match. }
  unfold update_block. rewrite view_update by done. rewrite Hrow3. cbn [fmap option_fmap option_map].
  eexists. split; [done|]. unfold has_id. by rewrite Z.eqb_refl.
Qed.

Lemma merged_block_keeps now level until_ms earned : now < timeFromMillis until_ms ->
  exists l u, merged_block now (Some (level, until_ms)) earned = Some (l, u) /\ timeFromMillis until_ms <= u /\
    (forall e, earned = Some e -> e.2 <= u).
Proof.
  intros Ha. unfold merged_block. rewrite (proj2 (Z.ltb_lt _ _) Ha). cbn [andb].
  destruct earned as [[el eu]|].
  - destruct (eu <? timeFromMillis until_ms) eqn:E1; cbn [orb].
    + apply Z.ltb_lt in E1. eexists _, _. split; [done|]. split; [lia|]. intros [? ?] [= -> ->]. cbn. lia.
    + apply Z.ltb_ge in E1. destruct (timeFromMillis until_ms =? eu) eqn:E2; cbn [andb].
      * apply Z.eqb_eq in E2. destruct (bool_decide (level = IPBlockLevelRepeat) && _); eexists _, _; (split; [done|]);
          (split; [lia|]); intros [? ?] [= -> ->]; cbn; lia.
      * eexists _, _. split; [done|]. split; [lia|]. intros [? ?] [= -> ->]. done.
  - eexists _, _. split; [done|]. split; [lia|done].
Qed.

Lemma active_not_expired now v level until_ms : v_block v = Some (level, until_ms) -> now < timeFromMillis until_ms ->
  view_expired (unixMillis now) v = false.
Proof.
  intros Hv Ha. unfold view_expired. rewrite Hv. destruct level; [done|]. apply Z.leb_gt.
  unfold unixMillis, timeFromMillis in *. apply Z.div_lt_upper_bound; unfold millisecond in *; lia.
Qed.

(** Rejections at the given times, over tables nobody else uses. *)
Fixpoint reject_all (addr : Addr) (times : list Z) (d : Db) : list (option (IPBlockLevel * Z) * Z) * Db :=
  match times with
  | [] => ([], d)
  | t :: times' =>
      let '(res, d1) := reject_body r addr t d in
      let '(rest, d2) := reject_all addr times' d1 in (res :: rest, d2)
  end.

(** Below the threshold an address has only short blocks, none longer than the
    last rejection earned. *)
Definition below_threshold (last : Z) (past : list Z) (v : option ip_view) : Prop :=
  match v with
  | None => past = []
  | Some v => v_strikes v = unixMillis <$> past /\
              exists u, v_block v = Some (IPBlockLevelShort, unixMillis u) /\ u <= last + BlockDuration r
  end.

Lemma merged_earned now existing earned : earned <> None ->
  (forall level until, existing = Some (level, until) -> level = IPBlockLevelShort /\
     forall e, earned = Some e -> timeFromMillis until <= e.2) ->
  merged_block now existing earned = earned.
Proof.
  intros He Hold. destruct existing as [[level until]|]; [|done]. destruct earned as [[el eu]|]; [|done].
  destruct (Hold level until eq_refl) as [-> Hle]. specialize (Hle _ eq_refl). cbn in Hle.
  unfold merged_block. rewrite (bool_decide_eq_false_2 (IPBlockLevelShort = IPBlockLevelRepeat)) by done.
  rewrite andb_false_r. cbn [andb orb]. replace (eu <? timeFromMillis until) with false by lia. by rewrite andb_false_r.
Qed.

Lemma below_step now last past v : 0 < RepeatThreshold r -> 0 < BlockDuration r -> BlockDuration r <= RepeatBlockDuration r ->
  below_threshold last past v -> last <= now ->
  Forall (λ t, unixMillis (now - RepeatWindow r) < unixMillis t) (past ++ [now]) ->
  Z.of_nat (length past) < RepeatThreshold r ->
  let '((block, count), v') := abs_reject r now v in
  count = Z.of_nat (length past) + 1 /\
  (count < RepeatThreshold r -> block = Some (IPBlockLevelShort, now + BlockDuration r) /\ below_threshold now (past ++ [now]) (Some v')) /\
  (count = RepeatThreshold r -> block = Some (IPBlockLevelRepeat, now + RepeatBlockDuration r)).
Proof.
  intros Ht Hb Hd Hinv Hlast Hwin Hlen. unfold abs_reject. cbv zeta. rewrite <- strongest_block. unfold recent_strikes.
  assert (Hv : (v ≫= λ v, if view_expired (unixMillis now) v then None else Some v) = v).
  { destruct v as [v|]; [|done]. destruct Hinv as (_ & u & Hbl & _). cbn. unfold view_expired. by rewrite Hbl. }
  rewrite Hv. assert (Hold : default [] (v_strikes <$> v) = unixMillis <$> past).
  { destruct v as [v|]; cbn in *; [apply Hinv|by subst past]. }
  rewrite Hold. replace (0 <? RepeatThreshold r) with true by lia.
  assert (Hall : List.filter (λ t, unixMillis (now - RepeatWindow r) <? t) ((unixMillis <$> past) ++ [unixMillis now]) =
                 unixMillis <$> (past ++ [now])).
  { rewrite fmap_app. apply filter_all. intros x Hx. rewrite <- (fmap_app _ past [now]) in Hx.
    apply list_elem_of_fmap in Hx as (t & -> & Hin). rewrite Forall_forall in Hwin. apply Z.ltb_lt. auto. }
  rewrite Hall. set (strikes := lastn _ _).
  assert (Hs : strikes = unixMillis <$> (past ++ [now])).
  { unfold strikes, lastn. rewrite length_fmap, length_app. cbn [length].
    replace (length past + 1 - Z.to_nat (RepeatThreshold r))%nat with 0%nat by lia. done. }
  rewrite Hs. rewrite length_fmap, length_app. cbn [length].
  assert (Hcnt : Z.of_nat (length past + 1) = Z.of_nat (length past) + 1) by lia. rewrite Hcnt.
  assert (Hm : forall e, earned_block r now (Z.of_nat (length past) + 1) = Some e -> now + BlockDuration r <= e.2 ->
            merged_block now (v ≫= v_block) (Some e) = Some e).
  { intros e He Hle. apply merged_earned; [done|]. intros level until Hex. destruct v as [v|]; [|done].
    destruct Hinv as (_ & u & Hbl & Hu). cbn in Hex. rewrite Hbl in Hex. injection Hex as <- <-. split; [done|].
    intros e' [= <-]. pose proof (timeFromMillis_le u). lia. }
  split; [done|]. unfold earned_block in *. replace (0 <? RepeatThreshold r) with true in * by lia. cbn [andb] in *. split.
  - intros Hlt. replace (RepeatThreshold r <=? Z.of_nat (length past) + 1) with false in * by lia.
    replace (0 <? BlockDuration r) with true in * by lia. rewrite (Hm _ eq_refl) by (cbn; lia).
    split; [done|]. cbn. split; [done|]. exists (now + BlockDuration r). split; [done|lia].
  - intros Heq. replace (RepeatThreshold r <=? Z.of_nat (length past) + 1) with true in * by lia.
    apply (Hm _ eq_refl). cbn. lia.
Qed.
End Blocks.

Section Escalation.
Context `{NetIPText} (r : IPReputationOptions).

Lemma reject_all_escalates addr final times : forall d past last, ip_wf d ->
  0 < RepeatThreshold r -> 0 < BlockDuration r -> BlockDuration r <= RepeatBlockDuration r ->
  below_threshold r last past (view (addr_string addr) d) ->
  StronglySorted Z.le (past ++ times) -> Forall (λ t, last <= t) times ->
  Forall (λ t, t <= final /\ unixMillis (final - RepeatWindow r) < unixMillis t) (past ++ times) ->
  Z.of_nat (length (past ++ times)) <= RepeatThreshold r ->
  forall i block count, (reject_all r addr times d).1 !! i = Some (block, count) ->
    count = Z.of_nat (length past + i) + 1 /\
    (count < RepeatThreshold r -> exists t, times !! i = Some t /\ block = Some (IPBlockLevelShort, t + BlockDuration r)) /\
    (count = RepeatThreshold r -> exists t, times !! i = Some t /\ block = Some (IPBlockLevelRepeat, t + RepeatBlockDuration r)).
Proof.
  induction times as [|now times IH]; intros d past last Hw Ht Hb Hd Hinv Hsort Hlast Hwin Hlen i block count; [done|].
  cbn [reject_all].
  assert (Hch : chronological (view (addr_string addr) d) now).
  { unfold chronological. assert (default [] (v_strikes <$> view (addr_string addr) d) = unixMillis <$> past) as ->.
    { destruct (view (addr_string addr) d) as [v|]; cbn in *; [apply Hinv|by rewrite Hinv]. }
    change [unixMillis now] with (unixMillis <$> [now]). rewrite <- fmap_app, StronglySorted_fmap.
    eapply sublist_StronglySorted in Hsort; [|apply (sublist_app past past [now] (now :: times)); [done|]; by apply sublist_skip, sublist_nil_l].
    clear -Hsort. induction Hsort as [|x l Hl IHl Hx]; constructor; [done|]. eapply Forall_impl; [exact Hx|].
    intros y. apply unixMillis_mono. }
  pose proof (reject_body_view r addr now d Hw Hch) as Hbody. cbv zeta in Hbody.
  pose proof (reject_body_wf r addr now d Hw) as Hw1.
  destruct (reject_body r addr now d) as [res d1]. cbn [snd] in Hw1. destruct Hbody as (Hres & Hv1 & _).
  rewrite length_app in Hlen. cbn [length] in Hlen. apply Forall_cons in Hlast as [Hln Hlast].
  assert (Hnow : now <= final /\ unixMillis (final - RepeatWindow r) < unixMillis now).
  { rewrite Forall_app in Hwin. destruct Hwin as [_ Hwin]. by apply Forall_cons in Hwin as [? _]. }
  pose proof (below_step r now last past (view (addr_string addr) d) Ht Hb Hd Hinv Hln) as Hstep.
  destruct (abs_reject r now (view (addr_string addr) d)) as [[block0 count0] v'].
  destruct Hstep as (Hc & Hshort & Hrep).
  { rewrite Forall_app in Hwin |- *. destruct Hwin as [Hp _]. split.
    - eapply Forall_impl; [exact Hp|]. cbn. intros t [_ Hlt]. eapply Z.le_lt_trans; [|exact Hlt]. apply unixMillis_mono. lia.
    - constructor; [|constructor]. eapply Z.le_lt_trans; [|apply Hnow]. apply unixMillis_mono. lia. }
  { lia. }
  destruct (reject_all r addr times d1) as [rest d2] eqn:Erest. cbn [fst]. subst res.
  destruct i as [|i]; cbn [lookup list_lookup].
  - intros [= <- <-]. rewrite Nat.add_0_r. split; [lia|]. split; intros Hcmp; exists now; (split; [done|]).
    + by apply Hshort.
    + by apply Hrep.
  - intros Hi. destruct (decide (count0 < RepeatThreshold r)) as [Hlt|Hge].
    + destruct (Hshort Hlt) as [_ Hinv'].
      specialize (IH d1 (past ++ [now]) now Hw1 Ht Hb Hd). rewrite Hv1 in IH. cbn [snd] in IH.
      rewrite <- app_assoc in IH. cbn [app] in IH. rewrite Erest in IH. cbn [fst] in IH.
      destruct (IH Hinv' Hsort) with (i := i) (block := block) (count := count) as (H1 & H2 & H3); [| |rewrite length_app; cbn [length]; lia|done|].
      * eapply sublist_StronglySorted in Hsort; [|apply sublist_inserts_l; reflexivity].
        apply StronglySorted_inv in Hsort as [_ Hx]. done.
      * done.
      * rewrite length_app in H1. cbn [length] in H1. split; [lia|done].
    + assert (times = []) as -> by (destruct times; [done|cbn in *; lia]). cbn in Erest. injection Erest as <- <-. done.
Qed.
End Escalation.

(** The active-block query. *)
Lemma readActiveBlock_cases (r : IPReputationOptions) ip now d : ip_wf d ->
  (exists row level until, row_of ip d = Some row /\ ip_block row = Some (level, until) /\
     unixMillis now < until /\ exists n, readActiveBlock r ip now d = Some (level, until, n)) \/
  (readActiveBlock r ip now d = None /\
   forall row level until, row_of ip d = Some row -> ip_block row = Some (level, until) -> until <= unixMillis now).
Proof.
  intros Hwf. unfold readActiveBlock. cbv zeta.
  match goal with |- context [List.find ?f ?l] => destruct (List.find f l) as [row|] eqn:Ef end.
  - left. apply find_some_elem in Ef as [Hin [Hip Hb]%andb_true_iff]. apply has_ip_true in Hip.
    destruct (ip_block row) as [[level until]|] eqn:Eb; [|done]. apply Z.ltb_lt in Hb.
    exists row, level, until. unfold row_of. rewrite (find_ip_unique d ip row) by done. eauto 10.
  - right. split; [done|]. intros row level until Hr Hb. apply find_none_notin in Ef. rewrite Forall_forall in Ef.
    apply row_of_ip in Hr as [Hip Hr]. specialize (Ef row Hr). apply has_ip_true in Hip. rewrite Hip, Hb in Ef. cbn in Ef.
    by apply Z.ltb_ge.
Qed.

(** The refresh reaches exactly the row of the address. *)
Lemma refresh_statement_view (r : IPReputationOptions) ip now d row : ip_wf d -> row_of ip d = Some row ->
  refreshable r ip now row = true ->
  (refresh_statement r ip now d).1 <> 0 /\
  view ip (refresh_statement r ip now d).2 =
    Some (IPView (Some (IPBlockLevelRepeat, unixMillis (now + RepeatBlockDuration r))) (ip_legitimate_count row)
            (unixMillis now) (st_struck_at_ms <$> strikes_of (ip_id row) d)) /\
  (forall ip', ip' <> ip -> view ip' (refresh_statement r ip now d).2 = view ip' d).
Proof.
  intros Hw Hrow Hrefr. unfold refresh_statement. cbn [fst snd]. split_and!.
  - unfold count_where. intros Hz.
    assert (Hel : row ∈ List.filter (refreshable r ip now) (ip_reputation d)).
    { apply list_elem_of_In, filter_In. split; [|done]. apply list_elem_of_In. by apply row_of_ip in Hrow as [_ ?]. }
    destruct (List.filter _ _); [by apply not_elem_of_nil in Hel|cbn in Hz; lia].
  - rewrite view_update by done. rewrite Hrow. cbn [fmap option_fmap option_map]. by rewrite Hrefr.
  - intros ip' Hne. rewrite view_update by done. unfold view. destruct (row_of ip' d) as [row'|] eqn:Er'; [|done].
    cbn. f_equal. unfold refreshable. apply row_of_ip in Er' as [Hip' _].
    assert (has_ip ip row' = false) as -> by (apply Bool.not_true_iff_false; rewrite has_ip_true; congruence). done.
Qed.

(** ** What maintenance leaves *)

Section Cleanup.
Context (r : IPReputationOptions).

Lemma delete_keeps_strikes p d a : ip_wf d -> a ∈ ip_reputation (delete_ip_where p d) ->
  strikes_of (ip_id a) (delete_ip_where p d) = strikes_of (ip_id a) d.
Proof.
  intros Hw Ha. unfold delete_ip_where in *. cbn [ip_reputation set_ip_strikes set_ip_reputation] in Ha.
  apply delete_where_elem in Ha as [Ha Hp]. unfold strikes_of, delete_where. cbn [ip_strikes set_ip_strikes].
  rewrite filter_filter. apply filter_ext_elem. intros s Hs.
  destruct (strike_of (ip_id a) s) eqn:Es; [|by rewrite andb_false_r]. rewrite andb_true_r. apply strike_of_true in Es.
  apply negb_true_iff, bool_decide_eq_false. intros (b & Hid & Hin)%list_elem_of_fmap.
  apply list_elem_of_In, filter_In in Hin as [Hin Hpb].
  assert (a = b) as <- by (eapply (row_unique ip_id); [apply Hw|done|by apply list_elem_of_In|congruence]). congruence.
Qed.

Lemma evict_level_strikes_kept level acc a : ip_wf acc.2 -> a ∈ ip_reputation (evict_level level acc).2 ->
  a ∈ ip_reputation acc.2 /\ strikes_of (ip_id a) (evict_level level acc).2 = strikes_of (ip_id a) acc.2.
Proof.
  destruct acc as [[e n] d]. cbn. intros Hw. case_match; [done|]. cbn. intros Ha. split.
  - by apply delete_where_elem in Ha as [? _].
  - by apply delete_keeps_strikes.
Qed.

Lemma enforceCapacityTx_strikes d a : ip_wf d -> a ∈ ip_reputation (enforceCapacityTx r d).2 ->
  strikes_of (ip_id a) (enforceCapacityTx r d).2 = strikes_of (ip_id a) d.
Proof.
  intros Hw. unfold enforceCapacityTx. cbv zeta. cbn [fold_left].
  match goal with |- context [evict_level ?l3 (evict_level ?l2 (evict_level ?l1 ?s))] =>
    set (s0 := s); set (s1 := evict_level l1 s0); set (s2 := evict_level l2 s1); set (s3 := evict_level l3 s2) end.
  assert (W1 : ip_wf s1.2) by (by apply evict_level_wf). assert (W2 : ip_wf s2.2) by (by apply evict_level_wf).
  pose proof (evict_level_strikes_kept (Some IPBlockLevelRepeat) s2 a W2) as K3. fold s3 in K3.
  pose proof (evict_level_strikes_kept (Some IPBlockLevelShort) s1 a W1) as K2. fold s2 in K2.
  pose proof (evict_level_strikes_kept None s0 a Hw) as K1. fold s1 in K1.
  destruct s3 as [[e3 t3] d3]. cbn [snd] in *. intros Ha. destruct (K3 Ha) as [A2 ->]. destruct (K2 A2) as [A1 ->].
  by destruct (K1 A1) as [_ ->].
Qed.

Definition stale_strike (now : Z) (s : strike_row) : bool :=
  if (RepeatThreshold r =? 0) || (RepeatWindow r <=? 0) then true
  else st_struck_at_ms s <=? unixMillis (now - RepeatWindow r).

(** A row with its expired short block cleared. *)
Definition cleared (now : Z) (row : ip_row) : ip_row :=
  if expired_short (unixMillis now) row
  then IPRow (ip_id row) (ip_ip row) None (ip_legitimate_count row) (ip_last_activity_at_ms row) else row.

(** Evidence that maintenance must not discard: an active block, or a current
    strike of an address whose repeat block has not expired. *)
Definition has_evidence (now : Z) (d : Db) (row : ip_row) : Prop :=
  expired_repeat (unixMillis now) row = false /\
  (ip_block (cleared now row) <> None \/ exists s, s ∈ strikes_of (ip_id row) d /\ stale_strike now s = false).

(** The tables before the capacity limit is enforced. *)
Definition pruned (now : Z) (d : Db) : Db :=
  let d := set_ip_strikes (delete_where (stale_strike now) (ip_strikes d)) d in
  let d := delete_ip_where (expired_repeat (unixMillis now)) d in
  let d := set_ip_reputation (update_where (expired_short (unixMillis now))
             (λ row, IPRow (ip_id row) (ip_ip row) None (ip_legitimate_count row) (ip_last_activity_at_ms row))
             (ip_reputation d)) d in
  delete_ip_where (has_no_evidence d) d.

Lemma cleanup_body_pruned now d : (cleanup_body r now d).2 = (enforceCapacityTx r (pruned now d)).2.
Proof.
  unfold cleanup_body. cbv zeta.
  match goal with |- context [let '(_, _) := enforceCapacityTx r ?x in _] => change x with (pruned now d) end.
  by destruct (enforceCapacityTx r (pruned now d)).
Qed.

Lemma pruned_wf now d : ip_wf d -> ip_wf (pruned now d).
Proof.
  intros Hw. unfold pruned. cbv zeta. apply delete_ip_where_wf, update_rows_wf; try done.
  apply delete_ip_where_wf, set_strikes_wf; [done|apply delete_where_sublist].
Qed.

Lemma pruned_rows now d row : ip_wf d -> row ∈ ip_reputation (pruned now d) <->
  exists row0, row0 ∈ ip_reputation d /\ row = cleared now row0 /\ has_evidence now d row0.
Proof.
  intros Hw. unfold pruned. cbv zeta.
  set (d1 := set_ip_strikes _ d). assert (W1 : ip_wf d1) by (apply set_strikes_wf; [done|apply delete_where_sublist]).
  set (d2 := delete_ip_where _ d1). assert (W2 : ip_wf d2) by (by apply delete_ip_where_wf).
  set (d3 := set_ip_reputation _ d2). unfold delete_ip_where at 1. cbn [ip_reputation set_ip_strikes set_ip_reputation].
  rewrite delete_where_elem. unfold d3 at 1. cbn [ip_reputation set_ip_reputation]. unfold update_where. rewrite list_elem_of_fmap.
  assert (Hst : forall row0, row0 ∈ ip_reputation d2 ->
    existsb (strike_of (ip_id row0)) (ip_strikes d3) = true <-> exists s, s ∈ strikes_of (ip_id row0) d /\ stale_strike now s = false).
  { intros row0 H0. rewrite existsb_exists. change (ip_strikes d3) with (ip_strikes d2).
    assert (Hs : forall s, (In s (ip_strikes d2) /\ strike_of (ip_id row0) s = true) <-> s ∈ strikes_of (ip_id row0) d2)
      by (intros s; unfold strikes_of; by rewrite list_elem_of_In, filter_In).
    setoid_rewrite Hs. unfold d2. rewrite delete_keeps_strikes by done. unfold d1, strikes_of, delete_where.
    cbn [ip_strikes set_ip_strikes]. setoid_rewrite list_elem_of_In. setoid_rewrite filter_In. setoid_rewrite filter_In.
    setoid_rewrite negb_true_iff. naive_solver. }
  assert (Hd2 : forall row0, row0 ∈ ip_reputation d2 <-> row0 ∈ ip_reputation d /\ expired_repeat (unixMillis now) row0 = false).
  { intros row0. unfold d2, delete_ip_where. cbn [ip_reputation set_ip_strikes set_ip_reputation]. by rewrite delete_where_elem. }
  assert (Hev : forall row0, row0 ∈ ip_reputation d2 -> has_no_evidence d3 (cleared now row0) = false <-> has_evidence now d row0).
  { intros row0 H0. pose proof (Hst row0 H0) as Hs. apply Hd2 in H0 as [_ Hx]. unfold has_no_evidence, has_evidence.
    assert (ip_id (cleared now row0) = ip_id row0) as -> by (unfold cleared; by case_match).
    destruct (ip_block (cleared now row0)); [naive_solver|]. rewrite negb_false_iff, Hs. naive_solver. }
  split.
  - intros [(row0 & Heq & H0) He]. fold (cleared now row0) in Heq. exists row0. subst row. apply Hd2 in H0 as Hx.
    split_and!; [apply Hx|done|]. by apply Hev.
  - intros (row0 & H0 & -> & He). assert (H2 : row0 ∈ ip_reputation d2) by (apply Hd2; split; [done|apply He]).
    split; [exists row0; split; [done|done]|]. by apply Hev.
Qed.

Lemma pruned_strikes now d row : ip_wf d -> row ∈ ip_reputation (pruned now d) ->
  strikes_of (ip_id row) (pruned now d) = List.filter (λ s, negb (stale_strike now s)) (strikes_of (ip_id row) d).
Proof.
  intros Hw. unfold pruned. cbv zeta.
  set (d1 := set_ip_strikes _ d). assert (W1 : ip_wf d1) by (apply set_strikes_wf; [done|apply delete_where_sublist]).
  set (d2 := delete_ip_where _ d1). assert (W2 : ip_wf d2) by (by apply delete_ip_where_wf).
  set (d3 := set_ip_reputation _ d2). assert (W3 : ip_wf d3) by (by apply update_rows_wf).
  intros Hrow. rewrite delete_keeps_strikes by done.
  unfold delete_ip_where in Hrow at 1. cbn [ip_reputation set_ip_strikes set_ip_reputation] in Hrow.
  apply delete_where_elem in Hrow as [Hrow _]. change (strikes_of (ip_id row) d3) with (strikes_of (ip_id row) d2).
  unfold d3 in Hrow. cbn [ip_reputation set_ip_reputation] in Hrow. unfold update_where in Hrow.
  apply list_elem_of_fmap in Hrow as (row0 & -> & H0).
  assert (Hid : ip_id (if expired_short (unixMillis now) row0 then IPRow (ip_id row0) (ip_ip row0) None (ip_legitimate_count row0)
      (ip_last_activity_at_ms row0) else row0) = ip_id row0) by (by case_match). rewrite Hid.
  unfold d2. rewrite delete_keeps_strikes by done. unfold d1, strikes_of, delete_where. cbn [ip_strikes set_ip_strikes].
  rewrite !filter_filter. apply filter_ext_elem. intros. apply andb_comm.
Qed.
End Cleanup.

(** ** Properties *)

(** C34: The reputation tables keep their invariant: starting from an empty
    database, after any sequence of operations at any clock readings and under
    any pattern of lock contention and failure, rowids and addresses are unique,
    every strike belongs to a row, legitimate counts are not negative, and no
    address has more than [RepeatThreshold] strikes. *)
Theorem ip_tables_invariant `{NetIPText} (r : IPReputationOptions) (ops : list ip_op) (schedule : list attempt) :
  let d := wdb (ip_run r ops (MkWorld emptyDb schedule)) in
  ip_wf d /\ forall id, Z.of_nat (length (strikes_of id d)) <= Z.max 0 (RepeatThreshold r).
Proof.
  intros d. assert (Hb : strikes_bounded r d).
  { apply ip_run_bounded. split; [apply emptyDb_wf|]. intros id. cbn. lia. }
  destruct Hb as [Hw Hs]. split; [done|]. intros id. specialize (Hs id). lia.
Qed.

(** C33: [RecordRejection] implements the abstract rejection: when the clock has not
    gone backwards for this address, the call either fails and leaves every
    table as it was, or returns the block and strike count of [abs_reject],
    leaves the address in the state of [abs_reject] and changes no other
    address. *)
Theorem record_rejection_refines `{NetIPText} (r : IPReputationOptions) (addr : Addr) (now : Z) (w w' : World)
    (result : repo_error + IPBlock) (Henabled : enabled r = true) (Hvalid : isValid addr = true) (Hwf : ip_wf (wdb w))
    (Hclock : chronological (view (addr_string (CanonicalIP addr)) (wdb w)) now)
    (Hcall : RecordRejection r addr now w = (result, w')) :
  let ip := addr_string (CanonicalIP addr) in
  let '((block, count), v') := abs_reject r now (view ip (wdb w)) in
  match result with
  | inl _ => wdb w' = wdb w
  | inr b => b = MkIPBlock (CanonicalIP addr) (fst <$> block) (snd <$> block) count /\
             view ip (wdb w') = Some v' /\ (forall ip', ip' <> ip -> view ip' (wdb w') = view ip' (wdb w))
  end.
Proof.
  intros ip. unfold RecordRejection in Hcall. rewrite Henabled, Hvalid in Hcall. cbn [negb orb] in Hcall.
  pose proof (reject_body_view r (CanonicalIP addr) now (wdb w) Hwf Hclock) as Hv. cbv zeta in Hv. fold ip in Hv.
  destruct (abs_reject r now (view ip (wdb w))) as [[block count] v'].
  destruct (withTx (reject_body r (CanonicalIP addr) now) w) as [[e|[b n]] w1] eqn:E; simplify_eq.
  - by eapply retry_error.
  - apply retry_ok in E. rewrite E in Hv. destruct Hv as (Hres & Hv1 & Ho). cbn [fst snd] in *. by simplify_eq.
Qed.

Definition sample_options : IPReputationOptions :=
  MkIPReputationOptions (3600000 * millisecond) 3 (86400000 * millisecond) (604800000 * millisecond) true 2 10.
Definition sample_addr : Addr := Addr4 134744072.

Lemma record_rejection_refines_witness :
  enabled sample_options = true /\ isValid sample_addr = true /\ ip_wf emptyDb /\
  view (@addr_string raw_text sample_addr)
    (wdb (@RecordRejection raw_text sample_options sample_addr 5000000 (MkWorld emptyDb [AttemptBusy])).2)
  = Some (IPView (Some (IPBlockLevelShort, 3600005)) 0 5 [5]).
Proof.
  assert (Hw : ip_wf emptyDb) by (split; constructor).
  split; [by vm_compute|]. split; [by vm_compute|]. split; [exact Hw|].
  pose proof (@record_rejection_refines raw_text sample_options sample_addr 5000000 (MkWorld emptyDb [AttemptBusy]) _ _
    eq_refl eq_refl Hw ltac:(repeat constructor) (surjective_pairing _)) as H.
  cbv zeta in H. destruct (abs_reject sample_options 5000000 _) as [[block count] v'] eqn:E. vm_compute in E. injection E as <- <- <-.
  exact (proj1 (proj2 H)).
Defined.

(** A rejection never shortens a block: when the address has an active block,
    the block returned and stored afterwards lasts at least as long, and at
    least as long as the rejection alone would have earned. *)
Theorem rejection_never_shortens `{NetIPText} (r : IPReputationOptions) (addr : Addr) (now : Z) (w w' : World) (b : IPBlock)
    (v : ip_view) (level : IPBlockLevel) (until_ms : Z)
    (Henabled : enabled r = true) (Hvalid : isValid addr = true) (Hwf : ip_wf (wdb w))
    (Hview : view (addr_string (CanonicalIP addr)) (wdb w) = Some v) (Hblock : v_block v = Some (level, until_ms))
    (Hactive : now < timeFromMillis until_ms) (Hcall : RecordRejection r addr now w = (inr b, w')) :
  exists expires v' level', blk_ExpiresAt b = Some expires /\ timeFromMillis until_ms <= expires /\
    (forall e, earned_block r now (blk_StrikeCount b) = Some e -> e.2 <= expires) /\
    view (addr_string (CanonicalIP addr)) (wdb w') = Some v' /\ v_block v' = Some (level', unixMillis expires) /\
    until_ms <= unixMillis expires.
Proof.
  unfold RecordRejection in Hcall. rewrite Henabled, Hvalid in Hcall. cbn [negb orb] in Hcall.
  pose proof (reject_body_block r (CanonicalIP addr) now (wdb w) Hwf) as Hb. cbv zeta in Hb.
  destruct (withTx (reject_body r (CanonicalIP addr) now) w) as [[e|[block n]] w1] eqn:E; simplify_eq.
  apply retry_ok in E. rewrite E in Hb. rewrite Hview in Hb. cbn [mbind option_bind] in Hb.
  rewrite (active_not_expired now v level until_ms) in Hb by done. rewrite Hblock in Hb.
  destruct Hb as (-> & v' & Hv' & Hst).
  destruct (merged_block_keeps now level until_ms (earned_block r now n) Hactive) as (l & u & Hm & Hle & He).
  rewrite Hm in *. cbn in *. exists u, v', l. split_and!; try done.
  rewrite <- (unixMillis_timeFromMillis until_ms) at 1. by apply unixMillis_mono.
Qed.

Lemma rejection_never_shortens_witness :
  let w := (@AddManualBlock raw_text sample_options sample_addr 0 (MkWorld emptyDb [])).2 in
  exists b expires, @RecordRejection raw_text sample_options sample_addr 5000000 w =
    (inr b, (@RecordRejection raw_text sample_options sample_addr 5000000 w).2) /\
    blk_ExpiresAt b = Some expires /\ timeFromMillis 604800000 <= expires.
Proof.
  intros w. assert (Hw : ip_wf (wdb w)).
  { split; repeat (constructor || set_solver); vm_compute; repeat constructor; try set_solver; discriminate. }
  eexists. destruct (@rejection_never_shortens raw_text sample_options sample_addr 5000000 w
    (@RecordRejection raw_text sample_options sample_addr 5000000 w).2
    (MkIPBlock sample_addr (Some IPBlockLevelRepeat) (Some (timeFromMillis 604800000)) 1)
    (IPView (Some (IPBlockLevelRepeat, 604800000)) 0 0 []) IPBlockLevelRepeat 604800000
    eq_refl eq_refl Hw ltac:(by vm_compute) ltac:(by vm_compute) ltac:(by vm_compute) ltac:(by vm_compute))
    as (expires & _ & _ & He & Hle & _).
  exists expires. split; [by vm_compute|]. split; [exact He|exact Hle].
Defined.

(** Escalation: a new address that is rejected [RepeatThreshold] times within
    one window gets a short block for each rejection before the last and a
    repeat block, lasting [RepeatBlockDuration], for the last. *)
Theorem repeat_block_at_threshold `{NetIPText} (r : IPReputationOptions) (addr : Addr) (times : list Z) (final : Z) (d : Db)
    (Hwf : ip_wf d) (Hnew : view (addr_string addr) d = None)
    (Hthreshold : 0 < RepeatThreshold r) (Hshort : 0 < BlockDuration r) (Hrepeat : BlockDuration r <= RepeatBlockDuration r)
    (Hsorted : StronglySorted Z.le times) (Hlen : Z.of_nat (length times) = RepeatThreshold r)
    (Hwindow : Forall (λ t, t <= final /\ unixMillis (final - RepeatWindow r) < unixMillis t) times) :
  forall i block count, (reject_all r addr times d).1 !! i = Some (block, count) ->
    count = Z.of_nat i + 1 /\
    (count < RepeatThreshold r -> exists t, times !! i = Some t /\ block = Some (IPBlockLevelShort, t + BlockDuration r)) /\
    (count = RepeatThreshold r -> exists t, times !! i = Some t /\ block = Some (IPBlockLevelRepeat, t + RepeatBlockDuration r)).
Proof.
  intros i block count Hi.
  destruct times as [|t0 times]; [done|].
  eapply (reject_all_escalates r addr final (t0 :: times) d [] t0); try done.
  - by rewrite Hnew.
  - apply StronglySorted_inv in Hsorted as [_ Hx]. constructor; [lia|done].
  - cbn [app]. lia.
Qed.

Lemma repeat_block_at_threshold_witness :
  let res := (@reject_all raw_text sample_options sample_addr [0; 1000000; 2000000] emptyDb).1 in
  Z.of_nat (length [0; 1000000; 2000000]) = RepeatThreshold sample_options /\
  exists t, [0; 1000000; 2000000] !! 2%nat = Some t /\
    res !! 2%nat = Some (Some (IPBlockLevelRepeat, t + RepeatBlockDuration sample_options), 3).
Proof.
  intros res. split; [done|].
  assert (Hw : ip_wf emptyDb) by (split; constructor).
  assert (Hs : StronglySorted Z.le [0; 1000000; 2000000]) by (repeat constructor; lia).
  assert (Hin : Forall (λ t, t <= 2000000 /\ unixMillis (2000000 - RepeatWindow sample_options) < unixMillis t) [0; 1000000; 2000000])
    by (repeat (apply Forall_cons; split); try constructor; [lia|by vm_compute|lia|by vm_compute|lia|by vm_compute]).
  assert (Hres : res !! 2%nat = Some (Some (IPBlockLevelRepeat, 2000000 + RepeatBlockDuration sample_options), 3)) by (by vm_compute).
  destruct (@repeat_block_at_threshold raw_text sample_options sample_addr [0; 1000000; 2000000] 2000000 emptyDb Hw
    eq_refl eq_refl eq_refl ltac:(by vm_compute) Hs eq_refl Hin 2%nat _ _ Hres) as (_ & _ & H).
  destruct (H eq_refl) as (t & Ht & Hb). exists t. split; [exact Ht|]. rewrite Hres, Hb. reflexivity.
Defined.

(** Legitimate mail only ever helps, and only at the configured rate: a
    successful [RecordLegitimate] leaves an address without a current strike
    alone; otherwise it counts the message, and every [LegitimatePerStrike]-th
    one removes exactly the oldest current strike.  No block changes, the
    address is forgotten only when it has neither strikes nor an active block,
    and no other address is touched; a failed call changes nothing. *)
Theorem legitimate_mail_decay `{NetIPText} (r : IPReputationOptions) (addr : Addr) (now : Z) (w w' : World)
    (result : repo_error + unit) (Henabled : enabled r = true) (Hrate : 0 < LegitimatePerStrike r)
    (Hvalid : isValid addr = true) (Hwf : ip_wf (wdb w))
    (Hclock : forall v, view (addr_string (CanonicalIP addr)) (wdb w) = Some v -> StronglySorted Z.le (v_strikes v))
    (Hcall : RecordLegitimate r addr now w = (result, w')) :
  let ip := addr_string (CanonicalIP addr) in
  match result with
  | inl _ => wdb w' = wdb w
  | inr _ => view ip (wdb w') =
               (if hasCurrentStrike r ip now (wdb w) then view ip (wdb w) ≫= abs_legitimate r now else view ip (wdb w)) /\
             (forall ip', ip' <> ip -> view ip' (wdb w') = view ip' (wdb w))
  end.
Proof.
  intros ip. unfold RecordLegitimate in Hcall. rewrite Henabled, Hvalid in Hcall.
  replace (LegitimatePerStrike r <=? 0) with false in Hcall by lia. cbn [negb orb] in Hcall. fold ip in Hcall, Hclock.
  destruct (query (hasCurrentStrike r ip now) w) as [[e|[]] w1] eqn:E; [simplify_eq; by eapply query_db| |].
  - pose proof (query_ok _ _ _ _ E) as Hh. pose proof (query_db _ _ _ _ E) as Hd. rewrite <- Hh.
    destruct (hasCurrentStrike_view r ip now (wdb w) Hwf (eq_sym Hh)) as (Ht & Hwin & v & Hv & Hcur).
    destruct (legitimate_body_view r ip now (wdb w) v Hwf Ht Hwin Hv (Hclock v Hv) Hcur) as [Hview Hother].
    destruct (withTx (legitimate_body r ip now) w1) as [[e|u] w2] eqn:E2; cbn in Hcall; simplify_eq.
    + rewrite <- Hd. by eapply retry_error.
    + apply retry_ok in E2. rewrite Hd in E2. rewrite E2 in Hview, Hother. cbn in Hview, Hother. rewrite Hv. done.
  - pose proof (query_ok _ _ _ _ E) as Hh. pose proof (query_db _ _ _ _ E) as Hd. simplify_eq.
    rewrite <- Hh, Hd. done.
Qed.

Definition struck_world : World :=
  (@RecordRejection raw_text sample_options sample_addr 1000000
     (@RecordRejection raw_text sample_options sample_addr 0 (MkWorld emptyDb [])).2).2.

Lemma legitimate_mail_decay_witness :
  let once := (@RecordLegitimate raw_text sample_options sample_addr 2000000 struck_world).2 in
  let twice := (@RecordLegitimate raw_text sample_options sample_addr 3000000 once).2 in
  v_strikes <$> view (@addr_string raw_text sample_addr) (wdb once) = Some [0; 1] /\
  v_strikes <$> view (@addr_string raw_text sample_addr) (wdb twice) = Some [1].
Proof.
  intros once twice. split; [by vm_compute|].
  assert (Hw : ip_wf (wdb once)).
  { assert (Er : once = @ip_run raw_text sample_options
      [IPReject sample_addr 0; IPReject sample_addr 1000000; IPLegitimate sample_addr 2000000] (MkWorld emptyDb [])) by (vm_compute; reflexivity).
    rewrite Er. apply ip_run_wf. split; constructor. }
  assert (Hcall : @RecordLegitimate raw_text sample_options sample_addr 3000000 once = (inr tt, twice)) by (vm_compute; reflexivity).
  assert (Hv : exists v, view (@addr_string raw_text (CanonicalIP sample_addr)) (wdb once) = Some v /\ StronglySorted Z.le (v_strikes v))
    by (eexists; split; [vm_compute; reflexivity|repeat constructor; cbn; lia]).
  destruct Hv as (v0 & Hv0 & Hs0).
  assert (Hclock : forall v, view (@addr_string raw_text (CanonicalIP sample_addr)) (wdb once) = Some v -> StronglySorted Z.le (v_strikes v))
    by (intros v Hv; rewrite Hv0 in Hv; by injection Hv as <-).
  pose proof (proj1 (@legitimate_mail_decay raw_text sample_options sample_addr 3000000 once twice (inr tt)
    eq_refl eq_refl eq_refl Hw Hclock Hcall)) as H.
  assert (Ha : CanonicalIP sample_addr = sample_addr) by reflexivity. rewrite Ha in H. rewrite H. vm_compute. reflexivity.
Defined.

(** A delivery attempt finds exactly the active blocks and can only prolong one:
    the address is reported blocked exactly when its stored block ends after
    the current time; the stored block changes only by sliding a repeat block
    to a later expiry when refreshing is configured and gains at least a minute;
    nothing else of this address and no other address changes. *)
Theorem attempt_finds_active_block `{NetIPText} (r : IPReputationOptions) (addr : Addr) (now : Z) (w w' : World) (b : IPBlock)
    (found : bool) (Henabled : enabled r = true) (Hvalid : isValid addr = true) (Haddr : addr_wf addr) (Hwf : ip_wf (wdb w))
    (Hcall : ActiveBlockForAttempt r addr now w = (inr (b, found), w')) :
  let ip := addr_string (CanonicalIP addr) in
  (found = true <-> exists v level until, view ip (wdb w) = Some v /\ v_block v = Some (level, until) /\ unixMillis now < until) /\
  (forall ip', ip' <> ip -> view ip' (wdb w') = view ip' (wdb w)) /\
  (view ip (wdb w') = view ip (wdb w) \/
   exists v until, view ip (wdb w) = Some v /\ v_block v = Some (IPBlockLevelRepeat, until) /\ unixMillis now < until /\
     RepeatRefreshOnAttempt r = true /\ timeFromMillis until + repeatRefreshInterval <= now + RepeatBlockDuration r /\
     view ip (wdb w') = Some (IPView (Some (IPBlockLevelRepeat, unixMillis (now + RepeatBlockDuration r)))
                                (v_legitimate v) (unixMillis now) (v_strikes v)) /\
     blk_ExpiresAt b = Some (now + RepeatBlockDuration r)).
Proof.
  intros ip. unfold ActiveBlockForAttempt in Hcall. rewrite Henabled, Hvalid in Hcall. cbn [negb orb] in Hcall.
  cbv zeta in Hcall. fold ip in Hcall.
  destruct (query (readActiveBlock r ip now) w) as [[e|o] w1] eqn:E; [done|].
  pose proof (query_ok _ _ _ _ E) as Ho. pose proof (query_db _ _ _ _ E) as Hd.
  pose proof (readActiveBlock_cases r ip now (wdb w) Hwf) as Hread. rewrite <- Ho in Hread.
  assert (Hparse : parse_addr ip = Some (CanonicalIP addr)).
  { apply parse_addr_string; [by rewrite CanonicalIP_valid|by apply CanonicalIP_wf|]. apply CanonicalIP_canonical. }
  destruct Hread as [(row & level & until & Hrow & Hblk & Hact & n & ->)|[-> Hnone]].
  2: { simplify_eq. rewrite Hd. split_and!; [|done|by left]. split; [done|]. intros (v & level & until & Hv & Hb & Hlt).
       unfold view in Hv. destruct (row_of ip (wdb w)) as [row|] eqn:Er; [|done]. cbn in Hv. injection Hv as <-.
       specialize (Hnone row level until eq_refl Hb). lia. }
  rewrite Hparse in Hcall.
  assert (Hview : view ip (wdb w) = Some (row_view (wdb w) row)) by (unfold view; by rewrite Hrow).
  assert (Hfound : exists v level until, view ip (wdb w) = Some v /\ v_block v = Some (level, until) /\ unixMillis now < until)
    by (exists (row_view (wdb w) row), level, until; done).
  destruct (_ || _ || _) eqn:Ec; [simplify_eq; rewrite Hd; split_and!; [done|done|by left]|].
  apply orb_false_iff in Ec as [Ec Egap%Z.ltb_ge]. apply orb_false_iff in Ec as [Elvl Eref].
  apply negb_false_iff, bool_decide_eq_true in Elvl as ->. apply negb_false_iff in Eref.
  destruct (exec (refresh_statement r ip now) w1) as [[e|updated] w2] eqn:E2; simplify_eq.
  apply retry_ok in E2. rewrite Hd in E2.
  assert (Hrefr : refreshable r ip now row = true).
  { unfold refreshable. apply row_of_ip in Hrow as [Hip _]. apply has_ip_true in Hip. rewrite Hip, Hblk. cbn [andb].
    apply andb_true_iff. split; [by apply Z.ltb_lt|]. apply Z.leb_le.
    rewrite <- (unixMillis_timeFromMillis until). apply unixMillis_mono. lia. }
  destruct (refresh_statement_view r ip now (wdb w) row Hwf Hrow Hrefr) as (Hpos & Hnew & Hother).
  rewrite E2 in Hpos, Hnew, Hother. cbn [fst snd] in *. split_and!; [done|done|].
  right. exists (row_view (wdb w) row), until. split_and!; try done; [lia|].
  apply Z.eqb_neq in Hpos. by rewrite Hpos.
Qed.

Lemma attempt_finds_active_block_witness :
  let w := (@AddManualBlock raw_text sample_options sample_addr 0 (MkWorld emptyDb [])).2 in
  let now := 3600000 * millisecond in
  exists b w', @ActiveBlockForAttempt raw_text sample_options sample_addr now w = (inr (b, true), w') /\
    (exists v level until, view (@addr_string raw_text (CanonicalIP sample_addr)) (wdb w) = Some v /\
       v_block v = Some (level, until) /\ unixMillis now < until).
Proof.
  intros w now. assert (Hw : ip_wf (wdb w)).
  { assert (Er : w = @ip_run raw_text sample_options [IPManual sample_addr 0] (MkWorld emptyDb [])) by (vm_compute; reflexivity).
    rewrite Er. apply ip_run_wf. split; constructor. }
  do 2 eexists.
  assert (Hcall : @ActiveBlockForAttempt raw_text sample_options sample_addr now w =
    (inr (MkIPBlock sample_addr (Some IPBlockLevelRepeat) (Some (now + RepeatBlockDuration sample_options)) 0, true),
     (@ActiveBlockForAttempt raw_text sample_options sample_addr now w).2)) by (by vm_compute).
  split; [exact Hcall|].
  destruct (@attempt_finds_active_block raw_text sample_options sample_addr now w _ _ _ eq_refl eq_refl
    ltac:(by vm_compute) Hw Hcall) as [Hf _].
  exact (proj1 Hf eq_refl).
Defined.

(** Maintenance keeps the tables small without losing what matters: after a
    successful [Cleanup] there are at most [IPMaxEntries] addresses; every one
    of them has an active block or a current strike, and no strike outside the
    window is left; an address with such evidence is dropped only when the
    limit is reached, and then only if it comes before every address that is
    kept, in the order: no block, short block, repeat block, then least
    recently active. *)
Theorem cleanup_capacity_and_evidence (r : IPReputationOptions) (now : Z) (w w' : World) (n : Z)
    (Henabled : enabled r = true) (Hwf : ip_wf (wdb w)) (Hcall : Cleanup r now w = (inr n, w')) :
  let d := wdb w in let d' := wdb w' in
  Z.of_nat (length (ip_reputation d')) <= IPMaxEntries r /\
  (forall a, a ∈ ip_reputation d' ->
     match ip_block a with
     | Some (_, until) => unixMillis now < until
     | None => strikes_of (ip_id a) d' <> []
     end /\ Forall (λ s, stale_strike r now s = false) (strikes_of (ip_id a) d')) /\
  (forall b, b ∈ ip_reputation d -> has_evidence r now d b -> cleared now b ∉ ip_reputation d' ->
     Z.of_nat (length (ip_reputation d')) = IPMaxEntries r /\
     forall a, a ∈ ip_reputation d' -> evict_le (cleared now b) a).
Proof.
  intros d d'. unfold Cleanup in Hcall. rewrite Henabled in Hcall. cbn [negb] in Hcall.
  destruct (withTx (cleanup_body r now) w) as [[e|k] w1] eqn:E; cbn in Hcall; simplify_eq. apply retry_ok in E.
  assert (Hd' : d' = (enforceCapacityTx r (pruned r now d)).2) by (rewrite <- cleanup_body_pruned; unfold d, d'; by rewrite E).
  pose proof (pruned_wf r now d Hwf) as Hwp.
  assert (Hmax : 0 <= IPMaxEntries r) by (unfold enabled in Henabled; apply andb_true_iff in Henabled as [Hm%Z.ltb_lt _]; lia).
  pose proof (enforceCapacityTx_spec r (pruned r now d) Hmax (wf_ids _ Hwp)) as Hcap.
  pose proof (enforceCapacityTx_strikes r (pruned r now d)) as Hkeep. rewrite <- Hd' in Hkeep.
  destruct (enforceCapacityTx r (pruned r now d)) as [total d5]. cbn [snd] in Hd'. subst d5.
  destruct Hcap as (Hsub & Hlen & _ & Hord).
  split_and!; [lia| |].
  - intros a Ha. assert (Hap : a ∈ ip_reputation (pruned r now d)) by (by eapply elem_of_sublist).
    rewrite (Hkeep a Hwp Ha), pruned_strikes by done. split.
    + apply pruned_rows in Hap as (b & Hb & -> & Hnx & Hev); [|done].
      unfold cleared in *. destruct (expired_short (unixMillis now) b) eqn:Es.
      * cbn in *. destruct Hev as [|(s & Hs & Hst)]; [done|]. intros Hnil.
        assert (Hel : s ∈ List.filter (λ s, negb (stale_strike r now s)) (strikes_of (ip_id b) d))
          by (apply list_elem_of_In, filter_In; split; [by apply list_elem_of_In|by rewrite Hst]).
        rewrite Hnil in Hel. by apply not_elem_of_nil in Hel.
      * unfold expired_short, expired_repeat in *. destruct (ip_block b) as [[[] until]|]; [lia..|].
        destruct Hev as [|(s & Hs & Hst)]; [done|]. intros Hnil.
        assert (Hel : s ∈ List.filter (λ s, negb (stale_strike r now s)) (strikes_of (ip_id b) d))
          by (apply list_elem_of_In, filter_In; split; [by apply list_elem_of_In|by rewrite Hst]).
        rewrite Hnil in Hel. by apply not_elem_of_nil in Hel.
    + apply Forall_forall. intros s Hs. apply list_elem_of_In, filter_In in Hs as [_ Hs]. by apply negb_true_iff.
  - intros b Hb Hev Hout. assert (Hbp : cleared now b ∈ ip_reputation (pruned r now d)) by (apply pruned_rows; [done|by exists b]).
    split; [|intros a Ha; by apply Hord].
    assert (Hlt : (length (ip_reputation d') < length (ip_reputation (pruned r now d)))%nat); [|lia].
    apply sublist_length in Hsub as Hle. destruct (decide (length (ip_reputation d') = length (ip_reputation (pruned r now d)))) as [He|]; [|lia].
    exfalso. apply Hout. enough (ip_reputation d' = ip_reputation (pruned r now d)) as -> by done.
    by apply sublist_same_length.
Qed.

Definition tight_options : IPReputationOptions :=
  MkIPReputationOptions (3600000 * millisecond) 3 (86400000 * millisecond) (604800000 * millisecond) true 2 1.

Lemma cleanup_capacity_and_evidence_witness :
  let w := (@RecordRejection raw_text tight_options (Addr4 16843009) 9000000 struck_world).2 in
  exists n w', Cleanup tight_options 9000000 w = (inr n, w') /\ Z.of_nat (length (ip_reputation (wdb w))) = 2 /\
    Z.of_nat (length (ip_reputation (wdb w'))) <= 1.
Proof.
  intros w. assert (Hw : ip_wf (wdb w)).
  { assert (Er : w = @ip_run raw_text tight_options
      [IPReject sample_addr 0; IPReject sample_addr 1000000; IPReject (Addr4 16843009) 9000000] (MkWorld emptyDb [])) by (vm_compute; reflexivity).
    rewrite Er. apply ip_run_wf. split; constructor. }
  exists 1, (Cleanup tight_options 9000000 w).2.
  assert (Hcall : Cleanup tight_options 9000000 w = (inr 1, (Cleanup tight_options 9000000 w).2)) by (by vm_compute).
  split; [exact Hcall|]. split; [by vm_compute|].
  exact (proj1 (cleanup_capacity_and_evidence tight_options 9000000 w _ 1 eq_refl Hw Hcall)).
Defined.
