(* ===== verification/IPAllowlist.v ===== *)
(** * The sending-IP allowlist (internal/milter/ip_reputation.go)

    The policy object around the IP repository: its configuration, the
    addresses it protects, and the methods that administration commands use,
    which consult the allowlist before the repository. *)
From S2P Require Import Prelude GoText NetSafety MailAddr SqlDb IPReputation.
Import NetSafety.

Record ipReputationStore := MkIPReputationStore {
  enabledFeature : bool;
  ip_rejectMessage : gostring;
  allowlist : list Prefix;
  domainAllowlist : list gostring;
}.

Record IPReputationConfig := MkIPReputationConfig {
  cfg_MaxEntries : Z;
  cfg_BlockDuration : Z;
  cfg_RepeatThreshold : Z;
  cfg_RejectMessage : gostring;
  cfg_IPAllowlist : list gostring;
  cfg_DomainAllowlist : list gostring;
}.

Definition ipReputationFeaturesEnabled (cfg : IPReputationConfig) : bool :=
  (0 <? cfg_MaxEntries cfg) && ((0 <? cfg_BlockDuration cfg) || (0 <? cfg_RepeatThreshold cfg)).

Definition newIPReputationStore `{UnicodeTables, NetIPText} (cfg : IPReputationConfig) : ipReputationStore :=
  MkIPReputationStore (ipReputationFeaturesEnabled cfg) (cfg_RejectMessage cfg)
    (cfg_IPAllowlist cfg ≫= λ entry, match ParseIPPrefix entry with Some p => [p] | None => [] end)
    (DNSHostname <$> cfg_DomainAllowlist cfg).

Definition allowed (s : ipReputationStore) (addr : Addr) : bool :=
  if negb (isValid addr) then true
  else existsb (λ prefix, prefix_contains prefix (CanonicalIP addr)) (allowlist s).

(** ** Administration *)

Section Admin.
Context `{NetIPText} (r : IPReputationOptions) (s : ipReputationStore).

Definition ip_AddManualBlock (addr : Addr) (now : Z) (w : World) : (repo_error + IPBlock) * World :=
  if negb (enabledFeature s) || negb (isValid addr) then (inl RepoDisabled, w)
  else
    let addr := CanonicalIP addr in
    if allowed s addr then (inl RepoInvalid, w) else AddManualBlock r addr now w.

Definition ip_Delete (addr : Addr) (w : World) : (repo_error + bool) * World :=
  if negb (enabledFeature s) then (inl RepoDisabled, w) else Delete (CanonicalIP addr) w.

Definition ip_ListActiveBlocks (limit : Z) (activeSince : option Z) (now : Z) (w : World) : (repo_error + (list IPBlock * bool)) * World :=
  if negb (enabledFeature s) then (inr ([], false), w) else ListActiveBlocks r limit activeSince now w.
End Admin.
