(* ===== verification/Correspondents.v ===== *)
(** * Known correspondents (internal/stores/sqlite/correspondents*.go)

    The learned and manual allowlist: relations between a local address and a
    remote mailbox, in the table [correspondents] of [SqlDb].  Every method of
    the repository is a definition whose statements run in the order of the
    code; [now] is the value of the injected clock.  The policy that turns a
    classification into an action is internal/stores/correspondent_policy.go.

    Scores are finite float64 values, which are rationals; the code only
    compares them, so they are [Q] here.  The candidate events that a
    classification logs are returned by [RecordInboundClassification]. *)
From Stdlib Require Import QArith.
From S2P Require Import Prelude GoText NetSafety MailAddr SqlDb IPReputation.
Open Scope Z_scope.

(** ** Helpers of common.go and queries.go *)

Section Common.
Context `{UnicodeTables, NetMail}.

(** A [map[string]bool] filled in order: its keys, without duplicates. *)
Definition add_address (maximum : nat) (result : list gostring) (value : gostring) : list gostring :=
  if bool_decide (maximum <= length result)%nat then result
  else
    let value := Normalize value in
    if beq value [] || bool_decide (value ∈ result) then result else result ++ [value].
Definition normalizedAddressSet (values : list gostring) (maximum : nat) : list gostring :=
  fold_left (add_address maximum) values [].

Definition sortedSet (values : list gostring) : list gostring := merge_sort bytes_le values.
End Common.

Record RecipientScope := MkRecipientScope { rs_All : bool; rs_Address : gostring }.
(** [RecipientScope.Validate]: whether the scope is accepted. *)
Definition Validate `{UnicodeTables} (s : RecipientScope) : bool :=
  if rs_All s && negb (beq (trimSpace (rs_Address s)) []) then false
  else if negb (rs_All s) && beq (trimSpace (rs_Address s)) [] then false
  else true.

(** ** The learning policy *)

Inductive InboundVerdict := InboundVerdictLegitimate | InboundVerdictUnwanted | InboundVerdictOther (s : gostring).
Inductive InboundLearningAction :=
  | InboundLearningIgnore | InboundLearningRefresh | InboundLearningAdvance | InboundLearningRemove.
#[export] Instance InboundLearningAction_eq_dec : EqDecision InboundLearningAction.
Proof. solve_decision. Defined.

Record InboundClassification := MkInboundClassification {
  ic_Correspondent : gostring;
  ic_Recipients : list gostring;
  ic_RecipientsComplete : bool;
  ic_Verdict : InboundVerdict;
  ic_Score : Q;
  ic_UnwantedMinScore : Q;
  ic_AuthenticationSatisfied : bool;
}.
Record InboundLearningPolicy := MkInboundLearningPolicy {
  lp_LearnLegitimateSenders : bool;
  lp_LegitimateMinScore : Q;
  lp_RequireAuthentication : bool;
}.

Definition DecideInboundLearning (policy : InboundLearningPolicy) (input : InboundClassification)
    : repo_error + InboundLearningAction :=
  match ic_Verdict input with
  | InboundVerdictUnwanted =>
      if ic_AuthenticationSatisfied input && Qle_bool (ic_UnwantedMinScore input) (ic_Score input)
      then inr InboundLearningRemove else inr InboundLearningIgnore
  | InboundVerdictLegitimate =>
      if lp_LearnLegitimateSenders policy && Qle_bool (lp_LegitimateMinScore policy) (ic_Score input)
         && (negb (lp_RequireAuthentication policy) || ic_AuthenticationSatisfied input)
      then inr InboundLearningAdvance else inr InboundLearningRefresh
  | InboundVerdictOther _ => inl RepoBadVerdict
  end.

(** ** The repository *)

Inductive CorrespondentScope := CorrespondentScopeGlobal | CorrespondentScopePerSender | CorrespondentScopeOther (s : gostring).

Record CorrespondentOptions := MkCorrespondentOptions {
  LearnAuthenticatedRecipients : bool;
  LearnLegitimateSenders : bool;
  UseAllowlist : bool;
  Scope : CorrespondentScope;
  CorrMaxEntries : Z;
  StaleAfter : Z;
  LegitimateSenderMinScore : Q;
  LegitimateSenderMinMessages : Z;
  LegitimateSenderRequireAuthentication : bool;
}.

Record candidateEvent := MkCandidateEvent { ev_recipient : gostring; ev_count : Z; ev_promoted : bool }.

Record CorrespondentMatch := MkCorrespondentMatch {
  cm_Known : bool;
  cm_AllRecipientsMatched : bool;
  cm_Kinds : list CorrespondentKind;
}.
Definition noMatch : CorrespondentMatch := MkCorrespondentMatch false false [].

Definition maxCorrespondentRecipients : nat := 100.

(** [sender_list_conflicts.go] *)
Definition exact_block_of (recipient : gostring) (senders : list gostring) (b : sblock_row) : bool :=
  beq (sb_recipient b) recipient && bool_decide (sb_sender_kind b = SenderBlockExactMailbox)
  && bool_decide (sb_sender_value b ∈ senders).
Definition deleteExactSenderBlocksTx (recipient : gostring) (senders : list gostring) (d : Db) : Db :=
  match senders with
  | [] => d
  | _ => set_sender_blocklist (delete_where (exact_block_of recipient senders) (sender_blocklist d)) d
  end.
Definition contradicted (recipient sender : gostring) (c : corr_row) : bool :=
  beq (co_correspondent c) sender && (beq recipient (lit "*") || beq (co_local_address c) recipient).
Definition deleteCorrespondentsForExactBlockTx (recipient sender : gostring) (d : Db) : Db :=
  set_correspondents (delete_where (contradicted recipient sender) (correspondents d)) d.

(** The unique key of the table. *)
Definition relation (local correspondent : gostring) (c : corr_row) : bool :=
  beq (co_local_address c) local && beq (co_correspondent c) correspondent.
Definition set_activity (now_ms : Z) (c : corr_row) : corr_row :=
  CorrRow (co_id c) (co_local_address c) (co_correspondent c) (co_learned_at_ms c) now_ms
    (co_whitelist_type c) (co_legitimate_email_count c).
Definition set_kind (kind : CorrespondentKind) (count now_ms : Z) (c : corr_row) : corr_row :=
  CorrRow (co_id c) (co_local_address c) (co_correspondent c) (co_learned_at_ms c) now_ms kind count.
Definition bump (now_ms : Z) (c : corr_row) : corr_row :=
  set_kind (co_whitelist_type c) (co_legitimate_email_count c + 1) now_ms c.

(** [INSERT ... ON CONFLICT(local_address, correspondent) DO NOTHING] of one
    row; the inserted rows are collected in the first component. *)
Definition insert_absent (kind : CorrespondentKind) (count now_ms : Z)
    (acc : list corr_row * list corr_row) (key : gostring * gostring) : list corr_row * list corr_row :=
  let '(inserted, rows) := acc in
  if existsb (relation key.1 key.2) rows then (inserted, rows)
  else
    let row := CorrRow (next_id co_id rows) key.1 key.2 now_ms now_ms kind count in
    (inserted ++ [row], rows ++ [row]).
Definition insert_relations (kind : CorrespondentKind) (count now_ms : Z) (keys : list (gostring * gostring))
    (rows : list corr_row) : list corr_row * list corr_row :=
  fold_left (insert_absent kind count now_ms) keys ([], rows).

Module Correspondents.
Section Correspondents.
Context `{UnicodeTables, NetMail} (r : CorrespondentOptions).

Definition validateScope : bool :=
  match Scope r with
  | CorrespondentScopeGlobal | CorrespondentScopePerSender => true
  | CorrespondentScopeOther _ => false
  end.
Definition perSender : bool := match Scope r with CorrespondentScopePerSender => true | _ => false end.

Definition staleCutoff (now : Z) : option Z :=
  if StaleAfter r <=? 0 then None else Some (unixMillis (now - StaleAfter r)).
Definition stale (now : Z) (c : corr_row) : bool :=
  match staleCutoff now with Some cutoff => co_last_activity_at_ms c <? cutoff | None => false end.

Definition qualifiedFragment (c : corr_row) : bool :=
  match co_whitelist_type c with
  | CorrespondentKindAuthenticatedOutbound | CorrespondentKindManual => true
  | CorrespondentKindRepeatedLegitimateInbound => LegitimateSenderMinMessages r <=? co_legitimate_email_count c
  end.
Definition qualifiedActiveFragment (now : Z) (c : corr_row) : bool :=
  qualifiedFragment c &&
  match staleCutoff now with Some cutoff => cutoff <=? co_last_activity_at_ms c | None => true end.

Definition is_manual (c : corr_row) : bool := bool_decide (co_whitelist_type c = CorrespondentKindManual).
Definition is_inbound (c : corr_row) : bool := bool_decide (co_whitelist_type c = CorrespondentKindRepeatedLegitimateInbound).

(** ** LearnAuthenticated *)

Definition outbound_target (local : gostring) (recipients : list gostring) (c : corr_row) : bool :=
  beq (co_local_address c) local && bool_decide (co_correspondent c ∈ recipients).

(** The statements of the transaction; the result is the number of new rows. *)
Definition learn_body (local : gostring) (recipients : list gostring) (now : Z) (d : Db) : Z * Db :=
  let target := outbound_target local recipients in
  let d := deleteExactSenderBlocksTx local recipients d in
  let rows := delete_where (λ c, target c && stale now c) (correspondents d) in
  let rows := update_where (λ c, target c && negb (is_manual c))
                (set_kind CorrespondentKindAuthenticatedOutbound 0 (unixMillis now)) rows in
  let rows := update_where (λ c, target c && is_manual c) (set_activity (unixMillis now)) rows in
  let '(inserted, rows) := insert_relations CorrespondentKindAuthenticatedOutbound 0 (unixMillis now)
                             ((λ recipient, (local, recipient)) <$> recipients) rows in
  (Z.of_nat (length inserted), set_correspondents rows d).

Definition LearnAuthenticated (localAddress : gostring) (recipients : list gostring) (now : Z) (w : World)
    : (repo_error + unit) * World :=
  if negb (LearnAuthenticatedRecipients r) then (inr tt, w)
  else if negb validateScope then (inl RepoBadScope, w)
  else
    let localAddress := Normalize localAddress in
    if beq localAddress [] then (inl RepoBadSender, w)
    else
      let unique := normalizedAddressSet recipients maxCorrespondentRecipients in
      if bool_decide (unique = []) then (inr tt, w)
      else match withTx (learn_body localAddress (sortedSet unique) now) w with
           | (inl e, w) => (inl (RepoDb e), w)
           | (inr _, w) => (inr tt, w)
           end.

(** ** TouchInbound *)

Definition touch_statement (correspondent : gostring) (addresses : option (list gostring)) (now : Z) (d : Db) : unit * Db :=
  (tt, set_correspondents (update_where (λ c,
         beq (co_correspondent c) correspondent && qualifiedActiveFragment now c &&
         match addresses with Some l => bool_decide (co_local_address c ∈ l) | None => true end)
         (set_activity (unixMillis now)) (correspondents d)) d).

Definition TouchInbound (correspondent : gostring) (recipients : list gostring) (now : Z) (w : World)
    : (repo_error + unit) * World :=
  if negb (UseAllowlist r) then (inr tt, w)
  else if negb validateScope then (inl RepoBadScope, w)
  else if beq correspondent [] then (inr tt, w)
  else if perSender then
    let addresses := sortedSet (normalizedAddressSet recipients maxCorrespondentRecipients) in
    if bool_decide (addresses = []) then (inr tt, w)
    else lift_db (exec (touch_statement correspondent (Some addresses) now) w)
  else lift_db (exec (touch_statement correspondent None now) w).

(** ** RecordInboundClassification *)

Definition inbound_target (correspondent : gostring) (recipients : list gostring) (c : corr_row) : bool :=
  beq (co_correspondent c) correspondent && bool_decide (co_local_address c ∈ recipients).

Definition scanCandidateEvents (rows : list corr_row) (promotionCount : Z) : list candidateEvent :=
  (λ c, MkCandidateEvent (co_local_address c) (co_legitimate_email_count c)
          (promotionCount <=? co_legitimate_email_count c)) <$> rows.

Definition advanceable (correspondent : gostring) (recipients : list gostring) (c : corr_row) : bool :=
  inbound_target correspondent recipients c && is_inbound c
  && (co_legitimate_email_count c <? LegitimateSenderMinMessages r).

Definition classification_body (advance : bool) (correspondent : gostring) (recipients : list gostring) (now : Z) (d : Db)
    : list candidateEvent * Db :=
  let target := inbound_target correspondent recipients in
  let now_ms := unixMillis now in
  let rows := delete_where (λ c, target c && stale now c) (correspondents d) in
  let updated := if advance then bump now_ms <$> List.filter (advanceable correspondent recipients) rows else [] in
  let rows := if advance then update_where (advanceable correspondent recipients) (bump now_ms) rows else rows in
  let rows := update_where (λ c, target c && qualifiedFragment c && negb (co_last_activity_at_ms c =? now_ms))
                (set_activity now_ms) rows in
  let '(inserted, rows) :=
    if advance then insert_relations CorrespondentKindRepeatedLegitimateInbound 1 now_ms
                      ((λ recipient, (recipient, correspondent)) <$> recipients) rows
    else ([], rows) in
  (scanCandidateEvents (updated ++ inserted) (LegitimateSenderMinMessages r), set_correspondents rows d).

Definition removable (correspondent : gostring) (recipients : list gostring) (c : corr_row) : bool :=
  beq (co_correspondent c) correspondent && is_inbound c &&
  (if perSender then bool_decide (co_local_address c ∈ recipients) else true).
Definition remove_statement (correspondent : gostring) (recipients : list gostring) (d : Db) : Z * Db :=
  (count_where (removable correspondent recipients) (correspondents d),
   set_correspondents (delete_where (removable correspondent recipients) (correspondents d)) d).

Definition learningPolicy : InboundLearningPolicy :=
  MkInboundLearningPolicy (LearnLegitimateSenders r) (LegitimateSenderMinScore r) (LegitimateSenderRequireAuthentication r).

Definition event_le (a b : candidateEvent) : Prop := bytes_le (ev_recipient a) (ev_recipient b).
#[global] Instance event_le_dec a b : Decision (event_le a b).
Proof. unfold event_le. apply _. Defined.

Definition RecordInboundClassification (input : InboundClassification) (now : Z) (w : World)
    : (repo_error + list candidateEvent) * World :=
  if negb (ic_RecipientsComplete input) then (inr [], w)
  else if negb validateScope then (inl RepoBadScope, w)
  else
    let correspondent := ic_Correspondent input in
    let recipientSet := normalizedAddressSet (ic_Recipients input) maxCorrespondentRecipients in
    if beq correspondent [] || bool_decide (recipientSet = []) then (inr [], w)
    else
      let recipientList := sortedSet recipientSet in
      match DecideInboundLearning learningPolicy input with
      | inl e => (inl e, w)
      | inr InboundLearningIgnore => (inr [], w)
      | inr InboundLearningRemove =>
          match exec (remove_statement correspondent recipientList) w with
          | (inl e, w) => (inl (RepoDb e), w)
          | (inr _, w) => (inr [], w)
          end
      | inr action =>
          let advance := bool_decide (action = InboundLearningAdvance) in
          match withTx (classification_body advance correspondent recipientList now) w with
          | (inl e, w) => (inl (RepoDb e), w)
          | (inr events, w) => (inr (merge_sort event_le events), w)
          end
      end.

(** ** Match *)

Definition has_kind (kind : CorrespondentKind) (rows : list corr_row) : bool :=
  existsb (λ c, bool_decide (co_whitelist_type c = kind)) rows.

(** [queryMatch] over the rows its WHERE clause selects. *)
Definition queryMatch (where_ : corr_row -> bool) (d : Db) : CorrespondentMatch * Z :=
  let rows := List.filter where_ (correspondents d) in
  let matchedRecipients := Z.of_nat (length (remove_dups (co_local_address <$> rows))) in
  (MkCorrespondentMatch (0 <? matchedRecipients) false
     ((if has_kind CorrespondentKindAuthenticatedOutbound rows then [CorrespondentKindAuthenticatedOutbound] else []) ++
      (if has_kind CorrespondentKindRepeatedLegitimateInbound rows then [CorrespondentKindRepeatedLegitimateInbound] else []) ++
      (if has_kind CorrespondentKindManual rows then [CorrespondentKindManual] else [])),
   matchedRecipients).

Definition Match (correspondent : gostring) (recipients : list gostring) (now : Z) (w : World)
    : (repo_error + CorrespondentMatch) * World :=
  if negb (UseAllowlist r) then (inr noMatch, w)
  else if beq correspondent [] then (inr noMatch, w)
  else if negb validateScope then (inl RepoBadScope, w)
  else
    let filter c := beq (co_correspondent c) correspondent && qualifiedActiveFragment now c in
    if negb perSender then
      match query (queryMatch filter) w with
      | (inl e, w) => (inl (RepoDb e), w)
      | (inr (m, _), w) => (inr (MkCorrespondentMatch (cm_Known m) (cm_Known m) (cm_Kinds m)), w)
      end
    else
      let addresses := sortedSet (normalizedAddressSet recipients maxCorrespondentRecipients) in
      if bool_decide (addresses = []) then (inr noMatch, w)
      else
        match query (queryMatch (λ c, filter c && bool_decide (co_local_address c ∈ addresses))) w with
        | (inl e, w) => (inl (RepoDb e), w)
        | (inr (m, matchedRecipients), w) =>
            (inr (MkCorrespondentMatch (cm_Known m) (matchedRecipients =? Z.of_nat (length addresses)) (cm_Kinds m)), w)
        end.

(** ** Listing and administration *)

(** [ORDER BY last_activity_at_ms DESC, local_address, correspondent] *)
Definition listing_le (a b : corr_row) : Prop :=
  co_last_activity_at_ms b < co_last_activity_at_ms a \/
  co_last_activity_at_ms a = co_last_activity_at_ms b /\
    (co_local_address a <> co_local_address b /\ bytes_le (co_local_address a) (co_local_address b) \/
     co_local_address a = co_local_address b /\ bytes_le (co_correspondent a) (co_correspondent b)).
#[global] Instance listing_le_dec a b : Decision (listing_le a b).
Proof. unfold listing_le. apply _. Defined.

(** [scanCorrespondent] *)
Record Correspondent := MkCorrespondent {
  ce_ID : Z;
  ce_LocalAddress : gostring;
  ce_Correspondent : gostring;
  ce_LearnedAt : Z;
  ce_LastActivityAt : Z;
  ce_CorrespondentType : CorrespondentKind;
  ce_LegitimateEmailCount : Z;
}.
Definition scanCorrespondent (c : corr_row) : Correspondent :=
  MkCorrespondent (co_id c) (co_local_address c) (co_correspondent c) (timeFromMillis (co_learned_at_ms c))
    (timeFromMillis (co_last_activity_at_ms c)) (co_whitelist_type c) (co_legitimate_email_count c).

Definition ListCorrespondents (scope : RecipientScope) (activeSince : option Z) (limit now : Z) (w : World)
    : (repo_error + (list Correspondent * bool)) * World :=
  if negb (Validate scope) then (inl RepoBadScope, w)
  else if limit <? 1 then (inl RepoBadLimit, w)
  else
    let recipient := if rs_All scope then rs_Address scope else Normalize (rs_Address scope) in
    if negb (rs_All scope) && beq recipient [] then (inr ([], false), w)
    else
      match query (λ d, take (Z.to_nat (limit + 1)) (merge_sort listing_le (List.filter (λ c,
                     qualifiedActiveFragment now c &&
                     match activeSince with Some since => unixMillis since <=? co_last_activity_at_ms c | None => true end &&
                     (rs_All scope || beq (co_local_address c) recipient)) (correspondents d)))) w with
      | (inl e, w) => (inl (RepoDb e), w)
      | (inr rows, w) => (inr (limitedPage (scanCorrespondent <$> rows) limit), w)
      end.

Definition unqualified (c : corr_row) : bool :=
  is_inbound c && (co_legitimate_email_count c <? LegitimateSenderMinMessages r).

Definition enforceCapacityTx (d : Db) : Z * Db :=
  let excess := capacity_excess (correspondents d) (CorrMaxEntries r) in
  if excess =? 0 then (0, d)
  else
    let ids := first_ids co_last_activity_at_ms co_id (Z.to_nat excess) (List.filter unqualified (correspondents d)) in
    let removed := count_where (id_in co_id ids) (correspondents d) in
    let d := set_correspondents (delete_where (id_in co_id ids) (correspondents d)) d in
    if excess <=? removed then (removed, d)
    else
      let ids := first_ids co_last_activity_at_ms co_id (Z.to_nat (excess - removed)) (correspondents d) in
      let remainingRemoved := count_where (id_in co_id ids) (correspondents d) in
      (removed + remainingRemoved, set_correspondents (delete_where (id_in co_id ids) (correspondents d)) d).

Definition cleanup_body (now : Z) (d : Db) : Z * Db :=
  let '(attemptDeleted, d) :=
    match staleCutoff now with
    | Some cutoff => (count_where (stale now) (correspondents d),
                      set_correspondents (delete_where (stale now) (correspondents d)) d)
    | None => (0, d)
    end in
  let '(removed, d) := enforceCapacityTx d in
  (attemptDeleted + removed, d).

Definition Cleanup (now : Z) (w : World) : (repo_error + Z) * World := lift_db (withTx (cleanup_body now) w).
Definition Count (w : World) : (repo_error + Z) * World :=
  lift_db (query (λ d, Z.of_nat (length (correspondents d))) w).

Definition manual_body (sender recipient : gostring) (now : Z) (d : Db) : bool * Db :=
  let d := deleteExactSenderBlocksTx recipient [sender] d in
  let rows := correspondents d in
  let exists_ := existsb (relation recipient sender) rows in
  (negb exists_,
   set_correspondents
     (if exists_ then update_where (relation recipient sender) (set_kind CorrespondentKindManual 0 (unixMillis now)) rows
      else rows ++ [CorrRow (next_id co_id rows) recipient sender (unixMillis now) (unixMillis now) CorrespondentKindManual 0]) d).

Definition AddManual (sender recipient : gostring) (now : Z) (w : World) : (repo_error + bool) * World :=
  if negb (UseAllowlist r) then (inl RepoDisabled, w)
  else
    let sender := Normalize sender in
    let recipient := Normalize recipient in
    if beq sender [] || beq recipient [] then (inl RepoInvalid, w)
    else lift_db (withTx (manual_body sender recipient now) w).

Definition DeleteCorrespondent (sender : gostring) (scope : RecipientScope) (w : World) : (repo_error + Z) * World :=
  if negb (UseAllowlist r) then (inl RepoDisabled, w)
  else
    let sender := Normalize sender in
    if beq sender [] then (inl RepoBadSender, w)
    else if negb (Validate scope) then (inl RepoBadScope, w)
    else
      let recipient := Normalize (rs_Address scope) in
      if negb (rs_All scope) && beq recipient [] then (inl RepoInvalid, w)
      else
        let p c := beq (co_correspondent c) sender && (rs_All scope || beq (co_local_address c) recipient) in
        lift_db (exec (λ d, (count_where p (correspondents d),
                             set_correspondents (delete_where p (correspondents d)) d)) w).
End Correspondents.
End Correspondents.
