(* ===== verification/SenderBlocklist.v ===== *)
(** * The sender blocklist (internal/stores/sqlite/sender_blocklist.go)

    Manual blocks of a mailbox or a domain, for one recipient or for all
    (recipient "*"), with expiry and a capacity limit, over the table
    [sender_blocklist] of [SqlDb]. *)
From S2P Require Import Prelude GoText NetSafety MailAddr SqlDb IPReputation Correspondents.

Definition maxSenderBlockAddresses : nat := 100.

Record SenderBlocklistOptions := MkSenderBlocklistOptions { BlockExpiry : Z; BlockMaxEntries : Z }.

(** [stores.SenderBlockEntry]; a kind outside the two constants is [None]. *)
Record SenderBlockEntry := MkSenderBlockEntry {
  se_ID : Z;
  se_Recipient : gostring;
  se_SenderKind : option SenderBlockKind;
  se_SenderValue : gostring;
  se_ExpiresAt : option Z;
}.

Record SenderBlockMatch := MkSenderBlockMatch {
  sm_BlockedRecipients : list gostring;
  sm_MatchedSender : gostring;
  sm_MatchedKind : option SenderBlockKind;
}.
Definition noSenderMatch : SenderBlockMatch := MkSenderBlockMatch [] [] None.

Definition star : gostring := lit "*".

(** The unique key of the table. *)
Definition same_block (recipient : gostring) (kind : SenderBlockKind) (value : gostring) (b : sblock_row) : bool :=
  beq (sb_recipient b) recipient && bool_decide (sb_sender_kind b = kind) && beq (sb_sender_value b) value.

Module SenderBlocklist.
Section SenderBlocklist.
Context `{UnicodeTables, NetMail} (r : SenderBlocklistOptions).

Definition available : bool := 0 <? BlockExpiry r.

Definition normalizeSenderBlock (recipient : gostring) (kind : option SenderBlockKind) (value : gostring)
    : option (gostring * SenderBlockKind * gostring) :=
  let recipient := if beq (trimSpace recipient) star then star else Normalize recipient in
  if beq recipient [] then None
  else
    match kind with
    | Some SenderBlockExactMailbox =>
        let value := Normalize value in
        if beq value [] then None else Some (recipient, SenderBlockExactMailbox, value)
    | Some SenderBlockDomain =>
        let value := trimSuffix (toLower (trimSpace value)) (lit ".") in
        if negb (beq (Domain (lit "x@" ++ value)) value) then None else Some (recipient, SenderBlockDomain, value)
    | None => None
    end.

(** ** AddSenderBlock *)

Definition add_body (recipient : gostring) (kind : SenderBlockKind) (value : gostring) (expires_ms : Z) (d : Db)
    : (bool * Z) * Db :=
  let d := if bool_decide (kind = SenderBlockExactMailbox)
           then deleteCorrespondentsForExactBlockTx recipient value d else d in
  let rows := sender_blocklist d in
  match List.find (same_block recipient kind value) rows with
  | Some row =>
      ((false, sb_id row),
       set_sender_blocklist (update_where (same_block recipient kind value)
         (λ b, SBlockRow (sb_id b) (sb_recipient b) (sb_sender_kind b) (sb_sender_value b) expires_ms) rows) d)
  | None =>
      let id := next_id sb_id rows in
      ((true, id), set_sender_blocklist (rows ++ [SBlockRow id recipient kind value expires_ms]) d)
  end.

Definition AddSenderBlock (recipient : gostring) (kind : option SenderBlockKind) (value : gostring) (now : Z) (w : World)
    : (repo_error + (bool * SenderBlockEntry)) * World :=
  if negb available then (inl RepoDisabled, w)
  else
    match normalizeSenderBlock recipient kind value with
    | None => (inl RepoInvalid, w)
    | Some (recipient, kind, value) =>
        let expires := now + BlockExpiry r in
        match withTx (add_body recipient kind value (unixMillis expires)) w with
        | (inl e, w) => (inl (RepoDb e), w)
        | (inr (created, id), w) =>
            (inr (created, MkSenderBlockEntry id recipient (Some kind) value (Some expires)), w)
        end
    end.

(** ** DeleteSenderBlocks *)

Definition DeleteSenderBlocks (kind : option SenderBlockKind) (value : gostring) (scope : RecipientScope) (w : World)
    : (repo_error + Z) * World :=
  if negb available then (inl RepoDisabled, w)
  else if negb (Validate scope) then (inl RepoBadScope, w)
  else
    match normalizeSenderBlock star kind value with
    | None => (inl RepoInvalid, w)
    | Some (_, kind, value) =>
        let recipient := if beq (trimSpace (rs_Address scope)) star then rs_Address scope
                         else Normalize (rs_Address scope) in
        if negb (rs_All scope) && beq recipient [] then (inl RepoInvalid, w)
        else
          let p b := bool_decide (sb_sender_kind b = kind) && beq (sb_sender_value b) value &&
                     (rs_All scope || beq (sb_recipient b) recipient) in
          lift_db (exec (λ d, (count_where p (sender_blocklist d),
                               set_sender_blocklist (delete_where p (sender_blocklist d)) d)) w)
    end.

(** ** ListSenderBlocks *)

Definition scan_entry (b : sblock_row) : SenderBlockEntry :=
  MkSenderBlockEntry (sb_id b) (sb_recipient b) (Some (sb_sender_kind b)) (sb_sender_value b)
    (Some (timeFromMillis (sb_expires_at_ms b))).

Definition ListSenderBlocks (scope : RecipientScope) (limit now : Z) (w : World)
    : (repo_error + (list SenderBlockEntry * bool)) * World :=
  if negb available then (inr ([], false), w)
  else if negb (Validate scope) then (inl RepoBadScope, w)
  else if limit <? 1 then (inl RepoBadLimit, w)
  else
    let recipient := Normalize (rs_Address scope) in
    if negb (rs_All scope) && beq recipient [] then (inr ([], false), w)
    else
      match query (λ d, take (Z.to_nat (limit + 1))
              (order_by (λ b, - sb_expires_at_ms b) (λ b, - sb_id b)
                (List.filter (λ b, (unixMillis now <? sb_expires_at_ms b) && (rs_All scope || beq (sb_recipient b) recipient))
                   (sender_blocklist d)))) w with
      | (inl e, w) => (inl (RepoDb e), w)
      | (inr rows, w) => (inr (limitedPage (scan_entry <$> rows) limit), w)
      end.

(** ** MatchSenderBlocks *)

(** The loop over the dots of a domain: every proper suffix that starts at a
    label, without the empty one. *)
Fixpoint parent_domains (domain : gostring) : list gostring :=
  match domain with
  | [] => []
  | c :: rest =>
      if ceq c "." then (if beq rest [] then [] else [rest]) ++ parent_domains rest else parent_domains rest
  end.

Definition domain_candidates (includeSubdomains : bool) (sender : gostring) : list gostring :=
  let domain := Domain sender in
  if beq domain [] then [] else domain :: (if includeSubdomains then parent_domains domain else []).

Definition senderDomainCandidates (senders : list gostring) (includeSubdomains : bool) : list gostring :=
  remove_dups (senders ≫= domain_candidates includeSubdomains).

Definition matchedVisibleSender (kind : SenderBlockKind) (value : gostring) (visibleSenders : list gostring)
    (includeSubdomains : bool) : gostring :=
  match kind with
  | SenderBlockExactMailbox => value
  | SenderBlockDomain =>
      default [] (List.find (λ sender, let domain := Domain sender in
        beq domain value || (includeSubdomains && hasSuffix domain (lit "." ++ value))) visibleSenders)
  end.

(** The WHERE clause. *)
Definition match_where (now_ms : Z) (scopes exactValues domainValues : list gostring) (b : sblock_row) : bool :=
  (now_ms <? sb_expires_at_ms b) && bool_decide (sb_recipient b ∈ scopes) &&
  match sb_sender_kind b with
  | SenderBlockExactMailbox => bool_decide (sb_sender_value b ∈ exactValues)
  | SenderBlockDomain => bool_decide (sb_sender_value b ∈ domainValues)
  end.

Definition kind_code (k : SenderBlockKind) : Z := match k with SenderBlockExactMailbox => 1 | SenderBlockDomain => 2 end.

(** One row of the result: the reported sender and the blocked recipients. *)
Definition match_row (exactValues recipients : list gostring) (includeSubdomains : bool)
    (acc : SenderBlockMatch) (b : sblock_row) : SenderBlockMatch :=
  let takes := beq (sm_MatchedSender acc) [] ||
    (negb (bool_decide (sm_MatchedKind acc = Some SenderBlockExactMailbox))
     && bool_decide (sb_sender_kind b = SenderBlockExactMailbox)) in
  let blocked := if beq (sb_recipient b) star then recipients
                 else if bool_decide (sb_recipient b ∈ recipients) then [sb_recipient b] else [] in
  MkSenderBlockMatch
    (remove_dups (sm_BlockedRecipients acc ++ blocked))
    (if takes then matchedVisibleSender (sb_sender_kind b) (sb_sender_value b) exactValues includeSubdomains
     else sm_MatchedSender acc)
    (if takes then Some (sb_sender_kind b) else sm_MatchedKind acc).

Definition MatchSenderBlocks (visibleSenders recipients : list gostring) (includeSubdomains : bool) (now : Z) (w : World)
    : (repo_error + SenderBlockMatch) * World :=
  if negb available then (inr noSenderMatch, w)
  else
    let senders := normalizedAddressSet visibleSenders maxSenderBlockAddresses in
    let recipients := normalizedAddressSet recipients maxSenderBlockAddresses in
    if bool_decide (senders = []) || bool_decide (recipients = []) then (inr noSenderMatch, w)
    else
      let exactValues := sortedSet senders in
      let domainValues := sortedSet (senderDomainCandidates senders includeSubdomains) in
      let scopes := star :: sortedSet recipients in
      match query (λ d, order_by (λ b, kind_code (sb_sender_kind b)) sb_id
                     (List.filter (match_where (unixMillis now) scopes exactValues domainValues) (sender_blocklist d))) w with
      | (inl e, w) => (inl (RepoDb e), w)
      | (inr rows, w) =>
          let m := fold_left (match_row exactValues recipients includeSubdomains) rows noSenderMatch in
          (inr (MkSenderBlockMatch (sortedSet (sm_BlockedRecipients m)) (sm_MatchedSender m) (sm_MatchedKind m)), w)
      end.

(** ** Cleanup and Count *)

Definition cleanup_body (now : Z) (d : Db) : Z * Db :=
  let expired b := sb_expires_at_ms b <=? unixMillis now in
  let deleted := count_where expired (sender_blocklist d) in
  let d := set_sender_blocklist (delete_where expired (sender_blocklist d)) d in
  let excess := capacity_excess (sender_blocklist d) (BlockMaxEntries r) in
  if excess =? 0 then (deleted, d)
  else
    let ids := first_ids sb_expires_at_ms sb_id (Z.to_nat excess) (sender_blocklist d) in
    let trimmed := count_where (id_in sb_id ids) (sender_blocklist d) in
    (deleted + trimmed, set_sender_blocklist (delete_where (id_in sb_id ids) (sender_blocklist d)) d).

Definition Cleanup (now : Z) (w : World) : (repo_error + Z) * World :=
  if negb available then (inr 0, w) else lift_db (withTx (cleanup_body now) w).
Definition Count (w : World) : (repo_error + Z) * World :=
  lift_db (query (λ d, Z.of_nat (length (sender_blocklist d))) w).
End SenderBlocklist.
End SenderBlocklist.
