(* ===== verification/SenderListsFacts.v ===== *)
(** * Correspondents and sender blocks: invariant, eviction and views

    The two tables share one invariant ([lists_wf]): unique rowids and keys,
    non-negative counters, and explicit trust that excludes a recipient's own
    exact block of the same mailbox.  Every operation of both repositories
    preserves it. *)
From S2P Require Import Prelude GoText NetSafety MailAddr SqlDb IPReputation IPReputationFacts Correspondents SenderBlocklist.

(** ** The invariant *)

Definition corr_key (c : corr_row) : gostring * gostring := (co_local_address c, co_correspondent c).
Definition block_key (b : sblock_row) : gostring * SenderBlockKind * gostring :=
  (sb_recipient b, sb_sender_kind b, sb_sender_value b).

(** Trust that was granted, by an administrator or by writing to the mailbox. *)
Definition explicit_trust (c : corr_row) : Prop := co_whitelist_type c <> CorrespondentKindRepeatedLegitimateInbound.
(** No exact block by the local address [key.1] of the mailbox [key.2]. *)
Definition unblocked (blocks : list sblock_row) (key : gostring * gostring) : Prop :=
  Forall (λ b, exact_block_of key.1 [key.2] b = false) blocks.
Definition row_ok (blocks : list sblock_row) (c : corr_row) : Prop :=
  0 <= co_legitimate_email_count c /\ (explicit_trust c -> unblocked blocks (corr_key c)).

Record keyed {A K} (id : A -> Z) (key : A -> K) (P : A -> Prop) (rows : list A) : Prop := Keyed {
  keyed_ids : NoDup (id <$> rows);
  keyed_keys : NoDup (key <$> rows);
  keyed_rows : Forall P rows;
}.

Record lists_wf (d : Db) : Prop := ListsWf {
  lw_corr : keyed co_id corr_key (row_ok (sender_blocklist d)) (correspondents d);
  lw_block : keyed sb_id block_key (λ _, True) (sender_blocklist d);
}.

(** ** Keyed tables *)

Section Keyed.
Context {A K : Type} (id : A -> Z) (key : A -> K).
Implicit Types (P Q : A -> Prop) (rows : list A).

Lemma keyed_weaken P Q rows : (forall c, c ∈ rows -> P c -> Q c) -> keyed id key P rows -> keyed id key Q rows.
Proof.
  intros Hpq [H1 H2 H3]. split; try done. apply Forall_forall. intros c Hc. rewrite Forall_forall in H3. auto.
Qed.

Lemma keyed_sublist P l rows : l `sublist_of` rows -> keyed id key P rows -> keyed id key P l.
Proof.
  intros Hs [H1 H2 H3]. split; [eapply sublist_NoDup; [exact H1|by apply sublist_fmap]
    |eapply sublist_NoDup; [exact H2|by apply sublist_fmap]|by eapply sublist_Forall].
Qed.

Lemma keyed_delete P p rows : keyed id key P rows -> keyed id key P (delete_where p rows).
Proof. apply keyed_sublist, delete_where_sublist. Qed.

Lemma keyed_update P p f rows : (forall c, id (f c) = id c) -> (forall c, key (f c) = key c) ->
  (forall c, c ∈ rows -> p c = true -> P c -> P (f c)) -> keyed id key P rows -> keyed id key P (update_where p f rows).
Proof.
  intros Hid Hkey Hf [H1 H2 H3]. split; rewrite ?update_where_fmap by done; try done.
  unfold update_where. apply Forall_fmap, Forall_forall. intros c Hc. rewrite Forall_forall in H3. cbn.
  destruct (p c) eqn:E; auto.
Qed.

Lemma keyed_append P rows c : id c = next_id id rows -> key c ∉ (key <$> rows) -> P c ->
  keyed id key P rows -> keyed id key P (rows ++ [c]).
Proof.
  intros Hid Hkey Hc [H1 H2 H3]. split; rewrite ?fmap_app; cbn.
  - apply NoDup_app. split_and!; [done| |apply NoDup_singleton]. intros i (x & -> & Hx)%list_elem_of_fmap Hi.
    apply list_elem_of_singleton in Hi. pose proof (next_id_fresh id rows x Hx). lia.
  - apply NoDup_app. split_and!; [done| |apply NoDup_singleton]. intros k Hk Hi.
    apply list_elem_of_singleton in Hi. by subst.
  - apply Forall_app. by split; [|constructor].
Qed.

End Keyed.

(** Evicting the [n] first of the rows that satisfy [p]. *)
Lemma evict_first {A} (id k : A -> Z) (p : A -> bool) n rows : NoDup (id <$> rows) ->
  let ids := first_ids k id n (List.filter p rows) in
  let rows' := delete_where (id_in id ids) rows in
  let m := Nat.min n (length (List.filter p rows)) in
  count_where (id_in id ids) rows = Z.of_nat m /\
  (length rows' = length rows - m)%nat /\
  (forall b, b ∈ rows -> b ∉ rows' -> p b = true /\ forall a, a ∈ rows' -> p a = true -> key_le k id b a) /\
  ((length (List.filter p rows) <= n)%nat -> forall a, a ∈ rows' -> p a = false).
Proof.
  intros Hn ids rows' m. set (C := List.filter p rows) in *. set (E := take n (order_by k id C)).
  assert (Hperm : order_by k id C ≡ₚ C) by apply order_by_perm.
  assert (HC : forall x, x ∈ C <-> x ∈ rows /\ p x = true)
    by (intros x; unfold C; by rewrite list_elem_of_In, filter_In, <- list_elem_of_In).
  assert (HE : forall x, x ∈ E -> x ∈ C).
  { intros x Hx. rewrite <- Hperm. eapply elem_of_take in Hx as (i & Hi & _). by eapply list_elem_of_lookup_2. }
  assert (Hid : forall x, x ∈ rows -> id_in id ids x = true <-> x ∈ E).
  { intros x Hx. unfold id_in. rewrite bool_decide_eq_true. unfold ids, first_ids. fold E. split.
    - intros (y & Hxy & Hy)%list_elem_of_fmap. by rewrite (row_unique id rows x y) by naive_solver.
    - intros Hx'. by apply list_elem_of_fmap_2. }
  assert (Hcount : count_where (id_in id ids) rows = Z.of_nat m).
  { unfold count_where. f_equal. transitivity (length E).
    - apply Permutation_length, NoDup_Permutation.
      + apply (NoDup_fmap_1 id). eapply sublist_NoDup; [exact Hn|]. apply sublist_fmap, filter_sublist.
      + unfold E. eapply sublist_NoDup; [|apply sublist_take]. rewrite Hperm. eapply sublist_NoDup; [|apply filter_sublist].
        by apply (NoDup_fmap_1 id).
      + intros x. rewrite list_elem_of_In, filter_In, <- list_elem_of_In. split; [intros [Hx Hi]; by apply Hid|].
        intros Hx. pose proof (HE x Hx) as Hc. apply HC in Hc as [Hr _]. split; [done|]. by apply Hid.
    - unfold E, m. rewrite length_take. by rewrite (Permutation_length Hperm). }
  split; [done|]. split.
  { pose proof (count_delete (id_in id ids) rows) as Hd. fold rows' in Hd.
    assert (length rows' <= length rows)%nat by (apply sublist_length, delete_where_sublist). lia. }
  assert (Hgone : forall b, b ∈ rows -> b ∉ rows' -> b ∈ E).
  { intros b Hb Hnb. apply Hid; [done|]. apply Bool.not_false_iff_true. intros Hf. apply Hnb.
    by apply delete_where_elem. }
  split.
  - intros b Hb Hnb. pose proof (Hgone b Hb Hnb) as HbE. pose proof (HE b HbE) as HbC. apply HC in HbC as [_ Hpb].
    split; [done|]. intros a Ha Hpa. apply delete_where_elem in Ha as [Ha Hna].
    assert (HaD : a ∈ drop n (order_by k id C)).
    { assert (HaC : a ∈ order_by k id C) by (rewrite Hperm; by apply HC).
      rewrite <- (take_drop n (order_by k id C)) in HaC. apply elem_of_app in HaC as [HaE|]; [|done].
      exfalso. apply Bool.not_true_iff_false in Hna. apply Hna. by apply Hid. }
    pose proof (order_by_sorted k id C) as Hso. rewrite <- (take_drop n (order_by k id C)) in Hso.
    by eapply StronglySorted_app_1_elem_of in Hso.
  - intros Hle a Ha. apply delete_where_elem in Ha as [Ha Hna]. apply Bool.not_true_iff_false. intros Hpa.
    apply Bool.not_true_iff_false in Hna. apply Hna, Hid; [done|]. unfold E.
    rewrite take_ge by (by rewrite (Permutation_length Hperm)). rewrite Hperm. by apply HC.
Qed.

(** ** Statements *)

Lemma relation_true l c row : relation l c row = true <-> corr_key row = (l, c).
Proof. unfold relation, corr_key, beq. rewrite andb_true_iff, !bool_decide_eq_true. naive_solver. Qed.

Lemma relation_exists l c rows : existsb (relation l c) rows = false <-> (l, c) ∉ (corr_key <$> rows).
Proof.
  rewrite <- Bool.not_true_iff_false, existsb_exists, list_elem_of_fmap.
  split; intros Hn (row & H1 & H2); apply Hn; exists row.
  - rewrite <- list_elem_of_In. split; [done|]. by apply relation_true.
  - apply relation_true in H2. rewrite list_elem_of_In. done.
Qed.

Lemma insert_relations_keyed P kind count now_ms keys : 
  (forall id key, key ∈ keys -> P (CorrRow id key.1 key.2 now_ms now_ms kind count)) ->
  forall rows, keyed co_id corr_key P rows ->
  keyed co_id corr_key P (insert_relations kind count now_ms keys rows).2.
Proof.
  intros HP rows. unfold insert_relations. generalize (@nil corr_row). revert rows.
  induction keys as [|[l c] keys IH]; intros rows ins Hk; [done|]. cbn [fold_left insert_absent].
  cbn [fst snd]. destruct (existsb (relation l c) rows) eqn:E.
  - apply IH; [intros; apply HP; set_solver|done].
  - apply relation_exists in E. apply IH; [intros; apply HP; set_solver|].
    apply keyed_append; [done|done| |done]. apply (HP _ (l, c)). set_solver.
Qed.

Lemma exact_block_of_true rcpt senders b : exact_block_of rcpt senders b = true <->
  sb_recipient b = rcpt /\ sb_sender_kind b = SenderBlockExactMailbox /\ sb_sender_value b ∈ senders.
Proof. unfold exact_block_of, beq. rewrite !andb_true_iff, !bool_decide_eq_true. tauto. Qed.

Lemma unblocked_elem blocks key : unblocked blocks key <->
  forall b, b ∈ blocks -> block_key b <> (key.1, SenderBlockExactMailbox, key.2).
Proof.
  unfold unblocked. rewrite Forall_forall. split; intros Hu b Hb.
  - intros Hk. specialize (Hu b Hb). apply Bool.not_true_iff_false in Hu. apply Hu, exact_block_of_true.
    unfold block_key in Hk. simplify_eq. rewrite list_elem_of_singleton. done.
  - apply Bool.not_true_iff_false. intros (H1 & H2 & H3%list_elem_of_singleton)%exact_block_of_true.
    apply (Hu b Hb). unfold block_key. congruence.
Qed.

Lemma deleteExact_blocks rcpt senders d : 
  sender_blocklist (deleteExactSenderBlocksTx rcpt senders d) `sublist_of` sender_blocklist d /\
  correspondents (deleteExactSenderBlocksTx rcpt senders d) = correspondents d /\
  forall s, s ∈ senders -> unblocked (sender_blocklist (deleteExactSenderBlocksTx rcpt senders d)) (rcpt, s).
Proof.
  unfold deleteExactSenderBlocksTx. destruct senders as [|s0 ss]; [set_solver|]. cbn [sender_blocklist correspondents set_sender_blocklist].
  split_and!; [apply delete_where_sublist|done|]. intros s Hs. apply unblocked_elem. intros b [_ Hb]%delete_where_elem Hk.
  apply Bool.not_true_iff_false in Hb. apply Hb, exact_block_of_true. unfold block_key in Hk. simplify_eq/=. done.
Qed.

Lemma unblocked_sublist l blocks key : l `sublist_of` blocks -> unblocked blocks key -> unblocked l key.
Proof. apply sublist_Forall. Qed.

Lemma row_ok_sublist l blocks c : l `sublist_of` blocks -> row_ok blocks c -> row_ok l c.
Proof. intros Hs [H1 H2]. split; [done|]. intros He. eapply unblocked_sublist; eauto. Qed.

(** Fewer rows on either side keep the invariant. *)
Lemma lists_wf_sub d rows blocks : lists_wf d -> rows `sublist_of` correspondents d -> blocks `sublist_of` sender_blocklist d ->
  lists_wf (set_sender_blocklist blocks (set_correspondents rows d)).
Proof.
  intros [H1 H2] Hr Hb. split; cbn; [|by eapply keyed_sublist].
  eapply keyed_weaken; [|by eapply keyed_sublist]. intros c _. by apply row_ok_sublist.
Qed.

Lemma lists_wf_rows d rows : lists_wf d -> keyed co_id corr_key (row_ok (sender_blocklist d)) rows ->
  lists_wf (set_correspondents rows d).
Proof. intros [H1 H2] Hr. by split. Qed.

Lemma deleteExact_wf rcpt senders d : lists_wf d -> lists_wf (deleteExactSenderBlocksTx rcpt senders d).
Proof.
  intros Hw. unfold deleteExactSenderBlocksTx. destruct senders; [done|].
  destruct d. apply (lists_wf_sub _ _ _ Hw); [done|apply delete_where_sublist].
Qed.

(** ** The transactions *)

Section Bodies.
Context `{UnicodeTables, NetMail} (r : CorrespondentOptions) (s : SenderBlocklistOptions).
Import Correspondents.

Lemma learn_body_wf local recipients now d : lists_wf d -> lists_wf (learn_body r local recipients now d).2.
Proof.
  intros Hw. unfold learn_body. cbv zeta.
  destruct (deleteExact_blocks local recipients d) as (_ & _ & Hclear).
  pose proof (deleteExact_wf local recipients d Hw) as Hw1. revert Hw1 Hclear.
  generalize (deleteExactSenderBlocksTx local recipients d) as d1. intros d1 [H1 H2] Hclear.
  destruct (insert_relations _ _ _ _ _) as [ins rows] eqn:E. apply (f_equal snd) in E. cbn [snd] in *. subst rows.
  apply lists_wf_rows; [by split|]. apply insert_relations_keyed.
  { intros id key (rcpt & -> & Hin)%list_elem_of_fmap. split; [done|]. intros _. by apply Hclear. }
  apply keyed_update; [done|done| |]; [by intros c _ _ [Hc1 Hc2]|].
  apply keyed_update; [done|done| |by apply keyed_delete].
  intros c _ Hp [Hc1 Hc2]. split; [done|]. intros _. cbn.
  apply andb_true_iff in Hp as [Hp _]. unfold outbound_target, beq in Hp.
  apply andb_true_iff in Hp as [Hl%bool_decide_eq_true Hin%bool_decide_eq_true].
  unfold corr_key. cbn. rewrite Hl. by apply Hclear.
Qed.

Lemma touch_statement_wf corr addrs now d : lists_wf d -> lists_wf (touch_statement r corr addrs now d).2.
Proof.
  intros Hw. apply lists_wf_rows; [done|]. apply keyed_update; [done|done|by intros c _ _ [? ?]|apply Hw].
Qed.

Lemma classification_body_wf adv corr rcpts now d : lists_wf d -> lists_wf (classification_body r adv corr rcpts now d).2.
Proof.
  intros Hw. unfold classification_body. cbv zeta.
  set (rows1 := delete_where _ _). assert (H1 : keyed co_id corr_key (row_ok (sender_blocklist d)) rows1) by apply keyed_delete, Hw.
  clearbody rows1. destruct adv.
  - destruct (insert_relations _ _ _ _ _) as [ins rows] eqn:E. apply (f_equal snd) in E. cbn [snd] in *. subst rows.
    apply lists_wf_rows; [done|]. apply insert_relations_keyed; [by intros id key _|].
    apply keyed_update; [done|done|by intros c _ _ [? ?]|].
    apply keyed_update; [done|done| |done]. intros c _ _ [Hc1 Hc2]. split; [cbn; lia|done].
  - apply lists_wf_rows; [done|]. apply keyed_update; [done|done|by intros c _ _ [? ?]|done].
Qed.

Lemma delete_corr_wf p d : lists_wf d -> lists_wf (set_correspondents (delete_where p (correspondents d)) d).
Proof. intros Hw. apply lists_wf_rows; [done|]. apply keyed_delete, Hw. Qed.
Lemma delete_block_wf p d : lists_wf d -> lists_wf (set_sender_blocklist (delete_where p (sender_blocklist d)) d).
Proof. intros Hw. destruct d. apply (lists_wf_sub _ _ _ Hw); [done|apply delete_where_sublist]. Qed.

Lemma corr_cleanup_wf now d : lists_wf d -> lists_wf (cleanup_body r now d).2.
Proof.
  intros Hw. unfold cleanup_body, enforceCapacityTx.
  destruct (match _ with Some _ => _ | None => _ end) as [n d1] eqn:E.
  assert (H1 : lists_wf d1) by (case_match; simplify_eq; [by apply delete_corr_wf|done]).
  repeat case_match; simplify_eq/=; try done; by repeat apply delete_corr_wf.
Qed.

Lemma manual_body_wf sender rcpt now d : lists_wf d -> lists_wf (manual_body sender rcpt now d).2.
Proof.
  intros Hw. unfold manual_body. cbv zeta.
  destruct (deleteExact_blocks rcpt [sender] d) as (_ & _ & Hclear).
  pose proof (deleteExact_wf rcpt [sender] d Hw) as Hw1. specialize (Hclear sender ltac:(set_solver)). revert Hw1 Hclear.
  generalize (deleteExactSenderBlocksTx rcpt [sender] d) as d1. intros d1 Hw1 Hclear. cbn [snd].
  apply lists_wf_rows; [done|]. destruct (existsb _ _) eqn:E.
  - apply keyed_update; [done|done| |apply Hw1]. intros c _ Hr%relation_true _. split; [done|]. intros _. by rewrite <- Hr in Hclear.
  - apply relation_exists in E. apply keyed_append; [done|done| |apply Hw1]. split; [done|]. by intros _.
Qed.

Lemma same_block_true rcpt kind v b : same_block rcpt kind v b = true <-> block_key b = (rcpt, kind, v).
Proof. unfold same_block, block_key, beq. rewrite !andb_true_iff, !bool_decide_eq_true. naive_solver. Qed.

Lemma find_block_none rcpt kind v rows : List.find (same_block rcpt kind v) rows = None <-> (rcpt, kind, v) ∉ (block_key <$> rows).
Proof.
  rewrite find_none_notin, list_elem_of_fmap, Forall_forall. split.
  - intros Hf (b & Hk & Hb). specialize (Hf b Hb). apply Bool.not_true_iff_false in Hf. apply Hf. by apply same_block_true.
  - intros Hn b Hb. apply Bool.not_true_iff_false. intros Hk%same_block_true. apply Hn. by exists b.
Qed.

Lemma add_body_wf rcpt kind v t d : lists_wf d -> lists_wf (SenderBlocklist.add_body rcpt kind v t d).2.
Proof.
  intros Hw. unfold SenderBlocklist.add_body. cbv zeta.
  set (d1 := if bool_decide _ then _ else d).
  assert (H1 : lists_wf d1) by (unfold d1; case_match; [by apply delete_corr_wf|done]).
  assert (Hgone : kind = SenderBlockExactMailbox -> forall c, c ∈ correspondents d1 -> corr_key c <> (rcpt, v)).
  { intros -> c Hc Hk. unfold d1 in Hc. rewrite bool_decide_true in Hc by done. cbn in Hc.
    apply delete_where_elem in Hc as [_ Hf]. apply Bool.not_true_iff_false in Hf. apply Hf.
    unfold corr_key in Hk. simplify_eq. unfold contradicted, beq.
    rewrite andb_true_iff, orb_true_iff, !bool_decide_eq_true. auto. }
  clearbody d1. destruct H1 as [Hc Hb].
  destruct (List.find _ _) as [row|] eqn:E; cbn [snd]; split; cbn.
  - eapply keyed_weaken; [|exact Hc]. intros c _ [? Hu]. split; [done|]. intros He. specialize (Hu He).
    apply unblocked_elem. rewrite unblocked_elem in Hu. intros b (b0 & -> & Hb0)%list_elem_of_fmap.
    case_match; by apply (Hu b0).
  - by apply keyed_update.
  - eapply keyed_weaken; [|exact Hc]. intros c Hin [? Hu]. split; [done|]. intros He. apply Forall_app. split; [by apply Hu|].
    constructor; [|done]. apply Bool.not_true_iff_false.
    intros (Hrc & Hki & Hva%list_elem_of_singleton)%exact_block_of_true. cbn in Hrc, Hki, Hva. subst.
    by apply (Hgone eq_refl c Hin).
  - apply find_block_none in E. by apply keyed_append.
Qed.

Lemma block_cleanup_wf now d : lists_wf d -> lists_wf (SenderBlocklist.cleanup_body s now d).2.
Proof. intros Hw. unfold SenderBlocklist.cleanup_body. case_match; cbn [snd]; by repeat apply delete_block_wf. Qed.
End Bodies.

(** ** The operations of both repositories, in any order *)

Lemma withTx_preserves {R} (f : Db -> R * Db) (P : Db -> Prop) w :
  (forall d, P d -> P (f d).2) -> P (wdb w) -> P (wdb (withTx f w).2).
Proof. apply retry_preserves. Qed.
Lemma exec_preserves {R} (f : Db -> R * Db) (P : Db -> Prop) w :
  (forall d, P d -> P (f d).2) -> P (wdb w) -> P (wdb (exec f w).2).
Proof. apply retry_preserves. Qed.

Section Operations.
Context `{UnicodeTables, NetMail} (r : CorrespondentOptions) (s : SenderBlocklistOptions).

Inductive list_op :=
  | OpLearn (local : gostring) (recipients : list gostring)
  | OpTouch (correspondent : gostring) (recipients : list gostring)
  | OpClassify (input : InboundClassification)
  | OpMatch (correspondent : gostring) (recipients : list gostring)
  | OpListCorrespondents (scope : RecipientScope) (since : option Z) (limit : Z)
  | OpCleanupCorrespondents | OpCountCorrespondents
  | OpAddManual (sender recipient : gostring)
  | OpDeleteCorrespondent (sender : gostring) (scope : RecipientScope)
  | OpAddBlock (recipient : gostring) (kind : option SenderBlockKind) (value : gostring)
  | OpDeleteBlocks (kind : option SenderBlockKind) (value : gostring) (scope : RecipientScope)
  | OpListBlocks (scope : RecipientScope) (limit : Z)
  | OpMatchBlocks (senders recipients : list gostring) (includeSubdomains : bool)
  | OpCleanupBlocks | OpCountBlocks.

Definition list_apply (now : Z) (o : list_op) (w : World) : World :=
  match o with
  | OpLearn l rs => (Correspondents.LearnAuthenticated r l rs now w).2
  | OpTouch c rs => (Correspondents.TouchInbound r c rs now w).2
  | OpClassify i => (Correspondents.RecordInboundClassification r i now w).2
  | OpMatch c rs => (Correspondents.Match r c rs now w).2
  | OpListCorrespondents sc since limit => (Correspondents.ListCorrespondents r sc since limit now w).2
  | OpCleanupCorrespondents => (Correspondents.Cleanup r now w).2
  | OpCountCorrespondents => (Correspondents.Count w).2
  | OpAddManual se rc => (Correspondents.AddManual r se rc now w).2
  | OpDeleteCorrespondent se sc => (Correspondents.DeleteCorrespondent r se sc w).2
  | OpAddBlock rc k v => (SenderBlocklist.AddSenderBlock s rc k v now w).2
  | OpDeleteBlocks k v sc => (SenderBlocklist.DeleteSenderBlocks s k v sc w).2
  | OpListBlocks sc limit => (SenderBlocklist.ListSenderBlocks s sc limit now w).2
  | OpMatchBlocks ss rs sub => (SenderBlocklist.MatchSenderBlocks s ss rs sub now w).2
  | OpCleanupBlocks => (SenderBlocklist.Cleanup s now w).2
  | OpCountBlocks => (SenderBlocklist.Count w).2
  end.
(** A history: operations with the clock reading each of them sees. *)
Definition list_run (ops : list (Z * list_op)) (w : World) : World := fold_left (λ w o, list_apply o.1 o.2 w) ops w.

Definition list_bodies (f : forall R, (Db -> R * Db) -> Prop) : Prop :=
  (forall l rs t, f _ (Correspondents.learn_body r l rs t)) /\
  (forall c a t, f _ (Correspondents.touch_statement r c a t)) /\
  (forall a c rs t, f _ (Correspondents.classification_body r a c rs t)) /\
  (forall p, f _ (λ d, (count_where p (correspondents d), set_correspondents (delete_where p (correspondents d)) d))) /\
  (forall t, f _ (Correspondents.cleanup_body r t)) /\
  (forall se rc t, f _ (Correspondents.manual_body se rc t)) /\
  (forall rc k v t, f _ (SenderBlocklist.add_body rc k v t)) /\
  (forall p, f _ (λ d, (count_where p (sender_blocklist d), set_sender_blocklist (delete_where p (sender_blocklist d)) d))) /\
  (forall t, f _ (SenderBlocklist.cleanup_body s t)).

(** Runs the database call at the head of an operation. *)
Ltac run_call :=
  match goal with
  | Hq : (forall R f, _ (wdb (query f ?w).2)) |- context [query ?f ?w] =>
      specialize (Hq _ f); destruct (query f w) as [[?|?] ?]; cbn [fst snd lift_db] in *
  | Hw : ?P (wdb ?w) |- context [withTx ?f ?w] =>
      let Hp := fresh "Hp" in assert (Hp : P (wdb (withTx f w).2)) by (apply withTx_preserves; [intros; eauto|exact Hw]);
      destruct (withTx f w) as [[?|?] ?]; cbn [fst snd lift_db] in *
  | Hw : ?P (wdb ?w) |- context [exec ?f ?w] =>
      let Hp := fresh "Hp" in assert (Hp : P (wdb (exec f w).2)) by (apply exec_preserves; [intros; eauto|exact Hw]);
      destruct (exec f w) as [[?|?] ?]; cbn [fst snd lift_db] in *
  end.

Lemma list_apply_preserves (P : Db -> Prop) now o w :
  list_bodies (λ R f, forall d, P d -> P (f d).2) -> P (wdb w) -> P (wdb (list_apply now o w)).
Proof.
  intros (Hlearn & Htouch & Hclass & Hdelc & Hclc & Hman & Hadd & Hdelb & Hclb) Hw.
  assert (Hq : forall R (f : Db -> R), P (wdb (query f w).2)) by (intros; by apply query_preserves).
  destruct o; cbn [list_apply];
    unfold Correspondents.LearnAuthenticated, Correspondents.TouchInbound, Correspondents.RecordInboundClassification,
      Correspondents.Match, Correspondents.ListCorrespondents, Correspondents.Cleanup, Correspondents.Count,
      Correspondents.AddManual, Correspondents.DeleteCorrespondent, Correspondents.remove_statement, SenderBlocklist.AddSenderBlock,
      SenderBlocklist.DeleteSenderBlocks, SenderBlocklist.ListSenderBlocks, SenderBlocklist.MatchSenderBlocks,
      SenderBlocklist.Cleanup, SenderBlocklist.Count; cbv zeta;
    repeat match goal with
      | |- P (wdb (_, _).2) => cbn [snd]; assumption
      | |- context [if ?b then _ else _] => destruct b
      | |- context [match DecideInboundLearning ?a ?b with _ => _ end] => destruct (DecideInboundLearning a b) as [?|[]]
      | _ => run_call
      | |- context [match ?x with _ => _ end] => destruct x
      end; try done; try (cbn [snd]; assumption).
Qed.

Lemma list_bodies_wf : list_bodies (λ R f, forall d, lists_wf d -> lists_wf (f d).2).
Proof.
  split_and!; intros; cbn beta; cbn [snd]; auto using learn_body_wf, touch_statement_wf, classification_body_wf, delete_corr_wf, corr_cleanup_wf,
    manual_body_wf, add_body_wf, delete_block_wf, block_cleanup_wf.
Qed.

Lemma list_run_wf ops w : lists_wf (wdb w) -> lists_wf (wdb (list_run ops w)).
Proof.
  revert w. induction ops as [|o ops IH]; intros w Hw; [done|]. apply IH.
  apply list_apply_preserves; [apply list_bodies_wf|done].
Qed.
End Operations.
