(* ===== verification/SenderListsSpec.v ===== *)
(** * Correspondents and sender blocks: what the repositories promise

    The properties of internal/stores/sqlite/correspondents*.go and
    sender_blocklist.go: the invariant of both tables over every history, what
    a classification can remove, promotion of inbound senders, eviction order,
    and what a sender block matches. *)
From Stdlib Require Import QArith.
From S2P Require Import Prelude GoText NetSafety MailAddr SqlDb IPReputation IPReputationFacts Correspondents SenderBlocklist SenderListsFacts.
Open Scope Z_scope.

(** ** Address sets *)

Section Sets.
Context `{UnicodeTables, NetMail}.

Lemma sortedSet_elem l x : x ∈ sortedSet l <-> x ∈ l.
Proof. unfold sortedSet. by rewrite merge_sort_Permutation. Qed.

Lemma sortedSet_nil l : sortedSet l = [] <-> l = [].
Proof.
  unfold sortedSet. split; [|by intros ->]. intros Hs. pose proof (merge_sort_Permutation bytes_le l) as Hp.
  rewrite Hs in Hp. by apply Permutation_nil.
Qed.

(** The set holds the normalized forms of its arguments, none of them empty. *)
Lemma normalizedAddressSet_sound values n x :
  x ∈ normalizedAddressSet values n -> x <> [] /\ exists v, v ∈ values /\ Normalize v = x.
Proof.
  unfold normalizedAddressSet.
  assert (Hinv : forall vs acc, (forall y, y ∈ acc -> y <> [] /\ exists v, v ∈ values /\ Normalize v = y) ->
    (forall v, v ∈ vs -> v ∈ values) -> forall y, y ∈ fold_left (add_address n) vs acc -> y <> [] /\ exists v, v ∈ values /\ Normalize v = y).
  { induction vs as [|v vs IH]; intros acc Hacc Hvs; [done|]. cbn. apply IH; [|set_solver]. intros y. unfold add_address.
    case_match; [auto|]. cbv zeta. destruct (_ || _) eqn:E; [auto|]. apply orb_false_iff in E as [E%beq_nil_false _].
    intros [| ->%list_elem_of_singleton]%elem_of_app; [auto|]. split; [done|]. exists v. set_solver. }
  apply Hinv; [|done]. intros y Hy. by apply not_elem_of_nil in Hy.
Qed.

Lemma normalizedAddressSet_bound values n : (length (normalizedAddressSet values n) <= n)%nat.
Proof.
  unfold normalizedAddressSet.
  assert (Hinv : forall acc, (length acc <= n)%nat -> (length (fold_left (add_address n) values acc) <= n)%nat); [|apply Hinv; cbn; lia].
  induction values as [|v vs IH]; intros acc Hacc; [done|]. cbn. apply IH. unfold add_address.
  case_bool_decide; [done|]. cbv zeta. case_match; [done|]. rewrite length_app. cbn. lia.
Qed.

(** Within the limit, every valid argument is in the set. *)
Lemma normalizedAddressSet_complete values n v : v ∈ values -> Normalize v <> [] ->
  (length values <= n)%nat -> Normalize v ∈ normalizedAddressSet values n.
Proof.
  unfold normalizedAddressSet. intros Hv Hne Hn.
  assert (Hinv : forall vs acc, v ∈ vs \/ Normalize v ∈ acc -> (length vs + length acc <= n)%nat ->
    Normalize v ∈ fold_left (add_address n) vs acc); [|by apply Hinv; [left|cbn; lia]].
  clear Hv Hn. induction vs as [|u vs IH]; intros acc Hor Hlen; [destruct Hor as [Hv|]; [by apply not_elem_of_nil in Hv|done]|].
  cbn in *. apply IH; unfold add_address; case_bool_decide; cbv zeta; try lia;
    destruct (beq (Normalize u) [] || _) eqn:E; rewrite ?length_app; cbn; try lia.
  - apply orb_true_iff in E as [E%bool_decide_eq_true|E%bool_decide_eq_true]; destruct Hor as [[->|]%elem_of_cons|]; auto; done.
  - destruct Hor as [[->|]%elem_of_cons|]; [right|by left|right]; apply elem_of_app; [right|by left]. by apply list_elem_of_singleton.
Qed.

Lemma normalizedAddressSet_single v n : Normalize v <> [] -> (0 < n)%nat -> normalizedAddressSet [v] n = [Normalize v].
Proof.
  intros Hv Hn. unfold normalizedAddressSet. cbn. unfold add_address. rewrite bool_decide_false by (cbn; lia). cbv zeta.
  unfold beq. by rewrite !bool_decide_false by set_solver.
Qed.
End Sets.

(** ** The entry of one relation *)

Definition entry_of (local correspondent : gostring) (rows : list corr_row) : option corr_row :=
  List.find (relation local correspondent) rows.

Lemma entry_delete l c p rows : NoDup (corr_key <$> rows) ->
  entry_of l c (delete_where p rows) = (row ← entry_of l c rows; if p row : bool then None else Some row).
Proof.
  unfold entry_of, delete_where. induction rows as [|row rows IH]; [done|]. cbn. intros [Hk Hn]%NoDup_cons.
  specialize (IH Hn). destruct (relation l c row) eqn:E; cbn; destruct (p row) eqn:Ep; cbn; rewrite ?E; try done.
  apply find_none_notin, Forall_forall. intros x Hx. apply list_elem_of_In, filter_In in Hx as [Hx _].
  apply Bool.not_true_iff_false. intros Hr%relation_true. apply relation_true in E. apply Hk. rewrite E, <- Hr.
  apply list_elem_of_fmap_2. by apply list_elem_of_In.
Qed.

Lemma entry_update l c p f rows : (forall row, corr_key (f row) = corr_key row) ->
  entry_of l c (update_where p f rows) = (λ row, if p row : bool then f row else row) <$> entry_of l c rows.
Proof.
  intros Hf. unfold entry_of, update_where. induction rows as [|row rows IH]; [done|]. cbn.
  assert (Hr : relation l c (if p row then f row else row) = relation l c row).
  { case_match; [|done]. injection (Hf row) as Hl Hc. unfold relation. by rewrite Hl, Hc. }
  rewrite Hr. by destruct (relation l c row).
Qed.

Lemma entry_append l c rows row :
  entry_of l c (rows ++ [row]) = match entry_of l c rows with Some x => Some x | None => if relation l c row then Some row else None end.
Proof. unfold entry_of. induction rows as [|x rows IH]; cbn; [done|]. by destruct (relation l c x). Qed.

Lemma entry_insert l c kind n t keys rows :
  entry_of l c (insert_relations kind n t keys rows).2 = entry_of l c rows \/
  entry_of l c rows = None /\ (l, c) ∈ keys /\
  exists id, entry_of l c (insert_relations kind n t keys rows).2 = Some (CorrRow id l c t t kind n).
Proof.
  unfold insert_relations. generalize (@nil corr_row). revert rows.
  induction keys as [|[l' c'] keys IH]; intros rows ins; [by left|]. cbn [fold_left insert_absent fst snd].
  destruct (existsb _ rows) eqn:E.
  { destruct (IH rows ins) as [->|(Hn & Hk & Hi)]; [by left|right; set_solver]. }
  destruct (IH (rows ++ [CorrRow (next_id co_id rows) l' c' t t kind n]) (ins ++ [CorrRow (next_id co_id rows) l' c' t t kind n]))
    as [->|(Hn & Hk & Hi)]; rewrite entry_append in *; destruct (entry_of l c rows) eqn:Ef; try done; try by left.
  - destruct (relation l c _) eqn:Er; [right|by left].
    apply relation_true in Er. unfold corr_key in Er. simplify_eq/=. split; [done|]. split; [set_solver|]. by eexists.
  - right. set_solver.
Qed.

Lemma entry_insert_present l c kind n t keys rows : entry_of l c rows <> None ->
  entry_of l c (insert_relations kind n t keys rows).2 = entry_of l c rows.
Proof. intros Hn. by destruct (entry_insert l c kind n t keys rows) as [|[? _]]. Qed.

Lemma insert_present kind n t keys : forall rows key, key ∈ keys -> key ∈ (corr_key <$> (insert_relations kind n t keys rows).2).
Proof.
  unfold insert_relations. intros rows key Hkey.
  assert (Hinv : forall ks ins rows, key ∈ ks \/ key ∈ (corr_key <$> rows) ->
    key ∈ (corr_key <$> (fold_left (insert_absent kind n t) ks (ins, rows)).2)); [|by apply Hinv; left].
  clear. induction ks as [|[l c] ks IH]; intros ins rows Hor; [destruct Hor as [Hk|]; [by apply not_elem_of_nil in Hk|done]|].
  cbn [fold_left insert_absent fst snd]. destruct (existsb _ rows) eqn:E; apply IH.
  - destruct Hor as [[->|]%elem_of_cons|]; auto. right. apply existsb_exists in E as (row & Hr & Hrel%relation_true).
    rewrite <- Hrel. apply list_elem_of_fmap_2. by apply list_elem_of_In.
  - rewrite fmap_app. destruct Hor as [[->|]%elem_of_cons|]; set_solver.
Qed.

Lemma entry_key l c rows : (l, c) ∈ (corr_key <$> rows) <-> entry_of l c rows <> None.
Proof.
  unfold entry_of. destruct (List.find _ rows) as [row|] eqn:Ef.
  - split; [done|]. intros _. apply find_some_elem in Ef as [Hr Hrel%relation_true]. rewrite <- Hrel. by apply list_elem_of_fmap_2.
  - split; [|done]. intros (row & Hk & Hr)%list_elem_of_fmap. rewrite find_none_notin, Forall_forall in Ef.
    specialize (Ef row Hr). apply Bool.not_true_iff_false in Ef. destruct Ef. by apply relation_true.
Qed.

Lemma entry_insert_absent l c kind n t keys rows : entry_of l c rows = None -> (l, c) ∈ keys ->
  exists id, entry_of l c (insert_relations kind n t keys rows).2 = Some (CorrRow id l c t t kind n).
Proof.
  intros Hn Hk. destruct (entry_insert l c kind n t keys rows) as [Hs|(_ & _ & Hi)]; [|done].
  exfalso. apply (insert_present kind n t keys rows), entry_key in Hk. congruence.
Qed.

(** ** What one classification does *)

(** The same relation, possibly with more recent activity and a larger count. *)
Definition grown (c c' : corr_row) : Prop :=
  co_id c' = co_id c /\ corr_key c' = corr_key c /\ co_whitelist_type c' = co_whitelist_type c /\
  co_learned_at_ms c' = co_learned_at_ms c /\ co_legitimate_email_count c <= co_legitimate_email_count c'.

Lemma grown_refl c : grown c c.
Proof. unfold grown. auto with lia. Qed.
Lemma grown_trans a b c : grown a b -> grown b c -> grown a c.
Proof. unfold grown. intros (? & ? & ? & ? & ?) (? & ? & ? & ? & ?). split_and!; congruence || lia. Qed.

Lemma update_grown p f rows c : (forall x, grown x (f x)) -> c ∈ rows -> exists c', c' ∈ update_where p f rows /\ grown c c'.
Proof.
  intros Hf Hc. exists (if p c then f c else c). split; [by apply (list_elem_of_fmap_2 (λ r, if p r then f r else r))|].
  case_match; [apply Hf|apply grown_refl].
Qed.

Lemma insert_keeps kind n t keys rows c : c ∈ rows -> c ∈ (insert_relations kind n t keys rows).2.
Proof.
  unfold insert_relations. generalize (@nil corr_row). revert rows.
  induction keys as [|[l x] keys IH]; intros rows ins Hc; [done|]. cbn [fold_left insert_absent fst snd].
  destruct (existsb _ rows); apply IH; [done|]. set_solver.
Qed.

Section Classification.
Context `{UnicodeTables, NetMail} (r : CorrespondentOptions).
Import Correspondents.

Lemma classification_body_keeps adv corr rcpts now d c : c ∈ correspondents d ->
  inbound_target corr rcpts c && stale r now c = false ->
  exists c', c' ∈ correspondents (classification_body r adv corr rcpts now d).2 /\ grown c c'.
Proof.
  intros Hc Hs. unfold classification_body. cbv zeta. set (rows := delete_where _ _).
  assert (H1 : c ∈ rows) by (by apply delete_where_elem). clearbody rows.
  assert (Hact : forall p rows c, c ∈ rows -> exists c', c' ∈ update_where p (set_activity (unixMillis now)) rows /\ grown c c')
    by (intros; apply update_grown; [intros; unfold grown; cbn; auto with lia|done]).
  destruct adv.
  - destruct (insert_relations _ _ _ _ _) as [ins rows'] eqn:E. apply (f_equal snd) in E. cbn in *. subst rows'.
    destruct (update_grown (advanceable r corr rcpts) (bump (unixMillis now)) rows c) as (c1 & Hc1 & Hg1);
      [intros; unfold grown; cbn; auto with lia|done|].
    match goal with |- context [update_where ?p (set_activity _) _] => destruct (Hact p _ c1 Hc1) as (c2 & Hc2 & Hg2) end.
    exists c2. split; [by apply insert_keeps, Hc2|by eapply grown_trans].
  - cbn. by apply Hact.
Qed.

Lemma classification_body_blocks adv corr rcpts now d :
  sender_blocklist (classification_body r adv corr rcpts now d).2 = sender_blocklist d.
Proof. unfold classification_body. cbv zeta. by destruct (if adv then _ else _) as [ins rows]. Qed.

(** The entry of an addressed relation after a qualifying legitimate message. *)
Definition advanced (now_ms : Z) (before : option corr_row) (after : corr_row) : Prop :=
  match before with
  | None => co_whitelist_type after = CorrespondentKindRepeatedLegitimateInbound /\ co_legitimate_email_count after = 1
  | Some c => co_whitelist_type after = co_whitelist_type c /\
              co_legitimate_email_count after = co_legitimate_email_count c + (if unqualified r c then 1 else 0)
  end /\ co_last_activity_at_ms after = now_ms.

Lemma qualified_unqualified c : qualifiedFragment r c = negb (unqualified r c).
Proof.
  unfold qualifiedFragment, unqualified, is_inbound. destruct (co_whitelist_type c); cbn; try done.
  destruct (Z.leb_spec (LegitimateSenderMinMessages r) (co_legitimate_email_count c)),
    (Z.ltb_spec (co_legitimate_email_count c) (LegitimateSenderMinMessages r)); done || lia.
Qed.

Lemma advance_row corr rcpts t c : inbound_target corr rcpts c = true ->
  advanced t (Some c) (let c := if advanceable r corr rcpts c then bump t c else c in
    if inbound_target corr rcpts c && qualifiedFragment r c && negb (co_last_activity_at_ms c =? t) then set_activity t c else c).
Proof.
  intros Ht. unfold advanced. cbv zeta. replace (advanceable r corr rcpts c) with (unqualified r c)
    by (unfold advanceable, unqualified; by rewrite Ht).
  destruct (unqualified r c) eqn:E.
  - change (co_last_activity_at_ms (bump t c)) with t. by rewrite Z.eqb_refl, andb_false_r.
  - rewrite Ht, qualified_unqualified, E. cbn. destruct (Z.eqb_spec (co_last_activity_at_ms c) t); cbn; split_and!; done || lia.
Qed.

Lemma advance_entry corr rcpts now d l : lists_wf d -> l ∈ rcpts ->
  exists after, entry_of l corr (correspondents (classification_body r true corr rcpts now d).2) = Some after /\
    advanced (unixMillis now) (c ← entry_of l corr (correspondents d); if stale r now c : bool then None else Some c) after.
Proof.
  intros Hw Hl. unfold classification_body. cbv zeta.
  destruct (insert_relations _ _ _ _ _) as [ins rows'] eqn:E. apply (f_equal snd) in E. cbn [snd] in *. subst rows'. cbn [correspondents set_correspondents].
  set (rows := delete_where _ _). set (rows2 := update_where _ _ (update_where _ _ rows)).
  assert (He : entry_of l corr rows = (c ← entry_of l corr (correspondents d); if stale r now c : bool then None else Some c)).
  { unfold rows. rewrite entry_delete by apply Hw. destruct (entry_of l corr _) as [c|] eqn:Ec; [|done]. cbn.
    apply find_some_elem in Ec as [_ Hk%relation_true]. unfold corr_key in Hk. simplify_eq.
    unfold inbound_target, beq. by rewrite !bool_decide_true by done. }
  rewrite <- He. clearbody rows. clear He.
  assert (H2 : entry_of l corr rows2 = (λ c, let c := if advanceable r corr rcpts c then bump (unixMillis now) c else c in
     if inbound_target corr rcpts c && qualifiedFragment r c && negb (co_last_activity_at_ms c =? unixMillis now)
     then set_activity (unixMillis now) c else c) <$> entry_of l corr rows).
  { unfold rows2. rewrite !entry_update by done. by destruct (entry_of l corr rows). }
  destruct (entry_of l corr rows) as [c|] eqn:Ec; cbn in H2.
  - rewrite entry_insert_present by (by rewrite H2). rewrite H2. eexists. split; [done|].
    apply find_some_elem in Ec as [_ Hk%relation_true]. unfold corr_key in Hk. simplify_eq.
    apply advance_row. unfold inbound_target, beq. by rewrite !bool_decide_true by done.
  - destruct (entry_insert_absent l corr CorrespondentKindRepeatedLegitimateInbound 1 (unixMillis now)
      ((λ rcpt, (rcpt, corr)) <$> rcpts) rows2 H2) as (id & Hid); [by apply (list_elem_of_fmap_2 (λ rcpt, (rcpt, corr)))|].
    rewrite Hid. eexists. split; [done|]. by unfold advanced.
Qed.
End Classification.

(** ** Runs of qualifying messages *)

Lemma filter_entry l c (p : corr_row -> bool) rows : NoDup (corr_key <$> rows) -> (forall x, p x = true -> relation l c x = true) ->
  List.filter p rows = match entry_of l c rows with Some row => if p row then [row] else [] | None => [] end.
Proof.
  intros Hn Hp. unfold entry_of. induction rows as [|x rows IH]; [done|]. apply NoDup_cons in Hn as [Hx Hn]. specialize (IH Hn).
  cbn. destruct (relation l c x) eqn:E.
  - assert (Hnil : List.filter p rows = []).
    { apply filter_none. intros y Hy. apply Bool.not_true_iff_false. intros Hr%Hp%relation_true. apply relation_true in E.
      apply Hx. rewrite E, <- Hr. by apply list_elem_of_fmap_2. }
    by rewrite Hnil; destruct (p x).
  - destruct (p x) eqn:Epx; [|done]. apply Hp in Epx. congruence.
Qed.

Section Promotion.
Context `{UnicodeTables, NetMail} (r : CorrespondentOptions) (input : InboundClassification) (local : gostring).
Import Correspondents.

Definition classify_all (times : list Z) (w : World) : World :=
  fold_left (λ w t, (RecordInboundClassification r input t w).2) times w.

(** Clock readings that never go back and never let an entry become stale. *)
Fixpoint steady (last : Z) (times : list Z) : Prop :=
  match times with
  | [] => True
  | t :: rest => last <= t /\ (0 < StaleAfter r -> t <= last + StaleAfter r) /\ steady t rest
  end.

(** A message that counts towards promotion for [local]. *)
Record counts_for : Prop := CountsFor {
  cf_scope : validateScope r = true;
  cf_complete : ic_RecipientsComplete input = true;
  cf_correspondent : ic_Correspondent input <> [];
  cf_recipient : local ∈ normalizedAddressSet (ic_Recipients input) maxCorrespondentRecipients;
  cf_decision : DecideInboundLearning (learningPolicy r) input = inr InboundLearningAdvance;
}.

Lemma classify_quiet t d : counts_for ->
  (RecordInboundClassification r input t (MkWorld d [])).2 =
  MkWorld (classification_body r true (ic_Correspondent input)
             (sortedSet (normalizedAddressSet (ic_Recipients input) maxCorrespondentRecipients)) t d).2 [].
Proof.
  intros [H1 H2 H3 H4 H5]. unfold RecordInboundClassification. rewrite H2, H1. cbn [negb].
  destruct (beq (ic_Correspondent input) []) eqn:E; [apply bool_decide_eq_true in E; done|].
  rewrite bool_decide_false by (intros Hn; rewrite Hn in H4; by apply not_elem_of_nil in H4). cbn [orb]. rewrite H5.
  rewrite bool_decide_true by done. unfold withTx. rewrite retry_quiet. by destruct (classification_body _ _ _ _ _ _).
Qed.

(** The candidate after [n] counted messages, the last one at [last]. *)
Definition candidate (n last : Z) (d : Db) : Prop :=
  lists_wf d /\ exists c, entry_of local (ic_Correspondent input) (correspondents d) = Some c /\
    co_whitelist_type c = CorrespondentKindRepeatedLegitimateInbound /\
    co_legitimate_email_count c = Z.min n (LegitimateSenderMinMessages r) /\ co_last_activity_at_ms c = unixMillis last.

Lemma fresh_not_stale t last c : co_last_activity_at_ms c = unixMillis last ->
  (0 < StaleAfter r -> t <= last + StaleAfter r) -> stale r t c = false.
Proof.
  intros Hc Hf. unfold stale, staleCutoff. destruct (Z.leb_spec (StaleAfter r) 0); [done|]. apply Z.ltb_ge. rewrite Hc.
  apply unixMillis_mono. lia.
Qed.

Lemma candidate_step n last t d : counts_for -> 1 <= LegitimateSenderMinMessages r -> candidate n last d -> 1 <= n ->
  (0 < StaleAfter r -> t <= last + StaleAfter r) ->
  exists d', (RecordInboundClassification r input t (MkWorld d [])).2 = MkWorld d' [] /\ candidate (n + 1) t d'.
Proof.
  intros Hcf Hmin [Hw (c & Hc & Hk & Hn & Ha)] H1 Hst. rewrite classify_quiet by done. eexists. split; [done|].
  split; [by apply classification_body_wf|].
  destruct (advance_entry r (ic_Correspondent input) (sortedSet (normalizedAddressSet (ic_Recipients input) maxCorrespondentRecipients))
    t d local Hw) as (after & He & Hadv); [apply sortedSet_elem, Hcf|].
  rewrite Hc in Hadv. cbn [mbind option_bind] in Hadv. rewrite (fresh_not_stale t last c Ha Hst) in Hadv.
  destruct Hadv as [[Hk' Hn'] Ha']. exists after. split_and!; [done|congruence| |done].
  rewrite Hn', Hn. unfold unqualified, is_inbound. rewrite bool_decide_true, Hn by done. cbn [andb].
  destruct (Z.ltb_spec (Z.min n (LegitimateSenderMinMessages r)) (LegitimateSenderMinMessages r)); lia.
Qed.

Lemma candidate_run times : forall n last d, counts_for -> 1 <= LegitimateSenderMinMessages r -> candidate n last d -> 1 <= n ->
  steady last times -> exists d', classify_all times (MkWorld d []) = MkWorld d' [] /\
    candidate (n + Z.of_nat (length times)) (default last (list.last times)) d'.
Proof.
  induction times as [|t times IH]; intros n last d Hcf Hmin Hc Hn Hs.
  { exists d. split; [done|]. cbn. by rewrite Z.add_0_r. }
  destruct Hs as (Hle & Hst & Hs). destruct (candidate_step n last t d Hcf Hmin Hc Hn Hst) as (d1 & Hr & Hc1).
  destruct (IH (n + 1) t d1 Hcf Hmin Hc1 ltac:(lia) Hs) as (d2 & Hr2 & Hc2).
  exists d2. split; [unfold classify_all in *; cbn [fold_left]; by rewrite Hr|].
  cbn [length]. replace (n + Z.of_nat (S (length times))) with (n + 1 + Z.of_nat (length times)) by lia.
  replace (default last (list.last (t :: times))) with (default t (list.last times)); [done|].
  rewrite last_cons. by destruct (list.last times).
Qed.

Lemma candidate_first t d : counts_for -> lists_wf d -> 1 <= LegitimateSenderMinMessages r ->
  entry_of local (ic_Correspondent input) (correspondents d) = None ->
  exists d', (RecordInboundClassification r input t (MkWorld d [])).2 = MkWorld d' [] /\ candidate 1 t d'.
Proof.
  intros Hcf Hw Hmin Hc. rewrite classify_quiet by done. eexists. split; [done|]. split; [by apply classification_body_wf|].
  destruct (advance_entry r (ic_Correspondent input) (sortedSet (normalizedAddressSet (ic_Recipients input) maxCorrespondentRecipients))
    t d local Hw) as (after & He & Hadv); [apply sortedSet_elem, Hcf|].
  rewrite Hc in Hadv. destruct Hadv as [[Hk' Hn'] Ha']. exists after. split_and!; [done..| |done]. lia.
Qed.

(** What [Match] reports for a candidate. *)
Lemma candidate_match n last now d rcpt : candidate n last d -> counts_for -> 1 <= LegitimateSenderMinMessages r -> 1 <= n ->
  UseAllowlist r = true -> perSender r = true -> Normalize rcpt = local -> (0 < StaleAfter r -> now <= last + StaleAfter r) ->
  let known := LegitimateSenderMinMessages r <=? n in
  (Match r (ic_Correspondent input) [rcpt] now (MkWorld d [])).1 =
  inr (MkCorrespondentMatch known known (if known then [CorrespondentKindRepeatedLegitimateInbound] else [])).
Proof.
  intros [Hw (c & Hc & Hk & Hn & Ha)] Hcf Hmin H1 Huse Hper Hr Hst. cbv zeta.
  assert (Hlne : Normalize rcpt <> []).
  { rewrite Hr. by apply (normalizedAddressSet_sound (ic_Recipients input) maxCorrespondentRecipients), Hcf. }
  unfold Match. rewrite Huse, Hper. destruct Hcf as [Hcs _ Hcc _ _]. rewrite Hcs. cbn [negb].
  destruct (beq (ic_Correspondent input) []) eqn:E; [by apply bool_decide_eq_true in E|].
  rewrite (normalizedAddressSet_single rcpt) by (done || (unfold maxCorrespondentRecipients; lia)). rewrite Hr.
  change (sortedSet [local]) with [local]. rewrite bool_decide_false by done.
  unfold query. rewrite retry_quiet. unfold queryMatch. cbn [fst snd].
  rewrite (filter_entry local (ic_Correspondent input)), Hc; [|apply Hw|].
  2:{ intros x Hx. apply andb_true_iff in Hx as [Hx Hl%bool_decide_eq_true%list_elem_of_singleton].
      apply andb_true_iff in Hx as [Hx%bool_decide_eq_true _]. apply relation_true. unfold corr_key. congruence. }
  apply find_some_elem in Hc as [_ Hkey%relation_true]. injection Hkey as Hkl Hkc.
  assert (Hq : qualifiedActiveFragment r now c = (LegitimateSenderMinMessages r <=? n)).
  { unfold qualifiedActiveFragment, qualifiedFragment. rewrite Hk, Hn. pose proof (fresh_not_stale now last c Ha Hst) as Hs.
    unfold stale in Hs. destruct (staleCutoff r now) as [cut|]; [|rewrite andb_true_r; lia].
    apply Z.ltb_ge in Hs. rewrite (proj2 (Z.leb_le _ _) Hs), andb_true_r. lia. }
  rewrite Hq. unfold beq. rewrite (bool_decide_true (co_correspondent c = _)) by done.
  rewrite (bool_decide_true (co_local_address c ∈ _)) by (by rewrite Hkl, list_elem_of_singleton).
  destruct (LegitimateSenderMinMessages r <=? n); cbn; [|done]. unfold has_kind. cbn. rewrite Hk. done.
Qed.
End Promotion.

(** ** What a classified message can take away *)

Section Removal.
Context `{UnicodeTables, NetMail} (r : CorrespondentOptions) (input : InboundClassification) (now : Z).

(** Why a relation may be gone after the message. *)
Definition may_remove (c : corr_row) : Prop :=
  let recipients := normalizedAddressSet (ic_Recipients input) maxCorrespondentRecipients in
  co_correspondent c = ic_Correspondent input /\
  ((Correspondents.stale r now c = true /\ co_local_address c ∈ recipients) \/
   (ic_Verdict input = InboundVerdictUnwanted /\ ic_AuthenticationSatisfied input = true /\
    (ic_UnwantedMinScore input <= ic_Score input)%Q /\ co_whitelist_type c = CorrespondentKindRepeatedLegitimateInbound /\
    (Scope r = CorrespondentScopePerSender -> co_local_address c ∈ recipients))).

Definition keeps_trust (d d' : Db) : Prop :=
  sender_blocklist d' = sender_blocklist d /\
  forall c, c ∈ correspondents d -> (exists c', c' ∈ correspondents d' /\ grown c c') \/ may_remove c.

Lemma keeps_trust_refl d : keeps_trust d d.
Proof. split; [done|]. intros c Hc. left. exists c. by split; [|apply grown_refl]. Qed.

Lemma keeps_trust_retry {R} n (f : Db -> R * Db) w : (forall d, keeps_trust d (f d).2) -> keeps_trust (wdb w) (wdb (retry n f w).2).
Proof.
  intros Hf. destruct (retry n f w) as [[e|x] w'] eqn:E; cbn.
  - apply retry_error in E. rewrite E. apply keeps_trust_refl.
  - apply retry_ok in E. specialize (Hf (wdb w)). by rewrite E in Hf.
Qed.

Lemma classification_keeps_trust adv d : keeps_trust d (Correspondents.classification_body r adv (ic_Correspondent input)
  (sortedSet (normalizedAddressSet (ic_Recipients input) maxCorrespondentRecipients)) now d).2.
Proof.
  split; [apply classification_body_blocks|]. intros c Hc.
  destruct (Correspondents.inbound_target (ic_Correspondent input)
    (sortedSet (normalizedAddressSet (ic_Recipients input) maxCorrespondentRecipients)) c && Correspondents.stale r now c) eqn:Es.
  - right. apply andb_true_iff in Es as [Ht Hs]. apply andb_true_iff in Ht as [Hk%bool_decide_eq_true Hl%bool_decide_eq_true].
    rewrite sortedSet_elem in Hl. split; [done|]. by left.
  - left. by apply classification_body_keeps.
Qed.

Lemma remove_keeps_trust d : DecideInboundLearning (Correspondents.learningPolicy r) input = inr InboundLearningRemove ->
  keeps_trust d (Correspondents.remove_statement r (ic_Correspondent input)
    (sortedSet (normalizedAddressSet (ic_Recipients input) maxCorrespondentRecipients)) d).2.
Proof.
  intros Hd. split; [done|]. intros c Hc. cbn.
  destruct (Correspondents.removable r (ic_Correspondent input)
    (sortedSet (normalizedAddressSet (ic_Recipients input) maxCorrespondentRecipients)) c) eqn:Er.
  2:{ left. exists c. split; [by apply delete_where_elem|apply grown_refl]. }
  right. unfold Correspondents.removable, Correspondents.is_inbound in Er.
  apply andb_true_iff in Er as [Er Hl]. apply andb_true_iff in Er as [Hk%bool_decide_eq_true Hi%bool_decide_eq_true].
  split; [done|]. right. unfold DecideInboundLearning in Hd.
  destruct (ic_Verdict input); [by destruct (_ && _) in Hd| |done].
  destruct (ic_AuthenticationSatisfied input); [|done]. cbn [andb] in Hd.
  destruct (Qle_bool _ _) eqn:Eq in Hd; [|done]. apply Qle_bool_iff in Eq. split_and!; try done.
  intros Hsc. unfold Correspondents.perSender in Hl. rewrite Hsc in Hl. apply bool_decide_eq_true in Hl.
  by rewrite sortedSet_elem in Hl.
Qed.
End Removal.

(** ** Properties of the correspondents *)

(** The tables of correspondents and sender blocks, over every history of
    operations and every pattern of contention, failure and cancellation:
    rowids and keys are unique, counters are not negative, and a relation that
    was granted explicitly (manually, or by writing to the mailbox) never
    coexists with its local address's own exact block of that mailbox. *)
Theorem sender_lists_invariant `{UnicodeTables, NetMail} (r : CorrespondentOptions) (s : SenderBlocklistOptions)
    (ops : list (Z * list_op)) (schedule : list attempt) :
  let d := wdb (list_run r s ops (MkWorld emptyDb schedule)) in
  NoDup (co_id <$> correspondents d) /\ NoDup (corr_key <$> correspondents d) /\
  NoDup (sb_id <$> sender_blocklist d) /\ NoDup (block_key <$> sender_blocklist d) /\
  (forall c, c ∈ correspondents d -> 0 <= co_legitimate_email_count c) /\
  (forall c b, c ∈ correspondents d -> b ∈ sender_blocklist d ->
     co_whitelist_type c <> CorrespondentKindRepeatedLegitimateInbound ->
     block_key b <> (co_local_address c, SenderBlockExactMailbox, co_correspondent c)).
Proof.
  intros d. assert (Hw : lists_wf d) by (apply list_run_wf; split; split; constructor).
  destruct Hw as [[H1 H2 H3] [H4 H5 _]]. rewrite Forall_forall in H3. split_and!; try done.
  - intros c Hc. by apply H3.
  - intros c b Hc Hb Hk. destruct (H3 c Hc) as [_ Hu]. specialize (Hu Hk). rewrite unblocked_elem in Hu. by apply Hu.
Qed.

(** What a classified message can take away: a relation survives, with the same
    rowid, kind and learning time and a count that is not smaller, unless it is a
    relation with the message's correspondent that is addressed by the message
    and already stale, or that was learned from inbound mail when the message is
    authenticated, unwanted and scores high enough (and, in the per-sender
    scope, the relation of a recipient).  Sender blocks are never touched. *)
Theorem classification_removes_only `{UnicodeTables, NetMail} (r : CorrespondentOptions) (input : InboundClassification)
    (now : Z) (w : World) :
  keeps_trust r input now (wdb w) (wdb (Correspondents.RecordInboundClassification r input now w).2).
Proof.
  unfold Correspondents.RecordInboundClassification.
  destruct (negb (ic_RecipientsComplete input)); [apply keeps_trust_refl|].
  destruct (negb (Correspondents.validateScope r)); [apply keeps_trust_refl|]. cbv zeta.
  destruct (_ || _); [apply keeps_trust_refl|].
  destruct (DecideInboundLearning _ input) as [e|action] eqn:Ed; [apply keeps_trust_refl|].
  destruct action; [apply keeps_trust_refl| | |];
    match goal with
    | |- context [withTx ?f w] => pose proof (keeps_trust_retry r input now busyRetries f w ltac:(intros; apply classification_keeps_trust)) as Hk;
                                  fold (@withTx _ f w) in Hk; by destruct (withTx f w) as [[]]
    | |- context [exec ?f w] => pose proof (keeps_trust_retry r input now busyRetries f w ltac:(intros; by apply remove_keeps_trust)) as Hk;
                                fold (@exec _ f w) in Hk; by destruct (exec f w) as [[]]
    end.
Qed.

(** Promotion: from no relation, after a run of qualifying legitimate messages
    from one correspondent, none of them too late, the correspondent is known to
    the local address exactly when the run has at least
    [LegitimateSenderMinMessages] messages. *)
Theorem promotion_at_min_messages `{UnicodeTables, NetMail} (r : CorrespondentOptions) (input : InboundClassification)
    (rcpt : gostring) (first now : Z) (times : list Z) (d : Db)
    (Hcounts : counts_for r input (Normalize rcpt)) (Huse : UseAllowlist r = true) (Hscope : Scope r = CorrespondentScopePerSender)
    (Hmin : 1 <= LegitimateSenderMinMessages r) (Hwf : lists_wf d)
    (Hnew : entry_of (Normalize rcpt) (ic_Correspondent input) (correspondents d) = None)
    (Htimes : steady r first (times ++ [now])) :
  let w := classify_all r input (first :: times) (MkWorld d []) in
  let known := LegitimateSenderMinMessages r <=? Z.of_nat (length (first :: times)) in
  (Correspondents.Match r (ic_Correspondent input) [rcpt] now w).1 =
  inr (MkCorrespondentMatch known known (if known then [CorrespondentKindRepeatedLegitimateInbound] else [])).
Proof.
  cbv zeta. destruct (candidate_first r input (Normalize rcpt) first d Hcounts Hwf Hmin Hnew) as (d1 & Hr1 & Hc1).
  assert (Hs : forall last l, steady r last (l ++ [now]) ->
    steady r last l /\ (0 < StaleAfter r -> now <= default last (list.last l) + StaleAfter r)).
  { clear. intros last l. revert last. induction l as [|t l IH]; intros last; cbn [app steady]; [by intros (_ & ? & _)|].
    intros (H1 & H2 & H3). destruct (IH t H3) as [H4 H5]. split; [by split_and!|]. rewrite last_cons.
    by destruct (list.last l). }
  destruct (Hs first times Htimes) as [Hst Hnow].
  destruct (candidate_run r input (Normalize rcpt) times 1 first d1 Hcounts Hmin Hc1 ltac:(lia) Hst) as (d2 & Hr2 & Hc2).
  unfold classify_all in *. cbn [fold_left]. rewrite Hr1, Hr2.
  replace (Z.of_nat (length (first :: times))) with (1 + Z.of_nat (length times)) by (cbn [length]; lia).
  eapply candidate_match; eauto; [lia|]. unfold Correspondents.perSender. by rewrite Hscope.
Qed.

Definition learning_options : CorrespondentOptions :=
  MkCorrespondentOptions true true true CorrespondentScopePerSender 100 (86400000 * millisecond) (9 # 10) 2 true.
Definition legitimate_mail : InboundClassification :=
  MkInboundClassification (lit "a@remote.example") [lit "me@local.example"] true InboundVerdictLegitimate (95 # 100) (9 # 10) true.

Lemma promotion_at_min_messages_witness :
  (@Correspondents.Match basic_tables simple_mail learning_options (lit "a@remote.example") [lit "me@local.example"] 3000000
     (@classify_all basic_tables simple_mail learning_options legitimate_mail [1000000; 2000000] (MkWorld emptyDb []))).1
  = inr (MkCorrespondentMatch true true [CorrespondentKindRepeatedLegitimateInbound]).
Proof.
  apply (@promotion_at_min_messages basic_tables simple_mail learning_options legitimate_mail (lit "me@local.example")
           1000000 3000000 [2000000] emptyDb).
  - split; [by vm_compute|by vm_compute|done| |by vm_compute].
    apply (bool_decide_unpack _). by vm_compute.
  - reflexivity.
  - reflexivity.
  - vm_compute. discriminate.
  - split; split; constructor.
  - reflexivity.
  - cbn. unfold millisecond. lia.
Defined.

(** ** Eviction *)

Section Eviction.
Context (r : CorrespondentOptions).
Import Correspondents.

(** The order in which relations are given up: candidates first, then the
    least recently active. *)
Definition evicted_before (b a : corr_row) : Prop :=
  (unqualified r b = true /\ unqualified r a = false) \/
  (unqualified r b = unqualified r a /\ key_le co_last_activity_at_ms co_id b a).

Lemma enforceCapacityTx_corr d : 0 <= CorrMaxEntries r -> NoDup (co_id <$> correspondents d) ->
  let n := (enforceCapacityTx r d).1 in let d' := (enforceCapacityTx r d).2 in
  correspondents d' `sublist_of` correspondents d /\
  n = Z.of_nat (length (correspondents d)) - Z.of_nat (length (correspondents d')) /\
  Z.of_nat (length (correspondents d')) = Z.min (Z.of_nat (length (correspondents d))) (CorrMaxEntries r) /\
  forall b a, b ∈ correspondents d -> b ∉ correspondents d' -> a ∈ correspondents d' -> evicted_before b a.
Proof.
  intros Hmax Hnd. unfold enforceCapacityTx, capacity_excess. cbv zeta. set (rows := correspondents d) in *.
  destruct (Z.eqb_spec (Z.max (Z.of_nat (length rows) - CorrMaxEntries r) 0) 0) as [H0|H0].
  { cbn. fold rows. split_and!; [done|lia|lia|done]. }
  replace (Z.max (Z.of_nat (length rows) - CorrMaxEntries r) 0) with (Z.of_nat (length rows) - CorrMaxEntries r) by lia.
  assert (exists excess, excess = Z.of_nat (length rows) - CorrMaxEntries r) as [excess Hex] by eauto. rewrite <- Hex.
  assert (Hpos : 0 < excess) by lia.
  destruct (evict_first co_id co_last_activity_at_ms (unqualified r) (Z.to_nat excess) rows Hnd) as (Hc & Hl & Hord & Hall).
  set (ids := first_ids _ _ _ _) in *. set (rows1 := delete_where (id_in co_id ids) rows) in *. rewrite Hc.
  assert (Hsub1 : rows1 `sublist_of` rows) by apply delete_where_sublist.
  destruct (Z.leb_spec excess (Z.of_nat (Nat.min (Z.to_nat excess) (length (List.filter (unqualified r) rows))))) as [Hd|Hd];
    cbn [fst snd correspondents set_correspondents].
  - fold rows. fold ids. fold rows1. split_and!; [done|lia|lia|]. intros b a Hb Hnb Ha. destruct (Hord b Hb Hnb) as [Hu Hk].
    unfold evicted_before. rewrite Hu. destruct (unqualified r a) eqn:Ea; [right; auto|by left].
  - fold rows. fold ids. fold rows1.
    set (m := Nat.min _ _) in *. assert (Hnd1 : NoDup (co_id <$> rows1)) by (eapply sublist_NoDup; [exact Hnd|by apply sublist_fmap]).
    destruct (evict_first co_id co_last_activity_at_ms (λ _, true) (Z.to_nat (excess - Z.of_nat m)) rows1 Hnd1) as (Hc2 & Hl2 & Hord2 & _).
    rewrite (filter_all (λ _ : corr_row, true)) in Hc2, Hl2, Hord2 by done.
    set (ids2 := first_ids _ _ _ rows1) in *. set (rows2 := delete_where (id_in co_id ids2) rows1) in *. rewrite Hc2.
    assert (Hun : forall a, a ∈ rows1 -> unqualified r a = false) by (apply Hall; lia).
    assert (m <= length rows)%nat by (subst m; pose proof (sublist_length _ _ (filter_sublist (unqualified r) rows)); lia).
    assert (Hsub2 : rows2 `sublist_of` rows1) by apply delete_where_sublist.
    split_and!; [by etrans|lia|lia|]. intros b a Hb Hnb Ha. assert (Ha1 : a ∈ rows1) by (by eapply elem_of_sublist).
    unfold evicted_before. rewrite (Hun a Ha1). destruct (decide (b ∈ rows1)) as [Hb1|Hb1].
    + right. rewrite (Hun b Hb1). split; [done|]. by apply Hord2.
    + left. by destruct (Hord b Hb Hb1).
Qed.
End Eviction.

(** Cleanup of the correspondents: a successful run leaves at most
    [CorrMaxEntries] relations, none of them stale, and reports how many it
    deleted; a relation that is not stale is given up only when the limit is
    reached, and then only before every relation that is kept: inbound
    candidates that were never promoted first, then the least recently active. *)
Theorem correspondents_cleanup_order (r : CorrespondentOptions) (now n : Z) (w w' : World)
    (Hmax : 0 <= CorrMaxEntries r) (Hwf : lists_wf (wdb w)) (Hcall : Correspondents.Cleanup r now w = (inr n, w')) :
  let rows := correspondents (wdb w) in let rows' := correspondents (wdb w') in
  n = Z.of_nat (length rows) - Z.of_nat (length rows') /\ Z.of_nat (length rows') <= CorrMaxEntries r /\
  (forall a, a ∈ rows' -> a ∈ rows /\ Correspondents.stale r now a = false) /\
  (forall b, b ∈ rows -> Correspondents.stale r now b = false -> b ∉ rows' ->
     Z.of_nat (length rows') = CorrMaxEntries r /\ forall a, a ∈ rows' -> evicted_before r b a).
Proof.
  cbv zeta. unfold Correspondents.Cleanup in Hcall.
  destruct (withTx _ w) as [[e|k] w1] eqn:E; cbn in Hcall; simplify_eq. apply retry_ok in E.
  unfold Correspondents.cleanup_body in E. set (d := wdb w) in *.
  assert (Hstale : exists d1, (match Correspondents.staleCutoff r now with
    | Some _ => (count_where (Correspondents.stale r now) (correspondents d), set_correspondents (delete_where (Correspondents.stale r now) (correspondents d)) d)
    | None => (0, d) end) = (Z.of_nat (length (correspondents d)) - Z.of_nat (length (correspondents d1)), d1) /\
    correspondents d1 = delete_where (Correspondents.stale r now) (correspondents d)).
  { destruct (Correspondents.staleCutoff r now) as [cut|] eqn:Ec.
    - exists (set_correspondents (delete_where (Correspondents.stale r now) (correspondents d)) d). split; [|done].
      by rewrite count_delete.
    - exists d. split; [f_equal; lia|]. unfold delete_where. symmetry. apply filter_all. intros x _.
      unfold Correspondents.stale. by rewrite Ec. }
  destruct Hstale as (d1 & Hs & Hrows1). rewrite Hs in E.
  assert (Hnd1 : NoDup (co_id <$> correspondents d1)).
  { rewrite Hrows1. eapply sublist_NoDup; [apply Hwf|]. apply sublist_fmap, delete_where_sublist. }
  pose proof (enforceCapacityTx_corr r d1 Hmax Hnd1) as (Hsub & Hn & Hlen & Hord).
  destruct (Correspondents.enforceCapacityTx r d1) as [k2 d2]. cbn in *. simplify_eq.
  assert (Hel : forall a, a ∈ correspondents d1 <-> a ∈ correspondents d /\ Correspondents.stale r now a = false)
    by (intros a; rewrite Hrows1; apply delete_where_elem).
  split_and!; [lia|lia| |].
  - intros a Ha. apply Hel. by eapply elem_of_sublist.
  - intros b Hb Hnst Hnb. assert (Hb1 : b ∈ correspondents d1) by (by apply Hel). split; [|intros a Ha; by apply Hord].
    pose proof (sublist_length _ _ Hsub).
    destruct (decide (length (correspondents (wdb w')) = length (correspondents d1))) as [Heq|Hne]; [|lia].
    exfalso. apply Hnb. by rewrite (sublist_same_length _ _ Hsub Heq).
Qed.

Definition crowded_options : CorrespondentOptions :=
  MkCorrespondentOptions true true true CorrespondentScopePerSender 1 (86400000 * millisecond) (9 # 10) 2 true.
Definition crowded_world : World :=
  @list_run basic_tables simple_mail crowded_options (MkSenderBlocklistOptions (3600000 * millisecond) 10)
    [(1000000, OpAddManual (lit "a@remote.example") (lit "me@local.example")); (2000000, OpClassify (
       MkInboundClassification (lit "b@remote.example") [lit "me@local.example"] true InboundVerdictLegitimate (95 # 100) (9 # 10) true))]
    (MkWorld emptyDb []).

Lemma correspondents_cleanup_order_witness :
  length (correspondents (wdb crowded_world)) = 2%nat /\
  Z.of_nat (length (correspondents (wdb (Correspondents.Cleanup crowded_options 3000000 crowded_world).2))) <= 1.
Proof.
  split; [by vm_compute|].
  assert (Hw : lists_wf (wdb crowded_world)) by (apply list_run_wf; split; split; constructor).
  assert (Hcall : Correspondents.Cleanup crowded_options 3000000 crowded_world
    = (inr 1, (Correspondents.Cleanup crowded_options 3000000 crowded_world).2)) by (by vm_compute).
  assert (Hmax : 0 <= CorrMaxEntries crowded_options) by (by vm_compute).
  apply (correspondents_cleanup_order crowded_options 3000000 1 crowded_world _ Hmax Hw Hcall).
Defined.

(** ** Sender blocks: what a block matches

    The specification of [MatchSenderBlocks] in terms of blocks, senders and
    recipients, the effect of the newest administrative instruction, and the
    eviction order of the blocklist. *)
Import SenderBlocklist.

(** ** Parent domains *)

Lemma parent_domains_elem v d : v ∈ parent_domains d <-> v <> [] /\ exists pre, d = pre ++ lit "." ++ v.
Proof.
  induction d as [|c d IH]; cbn [parent_domains].
  { rewrite elem_of_nil. split; [done|]. intros (_ & pre & Hp). by destruct pre. }
  assert (Hstep : (exists pre, c :: d = pre ++ lit "." ++ v) <-> (c = "."%char /\ d = v) \/ exists pre, d = pre ++ lit "." ++ v).
  { split.
    - intros ([|c' pre] & Hp); cbn in Hp; simplify_eq; [by left|right; by exists pre].
    - intros [[-> ->]|(pre & ->)]; [by exists []|by exists (c :: pre)]. }
  rewrite Hstep. destruct (ceq c ".") eqn:E.
  - apply bool_decide_eq_true in E as ->. rewrite elem_of_app, IH. unfold beq. case_bool_decide as Hn.
    + subst d. rewrite elem_of_nil. naive_solver.
    + rewrite list_elem_of_singleton. naive_solver.
  - apply bool_decide_eq_false in E. rewrite IH. naive_solver.
Qed.

Section Match.
Context `{UnicodeTables, NetMail}.

(** A block of [value] covers a sender: the mailbox itself, its domain or, when
    subdomains are included, a parent of its domain. *)
Definition covers (sub : bool) (b : sblock_row) (sender : gostring) : Prop :=
  match sb_sender_kind b with
  | SenderBlockExactMailbox => sb_sender_value b = sender
  | SenderBlockDomain => sb_sender_value b <> [] /\
      (Domain sender = sb_sender_value b \/ sub = true /\ exists pre, Domain sender = pre ++ lit "." ++ sb_sender_value b)
  end.

Lemma candidates_elem senders sub v : v ∈ senderDomainCandidates senders sub <->
  exists sender, sender ∈ senders /\ v <> [] /\
    (Domain sender = v \/ sub = true /\ exists pre, Domain sender = pre ++ lit "." ++ v).
Proof.
  unfold senderDomainCandidates. rewrite elem_of_remove_dups, list_elem_of_bind.
  assert (Hc : forall sender, v ∈ domain_candidates sub sender <->
    v <> [] /\ (Domain sender = v \/ sub = true /\ exists pre, Domain sender = pre ++ lit "." ++ v)).
  { intros sender. unfold domain_candidates, beq. cbv zeta. case_bool_decide as Hd.
    - rewrite elem_of_nil. rewrite Hd. split; [done|]. intros (Hv & [|(_ & [|] & Hp)]); done.
    - destruct sub; rewrite elem_of_cons, ?parent_domains_elem, ?elem_of_nil; naive_solver. }
  split; intros (s & H1 & H2); exists s; naive_solver.
Qed.

Definition block_covers (senders : list gostring) (sub : bool) (b : sblock_row) : Prop :=
  exists sender, sender ∈ senders /\ covers sub b sender.

(** A live block that applies to the recipient [x]. *)
Definition applies (now : Z) (senders : list gostring) (sub : bool) (x : gostring) (b : sblock_row) : Prop :=
  unixMillis now < sb_expires_at_ms b /\ (sb_recipient b = star \/ sb_recipient b = x) /\ block_covers senders sub b.

Lemma match_where_true now senders rcpts sub b :
  match_where now (star :: sortedSet rcpts) (sortedSet senders) (sortedSet (senderDomainCandidates senders sub)) b = true <->
  now < sb_expires_at_ms b /\ (sb_recipient b = star \/ sb_recipient b ∈ rcpts) /\ block_covers senders sub b.
Proof.
  unfold match_where, block_covers, covers. rewrite !andb_true_iff, Z.ltb_lt, bool_decide_eq_true, elem_of_cons, sortedSet_elem.
  destruct (sb_sender_kind b); rewrite bool_decide_eq_true, sortedSet_elem, ?candidates_elem; [|naive_solver].
  split; [intros [[? ?] ?]; eauto|]. intros (? & ? & s & ? & ->). auto.
Qed.

Lemma matchedVisibleSender_covers senders sub b : block_covers senders sub b ->
  matchedVisibleSender (sb_sender_kind b) (sb_sender_value b) (sortedSet senders) sub ∈ senders /\
  covers sub b (matchedVisibleSender (sb_sender_kind b) (sb_sender_value b) (sortedSet senders) sub).
Proof.
  intros (s & Hs & Hc). unfold matchedVisibleSender, covers in *. destruct (sb_sender_kind b).
  { by subst. }
  set (p := λ sender, _). assert (Hp : forall x, p x = true <->
    Domain x = sb_sender_value b \/ sub = true /\ exists pre, Domain x = pre ++ lit "." ++ sb_sender_value b).
  { intros x. unfold p, beq. by rewrite orb_true_iff, andb_true_iff, bool_decide_eq_true, hasSuffix_spec. }
  destruct (List.find p (sortedSet senders)) as [x|] eqn:E; cbn.
  - apply find_some_elem in E as [Hx Hpx]. rewrite sortedSet_elem in Hx. split; [done|]. split; [apply Hc|]. by apply Hp.
  - exfalso. rewrite find_none_notin, Forall_forall in E. specialize (E s). rewrite sortedSet_elem in E.
    specialize (E Hs). apply Bool.not_true_iff_false in E. apply E, Hp, Hc.
Qed.

(** ** The loop over the rows *)

Context (senders rcpts : list gostring) (sub : bool).

Lemma match_rows_blocked rows : forall acc x,
  x ∈ sm_BlockedRecipients (fold_left (match_row (sortedSet senders) rcpts sub) rows acc) <->
  x ∈ sm_BlockedRecipients acc \/ x ∈ rcpts /\ exists b, b ∈ rows /\ (sb_recipient b = star \/ sb_recipient b = x).
Proof.
  induction rows as [|b rows IH]; intros acc x; cbn [fold_left].
  { split; [by left|]. intros [|(_ & b & Hb & _)]; [done|]. by apply not_elem_of_nil in Hb. }
  rewrite IH. cbn [sm_BlockedRecipients match_row]. rewrite elem_of_remove_dups, elem_of_app. unfold beq.
  setoid_rewrite elem_of_cons.
  repeat case_bool_decide; rewrite ?list_elem_of_singleton, ?elem_of_nil; naive_solver.
Qed.

(** Once a sender is reported, only an exact match can replace a domain match. *)
Lemma match_rows_settled rows : forall acc, sm_MatchedSender acc <> [] ->
  (sm_MatchedKind acc = Some SenderBlockExactMailbox \/ Forall (λ b, sb_sender_kind b = SenderBlockDomain) rows) ->
  let m := fold_left (match_row (sortedSet senders) rcpts sub) rows acc in
  sm_MatchedSender m = sm_MatchedSender acc /\ sm_MatchedKind m = sm_MatchedKind acc.
Proof.
  induction rows as [|b rows IH]; intros acc Hne Hk; [done|]. cbn [fold_left].
  assert (Hacc : sm_MatchedSender (match_row (sortedSet senders) rcpts sub acc b) = sm_MatchedSender acc /\
                 sm_MatchedKind (match_row (sortedSet senders) rcpts sub acc b) = sm_MatchedKind acc).
  { cbn [match_row sm_MatchedSender sm_MatchedKind]. unfold beq. rewrite (bool_decide_false (sm_MatchedSender acc = [])) by done. cbn [orb].
    destruct Hk as [->|[-> _]%Forall_cons]; [by rewrite bool_decide_true|]. by rewrite (bool_decide_false (SenderBlockDomain = _)), andb_false_r by done. }
  destruct Hacc as [H1 H2]. destruct (IH (match_row (sortedSet senders) rcpts sub acc b)) as [H3 H4].
  - by rewrite H1.
  - rewrite H2. destruct Hk as [|[_ ?]%Forall_cons]; auto.
  - by rewrite H3, H4.
Qed.
End Match.

Lemma order_by_kind_head rows b rest : order_by (λ b, kind_code (sb_sender_kind b)) sb_id rows = b :: rest ->
  b ∈ rows /\ (sb_sender_kind b = SenderBlockDomain -> Forall (λ a, sb_sender_kind a = SenderBlockDomain) rows) /\
  (sb_sender_kind b = SenderBlockExactMailbox \/ Forall (λ a, sb_sender_kind a = SenderBlockDomain) rest).
Proof.
  intros Ho. pose proof (order_by_perm (λ b, kind_code (sb_sender_kind b)) sb_id rows) as Hp.
  pose proof (order_by_sorted (λ b, kind_code (sb_sender_kind b)) sb_id rows) as Hs. rewrite Ho in Hp, Hs.
  apply StronglySorted_inv in Hs as [_ Hs].
  assert (Hd : sb_sender_kind b = SenderBlockDomain -> Forall (λ a, sb_sender_kind a = SenderBlockDomain) rest).
  { intros Hb. eapply Forall_impl; [exact Hs|]. intros a Hk. unfold key_le in Hk. rewrite Hb in Hk.
    destruct (sb_sender_kind a); [cbn in Hk; lia|done]. }
  split; [rewrite <- Hp; set_solver|]. split.
  - intros Hb. rewrite <- Hp. constructor; auto.
  - destruct (sb_sender_kind b) eqn:E; auto.
Qed.

(** Sender matching: a recipient is reported as blocked exactly when a block
    that has not expired applies to it, directly or as "*", and covers a visible
    sender: its mailbox, its domain or, with subdomains included, a parent
    domain.  When something is blocked the reported sender is a visible one that
    such a block of the reported kind covers, and an exact block takes
    precedence over domain blocks; otherwise nothing is reported. *)
Theorem match_sender_blocks_exact `{UnicodeTables, NetMail} (s : SenderBlocklistOptions) (visible recipients : list gostring)
    (sub : bool) (now : Z) (w w' : World) (m : SenderBlockMatch)
    (Hcall : MatchSenderBlocks s visible recipients sub now w = (inr m, w')) (Hon : available s = true) :
  let senders := normalizedAddressSet visible maxSenderBlockAddresses in
  let rcpts := normalizedAddressSet recipients maxSenderBlockAddresses in
  let blocks := sender_blocklist (wdb w) in
  (forall x, x ∈ sm_BlockedRecipients m <-> x ∈ rcpts /\ exists b, b ∈ blocks /\ applies now senders sub x b) /\
  (sm_BlockedRecipients m <> [] ->
     sm_MatchedSender m ∈ senders /\
     exists x b, b ∈ blocks /\ x ∈ rcpts /\ applies now senders sub x b /\ covers sub b (sm_MatchedSender m) /\
       sm_MatchedKind m = Some (sb_sender_kind b)) /\
  (forall x b, b ∈ blocks -> x ∈ rcpts -> applies now senders sub x b -> sb_sender_kind b = SenderBlockExactMailbox ->
     sm_MatchedKind m = Some SenderBlockExactMailbox) /\
  (sm_BlockedRecipients m = [] -> sm_MatchedSender m = [] /\ sm_MatchedKind m = None).
Proof.
  cbv zeta. unfold MatchSenderBlocks in Hcall. rewrite Hon in Hcall. cbn [negb] in Hcall.
  set (senders := normalizedAddressSet visible maxSenderBlockAddresses) in *.
  set (rcpts := normalizedAddressSet recipients maxSenderBlockAddresses) in *.
  destruct (bool_decide (senders = []) || bool_decide (rcpts = [])) eqn:Enil.
  { simplify_eq. cbn. assert (Hno : forall x b, x ∈ rcpts -> ~ applies now senders sub x b).
    { intros x b Hx (_ & _ & y & Hy & _). apply orb_true_iff in Enil as [->%bool_decide_eq_true| ->%bool_decide_eq_true]; set_solver. }
    split_and!; [|done|naive_solver|done]. intros x. rewrite elem_of_nil. naive_solver. }
  apply orb_false_iff in Enil as [Hsn%bool_decide_eq_false Hrn%bool_decide_eq_false].
  destruct (query _ w) as [[e|rows] w1] eqn:Eq; simplify_eq. apply query_ok in Eq.
  set (p := match_where _ _ _ _) in Eq.
  assert (Hp : forall b, p b = true <-> unixMillis now < sb_expires_at_ms b /\ (sb_recipient b = star \/ sb_recipient b ∈ rcpts) /\
    block_covers senders sub b) by (intros b; apply match_where_true).
  assert (Hrows : forall b, b ∈ rows <-> b ∈ sender_blocklist (wdb w) /\ p b = true).
  { intros b. rewrite Eq, order_by_perm. by rewrite list_elem_of_In, filter_In, <- list_elem_of_In. }
  set (m := fold_left _ rows noSenderMatch). cbn [sm_BlockedRecipients sm_MatchedSender sm_MatchedKind].
  assert (Happ : forall x b, x ∈ rcpts -> b ∈ rows /\ (sb_recipient b = star \/ sb_recipient b = x) <->
    b ∈ sender_blocklist (wdb w) /\ applies now senders sub x b).
  { intros x b Hx. rewrite Hrows, Hp. unfold applies. split; [tauto|]. intros (? & ? & Hor & ?).
    split_and!; auto. destruct Hor as [|Hr]; [by left|right; by rewrite Hr]. }
  assert (Hb : forall x, x ∈ sortedSet (sm_BlockedRecipients m) <-> x ∈ rcpts /\ exists b, b ∈ sender_blocklist (wdb w) /\ applies now senders sub x b).
  { intros x. rewrite sortedSet_elem. unfold m. rewrite match_rows_blocked. cbn. rewrite elem_of_nil. split.
    - intros [|(Hx & b & Hb)]; [done|]. split; [done|]. exists b. by apply Happ.
    - intros (Hx & b & Hb). right. split; [done|]. exists b. by apply Happ. }
  split; [done|].
  assert (Hany : forall b, b ∈ rows -> exists x, x ∈ rcpts /\ b ∈ sender_blocklist (wdb w) /\ applies now senders sub x b).
  { intros b Hbr. pose proof Hbr as [_ (_ & Hor & _)%Hp]%Hrows. destruct Hor as [Hst|Hin].
    - destruct rcpts as [|x l]; [done|]. exists x. split; [set_solver|]. apply Happ; [set_solver|auto].
    - exists (sb_recipient b). split; [done|]. apply Happ; auto. }
  destruct rows as [|b rest] eqn:Er.
  { split_and!; [|intros x b Hbb Hx Ha; destruct (proj2 (Happ x b Hx) (conj Hbb Ha)) as [Hn _]; by apply not_elem_of_nil in Hn|done].
    intros Hn. destruct Hn. by apply sortedSet_nil. }
  symmetry in Eq. apply order_by_kind_head in Eq as (Hbf & Hdom & Hrest).
  destruct (Hany b ltac:(set_solver)) as (x0 & Hx0 & Hb0 & Ha0).
  assert (Hcov : block_covers senders sub b) by apply Ha0.
  destruct (matchedVisibleSender_covers senders sub b Hcov) as [Hin Hc].
  destruct (match_rows_settled senders rcpts sub rest (match_row (sortedSet senders) rcpts sub noSenderMatch b)) as [Hm1 Hm2].
  { change (matchedVisibleSender (sb_sender_kind b) (sb_sender_value b) (sortedSet senders) sub <> []).
    intros Hnil. rewrite Hnil in Hin. by apply normalizedAddressSet_sound in Hin as [? _]. }
  { change (Some (sb_sender_kind b) = Some SenderBlockExactMailbox \/ Forall (λ b, sb_sender_kind b = SenderBlockDomain) rest).
    destruct Hrest as [->|]; auto. }
  change (sm_MatchedSender m = matchedVisibleSender (sb_sender_kind b) (sb_sender_value b) (sortedSet senders) sub) in Hm1.
  change (sm_MatchedKind m = Some (sb_sender_kind b)) in Hm2. rewrite Hm1, Hm2. split_and!.
  - intros _. split; [done|]. exists x0, b. by split_and!.
  - intros x b' Hb' Hx' Ha' He. destruct (sb_sender_kind b) eqn:Ek; [done|]. specialize (Hdom eq_refl).
    rewrite Forall_forall in Hdom. destruct (proj2 (Happ x b' Hx') (conj Hb' Ha')) as [Hin' _].
    pose proof Hin' as [Hl Hpb]%Hrows. rewrite (Hdom b') in He; [done|]. rewrite list_elem_of_In, filter_In, <- list_elem_of_In. done.
  - intros Hnil. exfalso. assert (Hx : x0 ∈ sortedSet (sm_BlockedRecipients m)) by (apply Hb; eauto).
    rewrite Hnil in Hx. by apply not_elem_of_nil in Hx.
Qed.

Definition block_options : SenderBlocklistOptions := MkSenderBlocklistOptions (3600000 * millisecond) 10.
Definition blocked_world : World :=
  @list_run basic_tables simple_mail learning_options block_options
    [(0, OpAddBlock (lit "*") (Some SenderBlockDomain) (lit "Evil.example."));
     (0, OpAddBlock (lit "me@local.example") (Some SenderBlockExactMailbox) (lit "bad@mail.evil.example"))] (MkWorld emptyDb []).

Lemma match_sender_blocks_exact_witness :
  let m := MkSenderBlockMatch [lit "me@local.example"; lit "you@local.example"] (lit "bad@mail.evil.example") (Some SenderBlockExactMailbox) in
  @MatchSenderBlocks basic_tables simple_mail block_options [lit "bad@mail.evil.example"]
    [lit "you@local.example"; lit "me@local.example"] true 1000000 blocked_world = (inr m, blocked_world) /\
  (sm_BlockedRecipients m = [] -> sm_MatchedSender m = [] /\ sm_MatchedKind m = None).
Proof.
  intros m. assert (Hcall : @MatchSenderBlocks basic_tables simple_mail block_options [lit "bad@mail.evil.example"]
    [lit "you@local.example"; lit "me@local.example"] true 1000000 blocked_world = (inr m, blocked_world)) by (by vm_compute).
  split; [exact Hcall|].
  apply (@match_sender_blocks_exact basic_tables simple_mail block_options _ _ true 1000000 blocked_world _ m Hcall eq_refl).
Defined.

(** ** Administrative instructions *)

Section Instructions.
Context `{UnicodeTables, NetMail}.

Lemma add_body_effect rcpt v t d : let d' := (add_body rcpt SenderBlockExactMailbox v t d).2 in
  (forall c, c ∈ correspondents d' -> corr_key c <> (rcpt, v)) /\
  (rcpt = star -> forall c, c ∈ correspondents d' -> co_correspondent c <> v) /\
  exists b, b ∈ sender_blocklist d' /\ block_key b = (rcpt, SenderBlockExactMailbox, v) /\ sb_expires_at_ms b = t.
Proof.
  unfold add_body. cbv zeta. rewrite bool_decide_true by done.
  assert (Hgone : forall c, c ∈ correspondents (deleteCorrespondentsForExactBlockTx rcpt v d) ->
    co_correspondent c = v -> rcpt <> star /\ co_local_address c <> rcpt).
  { intros c [_ Hf]%delete_where_elem Hv. unfold contradicted, beq in Hf. rewrite bool_decide_true in Hf by done. cbn [andb] in Hf.
    by apply orb_false_iff in Hf as [Hs%bool_decide_eq_false Hl%bool_decide_eq_false]. }
  destruct (List.find _ _) as [b|] eqn:E; cbn [snd correspondents sender_blocklist set_sender_blocklist];
    (split; [intros c Hc Hk; injection Hk as Hl Hv; by destruct (Hgone c Hc Hv)|]);
    (split; [intros Hs c Hc Hv; by destruct (Hgone c Hc Hv)|]).
  - apply find_some_elem in E as [Hb Hk]. pose proof Hk as Hkey%same_block_true.
    exists (SBlockRow (sb_id b) (sb_recipient b) (sb_sender_kind b) (sb_sender_value b) t). split; [|done].
    apply list_elem_of_fmap. exists b. by rewrite Hk.
  - eexists. split; [apply elem_of_app; right; by apply list_elem_of_singleton|done].
Qed.

Lemma manual_body_effect sender rcpt now d : let d' := (Correspondents.manual_body sender rcpt now d).2 in
  (exists c, c ∈ correspondents d' /\ corr_key c = (rcpt, sender) /\ co_whitelist_type c = CorrespondentKindManual /\
     co_last_activity_at_ms c = unixMillis now) /\
  unblocked (sender_blocklist d') (rcpt, sender) /\
  forall b, b ∈ sender_blocklist d -> block_key b <> (rcpt, SenderBlockExactMailbox, sender) -> b ∈ sender_blocklist d'.
Proof.
  unfold Correspondents.manual_body. cbv zeta. cbn [snd correspondents sender_blocklist set_correspondents].
  split_and!.
  - destruct (existsb _ _) eqn:E.
    + apply existsb_exists in E as (c & Hc%list_elem_of_In & Hr). pose proof Hr as Hk%relation_true.
      exists (set_kind CorrespondentKindManual 0 (unixMillis now) c). split; [|done].
      apply list_elem_of_fmap. exists c. by rewrite Hr.
    + eexists. split; [apply elem_of_app; right; by apply list_elem_of_singleton|done].
  - destruct (deleteExact_blocks rcpt [sender] d) as (_ & _ & Hu). apply Hu. set_solver.
  - intros b Hb Hk. apply delete_where_elem. split; [done|]. apply Bool.not_true_iff_false.
    intros (H1 & H2 & H3%list_elem_of_singleton)%exact_block_of_true. apply Hk. unfold block_key. congruence.
Qed.
End Instructions.

(** The newest instruction wins: a successful exact block of a mailbox by a
    recipient removes that recipient's relation with it and stores the block with
    the full expiry; a later manual allow of the same pair removes the block,
    stores a manual relation, and leaves every other block in force. *)
Theorem latest_instruction_wins `{UnicodeTables, NetMail} (r : CorrespondentOptions) (s : SenderBlocklistOptions)
    (sender rcpt : gostring) (t t' : Z) (w w1 w2 : World) (x : bool * SenderBlockEntry) (created : bool)
    (Hblock : AddSenderBlock s rcpt (Some SenderBlockExactMailbox) sender t w = (inr x, w1)) (Hstar : trimSpace rcpt <> star)
    (Hallow : Correspondents.AddManual r sender rcpt t' w1 = (inr created, w2)) :
  let l := Normalize rcpt in let v := Normalize sender in
  (forall c, c ∈ correspondents (wdb w1) -> corr_key c <> (l, v)) /\
  (exists b, b ∈ sender_blocklist (wdb w1) /\ block_key b = (l, SenderBlockExactMailbox, v) /\
     sb_expires_at_ms b = unixMillis (t + BlockExpiry s)) /\
  (exists c, c ∈ correspondents (wdb w2) /\ corr_key c = (l, v) /\ co_whitelist_type c = CorrespondentKindManual /\
     co_last_activity_at_ms c = unixMillis t') /\
  (forall b, b ∈ sender_blocklist (wdb w2) -> block_key b <> (l, SenderBlockExactMailbox, v)) /\
  (forall b, b ∈ sender_blocklist (wdb w1) -> block_key b <> (l, SenderBlockExactMailbox, v) -> b ∈ sender_blocklist (wdb w2)).
Proof.
  cbv zeta. unfold AddSenderBlock in Hblock. destruct (negb (available s)); [done|].
  unfold normalizeSenderBlock in Hblock. destruct (beq (trimSpace rcpt) star) eqn:Es;
    [by apply bool_decide_eq_true in Es|].
  cbv zeta in Hblock. destruct (beq (Normalize rcpt) []); [done|]. destruct (beq (Normalize sender) []); [done|].
  destruct (withTx _ w) as [[e|[cr id]] w1'] eqn:E1; simplify_eq. apply retry_ok in E1.
  unfold Correspondents.AddManual in Hallow. destruct (negb (UseAllowlist r)); [done|]. cbv zeta in Hallow.
  destruct (_ || _); [done|].
  destruct (withTx _ w1) as [[e|cr2] w2'] eqn:E2; cbn in Hallow; simplify_eq. apply retry_ok in E2.
  destruct (add_body_effect (Normalize rcpt) (Normalize sender) (unixMillis (t + BlockExpiry s)) (wdb w)) as (H1 & _ & H2).
  destruct (manual_body_effect (Normalize sender) (Normalize rcpt) t' (wdb w1)) as (H3 & H4 & H5).
  rewrite E1 in H1, H2. rewrite E2 in H3, H4, H5. rewrite unblocked_elem in H4. by split_and!.
Qed.

Lemma latest_instruction_wins_witness :
  exists w2 created, @Correspondents.AddManual basic_tables simple_mail learning_options (lit "bad@mail.evil.example")
    (lit "me@local.example") 5 blocked_world = (inr created, w2) /\
  (forall b, b ∈ sender_blocklist (wdb w2) ->
     block_key b <> (lit "me@local.example", SenderBlockExactMailbox, lit "bad@mail.evil.example")).
Proof.
  set (w0 := @list_run basic_tables simple_mail learning_options block_options
    [(0, OpAddBlock (lit "*") (Some SenderBlockDomain) (lit "Evil.example."))] (MkWorld emptyDb [])).
  eexists _, _. split; [by vm_compute|].
  apply (@latest_instruction_wins basic_tables simple_mail learning_options block_options (lit "bad@mail.evil.example")
    (lit "me@local.example") 0 5 w0 blocked_world _
    (true, MkSenderBlockEntry 2 (lit "me@local.example") (Some SenderBlockExactMailbox) (lit "bad@mail.evil.example") (Some (3600000 * millisecond)))
    true); [by vm_compute|by vm_compute|by vm_compute].
Defined.

(** Cleanup of the blocklist: a successful run leaves no expired block and at
    most [BlockMaxEntries], reports how many it deleted, and gives up a live
    block only when the limit is reached and every block that is kept expires no
    earlier. *)
Theorem blocklist_cleanup_order (s : SenderBlocklistOptions) (now n : Z) (w w' : World) (Hon : available s = true)
    (Hmax : 0 <= BlockMaxEntries s) (Hwf : lists_wf (wdb w)) (Hcall : Cleanup s now w = (inr n, w')) :
  let rows := sender_blocklist (wdb w) in let rows' := sender_blocklist (wdb w') in
  n = Z.of_nat (length rows) - Z.of_nat (length rows') /\ Z.of_nat (length rows') <= BlockMaxEntries s /\
  correspondents (wdb w') = correspondents (wdb w) /\
  (forall a, a ∈ rows' -> a ∈ rows /\ unixMillis now < sb_expires_at_ms a) /\
  (forall b, b ∈ rows -> unixMillis now < sb_expires_at_ms b -> b ∉ rows' ->
     Z.of_nat (length rows') = BlockMaxEntries s /\ forall a, a ∈ rows' -> key_le sb_expires_at_ms sb_id b a).
Proof.
  cbv zeta. unfold Cleanup in Hcall. rewrite Hon in Hcall. cbn [negb] in Hcall.
  destruct (withTx _ w) as [[e|k] w1] eqn:E; cbn in Hcall; simplify_eq. apply retry_ok in E.
  unfold cleanup_body, capacity_excess in E. cbv zeta in E. cbn [sender_blocklist set_sender_blocklist] in E.
  set (rows := sender_blocklist (wdb w)) in *. set (expired := λ b, sb_expires_at_ms b <=? unixMillis now) in E.
  rewrite count_delete in E. set (rows1 := delete_where expired rows) in *.
  assert (Hel : forall a, a ∈ rows1 <-> a ∈ rows /\ unixMillis now < sb_expires_at_ms a)
    by (intros a; unfold rows1; rewrite delete_where_elem; unfold expired; rewrite Z.leb_gt; done).
  assert (Hnd : NoDup (sb_id <$> rows1)) by (eapply sublist_NoDup; [exact (keyed_ids _ _ _ _ (lw_block _ Hwf))|]; apply sublist_fmap, delete_where_sublist).
  destruct (Z.eqb_spec (Z.max (Z.of_nat (length rows1) - BlockMaxEntries s) 0) 0) as [H0|H0]; injection E as E1 E2; rewrite <- E2; cbn [sender_blocklist correspondents set_sender_blocklist].
  - split_and!; [lia|lia|done|intros a; apply Hel|]. intros b Hb Hl Hnb. exfalso. apply Hnb, Hel. done.
  - destruct (evict_first sb_id sb_expires_at_ms (λ _, true) (Z.to_nat (Z.max (Z.of_nat (length rows1) - BlockMaxEntries s) 0)) rows1 Hnd)
      as (Hc & Hlen & Hord & _).
    rewrite (filter_all (λ _ : sblock_row, true)) in Hc, Hlen, Hord by done. rewrite Hc in E1.
    set (rows2 := delete_where (id_in sb_id _) rows1) in *.
    split_and!; [lia|lia|done| |].
    + intros a Ha. apply Hel. eapply elem_of_sublist; [|apply delete_where_sublist]. exact Ha.
    + intros b Hb Hl Hnb. split; [lia|]. intros a Ha. by apply Hord; [apply Hel| | |].
Qed.

Lemma blocklist_cleanup_order_witness :
  let s := MkSenderBlocklistOptions (3600000 * millisecond) 1 in
  Z.of_nat (length (sender_blocklist (wdb (Cleanup s 1000000 blocked_world).2))) <= 1.
Proof.
  intros s. assert (Hw : lists_wf (wdb blocked_world)) by (apply list_run_wf; split; split; constructor).
  assert (Hcall : Cleanup s 1000000 blocked_world = (inr 1, (Cleanup s 1000000 blocked_world).2)) by (by vm_compute).
  assert (Hmax : 0 <= BlockMaxEntries s) by (by vm_compute).
  apply (blocklist_cleanup_order s 1000000 1 blocked_world _ eq_refl Hmax Hw Hcall).
Defined.
