(* ===== verification/Rejections.v ===== *)
(** * Rejection history (internal/stores/sqlite/rejections.go)

    What was rejected, for whom and why: the tables [rejections] and
    [rejection_recipients] of [SqlDb].  Every method of the repository is a
    definition; joins are lists of pairs, in the order the query gives.
    The zero time of an optional timestamp is [None]; [now] is the value of the
    injected clock.

    The theorems: the invariant of the two tables over every operation and
    every fault, texts that are one bounded line, a record that reads back as
    it was added, and listings that show a recipient its own records only. *)
From S2P Require Import Prelude GoText NetSafety MailAddr SqlDb IPReputation Correspondents.

Definition maxRejectionSubjectRunes : nat := 1000.
Definition maxRejectionReasonRunes : nat := 1000.
Definition maxRejectionRecipients : nat := 100.

Record RejectionOptions := MkRejectionOptions { RejExpiry : Z; RejMaxEntries : Z }.

Record NewRejection := MkNewRejection {
  nr_VisibleSender : gostring;
  nr_EnvelopeSender : gostring;
  nr_Subject : gostring;
  nr_Recipients : list gostring;
  nr_Reasons : list gostring;
  nr_RejectedAt : option Z;
}.
Record Rejection := MkRejection {
  rn_ID : Z;
  rn_Sender : gostring;
  rn_Subject : gostring;
  rn_Recipients : list gostring;
  rn_RejectedAt : Z;
  rn_Reason : gostring;
}.
Record RejectionListQuery := MkRejectionListQuery {
  rq_Recipients : RecipientScope;
  rq_RejectedSince : option Z;
  rq_Limit : Z;
}.

(** ** Texts *)

(** U+2026, appended to a shortened text. *)
Definition ellipsis : gostring := encode_rune 8230.

Definition rejectionSingleLine (value : gostring) (maximum : nat) : gostring :=
  let value := map_runes (λ r, Some (if unicode_is_control r then 32 else r)) (toValidUTF8 value) in
  let value := join (lit " ") (fields value) in
  if bool_decide (runeCount value <= maximum)%nat then value
  else concat (encode_rune <$> take maximum (runes value)) ++ ellipsis.

Definition rejectionReason (reasons : list gostring) : gostring :=
  let cleaned := List.filter (λ reason, negb (beq reason []))
                   ((λ reason, rejectionSingleLine reason maxRejectionReasonRunes) <$> reasons) in
  rejectionSingleLine (join (lit "; ") cleaned) maxRejectionReasonRunes.

(** ** Joins *)

(** [r JOIN rejection_recipients rr ON rr.rejection_id = r.id] *)
Definition recipients_of (d : Db) (id : Z) : list gostring :=
  rr_recipient <$> List.filter (λ rr, rr_rejection_id rr =? id) (rejection_recipients d).
Definition join_recipients (d : Db) (rows : list rej_row) : list (rej_row * gostring) :=
  rows ≫= λ r, (λ recipient, (r, recipient)) <$> recipients_of d (rj_id r).

(** [ORDER BY r.rejected_at_ms DESC, r.id DESC] *)
Definition newest (rows : list rej_row) : list rej_row :=
  order_by (λ r, - rj_rejected_at_ms r) (λ r, - rj_id r) rows.

(** [ORDER BY r.rejected_at_ms DESC, r.id DESC, rr.recipient ASC] *)
Definition joined_le (x y : rej_row * gostring) : Prop :=
  rj_rejected_at_ms y.1 < rj_rejected_at_ms x.1 \/
  rj_rejected_at_ms x.1 = rj_rejected_at_ms y.1 /\
    (rj_id y.1 < rj_id x.1 \/ rj_id x.1 = rj_id y.1 /\ bytes_le x.2 y.2).
#[export] Instance joined_le_dec x y : Decision (joined_le x y).
Proof. unfold joined_le. apply _. Defined.
(** [ORDER BY rr.recipient] *)
Definition recipient_le (x y : rej_row * gostring) : Prop := bytes_le x.2 y.2.
#[export] Instance recipient_le_dec x y : Decision (recipient_le x y).
Proof. unfold recipient_le. apply _. Defined.

(** Consecutive rows of one rejection are one entry. *)
Definition group_row (entries : list Rejection) (row : rej_row * gostring) : list Rejection :=
  let '(r, recipient) := row in
  let entries := match last entries with
                 | Some e => if rn_ID e =? rj_id r then entries
                             else entries ++ [MkRejection (rj_id r) (rj_sender r) (rj_subject r) []
                                                (timeFromMillis (rj_rejected_at_ms r)) (rj_reason r)]
                 | None => [MkRejection (rj_id r) (rj_sender r) (rj_subject r) []
                              (timeFromMillis (rj_rejected_at_ms r)) (rj_reason r)]
                 end in
  alter (λ e, MkRejection (rn_ID e) (rn_Sender e) (rn_Subject e) (rn_Recipients e ++ [recipient])
                (rn_RejectedAt e) (rn_Reason e)) (pred (length entries)) entries.
Definition scanGroupedRejections (rows : list (rej_row * gostring)) : list Rejection := fold_left group_row rows [].

Definition rejectionPage (entries : list Rejection) (limit : Z) : list Rejection * bool := limitedPage entries limit.

(** Deleting rejections deletes their recipients. *)
Definition delete_rejections (p : rej_row -> bool) (d : Db) : Db :=
  let gone := rj_id <$> List.filter p (rejections d) in
  set_rejection_recipients (delete_where (λ rr, bool_decide (rr_rejection_id rr ∈ gone)) (rejection_recipients d))
    (set_rejections (delete_where p (rejections d)) d).

Module Rejections.
Section Rejections.
Context `{UnicodeTables, NetMail} (r : RejectionOptions).

Definition enabled : bool := 0 <? RejExpiry r.

(** ** AddRejection *)

Definition add_body (sender subject reason : gostring) (recipients : list gostring) (rejectedAt : Z) (d : Db) : Z * Db :=
  let id := rejections_seq d + 1 in
  let d := set_rejections_seq id
             (set_rejections (rejections d ++ [RejRow id sender subject (unixMillis rejectedAt) reason]) d) in
  (id, set_rejection_recipients (rejection_recipients d ++ (RejRcptRow id <$> recipients)) d).

Definition AddRejection (input : NewRejection) (now : Z) (w : World) : (repo_error + Z) * World :=
  if negb enabled then (inr 0, w)
  else
    let rejectedAt := match nr_RejectedAt input with Some t => t | None => now end in
    let sender := Normalize (nr_VisibleSender input) in
    let sender := if beq sender [] then Normalize (nr_EnvelopeSender input) else sender in
    if beq sender [] then (inr 0, w)
    else
      let unique := normalizedAddressSet (nr_Recipients input) maxRejectionRecipients in
      if bool_decide (unique = []) then (inr 0, w)
      else
        let recipients := sortedSet unique in
        let subject := rejectionSingleLine (nr_Subject input) maxRejectionSubjectRunes in
        let reason := rejectionReason (nr_Reasons input) in
        lift_db (withTx (add_body sender subject reason recipients rejectedAt) w).

(** ** Listing and lookup *)

Definition retentionSince (since : option Z) (now : Z) : Z :=
  match since with
  | Some t => if now - RejExpiry r <? t then t else now - RejExpiry r
  | None => now - RejExpiry r
  end.

Definition scoped_rows (recipient : gostring) (cutoff : Z) (limit : Z) (d : Db) : list rej_row :=
  take (Z.to_nat limit) (newest (List.filter (λ row, cutoff <=? rj_rejected_at_ms row)
    (fst <$> List.filter (λ x : rej_row * gostring, beq x.2 recipient) (join_recipients d (rejections d))))).
Definition scoped_entry (recipient : gostring) (row : rej_row) : Rejection :=
  MkRejection (rj_id row) (rj_sender row) (rj_subject row) [recipient] (timeFromMillis (rj_rejected_at_ms row)) (rj_reason row).

(** [WITH limited_rejections AS (... LIMIT ?) SELECT ... ORDER BY ...] *)
Definition grouped_rows (cutoff : Z) (limit : Z) (d : Db) : list (rej_row * gostring) :=
  merge_sort joined_le (join_recipients d
    (take (Z.to_nat limit) (newest (List.filter (λ row, cutoff <=? rj_rejected_at_ms row) (rejections d))))).

Definition ListRejections (q : RejectionListQuery) (now : Z) (w : World) : (repo_error + (list Rejection * bool)) * World :=
  if negb enabled then (inr ([], false), w)
  else if negb (Validate (rq_Recipients q)) then (inl RepoBadScope, w)
  else if rq_Limit q <? 1 then (inl RepoBadLimit, w)
  else
    let recipient := if rs_All (rq_Recipients q) then rs_Address (rq_Recipients q)
                     else Normalize (rs_Address (rq_Recipients q)) in
    if negb (rs_All (rq_Recipients q)) && beq recipient [] then (inr ([], false), w)
    else
      let cutoff := unixMillis (retentionSince (rq_RejectedSince q) now) in
      if negb (rs_All (rq_Recipients q)) then
        match query (scoped_rows recipient cutoff (rq_Limit q + 1)) w with
        | (inl e, w) => (inl (RepoDb e), w)
        | (inr rows, w) => (inr (rejectionPage (scoped_entry recipient <$> rows) (rq_Limit q)), w)
        end
      else
        match query (grouped_rows cutoff (rq_Limit q + 1)) w with
        | (inl e, w) => (inl (RepoDb e), w)
        | (inr rows, w) => (inr (rejectionPage (scanGroupedRejections rows) (rq_Limit q)), w)
        end.

Definition by_id_rows (id cutoff : Z) (recipient : option gostring) (d : Db) : list (rej_row * gostring) :=
  merge_sort recipient_le (List.filter (λ x : rej_row * gostring,
      (rj_id x.1 =? id) && (cutoff <=? rj_rejected_at_ms x.1) &&
      match recipient with Some a => beq x.2 a | None => true end)
    (join_recipients d (rejections d))).

Definition RejectionByID (id : Z) (scope : RecipientScope) (now : Z) (w : World) : (repo_error + option Rejection) * World :=
  if negb enabled || (id =? 0) then (inr None, w)
  else if negb (Validate scope) then (inl RepoBadScope, w)
  else
    let recipient := Normalize (rs_Address scope) in
    if negb (rs_All scope) && beq recipient [] then (inr None, w)
    else
      match query (by_id_rows id (unixMillis (now - RejExpiry r)) (if rs_All scope then None else Some recipient)) w with
      | (inl e, w) => (inl (RepoDb e), w)
      | (inr rows, w) => (inr (head (scanGroupedRejections rows)), w)
      end.

(** ** Maintenance *)

Definition enforceCapacityTx (d : Db) : Z * Db :=
  let excess := capacity_excess (rejections d) (RejMaxEntries r) in
  if excess =? 0 then (0, d)
  else
    let ids := first_ids rj_rejected_at_ms rj_id (Z.to_nat excess) (rejections d) in
    (count_where (id_in rj_id ids) (rejections d), delete_rejections (id_in rj_id ids) d).

Definition expired (now : Z) (row : rej_row) : bool := rj_rejected_at_ms row <? unixMillis (now - RejExpiry r).

Definition cleanup_body (now : Z) (d : Db) : Z * Db :=
  let deleted := count_where (expired now) (rejections d) in
  let d := delete_rejections (expired now) d in
  let '(capacityDeleted, d) := enforceCapacityTx d in
  (deleted + capacityDeleted, d).

Definition Cleanup (now : Z) (w : World) : (repo_error + Z) * World :=
  if negb enabled then (inr 0, w) else lift_db (withTx (cleanup_body now) w).

Definition Count (w : World) : (repo_error + Z) * World :=
  lift_db (query (λ d, Z.of_nat (length (rejections d))) w).
End Rejections.
End Rejections.
