(* ===== verification/RejectionsSpec.v ===== *)
(** * Rejection history: invariant, listings and lookups

    The tables of [Rejections] keep an invariant ([rej_wf]) over every
    history of operations and every pattern of faults; listings and lookups
    equal a declarative reading of the tables ([listing]); a record reads back
    as it was added; the stored texts are one bounded line. *)
From S2P Require Import Prelude GoText Runes NetSafety MailAddr SqlDb IPReputation IPReputationFacts Correspondents SenderBlocklist SenderListsFacts SenderListsSpec Rejections.

(** ** Byte order *)

#[export] Instance bytes_le_total : Total bytes_le.
Proof. intros a b. apply bytes_leb_total. Qed.
#[export] Instance bytes_le_trans : Transitive bytes_le.
Proof. intros a b c. apply bytes_leb_trans. Qed.
#[export] Instance bytes_le_antisym : AntiSymm (=) bytes_le.
Proof. intros a b. apply bytes_leb_antisym. Qed.
#[export] Instance joined_le_total : Total joined_le.
Proof. intros x y. unfold joined_le. 
  destruct (Z.lt_total (rj_rejected_at_ms x.1) (rj_rejected_at_ms y.1)) as [|[|]], (Z.lt_total (rj_id x.1) (rj_id y.1)) as [|[|]],
    (total bytes_le x.2 y.2); auto 6.
Qed.
#[export] Instance joined_le_trans : Transitive joined_le.
Proof.
  intros x y z. unfold joined_le. intros H1 H2. destruct H1 as [|[E1 [|[E1' L1]]]], H2 as [|[E2 [|[E2' L2]]]]; try lia.
  right. split; [lia|]. right. split; [lia|]. by etrans.
Qed.
#[export] Instance recipient_le_total : Total recipient_le.
Proof. intros x y. apply bytes_leb_total. Qed.
#[export] Instance recipient_le_trans : Transitive recipient_le.
Proof. intros x y z. apply bytes_leb_trans. Qed.

Lemma sortedSet_sorted l : StronglySorted bytes_le (sortedSet l).
Proof. apply Sorted_StronglySorted; [apply _|]. apply Sorted_merge_sort; apply _. Qed.
Lemma sortedSet_perm l : sortedSet l ≡ₚ l.
Proof. apply merge_sort_Permutation. Qed.
Lemma sortedSet_id l : StronglySorted bytes_le l -> sortedSet l = l.
Proof. intros. apply (StronglySorted_unique bytes_le); [apply sortedSet_sorted|done|apply sortedSet_perm]. Qed.

(** ** One bounded line *)

Lemma rejectionSingleLine_clean value :
  let v := join (lit " ") (fields (map_runes (λ r, Some (if unicode_is_control r then 32 else r)) (toValidUTF8 value))) in
  validString v = true /\ Forall (λ r, unicode_is_control r = false) (runes v).
Proof.
  set (f r := if unicode_is_control r then 32 else r).
  assert (Hf : forall r, valid_rune r = true -> valid_rune (f r) = true) by (intros r Hr; unfold f; by case_match).
  set (m := map_runes (λ r, Some (f r)) (toValidUTF8 value)). assert (Hm : validString m = true) by apply valid_map.
  assert (Hc : Forall (λ r, unicode_is_control r = false) (runes m)).
  { unfold m. rewrite runes_map by done. apply Forall_fmap, Forall_forall. intros r _. unfold f, compose. by case_match. }
  pose proof (fields_words _ m Hm Hc) as Hw. cbv zeta. fold m. split.
  - apply valid_join; [done|]. eapply Forall_impl; [exact Hw|]. by intros x (_ & ? & _).
  - apply runes_join; [done|by repeat constructor|]. eapply Forall_impl; [exact Hw|].
    intros x (_ & ? & Hx). split; [done|]. eapply Forall_impl; [exact Hx|]. by intros r [_ ?].
Qed.

Definition one_line (maximum : nat) (t : gostring) : Prop :=
  validString t = true /\ (runeCount t <= S maximum)%nat /\ Forall (λ r, unicode_is_control r = false) (runes t).

Lemma rejectionSingleLine_line value maximum : one_line maximum (rejectionSingleLine value maximum).
Proof.
  destruct (rejectionSingleLine_clean value) as [Hv Hc]. unfold rejectionSingleLine. cbv zeta in *.
  set (v := join _ _) in *. case_bool_decide as Hn; [split_and!; [done|lia|done]|].
  assert (Hva : validString (concat (encode_rune <$> take maximum (runes v))) = true) by apply valid_encode.
  assert (Hr : runes (concat (encode_rune <$> take maximum (runes v)) ++ ellipsis) = take maximum (runes v) ++ [8230]).
  { rewrite runes_app_valid by done. rewrite runes_encode, fmap_take, coerce_runes. done. }
  split_and!; [by apply valid_app| |].
  - rewrite runeCount_runes, Hr, length_app, length_take. cbn. lia.
  - rewrite Hr. apply Forall_app. split; [by apply Forall_take|by repeat constructor].
Qed.

Lemma rejectionReason_line reasons : one_line maxRejectionReasonRunes (rejectionReason reasons).
Proof. unfold rejectionReason. apply rejectionSingleLine_line. Qed.

(** ** The invariant *)

Definition rr_key (rr : rejrcpt_row) : Z * gostring := (rr_rejection_id rr, rr_recipient rr).
Definition row_text_ok (row : rej_row) : Prop :=
  rj_sender row <> [] /\ one_line maxRejectionSubjectRunes (rj_subject row) /\ one_line maxRejectionReasonRunes (rj_reason row).

Record rej_wf (d : Db) : Prop := RejWf {
  rw_ids : NoDup (rj_id <$> rejections d);
  rw_range : Forall (λ row, 1 <= rj_id row <= rejections_seq d) (rejections d);
  rw_text : Forall row_text_ok (rejections d);
  rw_keys : NoDup (rr_key <$> rejection_recipients d);
  rw_refs : Forall (λ rr, rr_rejection_id rr ∈ (rj_id <$> rejections d)) (rejection_recipients d);
  rw_addresses : Forall (λ rr, rr_recipient rr <> []) (rejection_recipients d);
  rw_recipients : Forall (λ row, (1 <= length (recipients_of d (rj_id row)) <= maxRejectionRecipients)%nat) (rejections d);
  rw_seq : 0 <= rejections_seq d;
}.

Lemma emptyDb_rej_wf : rej_wf emptyDb.
Proof. split; cbn; constructor || lia. Qed.

Lemma normalizedAddressSet_nodup `{UnicodeTables, NetMail} values n : NoDup (normalizedAddressSet values n).
Proof.
  unfold normalizedAddressSet. assert (Hg : forall acc, NoDup acc -> NoDup (fold_left (add_address n) values acc)).
  { induction values as [|v values IH]; intros acc Ha; [done|]. cbn [fold_left]. apply IH. unfold add_address.
    case_bool_decide; [done|]. cbv zeta. destruct (beq (Normalize v) []); [done|]. cbn [orb].
    case_bool_decide; [done|]. apply NoDup_app. split_and!; [done|set_solver|apply NoDup_singleton]. }
  apply Hg, NoDup_nil_2.
Qed.

Lemma recipients_of_nodup d id : rej_wf d -> NoDup (recipients_of d id).
Proof.
  intros Hw. pose proof (rw_keys d Hw) as Hk. unfold recipients_of. induction (rejection_recipients d) as [|rr l IH]; [constructor|].
  cbn [fmap list_fmap] in Hk. inversion_clear Hk as [|? ? Hn Hl]. cbn [List.filter]. destruct (rr_rejection_id rr =? id) eqn:E; [|auto].
  cbn [fmap list_fmap]. constructor; [|auto]. intros (x & Hx & Hin)%list_elem_of_fmap. apply Hn.
  apply list_elem_of_In, filter_In in Hin as [Hin Hxi]. apply list_elem_of_fmap. exists x. split; [|by apply list_elem_of_In].
  unfold rr_key. f_equal; [lia|done].
Qed.

Lemma recipients_of_elem d id a : a ∈ recipients_of d id <-> RejRcptRow id a ∈ rejection_recipients d.
Proof.
  unfold recipients_of. rewrite list_elem_of_fmap. split.
  - intros ([i x] & -> & Hin). apply list_elem_of_In, filter_In in Hin as [Hin Hx]. cbn in *. apply list_elem_of_In.
    by assert (i = id) as <- by lia.
  - intros Hin. exists (RejRcptRow id a). split; [done|]. apply list_elem_of_In, filter_In. split; [by apply list_elem_of_In|apply Z.eqb_refl].
Qed.

(** What [delete_rejections] leaves of the recipients of a kept row. *)
Lemma delete_rejections_recipients p d id : id ∉ (rj_id <$> List.filter p (rejections d)) ->
  recipients_of (delete_rejections p d) id = recipients_of d id.
Proof.
  intros Hid. unfold recipients_of, delete_rejections. cbn [rejection_recipients set_rejection_recipients set_rejections].
  f_equal. unfold delete_where. rewrite filter_filter. apply filter_ext_elem. intros rr Hrr. cbn.
  destruct (rr_rejection_id rr =? id) eqn:E; [|by rewrite andb_false_r].
  rewrite bool_decide_false; [done|]. by assert (rr_rejection_id rr = id) as -> by lia.
Qed.

Lemma delete_rejections_kept p d row : rej_wf d -> row ∈ rejections d -> p row = false ->
  rj_id row ∉ (rj_id <$> List.filter p (rejections d)).
Proof.
  intros Hw Hrow Hp (row' & He & Hin)%list_elem_of_fmap. apply list_elem_of_In, filter_In in Hin as [Hin Hp'].
  apply list_elem_of_In in Hin. by rewrite (row_unique rj_id (rejections d) row row' (rw_ids d Hw) Hrow Hin He) in Hp; rewrite Hp in Hp'.
Qed.

Lemma delete_rejections_wf p d : rej_wf d -> rej_wf (delete_rejections p d).
Proof.
  intros Hw. pose proof Hw as [H1 H2 H3 H4 H5 H8 H6 H7]. pose proof (delete_where_sublist p (rejections d)) as Hs.
  unfold delete_rejections in *. split; cbn [rejections rejection_recipients rejections_seq set_rejections set_rejection_recipients]; try done.
  - eapply sublist_NoDup; [exact H1|by apply sublist_fmap].
  - by eapply sublist_Forall.
  - by eapply sublist_Forall.
  - eapply sublist_NoDup; [exact H4|apply sublist_fmap, delete_where_sublist].
  - apply Forall_forall. intros rr [Hrr Hd]%delete_where_elem. apply bool_decide_eq_false in Hd.
    rewrite Forall_forall in H5. apply H5 in Hrr. apply list_elem_of_fmap in Hrr as (row & He & Hrow).
    apply list_elem_of_fmap. exists row. split; [done|]. apply delete_where_elem. split; [done|].
    destruct (p row) eqn:Ep; [|done]. exfalso. apply Hd. rewrite He. apply list_elem_of_fmap. exists row.
    split; [done|]. apply list_elem_of_In, filter_In. split; [by apply list_elem_of_In|done].
  - eapply sublist_Forall; [apply delete_where_sublist|done].
  - apply Forall_forall. intros row [Hrow Hp]%delete_where_elem.
    pose proof (delete_rejections_recipients p d (rj_id row) (delete_rejections_kept p d row Hw Hrow Hp)) as E.
    unfold delete_rejections in E. rewrite E. rewrite Forall_forall in H6. auto.
Qed.

Section Ops.
Context `{UnicodeTables, NetMail} (r : RejectionOptions).

Lemma add_body_recipients sender subject reason recipients t d id : rej_wf d ->
  recipients_of (Rejections.add_body sender subject reason recipients t d).2 id =
  if id =? rejections_seq d + 1 then recipients else recipients_of d id.
Proof.
  intros Hw. unfold Rejections.add_body, recipients_of.
  cbn [snd rejection_recipients set_rejection_recipients set_rejections_seq set_rejections].
  rewrite List.filter_app, fmap_app. destruct (Z.eqb_spec id (rejections_seq d + 1)) as [-> |Hne].
  - rewrite filter_none, filter_all; cbn [fmap list_fmap app].
    + rewrite <- list_fmap_compose. apply list_fmap_id.
    + intros rr (x & -> & _)%list_elem_of_fmap. apply Z.eqb_refl.
    + intros rr Hrr. apply Z.eqb_neq. pose proof (rw_refs d Hw) as H5. rewrite Forall_forall in H5. apply H5 in Hrr.
      apply list_elem_of_fmap in Hrr as (row & -> & Hrow). pose proof (rw_range d Hw) as H2. rewrite Forall_forall in H2.
      apply H2 in Hrow. lia.
  - rewrite (filter_none _ (RejRcptRow _ <$> recipients)); [by rewrite app_nil_r|].
    intros rr (x & -> & _)%list_elem_of_fmap. apply Z.eqb_neq. cbn. lia.
Qed.

Lemma rejection_add_wf sender subject reason recipients t d :
  rej_wf d -> row_text_ok (RejRow 0 sender subject 0 reason) -> NoDup recipients ->
  Forall (λ a, a <> []) recipients -> (1 <= length recipients <= maxRejectionRecipients)%nat ->
  rej_wf (Rejections.add_body sender subject reason recipients t d).2.
Proof.
  intros Hw Ht Hn Ha Hl. pose proof (add_body_recipients sender subject reason recipients t d) as Hrec. pose proof Hw as [H1 H2 H3 H4 H5 H8 H6 H7].
  assert (Hfresh : forall row, row ∈ rejections d -> rj_id row <> rejections_seq d + 1).
  { intros row Hrow. rewrite Forall_forall in H2. apply H2 in Hrow. lia. }
  unfold Rejections.add_body in *. cbn [snd] in *.
  split; cbn [rejections rejection_recipients rejections_seq set_rejections_seq set_rejections set_rejection_recipients]; rewrite ?fmap_app.
  - apply NoDup_app. split_and!; [done| |apply NoDup_singleton]. intros x (row & -> & Hrow)%list_elem_of_fmap Hx.
    apply list_elem_of_singleton in Hx. cbn in Hx. by apply (Hfresh row).
  - apply Forall_app. split; [eapply Forall_impl; [exact H2|]; cbn; lia|]. apply Forall_singleton. cbn. lia.
  - apply Forall_app. split; [done|]. by apply Forall_singleton.
  - apply NoDup_app. split_and!; [done| |].
    + intros k (rr & -> & Hrr)%list_elem_of_fmap Hk. rewrite <- list_fmap_compose in Hk. apply list_elem_of_fmap in Hk as (x & Hx & _).
      rewrite Forall_forall in H5. apply H5 in Hrr. apply list_elem_of_fmap in Hrr as (row & He & Hrow). unfold rr_key, compose in Hx. cbn in Hx.
      apply (Hfresh row Hrow). congruence.
    + rewrite <- list_fmap_compose. apply NoDup_fmap_2; [|done]. intros x y Hxy. unfold compose, rr_key in Hxy. cbn in Hxy. congruence.
  - apply Forall_app. split.
    + eapply Forall_impl; [exact H5|]. intros rr Hrr. apply elem_of_app. by left.
    + apply Forall_fmap, Forall_forall. intros x _. cbn. apply elem_of_app. right. by apply list_elem_of_singleton.
  - apply Forall_app. split; [done|]. by apply Forall_fmap.
  - apply Forall_forall. intros row Hrow. rewrite Hrec by done. apply elem_of_app in Hrow as [Hrow|Hrow].
    + rewrite (proj2 (Z.eqb_neq _ _)) by by apply Hfresh. rewrite Forall_forall in H6. auto.
    + apply list_elem_of_singleton in Hrow as ->. cbn [rj_id]. by rewrite Z.eqb_refl.
  - cbn. lia.
Qed.

Lemma AddRejection_wf input now w : rej_wf (wdb w) -> rej_wf (wdb (Rejections.AddRejection r input now w).2).
Proof.
  intros Hw. unfold Rejections.AddRejection. cbv zeta. destruct (Rejections.enabled r); [|done]. cbn [negb].
  set (sender := if beq (Normalize (nr_VisibleSender input)) [] then _ else _).
  destruct (beq sender []) eqn:Es; [done|]. case_bool_decide as Hu; [done|].
  assert (Hb : forall f : Db -> Z * Db, (forall d, rej_wf d -> rej_wf (f d).2) -> rej_wf (wdb (lift_db (withTx f w)).2)).
  { intros f Hf. pose proof (retry_preserves busyRetries f rej_wf w Hf Hw) as HH. unfold withTx, lift_db.
    by destruct (retry busyRetries f w) as [[e|x] w']. }
  apply Hb. intros d Hd. apply rejection_add_wf; [done| | | |].
  - refine (conj _ (conj _ _)); cbn [rj_sender rj_subject rj_reason]; [by apply beq_nil_false|apply rejectionSingleLine_line|apply rejectionReason_line].
  - rewrite sortedSet_perm. apply normalizedAddressSet_nodup.
  - apply Forall_forall. intros x Hx. rewrite sortedSet_elem in Hx. by apply normalizedAddressSet_sound in Hx as [? _].
  - rewrite sortedSet_perm. split; [destruct (normalizedAddressSet _ _); [done|cbn; lia]|apply normalizedAddressSet_bound].
Qed.

Lemma cleanup_body_rej_wf now d : rej_wf d -> rej_wf (Rejections.cleanup_body r now d).2.
Proof.
  intros Hw. unfold Rejections.cleanup_body, Rejections.enforceCapacityTx. cbv zeta. case_match eqn:E. case_match; simplify_eq; cbn [snd];
    [by apply delete_rejections_wf|]. apply delete_rejections_wf. by apply delete_rejections_wf.
Qed.
End Ops.

(** ** Histories *)

Inductive rej_op :=
  | OpAddRejection (input : NewRejection) | OpListRejections (q : RejectionListQuery)
  | OpRejectionByID (id : Z) (scope : RecipientScope) | OpCleanupRejections | OpCountRejections.

Section Histories.
Context `{UnicodeTables, NetMail} (r : RejectionOptions).

Definition rej_apply (w : World) (o : rej_op * Z) : World :=
  match o.1 with
  | OpAddRejection input => (Rejections.AddRejection r input o.2 w).2
  | OpListRejections q => (Rejections.ListRejections r q o.2 w).2
  | OpRejectionByID id scope => (Rejections.RejectionByID r id scope o.2 w).2
  | OpCleanupRejections => (Rejections.Cleanup r o.2 w).2
  | OpCountRejections => (Rejections.Count w).2
  end.
Definition rej_run (w : World) (ops : list (rej_op * Z)) : World := fold_left rej_apply ops w.

Lemma query_wdb {R} (f : Db -> R) w : wdb (query f w).2 = wdb w.
Proof. destruct (query f w) as [x w'] eqn:E. by apply query_db in E. Qed.

Lemma rej_apply_wf w o : rej_wf (wdb w) -> rej_wf (wdb (rej_apply w o)).
Proof.
  intros Hw. destruct o as [[input|q|id scope| |] now]; unfold rej_apply; cbn [fst snd].
  - by apply AddRejection_wf.
  - unfold Rejections.ListRejections. repeat (case_match; try done); cbn [snd]; match goal with E : query ?f _ = _ |- _ => apply query_db in E; by rewrite E end.
  - unfold Rejections.RejectionByID. repeat (case_match; try done); cbn [snd]; match goal with E : query ?f _ = _ |- _ => apply query_db in E; by rewrite E end.
  - unfold Rejections.Cleanup. case_match; [done|].
    pose proof (retry_preserves busyRetries (Rejections.cleanup_body r now) rej_wf w (λ d, cleanup_body_rej_wf r now d) Hw) as Hp.
    unfold withTx, lift_db. by destruct (retry busyRetries (Rejections.cleanup_body r now) w) as [[e|x] w'].
  - unfold Rejections.Count, lift_db. destruct (query _ w) as [[e|x] w'] eqn:E; apply query_db in E; cbn; by rewrite E.
Qed.

(** whatever is recorded, listed, looked up and cleaned, in whatever order
    and with whatever database faults, the two tables stay consistent: rejection
    IDs are unique and positive, every recipient row refers to a
    rejection and appears once, every rejection has between one and a hundred
    recipients and a non-empty sender, and subject and reason are one line of
    valid text of at most a thousand characters and an ellipsis. *)
Theorem rejection_history_invariant (ops : list (rej_op * Z)) (schedule : list attempt) :
  rej_wf (wdb (rej_run (MkWorld emptyDb schedule) ops)).
Proof.
  unfold rej_run. assert (Hg : forall w, rej_wf (wdb w) -> rej_wf (wdb (fold_left rej_apply ops w))).
  { induction ops as [|o ops IH]; intros w Hw; [done|]. cbn [fold_left]. apply IH. by apply rej_apply_wf. }
  apply Hg. exact emptyDb_rej_wf.
Qed.
End Histories.

(** ** Listings and lookups *)

(** The recipients of a rejection that a scope may see. *)
Definition in_scope (recipient : option gostring) (a : gostring) : bool :=
  match recipient with Some x => beq a x | None => true end.
Definition visible (recipient : option gostring) (d : Db) (row : rej_row) : list gostring :=
  List.filter (in_scope recipient) (recipients_of d (rj_id row)).
Definition shows (recipient : option gostring) (d : Db) (row : rej_row) : bool := negb (bool_decide (visible recipient d row = [])).
(** The entry a scope sees of a rejection. *)
Definition view_of (recipient : option gostring) (d : Db) (row : rej_row) : Rejection :=
  MkRejection (rj_id row) (rj_sender row) (rj_subject row) (sortedSet (visible recipient d row))
    (timeFromMillis (rj_rejected_at_ms row)) (rj_reason row).
(** All entries a scope sees from a cutoff on, newest first. *)
Definition listing (recipient : option gostring) (cutoff : Z) (d : Db) : list Rejection :=
  view_of recipient d <$> newest (List.filter (λ row, (cutoff <=? rj_rejected_at_ms row) && shows recipient d row) (rejections d)).

Lemma limitedPage_take {A} (l : list A) (limit : Z) : 0 <= limit ->
  limitedPage (take (Z.to_nat (limit + 1)) l) limit = limitedPage l limit.
Proof.
  intros Hl. unfold limitedPage. rewrite length_take.
  destruct (Z.ltb_spec limit (Z.of_nat (length l))) as [H1|H1].
  - rewrite (proj2 (Z.ltb_lt _ _)) by lia. f_equal. rewrite take_take. f_equal. lia.
  - rewrite (proj2 (Z.ltb_ge _ _)) by lia. f_equal. apply take_ge. lia.
Qed.

Lemma visible_all d row : visible None d row = recipients_of d (rj_id row).
Proof. unfold visible. by apply filter_all. Qed.

Lemma filter_beq_nodup (a : gostring) l : NoDup l -> List.filter (λ x, beq x a) l = if bool_decide (a ∈ l) then [a] else [].
Proof.
  induction 1 as [|x l Hx Hl IH]; [done|]. cbn [List.filter]. destruct (beq x a) eqn:E.
  - apply beq_true in E as ->. rewrite bool_decide_true by set_solver. f_equal. rewrite IH. by rewrite bool_decide_false.
  - rewrite IH. assert (x <> a) by (intros ->; by rewrite (proj2 (beq_true a a)) in E). do 2 case_bool_decide; set_solver.
Qed.

Lemma visible_some a d row : rej_wf d ->
  visible (Some a) d row = if bool_decide (a ∈ recipients_of d (rj_id row)) then [a] else [].
Proof. intros Hw. apply filter_beq_nodup. by apply recipients_of_nodup. Qed.

(** The rows of the scoped join are the rejections of that recipient, once each. *)
Lemma scoped_join d rows a : rej_wf d ->
  fst <$> List.filter (λ x : rej_row * gostring, beq x.2 a) (join_recipients d rows) = List.filter (shows (Some a) d) rows.
Proof.
  intros Hw. unfold join_recipients. induction rows as [|row rows IH]; [done|]. cbn [mbind list_bind List.filter].
  rewrite List.filter_app, fmap_app. rewrite IH. unfold shows at 2. rewrite visible_some by done.
  assert (E : List.filter (λ x : rej_row * gostring, beq x.2 a) ((λ recipient, (row, recipient)) <$> recipients_of d (rj_id row))
              = (λ recipient, (row, recipient)) <$> List.filter (λ x, beq x a) (recipients_of d (rj_id row))).
  { induction (recipients_of d (rj_id row)) as [|x l IHl]; [done|]. cbn. destruct (beq x a); cbn; by rewrite IHl. }
  rewrite E, filter_beq_nodup by by apply recipients_of_nodup. by case_bool_decide.
Qed.

(** Sorting a joined list sorts each group. *)
Definition sorted_groups (d : Db) (rows : list rej_row) : list (rej_row * gostring) :=
  rows ≫= λ row, (λ a, (row, a)) <$> sortedSet (recipients_of d (rj_id row)).

Lemma group_elem d rows x : x ∈ sorted_groups d rows -> x.1 ∈ rows.
Proof. unfold sorted_groups. rewrite list_elem_of_bind. intros (row & (a & -> & _)%list_elem_of_fmap & Hr). done. Qed.

Lemma sorted_groups_sorted d rows : NoDup (rj_id <$> rows) ->
  StronglySorted (key_le (λ r, - rj_rejected_at_ms r) (λ r, - rj_id r)) rows ->
  StronglySorted joined_le (sorted_groups d rows).
Proof.
  intros Hn Hs. induction Hs as [|row rows Hs IH Hall]; [constructor|].
  cbn [fmap list_fmap] in Hn. inversion_clear Hn as [|? ? Hni Hn']. specialize (IH Hn').
  unfold sorted_groups. cbn [mbind list_bind]. fold (sorted_groups d rows).
  pose proof (sortedSet_sorted (recipients_of d (rj_id row))) as Hg.
  induction Hg as [|a l Hl IHl Ha]; [exact IH|]. cbn [fmap list_fmap app]. constructor; [exact IHl|].
  apply Forall_app. split.
  - apply Forall_fmap. eapply Forall_impl; [exact Ha|]. intros b Hb. unfold joined_le. cbn. auto.
  - apply Forall_forall. intros [row' b] Hin. apply group_elem in Hin. cbn in Hin. rewrite Forall_forall in Hall.
    specialize (Hall _ Hin). unfold key_le in Hall. unfold joined_le. cbn.
    assert (rj_id row <> rj_id row') by (intros E; apply Hni; rewrite E; by apply list_elem_of_fmap_2). lia.
Qed.

Lemma sorted_groups_perm d rows : join_recipients d rows ≡ₚ sorted_groups d rows.
Proof.
  unfold join_recipients, sorted_groups. induction rows as [|row rows IH]; [done|]. cbn [mbind list_bind].
  apply Permutation_app; [|exact IH]. by rewrite sortedSet_perm.
Qed.

Lemma joined_le_antisym rows x y : NoDup (rj_id <$> rows) -> x.1 ∈ rows -> y.1 ∈ rows -> joined_le x y -> joined_le y x -> x = y.
Proof.
  intros Hn Hx Hy H1 H2. destruct x as [x a], y as [y b]. cbn [fst] in *. unfold joined_le in *. cbn [fst snd] in *.
  assert (E : rj_id x = rj_id y) by lia. assert (x = y) as <- by by eapply (row_unique rj_id rows). f_equal.
  destruct H1 as [|[_ [|[_ H1]]]]; try lia. destruct H2 as [|[_ [|[_ H2]]]]; try lia. by apply bytes_leb_antisym.
Qed.

Lemma joined_sorted d rows : NoDup (rj_id <$> rows) ->
  StronglySorted (key_le (λ r, - rj_rejected_at_ms r) (λ r, - rj_id r)) rows ->
  merge_sort joined_le (join_recipients d rows) = sorted_groups d rows.
Proof.
  intros Hn Hs.
  assert (Hp : merge_sort joined_le (join_recipients d rows) ≡ₚ sorted_groups d rows).
  { rewrite merge_sort_Permutation. apply sorted_groups_perm. }
  apply (StronglySorted_unique_strong joined_le); [| |by apply sorted_groups_sorted|exact Hp].
  - intros x y Hx Hy. rewrite Hp in Hx. apply (joined_le_antisym rows); [done|by eapply group_elem|by eapply group_elem].
  - apply Sorted_StronglySorted; [apply _|]. apply Sorted_merge_sort; apply _.
Qed.

(** Grouping consecutive rows gives one entry per rejection. *)
Lemma group_rows entries row l e : rn_ID e = rj_id row ->
  fold_left group_row ((λ a, (row, a)) <$> l) (entries ++ [e]) =
  entries ++ [MkRejection (rn_ID e) (rn_Sender e) (rn_Subject e) (rn_Recipients e ++ l) (rn_RejectedAt e) (rn_Reason e)].
Proof.
  intros He. revert e He. induction l as [|a l IH]; intros e He; cbn [fmap list_fmap fold_left].
  - rewrite app_nil_r. by destruct e.
  - unfold group_row at 2. rewrite last_snoc, He, Z.eqb_refl, length_app, Nat.add_comm. cbn [length Nat.add pred].
    rewrite alter_app_r_alt by lia. rewrite Nat.sub_diag. cbn [alter list_alter]. rewrite IH by done.
    cbn [rn_ID rn_Sender rn_Subject rn_Recipients rn_RejectedAt rn_Reason]. by rewrite <- app_assoc, He.
Qed.

Definition full_entry (row : rej_row) (l : list gostring) : Rejection :=
  MkRejection (rj_id row) (rj_sender row) (rj_subject row) l (timeFromMillis (rj_rejected_at_ms row)) (rj_reason row).

Lemma group_new entries row l : l <> [] -> (forall e, last entries = Some e -> rn_ID e <> rj_id row) ->
  fold_left group_row ((λ a, (row, a)) <$> l) entries = entries ++ [full_entry row l].
Proof.
  intros Hl Hlast. destruct l as [|a l]; [done|]. cbn [fmap list_fmap fold_left].
  assert (E : group_row entries (row, a) = entries ++ [full_entry row [a]]).
  { unfold group_row. destruct (last entries) as [e|] eqn:El.
    - rewrite (proj2 (Z.eqb_neq _ _)) by by apply Hlast. rewrite length_app, Nat.add_comm. cbn [length Nat.add pred].
      rewrite alter_app_r_alt by lia. by rewrite Nat.sub_diag.
    - by apply last_None in El as ->. }
  rewrite E. by rewrite group_rows.
Qed.

Lemma scan_groups (f : rej_row -> list gostring) rows : NoDup (rj_id <$> rows) -> (forall row, row ∈ rows -> f row <> []) ->
  scanGroupedRejections (rows ≫= λ row, (λ a, (row, a)) <$> f row) = (λ row, full_entry row (f row)) <$> rows.
Proof.
  intros Hn Hf. unfold scanGroupedRejections.
  assert (Hg : forall entries, (forall e row, last entries = Some e -> row ∈ rows -> rn_ID e <> rj_id row) ->
    fold_left group_row (rows ≫= λ row, (λ a, (row, a)) <$> f row) entries = entries ++ ((λ row, full_entry row (f row)) <$> rows)).
  { induction rows as [|row rows IH]; intros entries Hl; [by rewrite app_nil_r|]. cbn [fmap list_fmap] in Hn. inversion_clear Hn as [|? ? Hni Hn'].
    cbn [mbind list_bind]. rewrite fold_left_app, group_new by first [apply Hf; set_solver|intros e He; by apply Hl, list_elem_of_here].
    rewrite IH; [|done|set_solver|].
    - cbn [fmap list_fmap]. by rewrite <- app_assoc.
    - intros e row' He Hr. rewrite last_snoc in He. simplify_eq/=. intros E. apply Hni. rewrite E. by apply list_elem_of_fmap_2. }
  by rewrite Hg.
Qed.

Lemma newest_sorted rows : StronglySorted (key_le (λ r, - rj_rejected_at_ms r) (λ r, - rj_id r)) (newest rows).
Proof. apply order_by_sorted. Qed.
Lemma newest_perm rows : newest rows ≡ₚ rows.
Proof. apply order_by_perm. Qed.
Lemma take_sublist {A} n (l : list A) : take n l `sublist_of` l.
Proof. rewrite <- (take_drop n l) at 2. apply sublist_inserts_r. done. Qed.
Lemma filter_nodup_ids (p : rej_row -> bool) d : rej_wf d -> NoDup (rj_id <$> List.filter p (rejections d)).
Proof. intros Hw. eapply sublist_NoDup; [exact (rw_ids d Hw)|]. apply sublist_fmap, filter_sublist. Qed.
Lemma shows_all d row : rej_wf d -> row ∈ rejections d -> shows None d row = true.
Proof.
  intros Hw Hr. unfold shows. rewrite visible_all. apply negb_true_iff, bool_decide_eq_false.
  pose proof (rw_recipients d Hw) as H6. rewrite Forall_forall in H6. apply H6 in Hr. intros E. rewrite E in Hr. cbn in Hr. lia.
Qed.


Lemma listing_own a cutoff d : rej_wf d ->
  listing (Some a) cutoff d = Rejections.scoped_entry a <$>
    newest (List.filter (λ row, cutoff <=? rj_rejected_at_ms row) (List.filter (shows (Some a) d) (rejections d))).
Proof.
  intros Hw. unfold listing. rewrite filter_filter.
  assert (E : List.filter (λ row, (cutoff <=? rj_rejected_at_ms row) && shows (Some a) d row) (rejections d) =
              List.filter (λ x, shows (Some a) d x && (cutoff <=? rj_rejected_at_ms x)) (rejections d)).
  { apply filter_ext_elem. intros. apply andb_comm. }
  rewrite E. apply list_fmap_ext. intros i row Hi. apply list_elem_of_lookup_2 in Hi. rewrite newest_perm in Hi.
  apply list_elem_of_In, filter_In in Hi as [_ [Hs _]%andb_true_iff].
  unfold Rejections.scoped_entry, view_of. f_equal. unfold shows in Hs. rewrite visible_some in * by done.
  by destruct (bool_decide (a ∈ recipients_of d (rj_id row))).
Qed.

Lemma listing_scoped a cutoff limit d : rej_wf d ->
  Rejections.scoped_entry a <$> Rejections.scoped_rows a cutoff limit d = take (Z.to_nat limit) (listing (Some a) cutoff d).
Proof. intros Hw. rewrite listing_own by done. unfold Rejections.scoped_rows. by rewrite scoped_join, fmap_take. Qed.

Lemma listing_all cutoff limit d : rej_wf d ->
  scanGroupedRejections (Rejections.grouped_rows cutoff limit d) = take (Z.to_nat limit) (listing None cutoff d).
Proof.
  intros Hw. unfold Rejections.grouped_rows, listing. rewrite <- fmap_take.
  assert (E : List.filter (λ row, (cutoff <=? rj_rejected_at_ms row) && shows None d row) (rejections d) =
              List.filter (λ row, cutoff <=? rj_rejected_at_ms row) (rejections d)).
  { apply filter_ext_elem. intros row Hr. by rewrite shows_all, andb_true_r. }
  rewrite E. set (l := take (Z.to_nat limit) (newest _)).
  assert (Hsub : l `sublist_of` newest (List.filter (λ row, cutoff <=? rj_rejected_at_ms row) (rejections d))) by apply take_sublist.
  assert (Hn : NoDup (rj_id <$> l)).
  { eapply sublist_NoDup; [|by apply sublist_fmap]. rewrite newest_perm. by apply filter_nodup_ids. }
  rewrite joined_sorted; [|done|by eapply sublist_StronglySorted; [|apply newest_sorted]].
  unfold sorted_groups. rewrite (scan_groups (λ row, sortedSet (recipients_of d (rj_id row)))); [|done|].
  - apply list_fmap_ext. intros i row _. unfold full_entry, view_of. by rewrite visible_all.
  - intros row Hr. assert (Hin : row ∈ rejections d).
    { assert (row ∈ newest (List.filter (λ row, cutoff <=? rj_rejected_at_ms row) (rejections d))) as Hn'.
      { unfold l in Hr. apply elem_of_take in Hr as (j & Hj & _). by eapply list_elem_of_lookup_2. }
      rewrite newest_perm in Hn'. apply list_elem_of_In, filter_In in Hn' as [Hn' _]. by apply list_elem_of_In. }
    rewrite sortedSet_nil. pose proof (shows_all d row Hw Hin) as Hs. unfold shows in Hs. rewrite visible_all in Hs.
    by apply negb_true_iff, bool_decide_eq_false in Hs.
Qed.


Lemma filter_join (q : rej_row -> bool) (f : gostring -> bool) d rows :
  List.filter (λ x : rej_row * gostring, q x.1 && f x.2) (join_recipients d rows) =
  List.filter q rows ≫= λ row, (λ a, (row, a)) <$> List.filter f (recipients_of d (rj_id row)).
Proof.
  unfold join_recipients. induction rows as [|row rows IH]; [done|]. cbn [mbind list_bind List.filter]. rewrite List.filter_app, IH.
  assert (E : List.filter (λ x : rej_row * gostring, q x.1 && f x.2) ((λ a, (row, a)) <$> recipients_of d (rj_id row)) =
              if q row then (λ a, (row, a)) <$> List.filter f (recipients_of d (rj_id row)) else []).
  { induction (recipients_of d (rj_id row)) as [|a l IHl]; [by destruct (q row)|]. cbn. rewrite IHl. by destruct (q row), (f a). }
  rewrite E. by destruct (q row).
Qed.

Lemma find_unique {A} (p : A -> bool) l x : x ∈ l -> p x = true -> (forall y, y ∈ l -> p y = true -> y = x) -> List.find p l = Some x.
Proof.
  intros Hx Hp Hu. destruct (List.find p l) as [y|] eqn:E.
  - apply find_some_elem in E as [Hy Hpy]. f_equal. auto.
  - apply find_none_notin in E. rewrite Forall_forall in E. by rewrite (E x Hx) in Hp.
Qed.

Lemma singleton_ids rows i : NoDup (rj_id <$> rows) -> (forall row, row ∈ rows -> rj_id row = i) -> rows = [] \/ exists row, rows = [row].
Proof.
  intros Hn Hi. destruct rows as [|x [|y rows]]; [by left|right; by exists x|]. exfalso.
  cbn [fmap list_fmap] in Hn. inversion_clear Hn as [|? ? Hx _]. apply Hx. rewrite (Hi x), (Hi y) by set_solver. set_solver.
Qed.

(** A lookup by ID is the listing restricted to that ID. *)
Lemma by_id_listing id cutoff recipient d : rej_wf d ->
  head (scanGroupedRejections (Rejections.by_id_rows id cutoff recipient d)) =
  List.find (λ e, rn_ID e =? id) (listing recipient cutoff d).
Proof.
  intros Hw. unfold Rejections.by_id_rows.
  rewrite (filter_join (λ row, (rj_id row =? id) && (cutoff <=? rj_rejected_at_ms row)) (in_scope recipient)).
  set (l := List.filter _ (rejections d)).
  assert (Hl : forall row, row ∈ l <-> row ∈ rejections d /\ rj_id row = id /\ cutoff <= rj_rejected_at_ms row).
  { intros row. unfold l. rewrite list_elem_of_In, filter_In, <- list_elem_of_In, andb_true_iff, Z.eqb_eq, Z.leb_le. done. }
  assert (Hlist : forall e, e ∈ listing recipient cutoff d /\ rn_ID e = id <->
    exists row, row ∈ l /\ shows recipient d row = true /\ e = view_of recipient d row).
  { intros e. unfold listing. rewrite list_elem_of_fmap. split.
    - intros [(row & -> & Hr) He]. rewrite newest_perm in Hr. apply list_elem_of_In, filter_In in Hr as [Hr [Hc Hs]%andb_true_iff].
      exists row. split; [|done]. apply Hl. split_and!; [by apply list_elem_of_In|done|lia].
    - intros (row & Hr & Hs & ->). apply Hl in Hr as (Hr & Hid & Hc). split; [|done]. exists row. split; [done|].
      rewrite newest_perm. apply list_elem_of_In, filter_In. split; [by apply list_elem_of_In|]. rewrite Hs, andb_true_r. lia. }
  assert (Hnone : (forall row, row ∈ l -> shows recipient d row = false) -> List.find (λ e, rn_ID e =? id) (listing recipient cutoff d) = None).
  { intros Hno. apply find_none_notin, Forall_forall. intros e He. apply Z.eqb_neq. intros Hid.
    destruct (proj1 (Hlist e) (conj He Hid)) as (row & Hr & Hs & _). by rewrite Hno in Hs. }
  destruct (singleton_ids l id) as [E|(row & E)]; [by apply filter_nodup_ids|intros row Hr; by apply Hl in Hr as (_ & ? & _)| |]; rewrite E in *.
  - rewrite Hnone by set_solver. done.
  - cbn [mbind list_bind]. rewrite app_nil_r. fold (visible recipient d row).
    assert (Hm : merge_sort recipient_le ((λ a, (row, a)) <$> visible recipient d row) = (λ a, (row, a)) <$> sortedSet (visible recipient d row)).
    { apply (StronglySorted_unique_strong recipient_le).
      - intros x y Hx Hy H1 H2. rewrite merge_sort_Permutation in Hx. apply list_elem_of_fmap in Hx as (a & -> & _).
        apply list_elem_of_fmap in Hy as (b & -> & _). f_equal. by apply bytes_leb_antisym.
      - apply Sorted_StronglySorted; [apply _|]. apply Sorted_merge_sort; apply _.
      - apply StronglySorted_fmap. apply sortedSet_sorted.
      - by rewrite merge_sort_Permutation, sortedSet_perm. }
    rewrite Hm. destruct (shows recipient d row) eqn:Es.
    + assert (Hv : sortedSet (visible recipient d row) <> []).
      { rewrite sortedSet_nil. unfold shows in Es. by apply negb_true_iff, bool_decide_eq_false in Es. }
      pose proof (scan_groups (λ row, sortedSet (visible recipient d row)) [row]) as Hg. cbn [mbind list_bind] in Hg. rewrite app_nil_r in Hg.
      rewrite Hg; [|apply NoDup_singleton|by intros ? ->%list_elem_of_singleton]. cbn [fmap list_fmap head].
      symmetry. assert (Hin := proj2 (Hlist (view_of recipient d row))).
      destruct Hin as [Hin Hid]; [exists row; set_solver|]. apply find_unique; [done|by apply Z.eqb_eq|].
      intros e He Hid'%Z.eqb_eq. destruct (proj1 (Hlist e) (conj He Hid')) as (row' & Hr & _ & ->).
      by apply list_elem_of_singleton in Hr as ->.
    + rewrite Hnone by by intros ? ->%list_elem_of_singleton. unfold shows in Es.
      apply negb_false_iff, bool_decide_eq_true in Es. by rewrite Es.
Qed.

Section Reads.
Context `{UnicodeTables, NetMail} (r : RejectionOptions).

Definition scope_recipient (s : RecipientScope) : option gostring :=
  if rs_All s then None else Some (Normalize (rs_Address s)).

(** Nothing is recorded for the empty address. *)
Lemma listing_empty_address cutoff d : rej_wf d -> listing (Some []) cutoff d = [].
Proof.
  intros Hw. unfold listing. rewrite filter_none; [done|]. intros row Hr. apply andb_false_iff. right.
  unfold shows. rewrite visible_some by done. destruct (bool_decide ([] ∈ recipients_of d (rj_id row))) eqn:E; [|done].
  apply bool_decide_eq_true in E. exfalso.
  apply recipients_of_elem in E. pose proof (rw_addresses d Hw) as Ha. rewrite Forall_forall in Ha. exact (Ha _ E eq_refl).
Qed.

(** a listing of the rejection history shows exactly the retained records
    the scope covers, newest first, cut at the limit with a mark when there were
    more: all recipients of each record for an administrator, and for one
    recipient only its own records, each with that recipient alone.  Reading
    changes nothing. *)
Theorem rejection_listing_exact (q : RejectionListQuery) (now : Z) (w w' : World) (page : list Rejection * bool) :
  rej_wf (wdb w) -> Rejections.enabled r = true -> Rejections.ListRejections r q now w = (inr page, w') ->
  page = limitedPage (listing (scope_recipient (rq_Recipients q))
           (unixMillis (Rejections.retentionSince r (rq_RejectedSince q) now)) (wdb w)) (rq_Limit q) /\
  wdb w' = wdb w /\
  (rs_All (rq_Recipients q) = false -> Forall (λ e, rn_Recipients e = [Normalize (rs_Address (rq_Recipients q))]) page.1).
Proof.
  intros Hw He Hl.
  assert (Hmain : page = limitedPage (listing (scope_recipient (rq_Recipients q))
    (unixMillis (Rejections.retentionSince r (rq_RejectedSince q) now)) (wdb w)) (rq_Limit q) /\ wdb w' = wdb w).
  { unfold Rejections.ListRejections in Hl. rewrite He in Hl. cbn [negb] in Hl. destruct (Validate _); [|done]. cbn [negb] in Hl.
    destruct (Z.ltb_spec (rq_Limit q) 1) as [|Hlim]; [done|]. unfold scope_recipient.
    destruct (rs_All (rq_Recipients q)); cbn [negb andb] in Hl.
    - destruct (query _ w) as [[e|rows] w1] eqn:E; simplify_eq. split; [|by apply query_db in E].
      apply query_ok in E as ->. unfold rejectionPage. rewrite listing_all by done. by apply limitedPage_take; lia.
    - destruct (beq (Normalize _) []) eqn:En.
      { simplify_eq. apply beq_true in En. rewrite En, listing_empty_address by done. split; [|done].
        unfold limitedPage. cbn. by rewrite (proj2 (Z.ltb_ge _ _)) by lia. }
      destruct (query _ w) as [[e|rows] w1] eqn:E; simplify_eq. split; [|by apply query_db in E].
      apply query_ok in E as ->. unfold rejectionPage. rewrite listing_scoped by done. by apply limitedPage_take; lia. }
  destruct Hmain as [-> Hd]. split_and!; [done|done|]. intros Hs. unfold scope_recipient. rewrite Hs.
  assert (Hall : Forall (λ e, rn_Recipients e = [Normalize (rs_Address (rq_Recipients q))])
    (listing (Some (Normalize (rs_Address (rq_Recipients q)))) (unixMillis (Rejections.retentionSince r (rq_RejectedSince q) now)) (wdb w))).
  { unfold listing. apply Forall_fmap, Forall_forall. intros row Hr. rewrite newest_perm in Hr.
    apply list_elem_of_In, filter_In in Hr as [_ [_ Hv]%andb_true_iff]. unfold compose, view_of. cbn [rn_Recipients].
    unfold shows in Hv. rewrite visible_some in * by done. by destruct (bool_decide (_ ∈ recipients_of _ _)). }
  unfold limitedPage. cbn [fst]. case_match; [by apply Forall_take|done].
Qed.

Definition recorded_sender (input : NewRejection) : gostring :=
  if beq (Normalize (nr_VisibleSender input)) [] then Normalize (nr_EnvelopeSender input) else Normalize (nr_VisibleSender input).
Definition recorded_at (input : NewRejection) (now : Z) : Z := match nr_RejectedAt input with Some t => t | None => now end.
Definition recorded_recipients (input : NewRejection) : list gostring :=
  sortedSet (normalizedAddressSet (nr_Recipients input) maxRejectionRecipients).
Definition recorded (input : NewRejection) (now id : Z) (recipients : list gostring) : Rejection :=
  MkRejection id (recorded_sender input) (rejectionSingleLine (nr_Subject input) maxRejectionSubjectRunes) recipients
    (timeFromMillis (unixMillis (recorded_at input now))) (rejectionReason (nr_Reasons input)).

Lemma AddRejection_cases input now w id w' : Rejections.AddRejection r input now w = (inr id, w') -> id <> 0 ->
  Rejections.enabled r = true /\ recorded_sender input <> [] /\ recorded_recipients input <> [] /\
  Rejections.add_body (recorded_sender input) (rejectionSingleLine (nr_Subject input) maxRejectionSubjectRunes)
    (rejectionReason (nr_Reasons input)) (recorded_recipients input) (recorded_at input now) (wdb w) = (id, wdb w').
Proof.
  unfold Rejections.AddRejection. cbv zeta. fold (recorded_sender input) (recorded_recipients input) (recorded_at input now).
  intros Ha Hid. destruct (Rejections.enabled r); cbn [negb] in Ha; [|simplify_eq]. destruct (beq (recorded_sender input) []) eqn:Es; [simplify_eq|].
  case_bool_decide as Hu; [simplify_eq|]. unfold lift_db, withTx in Ha.
  destruct (retry busyRetries _ w) as [[e|x] w1] eqn:E; simplify_eq. apply retry_ok in E. split_and!; [done|by apply beq_nil_false| |done].
  unfold recorded_recipients. by rewrite sortedSet_nil.
Qed.

(** The entry of one row in a listing. *)
Lemma listing_find recipient cutoff d row : rej_wf d -> row ∈ rejections d -> cutoff <= rj_rejected_at_ms row ->
  List.find (λ e, rn_ID e =? rj_id row) (listing recipient cutoff d) = if shows recipient d row then Some (view_of recipient d row) else None.
Proof.
  intros Hw Hrow Hc. assert (Hin : forall row', row' ∈ newest (List.filter (λ row, (cutoff <=? rj_rejected_at_ms row) && shows recipient d row) (rejections d)) ->
    rj_id row' = rj_id row -> row' = row /\ shows recipient d row = true).
  { intros row' Hr Hid. rewrite newest_perm in Hr. apply list_elem_of_In, filter_In in Hr as [Hr [_ Hs]%andb_true_iff].
    apply list_elem_of_In in Hr. by assert (row' = row) as -> by by apply (row_unique rj_id (rejections d) _ _ (rw_ids d Hw)). }
  unfold listing. destruct (shows recipient d row) eqn:Es.
  - apply find_unique; [apply list_elem_of_fmap; exists row; split; [done|]|apply Z.eqb_refl|].
    + rewrite newest_perm. apply list_elem_of_In, filter_In. split; [by apply list_elem_of_In|]. rewrite Es, andb_true_r. by apply Z.leb_le.
    + intros e (row' & -> & Hr)%list_elem_of_fmap Hid%Z.eqb_eq. by destruct (Hin row' Hr Hid) as [-> _].
  - apply find_none_notin, Forall_forall. intros e (row' & -> & Hr)%list_elem_of_fmap. apply Z.eqb_neq. intros Hid.
    by destruct (Hin row' Hr Hid) as [_ ?].
Qed.

(** a rejection that was recorded gets an ID never used before and, while it
    is retained, reads back as it was recorded: the sender, the time to the
    millisecond, the cleaned subject and reasons and every recipient for an
    administrator; for a recipient the same record naming it alone; and nothing
    for an address it was not sent to. *)
Theorem rejection_reads_back (input : NewRejection) (now now' id : Z) (w w1 w2 : World) (scope : RecipientScope) (res : option Rejection) :
  rej_wf (wdb w) -> Rejections.AddRejection r input now w = (inr id, w1) -> id <> 0 ->
  Validate scope = true -> unixMillis (now' - RejExpiry r) <= unixMillis (recorded_at input now) ->
  Rejections.RejectionByID r id scope now' w1 = (inr res, w2) ->
  rejections_seq (wdb w) < id /\
  res = if rs_All scope then Some (recorded input now id (recorded_recipients input))
        else if bool_decide (Normalize (rs_Address scope) ∈ recorded_recipients input)
        then Some (recorded input now id [Normalize (rs_Address scope)]) else None.
Proof.
  intros Hw Ha Hid Hs Hret Hb. pose proof (AddRejection_wf r input now w Hw) as Hw1. rewrite Ha in Hw1. cbn [snd] in Hw1.
  apply AddRejection_cases in Ha as (He & Hsn & Hrn & Hadd); [|done].
  assert (Hidv : id = rejections_seq (wdb w) + 1) by (unfold Rejections.add_body in Hadd; by simplify_eq). split; [lia|].
  pose proof (add_body_recipients (recorded_sender input) (rejectionSingleLine (nr_Subject input) maxRejectionSubjectRunes)
    (rejectionReason (nr_Reasons input)) (recorded_recipients input) (recorded_at input now) (wdb w) id Hw) as Hrec.
  rewrite Hadd, Hidv, Z.eqb_refl, <- Hidv in Hrec. cbn [snd] in Hrec.
  set (row := RejRow id (recorded_sender input) (rejectionSingleLine (nr_Subject input) maxRejectionSubjectRunes)
    (unixMillis (recorded_at input now)) (rejectionReason (nr_Reasons input))).
  assert (Hrow : row ∈ rejections (wdb w1)).
  { unfold Rejections.add_body in Hadd. injection Hadd as _ <-. cbn [rejections set_rejection_recipients set_rejections_seq set_rejections].
    apply elem_of_app. right. unfold row. rewrite Hidv. by apply list_elem_of_singleton. }
  assert (Hres : (negb (rs_All scope) && beq (Normalize (rs_Address scope)) [] = true /\ res = None) \/
    res = List.find (λ e, rn_ID e =? id) (listing (scope_recipient scope) (unixMillis (now' - RejExpiry r)) (wdb w1))).
  { unfold Rejections.RejectionByID in Hb. rewrite He, Hs, (proj2 (Z.eqb_neq _ _)) in Hb by done. cbn [negb orb] in Hb.
    destruct (negb (rs_All scope) && _) eqn:En; [left; by simplify_eq|]. right.
    destruct (query _ w1) as [[e|rows] w3] eqn:E; simplify_eq. apply query_ok in E as ->. rewrite by_id_listing by done.
    unfold scope_recipient. by destruct (rs_All scope). }
  assert (Hview : forall recipient, view_of recipient (wdb w1) row = recorded input now id (sortedSet (visible recipient (wdb w1) row))) by done.
  assert (Hfind : res = None /\ scope_recipient scope = Some [] \/
    res = if shows (scope_recipient scope) (wdb w1) row then Some (view_of (scope_recipient scope) (wdb w1) row) else None).
  { destruct Hres as [[Hn ->]| ->]; [left|right; by apply (listing_find (scope_recipient scope) _ (wdb w1) row)]. split; [done|]. apply andb_true_iff in Hn as [Ha Hn%beq_true].
    unfold scope_recipient. by destruct (rs_All scope); [|rewrite Hn]. }
  unfold scope_recipient in Hfind. destruct (rs_All scope).
  - destruct Hfind as [[_ ?]| ->]; [done|]. rewrite shows_all, Hview, visible_all by done. change (rj_id row) with id. rewrite Hrec.
    do 2 f_equal. apply sortedSet_id, sortedSet_sorted.
  - assert (Hvis : visible (Some (Normalize (rs_Address scope))) (wdb w1) row =
      if bool_decide (Normalize (rs_Address scope) ∈ recorded_recipients input) then [Normalize (rs_Address scope)] else []).
    { rewrite visible_some by done. change (rj_id row) with id. by rewrite Hrec. }
    assert (Hne : [] ∉ recorded_recipients input).
    { rewrite <- Hrec. intros Hin%recipients_of_elem. pose proof (rw_addresses _ Hw1) as Haa. rewrite Forall_forall in Haa.
      exact (Haa _ Hin eq_refl). }
    destruct Hfind as [[-> Hsc]| ->].
    + injection Hsc as ->. by rewrite bool_decide_false.
    + rewrite Hview. unfold shows. rewrite Hvis. by destruct (bool_decide (_ ∈ recorded_recipients _)).
Qed.
End Reads.

(** ** Concrete histories *)

Definition sample_rejection : NewRejection :=
  MkNewRejection (lit "Spammer@example.org") [] (lit "Win  now") [lit "bob@example.com"; lit "alice@example.com"; lit "bob@example.com"]
    [lit "phishing"; []; lit "bad links"] None.
Definition sample_rejection_options : RejectionOptions := MkRejectionOptions (1000 * minute) 10.
Definition sample_rejection_world : World :=
  (@Rejections.AddRejection basic_tables simple_mail sample_rejection_options sample_rejection (5000 * minute) (MkWorld emptyDb [])).2.

Lemma sample_rejection_added : @Rejections.AddRejection basic_tables simple_mail sample_rejection_options sample_rejection
  (5000 * minute) (MkWorld emptyDb []) = (inr 1, sample_rejection_world).
Proof. vm_compute. reflexivity. Qed.
Lemma sample_rejection_wf : rej_wf (wdb sample_rejection_world).
Proof. apply (@AddRejection_wf basic_tables simple_mail). exact emptyDb_rej_wf. Qed.

Lemma rejection_reads_back_witness :
  @Rejections.RejectionByID basic_tables simple_mail sample_rejection_options 1 (MkRecipientScope false (lit "Bob@example.com"))
    (5001 * minute) sample_rejection_world =
  (inr (Some (MkRejection 1 (lit "spammer@example.org") (lit "Win now") [lit "bob@example.com"] (5000 * minute) (lit "phishing; bad links"))),
   sample_rejection_world).
Proof.
  destruct (@Rejections.RejectionByID basic_tables simple_mail sample_rejection_options 1 (MkRecipientScope false (lit "Bob@example.com"))
    (5001 * minute) sample_rejection_world) as [res w2] eqn:E.
  assert (Eok : exists x, res = inr x) by (exists (match res with inr x => x | _ => None end);
    change res with (res, w2).1; rewrite <- E; vm_compute; reflexivity).
  assert (Ew : w2 = sample_rejection_world) by (change w2 with (res, w2).2; rewrite <- E; vm_compute; reflexivity).
  destruct Eok as [x Ex]. subst res.
  destruct (@rejection_reads_back basic_tables simple_mail sample_rejection_options sample_rejection (5000 * minute) (5001 * minute) 1
    (MkWorld emptyDb []) sample_rejection_world w2 (MkRecipientScope false (lit "Bob@example.com")) x) as [_ Hx];
    [exact emptyDb_rej_wf|exact sample_rejection_added|done|vm_compute; reflexivity|vm_compute; discriminate|exact E|].
  subst x w2. vm_compute. reflexivity.
Defined.

Lemma rejection_listing_exact_witness :
  exists w', @Rejections.ListRejections basic_tables simple_mail sample_rejection_options
    (MkRejectionListQuery (MkRecipientScope false (lit "alice@example.com")) None 5) (5001 * minute) sample_rejection_world =
  (inr ([MkRejection 1 (lit "spammer@example.org") (lit "Win now") [lit "alice@example.com"] (5000 * minute) (lit "phishing; bad links")], false), w').
Proof.
  set (q := MkRejectionListQuery (MkRecipientScope false (lit "alice@example.com")) None 5).
  destruct (@Rejections.ListRejections basic_tables simple_mail sample_rejection_options q (5001 * minute) sample_rejection_world)
    as [res w2] eqn:E. exists w2.
  assert (Eok : exists x, res = inr x) by (exists (match res with inr x => x | _ => ([], false) end);
    change res with (res, w2).1; rewrite <- E; vm_compute; reflexivity).
  destruct Eok as [x Ex]. subst res.
  destruct (@rejection_listing_exact basic_tables simple_mail sample_rejection_options q (5001 * minute) sample_rejection_world w2 x) as (Hx & _ & _);
    [exact sample_rejection_wf|vm_compute; reflexivity|exact E|].
  rewrite Hx. f_equal.
Defined.
