(* ===== verification/Activity.v ===== *)
(** * Activity, service status, domain cache and command history
    (activity.go, domains.go and command_history.go of internal/stores/sqlite)

    Three small repositories over the tables of [SqlDb].  Every method is a
    definition; [now] is the value of the injected clock and the zero time of
    an optional timestamp is [None].

    A token cost is a float64: not a number, infinite, or a rational.  How
    SQLite adds floats belongs to SQLite, so the sum is a parameter
    ([FloatSum]).

    The theorems: the type invariant of the activity table and the effect of an
    event on the report, command history as the last ten commands, and the
    domain cache as a map. *)
From Stdlib Require Import QArith.
From S2P Require Import Prelude GoText NetSafety MailAddr SqlDb IPReputation IPReputationFacts.
Open Scope Z_scope.

Inductive float64 := FloatNaN | FloatInf (negative : bool) | FloatFinite (q : Q).

(** [sum] of a REAL column. *)
Class FloatSum := { sum_real : list Q -> Q }.
(** For evaluation: exact sums. *)
Definition exact_sum : FloatSum := {| sum_real := foldr Qplus 0%Q |}.

Record ActivityEvent := MkActivityEvent {
  ae_OccurredAt : option Z;
  ae_EventType : ActivityEventType;
  ae_Outcome : ActivityOutcome;
  ae_AnalysisFailed : bool;
  ae_TokenCost : float64;
  ae_Quantity : Z;
}.

Record ActivitySummary := MkActivitySummary {
  ScanTotal : Z;
  ScanRejections : Z;
  ScanAccepted : Z;
  AIEvaluationsFailed : Z;
  IPRejections : Z;
  CorrespondentAccepts : Z;
  TrustedDomainAccepts : Z;
  AttachmentRejections : Z;
  ProtectedSenderDomainRejections : Z;
  SenderBlocklistRejections : Z;
  SenderBlocklistRecipientRemovals : Z;
  HTMLDoSRejections : Z;
  HTMLDoSAccepted : Z;
  HTMLLimitRejections : Z;
  HTMLLimitAccepted : Z;
  IncompleteInspectionRejections : Z;
  IncompleteInspectionAccepted : Z;
  TokenCost : Q;
}.

Definition outcome_is (o o' : ActivityOutcome) : bool := o =? o'.
Definition event_is (e e' : ActivityEventType) : bool := e =? e'.

Definition validActivityEvent (eventType : ActivityEventType) (outcome : ActivityOutcome) : bool :=
  if event_is eventType ActivityEventScan then (ActivityOutcomeAccepted <=? outcome) && (outcome <=? ActivityOutcomeResponseFailed)
  else if event_is eventType ActivityEventIPRejection || event_is eventType ActivityEventAttachmentRejection || event_is eventType ActivityEventProtectedSenderDomainRejection then
    outcome_is outcome ActivityOutcomeRejected || outcome_is outcome ActivityOutcomeResponseFailed
  else if event_is eventType ActivityEventCorrespondentAccept || event_is eventType ActivityEventTrustedDomainAccept then
    outcome_is outcome ActivityOutcomeAccepted || outcome_is outcome ActivityOutcomeResponseFailed
  else if event_is eventType ActivityEventSenderBlocklist then
    outcome_is outcome ActivityOutcomeAccepted || outcome_is outcome ActivityOutcomeRejected
  else if event_is eventType ActivityEventHTMLDoS || event_is eventType ActivityEventHTMLLimit || event_is eventType ActivityEventIncompleteInspection then
    outcome_is outcome ActivityOutcomeAccepted || outcome_is outcome ActivityOutcomeRejected || outcome_is outcome ActivityOutcomeResponseFailed
  else false.

Module Activity.
Section Activity.
Context `{FloatSum} (expiry : Z).

Definition available : bool := 0 <? expiry.

Definition insert_event (row : Z -> act_row) (d : Db) : unit * Db :=
  (tt, SqlDb.set_activity (activity d ++ [row (next_id ac_id (activity d))]) d).

(** The cost of an event, when it may be stored. *)
Definition finite_cost (c : float64) : option Q :=
  match c with FloatFinite q => if Qle_bool 0 q then Some q else None | _ => None end.

Definition AddActivity (event : ActivityEvent) (now : Z) (w : World) : (repo_error + unit) * World :=
  if negb available then (inl RepoDisabled, w)
  else if negb (validActivityEvent (ae_EventType event) (ae_Outcome event)) then (inl RepoInvalid, w)
  else
    let occurredAt := match ae_OccurredAt event with Some t => t | None => now end in
    match finite_cost (ae_TokenCost event) with
    | None => (inl RepoInvalid, w)
    | Some cost =>
        let scan := if event_is (ae_EventType event) ActivityEventScan then Some (ae_AnalysisFailed event, cost) else None in
        let quantity := if ae_Quantity event <=? 0 then 1 else ae_Quantity event in
        lift_db (exec (insert_event (λ id, ActRow id (unixMillis occurredAt) (ae_EventType event) (ae_Outcome event) scan quantity)) w)
    end.

(** ** ActivitySummary *)

Definition is_event (e : ActivityEventType) (o : ActivityOutcome) (r : act_row) : bool :=
  event_is (ac_event_type r) e && outcome_is (ac_outcome r) o.
Definition sum_quantity (p : act_row -> bool) (rows : list act_row) : Z :=
  foldr Z.add 0 (ac_quantity <$> List.filter p rows).
Definition scan_costs (rows : list act_row) : list Q :=
  omap (λ r, if event_is (ac_event_type r) ActivityEventScan then snd <$> ac_scan r else None) rows.

(** The SELECT over the rows its WHERE clause admits. *)
Definition summarize (rows : list act_row) : ActivitySummary :=
  let count p := count_where p rows in
  MkActivitySummary
    (count (λ r, event_is (ac_event_type r) ActivityEventScan))
    (count (is_event ActivityEventScan ActivityOutcomeRejected))
    (count (is_event ActivityEventScan ActivityOutcomeAccepted))
    (count (λ r, event_is (ac_event_type r) ActivityEventScan && match ac_scan r with Some (failed, _) => failed | None => false end))
    (count (is_event ActivityEventIPRejection ActivityOutcomeRejected))
    (count (is_event ActivityEventCorrespondentAccept ActivityOutcomeAccepted))
    (count (is_event ActivityEventTrustedDomainAccept ActivityOutcomeAccepted))
    (count (is_event ActivityEventAttachmentRejection ActivityOutcomeRejected))
    (count (is_event ActivityEventProtectedSenderDomainRejection ActivityOutcomeRejected))
    (sum_quantity (is_event ActivityEventSenderBlocklist ActivityOutcomeRejected) rows)
    (sum_quantity (is_event ActivityEventSenderBlocklist ActivityOutcomeAccepted) rows)
    (count (is_event ActivityEventHTMLDoS ActivityOutcomeRejected))
    (count (is_event ActivityEventHTMLDoS ActivityOutcomeAccepted))
    (count (is_event ActivityEventHTMLLimit ActivityOutcomeRejected))
    (count (is_event ActivityEventHTMLLimit ActivityOutcomeAccepted))
    (count (is_event ActivityEventIncompleteInspection ActivityOutcomeRejected))
    (count (is_event ActivityEventIncompleteInspection ActivityOutcomeAccepted))
    (match scan_costs rows with [] => 0%Q | costs => sum_real costs end).

Definition in_window (since before : Z) (r : act_row) : bool := (since <=? ac_occurred_at_ms r) && (ac_occurred_at_ms r <? before).
Definition summary_window (since before : option Z) (now : Z) : Z * Z :=
  let retainedSince := now - expiry in
  let since := match since with Some t => if t <? retainedSince then retainedSince else t | None => retainedSince end in
  let before := match before with Some t => if now <? t then now else t | None => now end in
  (unixMillis since, unixMillis before).

Definition ActivitySummary_ (since before : option Z) (now : Z) (w : World) : (repo_error + ActivitySummary) * World :=
  if negb available then (inl RepoDisabled, w)
  else
    let '(since, before) := summary_window since before now in
    lift_db (query (λ d, summarize (List.filter (in_window since before) (activity d))) w).

(** ** Maintenance *)

Definition cleanup_statement (now : Z) (d : Db) : Z * Db :=
  let p r := ac_occurred_at_ms r <? unixMillis (now - expiry) in
  (count_where p (activity d), SqlDb.set_activity (delete_where p (activity d)) d).
Definition Cleanup (now : Z) (w : World) : (repo_error + Z) * World :=
  if negb available then (inr 0, w) else lift_db (exec (cleanup_statement now) w).
Definition Count (w : World) : (repo_error + Z) * World :=
  if negb available then (inr 0, w) else lift_db (query (λ d, Z.of_nat (length (activity d))) w).

(** ** Service status *)

Definition ServiceStatus (w : World) : (repo_error + option (Z * ServiceMode)) * World :=
  if negb available then (inl RepoDisabled, w)
  else lift_db (query (λ d, (λ '(started, mode), (timeFromMillis started, mode)) <$> service_status d) w).
Definition SetServiceStatus (startedAt : Z) (mode : ServiceMode) (w : World) : (repo_error + unit) * World :=
  if negb available then (inl RepoDisabled, w)
  else lift_db (exec (λ d, (tt, set_service_status (Some (unixMillis startedAt, mode)) d)) w).
Definition ClearServiceStatus (w : World) : (repo_error + unit) * World :=
  if negb available then (inr tt, w)
  else lift_db (exec (λ d, (tt, set_service_status None d)) w).
End Activity.
End Activity.

(** ** Domain registrations *)

Record DomainOptions := MkDomainOptions { DomMaxEntries : Z; ExpiryGrace : Z }.
Record DomainRegistration := MkDomainRegistration { dr_Domain : gostring; dr_RegisteredAt : Z; dr_ExpiresAt : Z }.

Module Domains.
Section Domains.
Context (r : DomainOptions).

Definition has_domain (domain : gostring) (row : dom_row) : bool := beq (dm_domain row) domain.

Definition scanRegistration (row : dom_row) : DomainRegistration :=
  MkDomainRegistration (dm_domain row) (timeFromMillis (dm_registered_at_ms row)) (timeFromMillis (dm_expires_at_ms row)).

Definition DomainRegistration_ (domain : gostring) (w : World) : (repo_error + option DomainRegistration) * World :=
  lift_db (query (λ d, scanRegistration <$> List.find (has_domain domain) (domain_registrations d)) w).

(** [INSERT ... ON CONFLICT(domain) DO UPDATE]; the CHECK of the table refuses
    an expiry before the registration. *)
Definition put_statement (record : DomainRegistration) (d : Db) : (repo_error + unit) * Db :=
  let registered := unixMillis (dr_RegisteredAt record) in
  let expires := unixMillis (dr_ExpiresAt record) in
  if expires <? registered then (inl RepoInvalid, d)
  else
    let rows := domain_registrations d in
    (inr tt, set_domain_registrations
       (if existsb (has_domain (dr_Domain record)) rows
        then update_where (has_domain (dr_Domain record)) (λ row, DomRow (dm_id row) (dm_domain row) registered expires) rows
        else rows ++ [DomRow (next_id dm_id rows) (dr_Domain record) registered expires]) d).
(** The result of a transaction that may report an error of its own. *)
Definition flatten_tx {R} (x : (db_error + (repo_error + R)) * World) : (repo_error + R) * World :=
  match x with (inl e, w) => (inl (RepoDb e), w) | (inr x, w) => (x, w) end.
Definition PutDomainRegistration (record : DomainRegistration) (w : World) : (repo_error + unit) * World :=
  flatten_tx (exec (put_statement record) w).

Definition enforceCapacityTx (d : Db) : Z * Db :=
  let excess := capacity_excess (domain_registrations d) (DomMaxEntries r) in
  if excess =? 0 then (0, d)
  else
    let ids := first_ids dm_expires_at_ms dm_id (Z.to_nat excess) (domain_registrations d) in
    (count_where (id_in dm_id ids) (domain_registrations d),
     set_domain_registrations (delete_where (id_in dm_id ids) (domain_registrations d)) d).

Definition expired (now : Z) (row : dom_row) : bool := dm_expires_at_ms row <? unixMillis (now - ExpiryGrace r).
Definition cleanup_body (now : Z) (d : Db) : Z * Db :=
  let deleted := count_where (expired now) (domain_registrations d) in
  let d := set_domain_registrations (delete_where (expired now) (domain_registrations d)) d in
  let '(capacityDeleted, d) := enforceCapacityTx d in
  (deleted + capacityDeleted, d).
Definition Cleanup (now : Z) (w : World) : (repo_error + Z) * World := lift_db (withTx (cleanup_body now) w).
Definition Count (w : World) : (repo_error + Z) * World :=
  lift_db (query (λ d, Z.of_nat (length (domain_registrations d))) w).
End Domains.
End Domains.

(** ** Command history *)

Definition CommandHistoryLimit : nat := 10.

Module CommandHistory.
(** [ORDER BY position] *)
Definition position_le (x y : Z * gostring) : Prop := x.1 <= y.1.
#[global] Instance position_le_dec x y : Decision (position_le x y).
Proof. unfold position_le. apply _. Defined.

Definition LoadCommandHistory (w : World) : (repo_error + list gostring) * World :=
  lift_db (query (λ d, snd <$> merge_sort position_le (command_history d)) w).

(** The inserts of the transaction; an empty command makes it fail. *)
Fixpoint insert_commands (index : Z) (commands : list gostring) (rows : list (Z * gostring)) : repo_error + list (Z * gostring) :=
  match commands with
  | [] => inr rows
  | command :: commands =>
      if beq command [] then inl RepoInvalid
      else insert_commands (index + 1) commands (rows ++ [(index + 1, command)])
  end.
Definition save_body (commands : list gostring) (d : Db) : (repo_error + unit) * Db :=
  match insert_commands 0 commands [] with
  | inl e => (inl e, d)
  | inr rows => (inr tt, set_command_history rows d)
  end.
Definition SaveCommandHistory (commands : list gostring) (w : World) : (repo_error + unit) * World :=
  let commands := drop (length commands - CommandHistoryLimit) commands in
  Domains.flatten_tx (withTx (save_body commands) w).
End CommandHistory.
