(* ===== verification/Registration.v ===== *)
(** * Domain registration evidence (internal/milter/domain_registration.go)

    When a domain was registered, from the cache of the database or from RDAP.
    [evidence] runs in the goroutines of several sessions at once; they share
    the record of failed lookups, the table of lookups under way and the slots
    that bound them.  A goroutine is a [goroutine], one [step] of it is what
    happens between two points where another one can get in: a statement of
    the database, a critical section, a channel operation, the lookup.  The
    lookup itself is the outside's: whatever it answers, also a panic, is an
    event. *)
From S2P Require Import Prelude GoText NetSafety MailAuth SqlDb Calendar Config IPReputation Activity Interleave.

(** ** The registrable domain *)

Section Registrable.
Context `{UnicodeTables, PublicSuffix}.

(** The loop past private suffixes; [None] is a loop that has not ended. *)
Fixpoint icann_suffix (fuel : nat) (suffix : gostring) (icann : bool) : option gostring :=
  if icann then Some suffix
  else
    match cut "." suffix with
    | None => Some suffix
    | Some (_, parent) =>
        match fuel with
        | O => None
        | S fuel => let '(suffix, icann) := public_suffix parent in icann_suffix fuel suffix icann
        end
    end.

Definition registrable_under (domain suffix : gostring) : gostring :=
  if go_len domain <=? go_len suffix then []
  else
    let registrant := take (length domain - length suffix - 1) domain in
    drop (match after_last "." registrant with None => 0 | Some label => length registrant - length label end) domain.

Definition registrableDomain (domain : gostring) : option gostring :=
  let domain := DNSHostname domain in
  let '(suffix, icann) := public_suffix domain in
  registrable_under domain <$> icann_suffix (length domain) suffix icann.
End Registrable.

(** ** The store *)

Definition domainRegistrationMissingExpiryCache : Z := 14 * 24 * hour.
Definition domainRegistrationFailureRetry : Z := 5 * minute.
Definition domainRegistrationDeadlineRetry : Z := minute.

Record DomainRegistrationInfo := MkRegistrationInfo { Available : bool; Domain : gostring; RegisteredAt : Z }.
Definition no_registration : DomainRegistrationInfo := MkRegistrationInfo false [] zeroTime.
Definition domainRegistrationEvidence (record : DomainRegistration) : DomainRegistrationInfo :=
  MkRegistrationInfo true (dr_Domain record) (dr_RegisteredAt record).

(** What a store is built with (the store and its repository always exist: the
    composition makes them): whether there is a lookup, the capacity of its
    slots, and the bound on recorded failures. *)
Record registration_store := MkRegistrationStore { has_lookup : bool; slot_capacity : nat; maxSize : Z; rs_timeout : Z }.
Definition domainRegistrationEnabled (cfg : DomainRegistrationConfig) : bool := dr_Enabled cfg.
Definition newDomainRegistrationStore (cfg : DomainRegistrationConfig) : registration_store :=
  if domainRegistrationEnabled cfg
  then MkRegistrationStore true (Z.to_nat (Z.min 8 (dr_MaxEntries cfg))) (dr_MaxEntries cfg) (dr_Timeout cfg)
  else MkRegistrationStore false 0 (dr_MaxEntries cfg) (dr_Timeout cfg).

Inductive ctx_error := DeadlineExceeded | Canceled.
Inductive lookup_error := LookupContext (e : ctx_error) | LookupFailed | LookupPanicked | LookupDates.
Inductive lookup_answer := Answers (registeredAt expiresAt : Z) | Refuses (err : lookup_error) | Panics.
Inductive evidence_error := RepositoryError (e : repo_error) | ContextError (e : ctx_error) | LookupError (e : lookup_error).
Definition evidence_result : Type := evidence_error + DomainRegistrationInfo.

(** What the goroutines share: the database, the failures, the lookups under
    way by domain with the channel that is closed at their end, the closed
    channels, the number of channels made, and the slots in use. *)
Record shared_store := MkShared {
  db : World; failures : gmap gostring Z; inflight : gmap gostring nat; closed : gset nat; channels : nat; busy : nat }.
Definition set_db w s := MkShared w (failures s) (inflight s) (closed s) (channels s) (busy s).
Definition set_failures f s := MkShared (db s) f (inflight s) (closed s) (channels s) (busy s).
Definition set_inflight m s := MkShared (db s) (failures s) m (closed s) (channels s) (busy s).
Definition set_closed c s := MkShared (db s) (failures s) (inflight s) c (channels s) (busy s).
Definition set_busy n s := MkShared (db s) (failures s) (inflight s) (closed s) (channels s) n.

(** What the outside decides at a step: [Now] is the clock, [ctxErr] and
    [lookupCtxErr] say whether the contexts have ended, [other] picks the
    second of two ready cases, [answer] is what a lookup says, and [order] is
    the order in which the map of failures is walked. *)
Record event := MkEvent {
  Now : Z; ctxErr : option ctx_error; lookupCtxErr : option ctx_error; other : bool;
  answer : gostring -> lookup_answer; order : list gostring }.

Inductive goroutine :=
  | Called (domain : gostring)
  | Reading (domain : gostring) (now : Z)
  | Claiming (domain : gostring) (now : Z)
  | Waiting (domain : gostring) (pending : nat)
  | Rereading (domain : gostring)
  | Rechecking (domain : gostring) (now : Z) (pending : nat)
  | Releasing (domain : gostring) (pending : nat) (result : evidence_result)
  | Acquiring (domain : gostring) (now : Z) (pending : nat)
  | Looking (domain : gostring) (now : Z) (pending : nat)
  | Leaving (domain : gostring) (now : Z) (pending : nat) (a : lookup_error + (Z * Z))
  | Storing (domain : gostring) (now : Z) (pending : nat) (a : lookup_error + (Z * Z))
  | Settling (domain : gostring) (now : Z) (pending : nat) (lookupErr : option lookup_error) (result : evidence_result)
  | Returned (result : evidence_result)
  | Crashed.

Section Evidence.
Context `{UnicodeTables, PublicSuffix} (c : registration_store).

(** A record that is still current. *)
Definition current (found : option DomainRegistration) (now : Z) : option DomainRegistration :=
  match found with Some record => if now <? dr_ExpiresAt record then Some record else None | None => None end.

(** [lookupSafely] turns a panic into an error. *)
Definition lookupSafely (a : lookup_answer) : lookup_error + (Z * Z) :=
  match a with
  | Answers registeredAt expiresAt => inr (registeredAt, expiresAt)
  | Refuses err => inl err
  | Panics => inl LookupPanicked
  end.

(** The dates of an answer, and the cache deadline of one without an expiry. *)
Definition checked_dates (now : Z) (a : lookup_error + (Z * Z)) : lookup_error + (Z * Z) :=
  match a with
  | inl err => inl err
  | inr (registeredAt, expiresAt) =>
      let missingExpiry := expiresAt =? zeroTime in
      if (registeredAt =? zeroTime) || (now <? registeredAt) ||
         (negb missingExpiry && (negb (registeredAt <? expiresAt) || negb (now <? expiresAt)))
      then inl LookupDates
      else inr (registeredAt, if missingExpiry then now + domainRegistrationMissingExpiryCache else expiresAt)
  end.

(** The key that a walk over the map meets first. *)
Definition any_failure (order : list gostring) (m : gmap gostring Z) : option gostring :=
  match List.find (λ k, bool_decide (is_Some (m !! k))) order with
  | Some k => Some k
  | None => fst <$> head (map_to_list m)
  end.
Fixpoint drop_failures (fuel : nat) (order : list gostring) (m : gmap gostring Z) : gmap gostring Z :=
  match fuel with
  | O => m
  | S fuel =>
      if (maxSize c <=? Z.of_nat (size m)) && (0 <? Z.of_nat (size m)) then
        match any_failure order m with None => m | Some k => drop_failures fuel order (base.delete k m) end
      else m
  end.
Definition pruneFailuresLocked (order : list gostring) (now : Z) (m : gmap gostring Z) : gmap gostring Z :=
  let m := base.filter (λ p : gostring * Z, now < p.2) m in
  drop_failures (size m) order m.

Definition retry_after (err : lookup_error) : Z :=
  match err with LookupContext DeadlineExceeded => domainRegistrationDeadlineRetry | _ => domainRegistrationFailureRetry end.

(** [close]: closing a closed channel panics. *)
Definition close_channel (pending : nat) (s : shared_store) : option shared_store :=
  if bool_decide (pending ∈ closed s) then None else Some (set_closed ({[pending]} ∪ closed s) s).

(** A statement of the repository, and what follows it. *)
Definition read_current (domain : gostring) (s : shared_store) : (repo_error + option DomainRegistration) * shared_store :=
  let '(r, w) := Domains.DomainRegistration_ domain (db s) in
  (r, set_db w s).

(** The first critical section. *)
Definition claim (domain : gostring) (now : Z) (s : shared_store) : shared_store * goroutine :=
  if match failures s !! domain with Some retryAt => now <? retryAt | None => false end then (s, Returned (inr no_registration))
  else
    match inflight s !! domain with
    | Some pending => (s, Waiting domain pending)
    | None =>
        let pending := channels s in
        (MkShared (db s) (failures s) (<[domain := pending]> (inflight s)) (closed s) (S pending) (busy s), Rechecking domain now pending)
    end.

Definition finishInflight (domain : gostring) (pending : nat) (s : shared_store) : option shared_store :=
  if bool_decide (inflight s !! domain = Some pending)
  then close_channel pending (set_inflight (base.delete domain (inflight s)) s)
  else Some s.

(** The last critical section. *)
Definition settle (e : event) (domain : gostring) (now : Z) (pending : nat) (lookupErr : option lookup_error) (s : shared_store) : option shared_store :=
  let s := set_inflight (base.delete domain (inflight s)) s in
  let s := set_failures
    (match lookupErr, ctxErr e with
     | Some err, None => <[domain := now + retry_after err]> (pruneFailuresLocked (order e) now (failures s))
     | Some _, Some _ => failures s
     | None, _ => base.delete domain (failures s)
     end) s in
  close_channel pending s.

(** [then_return] ends a critical section that closes a channel. *)
Definition then_return (s : option shared_store) (s0 : shared_store) (result : evidence_result) : option (shared_store * goroutine) :=
  Some (match s with Some s => (s, Returned result) | None => (s0, Crashed) end).

Definition step (e : event) (s : shared_store) (g : goroutine) : option (shared_store * goroutine) :=
  match g with
  | Called domain =>
      match registrableDomain domain with
      | None => None
      | Some domain =>
          if negb (has_lookup c) || beq domain [] then Some (s, Returned (inr no_registration)) else Some (s, Reading domain (Now e))
      end
  | Reading domain now =>
      let '(r, s) := read_current domain s in
      Some (s, match r with
               | inl err => Returned (inl (RepositoryError err))
               | inr found => match current found now with
                              | Some record => Returned (inr (domainRegistrationEvidence record))
                              | None => Claiming domain now
                              end
               end)
  | Claiming domain now => Some (claim domain now s)
  | Waiting domain pending =>
      match bool_decide (pending ∈ closed s), ctxErr e with
      | false, None => None
      | true, None => Some (s, Rereading domain)
      | false, Some err => Some (s, Returned (inl (ContextError err)))
      | true, Some err => Some (s, if other e then Returned (inl (ContextError err)) else Rereading domain)
      end
  | Rereading domain =>
      let '(r, s) := read_current domain s in
      Some (s, Returned (match r with
                         | inl err => inl (RepositoryError err)
                         | inr found => match current found (Now e) with
                                        | Some record => inr (domainRegistrationEvidence record)
                                        | None => inr no_registration
                                        end
                         end))
  | Rechecking domain now pending =>
      let '(r, s) := read_current domain s in
      Some (s, match r with
               | inl err => Releasing domain pending (inl (RepositoryError err))
               | inr found => match current found (Now e) with
                              | Some record => Releasing domain pending (inr (domainRegistrationEvidence record))
                              | None => Acquiring domain now pending
                              end
               end)
  | Releasing domain pending result => then_return (finishInflight domain pending s) s result
  | Acquiring domain now pending =>
      let acquired := Some (set_busy (S (busy s)) s, Looking domain now pending) in
      let ended err := Some (s, Storing domain now pending (checked_dates now (inl (LookupContext err)))) in
      match (busy s <? slot_capacity c)%nat, lookupCtxErr e with
      | false, None => None
      | true, None => acquired
      | false, Some err => ended err
      | true, Some err => if other e then ended err else acquired
      end
  | Looking domain now pending => Some (s, Leaving domain now pending (lookupSafely (answer e domain)))
  | Leaving domain now pending a =>
      match busy s with
      | O => None
      | S n => Some (set_busy n s, Storing domain now pending (checked_dates now a))
      end
  | Storing domain now pending a =>
      match a with
      | inl err => Some (s, Settling domain now pending (Some err) (inl (LookupError err)))
      | inr (registeredAt, expiresAt) =>
          let refreshed := MkDomainRegistration domain registeredAt expiresAt in
          let '(r, w) := Domains.PutDomainRegistration refreshed (db s) in
          Some (set_db w s, Settling domain now pending None
            (match r with inl err => inl (RepositoryError err) | inr _ => inr (domainRegistrationEvidence refreshed) end))
      end
  | Settling domain now pending lookupErr result => then_return (settle e domain now pending lookupErr s) s result
  | Returned _ | Crashed => None
  end.

(** A store that has just been made, and the calls of [evidence] it gets. *)
Definition fresh (w : World) (calls : list gostring) : system shared_store goroutine :=
  MkSystem (MkShared w ∅ ∅ ∅ 0 0) (Called <$> calls).
End Evidence.
