(* ===== verification/RegistrationProps.v ===== *)
(** * Properties of the registration evidence

    For every number of goroutines, every interleaving and every behaviour of
    the clock, the contexts, the database and the lookups: one lookup per
    domain at a time, never more lookups than slots, no lost wake-up, and
    nothing claimed once the calls have returned. *)
From S2P Require Import Prelude GoText NetSafety MailAuth SqlDb Calendar Config IPReputation Activity Interleave Registration.

(** The domain that a goroutine has claimed, with its channel. *)
Definition owner (g : goroutine) : option (gostring * nat) :=
  match g with
  | Rechecking d _ p | Releasing d p _ | Acquiring d _ p | Looking d _ p | Leaving d _ p _ | Storing d _ p _ | Settling d _ p _ _ => Some (d, p)
  | _ => None
  end.
Definition waits (g : goroutine) : option (gostring * nat) := match g with Waiting d p => Some (d, p) | _ => None end.
(** The goroutine holds a slot. *)
Definition holds_slot (g : goroutine) : bool := match g with Looking _ _ _ | Leaving _ _ _ _ => true | _ => false end.
Definition returned (g : goroutine) : bool := match g with Returned _ => true | _ => false end.

Definition crashed (g : goroutine) : bool := match g with Crashed => true | _ => false end.
Definition table_of (s : shared_store) : table gostring := MkTable (inflight s) (closed s) (channels s).

Section Steps.
Context {UT : UnicodeTables} {PS : PublicSuffix} (c : registration_store).
Implicit Types (s : shared_store) (ls : list goroutine) (e : event).

Lemma read_current_shared d s r s' : read_current d s = (r, s') ->
  s' = set_db (db s') s /\ wdb (db s') = wdb (db s).
Proof.
  unfold read_current. destruct (Domains.DomainRegistration_ d (db s)) as [r' w] eqn:E. intros [= <- <-]. split; [done|]. cbn.
  unfold Domains.DomainRegistration_, lift_db in E. destruct (query _ (db s)) as [q w'] eqn:Eq. apply query_db in Eq. destruct q; by injection E as _ <-.
Qed.

(** What one step does to the claims. *)
Lemma step_claims e s g s' g' : step c e s g = Some (s', g') ->
  (forall d p, owner g = Some (d, p) -> inflight s !! d = Some p /\ p ∉ closed s) -> claim_effect owner waits crashed (table_of s) (table_of s') g g'.
Proof.
  intros Hs Ho. destruct g as [d|d now|d now|d p|d|d now p|d p r|d now p|d now p|d now p a|d now p a|d now p le r|r|]; cbn [step] in Hs; try done.
  all: try (specialize (Ho d p eq_refl) as [Hd Hp]).
  - destruct (registrableDomain d); [|done]. destruct (_ || _); injection Hs as <- <-; by apply Keeps.
  - destruct (read_current d s) as [r s1] eqn:E. apply read_current_shared in E as [E _]. rewrite E in Hs. injection Hs as <- <-.
    apply Keeps; try done; destruct r as [|found]; try done; by destruct (current found now).
  - injection Hs as Hs. unfold claim in Hs. destruct (match failures s !! d with Some _ => _ | None => _ end); [injection Hs as <- <-; by apply Keeps|].
    destruct (inflight s !! d) as [p|] eqn:Ed; injection Hs as <- <-; [apply Keeps; try done; cbn; naive_solver|by eapply (Claims _ _ _ _ _ _ _ d)].
  - destruct (bool_decide _), (ctxErr e); try done; try (injection Hs as <- <-; by apply Keeps).
    destruct (other e); injection Hs as <- <-; by apply Keeps.
  - destruct (read_current d s) as [r s1] eqn:E. apply read_current_shared in E as [E _]. rewrite E in Hs. injection Hs as <- <-. by apply Keeps.
  - destruct (read_current d s) as [r s1] eqn:E. apply read_current_shared in E as [E _]. rewrite E in Hs. injection Hs as <- <-.
    apply Keeps; try done; destruct r as [|found]; try done; by destruct (current found (Now e)).
  - unfold then_return, finishInflight, close_channel in Hs. rewrite bool_decide_true in Hs by done. cbn [closed set_inflight] in Hs.
    rewrite bool_decide_false in Hs by done. injection Hs as <- <-. by apply (Frees _ _ _ _ _ _ _ d p).
  - destruct (_ <? _)%nat, (lookupCtxErr e); try done; try (destruct (other e)); injection Hs as <- <-; by apply Keeps.
  - injection Hs as <- <-. by apply Keeps.
  - destruct (busy s); [done|]. injection Hs as <- <-. by apply Keeps.
  - destruct a as [|[r x]]; [injection Hs as <- <-; by apply Keeps|].
    destruct (Domains.PutDomainRegistration _ _) as [q w]. injection Hs as <- <-. by apply Keeps.
  - unfold then_return, settle, close_channel in Hs. cbn [closed set_inflight set_failures] in Hs.
    rewrite bool_decide_false in Hs by done. injection Hs as <- <-. by apply (Frees _ _ _ _ _ _ _ d p).
Qed.

Abbreviation flying := (flight owner waits crashed).
Lemma flight_step i e y y' : flying (table_of (shared y)) (threads y) -> advance (step c) i e y = Some y' -> flying (table_of (shared y')) (threads y').
Proof.
  intros Hf (g & s & g' & Hg & Hs & ->)%advance_inv. apply (flight_effect _ _ _ (table_of (shared y)) _ _ i g g' Hf Hg).
  apply (step_claims e _ _ _ _ Hs). intros d p Hp. exact (flight_owned _ _ _ _ _ i g d p Hf Hg Hp).
Qed.

(** The slots in use are those of the goroutines that hold one. *)
Definition slots_fit s ls : Prop := busy s = count_threads holds_slot ls /\ (busy s <= slot_capacity c)%nat.

Lemma slots_step i e y y' : slots_fit (shared y) (threads y) -> advance (step c) i e y = Some y' -> slots_fit (shared y') (threads y').
Proof.
  intros [Hb Hcap] (g & s & g' & Hg & Hs & ->)%advance_inv. unfold slots_fit. cbn [shared threads].
  pose proof (count_insert holds_slot (threads y) i g g' Hg) as Hc.
  cut ((busy s + of_bool (holds_slot g) = busy (shared y) + of_bool (holds_slot g') /\ busy s <= slot_capacity c)%nat); [lia|].
  destruct g as [d|d now|d now|d p|d|d now p|d p r|d now p|d now p|d now p a|d now p a|d now p le r|r|]; cbn [step] in Hs; try done.
  all: try (destruct (read_current d (shared y)) as [r s1] eqn:E; apply read_current_shared in E as [E _]; rewrite E in Hs).
  - destruct (registrableDomain d); [|done]. destruct (_ || _); injection Hs as <- <-; cbn; lia.
  - injection Hs as <- <-. destruct r as [|found]; [cbn; lia|]. destruct (current found now); cbn; lia.
  - injection Hs as Hs. unfold claim in Hs. destruct (match failures (shared y) !! d with Some _ => _ | None => _ end); [injection Hs as <- <-; cbn; lia|].
    destruct (inflight (shared y) !! d) as [p|]; injection Hs as <- <-; cbn; lia.
  - destruct (bool_decide _), (ctxErr e); try done; try (destruct (other e)); injection Hs as <- <-; cbn; lia.
  - injection Hs as <- <-. cbn; lia.
  - injection Hs as <- <-. destruct r as [|found]; [cbn; lia|]. destruct (current found (Now e)); cbn; lia.
  - unfold then_return, finishInflight, close_channel in Hs. destruct (bool_decide (_ !! _ = _)); [|injection Hs as <- <-; cbn; lia].
    destruct (bool_decide _); injection Hs as <- <-; cbn; lia.
  - destruct (busy (shared y) <? slot_capacity c)%nat eqn:El, (lookupCtxErr e); try done; try (destruct (other e));
      injection Hs as <- <-; cbn; try lia; apply Nat.ltb_lt in El; lia.
  - injection Hs as <- <-. cbn; lia.
  - destruct (busy (shared y)) as [|n] eqn:Eb; [done|]. injection Hs as <- <-. cbn. lia.
  - destruct a as [|[r x]]; [injection Hs as <- <-; cbn; lia|].
    destruct (Domains.PutDomainRegistration _ _) as [q w]. injection Hs as <- <-. cbn. lia.
  - unfold then_return, settle, close_channel in Hs. destruct (bool_decide _); injection Hs as <- <-; cbn; lia.
Qed.

(** ** Failures *)

Lemma any_failure_some (o : list gostring) (m : gmap gostring Z) : m <> ∅ -> exists k, any_failure o m = Some k /\ is_Some (m !! k).
Proof.
  intros Hm. unfold any_failure. destruct (List.find _ o) as [k|] eqn:E.
  - apply List.find_some in E as [_ E]. apply bool_decide_eq_true in E. by exists k.
  - destruct (map_to_list m) as [|[k v] l] eqn:El; [by apply map_to_list_empty_iff in El|]. exists k. split; [done|].
    exists v. apply elem_of_map_to_list. rewrite El. left.
Qed.

Lemma drop_failures_fit (o : list gostring) : forall fuel (m : gmap gostring Z), (size m <= fuel)%nat -> 
  Z.of_nat (size (drop_failures c fuel o m)) <= Z.max 0 (maxSize c - 1).
Proof.
  induction fuel as [|fuel IH]; intros m Hm; cbn [drop_failures]; [lia|].
  destruct (maxSize c <=? Z.of_nat (size m)) eqn:E1; cbn [andb]; [|apply Z.leb_gt in E1; lia].
  destruct (0 <? Z.of_nat (size m)) eqn:E2; [|apply Z.ltb_ge in E2; lia].
  apply Z.ltb_lt in E2. destruct (any_failure_some o m) as (k & -> & Hk); [intros ->; rewrite map_size_empty in E2; lia|].
  apply IH. rewrite map_size_delete_Some by done. lia.
Qed.

Definition failures_fit s : Prop := Z.of_nat (size (failures s)) <= Z.max 1 (maxSize c).

Lemma settled_failures_fit (o : list gostring) (now : Z) (d : gostring) (t : Z) (m : gmap gostring Z) : Z.of_nat (size (<[d := t]> (pruneFailuresLocked c o now m))) <= Z.max 1 (maxSize c).
Proof.
  unfold pruneFailuresLocked. set (m' := base.filter _ m). pose proof (drop_failures_fit o (size m') m' ltac:(lia)) as Hf.
  rewrite map_size_insert. destruct (_ !! d); cbn [id]; lia.
Qed.

Lemma failures_step i e y y' : failures_fit (shared y) -> advance (step c) i e y = Some y' -> failures_fit (shared y').
Proof.
  intros Hf (g & s & g' & Hg & Hs & ->)%advance_inv. cbn [shared]. unfold failures_fit in *.
  destruct g as [d|d now|d now|d p|d|d now p|d p r|d now p|d now p|d now p a|d now p a|d now p le r|r|]; cbn [step] in Hs; try done.
  all: try (destruct (read_current d (shared y)) as [r s1] eqn:E; apply read_current_shared in E as [E _]; rewrite E in Hs; by injection Hs as <- <-).
  - destruct (registrableDomain d); [|done]. by destruct (_ || _); injection Hs as <- <-.
  - injection Hs as Hs. unfold claim in Hs. destruct (match failures (shared y) !! d with Some _ => _ | None => _ end); [by injection Hs as <- <-|].
    by destruct (inflight (shared y) !! d) as [p|]; injection Hs as <- <-.
  - by destruct (bool_decide _), (ctxErr e); try done; try (destruct (other e)); injection Hs as <- <-.
  - unfold then_return, finishInflight, close_channel in Hs. destruct (bool_decide (_ !! _ = _)); [|by injection Hs as <- <-].
    by destruct (bool_decide _); injection Hs as <- <-.
  - by destruct (_ <? _)%nat, (lookupCtxErr e); try done; try (destruct (other e)); injection Hs as <- <-.
  - by injection Hs as <- <-.
  - destruct (busy (shared y)) as [|n] eqn:Eb; [done|]. by injection Hs as <- <-.
  - destruct a as [|[r x]]; [by injection Hs as <- <-|]. destruct (Domains.PutDomainRegistration _ _) as [q w]. by injection Hs as <- <-.
  - unfold then_return, settle, close_channel in Hs. destruct (bool_decide _); injection Hs as <- <-; [done|]. cbn [failures set_closed set_failures set_inflight].
    destruct le as [err|]; [|etransitivity; [|exact Hf]; rewrite map_size_delete; destruct (_ !! d); unfold id; lia].
    destruct (ctxErr e); [done|]. apply settled_failures_fit.
Qed.

(** ** Everything together *)

Record consistent (y : system shared_store goroutine) : Prop := {
  cn_flight : flying (table_of (shared y)) (threads y);
  cn_slots : slots_fit (shared y) (threads y);
  cn_failures : failures_fit (shared y) }.

Lemma consistent_step i e y y' : consistent y -> advance (step c) i e y = Some y' -> consistent y'.
Proof.
  intros [H1 H2 H3] Ha. split; [by eapply flight_step|by eapply slots_step|by eapply failures_step].
Qed.

Lemma fresh_consistent w calls : consistent (fresh w calls).
Proof.
  split; unfold fresh; cbn [shared threads].
  - apply flight_start. intros g (d & -> & _)%list_elem_of_fmap. done.
  - split; cbn [busy]; [|lia]. symmetry. apply count_none. by apply Forall_fmap, Forall_true.
  - unfold failures_fit. cbn [failures]. rewrite map_size_empty. lia.
Qed.

Lemma run_consistent schedule w calls y : run (step c) schedule (fresh w calls) = Some y -> consistent y.
Proof. apply run_invariant; [intros i e z z'; apply consistent_step|apply fresh_consistent]. Qed.

(** ** Termination and progress *)

(** The steps that a goroutine has left, at most. *)
Definition remaining (g : goroutine) : nat :=
  match g with
  | Called _ => 9 | Reading _ _ => 8 | Claiming _ _ => 7 | Rechecking _ _ _ => 6 | Acquiring _ _ _ => 5 | Looking _ _ _ => 4
  | Leaving _ _ _ _ => 3 | Storing _ _ _ _ => 2 | Waiting _ _ => 2 | Settling _ _ _ _ _ | Rereading _ | Releasing _ _ _ => 1 | Returned _ | Crashed => 0
  end.

Lemma step_remaining e s g s' g' : step c e s g = Some (s', g') -> (remaining g' < remaining g)%nat.
Proof.
  intros Hs. destruct g as [d|d now|d now|d p|d|d now p|d p r|d now p|d now p|d now p a|d now p a|d now p le r|r|]; cbn [step] in Hs; try done.
  all: try match goal with Hs : context [read_current ?d ?s] |- _ => destruct (read_current d s) as [r s1] end.
  - destruct (registrableDomain d); [|done]. destruct (_ || _); injection Hs as <- <-; cbn; lia.
  - injection Hs as <- <-. destruct r as [|found]; [cbn; lia|]. destruct (current found now); cbn; lia.
  - injection Hs as Hs. unfold claim in Hs. destruct (match failures s !! d with Some _ => _ | None => _ end); [injection Hs as <- <-; cbn; lia|].
    destruct (inflight s !! d) as [p|]; injection Hs as <- <-; cbn; lia.
  - destruct (bool_decide _), (ctxErr e); try done; try (destruct (other e)); injection Hs as <- <-; cbn; lia.
  - injection Hs as <- <-. cbn; lia.
  - injection Hs as <- <-. destruct r as [|found]; [cbn; lia|]. destruct (current found (Now e)); cbn; lia.
  - unfold then_return in Hs. destruct (finishInflight d p s); injection Hs as <- <-; cbn; lia.
  - destruct (_ <? _)%nat, (lookupCtxErr e); try done; try (destruct (other e)); injection Hs as <- <-; cbn; lia.
  - injection Hs as <- <-. cbn; lia.
  - destruct (busy s) as [|n]; [done|]. injection Hs as <- <-. cbn. lia.
  - destruct a as [|[r x]]; [injection Hs as <- <-; cbn; lia|].
    destruct (Domains.PutDomainRegistration _ _) as [q w]. injection Hs as <- <-. cbn. lia.
  - unfold then_return in Hs. destruct (settle c e d now p le s); injection Hs as <- <-; cbn; lia.
Qed.

Lemma total_called (calls : list gostring) : total remaining (Called <$> calls) = (9 * length calls)%nat.
Proof. induction calls as [|d calls IH]; [done|]. unfold total in *. cbn [fmap list_fmap sum_list_with length remaining]. change (list_fmap _ _ Called calls) with (Called <$> calls). lia. Qed.

(** A goroutine blocks only for another one: at the table, at the slots, or
    (never) at giving back a slot it does not hold. *)
Definition blocked s (g : goroutine) : Prop :=
  match g with
  | Waiting _ p => p ∉ closed s
  | Acquiring _ _ _ => (slot_capacity c <= busy s)%nat
  | Leaving _ _ _ _ => busy s = 0%nat
  | Called d => registrableDomain d = None
  | Returned _ | Crashed => True
  | _ => False
  end.

Lemma step_enabled e s g : ~ blocked s g -> ctxErr e = None -> lookupCtxErr e = None -> is_Some (step c e s g).
Proof.
  intros Hb Hc Hl. destruct g as [d|d now|d now|d p|d|d now p|d p r|d now p|d now p|d now p a|d now p a|d now p le r|r|]; cbn [step blocked] in *; try done.
  all: try (by destruct (read_current d s)).
  - destruct (registrableDomain d); [|done]. by destruct (_ || _).
  - rewrite Hc. destruct (bool_decide (p ∈ closed s)) eqn:E; [done|]. by apply bool_decide_eq_false in E.
  - rewrite Hl. destruct (busy s <? slot_capacity c)%nat eqn:E; [done|]. apply Nat.ltb_ge in E. lia.
  - by destruct (busy s).
  - destruct a as [|[r x]]; [done|]. by destruct (Domains.PutDomainRegistration _ _).
Qed.

Lemma holder_exists y : slots_fit (shared y) (threads y) -> (0 < busy (shared y))%nat -> exists i g, threads y !! i = Some g /\ holds_slot g = true.
Proof.
  intros [Hb _] Hp. rewrite Hb in Hp. unfold count_threads in Hp. destruct (List.filter holds_slot (threads y)) as [|g l] eqn:E; [cbn in Hp; lia|].
  assert (In g (List.filter holds_slot (threads y))) as [Hg Hh]%filter_In by (rewrite E; by left).
  apply list_elem_of_In, list_elem_of_lookup in Hg as [i Hi]. by exists i, g.
Qed.

(** In a consistent system where somebody has not returned, somebody can
    move, even if no context ever ends. *)
Lemma progress e y : consistent y -> (0 < slot_capacity c)%nat -> (forall d, registrableDomain d <> None) ->
  ctxErr e = None -> lookupCtxErr e = None -> existsb (λ g, negb (returned g)) (threads y) = true -> exists i, is_Some (advance (step c) i e y).
Proof.
  intros [Hf Hsl _] Hcap Hreg Hc Hl (g & Hg & Hr)%existsb_exists.
  assert (Hmove : forall i g, threads y !! i = Some g -> ~ blocked (shared y) g -> exists i, is_Some (advance (step c) i e y)).
  { intros i h Hi Hb. destruct (step_enabled e (shared y) h Hb Hc Hl) as [[s h'] Hs]. exists i. unfold advance. rewrite Hi, Hs. done. }
  assert (Hslot : (0 < busy (shared y))%nat -> exists i, is_Some (advance (step c) i e y)).
  { intros Hb. destruct (holder_exists y Hsl Hb) as (i & h & Hi & Hh). apply (Hmove i h Hi).
    destruct h; try done; cbn [blocked]; [tauto|lia]. }
  assert (Hown : forall i h d p, threads y !! i = Some h -> owner h = Some (d, p) -> exists i, is_Some (advance (step c) i e y)).
  { intros i h d p Hi Ho. destruct (decide (0 < busy (shared y))%nat) as [Hb|Hb]; [by apply Hslot|].
    apply (Hmove i h Hi). destruct h; try done; cbn [blocked]; try tauto; try lia.
    destruct Hsl as [Hcount _]. intros _. assert (Hz : count_threads holds_slot (threads y) = 0%nat) by lia.
    assert (In (Leaving domain now pending a) (List.filter holds_slot (threads y))) as Hin.
    { apply filter_In. split; [|done]. apply list_elem_of_In. by eapply list_elem_of_lookup_2. }
    unfold count_threads in Hz. destruct (List.filter holds_slot (threads y)); [destruct Hin|cbn in Hz; lia]. }
  apply list_elem_of_In, list_elem_of_lookup in Hg as [i Hi]. destruct (owner g) as [[d p]|] eqn:Eo; [by eapply Hown|].
  destruct g; try done.
  - apply (Hmove i _ Hi). apply Hreg.
  - apply (Hmove i _ Hi). cbn [blocked]. tauto.
  - apply (Hmove i _ Hi). cbn [blocked]. tauto.
  - destruct (fl_waits _ _ _ _ _ Hf _ _ domain pending Hi eq_refl) as [Hcl|Hin]; [apply (Hmove i _ Hi); cbn [blocked]; tauto|].
    destruct (fl_live _ _ _ _ _ Hf _ _ Hin) as (j & h & Hj & Ho). by eapply Hown.
  - apply (Hmove i _ Hi). cbn [blocked]. tauto.
  - by pose proof (fl_sound _ _ _ _ _ Hf i _ Hi).
Qed.

Lemma finished_released y : consistent y -> forallb returned (threads y) = true -> inflight (shared y) = ∅ /\ busy (shared y) = 0%nat.
Proof.
  intros [Hf [Hb _] _] Hr. assert (Hall : forall i g, threads y !! i = Some g -> returned g = true).
  { intros i g Hi. rewrite forallb_forall in Hr. apply Hr, list_elem_of_In. by eapply list_elem_of_lookup_2. }
  split.
  - apply map_empty. intros d. destruct (inflight (shared y) !! d) as [p|] eqn:E; [|done].
    destruct (fl_live _ _ _ _ _ Hf _ _ E) as (i & g & Hi & Ho). specialize (Hall i g Hi). by destruct g.
  - rewrite Hb. apply count_none. rewrite Forall_lookup. intros i g Hi. specialize (Hall i g Hi). by destruct g.
Qed.
End Steps.

(** ** The registrable domain *)

Definition label_suffix (s d : gostring) : Prop := s = d \/ exists p, d = p ++ "."%char :: s.

(** golang.org/x/net/publicsuffix: the public suffix of a domain is made of its last labels. *)
Class SuffixLaws `{PublicSuffix} : Prop := { suffix_of_domain : forall d, label_suffix (public_suffix d).1 d }.

Lemma label_suffix_trans a b d : label_suffix a b -> label_suffix b d -> label_suffix a d.
Proof.
  intros [-> | [p ->]]; [done|]. intros [<- | [q ->]]; right; [by exists p|]. exists (q ++ "."%char :: p). by rewrite <- app_assoc.
Qed.
Lemma label_suffix_length s d : label_suffix s d -> (length s <= length d)%nat.
Proof. intros [-> | [p ->]]; [done|]. rewrite length_app. cbn. lia. Qed.

Section RegistrableFacts.
#[local] Set Default Proof Using "All".
Context {UT : UnicodeTables} {PS : PublicSuffix} {SL : SuffixLaws}.

(** A suffix that a registry can have: of an ICANN rule, or a single label. *)
Definition registry_suffix (s : gostring) : Prop := (exists d, public_suffix d = (s, true)) \/ "."%char ∉ s.

Lemma icann_suffix_spec fuel : forall d s (icann : bool), public_suffix d = (s, icann) -> (length s <= fuel)%nat ->
  exists r, icann_suffix fuel s icann = Some r /\ label_suffix r d /\ registry_suffix r.
Proof.
  induction fuel as [|fuel IH]; intros d s icann Hd Hlen; pose proof (suffix_of_domain d) as Hs; rewrite Hd in Hs; cbn [fst] in Hs;
    (destruct icann; [exists s; split_and!; [done..|left; by exists d]|]); cbn [icann_suffix];
    destruct (cut "." s) as [[a parent]|] eqn:Ec; try (exists s; split_and!; [done..|right; by apply cut_None]).
  - apply cut_length in Ec. lia.
  - destruct (public_suffix parent) as [s' icann'] eqn:Ep. pose proof (suffix_of_domain parent) as Hp. rewrite Ep in Hp. cbn [fst] in Hp.
    pose proof (cut_length _ _ _ _ Ec). pose proof (label_suffix_length _ _ Hp). destruct (IH parent s' icann' Ep) as (r & Hr & Hl & Hg); [lia|].
    exists r. split_and!; [done| |done]. apply (label_suffix_trans r parent); [done|]. apply (label_suffix_trans parent s); [|done].
    apply cut_Some in Ec as [-> _]. right. by exists a.
Qed.

Lemma registrable_under_spec d s : label_suffix s d ->
  (registrable_under d s = [] /\ d = s) \/
  exists label, registrable_under d s = label ++ "."%char :: s /\ "."%char ∉ label /\ label_suffix (label ++ "."%char :: s) d.
Proof.
  intros [<- | [p ->]]; unfold registrable_under.
  - left. by rewrite (proj2 (Z.leb_le _ _)) by lia.
  - right. unfold go_len. rewrite length_app. cbn [length]. rewrite (proj2 (Z.leb_gt _ _)) by lia.
    replace (length p + S (length s) - length s - 1)%nat with (length p) by lia. rewrite take_app_length.
    destruct (after_last "." p) as [label|] eqn:E.
    + pose proof (after_last_clean _ _ _ E) as Hl. apply after_last_Some in E as (q & ->). exists label. split_and!; [|done|right; exists q; by rewrite <- app_assoc].
      rewrite length_app. cbn [length]. replace (length q + S (length label) - length label)%nat with (S (length q)) by lia.
      rewrite <- app_assoc. cbn [app]. change (q ++ "."%char :: label ++ "."%char :: s) with (q ++ ["."%char] ++ label ++ "."%char :: s).
      rewrite app_assoc. replace (S (length q)) with (length (q ++ ["."%char])) by (rewrite length_app; cbn; lia). apply drop_app_length.
    + exists p. split_and!; [done|by apply after_last_absent|by left].
Qed.

Lemma registrable_total d : exists r, registrableDomain d = Some r /\
  (r = [] \/ exists label s, r = label ++ "."%char :: s /\ "."%char ∉ label /\ registry_suffix s /\ label_suffix r (DNSHostname d)).
Proof.
  unfold registrableDomain. set (n := DNSHostname d). destruct (public_suffix n) as [s icann] eqn:E.
  pose proof (suffix_of_domain n) as Hs. rewrite E in Hs. cbn [fst] in Hs. pose proof (label_suffix_length _ _ Hs).
  destruct (icann_suffix_spec (length n) n s icann E) as (r & -> & Hl & Hg); [done|]. cbn [fmap option_fmap option_map].
  eexists. split; [done|]. destruct (registrable_under_spec n r Hl) as [[Hz _]|(label & Heq & Hd & Hls)]; [by left|right].
  exists label, r. rewrite Heq. done.
Qed.
End RegistrableFacts.

(** ** Where the evidence comes from *)

Section Provenance.
Context {UT : UnicodeTables} {PS : PublicSuffix} (c : registration_store).
(** What is true of registrations: domain and milliseconds. *)
Context (genuine : gostring -> Z -> Prop).

Definition genuine_rows (d : Db) : Prop := Forall (λ row, genuine (dm_domain row) (dm_registered_at_ms row)) (domain_registrations d).
Definition genuine_dates (d : gostring) (a : lookup_error + (Z * Z)) : Prop :=
  match a with inr (registeredAt, _) => genuine d (unixMillis registeredAt) | inl _ => True end.
Definition genuine_result (d : gostring) (r : evidence_result) : Prop :=
  match r with inr info => Available info = true -> Domain info = d /\ genuine d (unixMillis (RegisteredAt info)) | inl _ => True end.
(** The outside answers truthfully. *)
Definition truthful (e : event) : Prop := forall d registeredAt expiresAt, answer e d = Answers registeredAt expiresAt -> genuine d (unixMillis registeredAt).

(** The goroutine of a call is about the registrable domain of its argument. *)
Definition serves (call : gostring) (g : goroutine) : Prop :=
  match g with
  | Called d => d = call
  | Reading d _ | Claiming d _ | Waiting d _ | Rereading d | Rechecking d _ _ | Acquiring d _ _ | Looking d _ _ => registrableDomain call = Some d
  | Leaving d _ _ a | Storing d _ _ a => registrableDomain call = Some d /\ genuine_dates d a
  | Releasing d _ r | Settling d _ _ _ r => registrableDomain call = Some d /\ genuine_result d r
  | Returned r => exists d, registrableDomain call = Some d /\ genuine_result d r
  | Crashed => True
  end.

Lemma found_genuine d w r w' : genuine_rows (wdb w) -> Domains.DomainRegistration_ d w = (inr (Some r), w') ->
  genuine_result d (inr (domainRegistrationEvidence r)).
Proof.
  intros Hg. unfold Domains.DomainRegistration_, lift_db. destruct (query _ w) as [q w1] eqn:E. destruct q as [|found]; [done|].
  intros [= -> _]. apply query_ok in E. destruct (List.find _ _) as [row|] eqn:Ef; [|done]. injection E as ->.
  apply List.find_some in Ef as [Hin Hd]. unfold Domains.has_domain in Hd. apply beq_true in Hd as <-. intros _. split; [done|].
  cbn. rewrite unixMillis_timeFromMillis. unfold genuine_rows in Hg. rewrite Forall_forall in Hg. by apply Hg, list_elem_of_In.
Qed.

Lemma current_some found now r : current found now = Some r -> found = Some r.
Proof. unfold current. destruct found; [|done]. by destruct (_ <? _). Qed.

Lemma read_genuine d s r s' : genuine_rows (wdb (db s)) -> read_current d s = (r, s') ->
  genuine_rows (wdb (db s')) /\ forall found now record, r = inr found -> current found now = Some record -> genuine_result d (inr (domainRegistrationEvidence record)).
Proof.
  intros Hg Hr. split; [by rewrite (proj2 (read_current_shared _ _ _ _ Hr))|]. intros found now record -> ->%current_some.
  unfold read_current in Hr. destruct (Domains.DomainRegistration_ d (db s)) as [q w] eqn:E. injection Hr as -> _. by eapply found_genuine.
Qed.

Lemma put_genuine d registeredAt expiresAt w : genuine_rows (wdb w) -> genuine d (unixMillis registeredAt) ->
  genuine_rows (wdb (Domains.PutDomainRegistration (MkDomainRegistration d registeredAt expiresAt) w).2).
Proof.
  intros Hg Hd. unfold Domains.PutDomainRegistration. set (f := Domains.put_statement _).
  assert (Hp : genuine_rows (wdb (exec f w).2)).
  { apply (retry_preserves busyRetries f genuine_rows); [|done]. clear -Hd. intros x Hx. subst f. unfold Domains.put_statement. cbn [dr_RegisteredAt dr_ExpiresAt dr_Domain].
    destruct (_ <? _); [done|]. unfold genuine_rows in *. cbn [snd domain_registrations set_domain_registrations]. destruct (existsb _ _).
    - unfold update_where. rewrite Forall_fmap. eapply Forall_impl; [exact Hx|]. intros row Hrow. cbn. unfold Domains.has_domain.
      destruct (beq (dm_domain row) d) eqn:E; [|done]. apply beq_true in E as ->. done.
    - by apply Forall_app_2, Forall_singleton. }
  unfold Domains.flatten_tx. by destruct (exec f w) as [[|] w'].
Qed.

Lemma checked_genuine d now a : genuine_dates d a -> genuine_dates d (checked_dates now a).
Proof. destruct a as [|[r x]]; [done|]. cbn [checked_dates]. by destruct (_ || _). Qed.

Lemma serves_step e s g s' g' call : truthful e -> genuine_rows (wdb (db s)) -> serves call g -> step c e s g = Some (s', g') ->
  genuine_rows (wdb (db s')) /\ serves call g'.
Proof.
  intros He Hdb Hg Hs. destruct g as [d|d now|d now|d p|d|d now p|d p r|d now p|d now p|d now p a|d now p a|d now p le r|r|]; cbn [step serves] in *; try done.
  all: try match goal with Hs : context [read_current ?d ?s] |- _ =>
    destruct (read_current d s) as [r s1] eqn:E; apply read_genuine in E as [E1 E2]; [|done]; injection Hs as <- <-; split; [done|];
    (destruct r as [|found]; [by (cbn; eauto)|]); match goal with |- context [current found ?now] => destruct (current found now) as [record|] eqn:Ec; [pose proof (E2 _ _ _ eq_refl Ec)|]; cbn [serves]; first [done | exists d; by split | by split] end end.
  - subst d. destruct (registrableDomain call) as [d|] eqn:Ed; [|done]. destruct (_ || _); injection Hs as <- <-; split; cbn; eauto. by exists d.
  - injection Hs as Hs. unfold claim in Hs. destruct (match failures s !! d with Some _ => _ | None => _ end); [injection Hs as <- <-; split; [done|]; by exists d|].
    by destruct (inflight s !! d) as [p|]; injection Hs as <- <-.
  - destruct (bool_decide _), (ctxErr e); try done; try (destruct (other e)); injection Hs as <- <-; (split; [done|]); try done; by exists d.
  - destruct Hg as [Hd Hr]. unfold then_return, finishInflight, close_channel in Hs. destruct (bool_decide (_ !! _ = _)); [|injection Hs as <- <-; split; [done|by exists d]].
    destruct (bool_decide _); injection Hs as <- <-; (split; [done|]); [done|by exists d].
  - by destruct (_ <? _)%nat, (lookupCtxErr e); try done; try (destruct (other e)); injection Hs as <- <-.
  - injection Hs as <- <-. split; [done|]. split; [done|]. unfold lookupSafely. destruct (answer e d) as [r x| |] eqn:Ea; cbn; [by eapply He|done..].
  - destruct (busy s); [done|]. injection Hs as <- <-. split; [done|]. split; [by apply Hg|]. by apply checked_genuine, Hg.
  - destruct Hg as [Hd Ha]. destruct a as [|[r x]]; [by injection Hs as <- <-|]. cbn in Ha. pose proof (put_genuine d r x (db s) Hdb Ha) as Hput.
    destruct (Domains.PutDomainRegistration _ (db s)) as [q w]. injection Hs as <- <-. split; [done|]. split; [done|]. destruct q; [done|]. intros _. by split.
  - destruct Hg as [Hd Hr]. unfold then_return, settle, close_channel in Hs. destruct (bool_decide _); injection Hs as <- <-; (split; [done|]); [done|by exists d].
Qed.

Lemma run_serves schedule w calls y : Forall (λ m, truthful m.2) schedule -> genuine_rows (wdb w) -> run (step c) schedule (fresh w calls) = Some y ->
  forall i g, threads y !! i = Some g -> exists call, calls !! i = Some call /\ serves call g.
Proof.
  intros Ht Hw Hr.
  cut (genuine_rows (wdb (db (shared y))) /\ forall i g, threads y !! i = Some g -> exists call, calls !! i = Some call /\ serves call g); [tauto|].
  assert (Hstart : genuine_rows (wdb (db (shared (fresh w calls)))) /\
    forall i g, threads (fresh w calls) !! i = Some g -> exists call, calls !! i = Some call /\ serves call g).
  { split; [done|]. intros i g Hi. cbn in Hi. rewrite list_lookup_fmap, fmap_Some in Hi. destruct Hi as (d & Hd & ->). by exists d. }
  revert Hstart Hr. generalize (fresh w calls) as z. clear Hw. induction Ht as [|[i e] schedule He _ IH]; intros z [Hz Hth]; cbn [run]; [by intros [= <-]|].
  destruct (advance (step c) i e z) as [z'|] eqn:E; [|done]. apply IH. apply advance_inv in E as (g & s & g' & Hg & Hs & ->). cbn [shared threads].
  destruct (Hth i g Hg) as (call & Hcall & Hserve). destruct (serves_step e (shared z) g s g' call He Hz Hserve Hs) as [H1 H2]. split; [done|].
  intros j h Hj. apply (list_insert_cases _ _ g) in Hj as [[-> ->]|[_ Hj]]; [by exists call|by apply Hth|done].
Qed.
End Provenance.

(** ** Theorems on the registration evidence

    The claims of the component, with a store
    and a public suffix list they are evaluated on. *)

(** ** One call at a time *)

Section Alone.
Context {UT : UnicodeTables} {PS : PublicSuffix} (c : registration_store).

(** A goroutine that nobody gets in the way of. *)
Fixpoint alone (fuel : nat) (e : event) (s : shared_store) (g : goroutine) : option (evidence_result * shared_store) :=
  match g with
  | Returned result => Some (result, s)
  | _ => match fuel with O => None | S fuel => match step c e s g with Some (s, g) => alone fuel e s g | None => None end end
  end.
Definition evidence (e : event) (s : shared_store) (domain : gostring) : option (evidence_result * shared_store) := alone 9 e s (Called domain).

(** Nothing under way, and a database without contention. *)
Definition idle (s : shared_store) : Prop := inflight s = ∅ /\ (channels s ∉ closed s) /\ busy s = 0%nat /\ wschedule (db s) = [].
Definition stored (d : gostring) (s : shared_store) : option DomainRegistration :=
  Domains.scanRegistration <$> List.find (Domains.has_domain d) (domain_registrations (wdb (db s))).
Definition suppressed (d : gostring) (now : Z) (s : shared_store) : bool := match failures s !! d with Some retryAt => now <? retryAt | None => false end.

Lemma quiet_read d s : wschedule (db s) = [] -> read_current d s = (inr (stored d s), s).
Proof.
  destruct s as [[t sch] f m cl ch b]. cbn [db wschedule]. intros ->. unfold read_current, Domains.DomainRegistration_. cbn [db].
  unfold query. rewrite retry_quiet. done.
Qed.

Lemma alone_move f e s g s' g' : returned g = false -> step c e s g = Some (s', g') -> alone (S f) e s g = alone f e s' g'.
Proof. intros Hr Hs. destruct g; cbn [alone]; try done; by rewrite Hs. Qed.
Lemma alone_done f e s r : alone f e s (Returned r) = Some (r, s).
Proof. by destruct f. Qed.

Lemma called_step e s call d : registrableDomain call = Some d -> d <> [] -> has_lookup c = true -> step c e s (Called call) = Some (s, Reading d (Now e)).
Proof. intros Hd Hne Hl. cbn [step]. rewrite Hd, Hl. unfold beq. by rewrite bool_decide_false. Qed.
Lemma reading_step e s d now : wschedule (db s) = [] -> step c e s (Reading d now) = Some (s, match current (stored d s) now with
  | Some record => Returned (inr (domainRegistrationEvidence record)) | None => Claiming d now end).
Proof. intros Hq. cbn [step]. by rewrite (quiet_read d s Hq). Qed.

Lemma evidence_current e s call d record : wschedule (db s) = [] -> registrableDomain call = Some d -> d <> [] -> has_lookup c = true ->
  current (stored d s) (Now e) = Some record -> evidence e s call = Some (inr (domainRegistrationEvidence record), s).
Proof.
  intros Hq Hd Hne Hl Hc. unfold evidence. erewrite alone_move; [|done|by apply called_step]. erewrite alone_move; [|done|by apply reading_step].
  rewrite Hc. apply alone_done.
Qed.

Lemma evidence_suppressed e s call d : wschedule (db s) = [] -> registrableDomain call = Some d -> d <> [] -> has_lookup c = true ->
  current (stored d s) (Now e) = None -> suppressed d (Now e) s = true -> evidence e s call = Some (inr no_registration, s).
Proof.
  intros Hq Hd Hne Hl Hc Hs. unfold evidence. erewrite alone_move; [|done|by apply called_step]. erewrite alone_move; [|done|by apply reading_step].
  rewrite Hc. rewrite (alone_move 6 e s _ s (Returned (inr no_registration))); [apply alone_done|done|].
  cbn [step]. unfold claim. unfold suppressed in Hs. by rewrite Hs.
Qed.

(** The store once the domain is claimed, and the goroutine that looks it up. *)
Definition claimed (d : gostring) (s : shared_store) : shared_store :=
  MkShared (db s) (failures s) (<[d := channels s]> (inflight s)) (closed s) (S (channels s)) (busy s).

Lemma evidence_looks_up e s call d : idle s -> (0 < slot_capacity c)%nat -> ctxErr e = None -> lookupCtxErr e = None ->
  registrableDomain call = Some d -> d <> [] -> has_lookup c = true -> current (stored d s) (Now e) = None -> suppressed d (Now e) s = false ->
  evidence e s call = alone 2 e (claimed d s) (Storing d (Now e) (channels s) (checked_dates (Now e) (lookupSafely (answer e d)))).
Proof.
  intros (Hi & _ & Hb & Hq) Hcap Hx Hlx Hd Hne Hl Hc Hs. unfold evidence. set (k := claimed d s). set (p := channels s).
  erewrite alone_move; [|done|by apply called_step]. erewrite alone_move; [|done|by apply reading_step]. rewrite Hc.
  rewrite (alone_move 6 e s _ k (Rechecking d (Now e) p)); [|done|cbn [step]; unfold claim; unfold suppressed in Hs; rewrite Hs; by replace (inflight s !! d) with (@None nat) by (by rewrite Hi)].
  rewrite (alone_move 5 e k _ k (Acquiring d (Now e) p)); [|done|].
  2:{ cbn [step]. rewrite (quiet_read d k Hq). change (stored d k) with (stored d s). by rewrite Hc. }
  rewrite (alone_move 4 e k _ (set_busy 1 k) (Looking d (Now e) p)); [|done|].
  2:{ cbn [step]. change (busy k) with (busy s). by rewrite Hb, Hlx, (proj2 (Nat.ltb_lt _ _) Hcap). }
  rewrite (alone_move 3 e _ _ (set_busy 1 k) (Leaving d (Now e) p (lookupSafely (answer e d)))); [|done..].
  apply alone_move; [done|]. cbn [step busy set_busy]. unfold k, set_busy, claimed. cbn. by rewrite Hb.
Qed.

(** The store after a lookup. *)
Definition settled (d : gostring) (w : World) (f : gmap gostring Z) (s : shared_store) : shared_store :=
  MkShared w f ∅ ({[channels s]} ∪ closed s) (S (channels s)) (busy s).

Lemma settles e s d w lookupErr : idle s -> settle c e d (Now e) (channels s) lookupErr (set_db w (claimed d s)) =
  Some (settled d w (match lookupErr, ctxErr e with
                     | Some err, None => <[d := Now e + retry_after err]> (pruneFailuresLocked c (order e) (Now e) (failures s))
                     | Some _, Some _ => failures s
                     | None, _ => base.delete d (failures s) end) s).
Proof.
  intros (Hi & Hn & _ & _). unfold settle, close_channel. cbn [closed set_failures set_inflight set_db claimed]. rewrite bool_decide_false by done.
  unfold settled, claimed. cbn. rewrite Hi. by rewrite insert_empty, delete_singleton_eq.
Qed.

Lemma put_quiet d registeredAt expiresAt w : wschedule w = [] -> unixMillis registeredAt <= unixMillis expiresAt ->
  exists w', Domains.PutDomainRegistration (MkDomainRegistration d registeredAt expiresAt) w = (inr tt, w') /\ wschedule w' = [] /\
    Domains.scanRegistration <$> List.find (Domains.has_domain d) (domain_registrations (wdb w')) =
      Some (MkDomainRegistration d (timeFromMillis (unixMillis registeredAt)) (timeFromMillis (unixMillis expiresAt))).
Proof.
  destruct w as [t sch]. cbn [wschedule]. intros -> Hle. unfold Domains.PutDomainRegistration, exec. rewrite retry_quiet. unfold Domains.put_statement.
  cbn [dr_RegisteredAt dr_ExpiresAt dr_Domain]. rewrite (proj2 (Z.ltb_ge _ _) Hle). cbn [Domains.flatten_tx fst snd]. eexists. split_and!; [done..|].
  cbn [wdb domain_registrations set_domain_registrations]. destruct (existsb (Domains.has_domain d) (domain_registrations t)) eqn:E.
  - induction (domain_registrations t) as [|row rows IH]; [done|]. cbn [existsb update_where fmap list_fmap List.find] in *. destruct (Domains.has_domain d row) eqn:Er.
    + unfold Domains.has_domain in *. cbn [dm_domain]. rewrite Er. apply beq_true in Er as <-. done.
    + rewrite Er. by apply IH.
  - generalize (next_id dm_id (domain_registrations t)) as n. intros n. induction (domain_registrations t) as [|row rows IH] in E |- *.
    + cbn. unfold Domains.has_domain. cbn [dm_domain]. by rewrite (proj2 (beq_true d d) eq_refl).
    + cbn [existsb] in E. apply orb_false_iff in E as [Er E]. cbn [app List.find]. rewrite Er. by apply IH.
Qed.

Lemma checked_dates_ordered now a r x : checked_dates now a = inr (r, x) -> r <= now < x.
Proof.
  destruct a as [|[r' x']]; [done|]. cbn [checked_dates]. unfold domainRegistrationMissingExpiryCache, hour, minute, millisecond.
  destruct (Z.eqb_spec x' zeroTime); cbn [negb andb]; destruct (Z.eqb_spec r' zeroTime); try done; cbn [orb];
    destruct (Z.ltb_spec now r'); try done; cbn [orb]; [intros [= <- <-]; lia|].
  destruct (Z.ltb_spec r' x'); [|done]. destruct (Z.ltb_spec now x'); [|done]. intros [= <- <-]. lia.
Qed.

(** What a call leaves behind decides the next call for the same domain. *)
Lemma remembered e1 e2 s call1 call2 d : idle s -> (0 < slot_capacity c)%nat -> has_lookup c = true ->
  ctxErr e1 = None -> lookupCtxErr e1 = None -> registrableDomain call1 = Some d -> registrableDomain call2 = Some d -> d <> [] ->
  current (stored d s) (Now e1) = None -> suppressed d (Now e1) s = false ->
  match checked_dates (Now e1) (lookupSafely (answer e1 d)) with
  | inr (registeredAt, expiresAt) => exists s', evidence e1 s call1 = Some (inr (MkRegistrationInfo true d registeredAt), s') /\
      (Now e2 < timeFromMillis (unixMillis expiresAt) ->
       evidence e2 s' call2 = Some (inr (MkRegistrationInfo true d (timeFromMillis (unixMillis registeredAt))), s'))
  | inl err => exists s', evidence e1 s call1 = Some (inl (LookupError err), s') /\
      (Now e1 <= Now e2 < Now e1 + retry_after err -> evidence e2 s' call2 = Some (inr no_registration, s'))
  end.
Proof.
  intros Hidle Hcap Hl Hx Hlx Hd1 Hd2 Hne Hc Hs. pose proof (evidence_looks_up e1 s call1 d Hidle Hcap Hx Hlx Hd1 Hne Hl Hc Hs) as He.
  destruct (checked_dates _ _) as [err|[r x]] eqn:Ed.
  - rewrite (alone_move 1 e1 _ _ (claimed d s) (Settling d (Now e1) (channels s) (Some err) (inl (LookupError err)))) in He by done.
    erewrite alone_move in He; [|done|cbn [step]; change (claimed d s) with (set_db (db s) (claimed d s)); by rewrite settles].
    rewrite alone_done, Hx in He. eexists. split; [exact He|]. intros Hnow. destruct Hidle as (_ & _ & _ & Hq).
    apply (evidence_suppressed _ _ _ d); try done.
    + unfold stored, settled. cbn [db]. fold (stored d s). unfold current in *. destruct (stored d s) as [rec|]; [|done].
      destruct (Z.ltb_spec (Now e1) (dr_ExpiresAt rec)); [done|]. by rewrite (proj2 (Z.ltb_ge _ _)) by lia.
    + unfold suppressed, settled. cbn [failures]. rewrite lookup_insert_eq. lia.
  - pose proof (checked_dates_ordered _ _ _ _ Ed) as Ho. assert (Hms : unixMillis r <= unixMillis x) by (apply unixMillis_mono; lia).
    pose proof Hidle as (_ & _ & _ & Hq). destruct (put_quiet d r x (db s) Hq Hms) as (w & Hput & Hwq & Hst).
    rewrite (alone_move 1 e1 _ _ (set_db w (claimed d s)) (Settling d (Now e1) (channels s) None (inr (MkRegistrationInfo true d r)))) in He;
      [|done|cbn [step]; change (db (claimed d s)) with (db s); by rewrite Hput].
    erewrite alone_move in He; [|done|cbn [step]; by rewrite settles]. rewrite alone_done in He. eexists. split; [exact He|]. intros Hnow.
    apply (evidence_current _ _ _ d (MkDomainRegistration d (timeFromMillis (unixMillis r)) (timeFromMillis (unixMillis x)))); try done.
    unfold stored, settled. cbn [db]. rewrite Hst. cbn [current dr_ExpiresAt]. by rewrite (proj2 (Z.ltb_lt _ _) Hnow).
Qed.
End Alone.

(** ** The claims *)

(** C28: however many sessions ask at once, in every interleaving and whatever
    the clock, the contexts, the database and the lookups do, a domain is
    claimed by at most one call at a time, no more lookups run than there are
    slots, the record of failures stays within its bound, and no call closes a
    channel twice. *)
Theorem registration_single_flight {UT : UnicodeTables} {PS : PublicSuffix} (c : registration_store) (schedule : list (nat * event)) (w : World)
    (calls : list gostring) (y : system shared_store goroutine) :
  run (step c) schedule (fresh w calls) = Some y ->
  (forall i j g h d p q, threads y !! i = Some g -> threads y !! j = Some h -> owner g = Some (d, p) -> owner h = Some (d, q) -> i = j) /\
  (count_threads holds_slot (threads y) <= slot_capacity c)%nat /\
  Z.of_nat (size (failures (shared y))) <= Z.max 1 (maxSize c) /\
  (forall i, threads y !! i <> Some Crashed).
Proof.
  intros [Hf [Hb Hcap] Hfail]%run_consistent. split_and!; [exact (fl_unique _ _ _ _ _ Hf)|by rewrite <- Hb|done|intros i Hi; by pose proof (fl_sound _ _ _ _ _ Hf i _ Hi)].
Qed.

(** C29: every call returns. No schedule has more than nine steps per call; as
    long as a call has not returned some call can go on, even if no context
    ever ends; and when all have returned nothing is claimed and every slot is
    free. *)
Theorem registration_calls_return {UT : UnicodeTables} {PS : PublicSuffix} {SL : SuffixLaws} (c : registration_store) (schedule : list (nat * event))
    (w : World) (calls : list gostring) (y : system shared_store goroutine) :
  (0 < slot_capacity c)%nat -> run (step c) schedule (fresh w calls) = Some y ->
  (length schedule <= 9 * length calls)%nat /\
  (forallb returned (threads y) = true /\ inflight (shared y) = ∅ /\ busy (shared y) = 0%nat \/
   forall e, ctxErr e = None -> lookupCtxErr e = None -> exists i, is_Some (advance (step c) i e y)).
Proof.
  intros Hcap Hr. pose proof (run_consistent c _ _ _ _ Hr) as Hy. split.
  - pose proof (run_bounded (step c) remaining (step_remaining c) _ _ _ Hr) as Hb. cbn [threads fresh] in Hb. rewrite total_called in Hb. lia.
  - destruct (forallb returned (threads y)) eqn:E; [left; split; [done|by apply (finished_released c)]|right]. intros e Hc Hl.
    apply (progress c e y Hy Hcap); [|done..|].
    + intros d Hd. destruct (registrable_total d) as (r & Hr' & _). congruence.
    + clear -E. induction (threads y) as [|g ls IH]; [done|]. cbn in *. destruct (returned g); [by apply IH|done].
Qed.

(** what a call reports is true of the registrable domain of its argument
    (its last labels, one more than a suffix of a registry) whenever the
    database and the lookups are truthful about each domain: interleaved calls
    never exchange their answers. *)
Theorem registration_evidence_genuine {UT : UnicodeTables} {PS : PublicSuffix} {SL : SuffixLaws} (c : registration_store)
    (genuine : gostring -> Z -> Prop) (schedule : list (nat * event)) (w : World) (calls : list gostring) (y : system shared_store goroutine) i info :
  Forall (λ m, truthful genuine m.2) schedule -> genuine_rows genuine (wdb w) -> run (step c) schedule (fresh w calls) = Some y ->
  threads y !! i = Some (Returned (inr info)) -> Available info = true ->
  exists call, calls !! i = Some call /\ registrableDomain call = Some (Domain info) /\ genuine (Domain info) (unixMillis (RegisteredAt info)) /\
    (Domain info = [] \/ exists label s, Domain info = label ++ "."%char :: s /\ "."%char ∉ label /\ registry_suffix s /\
       label_suffix (Domain info) (DNSHostname call)).
Proof.
  intros Ht Hw Hr Hi Ha. destruct (run_serves c genuine _ _ _ _ Ht Hw Hr _ _ Hi) as (call & Hcall & d & Hd & Hinfo).
  destruct (Hinfo Ha) as [<- Hg]. exists call. destruct (registrable_total call) as (r & Hr' & Hs). rewrite Hr' in Hd. injection Hd as ->. done.
Qed.

(** a looked-up registration is remembered until it expires (to the
    millisecond), and a failed lookup keeps the next ones of the same domain
    away for a minute after a deadline and for five minutes otherwise. *)
Theorem registration_remembered {UT : UnicodeTables} {PS : PublicSuffix} (c : registration_store) e1 e2 s call1 call2 d :
  idle s -> (0 < slot_capacity c)%nat -> has_lookup c = true -> ctxErr e1 = None -> lookupCtxErr e1 = None ->
  registrableDomain call1 = Some d -> registrableDomain call2 = Some d -> d <> [] ->
  current (stored d s) (Now e1) = None -> suppressed d (Now e1) s = false ->
  match checked_dates (Now e1) (lookupSafely (answer e1 d)) with
  | inr (registeredAt, expiresAt) => exists s', evidence c e1 s call1 = Some (inr (MkRegistrationInfo true d registeredAt), s') /\
      (Now e2 < timeFromMillis (unixMillis expiresAt) ->
       evidence c e2 s' call2 = Some (inr (MkRegistrationInfo true d (timeFromMillis (unixMillis registeredAt))), s'))
  | inl err => exists s', evidence c e1 s call1 = Some (inl (LookupError err), s') /\
      (Now e1 <= Now e2 < Now e1 + retry_after err -> evidence c e2 s' call2 = Some (inr no_registration, s'))
  end.
Proof. intros. by apply (remembered c e1 e2 s call1 call2 d). Qed.

(** ** A store and its calls *)

Module Sample.
#[local] Existing Instances basic_tables last_two_labels.

Lemma last_label_suffix : SuffixLaws.
Proof.
  split. intros d. cbn. pose proof (split_join "." d) as Hj. destruct (rev (split "." d)) as [|a l] eqn:E; [by left|].
  assert (Hs : split "." d = rev l ++ [a]) by (rewrite <- (rev_involutive (split "." d)), E; done). rewrite Hs in Hj. destruct (rev l) as [|b m] eqn:Em.
  - left. done.
  - right. exists (join (lit ".") (b :: m)). rewrite <- Hj. clear. change (lit ".") with ["."%char]. generalize b. clear b. induction m as [|b' m IH]; intros b; [done|].
    change (b ++ ["."%char] ++ join ["."%char] ((b' :: m) ++ [a]) = (b ++ ["."%char] ++ join ["."%char] (b' :: m)) ++ "."%char :: a).
    rewrite IH. by rewrite <- !app_assoc.
Qed.
#[local] Existing Instance last_label_suffix.

Definition store : registration_store := MkRegistrationStore true 8 100 second.
Definition world : World := MkWorld (MkDb [] [] [] [] [] 0 [] [] None [] []) [].
Definition calls : list gostring := [lit "mail.example.org"; lit "www.example.org"].
(** Registered at the second 1000, found at the second [n]. *)
Definition at_second (n : Z) : event :=
  MkEvent (n * second) None None false (λ d, if beq d (lit "example.org") then Answers (1000 * second) (9000000 * second) else Refuses LookupFailed) [].
(** The second call comes while the first one looks the domain up, and waits for it. *)
Definition schedule : list (nat * event) :=
  (λ i, (i, at_second 2000)) <$> [0; 0; 0; 0; 0; 1; 1; 1; 0; 0; 0; 0; 1; 1]%nat.
Definition info : DomainRegistrationInfo := MkRegistrationInfo true (lit "example.org") (1000 * second).

Lemma single_flight_witness : exists y, run (step store) schedule (fresh world calls) = Some y /\ (count_threads holds_slot (threads y) <= 8)%nat.
Proof.
  eexists. split; [vm_compute; reflexivity|].
  refine (proj1 (proj2 (registration_single_flight store schedule world calls _ _))). vm_compute. reflexivity.
Defined.

Lemma calls_return_witness : (length schedule <= 18)%nat.
Proof.
  destruct (run (step store) schedule (fresh world calls)) as [y|] eqn:E; [|vm_compute in E; discriminate].
  refine (proj1 (registration_calls_return store schedule world calls y _ E)). cbn. lia.
Defined.

Lemma genuine_witness : registrableDomain (lit "www.example.org") = Some (lit "example.org").
Proof.
  destruct (run (step store) schedule (fresh world calls)) as [y|] eqn:E; [|vm_compute in E; discriminate].
  assert (Hi : threads y !! 1%nat = Some (Returned (inr info))) by (vm_compute in E; by injection E as <-).
  destruct (registration_evidence_genuine store (λ d ms, d = lit "example.org" /\ ms = 1000000) schedule world calls y 1 info) as (call & Hc & Hd & _).
  - unfold schedule. apply Forall_fmap, Forall_true. intros i d r x. cbn. unfold beq. case_bool_decide as Hd; [|intros H; discriminate H].
    intros H. apply (f_equal (λ a, match a with Answers r _ => r | _ => 0 end)) in H. cbn in H. subst r. split; [exact Hd|vm_compute; reflexivity].
  - apply Forall_nil_2.
  - exact E.
  - exact Hi.
  - reflexivity.
  - injection Hc as <-. exact Hd.
Defined.

Lemma remembered_witness : exists s', evidence store (at_second 3000) s' (lit "www.example.org") = Some (inr info, s').
Proof.
  pose proof (registration_remembered store (at_second 2000) (at_second 3000) (shared (fresh world [])) (lit "mail.example.org") (lit "www.example.org") (lit "example.org")) as Hr.
  destruct Hr as (s' & _ & Hs); [by split_and!|cbn; lia|done|done|done|by vm_compute|by vm_compute|done|by vm_compute|by vm_compute|].
  exists s'. apply Hs. by vm_compute.
Defined.
End Sample.
