(* ===== verification/Rdap.v ===== *)
(** * The RDAP client (internal/rdap/client.go)

    Which registration service answers for a domain, and what its answer says.
    The client fetches a list of services by top-level domain, keeps it for a
    day, and asks the services of the domain in turn; every connection goes
    through [dialContext], which resolves, checks and dials in one operation.

    The HTTP client, the JSON decoder, the resolver, the dialer and
    [url.Parse] are libraries: their answers are arguments.  The shared list
    of services is used by several goroutines at once, so [rdapServices] is a
    step function on goroutines (Interleave). *)
From S2P Require Import Prelude GoText Thinking NetSafety Calendar SqlDb Config Interleave Registration.

Definition failureRetry : Z := hour.
Definition deadlineRetry : Z := minute.
Definition bootstrapRefreshInterval : Z := 24 * hour.

(** ** Addresses *)

(** [URL.Hostname] *)
Definition Hostname (u : URL) : gostring :=
  let host := u_Host u in
  let host := match after_last ":" host with
              | Some port => if forallb is_digit port then take (length host - length port - 1) host else host
              | None => host
              end in
  if hasPrefix host (lit "[") && hasSuffix host (lit "]") then take (length host - 2) (drop 1 host) else host.

Inductive rdap_error :=
  | RdapText (text : gostring)
  | RdapContext (e : ctx_error)
  | RdapHTTP (status : Z)
  | RdapTransport.

Section Addresses.
Context {UT : UnicodeTables} {NT : NetIPText}.

(** [net.ParseIP] accepts what [netip.ParseAddr] does, without a zone. *)
Definition net_ParseIP (s : gostring) : bool := match parse_addr s with Some a => negb (hasZone a) | None => false end.

Definition rdapEndpointHostname (value : gostring) : gostring :=
  let hostname := DNSHostname value in
  if beq hostname [] || negb (contains hostname (lit ".")) || net_ParseIP hostname then [] else hostname.

(** [None] lets the redirect through. *)
Definition validateRedirect (destination : option URL) : option rdap_error :=
  match destination with
  | None => Some (RdapText (lit "unsafe RDAP redirect destination"))
  | Some u =>
      if negb (beq (u_Scheme u) (lit "https")) || u_User u then Some (RdapText (lit "unsafe RDAP redirect destination"))
      else if beq (rdapEndpointHostname (Hostname u)) [] then Some (RdapText (lit "unsafe RDAP redirect hostname"))
      else None
  end.
Definition checkRedirect (destination : option URL) (via : nat) : option rdap_error :=
  if (3 <=? via)%nat then Some (RdapText (lit "too many RDAP redirects")) else validateRedirect destination.

(** [netip.AddrFromSlice] of each address the resolver gives; [None] is one of no valid length. *)
Fixpoint validated_addresses (addresses : list (option Addr)) : option (list Addr) :=
  match addresses with
  | [] => Some []
  | resolved :: rest =>
      match resolved with
      | Some address =>
          if AddressRoutable address then (unmap address ::.) <$> validated_addresses rest else None
      | None => None
      end
  end.

(** [net.JoinHostPort] brackets a host with a colon. *)
Definition JoinHostPort (host port : gostring) : gostring :=
  if containsByte host ":" then lit "[" ++ host ++ lit "]:" ++ port else host ++ lit ":" ++ port.

(** The attempts in turn, with the addresses tried; [dials] says which succeed. *)
Fixpoint dial_each (dials : list bool) (addresses : list Addr) : option Addr * list Addr :=
  match addresses with
  | [] => (None, [])
  | address :: rest =>
      match dials with
      | true :: _ => (Some address, [address])
      | _ => let '(conn, tried) := dial_each (tail dials) rest in (conn, address :: tried)
      end
  end.

(** [resolve] gives addresses and whether it also reports an error.  The result
    is the connected address or an error, and the list is everything dialled. *)
Definition dialContext (resolve : gostring -> list (option Addr) * bool) (dials : list bool) (endpoint : gostring)
    : (rdap_error + Addr) * list Addr :=
  match SplitHostPort endpoint with
  | None => (inl (RdapText (lit "invalid RDAP endpoint")), [])
  | Some (host, port) =>
      let hostname := rdapEndpointHostname host in
      if beq hostname [] then (inl (RdapText (lit "unsafe RDAP endpoint hostname")), [])
      else
        let '(addresses, err) := resolve hostname in
        if bool_decide (addresses = []) then (inl (RdapText (lit "cannot resolve RDAP endpoint hostname")), [])
        else
          match validated_addresses addresses with
          | None => (inl (RdapText (lit "unsafe RDAP endpoint address")), [])
          | Some validated =>
              let '(conn, tried) := dial_each dials validated in
              (match conn with Some address => inr address | None => inl (RdapText (lit "cannot connect to RDAP endpoint")) end, tried)
          end
  end.
End Addresses.

(** ** Services *)

(** A map from top-level domains to base addresses; nothing is ever removed. *)
Abbreviation services_map := (gmap gostring (list gostring)).

(** [getJSON] for a destination of type [A]: the transport fails, or a response
    has a status and a body that decodes or does not. *)
Inductive http_answer (A : Type) := TransportFails (e : rdap_error) | Responds (status : Z) (decoded : option A).
Arguments TransportFails {A} e.
Arguments Responds {A} status decoded.
Definition getJSON {A} (a : http_answer A) : rdap_error + A :=
  match a with
  | TransportFails e => inl e
  | Responds status decoded =>
      if negb (status =? 200) then inl (RdapHTTP status)
      else match decoded with Some x => inr x | None => inl RdapTransport end
  end.

Section Services.
Context {UT : UnicodeTables} {UR : UrlText}.

Definition usable_base (base : gostring) : bool :=
  match urlParse base with
  | Some parsed => beq (u_Scheme parsed) (lit "https") && negb (beq (Hostname parsed) []) && negb (u_User parsed)
  | None => false
  end.
Definition service_tld (tld : gostring) : gostring := trimSuffix (toLower (trimSpace tld)) (lit ".").
Definition add_base (tld : gostring) (services : services_map) (base : gostring) : services_map :=
  if negb (beq tld []) && usable_base base then <[tld := default [] (services !! tld) ++ [base]]> services else services.
Definition add_entry (services : services_map) (entry : list (list gostring)) : services_map :=
  match entry with
  | [tlds; bases] => fold_left (λ services tld, fold_left (add_base (service_tld tld)) bases services) tlds services
  | _ => services
  end.
Definition fetchRDAPServices (a : http_answer (list (list (list gostring)))) : rdap_error + services_map :=
  match getJSON a with
  | inl err => inl err
  | inr bootstrap =>
      let services := fold_left add_entry bootstrap ∅ in
      if bool_decide (services = ∅) then inl (RdapText (lit "RDAP bootstrap contains no usable services")) else inr services
  end.
End Services.

(** *** The shared list *)

Record bootstrap := MkBootstrap {
  services : option services_map; bootstrapLoadedAt : Z; bootstrapInflight : option nat; bootstrapErr : option rdap_error; bootstrapRetryAt : Z;
  b_closed : gset nat; b_channels : nat }.
Record bootstrap_event := MkBootstrapEvent { b_Now : Z; b_ctxErr : option ctx_error; b_other : bool; fetched : rdap_error + services_map }.

(** The result of [rdapServices]: an error, or a map ([None] is a nil one). *)
Definition services_result : Type := option rdap_error * option services_map.
Inductive bootstrap_goroutine :=
  | Looping
  | AwaitingBootstrap (pending : nat)
  | Fetching (pending : nat)
  | Publishing (pending : nat) (result : rdap_error + services_map)
  | Supplied (result : services_result)
  | BootstrapCrashed.

(** The critical section at the head of the loop. *)
Definition consult (now : Z) (b : bootstrap) : bootstrap * bootstrap_goroutine :=
  let waiting := now <? bootstrapRetryAt b in
  if match services b with Some _ => true | None => false end &&
     ((now <? bootstrapLoadedAt b + bootstrapRefreshInterval) || waiting || match bootstrapInflight b with Some _ => true | None => false end)
  then (b, Supplied (None, services b))
  else if waiting then (b, Supplied (bootstrapErr b, None))
  else
    match bootstrapInflight b with
    | Some pending => (b, AwaitingBootstrap pending)
    | None =>
        let pending := b_channels b in
        (MkBootstrap (services b) (bootstrapLoadedAt b) (Some pending) (bootstrapErr b) (bootstrapRetryAt b) (b_closed b) (S pending), Fetching pending)
    end.

(** The critical section after a fetch. *)
Definition absorb (now : Z) (result : rdap_error + services_map) (b : bootstrap) : bootstrap :=
  match result with
  | inr found => MkBootstrap (Some found) now (bootstrapInflight b) None zeroTime (b_closed b) (b_channels b)
  | inl (RdapContext DeadlineExceeded as err) =>
      MkBootstrap (services b) (bootstrapLoadedAt b) (bootstrapInflight b) (Some err) (now + deadlineRetry) (b_closed b) (b_channels b)
  | inl (RdapContext Canceled) => b
  | inl err => MkBootstrap (services b) (bootstrapLoadedAt b) (bootstrapInflight b) (Some err) (now + failureRetry) (b_closed b) (b_channels b)
  end.
Definition publish (now : Z) (pending : nat) (result : rdap_error + services_map) (b : bootstrap) : bootstrap * bootstrap_goroutine :=
  if bool_decide (pending ∈ b_closed b) then (b, BootstrapCrashed)
  else
    let b := absorb now result b in
    let b := MkBootstrap (services b) (bootstrapLoadedAt b) None (bootstrapErr b) (bootstrapRetryAt b) ({[pending]} ∪ b_closed b) (b_channels b) in
    (b, Supplied (match result, services b with
                  | inl _, Some cached => (None, Some cached)
                  | inl err, None => (Some err, None)
                  | inr found, _ => (None, Some found)
                  end)).

Definition rdapServices (e : bootstrap_event) (b : bootstrap) (g : bootstrap_goroutine) : option (bootstrap * bootstrap_goroutine) :=
  match g with
  | Looping => Some (consult (b_Now e) b)
  | AwaitingBootstrap pending =>
      match bool_decide (pending ∈ b_closed b), b_ctxErr e with
      | false, None => None
      | true, None => Some (b, Looping)
      | false, Some err => Some (b, Supplied (Some (RdapContext err), None))
      | true, Some err => Some (b, if b_other e then Supplied (Some (RdapContext err), None) else Looping)
      end
  | Fetching pending => Some (b, Publishing pending (fetched e))
  | Publishing pending result => Some (publish (b_Now e) pending result b)
  | Supplied _ | BootstrapCrashed => None
  end.

(** ** Lookups *)

(** [url.PathEscape] *)
Definition path_plain (c : ascii) : bool :=
  let n := code c in
  ((97 <=? n) && (n <=? 122)) || ((65 <=? n) && (n <=? 90)) || ((48 <=? n) && (n <=? 57)) || existsb (ceq c) (lit "-_.~$&+=:@").
Definition upper_hex (n : Z) : ascii := if n <? 10 then chr (48 + n) else chr (55 + n).
Definition PathEscape (s : gostring) : gostring :=
  concat ((λ c, if path_plain c then [c] else ["%"%char; upper_hex (code c / 16); upper_hex (code c mod 16)]) <$> s).

Section Lookup.
Context {UT : UnicodeTables}.

(** The dates of the events of a response: the last one of each kind counts. *)
Definition event_dates (dates : Z * Z) (ev : gostring * Z) : Z * Z :=
  let action := toLower ev.1 in
  if beq action (lit "registration") then (ev.2, dates.2)
  else if beq action (lit "expiration") then (dates.1, ev.2)
  else dates.
Definition response_dates (events : list (gostring * Z)) : Z * Z := fold_left event_dates events (zeroTime, zeroTime).

Definition rdap_endpoint (base domain : gostring) : gostring := trimRightSet base ["/"%char] ++ lit "/domain/" ++ PathEscape domain.

(** [ask] answers for an endpoint. *)
Fixpoint ask_each (ask : gostring -> http_answer (list (gostring * Z))) (domain : gostring) (bases : list gostring) (lastErr : option rdap_error)
    : option rdap_error + (Z * Z) :=
  match bases with
  | [] => inl lastErr
  | base :: rest =>
      match getJSON (ask (rdap_endpoint base domain)) with
      | inl err => ask_each ask domain rest (Some err)
      | inr events =>
          let '(registeredAt, expiresAt) := response_dates events in
          if registeredAt =? zeroTime then ask_each ask domain rest (Some (RdapText (lit "RDAP response lacks registration event")))
          else inr (registeredAt, expiresAt)
      end
  end.

Definition tld_of (domain : gostring) : gostring := match after_last "." domain with Some rest => rest | None => domain end.

(** [supply] is the result of [rdapServices]. *)
Definition Lookup (supply : services_result) (ask : gostring -> http_answer (list (gostring * Z))) (domain : gostring) : option rdap_error + (Z * Z) :=
  let domain := DNSHostname domain in
  if beq domain [] then inl (Some (RdapText (lit "invalid RDAP domain")))
  else
    match supply with
    | (Some err, _) => inl (Some err)
    | (None, found) =>
        match default [] (default ∅ found !! tld_of domain) with
        | [] => inl (Some (RdapText (lit "no RDAP service for ." ++ tld_of domain)))
        | bases => ask_each ask domain bases None
        end
    end.
End Lookup.
