(* ===== verification/RdapProps.v ===== *)
(** * Properties of the RDAP client

    Connections go to public addresses only, the list of services has exactly
    the usable bases, a list once loaded is never lost, and a lookup gives the
    first usable answer. *)
From S2P Require Import Prelude GoText Thinking NetSafety Calendar SqlDb Config Interleave Registration Rdap.

(** ** Addresses *)

Section AddressFacts.
Context {UT : UnicodeTables} {NT : NetIPText}.

Lemma unmap_unmap a : unmap (unmap a) = unmap a.
Proof. unfold unmap, is4In6. repeat case_match; simplify_eq; try done; congruence. Qed.
Lemma routable_unmap a : AddressRoutable a = true -> AddressRoutable (unmap a) = true.
Proof.
  unfold AddressRoutable. rewrite unmap_unmap. destruct (isValid a) eqn:E; [|done]. cbn [negb].
  assert (isValid (unmap a) = true) as ->; [|done]. unfold unmap. by repeat case_match.
Qed.

Lemma validated_routable addresses validated : validated_addresses addresses = Some validated ->
  Forall (λ a, AddressRoutable a = true) validated /\ Forall (λ r, exists a, r = Some a /\ AddressRoutable a = true) addresses.
Proof.
  revert validated. induction addresses as [|[a|] rest IH]; intros validated; cbn [validated_addresses]; [by intros [= <-]| |done].
  destruct (AddressRoutable a) eqn:E; [|done]. destruct (validated_addresses rest) as [v|]; [|done]. intros [= <-]. destruct (IH v eq_refl) as [H1 H2].
  split; constructor; try done; [by apply routable_unmap|by exists a].
Qed.

Lemma dial_each_tried dials addresses : forall conn tried, dial_each dials addresses = (conn, tried) ->
  (exists rest, addresses = tried ++ rest) /\ (forall a, conn = Some a -> a ∈ tried) /\ (conn = None -> tried = addresses).
Proof.
  revert dials. induction addresses as [|a addresses IH]; intros dials conn tried; cbn [dial_each].
  { intros [= <- <-]. split_and!; [by exists []|done..]. }
  assert (Hgo : (let '(conn, tried) := dial_each (tail dials) addresses in (conn, a :: tried)) = (conn, tried) ->
    (exists rest, a :: addresses = tried ++ rest) /\ (forall x, conn = Some x -> x ∈ tried) /\ (conn = None -> tried = a :: addresses)).
  { destruct (dial_each (tail dials) addresses) as [conn' tried'] eqn:E. intros [= <- <-]. destruct (IH _ _ _ E) as ([rest ->] & H2 & H3).
    split_and!; [by exists rest|intros x Hx; right; by apply H2|intros Hc; by rewrite <- H3]. }
  destruct dials as [|[] dials]; [exact Hgo| |exact Hgo]. intros [= <- <-]. split_and!; [by exists addresses| |done]. intros x [= <-]. left.
Qed.

(** What is dialled. *)
Lemma dialled resolve dials endpoint result tried : dialContext resolve dials endpoint = (result, tried) -> tried <> [] ->
  exists host port, SplitHostPort endpoint = Some (host, port) /\ rdapEndpointHostname host <> [] /\
    Forall (λ r, exists a, r = Some a /\ AddressRoutable a = true) (resolve (rdapEndpointHostname host)).1 /\
    Forall (λ a, AddressRoutable a = true) tried /\ (forall a, result = inr a -> a ∈ tried).
Proof.
  unfold dialContext. destruct (SplitHostPort endpoint) as [[host port]|]; [|by intros [= _ <-]].
  destruct (beq (rdapEndpointHostname host) []) eqn:Eh; [by intros [= _ <-]|]. destruct (resolve (rdapEndpointHostname host)) as [addresses err] eqn:Er.
  case_bool_decide; [by intros [= _ <-]|]. destruct (validated_addresses addresses) as [v|] eqn:Ev; [|by intros [= _ <-]].
  destruct (dial_each dials v) as [conn tried'] eqn:Ed. intros [= <- <-] _. exists host, port. destruct (dial_each_tried _ _ _ _ Ed) as ([rest Hrest] & H2 & _).
  destruct (validated_routable _ _ Ev) as [H3 H4]. split_and!; [done|by apply beq_nil_false|by rewrite Er| |].
  - rewrite Hrest in H3. by apply Forall_app in H3 as [? _].
  - destruct conn as [a|]; [|done]. intros b [= <-]. by apply H2.
Qed.
End AddressFacts.

(** ** Services *)

Section ServiceFacts.
Context {UT : UnicodeTables} {UR : UrlText}.

(** The bases that the entries of a bootstrap list give a top-level domain, in order. *)
Definition listed (tld : gostring) (entry : list (list gostring)) : list gostring :=
  match entry with
  | [tlds; bases] => concat ((λ t, if beq (service_tld t) tld && negb (beq tld []) then List.filter usable_base bases else []) <$> tlds)
  | _ => []
  end.
Definition bases_of (services : services_map) (tld : gostring) : list gostring := default [] (services !! tld).

Lemma add_bases tld t bases : forall services, bases_of (fold_left (add_base t) bases services) tld =
  bases_of services tld ++ (if beq t tld && negb (beq tld []) then List.filter usable_base bases else []).
Proof.
  induction bases as [|base bases IH]; intros services; cbn [fold_left]; [cbn; by case_match; rewrite app_nil_r|].
  rewrite IH. unfold add_base, bases_of. destruct (beq t tld) eqn:E.
  - apply beq_true in E as ->. cbn [andb List.filter]. destruct (beq tld []); cbn [negb andb]; [done|].
    destruct (usable_base base); [|done]. rewrite lookup_insert_eq. cbn [default from_option id]. unfold id. by rewrite <- app_assoc.
  - cbn [andb]. destruct (negb (beq t []) && usable_base base); [|by rewrite !app_nil_r]. rewrite lookup_insert_ne; [done|]. intros ->. by rewrite (proj2 (beq_true tld tld) eq_refl) in E.
Qed.

Lemma add_entries tld entries : forall services,
  bases_of (fold_left add_entry entries services) tld = bases_of services tld ++ concat (listed tld <$> entries).
Proof.
  induction entries as [|entry entries IH]; intros services; cbn [fold_left fmap list_fmap concat]; [by rewrite app_nil_r|].
  rewrite IH, app_assoc. f_equal. unfold add_entry, listed. destruct entry as [|tlds [|bases [|]]]; try by rewrite app_nil_r.
  clear. revert services. induction tlds as [|t tlds IH]; intros services; cbn [fold_left fmap list_fmap concat]; [by rewrite app_nil_r|].
  rewrite IH, add_bases. by rewrite app_assoc.
Qed.

(** Entries are never empty lists. *)
Definition inhabited (services : services_map) : Prop := forall tld bases, services !! tld = Some bases -> bases <> [].
Lemma inhabited_base t services base : inhabited services -> inhabited (add_base t services base).
Proof.
  intros Hs. unfold add_base. destruct (_ && _); [|done]. intros tld bases [[<- <-]|[_ ?]]%lookup_insert_Some; [by destruct (default _ _)|by eapply Hs].
Qed.
Lemma fold_inhabited {A} (f : services_map -> A -> services_map) (l : list A) services :
  (forall services x, inhabited services -> inhabited (f services x)) -> inhabited services -> inhabited (fold_left f l services).
Proof. intros Hf. revert services. induction l as [|x l IH]; intros services Hs; cbn; [done|]. by apply IH, Hf. Qed.
Lemma entries_inhabited entries : inhabited (fold_left add_entry entries ∅).
Proof.
  apply fold_inhabited; [|by intros t b ?%lookup_empty_Some]. intros services entry Hs. unfold add_entry. destruct entry as [|tlds [|bases [|]]]; try done.
  apply fold_inhabited; [|done]. intros m t Hm. apply fold_inhabited; [|done]. intros m' b Hm'. by apply inhabited_base.
Qed.

Lemma fetch_exact a found : fetchRDAPServices a = inr found ->
  exists entries, getJSON a = inr entries /\ forall tld, bases_of found tld = concat (listed tld <$> entries).
Proof.
  unfold fetchRDAPServices. destruct (getJSON a) as [|entries]; [done|]. case_bool_decide; [done|]. intros [= <-]. exists entries.
  split; [done|]. intros tld. rewrite add_entries. unfold bases_of. by rewrite lookup_empty.
Qed.

Lemma fetch_empty a entries : getJSON a = inr entries ->
  (exists e, fetchRDAPServices a = inl e) <-> forall tld, concat (listed tld <$> entries) = [].
Proof.
  intros Ha. unfold fetchRDAPServices. rewrite Ha. assert (Hl : forall tld, bases_of (fold_left add_entry entries ∅) tld = concat (listed tld <$> entries)).
  { intros tld. rewrite add_entries. unfold bases_of. by rewrite lookup_empty. }
  case_bool_decide as E; split.
  - intros _ tld. by rewrite <- Hl, E.
  - intros _. eauto.
  - by intros [e He].
  - intros Hz. destruct E. apply map_empty. intros tld. destruct (_ !! tld) as [bases|] eqn:Eb; [|done].
    pose proof (entries_inhabited entries tld bases Eb) as Hne. specialize (Hl tld). unfold bases_of in Hl. rewrite Eb, Hz in Hl. done.
Qed.

(** Every listed base can be used. *)
Lemma listed_usable tld entry base : base ∈ listed tld entry -> usable_base base = true /\ tld <> [].
Proof.
  unfold listed. destruct entry as [|tlds [|bases [|]]]; try (by intros ?%elem_of_nil). intros (l & Hl & Hb)%list_elem_of_In%in_concat.
  apply list_elem_of_In, list_elem_of_fmap in Hl as (t & -> & _). destruct (beq (service_tld t) tld && negb (beq tld [])) eqn:E; [|done].
  apply filter_In in Hb as [_ Hb]. split; [done|]. apply andb_true_iff in E as [_ E]. intros ->. done.
Qed.
End ServiceFacts.

(** ** The shared list *)

Definition fetches (g : bootstrap_goroutine) : option (unit * nat) :=
  match g with Fetching p | Publishing p _ => Some (tt, p) | _ => None end.
Definition awaits (g : bootstrap_goroutine) : option (unit * nat) := match g with AwaitingBootstrap p => Some (tt, p) | _ => None end.
Definition broken (g : bootstrap_goroutine) : bool := match g with BootstrapCrashed => true | _ => false end.
Definition supplied (g : bootstrap_goroutine) : bool := match g with Supplied _ => true | _ => false end.
Definition bootstrap_table (b : bootstrap) : table unit :=
  MkTable (match bootstrapInflight b with Some p => {[tt := p]} | None => ∅ end) (b_closed b) (b_channels b).
Abbreviation fetching := (flight fetches awaits broken).

Lemma table_inflight b p : claims (bootstrap_table b) !! tt = Some p <-> bootstrapInflight b = Some p.
Proof. unfold bootstrap_table. cbn. destruct (bootstrapInflight b); [rewrite lookup_singleton_eq|]; naive_solver. Qed.

Lemma services_step_effect e b g b' g' : rdapServices e b g = Some (b', g') ->
  (forall d p, fetches g = Some (d, p) -> claims (bootstrap_table b) !! d = Some p /\ p ∉ closed_ones (bootstrap_table b)) ->
  claim_effect fetches awaits broken (bootstrap_table b) (bootstrap_table b') g g'.
Proof.
  intros Hs Ho. destruct g as [|p|p|p r|r|]; cbn [rdapServices] in Hs; try done.
  - injection Hs as Hs. unfold consult in Hs. destruct (_ && _); [injection Hs as <- <-; by apply Keeps|].
    destruct (_ <? _); [injection Hs as <- <-; by apply Keeps|]. destruct (bootstrapInflight b) as [p|] eqn:E; injection Hs as <- <-.
    + apply Keeps; try done. intros [] q [= <-]. by apply table_inflight.
    + apply (Claims _ _ _ _ _ _ _ tt); try done; unfold bootstrap_table; cbn; by rewrite E.
  - destruct (bool_decide _), (b_ctxErr e); try done; try (destruct (b_other e)); injection Hs as <- <-; by apply Keeps.
  - injection Hs as <- <-. by apply Keeps.
  - injection Hs as Hs. destruct (Ho tt p eq_refl) as [Hp Hc]. unfold publish in Hs. rewrite bool_decide_false in Hs by done. injection Hs as <- <-.
    apply table_inflight in Hp. apply (Frees _ _ _ _ _ _ _ tt p); try done; unfold bootstrap_table; cbn.
    + by rewrite Hp, delete_singleton_eq.
    + destruct r as [[| [] | |]|]; done.
    + destruct r as [[| [] | |]|]; done.
Qed.

Lemma fetching_step i e y y' : fetching (bootstrap_table (shared y)) (threads y) -> advance rdapServices i e y = Some y' ->
  fetching (bootstrap_table (shared y')) (threads y').
Proof.
  intros Hf (g & s & g' & Hg & Hs & ->)%advance_inv. apply (flight_effect _ _ _ (bootstrap_table (shared y)) _ _ i g g' Hf Hg).
  apply (services_step_effect e _ _ _ _ Hs). intros d p Hp. exact (flight_owned _ _ _ _ _ i g d p Hf Hg Hp).
Qed.

(** A client that has just been made, with [n] calls. *)
Definition new_client (n : nat) : system bootstrap bootstrap_goroutine :=
  MkSystem (MkBootstrap None zeroTime None None zeroTime ∅ 0) (replicate n Looping).
Lemma new_client_fetching n : fetching (bootstrap_table (shared (new_client n))) (threads (new_client n)).
Proof. apply flight_start. intros g (-> & _)%elem_of_replicate. done. Qed.

(** A list that was loaded stays, and whoever asks from then on gets one. *)
Definition has_services (b : bootstrap) : bool := match services b with Some _ => true | None => false end.
Definition in_supply (g : bootstrap_goroutine) : Prop :=
  match g with Looping | Fetching _ | Publishing _ _ => True | Supplied (err, found) => err = None /\ is_Some found | AwaitingBootstrap _ | BootstrapCrashed => False end.

Lemma services_kept e b g b' g' : rdapServices e b g = Some (b', g') -> has_services b = true -> has_services b' = true.
Proof.
  intros Hs Hb. destruct g as [|p|p|p r|r|]; cbn [rdapServices] in Hs; try done.
  - injection Hs as Hs. unfold consult in Hs. destruct (_ && _); [by injection Hs as <- <-|].
    destruct (_ <? _); [by injection Hs as <- <-|]. by destruct (bootstrapInflight b); injection Hs as <- <-.
  - by destruct (bool_decide _), (b_ctxErr e); try done; try (destruct (b_other e)); injection Hs as <- <-.
  - by injection Hs as <- <-.
  - injection Hs as Hs. unfold publish in Hs. destruct (bool_decide _); injection Hs as <- <-; [done|]. by destruct r as [[| [] | |]|].
Qed.

Lemma supply_step e b g b' g' : rdapServices e b g = Some (b', g') -> has_services b = true -> broken g' = false -> in_supply g -> in_supply g'.
Proof.
  intros Hs Hb Hk Hg. destruct g as [|p|p|p r|r|]; cbn [rdapServices] in Hs; try done.
  - injection Hs as Hs. unfold consult in Hs. unfold has_services in Hb. destruct (services b) as [m|] eqn:Em; [|done]. cbn [andb] in Hs.
    destruct (bootstrapInflight b) as [p|].
    + rewrite orb_true_r in Hs. injection Hs as <- <-. by split.
    + rewrite orb_false_r in Hs. destruct (_ || _) eqn:E; [injection Hs as <- <-; by split|]. apply orb_false_iff in E as [_ E]. rewrite E in Hs. by injection Hs as <- <-.
  - by injection Hs as <- <-.
  - injection Hs as Hs. unfold publish in Hs. destruct (bool_decide _); injection Hs as <- <-; [done|]. unfold has_services in Hb.
    destruct r as [[| [] | |]|]; cbn; destruct (services b); done.
Qed.

(** A fetch starts only when the list is older than a day, or missing, and no
    failure keeps it away. *)
Lemma fetch_due e b b' p : rdapServices e b Looping = Some (b', Fetching p) ->
  bootstrapRetryAt b <= b_Now e /\ bootstrapInflight b = None /\ (has_services b = true -> bootstrapLoadedAt b + bootstrapRefreshInterval <= b_Now e).
Proof.
  intros Hs. cbn [rdapServices] in Hs. injection Hs as Hs. unfold consult in Hs. fold (has_services b) in Hs.
  destruct (bootstrapInflight b); [destruct (_ && _); [done|]; by destruct (_ <? _)|]. rewrite orb_false_r in Hs.
  destruct (Z.ltb_spec (b_Now e) (bootstrapRetryAt b)); [by destruct (_ && _)|]. split_and!; [done..|]. intros Hb. rewrite Hb, orb_false_r in Hs. cbn [andb] in Hs.
  destruct (Z.ltb_spec (b_Now e) (bootstrapLoadedAt b + bootstrapRefreshInterval)); [done|lia].
Qed.

(** ** Termination

    A goroutine makes one channel at most, and a channel lets every goroutine
    that waits for it go round the loop once. *)

(** The goroutines that have not made a channel yet. *)
Definition unclaimed (g : bootstrap_goroutine) : bool := match g with Looping | AwaitingBootstrap _ => true | _ => false end.
Definition channels_fit (n : nat) (y : system bootstrap bootstrap_goroutine) : Prop :=
  (b_channels (shared y) + count_threads unclaimed (threads y) <= n /\ length (threads y) = n)%nat.
(** What a goroutine can still do, [n] goroutines being there. *)
Definition effort (n : nat) (closed : gset nat) (g : bootstrap_goroutine) : nat :=
  match g with
  | Looping => 2
  | AwaitingBootstrap p => if bool_decide (p ∈ closed) then 3 else 1
  | Fetching _ => 2 * n + 2
  | Publishing _ _ => 2 * n + 1
  | Supplied _ | BootstrapCrashed => 0
  end.
Definition potential (n : nat) (y : system bootstrap bootstrap_goroutine) : nat :=
  ((n - b_channels (shared y)) * (2 * n + 1) + total (effort n (b_closed (shared y))) (threads y))%nat.

Lemma unclaimed_step e b g b' g' : rdapServices e b g = Some (b', g') -> (b_channels b' + of_bool (unclaimed g') <= b_channels b + of_bool (unclaimed g))%nat.
Proof.
  intros Hs. destruct g as [|p|p|p r|r|]; cbn [rdapServices] in Hs; try done.
  - injection Hs as Hs. unfold consult in Hs. destruct (_ && _); [injection Hs as <- <-; cbn; lia|].
    destruct (_ <? _); [injection Hs as <- <-; cbn; lia|]. destruct (bootstrapInflight b); injection Hs as <- <-; cbn; lia.
  - destruct (bool_decide _), (b_ctxErr e); try done; try (destruct (b_other e)); injection Hs as <- <-; cbn; lia.
  - injection Hs as <- <-. cbn; lia.
  - injection Hs as Hs. unfold publish in Hs. destruct (bool_decide _); injection Hs as <- <-; [cbn; lia|]. destruct r as [[| [] | |]|]; cbn; lia.
Qed.
Lemma channels_fit_step n i e y y' : channels_fit n y -> advance rdapServices i e y = Some y' -> channels_fit n y'.
Proof.
  intros [H1 H2] (g & s & g' & Hg & Hs & ->)%advance_inv. apply unclaimed_step in Hs. pose proof (count_insert unclaimed _ i g g' Hg).
  split; cbn [shared threads]; [lia|]. by rewrite length_insert.
Qed.

(** The effort of one step, when it is not a fetch that ends. *)
Lemma effort_step n e b g b' g' : rdapServices e b g = Some (b', g') -> (forall p, bootstrapInflight b = Some p -> p ∉ b_closed b) ->
  (b_closed b' = b_closed b /\ b_channels b' = b_channels b /\ effort n (b_closed b) g' < effort n (b_closed b) g)%nat \/
  (b_closed b' = b_closed b /\ b_channels b' = S (b_channels b) /\ effort n (b_closed b) g' < effort n (b_closed b) g + (2 * n + 1))%nat \/
  (b_channels b' = b_channels b /\ effort n (b_closed b') g = effort n (b_closed b) g /\ effort n (b_closed b') g' + 2 * n < effort n (b_closed b) g)%nat.
Proof.
  intros Hs Hf. destruct g as [|p|p|p r|r|]; cbn [rdapServices] in Hs; try done.
  - injection Hs as Hs. unfold consult in Hs. destruct (_ && _); [injection Hs as <- <-; left; split_and!; [done..|cbn; lia]|].
    destruct (_ <? _); [injection Hs as <- <-; left; split_and!; [done..|cbn; lia]|]. destruct (bootstrapInflight b) as [p|] eqn:E; injection Hs as <- <-; [left|right; left; split_and!; [done..|cbn; lia]].
    split_and!; [done..|]. cbn [effort]. rewrite bool_decide_false by (by apply Hf). lia.
  - destruct (bool_decide (p ∈ b_closed b)) eqn:E, (b_ctxErr e); try done; try (destruct (b_other e)); injection Hs as <- <-; left; (split_and!; [done..|cbn [effort]; rewrite ?E; lia]).
  - injection Hs as <- <-. left. split_and!; [done..|cbn; lia].
  - injection Hs as Hs. unfold publish in Hs. destruct (bool_decide _); injection Hs as <- <-; [left; split_and!; [done..|cbn; lia]|]. right. right.
    destruct r as [[| [] | |]|]; cbn; lia.
Qed.

Record fetching_well (n : nat) (y : system bootstrap bootstrap_goroutine) : Prop := {
  fw_flight : fetching (bootstrap_table (shared y)) (threads y);
  fw_channels : channels_fit n y }.

Lemma potential_step n i e y y' : fetching_well n y -> advance rdapServices i e y = Some y' -> fetching_well n y' /\ (potential n y' < potential n y)%nat.
Proof.
  intros [Hf Hn] Ha. pose proof (fetching_step _ _ _ _ Hf Ha) as Hf'. pose proof (channels_fit_step _ _ _ _ _ Hn Ha) as Hn'. split; [done|].
  apply advance_inv in Ha as (g & b & g' & Hg & Hs & ->). destruct Hn as [_ Hlen], Hn' as [Hn' _]. unfold potential. cbn [shared threads] in *.
  pose proof (total_insert (effort n (b_closed (shared y))) (threads y) i g g' Hg) as Ht.
  destruct (effort_step n e _ g _ g' Hs) as [(E1 & E2 & Hlt)|[(E1 & E2 & Hlt)|(E2 & E3 & Hlt)]].
  - intros p Hp. apply (fl_open _ _ _ _ _ Hf tt p). by apply table_inflight.
  - rewrite E1, E2. lia.
  - rewrite E1, E2 in *. nia.
  - rewrite E2 in *. clear Ht. pose proof (total_insert (effort n (b_closed b)) (threads y) i g g' Hg) as Ht.
    pose proof (total_le (effort n (b_closed (shared y))) (effort n (b_closed b)) 2 (threads y)) as Hm.
    unfold total in *. rewrite Hlen in Hm. cut (sum_list_with (effort n (b_closed b)) (threads y) <= sum_list_with (effort n (b_closed (shared y))) (threads y) + 2 * n)%nat; [lia|].
    apply Hm. intros []; cbn [effort]; try lia. destruct (bool_decide _), (bool_decide _); lia.
Qed.

(** ** Lookups *)

Section LookupFacts.
Context {UT : UnicodeTables}.

Definition dates_of_answer (a : http_answer (list (gostring * Z))) : option (Z * Z) :=
  match getJSON a with
  | inr events => let dates := response_dates events in if dates.1 =? zeroTime then None else Some dates
  | inl _ => None
  end.

(** The last event of a kind. *)
Definition last_event (kind : gostring) (events : list (gostring * Z)) : Z :=
  match rev (List.filter (λ ev : gostring * Z, beq (toLower ev.1) kind) events) with ev :: _ => ev.2 | [] => zeroTime end.

Lemma last_event_snoc kind events ev : last_event kind (events ++ [ev]) = if beq (toLower ev.1) kind then ev.2 else last_event kind events.
Proof.
  unfold last_event. rewrite List.filter_app. cbn [List.filter]. destruct (beq (toLower ev.1) kind); [|by rewrite app_nil_r]. by rewrite rev_app_distr.
Qed.

Lemma response_dates_last events : response_dates events = (last_event (lit "registration") events, last_event (lit "expiration") events).
Proof.
  unfold response_dates. induction events as [|ev events IH] using rev_ind; [done|]. rewrite fold_left_app, IH. cbn [fold_left].
  rewrite !last_event_snoc. unfold event_dates. cbn [fst snd]. destruct (beq (toLower ev.1) (lit "registration")) eqn:E1.
  - apply beq_true in E1. rewrite E1. done.
  - by destruct (beq (toLower ev.1) (lit "expiration")).
Qed.

Lemma ask_each_first ask domain bases : forall lastErr, (lastErr <> None \/ bases <> []) ->
  match head (omap (λ base, dates_of_answer (ask (rdap_endpoint base domain))) bases) with
  | Some dates => ask_each ask domain bases lastErr = inr dates
  | None => exists e, ask_each ask domain bases lastErr = inl (Some e)
  end.
Proof.
  induction bases as [|base bases IH]; intros lastErr Hor; cbn [omap list_omap ask_each].
  - destruct lastErr as [e|]; [by exists e|naive_solver].
  - unfold dates_of_answer at 1. destruct (getJSON (ask (rdap_endpoint base domain))) as [err|events]; [apply IH; by left|].
    destruct (response_dates events) as [r x]. cbn [fst]. destruct (r =? zeroTime); [apply IH; by left|done].
Qed.
End LookupFacts.

(** ** Theorems on the RDAP client

    The claims of the component. *)

(** ** Progress of the shared list *)

Lemma fetching_progress e y : fetching (bootstrap_table (shared y)) (threads y) -> b_ctxErr e = None ->
  existsb (λ g, negb (supplied g)) (threads y) = true -> exists i, is_Some (advance rdapServices i e y).
Proof.
  intros Hf He (g & Hg & Hn)%existsb_exists. apply list_elem_of_In, list_elem_of_lookup in Hg as [i Hi].
  assert (Hmove : forall i g, threads y !! i = Some g -> is_Some (rdapServices e (shared y) g) -> exists i, is_Some (advance rdapServices i e y)).
  { intros j h Hj [[s h'] Hs]. exists j. unfold advance. by rewrite Hj, Hs. }
  destruct g as [|p|p|p r|r|]; try done; try (by apply (Hmove i _ Hi)).
  - destruct (decide (p ∈ b_closed (shared y))) as [Hc|Hc]; [apply (Hmove i _ Hi); cbn; by rewrite bool_decide_true, He by done|].
    destruct (fl_waits _ _ _ _ _ Hf _ _ tt p Hi eq_refl) as [?|Hp]; [done|]. destruct (fl_live _ _ _ _ _ Hf _ _ Hp) as (j & h & Hj & Ho).
    apply (Hmove j h Hj). by destruct h.
  - by pose proof (fl_sound _ _ _ _ _ Hf i _ Hi).
Qed.

Lemma new_client_well n : fetching_well n (new_client n).
Proof.
  split; [apply new_client_fetching|]. split; cbn [new_client shared threads b_channels]; [|apply length_replicate].
  unfold count_threads. etransitivity; [apply List.filter_length_le|]. by rewrite length_replicate.
Qed.

(** From the moment the list is there, it stays, and nobody who asks is sent away without one. *)
Lemma supply_run schedule y y' : fetching (bootstrap_table (shared y)) (threads y) -> has_services (shared y) = true -> run rdapServices schedule y = Some y' ->
  has_services (shared y') = true /\ forall i g g', threads y !! i = Some g -> in_supply g -> threads y' !! i = Some g' -> in_supply g'.
Proof.
  revert y. induction schedule as [|[i e] schedule IH]; intros y Hf Hs; cbn [run]; [intros [= <-]; split; [done|]; congruence|].
  destruct (advance rdapServices i e y) as [z|] eqn:E; [|done]. intros Hr. pose proof (fetching_step _ _ _ _ Hf E) as Hf'.
  apply advance_inv in E as (g & b & g' & Hg & Hst & ->). cbn [shared threads] in *. pose proof (services_kept _ _ _ _ _ Hst Hs) as Hs'.
  destruct (IH (MkSystem b (<[i := g']> (threads y))) Hf' Hs' Hr) as [H1 H2]. split; [done|]. intros j h h' Hj Hin Hj'. destruct (decide (j = i)) as [-> | Hne].
  - rewrite Hg in Hj. injection Hj as <-. eapply H2; [by apply (list_insert_same _ _ g)| |exact Hj'].
    apply (supply_step e (shared y) g b g'); try done. apply (fl_sound _ _ _ _ _ Hf' i). by apply (list_insert_same _ _ g).
  - eapply H2; [by apply list_insert_other|done|exact Hj'].
Qed.

(** ** The claims *)

(** C30: the client connects to public addresses only. Whatever the resolver
    answers, an address is dialled only if the endpoint names a DNS host name
    with a dot that is no address itself, every address of that name is
    globally routable, and the dialled one is among them; and a redirect is
    followed only to such a name over https without credentials. *)
Theorem rdap_connections_public {UT : UnicodeTables} {NT : NetIPText} (resolve : gostring -> list (option Addr) * bool) (dials : list bool)
    (endpoint : gostring) (destination : option URL) (via : nat) :
  let '(result, tried) := dialContext resolve dials endpoint in
  (forall a, a ∈ tried -> AddressRoutable a = true /\ exists host port, SplitHostPort endpoint = Some (host, port) /\
     let name := rdapEndpointHostname host in
     dns_name false name /\ contains name (lit ".") = true /\ net_ParseIP name = false /\
     Forall (λ r, exists a, r = Some a /\ AddressRoutable a = true) (resolve name).1) /\
  (forall a, result = inr a -> a ∈ tried) /\
  (checkRedirect destination via = None -> exists u, destination = Some u /\ (via < 3)%nat /\ u_Scheme u = lit "https" /\ u_User u = false /\
     dns_name false (rdapEndpointHostname (Hostname u))).
Proof.
  assert (Hname : forall host, rdapEndpointHostname host <> [] -> dns_name false (rdapEndpointHostname host) /\
    contains (rdapEndpointHostname host) (lit ".") = true /\ net_ParseIP (rdapEndpointHostname host) = false).
  { intros host. unfold rdapEndpointHostname. destruct (_ || _) eqn:E; [done|]. apply orb_false_iff in E as [[E1 E2]%orb_false_iff E3]. intros _.
    split_and!; [|by apply negb_false_iff|done]. destruct (NormalizeDNSName_cases host false) as [Hz|?]; [|done]. apply beq_nil_false in E1. by destruct E1. }
  destruct (dialContext resolve dials endpoint) as [result tried] eqn:E. split_and!.
  - intros a Ha. destruct (dialled resolve dials endpoint result tried E) as (host & port & Hsp & Hne & Hall & Hr & _); [intros ->; by apply elem_of_nil in Ha|].
    rewrite Forall_forall in Hr. split; [by apply Hr|]. exists host, port. split; [done|]. destruct (Hname host Hne) as (? & ? & ?). done.
  - intros a ->. destruct tried as [|x tried]; [exfalso|].
    + unfold dialContext in E. destruct (SplitHostPort endpoint) as [[host port]|]; [|done]. destruct (beq _ _); [done|]. destruct (resolve _) as [addresses err].
      destruct (bool_decide _); [done|]. destruct (validated_addresses addresses) as [v|]; [|done]. destruct (dial_each dials v) as [conn t] eqn:Ed.
      injection E as Hc Ht. destruct conn as [x|]; [|done]. destruct (dial_each_tried _ _ _ _ Ed) as (_ & H2 & _). subst t. by apply (elem_of_nil x), H2.
    + destruct (dialled resolve dials endpoint (inr a) (x :: tried) E) as (_ & _ & _ & _ & _ & _ & H); [done|]. by apply H.
  - unfold checkRedirect, validateRedirect. destruct (3 <=? via)%nat eqn:Ev; [done|]. destruct destination as [u|]; [|done].
    destruct (negb _ || u_User u) eqn:Eu; [done|]. destruct (beq (rdapEndpointHostname (Hostname u)) []) eqn:Eh; [done|]. intros _. exists u.
    apply orb_false_iff in Eu as [Es Eu]. apply negb_false_iff, beq_true in Es. apply Nat.leb_gt in Ev. split_and!; try done.
    by apply Hname, beq_nil_false.
Qed.

(** the shared list of services, for any number of concurrent calls: one
    fetch at a time, every schedule is finite, some call can go on until all
    are supplied, and once a list has been loaded it is never lost: every call
    that asks from then on gets a list, also while a refresh fails. *)
Theorem rdap_bootstrap_kept (n : nat) (schedule later : list (nat * bootstrap_event)) (y : system bootstrap bootstrap_goroutine) :
  run rdapServices schedule (new_client n) = Some y ->
  (forall i j g h p q, threads y !! i = Some g -> threads y !! j = Some h -> fetches g = Some p -> fetches h = Some q -> i = j) /\
  (length schedule <= n * (2 * n + 1) + 2 * n)%nat /\
  (forallb supplied (threads y) = true \/ forall e, b_ctxErr e = None -> exists i, is_Some (advance rdapServices i e y)) /\
  (has_services (shared y) = true -> forall y', run rdapServices later y = Some y' ->
     has_services (shared y') = true /\
     forall i err found, threads y !! i = Some Looping -> threads y' !! i = Some (Supplied (err, found)) -> err = None /\ is_Some found).
Proof.
  intros Hr. destruct (run_measure rdapServices (fetching_well n) (potential n) (potential_step n) _ _ _ (new_client_well n) Hr) as [[Hf _] Hp].
  split_and!.
  - intros i j g h [[] p] [[] q] Hg Hh Ho Hq. by eapply (fl_unique _ _ _ _ _ Hf).
  - etransitivity; [|etransitivity; [exact Hp|]]; [lia|]. unfold potential. cbn [new_client shared threads b_channels b_closed].
    assert (total (effort n ∅) (replicate n Looping) = 2 * n)%nat as ->; [|lia].
    generalize n at 1. intros m. unfold total. clear. induction n as [|n IH]; [done|]. cbn [replicate sum_list_with effort]. lia.
  - destruct (forallb supplied (threads y)) eqn:E; [by left|right]. intros e He. apply (fetching_progress e y Hf He).
    clear -E. induction (threads y) as [|g ls IH]; [done|]. cbn in *. destruct (supplied g); [by apply IH|done].
  - intros Hs y' Hr'. destruct (supply_run later y y' Hf Hs Hr') as [H1 H2]. split; [done|]. intros i err found Hi Hi'. exact (H2 i _ _ Hi I Hi').
Qed.

(** a lookup reports the dates of the first service, in the order of the
    bootstrap list, that answers for the top-level domain with a registration
    date (the last event of each kind counts), and an error only if none does;
    the services asked are exactly the https bases without credentials that
    the list gives that top-level domain. *)
Theorem rdap_lookup_first_answer {UT : UnicodeTables} {UR : UrlText} (a : http_answer (list (list (list gostring)))) (found : services_map)
    (ask : gostring -> http_answer (list (gostring * Z))) (domain : gostring) :
  fetchRDAPServices a = inr found -> DNSHostname domain <> [] ->
  exists entries, getJSON a = inr entries /\
  let d := DNSHostname domain in
  let bases := concat (listed (tld_of d) <$> entries) in
  Forall (λ base, usable_base base = true) bases /\
  match head (omap (λ base, dates_of_answer (ask (rdap_endpoint base d))) bases) with
  | Some dates => Lookup (None, Some found) ask domain = inr dates /\ dates.1 <> zeroTime /\
      exists events base, base ∈ bases /\ getJSON (ask (rdap_endpoint base d)) = inr events /\
        dates = (last_event (lit "registration") events, last_event (lit "expiration") events)
  | None => exists e, Lookup (None, Some found) ask domain = inl (Some e)
  end.
Proof.
  intros Hf Hd. destruct (fetch_exact a found Hf) as (entries & Ha & Hb). exists entries. split; [done|]. intros d bases.
  specialize (Hb (tld_of d)). fold bases in Hb.
  assert (Hl : Lookup (None, Some found) ask domain = match bases with [] => inl (Some (RdapText (lit "no RDAP service for ." ++ tld_of d))) | _ => ask_each ask d bases None end).
  { unfold Lookup. unfold beq. rewrite bool_decide_false by done. cbn [default from_option]. unfold bases_of in Hb. change (default ∅ (Some found)) with found. subst d. change (id found) with found. rewrite Hb. by destruct bases. }
  split.
  - rewrite Forall_forall. intros base Hin. unfold bases in Hin. apply list_elem_of_In, in_concat in Hin as (l & Hl' & Hin).
    apply list_elem_of_In, list_elem_of_fmap in Hl' as (entry & -> & _). by apply (listed_usable (tld_of d) entry), list_elem_of_In.
  - destruct (head (omap _ bases)) as [dates|] eqn:Eh.
    + assert (Hin : exists base, base ∈ bases /\ dates_of_answer (ask (rdap_endpoint base d)) = Some dates).
      { apply head_Some_elem_of in Eh. by apply list_elem_of_omap in Eh. }
      destruct Hin as (base & Hbase & Hdates). unfold dates_of_answer in Hdates. destruct (getJSON (ask (rdap_endpoint base d))) as [|events] eqn:Ej; [done|].
      cbv zeta in Hdates. rewrite response_dates_last in Hdates. cbn [fst] in Hdates. destruct (Z.eqb_spec (last_event (lit "registration") events) zeroTime) as [|Hz]; [done|]. injection Hdates as <-.
      split_and!; [|done|by exists events, base]. rewrite Hl. destruct bases as [|x bases']; [by apply elem_of_nil in Hbase|].
      pose proof (ask_each_first ask d (x :: bases') None ltac:(by right)) as Hask. by rewrite Eh in Hask.
    + rewrite Hl. destruct bases as [|x bases']; [eauto|]. pose proof (ask_each_first ask d (x :: bases') None ltac:(by right)) as Hask. by rewrite Eh in Hask.
Qed.

(** ** A client and its answers *)

Module RdapSample.
#[local] Existing Instance basic_tables.
Definition https_only : UrlText :=
  {| urlParse := λ s, if hasPrefix s (lit "https://") then Some (MkURL (lit "https") (drop 8 s) [] [] false []) else None; pathUnescape := Some |}.
#[local] Existing Instance https_only.

Definition org_list : services_map := {[ lit "org" := [lit "https://rdap.example/"] ]}.
(** Two calls: the second waits for the fetch of the first. *)
Definition turn (answer : rdap_error + services_map) (i : nat) : nat * bootstrap_event := (i, MkBootstrapEvent (100 * day) None false answer).
Definition first_load : list (nat * bootstrap_event) := turn (inr org_list) <$> [0; 1; 0; 0; 1]%nat.

Lemma bootstrap_kept_witness : exists y y', run rdapServices first_load (new_client 2) = Some y /\
  run rdapServices [turn (inl RdapTransport) 1%nat] y = Some y' /\ has_services (shared y') = true.
Proof.
  destruct (run rdapServices first_load (new_client 2)) as [y|] eqn:E; [|vm_compute in E; discriminate].
  destruct (rdap_bootstrap_kept 2 first_load [turn (inl RdapTransport) 1%nat] y E) as (_ & _ & _ & H).
  assert (Hs : has_services (shared y) = true) by (vm_compute in E; injection E as <-; reflexivity).
  destruct (run rdapServices [turn (inl RdapTransport) 1%nat] y) as [y'|] eqn:E'; [|vm_compute in E; injection E as <-; vm_compute in E'; discriminate].
  exists y, y'. split_and!; [reflexivity|exact E'|]. exact (proj1 (H Hs y' eq_refl)).
Defined.

Definition bootstrap_answer : http_answer (list (list (list gostring))) :=
  Responds 200 (Some [[[lit "org"]; [lit "http://plain.example/"; lit "https://down.example/"; lit "https://rdap.example/"]]]).
Definition registry (endpoint : gostring) : http_answer (list (gostring * Z)) :=
  if beq endpoint (lit "https://rdap.example/domain/example.org") then Responds 200 (Some [(lit "Registration", 1000 * second)]) else TransportFails RdapTransport.

Lemma lookup_first_answer_witness : exists found, fetchRDAPServices bootstrap_answer = inr found /\
  Lookup (None, Some found) registry (lit "Example.org.") = inr (1000 * second, zeroTime).
Proof.
  destruct (fetchRDAPServices bootstrap_answer) as [|found] eqn:E; [vm_compute in E; discriminate|]. exists found. split; [reflexivity|].
  destruct (rdap_lookup_first_answer bootstrap_answer found registry (lit "Example.org.") E) as (entries & He & _ & Hl); [vm_compute; discriminate|].
  injection He as <-. cbv zeta in Hl. match type of Hl with match ?h with _ => _ end => assert (Hh : h = Some (1000 * second, zeroTime)) by (vm_compute; reflexivity) end.
  rewrite Hh in Hl. exact (proj1 Hl).
Defined.
End RdapSample.
