(* ===== verification/ActivitySpec.v ===== *)
(** * Activity, domain cache and command history: properties

    The type invariant of the activity table over all histories, command
    history as the last ten commands, and the domain cache as a map from names
    to the last stored registration. *)
From Stdlib Require Import QArith.
From S2P Require Import Prelude GoText NetSafety MailAddr SqlDb IPReputation IPReputationFacts Activity.
Open Scope Z_scope.

(** What holds of the tables survives any operation under any schedule. *)
Lemma lift_db_preserves {R} (P : Db -> Prop) (f : Db -> R * Db) w :
  (forall d, P d -> P (f d).2) -> P (wdb w) -> P (wdb (lift_db (retry busyRetries f w)).2).
Proof.
  intros Hf Hw. pose proof (retry_preserves busyRetries f P w Hf Hw) as Hp. unfold lift_db.
  by destruct (retry busyRetries f w) as [[e|x] w'].
Qed.
Lemma lift_db_ok {R} (f : Db -> R * Db) w x w' : lift_db (retry busyRetries f w) = (inr x, w') -> f (wdb w) = (x, wdb w').
Proof. unfold lift_db. destruct (retry busyRetries f w) as [[e|y] w1] eqn:E; intros; simplify_eq. by apply retry_ok in E. Qed.
Lemma lift_db_error {R} (f : Db -> R * Db) w e w' : lift_db (retry busyRetries f w) = (inl e, w') -> wdb w' = wdb w.
Proof. unfold lift_db. destruct (retry busyRetries f w) as [[e'|y] w1] eqn:E; intros; simplify_eq. by apply retry_error in E. Qed.

(** ** Activity rows *)

(** The pairs of an event type and an outcome that may be stored, by their
    numbers: scans (1) with every outcome; rejections by address (2), attachment
    (5) and protected domain (6), rejected (2) or failed in the response (4);
    accepted correspondents (3) and trusted domains (4), accepted (1) or failed;
    recipients on a blocklist (7), removed (1) or rejected (2); and messages that
    were not inspected in full (8, 9, 10), never deferred (3). *)
Definition allowed_events : list (Z * Z) :=
  [(1, 1); (1, 2); (1, 3); (1, 4); (2, 2); (2, 4); (3, 1); (3, 4); (4, 1); (4, 4); (5, 2); (5, 4); (6, 2); (6, 4); (7, 1); (7, 2);
   (8, 1); (8, 2); (8, 4); (9, 1); (9, 2); (9, 4); (10, 1); (10, 2); (10, 4)].
Lemma valid_allowed t o : validActivityEvent t o = true -> (t, o) ∈ allowed_events.
Proof.
  assert (Hin : forall t o, existsb (λ p, (p.1 =? t) && (p.2 =? o)) allowed_events = true -> (t, o) ∈ allowed_events).
  { intros t' o' H. apply existsb_exists in H as ([x y] & Hx & [E1%Z.eqb_eq E2%Z.eqb_eq]%andb_true_iff). cbn in E1, E2. subst. by apply list_elem_of_In. }
  unfold validActivityEvent, event_is, outcome_is. intros H. apply Hin. clear Hin. revert H.
  repeat match goal with |- context [t =? ?k] => destruct (Z.eqb_spec t k) as [->|]; cbn [orb] end; try done; intros H;
    assert (Ho : o = 1 \/ o = 2 \/ o = 3 \/ o = 4) by (unfold ActivityOutcomeAccepted, ActivityOutcomeRejected, ActivityOutcomeResponseFailed in H; lia);
    destruct Ho as [->|[->|[->| ->]]]; first [reflexivity|discriminate H].
Qed.

Record act_row_ok (r : act_row) : Prop := ActRowOk {
  aro_valid : (ac_event_type r, ac_outcome r) ∈ allowed_events;
  aro_scan : ac_event_type r = ActivityEventScan <-> is_Some (ac_scan r);
  aro_cost : forall failed cost, ac_scan r = Some (failed, cost) -> (0 <= cost)%Q;
  aro_quantity : 0 < ac_quantity r;
}.
Record act_wf (d : Db) : Prop := ActWf {
  aw_ids : NoDup (ac_id <$> activity d);
  aw_rows : Forall act_row_ok (activity d);
}.

Lemma append_event_wf d row : act_wf d -> ac_id row = next_id ac_id (activity d) -> act_row_ok row ->
  act_wf (SqlDb.set_activity (activity d ++ [row]) d).
Proof.
  intros [Hi Hr] Hid Hok. split; cbn [activity SqlDb.set_activity].
  - rewrite fmap_app. apply NoDup_app. split_and!; [done| |apply NoDup_singleton].
    intros x (r & -> & Hin)%list_elem_of_fmap Hx. apply list_elem_of_singleton in Hx.
    apply (next_id_fresh ac_id) in Hin. lia.
  - apply Forall_app. split; [done|by apply Forall_singleton].
Qed.

Inductive act_op :=
  | OpAddActivity (event : ActivityEvent) | OpSummary (since before : option Z) | OpCleanupActivity | OpCountActivity
  | OpServiceStatus | OpSetServiceStatus (startedAt : Z) (mode : ServiceMode) | OpClearServiceStatus.

Section History.
Context `{FloatSum} (expiry : Z).

Definition act_apply (w : World) (o : act_op * Z) : World :=
  match o.1 with
  | OpAddActivity event => (Activity.AddActivity expiry event o.2 w).2
  | OpSummary since before => (Activity.ActivitySummary_ expiry since before o.2 w).2
  | OpCleanupActivity => (Activity.Cleanup expiry o.2 w).2
  | OpCountActivity => (Activity.Count expiry w).2
  | OpServiceStatus => (Activity.ServiceStatus expiry w).2
  | OpSetServiceStatus startedAt mode => (Activity.SetServiceStatus expiry startedAt mode w).2
  | OpClearServiceStatus => (Activity.ClearServiceStatus expiry w).2
  end.

Lemma finite_cost_nonneg c q : Activity.finite_cost c = Some q -> (0 <= q)%Q.
Proof. unfold Activity.finite_cost. intros. repeat case_match; simplify_eq. by apply Qle_bool_iff. Qed.

Lemma AddActivity_wf event now w : act_wf (wdb w) -> act_wf (wdb (Activity.AddActivity expiry event now w).2).
Proof.
  intros Hw. unfold Activity.AddActivity. cbv zeta. destruct (Activity.available expiry); [|done]. cbn [negb].
  destruct (validActivityEvent _ _) eqn:Ev; [|done]. cbn [negb]. destruct (Activity.finite_cost _) as [cost|] eqn:Ec; [|done].
  apply (lift_db_preserves act_wf); [|done]. intros d Hd. unfold Activity.insert_event. cbn [snd]. apply append_event_wf; [done|done|].
  unfold event_is. split; cbn [ac_event_type ac_outcome ac_scan ac_quantity].
  - by apply valid_allowed.
  - destruct (Z.eqb_spec (ae_EventType event) ActivityEventScan); split; intros Hx; eauto; [done|by destruct Hx].
  - intros failed q Hq. destruct (_ =? _); simplify_eq. by apply finite_cost_nonneg in Ec.
  - case_match; lia.
Qed.

Lemma act_apply_wf w o : act_wf (wdb w) -> act_wf (wdb (act_apply w o)).
Proof.
  intros Hw. destruct o as [[event|since before| | | |startedAt mode|] now]; unfold act_apply; cbn [fst snd].
  - by apply AddActivity_wf.
  - unfold Activity.ActivitySummary_. case_match; [done|]. case_match. by apply (lift_db_preserves act_wf (λ d, (_ d, d))).
  - unfold Activity.Cleanup. case_match; [done|]. apply (lift_db_preserves act_wf); [|done].
    intros d [Hi Hr]. split; cbn [activity SqlDb.set_activity Activity.cleanup_statement snd].
    + eapply sublist_NoDup; [exact Hi|]. apply sublist_fmap, delete_where_sublist.
    + eapply sublist_Forall; [apply delete_where_sublist|done].
  - unfold Activity.Count. case_match; [done|]. by apply (lift_db_preserves act_wf (λ d, (_ d, d))).
  - unfold Activity.ServiceStatus. case_match; [done|]. by apply (lift_db_preserves act_wf (λ d, (_ d, d))).
  - unfold Activity.SetServiceStatus. case_match; [done|]. apply (lift_db_preserves act_wf); [|done]. intros d [Hi Hr]. by split.
  - unfold Activity.ClearServiceStatus. case_match; [done|]. apply (lift_db_preserves act_wf); [|done]. intros d [Hi Hr]. by split.
Qed.

Lemma act_run_wf ops schedule : act_wf (wdb (fold_left act_apply ops (MkWorld emptyDb schedule))).
Proof.
  assert (Hg : forall w, act_wf (wdb w) -> act_wf (wdb (fold_left act_apply ops w))).
  { induction ops as [|o ops IH]; intros w Hw; [done|]. cbn [fold_left]. apply IH. by apply act_apply_wf. }
  apply Hg. split; constructor.
Qed.

(** C37: whatever events are offered, the activity table only ever holds events
    whose outcome is allowed for their type, with scan results exactly on scans,
    non-negative costs and positive quantities, under unique rowids: an invalid
    event, a cost that is not a finite non-negative number and a quantity of
    zero or less never reach the table as such. *)
Theorem activity_rows_well_typed (ops : list (act_op * Z)) (schedule : list attempt) :
  act_wf (wdb (fold_left act_apply ops (MkWorld emptyDb schedule))).
Proof. apply act_run_wf. Qed.
End History.

(** ** Command history *)

Lemma insert_commands_ok i l rows : [] ∉ l ->
  CommandHistory.insert_commands i l rows = inr (rows ++ imap (λ j c, (i + 1 + Z.of_nat j, c)) l).
Proof.
  revert i rows. induction l as [|c l IH]; intros i rows Hn; cbn [CommandHistory.insert_commands imap]; [by rewrite app_nil_r|].
  destruct (beq c []) eqn:E; [apply beq_true in E as ->; set_solver|]. rewrite IH by set_solver.
  rewrite <- app_assoc. cbn [app]. do 2 f_equal. f_equal; [f_equal; lia|].
  apply imap_ext. intros j x _. unfold compose. f_equal. lia.
Qed.
Lemma insert_commands_empty i l rows : [] ∈ l -> CommandHistory.insert_commands i l rows = inl RepoInvalid.
Proof.
  revert i rows. induction l as [|c l IH]; intros i rows Hn; [set_solver|]. cbn [CommandHistory.insert_commands].
  destruct (beq c []) eqn:E; [done|]. apply IH. assert (c <> []) by by apply beq_nil_false. set_solver.
Qed.

Lemma sorted_positions i (l : list gostring) :
  StronglySorted CommandHistory.position_le (imap (λ j c, (i + Z.of_nat j, c)) l).
Proof.
  revert i. induction l as [|c l IH]; intros i; [constructor|]. cbn [imap]. constructor.
  - rewrite (imap_ext _ (λ j c, (i + 1 + Z.of_nat j, c))); [apply IH|]. intros j x _. unfold compose. f_equal. lia.
  - apply Forall_forall. intros x (j & y & -> & _)%elem_of_lookup_imap_1. unfold CommandHistory.position_le. cbn. lia.
Qed.
Lemma load_positions i (l : list gostring) :
  snd <$> merge_sort CommandHistory.position_le (imap (λ j c, (i + Z.of_nat j, c)) l) = l.
Proof.
  assert (E : merge_sort CommandHistory.position_le (imap (λ j c, (i + Z.of_nat j, c)) l) = imap (λ j c, (i + Z.of_nat j, c)) l).
  { apply (StronglySorted_unique_strong CommandHistory.position_le);
      [| |apply sorted_positions|apply merge_sort_Permutation].
    - intros x y Hx Hy H1 H2. rewrite merge_sort_Permutation in Hx. unfold CommandHistory.position_le in *.
      apply elem_of_lookup_imap_1 in Hx as (j & a & -> & Ha). apply elem_of_lookup_imap_1 in Hy as (k & b & -> & Hb).
      cbn in *. assert (j = k) as -> by lia. congruence.
    - apply Sorted_StronglySorted; [intros x y z; unfold CommandHistory.position_le; lia|].
      apply Sorted_merge_sort; [intros x y; unfold CommandHistory.position_le; lia]. }
  rewrite E, fmap_imap. change (imap (const id) l = l). by rewrite imap_const, list_fmap_id.
Qed.

(** The commands that are kept. *)
Definition last_commands (commands : list gostring) : list gostring := drop (length commands - CommandHistoryLimit) commands.

(** saving a command history and loading it gives back its last ten commands in
    order.  If one of them is empty the save fails and the previous history
    stays, and so it does when the database fails. *)
Theorem command_history_round_trip (commands : list gostring) (w w1 w2 : World) (saved : repo_error + unit) (loaded : list gostring) :
  CommandHistory.SaveCommandHistory commands w = (saved, w1) -> CommandHistory.LoadCommandHistory w1 = (inr loaded, w2) ->
  (saved = inr tt -> loaded = last_commands commands /\ [] ∉ loaded /\ (length loaded <= CommandHistoryLimit)%nat) /\
  ([] ∈ last_commands commands -> saved <> inr tt) /\
  (saved <> inr tt -> wdb w1 = wdb w).
Proof.
  unfold CommandHistory.SaveCommandHistory, CommandHistory.LoadCommandHistory, Domains.flatten_tx. fold (last_commands commands). intros Hs Hl.
  apply (lift_db_ok (λ d, (_ d, d))) in Hl. injection Hl as Hl _. unfold withTx in Hs.
  destruct (retry busyRetries _ w) as [[e|x] w'] eqn:E; simplify_eq.
  { apply retry_error in E. by split_and!. }
  apply retry_ok in E. unfold CommandHistory.save_body in E.
  destruct (decide ([] ∈ last_commands commands)) as [Hin|Hn].
  - rewrite insert_commands_empty in E by done. simplify_eq. by split_and!.
  - rewrite insert_commands_ok in E by done. injection E as <- Hd. split_and!; [|done|done]. intros _.
    assert (HH : snd <$> merge_sort CommandHistory.position_le (command_history (wdb w1)) = last_commands commands).
    { rewrite <- Hd. cbn [command_history set_command_history app]. apply (load_positions (0 + 1)). }
    rewrite HH. split_and!; [done|done|]. unfold last_commands, CommandHistoryLimit. rewrite length_drop. lia.
Qed.

Lemma command_history_round_trip_witness :
  exists w, CommandHistory.LoadCommandHistory
    (CommandHistory.SaveCommandHistory ((λ c, [c]) <$> lit "abcdefghijkl") (MkWorld emptyDb [AttemptBusy])).2 =
  (inr ((λ c, [c]) <$> lit "cdefghijkl"), w).
Proof.
  destruct (CommandHistory.SaveCommandHistory ((λ c, [c]) <$> lit "abcdefghijkl") (MkWorld emptyDb [AttemptBusy])) as [s w1] eqn:E1.
  destruct (CommandHistory.LoadCommandHistory w1) as [l w2] eqn:E2.
  assert (Es : s = inr tt) by (change s with (s, w1).1; rewrite <- E1; vm_compute; reflexivity).
  assert (Ew : w1 = (CommandHistory.SaveCommandHistory ((λ c, [c]) <$> lit "abcdefghijkl") (MkWorld emptyDb [AttemptBusy])).2) by by rewrite E1.
  assert (El : exists x, l = inr x).
  { exists (match l with inr x => x | _ => [] end). change l with (l, w2).1. rewrite <- E2, Ew. vm_compute. reflexivity. }
  destruct El as [x ->]. exists w2. cbn [snd]. rewrite E2.
  destruct (command_history_round_trip ((λ c, [c]) <$> lit "abcdefghijkl") (MkWorld emptyDb [AttemptBusy]) w1 w2 s x E1 E2) as (H1 & _ & _).
  destruct (H1 Es) as [-> _]. vm_compute. reflexivity.
Defined.

(** ** The domain cache *)

Record dom_wf (d : Db) : Prop := DomWf {
  dw_ids : NoDup (dm_id <$> domain_registrations d);
  dw_domains : NoDup (dm_domain <$> domain_registrations d);
  dw_times : Forall (λ row, dm_registered_at_ms row <= dm_expires_at_ms row) (domain_registrations d);
}.

Lemma find_snoc {A} (p : A -> bool) l x :
  List.find p (l ++ [x]) = match List.find p l with Some y => Some y | None => if p x then Some x else None end.
Proof. induction l as [|y l IH]; [done|]. cbn [app List.find]. by destruct (p y). Qed.

(** The cache as a map. *)
Definition cached (d : Db) (domain : gostring) : option (Z * Z) :=
  (λ row, (dm_registered_at_ms row, dm_expires_at_ms row)) <$> List.find (Domains.has_domain domain) (domain_registrations d).

Lemma find_domain_update domain f rows name : (forall row, dm_domain (f row) = dm_domain row) ->
  List.find (Domains.has_domain name) (update_where (Domains.has_domain domain) f rows) =
  (λ row, if Domains.has_domain domain row then f row else row) <$> List.find (Domains.has_domain name) rows.
Proof.
  intros Hf. induction rows as [|row rows IH]; [done|]. cbn [update_where fmap list_fmap List.find].
  assert (E : Domains.has_domain name (if Domains.has_domain domain row then f row else row) = Domains.has_domain name row).
  { unfold Domains.has_domain. f_equal. by case_match. }
  rewrite E. destruct (Domains.has_domain name row); [done|]. exact IH.
Qed.

Lemma existsb_has_domain domain rows : existsb (Domains.has_domain domain) rows = true <-> domain ∈ (dm_domain <$> rows).
Proof.
  rewrite existsb_exists, list_elem_of_fmap. split.
  - intros (row & Hin%list_elem_of_In & He%beq_true). by exists row.
  - intros (row & -> & Hin%list_elem_of_In). exists row. split; [done|]. by apply beq_true.
Qed.

Lemma put_statement_spec record d : dom_wf d ->
  let '(res, d') := Domains.put_statement record d in
  dom_wf d' /\
  match res with
  | inl _ => d' = d /\ unixMillis (dr_ExpiresAt record) < unixMillis (dr_RegisteredAt record)
  | inr _ => forall name, cached d' name = if beq name (dr_Domain record)
                                          then Some (unixMillis (dr_RegisteredAt record), unixMillis (dr_ExpiresAt record))
                                          else cached d name
  end.
Proof.
  intros Hw. unfold Domains.put_statement. cbv zeta. destruct (Z.ltb_spec (unixMillis (dr_ExpiresAt record)) (unixMillis (dr_RegisteredAt record))); [done|].
  destruct (existsb (Domains.has_domain (dr_Domain record)) (domain_registrations d)) eqn:E; destruct Hw as [Hi Hd Ht].
  - split.
    + split; cbn [domain_registrations set_domain_registrations]; rewrite ?update_where_fmap by done; try done.
      unfold update_where. apply Forall_fmap. eapply Forall_impl; [exact Ht|]. intros row Hrow. unfold compose. by case_match; cbn.
    + intros name. unfold cached. cbn [domain_registrations set_domain_registrations]. rewrite find_domain_update by done.
      rewrite <- option_fmap_compose. destruct (List.find _ _) as [row|] eqn:Ef.
      * apply find_some_elem in Ef as [_ Hn%beq_true]. unfold compose. cbn. unfold Domains.has_domain. rewrite Hn. by case_match.
      * cbn. destruct (beq name (dr_Domain record)) eqn:En; [|done]. apply beq_true in En as ->. apply find_none_notin in Ef.
        apply existsb_exists in E as (row & Hin%list_elem_of_In & He). rewrite Forall_forall in Ef. by rewrite Ef in He.
  - assert (Hni : dr_Domain record ∉ (dm_domain <$> domain_registrations d)) by (rewrite <- existsb_has_domain; by rewrite E). split.
    + split; cbn [domain_registrations set_domain_registrations]; rewrite ?fmap_app.
      * apply NoDup_app. split_and!; [done| |apply NoDup_singleton]. intros x (row & -> & Hin)%list_elem_of_fmap Hx.
        apply list_elem_of_singleton in Hx. apply (next_id_fresh dm_id) in Hin. cbn in Hx. lia.
      * apply NoDup_app. split_and!; [done| |apply NoDup_singleton]. intros x Hin Hx. apply list_elem_of_singleton in Hx as ->. done.
      * apply Forall_app. split; [done|]. by apply Forall_singleton.
    + intros name. unfold cached. cbn [domain_registrations set_domain_registrations].
      rewrite find_snoc. destruct (List.find _ _) as [row|] eqn:Ef; cbn.
      * apply find_some_elem in Ef as [Hin Hn%beq_true]. destruct (beq name (dr_Domain record)) eqn:En; [|done].
        exfalso. apply Hni. apply beq_true in En. rewrite <- En, <- Hn. by apply list_elem_of_fmap_2.
      * unfold Domains.has_domain. cbn. unfold beq. repeat case_bool_decide; by simplify_eq.
Qed.

(** the domain cache is a map: a registration that was stored is what every
    later lookup of that domain returns, to the millisecond, and no other domain
    is affected; a registration that expires before it starts is refused and
    changes nothing, and a database fault changes nothing either.  Each domain
    keeps one row. *)
Theorem domain_cache_is_a_map (record : DomainRegistration) (name : gostring) (w w1 w2 : World)
    (stored : repo_error + unit) (found : option DomainRegistration) :
  dom_wf (wdb w) -> Domains.PutDomainRegistration record w = (stored, w1) -> Domains.DomainRegistration_ name w1 = (inr found, w2) ->
  dom_wf (wdb w1) /\
  (stored = inr tt -> found = if beq name (dr_Domain record)
     then Some (MkDomainRegistration name (timeFromMillis (unixMillis (dr_RegisteredAt record))) (timeFromMillis (unixMillis (dr_ExpiresAt record))))
     else (λ '(a, b), MkDomainRegistration name (timeFromMillis a) (timeFromMillis b)) <$> cached (wdb w) name) /\
  (unixMillis (dr_ExpiresAt record) < unixMillis (dr_RegisteredAt record) -> stored <> inr tt) /\
  (stored <> inr tt -> wdb w1 = wdb w).
Proof.
  intros Hw Hp Hg. unfold Domains.DomainRegistration_ in Hg. apply (lift_db_ok (λ d, (_ d, d))) in Hg. injection Hg as Hg _.
  assert (Hfound : found = (λ '(a, b), MkDomainRegistration name (timeFromMillis a) (timeFromMillis b)) <$> cached (wdb w1) name).
  { subst found. unfold cached. rewrite <- option_fmap_compose. destruct (List.find _ _) as [row|] eqn:Ef; [|done].
    apply find_some_elem in Ef as [_ Hn%beq_true]. cbn. unfold Domains.scanRegistration, compose. by rewrite Hn. }
  unfold Domains.PutDomainRegistration, Domains.flatten_tx, exec in Hp.
  destruct (retry busyRetries _ w) as [[e|x] w'] eqn:E; simplify_eq.
  { apply retry_error in E. rewrite E. by split_and!. }
  apply retry_ok in E. pose proof (put_statement_spec record (wdb w) Hw) as Hs. rewrite E in Hs. destruct Hs as [Hwf Hs].
  split; [done|]. destruct stored as [e|[]].
  - destruct Hs as [Hd _]. by split_and!.
  - split_and!; [|intros Hlt _|done].
    + intros _. rewrite Hfound, Hs. by destruct (beq name (dr_Domain record)).
    + unfold Domains.put_statement in E. rewrite (proj2 (Z.ltb_lt _ _) Hlt) in E. by simplify_eq.
Qed.

Lemma domain_cache_is_a_map_witness :
  let record := MkDomainRegistration (lit "example.org") (5 * minute) (9 * minute) in
  exists w, Domains.DomainRegistration_ (lit "example.org") (Domains.PutDomainRegistration record (MkWorld emptyDb [AttemptBusy])).2 =
  (inr (Some record), w).
Proof.
  intros record. destruct (Domains.PutDomainRegistration record (MkWorld emptyDb [AttemptBusy])) as [s w1] eqn:E1.
  destruct (Domains.DomainRegistration_ (lit "example.org") w1) as [l w2] eqn:E2.
  assert (Es : s = inr tt) by (change s with (s, w1).1; rewrite <- E1; vm_compute; reflexivity).
  assert (Ew : w1 = (Domains.PutDomainRegistration record (MkWorld emptyDb [AttemptBusy])).2) by by rewrite E1.
  assert (El : exists x, l = inr x).
  { exists (match l with inr x => x | _ => None end). change l with (l, w2).1. rewrite <- E2, Ew. vm_compute. reflexivity. }
  destruct El as [x ->]. exists w2. cbn [snd]. rewrite E2.
  destruct (domain_cache_is_a_map record (lit "example.org") (MkWorld emptyDb [AttemptBusy]) w1 w2 s x) as (_ & H1 & _);
    [split; constructor|exact E1|exact E2|]. rewrite (H1 Es). vm_compute. reflexivity.
Defined.

(** An unknown event type and an outcome out of range are refused. *)
Example unknown_events_refused : validActivityEvent 99 ActivityOutcomeAccepted = false /\ validActivityEvent ActivityEventScan 5 = false /\ validActivityEvent ActivityEventScan 0 = false.
Proof. done. Qed.
