(* ===== verification/AdminCmd.v ===== *)
(** * Administration commands: the parser (internal/admincmd/parser.go, types.go)

    One line of text becomes a [Command] or an error text, for an actor who may
    be an administrator and who has a default recipient.  The parser decides
    what the actor may name: the recipient of a command that is accepted is
    authorized here, and [AdminExec] runs the command with it. *)
From S2P Require Import Prelude GoText NetSafety MailAddr SqlDb Calendar.
Import NetSafety.

Definition MaxListRows : Z := 1000.
Definition MaxRejectionBodyRunes : Z := 50000.
Definition MaxResponseBytes : Z := 1048576.

Record Actor := MkActor {
  Administrator : bool;
  CommandMode : bool;
  DefaultRecipient : gostring;
  NewestLast : bool;
}.

(** [periodZero] is the empty string of commands without a period. *)
Inductive period := periodDay | periodWeek | periodMonth | periodYear | periodAll | periodZero.
Inductive recipientAuthorization := recipientAuthorized | recipientInvalid | recipientWildcardDenied | recipientOtherDenied.
Inductive commandKind :=
  | commandUnknown | commandParseError | commandHelp | commandActivity | commandRejections | commandRejection
  | commandAllowlistList | commandIPList | commandIPListLookup | commandIPAdd | commandIPDelete
  | commandAllowlist | commandBlocklistList | commandBlocklist.
#[export] Instance period_eq_dec : EqDecision period.
Proof. solve_decision. Defined.
#[export] Instance recipientAuthorization_eq_dec : EqDecision recipientAuthorization.
Proof. solve_decision. Defined.
#[export] Instance commandKind_eq_dec : EqDecision commandKind.
Proof. solve_decision. Defined.

Record Command := MkCommand {
  kind : commandKind;
  verb : gostring;
  sender : gostring;
  recipient : gostring;
  canonical : gostring;
  errorText : gostring;
  cmd_ip : Addr;
  cmd_period : period;
  rejectionID : Z;
  senderKind : option SenderBlockKind;
  allRecipients : bool;
}.
(** A composite literal that sets some fields. *)
Definition zeroCommand : Command := MkCommand commandUnknown [] [] [] [] [] AddrInvalid periodZero 0 None false.
Definition cmdText (k : commandKind) (text : gostring) : Command := MkCommand k [] [] [] text [] AddrInvalid periodZero 0 None false.
Definition cmdPeriod (k : commandKind) (rcpt text : gostring) (p : period) : Command :=
  MkCommand k [] [] rcpt text [] AddrInvalid p 0 None false.

(** ** Periods *)

Definition period_string (p : period) : gostring :=
  match p with
  | periodDay => lit "day" | periodWeek => lit "week" | periodMonth => lit "month" | periodYear => lit "year" | periodAll => lit "all"
  | periodZero => []
  end.

Definition cutoff (p : period) (now : Z) : option Z :=
  match p with
  | periodDay => Some (now - 24 * hour)
  | periodMonth => Some (addDate now 0 (-1))
  | periodYear => Some (addDate now (-1) 0)
  | periodAll => None
  | _ => Some (now - 7 * 24 * hour)
  end.

Definition description (p : period) : gostring :=
  match p with
  | periodDay => lit "past day"
  | periodMonth => lit "past month"
  | periodYear => lit "past year"
  | periodAll => lit "all retained activity"
  | _ => lit "past week"
  end.

Section Parser.
Context `{UnicodeTables, NetMail, NetIPText}.

Definition parseCommandPeriod (value : gostring) : option period :=
  let v := toLower value in
  if beq v (lit "day") then Some periodDay
  else if beq v (lit "week") then Some periodWeek
  else if beq v (lit "month") then Some periodMonth
  else if beq v (lit "year") then Some periodYear
  else if beq v (lit "all") then Some periodAll
  else None.

(** [listPeriod]: the optional period at a position of the fields. *)
Definition listPeriod (fs : list gostring) (index : nat) : option period :=
  if bool_decide (length fs = index) then Some periodWeek
  else if bool_decide (length fs <> S index) then None
  else parseCommandPeriod (nth index fs []).

(** ** Recipients and sender patterns *)

Definition normalizeRecipient (value : gostring) : gostring :=
  if beq (trimSpace value) (lit "*") then lit "*" else Normalize value.

Definition authorizeRecipient (value authenticatedSender : gostring) (admin : bool) : gostring * recipientAuthorization :=
  if beq (trimSpace value) (lit "*") then
    if negb admin then ([], recipientWildcardDenied) else (lit "*", recipientAuthorized)
  else
    let recipient := Normalize value in
    if beq recipient [] then ([], recipientInvalid)
    else if negb admin && negb (beq recipient authenticatedSender) then ([], recipientOtherDenied)
    else (recipient, recipientAuthorized).

Definition parseSenderBlockPattern (value : gostring) : gostring + gostring * SenderBlockKind :=
  let value := trimSpace value in
  if hasPrefix value (lit "*@") then
    if negb (bool_decide (countByte value "*" = 1%nat)) then
      inl (lit "sender pattern must be an exact email address or *@domain")
    else
      let domain := trimSuffix (toLower (trimSpace (trimPrefix value (lit "*@")))) (lit ".") in
      if beq domain [] || negb (beq (Domain (lit "x@" ++ domain)) domain) then
        inl (lit "sender pattern must contain a valid domain")
      else inr (domain, SenderBlockDomain)
  else if containsByte value "*" then
    inl (lit "sender pattern supports only an exact email address or *@domain")
  else
    let sender := Normalize value in
    if beq sender [] then inl (lit "sender pattern must be a valid email address or *@domain")
    else inr (sender, SenderBlockExactMailbox).

(** ** Commands *)

Definition is_word_of (s : gostring) (w : string) : bool := equalFold s (lit w).

Definition RecognizedLine (line : gostring) : bool :=
  match fields line with
  | [] => false
  | f :: _ => is_word_of f "ACTIVITY" || is_word_of f "HELP" || is_word_of f "IP" || is_word_of f "BLOCKLIST"
              || is_word_of f "REJECTION" || is_word_of f "REJECTIONS" || is_word_of f "WHITELIST"
  end.

Definition ParseError (line text : gostring) : Command :=
  MkCommand commandParseError [] [] [] line text AddrInvalid periodZero 0 None false.

(** The branches of [parse], in the order of the code; [fs] are the fields and
    [auth] is the authenticated sender. *)
Definition parse_activity (fs : list gostring) (admin : bool) : gostring + Command :=
  if negb admin then inl (lit "ACTIVITY is restricted to administrators")
  else match listPeriod fs 1 with
       | None => inl (lit "ACTIVITY period must be day, week, month, year, or all")
       | Some pd => inr (cmdPeriod commandActivity [] (lit "ACTIVITY " ++ period_string pd) pd)
       end.

Definition parse_rejection (fs : list gostring) : gostring + Command :=
  if bool_decide (length fs <> 2%nat) then inl (lit "REJECTION requires one positive rejection ID")
  else match parseUint (nth 1 fs []) 63 with
       | None => inl (lit "REJECTION requires one positive rejection ID")
       | Some id =>
           if id =? 0 then inl (lit "REJECTION requires one positive rejection ID")
           else inr (MkCommand commandRejection [] [] [] (lit "REJECTION " ++ itoa id) [] AddrInvalid periodZero id None false)
       end.

Definition parse_ip (fs : list gostring) (admin : bool) : gostring + Command :=
  if negb admin then inl (lit "IP commands are restricted to administrators")
  else if bool_decide (2 <= length fs)%nat && is_word_of (nth 1 fs []) "LIST" then
    let '(k, canonical, index) :=
      if bool_decide (3 <= length fs)%nat && is_word_of (nth 2 fs []) "LOOKUP"
      then (commandIPListLookup, lit "IP LIST LOOKUP", 3%nat) else (commandIPList, lit "IP LIST", 2%nat) in
    match listPeriod fs index with
    | None => inl (lit "IP LIST period must be day, week, month, year, or all")
    | Some pd => inr (cmdPeriod k [] (canonical ++ lit " " ++ period_string pd) pd)
    end
  else if bool_decide (length fs <> 3%nat) || negb (is_word_of (nth 1 fs []) "ADD") && negb (is_word_of (nth 1 fs []) "DELETE") then
    inl (lit "IP command must be IP LIST, IP LIST LOOKUP, IP ADD address, or IP DELETE address")
  else match parse_addr (nth 2 fs []) with
       | None => inl (lit "IP command requires a valid IPv4 or IPv6 address")
       | Some addr =>
           let addr := CanonicalIP addr in
           let verb := toUpper (nth 1 fs []) in
           let kind := if beq verb (lit "DELETE") then commandIPDelete else commandIPAdd in
           inr (MkCommand kind [] [] [] (lit "IP " ++ verb ++ lit " " ++ addr_string addr) [] addr periodZero 0 None false)
       end.

(** The recipient and period of the two listings with both. *)
Definition parse_listing (fs : list gostring) (words : nat) (auth : gostring) (admin : bool) (k : commandKind) (name : gostring)
    (tooMany invalid wildcard other : gostring) : gostring + Command :=
  if bool_decide (words + 2 < length fs)%nat then inl tooMany
  else
    let '(pd, end_) :=
      if bool_decide (words < length fs)%nat then
        match parseCommandPeriod (nth (length fs - 1) fs []) with
        | Some parsed => (parsed, (length fs - 1)%nat)
        | None => (periodWeek, length fs)
        end
      else (periodWeek, length fs) in
    if bool_decide (end_ = S words) then
      match authorizeRecipient (nth words fs []) auth admin with
      | (_, recipientInvalid) => inl invalid
      | (_, recipientWildcardDenied) => inl wildcard
      | (_, recipientOtherDenied) => inl other
      | (recipient, recipientAuthorized) => inr (cmdPeriod k recipient (name ++ lit " " ++ recipient ++ lit " " ++ period_string pd) pd)
      end
    else if bool_decide (S words < end_)%nat then inl tooMany
    else inr (cmdPeriod k auth (name ++ lit " " ++ period_string pd) pd).

Definition parse_rejections (fs : list gostring) (auth : gostring) (admin : bool) : gostring + Command :=
  parse_listing fs 1 auth admin commandRejections (lit "REJECTIONS")
    (lit "REJECTIONS accepts at most one recipient and one period")
    (lit "rejection-history recipient must be a valid email address")
    (lit "wildcard rejection history is restricted to administrators")
    (lit "users may view only their own rejection history").

Definition parse_allowlist_list (fs : list gostring) (auth : gostring) (admin : bool) : gostring + Command :=
  parse_listing fs 2 auth admin commandAllowlistList (lit "WHITELIST LIST")
    (lit "WHITELIST LIST accepts at most one recipient and one period")
    (lit "allowlist recipient must be a valid email address")
    (lit "wildcard allowlist listing is restricted to administrators")
    (lit "users may view only their own allowlist").

Definition parse_blocklist_list (fs : list gostring) (auth : gostring) (admin : bool) : gostring + Command :=
  if bool_decide (3 < length fs)%nat then inl (lit "BLOCKLIST LIST accepts at most one recipient")
  else
    let recipient := if bool_decide (length fs = 3%nat) then nth 2 fs [] else auth in
    match authorizeRecipient recipient auth admin with
    | (_, recipientInvalid) => inl (lit "blocklist recipient must be a valid email address")
    | (_, recipientWildcardDenied) => inl (lit "server-wide blocklist listing is restricted to administrators")
    | (_, recipientOtherDenied) => inl (lit "users may view only their own blocklist")
    | (recipient, recipientAuthorized) => inr (cmdPeriod commandBlocklistList recipient (lit "BLOCKLIST LIST " ++ recipient) periodZero)
    end.

(** The pattern as it is written in a command. *)
Definition block_pattern (sender : gostring) (k : SenderBlockKind) : gostring :=
  match k with SenderBlockDomain => lit "*@" ++ sender | SenderBlockExactMailbox => sender end.

Definition parse_blocklist (fs : list gostring) (auth : gostring) (admin commandMode : bool) : gostring + Command :=
  if bool_decide (length fs <> 3%nat) && bool_decide (length fs <> 4%nat) then
    inl (lit "BLOCKLIST command must be BLOCKLIST ADD sender-pattern [recipient|*] or BLOCKLIST DELETE sender-pattern [recipient|*|ALL]")
  else
    let verb := toUpper (nth 1 fs []) in
    if negb (beq verb (lit "ADD")) && negb (beq verb (lit "DELETE")) then inl (lit "BLOCKLIST operation must be ADD or DELETE")
    else if commandMode && bool_decide (length fs <> 4%nat) then
      inl (lit "BLOCKLIST " ++ verb ++ lit " requires an explicit recipient, *, or ALL in command mode")
    else match parseSenderBlockPattern (nth 2 fs []) with
    | inl err => inl err
    | inr (sender, k) =>
        let recipient := if bool_decide (length fs = 4%nat) then nth 3 fs [] else auth in
        if is_word_of recipient "ALL" then
          if negb (beq verb (lit "DELETE")) then inl (lit "ALL is supported only by BLOCKLIST DELETE")
          else if negb admin then inl (lit "deleting blocklist entries for all recipients is restricted to administrators")
          else inr (MkCommand commandBlocklist verb sender [] (lit "BLOCKLIST DELETE " ++ block_pattern sender k ++ lit " ALL") []
                      AddrInvalid periodZero 0 (Some k) true)
        else match authorizeRecipient recipient auth admin with
        | (_, recipientInvalid) => inl (lit "blocklist recipient must be a valid email address or *")
        | (_, recipientWildcardDenied) => inl (lit "server-wide blocklist entries are restricted to administrators")
        | (_, recipientOtherDenied) => inl (lit "users may modify only their own blocklist")
        | (recipient, recipientAuthorized) =>
            inr (MkCommand commandBlocklist verb sender recipient
                   (lit "BLOCKLIST " ++ verb ++ lit " " ++ block_pattern sender k ++ lit " " ++ recipient) []
                   AddrInvalid periodZero 0 (Some k) false)
        end
    end.

Definition parse_allowlist (fs : list gostring) (auth : gostring) (admin : bool) : gostring + Command :=
  if bool_decide (length fs <> 3%nat) && bool_decide (length fs <> 4%nat) then inl (lit "invalid command; send HELP for syntax")
  else if negb (is_word_of (nth 0 fs []) "WHITELIST") then inl (lit "unknown command; send HELP for syntax")
  else
    let verb := toUpper (nth 1 fs []) in
    if negb (beq verb (lit "ADD")) && negb (beq verb (lit "DELETE")) then inl (lit "operation must be ADD or DELETE")
    else
      let sender := Normalize (nth 2 fs []) in
      if beq sender [] then inl (lit "sender must be a valid email address")
      else
        let recipient := if bool_decide (length fs = 4%nat) then nth 3 fs [] else auth in
        if beq recipient (lit "*") && beq verb (lit "ADD") then inl (lit "WHITELIST ADD requires an explicit local recipient")
        else match authorizeRecipient recipient auth admin with
        | (_, recipientInvalid) => inl (lit "recipient must be a valid email address")
        | (_, recipientWildcardDenied) => inl (lit "wildcard deletion is restricted to administrators")
        | (_, recipientOtherDenied) => inl (lit "users may modify only their authenticated envelope sender address")
        | (recipient, recipientAuthorized) =>
            inr (MkCommand commandAllowlist verb sender recipient
                   (lit "WHITELIST " ++ verb ++ lit " " ++ sender ++ lit " " ++ recipient) [] AddrInvalid periodZero 0 None false)
        end.

Definition parse (text auth : gostring) (admin commandMode : bool) : gostring + Command :=
  let fs := fields text in
  let first := nth 0 fs [] in
  let some := bool_decide (1 <= length fs)%nat in
  let second_list := bool_decide (2 <= length fs)%nat && is_word_of (nth 1 fs []) "LIST" in
  if bool_decide (length fs = 1%nat) && is_word_of first "HELP" then inr (cmdText commandHelp (lit "HELP"))
  else if some && is_word_of first "ACTIVITY" then parse_activity fs admin
  else if some && is_word_of first "REJECTION" then parse_rejection fs
  else if some && is_word_of first "IP" then parse_ip fs admin
  else if some && is_word_of first "REJECTIONS" then parse_rejections fs auth admin
  else if second_list && is_word_of first "BLOCKLIST" then parse_blocklist_list fs auth admin
  else if some && is_word_of first "BLOCKLIST" then parse_blocklist fs auth admin commandMode
  else if second_list && is_word_of first "WHITELIST" then parse_allowlist_list fs auth admin
  else parse_allowlist fs auth admin.

Definition Parse (line : gostring) (actor : Actor) : gostring + Command :=
  parse (trimSpace line) (normalizeRecipient (DefaultRecipient actor)) (Administrator actor) (CommandMode actor).
End Parser.
