(* ===== verification/AdminFormat.v ===== *)
(** * Administration commands: texts (internal/admincmd/formatting.go)

    The replies to commands: help, listings, the activity report, one
    rejection, and the bounded builder they are written with.  Formatting of
    floats ([%.4f]) and their division are Go's and are parameters
    ([FloatText]). *)
From Stdlib Require Import QArith.
From S2P Require Import Prelude GoText NetSafety MailAddr SqlDb IPReputation Calendar Correspondents SenderBlocklist Rejections Activity AdminCmd.
Open Scope Z_scope.

(** [fmt] on floats, and float division by a count. *)
Class FloatText := {
  format_fixed : nat -> Q -> gostring;
  float_div : Q -> Z -> Q;
}.
(** For evaluation: whole numbers and exact quotients. *)
Definition whole_numbers : FloatText :=
  {| format_fixed := λ _ q, itoa (Qnum q / Z.pos (Qden q)); float_div := λ q n, (q / inject_Z n)%Q |}.

Definition blank : string := EmptyString.
Definition newline : gostring := [LF].
(** Lines, each with its line feed. *)
Definition text_lines (l : list string) : gostring := concat ((λ s, lit s ++ newline) <$> l).

Definition formatUTC (t : Z) : gostring := format_datetime t ++ lit " UTC".

(** ** Help *)

Definition help_user : gostring := text_lines
  ["Send one or more commands, one per line:";
   blank;
   "WHITELIST ADD sender@example.com";
   "WHITELIST DELETE sender@example.com";
   "WHITELIST LIST [day|week|month|year|all]";
   "BLOCKLIST ADD sender@example.com";
   "BLOCKLIST ADD *@example.com";
   "BLOCKLIST DELETE sender@example.com";
   "BLOCKLIST LIST";
   "REJECTIONS [day|week|month|year|all]";
   "REJECTION id";
   "HELP";
   blank;
   "Listing commands default to the previous week where applicable. The local address is taken from your authenticated envelope sender."].
Definition help_console : gostring := text_lines
  ["Enter one command at a time:";
   blank;
   "ACTIVITY [day|week|month|year|all]";
   "WHITELIST ADD sender@example.com recipient@example.com";
   "WHITELIST DELETE sender@example.com [recipient@example.com|*]";
   "WHITELIST LIST [recipient@example.com|*] [day|week|month|year|all]";
   "BLOCKLIST ADD sender-pattern recipient@example.com|*";
   "BLOCKLIST DELETE sender-pattern recipient@example.com|*|ALL";
   "BLOCKLIST LIST [recipient@example.com|*]";
   "REJECTIONS [recipient@example.com|*] [day|week|month|year|all]";
   "REJECTION id";
   "IP LIST [day|week|month|year|all]";
   "IP LIST LOOKUP [day|week|month|year|all]";
   "IP ADD 192.0.2.1";
   "IP DELETE 192.0.2.1";
   "HELP";
   "EXIT";
   blank;
   "Sender patterns are exact addresses or *@domain. For blocklist mutations, * identifies the server-wide entry; DELETE with ALL removes matching entries at every recipient scope. Listing commands default to the previous week where applicable and all local recipients. WHITELIST ADD and BLOCKLIST mutations require an explicit scope."].
Definition help_admin : gostring := text_lines
  [blank;
   "Administrator commands:";
   "ACTIVITY [day|week|month|year|all]";
   "BLOCKLIST ADD sender-pattern [recipient@example.com|*]";
   "BLOCKLIST DELETE sender-pattern [recipient@example.com|*|ALL]";
   "BLOCKLIST LIST [recipient@example.com|*]";
   "IP LIST [day|week|month|year|all]";
   "IP LIST LOOKUP [day|week|month|year|all]";
   "IP ADD 192.0.2.1";
   "IP DELETE 192.0.2.1";
   blank;
   "Administrators may append a local recipient address before the period in WHITELIST LIST and REJECTIONS commands, and to modification commands. In BLOCKLIST mutations, * identifies the server-wide entry; DELETE with ALL removes matching entries at every recipient scope. For example:";
   blank;
   "BLOCKLIST ADD *@example.com *";
   "BLOCKLIST DELETE *@example.com ALL";
   "WHITELIST LIST * month";
   "REJECTIONS * year"].

Definition Help (admin commandMode : bool) : gostring :=
  if admin && commandMode then help_console
  else if admin then help_user ++ help_admin
  else help_user.

(** ** The bounded builder *)

Definition responseTruncatedNotice : gostring := newline ++ lit "Command reply was truncated at 1 MiB." ++ newline.
Definition listTruncatedNotice : gostring := lit "Results were limited to " ++ itoa MaxListRows ++ lit " matching records." ++ newline.

(** The loop [for end > 0 && !utf8.ValidString(s[:end]) { end-- }]. *)
Fixpoint valid_prefix (end_ : nat) (s : gostring) : nat :=
  match end_ with
  | O => O
  | S n => if validString (take end_ s) then end_ else valid_prefix n s
  end.

(** The builder afterwards, and whether all of the text was written. *)
Definition AppendBoundedResponse (body text : gostring) : gostring * bool :=
  let remaining := MaxResponseBytes - go_len body in
  if go_len text <=? remaining then (body ++ text, true)
  else
    let contentLimit := MaxResponseBytes - go_len responseTruncatedNotice in
    let body :=
      if contentLimit <? go_len body then take (valid_prefix (Z.to_nat contentLimit) body) body
      else if 0 <? contentLimit - go_len body then
        body ++ take (valid_prefix (Z.to_nat (Z.min (contentLimit - go_len body) (go_len text))) text) text
      else body in
    (body ++ responseTruncatedNotice, false).

(** The loop over the records of a listing: it stops at the first that does not
    fit. *)
Fixpoint append_records (body : gostring) (records : list gostring) : gostring * bool :=
  match records with
  | [] => (body, true)
  | record :: records =>
      match AppendBoundedResponse body record with
      | (body, true) => append_records body records
      | (body, false) => (body, false)
      end
  end.
Definition format_listing (records : list gostring) (truncated : bool) : gostring :=
  match append_records [] records with
  | (body, false) => body
  | (body, true) => if truncated then fst (AppendBoundedResponse body listTruncatedNotice) else body
  end.

Definition limitRows {A} (entries : list A) : list A * bool :=
  if Z.of_nat (length entries) <=? MaxListRows then (entries, false) else (take (Z.to_nat MaxListRows) entries, true).

(** ** Listings *)

Definition pattern_of (e : SenderBlockEntry) : gostring :=
  match se_SenderKind e with Some SenderBlockDomain => lit "*@" ++ se_SenderValue e | _ => se_SenderValue e end.

Definition expiry_string (t : option Z) : gostring := formatUTC (default zeroTime t).

Definition formatSenderBlocklist (entries : list SenderBlockEntry) (truncated : bool) : gostring :=
  match entries with
  | [] => lit "No active sender blocklist entries were found." ++ newline
  | _ => format_listing ((λ e, lit "Sender: " ++ pattern_of e ++ newline ++ lit "Recipient: " ++ se_Recipient e ++ newline ++
                               lit "Expires: " ++ expiry_string (se_ExpiresAt e) ++ newline ++ newline) <$> entries) truncated
  end.

Definition allowlistAddedDescription (k : CorrespondentKind) : gostring :=
  match k with
  | CorrespondentKindManual => lit "manually"
  | CorrespondentKindAuthenticatedOutbound => lit "learned from authenticated outbound email"
  | CorrespondentKindRepeatedLegitimateInbound => lit "learned from repeated legitimate inbound emails"
  end.

Definition formatAllowlist (entries : list Correspondents.Correspondent) (includeRecipient truncated : bool) : gostring :=
  match entries with
  | [] => lit "No whitelisted correspondent addresses were found." ++ newline
  | _ =>
      let '(entries, additional) := limitRows entries in
      format_listing ((λ e, lit "Sender: " ++ Correspondents.ce_Correspondent e ++ newline ++
        (if includeRecipient then lit "Recipient: " ++ Correspondents.ce_LocalAddress e ++ newline else []) ++
        lit "Added: " ++ allowlistAddedDescription (Correspondents.ce_CorrespondentType e) ++ newline ++ newline) <$> entries)
        (truncated || additional)
  end.

Definition level_string (l : option IPBlockLevel) : gostring :=
  match l with Some IPBlockLevelShort => lit "short" | Some IPBlockLevelRepeat => lit "repeat" | None => [] end.
(** A block with the hostname found for it. *)
Definition formatActiveIPBlocks `{NetIPText} (entries : list (IPBlock * gostring)) (includeHostname truncated : bool) : gostring :=
  match entries with
  | [] => lit "No active IP blocks were found." ++ newline
  | _ => format_listing ((λ '(b, hostname), lit "IP: " ++ addr_string (blk_Address b) ++
           (if includeHostname then lit " (" ++ (if beq hostname [] then lit "not found" else hostname) ++ lit ")" else []) ++
           lit " Type: " ++ level_string (blk_Level b) ++ lit " Expires: " ++ expiry_string (blk_ExpiresAt b) ++ newline) <$> entries) truncated
  end.

Definition or_default (s : gostring) (text : string) : gostring := if beq s [] then lit text else s.

Definition formatRejectionHistory (entries : list Rejection) (truncated : bool) : gostring :=
  match entries with
  | [] => lit "No retained rejected-email records were found." ++ newline
  | _ =>
      let '(entries, additional) := limitRows entries in
      format_listing ((λ e, lit "From: " ++ rn_Sender e ++ newline ++ lit "To: " ++ join (lit ", ") (rn_Recipients e) ++ newline ++
        lit "Subject: " ++ or_default (rn_Subject e) "(no subject)" ++ newline ++ lit "Date: " ++ formatUTC (rn_RejectedAt e) ++ newline ++
        lit "Rejection ID: " ++ itoa (rn_ID e) ++ newline ++ lit "Reason: " ++ or_default (rn_Reason e) "Unavailable" ++ newline ++ newline)
        <$> entries) (truncated || additional)
  end.

Definition formatRejectionDetail (e : Rejection) (body : gostring) : gostring :=
  lit "Rejection ID: " ++ itoa (rn_ID e) ++ newline ++ lit "From: " ++ rn_Sender e ++ newline ++
  lit "To: " ++ join (lit ", ") (rn_Recipients e) ++ newline ++ lit "Subject: " ++ or_default (rn_Subject e) "(no subject)" ++ newline ++
  lit "Date: " ++ formatUTC (rn_RejectedAt e) ++ newline ++ lit "Reason for rejection: " ++ or_default (rn_Reason e) "Unavailable" ++ newline ++
  newline ++ lit "Visible email body text:" ++ newline ++ body ++ newline.

(** ** The activity report *)

Definition durationPart (value : Z) (unit : string) : gostring :=
  itoa value ++ lit " " ++ lit unit ++ (if value =? 1 then [] else lit "s").

Definition formatDuration (value : Z) : gostring :=
  if value <? 0 then lit "unavailable"
  else
    let days := value / day in
    let value := value mod day in
    let hours := value / hour in
    let value := value mod hour in
    let minutes := value / minute in
    let parts := (if 0 <? days then [durationPart days "day"] else []) ++ (if 0 <? hours then [durationPart hours "hour"] else []) in
    let parts := if (0 <? minutes) || bool_decide (parts = []) then parts ++ [durationPart minutes "minute"] else parts in
    join (lit ", ") parts.

Definition activitySummaryEmpty (s : ActivitySummary) : bool :=
  (ScanTotal s =? 0) && (IPRejections s =? 0) && (CorrespondentAccepts s =? 0) && (TrustedDomainAccepts s =? 0) &&
  (AttachmentRejections s =? 0) && (ProtectedSenderDomainRejections s =? 0) && (SenderBlocklistRejections s =? 0) &&
  (SenderBlocklistRecipientRemovals s =? 0) && (HTMLLimitRejections s =? 0) && (HTMLLimitAccepted s =? 0) &&
  (IncompleteInspectionRejections s =? 0) && (IncompleteInspectionAccepted s =? 0) && (HTMLDoSRejections s =? 0) && (HTMLDoSAccepted s =? 0).

Definition activityHasRejections (s : ActivitySummary) : bool :=
  (0 <? ScanRejections s) || (0 <? IPRejections s) || (0 <? AttachmentRejections s) || (0 <? ProtectedSenderDomainRejections s) ||
  (0 <? SenderBlocklistRejections s) || (0 <? HTMLLimitRejections s) || (0 <? HTMLDoSRejections s) || (0 <? IncompleteInspectionRejections s).

(** The two totals of [formatActivity]. *)
Definition totalRejected (s : ActivitySummary) : Z :=
  ScanRejections s + IPRejections s + AttachmentRejections s + ProtectedSenderDomainRejections s + SenderBlocklistRejections s +
  HTMLLimitRejections s + HTMLDoSRejections s + IncompleteInspectionRejections s.
Definition totalAccepted (s : ActivitySummary) : Z :=
  ScanAccepted s + CorrespondentAccepts s + TrustedDomainAccepts s + HTMLLimitAccepted s + HTMLDoSAccepted s + IncompleteInspectionAccepted s.

Definition report_line (label : string) (n : Z) : gostring := lit label ++ lit ": " ++ itoa n ++ newline.

Definition formatActivity `{FloatText} (pd : period) (before retention : Z) (s : ActivitySummary) (status : option (Z * ServiceMode)) : gostring :=
  (match status with
   | Some (_, ServiceModeAccept) =>
       lit "MilterGuard is running in accept mode. Scans completed in this mode are accepted even when the AI recommends rejection." ++ newline ++
       (if activityHasRejections s then lit "This period also contains rejections recorded in enforce mode." ++ newline else []) ++ newline
   | _ => []
   end) ++
  lit "Activity: " ++ description pd ++ newline ++
  lit "Service uptime: " ++ (match status with
                             | Some (startedAt, _) => if startedAt <=? before then formatDuration (before - startedAt) else lit "unavailable"
                             | None => lit "unavailable"
                             end) ++ newline ++
  lit "Retention: " ++ formatDuration retention ++ newline ++ newline ++
  (if activitySummaryEmpty s then lit "No activity was recorded for this period." ++ newline ++ newline else []) ++
  report_line "Total rejected" (totalRejected s) ++
  report_line "  AI classification" (ScanRejections s) ++
  report_line "  IP reputation" (IPRejections s) ++
  report_line "  Attachment policy" (AttachmentRejections s) ++
  report_line "  Protected sender-domain policy" (ProtectedSenderDomainRejections s) ++
  report_line "  Sender blocklist" (SenderBlocklistRejections s) ++
  report_line "  Content processing resource limit" (HTMLLimitRejections s) ++
  report_line "  Content processing DoS protection" (HTMLDoSRejections s) ++
  report_line "  Incomplete inspection" (IncompleteInspectionRejections s) ++ newline ++
  report_line "Total accepted" (totalAccepted s) ++
  report_line "  AI classification" (ScanAccepted s) ++
  report_line "  Correspondent whitelist" (CorrespondentAccepts s) ++
  report_line "  Trusted sender domain" (TrustedDomainAccepts s) ++
  report_line "  Content processing resource limit (accept mode)" (HTMLLimitAccepted s) ++
  report_line "  Content processing DoS protection (accept mode)" (HTMLDoSAccepted s) ++
  report_line "  Incomplete inspection (accept mode)" (IncompleteInspectionAccepted s) ++ newline ++
  report_line "Recipient deliveries removed by sender blocklist" (SenderBlocklistRecipientRemovals s) ++ newline ++
  report_line "Total AI scans" (ScanTotal s) ++
  report_line "AI evaluations failed" (AIEvaluationsFailed s) ++ newline ++
  lit "Token costs are estimates based on endpoint-reported usage and configured prices." ++ newline ++
  lit "Total token cost: USD " ++ format_fixed 4 (TokenCost s) ++ newline ++
  (if ScanTotal s =? 0 then lit "Average cost per message scanned: N/A (no scans)" ++ newline
   else lit "Average cost per message scanned: USD " ++ format_fixed 6 (float_div (TokenCost s) (ScanTotal s)) ++ newline).

(** ** Facts: bounded replies *)

Lemma valid_prefix_le n s : (valid_prefix n s <= n)%nat.
Proof. induction n as [|n IH]; [done|]. cbn [valid_prefix]. case_match; lia. Qed.
Lemma valid_prefix_valid n s : validString (take (valid_prefix n s) s) = true.
Proof. induction n as [|n IH]; [done|]. cbn [valid_prefix]. case_match; done. Qed.

Lemma notice_length : go_len responseTruncatedNotice = 39.
Proof. vm_compute. reflexivity. Qed.

Lemma AppendBoundedResponse_bound body text : go_len body <= MaxResponseBytes ->
  go_len (AppendBoundedResponse body text).1 <= MaxResponseBytes.
Proof.
  intros Hb. unfold AppendBoundedResponse. cbv zeta. rewrite notice_length.
  destruct (Z.leb_spec (go_len text) (MaxResponseBytes - go_len body)); cbn [fst]; rewrite go_len_app; [lia|]. rewrite notice_length.
  destruct (Z.ltb_spec (MaxResponseBytes - 39) (go_len body)).
  - pose proof (go_len_take (valid_prefix (Z.to_nat (MaxResponseBytes - 39)) body) body).
    pose proof (valid_prefix_le (Z.to_nat (MaxResponseBytes - 39)) body). unfold MaxResponseBytes in *. lia.
  - destruct (Z.ltb_spec 0 (MaxResponseBytes - 39 - go_len body)); [|unfold MaxResponseBytes in *; lia]. rewrite go_len_app.
    set (e := Z.to_nat (Z.min (MaxResponseBytes - 39 - go_len body) (go_len text))).
    pose proof (go_len_take (valid_prefix e text) text). pose proof (valid_prefix_le e text). unfold e in *. unfold MaxResponseBytes in *. lia.
Qed.
