(* ===== verification/AdminExec.v ===== *)
(** * Administration commands: execution (internal/admincmd/processor.go,
    rejection_detail.go, reply_budget.go; milter/command_processor.go)

    [Execute] runs the database part of a command over the repositories of
    this development and returns a deferred response: a text, or the detail of
    one rejection, which is rendered later because it reads the archive.
    [rejectionDetail] renders it under the attachment budget of one reply.

    The archive and the extraction of a saved message's visible body are
    parameters ([MessageSource]); reverse DNS is the function [LookupAddr]. *)
From Stdlib Require Import QArith.
From S2P Require Import Prelude GoText NetSafety MailAddr SqlDb IPReputation IPAllowlist Calendar Correspondents SenderBlocklist Rejections Activity AdminCmd AdminFormat.
Open Scope Z_scope.
Import NetSafety.

(** ** The processor *)

(** The repositories by their options; [None] is a nil dependency. *)
Record Processor := MkProcessor {
  p_correspondents : CorrespondentOptions;
  p_rejections : RejectionOptions;
  p_ip : IPReputationOptions;
  p_ipPolicy : ipReputationStore;
  p_senderBlocklist : option SenderBlocklistOptions;
  p_activity : option Z;
  p_serviceStatus : option Z;
  p_activityExpiry : Z;
}.

Inductive DeferredResponse := DText (text : gostring) | DRejection (entry : Rejection).

Definition recipientScope (recipient : gostring) : RecipientScope :=
  if beq recipient (lit "*") then MkRecipientScope true [] else MkRecipientScope false recipient.

(** [slices.Reverse] when the newest entry comes last. *)
Definition in_order {A} (actor : Actor) (entries : list A) : list A := if NewestLast actor then rev entries else entries.

(** [commandIPResolver.ResolveActiveIPHostnames]: the first usable name of each
    routable address; [lookup] is [None] where the lookup failed or the deadline
    came first.  The workers write to different entries. *)
Definition resolve_hostname `{UnicodeTables} (lookup : Addr -> option (list gostring)) (addr : Addr) : gostring :=
  if negb (isValid addr) || negb (AddressRoutable addr) then []
  else match lookup addr with
       | None => []
       | Some names => default [] (head (List.filter (λ h, negb (beq h [])) (DNSHostname <$> names)))
       end.
Definition ResolveActiveIPHostnames `{UnicodeTables} (lookup : Addr -> option (list gostring)) (entries : list IPBlock)
    : list (IPBlock * gostring) :=
  (λ b, (b, resolve_hostname lookup (blk_Address b))) <$> entries.

(** Continues with the result of an operation that succeeded. *)
Definition and_then {A B} (x : (repo_error + A) * World) (k : A -> World -> (repo_error + B) * World) : (repo_error + B) * World :=
  match x with (inl e, w) => (inl e, w) | (inr a, w) => k a w end.
Definition respond {A} (x : (repo_error + A) * World) (f : A -> gostring) : (repo_error + DeferredResponse) * World :=
  and_then x (λ a w, (inr (DText (f a)), w)).

Section Execute.
Context `{UnicodeTables, NetMail, NetIPText, FloatSum, FloatText}.
Context (p : Processor) (lookup : Addr -> option (list gostring)).

Definition sentence (text : gostring) : gostring := text ++ lit "." ++ newline.

Definition execute_activity (command : Command) (actor : Actor) (now : Z) (w : World) : (repo_error + DeferredResponse) * World :=
  if negb (Administrator actor) then (inl RepoInvalid, w)
  else match p_activity p with
  | None => (inl RepoDisabled, w)
  | Some expiry =>
      let retainedSince := now - p_activityExpiry p in
      let activitySince := match cutoff (cmd_period command) now with
                           | Some t => if t <? retainedSince then retainedSince else t
                           | None => retainedSince
                           end in
      and_then (Activity.ActivitySummary_ expiry (Some activitySince) (Some now) now w) (λ summary w,
        let '(status, w) := match p_serviceStatus p with
                            | None => (None, w)
                            | Some e => match Activity.ServiceStatus e w with (inl _, w) => (None, w) | (inr status, w) => (status, w) end
                            end in
        (inr (DText (formatActivity (cmd_period command) now (p_activityExpiry p) summary status)), w))
  end.

Definition execute_allowlist (command : Command) (now : Z) (w : World) : (repo_error + DeferredResponse) * World :=
  if beq (verb command) (lit "ADD") then
    respond (Correspondents.AddManual (p_correspondents p) (sender command) (recipient command) now w) (λ created,
      sentence (if created : bool then lit "allowlist entry added" else lit "allowlist entry already existed and was refreshed"))
  else
    respond (Correspondents.DeleteCorrespondent (p_correspondents p) (sender command) (recipientScope (recipient command)) w) (λ removed,
      sentence (lit "removed " ++ itoa removed ++ lit " allowlist entries")).

Definition execute_blocklist (r : SenderBlocklistOptions) (command : Command) (now : Z) (w : World) : (repo_error + DeferredResponse) * World :=
  if beq (verb command) (lit "ADD") then
    respond (SenderBlocklist.AddSenderBlock r (recipient command) (senderKind command) (sender command) now w) (λ '(created, saved),
      (if created : bool then lit "sender blocklist entry added" else lit "sender blocklist entry already existed and was refreshed")
      ++ lit "; expires " ++ expiry_string (se_ExpiresAt saved) ++ lit "." ++ newline)
  else
    let scope := if allRecipients command then MkRecipientScope true [] else recipientScope (recipient command) in
    respond (SenderBlocklist.DeleteSenderBlocks r (senderKind command) (sender command) scope w) (λ removed,
      lit "removed " ++ itoa removed ++ lit " sender blocklist entries." ++ newline).

Definition Execute (command : Command) (actor : Actor) (now : Z) (w : World) : (repo_error + DeferredResponse) * World :=
  let admin := Administrator actor in
  let since := cutoff (cmd_period command) now in
  match kind command with
  | commandParseError => (inr (DText (errorText command ++ lit "." ++ newline)), w)
  | commandHelp => (inr (DText (Help admin (CommandMode actor))), w)
  | commandActivity => execute_activity command actor now w
  | commandRejections =>
      respond (Rejections.ListRejections (p_rejections p)
                 (MkRejectionListQuery (recipientScope (recipient command)) since MaxListRows) now w) (λ '(entries, truncated),
        formatRejectionHistory (in_order actor entries) truncated)
  | commandRejection =>
      let scope := if admin then MkRecipientScope true [] else MkRecipientScope false (normalizeRecipient (DefaultRecipient actor)) in
      and_then (Rejections.RejectionByID (p_rejections p) (rejectionID command) scope now w) (λ found w,
        (inr (match found with
              | None => DText (lit "Rejection record not found." ++ newline)
              | Some entry => DRejection entry
              end), w))
  | commandAllowlistList =>
      respond (Correspondents.ListCorrespondents (p_correspondents p) (recipientScope (recipient command)) since MaxListRows now w)
        (λ '(entries, truncated), formatAllowlist (in_order actor entries) (admin && beq (recipient command) (lit "*")) truncated)
  | commandBlocklistList =>
      match p_senderBlocklist p with
      | None => (inl RepoDisabled, w)
      | Some r => respond (SenderBlocklist.ListSenderBlocks r (recipientScope (recipient command)) MaxListRows now w)
                    (λ '(entries, truncated), formatSenderBlocklist (in_order actor entries) truncated)
      end
  | commandIPList =>
      respond (ip_ListActiveBlocks (p_ip p) (p_ipPolicy p) MaxListRows since now w) (λ '(entries, truncated),
        formatActiveIPBlocks ((λ b, (b, [])) <$> in_order actor entries) false truncated)
  | commandIPListLookup =>
      respond (ip_ListActiveBlocks (p_ip p) (p_ipPolicy p) MaxListRows since now w) (λ '(entries, truncated),
        formatActiveIPBlocks (ResolveActiveIPHostnames lookup (in_order actor entries)) true truncated)
  | commandIPAdd =>
      respond (ip_AddManualBlock (p_ip p) (p_ipPolicy p) (cmd_ip command) now w) (λ block,
        sentence (lit "blocked " ++ addr_string (blk_Address block) ++ lit "; current expiry " ++ expiry_string (blk_ExpiresAt block) ++
                  lit " (delivery attempts may extend it when repeat-block refreshing is enabled)"))
  | commandIPDelete =>
      respond (ip_Delete (p_ipPolicy p) (cmd_ip command) w) (λ removed,
        sentence (if removed : bool then lit "IP reputation record deleted" else lit "IP address was not present"))
  | commandAllowlist => execute_allowlist command now w
  | commandBlocklist =>
      match p_senderBlocklist p with
      | None => (inl RepoDisabled, w)
      | Some r => execute_blocklist r command now w
      end
  | commandUnknown => (inl RepoInvalid, w)
  end.
End Execute.

(** ** Saved messages and the attachment budget *)

Record ReplyAttachmentBudget := MkBudget { remaining : Z; included : list Z; omitted : list Z }.

Definition NewReplyAttachmentBudget (encodedBytes : Z) : ReplyAttachmentBudget := MkBudget (Z.max 0 encodedBytes) [] [].

(** Go's division truncates towards zero. *)
Definition readLimit (b : ReplyAttachmentBudget) : Z := Z.max 0 (Z.quot (remaining b - 1024) 78) * 57.

Definition budget_charge (bytes : Z) : Z := 1024 + Z.max 1 (Z.quot (bytes + 56) 57) * 78.
Definition include (b : ReplyAttachmentBudget) (id bytes : Z) : ReplyAttachmentBudget :=
  MkBudget (remaining b - budget_charge bytes) (id :: included b) (omitted b).

Definition omit (b : ReplyAttachmentBudget) (id : Z) : ReplyAttachmentBudget :=
  if bool_decide (id ∈ omitted b) then b else MkBudget (remaining b) (included b) (omitted b ++ [id]).

Definition OmissionNotice (b : ReplyAttachmentBudget) : gostring :=
  match omitted b with
  | [] => []
  | ids => lit "Saved messages too large to attach within this reply's size limit (rejection IDs): " ++ join (lit ", ") (itoa <$> ids) ++
           lit ". Request these individually; if one still does not fit, retrieve it using command mode." ++ newline ++ newline
  end.

(** Reading the archive: [ErrArchiveTooLarge], [fs.ErrNotExist] or another error,
    or the contents.  The visible body of a saved message is [None] when it
    cannot be parsed; the flag tells whether the archive was truncated. *)
Inductive archive_error := ArchiveTooLarge | ArchiveMissing | ArchiveFailed.
Class MessageSource := {
  ReadWithRecordID : Z -> Z -> Z -> archive_error + gostring;
  archived_visible_body : gostring -> option (gostring * bool);
}.

Record Attachment := MkAttachment { at_Filename : gostring; at_MediaType : gostring; at_Contents : gostring }.
Record Response := MkResponse { Text : gostring; Attachments : list Attachment }.

Section Detail.
Context `{UnicodeTables} `{MessageSource} (maxMessageSize : Z).

Definition truncated_notice : gostring :=
  lit "NOTICE: Saved message was truncated during archiving; some headers or body content may be missing." ++ newline ++ newline.

Definition processed_body (contents : gostring) : gostring :=
  match archived_visible_body contents with
  | None => lit "Saved message is attached, but its body could not be processed."
  | Some (body, truncated) =>
      let body := if beq (trimSpace body) [] then lit "No readable message text was found." else body in
      if truncated : bool then truncated_notice ++ body else body
  end.

Definition detail_read (entry : Rejection) (limit : Z) (budget : option ReplyAttachmentBudget) : Response * option ReplyAttachmentBudget :=
  let text body := formatRejectionDetail entry body in
  let result := match ReadWithRecordID (rn_ID entry) (rn_RejectedAt entry) limit with
                | inr contents => if limit <? go_len contents then inl ArchiveTooLarge else inr contents
                | inl e => inl e
                end in
  match result, budget with
  | inr contents, _ =>
      (MkResponse (text (processed_body contents))
         [MkAttachment (lit "rejection-" ++ itoa (rn_ID entry) ++ lit ".eml") (lit "application/octet-stream") contents],
       (λ b, include b (rn_ID entry) (go_len contents)) <$> budget)
  | inl ArchiveTooLarge, Some b =>
      (MkResponse (text (lit "Saved message omitted because it is too large to attach within this reply's size limit.")) [],
       Some (omit b (rn_ID entry)))
  | inl _, _ => (MkResponse (text (lit "Saved message is not available.")) [], budget)
  end.

(** [budget] is [None] in command mode; [interrupted] is an ended context. *)
Definition rejectionDetail (interrupted : bool) (entry : Rejection) (budget : option ReplyAttachmentBudget)
    : Response * option ReplyAttachmentBudget :=
  let text body := formatRejectionDetail entry body in
  if interrupted then (MkResponse (text (lit "Saved message rendering was interrupted.")) [], budget)
  else
    match budget with
    | Some b =>
        let limit := Z.min maxMessageSize (readLimit b) in
        if bool_decide (rn_ID entry ∈ included b)
        then (MkResponse (text (lit "Saved message already included earlier in this reply.")) [], budget)
        else if limit <=? 0
        then (MkResponse (text (lit "Saved message omitted because the reply attachment budget is exhausted.")) [], Some (omit b (rn_ID entry)))
        else detail_read entry limit budget
    | None => detail_read entry maxMessageSize budget
    end.

(** Rendering of a deferred response. *)
Definition render_response (interrupted : bool) (d : DeferredResponse) (budget : option ReplyAttachmentBudget)
    : Response * option ReplyAttachmentBudget :=
  match d with
  | DText text => (MkResponse text [], budget)
  | DRejection entry => rejectionDetail interrupted entry budget
  end.
End Detail.

(** ** Terminal command mode *)

Inductive line_error := LineInvalid (reason : gostring) | LineFailed (e : repo_error) | LineInterrupted.

(** [ExecuteLine]; the flags tell whether the context has ended before, while and
    after the response is rendered. *)
Definition ExecuteLine `{UnicodeTables, NetMail, NetIPText, FloatSum, FloatText, MessageSource} (p : Processor) (lookup : Addr -> option (list gostring))
    (maxMessageSize : Z) (ended rendering after : bool) (line : gostring) (actor : Actor) (now : Z) (w : World) : (line_error + Response) * World :=
  match Parse (trimSpace line) actor with
  | inl reason => (inl (LineInvalid reason), w)
  | inr command =>
      match Execute p lookup command actor now w with
      | (inl e, w) => (inl (LineFailed e), w)
      | (inr deferred, w) =>
          if ended then (inl LineInterrupted, w)
          else
            let response := fst (render_response maxMessageSize rendering deferred None) in
            (if after then inl LineInterrupted else inr response, w)
      end
  end.
