(* ===== verification/AdminSpec.v ===== *)
(** * Administration commands: authorization and isolation

    What a user who is not an administrator can do with commands: the parser
    confines every accepted command to the user's own address; running it
    changes nothing that belongs to another recipient, and its answer depends
    on nothing that belongs to another recipient.  Also the meaning of the
    totals of the activity report, and what [BLOCKLIST DELETE pattern *]
    removes. *)
From Stdlib Require Import QArith.
From S2P Require Import Prelude GoText Runes NetSafety MailAddr SqlDb IPReputation IPReputationFacts IPAllowlist Calendar Correspondents SenderBlocklist SenderListsFacts SenderListsSpec Rejections RejectionsSpec Activity ActivitySpec AdminCmd AdminFormat AdminExec.
Open Scope Z_scope.
Import NetSafety.

(** ** The parser confines users *)

(** What a command of the user [a] may be. *)
Definition user_command (a : gostring) (c : Command) : Prop :=
  match kind c with
  | commandHelp | commandRejection => True
  | commandRejections | commandAllowlistList | commandBlocklistList | commandAllowlist | commandBlocklist =>
      recipient c = a /\ allRecipients c = false
  | _ => False
  end.

Section Parser.
Context `{UnicodeTables, NetMail, NetIPText}.

Lemma authorizeRecipient_user value auth x : authorizeRecipient value auth false = (x, recipientAuthorized) -> x = auth.
Proof.
  unfold authorizeRecipient. cbn [negb]. case_match; [done|]. cbv zeta. case_match; [done|]. destruct (beq _ auth) eqn:E; [|done].
  intros Hx. simplify_eq/=. by apply beq_true.
Qed.

(** Walks through the conditions of one branch of the parser. *)
Ltac confined :=
  repeat (match goal with
  | |- inl _ = inr _ -> _ => discriminate
  | |- inr _ = inr _ -> _ => let E := fresh in intros E; injection E as <-
  | |- context [match authorizeRecipient ?v ?a false with _ => _ end] =>
      let E := fresh "Ea" in destruct (authorizeRecipient v a false) as [? []] eqn:E;
        [apply authorizeRecipient_user in E; subst| | |]
  | |- context [if ?b then _ else _] => destruct b
  | |- context [match ?x with _ => _ end] => destruct x
  end; cbv iota).

Lemma parse_listing_user fs words auth k name e1 e2 e3 e4 c : (k = commandRejections \/ k = commandAllowlistList) ->
  parse_listing fs words auth false k name e1 e2 e3 e4 = inr c -> user_command auth c.
Proof. unfold parse_listing. intros Hk. confined; destruct Hk as [-> | ->]; done. Qed.

Lemma parse_blocklist_list_user fs auth c : parse_blocklist_list fs auth false = inr c -> user_command auth c.
Proof. unfold parse_blocklist_list. cbv zeta. confined; done. Qed.
Lemma parse_blocklist_user fs auth commandMode c : parse_blocklist fs auth false commandMode = inr c -> user_command auth c.
Proof. unfold parse_blocklist. cbv zeta. cbn [negb]. confined; done. Qed.
Lemma parse_allowlist_user fs auth c : parse_allowlist fs auth false = inr c -> user_command auth c.
Proof. unfold parse_allowlist. cbv zeta. confined; done. Qed.
Lemma parse_rejection_user fs auth c : parse_rejection fs = inr c -> user_command auth c.
Proof. unfold parse_rejection. confined; done. Qed.

Lemma parse_user text auth commandMode c : parse text auth false commandMode = inr c -> user_command auth c.
Proof.
  unfold parse. cbv zeta. case_match; [intros E; by injection E as <-|]. case_match; [done|].
  case_match; [apply parse_rejection_user|]. case_match; [done|].
  case_match; [apply parse_listing_user; by left|]. case_match; [apply parse_blocklist_list_user|].
  case_match; [apply parse_blocklist_user|]. case_match; [apply parse_listing_user; by right|]. apply parse_allowlist_user.
Qed.

(** a command that the parser accepts from someone who is not an administrator
    is HELP, the detail of one rejection, or a listing or change that names the
    actor's own address as its recipient: no wildcard, no ALL, nobody else's
    address, no activity report and no IP command. *)
Theorem user_commands_confined (line : gostring) (actor : Actor) (c : Command) :
  Administrator actor = false -> Parse line actor = inr c ->
  user_command (normalizeRecipient (DefaultRecipient actor)) c.
Proof. unfold Parse. intros -> Hp. by eapply parse_user. Qed.
End Parser.

Lemma user_commands_confined_witness :
  let actor := MkActor false false (lit "bob@example.com") false in
  exists c, @Parse basic_tables simple_mail raw_text (lit "blocklist add *@Spam.example") actor = inr c /\
    canonical c = lit "BLOCKLIST ADD *@spam.example bob@example.com" /\ recipient c = lit "bob@example.com".
Proof.
  intros actor. destruct (@Parse basic_tables simple_mail raw_text (lit "blocklist add *@Spam.example") actor) as [e|c] eqn:E;
    [vm_compute in E; discriminate|].
  exists c. split; [done|]. pose proof (@user_commands_confined basic_tables simple_mail raw_text _ actor c eq_refl E) as Hu.
  assert (Ek : kind c = commandBlocklist /\ canonical c = lit "BLOCKLIST ADD *@spam.example bob@example.com").
  { assert (Ec : inr c = @Parse basic_tables simple_mail raw_text (lit "blocklist add *@Spam.example") actor) by done.
    vm_compute in Ec. injection Ec as ->. split; reflexivity. }
  destruct Ek as [Ek Ec]. split; [done|]. unfold user_command in Hu. rewrite Ek in Hu. destruct Hu as [-> _]. vm_compute. reflexivity.
Defined.

(** ** Changes stay with their recipient *)

Definition own_corr (a : gostring) (c : corr_row) : bool := beq (co_local_address c) a.
Definition own_block (a : gostring) (b : sblock_row) : bool := beq (sb_recipient b) a.
(** The database without the rows of [a] in the two sender tables. *)
Definition others (a : gostring) (d : Db) : Db :=
  set_correspondents (List.filter (λ c, negb (own_corr a c)) (correspondents d))
    (set_sender_blocklist (List.filter (λ b, negb (own_block a b)) (sender_blocklist d)) d).

Section Tables.
Context {A : Type} (own : A -> bool).
Implicit Types (rows : list A) (p : A -> bool).

Lemma others_delete p rows : (forall r, p r = true -> own r = true) ->
  List.filter (λ r, negb (own r)) (delete_where p rows) = List.filter (λ r, negb (own r)) rows.
Proof.
  intros Hp. unfold delete_where. rewrite filter_filter. apply filter_ext_elem. intros r _.
  destruct (p r) eqn:E; cbn; [by rewrite Hp|done].
Qed.
Lemma others_update p f rows : (forall r, p r = true -> own r = true) -> (forall r, own (f r) = own r) ->
  List.filter (λ r, negb (own r)) (update_where p f rows) = List.filter (λ r, negb (own r)) rows.
Proof.
  intros Hp Hf. unfold update_where. induction rows as [|r rows IH]; [done|]. cbn [fmap list_fmap List.filter].
  destruct (p r) eqn:E; [rewrite Hf, (Hp r E); cbn; exact IH|]. destruct (own r); cbn; [exact IH|by f_equal].
Qed.
Lemma others_append r rows : own r = true -> List.filter (λ r, negb (own r)) (rows ++ [r]) = List.filter (λ r, negb (own r)) rows.
Proof. intros Hr. rewrite List.filter_app. cbn. by rewrite Hr, app_nil_r. Qed.
End Tables.

Lemma others_corr a d d' : List.filter (λ c, negb (own_corr a c)) (correspondents d') = List.filter (λ c, negb (own_corr a c)) (correspondents d) ->
  set_correspondents [] d' = set_correspondents [] d -> others a d' = others a d.
Proof.
  intros H1 H2. unfold others. rewrite H1. destruct d, d'. unfold set_correspondents in H2. cbn in H2.
  injection H2 as -> -> -> -> -> -> -> -> -> ->. reflexivity.
Qed.

Section Confined.
Context `{UnicodeTables, NetMail, NetIPText, FloatSum, FloatText}.
Context (a : gostring) (Hmailbox : canonical_mailbox a).
#[local] Set Default Proof Using "All".

Lemma own_normal : Normalize a = a.
Proof. apply Hmailbox. Qed.
Lemma own_nonempty : a <> [].
Proof. apply Hmailbox. Qed.
Lemma own_trim : trimSpace a = a.
Proof. apply Hmailbox. Qed.
Lemma own_not_star : beq a (lit "*") = false.
Proof.
  destruct (beq a (lit "*")) eqn:E; [|done]. apply beq_true in E. apply (f_equal (λ s, "@"%char ∈ s)) in E.
  assert (Hin : "@"%char ∈ a) by (by apply canonical_at). rewrite E in Hin. cbn in Hin. set_solver.
Qed.

Lemma manual_body_others sender now d : others a (Correspondents.manual_body sender a now d).2 = others a d.
Proof.
  unfold Correspondents.manual_body. cbv zeta. cbn [snd].
  assert (Hd : others a (deleteExactSenderBlocksTx a [sender] d) = others a d).
  { unfold deleteExactSenderBlocksTx, others. cbn [correspondents sender_blocklist set_sender_blocklist set_correspondents].
    rewrite (others_delete (own_block a)); [done|]. intros b Hb. unfold exact_block_of in Hb.
    by apply andb_true_iff in Hb as [[? _]%andb_true_iff _]. }
  rewrite <- Hd. set (d1 := deleteExactSenderBlocksTx a [sender] d). apply others_corr; [|done]. cbn [correspondents set_correspondents].
  case_match; [apply others_update|by apply others_append, beq_true].
  - intros c Hc. unfold relation in Hc. by apply andb_true_iff in Hc as [? _].
  - done.
Qed.

Lemma delete_corr_others p d : (forall c, p c = true -> own_corr a c = true) ->
  others a (set_correspondents (delete_where p (correspondents d)) d) = others a d.
Proof. intros Hp. apply others_corr; [|done]. cbn [correspondents set_correspondents]. by apply others_delete. Qed.
Lemma delete_block_others p d : (forall b, p b = true -> own_block a b = true) ->
  others a (set_sender_blocklist (delete_where p (sender_blocklist d)) d) = others a d.
Proof. intros Hp. unfold others. cbn [correspondents sender_blocklist set_sender_blocklist]. by rewrite (others_delete (own_block a)). Qed.

Lemma add_block_others k value t d : others a (SenderBlocklist.add_body a k value t d).2 = others a d.
Proof.
  unfold SenderBlocklist.add_body. cbv zeta. set (d1 := if bool_decide (k = SenderBlockExactMailbox) then _ else _).
  assert (Hd : others a d1 = others a d).
  { subst d1. case_bool_decide; [|done]. apply delete_corr_others. intros c Hc. unfold contradicted in Hc. rewrite own_not_star in Hc.
    by apply andb_true_iff in Hc as [_ ?]. }
  rewrite <- Hd. destruct (List.find _ _); cbn [snd]; unfold others; cbn [correspondents sender_blocklist set_sender_blocklist].
  - rewrite (others_update (own_block a)); [done| |done]. intros b Hb. unfold same_block in Hb. by apply andb_true_iff in Hb as [[? _]%andb_true_iff _].
  - rewrite (others_append (own_block a)); [done|]. by apply beq_true.
Qed.

Definition kept (w w' : World) : Prop := others a (wdb w') = others a (wdb w).

Lemma lift_kept {R} (f : Db -> R * Db) w : (forall d, others a (f d).2 = others a d) -> kept w (lift_db (retry busyRetries f w)).2.
Proof.
  intros Hf. unfold kept. apply (lift_db_preserves (λ d, others a d = others a (wdb w))); [|done]. intros d Hd. by rewrite Hf.
Qed.
Lemma respond_kept {R} (x : (repo_error + R) * World) w f : kept w x.2 -> kept w (respond x f).2.
Proof. unfold respond, and_then. by destruct x as [[e|y] w']. Qed.

Lemma AddManual_kept r sender now w : kept w (Correspondents.AddManual r sender a now w).2.
Proof.
  unfold Correspondents.AddManual. cbv zeta. rewrite own_normal. case_match; [done|]. case_match; [done|].
  apply lift_kept. intros d. apply manual_body_others.
Qed.
Lemma DeleteCorrespondent_kept r sender w : kept w (Correspondents.DeleteCorrespondent r sender (MkRecipientScope false a) w).2.
Proof.
  unfold Correspondents.DeleteCorrespondent. cbv zeta. cbn [rs_All rs_Address]. rewrite own_normal. repeat (case_match; [done|]).
  apply lift_kept. intros d. cbn [snd]. apply delete_corr_others. intros c Hc. cbn [orb] in Hc. by apply andb_true_iff in Hc as [_ ?].
Qed.

Lemma AddSenderBlock_kept r k value now w : kept w (SenderBlocklist.AddSenderBlock r a k value now w).2.
Proof.
  unfold SenderBlocklist.AddSenderBlock. case_match; [done|]. destruct (SenderBlocklist.normalizeSenderBlock a k value) as [[[rcpt k'] v]|] eqn:E; [|done].
  assert (rcpt = a) as ->.
  { unfold SenderBlocklist.normalizeSenderBlock in E. cbv zeta in E. unfold star in E. rewrite own_trim, own_not_star, own_normal in E.
    repeat case_match; by simplify_eq. }
  cbv zeta. pose proof (lift_kept (SenderBlocklist.add_body a k' v (unixMillis (now + BlockExpiry r))) w (add_block_others k' v _)) as Hk.
  unfold withTx. unfold lift_db in Hk. by destruct (retry busyRetries _ w) as [[e|[created id]] w'].
Qed.
Lemma DeleteSenderBlocks_kept r k value w : kept w (SenderBlocklist.DeleteSenderBlocks r k value (MkRecipientScope false a) w).2.
Proof.
  unfold SenderBlocklist.DeleteSenderBlocks. cbn [rs_All rs_Address]. do 2 (case_match; [done|]).
  destruct (SenderBlocklist.normalizeSenderBlock star k value) as [[[rcpt k'] v]|]; [|done]. cbv zeta. unfold star. rewrite own_trim, own_not_star, own_normal.
  case_match; [done|]. apply lift_kept. intros d. cbn [snd]. apply delete_block_others. intros b Hb. cbn [orb] in Hb.
  by apply andb_true_iff in Hb as [_ ?].
Qed.

Lemma query_kept {R} (f : Db -> R) w : kept w (query f w).2.
Proof. unfold kept. by rewrite query_wdb. Qed.

Context (proc : Processor) (lookup : Addr -> option (list gostring)).

Lemma own_scope : recipientScope a = MkRecipientScope false a.
Proof. unfold recipientScope. by rewrite own_not_star. Qed.

(** Running a query and shaping its result keeps everything. *)
Ltac query_only := repeat match goal with
  | |- kept ?w (respond _ _).2 => apply respond_kept
  | |- kept ?w (if ?b then _ else _).2 => destruct b
  | |- kept ?w (match query ?f ?w with _ => _ end).2 => let Hq := fresh in pose proof (query_kept f w) as Hq; destruct (query f w) as [[?|?] ?]
  | |- kept ?w (match ?x with _ => _ end).2 => destruct x
  | |- _ => done
  end.

Lemma Execute_kept c actor now w : user_command a c -> kept w (Execute proc lookup c actor now w).2.
Proof.
  intros Hu. unfold user_command in Hu. unfold Execute. cbv zeta. destruct (kind c); try (exfalso; exact Hu); try (destruct Hu as [Hr Hall]; rewrite ?Hr, ?own_scope).
  - reflexivity.
  - unfold Rejections.ListRejections. cbv zeta. query_only.
  - unfold and_then, Rejections.RejectionByID. cbv zeta. set (scope := if Administrator actor then _ else _).
    repeat match goal with |- context [if ?b then _ else _] => destruct b; [done|] end.
    match goal with |- context [query ?f w] => pose proof (query_kept f w) as Hq; destruct (query f w) as [[?|?] ?] end; exact Hq.
  - unfold Correspondents.ListCorrespondents. cbv zeta. query_only.
  - unfold execute_allowlist. rewrite Hr. case_match; apply respond_kept; [apply AddManual_kept|]. rewrite own_scope. apply DeleteCorrespondent_kept.
  - destruct (p_senderBlocklist proc); [|done]. unfold SenderBlocklist.ListSenderBlocks. cbv zeta. query_only.
  - destruct (p_senderBlocklist proc) as [r|]; [|done]. unfold execute_blocklist. cbv zeta. rewrite Hr, Hall. case_match; apply respond_kept; [apply AddSenderBlock_kept|].
    rewrite own_scope. apply DeleteSenderBlocks_kept.
Qed.

(** ** Answers come from the recipient's own rows *)

(** What two databases must share for the user: its rows. *)
Record same_own (d1 d2 : Db) : Prop := SameOwn {
  so_corr : List.filter (own_corr a) (correspondents d1) = List.filter (own_corr a) (correspondents d2);
  so_block : List.filter (own_block a) (sender_blocklist d1) = List.filter (own_block a) (sender_blocklist d2);
  so_rej : List.filter (shows (Some a) d1) (rejections d1) = List.filter (shows (Some a) d2) (rejections d2);
  so_wf : rej_wf d1 /\ rej_wf d2;
}.

Context (d1 d2 : Db) (Hown : same_own d1 d2) (schedule : list attempt).
#[local] Abbreviation w1 := (MkWorld d1 schedule).
#[local] Abbreviation w2 := (MkWorld d2 schedule).

(** Results that agree up to [g]. *)
Definition agree {R S} (g : R -> S) (x y : (repo_error + R) * World) : Prop :=
  match x.1, y.1 with inl e, inl e' => e = e' | inr r, inr r' => g r = g r' | _, _ => False end.

Lemma retry_agree {R S} (g : R -> S) n (f : Db -> R * Db) sch : g (f d1).1 = g (f d2).1 ->
  match (retry n f (MkWorld d1 sch)).1, (retry n f (MkWorld d2 sch)).1 with
  | inl e, inl e' => e = e' | inr r, inr r' => g r = g r' | _, _ => False end.
Proof.
  intros Hg. revert sch. induction n as [|n IH]; intros [|[] sch]; cbn [retry next_attempt wschedule wdb];
    try (destruct (f d1), (f d2); exact Hg); try done.
  apply IH.
Qed.
Lemma lift_agree {R S} (g : R -> S) (f : Db -> R * Db) : g (f d1).1 = g (f d2).1 ->
  agree g (lift_db (retry busyRetries f w1)) (lift_db (retry busyRetries f w2)).
Proof.
  intros Hg. pose proof (retry_agree g busyRetries f schedule Hg) as Hr. unfold agree, lift_db.
  destruct (retry busyRetries f w1) as [[e|x] w], (retry busyRetries f w2) as [[e'|y] w']; cbn in *; try done. by subst.
Qed.
Lemma query_agree {R S} (g : R -> S) (f : Db -> R) : g (f d1) = g (f d2) ->
  match (query f w1).1, (query f w2).1 with inl e, inl e' => e = e' | inr r, inr r' => g r = g r' | _, _ => False end.
Proof. intros Hg. by apply (retry_agree g busyRetries (λ d, (f d, d))). Qed.
Lemma respond_agree {R S} (g : R -> S) x y f f' : agree g x y -> (forall r r', g r = g r' -> f r = f' r') ->
  (respond x f).1 = (respond y f').1.
Proof.
  intros Ha Hf. unfold agree in Ha. unfold respond, and_then. destruct x as [[e|r] w], y as [[e'|r'] w']; cbn in *; try done; [by subst|].
  by rewrite (Hf r r').
Qed.

Lemma respond_same {R} (x y : (repo_error + R) * World) f : agree id x y -> (respond x f).1 = (respond y f).1.
Proof. intros Ha. apply (respond_agree id x y f f Ha). unfold id. by intros r r' ->. Qed.

Lemma filter_own {A} (own p : A -> bool) l l' : (forall r, p r = true -> own r = true) -> List.filter own l = List.filter own l' ->
  List.filter p l = List.filter p l'.
Proof.
  intros Hp Hl. assert (Hf : forall k, List.filter p k = List.filter p (List.filter own k)).
  { intros k. rewrite filter_filter. apply filter_ext_elem. intros r _. destruct (p r) eqn:E; [by rewrite Hp|by rewrite andb_false_r]. }
  rewrite (Hf l), (Hf l'). by rewrite Hl.
Qed.
Lemma count_own {A} (own p : A -> bool) l l' : (forall r, p r = true -> own r = true) -> List.filter own l = List.filter own l' ->
  count_where p l = count_where p l'.
Proof. intros Hp Hl. unfold count_where. by rewrite (filter_own own p l l'). Qed.
Lemma existsb_filter {A} (p : A -> bool) l : existsb p l = negb (bool_decide (List.filter p l = [])).
Proof. induction l as [|x l IH]; [done|]. cbn. destruct (p x); [done|]. exact IH. Qed.
Lemma find_filter {A} (p : A -> bool) l : List.find p l = head (List.filter p l).
Proof. induction l as [|x l IH]; [done|]. cbn. by destruct (p x). Qed.

(** Rewrites the two sides of an [if] on the same test. *)
Lemma own_relation sender c : relation a sender c = true -> own_corr a c = true.
Proof. unfold relation. by intros [? _]%andb_true_iff. Qed.
Lemma own_same k v b : same_block a k v b = true -> own_block a b = true.
Proof. unfold same_block. by intros [[? _]%andb_true_iff _]%andb_true_iff. Qed.

Lemma AddManual_agree r sender now : agree id (Correspondents.AddManual r sender a now w1) (Correspondents.AddManual r sender a now w2).
Proof.
  unfold Correspondents.AddManual. cbv zeta. rewrite own_normal. case_match; [done|]. case_match; [done|]. apply lift_agree.
  unfold Correspondents.manual_body, deleteExactSenderBlocksTx. cbn [fst correspondents set_sender_blocklist]. unfold id. f_equal.
  rewrite !existsb_filter. do 2 f_equal. by rewrite (filter_own (own_corr a) _ _ (correspondents d2) (own_relation _) (so_corr _ _ Hown)).
Qed.
Lemma DeleteCorrespondent_agree r sender :
  agree id (Correspondents.DeleteCorrespondent r sender (MkRecipientScope false a) w1) (Correspondents.DeleteCorrespondent r sender (MkRecipientScope false a) w2).
Proof.
  unfold Correspondents.DeleteCorrespondent. cbv zeta. cbn [rs_All rs_Address]. rewrite own_normal. repeat (case_match; [done|]).
  apply lift_agree. cbn [fst]. unfold id. apply (count_own (own_corr a)); [|apply Hown]. intros c Hc. cbn [orb] in Hc. by apply andb_true_iff in Hc as [_ ?].
Qed.
Lemma ListCorrespondents_agree r since limit now :
  agree id (Correspondents.ListCorrespondents r (MkRecipientScope false a) since limit now w1)
           (Correspondents.ListCorrespondents r (MkRecipientScope false a) since limit now w2).
Proof.
  unfold Correspondents.ListCorrespondents. cbv zeta. cbn [rs_All rs_Address]. rewrite own_normal. repeat (case_match; [done|]).
  match goal with |- agree _ (match query ?f _ with _ => _ end) _ => assert (Ef : f d1 = f d2); [|pose proof (query_agree id f Ef) as Hq;
    destruct (query f w1) as [[e|x] w], (query f w2) as [[e'|y] w']; cbn in Hq; try done; unfold agree, id in *; cbn; by subst] end.
  f_equal. f_equal. apply (filter_own (own_corr a)); [|apply Hown]. intros c Hc. cbn [orb] in Hc. by apply andb_true_iff in Hc as [_ ?].
Qed.
Lemma AddSenderBlock_agree r k value now :
  agree (λ x : bool * SenderBlockEntry, (x.1, se_ExpiresAt x.2)) (SenderBlocklist.AddSenderBlock r a k value now w1) (SenderBlocklist.AddSenderBlock r a k value now w2).
Proof.
  unfold SenderBlocklist.AddSenderBlock. case_match; [done|]. destruct (SenderBlocklist.normalizeSenderBlock a k value) as [[[rcpt k'] v]|] eqn:E; [|done].
  assert (rcpt = a) as ->.
  { unfold SenderBlocklist.normalizeSenderBlock in E. cbv zeta in E. unfold star in E. rewrite own_trim, own_not_star, own_normal in E.
    repeat case_match; by simplify_eq. }
  cbv zeta. set (f := SenderBlocklist.add_body a k' v (unixMillis (now + BlockExpiry r))).
  assert (Ef : (f d1).1.1 = (f d2).1.1).
  { unfold f, SenderBlocklist.add_body. cbv zeta.
    assert (Es : forall d, sender_blocklist (if bool_decide (k' = SenderBlockExactMailbox) then deleteCorrespondentsForExactBlockTx a v d else d) = sender_blocklist d)
      by (intros d; by destruct (bool_decide (k' = SenderBlockExactMailbox))).
    rewrite !Es, !find_filter. rewrite (filter_own (own_block a) _ _ (sender_blocklist d2) (own_same _ _) (so_block _ _ Hown)). by destruct (head _). }
  pose proof (retry_agree fst busyRetries f schedule Ef) as Hr. unfold withTx. fold f.
  destruct (retry busyRetries f w1) as [[e|[c1 i1]] w], (retry busyRetries f w2) as [[e'|[c2 i2]] w']; cbn in Hr; try done; unfold agree; cbn; by subst.
Qed.
Lemma DeleteSenderBlocks_agree r k value :
  agree id (SenderBlocklist.DeleteSenderBlocks r k value (MkRecipientScope false a) w1) (SenderBlocklist.DeleteSenderBlocks r k value (MkRecipientScope false a) w2).
Proof.
  unfold SenderBlocklist.DeleteSenderBlocks. cbn [rs_All rs_Address]. do 2 (case_match; [done|]).
  destruct (SenderBlocklist.normalizeSenderBlock star k value) as [[[rcpt k'] v]|]; [|done]. cbv zeta. unfold star. rewrite own_trim, own_not_star, own_normal.
  case_match; [done|]. apply lift_agree. cbn [fst]. unfold id. apply (count_own (own_block a)); [|apply Hown].
  intros b Hb. cbn [orb] in Hb. by apply andb_true_iff in Hb as [_ ?].
Qed.
Lemma ListSenderBlocks_agree r limit now :
  agree id (SenderBlocklist.ListSenderBlocks r (MkRecipientScope false a) limit now w1) (SenderBlocklist.ListSenderBlocks r (MkRecipientScope false a) limit now w2).
Proof.
  unfold SenderBlocklist.ListSenderBlocks. cbv zeta. cbn [rs_All rs_Address]. rewrite own_normal. repeat (case_match; [done|]).
  match goal with |- agree _ (match query ?f _ with _ => _ end) _ => assert (Ef : f d1 = f d2); [|pose proof (query_agree id f Ef) as Hq;
    destruct (query f w1) as [[e|x] w], (query f w2) as [[e'|y] w']; cbn in Hq; try done; unfold agree, id in *; cbn; by subst] end.
  f_equal. f_equal. apply (filter_own (own_block a)); [|apply Hown]. intros b Hb. cbn [orb] in Hb. by apply andb_true_iff in Hb as [_ ?].
Qed.

Lemma own_listing cutoff : listing (Some a) cutoff d1 = listing (Some a) cutoff d2.
Proof. destruct (so_wf _ _ Hown) as [Hw1 Hw2]. rewrite !listing_own by done. by rewrite (so_rej _ _ Hown). Qed.

Lemma ListRejections_agree r since limit now :
  agree id (Rejections.ListRejections r (MkRejectionListQuery (MkRecipientScope false a) since limit) now w1)
           (Rejections.ListRejections r (MkRejectionListQuery (MkRecipientScope false a) since limit) now w2).
Proof.
  destruct (so_wf _ _ Hown) as [Hw1 Hw2].
  unfold Rejections.ListRejections. cbv zeta. cbn [rq_Recipients rq_RejectedSince rq_Limit rs_All rs_Address negb]. rewrite own_normal. repeat (case_match; [done|]).
  set (cut := unixMillis _). pose proof (query_agree (fmap (Rejections.scoped_entry a)) (Rejections.scoped_rows a cut (limit + 1))) as Hq.
  rewrite !listing_scoped, own_listing in Hq by done. specialize (Hq eq_refl).
  destruct (query (Rejections.scoped_rows a cut (limit + 1)) w1) as [[e|x] w], (query (Rejections.scoped_rows a cut (limit + 1)) w2) as [[e'|y] w']; cbn in Hq; try done;
    unfold agree, id; cbn; [by subst|]. unfold rejectionPage. by rewrite Hq.
Qed.
Lemma RejectionByID_agree r id now :
  agree (λ x, x) (Rejections.RejectionByID r id (MkRecipientScope false a) now w1) (Rejections.RejectionByID r id (MkRecipientScope false a) now w2).
Proof.
  destruct (so_wf _ _ Hown) as [Hw1 Hw2].
  unfold Rejections.RejectionByID. cbv zeta. cbn [rs_All rs_Address]. rewrite own_normal. repeat (case_match; [done|]).
  set (cut := unixMillis _). pose proof (query_agree (λ rows, head (scanGroupedRejections rows)) (Rejections.by_id_rows id cut (Some a))) as Hq.
  cbv beta in Hq. rewrite !by_id_listing, own_listing in Hq by done. specialize (Hq eq_refl).
  destruct (query (Rejections.by_id_rows id cut (Some a)) w1) as [[e|x] w], (query (Rejections.by_id_rows id cut (Some a)) w2) as [[e'|y] w']; cbn in Hq; try done;
    unfold agree; cbn; by subst.
Qed.

Lemma Execute_agree c actor now : Administrator actor = false -> normalizeRecipient (DefaultRecipient actor) = a -> user_command a c ->
  (Execute proc lookup c actor now w1).1 = (Execute proc lookup c actor now w2).1.
Proof.
  intros Hadmin Hdef Hu. unfold user_command in Hu. unfold Execute. cbv zeta.
  destruct (kind c) eqn:Ek; try (exfalso; exact Hu); try (destruct Hu as [Hr Hall]; rewrite ?Hr, ?own_scope).
  - reflexivity.
  - apply respond_same, ListRejections_agree.
  - rewrite Hadmin, Hdef. pose proof (RejectionByID_agree (p_rejections proc) (rejectionID c) now) as Ha. unfold agree in Ha. unfold and_then.
    destruct (Rejections.RejectionByID _ _ _ _ w1) as [[e|x] w], (Rejections.RejectionByID _ _ _ _ w2) as [[e'|y] w']; cbn in *; try done; by subst.
  - apply respond_same, ListCorrespondents_agree.
  - unfold execute_allowlist. rewrite Hr, own_scope. case_match.
    + apply respond_same, AddManual_agree.
    + apply respond_same, DeleteCorrespondent_agree.
  - destruct (p_senderBlocklist proc); [|done]. apply respond_same, ListSenderBlocks_agree.
  - destruct (p_senderBlocklist proc) as [r|]; [|done]. unfold execute_blocklist. cbv zeta. rewrite Hr, Hall, own_scope. case_match.
    + apply (respond_agree _ _ _ _ _ (AddSenderBlock_agree _ _ _ _)). intros [c1 s1] [c2 s2] E. cbn in E. injection E as -> E. cbn. by rewrite E.
    + apply respond_same, DeleteSenderBlocks_agree.
Qed.
End Confined.

Section Isolation.
Context `{UnicodeTables, NetMail, NetIPText, FloatSum, FloatText} (proc : Processor) (lookup : Addr -> option (list gostring)).

(** C36: a command of a user who is not an administrator changes nothing but that
    user's own rows of the allowlist and the blocklist, whatever the line and
    whatever happens in the database: the rows of every other recipient, the
    server-wide blocks, IP reputation, rejection history, activity and all other
    tables are the same afterwards.  The user's mailbox must be one that
    normalizing again leaves alone, which every lower-case dot-atom mailbox is
    ([canonical_stable]); the stores normalize it once more, and a local part
    with quotes can become another mailbox ([quoted_user_changes_another]). *)
Theorem user_command_changes_own (user line : gostring) (actor : Actor) (c : Command) (now : Z) (w : World) :
  canonical_mailbox user -> Administrator actor = false ->
  normalizeRecipient (DefaultRecipient actor) = user -> Parse line actor = inr c ->
  others user (wdb (Execute proc lookup c actor now w).2) = others user (wdb w).
Proof.
  intros Hm Ha Hd Hp. unfold Parse in Hp. rewrite Ha, Hd in Hp. apply parse_user in Hp.
  pose proof (Execute_kept user Hm proc lookup c actor now w Hp) as Hk. unfold kept in Hk. exact Hk.
Qed.

(** C35: the answer to such a command depends on nothing but the user's own rows:
    over any two databases that hold the same allowlist and blocklist entries of
    the user and the same rejections sent to it, whose rejection tables are well
    formed ([rej_wf], an invariant of the repository), under the same database
    faults, the command gets the same answer.  As above, the user's mailbox must
    be one that normalizing again leaves alone. *)
Theorem user_command_reads_own (user line : gostring) (actor : Actor) (c : Command) (now : Z) (d1 d2 : Db) (schedule : list attempt) :
  canonical_mailbox user -> Administrator actor = false ->
  normalizeRecipient (DefaultRecipient actor) = user -> Parse line actor = inr c ->
  same_own user d1 d2 ->
  (Execute proc lookup c actor now (MkWorld d1 schedule)).1 = (Execute proc lookup c actor now (MkWorld d2 schedule)).1.
Proof.
  intros Hm Ha Hd Hp Ho. pose proof Hp as Hu. unfold Parse in Hu. rewrite Ha, Hd in Hu. apply parse_user in Hu.
  exact (Execute_agree user Hm proc lookup d1 d2 Ho schedule c actor now Ha Hd Hu).
Qed.

(** BLOCKLIST DELETE with the recipient [*], which the help text describes as
    the server-wide entry, removes the sender's entries of every recipient, like
    DELETE with ALL: no entry for that sender is left for anybody. *)
Theorem blocklist_delete_star_deletes_all (r : SenderBlocklistOptions) (c : Command) (actor : Actor) (now : Z) (w w' : World) (answer : DeferredResponse)
    (k : SenderBlockKind) (value : gostring) :
  p_senderBlocklist proc = Some r -> kind c = commandBlocklist -> verb c = lit "DELETE" -> recipient c = lit "*" -> allRecipients c = false ->
  SenderBlocklist.normalizeSenderBlock star (senderKind c) (sender c) = Some (star, k, value) ->
  Execute proc lookup c actor now w = (inr answer, w') ->
  sender_blocklist (wdb w') = delete_where (λ b, bool_decide (sb_sender_kind b = k) && beq (sb_sender_value b) value) (sender_blocklist (wdb w)).
Proof.
  intros Hr Hk Hv Hrc Hall Hn He. unfold Execute in He. rewrite Hk, Hr in He. unfold execute_blocklist in He. rewrite Hv, Hrc, Hall in He.
  change (beq (lit "DELETE") (lit "ADD")) with false in He. cbv iota zeta in He. change (recipientScope (lit "*")) with (MkRecipientScope true []) in He.
  unfold respond, and_then, SenderBlocklist.DeleteSenderBlocks in He. rewrite Hn in He.
  destruct (negb (SenderBlocklist.available r)); [done|]. destruct (negb (Validate _)); [done|]. cbn [rs_All rs_Address negb andb orb] in He. cbv zeta in He.
  destruct (lift_db (exec _ w)) as [[e|n] w1] eqn:E; simplify_eq. unfold exec in E. apply lift_db_ok in E. injection E as _ E. rewrite <- E.
  cbn [sender_blocklist set_sender_blocklist]. unfold delete_where. apply filter_ext_elem. intros b _. by rewrite andb_true_r.
Qed.
End Isolation.

(** ** The totals of the activity report *)

(** What a row counts for among the rejected and the accepted messages. *)
Definition rejected_weight (r : act_row) : Z :=
  if outcome_is (ac_outcome r) ActivityOutcomeRejected then
    if event_is (ac_event_type r) ActivityEventSenderBlocklist then ac_quantity r else 1
  else 0.
Definition accepted_weight (r : act_row) : Z :=
  if outcome_is (ac_outcome r) ActivityOutcomeAccepted && negb (event_is (ac_event_type r) ActivityEventSenderBlocklist) then 1 else 0.
Definition sum_of (f : act_row -> Z) (rows : list act_row) : Z := foldr Z.add 0 (f <$> rows).

Lemma count_where_cons {A} (p : A -> bool) r rows : count_where p (r :: rows) = (if p r then 1 else 0) + count_where p rows.
Proof. unfold count_where. cbn [List.filter]. destruct (p r); cbn [length]; lia. Qed.
Lemma sum_quantity_cons p r rows : Activity.sum_quantity p (r :: rows) = (if p r then ac_quantity r else 0) + Activity.sum_quantity p rows.
Proof. unfold Activity.sum_quantity. cbn [List.filter]. by destruct (p r). Qed.

(** Evaluates comparisons of literal events and outcomes. *)
Ltac eval_events :=
  repeat match goal with
  | |- context [event_is ?x ?y] => is_ground x; is_ground y; let b := eval vm_compute in (event_is x y) in change (event_is x y) with b
  | |- context [outcome_is ?x ?y] => is_ground x; is_ground y; let b := eval vm_compute in (outcome_is x y) in change (outcome_is x y) with b
  end.

Lemma report_totals_rows `{FloatSum} rows : Forall act_row_ok rows ->
  totalRejected (Activity.summarize rows) = sum_of rejected_weight rows /\ totalAccepted (Activity.summarize rows) = sum_of accepted_weight rows.
Proof.
  induction 1 as [|r rows Hr _ [IH1 IH2]]; [done|]. unfold totalRejected, totalAccepted, Activity.summarize in *.
  cbn [ScanRejections IPRejections AttachmentRejections ProtectedSenderDomainRejections SenderBlocklistRejections HTMLLimitRejections HTMLDoSRejections
    IncompleteInspectionRejections ScanAccepted CorrespondentAccepts TrustedDomainAccepts HTMLLimitAccepted HTMLDoSAccepted IncompleteInspectionAccepted] in *.
  rewrite !count_where_cons, !sum_quantity_cons. unfold sum_of in *. cbn [fmap list_fmap foldr]. rewrite <- IH1, <- IH2. clear IH1 IH2.
  pose proof (aro_valid r Hr) as Hv. unfold rejected_weight, accepted_weight, Activity.is_event.
  repeat match goal with |- context [count_where ?p rows] => generalize (count_where p rows); intros ? end.
  repeat match goal with |- context [Activity.sum_quantity ?p rows] => generalize (Activity.sum_quantity p rows); intros ? end.
  unfold allowed_events in Hv. rewrite !elem_of_cons, elem_of_nil in Hv. destruct (ac_event_type r, ac_outcome r) as [t o] eqn:Eto. injection Eto as -> ->.
  repeat destruct Hv as [Hv|Hv]; try done; injection Hv as -> ->; eval_events; cbn [andb negb]; split; lia.
Qed.

(** the two totals of the activity report count every recorded decision of its
    period exactly once: each rejected event once, recipients refused by the
    blocklist one by one, and each accepted event once, except that recipients
    removed by the blocklist count as neither. *)
Theorem activity_report_totals `{FloatSum} (expiry now : Z) (since before : option Z) (w w' : World) (s : ActivitySummary) :
  act_wf (wdb w) -> Activity.ActivitySummary_ expiry since before now w = (inr s, w') ->
  let rows := List.filter (Activity.in_window (Activity.summary_window expiry since before now).1 (Activity.summary_window expiry since before now).2)
                (activity (wdb w)) in
  totalRejected s = sum_of rejected_weight rows /\ totalAccepted s = sum_of accepted_weight rows.
Proof.
  intros Hw Hs rows. unfold Activity.ActivitySummary_ in Hs. case_match; [done|].
  destruct (Activity.summary_window expiry since before now) as [s0 b0]. apply (lift_db_ok (λ d, (_ d, d))) in Hs. injection Hs as <- _.
  apply report_totals_rows. subst rows. eapply sublist_Forall; [apply filter_sublist|apply Hw].
Qed.

(** ** Concrete commands *)

Definition sample_processor : Processor :=
  MkProcessor (MkCorrespondentOptions true true true CorrespondentScopePerSender 100 0 1 3 false) sample_rejection_options
    (MkIPReputationOptions 0 0 0 0 false 1 100) (MkIPReputationStore false [] [] [])
    (Some (MkSenderBlocklistOptions (1000 * minute) 100)) (Some (1000 * minute)) (Some (1000 * minute)) (1000 * minute).
#[local] Abbreviation execute c actor now w :=
  (@Execute basic_tables simple_mail raw_text exact_sum whole_numbers sample_processor (λ _, None) c actor now w).
Definition bob : Actor := MkActor false false (lit "bob@example.com") false.
Definition carol : Actor := MkActor false false (lit "carol@example.com") false.
Definition admin : Actor := MkActor true false (lit "root@example.com") false.

Lemma example_mailbox local : dot_atom local = true -> forallb is_lower local = true -> go_len local <= 100 -> stable_mailbox local (lit "example.com").
Proof.
  intros H1 H2 H3. split_and!; [done|done| |].
  - assert (E : DNSHostname (H:=basic_tables) (lit "example.com") = lit "example.com") by (vm_compute; reflexivity).
    rewrite <- E. destruct (@DNSHostname_cases basic_tables (lit "example.com")) as [Hn|Hn]; [|exact Hn].
    rewrite E in Hn. discriminate.
  - unfold go_len in *. rewrite length_app. cbn. lia.
Qed.

(** A block by alice, and then a command of bob. *)
Definition alice_blocks : World :=
  MkWorld (set_sender_blocklist [SBlockRow 1 (lit "alice@example.com") SenderBlockExactMailbox (lit "spam@example.org") (10 ^ 12)] emptyDb) [AttemptBusy].
Definition bob_blocks : Command :=
  MkCommand commandBlocklist (lit "ADD") (lit "spam@example.org") (lit "bob@example.com") (lit "BLOCKLIST ADD spam@example.org bob@example.com") []
    AddrInvalid periodZero 0 (Some SenderBlockExactMailbox) false.
Lemma bob_blocks_parsed : @Parse basic_tables simple_mail raw_text (lit "Blocklist add Spam@example.org") bob = inr bob_blocks.
Proof. vm_compute. reflexivity. Qed.

Lemma user_command_changes_own_witness :
  (length (sender_blocklist (wdb (execute bob_blocks bob 0 alice_blocks).2)) = 2)%nat /\
  others (lit "bob@example.com") (wdb (execute bob_blocks bob 0 alice_blocks).2) = others (lit "bob@example.com") (wdb alice_blocks).
Proof.
  split; [vm_compute; reflexivity|].
  apply (@user_command_changes_own basic_tables simple_mail raw_text exact_sum whole_numbers sample_processor (λ _, None) (lit "bob@example.com")
    (lit "Blocklist add Spam@example.org")).
  - apply (canonical_stable (lit "bob")), example_mailbox; vm_compute; reflexivity || discriminate.
  - reflexivity.
  - vm_compute. reflexivity.
  - exact bob_blocks_parsed.
Defined.

(** A mailbox that is not a fixed point: the user of the normalized mailbox with
    the quotes in its local part adds an entry for the mailbox without them. *)
Definition quoted_user : Actor := MkActor false false (chr 34 :: lit "bob" ++ chr 34 :: lit "@example.com") false.
Theorem quoted_user_changes_another :
  exists c, @Parse basic_tables simple_mail raw_text (lit "BLOCKLIST ADD spam@example.org") quoted_user = inr c /\
  sb_recipient <$> sender_blocklist (wdb (execute c quoted_user 0 alice_blocks).2) = [lit "alice@example.com"; lit "bob@example.com"].
Proof. exists bob_blocks. split; vm_compute; reflexivity. Qed.

Definition carol_lists : Command := cmdPeriod commandRejections (lit "carol@example.com") (lit "REJECTIONS all") periodAll.
Lemma carol_lists_parsed : @Parse basic_tables simple_mail raw_text (lit "rejections ALL") carol = inr carol_lists.
Proof. vm_compute. reflexivity. Qed.

Lemma user_command_reads_own_witness :
  (length (rejections (wdb sample_rejection_world)) = 1)%nat /\
  (execute carol_lists carol (5001 * minute) (MkWorld (wdb sample_rejection_world) [])).1 =
  (execute carol_lists carol (5001 * minute) (MkWorld emptyDb [])).1.
Proof.
  split; [vm_compute; reflexivity|].
  apply (@user_command_reads_own basic_tables simple_mail raw_text exact_sum whole_numbers sample_processor (λ _, None) (lit "carol@example.com")
    (lit "rejections ALL")).
  - apply (canonical_stable (lit "carol")), example_mailbox; vm_compute; reflexivity || discriminate.
  - reflexivity.
  - vm_compute. reflexivity.
  - exact carol_lists_parsed.
  - split; [vm_compute; reflexivity|vm_compute; reflexivity|vm_compute; reflexivity|].
    split; [exact sample_rejection_wf|exact emptyDb_rej_wf].
Defined.

Definition admin_deletes : Command :=
  MkCommand commandBlocklist (lit "DELETE") (lit "spam@example.org") (lit "*") (lit "BLOCKLIST DELETE spam@example.org *") []
    AddrInvalid periodZero 0 (Some SenderBlockExactMailbox) false.
Lemma admin_deletes_parsed : @Parse basic_tables simple_mail raw_text (lit "BLOCKLIST DELETE spam@example.org *") admin = inr admin_deletes.
Proof. vm_compute. reflexivity. Qed.

Lemma blocklist_delete_star_deletes_all_witness :
  (length (sender_blocklist (wdb alice_blocks)) = 1)%nat /\ sender_blocklist (wdb (execute admin_deletes admin 0 alice_blocks).2) = [].
Proof.
  split; [vm_compute; reflexivity|].
  destruct (execute admin_deletes admin 0 alice_blocks) as [x w'] eqn:E.
  assert (Ex : exists answer, x = inr answer).
  { eexists. change x with (x, w').1. rewrite <- E. vm_compute. reflexivity. }
  destruct Ex as [answer ->]. cbn [snd].
  rewrite (@blocklist_delete_star_deletes_all basic_tables simple_mail raw_text exact_sum whole_numbers sample_processor (λ _, None)
    (MkSenderBlocklistOptions (1000 * minute) 100) admin_deletes admin 0 alice_blocks w' answer SenderBlockExactMailbox (lit "spam@example.org")
    eq_refl eq_refl eq_refl eq_refl eq_refl); [vm_compute; reflexivity|vm_compute; reflexivity|exact E].
Defined.

Definition sample_activity : World :=
  fold_left (@act_apply exact_sum (1000 * minute))
    [(OpAddActivity (MkActivityEvent None ActivityEventScan ActivityOutcomeRejected false (FloatFinite 1) 0), 10 * minute);
     (OpAddActivity (MkActivityEvent None ActivityEventSenderBlocklist ActivityOutcomeRejected false (FloatFinite 0) 3), 11 * minute);
     (OpAddActivity (MkActivityEvent None ActivityEventCorrespondentAccept ActivityOutcomeAccepted false (FloatFinite 0) 0), 12 * minute)]
    (MkWorld emptyDb []).
Lemma activity_report_totals_witness :
  exists s w', @Activity.ActivitySummary_ exact_sum (1000 * minute) None None (20 * minute) sample_activity = (inr s, w') /\
    totalRejected s = 4 /\ totalAccepted s = 1.
Proof.
  destruct (@Activity.ActivitySummary_ exact_sum (1000 * minute) None None (20 * minute) sample_activity) as [x w'] eqn:E.
  assert (Ex : exists s, x = inr s).
  { eexists. change x with (x, w').1. rewrite <- E. vm_compute. reflexivity. }
  destruct Ex as [s ->]. exists s, w'. split; [done|].
  pose proof (@activity_report_totals exact_sum (1000 * minute) (20 * minute) None None sample_activity w' s
    (@act_run_wf exact_sum (1000 * minute) _ []) E) as Ht.
  destruct Ht as [-> ->]. split; vm_compute; reflexivity.
Defined.
