(* ===== verification/SmtpReply.v ===== *)
(** * SMTP replies (internal/smtpreply/message.go)

    Rendering of a command reply: header lines, text with CRLF line ends, and
    base64 attachments in a multipart body.  [render] is the sequence of writes
    of the code; [Size] counts them without encoding attachments, [Build]
    performs them on a bounded buffer.

    The boundary of a multipart message is random and has a fixed length; it
    and mime.FormatMediaType are parameters ([ReplyMime]). *)
From S2P Require Import Prelude GoText.

(** ** base64 (encoding/base64, [StdEncoding]) *)

Definition base64_alphabet : gostring := lit "ABCDEFGHIJKLMNOPQRSTUVWXYZabcdefghijklmnopqrstuvwxyz0123456789+/".
Definition base64_char (n : Z) : ascii := nth (Z.to_nat n) base64_alphabet "="%char.
Fixpoint base64_encode (s : gostring) : gostring :=
  match s with
  | a :: b :: c :: rest =>
      let n := code a * 65536 + code b * 256 + code c in
      base64_char (n / 262144) :: base64_char (n / 4096 mod 64) :: base64_char (n / 64 mod 64) :: base64_char (n mod 64) :: base64_encode rest
  | [a; b] => let n := code a * 65536 + code b * 256 in
              [base64_char (n / 262144); base64_char (n / 4096 mod 64); base64_char (n / 64 mod 64); "="%char]
  | [a] => let n := code a * 65536 in [base64_char (n / 262144); base64_char (n / 4096 mod 64); "="%char; "="%char]
  | [] => []
  end.
Definition EncodedLen (n : Z) : Z := (n + 2) / 3 * 4.

(** ** Messages *)

Record ReplyHeader := MkReplyHeader { rh_Name : gostring; rh_Value : gostring }.
Record ReplyAttachment := MkReplyAttachment { ra_Filename : gostring; ra_MediaType : gostring; ra_Contents : gostring }.
Record ReplyMessage := MkReplyMessage {
  rm_MaxBytes : Z;
  rm_From : gostring;
  rm_To : gostring;
  rm_Subject : gostring;
  rm_Date : gostring;
  rm_Text : gostring;
  rm_Headers : list ReplyHeader;
  rm_Attachments : list ReplyAttachment;
}.

Class ReplyMime := {
  boundary : gostring;
  format_media_type : gostring -> gostring -> gostring -> gostring;
}.

Definition crlf : gostring := [CR; LF].

(** ** Writers *)

(** [writeCRLFText]: what it writes. *)
Fixpoint crlf_text (text : gostring) : gostring :=
  match text with
  | [] => []
  | c :: rest =>
      if ceq c CR then crlf ++ (match rest with d :: rest' => if ceq d LF then crlf_text rest' else crlf_text rest | [] => [] end)
      else if ceq c LF then crlf ++ crlf_text rest
      else c :: crlf_text rest
  end.

(** [writeBase64]: lines of 57 bytes; the last line may be shorter.  The fuel is
    the number of bytes, and every line takes some. *)
Fixpoint base64_lines (fuel : nat) (contents : gostring) : gostring :=
  match fuel with
  | S fuel' => if bool_decide (57 < length contents)%nat
               then base64_encode (take 57 contents) ++ crlf ++ base64_lines fuel' (drop 57 contents)
               else base64_encode contents ++ crlf
  | O => base64_encode contents ++ crlf
  end.
Definition writeBase64 (contents : gostring) : gostring := base64_lines (length contents) contents.

(** One step of [render]: bytes, an attachment that is encoded or only counted,
    or the error of an invalid header. *)
Inductive reply_write := WriteBytes (s : gostring) | WriteAttachment (contents : gostring) | WriteInvalid.

Section Render.
Context `{ReplyMime}.

Definition contains_any (s cutset : gostring) : bool := existsb (λ c, bool_decide (c ∈ cutset)) s.

Definition writeHeader (h : ReplyHeader) : option gostring :=
  let name := trimSpace (rh_Name h) in
  if beq name [] || contains_any name (lit ":" ++ crlf) || contains_any (rh_Value h) crlf then None
  else Some (name ++ lit ": " ++ rh_Value h ++ crlf).

(** [multipart.Writer.CreatePart]: a separator and the header, keys in order. *)
Definition create_part (first : bool) (header : list (gostring * gostring)) : gostring :=
  (if first then lit "--" else crlf ++ lit "--") ++ boundary ++ crlf ++
  concat ((λ '(k, v), k ++ lit ": " ++ v ++ crlf) <$> header) ++ crlf.

Definition attachment_part (a : ReplyAttachment) : gostring :=
  create_part false
    [(lit "Content-Disposition", format_media_type (lit "attachment") (lit "filename") (ra_Filename a));
     (lit "Content-Transfer-Encoding", lit "base64");
     (lit "Content-Type", format_media_type (ra_MediaType a) (lit "name") (ra_Filename a))].
Definition attachment_writes (a : ReplyAttachment) : list reply_write := [WriteBytes (attachment_part a); WriteAttachment (ra_Contents a)].

Definition mixed_preamble : gostring :=
  lit "MIME-Version: 1.0" ++ crlf ++ lit "Content-Type: multipart/mixed; boundary=" ++ [chr 34] ++ boundary ++ [chr 34] ++ crlf ++ crlf.
Definition text_part : gostring :=
  create_part true [(lit "Content-Transfer-Encoding", lit "8bit"); (lit "Content-Type", lit "text/plain; charset=UTF-8")].
Definition closing : gostring := crlf ++ lit "--" ++ boundary ++ lit "--" ++ crlf.

Definition standard_headers (m : ReplyMessage) : list ReplyHeader :=
  [MkReplyHeader (lit "From") (lit "MilterGuard <" ++ rm_From m ++ lit ">"); MkReplyHeader (lit "To") (rm_To m);
   MkReplyHeader (lit "Subject") (rm_Subject m); MkReplyHeader (lit "Date") (rm_Date m);
   MkReplyHeader (lit "Auto-Submitted") (lit "auto-replied"); MkReplyHeader (lit "X-Auto-Response-Suppress") (lit "All")].

Definition body_writes (m : ReplyMessage) : list reply_write :=
  match rm_Attachments m with
  | [] => [WriteBytes (lit "MIME-Version: 1.0" ++ crlf ++ lit "Content-Type: text/plain; charset=UTF-8" ++ crlf ++
                       lit "Content-Transfer-Encoding: 8bit" ++ crlf ++ crlf);
           WriteBytes (crlf_text (rm_Text m))]
  | attachments =>
      [WriteBytes mixed_preamble; WriteBytes text_part; WriteBytes (crlf_text (rm_Text m))] ++
      (attachments ≫= attachment_writes) ++ [WriteBytes closing]
  end.

Definition header_write (h : ReplyHeader) : reply_write := match writeHeader h with Some s => WriteBytes s | None => WriteInvalid end.
(** The writes of [render], in order; it stops at the first error. *)
Definition render (m : ReplyMessage) : list reply_write :=
  (header_write <$> standard_headers m ++ rm_Headers m) ++ body_writes m.

(** [Size]: the counting writer. *)
Definition counted (x : reply_write) : Z :=
  match x with
  | WriteBytes s => go_len s
  | WriteAttachment contents =>
      let encoded := EncodedLen (go_len contents) in encoded + 2 * Z.max 1 ((encoded + 75) / 76)
  | WriteInvalid => 0
  end.
Definition is_invalid (x : reply_write) : bool := match x with WriteInvalid => true | _ => false end.
Definition Size (m : ReplyMessage) : option Z :=
  if existsb is_invalid (render m) then None else Some (foldr Z.add 0 (counted <$> render m)).

(** [Build]: the bounded writer. *)
Inductive build_error := BuildInvalidHeader | ErrMessageTooLarge.
Definition written (x : reply_write) : gostring := match x with WriteBytes s => s | WriteAttachment contents => writeBase64 contents | WriteInvalid => [] end.
Fixpoint write_bounded (limited : bool) (left : Z) (writes : list reply_write) (payload : gostring) : build_error + gostring :=
  match writes with
  | [] => inr payload
  | WriteInvalid :: _ => inl BuildInvalidHeader
  | x :: writes =>
      if limited && (left <? go_len (written x)) then inl ErrMessageTooLarge
      else write_bounded limited (left - go_len (written x)) writes (payload ++ written x)
  end.
Definition Build (m : ReplyMessage) : build_error + gostring :=
  write_bounded (0 <? rm_MaxBytes m) (rm_MaxBytes m) (render m) [].
End Render.

(** ** STARTTLS (client.go) *)

Definition hostIsLoopback `{UnicodeTables} (parse_ip_loopback : gostring -> bool) (host : gostring) : bool :=
  equalFold (trimSuffix host (lit ".")) (lit "localhost") || parse_ip_loopback host.
(** Whether to use TLS, or [None] for an error. *)
Definition tlsDecision `{UnicodeTables} (parse_ip_loopback : gostring -> bool) (mode host : gostring) (advertised : bool) : option bool :=
  if beq mode (lit "off") then Some false
  else if beq mode (lit "opportunistic") then Some (advertised && negb (hostIsLoopback parse_ip_loopback host))
  else if beq mode (lit "required") then (if advertised then Some true else None)
  else None.

(** ** Lemmas *)

Lemma triple_ind (P : gostring -> Prop) : P [] -> (forall a, P [a]) -> (forall a b, P [a; b]) ->
  (forall a b c s, P s -> P (a :: b :: c :: s)) -> forall s, P s.
Proof.
  intros H0 H1 H2 H3 s. induction s as [s IH] using list_length_ind. destruct s as [|a [|b [|c s]]]; auto.
  apply H3, IH. cbn. lia.
Qed.

Lemma base64_length s : go_len (base64_encode s) = EncodedLen (go_len s).
Proof.
  unfold EncodedLen, go_len. induction s as [| | |a b c s IH] using triple_ind; [done|done|done|].
  cbn [base64_encode length]. rewrite !Nat2Z.inj_succ, IH.
  replace (Z.succ (Z.succ (Z.succ (Z.of_nat (length s)))) + 2) with (Z.of_nat (length s) + 2 + 1 * 3) by lia. rewrite Z.div_add by lia. lia.
Qed.

(** The length of the encoded lines is the one [Size] counts. *)
Lemma base64_lines_length fuel c : (length c <= fuel)%nat ->
  go_len (base64_lines fuel c) = EncodedLen (go_len c) + 2 * Z.max 1 ((EncodedLen (go_len c) + 75) / 76).
Proof.
  revert c. induction fuel as [|fuel IH]; intros c Hc.
  - destruct c; [done|cbn in Hc; lia].
  - cbn [base64_lines]. case_bool_decide as Hl.
    + unfold go_len in *. rewrite !length_app, !Nat2Z.inj_add. specialize (IH (drop 57 c)). rewrite length_drop in IH.
      rewrite IH by lia. pose proof (base64_length (take 57 c)) as Hb. unfold go_len in Hb. rewrite Hb, length_take.
      unfold EncodedLen. replace (Z.of_nat (Nat.min 57 (length c))) with 57 by lia. cbn [length crlf].
      replace (Z.of_nat (length c) + 2) with (Z.of_nat (length c - 57) + 2 + 19 * 3) by lia. rewrite Z.div_add by lia.
      set (q := (Z.of_nat (length c - 57) + 2) / 3). assert (1 <= q) by (unfold q; apply Z.div_le_lower_bound; lia).
      change ((57 + 2) / 3 * 4) with 76. replace ((q + 19) * 4 + 75) with (q * 4 + 75 + 1 * 76) by lia. rewrite Z.div_add by lia.
      assert (1 <= (q * 4 + 75) / 76) by (apply Z.div_le_lower_bound; lia). lia.
    + unfold go_len in *. rewrite length_app, Nat2Z.inj_add. pose proof (base64_length c) as Hb. unfold go_len in Hb. rewrite Hb. cbn [length crlf].
      assert (Hs : 0 <= EncodedLen (Z.of_nat (length c)) <= 76).
      { unfold EncodedLen. split; [apply Z.mul_nonneg_nonneg; [apply Z.div_pos|]; lia|].
        assert ((Z.of_nat (length c) + 2) / 3 < 20) by (apply Z.div_lt_upper_bound; lia). lia. }
      assert ((EncodedLen (Z.of_nat (length c)) + 75) / 76 <= 1) by (assert ((EncodedLen (Z.of_nat (length c)) + 75) / 76 < 2) by (apply Z.div_lt_upper_bound; lia); lia).
      lia.
Qed.

Lemma counted_written x : counted x = go_len (written x).
Proof. destruct x; [done| |done]. cbn [counted written]. cbv zeta. unfold writeBase64. by rewrite base64_lines_length. Qed.

Definition total (writes : list reply_write) : Z := foldr Z.add 0 (counted <$> writes).
Lemma total_nonneg writes : 0 <= total writes.
Proof. unfold total. induction writes as [|x writes IH]; [done|]. cbn. rewrite counted_written. unfold go_len in *. lia. Qed.
Lemma total_app a b : total (a ++ b) = total a + total b.
Proof. unfold total. rewrite fmap_app. induction (counted <$> a) as [|x l IH]; cbn [foldr app]; lia. Qed.

Lemma write_bounded_spec limited left writes payload : existsb is_invalid writes = false ->
  write_bounded limited left writes payload =
  if limited && (left <? total writes) && negb (bool_decide (writes = [])) then inl ErrMessageTooLarge else inr (payload ++ concat (written <$> writes)).
Proof.
  revert left payload. induction writes as [|x writes IH]; intros left payload Hv.
  - cbn. rewrite andb_false_r. by rewrite app_nil_r.
  - rewrite (bool_decide_false (x :: writes = [])) by done. cbn [negb]. rewrite andb_true_r.
    cbn [existsb] in Hv. apply orb_false_iff in Hv as [Hx Hv].
    assert (Hw : write_bounded limited left (x :: writes) payload = if limited && (left <? go_len (written x)) then inl ErrMessageTooLarge
      else write_bounded limited (left - go_len (written x)) writes (payload ++ written x)) by by destruct x.
    rewrite Hw. clear Hw.
    assert (Ht : total (x :: writes) = go_len (written x) + total writes) by (unfold total; cbn; by rewrite counted_written).
    pose proof (total_nonneg writes). rewrite Ht. destruct limited; cbn [andb].
    + destruct (Z.ltb_spec left (go_len (written x))) as [Hl|Hl].
      * by rewrite (proj2 (Z.ltb_lt _ _)) by lia.
      * rewrite IH by done. cbn [andb]. destruct (Z.ltb_spec (left - go_len (written x)) (total writes)) as [Hs|Hs].
        -- rewrite (proj2 (Z.ltb_lt left _)) by lia. case_bool_decide as E; [|done]. subst writes. unfold total in Hs. cbn in Hs. lia.
        -- rewrite (proj2 (Z.ltb_ge left _)) by lia. cbn [andb fmap list_fmap concat]. by rewrite <- app_assoc.
    + rewrite IH by done. cbn [andb fmap list_fmap concat]. by rewrite <- app_assoc.
Qed.

Lemma write_bounded_invalid limited left writes payload out : existsb is_invalid writes = true ->
  write_bounded limited left writes payload <> inr out.
Proof.
  revert left payload. induction writes as [|x writes IH]; intros left payload Hv; [done|].
  destruct x; cbn [write_bounded]; cbn [existsb is_invalid orb] in Hv; try (case_match; [done|by apply IH]); done.
Qed.

(** ** Properties *)

Lemma render_nonempty `{ReplyMime} m : render m <> [].
Proof. unfold render. by destruct (body_writes m) eqn:E; [unfold body_writes in E; destruct (rm_Attachments m)|destruct (header_write <$> _)]. Qed.

Lemma written_length writes : go_len (concat (written <$> writes)) = total writes.
Proof.
  unfold total. induction writes as [|x writes IH]; [done|]. cbn [fmap list_fmap concat foldr]. rewrite counted_written, <- IH.
  unfold go_len. rewrite length_app. lia.
Qed.

Lemma Build_Size `{ReplyMime} (m : ReplyMessage) :
  (forall out, Build m = inr out -> Size m = Some (go_len out) /\ (0 < rm_MaxBytes m -> go_len out <= rm_MaxBytes m)) /\
  (forall n, Size m = Some n -> rm_MaxBytes m <= 0 \/ n <= rm_MaxBytes m -> exists out, Build m = inr out /\ go_len out = n).
Proof.
  unfold Build, Size. fold (total (render m)). destruct (existsb is_invalid (render m)) eqn:E.
  - split; [intros out Ho; by apply write_bounded_invalid in Ho|done].
  - rewrite write_bounded_spec by done. rewrite (bool_decide_false (render m = [])) by apply render_nonempty. cbn [negb]. rewrite app_nil_l, andb_true_r.
    generalize (render m). intros writes. split.
    + intros out Ho. case_match eqn:Eb; [done|]. injection Ho as <-. rewrite written_length. split; [done|]. lia.
    + intros n Hn Hl. injection Hn as <-. case_match eqn:Eb; [exfalso; lia|]. eexists. split; [done|]. apply written_length.
Qed.

(** the size of a reply is measured without encoding its attachments, and
    the measure is exact: a message builds within its limit if and only if its
    size can be measured and does not exceed it, and then it has exactly that
    many bytes. *)
Theorem reply_size_exact `{ReplyMime} (m : ReplyMessage) :
  (forall out, Build m = inr out -> Size m = Some (go_len out) /\ (0 < rm_MaxBytes m -> go_len out <= rm_MaxBytes m)) /\
  (forall n, Size m = Some n -> rm_MaxBytes m <= 0 \/ n <= rm_MaxBytes m -> exists out, Build m = inr out /\ go_len out = n).
Proof. apply Build_Size. Qed.

(** Canonical line ends. *)
Lemma crlf_text_cases (P : gostring -> gostring -> Prop) :
  P [] [] ->
  (forall t u, P t u -> P (CR :: LF :: t) (CR :: LF :: u)) ->
  (forall t u, (forall t', t <> LF :: t') -> P t u -> P (CR :: t) (CR :: LF :: u)) ->
  (forall t u, P t u -> P (LF :: t) (CR :: LF :: u)) ->
  (forall c t u, c <> CR -> c <> LF -> P t u -> P (c :: t) (c :: u)) ->
  forall t, P t (crlf_text t).
Proof.
  intros H0 H1 H2 H3 H4 t. induction t as [t IH] using list_length_ind. destruct t as [|c t]; [done|]. cbn [crlf_text].
  destruct (ceq c CR) eqn:Ec; [apply ceq_true in Ec as ->|].
  - destruct t as [|d t]; [apply H2; [done|apply H0]|]. destruct (ceq d LF) eqn:Ed.
    + apply ceq_true in Ed as ->. apply H1, IH. cbn. lia.
    + apply H2; [intros t' [= -> _]; by rewrite ceq_refl in Ed|]. apply IH. cbn. lia.
  - apply ceq_false in Ec. destruct (ceq c LF) eqn:El; [apply ceq_true in El as ->; apply H3|apply ceq_false in El; apply H4; [done|done|]]; apply IH; cbn; lia.
Qed.

Definition not_line_end (c : ascii) : bool := negb (ceq c CR) && negb (ceq c LF).

Lemma crlf_text_crlf u : crlf_text (CR :: LF :: u) = CR :: LF :: crlf_text u.
Proof. reflexivity. Qed.
Lemma crlf_text_other c u : c <> CR -> c <> LF -> crlf_text (c :: u) = c :: crlf_text u.
Proof. intros H1%ceq_false H2%ceq_false. cbn [crlf_text]. by rewrite H1, H2. Qed.

Lemma crlf_text_length t : go_len (crlf_text t) <= 2 * go_len t.
Proof.
  unfold go_len. revert t. apply (crlf_text_cases (λ t u, Z.of_nat (length u) <= 2 * Z.of_nat (length t))); intros; cbn [length] in *; lia.
Qed.

(** the text of a reply is written with canonical line ends: every line end of
    the result is CR LF and writing it again changes nothing, all other
    characters are kept in order, and the result is at most twice as long. *)
Theorem reply_text_canonical (t : gostring) :
  crlf_text (crlf_text t) = crlf_text t /\
  List.filter not_line_end (crlf_text t) = List.filter not_line_end t /\
  go_len (crlf_text t) <= 2 * go_len t.
Proof.
  split_and!; [| |apply crlf_text_length]; revert t.
  - apply (crlf_text_cases (λ _ u, crlf_text u = u)); try done.
    + intros t u IH. by rewrite crlf_text_crlf, IH.
    + intros t u _ IH. by rewrite crlf_text_crlf, IH.
    + intros t u IH. by rewrite crlf_text_crlf, IH.
    + intros c t u H1 H2 IH. by rewrite crlf_text_other, IH.
  - apply (crlf_text_cases (λ t u, List.filter not_line_end u = List.filter not_line_end t)); try done.
    intros c t u H1%ceq_false H2%ceq_false IH. assert (E : not_line_end c = true) by (unfold not_line_end; by rewrite H1, H2).
    cbn [List.filter]. by rewrite E, IH.
Qed.
