(* ===== verification/EmailCommands.v ===== *)
(** * Commands by email (internal/milter/email_commands.go, aliases.go)

    What a session does with a message to the command address, apart from the
    SMTP dialogue ([Session.handleEmailCommand]): who owns the envelope sender
    according to the aliases file, the lines of the body, the commands they
    parse to, their execution, the text and attachments of the one reply, and
    the reply message that fits the configured size.

    Extraction of the body's text, mime.ParseMediaType and file access are
    parameters; a file is read as its bytes or not at all. *)
From Stdlib Require Import QArith.
From S2P Require Import Prelude GoText NetSafety MailAddr Protocol Message SqlDb IPReputation IPAllowlist Calendar Correspondents SenderBlocklist Rejections Activity AdminCmd AdminFormat AdminExec SmtpReply.
Open Scope Z_scope.

Definition maxCommandsPerMessage : nat := 100.

(** ** Alias ownership (aliases.go) *)

Definition maxAliasesFileBytes : Z := 2097152.
Definition maxAliasEntry : Z := 65536.
Definition maxAliasDepth : nat := 16.

Definition alias_forbidden : gostring := lit "@,|/:\ " ++ [chr 9; CR; LF].
Definition validAliasName (value : gostring) : bool :=
  negb (beq value []) && (go_len value <=? 128) && negb (contains_any value alias_forbidden) &&
  forallb (λ r, (33 <=? r) && (r <=? 126)) (runes value).

(** [bufio.Scanner] with a buffer of 64 KiB: lines without their line end; a line
    that does not fit the buffer ends the scan with an error. *)
Definition scan_line (line : gostring) : gostring := trimSuffix line [CR].
Definition scan_lines (contents : gostring) : option (list gostring) :=
  let lines := split LF contents in
  let lines := if beq (default [] (last lines)) [] then removelast lines else lines in
  if forallb (λ l, go_len l <? maxAliasEntry) lines then Some (scan_line <$> lines) else None.

Section Aliases.
Context `{UnicodeTables, NetMail}.

(** The map of aliases, newest definition first. *)
Abbreviation aliases := (list (gostring * gostring)).
Definition alias_delete (key : gostring) (m : aliases) : aliases := List.filter (λ kv, negb (beq kv.1 key)) m.
Definition alias_lookup (key : gostring) (m : aliases) : option gostring := snd <$> List.find (λ kv, beq kv.1 key) m.

(** The closure [flush]. *)
Definition flush_entry (entry : gostring) (m : aliases) : aliases :=
  match cut ":" entry with
  | None => m
  | Some (key, value) =>
      let key := toLower (trimSpace key) in
      let value := toLower (trimSpace value) in
      if validAliasName key then
        let m := alias_delete key m in if validAliasName value then (key, value) :: m else m
      else m
  end.

(** The scan loop: the entry under construction and the aliases so far; [None] is
    an entry that is too large. *)
Fixpoint read_entries (lines : list gostring) (entry : gostring) (m : aliases) : option aliases :=
  match lines with
  | [] => Some (flush_entry entry m)
  | raw :: lines =>
      let line := trimSpace (match cut "#" raw with Some (l, _) => l | None => raw end) in
      if beq line [] then read_entries lines entry m
      else
        let indented := match raw with c :: _ => ceq c " " || ceq c (chr 9) | [] => false end in
        if indented && beq entry [] then read_entries lines entry m
        else
          let '(entry, m) := if indented then (entry ++ lit " ", m) else ([], flush_entry entry m) in
          if maxAliasEntry <=? go_len entry + go_len line then None
          else read_entries lines (entry ++ line) m
  end.

(** [file] is [None] when the file cannot be opened or read. *)
Definition readSimpleAliases (file : option gostring) : option aliases :=
  match file with
  | None => None
  | Some contents =>
      if maxAliasesFileBytes <? go_len contents then None
      else match scan_lines contents with None => None | Some lines => read_entries lines [] [] end
  end.

(** The loop over the chain, [depth] steps left. *)
Fixpoint follow_aliases (m : aliases) (wanted : gostring) (depth : nat) (seen : list gostring) (current : gostring) : bool :=
  match depth with
  | O => false
  | S depth' =>
      if bool_decide (current ∈ seen) then false
      else match alias_lookup current m with
           | None => false
           | Some next => if beq next wanted then true else follow_aliases m wanted depth' (current :: seen) next
           end
  end.

Definition two_parts (s : gostring) : option (gostring * gostring) :=
  match split "@" s with [l; d] => Some (l, d) | _ => None end.

(** Whether [senderOwnedViaAliases] returns no error. *)
Definition senderOwnedViaAliases (file : option gostring) (envelopeSender identity commandRecipient : gostring) : bool :=
  let sender := Normalize envelopeSender in
  let command := Normalize commandRecipient in
  if beq sender [] || beq command [] then false
  else match parse_address sender, parse_address command with
  | Some senderAddress, Some commandAddress =>
      match two_parts (ma_address senderAddress), two_parts (ma_address commandAddress) with
      | Some (senderLocal, senderDomain), Some (_, commandDomain) =>
          if negb (equalFold senderDomain commandDomain) then false
          else
            let wanted := toLower (trimSpace identity) in
            let wanted := match parse_address wanted with
                          | Some parsed => match cut "@" (ma_address parsed) with
                                           | Some (l, d) => if equalFold d commandDomain then toLower l else wanted
                                           | None => wanted
                                           end
                          | None => wanted
                          end in
            if negb (validAliasName wanted) then false
            else
              let current := toLower senderLocal in
              if beq current wanted then true
              else match readSimpleAliases file with
                   | None => false
                   | Some m => follow_aliases m wanted maxAliasDepth [] current
                   end
      | _, _ => false
      end
  | _, _ => false
  end.
End Aliases.

(** ** The lines of a command message *)

Class MediaTypes := { parse_media_type : gostring -> option gostring }.

(** What [CommandTextResult] and [WithProcessingLimits] report. *)
Record command_extraction := MkCommandExtraction {
  ce_text : gostring;
  ce_complete : bool;
  ce_interrupted : bool;
  ce_cpuExceeded : bool;
  ce_memoryExceeded : bool;
  ce_fallbackCPUExceeded : bool;
  ce_fallbackMemoryExceeded : bool;
}.

(** An error of the sender, or of the processing. *)
Inductive lines_error := LinesInvalid (reason : gostring) | LinesFailed (reason : gostring).

Section Lines.
Context `{UnicodeTables, MediaTypes}.

Definition text_to_lines (text : gostring) : list gostring :=
  List.filter (λ l, negb (beq l [])) (trimSpace <$> split LF (replaceAll text [CR; LF] [LF])).

Definition commandMessageLinesWithHTMLControl (m : Message) (x : command_extraction) : lines_error + list gostring :=
  if negb (beq (trimSpace (Header m (lit "Content-Disposition"))) []) then inl (LinesInvalid (lit "attachments are not allowed"))
  else
    let value := trimSpace (FirstHeader m (lit "Content-Type")) in
    match (if beq value [] then Some (lit "text/plain") else parse_media_type value) with
    | None => inl (LinesInvalid (lit "invalid Content-Type"))
    | Some mediaType =>
        if negb (beq mediaType (lit "text/plain")) && negb (beq mediaType (lit "text/html")) && negb (beq mediaType (lit "multipart/alternative"))
        then inl (LinesInvalid (lit "command email must contain plain text or HTML without attachments"))
        else if negb (ce_complete x) then inl (LinesFailed (lit "command body extraction was incomplete"))
        else if containsByte (ce_text x) NUL then inl (LinesInvalid (lit "command body contains invalid characters"))
        else match text_to_lines (ce_text x) with
             | [] => inl (LinesInvalid (lit "command body is empty"))
             | lines => inr lines
             end
    end.

Definition commandMessageLinesWithResourceLimits (m : Message) (action : gostring) (x : command_extraction) : lines_error + list gostring :=
  let fallback := beq action (lit "fallback") in
  let extracted := commandMessageLinesWithHTMLControl m x in
  if ce_interrupted x then inl (LinesFailed (lit "command body processing was interrupted"))
  else
    let cpuFailed := if fallback then ce_fallbackCPUExceeded x else ce_cpuExceeded x in
    let memoryFailed := if fallback then ce_fallbackMemoryExceeded x else ce_memoryExceeded x in
    if cpuFailed then inl (LinesFailed (lit "command body processing exceeded the configured CPU limit"))
    else if memoryFailed then inl (LinesFailed (lit "command body processing exceeded the configured memory limit"))
    else extracted.

(** [slot]: whether an extraction slot was free before the context ended. *)
Definition messageLines (slot : bool) (m : Message) (action : gostring) (x : command_extraction) : lines_error + list gostring :=
  if negb slot then inl (LinesFailed (lit "command body processing was interrupted"))
  else commandMessageLinesWithResourceLimits m action x.
End Lines.

(** ** The commands of a message *)

Section Commands.
Context `{UnicodeTables, NetMail, NetIPText}.

(** The parse loop of [handleEmailCommand]: the commands, or the error of the
    first line. *)
Fixpoint parse_lines (lines : list gostring) (actor : Actor) (commands : list Command) : gostring + list Command :=
  match lines with
  | [] => inr commands
  | line :: lines =>
      match Parse line actor with
      | inl err =>
          match commands with
          | [] => inl err
          | _ => inr (if RecognizedLine line then commands ++ [ParseError line err] else commands)
          end
      | inr command =>
          let commands := commands ++ [command] in
          if bool_decide (length commands = maxCommandsPerMessage) then inr commands else parse_lines lines actor commands
      end
  end.

Definition failed_text : gostring := lit "The command could not be completed. Check the server log." ++ newline.

(** Each command in turn; a failed one answers with a fixed text. *)
Fixpoint execute_commands {W} (exec : Command -> Actor -> Z -> W -> (repo_error + DeferredResponse) * W)
    (commands : list Command) (actor : Actor) (now : Z) (w : W) : list (Command * DeferredResponse) * W :=
  match commands with
  | [] => ([], w)
  | c :: commands =>
      let '(x, w) := exec c actor now w in
      let part := match x with inl _ => DText failed_text | inr d => d end in
      let '(rest, w) := execute_commands exec commands actor now w in
      ((c, part) :: rest, w)
  end.
End Commands.

(** ** The reply *)

Definition commandReplyTextBytes (maxBytes : Z) : Z := Z.min MaxResponseBytes (Z.max 0 (Z.quot maxBytes 4)).
Definition commandReplyAttachmentBytes (maxBytes : Z) : Z := Z.max 0 (maxBytes - 2 * commandReplyTextBytes maxBytes - 4096).

Record commandReplyContent := MkReplyContent { rc_Text : gostring; rc_Attachments : list ReplyAttachment }.

Section Reply.
Context `{UnicodeTables, MessageSource} (maxMessageSize : Z).

Definition reply_timed_out : gostring := lit "Reply rendering timed out; remaining command results were omitted." ++ newline.

(** The attachments of one response that were not attached under that name yet. *)
Definition add_attachments (attachments : list ReplyAttachment) (new : list Attachment) : list ReplyAttachment :=
  fold_left (λ acc a, if existsb (λ x, beq (ra_Filename x) (at_Filename a)) acc then acc
                      else acc ++ [MkReplyAttachment (at_Filename a) (at_MediaType a) (at_Contents a)]) new attachments.

(** The render loop; [interrupted i] tells whether the rendering context has ended
    when the [i]-th part is reached. *)
Fixpoint render_parts (parts : list (Command * DeferredResponse)) (interrupted : nat -> bool) (i : nat) (body : gostring)
    (attachments : list ReplyAttachment) (budget : ReplyAttachmentBudget) : gostring * list ReplyAttachment * ReplyAttachmentBudget :=
  match parts with
  | [] => (body, attachments, budget)
  | (command, part) :: parts =>
      if interrupted i then (fst (AppendBoundedResponse body reply_timed_out), attachments, budget)
      else
        let '(body, fits) := AppendBoundedResponse body (canonical command ++ newline ++ newline) in
        if negb fits then (body, attachments, budget)
        else
          let '(result, budget') := render_response maxMessageSize (interrupted i) part (Some budget) in
          let budget := default budget budget' in
          let text := (if hasSuffix (Text result) newline then Text result else Text result ++ newline) ++ newline in
          let '(body, fits) := AppendBoundedResponse body text in
          if negb fits then (body, attachments, budget)
          else render_parts parts interrupted (S i) body (add_attachments attachments (Attachments result)) budget
  end.

Definition render_reply (parts : list (Command * DeferredResponse)) (interrupted : nat -> bool) : commandReplyContent :=
  let '(body, attachments, budget) :=
    render_parts parts interrupted 0 [] [] (NewReplyAttachmentBudget (commandReplyAttachmentBytes maxMessageSize)) in
  MkReplyContent (OmissionNotice budget ++ body) attachments.
End Reply.

Definition within_notice : gostring := newline ++ lit "Command reply text was truncated to fit the reply size limit." ++ newline.
Definition commandReplyTextWithin (text : gostring) (maxBytes : Z) : gostring :=
  if go_len text <=? maxBytes then text
  else if maxBytes <? go_len within_notice then truncateUTF8 within_notice (Z.to_nat maxBytes)
  else truncateUTF8 text (Z.to_nat (maxBytes - go_len within_notice)) ++ within_notice.

Definition boundedCommandReplyText (text : gostring) : gostring :=
  if go_len text <=? MaxResponseBytes then text else fst (AppendBoundedResponse [] text).

Definition with_text (m : ReplyMessage) (text : gostring) : ReplyMessage :=
  MkReplyMessage (rm_MaxBytes m) (rm_From m) (rm_To m) (rm_Subject m) (rm_Date m) text (rm_Headers m) (rm_Attachments m).
Definition with_attachments (m : ReplyMessage) (l : list ReplyAttachment) : ReplyMessage :=
  MkReplyMessage (rm_MaxBytes m) (rm_From m) (rm_To m) (rm_Subject m) (rm_Date m) (rm_Text m) (rm_Headers m) l.

Definition internal_header : gostring := lit "X-MilterGuard-Internal".
Definition commandReplyMessage (from recipient subject date token : gostring) (reply : commandReplyContent) (maxBytes : Z) : ReplyMessage :=
  MkReplyMessage maxBytes from recipient subject date (rc_Text reply) [MkReplyHeader internal_header token] (rc_Attachments reply).

Section Build.
Context `{ReplyMime}.

Definition omitted_notice (omitted : list gostring) : gostring :=
  lit "Saved messages too large to attach: " ++ join (lit ", ") omitted ++
  lit ". Request these individually; if one still does not fit, retrieve it using command mode." ++ newline ++ newline.

(** The first loop: the message and whether it fits; attachments are dropped from
    the end.  There are at most as many turns as attachments. *)
Fixpoint drop_attachments (turns : nat) (m : ReplyMessage) (text : gostring) (omitted : list gostring) (maxBytes : Z)
    : option (ReplyMessage * bool) :=
  match Size m with
  | None => None
  | Some size =>
      if (maxBytes <=? 0) || (size <=? maxBytes) then Some (m, true)
      else match turns, last (rm_Attachments m) with
           | S turns, Some a =>
               let omitted := ra_Filename a :: omitted in
               drop_attachments turns (with_text (with_attachments m (removelast (rm_Attachments m))) (omitted_notice omitted ++ text))
                 text omitted maxBytes
           | _, _ => Some (m, false)
           end
  end.

(** The second loop: the longest prefix of the text found by bisection; every turn
    halves the interval at least by one. *)
Fixpoint bisect (turns : nat) (m : ReplyMessage) (text : gostring) (maxBytes : Z) (low high : nat) : option nat :=
  match turns with
  | O => Some low
  | S turns =>
      if bool_decide (low < high)%nat then
        let middle := (low + (high - low + 1) / 2)%nat in
        match Size (with_text m (truncateUTF8 text middle)) with
        | None => None
        | Some size => if size <=? maxBytes then bisect turns m text maxBytes middle high
                       else bisect turns m text maxBytes low (middle - 1)
        end
      else Some low
  end.

Inductive reply_error := ReplyInvalid | ReplyTooLarge.
Definition buildBoundedCommandReplyMessage (from recipient subject date token : gostring) (reply : commandReplyContent) (maxBytes : Z)
    : reply_error + ReplyMessage :=
  let text := boundedCommandReplyText (rc_Text reply) in
  let text := if 0 <? maxBytes then commandReplyTextWithin text (commandReplyTextBytes maxBytes) else text in
  let message := commandReplyMessage from recipient subject date token (MkReplyContent text (rc_Attachments reply)) maxBytes in
  match drop_attachments (length (rc_Attachments reply)) message text [] maxBytes with
  | None => inl ReplyInvalid
  | Some (m, true) => inr m
  | Some (m, false) =>
      let text := rm_Text m in
      match bisect (length text) m text maxBytes 0 (length text) with
      | None => inl ReplyInvalid
      | Some low =>
          let m := with_text m (truncateUTF8 text low) in
          match Size m with
          | None => inl ReplyInvalid
          | Some size => if maxBytes <? size then inl ReplyTooLarge else inr m
          end
      end
  end.
End Build.
