(* ===== verification/EmailCommandsSpec.v ===== *)
(** * Commands by email: ownership and replies

    Alias ownership is reachability within sixteen steps; every command of a
    message runs at most once and in order; a reply is always built when its
    headers alone fit, never exceeds the configured size, keeps a prefix of its
    attachments, and the attachment budget is enough to keep all of them. *)
From Stdlib Require Import QArith.
From S2P Require Import Prelude GoText NetSafety MailAddr Protocol Message SqlDb IPReputation IPReputationFacts IPAllowlist Calendar Correspondents SenderBlocklist Rejections Activity AdminCmd AdminFormat AdminExec SmtpReply EmailCommands.
Open Scope Z_scope.

(** ** Aliases *)

(** Following the map a number of times. *)
Fixpoint alias_steps (m : list (gostring * gostring)) (n : nat) (current : gostring) : option gostring :=
  match n with
  | O => Some current
  | S n => match alias_lookup current m with Some next => alias_steps m n next | None => None end
  end.

Lemma alias_steps_add m i j x : alias_steps m (i + j) x = match alias_steps m i x with Some y => alias_steps m j y | None => None end.
Proof. revert x. induction i as [|i IH]; intros x; [done|]. cbn. destruct (alias_lookup x m); [apply IH|done]. Qed.

(** A cycle never leaves itself. *)
Lemma alias_cycle m p x n y : (0 < p)%nat -> alias_steps m p x = Some x -> alias_steps m n x = Some y ->
  exists k, (k < p)%nat /\ alias_steps m k x = Some y.
Proof.
  intros Hp Hc. revert y. induction n as [n IH] using lt_wf_ind. intros y Hn.
  destruct (decide (n < p)%nat) as [Hl|Hl]; [by exists n|].
  apply (IH (n - p)%nat); [lia|]. replace n with (p + (n - p))%nat in Hn by lia. by rewrite alias_steps_add, Hc in Hn.
Qed.

Lemma follow_aliases_sound m wanted depth seen cur : follow_aliases m wanted depth seen cur = true ->
  exists n, (1 <= n <= depth)%nat /\ alias_steps m n cur = Some wanted.
Proof.
  revert seen cur. induction depth as [|depth IH]; intros seen cur Hf; [done|]. cbn [follow_aliases] in Hf.
  case_bool_decide; [done|]. destruct (alias_lookup cur m) as [next|] eqn:E; [|done].
  destruct (beq next wanted) eqn:Eb.
  - apply beq_true in Eb as ->. exists 1%nat. split; [lia|]. cbn. by rewrite E.
  - apply IH in Hf as (n & Hn & Hs). exists (S n). split; [lia|]. cbn. by rewrite E.
Qed.

(** What has been seen leads to the current name, and the target was not met. *)
Definition seen_ok (m : list (gostring * gostring)) (wanted : gostring) (seen : list gostring) (cur : gostring) : Prop :=
  forall x, x ∈ seen -> exists p, (0 < p)%nat /\ alias_steps m p x = Some cur /\
    forall k, (0 < k <= p)%nat -> alias_steps m k x <> Some wanted.

Lemma follow_aliases_complete m wanted depth seen cur n :
  seen_ok m wanted seen cur -> cur <> wanted \/ seen = [] -> (1 <= n <= depth)%nat -> alias_steps m n cur = Some wanted ->
  follow_aliases m wanted depth seen cur = true.
Proof.
  revert seen cur n. induction depth as [|depth IH]; intros seen cur n Hseen Hcw Hn Hs; [lia|]. cbn [follow_aliases].
  case_bool_decide as Hin.
  { exfalso. destruct (Hseen cur Hin) as (p & Hp & Hc & Hno). destruct (alias_cycle m p cur n wanted Hp Hc Hs) as (k & Hk & Hk').
    destruct Hcw as [Hcw| ->]; [|set_solver]. destruct k as [|k]; [cbn in Hk'; congruence|]. apply (Hno (S k)); [lia|done]. }
  destruct n as [|n]; [lia|]. cbn in Hs. destruct (alias_lookup cur m) as [next|] eqn:E; [|done].
  destruct (beq next wanted) eqn:Eb; [done|]. assert (Hnw : next <> wanted) by (intros ->; by rewrite (proj2 (beq_true wanted wanted)) in Eb).
  destruct n as [|n]; [cbn in Hs; congruence|]. apply (IH _ _ (S n)); [|by left|lia|done].
  intros x Hx. apply elem_of_cons in Hx as [-> |Hx].
  - exists 1%nat. split; [lia|]. split; [cbn; by rewrite E|]. intros k Hk. assert (k = 1%nat) as -> by lia. cbn. rewrite E. congruence.
  - destruct (Hseen x Hx) as (p & Hp & Hc & Hno). exists (p + 1)%nat. split; [lia|].
    assert (H1 : alias_steps m (p + 1) x = Some next) by (rewrite alias_steps_add, Hc; cbn; by rewrite E).
    split; [done|]. intros k Hk. destruct (decide (k = (p + 1)%nat)) as [-> |]; [rewrite H1; congruence|]. apply Hno. lia.
Qed.

(** an envelope sender belongs to the authenticated user through the aliases
    file exactly when following the aliases from the sender's name reaches the
    user's name in one to sixteen steps: cycles and longer chains never do, and
    no reachable owner is missed. *)
Theorem alias_ownership_is_reachability (m : list (gostring * gostring)) (wanted current : gostring) :
  follow_aliases m wanted maxAliasDepth [] current = true <->
  exists n, (1 <= n <= maxAliasDepth)%nat /\ alias_steps m n current = Some wanted.
Proof.
  split; [apply follow_aliases_sound|]. intros (n & Hn & Hs). apply (follow_aliases_complete m wanted _ _ _ n); [|by right|done|done].
  intros x Hx. set_solver.
Qed.

(** ** Sizes *)

Section Sizes.
Context `{ReplyMime}.

(** The part of a message that its text and attachments do not change. *)
Definition headers_valid (m : ReplyMessage) : bool := negb (existsb is_invalid (header_write <$> standard_headers m ++ rm_Headers m)).
Definition header_bytes (m : ReplyMessage) : Z := total (header_write <$> standard_headers m ++ rm_Headers m).

Lemma body_writes_valid m : existsb is_invalid (body_writes m) = false.
Proof.
  unfold body_writes. destruct (rm_Attachments m) as [|a l]; [done|]. cbn [app existsb is_invalid orb]. rewrite existsb_app.
  assert (Ha : forall atts, existsb is_invalid (atts ≫= attachment_writes) = false).
  { induction atts as [|x atts IH]; [done|]. cbn [mbind list_bind]. rewrite existsb_app, IH. done. }
  by rewrite Ha.
Qed.
Lemma Size_valid m : headers_valid m = true -> Size m = Some (header_bytes m + total (body_writes m)).
Proof.
  unfold headers_valid, Size, render. rewrite existsb_app, body_writes_valid, orb_false_r. intros ->%negb_true_iff.
  unfold header_bytes. by rewrite <- total_app.
Qed.
Lemma Size_invalid m : headers_valid m = false -> Size m = None.
Proof. unfold headers_valid, Size, render. rewrite existsb_app. by intros ->%negb_false_iff. Qed.
Lemma Size_some m n : Size m = Some n -> headers_valid m = true.
Proof. intros Hs. destruct (headers_valid m) eqn:E; [done|]. rewrite (Size_invalid m E) in Hs. discriminate Hs. Qed.

(** ** Building a reply *)

Lemma removelast_app_last {A} (l : list A) x : last l = Some x -> l = removelast l ++ [x].
Proof. intros Hl. apply last_Some in Hl as [l' ->]. by rewrite removelast_last. Qed.

Lemma drop_attachments_spec turns m text omitted maxBytes m' ok :
  drop_attachments turns m text omitted maxBytes = Some (m', ok) ->
  m' = with_text (with_attachments m (rm_Attachments m')) (rm_Text m') /\ rm_Attachments m' `prefix_of` rm_Attachments m /\
  (ok = true -> exists size, Size m' = Some size /\ (maxBytes <= 0 \/ size <= maxBytes)) /\
  (ok = false -> (length (rm_Attachments m) <= turns)%nat -> rm_Attachments m' = [] /\ 0 < maxBytes).
Proof.
  revert m omitted. induction turns as [|turns IH]; intros m omitted Hd; cbn [drop_attachments] in Hd;
    (destruct (Size m) as [size|] eqn:Es; [|done]); (destruct ((maxBytes <=? 0) || (size <=? maxBytes)) eqn:Ef; [injection Hd as <- <-;
      split_and!; [by destruct m|done|intros _; exists size; split; [done|lia]|done]|]).
  - injection Hd as <- <-. split_and!; [by destruct m|done|done|]. intros _ Hl. destruct (rm_Attachments m); [split; [done|lia]|cbn in Hl; lia].
  - destruct (last (rm_Attachments m)) as [a|] eqn:El.
    + apply IH in Hd as (H1 & H3 & H4 & H5). apply removelast_app_last in El. cbn [with_text with_attachments rm_MaxBytes rm_Attachments] in *.
      split_and!; [exact H1| |done|].
      * etrans; [exact H3|]. rewrite El at 2. by apply prefix_app_r.
      * intros Hf Hl. apply H5; [done|]. rewrite El, length_app in Hl. cbn in Hl. lia.
    + injection Hd as <- <-. split_and!; [by destruct m|done|done|]. intros _ _. apply last_None in El. split; [done|lia].
Qed.

Lemma bisect_fits turns m text maxBytes low high r :
  bisect turns m text maxBytes low high = Some r ->
  (exists size, Size (with_text m (truncateUTF8 text low)) = Some size /\ size <= maxBytes) ->
  exists size, Size (with_text m (truncateUTF8 text r)) = Some size /\ size <= maxBytes.
Proof.
  revert low high. induction turns as [|turns IH]; intros low high Hb Hlow; cbn [bisect] in Hb; [by injection Hb as <-|].
  case_bool_decide; [|by injection Hb as <-]. cbv zeta in Hb. set (mid := (low + (high - low + 1) / 2)%nat) in Hb.
  destruct (Size (with_text m (truncateUTF8 text mid))) as [size|] eqn:Es; [|discriminate Hb]. destruct (Z.leb_spec size maxBytes); [|by eapply IH].
  eapply IH; [exact Hb|]. exists size. split; [exact Es|lia].
Qed.
Lemma bisect_total turns m text maxBytes low high : headers_valid m = true -> exists r, bisect turns m text maxBytes low high = Some r.
Proof.
  intros Hv. revert low high. induction turns as [|turns IH]; intros low high; cbn [bisect]; [by eexists|].
  case_bool_decide; [|by eexists]. cbv zeta. rewrite Size_valid by exact Hv. case_match; apply IH.
Qed.

Lemma drop_attachments_total turns m text omitted maxBytes : headers_valid m = true ->
  exists x, drop_attachments turns m text omitted maxBytes = Some x.
Proof.
  revert m omitted. induction turns as [|turns IH]; intros m omitted Hv; cbn [drop_attachments]; rewrite Size_valid by done.
  - case_match; by eexists.
  - case_match; [by eexists|]. destruct (last (rm_Attachments m)); [|by eexists]. by apply IH.
Qed.

Lemma truncateUTF8_zero text : truncateUTF8 text 0 = [].
Proof. apply nil_length_inv. pose proof (truncateUTF8_length text 0). lia. Qed.

(** the reply to a command message never exceeds the configured size, and it
    carries the first of the requested attachments, in order: what is built
    within the limit is exactly what is measured. *)
Theorem command_reply_fits (from recipient subject date token : gostring) (reply : commandReplyContent) (maxBytes : Z) (m : ReplyMessage) :
  0 < maxBytes -> buildBoundedCommandReplyMessage from recipient subject date token reply maxBytes = inr m ->
  rm_Attachments m `prefix_of` rc_Attachments reply /\
  exists payload, Build m = inr payload /\ go_len payload <= maxBytes.
Proof.
  intros Hmax Hb. unfold buildBoundedCommandReplyMessage in Hb. cbv zeta in Hb. rewrite (proj2 (Z.ltb_lt _ _) Hmax) in Hb.
  set (text := commandReplyTextWithin _ _) in Hb. destruct (drop_attachments _ _ _ _ _) as [[m' ok]|] eqn:Ed; [|done].
  apply drop_attachments_spec in Ed as (Hm & Hp & Hok & Hbad). cbn [rm_Attachments commandReplyMessage rc_Attachments] in Hp.
  assert (Hmb : rm_MaxBytes m' = maxBytes) by by rewrite Hm.
  assert (Hfin : forall m2 size, rm_MaxBytes m2 = maxBytes -> Size m2 = Some size -> size <= maxBytes ->
    exists payload, Build m2 = inr payload /\ go_len payload <= maxBytes).
  { intros m2 size H2 Hs Hle. destruct (proj2 (Build_Size m2) size Hs) as (out & Ho & Hl); [right; lia|]. exists out. split; [done|lia]. }
  destruct ok.
  - injection Hb as <-. destruct (Hok eq_refl) as (size & Hs & Hle). split; [exact Hp|]. apply (Hfin m' size); [exact Hmb|exact Hs|lia].
  - destruct (bisect _ _ _ _ _ _) as [low|] eqn:El; [|discriminate Hb].
    match type of Hb with context [Size ?x] => set (m2 := x) in Hb; destruct (Size m2) as [size|] eqn:Es end; [|discriminate Hb].
    destruct (Z.ltb_spec maxBytes size); [discriminate Hb|]. injection Hb as <-. split; [exact Hp|]. apply (Hfin m2 size); [exact Hmb|exact Es|lia].
Qed.

(** The message without text and attachments. *)
Definition bare_reply (from recipient subject date token : gostring) (maxBytes : Z) : ReplyMessage :=
  commandReplyMessage from recipient subject date token (MkReplyContent [] []) maxBytes.

(** a reply is always produced when its headers alone fit: whatever the text
    and the attachments of the commands, the reply message is built as soon as
    the same message with neither would be, so the loops that shrink it end with
    a message that fits and not with an error. *)
Theorem command_reply_always_built (from recipient subject date token : gostring) (reply : commandReplyContent) (maxBytes size : Z) :
  Size (bare_reply from recipient subject date token maxBytes) = Some size -> size <= maxBytes ->
  exists m, buildBoundedCommandReplyMessage from recipient subject date token reply maxBytes = inr m.
Proof.
  intros Hs Hle. unfold buildBoundedCommandReplyMessage. cbv zeta. set (text := if 0 <? maxBytes then _ else _).
  set (m0 := commandReplyMessage _ _ _ _ _ _ _). assert (Hv : headers_valid m0 = true) by exact (Size_some _ _ Hs).
  destruct (drop_attachments_total (length (rc_Attachments reply)) m0 text [] maxBytes Hv) as [[m ok] Ed]. rewrite Ed.
  apply drop_attachments_spec in Ed as (Hm & _ & _ & Hbad). destruct ok; [by eexists|].
  destruct (Hbad eq_refl) as [Hnil Hpos]; [done|]. assert (Hv' : headers_valid m = true) by (rewrite Hm; exact Hv).
  destruct (bisect_total (length (rm_Text m)) m (rm_Text m) maxBytes 0 (length (rm_Text m)) Hv') as [low Hlow]. rewrite Hlow.
  destruct (bisect_fits _ _ _ _ _ _ _ Hlow) as (size' & Hs' & Hle').
  - exists size. split; [|done]. rewrite truncateUTF8_zero, <- Hs. f_equal. rewrite Hm, Hnil. reflexivity.
  - rewrite Hs'. rewrite (proj2 (Z.ltb_ge _ _)) by lia. by eexists.
Qed.
End Sizes.

(** ** The attachment budget *)

Definition charge (a : ReplyAttachment) : Z := budget_charge (go_len (ra_Contents a)).
Definition charges (l : list ReplyAttachment) : Z := foldr Z.add 0 (charge <$> l).

Lemma budget_charge_pos n : 0 <= n -> 0 < budget_charge n.
Proof. intros. unfold budget_charge. lia. Qed.

(** What is read within the limit can be paid for. *)
Lemma readLimit_affordable b n : 0 <= n <= readLimit b -> 0 < readLimit b -> budget_charge n <= remaining b.
Proof.
  unfold readLimit, budget_charge. intros Hn Hp.
  assert (Hr : 0 <= remaining b - 1024).
  { destruct (Z.le_gt_cases 0 (remaining b - 1024)) as [|Hneg]; [done|]. exfalso.
    pose proof (Z.quot_le_mono (remaining b - 1024) 0 78 ltac:(lia) ltac:(lia)) as Hq. rewrite Z.quot_0_l in Hq by lia. lia. }
  pose proof (Z.mul_quot_le (remaining b - 1024) 78 Hr ltac:(lia)) as Hk2. set (k := Z.quot (remaining b - 1024) 78) in *.
  assert (Z.quot (n + 56) 57 <= k) by (rewrite Z.quot_div_nonneg by lia; apply Z.lt_succ_r, Z.div_lt_upper_bound; lia). lia.
Qed.

(** The charge covers the encoded attachment and 1024 bytes for its headers. *)
Lemma counted_charge contents : counted (WriteAttachment contents) + 1024 <= budget_charge (go_len contents).
Proof.
  cbn [counted]. cbv zeta. unfold budget_charge. pose proof (go_len_nonneg contents) as Hn. set (n := go_len contents) in *.
  rewrite Z.quot_div_nonneg by lia. set (k := Z.max 1 ((n + 56) / 57)).
  assert (Hk : n <= 57 * k) by (unfold k; pose proof (Z.div_mod (n + 56) 57 ltac:(lia)); pose proof (Z.mod_pos_bound (n + 56) 57 ltac:(lia)); lia).
  assert (He : EncodedLen n <= 76 * k).
  { unfold EncodedLen. assert ((n + 2) / 3 <= 19 * k) by (apply Z.lt_succ_r, Z.div_lt_upper_bound; lia). lia. }
  assert ((EncodedLen n + 75) / 76 <= k) by (apply Z.lt_succ_r, Z.div_lt_upper_bound; lia). lia.
Qed.

Section Budget.
Context `{UnicodeTables, MessageSource} (maxMessageSize : Z).

(** Every response pays for its attachments from the budget. *)
Lemma render_response_budget interrupted d b r b' :
  render_response maxMessageSize interrupted d (Some b) = (r, b') -> 0 <= remaining b ->
  exists b'', b' = Some b'' /\ 0 <= remaining b'' /\
    foldr Z.add 0 ((λ a, budget_charge (go_len (at_Contents a))) <$> Attachments r) + remaining b'' <= remaining b.
Proof.
  intros Hr Hb. destruct d as [text|entry]; cbn [render_response] in Hr; [injection Hr as <- <-; exists b; split; [done|]; cbn; lia|].
  unfold rejectionDetail in Hr. destruct interrupted; [injection Hr as <- <-; exists b; split; [done|]; cbn; lia|]. cbv zeta in Hr.
  assert (Ho : forall id, remaining (omit b id) = remaining b) by (intros id; unfold omit; by destruct (bool_decide (id ∈ omitted b))).
  destruct (bool_decide (rn_ID entry ∈ included b)); [injection Hr as <- <-; exists b; split; [done|]; cbn; lia|].
  destruct (Z.leb_spec (Z.min maxMessageSize (readLimit b)) 0) as [Hl|Hl]; [injection Hr as <- <-; eexists; split; [done|]; rewrite Ho; cbn; lia|].
  unfold detail_read in Hr. cbv zeta in Hr. set (limit := Z.min maxMessageSize (readLimit b)) in *.
  assert (Hread : forall contents, go_len contents <= limit -> budget_charge (go_len contents) <= remaining b).
  { intros contents Hc. apply readLimit_affordable; [|lia]. pose proof (go_len_nonneg contents). lia. }
  destruct (ReadWithRecordID _ _ limit) as [e|contents]; [|destruct (Z.ltb_spec limit (go_len contents))].
  - destruct e; injection Hr as <- <-; eexists; (split; [done|]); rewrite ?Ho; cbn; lia.
  - injection Hr as <- <-. eexists. split; [done|]. rewrite Ho. cbn. lia.
  - injection Hr as <- <-. specialize (Hread contents ltac:(lia)). eexists. split; [done|]. cbn. lia.
Qed.

Lemma charges_app l1 l2 : charges (l1 ++ l2) = charges l1 + charges l2.
Proof. unfold charges. rewrite fmap_app. induction (charge <$> l1) as [|x l IH]; cbn [foldr app]; lia. Qed.
Lemma charges_nonneg l : 0 <= charges l.
Proof.
  unfold charges. induction l as [|a l IH]; cbn [fmap list_fmap foldr]; [lia|].
  pose proof (budget_charge_pos (go_len (ra_Contents a)) (go_len_nonneg _)). unfold charge at 1. lia.
Qed.

Lemma add_attachments_charges new old :
  charges (add_attachments old new) <= charges old + foldr Z.add 0 ((λ a, budget_charge (go_len (at_Contents a))) <$> new).
Proof.
  unfold add_attachments. revert old. induction new as [|a new IH]; intros old; cbn [fold_left fmap list_fmap foldr]; [lia|].
  pose proof (budget_charge_pos (go_len (at_Contents a)) (go_len_nonneg _)) as Hp. case_match; [specialize (IH old); lia|].
  etrans; [apply IH|]. rewrite charges_app. unfold charges at 2, charge. cbn. lia.
Qed.

Lemma render_parts_budget parts interrupted i body atts b body' atts' b' :
  render_parts maxMessageSize parts interrupted i body atts b = (body', atts', b') -> 0 <= remaining b ->
  0 <= remaining b' /\ charges atts' + remaining b' <= charges atts + remaining b.
Proof.
  revert i body atts b. induction parts as [|[command part] parts IH]; intros i body atts b Hr Hb; cbn [render_parts] in Hr;
    [injection Hr as _ <- <-; lia|].
  destruct (interrupted i); [injection Hr as _ <- <-; lia|].
  destruct (AppendBoundedResponse body _) as [body1 fits1]. destruct fits1; cbn [negb] in Hr; [|injection Hr as _ <- <-; lia].
  destruct (render_response _ _ part (Some b)) as [r b1] eqn:Er.
  apply render_response_budget in Er as (b2 & -> & Hb2 & Hc); [|done]. cbn [default] in Hr. unfold id in Hr.
  destruct (AppendBoundedResponse body1 _) as [body2 fits2]. pose proof (add_attachments_charges (Attachments r) atts) as Ha.
  assert (Hpos : 0 <= foldr Z.add 0 ((λ a, budget_charge (go_len (at_Contents a))) <$> Attachments r)).
  { clear. induction (Attachments r) as [|a l IH]; cbn [fmap list_fmap foldr]; [lia|].
    pose proof (budget_charge_pos (go_len (at_Contents a)) (go_len_nonneg _)). lia. }
  destruct fits2; cbn [negb] in Hr; [apply IH in Hr as [H1 H2]; [|done]; lia|injection Hr as _ <- <-; lia].
Qed.
End Budget.

Lemma commandReplyTextBytes_nonneg n : 0 <= commandReplyTextBytes n.
Proof. unfold commandReplyTextBytes, MaxResponseBytes. lia. Qed.

Lemma commandReplyTextWithin_bound text n : 0 <= n -> go_len (commandReplyTextWithin text n) <= n.
Proof.
  intros Hn. unfold commandReplyTextWithin. destruct (Z.leb_spec (go_len text) n); [done|].
  destruct (Z.ltb_spec n (go_len within_notice)).
  - pose proof (truncateUTF8_length within_notice (Z.to_nat n)). unfold go_len. lia.
  - pose proof (truncateUTF8_length text (Z.to_nat (n - go_len within_notice))). rewrite go_len_app. unfold go_len in *. lia.
Qed.

Section Sufficient.
Context `{UnicodeTables, MessageSource, ReplyMime}.

(** The bytes of a multipart reply beside its text and its attachments. *)
Definition reply_overhead (m : ReplyMessage) : Z := header_bytes m + go_len mixed_preamble + go_len text_part + go_len closing.

Lemma attachments_total l : Forall (λ a, go_len (attachment_part a) <= 1024) l -> total (l ≫= attachment_writes) <= charges l.
Proof.
  induction 1 as [|a l Ha _ IH]; [done|]. cbn [mbind list_bind]. rewrite total_app. unfold charges. cbn [fmap list_fmap foldr]. fold (charges l).
  pose proof (counted_charge (ra_Contents a)) as Hc. unfold charge, attachment_writes, total in *. cbn [fmap list_fmap foldr counted] in *. lia.
Qed.

Lemma multipart_total m : rm_Attachments m <> [] ->
  total (body_writes m) = go_len mixed_preamble + go_len text_part + go_len (crlf_text (rm_Text m)) + total (rm_Attachments m ≫= attachment_writes) + go_len closing.
Proof.
  intros Hne. unfold body_writes. destruct (rm_Attachments m) as [|a l]; [done|]. rewrite !total_app. unfold total. cbn [fmap list_fmap foldr counted]. lia.
Qed.

(** the attachment budget of a reply is enough: whatever commands are answered
    and whatever the archive holds, when the headers of the reply and the
    multipart frame take at most the 4096 bytes reserved for them and the header
    of every attachment at most the 1024 bytes it was charged, the reply is built
    with all the attachments that were rendered, none is dropped, and its text is
    not cut further. *)
Theorem reply_budget_sufficient (from recipient subject date token : gostring) (parts : list (Command * DeferredResponse))
    (interrupted : nat -> bool) (maxBytes : Z) :
  let reply := render_reply maxBytes parts interrupted in
  let m := commandReplyMessage from recipient subject date token
             (MkReplyContent (commandReplyTextWithin (boundedCommandReplyText (rc_Text reply)) (commandReplyTextBytes maxBytes)) (rc_Attachments reply)) maxBytes in
  rc_Attachments reply <> [] ->
  headers_valid m = true -> reply_overhead m <= 4096 -> Forall (λ a, go_len (attachment_part a) <= 1024) (rc_Attachments reply) ->
  buildBoundedCommandReplyMessage from recipient subject date token reply maxBytes = inr m.
Proof.
  intros reply m Hne Hv Ho Ha. unfold render_reply in reply.
  assert (Hc : charges (rc_Attachments reply) <= commandReplyAttachmentBytes maxBytes).
  { unfold reply. destruct (render_parts _ _ _ _ _ _ _) as [[body atts] b] eqn:Er. cbn [rc_Attachments].
    apply render_parts_budget in Er as [Hb1 Hb2]; [|cbn; lia]. cbn [remaining NewReplyAttachmentBudget] in Hb2. change (charges []) with 0 in Hb2.
    unfold commandReplyAttachmentBytes in *. lia. }
  clearbody reply. pose proof (commandReplyTextBytes_nonneg maxBytes) as Ht.
  assert (Hpos : 0 < charges (rc_Attachments reply)).
  { destruct (rc_Attachments reply) as [|a l]; [by destruct Hne|]. unfold charges. cbn [fmap list_fmap foldr]. fold (charges l). pose proof (charges_nonneg l).
    pose proof (budget_charge_pos (go_len (ra_Contents a)) (go_len_nonneg _)). unfold charge. lia. }
  unfold commandReplyAttachmentBytes in Hc. assert (Hmax : 0 < maxBytes) by lia.
  unfold buildBoundedCommandReplyMessage. cbv zeta. rewrite (proj2 (Z.ltb_lt _ _) Hmax). fold m.
  assert (Hs : exists size, Size m = Some size /\ size <= maxBytes).
  { eexists. split; [by apply Size_valid|]. rewrite multipart_total by exact Hne.
    pose proof (attachments_total _ Ha) as Hat. change (rm_Attachments m) with (rc_Attachments reply).
    pose proof (crlf_text_length (rm_Text m)) as Hcr.
    pose proof (commandReplyTextWithin_bound (boundedCommandReplyText (rc_Text reply)) _ Ht) as Hw. fold (rm_Text m) in Hw.
    unfold reply_overhead in Ho. change (rm_Text m) with (commandReplyTextWithin (boundedCommandReplyText (rc_Text reply)) (commandReplyTextBytes maxBytes)) in *. lia. }
  destruct Hs as (size & Hs & Hle). clearbody m.
  destruct (length (rc_Attachments reply)); cbn [drop_attachments]; rewrite Hs, (proj2 (Z.leb_le size maxBytes) Hle), orb_true_r; reflexivity.
Qed.
End Sufficient.

(** ** Instances *)

Lemma Forall_leb {A} (f : A -> Z) (n : Z) (l : list A) : forallb (λ a, f a <=? n) l = true -> Forall (λ a, f a <= n) l.
Proof. intros Hl. apply Forall_forall. intros a Ha. rewrite forallb_forall in Hl. apply Z.leb_le, Hl, list_elem_of_In, Ha. Qed.


Definition plain_mime : ReplyMime := {|
  boundary := lit "0123456789abcdef0123456789abcdef0123456789abcdef0123456789ab";
  format_media_type t k v := t ++ lit "; " ++ k ++ lit "=" ++ v;
|}.
Definition one_archive : MessageSource := {|
  ReadWithRecordID _ _ _ := inr (lit "Subject: offer" ++ newline ++ newline ++ lit "Click here.");
  archived_visible_body _ := Some (lit "Click here.", false);
|}.
Definition sample_parts : list (Command * DeferredResponse) :=
  [(cmdText commandRejection (lit "REJECTION 7"),
    DRejection (MkRejection 7 (lit "spam@example.org") (lit "offer") [lit "bob@example.com"] 5000 (lit "spam")))].
Definition sample_reply : commandReplyContent := @render_reply one_archive 100000 sample_parts (λ _, false).
Definition long_reply : commandReplyContent := MkReplyContent (lit "abcdefghijklmnopqrstuvwxyz abcdefghijklmnopqrstuvwxyz") (rc_Attachments sample_reply).
Abbreviation sample_build := (@buildBoundedCommandReplyMessage plain_mime (lit "guard@example.com") (lit "bob@example.com") (lit "Re: commands")
  (lit "Mon, 17 Nov 2025 10:00:00 +0000") (lit "token")).

(** A reply of at most 340 bytes drops the attachment and shortens the text. *)
Lemma command_reply_fits_witness : exists m, sample_build long_reply 340 = inr m /\
  rm_Attachments m `prefix_of` rc_Attachments long_reply /\ exists payload, @Build plain_mime m = inr payload /\ go_len payload <= 340.
Proof.
  destruct (sample_build long_reply 340) as [e|m] eqn:E; [exfalso; apply (f_equal (λ x, match x with inl _ => true | inr _ => false end)) in E; vm_compute in E; discriminate E|].
  exists m. split; [reflexivity|].
  exact (@command_reply_fits plain_mime _ _ _ _ _ _ 340 m eq_refl E).
Defined.

Lemma command_reply_always_built_witness : exists m, sample_build long_reply 340 = inr m.
Proof.
  apply (@command_reply_always_built plain_mime _ _ _ _ _ long_reply 340 309); [vm_compute; reflexivity|vm_compute; discriminate].
Defined.

Lemma reply_budget_sufficient_witness : exists m, sample_build sample_reply 100000 = inr m /\ length (rm_Attachments m) = 1%nat.
Proof.
  eexists. split.
  1: apply (@reply_budget_sufficient one_archive plain_mime _ _ _ _ _ sample_parts (λ _, false) 100000).
  - vm_compute. discriminate.
  - vm_compute. reflexivity.
  - vm_compute. discriminate.
  - apply Forall_leb. vm_compute. reflexivity.
  - vm_compute. reflexivity.
Defined.
