(* ===== verification/Policy.v ===== *)
(** * Policy decisions (internal/milter)

    The decisions a session takes about one message, apart from the protocol:
    authentication_results.go, ip_reputation.go (the exclusions around the
    repository), message_policy.go, attachment_policy.go (evaluation),
    analysis.go (evaluation), activity.go, connection_dns.go,
    sender_domain_policy.go and sender_blocklist_policy.go (address sets),
    session_identity.go (identity cleaning).

    [PolicyStores] is the interface between the policies and the repositories
    (the interfaces of internal/stores that a session uses); [PolicyStoresLaws]
    is what the policies rely on, and [sqlite_stores] discharges it with the
    repositories of this development. *)
From Stdlib Require Import QArith.
From S2P Require Import Prelude GoText NetSafety Calendar Rejections Activity AdminCmd AdminFormat AdminExec MailAddr Protocol Message MailAuth SqlDb IPReputation IPAllowlist Correspondents SenderBlocklist.
Open Scope Z_scope.
Import NetSafety.

(** ** The repositories a session uses *)

Class PolicyStores (W : Type) := {
  st_RecordRejection : Addr -> Z -> W -> (repo_error + IPBlock) * W;
  st_RecordLegitimate : Addr -> Z -> W -> (repo_error + unit) * W;
  st_ActiveBlockForAttempt : Addr -> Z -> W -> (repo_error * IPBlock * bool + IPBlock * bool) * W;
  st_LearnAuthenticated : gostring -> list gostring -> Z -> W -> (repo_error + unit) * W;
  st_TouchInbound : gostring -> list gostring -> Z -> W -> (repo_error + unit) * W;
  st_RecordInboundClassification : InboundClassification -> Z -> W -> (repo_error + list candidateEvent) * W;
  st_Match : gostring -> list gostring -> Z -> W -> (repo_error + CorrespondentMatch) * W;
  st_MatchSenderBlocks : list gostring -> list gostring -> bool -> Z -> W -> (repo_error + SenderBlockMatch) * W;
  st_Execute : Command -> Actor -> Z -> W -> (repo_error + DeferredResponse) * W;
}.

(** The lookups leave the stored state alone. *)
Class PolicyStoresLaws (W O : Type) `{PolicyStores W} := {
  st_observe : W -> O;
  st_Match_observe : forall c rs t w, st_observe (st_Match c rs t w).2 = st_observe w;
  st_MatchSenderBlocks_observe : forall ss rs sub t w, st_observe (st_MatchSenderBlocks ss rs sub t w).2 = st_observe w;
}.

Section Sqlite.
Context `{UnicodeTables, NetMail, NetIPText, FloatSum, FloatText} (ip : IPReputationOptions) (co : CorrespondentOptions) (bl : SenderBlocklistOptions).
Context (proc : Processor) (lookup : Addr -> option (list gostring)).

Definition sqlite_stores : PolicyStores World := {|
  st_RecordRejection := RecordRejection ip;
  st_RecordLegitimate := RecordLegitimate ip;
  st_ActiveBlockForAttempt := ActiveBlockForAttempt ip;
  st_LearnAuthenticated := Correspondents.LearnAuthenticated co;
  st_TouchInbound := Correspondents.TouchInbound co;
  st_RecordInboundClassification := Correspondents.RecordInboundClassification co;
  st_Match := Correspondents.Match co;
  st_MatchSenderBlocks := SenderBlocklist.MatchSenderBlocks bl;
  st_Execute := Execute proc lookup;
|}.

(** Looking up runs queries only. *)
Definition sqlite_stores_laws : @PolicyStoresLaws World Db sqlite_stores.
Proof.
  refine (@Build_PolicyStoresLaws World Db sqlite_stores wdb _ _); cbn.
  - intros c rs t w. unfold Correspondents.Match. cbv zeta.
    repeat match goal with |- context [if ?b then _ else _] => destruct b end; try done;
      match goal with |- context [query ?f ?w] => pose proof (query_db f w) as Hq; destruct (query f w) as [[e|[m n]] w'] end;
      cbn; by eapply Hq.
  - intros ss rs sub t w. unfold SenderBlocklist.MatchSenderBlocks. cbv zeta.
    repeat match goal with |- context [if ?b then _ else _] => destruct b end; try done;
      match goal with |- context [query ?f ?w] => pose proof (query_db f w) as Hq; destruct (query f w) as [[e|rows] w'] end;
      cbn; by eapply Hq.
Defined.
End Sqlite.

(** ** Trust *)

Definition AuthenticationTrustSPF := lit "spf".
Definition AuthenticationTrustEither := lit "either".
Definition AuthenticationTrustBoth := lit "both".

Definition meetsTrustRequirement (e : Evidence) (requirement : gostring) : bool :=
  if beq requirement AuthenticationTrustSPF then SPFAligned e
  else if beq requirement AuthenticationTrustEither then DKIMAligned e || SPFAligned e
  else if beq requirement AuthenticationTrustBoth then DKIMAligned e && SPFAligned e
  else DKIMAligned e.

Definition domainMatches (hostname domain : gostring) : bool :=
  beq hostname domain || hasSuffix hostname (lit "." ++ domain).

Definition allowedSenderDomain `{UnicodeTables} (fromDomain : gostring) (allowedDomains : list gostring) : gostring :=
  let fromDomain := DNSHostname fromDomain in
  if beq fromDomain [] then []
  else if existsb (λ allowed, domainMatches fromDomain (DNSHostname allowed)) allowedDomains then fromDomain else [].

(** ** Connection DNS *)

Inductive ForwardConfirmation := ForwardConfirmed | ForwardUnconfirmed | ForwardLookupFailed.
#[export] Instance ForwardConfirmation_eq_dec : EqDecision ForwardConfirmation.
Proof. solve_decision. Defined.
Inductive ReverseDNSStatus := ReverseDNSUnset | ReverseDNSAvailable | ReverseDNSAbsent | ReverseDNSLookupFailed | ReverseDNSNotApplicable.
#[export] Instance ReverseDNSStatus_eq_dec : EqDecision ReverseDNSStatus.
Proof. solve_decision. Defined.
Record ReverseDNSName := MkReverseDNSName { rd_Hostname : gostring; rd_Confirmation : ForwardConfirmation }.
Record connectionDNSResult := MkDNSResult { dns_status : ReverseDNSStatus; dns_names : list ReverseDNSName }.
Definition noDNS : connectionDNSResult := MkDNSResult ReverseDNSNotApplicable [].

Definition maxConnectionPTRNames : nat := 5.

(** The resolver, under the deadline of the lookup: PTR names of an address
    ([None] is an error) and addresses of a name with whether there was an
    error.  [netip.AddrFromSlice] has been applied to the addresses. *)
Record dnsResolver := MkResolver { LookupAddr : Addr -> option (list gostring); LookupIPAddr : gostring -> list Addr * bool }.

Definition confirm (resolver : dnsResolver) (addr : Addr) (hostname : gostring) : ForwardConfirmation :=
  let '(forward, failed) := LookupIPAddr resolver hostname in
  if existsb (λ resolved, bool_decide (unmap resolved = unmap addr)) forward then ForwardConfirmed
  else if failed then ForwardLookupFailed else ForwardUnconfirmed.

(** The loop over the PTR names: [seen] and the names kept so far. *)
Fixpoint resolve_names `{UnicodeTables} (resolver : dnsResolver) (addr : Addr) (candidates seen : list gostring)
    (names : list ReverseDNSName) : list ReverseDNSName :=
  match candidates with
  | [] => names
  | candidate :: rest =>
      let hostname := DNSHostname candidate in
      if beq hostname [] || bool_decide (hostname ∈ seen) then resolve_names resolver addr rest seen names
      else
        let names := names ++ [MkReverseDNSName hostname (confirm resolver addr hostname)] in
        if bool_decide (maxConnectionPTRNames <= length names)%nat then names
        else resolve_names resolver addr rest (hostname :: seen) names
  end.

Definition resolveConnectionDNS `{UnicodeTables} (resolver : option dnsResolver) (addr : Addr) (timeout : Z) : connectionDNSResult :=
  match resolver with
  | None => noDNS
  | Some resolver =>
      if (timeout <=? 0) || negb (AddressRoutable addr) then noDNS
      else match LookupAddr resolver addr with
           | None => MkDNSResult ReverseDNSLookupFailed []
           | Some [] => MkDNSResult ReverseDNSAbsent []
           | Some ptrNames =>
               match resolve_names resolver addr ptrNames [] [] with
               | [] => MkDNSResult ReverseDNSAbsent []
               | names => MkDNSResult ReverseDNSAvailable names
               end
           end
  end.

(** ** Sending-IP policy (ip_reputation.go), over the allowlist of [IPAllowlist] *)

Definition domainAllowed `{UnicodeTables} (s : ipReputationStore) (dns : connectionDNSResult) : bool :=
  match domainAllowlist s with
  | [] => false
  | domains =>
      bool_decide (dns_status dns = ReverseDNSAvailable) &&
      existsb (λ entry, bool_decide (rd_Confirmation entry = ForwardConfirmed) &&
                 existsb (domainMatches (DNSHostname (rd_Hostname entry))) domains) (dns_names dns)
  end.
Definition usesDomainAllowlist (s : ipReputationStore) : bool := match domainAllowlist s with [] => false | _ => true end.

Section StorePolicy.
Context `{UnicodeTables} {W : Type} `{PolicyStores W} (s : ipReputationStore).

Definition ip_add (addr : Addr) (dns : connectionDNSResult) (now : Z) (w : W) : bool * W :=
  if negb (enabledFeature s) || negb (isValid addr) then (false, w)
  else
    let addr := CanonicalIP addr in
    if allowed s addr then (false, w)
    else if domainAllowed s dns then (false, w)
    else match st_RecordRejection addr now w with
         | (inl _, w) => (false, w)
         | (inr block, w) => (bool_decide (blk_Level block <> None), w)
         end.

Definition ip_ActiveBlockForAttempt (addr : Addr) (now : Z) (w : W) : (repo_error * IPBlock * bool + IPBlock * bool) * W :=
  if negb (enabledFeature s) || negb (isValid addr) then (inr (noIPBlock, false), w)
  else
    let addr := CanonicalIP addr in
    if allowed s addr then (inr (noIPBlock, false), w) else st_ActiveBlockForAttempt addr now w.

Definition ip_lookup (addr : Addr) (now : Z) (w : W) : option IPBlock * W :=
  match ip_ActiveBlockForAttempt addr now w with
  | (inl _, w) => (None, w)
  | (inr (block, found), w) => (if found then Some block else None, w)
  end.

Definition ip_RecordLegitimate (addr : Addr) (now : Z) (w : W) : (repo_error + unit) * W :=
  if negb (enabledFeature s) || negb (isValid addr) then (inr tt, w)
  else st_RecordLegitimate (CanonicalIP addr) now w.
End StorePolicy.

(** ** Inbound evidence (message_policy.go) *)

Record CorrespondentsConfig := MkCorrespondentsConfig {
  cc_UseAllowlist : bool;
  cc_Scope : gostring;
  cc_RecipientMatch : gostring;
  cc_BypassAI : bool;
  cc_RequireAuthenticationForBypass : bool;
  cc_TrustedAuthservIDs : list gostring;
}.

Record inboundEvidence := MkInboundEvidence {
  ie_recipientsComplete : bool;
  ie_alignedDKIM : bool;
  ie_alignedSPF : bool;
  ie_trustRequirementMet : bool;
  ie_knownCorrespondent : bool;
  ie_bypassAI : bool;
  ie_allowedSenderDomain : gostring;
  ie_authenticatedDomain : gostring;
}.

Record messageContext := MkMessageContext {
  mc_peerIP : Addr;
  mc_connectionDNS : connectionDNSResult;
  mc_authenticated : bool;
  mc_visibleSender : gostring;
  mc_visibleSenderDomain : gostring;
  mc_envelopeSender : gostring;
  mc_envelopeRecipients : list gostring;
  mc_recipientsComplete : bool;
}.

Definition MTAHostnameAuthservID := lit "$mta_hostname".
Definition trustedAuthservIDs (cfg : CorrespondentsConfig) (mtaHostname : gostring) : list gostring :=
  cc_TrustedAuthservIDs cfg ≫= λ id,
    if beq id MTAHostnameAuthservID then (if negb (beq mtaHostname []) then [mtaHostname] else []) else [id].

Section InboundEvidence.
Context `{UnicodeTables} {W : Type} `{PolicyStores W}.

Definition prepareInboundEvidence (cfg : CorrespondentsConfig) (trustRequirement : gostring) (senderDomainAllowlist : list gostring)
    (allowlistRequireAuthentication : bool) (msg : Message) (current : messageContext) (authentication : Evidence)
    (now : Z) (w : W) : inboundEvidence * W :=
  if mc_authenticated current || (1 <? FromHeaderCount msg)
  then (MkInboundEvidence (mc_recipientsComplete current) false false false false false [] [], w)
  else
    let trust := meetsTrustRequirement authentication trustRequirement in
    let authenticatedDomain := if AnyAligned authentication then mc_visibleSenderDomain current else [] in
    let domain := allowedSenderDomain (mc_visibleSenderDomain current) senderDomainAllowlist in
    let allowedDomain := if negb (beq domain []) && (negb allowlistRequireAuthentication || trust) then domain else [] in
    let evidence known bypass := MkInboundEvidence (mc_recipientsComplete current) (DKIMAligned authentication) (SPFAligned authentication)
      trust known bypass allowedDomain authenticatedDomain in
    if negb (cc_UseAllowlist cfg) then (evidence false false, w)
    else
      let '(m, w) := st_Match (mc_visibleSender current) (mc_envelopeRecipients current) now w in
      let m := match m with inr m => m | inl _ => noMatch end in
      let known := if beq (cc_Scope cfg) (lit "per_sender") && beq (cc_RecipientMatch cfg) (lit "all")
                   then mc_recipientsComplete current && cm_AllRecipientsMatched m else cm_Known m in
      let bypassAuthentication := negb (cc_RequireAuthenticationForBypass cfg) || trust in
      (evidence known (cc_BypassAI cfg && mc_recipientsComplete current && known && bypassAuthentication), w).
End InboundEvidence.

(** ** Analysis (analysis.go) *)

Inductive Classification := ClassificationLegitimate | ClassificationUnwanted | ClassificationOther (s : gostring).
#[export] Instance Classification_eq_dec : EqDecision Classification.
Proof. solve_decision. Defined.
Record Decision_ := MkDecision { dec_Classification : Classification; dec_Score : Q; dec_Reasons : list gostring }.

Record evaluationResult := MkEvaluation {
  er_incompleteInspection : bool;
  er_proposed : action;
  er_selected : action;
  er_classification : Classification;
  er_score : Q;
  er_reasons : list gostring;
  er_htmlExceeded : bool;
  er_htmlAction : gostring;
  er_rejectMessage : gostring;
  er_err : bool;
}.

Definition noClassification : Classification := ClassificationOther [].

(** What message extraction and the analyzer report; [an_slot] is false when
    no analysis slot came free before the deadline. *)
Record analysis_inputs := MkAnalysisInputs {
  an_slot : bool;
  an_cpuExceeded : bool;
  an_memoryExceeded : bool;
  an_expired : bool;
  an_bodyIncomplete : bool;
  an_decision : option Decision_;
}.

Definition applyPolicy (decision : Decision_) (mode : gostring) (rejectScore : Q) : action * action :=
  let proposed := if bool_decide (dec_Classification decision = ClassificationUnwanted) && Qle_bool rejectScore (dec_Score decision)
                  then actionReject else actionAccept in
  (proposed, selectActionForMode proposed mode).

Definition analysisFailure (mode aiErrorAction : gostring) (htmlExceeded : bool) (htmlAction : gostring) : evaluationResult :=
  let selected := if beq mode (lit "enforce") && beq aiErrorAction (lit "tempfail") then actionTempfail else actionAccept in
  MkEvaluation false selected selected noClassification 0%Q [] htmlExceeded htmlAction [] true.

Definition resourceLimitRejectMessage := lit "Message rejected because content processing exceeded server resource limits".
Definition incompleteInspectionPolicy := lit "incomplete-inspection".
Definition incompleteInspectionRejectMessage := lit "Message rejected because its content could not be fully inspected".

Definition evaluate (i : analysis_inputs) (mode : gostring) (rejectScore : Q) (aiErrorAction htmlLimitAction incompleteBodyAction : gostring)
    : evaluationResult :=
  if negb (an_slot i) then analysisFailure mode aiErrorAction false []
  else
    let exceeded := an_cpuExceeded i || an_memoryExceeded i in
    let actionOnHTMLLimit := if beq htmlLimitAction [] then lit "reject" else htmlLimitAction in
    if an_expired i then analysisFailure mode aiErrorAction exceeded actionOnHTMLLimit
    else if exceeded && negb (beq actionOnHTMLLimit (lit "fallback")) then
      let dos := beq actionOnHTMLLimit (lit "dos-reject") in
      let reason := if an_memoryExceeded i then lit "Message content processing exceeded the configured memory limit"
                    else lit "Message content processing exceeded the configured CPU-time limit" in
      MkEvaluation false actionReject (selectActionForMode actionReject mode)
        (if dos then ClassificationUnwanted else noClassification) (if dos then 1%Q else 0%Q) [reason]
        exceeded actionOnHTMLLimit resourceLimitRejectMessage false
    else if beq incompleteBodyAction (lit "reject") && an_bodyIncomplete i then
      MkEvaluation true actionReject (selectActionForMode actionReject mode) noClassification 0%Q
        [lit "message body extraction was incomplete"] exceeded actionOnHTMLLimit incompleteInspectionRejectMessage false
    else match an_decision i with
         | None => analysisFailure mode aiErrorAction exceeded actionOnHTMLLimit
         | Some decision =>
             let '(proposed, selected) := applyPolicy decision mode rejectScore in
             MkEvaluation false proposed selected (dec_Classification decision) (dec_Score decision) (dec_Reasons decision)
               exceeded actionOnHTMLLimit [] false
         end.

(** ** Activity (activity.go) *)

Definition activityOutcome (selected : action) (responseErr : bool) : ActivityOutcome :=
  if responseErr then ActivityOutcomeResponseFailed
  else match selected with
       | actionReject => ActivityOutcomeRejected
       | actionTempfail => ActivityOutcomeTempfailed
       | actionAccept => ActivityOutcomeAccepted
       end.

Definition scanEventType (result : evaluationResult) : ActivityEventType :=
  if er_incompleteInspection result then ActivityEventIncompleteInspection
  else if er_htmlExceeded result && beq (er_htmlAction result) (lit "dos-reject") then ActivityEventHTMLDoS
  else if er_htmlExceeded result && beq (er_htmlAction result) (lit "reject") then ActivityEventHTMLLimit
  else ActivityEventScan.

(** ** Attachments (attachment_policy.go) *)

Record AttachmentsConfig := MkAttachmentsConfig {
  at_RejectMessage : gostring;
  at_InvalidMIMEAction : gostring;
  at_UnscannableAction : gostring;
  at_EncryptedArchiveAction : gostring;
  at_AddIPReputationStrike : bool;
}.

(** The answer of the scanner: clean, a finding, or an error. *)
Inductive scan_result :=
  | ScanClean
  | ScanFinding (path detection : gostring)
  | ScanError (typed : option (bool * bool * gostring)).

Record attachmentPolicyResult := MkAttachmentResult {
  ar_handled : bool;
  ar_cancelled : bool;
  ar_ipStrike : bool;
  ar_proposed : action;
  ar_path : gostring;
  ar_detection : gostring;
  ar_err : bool;
  ar_rejectMessage : gostring;
}.
Definition noAttachmentResult := MkAttachmentResult false false false actionAccept [] [] false [].
Definition invalidMIMERejectMessage := lit "Message rejected because it has an invalid MIME structure and cannot be safely inspected".

Definition attachmentConfiguredAction (value : gostring) : action :=
  if beq value (lit "reject") then actionReject else if beq value (lit "tempfail") then actionTempfail else actionAccept.
Definition invalidMIMEConfiguredAction (value : gostring) : action := if beq value (lit "accept") then actionAccept else actionReject.

Definition attachmentErrorPath `{UnicodeTables} (typed : option (bool * bool * gostring)) : gostring :=
  match typed with
  | Some (_, _, path) => if negb (beq (trimSpace path) []) then path else lit "message"
  | None => lit "message"
  end.

(** [slot] is false when the context ended before a scanner slot came free. *)
Definition attachment_evaluate `{UnicodeTables} (cfg : option AttachmentsConfig) (msg : Message) (slot : bool) (scan : scan_result)
    : attachmentPolicyResult :=
  match cfg with
  | None => noAttachmentResult
  | Some cfg =>
      if MIMEHeadersTruncated msg then
        MkAttachmentResult true false false (invalidMIMEConfiguredAction (at_InvalidMIMEAction cfg)) (lit "message")
          (lit "invalid MIME structure") true invalidMIMERejectMessage
      else if negb slot then MkAttachmentResult true true false actionAccept [] [] true []
      else
        let incomplete (typed : option (bool * bool * gostring)) (name : gostring) :=
          MkAttachmentResult true false false (attachmentConfiguredAction name) (attachmentErrorPath typed)
            (lit "attachment inspection incomplete") true [] in
        match scan with
        | ScanFinding path detection => MkAttachmentResult true false true actionReject path detection false []
        | ScanClean => if BodyTruncated msg then incomplete None (at_UnscannableAction cfg) else noAttachmentResult
        | ScanError typed =>
            match typed with
            | Some (true, _, _) =>
                MkAttachmentResult true false false (invalidMIMEConfiguredAction (at_InvalidMIMEAction cfg)) (attachmentErrorPath typed)
                  (lit "invalid MIME structure") true invalidMIMERejectMessage
            | Some (false, true, _) => incomplete typed (at_EncryptedArchiveAction cfg)
            | _ => incomplete typed (at_UnscannableAction cfg)
            end
        end
  end.

(** ** Sender addresses *)

Section Senders.
Context `{UnicodeTables, NetMail}.

(** The set of normalized values, sorted. *)
Definition normalizedRecipients (values : list gostring) : list gostring :=
  sortedSet (remove_dups (List.filter (λ v, negb (beq v [])) (Normalize <$> values))).

Definition strictVisibleFromMailboxes (values : list gostring) : list gostring :=
  normalizedRecipients (values ≫= λ value, match parse_address_list value with Some l => ma_address <$> l | None => [] end).

Definition recoverFromAddresses (value : gostring) : list gostring :=
  fieldsFunc value (λ c, ceq c "," || ceq c ";") ≫= λ fragment,
    let fragment := trimSpace fragment in
    if beq fragment [] then []
    else match parse_address fragment with
         | Some a => if negb (beq (ma_address a) []) then [ma_address a] else match Mailbox fragment with Some m => [m] | None => [] end
         | None => match Mailbox fragment with Some m => [m] | None => [] end
         end.

Definition authenticatedOnlyFromValue (value : gostring) (configured : list gostring) : gostring :=
  let addresses := match parse_address_list value with Some l => ma_address <$> l | None => recoverFromAddresses value end in
  default [] (List.find (λ d, negb (beq d [])) ((λ a, allowedSenderDomain (Domain a) configured) <$> addresses)).
End Senders.

(** ** Identities (session_identity.go) *)

Definition containsNonASCII (value : gostring) : bool := existsb (λ c, 128 <=? code c) value.

Definition isControl (r : Z) : bool := ((0 <=? r) && (r <? 32)) || ((127 <=? r) && (r <? 160)).

Definition cleanSMTPIdentity `{UnicodeTables} (value : gostring) : gostring :=
  let value := toValidUTF8 value in
  let value := map_runes (λ r, if isControl r then None else Some r) value in
  let value := trimSpace value in
  if beq value [] || equalFold value (lit "unknown") || equalFold value (lit "[unknown]") then []
  else if bool_decide (255 < runeCount value)%nat then concat (encode_rune <$> take 255 (runes value)) else value.

Definition validMTAHostname `{UnicodeTables, NetIPText} (value : gostring) : gostring :=
  let value := DNSHostname value in
  if beq value [] then [] else match parse_addr value with Some _ => [] | None => value end.

Definition canonicalMacroIP `{UnicodeTables, NetIPText} (value : gostring) : Addr :=
  let value := trimSpace value in
  let value := trimPrefix value (lit "[") in
  let value := trimSuffix value (lit "]") in
  let value := if hasPrefix (toLower value) (lit "ipv6:") then drop 5 value else value in
  match parse_addr value with Some address => CanonicalIP address | None => AddrInvalid end.
