(* ===== verification/AiClientProps.v ===== *)
(** * Properties of the AI endpoint client

    Every decision is one that passed validation in the last answer, the
    attempts and their delays stay within what the configuration allows, usage
    is counted for every attempt, and images reach the endpoint unchanged. *)
From Stdlib Require Import QArith.
From S2P Require Import Prelude GoText Thinking ThinkingSpec SqlDb Calendar Config ConfigSpec Policy Registration AiClient Protocol.
Open Scope Z_scope.

(** ** Images *)

Definition base64_value (c : ascii) : option Z :=
  let n := code c in
  if (65 <=? n) && (n <=? 90) then Some (n - 65) else if (97 <=? n) && (n <=? 122) then Some (n - 71)
  else if (48 <=? n) && (n <=? 57) then Some (n + 4) else if n =? 43 then Some 62 else if n =? 47 then Some 63 else None.
(** The bytes of groups of four characters, with padding in the last. *)
Fixpoint base64_decode (s : gostring) : option gostring :=
  match s with
  | a :: b :: c :: d :: rest =>
      match base64_value a, base64_value b, base64_value c, base64_value d with
      | Some w, Some x, Some y, Some z =>
          let n := w * 262144 + x * 4096 + y * 64 + z in
          (λ t, chr (n / 65536) :: chr (n / 256 mod 256) :: chr (n mod 256) :: t) <$> base64_decode rest
      | Some w, Some x, Some y, None => let n := w * 262144 + x * 4096 + y * 64 in Some [chr (n / 65536); chr (n / 256 mod 256)]
      | Some w, Some x, None, None => let n := w * 262144 + x * 4096 in Some [chr (n / 65536)]
      | _, _, _, _ => None
      end
  | _ => Some []
  end.

Lemma base64_value_char n : 0 <= n < 64 -> base64_value (base64_char n) = Some n.
Proof.
  intros Hn. assert (Hall : forallb (λ k, bool_decide (base64_value (base64_char (Z.of_nat k)) = Some (Z.of_nat k))) (seq 0 64) = true) by (vm_compute; reflexivity).
  rewrite forallb_forall in Hall. specialize (Hall (Z.to_nat n)). rewrite Z2Nat.id in Hall by lia. eapply bool_decide_eq_true_1, Hall, in_seq. lia.
Qed.
Lemma base64_pad : base64_value "="%char = None.
Proof. reflexivity. Qed.

Lemma sextets n : 0 <= n < 16777216 -> n / 262144 * 262144 + n / 4096 mod 64 * 4096 + n / 64 mod 64 * 64 + n mod 64 = n /\
  0 <= n / 262144 < 64 /\ 0 <= n / 4096 mod 64 < 64 /\ 0 <= n / 64 mod 64 < 64 /\ 0 <= n mod 64 < 64.
Proof. intros Hn. Z.to_euclidean_division_equations. lia. Qed.

Lemma base64_round_trip data : base64_decode (EncodeToString data) = Some data.
Proof.
  induction data as [data IH] using list_length_ind. destruct data as [|a [|b [|c rest]]]; [done|..]; cbn [EncodeToString base64_decode];
    (pose proof (code_range a) as Ha); try (pose proof (code_range b) as Hb); try (pose proof (code_range c) as Hc).
  - destruct (sextets (code a * 65536)) as (Hn & H1 & H2 & _); [lia|]. rewrite !base64_value_char, base64_pad by done.
    assert (Hz : code a * 65536 / 64 mod 64 = 0 /\ code a * 65536 mod 64 = 0) by (Z.to_euclidean_division_equations; lia). destruct Hz as [Hz1 Hz2].
    rewrite Hz1, Hz2, !Z.add_0_r in Hn. rewrite Hn, Z.div_mul by done. by rewrite chr_code.
  - destruct (sextets (code a * 65536 + code b * 256)) as (Hn & H1 & H2 & H3 & _); [lia|]. rewrite !base64_value_char, base64_pad by done.
    assert (Hz : (code a * 65536 + code b * 256) mod 64 = 0) by (Z.to_euclidean_division_equations; lia). rewrite Hz, Z.add_0_r in Hn. rewrite Hn.
    replace ((code a * 65536 + code b * 256) / 65536) with (code a) by (Z.to_euclidean_division_equations; lia).
    replace ((code a * 65536 + code b * 256) / 256 mod 256) with (code b) by (Z.to_euclidean_division_equations; lia). by rewrite !chr_code.
  - destruct (sextets (code a * 65536 + code b * 256 + code c)) as (Hn & H1 & H2 & H3 & H4); [lia|]. rewrite !base64_value_char by done. rewrite Hn.
    replace ((code a * 65536 + code b * 256 + code c) / 65536) with (code a) by (Z.to_euclidean_division_equations; lia).
    replace ((code a * 65536 + code b * 256 + code c) / 256 mod 256) with (code b) by (Z.to_euclidean_division_equations; lia).
    replace ((code a * 65536 + code b * 256 + code c) mod 256) with (code c) by (Z.to_euclidean_division_equations; lia).
    rewrite IH by (cbn; lia). cbn. by rewrite !chr_code.
Qed.

(** ** Delays *)

Lemma backoff_range n m : initialEndpointRetryBackoff <= m <= maxEndpointRetryBackoff -> initialEndpointRetryBackoff <= backoff n m <= maxEndpointRetryBackoff.
Proof.
  unfold initialEndpointRetryBackoff, maxEndpointRetryBackoff, second, millisecond.
  revert m. induction n as [|n IH]; intros m Hm; cbn [backoff]; [done|]. unfold maxEndpointRetryBackoff, second, millisecond in *.
  destruct (Z.ltb_spec m (5 * (1000 * 1000000))); [apply IH; lia|done].
Qed.

Definition jitter_ok (jitter : Z -> Z) : Prop := forall k, 0 < k -> 0 <= jitter k < k.

Section Attempts.
Context {AJ : AIJson}.

Lemma clamp_delay_range d : 0 <= clamp_delay d <= maxEndpointRetryAfter.
Proof. unfold clamp_delay, maxEndpointRetryAfter, second, millisecond. destruct (Z.leb_spec d 0), (Z.ltb_spec (30 * (1000 * 1000000)) d); lia. Qed.
Lemma retryAfterDelay_range value now : 0 <= retryAfterDelay value now <= maxEndpointRetryAfter.
Proof.
  assert (Hm : 0 <= maxEndpointRetryAfter) by (unfold maxEndpointRetryAfter, second, millisecond; lia).
  unfold retryAfterDelay. destruct (beq _ _); [lia|]. destruct (ParseInt64 _) as [n|]; [|apply clamp_delay_range].
  destruct (_ <=? _); [lia|]. destruct (_ <? _); [lia|apply clamp_delay_range].
Qed.

(** The errors of an attempt carry a delay that the limit allows. *)
Lemma once_retry_after a err : on_decision (analyzeOnce a) = inl err -> 0 <= endpointRetryAfter err <= maxEndpointRetryAfter.
Proof.
  assert (Hm : 0 <= maxEndpointRetryAfter) by (unfold maxEndpointRetryAfter, second, millisecond; lia).
  destruct a as [| |status body ra now]; cbn [analyzeOnce on_decision]; [intros [= <-]; cbn; lia..|].
  destruct (_ || _); [intros [= <-]; apply retryAfterDelay_range|]. destruct (_ <? _); [intros [= <-]; cbn; lia|].
  destruct (json_choices _) as [[|content l]|]; try (intros [= <-]; cbn; lia).
  unfold parse_decision. destruct (json_decision content) as [|cl [score|] reasons []]; try (intros [= <-]; cbn; lia).
  destruct (validate _); cbn; [done|intros [= <-]; cbn; lia].
Qed.

Lemma retry_delay_range jitter a err n : jitter_ok jitter -> on_decision (analyzeOnce a) = inl err ->
  0 < endpointRetryDelay jitter err n <= maxEndpointRetryAfter.
Proof.
  intros Hj Ha. pose proof (once_retry_after a err Ha) as Hr. unfold endpointRetryDelay. destruct (Z.ltb_spec 0 (endpointRetryAfter err)); [lia|].
  pose proof (backoff_range (n - 1) initialEndpointRetryBackoff) as Hb. set (m := backoff _ _) in *.
  unfold initialEndpointRetryBackoff, maxEndpointRetryBackoff, maxEndpointRetryAfter, second, millisecond in *. specialize (Hb ltac:(lia)).
  specialize (Hj (m - m / 2 + 1)). Z.to_euclidean_division_equations. lia.
Qed.

(** ** Usage *)

Definition usage_ok (u : Usage) : Prop := 0 <= InputTokens u <= maxUint64 /\ 0 <= OutputTokens u <= maxUint64.
Lemma digits_nonneg s acc : 0 <= acc -> forallb is_digit s = true -> 0 <= fold_left (λ n c, 10 * n + (code c - 48)) s acc.
Proof.
  revert acc. induction s as [|c s IH]; intros acc Ha; cbn; [done|]. intros [Hc Hs]%andb_true_iff. apply IH; [|done].
  unfold is_digit, in_range in Hc. lia.
Qed.
Lemma parseUint_range s n : parseUint s 64 = Some n -> 0 <= n <= maxUint64.
Proof.
  unfold parseUint, maxUint64. destruct (bool_decide _); [done|]. destruct (forallb is_digit s) eqn:E; [|done]. cbn [orb negb].
  destruct (Z.ltb_spec (number_of s) (2 ^ 64)); [|done]. intros [= <-]. pose proof (digits_nonneg s 0 ltac:(lia) E). unfold number_of in *. lia.
Qed.
Lemma token_count_range raw : 0 <= nonnegativeTokenCount raw <= maxUint64.
Proof.
  assert (Hm : 0 <= maxUint64) by (by unfold maxUint64). unfold nonnegativeTokenCount. destruct raw as [|c raw]; [lia|]. destruct (json_number _); [|lia].
  destruct (parseUint _ 64) eqn:E; cbn; [by eapply parseUint_range|lia].
Qed.
Lemma once_usage_ok a : usage_ok (on_usage (analyzeOnce a)).
Proof.
  assert (Hm : 0 <= maxUint64) by (by unfold maxUint64). assert (H0 : usage_ok no_usage) by (split; cbn; lia).
  assert (He : forall raw, usage_ok (endpointUsage raw)) by (intros raw; unfold endpointUsage; destruct (json_usage raw) as [[? ?]|]; [split; apply token_count_range|done]).
  destruct a as [| |status body ra now]; cbn [analyzeOnce on_usage]; [done..|]. destruct (_ || _); [apply He|]. destruct (_ <? _); [apply He|].
  destruct (json_choices _) as [[|content l]|]; try apply He. destruct (parse_decision content); apply He.
Qed.
Lemma saturating a b : 0 <= a <= maxUint64 -> saturatingAdd a b = Z.min maxUint64 (a + b).
Proof. intros Ha. unfold saturatingAdd. destruct (Z.ltb_spec (maxUint64 - a) b); lia. Qed.

(** ** The attempts *)

(** The event of attempt [i], counted from zero. *)
Definition nth_event (events : list attempt_event) (i : nat) : attempt_event := nth i events (MkAttempt NoResponse false None (λ _, 0)).
Definition nth_once (events : list attempt_event) (i : nat) : once := analyzeOnce (at_answer (nth_event events i)).
(** An attempt after which another one may follow. *)
Definition passes_on (events : list attempt_event) (i : nat) : Prop :=
  (exists err, on_decision (nth_once events i) = inl err) /\ on_retry (nth_once events i) = true /\ at_ended (nth_event events i) = false.
(** The usage of the first [k] attempts, added up. *)
Definition used (f : Usage -> Z) (events : list attempt_event) (k : nat) : Z := foldr (λ i n, f (on_usage (nth_once events i)) + n) 0 (seq 0 k).

Lemma used_S f events k : used f events (S k) = f (on_usage (nth_once events 0)) + used f (tail events) k.
Proof.
  unfold used. cbn [seq foldr]. f_equal. rewrite <- seq_shift. generalize (seq 0 k). intros l. induction l as [|i l IH]; [done|].
  cbn [map foldr]. rewrite IH. f_equal. unfold nth_once, nth_event. destruct events; [by destruct i|done].
Qed.
Lemma used_nonneg f events k : (forall a, 0 <= f (on_usage (analyzeOnce a))) -> 0 <= used f events k.
Proof. intros Hf. unfold used. induction (seq 0 k) as [|i l IH]; cbn; [done|]. specialize (Hf (at_answer (nth_event events i))). unfold nth_once in *. lia. Qed.
Lemma nth_event_tail events i : nth_event (tail events) i = nth_event events (S i).
Proof. unfold nth_event. destruct events; [by destruct i|done]. Qed.

(** What a number of attempts comes to. *)
Definition attempted (more : nat) (events : list attempt_event) (usage : Usage) (attempt : nat) (delays : list Z)
    (result : (ai_error + Decision_) * Usage * nat * list Z) : Prop :=
  let '(r, u, n, ds) := result in
  exists k, n = (attempt + S k)%nat /\ (k <= more)%nat /\ (forall i, (i < k)%nat -> passes_on events i) /\
    (forall d, r = inr d -> on_decision (nth_once events k) = inr d) /\
    (forall e, r = inl e -> exists err, on_decision (nth_once events k) = inl err) /\
    InputTokens u = Z.min maxUint64 (InputTokens usage + used InputTokens events (S k)) /\
    OutputTokens u = Z.min maxUint64 (OutputTokens usage + used OutputTokens events (S k)) /\
    exists new, ds = delays ++ new /\ (length new <= more)%nat /\ Forall (λ d, 0 < d <= maxEndpointRetryAfter) new.

Lemma attempted_stop more events usage attempt delays r new : usage_ok usage ->
  match r with inr _ => on_decision (nth_once events 0) = r | inl _ => exists err, on_decision (nth_once events 0) = inl err end ->
  (length new <= more)%nat -> Forall (λ d, 0 < d <= maxEndpointRetryAfter) new ->
  attempted more events usage attempt delays (r, add_usage usage (on_usage (nth_once events 0)), S attempt, delays ++ new).
Proof.
  intros [Hi Ho] Hr Hlen Hnew. exists 0%nat. split_and!; [lia|lia|lia| | | | |by exists new].
  - by intros d ->.
  - by intros e ->.
  - cbn [add_usage InputTokens]. rewrite saturating by done. unfold used. cbn. f_equal. lia.
  - cbn [add_usage OutputTokens]. rewrite saturating by done. unfold used. cbn. f_equal. lia.
Qed.

Lemma add_usage_ok u a : usage_ok u -> usage_ok (add_usage u (on_usage (analyzeOnce a))).
Proof.
  intros [H1 H2]. destruct (once_usage_ok a) as [H3 H4]. split; cbn; rewrite saturating by done; lia.
Qed.

Lemma attempted_more more events usage attempt delays delay result : usage_ok usage -> passes_on events 0 -> 0 < delay <= maxEndpointRetryAfter ->
  attempted more (tail events) (add_usage usage (on_usage (nth_once events 0))) (S attempt) (delays ++ [delay]) result ->
  attempted (S more) events usage attempt delays result.
Proof.
  intros [Hi Ho] Hp Hd. destruct result as [[[r u] n] ds]. intros (k & Hn & Hk & Hpass & Hr & He & Hui & Huo & new & Hds & Hlen & Hnew).
  assert (Hnth : forall i, nth_once (tail events) i = nth_once events (S i)) by (intros i; unfold nth_once; by rewrite nth_event_tail).
  pose proof (once_usage_ok (at_answer (nth_event events 0))) as [H1 H2]. change (analyzeOnce (at_answer (nth_event events 0))) with (nth_once events 0) in H1, H2.
  exists (S k). split_and!; [lia|lia| | | | | |].
  - intros [|i] Hi'; [done|]. specialize (Hpass i ltac:(lia)). unfold passes_on in *. by rewrite Hnth, nth_event_tail in Hpass.
  - intros d Hrd. rewrite <- Hnth. by apply Hr.
  - intros e Hre. rewrite <- Hnth. by apply (He e).
  - rewrite Hui, (used_S InputTokens events (S k)). cbn [add_usage InputTokens]. rewrite saturating by done.
    assert (0 <= used InputTokens (tail events) (S k)) by (apply used_nonneg; intros a; apply once_usage_ok). lia.
  - rewrite Huo, (used_S OutputTokens events (S k)). cbn [add_usage OutputTokens]. rewrite saturating by done.
    assert (0 <= used OutputTokens (tail events) (S k)) by (apply used_nonneg; intros a; apply once_usage_ok). lia.
  - exists (delay :: new). rewrite Hds, <- app_assoc. split_and!; [done|cbn; lia|by constructor].
Qed.

Lemma attempts_spec more : forall events usage attempt delays, Forall (λ e, jitter_ok (at_jitter e)) events -> usage_ok usage ->
  attempted more events usage attempt delays (attempts more events usage attempt delays).
Proof.
  induction more as [|more IH]; intros events usage attempt delays Hj Hu; cbn [attempts];
    change (match events with e :: _ => e | [] => MkAttempt NoResponse false None (λ _, 0) end) with (hd (MkAttempt NoResponse false None (λ _, 0)) events);
    assert (He : hd (MkAttempt NoResponse false None (λ _, 0)) events = nth_event events 0) by (by destruct events); rewrite He;
    change (analyzeOnce (at_answer (nth_event events 0))) with (nth_once events 0);
    (destruct (on_decision (nth_once events 0)) as [err|d] eqn:E;
      [|rewrite <- (app_nil_r delays) at 2; apply attempted_stop; [done|done|cbn; lia|constructor]]).
  - rewrite <- (app_nil_r delays) at 2. apply attempted_stop; [done|by exists err|cbn; lia|constructor].
  - destruct (negb (on_retry (nth_once events 0)) || at_ended (nth_event events 0)) eqn:Es.
    + rewrite <- (app_nil_r delays) at 2. apply attempted_stop; [done|by exists err|cbn; lia|constructor].
    + apply orb_false_iff in Es as [Er%negb_false_iff Ee]. set (delay := endpointRetryDelay _ err (S attempt)).
      assert (Hd : 0 < delay <= maxEndpointRetryAfter).
      { apply (retry_delay_range _ (at_answer (nth_event events 0))); [|done]. destruct events as [|e events]; [intros k Hk; cbn; lia|]. by inversion Hj. }
      destruct (waitForRetry _ delay) as [ctxErr|] eqn:Ew.
      * apply attempted_stop; [done|by exists err|cbn; lia|by constructor].
      * apply (attempted_more more events usage attempt delays delay); try done; [split_and!; eauto|]. apply IH; [by destruct Hj|]. by apply add_usage_ok.
Qed.
End Attempts.

(** ** Theorems on the AI endpoint client

    The claims of the component, and the gap
    between the request that is checked at start-up and the one that is sent. *)

(** ** Requests *)

Lemma request_fields model prompt input k v : assoc_get k (request_body model prompt input) = Some v ->
  k = lit "model" \/ k = lit "temperature" \/ k = lit "response_format" \/ k = lit "messages".
Proof. unfold request_body. rewrite !assoc_get_cons. repeat case_bool_decide; subst; tauto || done. Qed.

(** A fragment that merges into the request of the check, and leaves the format
    of the response alone, has none of the keys of a request. *)
Lemma checked_fragment_disjoint f r model prompt input k v : NoDup (fst <$> f) -> Merge baseRequest f = Done r -> assoc_get (lit "response_format") f = None ->
  assoc_get k (request_body model prompt input) = Some v -> assoc_get k f = None.
Proof.
  intros Hnd Hm Hrf Hk. unfold Merge, mergeObject in Hm. cbn [merge_value] in Hm. pose proof (merge_fields_spec _ _ _ _ Hnd Hm k) as Hs. unfold merged_key in Hs.
  destruct (assoc_get k f) as [i|] eqn:Ei; [exfalso|done]. apply request_fields in Hk as [-> |[-> |[-> | ->]]]; try congruence;
    cbn in Hs; destruct Hs as (a & c & m & path & Hd & _); discriminate Hd.
Qed.

Lemma request_built model prompt input res r : unique_keys (JObject (Fragment res)) -> Merge baseRequest (Fragment res) = Done r ->
  assoc_get (lit "response_format") (Fragment res) = None ->
  exists sent, ApplyResolution (request_body model prompt input) res = Done sent /\
    forall k v, assoc_get k (request_body model prompt input) = Some v -> assoc_get k sent = Some v.
Proof.
  intros Hu Hm Hrf. pose proof (proj1 (unique_fields _) Hu) as [Hnd _]. unfold ApplyResolution.
  destruct (beq (Status res) (lit "uncontrolled") || _); [by eexists|]. pose proof (merge_total _ Hu (request_body model prompt input) (lit "$")) as Ht.
  change (merge_value (request_body model prompt input) (JObject (Fragment res)) (lit "$")) with (Merge (request_body model prompt input) (Fragment res)) in Ht.
  destruct (Merge (request_body model prompt input) (Fragment res)) as [sent|e|] eqn:E; [| |done].
  - exists sent. split; [done|]. intros k v Hk. unfold Merge, mergeObject in E. cbn [merge_value] in E.
    pose proof (merge_fields_spec _ _ _ _ Hnd E k) as Hs. unfold merged_key in Hs.
    rewrite (checked_fragment_disjoint _ _ model prompt input k v Hnd Hm Hrf Hk) in Hs. congruence.
  - destruct Ht as ([|k ks] & i & d & Hi & Hd & Ho).
    + injection Hi as <-. injection Hd as <-. done.
    + cbn [at_path] in Hi, Hd. destruct (assoc_get k (request_body model prompt input)) as [v|] eqn:Ek; [|done].
      by rewrite (checked_fragment_disjoint _ _ model prompt input k v Hnd Hm Hrf Ek) in Hi.
Qed.

(** ** The claims *)

Lemma sum_delays (ds : list Z) m : Forall (λ d, 0 < d <= m) ds -> foldr Z.add 0 ds <= m * Z.of_nat (length ds).
Proof. induction 1 as [|d ds Hd _ IH]; cbn; lia. Qed.

Lemma wrap_int64_id z : - 2 ^ 63 <= z < 2 ^ 63 -> wrap_int64 z = z.
Proof. intros Hz. unfold wrap_int64. rewrite Z.mod_small by lia. lia. Qed.

(** What a decision that was accepted looks like, and where it comes from. *)
Lemma once_decision {AJ : AIJson} a d : on_decision (analyzeOnce a) = inr d ->
  exists status body ra now content rest cl score reasons, a = Response status body ra now /\ 200 <= status < 300 /\ go_len body <= maxEndpointResponseBytes /\
    json_choices body = Some (content :: rest) /\ json_decision content = DecodedDecision cl (Some score) reasons false /\
    d = MkDecision (classification_of cl) score reasons /\ validate d = true.
Proof.
  destruct a as [| |status body ra now]; cbn [analyzeOnce on_decision]; try done. destruct (_ || _) eqn:Es; [done|].
  destruct (maxEndpointResponseBytes <? _) eqn:El; [done|]. apply orb_false_iff in Es as [Hs1 Hs2]. apply Z.ltb_ge in Hs1, El. apply Z.leb_gt in Hs2.
  assert (Hb : take (Z.to_nat (maxEndpointResponseBytes + 1)) body = body /\ go_len body <= maxEndpointResponseBytes).
  { rewrite go_len_take in El. unfold maxEndpointResponseBytes, go_len in *. change (Z.shiftl 1 20) with 1048576 in *. split; [apply take_ge|]; lia. }
  destruct Hb as [-> Hb]. destruct (json_choices body) as [[|content rest]|] eqn:Ec; try done. unfold parse_decision.
  destruct (json_decision content) as [|cl [score|] reasons []] eqn:Ej; try done. destruct (validate _) eqn:Ev; [|done]. intros [= <-].
  by exists status, body, ra, now, content, rest, cl, score, reasons.
Qed.

Lemma validated_decision d : validate d = true ->
  (dec_Classification d = ClassificationLegitimate \/ dec_Classification d = ClassificationUnwanted) /\ (1 # 2 <= dec_Score d <= 1)%Q /\
  (length (dec_Reasons d) <= 10)%nat /\ Forall (λ r, go_len r <= 500) (dec_Reasons d).
Proof.
  unfold validate. rewrite !andb_true_iff, !Qle_bool_iff, Z.leb_le. intros ((((Hc & H1) & H2) & H3) & H4). split_and!; [by destruct (dec_Classification d); auto|done|done|lia|].
  rewrite forallb_forall in H4. rewrite Forall_forall. intros r Hr. apply Z.leb_le, H4. by apply list_elem_of_In.
Qed.

(** An analysis makes no attempt at all, or a bounded number of them. *)
Lemma analyze_attempts {AJ : AIJson} (cfg : AIConfig) prompt input events : Forall (λ e, jitter_ok (at_jitter e)) events ->
  (exists e, Analyze cfg prompt input events = (inl e, no_usage, 0%nat, [])) \/
  attempted (Z.to_nat (ai_Retries cfg)) events no_usage 0 [] (Analyze cfg prompt input events).
Proof.
  intros Hj. unfold Analyze. destruct (match ai_ThinkingPlan cfg with Some _ => _ | None => _ end) as [body|e|]; [|left; eauto..].
  destruct (json_marshal body); [right|left; eauto]. apply attempts_spec; [done|by split].
Qed.
Lemma analyze_decision {AJ : AIJson} (cfg : AIConfig) prompt input events d u n ds : Forall (λ e, jitter_ok (at_jitter e)) events ->
  Analyze cfg prompt input events = (inr d, u, n, ds) -> on_decision (nth_once events (n - 1)) = inr d.
Proof.
  intros Hj Ha. destruct (analyze_attempts cfg prompt input events Hj) as [[e He]|Hatt]; rewrite Ha in *; [done|].
  destruct Hatt as (k & -> & _ & _ & Hd & _). replace (0 + S k - 1)%nat with k by lia. by apply Hd.
Qed.
Lemma classified_unwanted cl : classification_of cl = ClassificationUnwanted -> cl = lit "unwanted".
Proof. unfold classification_of. destruct (beq cl (lit "legitimate")); [done|]. destruct (beq cl (lit "unwanted")) eqn:E; [by apply beq_true in E|done]. Qed.

(** C26: whatever the endpoint and the network do, an analysis makes at most one
    attempt more than the configured retries, goes on only after failures that
    may pass, waits between attempts for at most thirty seconds each, and
    reports the token usage of every attempt (saturated, also when it fails);
    and a decision is the validated content of a complete, successful answer
    of the last attempt. *)
Theorem analysis_bounded_and_checked {AJ : AIJson} (cfg : AIConfig) (prompt : gostring) (input : Input) (events : list attempt_event) r usage n delays :
  Forall (λ e, jitter_ok (at_jitter e)) events -> 0 <= ai_Retries cfg -> Analyze cfg prompt input events = (r, usage, n, delays) ->
  Z.of_nat n <= ai_Retries cfg + 1 /\
  (forall i, (S i < n)%nat -> passes_on events i) /\
  InputTokens usage = Z.min maxUint64 (used InputTokens events n) /\ OutputTokens usage = Z.min maxUint64 (used OutputTokens events n) /\
  Z.of_nat (length delays) <= ai_Retries cfg /\ Forall (λ d, 0 < d <= maxEndpointRetryAfter) delays /\
  (0 < ai_Timeout cfg -> ai_Timeout cfg * (ai_Retries cfg + 1) + maxEndpointRetryAfter * ai_Retries cfg < 2 ^ 63 ->
     Z.of_nat n * ai_Timeout cfg + foldr Z.add 0 delays <= MaximumAnalysisDuration cfg) /\
  forall d, r = inr d ->
    (dec_Classification d = ClassificationLegitimate \/ dec_Classification d = ClassificationUnwanted) /\ (1 # 2 <= dec_Score d <= 1)%Q /\
    (length (dec_Reasons d) <= 10)%nat /\ Forall (λ s, go_len s <= 500) (dec_Reasons d) /\
    exists status body ra now content rest cl, at_answer (nth_event events (n - 1)) = Response status body ra now /\ 200 <= status < 300 /\
      go_len body <= maxEndpointResponseBytes /\ json_choices body = Some (content :: rest) /\
      json_decision content = DecodedDecision cl (Some (dec_Score d)) (dec_Reasons d) false /\ dec_Classification d = classification_of cl.
Proof.
  intros Hj Hret Ha.
  pose proof (analyze_attempts cfg prompt input events Hj) as Hcases. rewrite Ha in Hcases.
  assert (Hdur : forall k ds, Z.of_nat k <= ai_Retries cfg + 1 -> Z.of_nat (length ds) <= ai_Retries cfg -> Forall (λ d, 0 < d <= maxEndpointRetryAfter) ds ->
    0 < ai_Timeout cfg -> ai_Timeout cfg * (ai_Retries cfg + 1) + maxEndpointRetryAfter * ai_Retries cfg < 2 ^ 63 ->
    Z.of_nat k * ai_Timeout cfg + foldr Z.add 0 ds <= MaximumAnalysisDuration cfg).
  { intros k ds Hk Hlen Hds Ht Hb. pose proof (sum_delays ds _ Hds). unfold MaximumAnalysisDuration. rewrite Z.max_l by done.
    assert (Hm : 0 < maxEndpointRetryAfter) by (unfold maxEndpointRetryAfter, second, millisecond; lia).
    assert (0 <= ai_Timeout cfg * (ai_Retries cfg + 1)) by nia. assert (0 <= maxEndpointRetryAfter * ai_Retries cfg) by nia.
    rewrite (wrap_int64_id (ai_Timeout cfg * _)), (wrap_int64_id (maxEndpointRetryAfter * _)), wrap_int64_id by lia. nia. }
  destruct Hcases as [[e [= -> -> -> ->]]|(k & Hn & Hk & Hpass & Hdec & _ & Hui & Huo & new & -> & Hlen & Hnew)].
  - split_and!; try done; try lia. intros Ht Hb. apply Hdur; [lia|cbn; lia|constructor|done|done].
  - cbn [app] in *. rewrite Nat.add_0_l in Hn. subst n. cbn [no_usage InputTokens OutputTokens] in Hui, Huo. rewrite Z.add_0_l in Hui, Huo.
    split_and!; [lia|intros i Hi; apply Hpass; lia|done|done|lia|done|apply Hdur; [lia|lia|done]|]. intros d Hr. specialize (Hdec d Hr).
    destruct (once_decision _ _ Hdec) as (status & body & ra & now & content & rest & cl & score & reasons & H1 & H2 & H3 & H4 & H5 & H6 & H7).
    destruct (validated_decision d H7) as (V1 & V2 & V3 & V4). split_and!; [done|apply V2|apply V2|done|done|].
    exists status, body, ra, now, content, rest, cl. subst d. cbn [dec_Score dec_Reasons dec_Classification].
    replace (S k - 1)%nat with k by lia. exact (conj H1 (conj H2 (conj H3 (conj H4 (conj H5 eq_refl))))).
Qed.

(** C25: the analysis rejects a message in enforce mode only, and only for
    content processing that exceeded its limits, for a body that could not be
    extracted, or because the endpoint itself, in a complete and successful last
    answer, called the message unwanted with at least the configured score;
    whatever goes wrong with the endpoint never rejects. *)
Theorem ai_rejection_justified {AJ : AIJson} (cfg : AIConfig) (prompt : gostring) (input : Input) (events : list attempt_event) (i : analysis_inputs)
    (mode : gostring) (rejectScore : Q) (aiErrorAction htmlLimitAction incompleteBodyAction : gostring) :
  Forall (λ e, jitter_ok (at_jitter e)) events ->
  let '(r, _, n, _) := Analyze cfg prompt input events in
  er_selected (evaluate (with_decision i r) mode rejectScore aiErrorAction htmlLimitAction incompleteBodyAction) = actionReject ->
  mode = lit "enforce" /\
  ((an_cpuExceeded i || an_memoryExceeded i = true /\ htmlLimitAction <> lit "fallback") \/
   (incompleteBodyAction = lit "reject" /\ an_bodyIncomplete i = true) \/
   exists status body ra now content rest score reasons, at_answer (nth_event events (n - 1)) = Response status body ra now /\ 200 <= status < 300 /\
     json_choices body = Some (content :: rest) /\ json_decision content = DecodedDecision (lit "unwanted") (Some score) reasons false /\
     (rejectScore <= score)%Q /\ (1 # 2 <= score <= 1)%Q).
Proof.
  intros Hj. destruct (Analyze cfg prompt input events) as [[[r usage] n] delays] eqn:Ea.
  unfold evaluate, analysisFailure. cbn [with_decision an_slot an_cpuExceeded an_memoryExceeded an_expired an_bodyIncomplete an_decision].
  assert (Hfail : forall h a, er_selected (analysisFailure mode aiErrorAction h a) <> actionReject) by (intros h a; unfold analysisFailure; cbn; by destruct (_ && _)).
  assert (Hmode : forall p, selectActionForMode p mode = actionReject -> mode = lit "enforce" /\ p = actionReject).
  { intros p. unfold selectActionForMode. destruct (beq mode (lit "enforce")) eqn:E; [|done]. apply beq_true in E. done. }
  destruct (an_slot i); cbn [negb]; [|intros Hx; by destruct (Hfail false [])]. destruct (an_expired i); [intros Hx; by apply Hfail in Hx|].
  destruct ((an_cpuExceeded i || an_memoryExceeded i) && _) eqn:Eh.
  { cbn [er_selected]. intros [Hm _]%Hmode. split; [done|left]. apply andb_true_iff in Eh as [He Hf]. split; [done|]. intros ->. done. }
  destruct (beq incompleteBodyAction (lit "reject") && an_bodyIncomplete i) eqn:Ei.
  { cbn [er_selected]. intros [Hm _]%Hmode. split; [done|right; left]. apply andb_true_iff in Ei as [Hb%beq_true Hi]. done. }
  destruct r as [e|d]; [intros Hx; by apply Hfail in Hx|]. unfold applyPolicy. destruct (bool_decide (dec_Classification d = ClassificationUnwanted) && _) eqn:Ed; [|by intros [_ ?]%Hmode].
  cbn [er_selected]. intros [Hm _]%Hmode. split; [done|right; right]. apply andb_true_iff in Ed as [Hc%bool_decide_eq_true Hs%Qle_bool_iff].
  apply (analyze_decision cfg prompt input events) in Ea; [|done].
  destruct (once_decision _ _ Ea) as (status & body & ra & now & content & rest & cl & score & reasons & H1 & H2 & _ & H4 & H5 & -> & H7).
  apply validated_decision in H7 as (_ & V2 & _). cbn [dec_Score dec_Classification] in *. apply classified_unwanted in Hc as ->.
  exists status, body, ra, now, content, rest, score, reasons. by split_and!; try apply H2; try apply V2.
Qed.

(** with accepted catalogues, a plan that passed the check of the base
    request and a fragment that leaves the format of the response alone, every
    email becomes a request: it has the model, the format and the messages of
    the ordinary request unchanged, the email is in the user message only, and
    every image is in it byte for byte. *)
Theorem requests_carry_email `{Fingerprint} `{UrlText} (sv1 sv2 : Z) (es : option (list (gostring * EndpointDefinition)))
    (ps : option (list (gostring * ProfileDefinition))) (es' : list (gostring * EndpointDefinition)) (ps' : list (gostring * ProfileDefinition))
    (endpoint profile : gostring) (protocols : list gostring) (plan : Plan) (level : Z) (model prompt : gostring) (input : Input) :
  validateEndpointFile sv1 es = Done es' -> validateProfileFile sv2 ps = Done ps' ->
  CompilePlan (MkCatalogues es' ps') endpoint profile protocols = Done plan ->
  ValidateBaseRequest plan baseRequest = Done tt -> 0 <= level <= 4 ->
  exists res, ResolveLevel plan level = Done res /\
    (assoc_get (lit "response_format") (Fragment res) = None -> exists sent, ApplyResolution (request_body model prompt input) res = Done sent /\
       assoc_get (lit "model") sent = Some (JString model) /\
       assoc_get (lit "messages") sent = Some (JArray [chat_message (lit "system") (JString (emailDataInstruction ++ [LF; LF] ++ prompt));
                                                       chat_message (lit "user") (user_content input)])) /\
    Forall (λ image, exists encoded, image_url image = lit "data:" ++ MediaType image ++ lit ";base64," ++ encoded /\
              base64_decode encoded = Some (Data image)) (Images input).
Proof.
  intros E1 E2 Ec Eb Hl. destruct (resolution_checked sv1 sv2 es ps es' ps' endpoint profile protocols plan baseRequest level E1 E2 Ec Eb Hl) as (res & Hres & Hu & r & Er).
  exists res. split_and!; [done| |].
  - intros Hrf. destruct (request_built model prompt input res r Hu Er Hrf) as (sent & Hs & Hk). exists sent. split_and!; [done|by apply Hk..].
  - rewrite Forall_forall. intros image _. exists (EncodeToString (Data image)). split; [done|apply base64_round_trip].
Qed.

(** ** The request that is checked and the one that is sent *)

Module AiSample.
Definition test_json : AIJson := {|
  json_marshal _ := Some []; json_choices s := Some [s];
  json_decision s := if beq s (lit "spam") then DecodedDecision (lit "unwanted") (Some (9 # 10)%Q) [lit "looks like spam"] false else Undecodable;
  json_usage s := Some (lit "120", lit "7"); json_number := Some; http_ParseTime _ := None |}.
#[local] Existing Instance test_json.
#[local] Instance sample_urls : UrlText := {| urlParse s := Some (MkURL [] [] [] [] false s); pathUnescape := Some |}.
#[local] Instance sample_print : Fingerprint := {| fingerprint_of _ _ _ _ := Some (lit "print") |}.

(** A configuration with two retries of one second. *)
Definition ai_config (plan : option Plan) (resolution : option Resolution) : AIConfig :=
  MkAI (lit "https://ai.example") (lit "e") 0 (lit "p") (lit "/e") (lit "/p") [] [] (lit "model") (lit "/prompt") second 2 1 1000 true 100 (mib 8) (lit "reject")
    None None None (lit "scan") (lit "off") 0 1 1 1 [] [] (Finite 0) (Finite 0) plan resolution [].
Definition one_attempt (a : attempt_answer) : attempt_event := MkAttempt a false None (λ _, 0).
Definition busy_then_spam : list attempt_event := [one_attempt (Response 503 [] (lit "2") 0); one_attempt (Response 200 (lit "spam") [] 0)].

Lemma analysis_witness : exists d delays, Analyze (ai_config None None) (lit "prompt") (MkInput (lit "hello") []) busy_then_spam = (inr d, MkUsage 240 14, 2%nat, delays) /\
  dec_Classification d = ClassificationUnwanted /\ delays = [2 * second] /\ 2 * second + foldr Z.add 0 delays <= MaximumAnalysisDuration (ai_config None None).
Proof.
  assert (E : Analyze (ai_config None None) (lit "prompt") (MkInput (lit "hello") []) busy_then_spam =
    (inr (MkDecision ClassificationUnwanted (9 # 10)%Q [lit "looks like spam"]), MkUsage 240 14, 2%nat, [2 * second])) by (vm_compute; reflexivity).
  eexists _, _. split; [exact E|]. split; [reflexivity|]. split; [reflexivity|].
  refine (proj1 (proj2 (proj2 (proj2 (proj2 (proj2 (proj2 (analysis_bounded_and_checked (ai_config None None) _ _ busy_then_spam _ _ _ _ _ _ E)))))) ) _ _).
  - repeat constructor; cbn; lia.
  - vm_compute. discriminate.
  - reflexivity.
  - reflexivity.
Defined.

Lemma rejection_justified_witness :
  er_selected (evaluate (with_decision (MkAnalysisInputs true false false false false None) (Analyze (ai_config None None) (lit "prompt") (MkInput (lit "hello") []) busy_then_spam).1.1.1)
    (lit "enforce") (4 # 5)%Q (lit "tempfail") (lit "reject") (lit "scan")) = actionReject /\
  exists content score reasons, json_decision content = DecodedDecision (lit "unwanted") (Some score) reasons false /\ (4 # 5 <= score)%Q.
Proof.
  assert (Hsel : er_selected (evaluate (with_decision (MkAnalysisInputs true false false false false None) (Analyze (ai_config None None) (lit "prompt") (MkInput (lit "hello") []) busy_then_spam).1.1.1)
    (lit "enforce") (4 # 5)%Q (lit "tempfail") (lit "reject") (lit "scan")) = actionReject) by (vm_compute; reflexivity).
  split; [exact Hsel|].
  pose proof (ai_rejection_justified (ai_config None None) (lit "prompt") (MkInput (lit "hello") []) busy_then_spam (MkAnalysisInputs true false false false false None)
    (lit "enforce") (4 # 5)%Q (lit "tempfail") (lit "reject") (lit "scan")) as H.
  destruct (Analyze (ai_config None None) (lit "prompt") (MkInput (lit "hello") []) busy_then_spam) as [[[r u] n] ds].
  destruct H as [_ [[Hb _]|[[_ Hb]|(st & bo & ra & no & content & re & score & reasons & _ & _ & _ & Hd & Hs & _)]]]; try discriminate Hb; try exact Hsel.
  - repeat constructor; cbn; lia.
  - exists content, score, reasons. exact (conj Hd Hs).
Defined.

Lemma carry_email_witness : exists res sent, ResolveLevel sample_plan 0 = Done res /\
  ApplyResolution (request_body (lit "m") (lit "prompt") (MkInput (lit "hello") [MkImage (lit "image/png") (lit "PNG")])) res = Done sent /\
  assoc_get (lit "model") sent = Some (JString (lit "m")).
Proof.
  destruct sample_validated as [E1 E2].
  destruct (requests_carry_email 2 2 _ _ sample_endpoints sample_profiles (lit "e") (lit "p") [lit "openai_chat"] sample_plan 0 (lit "m") (lit "prompt")
    (MkInput (lit "hello") [MkImage (lit "image/png") (lit "PNG")]) E1 E2) as (res & Hres & Hs & _); [vm_compute; reflexivity|vm_compute; reflexivity|lia|].
  assert (Hf : assoc_get (lit "response_format") (Fragment res) = None) by (vm_compute in Hres; injection Hres as <-; reflexivity).
  destruct (Hs Hf) as (sent & H1 & H2 & _). exists res, sent. exact (conj Hres (conj H1 H2)).
Defined.

(** An endpoint that puts the effort into the format of the response. *)
Definition format_endpoint : EndpointDefinition :=
  MkEndpoint (lit "openai_chat") (lit "/chat")
    (Some [(lit "effort", JObject [(lit "response_format", JObject [(lit "effort", JString effort_placeholder)])])]) None None None None 0.
Definition format_profile : ProfileDefinition := MkProfile None (Some [MkOption (lit "low") (lit "Low") (lit "effort") (Some (lit "low")) None true false]) 0.
End AiSample.

(** With a plan that is ready, the thinking controls of the configured level merge
    into every request the client builds, unless they add to the format of the
    response. *)
Lemma ready_request_built (c : Config) (model prompt : gostring) (input : Input) resolution :
  plan_ready c -> ai_ThinkingResolution (c_AI c) = Some resolution -> 0 <= ai_ThinkingLevel (c_AI c) <= 4 ->
  assoc_get (lit "response_format") (Fragment resolution) = None ->
  exists r, ApplyResolution (request_body model prompt input) resolution = Done r /\ keeps_values (request_body model prompt input) r.
Proof.
  intros (plan & res & _ & Hres & Hlevel & _ & Hall) Hr Hl Hf. destruct (Hall _ Hl) as (res' & r & Hres' & _ & _ & Hsent).
  assert (res' = resolution) as -> by congruence. by apply Hsent.
Qed.

(** the request that is checked at start-up is not the one that is sent: in
    the check the format of the response is a [map[string]any], in the client a
    [map[string]string], which no fragment can be merged into.  Catalogues that
    put a setting into the format pass every check, and then every analysis
    fails before its first attempt. *)
Theorem checked_request_differs :
  exists es ps plan res,
  @validateEndpointFile AiSample.sample_urls 2 (Some [(lit "e", AiSample.format_endpoint)]) = Done es /\
  validateProfileFile 2 (Some [(lit "p", AiSample.format_profile)]) = Done ps /\
  @CompilePlan AiSample.sample_print (MkCatalogues es ps) (lit "e") (lit "p") [lit "openai_chat"] = Done plan /\
  ValidateBaseRequest plan baseRequest = Done tt /\ ResolveLevel plan 4 = Done res /\
  forall prompt input events,
    @Analyze AiSample.test_json (AiSample.ai_config (Some plan) (Some res)) prompt input events =
      (inl (ThinkingError (FieldConflict (lit "$.response_format"))), no_usage, 0%nat, []).
Proof.
  eexists _, _, _, _. split; [vm_compute; reflexivity|]. split; [vm_compute; reflexivity|]. split; [vm_compute; reflexivity|].
  split; [vm_compute; reflexivity|]. split; [vm_compute; reflexivity|]. intros prompt input events. unfold Analyze. cbn [ai_ThinkingPlan ai_ThinkingResolution AiSample.ai_config].
  reflexivity.
Qed.

(** [ai.timeout] has no upper bound: a validated configuration can make the
    longest analysis a negative duration, after which no analysis starts. *)
Theorem analysis_duration_overflows : exists cfg,
  @validateAI {| urlParse s := Some (MkURL (lit "https") (lit "ai.example") [] [] false []); pathUnescape := Some |} cfg = None /\
  MaximumAnalysisDuration cfg < 0.
Proof.
  exists (MkAI (lit "https://ai.example") (lit "e") 0 (lit "p") (lit "/e") (lit "/p") [] [] (lit "model") (lit "/prompt") (2 ^ 62) 2 1 1000 true 100 (mib 8) (lit "reject")
    None None None (lit "scan") (lit "off") 0 1 1 1 [] [] (Finite 0) (Finite 0) None None []).
  split; vm_compute; reflexivity.
Qed.
