(* ===== verification/Server.v ===== *)
(** * The server (internal/milter/server.go, maintenance.go)

    Which connections become sessions, how the listener survives errors, how
    the server stops, and the maintenance that runs beside it.

    [Serve] is a step function on [serving]: the main goroutine accepts, backs
    off or drains, and sessions end on their own; an event is what happens
    next.  A connection is a number.  The session itself is the component
    Session; here it is an entry that ends, normally or by a panic that
    [recoverSessionPanic] contains. *)
From S2P Require Import Prelude GoText NetSafety SqlDb Calendar IPReputation Correspondents SenderBlocklist Rejections Activity Archive.

Definition initialAcceptRetryDelay : Z := 5 * millisecond.
Definition maximumAcceptRetryDelay : Z := second.

(** ** Peers *)

(** The remote address of a connection: a nil one, a Unix socket, a TCP address
    (its IP is [None] when it has no valid length), or another kind. *)
Inductive remote_addr := NoAddr | UnixAddr | TCPAddr (ip : option Addr) | OtherAddr.

Section Server.
Context {NT : NetIPText}.

Definition peerPrefixes (entries : list gostring) : list Prefix := omap ParseIPPrefix entries.
Definition peerAllowed (allowedPeerIPs : list Prefix) (remote : remote_addr) : bool :=
  match remote with
  | NoAddr | OtherAddr | TCPAddr None => false
  | UnixAddr => true
  | TCPAddr (Some ip) => existsb (λ prefix, prefix_contains prefix (unmap ip)) allowedPeerIPs
  end.

(** ** Serving *)

Record server := MkServer { allowedPeerIPs : list Prefix; maxConnections : Z }.

Inductive serve_error := ServeContext | ServeListener.
(** The main goroutine: in [ln.Accept] with the delay of the last temporary
    error (zero after a connection), waiting before another attempt, waiting
    for the sessions, returned. *)
Inductive serve_phase := Accepting (delay : Z) | BackingOff (delay : Z) | Draining (err : serve_error) | Stopped (err : serve_error).

Record serving := MkServing {
  sv_phase : serve_phase; sessions : list (nat * remote_addr); sessionSlots : Z; closed_conns : list nat; accepted : list nat; ended : bool; status_set : bool }.

Inductive serve_event :=
  | Accepts (conn : nat) (remote : remote_addr)
  | AcceptFails (temporary : bool)
  | TimerFires
  | ContextEnds
  | ContextNoticed                                (* the wait of a backing-off listener sees the end *)
  | SessionEnds (conn : nat) (panics : bool)
  | WaitOver.                                     (* [s.wg.Wait] returns *)

(** The delay before the next attempt. *)
Definition next_delay (delay : Z) : Z := if delay =? 0 then initialAcceptRetryDelay else Z.min (delay * 2) maximumAcceptRetryDelay.

(** One accepted connection: refused and closed, or a new session. *)
Definition admit_connection (s : server) (conn : nat) (remote : remote_addr) (y : serving) : serving :=
  let refused := MkServing (Accepting 0) (sessions y) (sessionSlots y) (conn :: closed_conns y) (conn :: accepted y) (ended y) (status_set y) in
  if negb (peerAllowed (allowedPeerIPs s) remote) then refused
  else if maxConnections s <=? sessionSlots y then refused
  else MkServing (Accepting 0) ((conn, remote) :: sessions y) (sessionSlots y + 1) (closed_conns y) (conn :: accepted y) (ended y) (status_set y).

Definition set_phase (p : serve_phase) (y : serving) : serving :=
  MkServing p (sessions y) (sessionSlots y) (closed_conns y) (accepted y) (ended y) (status_set y).

Definition cancelSessions (y : serving) : serving :=
  MkServing (sv_phase y) (sessions y) (sessionSlots y) (closed_conns y) (accepted y) true (status_set y).

(** [None] is an event that cannot happen now. *)
Definition Serve (s : server) (e : serve_event) (y : serving) : option serving :=
  match e, sv_phase y with
  | Accepts conn remote, Accepting _ => if bool_decide (conn ∈ accepted y) then None else Some (admit_connection s conn remote y)
  | AcceptFails temporary, Accepting delay =>
      if ended y then Some (set_phase (Draining ServeContext) y)
      else if temporary then Some (set_phase (BackingOff (next_delay delay)) y)
      else Some (cancelSessions (set_phase (Draining ServeListener) y))
  | TimerFires, BackingOff delay => Some (set_phase (Accepting delay) y)
  | ContextNoticed, BackingOff _ => if ended y then Some (set_phase (Draining ServeContext) y) else None
  | ContextEnds, _ => Some (cancelSessions y)
  | SessionEnds conn _, _ =>
      if existsb (λ c, (c.1 =? conn)%nat) (sessions y)
      then Some (MkServing (sv_phase y) (List.filter (λ c, negb (c.1 =? conn)%nat) (sessions y)) (sessionSlots y - 1) (conn :: closed_conns y)
                  (accepted y) (ended y) (status_set y))
      else None
  | WaitOver, Draining err =>
      match sessions y with
      | [] => Some (MkServing (Stopped err) [] (sessionSlots y) (closed_conns y) (accepted y) (ended y) false)
      | _ => None
      end
  | _, _ => None
  end.

Fixpoint serve_all (s : server) (events : list serve_event) (y : serving) : option serving :=
  match events with
  | [] => Some y
  | e :: events => match Serve s e y with None => None | Some y => serve_all s events y end
  end.
(** After the start-up maintenance, with the status recorded. *)
Definition serving_start : serving := MkServing (Accepting 0) [] 0 [] [] false true.
End Server.

(** ** Maintenance *)

(** What the maintenance service cleans, with the configuration of each repository. *)
Record maintained := MkMaintained {
  mt_ip : IPReputationOptions; mt_correspondents : CorrespondentOptions; mt_rejections : RejectionOptions; mt_domains : DomainOptions;
  mt_senderBlocklist : SenderBlocklistOptions }.

Inductive cleaned := CleanIP | CleanCorrespondents | CleanRejections | CleanDomains | CleanSenderBlocklist.
#[export] Instance cleaned_eq_dec : EqDecision cleaned.
Proof. solve_decision. Defined.

Definition wrapCleanupError (store : cleaned) (r : repo_error + Z) : list (cleaned * repo_error) :=
  match r with inl err => [(store, err)] | inr _ => [] end.

(** Every repository is cleaned, whatever happened to the ones before it; the
    result joins their errors. *)
Definition cleanupPersistentStores (m : maintained) (now : Z) (w : World) : list (cleaned * repo_error) * World :=
  let '(r1, w) := IPReputation.Cleanup (mt_ip m) now w in
  let '(r2, w) := Correspondents.Cleanup (mt_correspondents m) now w in
  let '(r3, w) := Rejections.Cleanup (mt_rejections m) now w in
  let '(r4, w) := Domains.Cleanup (mt_domains m) now w in
  let '(r5, w) := SenderBlocklist.Cleanup (mt_senderBlocklist m) now w in
  (wrapCleanupError CleanIP r1 ++ wrapCleanupError CleanCorrespondents r2 ++ wrapCleanupError CleanRejections r3 ++
   wrapCleanupError CleanDomains r4 ++ wrapCleanupError CleanSenderBlocklist r5, w).

(** The daily pass: the archive and then the activity history, whatever the
    archive did.  A repository that is switched off is not there. *)
Definition runDailyCleanup `{UnicodeTables} (archive : option Archive.Options) (activity : option Z) (now : Z) (files : Archive.world) (w : World) :
    Archive.world * World :=
  let files := match archive with Some o => (Archive.Cleanup o now files).2 | None => files end in
  (files, match activity with Some expiry => (Activity.Cleanup expiry now w).2 | None => w end).

(** The service status is recorded on a best-effort basis. *)
Definition setServiceStatus (expiry : Z) (enforce : bool) (startedAt : Z) (w : World) : World :=
  (Activity.SetServiceStatus expiry startedAt (if enforce then ServiceModeEnforce else ServiceModeAccept) w).2.
Definition clearServiceStatus (expiry : Z) (w : World) : World := (Activity.ClearServiceStatus expiry w).2.
