(* ===== verification/ServerProps.v ===== *)
(** * Properties of the server

    Admission of connections, back-off of the listener, orderly stop, and the
    independence of the repositories in maintenance. *)
From Stdlib Require Import QArith.
From S2P Require Import Prelude GoText NetSafety SqlDb Calendar IPReputation IPReputationFacts IPReputationSpec Correspondents SenderBlocklist SenderListsFacts SenderListsSpec Rejections RejectionsSpec Activity ActivitySpec Server.
#[local] Open Scope Z_scope.

(** ** Connections *)

Section Serving.
Context {NT : NetIPText} (s : server).

Record serving_ok (y : serving) : Prop := {
  so_slots : sessionSlots y = Z.of_nat (length (sessions y));
  so_limit : sessionSlots y <= Z.max 0 (maxConnections s);
  so_peers : Forall (λ c, peerAllowed (allowedPeerIPs s) c.2 = true) (sessions y);
  so_unique : NoDup (accepted y);
  so_owned : accepted y ≡ₚ closed_conns y ++ (fst <$> sessions y);
  so_delay : match sv_phase y with BackingOff d => initialAcceptRetryDelay <= d <= maximumAcceptRetryDelay
             | Accepting d => d = 0 \/ initialAcceptRetryDelay <= d <= maximumAcceptRetryDelay | _ => True end;
  so_reason : match sv_phase y with Draining _ | Stopped _ => ended y = true | _ => True end;
  so_stopped : match sv_phase y with Stopped _ => sessions y = [] /\ status_set y = false | _ => True end }.

Lemma filter_out (l : list (nat * remote_addr)) conn : NoDup (fst <$> l) -> existsb (λ c, (c.1 =? conn)%nat) l = true ->
  fst <$> l ≡ₚ conn :: (fst <$> List.filter (λ c, negb (c.1 =? conn)%nat) l) /\ length l = S (length (List.filter (λ c, negb (c.1 =? conn)%nat) l)).
Proof.
  induction l as [|[c a] l IH]; [done|]. cbn [existsb fmap list_fmap fst List.filter]. intros [Hn Hnd]%NoDup_cons. destruct (Nat.eqb_spec c conn) as [-> |Hne]; cbn [negb orb].
  - intros _. assert (Hf : List.filter (λ c, negb (c.1 =? conn)%nat) l = l).
    { clear -Hn. induction l as [|[c a] l IH]; [done|]. cbn in *. apply not_elem_of_cons in Hn as [Hne Hn]. rewrite (proj2 (Nat.eqb_neq c conn)) by done. cbn. f_equal. by apply IH. }
    by rewrite Hf.
  - intros He. destruct (IH Hnd He) as [Hp Hl]. cbn [fmap list_fmap fst length]. split; [|by rewrite Hl]. rewrite Hp. apply perm_swap.
Qed.

Lemma serve_step_ok e y y' : serving_ok y -> Serve s e y = Some y' -> serving_ok y'.
Proof.
  intros [Hs Hm Hp Hu Ho Hd Hr Hst]. destruct y as [ph ses sl cl ac en st]. cbn [sv_phase sessions sessionSlots closed_conns accepted ended status_set] in *.
  assert (Hnd : NoDup (fst <$> ses)) by (rewrite Ho in Hu; by apply NoDup_app in Hu as (_ & _ & ?)).
  destruct e as [conn remote|temporary| | | |conn panics|]; cbn [Serve sv_phase sessions sessionSlots closed_conns accepted ended status_set].
  - destruct ph as [d|d|err|err]; try done. case_bool_decide as Hin; [done|]. intros [= <-]. unfold admit_connection. cbn [sessions sessionSlots closed_conns accepted ended status_set].
    assert (Hu' : NoDup (conn :: ac)) by (by constructor).
    assert (Hrefused : serving_ok (MkServing (Accepting 0) ses sl (conn :: cl) (conn :: ac) en st)) by (split; cbn; try done; [by rewrite Ho|by left]).
    destruct (peerAllowed _ remote) eqn:Ep; cbn [negb]; [|done]. destruct (Z.leb_spec (maxConnections s) sl); [done|].
    split; cbn; try done; [lia|lia|by constructor|rewrite Ho; by rewrite Permutation_middle|by left].
  - destruct ph as [d|d|err|err]; try done. destruct en; [|destruct temporary]; intros [= <-]; unfold set_phase, cancelSessions; split; cbn; try done.
    unfold next_delay, initialAcceptRetryDelay, maximumAcceptRetryDelay, second, millisecond in *. destruct (Z.eqb_spec d 0); lia.
  - destruct ph as [d|d|err|err]; try done. intros [= <-]. split; cbn; try done. by right.
  - intros [= <-]. split; cbn; try done. by destruct ph.
  - destruct ph as [d|d|err|err]; try done. destruct en; [|done]. intros [= <-]. by split; cbn.
  - assert (He : (if existsb (λ c, (c.1 =? conn)%nat) ses then Some (MkServing ph (List.filter (λ c, negb (c.1 =? conn)%nat) ses) (sl - 1) (conn :: cl) ac en st) else None) = Some y' -> serving_ok y').
    { destruct (existsb _ ses) eqn:E; [|done]. intros [= <-]. destruct (filter_out ses conn Hnd E) as [Hperm Hlen]. split; cbn; try done; try lia.
      - rewrite Forall_forall in *. intros c Hc. apply Hp. apply list_elem_of_In in Hc. apply filter_In in Hc as [Hc _]. by apply list_elem_of_In.
      - rewrite Ho, Hperm. symmetry. apply Permutation_middle.
      - destruct ph; try done. destruct Hst as [-> ?]. done. }
    by destruct ph.
  - destruct ph as [d|d|err|err]; try done. destruct ses; [|done]. intros [= <-]. by split; cbn.
Qed.

Lemma serve_all_ok events : forall y y', serving_ok y -> serve_all s events y = Some y' -> serving_ok y'.
Proof.
  induction events as [|e events IH]; intros y y' Hy; cbn [serve_all]; [by intros [= <-]|]. destruct (Serve s e y) as [z|] eqn:E; [|done].
  apply IH. by eapply serve_step_ok.
Qed.
Lemma serving_start_ok : serving_ok serving_start.
Proof. split; cbn; try done; try lia; try constructor; done. Qed.

(** Once the context has ended the server can stop: at most one step more than
    there are sessions, and the listener noticing it. *)
Lemma drain err : forall ses sl cl ac st, NoDup (fst <$> ses) ->
  exists events y', serve_all s events (MkServing (Draining err) ses sl cl ac true st) = Some y' /\ sv_phase y' = Stopped err /\ (length events <= S (length ses))%nat.
Proof.
  intros ses. induction ses as [|[c a] ses IH]; intros sl cl ac st Hnd.
  - exists [WaitOver]. by eexists.
  - cbn [fmap list_fmap fst] in Hnd. apply NoDup_cons in Hnd as [Hn Hnd]. destruct (IH (sl - 1) (c :: cl) ac st Hnd) as (events & y' & Hr & Hp & Hl).
    exists (SessionEnds c false :: events), y'. cbn [serve_all Serve sv_phase sessions]. cbn [existsb fst]. rewrite Nat.eqb_refl. cbn [orb].
    assert (Hf : List.filter (λ x, negb (x.1 =? c)%nat) ((c, a) :: ses) = ses).
    { cbn [List.filter fst]. rewrite Nat.eqb_refl. cbn [negb]. clear -Hn. induction ses as [|[d b] ses IH]; [done|]. cbn in *. apply not_elem_of_cons in Hn as [Hne Hn].
      rewrite (proj2 (Nat.eqb_neq d c)) by done. cbn. f_equal. by apply IH. }
    rewrite Hf. cbn [sessionSlots closed_conns accepted ended status_set length]. split_and!; [done|done|lia].
Qed.
End Serving.

(** ** Maintenance *)

(** A cleanup that fails leaves the tables alone; one that succeeds applies its body. *)
Lemma lifted_tx (f : Db -> Z * Db) w r w' : lift_db (withTx f w) = (r, w') ->
  match r with inl _ => wdb w' = wdb w | inr _ => wdb w' = (f (wdb w)).2 end.
Proof.
  unfold lift_db. destruct (withTx f w) as [[e|n] w1] eqn:E; intros [= <- <-]; [by eapply retry_error|]. apply retry_ok in E. by rewrite E.
Qed.

(** The tables that the other cleanups do not touch. *)
Lemma ip_cleanup_frame (o : IPReputationOptions) now d : let d' := (IPReputation.cleanup_body o now d).2 in
  correspondents d' = correspondents d /\ rejections d' = rejections d /\ rejections_seq d' = rejections_seq d /\ rejection_recipients d' = rejection_recipients d /\
  domain_registrations d' = domain_registrations d /\ sender_blocklist d' = sender_blocklist d.
Proof.
  cbv zeta. unfold IPReputation.cleanup_body, IPReputation.enforceCapacityTx. cbv zeta. cbn [fold_left].
  unfold evict_level. repeat (case_match; simplify_eq; cbn [fst snd] in *); by split_and!.
Qed.
Lemma corr_cleanup_frame (o : CorrespondentOptions) now d : let d' := (Correspondents.cleanup_body o now d).2 in
  ip_reputation d' = ip_reputation d /\ ip_strikes d' = ip_strikes d /\ rejections d' = rejections d /\ rejections_seq d' = rejections_seq d /\
  rejection_recipients d' = rejection_recipients d /\ domain_registrations d' = domain_registrations d /\ sender_blocklist d' = sender_blocklist d.
Proof. cbv zeta. unfold Correspondents.cleanup_body, Correspondents.enforceCapacityTx. cbv zeta. repeat (case_match; simplify_eq; cbn [fst snd] in *); by split_and!. Qed.
Lemma rej_cleanup_frame (o : RejectionOptions) now d : let d' := (Rejections.cleanup_body o now d).2 in
  ip_reputation d' = ip_reputation d /\ ip_strikes d' = ip_strikes d /\ correspondents d' = correspondents d /\
  domain_registrations d' = domain_registrations d /\ sender_blocklist d' = sender_blocklist d.
Proof. cbv zeta. unfold Rejections.cleanup_body, Rejections.enforceCapacityTx. cbv zeta. repeat (case_match; simplify_eq; cbn [fst snd] in *); by split_and!. Qed.
Lemma dom_cleanup_frame (o : DomainOptions) now d : let d' := (Domains.cleanup_body o now d).2 in
  ip_reputation d' = ip_reputation d /\ ip_strikes d' = ip_strikes d /\ correspondents d' = correspondents d /\ rejections d' = rejections d /\
  rejections_seq d' = rejections_seq d /\ rejection_recipients d' = rejection_recipients d /\ sender_blocklist d' = sender_blocklist d.
Proof. cbv zeta. unfold Domains.cleanup_body, Domains.enforceCapacityTx. cbv zeta. repeat (case_match; simplify_eq; cbn [fst snd] in *); by split_and!. Qed.
Lemma block_cleanup_frame (o : SenderBlocklistOptions) now d : let d' := (SenderBlocklist.cleanup_body o now d).2 in
  ip_reputation d' = ip_reputation d /\ ip_strikes d' = ip_strikes d /\ correspondents d' = correspondents d /\ rejections d' = rejections d /\
  rejections_seq d' = rejections_seq d /\ rejection_recipients d' = rejection_recipients d /\ domain_registrations d' = domain_registrations d.
Proof. cbv zeta. unfold SenderBlocklist.cleanup_body. cbv zeta. case_match; by split_and!. Qed.

Lemma evict_to_fit {A} (id k : A -> Z) rows maximum : NoDup (id <$> rows) -> 0 <= maximum ->
  let excess := capacity_excess rows maximum in
  Z.of_nat (length (if excess =? 0 then rows else delete_where (id_in id (first_ids k id (Z.to_nat excess) rows)) rows)) <= maximum.
Proof.
  intros Hnd Hm excess. unfold excess, capacity_excess. destruct (Z.eqb_spec (Z.max (Z.of_nat (length rows) - maximum) 0) 0); [lia|].
  pose proof (evict_first id k (λ _, true) (Z.to_nat (Z.max (Z.of_nat (length rows) - maximum) 0)) rows Hnd) as He. cbv zeta in He.
  rewrite (filter_all (λ _, true) rows) in He by done. destruct He as (_ & Hl & _). lia.
Qed.

(** What a repository has after a cleanup that succeeded. *)
Definition within (m : maintained) (now : Z) (c : cleaned) (d : Db) : Prop :=
  match c with
  | CleanIP => enabled (mt_ip m) = true -> Z.of_nat (length (ip_reputation d)) <= IPMaxEntries (mt_ip m)
  | CleanCorrespondents => Z.of_nat (length (correspondents d)) <= CorrMaxEntries (mt_correspondents m) /\
      Forall (λ row, Correspondents.stale (mt_correspondents m) now row = false) (correspondents d)
  | CleanRejections => Rejections.enabled (mt_rejections m) = true -> Z.of_nat (length (rejections d)) <= RejMaxEntries (mt_rejections m) /\
      Forall (λ row, Rejections.expired (mt_rejections m) now row = false) (rejections d)
  | CleanDomains => Z.of_nat (length (domain_registrations d)) <= DomMaxEntries (mt_domains m) /\
      Forall (λ row, Domains.expired (mt_domains m) now row = false) (domain_registrations d)
  | CleanSenderBlocklist => SenderBlocklist.available (mt_senderBlocklist m) = true ->
      Z.of_nat (length (sender_blocklist d)) <= BlockMaxEntries (mt_senderBlocklist m) /\ Forall (λ row, unixMillis now < sb_expires_at_ms row) (sender_blocklist d)
  end.
(** The tables of a repository are the same. *)
Definition untouched (c : cleaned) (d d' : Db) : Prop :=
  match c with
  | CleanIP => ip_reputation d' = ip_reputation d /\ ip_strikes d' = ip_strikes d
  | CleanCorrespondents => correspondents d' = correspondents d
  | CleanRejections => rejections d' = rejections d /\ rejections_seq d' = rejections_seq d /\ rejection_recipients d' = rejection_recipients d
  | CleanDomains => domain_registrations d' = domain_registrations d
  | CleanSenderBlocklist => sender_blocklist d' = sender_blocklist d
  end.
Lemma untouched_refl c d : untouched c d d.
Proof. by destruct c. Qed.
Lemma untouched_trans c d1 d2 d3 : untouched c d1 d2 -> untouched c d2 d3 -> untouched c d1 d3.
Proof. destruct c; cbn; intuition congruence. Qed.
Lemma within_untouched m now c d d' : untouched c d d' -> within m now c d -> within m now c d'.
Proof. destruct c; cbn; [intros [-> _]|intros -> |intros [-> _]|intros -> |intros ->]; done. Qed.

(** One cleanup: the other repositories keep their tables; its own is clean, or
    as it was when it failed. *)
Definition cleans (m : maintained) (now : Z) (c : cleaned) (r : repo_error + Z) (d d' : Db) : Prop :=
  (forall c', c' <> c -> untouched c' d d') /\ match r with inl _ => untouched c d d' | inr _ => within m now c d' end.

Section Cleans.
Context (m : maintained) (now : Z) (w w' : World) (r : repo_error + Z).

Lemma ip_cleans : ip_wf (wdb w) -> IPReputation.Cleanup (mt_ip m) now w = (r, w') -> cleans m now CleanIP r (wdb w) (wdb w').
Proof.
  intros Hwf Hc. destruct (enabled (mt_ip m)) eqn:Ee; [|unfold IPReputation.Cleanup in Hc; rewrite Ee in Hc; injection Hc as <- <-; split; [intros; apply untouched_refl|cbn; congruence]].
  split.
  - intros c' Hne. unfold IPReputation.Cleanup in Hc. rewrite Ee in Hc. apply lifted_tx in Hc. destruct r as [e|n]; [rewrite Hc; apply untouched_refl|].
    rewrite Hc. destruct (ip_cleanup_frame (mt_ip m) now (wdb w)) as (H1 & H2 & H3 & H4 & H5 & H6). destruct c'; cbn; try done.
  - destruct r as [e|n]; [unfold IPReputation.Cleanup in Hc; rewrite Ee in Hc; apply lifted_tx in Hc; by rewrite Hc|].
    intros _. by apply (cleanup_capacity_and_evidence (mt_ip m) now w w' n Ee Hwf Hc).
Qed.

Lemma corr_cleans : lists_wf (wdb w) -> 0 <= CorrMaxEntries (mt_correspondents m) ->
  Correspondents.Cleanup (mt_correspondents m) now w = (r, w') -> cleans m now CleanCorrespondents r (wdb w) (wdb w') /\ lists_wf (wdb w').
Proof.
  intros Hwf Hm Hc. pose proof Hc as Hd. unfold Correspondents.Cleanup in Hd. apply lifted_tx in Hd. split; [split|].
  - intros c' Hne. destruct r as [e|n]; rewrite Hd; [apply untouched_refl|].
    destruct (corr_cleanup_frame (mt_correspondents m) now (wdb w)) as (H1 & H2 & H3 & H4 & H5 & H6 & H7). destruct c'; cbn; try done.
  - destruct r as [e|n]; [by rewrite Hd|]. destruct (correspondents_cleanup_order (mt_correspondents m) now n w w' Hm Hwf Hc) as (_ & Hl & Hs & _).
    split; [done|]. rewrite Forall_forall. intros x Hx. by apply Hs.
  - destruct r as [e|n]; rewrite Hd; [done|]. by apply corr_cleanup_wf.
Qed.

Lemma rej_cleans : NoDup (rj_id <$> rejections (wdb w)) -> 0 <= RejMaxEntries (mt_rejections m) ->
  Rejections.Cleanup (mt_rejections m) now w = (r, w') -> cleans m now CleanRejections r (wdb w) (wdb w').
Proof.
  intros Hnd Hm Hc. unfold Rejections.Cleanup in Hc. destruct (Rejections.enabled (mt_rejections m)) eqn:Ee; cbn [negb] in Hc;
    [|injection Hc as <- <-; split; [intros; apply untouched_refl|cbn; congruence]].
  apply lifted_tx in Hc. split.
  - intros c' Hne. destruct r as [e|n]; rewrite Hc; [apply untouched_refl|].
    destruct (rej_cleanup_frame (mt_rejections m) now (wdb w)) as (H1 & H2 & H3 & H4 & H5). destruct c'; cbn; try done.
  - destruct r as [e|n]; [by rewrite Hc|]. intros _. rewrite Hc. unfold Rejections.cleanup_body, Rejections.enforceCapacityTx. cbv zeta.
    set (rows := rejections (delete_rejections (Rejections.expired (mt_rejections m) now) (wdb w))).
    assert (Hrows : rows = delete_where (Rejections.expired (mt_rejections m) now) (rejections (wdb w))) by done.
    assert (Hn' : NoDup (rj_id <$> rows)) by (rewrite Hrows; eapply sublist_NoDup; [exact Hnd|]; apply sublist_fmap, filter_sublist).
    pose proof (evict_to_fit rj_id rj_rejected_at_ms rows (RejMaxEntries (mt_rejections m)) Hn' Hm) as Hfit. cbv zeta in Hfit.
    assert (Hold : Forall (λ row, Rejections.expired (mt_rejections m) now row = false) rows) by (rewrite Forall_forall; intros x Hx; rewrite Hrows, delete_where_elem in Hx; by destruct Hx).
    destruct (capacity_excess rows (RejMaxEntries (mt_rejections m)) =? 0); cbn [snd]; [by split|]. split; [exact Hfit|].
    rewrite Forall_forall in *. intros x Hx. apply Hold. change (x ∈ delete_where (id_in rj_id (first_ids rj_rejected_at_ms rj_id (Z.to_nat (capacity_excess rows (RejMaxEntries (mt_rejections m)))) rows)) rows) in Hx.
    by apply delete_where_elem in Hx as [? _].
Qed.

Lemma dom_cleans : NoDup (dm_id <$> domain_registrations (wdb w)) -> 0 <= DomMaxEntries (mt_domains m) ->
  Domains.Cleanup (mt_domains m) now w = (r, w') -> cleans m now CleanDomains r (wdb w) (wdb w').
Proof.
  intros Hnd Hm Hc. unfold Domains.Cleanup in Hc. apply lifted_tx in Hc. split.
  - intros c' Hne. destruct r as [e|n]; rewrite Hc; [apply untouched_refl|].
    destruct (dom_cleanup_frame (mt_domains m) now (wdb w)) as (H1 & H2 & H3 & H4 & H5 & H6 & H7). destruct c'; cbn; try done.
  - destruct r as [e|n]; [by rewrite Hc|]. rewrite Hc. unfold within, Domains.cleanup_body, Domains.enforceCapacityTx. cbv zeta. cbn [domain_registrations set_domain_registrations].
    set (rows := delete_where (Domains.expired (mt_domains m) now) (domain_registrations (wdb w))).
    assert (Hn' : NoDup (dm_id <$> rows)) by (eapply sublist_NoDup; [exact Hnd|]; apply sublist_fmap, filter_sublist).
    pose proof (evict_to_fit dm_id dm_expires_at_ms rows (DomMaxEntries (mt_domains m)) Hn' Hm) as Hfit. cbv zeta in Hfit.
    assert (Hold : Forall (λ row, Domains.expired (mt_domains m) now row = false) rows) by (rewrite Forall_forall; intros x Hx; apply delete_where_elem in Hx; by destruct Hx).
    destruct (capacity_excess rows (DomMaxEntries (mt_domains m)) =? 0); cbn [snd domain_registrations set_domain_registrations]; [by split|]. split; [exact Hfit|].
    rewrite Forall_forall in *. intros x Hx. apply Hold. by apply delete_where_elem in Hx as [? _].
Qed.

Lemma block_cleans : lists_wf (wdb w) -> 0 <= BlockMaxEntries (mt_senderBlocklist m) ->
  SenderBlocklist.Cleanup (mt_senderBlocklist m) now w = (r, w') -> cleans m now CleanSenderBlocklist r (wdb w) (wdb w').
Proof.
  intros Hwf Hm Hc. pose proof Hc as Hd. unfold SenderBlocklist.Cleanup in Hd. destruct (SenderBlocklist.available (mt_senderBlocklist m)) eqn:Ea; cbn [negb] in Hd;
    [|injection Hd as <- <-; split; [intros; apply untouched_refl|cbn; congruence]].
  apply lifted_tx in Hd. split.
  - intros c' Hne. destruct r as [e|n]; rewrite Hd; [apply untouched_refl|].
    destruct (block_cleanup_frame (mt_senderBlocklist m) now (wdb w)) as (H1 & H2 & H3 & H4 & H5 & H6 & H7). destruct c'; cbn; try done.
  - destruct r as [e|n]; [by rewrite Hd|]. intros _. destruct (blocklist_cleanup_order (mt_senderBlocklist m) now n w w' Ea Hm Hwf Hc) as (_ & Hl & _ & Hs & _).
    split; [done|]. rewrite Forall_forall. intros x Hx. by apply Hs.
Qed.
End Cleans.

(** ** What the server guarantees

    Admission and orderly stop of [Serve], and the independence of the
    repositories in the maintenance pass. *)

(** ** Admission *)

Section Admission.
Context {NT : NetIPText}.

(** What a peer entry lets in. *)
Lemma peer_prefixes_exact entries remote : peerAllowed (peerPrefixes entries) remote = true <->
  remote = UnixAddr \/ exists ip entry prefix, remote = TCPAddr (Some ip) /\ entry ∈ entries /\ ParseIPPrefix entry = Some prefix /\ prefix_contains prefix (unmap ip) = true.
Proof.
  unfold peerAllowed, peerPrefixes. destruct remote as [| |[ip|]|]; try (split; [done|by intros [?|(? & ? & ? & ? & ?)]]); [split; [by left|done]|].
  rewrite existsb_exists. split.
  - intros (prefix & Hin & Hc). apply list_elem_of_In, list_elem_of_omap in Hin as (entry & He & Hp). right. by exists ip, entry, prefix.
  - intros [?|(ip' & entry & prefix & [= <-] & He & Hp & Hc)]; [done|]. exists prefix. split; [|done]. apply list_elem_of_In, list_elem_of_omap. by exists entry.
Qed.

(** Every connection the listener hands over has an outcome: it is closed, or a session owns it. *)
Lemma owned_once (y : serving) s conn : serving_ok s y -> conn ∈ accepted y ->
  (conn ∈ closed_conns y /\ conn ∉ (fst <$> sessions y)) \/ (conn ∉ closed_conns y /\ conn ∈ (fst <$> sessions y)).
Proof.
  intros Hy Hin. pose proof (so_owned _ _ Hy) as Ho. pose proof (so_unique _ _ Hy) as Hu. rewrite Ho in Hin, Hu.
  apply NoDup_app in Hu as (_ & Hd & _). apply elem_of_app in Hin as [Hin|Hin]; [left|right]; split; [done|by apply Hd| |done].
  intros Hc. by apply (Hd conn Hc).
Qed.

(** From an ended context the server can stop. *)
Lemma can_stop s y : serving_ok s y -> ended y = true ->
  exists events y' err, serve_all s events y = Some y' /\ sv_phase y' = Stopped err /\ (length events <= length (sessions y) + 2)%nat.
Proof.
  intros Hy He. pose proof (so_owned _ _ Hy) as Ho. pose proof (so_unique _ _ Hy) as Hu. rewrite Ho in Hu. apply NoDup_app in Hu as (_ & _ & Hnd).
  destruct y as [ph ses sl cl ac en st]. cbn in *. subst en.
  destruct ph as [d|d|err|err]; [| | |by exists [], (MkServing (Stopped err) ses sl cl ac true st), err; cbn; split_and!; [| |lia]].
  - destruct (drain s ServeContext ses sl cl ac st Hnd) as (ev & y' & Hr & Hp & Hl). exists (AcceptFails false :: ev), y', ServeContext. cbn. split_and!; [done|done|lia].
  - destruct (drain s ServeContext ses sl cl ac st Hnd) as (ev & y' & Hr & Hp & Hl). exists (ContextNoticed :: ev), y', ServeContext. cbn. split_and!; [done|done|lia].
  - destruct (drain s err ses sl cl ac st Hnd) as (ev & y' & Hr & Hp & Hl). exists ev, y', err. split_and!; [done|done|lia].
Qed.

(** C27: Along every run of [Serve], from its start: the sessions are exactly the
    occupied slots and never more than [milter.max_connections]; each of them
    comes over a Unix socket, or over TCP from an address that an entry of
    [milter.allowed_peer_ips] covers; every connection the listener accepted is
    either closed or owned by a session, not both (no connection leaks, whether
    sessions end normally or by a panic); a retry delay is between 5 ms and 1 s;
    when [Serve] has returned no session runs and the status is cleared; and once
    the context has ended it can return within two steps more than it has
    sessions. *)
Theorem server_admission entries maximum events y :
  let s := MkServer (peerPrefixes entries) maximum in
  serve_all s events serving_start = Some y ->
  Z.of_nat (length (sessions y)) = sessionSlots y /\ sessionSlots y <= Z.max 0 maximum /\
  (forall conn remote, (conn, remote) ∈ sessions y -> remote = UnixAddr \/
    exists ip entry prefix, remote = TCPAddr (Some ip) /\ entry ∈ entries /\ ParseIPPrefix entry = Some prefix /\ prefix_contains prefix (unmap ip) = true) /\
  (forall conn, conn ∈ accepted y ->
    (conn ∈ closed_conns y /\ conn ∉ (fst <$> sessions y)) \/ (conn ∉ closed_conns y /\ conn ∈ (fst <$> sessions y))) /\
  (forall delay, sv_phase y = BackingOff delay -> initialAcceptRetryDelay <= delay <= maximumAcceptRetryDelay) /\
  (forall err, sv_phase y = Stopped err -> sessions y = [] /\ status_set y = false) /\
  (ended y = true -> exists events' y' err, serve_all s events' y = Some y' /\ sv_phase y' = Stopped err /\ (length events' <= length (sessions y) + 2)%nat).
Proof.
  intros s Hr. pose proof (serve_all_ok s events _ _ (serving_start_ok s) Hr) as Hy. destruct (Hy) as [Hs Hm Hp _ _ Hd _ Hst].
  split; [done|]. split; [done|]. split; [|split; [|split; [|split]]].
  - intros conn remote Hin. rewrite Forall_forall in Hp. apply peer_prefixes_exact. exact (Hp _ Hin).
  - intros conn. by apply (owned_once y s).
  - intros delay Hph. by rewrite Hph in Hd.
  - intros err Hph. by rewrite Hph in Hst.
  - by apply can_stop.
Qed.
End Admission.

(** ** Maintenance *)

Lemma lists_wf_untouched d d' : untouched CleanCorrespondents d d' -> untouched CleanSenderBlocklist d d' -> lists_wf d -> lists_wf d'.
Proof. cbn. intros Hc Hb [H1 H2]. split; by rewrite ?Hc, ?Hb. Qed.

Lemma wrap_in store c r e : (c, e) ∈ wrapCleanupError store r <-> c = store /\ r = inl e.
Proof. destruct r as [e'|n]; cbn; [rewrite list_elem_of_singleton; naive_solver|]. split; [by intros ?%elem_of_nil|by intros [_ ?]]. Qed.

(** The tables before a cleanup and after it, seen through the cleanups around it. *)
Lemma around m now c r d0 d d' d1 : cleans m now c r d d' -> untouched c d0 d -> untouched c d' d1 ->
  match r with inl _ => untouched c d0 d1 | inr _ => within m now c d1 end.
Proof.
  intros [_ Hc] Hb Ha. destruct r as [e|n]; [|by eapply within_untouched]. eapply untouched_trans; [exact Hb|]. by eapply untouched_trans.
Qed.

Record maintained_ok (m : maintained) (d : Db) : Prop := {
  mo_ip : ip_wf d; mo_lists : lists_wf d; mo_rejections : rej_wf d; mo_domains : dom_wf d;
  mo_limits : 0 <= CorrMaxEntries (mt_correspondents m) /\ 0 <= RejMaxEntries (mt_rejections m) /\ 0 <= DomMaxEntries (mt_domains m) /\
              0 <= BlockMaxEntries (mt_senderBlocklist m) }.

(** Maintenance of one repository does not depend on the others: whatever
    combination of database failures the pass meets, a repository whose error is
    among the joined errors keeps all its tables as they were, and every other
    repository ends within its limits: at most its maximum of entries, and
    nothing expired (stale, for correspondents) left. *)
Theorem maintenance_independent m now w errs w' :
  maintained_ok m (wdb w) -> cleanupPersistentStores m now w = (errs, w') ->
  forall c, (exists e, (c, e) ∈ errs /\ untouched c (wdb w) (wdb w')) \/ ((forall e, (c, e) ∉ errs) /\ within m now c (wdb w')).
Proof.
  intros [Hip Hl Hrj Hdm (Hm1 & Hm2 & Hm3 & Hm4)]. unfold cleanupPersistentStores.
  destruct (IPReputation.Cleanup _ _ _) as [r1 w1] eqn:E1. apply ip_cleans in E1; [|done]. destruct E1 as [F1 C1].
  assert (Hl1 : lists_wf (wdb w1)) by (eapply lists_wf_untouched; [by apply F1|by apply F1|done]).
  destruct (Correspondents.Cleanup _ _ _) as [r2 w2] eqn:E2. apply (corr_cleans m) in E2 as [[F2 C2] Hl2]; [|done..].
  destruct (Rejections.Cleanup _ _ _) as [r3 w3] eqn:E3.
  assert (Hrj2 : NoDup (rj_id <$> rejections (wdb w2))).
  { destruct (F2 CleanRejections) as [-> _]; [done|]. destruct (F1 CleanRejections) as [-> _]; [done|]. apply Hrj. }
  apply (rej_cleans m) in E3; [|done..]. destruct E3 as [F3 C3].
  destruct (Domains.Cleanup _ _ _) as [r4 w4] eqn:E4.
  assert (Hdm3 : NoDup (dm_id <$> domain_registrations (wdb w3))).
  { rewrite (F3 CleanDomains), (F2 CleanDomains), (F1 CleanDomains) by done. apply Hdm. }
  apply (dom_cleans m) in E4; [|done..]. destruct E4 as [F4 C4].
  destruct (SenderBlocklist.Cleanup _ _ _) as [r5 w5] eqn:E5.
  assert (Hl4 : lists_wf (wdb w4)).
  { eapply lists_wf_untouched; [by apply F4|by apply F4|]. eapply lists_wf_untouched; [by apply F3|by apply F3|done]. }
  apply (block_cleans m) in E5; [|done..]. destruct E5 as [F5 C5]. intros [= <- <-] c.
  assert (Hin : forall e, (c, e) ∈ wrapCleanupError CleanIP r1 ++ wrapCleanupError CleanCorrespondents r2 ++ wrapCleanupError CleanRejections r3 ++
     wrapCleanupError CleanDomains r4 ++ wrapCleanupError CleanSenderBlocklist r5 <->
     match c with CleanIP => r1 | CleanCorrespondents => r2 | CleanRejections => r3 | CleanDomains => r4 | CleanSenderBlocklist => r5 end = inl e).
  { intros e. rewrite !elem_of_app, !wrap_in. destruct c; naive_solver. }
  assert (Hout : match match c with CleanIP => r1 | CleanCorrespondents => r2 | CleanRejections => r3 | CleanDomains => r4 | CleanSenderBlocklist => r5 end with
     inl _ => untouched c (wdb w) (wdb w5) | inr _ => within m now c (wdb w5) end).
  { destruct c.
    - apply (around m now CleanIP r1 _ (wdb w) (wdb w1)); [by split|apply untouched_refl|]. eauto 8 using untouched_trans.
    - apply (around m now CleanCorrespondents r2 _ (wdb w1) (wdb w2)); [by split|by apply F1|]. eauto 8 using untouched_trans.
    - apply (around m now CleanRejections r3 _ (wdb w2) (wdb w3)); [by split| |]; eauto 8 using untouched_trans.
    - apply (around m now CleanDomains r4 _ (wdb w3) (wdb w4)); [by split| |]; eauto 8 using untouched_trans.
    - apply (around m now CleanSenderBlocklist r5 _ (wdb w4) (wdb w5)); [by split| |apply untouched_refl]; eauto 8 using untouched_trans. }
  revert Hin Hout. generalize (match c with CleanIP => r1 | CleanCorrespondents => r2 | CleanRejections => r3 | CleanDomains => r4 | CleanSenderBlocklist => r5 end).
  intros [e|n] Hin Hout; [left; exists e; split; [by apply Hin|done]|]. right. split; [|done]. by intros e ?%Hin.
Qed.

(** ** Samples *)

Module ServerSample.

(** Two peers in turn, one refused by its address and one by the limit, a
    panicking session, a temporary error and the end of the context. *)
Definition peer_ip : Addr := ip4 10 1 2 65.
Definition peers : list gostring := [@addr_string raw_text peer_ip].
Definition peer : remote_addr := TCPAddr (Some peer_ip).
Definition stranger : remote_addr := TCPAddr (Some (ip4 11 1 2 65)).
Definition sample_events : list serve_event :=
  [Accepts 1 peer; Accepts 2 stranger; Accepts 3 peer; SessionEnds 1 true; AcceptFails true; TimerFires; Accepts 4 UnixAddr; ContextEnds].
Definition sample_serving : serving := MkServing (Accepting 0) [(4%nat, UnixAddr)] 1 [1; 3; 2]%nat [4; 3; 2; 1]%nat true true.

Lemma server_admission_witness :
  let s := MkServer (@peerPrefixes raw_text peers) 1 in
  serve_all s sample_events serving_start = Some sample_serving /\ sessionSlots sample_serving <= Z.max 0 1 /\
  exists events y err, serve_all s events sample_serving = Some y /\ sv_phase y = Stopped err /\ (length events <= 3)%nat.
Proof.
  intros s. assert (Hr : serve_all s sample_events serving_start = Some sample_serving) by (vm_compute; reflexivity). split; [exact Hr|].
  destruct (@server_admission raw_text peers 1 sample_events sample_serving Hr) as (_ & Hm & _ & _ & _ & _ & Hstop). split; [exact Hm|exact (Hstop eq_refl)].
Defined.

(** A full domain table, and a database that fails the second cleanup that runs. *)
Definition sample_maintained : maintained :=
  MkMaintained (MkIPReputationOptions 0 0 0 0 false 0 0) (MkCorrespondentOptions true true true CorrespondentScopePerSender 1 second (9 # 10) 2 true)
    (MkRejectionOptions second 1) (MkDomainOptions 1 second) (MkSenderBlocklistOptions second 1).
Definition full_world : SqlDb.World :=
  MkWorld (set_domain_registrations [DomRow 1 (lit "old.example") 0 1; DomRow 2 (lit "new.example") 0 99999; DomRow 3 (lit "newer.example") 0 999999] emptyDb)
    [AttemptOk; AttemptFail].

Lemma maintenance_independent_witness :
  let '(errs, w') := cleanupPersistentStores sample_maintained 2000000000 full_world in
  errs = [(CleanRejections, RepoDb ErrDb)] /\ domain_registrations (wdb w') = [DomRow 3 (lit "newer.example") 0 999999] /\
  within sample_maintained 2000000000 CleanDomains (wdb w').
Proof.
  destruct (cleanupPersistentStores sample_maintained 2000000000 full_world) as [errs w'] eqn:E.
  assert (Hok : maintained_ok sample_maintained (wdb full_world)).
  { split; [split; constructor|split; split; constructor| | |cbn; lia].
    - split; cbn; constructor || lia.
    - split; cbn; [apply (bool_decide_unpack _); vm_compute; exact I..|repeat constructor; cbn; lia]. }
  assert (Hrun : cleanupPersistentStores sample_maintained 2000000000 full_world =
    ([(CleanRejections, RepoDb ErrDb)], (cleanupPersistentStores sample_maintained 2000000000 full_world).2)) by (vm_compute; reflexivity).
  rewrite E in Hrun. cbn [snd] in Hrun. injection Hrun as ->. split; [done|]. split.
  - assert (Hd : domain_registrations (wdb (cleanupPersistentStores sample_maintained 2000000000 full_world).2) = [DomRow 3 (lit "newer.example") 0 999999]) by (vm_compute; reflexivity).
    by rewrite E in Hd.
  - destruct (maintenance_independent _ _ _ _ _ Hok E CleanDomains) as [(e & He & _)|[_ Hw]]; [|exact Hw].
    apply list_elem_of_singleton in He. discriminate He.
Defined.
End ServerSample.
