(* ===== verification/PromptText.v ===== *)
(** * Text for the prompt
    (text_analysis.go of internal/message, with preheaderPaddingRune and
    normalizeHTMLText of html_tree.go)

    The functions that clean, compact and bound what a sender wrote before it
    becomes part of a prompt.  A position in a text is the rest of the text from
    there.  The allocation ledger and the checkpoints of internal/resourceguard
    only end a stage (ResourceGuard); they do not change what is computed, and
    are left out here. *)
From S2P Require Import Prelude GoText Runes Thinking.

(** ** Reserved annotations *)

Definition annotationSpace (c : ascii) : bool := ceq c " " || ceq c (chr 9) || ceq c LF || ceq c CR || ceq c (chr 12).
Definition annotationWord (c : ascii) : bool := in_range 97 122 c || in_range 65 90 c || in_range 48 57 c || ceq c "_".

Definition annotation_names : list gostring :=
  [lit "invisible"; lit "visibility-varies-by-viewport-size"; lit "visibility-uncertain"; lit "hidden-content-stripped"; lit "quoted-content";
   lit "attached-email"; lit "attached-file"].
Definition long_s : gostring := encode_rune 383.

(** One name at the start of a text, in any letter case, with a long s for an s. *)
Fixpoint name_end (name value : gostring) : option gostring :=
  match name with
  | [] => Some value
  | n :: name =>
      match value with
      | [] => None
      | c :: rest =>
          if ceq (lower_ascii c) n then name_end name rest
          else if ceq n "s" && hasPrefix value long_s then name_end name (drop 2 value)
          else None
      end
  end.
Definition not_in_word (value : gostring) : bool := match value with [] => true | c :: _ => negb (annotationWord c) end.
Fixpoint first_name (names : list gostring) (value : gostring) : option gostring :=
  match names with
  | [] => None
  | name :: names =>
      match name_end name value with
      | Some rest => if not_in_word rest then Some rest else first_name names value
      | None => first_name names value
      end
  end.
Definition annotationNameEnd (value : gostring) : option gostring := first_name annotation_names value.

Fixpoint skip_while (p : ascii -> bool) (s : gostring) : gostring :=
  match s with [] => [] | c :: rest => if p c then skip_while p rest else s end.
(** After a [<]: an optional slash and white space. *)
Definition tag_start (s : gostring) : gostring :=
  skip_while annotationSpace (match s with c :: rest => if ceq c "/" then rest else s | [] => [] end).

(** The text without its reserved annotations. Each turn consumes at least the
    [<] it found, so the length of the text is enough fuel. *)
Fixpoint sanitize_go (fuel : nat) (value : gostring) : gostring :=
  match fuel with
  | O => value
  | S fuel =>
      match cut "<" value with
      | None => value
      | Some (before, after) =>
          let pos := tag_start after in
          match annotationNameEnd pos with
          | None => before ++ "<"%char :: take (length after - length pos) after ++ sanitize_go fuel pos
          | Some nameEnd => match cut ">" nameEnd with None => value | Some (_, rest) => before ++ sanitize_go fuel rest end
          end
      end
  end.
Definition sanitizeSenderText (value : gostring) : gostring := sanitize_go (length value) value.

(** ** Padding *)

Definition is_space_rune (r : Z) : bool := bool_decide (r ∈ space_runes).
Definition padding_runes : list Z := [173; 847; 1564; 6158; 8203; 8204; 8205; 8206; 8207; 8288; 65279].
Definition preheaderPaddingRune (r : Z) : bool := is_space_rune r || bool_decide (r ∈ padding_runes).

Definition compaction_threshold : nat := 32.
Definition compaction_retained : nat := 8.

Fixpoint needs_compaction (runLength : nat) (hasFormat : bool) (l : list rune_chunk) : bool :=
  match l with
  | [] => false
  | k :: l =>
      if negb (preheaderPaddingRune (rc_rune k)) then needs_compaction 0 false l
      else
        let runLength := S runLength in
        let hasFormat := hasFormat || negb (is_space_rune (rc_rune k)) in
        if (compaction_threshold <=? runLength)%nat && hasFormat then true else needs_compaction runLength hasFormat l
  end.

(** A run of padding is kept, or its beginning when it is long and not only white space. *)
Definition kept_run (run : list rune_chunk) : list rune_chunk :=
  if negb (existsb (λ k, negb (is_space_rune (rc_rune k))) run) || (length run <? compaction_threshold)%nat then run else take compaction_retained run.
Definition out_chunk (k : rune_chunk) : rune_chunk := if rc_valid k then k else replacement_chunk.
Fixpoint compact_go (run l : list rune_chunk) : list rune_chunk :=
  match l with
  | [] => kept_run run
  | k :: l => if preheaderPaddingRune (rc_rune k) then compact_go (run ++ [k]) l else kept_run run ++ out_chunk k :: compact_go [] l
  end.
Definition compactFormattingPadding (value : gostring) : gostring :=
  if needs_compaction 0 false (rune_chunks value) then flatten_runes (compact_go [] (rune_chunks value)) else value.

Definition prepareVisibleText (value : gostring) : gostring := compactFormattingPadding (sanitizeSenderText value).

(** ** Counting *)

(** The characters of a prepared text with its white space normalized: a run of
    blanks counts once between words, up to two line ends between lines, nothing
    at the ends; a run of invalid bytes is one character. *)
Record counting := MkCounting { cn_count : nat; cn_trimmed : nat; cn_meaningful : bool; cn_space : bool; cn_newlines : nat }.
Definition count_rune (r : Z) (s : counting) : counting :=
  if (r =? 32) || (r =? 9) || (r =? 12) then MkCounting (cn_count s) (cn_trimmed s) (cn_meaningful s) true (cn_newlines s)
  else if (r =? 13) || (r =? 10) then
    if (0 <? cn_count s)%nat && (cn_newlines s <? 2)%nat
    then MkCounting (S (cn_count s)) (cn_trimmed s) (cn_meaningful s) false (S (cn_newlines s))
    else MkCounting (cn_count s) (cn_trimmed s) (cn_meaningful s) false (cn_newlines s)
  else
    let count := if cn_space s && (0 <? cn_count s)%nat && (cn_newlines s =? 0)%nat then S (cn_count s) else cn_count s in
    MkCounting (S count) (S count) (cn_meaningful s || negb (preheaderPaddingRune r)) false 0.
Fixpoint count_go (invalid : bool) (l : list rune_chunk) (s : counting) : counting :=
  match l with
  | [] => s
  | k :: l =>
      if rc_valid k then count_go false l (count_rune (rc_rune k) s)
      else if invalid then count_go true l s else count_go true l (count_rune (rc_rune k) s)
  end.
Definition confidentPreparedTextCharacters (value : gostring) : nat :=
  let s := count_go false (rune_chunks value) (MkCounting 0 0 false false 0) in
  if cn_meaningful s then cn_trimmed s else 0.
Definition confidentTextCharacters (value : gostring) : nat := confidentPreparedTextCharacters (prepareVisibleText value).

(** ** Normalized text of a page *)

(** [normalizeHTMLTextWithResources]: the runes written so far. *)
Record normal := MkNormal { nm_out : list Z; nm_space : bool; nm_newlines : nat }.
Definition normal_rune (r : Z) (s : normal) : normal :=
  if (r =? 32) || (r =? 9) || (r =? 12) then MkNormal (nm_out s) true (nm_newlines s)
  else if (r =? 13) || (r =? 10) then
    if (0 <? length (nm_out s))%nat && (nm_newlines s <? 2)%nat then MkNormal (nm_out s ++ [10]) false (S (nm_newlines s))
    else MkNormal (nm_out s) false (nm_newlines s)
  else
    let out := if nm_space s && (0 <? length (nm_out s))%nat && (nm_newlines s =? 0)%nat then nm_out s ++ [32] else nm_out s in
    MkNormal (out ++ [r]) false 0.
Fixpoint normal_go (invalid : bool) (l : list rune_chunk) (s : normal) : normal :=
  match l with
  | [] => s
  | k :: l =>
      if rc_valid k then normal_go false l (normal_rune (rc_rune k) s)
      else if invalid then normal_go true l s else normal_go true l (normal_rune (rc_rune k) s)
  end.
Definition normalizeHTMLText (value : gostring) : gostring :=
  trimSet (concat (encode_rune <$> nm_out (normal_go false (rune_chunks value) (MkNormal [] false 0)))) (lit " " ++ [chr 9; CR; LF; chr 12]).

(** ** Properties of the text of a prompt

    Removal of reserved annotations against a declarative reading of them, what
    compaction of padding keeps, and the character count. *)

(** ** Reserved annotations *)

(** A name as it may be spelled. *)
Definition spelled (n : gostring) : Prop := exists name, name ∈ annotation_names /\ name_end name n = Some [].

(** An annotation: [<], an optional slash, white space, a name that does not go
    on as a word, and anything up to the first [>]. *)
Definition annotation (t : gostring) : Prop :=
  exists slash blanks n body, t = "<"%char :: slash ++ blanks ++ n ++ body ++ [">"%char] /\
    (slash = [] \/ slash = ["/"%char]) /\ forallb annotationSpace blanks = true /\ spelled n /\ ">"%char ∉ body /\ not_in_word (body ++ [">"%char]) = true.
Definition starts_annotation (v : gostring) : Prop := exists t rest, v = t ++ rest /\ annotation t.

(** Annotations removed from left to right, without looking at what the removal
    joins. *)
Inductive cleaned : gostring -> gostring -> Prop :=
  | cleaned_rest v : (forall a b, v = a ++ b -> ~ starts_annotation b) -> cleaned v v
  | cleaned_cut s t v r : annotation t -> (forall a b, s = a ++ b -> b <> [] -> ~ starts_annotation (b ++ t ++ v)) -> cleaned v r ->
      cleaned (s ++ t ++ v) (s ++ r).

Lemma long_s_length : length long_s = 2%nat.
Proof. reflexivity. Qed.

Lemma name_end_split name : forall v r, name_end name v = Some r -> exists n, v = n ++ r /\ name_end name n = Some [].
Proof.
  induction name as [|c name IH]; intros v r; cbn [name_end]; [intros [= ->]; by exists []|].
  destruct v as [|x v]; [done|]. destruct (ceq (lower_ascii x) c) eqn:Ex.
  - intros H. destruct (IH _ _ H) as (n & -> & Hn). exists (x :: n). cbn [name_end app]. by rewrite Ex.
  - destruct (ceq c "s" && hasPrefix (x :: v) long_s) eqn:Es; [|done]. intros H. destruct (IH _ _ H) as (n & Hv & Hn).
    apply andb_true_iff in Es as [Ec Hp]. apply hasPrefix_spec in Hp as [t Ht]. rewrite Ht in Hv.
    rewrite drop_app_length' in Hv by reflexivity. subst t. exists (long_s ++ n). split; [by rewrite Ht, app_assoc|].
    destruct (long_s ++ n) as [|y m] eqn:El; [done|]. assert (Hy : x = y) by (rewrite Ht, app_assoc, El in *; by injection Ht). subst y.
    rewrite Ex, Ec, <- El, hasPrefix_app. cbn [andb]. by rewrite drop_app_length' by reflexivity.
Qed.
Lemma name_end_app name : forall n r, name_end name n = Some [] -> name_end name (n ++ r) = Some r.
Proof.
  induction name as [|c name IH]; intros n r; cbn [name_end]; [by intros [= ->]|]. destruct n as [|x n]; [done|]. cbn [app].
  destruct (ceq (lower_ascii x) c); [apply IH|]. destruct (ceq c "s"); cbn [andb]; [|done].
  destruct (hasPrefix (x :: n) long_s) eqn:Hp; [|done]. apply hasPrefix_spec in Hp as [t Ht]. rewrite Ht, app_comm_cons, Ht, <- app_assoc, hasPrefix_app.
  rewrite !drop_app_length' by reflexivity. apply IH.
Qed.

Lemma first_name_split names v r : first_name names v = Some r ->
  not_in_word r = true /\ exists name n, name ∈ names /\ v = n ++ r /\ name_end name n = Some [].
Proof.
  induction names as [|name names IH]; [done|]. cbn [first_name]. destruct (name_end name v) as [rest|] eqn:E.
  - destruct (not_in_word rest) eqn:Ew; [intros [= <-]; split; [done|]; destruct (name_end_split _ _ _ E) as (n & -> & Hn); exists name, n; set_solver|].
    intros [? (nm & n & ? & ? & ?)]%IH. split; [done|]. exists nm, n. set_solver.
  - intros [? (nm & n & ? & ? & ?)]%IH. split; [done|]. exists nm, n. set_solver.
Qed.
Lemma first_name_found names name v r : name ∈ names -> name_end name v = Some r -> not_in_word r = true -> is_Some (first_name names v).
Proof.
  induction names as [|nm names IH]; [by intros ?%elem_of_nil|]. intros [<- |Hin]%elem_of_cons Hn Hw; cbn [first_name]; [by rewrite Hn, Hw|].
  destruct (name_end nm v); [|by apply IH]. case_match; [done|by apply IH].
Qed.

(** The first letter of a name is none of the characters before it. *)
Definition name_heads : gostring := lit "ivhqa".
Lemma names_heads : forallb (λ name, match name with x :: _ => bool_decide (x ∈ name_heads) | [] => false end) annotation_names = true.
Proof. reflexivity. Qed.
Lemma head_letter c x : ceq (lower_ascii c) x = true -> x ∈ name_heads -> annotationSpace c = false /\ ceq c "/" = false /\ ceq c "<" = false.
Proof.
  intros <-%ceq_true Hx. assert (Hb : bool_decide (lower_ascii c ∈ name_heads) = true) by (by apply bool_decide_eq_true). revert Hb. clear Hx.
  destruct c as [[] [] [] [] [] [] [] []]; vm_compute; intros Hx; first [discriminate Hx|split_and!; reflexivity].
Qed.
Lemma spelled_head n r : spelled n -> exists c m, n ++ r = c :: m /\ annotationSpace c = false /\ ceq c "/" = false /\ ceq c "<" = false.
Proof.
  intros (name & Hin & Hn). pose proof names_heads as Hh. rewrite forallb_forall in Hh. specialize (Hh name (proj1 (list_elem_of_In _ _) Hin)).
  destruct name as [|x name]; [done|]. apply bool_decide_eq_true in Hh. destruct n as [|c n]; [done|]. exists c, (n ++ r). split; [done|].
  cbn [name_end] in Hn. destruct (ceq (lower_ascii c) x) eqn:E; [by eapply head_letter|].
  destruct (ceq x "s") eqn:Es; [|done]. apply ceq_true in Es. subst x. exfalso. revert Hh. rewrite <- (bool_decide_eq_true (_ ∈ _)). vm_compute. discriminate.
Qed.

(** ** The start of an annotation *)

(** A name has no angle brackets. *)
Lemma name_end_chars name : forall n b, name_end name n = Some [] -> b ∉ name -> b ∉ long_s -> lower_ascii b = b -> b ∉ n.
Proof.
  induction name as [|x name IH]; intros n b; cbn [name_end]; [intros [= ->] _ _ _; by apply not_elem_of_nil|]. destruct n as [|c n]; [done|].
  intros Hn [Hx Hb]%not_elem_of_cons Hl Hlow. destruct (ceq (lower_ascii c) x) eqn:E.
  - apply ceq_true in E. apply not_elem_of_cons. split; [intros ->; congruence|by eapply IH].
  - destruct (ceq x "s" && hasPrefix (c :: n) long_s) eqn:Es; [|done]. apply andb_true_iff in Es as [_ Hp]. apply hasPrefix_spec in Hp as [t Ht].
    rewrite Ht in Hn |- *. rewrite drop_app_length' in Hn by reflexivity. apply not_elem_of_app. split; [done|by eapply IH].
Qed.
Lemma names_no_brackets : forallb (λ name, negb (bool_decide (">"%char ∈ name)) && negb (bool_decide ("<"%char ∈ name))) annotation_names = true.
Proof. reflexivity. Qed.
Lemma spelled_no_brackets n : spelled n -> ">"%char ∉ n /\ "<"%char ∉ n.
Proof.
  intros (name & Hin & Hn). pose proof names_no_brackets as Hh. rewrite forallb_forall in Hh. specialize (Hh name (proj1 (list_elem_of_In _ _) Hin)).
  apply andb_true_iff in Hh as [H1%negb_true_iff%bool_decide_eq_false H2%negb_true_iff%bool_decide_eq_false].
  assert (Hl : bool_decide (">"%char ∉ long_s /\ "<"%char ∉ long_s) = true) by (vm_compute; reflexivity). apply bool_decide_eq_true in Hl as [Hl1 Hl2].
  split; eapply name_end_chars; eauto; reflexivity.
Qed.

Lemma skip_blanks (p : ascii -> bool) s c m : forallb p s = true -> p c = false -> skip_while p (s ++ c :: m) = c :: m.
Proof. induction s as [|x s IH]; cbn [forallb app skip_while]; [by intros _ ->|]. intros [-> Hs]%andb_true_iff Hc. by apply IH. Qed.
Lemma skip_while_split p s : exists l, s = l ++ skip_while p s /\ forallb p l = true.
Proof.
  induction s as [|c s (l & Hs & Hl)]; [by exists []|]. cbn [skip_while]. destruct (p c) eqn:E; [|by exists []].
  exists (c :: l). cbn [app forallb]. rewrite E. split; [by f_equal|done].
Qed.
Lemma tag_start_split s : exists slash blanks, s = slash ++ blanks ++ tag_start s /\ (slash = [] \/ slash = ["/"%char]) /\ forallb annotationSpace blanks = true.
Proof.
  unfold tag_start. destruct s as [|c s]; [exists [], []; cbn; auto|]. destruct (ceq c "/") eqn:E.
  - apply ceq_true in E. subst c. destruct (skip_while_split annotationSpace s) as (l & Hs & Hl). exists ["/"%char], l. cbn [app]. split_and!; [by f_equal|by right|done].
  - destruct (skip_while_split annotationSpace (c :: s)) as (l & Hs & Hl). exists [], l. cbn [app]. split_and!; [done|by left|done].
Qed.
Lemma tag_start_found slash blanks n r : (slash = [] \/ slash = ["/"%char]) -> forallb annotationSpace blanks = true -> spelled n ->
  tag_start (slash ++ blanks ++ n ++ r) = n ++ r.
Proof.
  intros Hs Hb Hn. destruct (spelled_head n r Hn) as (c & m & -> & Hc & Hsl & _). unfold tag_start.
  destruct Hs as [-> | ->]; cbn [app]; [|rewrite ceq_refl; by apply skip_blanks]. destruct blanks as [|x blanks]; cbn [app].
  - rewrite Hsl. cbn [skip_while]. by rewrite Hc.
  - cbn [forallb] in Hb. apply andb_true_iff in Hb as [Hx Hb]. assert (ceq x "/" = false) as ->.
    { destruct (ceq x "/") eqn:E; [|done]. apply ceq_true in E. by subst x. }
    cbn [skip_while]. rewrite Hx. by apply skip_blanks.
Qed.

(** Where an annotation starts, the scanner finds its name and its end. *)
Lemma annotation_found after : starts_annotation ("<"%char :: after) -> exists nameEnd junk rest,
  annotationNameEnd (tag_start after) = Some nameEnd /\ cut ">" nameEnd = Some (junk, rest).
Proof.
  intros (t & rest & Ht & slash & blanks & n & body & -> & Hs & Hb & Hn & Hbody & Hw). cbn [app] in Ht. injection Ht as Ht.
  rewrite <- !app_assoc in Ht. assert (Htag : tag_start after = n ++ body ++ ">"%char :: rest) by (rewrite Ht; by apply tag_start_found).
  destruct Hn as (name & Hin & Hend). destruct (first_name_found annotation_names name (n ++ body ++ ">"%char :: rest) (body ++ ">"%char :: rest) Hin) as [nameEnd He].
  { by apply name_end_app. }
  { by destruct body. }
  unfold annotationNameEnd. rewrite Htag. destruct (first_name_split _ _ _ He) as (_ & nm & n' & Hnm & Heq & Hend').
  assert (Hex : ">"%char ∈ nameEnd).
  { assert (Hl : ">"%char ∈ n' ++ nameEnd) by (rewrite <- Heq; rewrite !elem_of_app, elem_of_cons; auto). apply elem_of_app in Hl as [Hl|]; [|done].
    exfalso. destruct (spelled_no_brackets n') as [Hno _]; [by exists nm|by apply Hno]. }
  destruct (cut ">" nameEnd) as [[junk r]|] eqn:Ec; [by exists nameEnd, junk, r|]. by apply cut_None in Ec.
Qed.

(** And what the scanner cuts out is an annotation. *)
Lemma found_annotation after nameEnd junk rest : annotationNameEnd (tag_start after) = Some nameEnd -> cut ">" nameEnd = Some (junk, rest) ->
  exists t, "<"%char :: after = t ++ rest /\ annotation t.
Proof.
  intros Hn [Hr Hj]%cut_Some. destruct (first_name_split _ _ _ Hn) as (Hw & name & n & Hin & Heq & Hend). destruct (tag_start_split after) as (slash & blanks & Ha & Hs & Hb).
  exists ("<"%char :: slash ++ blanks ++ n ++ junk ++ [">"%char]). split.
  - rewrite Heq, Hr in Ha. rewrite Ha. cbn [app]. by rewrite <- !app_assoc.
  - exists slash, blanks, n, junk. split_and!; try done; [by exists name|]. rewrite Hr in Hw. by destruct junk.
Qed.

Lemma not_start c v : c <> "<"%char -> ~ starts_annotation (c :: v).
Proof. intros Hc (t & rest & Ht & slash & blanks & n & body & -> & _). cbn [app] in Ht. by injection Ht as ->. Qed.
Lemma no_start_outside s v : "<"%char ∉ s -> forall a b, s = a ++ b -> b <> [] -> ~ starts_annotation (b ++ v).
Proof.
  intros Hs a b -> Hb. destruct b as [|c b]; [done|]. apply not_start. intros ->. apply Hs. apply elem_of_app. right. apply elem_of_cons. by left.
Qed.
Lemma no_start_nil : ~ starts_annotation [].
Proof. intros (t & rest & Ht & slash & blanks & n & body & -> & _). done. Qed.

(** A cleaning goes on past text in which no annotation starts. *)
Lemma cleaned_app s v r : (forall a b, s = a ++ b -> b <> [] -> ~ starts_annotation (b ++ v)) -> cleaned v r -> cleaned (s ++ v) (s ++ r).
Proof.
  intros Hs Hc. revert s Hs. destruct Hc as [v Hv|s' t v r Ht Hs' Hc]; intros s Hs.
  - constructor. intros a b Hab Hst. apply app_eq_inv in Hab as [(k & -> & ->)|(k & -> & ->)]; [|by apply (Hv k b)].
    destruct k as [|c k]; [by apply (Hv [] v)|]. by apply (Hs a (c :: k)).
  - rewrite app_assoc, (app_assoc s s' r). constructor; [done| |done]. intros a b Hab Hb. apply app_eq_inv in Hab as [(k & -> & ->)|(k & -> & ->)].
    + destruct k as [|c k]; [by apply (Hs' [] s')|]. rewrite <- app_assoc. by apply (Hs a (c :: k)).
    + by apply (Hs' k b).
Qed.

Lemma skipped_no_bracket after : "<"%char ∉ take (length after - length (tag_start after)) after /\ after = take (length after - length (tag_start after)) after ++ tag_start after.
Proof.
  destruct (tag_start_split after) as (slash & blanks & Ha & Hs & Hb). set (pos := tag_start after) in *.
  assert (Ht : take (length after - length pos) after = slash ++ blanks).
  { rewrite Ha, app_assoc. apply take_app_length'. rewrite !length_app. lia. }
  rewrite Ht. split; [|by rewrite <- app_assoc]. apply not_elem_of_app. split.
  - destruct Hs as [-> | ->]; [apply not_elem_of_nil|]. intros ?%list_elem_of_singleton. done.
  - intros Hin. rewrite forallb_forall in Hb. specialize (Hb _ (proj1 (list_elem_of_In _ _) Hin)). done.
Qed.

(** The occurrences of a character after a part that does not have it. *)
Lemma occurs_after (c : ascii) p w a b : c ∉ p -> p ++ w = a ++ c :: b -> exists k, a = p ++ k /\ w = k ++ c :: b.
Proof.
  intros Hp Heq. apply app_eq_inv in Heq as [(k & -> & Hk)|(k & -> & ->)]; [|by exists k].
  destruct k as [|x k]; cbn [app] in Hk; [subst w; exists []; by rewrite !app_nil_r|]. injection Hk as <- _. exfalso. apply Hp. set_solver.
Qed.

Lemma annotation_needs_end v : starts_annotation v -> ">"%char ∈ v /\ exists w, v = "<"%char :: w.
Proof. intros (t & rest & -> & slash & blanks & n & body & -> & _). split; [|by eexists]. set_solver. Qed.

Lemma unended_clean before after nameEnd : "<"%char ∉ before -> annotationNameEnd (tag_start after) = Some nameEnd -> cut ">" nameEnd = None ->
  forall a b, before ++ "<"%char :: after = a ++ b -> ~ starts_annotation b.
Proof.
  intros Hbefore Hn Hg a b Hab Hst. destruct (annotation_needs_end b Hst) as [Hend [w ->]]. apply occurs_after in Hab as (k & -> & Hk); [|done].
  destruct k as [|x k]; cbn [app] in Hk; [injection Hk as Hk|injection Hk as <- Hk].
  - subst w. destruct (annotation_found after Hst) as (nameEnd' & junk & rest & Hn' & Hg'). congruence.
  - destruct (skipped_no_bracket after) as [Hskip Hafter]. destruct (first_name_split _ _ _ Hn) as (_ & nm & n & Hnm & Heq & Hend').
    destruct (spelled_no_brackets n) as [_ Hno]; [by exists nm|]. rewrite Hafter in Hk. apply occurs_after in Hk as (k' & -> & Hk); [|done].
    rewrite Heq in Hk. apply occurs_after in Hk as (k2 & -> & Hk); [|done]. apply cut_None in Hg. apply Hg. rewrite Hk. apply elem_of_app. by right.
Qed.

Lemma sanitize_go_cleaned fuel : forall v, (length v <= fuel)%nat -> cleaned v (sanitize_go fuel v).
Proof.
  induction fuel as [|fuel IH]; intros v Hl; cbn [sanitize_go].
  { destruct v; [|cbn in Hl; lia]. constructor. intros [|] [|] Hab; try done. apply no_start_nil. }
  destruct (cut "<" v) as [[before after]|] eqn:Ec.
  2:{ apply cut_None in Ec. constructor. intros a [|c b] Hab; [apply no_start_nil|]. apply not_start. intros ->. apply Ec. rewrite Hab. set_solver. }
  pose proof (cut_length _ _ _ _ Ec) as Hlen. apply cut_Some in Ec as [-> Hbefore]. destruct (skipped_no_bracket after) as [Hskip Hafter].
  assert (Hpos : (length (tag_start after) <= length after)%nat) by (rewrite Hafter at 2; rewrite length_app; lia).
  destruct (annotationNameEnd (tag_start after)) as [nameEnd|] eqn:En.
  - destruct (cut ">" nameEnd) as [[junk rest]|] eqn:Eg.
    + destruct (found_annotation _ _ _ _ En Eg) as (t & Ht & Hann). rewrite Ht. constructor; [done|by apply no_start_outside|]. apply IH.
      assert (Hlt : length ("<"%char :: after) = (length t + length rest)%nat) by (by rewrite Ht, length_app). cbn in Hlt. rewrite length_app in Hl. cbn in Hl.
      destruct Hann as (? & ? & ? & ? & -> & _). cbn in Hlt. lia.
    + constructor. by eapply unended_clean.
  - set (skipped := take (length after - length (tag_start after)) after) in *.
    assert (Hsplit : before ++ "<"%char :: after = (before ++ "<"%char :: skipped) ++ tag_start after) by (rewrite <- app_assoc; cbn [app]; by rewrite <- Hafter).
    rewrite Hsplit. replace (before ++ "<"%char :: skipped ++ sanitize_go fuel (tag_start after)) with ((before ++ "<"%char :: skipped) ++ sanitize_go fuel (tag_start after)) by (by rewrite <- app_assoc).
    apply cleaned_app; [|apply IH; rewrite length_app in Hl; cbn in Hl; lia]. intros a b Hab Hb Hst. destruct (annotation_needs_end _ Hst) as [_ [w Hw]].
    destruct b as [|c b]; [done|]. cbn [app] in Hw. injection Hw as -> _. apply occurs_after in Hab as (k & -> & Hk); [|done].
    destruct k as [|x k]; cbn [app] in Hk; [injection Hk as Hk|injection Hk as <- Hk; exfalso; apply Hskip; rewrite Hk; set_solver].
    subst b. cbn [app] in Hst. rewrite <- Hafter in Hst. destruct (annotation_found after Hst) as (? & ? & ? & ? & _). congruence.
Qed.

(** ** Exactness *)

Lemma annotation_unique t t' v v' : annotation t -> annotation t' -> t ++ v = t' ++ v' -> t = t' /\ v = v'.
Proof.
  intros (slash & blanks & n & body & -> & Hs & Hb & Hn & Hg & _) (slash' & blanks' & n' & body' & -> & Hs' & Hb' & Hn' & Hg' & _) Heq.
  assert (Hv : v = v').
  { cbn [app] in Heq. injection Heq as Heq. rewrite <- !app_assoc in Heq. apply (f_equal tag_start) in Heq. rewrite !tag_start_found in Heq by done.
    destruct (spelled_no_brackets n Hn) as [Hno _]. destruct (spelled_no_brackets n' Hn') as [Hno' _].
    apply (f_equal (cut ">")) in Heq. cbn [app] in Heq. rewrite !(app_assoc _ _ (_ :: _)), !cut_app in Heq by (by apply not_elem_of_app). by injection Heq. }
  subst v'. by apply app_inv_tail in Heq.
Qed.

Lemma cleaned_functional v r : cleaned v r -> forall r', cleaned v r' -> r = r'.
Proof.
  induction 1 as [v Hv|s t v r Ht Hs Hc IH]; intros r' Hr'.
  - inversion Hr' as [v' Hv' Heq|s t v' r'' Ht _ _ Heq]; subst; [done|]. exfalso. apply (Hv s (t ++ v') eq_refl). by exists t, v'.
  - inversion Hr' as [v' Hv' Heq|s' t' v' r'' Ht' Hs' Hc' Heq]; subst.
    + exfalso. apply (Hv' s (t ++ v) eq_refl). by exists t, v.
    + assert (Hst : starts_annotation (t ++ v)) by (by exists t, v). assert (Hst' : starts_annotation (t' ++ v')) by (by exists t', v').
      apply app_eq_inv in Heq as [(k & -> & Hk)|(k & -> & Hk)]; destruct k as [|c k].
      * rewrite app_nil_r. cbn [app] in Hk. apply annotation_unique in Hk as [-> ->]; [|done..]. f_equal. by apply IH.
      * exfalso. rewrite Hk in *. by eapply (Hs' _ (c :: k)).
      * rewrite app_nil_r. cbn [app] in Hk. symmetry in Hk. apply annotation_unique in Hk as [-> ->]; [|done..]. f_equal. by apply IH.
      * exfalso. rewrite Hk in *. by eapply (Hs _ (c :: k)).
Qed.

(** The sanitizer computes exactly the left-to-right removal. *)
Lemma sanitize_is_cleaning v r : cleaned v r <-> sanitizeSenderText v = r.
Proof.
  assert (Hc : cleaned v (sanitizeSenderText v)) by (by apply sanitize_go_cleaned). split; [|by intros <-].
  intros Hr. exact (cleaned_functional v _ Hc r Hr).
Qed.

(** A text without annotations is not changed. *)
Lemma sanitize_plain v : (forall a b, v = a ++ b -> ~ starts_annotation b) -> sanitizeSenderText v = v.
Proof. intros Hv. apply sanitize_is_cleaning. by constructor. Qed.

(** Removing one annotation can complete another: the result of one pass is not
    free of annotations. *)
Lemma sanitize_can_be_spliced :
  sanitizeSenderText (lit "<<invisible>invisible>text</<invisible>invisible>") = lit "<invisible>text</invisible>" /\
  sanitizeSenderText (lit "<<quoted-content>attached-email>") = lit "<attached-email>".
Proof. split; vm_compute; reflexivity. Qed.

(** ** Padding *)

(** The chunks of a text: well formed, or one invalid byte. *)
Definition chunk_ok (k : rune_chunk) : Prop := if rc_valid k then wf_chunk k else rc_rune k = runeError.
Lemma chunks_ok s : Forall chunk_ok (rune_chunks s).
Proof.
  unfold rune_chunks. pose proof (chunks_go_wf (length s) s) as Hw. revert Hw. generalize (length s) as fuel. intros fuel. revert s.
  induction fuel as [|fuel IH]; intros s Hw; [constructor|]. destruct s as [|c s]; [constructor|]. cbn [chunks_go] in *. destruct (decode_rune (c :: s)) as [r w].
  inversion_clear Hw as [|? ? Hk Hl]. constructor; [|by apply IH]. unfold chunk_ok. cbn [rc_valid rc_rune] in *. destruct (negb _) eqn:E; [by apply Hk|].
  apply negb_false_iff, andb_true_iff in E as [E _]. by apply Z.eqb_eq in E.
Qed.

Lemma error_not_padding : preheaderPaddingRune runeError = false.
Proof. reflexivity. Qed.
Lemma padding_valid k : chunk_ok k -> preheaderPaddingRune (rc_rune k) = true -> wf_chunk k.
Proof. unfold chunk_ok. destruct (rc_valid k); [done|]. intros -> Hp. by rewrite error_not_padding in Hp. Qed.
Lemma out_chunk_wf k : chunk_ok k -> wf_chunk (out_chunk k).
Proof. unfold chunk_ok, out_chunk. destruct (rc_valid k); [done|]. intros _. apply replacement_chunk_wf. Qed.
Lemma out_chunk_rune k : chunk_ok k -> rc_rune (out_chunk k) = rc_rune k.
Proof. unfold chunk_ok, out_chunk. by destruct (rc_valid k). Qed.

Abbreviation padding k := (preheaderPaddingRune (rc_rune k) = true).
Abbreviation visible l := (List.filter (λ r, negb (preheaderPaddingRune r)) (rc_rune <$> l)).
Definition format_in (l : list rune_chunk) : bool := existsb (λ k, negb (is_space_rune (rc_rune k))) l.

Lemma kept_run_sub run : exists n, kept_run run = take n run.
Proof. unfold kept_run. case_match; [exists (length run); by rewrite firstn_all|by eexists]. Qed.
Lemma kept_run_padding run : Forall (λ k, padding k) run -> Forall (λ k, padding k) (kept_run run).
Proof. intros Hr. destruct (kept_run_sub run) as [n ->]. by apply Forall_take. Qed.
Lemma kept_run_short run : (length (kept_run run) < compaction_threshold)%nat \/ format_in (kept_run run) = false.
Proof.
  unfold kept_run. fold (format_in run). destruct (format_in run) eqn:E; cbn [negb orb]; [|by right].
  destruct (Nat.ltb_spec (length run) compaction_threshold); [by left|]. left. rewrite length_take. unfold compaction_retained, compaction_threshold. lia.
Qed.
Lemma visible_padding run : Forall (λ k, padding k) run -> visible run = [].
Proof. induction 1 as [|k run Hk _ IH]; [done|]. cbn. by rewrite Hk. Qed.

(** The chunks of a compacted text. *)
Lemma compact_go_wf run l : Forall chunk_ok l -> Forall wf_chunk run -> Forall wf_chunk (compact_go run l).
Proof.
  intros Hl. revert run. induction Hl as [|k l Hk _ IH]; intros run Hr; cbn [compact_go].
  - destruct (kept_run_sub run) as [n ->]. by apply Forall_take.
  - destruct (preheaderPaddingRune (rc_rune k)) eqn:E; [apply IH, Forall_app; split; [done|]; constructor; [by apply padding_valid|done]|].
    destruct (kept_run_sub run) as [n ->]. apply Forall_app. split; [by apply Forall_take|]. constructor; [by apply out_chunk_wf|by apply IH].
Qed.
Lemma compact_go_visible run l : Forall chunk_ok l -> Forall (λ k, padding k) run -> visible (compact_go run l) = visible l.
Proof.
  intros Hl. revert run. induction Hl as [|k l Hk _ IH]; intros run Hr; cbn [compact_go].
  - by rewrite visible_padding by (by apply kept_run_padding).
  - cbn [fmap list_fmap List.filter]. destruct (preheaderPaddingRune (rc_rune k)) eqn:E; cbn [negb].
    + apply IH, Forall_app. split; [done|]. by repeat constructor.
    + rewrite fmap_app, List.filter_app, visible_padding by (by apply kept_run_padding). cbn [fmap list_fmap List.filter app].
      rewrite out_chunk_rune, E by done. cbn [negb]. f_equal. by apply IH.
Qed.

(** A run that is short or has only white space does not call for compaction. *)
Lemma needs_run run : forall n f rest, Forall (λ k, padding k) run -> (n + length run < compaction_threshold)%nat \/ f || format_in run = false ->
  needs_compaction n f (run ++ rest) = needs_compaction (n + length run) (f || format_in run) rest.
Proof.
  induction run as [|k run IH]; intros n f rest Hr Hs; [cbn; by rewrite Nat.add_0_r, orb_false_r|].
  inversion_clear Hr as [|? ? Hk Hr']. cbn [app needs_compaction]. rewrite Hk. cbn [negb].
  assert (Hf : f || format_in (k :: run) = f || negb (is_space_rune (rc_rune k)) || format_in run) by (cbn [format_in existsb]; by rewrite orb_assoc).
  rewrite Hf in *. cbn [length] in *. assert (Hno : (compaction_threshold <=? S n)%nat && (f || negb (is_space_rune (rc_rune k))) = false).
  { destruct Hs as [Hs|Hs]; [apply andb_false_iff; left; apply Nat.leb_gt; lia|]. apply orb_false_iff in Hs as [-> _]. apply andb_false_r. }
  rewrite Hno. rewrite IH; [f_equal; lia|done|]. destruct Hs as [Hs|Hs]; [left; lia|by right].
Qed.
Lemma compact_go_done run l : Forall chunk_ok l -> Forall (λ k, padding k) run -> needs_compaction 0 false (compact_go run l) = false.
Proof.
  intros Hl. revert run. induction Hl as [|k l Hk _ IH]; intros run Hr; cbn [compact_go].
  - rewrite <- (app_nil_r (kept_run run)), needs_run; [done|by apply kept_run_padding|]. destruct (kept_run_short run); [by left|by right].
  - destruct (preheaderPaddingRune (rc_rune k)) eqn:E; [apply IH, Forall_app; split; [done|]; by repeat constructor|].
    rewrite needs_run; [|by apply kept_run_padding|destruct (kept_run_short run); [by left|by right]].
    cbn [needs_compaction]. rewrite out_chunk_rune, E by done. cbn [negb]. by apply IH.
Qed.

(** Compaction removes padding only, and leaves no run that calls for it. *)
Lemma compaction_exact v :
  List.filter (λ r, negb (preheaderPaddingRune r)) (runes (compactFormattingPadding v)) = List.filter (λ r, negb (preheaderPaddingRune r)) (runes v) /\
  needs_compaction 0 false (rune_chunks (compactFormattingPadding v)) = false /\
  compactFormattingPadding (compactFormattingPadding v) = compactFormattingPadding v.
Proof.
  assert (Hn : needs_compaction 0 false (rune_chunks (compactFormattingPadding v)) = false /\
    List.filter (λ r, negb (preheaderPaddingRune r)) (runes (compactFormattingPadding v)) = List.filter (λ r, negb (preheaderPaddingRune r)) (runes v)).
  { unfold compactFormattingPadding. destruct (needs_compaction 0 false (rune_chunks v)) eqn:E; [|done]. unfold runes.
    rewrite rune_chunks_of_wf by (apply compact_go_wf; [apply chunks_ok|constructor]). split; [apply compact_go_done|apply compact_go_visible]; try apply chunks_ok; constructor. }
  destruct Hn as [Hn Hv]. split; [done|]. split; [done|]. unfold compactFormattingPadding at 1. by rewrite Hn.
Qed.

(** ** Counting *)

Definition blank_rune (r : Z) : bool := (r =? 32) || (r =? 9) || (r =? 12) || (r =? 13) || (r =? 10).
(** No blank at either end. *)
Definition no_blank_ends (l : list Z) : Prop :=
  match head l with Some r => blank_rune r = false | None => True end /\ match last l with Some r => blank_rune r = false | None => True end.

(** The counter and the text that is not built: the count is the length of the
    text, the trimmed count that of the text without the line ends after it. *)
Record counts (c : counting) (n : normal) : Prop := {
  ct_count : cn_count c = length (nm_out n);
  ct_space : cn_space c = nm_space n;
  ct_newlines : cn_newlines c = nm_newlines n;
  ct_text : exists l, nm_out n = l ++ replicate (nm_newlines n) 10 /\ cn_trimmed c = length l /\ (l = [] -> nm_newlines n = 0%nat) /\ no_blank_ends l }.

Lemma no_blank_snoc l r : blank_rune r = false -> (l = [] \/ match head l with Some x => blank_rune x = false | None => True end) -> no_blank_ends (l ++ [r]).
Proof. intros Hr Hl. split; [|by rewrite last_snoc]. destruct l as [|x l]; cbn in *; [done|]. by destruct Hl. Qed.

Lemma counts_step r c n : counts c n -> counts (count_rune r c) (normal_rune r n).
Proof.
  intros [Hc Hs Hn (l & Hl & Ht & He & Hb)]. unfold count_rune, normal_rune. rewrite Hc, Hs, Hn.
  destruct ((r =? 32) || (r =? 9) || (r =? 12)) eqn:E1; [split; cbn; try done; by exists l|].
  destruct ((r =? 13) || (r =? 10)) eqn:E2.
  - destruct ((0 <? length (nm_out n))%nat && (nm_newlines n <? 2)%nat) eqn:E3; [|split; cbn; try done; by exists l].
    split; cbn; try done; [rewrite length_app; cbn; lia|]. exists l. rewrite Hl. split_and!; [by rewrite <- app_assoc, <- replicate_S_end|done| |done].
    intros ->. apply andb_true_iff in E3 as [E3 _]. rewrite Hl, (He eq_refl) in E3. done.
  - assert (Hr : blank_rune r = false) by (unfold blank_rune; rewrite <- (orb_assoc _ (r =? 13)), E1, E2; done).
    assert (Hout : nm_out n = [] \/ match head (nm_out n) with Some x => blank_rune x = false | None => True end).
    { rewrite Hl. destruct l as [|x l]; [left; by rewrite (He eq_refl)|right]. apply Hb. }
    destruct (nm_space n && (0 <? length (nm_out n))%nat && (nm_newlines n =? 0)%nat) eqn:E3.
    + split; cbn; try done; [rewrite !length_app; cbn; lia|]. exists ((nm_out n ++ [32]) ++ [r]). rewrite app_nil_r.
      split_and!; [done|rewrite !length_app; cbn; lia|by intros ?%app_nil|]. apply no_blank_snoc; [done|]. right.
      apply andb_true_iff in E3 as [E3 _]. apply andb_true_iff in E3 as [_ E3]. destruct (nm_out n) as [|x o]; [done|]. by destruct Hout.
    + split; cbn; try done; [rewrite !length_app; cbn; lia|]. exists (nm_out n ++ [r]). rewrite app_nil_r.
      split_and!; [done|rewrite !length_app; cbn; lia|by intros ?%app_nil|]. by apply no_blank_snoc.
Qed.
Lemma counts_go l : forall b c n, counts c n -> counts (count_go b l c) (normal_go b l n).
Proof.
  induction l as [|k l IH]; intros b c n Hc; [done|]. cbn [count_go normal_go]. destruct (rc_valid k); [by apply IH, counts_step|]. destruct b; [by apply IH|by apply IH, counts_step].
Qed.
Lemma counts_start : counts (MkCounting 0 0 false false 0) (MkNormal [] false 0).
Proof. split; cbn; try done. exists []. by split_and!. Qed.

Definition trim_cutset : gostring := lit " " ++ [chr 9; CR; LF; chr 12].

(** The first and last byte of an encoded rune is blank only if the rune is. *)
Lemma blank_byte c : c ∈ trim_cutset -> blank_rune (code c) = true.
Proof. intros Hc. assert (Hb : bool_decide (c ∈ trim_cutset) = true) by (by apply bool_decide_eq_true). revert Hb. clear Hc. destruct c as [[] [] [] [] [] [] [] []]; vm_compute; try done. Qed.
Lemma blank_small r : blank_rune r = true -> 0 <= r < 128.
Proof. unfold blank_rune. rewrite !orb_true_iff, !Z.eqb_eq. lia. Qed.
Lemma encode_bytes r c : c ∈ encode_rune r -> blank_rune r = false -> c ∉ trim_cutset.
Proof.
  intros Hc Hr Hin. apply blank_byte in Hin as Hb. apply blank_small in Hb as Hs. unfold encode_rune in Hc.
  pose proof (Z.mod_pos_bound r 64 ltac:(lia)). pose proof (Z.mod_pos_bound (r / 64) 64 ltac:(lia)). pose proof (Z.mod_pos_bound (r / 4096) 64 ltac:(lia)).
  repeat case_match; rewrite ?elem_of_cons, ?elem_of_nil in Hc;
    repeat (destruct Hc as [->|Hc]; [rewrite code_chr in Hb, Hs by (Z.div_mod_to_equations; lia); try congruence; Z.div_mod_to_equations; lia|]); done.
Qed.

Lemma trimLeftSet_stop cutset c s : c ∉ cutset -> trimLeftSet cutset (c :: s) = c :: s.
Proof. intros Hc. cbn [trimLeftSet]. destruct (existsb (ceq c) cutset) eqn:E; [|done]. apply existsb_exists in E as (x & Hx & ->%ceq_true). by apply list_elem_of_In in Hx. Qed.
Lemma trimLeftSet_skip cutset n c s : c ∈ cutset -> trimLeftSet cutset (replicate n c ++ s) = trimLeftSet cutset s.
Proof.
  intros Hc. induction n as [|n IH]; [done|]. cbn [replicate app trimLeftSet]. assert (existsb (ceq c) cutset = true) as ->; [|done].
  apply existsb_exists. exists c. split; [by apply list_elem_of_In|apply ceq_refl].
Qed.
Lemma encode_nonempty r : exists c s, encode_rune r = c :: s.
Proof. unfold encode_rune. repeat case_match; by do 2 eexists. Qed.

Lemma trim_encoded l n : no_blank_ends l -> (l = [] -> n = 0%nat) ->
  trimSet (concat (encode_rune <$> (l ++ replicate n 10))) trim_cutset = concat (encode_rune <$> l).
Proof.
  intros [Hh Ht] He. destruct l as [|r l]; [by rewrite (He eq_refl)|]. cbn [head] in Hh.
  assert (Hnl : concat (encode_rune <$> replicate n 10) = replicate n LF) by (induction n as [|n IH]; [done|cbn; f_equal; by apply IH]).
  rewrite fmap_app, concat_app, Hnl. unfold trimSet. set (text := concat (encode_rune <$> r :: l)).
  assert (Hstart : trimLeftSet trim_cutset (text ++ replicate n LF) = text ++ replicate n LF).
  { unfold text. cbn [fmap list_fmap concat]. destruct (encode_nonempty r) as (c & s & Hc). rewrite Hc. cbn [app]. apply trimLeftSet_stop.
    apply (encode_bytes r); [rewrite Hc; by left|done]. }
  rewrite Hstart, rev_app_distr. assert (Hrev : rev (replicate n LF) = replicate n LF) by (clear; induction n as [|n IH]; [done|cbn [replicate rev]; by rewrite IH, <- replicate_S_end]).
  rewrite Hrev, trimLeftSet_skip by (unfold trim_cutset; set_solver).
  assert (Hend : exists c s, rev text = c :: s /\ c ∉ trim_cutset).
  { destruct (exists_last (l := r :: l)) as (l' & x & Hl); [done|]. rewrite Hl, last_snoc in Ht. unfold text. rewrite Hl, fmap_app, concat_app, rev_app_distr. cbn [fmap list_fmap concat].
    rewrite app_nil_r. destruct (rev (encode_rune x)) as [|c s] eqn:Er.
    { destruct (encode_nonempty x) as (c & s & Hc). rewrite Hc in Er. cbn in Er. by destruct (rev s). }
    exists c, (s ++ rev (concat (encode_rune <$> l'))). split; [done|]. apply (encode_bytes x); [|done]. apply list_elem_of_In, in_rev. rewrite Er. by left. }
  destruct Hend as (c & s & Hr & Hc). rewrite Hr, (trimLeftSet_stop _ c s) by done. rewrite <- Hr. apply rev_involutive.
Qed.

(** Padding alone does not count. *)
Lemma blank_padding r : blank_rune r = true -> preheaderPaddingRune r = true.
Proof. unfold blank_rune. rewrite !orb_true_iff, !Z.eqb_eq. intros [[[[-> | ->] | ->] | ->] | ->]; reflexivity. Qed.
Lemma count_rune_meaningful r c : cn_meaningful (count_rune r c) = cn_meaningful c || negb (preheaderPaddingRune r).
Proof.
  unfold count_rune. destruct ((r =? 32) || (r =? 9) || (r =? 12)) eqn:E1.
  - cbn. rewrite blank_padding by (unfold blank_rune; by rewrite <- (orb_assoc _ (r =? 13)), E1). cbn. by rewrite orb_false_r.
  - destruct ((r =? 13) || (r =? 10)) eqn:E2; [|done].
    rewrite (blank_padding r) by (unfold blank_rune; by rewrite <- (orb_assoc _ (r =? 13)), E1, E2). case_match; cbn; by rewrite orb_false_r.
Qed.
Lemma count_go_meaningful l : forall b c, Forall chunk_ok l -> (b = true -> cn_meaningful c = true) ->
  cn_meaningful (count_go b l c) = cn_meaningful c || existsb (λ r, negb (preheaderPaddingRune r)) (rc_rune <$> l).
Proof.
  induction l as [|k l IH]; intros b c Hl Hb; [cbn; by rewrite orb_false_r|]. inversion_clear Hl as [|? ? Hk Hl']. cbn [count_go fmap list_fmap existsb].
  unfold chunk_ok in Hk. destruct (rc_valid k); [rewrite IH, count_rune_meaningful by done; by rewrite orb_assoc|]. rewrite Hk, error_not_padding. destruct b.
  - rewrite IH by done. by rewrite (Hb eq_refl).
  - rewrite IH; [|done|]; rewrite count_rune_meaningful, error_not_padding; cbn [negb]; [by rewrite orb_assoc|intros _; apply orb_true_r].
Qed.

(** The counter counts the characters of the normalized text, which it does not
    build, or nothing when the text is only padding. *)
Lemma count_is_normalized v :
  confidentPreparedTextCharacters v = if existsb (λ r, negb (preheaderPaddingRune r)) (runes v) then runeCount (normalizeHTMLText v) else 0%nat.
Proof.
  unfold confidentPreparedTextCharacters, normalizeHTMLText. pose proof (counts_go (rune_chunks v) false _ _ counts_start) as [_ _ _ (l & Hl & Ht & He & Hb)].
  pose proof (count_go_meaningful (rune_chunks v) false (MkCounting 0 0 false false 0) (chunks_ok v) ltac:(done)) as Hm. cbn [cn_meaningful orb] in Hm. unfold runes.
  rewrite <- Hm. case_match; [|done]. rewrite Ht, Hl. fold trim_cutset. rewrite trim_encoded by done. by rewrite runeCount_runes, runes_encode, length_fmap.
Qed.

(** C21: the removal of reserved annotations is exactly the removal, from left to
    right, of every [<], optional slash, white space, reserved name in any letter
    case (with a long s for an s) that does not go on as a word, up to the next
    [>]; text around them is untouched. It is one pass, and so the text it
    returns can itself be such an annotation. *)
Theorem annotations_removed_in_one_pass :
  (forall v r, cleaned v r <-> sanitizeSenderText v = r) /\
  (exists v, annotation (sanitizeSenderText v)).
Proof.
  split; [exact sanitize_is_cleaning|]. exists (lit "<<quoted-content>attached-email>").
  assert (Hs : sanitizeSenderText (lit "<<quoted-content>attached-email>") = lit "<attached-email>") by (vm_compute; reflexivity). rewrite Hs.
  exists [], [], (lit "attached-email"), []. split_and!; try reflexivity; [by left| |by apply not_elem_of_nil]. exists (lit "attached-email").
  split; [|reflexivity]. unfold annotation_names. set_solver.
Qed.

(** preparing a text for the count of visible characters loses none: beyond
    the annotations that are removed, only padding goes, no long run of padding
    stays, doing it again changes nothing, and the count is that of the
    normalized text, or nothing when there is only padding. *)
Theorem visible_text_kept v :
  let prepared := prepareVisibleText v in
  List.filter (λ r, negb (preheaderPaddingRune r)) (runes prepared) = List.filter (λ r, negb (preheaderPaddingRune r)) (runes (sanitizeSenderText v)) /\
  compactFormattingPadding prepared = prepared /\
  confidentTextCharacters v = if existsb (λ r, negb (preheaderPaddingRune r)) (runes prepared) then runeCount (normalizeHTMLText prepared) else 0%nat.
Proof.
  cbv zeta. destruct (compaction_exact (sanitizeSenderText v)) as (Hv & _ & Hi). split; [done|]. split; [done|]. apply count_is_normalized.
Qed.
