(* ===== verification/PromptUrl.v ===== *)
(** * Links in the prompt
    (url_compaction.go and the links of prompt.go, html_helpers.go and
    html_tree.go of internal/message)

    Compaction of a URL to what a prompt can afford, URLs in plain text, and the
    bounded collectors of links and image references.  The parts of a URL are
    what [net/url] finds in its text: the class [UrlText], and [UrlDetails] for
    the parts only this component needs. *)
From S2P Require Import Prelude GoText Runes Thinking Rdap.

Definition maxExtractedLinks : nat := 100.
Definition maxExtractedLinkChars : nat := Z.to_nat 8192.
Definition maxExtractedReferenceLength : nat := 2048.
Definition maxPromptURLChars : nat := 512.
Definition maxPromptURLPathChars : nat := 64.
Definition maxPromptURLParameterChars : nat := 50.
Definition maxPromptURLFragmentChars : nat := 50.

(** [URL.ForceQuery] and [URL.EscapedFragment] of a parsed text. *)
Class UrlDetails := { forceQuery : gostring -> bool; escapedFragment : gostring -> gostring }.

(** ** The bounded output *)

(** The runes written so far, each as its bytes; one more than the limit is kept
    to tell an exact fit from a truncation. *)
Definition urlOutput : Type := list gostring.
Definition out_full (o : urlOutput) : bool := (maxPromptURLChars <? length o)%nat.
Definition out_write (s : gostring) (normalize : bool) (o : urlOutput) : urlOutput :=
  o ++ take (S maxPromptURLChars - length o) ((λ k, if normalize then encode_rune (rc_rune k) else rc_bytes k) <$> rune_chunks s).

Definition runePrefix (s : gostring) (limit : nat) : gostring * bool :=
  (flatten_runes (take limit (rune_chunks s)), (limit <? runeCount s)%nat).

Definition urlHex (c : ascii) : option Z :=
  if in_range 48 57 c then Some (code c - 48)
  else if in_range 97 102 c then Some (code c - 97 + 10)
  else if in_range 65 70 c then Some (code c - 65 + 10)
  else None.
Definition url_alnum (c : ascii) : bool := in_range 48 57 c || in_range 97 122 c || in_range 65 90 c.

(** The text from its end: at most sixteen letters and digits, percent escapes
    decoded, after a dot that is not the first character. *)
Fixpoint extension_go (letters : nat) (reversed : gostring) : bool :=
  match reversed with
  | [] => false
  | c :: before =>
      let judge (c : ascii) (before : gostring) (next : bool) : bool :=
        if ceq c "." then negb (beq before []) && (0 <? letters)%nat
        else if (letters =? 16)%nat || negb (url_alnum c) then false else next in
      match before with
      | x :: y :: more =>
          if ceq y "%" then
            match urlHex x, urlHex c with
            | Some hi, Some lo => judge (chr (hi * 16 + lo)) more (extension_go (S letters) more)
            | _, _ => false
            end
          else judge c before (extension_go (S letters) before)
      | _ => judge c before (extension_go (S letters) before)
      end
  end.
Definition hasLikelyFileExtension (s : gostring) : bool := extension_go 0 (rev s).

(** [utf8.DecodeLastRuneInString]: the width of the last rune. *)
Fixpoint back_start (tries : nat) (s : gostring) (start : nat) : nat :=
  match tries with
  | O => start
  | S tries =>
      if match s !! start with Some c => runeStart c | None => true end then start
      else match start with O => O | S previous => back_start tries s previous end
  end.
Definition last_width (s : gostring) : nat :=
  match last s with
  | None => 0%nat
  | Some c =>
      if code c <? 128 then 1%nat
      else
        let start := back_start 3 s (length s - 2) in
        let '(_, w) := decode_rune (drop start s) in
        if (start + w =? length s)%nat then w else 1%nat
  end.
Fixpoint last_start (n : nat) (s : gostring) (start : nat) : nat :=
  match n with O => start | S n => last_start n s (start - last_width (take start s)) end.

Definition out_part (s : gostring) (limit : nat) (path : bool) (o : urlOutput) : urlOutput * bool :=
  let '(prefix, changed) := runePrefix s limit in
  let prefix := if changed && path && hasLikelyFileExtension s then drop (last_start limit s (length s)) s else prefix in
  (out_write prefix changed o, changed).

Fixpoint normalize_runes (n : nat) (s : gostring) : gostring :=
  match n with
  | O => []
  | S n => let '(r, w) := decode_rune s in encode_rune r ++ normalize_runes n (drop w s)
  end.
Definition out_result (o : urlOutput) : gostring := if out_full o then normalize_runes maxPromptURLChars (concat o) else concat o.

(** ** A URL *)

Fixpoint write_path (parts : list gostring) (o : urlOutput) (changed : bool) : urlOutput * bool :=
  match parts with
  | [] => (o, changed)
  | part :: parts =>
      let '(o, c) := out_part part maxPromptURLPathChars true o in
      let changed := c || changed in
      match parts with
      | [] => (o, changed)
      | _ => if out_full o then (o, changed) else write_path parts (out_write (lit "/") false o) changed
      end
  end.
Definition write_parameter (parameter : gostring) (o : urlOutput) (changed : bool) : urlOutput * bool :=
  let '(key, val) := match cut "=" parameter with Some (key, val) => (key, Some val) | None => (parameter, None) end in
  let '(o, c) := out_part key maxPromptURLParameterChars false o in
  let changed := c || changed in
  match val with
  | None => (o, changed)
  | Some val => let '(o, c) := out_part val maxPromptURLParameterChars false (out_write (lit "=") false o) in (o, c || changed)
  end.
Fixpoint write_query (parameters : list gostring) (o : urlOutput) (changed : bool) : urlOutput * bool :=
  match parameters with
  | [] => (o, changed)
  | parameter :: parameters =>
      let '(o, changed) := write_parameter parameter o changed in
      match parameters with
      | [] => (o, changed)
      | _ => if out_full o then (o, changed) else write_query parameters (out_write (lit "&") false o) changed
      end
  end.

Section Urls.
Context {UR : UrlText} {UD : UrlDetails}.

(** The parts of a parsed URL, one after the other until the output is full. *)
Definition write_url (value : gostring) (u : URL) : urlOutput * bool :=
  let o := out_write (lit "://") false (out_write (u_Scheme u) false []) in
  let o := if u_User u then out_write (lit "[userinfo-omitted]@") false o else o in
  let o := out_write (u_Host u) false o in
  let '(o, changed) := if out_full o then (o, false) else write_path (split "/" (u_EscapedPath u)) o false in
  let '(o, changed) :=
    if negb (out_full o) && (forceQuery value || negb (beq (u_RawQuery u) []))
    then write_query (split "&" (u_RawQuery u)) (out_write (lit "?") false o) changed
    else (o, changed) in
  if negb (out_full o) && negb (beq (u_Fragment u) []) then
    let '(o, c) := out_part (escapedFragment value) maxPromptURLFragmentChars false (out_write (lit "#") false o) in (o, c || changed)
  else (o, changed).

Definition promptURLWithBudget (value : gostring) (compact : bool) : gostring :=
  if negb compact then value
  else
    match urlParse value with
    | Some u =>
        if negb (isAbs u) || beq (u_Host u) [] then
          let '(prefix, truncated) := runePrefix value maxPromptURLChars in
          if truncated then out_result (out_write prefix true []) else value
        else
          let '(o, changed) := write_url value u in
          if negb changed && negb (runePrefix value maxPromptURLChars).2 then value else out_result o
    | None =>
        let '(prefix, truncated) := runePrefix value maxPromptURLChars in
        if truncated then out_result (out_write prefix true []) else value
    end.

(** ** Links that were met *)

(** [seen] holds what is in [links], [rendered] how a destination was shown. *)
Record linkCollector := MkLinkCollector {
  lc_links : list gostring; lc_rendered : list (gostring * gostring); lc_chars : nat; lc_full : bool; lc_compactURLs : bool }.
Definition new_collector (compact : bool) : linkCollector := MkLinkCollector [] [] 0 false compact.
Definition Full (c : linkCollector) : bool := lc_full c || (maxExtractedLinks <=? length (lc_links c))%nat.

Fixpoint lookup_rendered (raw : gostring) (l : list (gostring * gostring)) : option gostring :=
  match l with [] => None | (key, value) :: l => if beq key raw then Some value else lookup_rendered raw l end.

Definition AddDestination (candidate : gostring) (c : linkCollector) : gostring * linkCollector :=
  let candidate := trimSpace candidate in
  if beq candidate [] then ([], c)
  else
    match lookup_rendered candidate (lc_rendered c) with
    | Some rendered => (rendered, c)
    | None =>
        if Full c then (candidate, c)
        else
          let raw := candidate in
          let candidate := promptURLWithBudget raw (lc_compactURLs c) in
          if bool_decide (candidate ∈ lc_links c) then (candidate, c)
          else
            let characters := runeCount candidate in
            if (maxExtractedLinks <=? length (lc_links c))%nat || (maxExtractedLinkChars <? lc_chars c + characters)%nat
            then (candidate, MkLinkCollector (lc_links c) (lc_rendered c) (lc_chars c) true (lc_compactURLs c))
            else (candidate, MkLinkCollector (lc_links c ++ [candidate]) ((raw, candidate) :: lc_rendered c) (lc_chars c + characters)
                               (lc_full c) (lc_compactURLs c))
    end.
Fixpoint add_destinations (l : list gostring) (c : linkCollector) : linkCollector :=
  match l with [] => c | d :: l => add_destinations l (AddDestination d c).2 end.

(** ** URLs in plain text *)

Definition fold_prefix (s p : gostring) : bool := beq (lower_ascii <$> take (length p) s) p.
Definition hasHTTPPrefix (value : gostring) : bool := fold_prefix value (lit "http://") || fold_prefix value (lit "https://").
Fixpoint nextHTTPPrefix (text : gostring) : option (gostring * gostring) :=
  match text with
  | [] => None
  | c :: rest =>
      if hasHTTPPrefix text then Some ([], text)
      else match nextHTTPPrefix rest with Some (before, at_) => Some (c :: before, at_) | None => None end
  end.
Definition plainURLDelimiter (c : ascii) : bool :=
  bool_decide (c ∈ [" "%char; chr 9; LF; chr 12; CR; "<"%char; ">"%char; chr 34; "'"%char]).
Fixpoint until_delimiter (s : gostring) : gostring :=
  match s with [] => [] | c :: s => if plainURLDelimiter c then [] else c :: until_delimiter s end.
(** The text before a closing bracket that closes nothing. *)
Fixpoint balanced_prefix (parentheses brackets braces : nat) (s : gostring) : gostring :=
  match s with
  | [] => []
  | c :: s =>
      if ceq c "(" then c :: balanced_prefix (S parentheses) brackets braces s
      else if ceq c ")" then match parentheses with O => [] | S n => c :: balanced_prefix n brackets braces s end
      else if ceq c "[" then c :: balanced_prefix parentheses (S brackets) braces s
      else if ceq c "]" then match brackets with O => [] | S n => c :: balanced_prefix parentheses n braces s end
      else if ceq c "{" then c :: balanced_prefix parentheses brackets (S braces) s
      else if ceq c "}" then match braces with O => [] | S n => c :: balanced_prefix parentheses brackets n s end
      else c :: balanced_prefix parentheses brackets braces s
  end.
Definition trimPlainURLPunctuation (value : gostring) : gostring := trimRightSet (balanced_prefix 0 0 0 value) (lit ".,;:!?").

(** Each turn consumes a character of the text, which is the fuel. *)
Fixpoint rewrite_go (fuel : nat) (text : gostring) (links : linkCollector) : gostring * linkCollector :=
  match fuel with
  | O => (text, links)
  | S fuel =>
      match nextHTTPPrefix text with
      | None => (text, links)
      | Some (before, at_) =>
          match trimPlainURLPunctuation (until_delimiter at_) with
          | [] =>
              let '(rest, links) := rewrite_go fuel (drop 1 at_) links in (before ++ take 1 at_ ++ rest, links)
          | link =>
              let '(displayed, links) := AddDestination link links in
              let after := drop (length link) at_ in
              if Full links then (before ++ displayed ++ after, links)
              else let '(rest, links) := rewrite_go fuel after links in (before ++ displayed ++ rest, links)
          end
      end
  end.
Definition rewritePlainTextURLs (text : gostring) (links : linkCollector) : gostring * linkCollector :=
  if Full links then (text, links) else rewrite_go (length text) text links.

(** ** The links of the prompt *)

Definition http_link (candidate : gostring) : bool :=
  match urlParse candidate with
  | Some u => (beq (u_Scheme u) (lit "http") || beq (u_Scheme u) (lit "https")) && negb (beq (Hostname u) [])
  | None => false
  end.
Fixpoint bounded_go (candidates links : list gostring) (chars : nat) : list gostring :=
  match candidates with
  | [] => links
  | candidate :: rest =>
      let candidate := trimSpace candidate in
      if negb (http_link candidate) || bool_decide (candidate ∈ links) then bounded_go rest links chars
      else
        let candidateChars := runeCount candidate in
        if (maxExtractedLinkChars <? chars + candidateChars)%nat then bounded_go rest links chars
        else if (maxExtractedLinks <=? length links)%nat then links
        else bounded_go rest (links ++ [candidate]) (chars + candidateChars)
  end.
Definition boundedLinks (candidates : list gostring) : list gostring := bounded_go candidates [] 0.

Definition markdown_special : gostring := lit "\ ()<>".
Definition hex_upper (n : Z) : ascii := if n <? 10 then chr (48 + n) else chr (55 + n).
Definition percent (c : ascii) : gostring := ["%"%char; hex_upper (code c / 16); hex_upper (code c mod 16)].
Definition markdownURL (value : gostring) : gostring := concat ((λ c, if bool_decide (c ∈ markdown_special) then percent c else [c]) <$> value).
Definition escapeMarkdown (value : gostring) (urlMode : bool) : gostring :=
  if urlMode then markdownURL value
  else concat ((λ c, if ceq c "\" || ceq c "[" || ceq c "]" then ["\"%char; c] else [c]) <$> value).

Definition boundedLinksMissingFromBody (candidates : list gostring) (body : gostring) : list gostring :=
  List.filter (λ link, negb (contains body link) && negb (contains body (markdownURL link))) (trimSpace <$> boundedLinks candidates).

(** ** Image references *)

Section Images.
Context {UT : UnicodeTables}.
Definition normalizeContentID (value : gostring) : gostring :=
  let value := trimSpace value in
  let value := if (2 <=? length value)%nat && hasPrefix value (lit "<") && hasSuffix value (lit ">")
               then trimSpace (take (length value - 2) (drop 1 value)) else value in
  let value := match path_unescape value with Some decoded => decoded | None => value end in
  toLower value.

Record imageRefCollector := MkImageRefCollector { ic_refs : list gostring; ic_chars : nat }.
Definition Add_ref (candidate : gostring) (c : imageRefCollector) : imageRefCollector :=
  let candidate := normalizeContentID candidate in
  if beq candidate [] || bool_decide (candidate ∈ ic_refs c) then c
  else
    let characters := runeCount candidate in
    if (maxExtractedLinks <=? length (ic_refs c))%nat || (maxExtractedReferenceLength <? characters)%nat || (maxExtractedLinkChars <? ic_chars c + characters)%nat
    then c
    else MkImageRefCollector (ic_refs c ++ [candidate]) (ic_chars c + characters).
Definition AddAll (candidates : list gostring) (c : imageRefCollector) : imageRefCollector := fold_left (λ c candidate, Add_ref candidate c) candidates c.
End Images.
End Urls.

(** ** Properties of the links of a prompt

    Bounds of compacted URLs and of the collectors. *)

(** ** Counting runes of pieces *)

(** A piece of text: one byte, or the bytes of one valid rune. *)
Definition piece (p : gostring) : Prop := (exists c, p = [c]) \/ exists k, wf_chunk k /\ rc_bytes k = p.

Lemma chunk_piece k : (rc_valid k = true -> wf_chunk k) -> (rc_valid k = false -> length (rc_bytes k) = 1%nat) -> piece (rc_bytes k).
Proof.
  intros Hv Hi. destruct (rc_valid k); [right; by exists k; auto|left]. specialize (Hi eq_refl). destruct (rc_bytes k) as [|c [|]] eqn:E; try done. by exists c.
Qed.
Lemma chunks_pieces s : Forall piece (rc_bytes <$> rune_chunks s).
Proof.
  apply Forall_fmap. unfold rune_chunks. pose proof (chunks_go_wf (length s) s) as Hw. revert Hw. generalize (length s) as fuel. intros fuel. revert s.
  induction fuel as [|fuel IH]; intros s Hw; [constructor|]. destruct s as [|c s]; [constructor|]. cbn [chunks_go] in *. destruct (decode_rune (c :: s)) as [r w] eqn:E.
  inversion_clear Hw as [|? ? Hk Hl]. constructor; [|by apply IH]. apply chunk_piece; [done|]. cbn [rc_valid rc_bytes].
  intros Hn%negb_false_iff. apply andb_true_iff in Hn as [_ Hn]. apply bool_decide_eq_true in Hn. subst w. done.
Qed.
Lemma encoded_piece r : piece (encode_rune r).
Proof. right. exists (rune_chunk_of r). split; [apply encode_rune_wf|done]. Qed.

(** Bytes that go on inside a rune are pieces of their own. *)
Lemma take_pieces n : forall l, Forall piece l -> (n <= length (concat l))%nat -> Forall (λ c, runeStart c = false) (take n (concat l)) ->
  exists l', concat l' = drop n (concat l) /\ Forall piece l' /\ (length l' + n <= length l)%nat.
Proof.
  induction n as [|n IH]; intros l Hl Hn Hc; [by exists l; split_and!; try lia|]. destruct l as [|p l]; [cbn in Hn; lia|].
  inversion_clear Hl as [|? ? Hp Hl']. destruct Hp as [[c ->]|(k & Hk & <-)].
  - cbn [concat app length] in *. cbn [take] in Hc. inversion_clear Hc as [|? ? _ Hc']. destruct (IH l Hl' ltac:(lia) Hc') as (l' & He & Hf & Hle).
    exists l'. split_and!; [by cbn|done|lia].
  - exfalso. destruct Hk as (_ & Hne & _ & _ & Hs). cbn [concat] in *. destruct (rc_bytes k) as [|c b]; [done|]. cbn [app take] in Hc. inversion_clear Hc. cbn in Hs. destruct Hs. congruence.
Qed.

Lemma decode_rest c s r w : decode_rune (c :: s) = (r, w) -> (1 <= w <= S (length s))%nat /\ Forall (λ d, runeStart d = false) (take (w - 1) s).
Proof.
  intros Hd. destruct (decode_rune_width (c :: s)) as [Hw Hw']; [done|]. rewrite Hd in Hw, Hw'. cbn [snd length] in *. split; [lia|].
  destruct (decide (r = runeError /\ w = 1%nat)) as [[_ ->]|Hne]; [constructor|]. apply decode_rune_wf in Hd; [|done..].
  destruct Hd as (_ & _ & _ & _ & Hs). cbn [rc_bytes] in Hs. rewrite take_width_S in Hs by lia. by destruct Hs.
Qed.

(** A text has at most as many runes as pieces. *)
Lemma pieces_count l : Forall piece l -> (runeCount (concat l) <= length l)%nat.
Proof.
  remember (length l) as n eqn:Hn. assert (Hle : (length l <= n)%nat) by lia. clear Hn. revert l Hle.
  induction n as [n IH] using lt_wf_ind. intros l Hle Hl. destruct l as [|p l]; [cbn; lia|]. inversion_clear Hl as [|? ? Hp Hl']. cbn [length] in Hle.
  unfold runeCount. destruct Hp as [[c ->]|(k & Hk & <-)]; cbn [concat].
  - cbn [app]. unfold rune_chunks. cbn [length chunks_go]. destruct (decode_rune (c :: concat l)) as [r w] eqn:E. destruct (decode_rest _ _ _ _ E) as [Hw Hc].
    cbn [length]. destruct (take_pieces (w - 1) l Hl' ltac:(lia) Hc) as (l' & He & Hf & Hlen).
    assert (Hd : drop w (c :: concat l) = concat l') by (rewrite He; destruct w; [lia|]; cbn [drop]; by rewrite Nat.sub_succ, Nat.sub_0_r).
    rewrite Hd, chunks_go_fuel by (rewrite He, length_drop; lia). pose proof (IH (length l') ltac:(lia) l' ltac:(lia) Hf) as Hi. unfold runeCount in Hi. lia.
  - rewrite wf_chunk_cons by done. cbn [length]. pose proof (IH (length l) ltac:(lia) l ltac:(lia) Hl') as Hi. unfold runeCount in Hi. lia.
Qed.

(** ** The bounded output *)

Lemma out_write_pieces s b o : Forall piece o -> Forall piece (out_write s b o).
Proof.
  intros Ho. unfold out_write. apply Forall_app. split; [done|]. apply Forall_take, Forall_fmap. destruct b; [apply Forall_forall; intros k _; apply encoded_piece|].
  pose proof (chunks_pieces s) as Hp. rewrite Forall_fmap in Hp. exact Hp.
Qed.
Lemma out_part_pieces s n b o : Forall piece o -> Forall piece (out_part s n b o).1.
Proof. intros Ho. unfold out_part. destruct (runePrefix s n) as [prefix changed]. by apply out_write_pieces. Qed.
Lemma write_path_pieces parts : forall o c, Forall piece o -> Forall piece (write_path parts o c).1.
Proof.
  induction parts as [|part parts IH]; intros o c Ho; [done|]. cbn [write_path]. pose proof (out_part_pieces part maxPromptURLPathChars true o Ho) as Hp.
  destruct (out_part _ _ _ _) as [o' c']. destruct parts; [done|]. case_match; [done|]. apply IH. by apply out_write_pieces.
Qed.
Lemma write_parameter_pieces p o c : Forall piece o -> Forall piece (write_parameter p o c).1.
Proof.
  intros Ho. unfold write_parameter. destruct (match cut "=" p with Some (key, val) => (key, Some val) | None => (p, None) end) as [key val].
  pose proof (out_part_pieces key maxPromptURLParameterChars false o Ho) as Hp. destruct (out_part key _ _ _) as [o' c']. cbn [fst] in Hp. destruct val as [val|]; [|done].
  pose proof (out_part_pieces val maxPromptURLParameterChars false (out_write (lit "=") false o') (out_write_pieces _ _ _ Hp)) as Hv. by destruct (out_part val _ _ _).
Qed.
Lemma write_query_pieces ps : forall o c, Forall piece o -> Forall piece (write_query ps o c).1.
Proof.
  induction ps as [|p ps IH]; intros o c Ho; [done|]. cbn [write_query]. pose proof (write_parameter_pieces p o c Ho) as Hp. destruct (write_parameter p o c) as [o' c'].
  destruct ps; [done|]. case_match; [done|]. apply IH. by apply out_write_pieces.
Qed.

Lemma normalize_runes_encoded n : forall s, exists l, normalize_runes n s = concat (encode_rune <$> l) /\ length l = n.
Proof.
  induction n as [|n IH]; intros s; [by exists []|]. cbn [normalize_runes]. destruct (decode_rune s) as [r w]. destruct (IH (drop w s)) as (l & -> & Hl).
  exists (r :: l). cbn. by rewrite Hl.
Qed.
Lemma out_result_bounded o : Forall piece o -> (runeCount (out_result o) <= maxPromptURLChars)%nat.
Proof.
  intros Ho. unfold out_result. destruct (out_full o) eqn:E; [|apply Nat.ltb_ge in E; pose proof (pieces_count o Ho); lia].
  destruct (normalize_runes_encoded maxPromptURLChars (concat o)) as (l & -> & Hl). rewrite runeCount_runes, runes_encode, length_fmap. lia.
Qed.

Section Links.
Context {UR : UrlText} {UD : UrlDetails}.

Lemma write_url_pieces v u : Forall piece (write_url v u).1.
Proof.
  unfold write_url. set (o := out_write (u_Host u) false _). assert (Ho : Forall piece o) by (unfold o; case_match; by repeat apply out_write_pieces).
  destruct (if out_full o then (o, false) else write_path (split "/" (u_EscapedPath u)) o false) as [o1 c1] eqn:E1.
  assert (H1 : Forall piece o1) by (case_match; [by injection E1 as <- _|]; pose proof (write_path_pieces (split "/" (u_EscapedPath u)) o false Ho) as Hp; by rewrite E1 in Hp).
  destruct (if negb (out_full o1) && _ then _ else _) as [o2 c2] eqn:E2.
  assert (H2 : Forall piece o2).
  { case_match; [|by injection E2 as <- _]. pose proof (write_query_pieces (split "&" (u_RawQuery u)) (out_write (lit "?") false o1) c1 (out_write_pieces _ _ _ H1)) as Hp. by rewrite E2 in Hp. }
  destruct (negb (out_full o2) && _); [|done]. pose proof (out_part_pieces (escapedFragment v) maxPromptURLFragmentChars false (out_write (lit "#") false o2) (out_write_pieces _ _ _ H2)) as Hp.
  by destruct (out_part _ _ _ _).
Qed.

(** A compacted URL has at most 512 characters. *)
Lemma promptURL_bounded v : (runeCount (promptURLWithBudget v true) <= maxPromptURLChars)%nat.
Proof.
  assert (Hplain : (runeCount (let '(prefix, truncated) := runePrefix v maxPromptURLChars in if truncated then out_result (out_write prefix true []) else v) <= maxPromptURLChars)%nat).
  { unfold runePrefix. destruct (Nat.ltb_spec maxPromptURLChars (runeCount v)); [|lia]. by apply out_result_bounded, out_write_pieces. }
  unfold promptURLWithBudget. cbn [negb]. destruct (urlParse v) as [u|]; [|done]. destruct (negb (isAbs u) || beq (u_Host u) []); [done|].
  pose proof (write_url_pieces v u) as Hp. destruct (write_url v u) as [o changed]. cbn [fst] in Hp. destruct (negb changed && _) eqn:E; [|by apply out_result_bounded].
  apply andb_true_iff in E as [_ E%negb_true_iff]. cbn [runePrefix snd] in E. apply Nat.ltb_ge in E. lia.
Qed.

(** ** The collector *)

Definition total_runes (l : list gostring) : nat := foldr (λ s n, runeCount s + n)%nat 0%nat l.
Lemma total_runes_app l s : total_runes (l ++ [s]) = (total_runes l + runeCount s)%nat.
Proof. unfold total_runes. induction l as [|x l IH]; cbn [app foldr]; [lia|]. rewrite IH. lia. Qed.

Record collector_ok (c : linkCollector) : Prop := {
  co_unique : NoDup (lc_links c);
  co_count : (length (lc_links c) <= maxExtractedLinks)%nat;
  co_chars : lc_chars c = total_runes (lc_links c) /\ (lc_chars c <= maxExtractedLinkChars)%nat;
  co_short : lc_compactURLs c = true -> Forall (λ s, (runeCount s <= maxPromptURLChars)%nat) (lc_links c);
  co_rendered : Forall (λ e, e.2 ∈ lc_links c /\ e.2 = promptURLWithBudget e.1 (lc_compactURLs c)) (lc_rendered c) }.

Lemma new_collector_ok b : collector_ok (new_collector b).
Proof. split; cbn; try constructor; try done; unfold maxExtractedLinks, maxExtractedLinkChars; lia. Qed.

Lemma lookup_rendered_in raw l v : lookup_rendered raw l = Some v -> (raw, v) ∈ l.
Proof.
  induction l as [|[k x] l IH]; [done|]. cbn [lookup_rendered]. destruct (beq k raw) eqn:E; [apply beq_true in E; intros [= ->]; subst; by left|right; by apply IH].
Qed.

(** What is shown for a destination: itself, or its compacted form. *)
Lemma AddDestination_ok d c : collector_ok c ->
  collector_ok (AddDestination d c).2 /\ lc_compactURLs (AddDestination d c).2 = lc_compactURLs c /\
  ((AddDestination d c).1 = trimSpace d \/ (AddDestination d c).1 = promptURLWithBudget (trimSpace d) (lc_compactURLs c)).
Proof.
  intros [Hu Hn Hc Hs Hr]. unfold AddDestination. destruct (beq (trimSpace d) []) eqn:Eb; [apply beq_true in Eb; rewrite Eb; split_and!; try done; by left|].
  destruct (lookup_rendered (trimSpace d) (lc_rendered c)) as [v|] eqn:El.
  { split_and!; try done. right. apply lookup_rendered_in in El. rewrite Forall_forall in Hr. by apply (Hr _ El). }
  destruct (Full c) eqn:Ef; [split_and!; try done; by left|]. case_bool_decide as Hin; [split_and!; try done; by right|].
  destruct (_ || _) eqn:Eo; [split_and!; try done; by right|].
  apply orb_false_iff in Eo as [E1%Nat.leb_gt E2%Nat.ltb_ge]. split_and!; [|done|by right]. split; cbn [lc_links lc_rendered lc_chars lc_full lc_compactURLs snd].
  - apply NoDup_app. split_and!; [done|set_solver|apply NoDup_singleton].
  - rewrite length_app. cbn. lia.
  - rewrite total_runes_app. destruct Hc as [Hc1 Hc2]. split; lia.
  - intros Hcompact. apply Forall_app. split; [by apply Hs|]. constructor; [|done]. rewrite Hcompact. apply promptURL_bounded.
  - constructor; [cbn; split; [set_solver|done]|]. eapply Forall_impl; [exact Hr|]. cbn. intros e [? ?]. split; [set_solver|done].
Qed.
Lemma add_destinations_ok l : forall c, collector_ok c -> collector_ok (add_destinations l c) /\ lc_compactURLs (add_destinations l c) = lc_compactURLs c.
Proof.
  induction l as [|d l IH]; intros c Hc; [done|]. cbn [add_destinations]. destruct (AddDestination_ok d c Hc) as (H1 & H2 & _). destruct (IH _ H1) as [H3 H4].
  split; [done|congruence].
Qed.

(** ** URLs in a text *)

(** A text with its links replaced: everything between them is kept. *)
Inductive relinked (compact : bool) : gostring -> gostring -> Prop :=
  | relinked_rest t : relinked compact t t
  | relinked_link before link t shown t' : hasHTTPPrefix (link ++ t) = true ->
      (shown = trimSpace link \/ shown = promptURLWithBudget (trimSpace link) compact) -> relinked compact t t' ->
      relinked compact (before ++ link ++ t) (before ++ shown ++ t').

Lemma relinked_app compact p t t' : relinked compact t t' -> relinked compact (p ++ t) (p ++ t').
Proof.
  destruct 1 as [t|before link t shown t' Hh Hs Hr]; [constructor|]. rewrite (app_assoc p before (link ++ t)), (app_assoc p before (shown ++ t')). by constructor.
Qed.

Lemma nextHTTPPrefix_split t b a : nextHTTPPrefix t = Some (b, a) -> t = b ++ a /\ hasHTTPPrefix a = true /\ a <> [].
Proof.
  revert b a. induction t as [|c t IH]; intros b a; [done|]. cbn [nextHTTPPrefix]. destruct (hasHTTPPrefix (c :: t)) eqn:E; [intros [= <- <-]; done|].
  destruct (nextHTTPPrefix t) as [[b' a']|]; [|done]. intros [= <- <-]. destruct (IH b' a' eq_refl) as (-> & ? & ?). done.
Qed.
Lemma until_delimiter_prefix s : exists t, s = until_delimiter s ++ t.
Proof. induction s as [|c s [t Ht]]; [by exists []|]. cbn [until_delimiter]. case_match; [by eexists|]. exists t. cbn. by f_equal. Qed.
Lemma balanced_prefix_prefix s : forall x y z, exists t, s = balanced_prefix x y z s ++ t.
Proof.
  induction s as [|c s IH]; intros x y z; [by exists []|]. cbn [balanced_prefix]. repeat case_match; subst;
    first [by eexists|match goal with |- exists t, _ = (_ :: balanced_prefix ?x ?y ?z _) ++ t => destruct (IH x y z) as [t Ht]; exists t; cbn; by f_equal end].
Qed.
Lemma trimLeftSet_suffix cutset s : exists p, s = p ++ trimLeftSet cutset s.
Proof. induction s as [|c s [p Hp]]; [by exists []|]. cbn [trimLeftSet]. case_match; [|by exists []]. exists (c :: p). cbn. by f_equal. Qed.
Lemma plain_url_prefix s : exists t, s = trimPlainURLPunctuation (until_delimiter s) ++ t.
Proof.
  destruct (until_delimiter_prefix s) as [t1 H1]. destruct (balanced_prefix_prefix (until_delimiter s) 0 0 0) as [t2 H2].
  unfold trimPlainURLPunctuation, trimRightSet. destruct (trimLeftSet_suffix (lit ".,;:!?") (rev (balanced_prefix 0 0 0 (until_delimiter s)))) as [p Hp].
  apply (f_equal (@rev ascii)) in Hp. rewrite rev_involutive, rev_app_distr in Hp. exists (rev p ++ t2 ++ t1). by rewrite app_assoc, <- Hp, app_assoc, <- H2, <- H1.
Qed.

Lemma rewrite_go_ok fuel : forall t c t' c', collector_ok c -> rewrite_go fuel t c = (t', c') ->
  relinked (lc_compactURLs c) t t' /\ collector_ok c' /\ lc_compactURLs c' = lc_compactURLs c.
Proof.
  induction fuel as [|fuel IH]; intros t c t' c' Hc; cbn [rewrite_go]; [intros [= <- <-]; split_and!; [constructor|done..]|].
  destruct (nextHTTPPrefix t) as [[b a]|] eqn:En; [|intros [= <- <-]; split_and!; [constructor|done..]].
  apply nextHTTPPrefix_split in En as (-> & Hh & Hne). destruct (plain_url_prefix a) as [rest Hrest].
  destruct (trimPlainURLPunctuation (until_delimiter a)) as [|x link] eqn:El.
  - destruct (rewrite_go fuel (drop 1 a) c) as [t1 c1] eqn:Er. intros [= <- <-]. destruct (IH _ _ _ _ Hc Er) as (Hr & H1 & H2). split_and!; [|done..].
    rewrite <- (take_drop 1 a) at 1. rewrite !(app_assoc b). by apply relinked_app.
  - pose proof (AddDestination_ok (x :: link) c Hc) as (Ha & Hcc & Hshown). destruct (AddDestination (x :: link) c) as [shown c1]. cbn [fst snd] in *.
    assert (Hd : drop (length (x :: link)) a = rest) by (rewrite Hrest; apply drop_app_length).
    rewrite Hd. rewrite Hrest in Hh |- *. destruct (Full c1).
    + intros [= <- <-]. split_and!; [|done..]. constructor; [done|done|constructor].
    + destruct (rewrite_go fuel rest c1) as [t1 c2] eqn:Er. intros [= <- <-]. destruct (IH _ _ _ _ Ha Er) as (Hr & H1 & H2). rewrite Hcc in *. split_and!; [|done..]. by constructor.
Qed.

(** ** The links of the prompt *)

Lemma bounded_go_ok candidates : forall links chars,
  NoDup links -> (length links <= maxExtractedLinks)%nat -> chars = total_runes links -> (chars <= maxExtractedLinkChars)%nat -> Forall (λ s, http_link s = true) links ->
  let r := bounded_go candidates links chars in
  NoDup r /\ (length r <= maxExtractedLinks)%nat /\ (total_runes r <= maxExtractedLinkChars)%nat /\ Forall (λ s, http_link s = true) r /\
  (forall s, s ∈ r -> s ∈ links \/ exists d, d ∈ candidates /\ s = trimSpace d).
Proof.
  induction candidates as [|d rest IH]; intros links chars Hu Hn Hc Hm Hh; cbv zeta; [subst; split_and!; auto|]. cbn [bounded_go].
  destruct (negb (http_link (trimSpace d)) || _) eqn:E1.
  { destruct (IH links chars Hu Hn Hc Hm Hh) as (? & ? & ? & ? & Hs). split_and!; try done. intros s [?|(x & ? & ?)]%Hs; [by left|right; exists x; set_solver]. }
  apply orb_false_iff in E1 as [E1%negb_false_iff E2%bool_decide_eq_false].
  destruct (Nat.ltb_spec maxExtractedLinkChars (chars + runeCount (trimSpace d))).
  { destruct (IH links chars Hu Hn Hc Hm Hh) as (? & ? & ? & ? & Hs). split_and!; try done. intros s [?|(x & ? & ?)]%Hs; [by left|right; exists x; set_solver]. }
  destruct (Nat.leb_spec maxExtractedLinks (length links)); [subst; split_and!; auto|].
  destruct (IH (links ++ [trimSpace d]) (chars + runeCount (trimSpace d))%nat) as (? & ? & ? & ? & Hs);
    [apply NoDup_app; split_and!; [done|set_solver|apply NoDup_singleton]|rewrite length_app; cbn; lia|rewrite total_runes_app; lia|lia|apply Forall_app; by split; [|constructor]|].
  split_and!; try done. intros s [Hin|(x & ? & ?)]%Hs; [|right; exists x; set_solver]. apply elem_of_app in Hin as [?| ->%list_elem_of_singleton]; [by left|right; exists d; set_solver].
Qed.

(** links stay within their limits whatever a message holds. Starting from an
    empty collector, after any destinations and any text: the links kept are
    distinct, at most 100 of at most 8192 characters together, each of at most
    512 characters when links are compacted; the text differs from the original
    only where a link stood, and there has the link or its compacted form; and the
    links of the prompt, from any candidates, are distinct HTTP links with a host,
    taken from the candidates, within the same limits. *)
Theorem prompt_links_bounded (compact : bool) (destinations candidates : list gostring) (text : gostring) :
  let '(text', c) := rewritePlainTextURLs text (add_destinations destinations (new_collector compact)) in
  (collector_ok c /\ lc_compactURLs c = compact /\ relinked compact text text') /\
  NoDup (boundedLinks candidates) /\ (length (boundedLinks candidates) <= maxExtractedLinks)%nat /\ (total_runes (boundedLinks candidates) <= maxExtractedLinkChars)%nat /\
  Forall (λ s, http_link s = true /\ s ∈ trimSpace <$> candidates) (boundedLinks candidates).
Proof.
  destruct (rewritePlainTextURLs text _) as [text' c] eqn:E. split.
  - destruct (add_destinations_ok destinations _ (new_collector_ok compact)) as [Hc Hcc]. set (c0 := add_destinations destinations (new_collector compact)) in *. cbn in Hcc.
    unfold rewritePlainTextURLs in E. destruct (Full c0); [injection E as <- <-; split_and!; [done..|constructor]|].
    destruct (rewrite_go_ok _ _ _ _ _ Hc E) as (Hr & H1 & H2). rewrite Hcc in *. done.
  - destruct (bounded_go_ok candidates [] 0) as (H1 & H2 & H3 & H4 & H5); [constructor|cbn; lia|done|lia|constructor|]. fold (boundedLinks candidates) in *. split_and!; [done..|].
    apply Forall_forall. intros s Hs. rewrite Forall_forall in H4. split; [by apply H4|]. destruct (H5 s Hs) as [[]%elem_of_nil|(d & Hd & ->)]. by apply list_elem_of_fmap_2.
Qed.
End Links.
