(* ===== verification/AttachedText.v ===== *)
(** * Attachments in the prompt
    (attachment_context.go, rfc822.go and the boundary scan of mime_restart.go
    in internal/message)

    Text that comes from an attachment is put between tags that the extractor
    generates, and the offsets of those tags are kept beside the text ([spans]),
    so that a later cut never has to look for tags in what a sender wrote.  The
    header of an attached message becomes bounded metadata.  Offsets are in
    bytes. *)
From S2P Require Import Prelude GoText Runes Thinking Message PromptUrl.

Record attachmentSpan := MkSpan { sp_Start : nat; sp_BodyStart : nat; sp_CloseStart : nat; sp_End : nat; sp_Tag : gostring }.
Record attachmentLinkGroup := MkLinkGroup { lg_Prefix : gostring; lg_Suffix : gostring; lg_Links : list gostring }.

Definition maxAttachmentMetadataBytes : nat := Z.to_nat 8192.
Definition maxAttachmentFieldBytes : nat := Z.to_nat 1024.
Definition maxAttachedMessageHeaderBytes : Z := 1048576.

Definition attached_email : gostring := lit "attached-email".
Definition attached_file : gostring := lit "attached-file".
Definition truncated_note : gostring := lit " [metadata truncated]".

Section Metadata.
Context {UT : UnicodeTables} {HD : HeaderDecoder}.

Definition attachmentMetadataValue (value : gostring) : gostring :=
  let truncated := (maxAttachmentFieldBytes <? length value)%nat in
  let value := if truncated then take maxAttachmentFieldBytes value else value in
  let value := decodeHeaderValue value in
  let value := map_runes (λ r, Some (if unicode_is_control r then 32 else r)) value in
  let value := replaceAll (replaceAll value (lit "<") (lit "&lt;")) (lit ">") (lit "&gt;") in
  let long := (maxAttachmentFieldBytes <? length value)%nat in
  let value := if long then take (back_to_start value maxAttachmentFieldBytes) value else value in
  if truncated || long then value ++ truncated_note else value.

Definition attachmentPrefix (tag filename mediaType headers : gostring) : gostring :=
  lit "<" ++ tag ++ lit ">" ++ [LF] ++
  (if beq filename [] then [] else lit "Filename: " ++ attachmentMetadataValue filename ++ [LF]) ++
  (if beq mediaType [] then [] else lit "Content-Type: " ++ mediaType ++ [LF]) ++
  (if beq headers [] then [] else lit "Original headers (unverified claims):" ++ [LF] ++ headers) ++ [LF].
Definition attachmentSuffix (tag : gostring) : gostring := LF :: lit "</" ++ tag ++ lit ">".

Definition shift_span (offset : nat) (s : attachmentSpan) : attachmentSpan :=
  MkSpan (sp_Start s + offset) (sp_BodyStart s + offset) (sp_CloseStart s + offset) (sp_End s + offset) (sp_Tag s).
Definition appendAttachmentSpans (dst src : list attachmentSpan) (offset : nat) : list attachmentSpan := dst ++ (shift_span offset <$> src).

(** The wrapping of one text. *)
Definition wrap_text (tag prefix text : gostring) (spans : list attachmentSpan) : gostring * list attachmentSpan :=
  let result := prefix ++ text ++ attachmentSuffix tag in
  (result, appendAttachmentSpans [MkSpan 0 (length prefix) (length prefix + length text) (length result) tag] spans (length prefix)).

Definition incomplete_marker (tag : gostring) : gostring := lit "<" ++ tag ++ lit ">" ++ [LF] ++ lit "[attachment extraction incomplete]" ++ attachmentSuffix tag.
Definition incomplete_spans (tag : gostring) : list attachmentSpan :=
  [MkSpan 0 (length tag + 3) (length tag + 3 + 34) (length (incomplete_marker tag)) tag].

Definition makeAttachmentLinkGroups (links : list gostring) (groups : list attachmentLinkGroup) (prefix suffix : gostring) : list attachmentLinkGroup :=
  (match links with [] => [] | _ => [MkLinkGroup prefix suffix links] end) ++
  ((λ g, MkLinkGroup (prefix ++ lg_Prefix g) (lg_Suffix g ++ suffix) (lg_Links g)) <$> groups).
End Metadata.

(** ** Cutting a body *)

(** [runeByteOffsets]: the offset of a rune, or zero when there is none. *)
Definition runeByteOffset (value : gostring) (n : nat) : nat :=
  if (n <=? runeCount value)%nat then length (flatten_runes (take n (rune_chunks value))) else 0%nat.

Definition truncation_notice : gostring := LF :: lit "[processed email body truncated; the remainder was omitted]".
Definition truncateOverlongBody (body : gostring) (maxChars : nat) : gostring :=
  if (maxChars <? 1)%nat then [] else take (runeByteOffset body maxChars) body ++ truncation_notice.

(** A cut inside an opening or a closing moves to its start. *)
Definition settle_cut (spans : list attachmentSpan) (cut : nat) : nat :=
  fold_left (λ cut s,
    let cut := if (sp_Start s <? cut)%nat && (cut <? sp_BodyStart s)%nat then sp_Start s else cut in
    if (sp_CloseStart s <=? cut)%nat && (cut <? sp_End s)%nat then sp_CloseStart s else cut) spans cut.
Definition closing_tags (spans : list attachmentSpan) (cut : nat) : gostring :=
  concat ((λ s, if (sp_BodyStart s <=? cut)%nat && (cut <=? sp_CloseStart s)%nat then attachmentSuffix (sp_Tag s) else []) <$> rev spans).

(** The allowance shrinks in every turn. *)
Fixpoint sample_go (fuel : nat) (body : gostring) (maxChars : nat) (spans : list attachmentSpan) (allowance : nat) : gostring :=
  let cut := settle_cut spans (runeByteOffset body allowance) in
  let suffix := truncation_notice ++ closing_tags spans cut in
  let kept := runeCount (take cut body) in
  if (kept + runeCount suffix <=? maxChars)%nat || (allowance =? 0)%nat
  then (if (allowance =? 0)%nat then truncation_notice else take cut body ++ suffix)
  else
    match fuel with
    | O => truncation_notice
    | S fuel => sample_go fuel body maxChars spans (Nat.min (allowance - 1) (kept - (kept + runeCount suffix - maxChars)))
    end.
Definition sampleAttachmentBody (body : gostring) (maxChars : nat) (spans : list attachmentSpan) : gostring :=
  match spans with
  | [] => truncateOverlongBody body maxChars
  | _ => if (maxChars <? 1)%nat then [] else sample_go maxChars body maxChars spans maxChars
  end.

(** ** Attached messages *)

Inductive attachedHeader :=
  | attachedHeaderIgnored | attachedHeaderContentType | attachedHeaderTransferEncoding | attachedHeaderContentID | attachedHeaderDisposition
  | attachedHeaderFrom | attachedHeaderTo | attachedHeaderCc | attachedHeaderDate | attachedHeaderSubject.
(** [current >= attachedHeaderFrom], with the name that is written. *)
Definition metadata_name (h : attachedHeader) : option gostring :=
  match h with
  | attachedHeaderFrom => Some (lit "From") | attachedHeaderTo => Some (lit "To") | attachedHeaderCc => Some (lit "Cc")
  | attachedHeaderDate => Some (lit "Date") | attachedHeaderSubject => Some (lit "Subject") | _ => None
  end.
Definition is_metadata (h : attachedHeader) : bool := match metadata_name h with Some _ => true | None => false end.

Record attachedMessage := MkAttached {
  am_contentType : gostring; am_transferEncoding : gostring; am_contentID : gostring; am_disposition : gostring; am_body : gostring; am_headers : gostring }.
Definition no_attached : attachedMessage := MkAttached [] [] [] [] [] [].

Record attached_state := MkAttState {
  as_message : attachedMessage; as_value : gostring; as_current : attachedHeader; as_metadata : gostring; as_metadataOmitted : bool; as_fieldTruncated : bool;
  as_haveField : bool; as_keepField : bool;
  as_seenContentType : bool; as_seenTransferEncoding : bool; as_seenContentID : bool; as_seenDisposition : bool }.
Definition attached_start : attached_state := MkAttState no_attached [] attachedHeaderIgnored [] false false false false false false false false.

Definition set_value (v : gostring) (truncated : bool) (s : attached_state) : attached_state :=
  MkAttState (as_message s) v (as_current s) (as_metadata s) (as_metadataOmitted s) truncated (as_haveField s) (as_keepField s)
    (as_seenContentType s) (as_seenTransferEncoding s) (as_seenContentID s) (as_seenDisposition s).
Definition set_metadata (text : gostring) (omitted : bool) (s : attached_state) : attached_state :=
  MkAttState (as_message s) (as_value s) (as_current s) text omitted (as_fieldTruncated s) (as_haveField s) (as_keepField s)
    (as_seenContentType s) (as_seenTransferEncoding s) (as_seenContentID s) (as_seenDisposition s).
Definition set_message (m : attachedMessage) (s : attached_state) : attached_state :=
  MkAttState m (as_value s) (as_current s) (as_metadata s) (as_metadataOmitted s) (as_fieldTruncated s) (as_haveField s) (as_keepField s)
    (as_seenContentType s) (as_seenTransferEncoding s) (as_seenContentID s) (as_seenDisposition s).
Definition set_keep (keep : bool) (s : attached_state) : attached_state :=
  MkAttState (as_message s) (as_value s) (as_current s) (as_metadata s) (as_metadataOmitted s) (as_fieldTruncated s) (as_haveField s) keep
    (as_seenContentType s) (as_seenTransferEncoding s) (as_seenContentID s) (as_seenDisposition s).

Definition blank_byte (c : ascii) : bool := ceq c " " || ceq c (chr 9).
Fixpoint drop_blanks (s : gostring) : gostring := match s with [] => [] | c :: rest => if blank_byte c then drop_blanks rest else s end.
Definition trimAttachedHeaderSpace (value : gostring) : gostring := rev (drop_blanks (rev (drop_blanks value))).

Section Attached.
Context {UT : UnicodeTables} {HD : HeaderDecoder}.

Definition classifyAttachedHeader (name : gostring) : attachedHeader :=
  if (25 <? length name)%nat then attachedHeaderIgnored
  else if equalFold name (lit "Content-Type") then attachedHeaderContentType
  else if equalFold name (lit "Content-Transfer-Encoding") then attachedHeaderTransferEncoding
  else if equalFold name (lit "Content-ID") then attachedHeaderContentID
  else if equalFold name (lit "Content-Disposition") then attachedHeaderDisposition
  else if equalFold name (lit "From") then attachedHeaderFrom
  else if equalFold name (lit "To") then attachedHeaderTo
  else if equalFold name (lit "Cc") then attachedHeaderCc
  else if equalFold name (lit "Date") then attachedHeaderDate
  else if equalFold name (lit "Subject") then attachedHeaderSubject
  else attachedHeaderIgnored.

Definition room (s : attached_state) : bool := (length (as_metadata s) + maxAttachmentFieldBytes * 2 <=? maxAttachmentMetadataBytes)%nat.

Definition writeValue (part : gostring) (s : attached_state) : attached_state :=
  let left_over := (maxAttachmentFieldBytes - length (as_value s))%nat in
  if is_metadata (as_current s) && (Z.of_nat maxAttachmentFieldBytes - go_len (as_value s) <? go_len part)
  then set_value (as_value s ++ take left_over part) true s
  else set_value (as_value s ++ part) (as_fieldTruncated s) s.

Definition commit (s : attached_state) : attached_state :=
  if negb (as_keepField s) then s
  else
    let m := as_message s in
    let v := as_value s in
    set_keep false
      (match as_current s with
       | attachedHeaderContentType => set_message (MkAttached v (am_transferEncoding m) (am_contentID m) (am_disposition m) (am_body m) (am_headers m)) s
       | attachedHeaderTransferEncoding => set_message (MkAttached (am_contentType m) v (am_contentID m) (am_disposition m) (am_body m) (am_headers m)) s
       | attachedHeaderContentID => set_message (MkAttached (am_contentType m) (am_transferEncoding m) v (am_disposition m) (am_body m) (am_headers m)) s
       | attachedHeaderDisposition => set_message (MkAttached (am_contentType m) (am_transferEncoding m) (am_contentID m) v (am_body m) (am_headers m)) s
       | h =>
           match metadata_name h with
           | None => s
           | Some name =>
               if negb (room s) then set_metadata (as_metadata s) true s
               else set_metadata (as_metadata s ++ name ++ lit ": " ++ attachmentMetadataValue v ++
                                  (if as_fieldTruncated s then truncated_note else []) ++ [LF]) (as_metadataOmitted s) s
           end
       end).

(** The start of a field: which one it is and whether its value is kept. *)
Definition start_field (omitContext : bool) (name : gostring) (s : attached_state) : attached_state :=
  let current := classifyAttachedHeader name in
  let '(keep, omitted) :=
    match current with
    | attachedHeaderContentType => (negb (as_seenContentType s), as_metadataOmitted s)
    | attachedHeaderTransferEncoding => (negb (as_seenTransferEncoding s), as_metadataOmitted s)
    | attachedHeaderContentID => (negb (as_seenContentID s), as_metadataOmitted s)
    | attachedHeaderDisposition => (negb (as_seenDisposition s), as_metadataOmitted s)
    | _ =>
        let keep := is_metadata current && negb omitContext && room s in
        (keep, as_metadataOmitted s || (is_metadata current && negb keep && negb omitContext))
    end in
  let seen h b := match current, h with
                  | attachedHeaderContentType, attachedHeaderContentType | attachedHeaderTransferEncoding, attachedHeaderTransferEncoding
                  | attachedHeaderContentID, attachedHeaderContentID | attachedHeaderDisposition, attachedHeaderDisposition => true
                  | _, _ => b
                  end in
  MkAttState (as_message s) (as_value s) current (as_metadata s) omitted (as_fieldTruncated s) true keep
    (seen attachedHeaderContentType (as_seenContentType s)) (seen attachedHeaderTransferEncoding (as_seenTransferEncoding s))
    (seen attachedHeaderContentID (as_seenContentID s)) (seen attachedHeaderDisposition (as_seenDisposition s)).

Definition finish_attached (body : gostring) (s : attached_state) : attachedMessage :=
  let headers := as_metadata s ++ (if as_metadataOmitted s then lit "[additional attachment metadata omitted]" ++ [LF] else []) in
  let m := as_message s in
  MkAttached (am_contentType m) (am_transferEncoding m) (am_contentID m) (am_disposition m) body headers.

(** One line that is not empty. *)
Definition header_line (omitContext : bool) (line : gostring) (s : attached_state) : option attached_state :=
  match line with
  | c :: _ =>
      if blank_byte c then
        if negb (as_haveField s) then None
        else if negb (as_keepField s) then Some s
        else
          match trimAttachedHeaderSpace line with
          | [] => Some s
          | continuation =>
              let s := if negb (beq (as_value s) []) && (negb (is_metadata (as_current s)) || (length (as_value s) <? maxAttachmentFieldBytes)%nat)
                       then set_value (as_value s ++ lit " ") (as_fieldTruncated s) s else s in
              Some (writeValue continuation s)
          end
      else
        let s := commit s in
        match cut ":" line with
        | None => None
        | Some (name, rest) =>
            let s := start_field omitContext name s in
            Some (if as_keepField s then writeValue (trimAttachedHeaderSpace rest) (set_value [] false s) else s)
        end
  | [] => Some s
  end.

Definition strip_cr (line : gostring) : gostring := trimSuffix line [CR].

(** The lines of the header; [offset] is where the rest of the data starts.  Each
    turn consumes a line. *)
Fixpoint header_lines (fuel : nat) (omitContext : bool) (offset : Z) (data : gostring) (s : attached_state) : option attachedMessage :=
  match fuel with
  | O => None
  | S fuel =>
      match cut LF data with
      | None =>
          if maxAttachedMessageHeaderBytes <? offset + go_len data then None
          else
            match strip_cr data with
            | [] => if negb (as_haveField s) then None else Some (finish_attached [] (commit s))
            | line => (finish_attached [] ∘ commit) <$> header_line omitContext line s
            end
      | Some (line, rest) =>
          if maxAttachedMessageHeaderBytes <=? offset + go_len line then None
          else
            match strip_cr line with
            | [] => Some (finish_attached rest (commit s))
            | line' =>
                match header_line omitContext line' s with
                | None => None
                | Some s => header_lines fuel omitContext (offset + go_len line + 1) rest s
                end
            end
      end
  end.
Definition parseAttachedMessage (omitContext : bool) (data : gostring) : option attachedMessage :=
  header_lines (S (length data)) omitContext 0 data attached_start.
End Attached.

(** ** The first boundary *)

Definition multipartBoundaryLine (line boundary : gostring) : bool :=
  if negb (hasPrefix line (lit "--" ++ boundary)) then false
  else
    let rest := drop (length boundary + 2) line in
    let final := hasPrefix rest (lit "--") in
    let rest := if final then drop 2 rest else rest in
    match drop_blanks rest with
    | [] => final
    | c :: tail => ceq c LF || (ceq c CR && match tail with d :: _ => ceq d LF | [] => false end)
    end.
Fixpoint boundary_go (lineStart : bool) (source boundary : gostring) : option gostring :=
  match source with
  | [] => None
  | c :: rest => if lineStart && multipartBoundaryLine source boundary then Some source else boundary_go (ceq c LF) rest boundary
  end.
Definition multipartBodyFromFirstBoundary (source boundary : gostring) : gostring :=
  match boundary_go true source boundary with Some suffix => suffix | None => source end.
