(* ===== verification/AttachedTextSpec.v ===== *)
(** * Properties of attachments in the prompt

    The offsets of generated tags stay true through wrapping and joining, a cut
    body never has half a tag, and the metadata of an attached message cannot
    contain markup or break out of its lines. *)
From S2P Require Import Prelude GoText Runes Thinking Message PromptUrl AttachedText.

(** ** Spans *)

Definition slice (text : gostring) (from upto : nat) : gostring := take (upto - from) (drop from text).

(** A span marks generated text: an opening that begins with the tag, and a closing. *)
Record span_ok (text : gostring) (s : attachmentSpan) : Prop := {
  so_order : (sp_Start s + length (sp_Tag s) + 3 <= sp_BodyStart s)%nat /\ (sp_BodyStart s <= sp_CloseStart s)%nat;
  so_close : (sp_CloseStart s + length (attachmentSuffix (sp_Tag s)) = sp_End s)%nat /\ (sp_End s <= length text)%nat;
  so_opening : exists metadata, slice text (sp_Start s) (sp_BodyStart s) = lit "<" ++ sp_Tag s ++ lit ">" ++ [LF] ++ metadata;
  so_closing : slice text (sp_CloseStart s) (sp_End s) = attachmentSuffix (sp_Tag s) }.

(** A later span is inside the body of an earlier one, or after it. *)
Definition laminar (s t : attachmentSpan) : Prop := ((sp_BodyStart s <= sp_Start t)%nat /\ (sp_End t <= sp_CloseStart s)%nat) \/ (sp_End s <= sp_Start t)%nat.
Record spans_ok (text : gostring) (spans : list attachmentSpan) : Prop := {
  spans_each : Forall (span_ok text) spans;
  spans_nested : ForallOrdPairs laminar spans }.

Lemma spans_nil text : spans_ok text [].
Proof. split; constructor. Qed.

Lemma slice_shift p text a b : slice (p ++ text) (a + length p) (b + length p) = slice text a b.
Proof.
  unfold slice. replace (b + length p - (a + length p))%nat with (b - a)%nat by lia. f_equal. rewrite drop_app_ge by lia. f_equal. lia.
Qed.
Lemma slice_app_l text q a b : (b <= length text)%nat -> slice (text ++ q) a b = slice text a b.
Proof.
  intros Hb. unfold slice. destruct (decide (a <= length text)%nat); [rewrite drop_app_le by done|].
  - rewrite take_app_le; [done|]. rewrite length_drop. lia.
  - replace (b - a)%nat with 0%nat by lia. by rewrite !take_0.
Qed.

Lemma span_shift p text q s : span_ok text s -> span_ok (p ++ text ++ q) (shift_span (length p) s).
Proof.
  intros [[H1 H2] [H3 H4] [m Hm] Hc]. split; cbn [shift_span sp_Start sp_BodyStart sp_CloseStart sp_End sp_Tag].
  - lia.
  - rewrite !length_app. lia.
  - exists m. by rewrite slice_shift, slice_app_l by lia.
  - by rewrite slice_shift, slice_app_l by lia.
Qed.
Lemma laminar_shift n s t : laminar s t -> laminar (shift_span n s) (shift_span n t).
Proof. unfold laminar. cbn. lia. Qed.
Lemma pairs_shift n l : ForallOrdPairs laminar l -> ForallOrdPairs laminar (shift_span n <$> l).
Proof.
  induction 1 as [|s l Hs _ IH]; [constructor|]. cbn [fmap list_fmap]. constructor; [|done]. apply Forall_forall. intros t Ht. apply list_elem_of_fmap in Ht as (u & -> & Hu).
  apply laminar_shift. rewrite Forall_forall in Hs. by apply Hs.
Qed.
Lemma pairs_app l1 l2 : ForallOrdPairs laminar l1 -> ForallOrdPairs laminar l2 -> (forall s t, s ∈ l1 -> t ∈ l2 -> laminar s t) -> ForallOrdPairs laminar (l1 ++ l2).
Proof.
  intros H1 H2 H12. induction H1 as [|s l Hs _ IH]; [done|]. cbn [app]. constructor; [|apply IH; intros; apply H12; [by right|done]].
  apply Forall_forall. intros t [Ht|Ht]%elem_of_app; [rewrite Forall_forall in Hs; by apply Hs|apply H12; [by left|done]].
Qed.
Lemma spans_shift p text q l : spans_ok text l -> spans_ok (p ++ text ++ q) (shift_span (length p) <$> l).
Proof.
  intros [He Hn]. split; [|by apply pairs_shift]. apply Forall_fmap. eapply Forall_impl; [exact He|]. intros s Hs. by apply span_shift.
Qed.

(** Joining two texts. *)
Lemma spans_join a sep b sa sb : spans_ok a sa -> spans_ok b sb -> spans_ok (a ++ sep ++ b) (appendAttachmentSpans sa sb (length (a ++ sep))).
Proof.
  intros Ha Hb. unfold appendAttachmentSpans. pose proof (spans_shift (a ++ sep) b [] sb Hb) as Hs. rewrite app_nil_r, <- app_assoc in Hs.
  pose proof (spans_shift [] a (sep ++ b) sa Ha) as Hp. cbn [app length] in Hp. destruct Hs as [He Hn], Hp as [He' Hn'].
  assert (Hid : shift_span 0 <$> sa = sa) by (rewrite <- (list_fmap_id sa) at 2; apply list_fmap_ext; intros ? [] _; unfold shift_span; cbn; by rewrite !Nat.add_0_r).
  rewrite Hid in *. split; [by apply Forall_app|]. apply pairs_app; [done..|]. intros s t Hs Ht. apply list_elem_of_fmap in Ht as (u & -> & Hu). right.
  destruct Ha as [Ha _]. rewrite Forall_forall in Ha. destruct (so_close _ _ (Ha s Hs)) as [_ Hle]. cbn. rewrite length_app. lia.
Qed.

(** Wrapping a text. *)
Section Wrapping.
Context {UT : UnicodeTables} {HD : HeaderDecoder}.

Lemma wrap_text_ok tag prefix text spans metadata : prefix = lit "<" ++ tag ++ lit ">" ++ [LF] ++ metadata -> spans_ok text spans ->
  let '(result, spans') := wrap_text tag prefix text spans in spans_ok result spans'.
Proof.
  intros Hp Hs. unfold wrap_text. set (result := prefix ++ text ++ attachmentSuffix tag). unfold appendAttachmentSpans.
  pose proof (spans_shift prefix text (attachmentSuffix tag) spans Hs) as [He Hn]. fold result in He.
  assert (Hlen : length result = (length prefix + length text + length (attachmentSuffix tag))%nat) by (unfold result; rewrite !length_app; lia).
  split.
  - cbn [app]. constructor; [|done]. split; cbn [sp_Start sp_BodyStart sp_CloseStart sp_End sp_Tag].
    + split; [|lia]. rewrite Hp, !length_app. cbn. lia.
    + lia.
    + exists metadata. unfold slice, result. rewrite drop_0, Nat.sub_0_r, take_app_length. exact Hp.
    + unfold slice. rewrite Hlen. unfold result. rewrite app_assoc, drop_app_length' by (rewrite length_app; lia). apply take_ge. lia.
  - cbn [app]. constructor; [|done]. apply Forall_forall. intros t Ht. apply list_elem_of_fmap in Ht as (u & -> & Hu). left.
    destruct Hs as [Hs _]. rewrite Forall_forall in Hs. destruct (so_close _ _ (Hs u Hu)) as [_ Hle]. cbn. lia.
Qed.

Lemma attachmentPrefix_opening tag filename mediaType headers : exists metadata, attachmentPrefix tag filename mediaType headers = lit "<" ++ tag ++ lit ">" ++ [LF] ++ metadata.
Proof. by eexists. Qed.

Lemma incomplete_ok tag : spans_ok (incomplete_marker tag) (incomplete_spans tag).
Proof.
  assert (Hw : wrap_text tag (lit "<" ++ tag ++ lit ">" ++ [LF]) (lit "[attachment extraction incomplete]") [] = (incomplete_marker tag, incomplete_spans tag)).
  { unfold wrap_text, incomplete_marker, incomplete_spans, appendAttachmentSpans. cbn [fmap list_fmap app]. rewrite <- !app_assoc. f_equal. f_equal.
    assert (Hl : length (lit "<" ++ tag ++ lit ">" ++ [LF]) = (length tag + 3)%nat) by (rewrite !length_app; cbn; lia). rewrite Hl. reflexivity. }
  pose proof (wrap_text_ok tag (lit "<" ++ tag ++ lit ">" ++ [LF]) (lit "[attachment extraction incomplete]") [] [] ltac:(by rewrite ?app_nil_r) (spans_nil _)) as H.
  by rewrite Hw in H.
Qed.
End Wrapping.

(** ** Cutting a body *)

(** A position that is not inside generated markup. *)
Definition clear_of (cut : nat) (s : attachmentSpan) : Prop :=
  (cut <= sp_Start s)%nat \/ (sp_BodyStart s <= cut <= sp_CloseStart s)%nat \/ (sp_End s <= cut)%nat.

Definition settle_one (cut : nat) (s : attachmentSpan) : nat :=
  let cut := if (sp_Start s <? cut)%nat && (cut <? sp_BodyStart s)%nat then sp_Start s else cut in
  if (sp_CloseStart s <=? cut)%nat && (cut <? sp_End s)%nat then sp_CloseStart s else cut.

Lemma settle_one_spec text cut s : span_ok text s -> clear_of (settle_one cut s) s /\ (settle_one cut s <= cut)%nat /\
  (settle_one cut s = cut \/ settle_one cut s = sp_Start s /\ (sp_Start s < cut < sp_End s)%nat \/ settle_one cut s = sp_CloseStart s /\ (sp_Start s < cut < sp_End s)%nat).
Proof.
  intros [[H1 H2] [H3 H4] _ _]. unfold settle_one, clear_of.
  destruct (Nat.ltb_spec (sp_Start s) cut), (Nat.ltb_spec cut (sp_BodyStart s)); cbn [andb];
    repeat match goal with |- context [(?a <=? ?b)%nat] => destruct (Nat.leb_spec a b) | |- context [(?a <? ?b)%nat] => destruct (Nat.ltb_spec a b) end; cbn [andb];
    try lia; cbn in *; lia.
Qed.

(** Moving a cut out of a later span does not move it into an earlier one. *)
Lemma settle_keeps_clear text cut s t : span_ok text s -> span_ok text t -> laminar s t -> clear_of cut s -> clear_of (settle_one cut t) s.
Proof.
  intros [[H1 H2] [H3 H4] _ _] Ht Hl Hc. destruct (settle_one_spec text cut t Ht) as (_ & _ & Hm). destruct Ht as [[H5 H6] [H7 H8] _ _].
  unfold laminar, clear_of in *. destruct Hm as [-> |[[-> ?]|[-> ?]]]; lia.
Qed.

Lemma settle_cut_clear text spans : forall cut, spans_ok text spans -> Forall (clear_of (settle_cut spans cut)) spans /\ (settle_cut spans cut <= cut)%nat.
Proof.
  induction spans as [|s spans IH] using rev_ind; intros cut [He Hn]; [split; [constructor|done]|].
  apply Forall_app in He as [He Hs]. inversion_clear Hs as [|? ? Hs' _]. assert (Hn' : ForallOrdPairs laminar spans /\ forall t, t ∈ spans -> laminar t s).
  { clear -Hn. induction spans as [|t spans IH]; [split; [constructor|by intros ? ?%elem_of_nil]|]. cbn [app] in Hn. inversion_clear Hn as [|? ? Ht Hr]. destruct (IH Hr) as [H1 H2].
    apply Forall_app in Ht as [Ht Hs]. inversion_clear Hs. split; [by constructor|]. intros u [-> |Hu]%elem_of_cons; auto. }
  destruct Hn' as [Hn1 Hn2]. destruct (IH cut) as [Hc Hle]; [by split|].
  assert (Hsnoc : settle_cut (spans ++ [s]) cut = settle_one (settle_cut spans cut) s) by (unfold settle_cut; by rewrite fold_left_app).
  rewrite Hsnoc. set (c := settle_cut spans cut) in *.
  destruct (settle_one_spec text c s Hs') as (H1 & H2 & _). split; [|lia]. apply Forall_app. split; [|constructor; [exact H1|constructor]].
  rewrite Forall_forall in *. intros t Ht. eapply settle_keeps_clear; eauto.
Qed.

Lemma runeCount_app a b : (runeCount (a ++ b) <= runeCount a + runeCount b)%nat.
Proof.
  pose proof (pieces_count ((rc_bytes <$> rune_chunks a) ++ (rc_bytes <$> rune_chunks b)) ltac:(apply Forall_app; split; apply chunks_pieces)) as Hp.
  rewrite concat_app, length_app, !length_fmap in Hp. fold (flatten_runes (rune_chunks a)) in Hp. fold (flatten_runes (rune_chunks b)) in Hp.
  by rewrite !rune_chunks_flatten in Hp.
Qed.

Lemma runeByteOffset_le body n : (runeByteOffset body n <= length body)%nat.
Proof.
  unfold runeByteOffset. case_match; [|lia]. rewrite <- (rune_chunks_flatten body) at 2. clear H. generalize (rune_chunks body). intros l. revert n.
  induction l as [|k l IH]; intros [|n]; cbn [take]; rewrite ?flatten_cons, ?length_app; try (cbn; lia). pose proof (IH n). unfold flatten_runes in *. lia.
Qed.

(** What a cut body looks like. *)
Definition sampled (body : gostring) (maxChars : nat) (spans : list attachmentSpan) (result : gostring) : Prop :=
  exists cut, (cut <= length body)%nat /\ Forall (clear_of cut) spans /\ result = take cut body ++ truncation_notice ++ closing_tags spans cut /\
    (runeCount result <= maxChars)%nat.

Lemma sample_go_spec body maxChars spans : spans_ok body spans ->
  forall fuel allowance, (allowance <= fuel)%nat -> (allowance <= runeCount body)%nat ->
  sampled body maxChars spans (sample_go fuel body maxChars spans allowance) \/ sample_go fuel body maxChars spans allowance = truncation_notice.
Proof.
  intros Hs. induction fuel as [|fuel IH]; intros allowance Hf Hr; cbn [sample_go]; [replace allowance with 0%nat by lia; rewrite orb_true_r; by right|].
  destruct (Nat.eqb_spec allowance 0); [rewrite orb_true_r; by right|]. rewrite orb_false_r.
  destruct (settle_cut_clear body spans (runeByteOffset body allowance) Hs) as [Hc Hle].
  set (c := settle_cut spans (runeByteOffset body allowance)) in *.
  destruct (Nat.leb_spec (runeCount (take c body) + runeCount (truncation_notice ++ closing_tags spans c)) maxChars).
  - left. exists c. split_and!; [|done|done|].
    + pose proof (runeByteOffset_le body allowance). lia.
    + pose proof (runeCount_app (take c body) (truncation_notice ++ closing_tags spans c)). lia.
  - apply IH; lia.
Qed.

(** ** Metadata *)

(** No control characters and no angle brackets. *)
Definition plain_metadata (s : gostring) : Prop := Forall (λ c, ceq c "<" = false /\ ceq c ">" = false /\ (32 <= code c)) s.

Lemma encode_printable r : 32 <= r -> Forall (λ c, 32 <= code c) (encode_rune r).
Proof.
  intros Hr. unfold encode_rune.
  pose proof (Z.mod_pos_bound r 64 ltac:(lia)). pose proof (Z.mod_pos_bound (r / 64) 64 ltac:(lia)). pose proof (Z.mod_pos_bound (r / 4096) 64 ltac:(lia)).
  repeat case_match; repeat (constructor; [rewrite code_chr; Z.div_mod_to_equations; lia|]); constructor.
Qed.
Lemma encode_plain r : unicode_is_control r = false -> 0 <= r -> Forall (λ c, 32 <= code c) (encode_rune r).
Proof. unfold unicode_is_control. intros Hc Hr. apply encode_printable. lia. Qed.
Lemma mapped_plain s : Forall (λ c, 32 <= code c) (map_runes (λ r, Some (if unicode_is_control r then 32 else r)) s).
Proof.
  unfold map_runes. apply Forall_concat, Forall_fmap, Forall_forall. intros r Hr. cbn. destruct (unicode_is_control r) eqn:E; [by repeat constructor|].
  apply encode_plain; [done|]. pose proof (runes_valid s) as Hv. rewrite Forall_forall in Hv. specialize (Hv r Hr). unfold valid_rune in Hv. lia.
Qed.

Section Metadata.
Context {UT : UnicodeTables} {HD : HeaderDecoder}.

Lemma metadata_value_plain v : plain_metadata (attachmentMetadataValue v).
Proof.
  unfold attachmentMetadataValue. set (v1 := map_runes _ _). assert (H1 : Forall (λ c, 32 <= code c) v1) by apply mapped_plain.
  set (v2 := replaceAll (replaceAll v1 (lit "<") (lit "&lt;")) (lit ">") (lit "&gt;")).
  assert (H2 : plain_metadata v2).
  { apply Forall_forall. intros c Hc. rewrite Forall_forall in H1. apply elem_replace_char in Hc as [[Hc Hne]|Hc].
    - apply elem_replace_char in Hc as [[Hc Hne']|Hc]; [split_and!; [by apply ceq_false|by apply ceq_false|by apply H1]|].
      unfold lit in Hc. cbn in Hc. repeat (apply elem_of_cons in Hc as [-> |Hc]; [by vm_compute|]). by apply elem_of_nil in Hc.
    - unfold lit in Hc. cbn in Hc. repeat (apply elem_of_cons in Hc as [-> |Hc]; [by vm_compute|]). by apply elem_of_nil in Hc. }
  assert (Ht : plain_metadata truncated_note) by (unfold plain_metadata, truncated_note; repeat (constructor; [by vm_compute|]); constructor).
  assert (H3 : forall b : bool, plain_metadata (if b then take (back_to_start v2 maxAttachmentFieldBytes) v2 else v2)) by (intros []; [by apply Forall_take|done]).
  match goal with |- context [if ?b then _ ++ truncated_note else _] => destruct b end; [apply Forall_app; split; [apply H3|done]|apply H3].
Qed.
Lemma metadata_value_length v : (length (attachmentMetadataValue v) <= maxAttachmentFieldBytes + length truncated_note)%nat.
Proof.
  unfold attachmentMetadataValue. set (v2 := replaceAll _ _ _). assert (Hl : (length (if (maxAttachmentFieldBytes <? length v2)%nat then take (back_to_start v2 maxAttachmentFieldBytes) v2 else v2) <= maxAttachmentFieldBytes)%nat).
  { destruct (Nat.ltb_spec maxAttachmentFieldBytes (length v2)); [|lia]. rewrite length_take. pose proof (back_to_start_le v2 maxAttachmentFieldBytes). lia. }
  match goal with |- context [if ?b then _ ++ truncated_note else _] => destruct b end; [rewrite length_app|]; lia.
Qed.
End Metadata.

(** ** Attached messages *)

Definition metadata_names : list gostring := [lit "From"; lit "To"; lit "Cc"; lit "Date"; lit "Subject"].
Definition metadata_line (e : gostring * gostring) : gostring := e.1 ++ lit ": " ++ e.2 ++ [LF].
Definition line_ok (e : gostring * gostring) : Prop := e.1 ∈ metadata_names /\ plain_metadata e.2.
(** The metadata collected so far are lines, and bounded. *)
Definition metadata_ok (s : attached_state) : Prop :=
  (exists lines, as_metadata s = concat (metadata_line <$> lines) /\ Forall line_ok lines) /\ (length (as_metadata s) <= maxAttachmentMetadataBytes)%nat.

Section Attached.
Context {UT : UnicodeTables} {HD : HeaderDecoder}.

Lemma metadata_name_in h name : metadata_name h = Some name -> name ∈ metadata_names /\ (length name <= 7)%nat.
Proof. unfold metadata_names. destruct h; intros [= <-]; (split; [set_solver|cbn; lia]). Qed.

Lemma same_metadata s s' : as_metadata s' = as_metadata s -> metadata_ok s -> metadata_ok s'.
Proof. unfold metadata_ok. by intros ->. Qed.

Lemma commit_metadata s : metadata_ok s -> metadata_ok (commit s).
Proof.
  intros Hs. unfold commit. destruct (as_keepField s); cbn [negb]; [|done].
  assert (Hmeta : forall h name, as_current s = h -> metadata_name h = Some name -> metadata_ok (set_keep false
    (if negb (room s) then set_metadata (as_metadata s) true s
     else set_metadata (as_metadata s ++ name ++ lit ": " ++ attachmentMetadataValue (as_value s) ++ (if as_fieldTruncated s then truncated_note else []) ++ [LF]) (as_metadataOmitted s) s))).
  { intros h name _ Hn. destruct (metadata_name_in h name Hn) as [Hin Hlen]. destruct (room s) eqn:Er; cbn [negb]; [|by apply (same_metadata s)].
    destruct Hs as [(lines & Hl & Hf) Hb]. set (v := attachmentMetadataValue (as_value s) ++ (if as_fieldTruncated s then truncated_note else [])).
    split; cbn [as_metadata set_keep set_metadata].
    - exists (lines ++ [(name, v)]). split.
      + rewrite fmap_app, concat_app, <- Hl. cbn [fmap list_fmap concat]. unfold metadata_line, v. cbn [fst snd]. by rewrite app_nil_r, <- !app_assoc.
      + apply Forall_app. split; [done|]. constructor; [|done]. split; [done|]. cbn. unfold v. apply Forall_app. split; [apply metadata_value_plain|].
        case_match; [|constructor]. unfold truncated_note. repeat (constructor; [by vm_compute|]). constructor.
    - unfold room in Er. apply Nat.leb_le in Er. pose proof (metadata_value_length (as_value s)) as Hv. rewrite !length_app.
      assert (length truncated_note = 21%nat) as Ht by reflexivity. rewrite Ht in Hv. unfold maxAttachmentFieldBytes, maxAttachmentMetadataBytes in *.
      assert (length (if as_fieldTruncated s then truncated_note else []) <= 21)%nat by (case_match; [by rewrite Ht|cbn; lia]). change (length (lit ": ")) with 2%nat. change (length [LF]) with 1%nat. lia. }
  destruct (as_current s) eqn:E; first [by apply (same_metadata s)|eapply Hmeta; [reflexivity|cbn; reflexivity]].
Qed.

Lemma writeValue_metadata part s : as_metadata (writeValue part s) = as_metadata s.
Proof. unfold writeValue. by case_match. Qed.
Lemma start_field_metadata b name s : as_metadata (start_field b name s) = as_metadata s.
Proof. unfold start_field. by destruct (classifyAttachedHeader name). Qed.

Lemma header_line_metadata b line s s' : metadata_ok s -> header_line b line s = Some s' -> metadata_ok s'.
Proof.
  intros Hs. unfold header_line. destruct line as [|c line]; [by intros [= <-]|]. destruct (blank_byte c).
  - destruct (negb (as_haveField s)); [done|]. destruct (negb (as_keepField s)); [by intros [= <-]|]. destruct (trimAttachedHeaderSpace (c :: line)); [by intros [= <-]|].
    intros [= <-]. eapply same_metadata; [apply writeValue_metadata|]. case_match; [by apply (same_metadata s)|done].
  - destruct (cut ":" (c :: line)) as [[name rest]|]; [|done]. intros [= <-]. pose proof (commit_metadata s Hs) as Hc.
    assert (Hf : metadata_ok (start_field b name (commit s))) by (eapply same_metadata; [apply start_field_metadata|done]).
    case_match; [|done]. eapply same_metadata; [apply writeValue_metadata|]. by apply (same_metadata (start_field b name (commit s))).
Qed.

(** With the context omitted no metadata is collected. *)
Definition no_context (s : attached_state) : Prop := as_metadata s = [] /\ as_metadataOmitted s = false /\ (as_keepField s = true -> is_metadata (as_current s) = false).
Lemma commit_no_context s : no_context s -> no_context (commit s).
Proof.
  intros (H1 & H2 & H3). unfold commit. destruct (as_keepField s) eqn:E; cbn [negb]; [|by repeat split; rewrite ?E].
  specialize (H3 eq_refl). destruct (as_current s); cbn in H3; try done; repeat split; done.
Qed.
Lemma start_field_no_context name s : no_context s -> no_context (start_field true name s).
Proof.
  intros (H1 & H2 & H3). unfold start_field. destruct (classifyAttachedHeader name); repeat split; cbn; try done; by rewrite ?H2, ?andb_false_r.
Qed.
Lemma writeValue_no_context part s : no_context s -> no_context (writeValue part s).
Proof. intros (H1 & H2 & H3). unfold writeValue. case_match; repeat split; done. Qed.
Lemma header_line_no_context line s s' : no_context s -> header_line true line s = Some s' -> no_context s'.
Proof.
  intros Hs. unfold header_line. destruct line as [|c line]; [by intros [= <-]|]. destruct (blank_byte c).
  - destruct (negb (as_haveField s)); [done|]. destruct (negb (as_keepField s)); [by intros [= <-]|]. destruct (trimAttachedHeaderSpace (c :: line)); [by intros [= <-]|].
    intros [= <-]. apply writeValue_no_context. case_match; [|done]. destruct Hs as (? & ? & ?). by repeat split.
  - destruct (cut ":" (c :: line)) as [[name rest]|]; [|done]. intros [= <-]. pose proof (start_field_no_context name _ (commit_no_context s Hs)) as Hf.
    case_match; [|done]. apply writeValue_no_context. destruct Hf as (? & ? & ?). by repeat split.
Qed.

(** The result of a parse. *)
Definition attached_ok (omitContext : bool) (data : gostring) (m : attachedMessage) : Prop :=
  (exists p, data = p ++ am_body m) /\
  (exists lines omitted, am_headers m = concat (metadata_line <$> lines) ++ omitted /\ Forall line_ok lines /\
     (omitted = [] \/ omitted = lit "[additional attachment metadata omitted]" ++ [LF])) /\
  (length (am_headers m) <= maxAttachmentMetadataBytes + 41)%nat /\
  (omitContext = true -> am_headers m = []).

Lemma finish_ok b data body s : (exists p, data = p ++ body) -> metadata_ok s -> (b = true -> no_context s) -> attached_ok b data (finish_attached body (commit s)).
Proof.
  intros Hp Hs Hn. destruct (commit_metadata s Hs) as [(lines & Hl & Hf) Hb]. unfold attached_ok, finish_attached. cbn [am_body am_headers]. split_and!.
  - done.
  - exists lines, (if as_metadataOmitted (commit s) then lit "[additional attachment metadata omitted]" ++ [LF] else []). rewrite Hl. split_and!; [done..|]. case_match; [by right|by left].
  - rewrite length_app. case_match; cbn; lia.
  - intros Hb'. destruct (commit_no_context s (Hn Hb')) as (-> & -> & _). done.
Qed.

Lemma header_lines_ok fuel b : forall offset data rest s m, (exists p, data = p ++ rest) -> metadata_ok s -> (b = true -> no_context s) ->
  header_lines fuel b offset rest s = Some m -> attached_ok b data m.
Proof.
  induction fuel as [|fuel IH]; intros offset data rest s m Hp Hs Hn; [done|]. cbn [header_lines]. destruct (cut LF rest) as [[line tail_]|] eqn:Ec.
  - apply cut_Some in Ec as [-> _]. assert (Hp' : exists p, data = p ++ tail_) by (destruct Hp as [p ->]; exists (p ++ line ++ [LF]); by rewrite <- !app_assoc).
    case_match; [done|]. destruct (strip_cr line) as [|c l']; [intros [= <-]; by apply finish_ok|].
    destruct (header_line b (c :: l') s) as [s'|] eqn:Eh; [|done]. apply IH; [done|by eapply header_line_metadata|].
    intros ->. eapply header_line_no_context; [by apply Hn|done].
  - assert (Hp' : exists p, data = p ++ []) by (exists data; by rewrite app_nil_r).
    case_match; [done|]. destruct (strip_cr rest) as [|c l'].
    + case_match; [done|]. intros [= <-]. by apply finish_ok.
    + destruct (header_line b (c :: l') s) as [s'|] eqn:Eh; [|done]. intros [= <-]. apply finish_ok; [done|by eapply header_line_metadata|].
      intros ->. eapply header_line_no_context; [by apply Hn|done].
Qed.
Lemma parse_attached_ok b data m : parseAttachedMessage b data = Some m -> attached_ok b data m.
Proof.
  apply header_lines_ok; [by exists []| |by repeat split]. split; [exists []; by split|cbn; lia].
Qed.
End Attached.

(** ** Boundaries *)

(** The body that is kept starts at the first line that is a boundary. *)
Lemma first_boundary source boundary : exists preamble, source = preamble ++ multipartBodyFromFirstBoundary source boundary /\
  (preamble = [] \/ exists c, last preamble = Some c /\ c = LF).
Proof.
  unfold multipartBodyFromFirstBoundary. assert (Hg : forall b s, match boundary_go b s boundary with
    | Some suffix => exists p, s = p ++ suffix /\ (p = [] /\ b = true \/ last p = Some LF) | None => True end).
  { intros b s. revert b. induction s as [|c s IH]; intros b; [done|]. cbn [boundary_go]. destruct (b && multipartBoundaryLine (c :: s) boundary) eqn:E.
    - apply andb_true_iff in E as [-> _]. exists []. split; [done|by left].
    - specialize (IH (ceq c LF)). destruct (boundary_go (ceq c LF) s boundary) as [suffix|]; [|done]. destruct IH as (p & -> & Hp). exists (c :: p). split; [done|]. right.
      destruct Hp as [[-> Hc]|Hp]; [apply ceq_true in Hc; by subst|]. by destruct p. }
  specialize (Hg true source). destruct (boundary_go true source boundary) as [suffix|]; [|exists []; split; [done|by left]].
  destruct Hg as (p & -> & Hp). exists p. split; [done|]. destruct Hp as [[-> _]|Hp]; [by left|right; by exists LF].
Qed.

(** ** Claims *)

(** an overlong body with attachments is cut without harming its structure.
    With true offsets the result is a prefix of the body, the notice, and the
    closing tags of exactly the attachments that were open, within the limit, and
    the cut never falls inside the opening or the closing of an attachment; when
    not even that fits, it is the notice alone. *)
Theorem cut_body_keeps_tags (body : gostring) (maxChars : nat) (spans : list attachmentSpan) :
  spans_ok body spans -> spans <> [] -> (maxChars < runeCount body)%nat ->
  let result := sampleAttachmentBody body maxChars spans in
  sampled body maxChars spans result \/ result = truncation_notice \/ (maxChars = 0%nat /\ result = []).
Proof.
  intros Hs Hne Hr. unfold sampleAttachmentBody. destruct spans as [|s spans]; [done|]. destruct (Nat.ltb_spec maxChars 1); [right; right; split; [lia|done]|].
  destruct (sample_go_spec body maxChars (s :: spans) Hs maxChars maxChars) as [H'|H']; [lia..|by left|by right; left].
Qed.

(** C19: the metadata shown for an attached message cannot imitate the structure
    of the prompt. When the headers of the message parse, its body is a suffix of
    the attachment; the metadata are lines of the five known names whose values
    have no line break, control character or angle bracket, perhaps followed by
    the note of an omission; they are bounded, and empty when the context is to be
    omitted. *)
Theorem attached_metadata_safe {UT : UnicodeTables} {HD : HeaderDecoder} (omitContext : bool) (data : gostring) (m : attachedMessage) :
  parseAttachedMessage omitContext data = Some m ->
  (exists p, data = p ++ am_body m) /\
  (exists lines omitted, am_headers m = concat (metadata_line <$> lines) ++ omitted /\ Forall line_ok lines /\
     (omitted = [] \/ omitted = lit "[additional attachment metadata omitted]" ++ [LF])) /\
  (length (am_headers m) <= maxAttachmentMetadataBytes + 41)%nat /\
  (omitContext = true -> am_headers m = []).
Proof. apply parse_attached_ok. Qed.

(** ** Witnesses *)

Definition sample_decoder : HeaderDecoder := {| word_decode := Some |}.
Definition sample_tag : gostring := lit "attached-email".
Definition sample_text : gostring := concat (repeat (lit "some text, and more text; ") 6).
Definition sample_body : gostring * list attachmentSpan := wrap_text sample_tag (lit "<" ++ sample_tag ++ lit ">" ++ [LF] ++ []) sample_text [].
Lemma cut_body_keeps_tags_witness :
  let result := sampleAttachmentBody sample_body.1 120 sample_body.2 in
  hasSuffix result (lit "</attached-email>") = true /\
  (sampled sample_body.1 120 sample_body.2 result \/ result = truncation_notice \/ (120 = 0 /\ result = [])%nat).
Proof.
  split; [by vm_compute|]. apply cut_body_keeps_tags; [|discriminate|by vm_compute; lia].
  apply (wrap_text_ok sample_tag _ sample_text [] []); [done|apply spans_nil].
Defined.

Definition sample_attached : gostring := lit "Subject: <invisible> news" ++ [LF] ++ lit "X-Other: 1" ++ [LF; LF] ++ lit "Hello".
Lemma attached_metadata_safe_witness :
  exists m, @parseAttachedMessage basic_tables sample_decoder false sample_attached = Some m /\ am_headers m = lit "Subject: &lt;invisible&gt; news" ++ [LF] /\
    (exists p, sample_attached = p ++ am_body m).
Proof.
  destruct (@parseAttachedMessage basic_tables sample_decoder false sample_attached) as [m|] eqn:E; [|by vm_compute in E].
  exists m. split; [done|]. split; [|exact (proj1 (attached_metadata_safe false sample_attached m E))]. vm_compute in E. injection E as <-. by vm_compute.
Defined.
