(* ===== verification/HtmlText.v ===== *)
(** * Text of an HTML page
    (html_tree.go and html_helpers.go of internal/message)

    What the extractor writes for a parsed page whose text and elements have
    been judged visible or not: the text with annotations, and the text a
    recipient sees; and the lexical fallback used when a page cannot be parsed.
    The parser and the judgement (internal/fork, internal/htmlextract) give the
    tree: a node carries its state, [None] where the code's maps have no entry.
    Checkpoints and the ledger only end a stage and are demands of [Extract]. *)
From Stdlib Require Import QArith.
From S2P Require Import Prelude GoText Runes Thinking Rdap PromptText PromptUrl.
#[local] Open Scope Z_scope.

(** ** The page *)

Inductive label := LabelVisible | LabelConcealed | LabelClientDependent | LabelUnknown.
Inductive concealment :=
  | ReasonDisplayNone | ReasonVisibilityHidden | ReasonVisibilityCollapse | ReasonOpacity | ReasonFontSize | ReasonColour | ReasonEmptyClip
  | ReasonContentVisibility | ReasonOther.
(** What the judgement keeps for a text or an element: its label and, when it is
    concealed, the primary reason, the opacity and the font size. *)
Record visibility := MkVisibility { vs_Label : label; vs_Primary : concealment; vs_EffectiveOpacity : Q; vs_FontSize : gostring }.

Inductive node_type := TextNode | CommentNode | ElementNode | DocumentNode | OtherNode.
Inductive node := Node (type : node_type) (data : gostring) (attr : list (gostring * gostring)) (state : option visibility) (children : list node).
Definition n_Type (n : node) := let '(Node t _ _ _ _) := n in t.
Definition n_Data (n : node) := let '(Node _ d _ _ _) := n in d.
Definition n_Attr (n : node) := let '(Node _ _ a _ _) := n in a.
Definition n_state (n : node) := let '(Node _ _ _ s _) := n in s.
Definition n_children (n : node) := let '(Node _ _ _ _ c) := n in c.

(** The parts of the Go library and of the forked HTML parser. *)
Class HtmlLibrary := {
  (** [strconv.FormatFloat(x, 'g', 6, 64)] *)
  format_g6 : Q -> gostring;
  (** [strconv.ParseFloat] *)
  parse_float : gostring -> option Q;
  (** [URL.String] of the parsed text, and of a reference resolved against a base *)
  url_string : gostring -> gostring;
  resolve_reference : gostring -> gostring -> gostring;
  (** [unicode.IsLetter] or [unicode.IsNumber] *)
  word_rune : Z -> bool;
  (** [xhtml.ParseFragmentWithOptions] *)
  parse_fragment : gostring -> option (list node) }.

(** ** Annotated output *)

Inductive annotation_kind := KindNone | KindConcealed | KindClientDependent | KindUnknown | KindStripped.
Record outputAnnotation := MkAnnotation { oa_kind : annotation_kind; oa_reason : gostring; oa_value : gostring }.
#[export] Instance annotation_kind_eq_dec : EqDecision annotation_kind.
Proof. solve_decision. Defined.
#[export] Instance outputAnnotation_eq_dec : EqDecision outputAnnotation.
Proof. solve_decision. Defined.
Definition plain : outputAnnotation := MkAnnotation KindNone [] [].

(** The chunks written so far: neighbours with the same annotation are one. *)
Definition annotatedOutput : Type := list (outputAnnotation * gostring).
Definition write (a : outputAnnotation) (value : gostring) (o : annotatedOutput) : annotatedOutput :=
  match value with
  | [] => o
  | _ =>
      match last o with
      | Some (a', text) => if bool_decide (a' = a) then removelast o ++ [(a, text ++ value)] else o ++ [(a, value)]
      | None => [(a, value)]
      end
  end.
Definition write_plain (value : gostring) (o : annotatedOutput) : annotatedOutput := write plain value o.
Definition plainText (o : annotatedOutput) : gostring := concat (snd <$> o).

Definition annotationWhitespaceOnly (value : gostring) : bool :=
  match value with [] => false | _ => forallb preheaderPaddingRune (runes value) end.

(** The annotation of the chunks that are not white space, when they agree. *)
Fixpoint uniform_go (found : option outputAnnotation) (o : annotatedOutput) : option outputAnnotation :=
  match o with
  | [] => found
  | (a, text) :: o =>
      if annotationWhitespaceOnly text then uniform_go found o
      else match found with
           | None => uniform_go (Some a) o
           | Some f => if bool_decide (a = f) then uniform_go found o else None
           end
  end.
Definition uniformAnnotation (o : annotatedOutput) : option outputAnnotation := uniform_go None o.

(** Rendering: the parts written, markup apart from text. *)
Inductive rendered := ROpen (a : outputAnnotation) | RClose (a : outputAnnotation) | RText (a : outputAnnotation) (s : gostring).
Definition open_tag (a : outputAnnotation) : gostring :=
  match oa_kind a with
  | KindConcealed => lit "<invisible reason=" ++ [chr 34] ++ oa_reason a ++ [chr 34] ++
      (if beq (oa_value a) [] then [] else lit " value=" ++ [chr 34] ++ oa_value a ++ [chr 34]) ++ lit ">"
  | KindClientDependent => lit "<visibility-varies-by-viewport-size>"
  | KindUnknown => lit "<visibility-uncertain>"
  | KindStripped => lit "<hidden-content-stripped/>"
  | KindNone => []
  end.
Definition close_tag (a : outputAnnotation) : gostring :=
  match oa_kind a with
  | KindConcealed => lit "</invisible>"
  | KindClientDependent => lit "</visibility-varies-by-viewport-size>"
  | KindUnknown => lit "</visibility-uncertain>"
  | _ => []
  end.
Definition rendered_text (r : rendered) : gostring := match r with ROpen a => open_tag a | RClose a => close_tag a | RText _ s => s end.

Record rendering := MkRendering { rd_out : list rendered; rd_pending : list rendered; rd_active : option outputAnnotation; rd_lastWasStripped : bool }.
Definition close_active (r : rendering) : list rendered := match rd_active r with Some a => [RClose a] | None => [] end.
Definition render_chunk (r : rendering) (chunk : outputAnnotation * gostring) : rendering :=
  let '(a, value) := chunk in
  if annotationWhitespaceOnly value then MkRendering (rd_out r) (rd_pending r ++ [RText a value]) (rd_active r) (rd_lastWasStripped r)
  else
    match oa_kind a with
    | KindStripped =>
        MkRendering (rd_out r ++ close_active r ++ rd_pending r ++ (if rd_lastWasStripped r then [] else [ROpen a])) [] None true
    | KindNone => MkRendering (rd_out r ++ close_active r ++ rd_pending r ++ [RText a value]) [] None false
    | _ =>
        if bool_decide (rd_active r = Some a) then MkRendering (rd_out r ++ rd_pending r ++ [RText a value]) [] (rd_active r) false
        else MkRendering (rd_out r ++ close_active r ++ rd_pending r ++ [ROpen a; RText a value]) [] (Some a) false
    end.
Definition render_chunks (o : annotatedOutput) : list rendered :=
  let r := fold_left render_chunk o (MkRendering [] [] None false) in
  rd_out r ++ close_active r ++ rd_pending r.
Definition renderAnnotations (o : annotatedOutput) : gostring := concat (rendered_text <$> render_chunks o).

(** ** Elements *)

Definition omittedHTMLElement (name : gostring) : bool :=
  bool_decide (name ∈ [lit "head"; lit "style"; lit "script"; lit "title"; lit "template"; lit "iframe"]).
Definition block_elements : list gostring :=
  lit <$> ["address"; "article"; "aside"; "blockquote"; "div"; "dl"; "dt"; "dd"; "fieldset"; "figcaption"; "figure"; "footer"; "form"; "h1"; "h2"; "h3"; "h4"; "h5"; "h6";
   "header"; "li"; "main"; "nav"; "ol"; "p"; "pre"; "section"; "table"; "tbody"; "thead"; "tfoot"; "tr"; "td"; "th"; "ul"]%string.
Definition isBlockElement (name : gostring) : bool := bool_decide (name ∈ block_elements).

(** [lastIndexASCIIFold]: the text before the last occurrence of the marker, in any letter case. *)
Fixpoint before_last_fold (marker value : gostring) : option gostring :=
  match value with
  | [] => None
  | c :: rest =>
      match before_last_fold marker rest with
      | Some before => Some (c :: before)
      | None => if fold_prefix value marker then Some [] else None
      end
  end.
Fixpoint after_first (marker value : gostring) : option (gostring * gostring) :=
  if hasPrefix value marker then Some ([], drop (length marker) value)
  else match value with
       | [] => None
       | c :: rest => match after_first marker rest with Some (before, after) => Some (c :: before, after) | None => None end
       end.

Section Html.
Context {UT : UnicodeTables} {UR : UrlText} {UD : UrlDetails} {HL : HtmlLibrary}.

Definition formatConcealmentReason (v : visibility) : gostring * gostring :=
  match vs_Primary v with
  | ReasonDisplayNone | ReasonOther => (lit "display:none", [])
  | ReasonVisibilityHidden => (lit "visibility:hidden", [])
  | ReasonVisibilityCollapse => (lit "visibility:collapse", [])
  | ReasonOpacity => (lit "opacity", format_g6 (vs_EffectiveOpacity v))
  | ReasonFontSize => (lit "font-size", vs_FontSize v)
  | ReasonColour => (lit "color-match", [])
  | ReasonEmptyClip => (lit "empty-clip", [])
  | ReasonContentVisibility => (lit "content-visibility:hidden", [])
  end.
Definition concealed_annotation (v : visibility) : outputAnnotation := let '(reason, value) := formatConcealmentReason v in MkAnnotation KindConcealed reason value.

Fixpoint attrPresent (attrs : list (gostring * gostring)) (key : gostring) : option gostring :=
  match attrs with [] => None | (k, v) :: attrs => if equalFold k key then Some v else attrPresent attrs key end.
Definition firstAttr (n : node) (key : gostring) : gostring := default [] (attrPresent (n_Attr n) key).
Definition name_of (n : node) : gostring := toLower (n_Data n).

Inductive mode := TagHidden | StripHidden.

(** The annotation of text with a state. *)
Definition state_annotation (m : mode) (v : visibility) : outputAnnotation :=
  match vs_Label v with
  | LabelConcealed => match m with StripHidden => MkAnnotation KindStripped [] [] | TagHidden => concealed_annotation v end
  | LabelClientDependent => MkAnnotation KindClientDependent [] []
  | LabelUnknown => MkAnnotation KindUnknown [] []
  | LabelVisible => plain
  end.
Definition is_concealed (v : visibility) : bool := match vs_Label v with LabelConcealed => true | _ => false end.

(** ** Destinations *)

Definition clean_rune (k : rune_chunk) : gostring := if bool_decide (rc_rune k ∈ [13; 10; 9; 0]) then [] else encode_rune (rc_rune k).
(** A text without the characters to remove and without invalid bytes is kept as it is. *)
Definition clean_destination (raw : gostring) : gostring := concat (clean_rune <$> rune_chunks raw).
Definition control_byte (c : ascii) : bool := (code c <? 32) || (code c =? 127).
Definition authority_end (raw : gostring) : nat :=
  match after_first (lit "://") raw with
  | None => 0%nat
  | Some (before, rest) => (length before + 3 + length (before_any (lit "/?#") rest))%nat
  end.
Definition destination_scheme (scheme : gostring) : bool := bool_decide (scheme ∈ [lit "http"; lit "https"; lit "mailto"; lit "tel"]).

Definition destination (base : option gostring) (raw : gostring) : option gostring :=
  let raw := trimSpace (clean_destination raw) in
  if existsb control_byte (take (authority_end raw) raw) then None
  else
    let raw := concat ((λ c, if control_byte c then percent c else [c]) <$> raw) in
    match raw with
    | [] => None
    | _ =>
        match urlParse raw with
        | None => None
        | Some u =>
            if isAbs u then
              let scheme := toLower (u_Scheme u) in
              if negb (destination_scheme scheme) then None
              else if (beq scheme (lit "http") || beq scheme (lit "https")) && beq (Hostname u) [] then None
              else Some (url_string raw)
            else match base with Some b => Some (resolve_reference b raw) | None => Some raw end
        end
    end.

Definition usable_base (raw : gostring) : option gostring :=
  match urlParse (trimSpace raw) with
  | Some u => if isAbs u && (beq (u_Scheme u) (lit "http") || beq (u_Scheme u) (lit "https")) then Some (trimSpace raw) else None
  | None => None
  end.
(** The first base element with an address decides, even when it is unusable: the
    outer option is whether one was seen. *)
Fixpoint findBase (n : node) : option (option gostring) :=
  let fix children (l : list node) : option (option gostring) :=
    match l with
    | [] => None
    | c :: l => match findBase c with Some found => Some found | None => children l end
    end in
  let '(Node type data attr _ kids) := n in
  match type with
  | ElementNode =>
      if equalFold data (lit "template") then None
      else if equalFold data (lit "base") then
        match attrPresent attr (lit "href") with Some raw => Some (usable_base raw) | None => children kids end
      else children kids
  | _ => children kids
  end.

(** ** State of a walk *)

Record walk_state := MkWalk { ws_links : linkCollector; ws_images : imageRefCollector; ws_incomplete : bool }.
(** Text inside the label of a link is rewritten without the collector. *)
Fixpoint rewrite_unlinked (fuel : nat) (compact : bool) (text : gostring) : gostring :=
  match fuel with
  | O => text
  | S fuel =>
      match nextHTTPPrefix text with
      | None => text
      | Some (before, at_) =>
          match trimPlainURLPunctuation (until_delimiter at_) with
          | [] => before ++ take 1 at_ ++ rewrite_unlinked fuel compact (drop 1 at_)
          | link => before ++ promptURLWithBudget link compact ++ rewrite_unlinked fuel compact (drop (length link) at_)
          end
      end
  end.
Definition rewriteWithout (compact : bool) (text : gostring) : gostring := rewrite_unlinked (length text) compact text.
Definition rewrite_linked (text : gostring) (s : walk_state) : gostring * walk_state :=
  let '(text, links) := rewritePlainTextURLs text (ws_links s) in (text, MkWalk links (ws_images s) (ws_incomplete s)).
Definition add_link (d : gostring) (s : walk_state) : gostring * walk_state :=
  let '(shown, links) := AddDestination d (ws_links s) in (shown, MkWalk links (ws_images s) (ws_incomplete s)).

(** Written so far: the annotated output and the visible text. *)
Record written := MkWritten { wr_out : annotatedOutput; wr_visible : gostring }.

(** ** Conditional comments *)

Definition conditionalHTMLComment (value : gostring) : bool := hasPrefix (toLower (trimSpace value)) (lit "[if ").
Definition maxConditionalFragmentBytes : Z := 65536.
Definition conditionalOmissionMarker : gostring := lit "[conditional Outlook content omitted: processing limit]".

Definition conditional_omitted (name : gostring) : bool := omittedHTMLElement name || beq name (lit "xml") || hasPrefix name (lit "o:").
Fixpoint walkConditionalNode (compact : bool) (base : option gostring) (anchor : nat) (n : node) (acc : gostring * linkCollector) : gostring * linkCollector :=
  let fix children (anchor : nat) (l : list node) (acc : gostring * linkCollector) : gostring * linkCollector :=
    match l with [] => acc | c :: l => children anchor l (walkConditionalNode compact base anchor c acc) end in
  let '(Node type data attr _ kids) := n in
  let '(out, links) := acc in
  match type with
  | TextNode =>
      let value := sanitizeSenderText data in
      match anchor with
      | O => let '(value, links) := rewritePlainTextURLs value links in (out ++ value, links)
      | _ => (out ++ rewriteWithout compact value, links)
      end
  | ElementNode | DocumentNode =>
      let name := toLower data in
      if conditional_omitted name then (out, links)
      else if match type with ElementNode => equalFold data (lit "a") | _ => false end then
        let '(text, links) := children (S anchor) kids ([], links) in
        match destination base (default [] (attrPresent attr (lit "href"))) with
        | Some d =>
            let '(d, links) := AddDestination d links in
            (out ++ lit "[" ++ escapeMarkdown (trimSpace text) false ++ lit "](" ++ escapeMarkdown d true ++ lit ")", links)
        | None => (out ++ text, links)
        end
      else
        let out := if isBlockElement name || equalFold data (lit "br") then out ++ [LF] else out in
        let '(out, links) := children anchor kids (out, links) in
        (if isBlockElement name then out ++ [LF] else out, links)
  | _ => (out, links)
  end.

Definition writeConditionalComment (base : option gostring) (data : gostring) (w : written) (s : walk_state) : written * walk_state :=
  let trimmed := trimSpace data in
  let omit := (MkWritten (write_plain (LF :: conditionalOmissionMarker ++ [LF]) (wr_out w)) (wr_visible w), MkWalk (ws_links s) (ws_images s) true) in
  if negb (conditionalHTMLComment trimmed) then (w, s)
  else
    match after_first (lit "]>") trimmed, before_last_fold (lit "<![endif]") trimmed with
    | Some (before, _), Some upto =>
        if (length upto <=? length before + 2)%nat then (w, s)
        else
          let raw := drop (length before + 2) upto in
          if maxConditionalFragmentBytes <? go_len raw then omit
          else
            match parse_fragment raw with
            | None => omit
            | Some fragment =>
                let '(content, links) := fold_left (λ acc n, walkConditionalNode (lc_compactURLs (ws_links s)) base 0 n acc) fragment
                                           ([], new_collector (lc_compactURLs (ws_links s))) in
                let value := normalizeHTMLText content in
                if beq value [] || annotationWhitespaceOnly value then (w, s)
                else (MkWritten (write (MkAnnotation KindUnknown [] []) value (wr_out w)) (wr_visible w ++ value),
                      MkWalk (add_destinations (lc_links links) (ws_links s)) (ws_images s) (ws_incomplete s))
            end
    | _, _ => (w, s)
    end.

(** ** Text *)

Definition style_display (declaration : gostring) : option bool :=
  match cut ":" declaration with
  | None => None
  | Some (property, value) =>
      if negb (equalFold (trimSpace property) (lit "display")) then None
      else
        let value := toLower (trimSpace (trimSuffix (trimSpace value) (lit "!important"))) in
        if bool_decide (value ∈ (lit <$> ["block"; "flow-root"; "flex"; "grid"; "list-item"; "table"; "table-row"; "table-cell"; "table-caption"]%string)) then Some true
        else if bool_decide (value ∈ (lit <$> ["inline"; "inline-block"; "inline-flex"; "inline-grid"; "contents"]%string)) then Some false
        else None
  end.
Definition inlineStyleUsesBlockLayout (n : node) : bool :=
  fold_left (λ block declaration, default block (style_display declaration)) (split ";" (firstAttr n (lit "style"))) false.
Definition inlineRenderedNode (n : option node) : bool :=
  match n with
  | None => false
  | Some n =>
      match n_Type n with
      | TextNode => negb (annotationWhitespaceOnly (n_Data n))
      | ElementNode =>
          let name := name_of n in
          negb (omittedHTMLElement name) && negb (isBlockElement name) && negb (beq name (lit "br")) && negb (beq name (lit "hr")) && negb (inlineStyleUsesBlockLayout n)
      | _ => false
      end
  end.

Fixpoint collapse_go (pendingSpace : bool) (l : list Z) : gostring :=
  match l with
  | [] => if pendingSpace then lit " " else []
  | r :: l =>
      if bool_decide (r ∈ [32; 9; 10; 12; 13]) then collapse_go true l
      else (if pendingSpace then lit " " else []) ++ encode_rune r ++ collapse_go false l
  end.
Definition collapseHTMLFormattingWhitespace (value : gostring) : gostring := collapse_go false (runes value).

(** Text that is only padding is spacing: [gap] is whether it stands between inline content. *)
Definition writeText (m : mode) (anchor : nat) (gap : bool) (data : gostring) (state : option visibility) (w : written) (s : walk_state) : written * walk_state :=
  let text := prepareVisibleText data in
  if beq text [] then (w, s)
  else
    match state with
    | None => (w, s)
    | Some v =>
        let '(outText, s) := match anchor with
                             | O => rewrite_linked text s
                             | _ => (escapeMarkdown (rewriteWithout (lc_compactURLs (ws_links s)) text) false, s)
                             end in
        if annotationWhitespaceOnly text then
          let spacing := if gap then collapseHTMLFormattingWhitespace outText else outText in
          (MkWritten (write_plain spacing (wr_out w)) (if is_concealed v then wr_visible w else wr_visible w ++ spacing), s)
        else (MkWritten (write (state_annotation m v) outText (wr_out w)) (if is_concealed v then wr_visible w else wr_visible w ++ text), s)
    end.

(** The label of a button. *)
Definition writeElementContent (m : mode) (state : option visibility) (content : gostring) (w : written) (s : walk_state) : written * walk_state :=
  if beq content [] then (w, s)
  else
    let '(promptContent, s) := rewrite_linked content s in
    match state with
    | None => (MkWritten (write_plain promptContent (wr_out w)) (wr_visible w ++ content), s)
    | Some v => (MkWritten (write (state_annotation m v) promptContent (wr_out w)) (if is_concealed v then wr_visible w else wr_visible w ++ content), s)
    end.

(** ** Images *)

Definition unit_dimension (n : node) (name : gostring) : bool :=
  match attrPresent (n_Attr n) name with
  | None => false
  | Some value =>
      match parse_float (trimSpace (trimSuffix (toLower value) (lit "px"))) with
      | Some x => negb (Qle_bool x 0) && Qle_bool x 1
      | None => false
      end
  end.
Definition explicitTrackingPixel (n : node) : bool :=
  beq (trimSpace (firstAttr n (lit "alt"))) [] && unit_dimension n (lit "width") && unit_dimension n (lit "height").

Definition writeImage (m : mode) (base : option gostring) (n : node) (w : written) (s : walk_state) : written * walk_state :=
  if explicitTrackingPixel n then (w, s)
  else
    let raw := trimSpace (firstAttr n (lit "src")) in
    let alt := rewriteWithout (lc_compactURLs (ws_links s)) (sanitizeSenderText (firstAttr n (lit "alt"))) in
    let '(found, s) :=
      if (4 <=? length raw)%nat && equalFold (take 4 raw) (lit "cid:") then
        let id := normalizeContentID (drop 4 raw) in
        if beq id [] then (None, s)
        else (Some (lit "cid:" ++ escapeMarkdown id true, if beq alt [] then lit "embedded image" else alt),
              MkWalk (ws_links s) (Add_ref id (ws_images s)) (ws_incomplete s))
      else
        match destination base raw with
        | Some resolved =>
            if hasPrefix resolved (lit "http://") || hasPrefix resolved (lit "https://") then
              let '(shown, s) := add_link resolved s in
              (Some (escapeMarkdown shown true, if beq alt [] then lit "image" else alt), s)
            else (None, s)
        | None => (None, s)
        end in
    match found with
    | Some ((_ :: _) as d, alt) =>
        let a := match n_state n with Some v => state_annotation m v | None => plain end in
        (MkWritten (write a (lit ") ") (write a d (write a (lit "](") (write a (escapeMarkdown alt false) (write a (lit " ![") (wr_out w)))))) (wr_visible w), s)
    | _ => (w, s)
    end.

(** ** The walk *)

Definition write_both (text : gostring) (w : written) : written := MkWritten (write_plain text (wr_out w)) (wr_visible w ++ text).
Definition write_link (label : annotatedOutput) (shown : gostring) (o : annotatedOutput) : annotatedOutput :=
  let plain_label := match trimSpace (plainText label) with [] => lit "link" | t => t end in
  match uniformAnnotation label with
  | Some a => write a (lit ")") (write a (escapeMarkdown shown true) (write a (lit "](") (write a plain_label (write a (lit "[") o))))
  | None => write_plain (lit ")") (write_plain (escapeMarkdown shown true) (write_plain (lit "](") (write_plain (trimSpace (renderAnnotations label)) (write_plain (lit "[") o))))
  end.
Definition quote_start (anchor : nat) : gostring := lit "<quoted-content>" ++ (match anchor with O => [LF] | _ => lit " " end).
Definition quote_end (anchor : nat) : gostring := (match anchor with O => [LF] | _ => lit " " end) ++ lit "</quoted-content>".

Fixpoint walk (m : mode) (base : option gostring) (anchor : nat) (prev next : option node) (n : node) (w : written) (s : walk_state) : written * walk_state :=
  let fix children (anchor : nat) (prev : option node) (l : list node) (w : written) (s : walk_state) : written * walk_state :=
    match l with
    | [] => (w, s)
    | c :: l => let '(w, s) := walk m base anchor prev (head l) c w s in children anchor (Some c) l w s
    end in
  let '(Node type data attr state kids) := n in
  match type with
  | TextNode => writeText m anchor (inlineRenderedNode prev && inlineRenderedNode next) data state w s
  | CommentNode => writeConditionalComment base data w s
  | OtherNode => (w, s)
  | ElementNode | DocumentNode =>
      let name := toLower data in
      if omittedHTMLElement name then (w, s)
      else if beq name (lit "img") then writeImage m base n w s
      else if beq name (lit "input") then
        if bool_decide (toLower (trimSpace (firstAttr n (lit "type"))) ∈ [lit "submit"; lit "button"; lit "reset"])
        then writeElementContent m state (sanitizeSenderText (firstAttr n (lit "value"))) w s
        else (w, s)
      else
        let w := if isBlockElement name || beq name (lit "br") || beq name (lit "hr") then write_both [LF] w else w in
        let w := if beq name (lit "blockquote")
                 then MkWritten (write_plain (quote_start anchor) (wr_out w)) (wr_visible w ++ quote_start 0) else w in
        if beq name (lit "a") then
          let '(label, s) := children (S anchor) None kids (MkWritten [] []) s in
          match destination base (firstAttr n (lit "href")) with
          | Some d =>
              let '(shown, s) := add_link d s in
              (MkWritten (write_link (wr_out label) shown (wr_out w)) (wr_visible w ++ wr_visible label), s)
          | None =>
              (MkWritten (fold_left (λ o c, write c.1 c.2 o) (wr_out label) (wr_out w)) (wr_visible w ++ wr_visible label), s)
          end
        else
          let '(w, s) := children anchor None kids w s in
          let w := if beq name (lit "blockquote")
                   then MkWritten (write_plain (quote_end anchor) (wr_out w)) (wr_visible w ++ quote_end 0) else w in
          (if isBlockElement name then write_both [LF] w else w, s)
  end.

(** ** The page as a whole *)

Record renderedHTML := MkRenderedHTML { rh_text : gostring; rh_visible : gostring; rh_hasConcealed : bool }.
Fixpoint nodes (n : node) : list node := let '(Node _ _ _ _ kids) := n in n :: concat (map nodes kids).
Definition hasConcealed (root : node) : bool :=
  existsb (λ n, match n_state n with
                | Some v => is_concealed v &&
                    match n_Type n with
                    | TextNode => negb (beq (trimSpace (n_Data n)) [])
                    | _ => beq (name_of n) (lit "img") || beq (name_of n) (lit "input")
                    end
                | None => false
                end) (nodes root).
Definition render (m : mode) (base : option gostring) (root : node) (s : walk_state) : renderedHTML * walk_state :=
  let '(w, s) := walk m base 0 None None root (MkWritten [] []) s in
  (MkRenderedHTML (normalizeHTMLText (renderAnnotations (wr_out w))) (normalizeHTMLText (wr_visible w)) (hasConcealed root), s).

Record htmlCommentStats := MkCommentStats { cs_Characters : nat; cs_WithinWords : nat }.
Definition add_stats (a b : htmlCommentStats) : htmlCommentStats := MkCommentStats (cs_Characters a + cs_Characters b) (cs_WithinWords a + cs_WithinWords b).
Definition last_rune (s : gostring) : Z := (decode_rune (drop (length s - last_width s) s)).1.
Definition commentBetweenWordFragments (prev next : option node) : bool :=
  match prev, next with
  | Some (Node TextNode before _ _ _), Some (Node TextNode after _ _ _) => word_rune (last_rune before) && word_rune (decode_rune after).1
  | _, _ => false
  end.
Fixpoint collectHTMLCommentStats (prev next : option node) (n : node) (stats : htmlCommentStats) : htmlCommentStats :=
  let fix children (prev : option node) (l : list node) (stats : htmlCommentStats) : htmlCommentStats :=
    match l with [] => stats | c :: l => children (Some c) l (collectHTMLCommentStats prev (head l) c stats) end in
  let '(Node type data _ _ kids) := n in
  match type with
  | CommentNode =>
      if negb (conditionalHTMLComment data)
      then add_stats stats (MkCommentStats (runeCount data) (if commentBetweenWordFragments prev next then 1 else 0))
      else children None kids stats
  | _ => children None kids stats
  end.

(** Characters of text that is certainly visible, over the texts in document order. *)
Definition confidentVisibleCharacters (root : node) : nat :=
  fold_left (λ count n,
    match n_Type n, n_state n with
    | TextNode, Some (MkVisibility LabelVisible _ _ _) =>
        let value := prepareVisibleText (n_Data n) in
        if beq value [] || annotationWhitespaceOnly value then count else (count + confidentPreparedTextCharacters value)%nat
    | _, _ => count
    end) (nodes root) 0%nat.

(** ** The lexical fallback *)

(** What [xhtml.Tokenizer] yields, each with the error state at the end. *)
Inductive token :=
  | StartTag (name : gostring) (attr : list (gostring * gostring))
  | EndTag (name : gostring)
  | TextToken (text : gostring)
  | OtherToken.

Definition fallbackTextBytes : Z := 1048576.
Definition fallbackHeadElement (name : gostring) : bool :=
  bool_decide (name ∈ (lit <$> ["html"; "head"; "base"; "basefont"; "bgsound"; "link"; "meta"; "noframes"; "noscript"; "script"; "style"; "template"; "title"]%string)).
Definition fallbackHTMLWhitespaceOnly (value : gostring) : bool := forallb annotationSpace value.

Definition fallbackDestination (base : option gostring) (raw : gostring) : option gostring :=
  match urlParse (trimSpace raw) with
  | None => None
  | Some u =>
      if beq (trimSpace raw) [] then None
      else if isAbs u then if destination_scheme (toLower (u_Scheme u)) then Some (url_string (trimSpace raw)) else None
      else match base with
           | Some b => Some (resolve_reference b (trimSpace raw))
           | None => Some (url_string (trimSpace raw))
           end
  end.

(** [fb_base] is [Some] once a base element was seen. *)
Record fallback_state := MkFallback {
  fb_text : gostring; fb_links : linkCollector; fb_images : imageRefCollector; fb_base : option (option gostring); fb_suppressed : list gostring; fb_complete : bool }.
Definition in_head (s : fallback_state) : bool := match fb_suppressed s with name :: _ => beq name (lit "head") | [] => false end.
Definition set_suppressed (l : list gostring) (s : fallback_state) : fallback_state := MkFallback (fb_text s) (fb_links s) (fb_images s) (fb_base s) l (fb_complete s).
Definition current_base (s : fallback_state) : option gostring := match fb_base s with Some b => b | None => None end.
Definition fallback_link (raw : gostring) (s : fallback_state) : fallback_state :=
  match fallbackDestination (current_base s) raw with
  | Some d => MkFallback (fb_text s) (AddDestination d (fb_links s)).2 (fb_images s) (fb_base s) (fb_suppressed s) (fb_complete s)
  | None => s
  end.

Definition start_element (name : gostring) (attr : list (gostring * gostring)) (s : fallback_state) : fallback_state :=
  if in_head s && beq name (lit "head") then s
  else
    let s := if in_head s && negb (fallbackHeadElement name) then set_suppressed (tail (fb_suppressed s)) s else s in
    if omittedHTMLElement name then set_suppressed (name :: fb_suppressed s) s
    else
      match fb_suppressed s with
      | _ :: _ => s
      | [] =>
          let key := if beq name (lit "base") || beq name (lit "a") then Some (lit "href") else if beq name (lit "img") then Some (lit "src") else None in
          match key ≫= attrPresent attr with
          | None => s
          | Some raw =>
              if beq name (lit "base") then
                match fb_base s with
                | Some _ => s
                | None => MkFallback (fb_text s) (fb_links s) (fb_images s) (Some (usable_base raw)) (fb_suppressed s) (fb_complete s)
                end
              else if beq name (lit "a") then fallback_link raw s
              else if (4 <=? length raw)%nat && equalFold (take 4 raw) (lit "cid:")
              then MkFallback (fb_text s) (fb_links s) (Add_ref (drop 4 raw) (fb_images s)) (fb_base s) (fb_suppressed s) (fb_complete s)
              else fallback_link raw s
          end
      end.
Definition text_token (value : gostring) (s : fallback_state) : fallback_state :=
  let s := if in_head s && negb (fallbackHTMLWhitespaceOnly value) then set_suppressed (tail (fb_suppressed s)) s else s in
  match fb_suppressed s with
  | _ :: _ => s
  | [] =>
      let remaining := fallbackTextBytes - go_len (fb_text s) in
      if remaining <=? go_len value
      then MkFallback (fb_text s ++ take (Z.to_nat remaining) value) (fb_links s) (fb_images s) (fb_base s) [] false
      else MkFallback (fb_text s ++ value ++ lit " ") (fb_links s) (fb_images s) (fb_base s) [] (fb_complete s)
  end.
Definition fallback_token (t : token) (s : fallback_state) : fallback_state :=
  match t with
  | StartTag name attr => start_element name attr s
  | EndTag name => match fb_suppressed s with top :: rest => if beq top name then set_suppressed rest s else s | [] => s end
  | TextToken value => text_token value s
  | OtherToken => s
  end.
(** The end of the tokens: [failed] is whether the tokenizer ended with an error. *)
Definition fallback_end (failed : bool) (s : fallback_state) : fallback_state :=
  if failed then MkFallback (fb_text s ++ lit " [HTML tokenization stopped] ") (fb_links s) (fb_images s) (fb_base s) (fb_suppressed s) false else s.

Record fallback_content := MkFallbackContent { fc_text : gostring; fc_links : list gostring; fc_images : list gostring; fc_incomplete : bool }.
Definition fallback_start (compact : bool) : fallback_state := MkFallback [] (new_collector compact) (MkImageRefCollector [] 0) None [] true.
Definition fallback_finish (s : fallback_state) : fallback_content :=
  let complete := fb_complete s && negb (fallbackTextBytes <=? go_len (fb_text s)) && bool_decide (fb_suppressed s = []) in
  let value := normalizeHTMLText (sanitizeSenderText (fb_text s)) in
  let '(value, links) := rewritePlainTextURLs value (fb_links s) in
  MkFallbackContent value (lc_links links) (ic_refs (fb_images s)) (negb complete).
End Html.
