(* ===== verification/HtmlTextSpec.v ===== *)
(** * Properties of the text of an HTML page

    Annotations are balanced and hold exactly the text they are about; the text a
    recipient sees does not depend on concealed text. *)
From Stdlib Require Import QArith.
From S2P Require Import Prelude GoText Runes Thinking Rdap PromptText PromptUrl HtmlText.
#[local] Open Scope Z_scope.

(** ** Annotations *)

(** Tags do not nest, every annotation is closed, and a text that is not only
    padding stands inside its own annotation, or outside all when it has none. *)
Fixpoint balanced (active : option outputAnnotation) (l : list rendered) : Prop :=
  match l with
  | [] => active = None
  | ROpen a :: l => active = None /\ (if bool_decide (oa_kind a = KindStripped) then balanced None l else oa_kind a <> KindNone /\ balanced (Some a) l)
  | RClose a :: l => active = Some a /\ balanced None l
  | RText a s :: l => (annotationWhitespaceOnly s = true \/ (oa_kind a = KindNone /\ active = None) \/ active = Some a) /\ balanced active l
  end.
Definition texts (l : list rendered) : list (outputAnnotation * gostring) := omap (λ r, match r with RText a s => Some (a, s) | _ => None end) l.
Definition kept_chunk (c : outputAnnotation * gostring) : bool := annotationWhitespaceOnly c.2 || negb (bool_decide (oa_kind c.1 = KindStripped)).

(** A list that leads from one active annotation to another. *)
Inductive leads : option outputAnnotation -> list rendered -> option outputAnnotation -> Prop :=
  | leads_nil a : leads a [] a
  | leads_marker a l b : oa_kind a = KindStripped -> leads None l b -> leads None (ROpen a :: l) b
  | leads_open a l b : oa_kind a <> KindStripped -> oa_kind a <> KindNone -> leads (Some a) l b -> leads None (ROpen a :: l) b
  | leads_close a l b : leads None l b -> leads (Some a) (RClose a :: l) b
  | leads_text c a s l b : annotationWhitespaceOnly s = true \/ (oa_kind a = KindNone /\ c = None) \/ c = Some a -> leads c l b -> leads c (RText a s :: l) b.

Lemma leads_app a l b m c : leads a l b -> leads b m c -> leads a (l ++ m) c.
Proof. induction 1; intros Hm; cbn [app]; [done|apply leads_marker; auto|apply leads_open; auto|apply leads_close; auto|apply leads_text; auto]. Qed.
Lemma leads_balanced a l : leads a l None -> balanced a l.
Proof.
  intros H. remember None as b eqn:Hb. revert Hb. induction H as [| |a l b Hs Hn _ IH| |]; intros ->; cbn [balanced].
  - done.
  - split; [done|]. rewrite bool_decide_eq_true_2 by done. auto.
  - split; [done|]. rewrite bool_decide_eq_false_2 by done. auto.
  - auto.
  - auto.
Qed.

Definition all_padding (l : list rendered) : Prop := Forall (λ r, exists a s, r = RText a s /\ annotationWhitespaceOnly s = true) l.
Lemma padding_leads l a : all_padding l -> leads a l a.
Proof. induction 1 as [|r l (b & s & -> & Hs) _ IH]; [constructor|]. constructor; auto. Qed.

Record rendering_ok (o : annotatedOutput) (r : rendering) : Prop := {
  ro_leads : leads None (rd_out r) (rd_active r);
  ro_pending : all_padding (rd_pending r);
  ro_active : match rd_active r with Some a => oa_kind a <> KindNone /\ oa_kind a <> KindStripped | None => True end;
  ro_texts : texts (rd_out r) ++ texts (rd_pending r) = List.filter kept_chunk o }.

Lemma texts_app l m : texts (l ++ m) = texts l ++ texts m.
Proof. unfold texts. apply omap_app. Qed.
Lemma texts_close r : texts (close_active r) = [].
Proof. unfold close_active. by destruct (rd_active r). Qed.
Lemma close_leads r : leads (rd_active r) (close_active r) None.
Proof. unfold close_active. destruct (rd_active r); repeat constructor. Qed.

Section Chunk.
Context (o : annotatedOutput) (r : rendering) (a : outputAnnotation) (value : gostring) (Hr : rendering_ok o r) (Hw : annotationWhitespaceOnly value = false).

Lemma closed_leads : leads None (rd_out r ++ close_active r ++ rd_pending r) None.
Proof using Hr.
  destruct Hr as [Hl Hp _ _]. eapply leads_app; [exact Hl|]. eapply leads_app; [apply close_leads|by apply padding_leads].
Qed.
Lemma chunk_texts l : texts l = List.filter kept_chunk [(a, value)] ->
  texts (rd_out r ++ close_active r ++ rd_pending r ++ l) ++ texts [] = List.filter kept_chunk (o ++ [(a, value)]) /\
  texts (rd_out r ++ rd_pending r ++ l) ++ texts [] = List.filter kept_chunk (o ++ [(a, value)]).
Proof using Hr.
  intros Hl. destruct Hr as [_ _ _ Ht]. rewrite List.filter_app, <- Ht, <- Hl, !texts_app, texts_close. cbn [texts omap list_omap app]. by rewrite !app_nil_r, <- !app_assoc.
Qed.
Lemma closed_app l : rd_out r ++ close_active r ++ rd_pending r ++ l = (rd_out r ++ close_active r ++ rd_pending r) ++ l.
Proof. by rewrite <- !app_assoc. Qed.
Lemma kept_value : kept_chunk (a, value) = negb (bool_decide (oa_kind a = KindStripped)).
Proof using Hw. unfold kept_chunk. cbn. by rewrite Hw. Qed.

Lemma plain_chunk_ok : oa_kind a = KindNone -> rendering_ok (o ++ [(a, value)]) (MkRendering (rd_out r ++ close_active r ++ rd_pending r ++ [RText a value]) [] None false).
Proof using Hr Hw.
  intros Hk. split; cbn [rd_out rd_pending rd_active]; [|constructor|done|].
  - rewrite closed_app. eapply leads_app; [apply closed_leads|]. apply leads_text; [auto|constructor].
  - apply chunk_texts. cbn [List.filter]. rewrite kept_value, Hk. done.
Qed.
Lemma stripped_chunk_ok : oa_kind a = KindStripped ->
  rendering_ok (o ++ [(a, value)]) (MkRendering (rd_out r ++ close_active r ++ rd_pending r ++ (if rd_lastWasStripped r then [] else [ROpen a])) [] None true).
Proof using Hr Hw.
  intros Hk. split; cbn [rd_out rd_pending rd_active]; [|constructor|done|].
  - rewrite closed_app. eapply leads_app; [apply closed_leads|]. destruct (rd_lastWasStripped r); [constructor|]. apply leads_marker; [done|constructor].
  - apply chunk_texts. cbn [List.filter]. rewrite kept_value, Hk. by destruct (rd_lastWasStripped r).
Qed.
Lemma tagged_chunk_ok : oa_kind a <> KindNone -> oa_kind a <> KindStripped ->
  rendering_ok (o ++ [(a, value)])
    (if bool_decide (rd_active r = Some a) then MkRendering (rd_out r ++ rd_pending r ++ [RText a value]) [] (rd_active r) false
     else MkRendering (rd_out r ++ close_active r ++ rd_pending r ++ [ROpen a; RText a value]) [] (Some a) false).
Proof using Hr Hw.
  intros Hn Hs. assert (Hkept : List.filter kept_chunk [(a, value)] = [(a, value)]) by (cbn [List.filter]; by rewrite kept_value, bool_decide_eq_false_2).
  case_bool_decide as Hb; split; cbn [rd_out rd_pending rd_active]; try apply Forall_nil_2.
  - destruct Hr as [Hl Hp _ _]. eapply leads_app; [exact Hl|]. eapply leads_app; [by apply padding_leads|]. rewrite Hb. apply leads_text; [auto|constructor].
  - by rewrite Hb.
  - by apply chunk_texts.
  - rewrite closed_app. eapply leads_app; [apply closed_leads|]. apply leads_open; [done..|]. apply leads_text; [auto|constructor].
  - done.
  - by apply chunk_texts.
Qed.
End Chunk.

Lemma render_chunk_ok o r c : rendering_ok o r -> rendering_ok (o ++ [c]) (render_chunk r c).
Proof.
  intros Hr. destruct c as [a value]. unfold render_chunk. destruct (annotationWhitespaceOnly value) eqn:Ew.
  - destruct Hr as [Hl Hp Ha Ht]. split; cbn [rd_out rd_pending rd_active]; try done.
    + apply Forall_app. split; [done|]. constructor; [|constructor]. eauto.
    + rewrite List.filter_app, <- Ht. cbn [List.filter]. unfold kept_chunk at 1. cbn [snd]. rewrite Ew. cbn [orb]. by rewrite texts_app, app_assoc.
  - destruct (oa_kind a) eqn:Ek; [by apply plain_chunk_ok|apply tagged_chunk_ok; by rewrite ?Ek..|by apply stripped_chunk_ok].
Qed.
Lemma render_fold_ok l : forall o r, rendering_ok o r -> rendering_ok (o ++ l) (fold_left render_chunk l r).
Proof.
  induction l as [|c l IH]; intros o r Hr; cbn [fold_left]; [by rewrite app_nil_r|]. rewrite (app_assoc o [c] l : o ++ c :: l = (o ++ [c]) ++ l). by apply IH, render_chunk_ok.
Qed.

Lemma render_chunks_exact o : balanced None (render_chunks o) /\ texts (render_chunks o) = List.filter kept_chunk o.
Proof.
  unfold render_chunks. assert (H0 : rendering_ok [] (MkRendering [] [] None false)) by (split; cbn; constructor).
  pose proof (render_fold_ok o [] _ H0) as Hr. cbn [app] in Hr. set (r := fold_left render_chunk o _) in *. split; [apply leads_balanced, (closed_leads o r Hr)|].
  rewrite !texts_app, texts_close. cbn [app]. apply (ro_texts _ _ Hr).
Qed.

(** ** Induction on pages *)

Lemma node_rect' (P : node -> Prop) : (forall t d a s kids, Forall P kids -> P (Node t d a s kids)) -> forall n, P n.
Proof.
  intros Hn. fix IH 1. intros [t d a s kids]. apply Hn. induction kids as [|c kids IHk]; [constructor|]. constructor; [apply IH|exact IHk].
Qed.

(** ** Padding has no letters *)

Lemma ascii_rune c s : c ∈ s -> code c < 128 -> code c ∈ runes s.
Proof.
  intros Hc Ha. unfold runes, rune_chunks. assert (Hf : (length s <= length s)%nat) by lia. revert Hf Hc. generalize (length s) at 2 3 as fuel. intros fuel. revert s.
  induction fuel as [|fuel IH]; intros s Hf Hc; [destruct s; [by apply elem_of_nil in Hc|cbn in Hf; lia]|]. destruct s as [|x s]; [by apply elem_of_nil in Hc|]. cbn [chunks_go].
  destruct (decode_rune (x :: s)) as [r w] eqn:E. destruct (decode_rest _ _ _ _ E) as [Hw Hs]. cbn [fmap list_fmap rc_rune]. apply elem_of_cons in Hc as [<- |Hc].
  - unfold decode_rune in E. rewrite (proj2 (Z.ltb_lt _ _) Ha) in E. injection E as <- _. by left.
  - right. apply IH; [rewrite length_drop; cbn in *; lia|]. destruct w; [lia|]. cbn [drop]. rewrite Nat.sub_succ, Nat.sub_0_r in Hs.
    rewrite <- (take_drop w s) in Hc. apply elem_of_app in Hc as [Hc|Hc]; [|done]. exfalso. rewrite Forall_forall in Hs. specialize (Hs c Hc).
    cbn in Hs. rewrite runeStart_lead in Hs by lia. done.
Qed.
Lemma padding_ascii s c : annotationWhitespaceOnly s = true -> c ∈ s -> code c < 128 -> preheaderPaddingRune (code c) = true.
Proof.
  unfold annotationWhitespaceOnly. destruct s as [|x s]; [done|]. intros Hp Hc Ha. rewrite forallb_forall in Hp. apply Hp, list_elem_of_In. by apply ascii_rune.
Qed.
Lemma padding_no_link s : annotationWhitespaceOnly s = true -> nextHTTPPrefix s = None.
Proof.
  intros Hp. destruct (nextHTTPPrefix s) as [[b a]|] eqn:E; [|done]. exfalso. apply nextHTTPPrefix_split in E as (-> & Hh & Hne).
  destruct a as [|c a]; [done|]. assert (Hc : code c = 104 \/ code c = 72).
  { unfold hasHTTPPrefix, fold_prefix in Hh. apply orb_true_iff in Hh as [Hh|Hh]; apply beq_true in Hh; cbn in Hh; injection Hh as Hh _; revert Hh;
      clear; destruct c as [[] [] [] [] [] [] [] []]; vm_compute; intros Hh; try discriminate Hh; auto. }
  pose proof (padding_ascii (b ++ c :: a) c Hp ltac:(set_solver) ltac:(lia)) as Hpad. destruct Hc as [Hc|Hc]; rewrite Hc in Hpad; vm_compute in Hpad; discriminate Hpad.
Qed.
Lemma padding_no_escape s : annotationWhitespaceOnly s = true -> escapeMarkdown s false = s.
Proof.
  intros Hp. unfold escapeMarkdown. assert (Hc : Forall (λ c, ceq c "\" || ceq c "[" || ceq c "]" = false) s).
  { apply Forall_forall. intros c Hc. destruct (ceq c "\" || ceq c "[" || ceq c "]") eqn:E; [|done]. exfalso.
    assert (Ha : code c < 128 /\ preheaderPaddingRune (code c) = false).
    { apply orb_true_iff in E as [E|E]; [apply orb_true_iff in E as [E|E]|]; apply ceq_true in E; subst c; split; vm_compute; reflexivity. }
    destruct Ha as [Ha Hn]. by rewrite (padding_ascii s c Hp Hc Ha) in Hn. }
  clear Hp. induction Hc as [|c s Hc _ IH]; [done|]. cbn [fmap list_fmap concat]. rewrite Hc. cbn [app]. f_equal. exact IH.
Qed.

Section Seen.
Context {UT : UnicodeTables} {UR : UrlText} {UD : UrlDetails} {HL : HtmlLibrary} (base : option gostring) (compact : bool).

Lemma rewrite_padding s c : annotationWhitespaceOnly s = true -> rewritePlainTextURLs s c = (s, c).
Proof. intros Hp. unfold rewritePlainTextURLs. destruct (Full c); [done|]. destruct (length s); [done|]. cbn [rewrite_go]. by rewrite padding_no_link. Qed.
Lemma rewrite_without_padding b s : annotationWhitespaceOnly s = true -> rewriteWithout b s = s.
Proof. intros Hp. unfold rewriteWithout. destruct (length s); [done|]. cbn [rewrite_unlinked]. by rewrite padding_no_link. Qed.

(** ** The text that is seen *)

(** A reference for the visible text: it has no mode, no link collector and no
    annotations. *)
Definition seen_text (gap : bool) (data : gostring) (state : option visibility) : gostring :=
  let text := prepareVisibleText data in
  match state with
  | Some v => if beq text [] || is_concealed v then [] else if annotationWhitespaceOnly text && gap then collapseHTMLFormattingWhitespace text else text
  | None => []
  end.
Definition seen_content (state : option visibility) (content : gostring) : gostring := match state with Some v => if is_concealed v then [] else content | None => content end.
Definition seen_comment (data : gostring) : gostring := wr_visible (writeConditionalComment base data (MkWritten [] []) (MkWalk (new_collector compact) (MkImageRefCollector [] 0) false)).1.
Definition seen_before (name : gostring) : gostring :=
  (if isBlockElement name || beq name (lit "br") || beq name (lit "hr") then [LF] else []) ++ (if beq name (lit "blockquote") then quote_start 0 else []).
Definition seen_after (name : gostring) : gostring := (if beq name (lit "blockquote") then quote_end 0 else []) ++ (if isBlockElement name then [LF] else []).

Fixpoint seen (prev next : option node) (n : node) : gostring :=
  let fix children (prev : option node) (l : list node) : gostring :=
    match l with [] => [] | c :: l => seen prev (head l) c ++ children (Some c) l end in
  let '(Node type data attr state kids) := n in
  match type with
  | TextNode => seen_text (inlineRenderedNode prev && inlineRenderedNode next) data state
  | CommentNode => seen_comment data
  | OtherNode => []
  | ElementNode | DocumentNode =>
      let name := toLower data in
      if omittedHTMLElement name || beq name (lit "img") then []
      else if beq name (lit "input") then
        if bool_decide (toLower (trimSpace (firstAttr n (lit "type"))) ∈ [lit "submit"; lit "button"; lit "reset"])
        then seen_content state (sanitizeSenderText (firstAttr n (lit "value"))) else []
      else seen_before name ++ children None kids ++ (if beq name (lit "a") then [] else seen_after name)
  end.
Fixpoint seen_all (prev : option node) (l : list node) : gostring :=
  match l with [] => [] | c :: l => seen prev (head l) c ++ seen_all (Some c) l end.

(** What a step of the walk does to the visible text; the collector keeps its mode. *)
Definition shows (t : gostring) (w : written) (s : walk_state) (r : written * walk_state) : Prop :=
  lc_compactURLs (ws_links s) = compact -> wr_visible r.1 = wr_visible w ++ t /\ lc_compactURLs (ws_links r.2) = compact.

Lemma AddDestination_compact d c : lc_compactURLs (AddDestination d c).2 = lc_compactURLs c.
Proof. unfold AddDestination. repeat case_match; done. Qed.
Lemma rewrite_go_compact fuel : forall t c, lc_compactURLs (rewrite_go fuel t c).2 = lc_compactURLs c.
Proof.
  induction fuel as [|fuel IH]; intros t c; [done|]. cbn [rewrite_go]. destruct (nextHTTPPrefix t) as [[b a]|]; [|done].
  destruct (trimPlainURLPunctuation (until_delimiter a)) as [|x l].
  - specialize (IH (drop 1 a) c). by destruct (rewrite_go fuel (drop 1 a) c).
  - pose proof (AddDestination_compact (x :: l) c) as Hd. destruct (AddDestination (x :: l) c) as [shown c1]. cbn [snd] in Hd. case_match; [done|].
    specialize (IH (drop (length (x :: l)) a) c1). destruct (rewrite_go fuel _ c1). cbn [snd] in *. congruence.
Qed.
Lemma rewrite_linked_compact t s : lc_compactURLs (ws_links (rewrite_linked t s).2) = lc_compactURLs (ws_links s).
Proof.
  unfold rewrite_linked, rewritePlainTextURLs. destruct (Full (ws_links s)); [done|]. pose proof (rewrite_go_compact (length t) t (ws_links s)) as Hc. by destruct (rewrite_go _ _ _).
Qed.
Lemma rewrite_linked_padding t s : annotationWhitespaceOnly t = true -> (rewrite_linked t s).1 = t.
Proof. intros Hp. unfold rewrite_linked. by rewrite rewrite_padding. Qed.
Lemma add_destinations_compact l : forall c, lc_compactURLs (add_destinations l c) = lc_compactURLs c.
Proof. induction l as [|d l IH]; intros c; [done|]. cbn [add_destinations]. rewrite IH. apply AddDestination_compact. Qed.

Lemma writeText_shows m anchor gap data state w s : shows (seen_text gap data state) w s (writeText m anchor gap data state w s).
Proof.
  intros Hc. unfold writeText, seen_text. set (text := prepareVisibleText data). destruct (beq text []) eqn:Eb; [cbn [orb]; destruct state; by rewrite app_nil_r|].
  destruct state as [v|]; [|by rewrite app_nil_r]. cbn [orb].
  set (r := match anchor with O => rewrite_linked text s | _ => (escapeMarkdown (rewriteWithout (lc_compactURLs (ws_links s)) text) false, s) end).
  assert (Hr : lc_compactURLs (ws_links r.2) = compact) by (unfold r; destruct anchor; [by rewrite rewrite_linked_compact|done]).
  assert (Hp : annotationWhitespaceOnly text = true -> r.1 = text).
  { intros Hp. unfold r. destruct anchor; [by apply rewrite_linked_padding|]. cbn [fst]. rewrite rewrite_without_padding by done. by apply padding_no_escape. }
  clearbody r. destruct r as [outText s']. cbn [fst snd] in *. destruct (annotationWhitespaceOnly text) eqn:Ew; cbn [andb fst snd wr_visible].
  - rewrite (Hp eq_refl). destruct (is_concealed v); [by rewrite app_nil_r|]. by destruct gap.
  - destruct (is_concealed v); [by rewrite app_nil_r|done].
Qed.
Lemma writeElementContent_shows m state content w s : shows (seen_content state content) w s (writeElementContent m state content w s).
Proof.
  intros Hc. unfold writeElementContent, seen_content. destruct (beq content []) eqn:Eb.
  { apply beq_true in Eb. subst content. destruct state as [v|]; [destruct (is_concealed v)|]; by rewrite app_nil_r. }
  pose proof (rewrite_linked_compact content s) as Hr. destruct (rewrite_linked content s) as [t s']. cbn [snd] in Hr. destruct state as [v|]; cbn; [|by rewrite Hr].
  destruct (is_concealed v); rewrite ?app_nil_r; by rewrite Hr.
Qed.
Lemma add_link_compact d s : lc_compactURLs (ws_links (add_link d s).2) = lc_compactURLs (ws_links s).
Proof. unfold add_link. pose proof (AddDestination_compact d (ws_links s)) as Hd. by destruct (AddDestination d (ws_links s)). Qed.
Lemma writeImage_shows m n w s : shows [] w s (writeImage m base n w s).
Proof.
  intros Hc. rewrite app_nil_r. unfold writeImage. destruct (explicitTrackingPixel n); [done|].
  set (raw := trimSpace (firstAttr n (lit "src"))). destruct ((4 <=? length raw)%nat && equalFold (take 4 raw) (lit "cid:")).
  - by destruct (beq (normalizeContentID (drop 4 raw)) []).
  - destruct (destination base raw) as [d|]; [|done]. destruct (hasPrefix d (lit "http://") || hasPrefix d (lit "https://")); [|done].
    pose proof (add_link_compact d s) as Hd. destruct (add_link d s) as [shown s']. cbn [snd] in Hd. rewrite Hc in Hd. by destruct (escapeMarkdown shown true).
Qed.
Lemma writeConditionalComment_shows data w s : shows (seen_comment data) w s (writeConditionalComment base data w s).
Proof.
  intros Hc. unfold seen_comment, writeConditionalComment. cbn [ws_links ws_images ws_incomplete wr_visible wr_out lc_compactURLs new_collector]. rewrite Hc.
  repeat match goal with |- context [if ?b then _ else _] => destruct b | |- context [match ?x with Some _ => _ | None => _ end] => destruct x | |- context [let '(_, _) := ?p in _] => destruct p end;
    cbn [fst snd wr_visible ws_links]; rewrite ?app_nil_r, ?add_destinations_compact; done.
Qed.

(** ** The walk writes what is seen *)

Definition walk_all (m : mode) : nat -> option node -> list node -> written -> walk_state -> written * walk_state :=
  fix children (anchor : nat) (prev : option node) (l : list node) (w : written) (s : walk_state) : written * walk_state :=
    match l with
    | [] => (w, s)
    | c :: l => let '(w, s) := walk m base anchor prev (head l) c w s in children anchor (Some c) l w s
    end.
Definition walks (n : node) : Prop := forall m anchor prev next w s, shows (seen prev next n) w s (walk m base anchor prev next n w s).

Lemma shows_nil w s : shows [] w s (w, s).
Proof. intros Hc. by rewrite app_nil_r. Qed.
Lemma walk_all_shows m kids : Forall walks kids -> forall anchor prev w s, shows (seen_all prev kids) w s (walk_all m anchor prev kids w s).
Proof.
  induction 1 as [|c kids Hc _ IH]; intros anchor prev w s; [apply shows_nil|]. intros Hs. cbn [walk_all seen_all]. specialize (Hc m anchor prev (head kids) w s Hs).
  destruct (walk m base anchor prev (head kids) c w s) as [w1 s1]. cbn [fst snd] in Hc. destruct Hc as [Hw H1]. destruct (IH anchor (Some c) w1 s1 H1) as [Hw2 H2].
  fold (walk_all m). split; [|done]. by rewrite Hw2, Hw, app_assoc.
Qed.

(** An element that is neither left out nor an image or a button. *)
Definition opened (anchor : nat) (name : gostring) (w : written) : written :=
  let w := if isBlockElement name || beq name (lit "br") || beq name (lit "hr") then write_both [LF] w else w in
  if beq name (lit "blockquote") then MkWritten (write_plain (quote_start anchor) (wr_out w)) (wr_visible w ++ quote_start 0) else w.
Definition closed (anchor : nat) (name : gostring) (w : written) : written :=
  let w := if beq name (lit "blockquote") then MkWritten (write_plain (quote_end anchor) (wr_out w)) (wr_visible w ++ quote_end 0) else w in
  if isBlockElement name then write_both [LF] w else w.
Definition walk_element (m : mode) (anchor : nat) (n : node) (w : written) (s : walk_state) : written * walk_state :=
  let name := name_of n in
  if beq name (lit "a") then
    let '(label, s) := walk_all m (S anchor) None (n_children n) (MkWritten [] []) s in
    match destination base (firstAttr n (lit "href")) with
    | Some d =>
        let '(shown, s) := add_link d s in
        (MkWritten (write_link (wr_out label) shown (wr_out (opened anchor name w))) (wr_visible (opened anchor name w) ++ wr_visible label), s)
    | None => (MkWritten (fold_left (λ o c, write c.1 c.2 o) (wr_out label) (wr_out (opened anchor name w))) (wr_visible (opened anchor name w) ++ wr_visible label), s)
    end
  else let '(w, s) := walk_all m anchor None (n_children n) (opened anchor name w) s in (closed anchor name w, s).
Definition seen_element (n : node) : gostring :=
  seen_before (name_of n) ++ seen_all None (n_children n) ++ (if beq (name_of n) (lit "a") then [] else seen_after (name_of n)).

Lemma opened_visible anchor name w : wr_visible (opened anchor name w) = wr_visible w ++ seen_before name.
Proof.
  unfold opened, seen_before. destruct (isBlockElement name || beq name (lit "br") || beq name (lit "hr")), (beq name (lit "blockquote")); cbn [write_both wr_visible];
    by rewrite ?app_nil_r, <- ?app_assoc.
Qed.
Lemma closed_visible anchor name w : wr_visible (closed anchor name w) = wr_visible w ++ seen_after name.
Proof.
  unfold closed, seen_after. destruct (beq name (lit "blockquote")), (isBlockElement name); cbn [write_both wr_visible]; by rewrite ?app_nil_r, <- ?app_assoc.
Qed.
Lemma walk_element_shows m anchor n w s : Forall walks (n_children n) -> shows (seen_element n) w s (walk_element m anchor n w s).
Proof.
  intros Hk Hs. unfold walk_element, seen_element. destruct (beq (name_of n) (lit "a")).
  - destruct (walk_all_shows m _ Hk (S anchor) None (MkWritten [] []) s Hs) as [Hw H1]. destruct (walk_all m (S anchor) None (n_children n) (MkWritten [] []) s) as [label s1]. cbn [fst snd] in *.
    rewrite app_nil_r. cbn [wr_visible app] in Hw. rewrite <- Hw.
    destruct (destination base (firstAttr n (lit "href"))) as [d|]; [|by cbn; rewrite opened_visible, app_assoc].
    pose proof (add_link_compact d s1) as Hd. destruct (add_link d s1) as [shown s2]. cbn [fst snd wr_visible] in *. split; [by rewrite opened_visible, app_assoc|congruence].
  - destruct (walk_all_shows m _ Hk anchor None (opened anchor (name_of n) w) s Hs) as [Hw H1].
    destruct (walk_all m anchor None (n_children n) (opened anchor (name_of n) w) s) as [w1 s1]. cbn [fst snd] in *. by rewrite closed_visible, Hw, opened_visible, <- !app_assoc.
Qed.

Lemma walk_seen n : walks n.
Proof.
  induction n as [t d a st kids Hk] using node_rect'. intros m anchor prev next w s.
  assert (He : t = ElementNode \/ t = DocumentNode -> shows (seen prev next (Node t d a st kids)) w s (walk m base anchor prev next (Node t d a st kids) w s)).
  { intros Ht. set (n := Node t d a st kids).
    replace (walk m base anchor prev next n w s) with
      (if omittedHTMLElement (name_of n) then (w, s) else if beq (name_of n) (lit "img") then writeImage m base n w s
       else if beq (name_of n) (lit "input") then
         if bool_decide (toLower (trimSpace (firstAttr n (lit "type"))) ∈ [lit "submit"; lit "button"; lit "reset"])
         then writeElementContent m st (sanitizeSenderText (firstAttr n (lit "value"))) w s else (w, s)
       else walk_element m anchor n w s) by (unfold n; destruct Ht as [-> | ->]; reflexivity).
    replace (seen prev next n) with
      (if omittedHTMLElement (name_of n) || beq (name_of n) (lit "img") then []
       else if beq (name_of n) (lit "input") then
         if bool_decide (toLower (trimSpace (firstAttr n (lit "type"))) ∈ [lit "submit"; lit "button"; lit "reset"])
         then seen_content st (sanitizeSenderText (firstAttr n (lit "value"))) else []
       else seen_element n) by (unfold n; destruct Ht as [-> | ->]; reflexivity).
    destruct (omittedHTMLElement (name_of n)); [apply shows_nil|]. destruct (beq (name_of n) (lit "img")); [apply writeImage_shows|]. cbn [orb].
    destruct (beq (name_of n) (lit "input")); [|by apply walk_element_shows]. case_bool_decide; [apply writeElementContent_shows|apply shows_nil]. }
  destruct t; [apply writeText_shows|apply writeConditionalComment_shows|by auto|by auto|apply shows_nil].
Qed.

Lemma render_seen m root s : lc_compactURLs (ws_links s) = compact -> rh_visible (render m base root s).1 = normalizeHTMLText (seen None None root).
Proof.
  intros Hs. unfold render. destruct (walk_seen root m 0%nat None None (MkWritten [] []) s Hs) as [Hw _]. destruct (walk m base 0 None None root (MkWritten [] []) s). cbn in *. by rewrite Hw.
Qed.

(** Pages that differ only in texts that are concealed; such a text stays white
    space or not, since that decides about the spacing around it. *)
Inductive similar : node -> node -> Prop :=
  | similar_text d d' a v kids : is_concealed v = true -> annotationWhitespaceOnly d = annotationWhitespaceOnly d' ->
      similar (Node TextNode d a (Some v) kids) (Node TextNode d' a (Some v) kids)
  | similar_node t d a st kids kids' : Forall2 similar kids kids' -> similar (Node t d a st kids) (Node t d a st kids').
Definition similar_sibling (p q : option node) : Prop := match p, q with Some p, Some q => similar p q | None, None => True | _, _ => False end.

Lemma similar_inline p q : similar_sibling p q -> inlineRenderedNode p = inlineRenderedNode q.
Proof. destruct p as [p|], q as [q|]; try done. intros H. destruct H as [d d' a v kids _ Hw|t d a st kids kids' _]; cbn [inlineRenderedNode n_Type n_Data]; [by rewrite Hw|done]. Qed.
Lemma similar_head l l' : Forall2 similar l l' -> similar_sibling (head l) (head l').
Proof. by destruct 1. Qed.
Definition seen_alike (p : node) : Prop := forall q prev next prev' next',
  similar p q -> similar_sibling prev prev' -> similar_sibling next next' -> seen prev next p = seen prev' next' q.
Lemma seen_all_alike l : Forall seen_alike l -> forall l' prev prev', Forall2 similar l l' -> similar_sibling prev prev' -> seen_all prev l = seen_all prev' l'.
Proof.
  induction 1 as [|p l Hp _ IH]; intros l' prev prev' Hl Hs; inversion Hl as [|? q ? k Hpq Hk]; subst; [done|]. cbn [seen_all].
  rewrite (Hp q prev (head l) prev' (head k) Hpq Hs (similar_head _ _ Hk)). f_equal. by apply IH.
Qed.
Lemma seen_similar p : seen_alike p.
Proof.
  induction p as [t d a st kids Hk] using node_rect'. intros q prev next prev' next' Hq Hp Hn. inversion Hq as [? d' ? v ? Hv _|? ? ? ? ? kids' Hkids]; subst; clear Hq.
  - cbn [seen]. unfold seen_text. rewrite Hv, !orb_true_r. done.
  - destruct t; try done; [cbn [seen]; by rewrite (similar_inline _ _ Hp), (similar_inline _ _ Hn)|..]; pose proof (seen_all_alike kids Hk kids' None None Hkids I) as Ha;
      unfold seen_all in Ha; cbn [seen]; by rewrite Ha.
Qed.
End Seen.

(** ** Claims *)

(** C16: rendering keeps annotations exact: the tags never nest and every tag that
    is opened is closed; each text stands inside an annotation of its own kind,
    reason and value, or outside every annotation when it is plain; and the texts
    written are the chunks in order, all of them but the stripped ones. *)
Theorem annotations_exact (o : annotatedOutput) :
  renderAnnotations o = concat (rendered_text <$> render_chunks o) /\ balanced None (render_chunks o) /\ texts (render_chunks o) = List.filter kept_chunk o.
Proof. split; [done|]. apply render_chunks_exact. Qed.

(** C15: the text a recipient sees is exactly the text that is not concealed, in
    document order: it is given by a reference that knows no mode, no links found
    earlier and no annotations, and two pages that differ only in what their
    concealed texts say give the same visible text, in every mode and whatever was
    extracted before. *)
Theorem concealed_text_not_seen {UT : UnicodeTables} {UR : UrlText} {UD : UrlDetails} {HL : HtmlLibrary} (base : option gostring) (compact : bool)
    (m m' : mode) (p q : node) (s s' : walk_state) :
  similar p q -> lc_compactURLs (ws_links s) = compact -> lc_compactURLs (ws_links s') = compact ->
  rh_visible (render m base p s).1 = normalizeHTMLText (seen base compact None None p) /\
  rh_visible (render m base p s).1 = rh_visible (render m' base q s').1.
Proof.
  intros Hpq Hs Hs'. rewrite (render_seen base compact m p s Hs), (render_seen base compact m' q s' Hs'). split; [done|]. f_equal. by apply seen_similar.
Qed.

(** ** A page with a concealed text *)

Module Sample.
#[local] Instance tables : UnicodeTables := basic_tables.
#[local] Instance urls : UrlText := {| urlParse s := Some (MkURL [] [] [] [] false s); pathUnescape := Some |}.
#[local] Instance details : UrlDetails := {| forceQuery _ := false; escapedFragment s := s |}.
#[local] Instance library : HtmlLibrary :=
  {| format_g6 _ := []; parse_float _ := None; url_string s := s; resolve_reference _ s := s; word_rune _ := true; parse_fragment _ := None |}.

Definition judged (l : label) : option visibility := Some (MkVisibility l ReasonDisplayNone 1 []).
Definition page (hidden : gostring) : node :=
  Node DocumentNode [] [] None
    [Node ElementNode (lit "p") [] (judged LabelVisible) [Node TextNode (lit "Hello ") [] (judged LabelVisible) []];
     Node ElementNode (lit "span") [] (judged LabelConcealed) [Node TextNode hidden [] (judged LabelConcealed) []];
     Node TextNode (lit "world") [] (judged LabelUnknown) []].
Definition start : walk_state := MkWalk (new_collector true) (MkImageRefCollector [] 0) false.

Lemma concealed_text_not_seen_witness :
  rh_visible (render TagHidden None (page (lit "free words")) start).1 = rh_visible (render StripHidden None (page (lit "https://x.example other")) start).1 /\
  rh_text (render TagHidden None (page (lit "free words")) start).1 <> rh_text (render StripHidden None (page (lit "https://x.example other")) start).1 /\
  rh_visible (render TagHidden None (page (lit "free words")) start).1 = lit "Hello" ++ [LF] ++ lit "world".
Proof.
  split; [|split; by vm_compute]. apply (concealed_text_not_seen None true); [|done..].
  repeat first [apply similar_text; by vm_compute|apply similar_node|constructor].
Defined.
End Sample.
