(* ===== verification/MsoCondition.v ===== *)
(** * Conditional comments of Outlook
    (conditional_styles.go of internal/htmlextract, with the ASCII comparisons of
    css_whitespace.go)

    Word-based Outlook shows or hides parts of a page by conditions in comments.
    The condition of a revealed region is evaluated in all sixteen environments
    the extractor knows at once, one bit for each, and the region is certain only
    when the condition holds in all of them.  [texts] is the grammar of
    conditions, [holds] their meaning in one environment; the parser accepts
    exactly the texts of the grammar, and its bits are the meaning. *)
From S2P Require Import Prelude GoText.

(** ** ASCII text *)

Definition equalASCIIFold (left right : gostring) : bool := beq (lower_ascii <$> left) (lower_ascii <$> right).
Definition hasASCIIFoldPrefix (value prefix : gostring) : bool := (length prefix <=? length value)%nat && equalASCIIFold (take (length prefix) value) prefix.
Fixpoint containsASCIIFold (value target : gostring) : bool :=
  hasASCIIFoldPrefix value target || match value with [] => false | _ :: rest => containsASCIIFold rest target end.
(** The text before the last occurrence of the target. *)
Fixpoint before_last_ASCIIFold (value target : gostring) : option gostring :=
  match value with
  | [] => if hasASCIIFoldPrefix [] target then Some [] else None
  | c :: rest =>
      match before_last_ASCIIFold rest target with
      | Some before => Some (c :: before)
      | None => if hasASCIIFoldPrefix value target then Some [] else None
      end
  end.

(** ** Environments *)

Definition minMSOVersion : Z := 9.
Definition maxMSOVersion : Z := 16.
Definition maxMSOConditionBytes : nat := 1024.
Definition maxMSOConditionDepth : nat := 128.
Definition msoConditionUniverse : Z := Z.shiftl 1 (2 * (maxMSOVersion - minMSOVersion + 1)) - 1.
Definition mso_versions : list Z := seqZ minMSOVersion (maxMSOVersion - minMSOVersion + 1).

Definition msoEnvironmentBit (version : Z) (ie : bool) : Z := 2 * (version - minMSOVersion) + (if ie then 1 else 0).
Definition msoIEMask : Z := fold_left (λ mask version, Z.lor mask (Z.shiftl 1 (msoEnvironmentBit version true))) mso_versions 0.

Inductive operator := OpEq | OpLt | OpLte | OpGt | OpGte.
Definition matches (op : operator) (version wanted : Z) : bool :=
  match op with
  | OpEq => version =? wanted
  | OpLt => version <? wanted
  | OpLte => version <=? wanted
  | OpGt => wanted <? version
  | OpGte => wanted <=? version
  end.
Definition msoVersionMask (op : operator) (wanted : Z) : Z :=
  fold_left (λ mask version,
    if matches op version wanted
    then Z.lor (Z.lor mask (Z.shiftl 1 (msoEnvironmentBit version false))) (Z.shiftl 1 (msoEnvironmentBit version true))
    else mask) mso_versions 0.

(** ** The parser

    The state is the input that is left, and whether the parser has failed. *)

Record msoConditionParser := MkParser { mc_rest : gostring; mc_failed : bool }.
Definition fail (p : msoConditionParser) : msoConditionParser := MkParser (mc_rest p) true.

Definition mso_space (c : ascii) : bool := ceq c " " || ceq c (chr 9) || ceq c CR || ceq c LF || ceq c (chr 12).
Definition letter (c : ascii) : bool := in_range 65 90 c || in_range 97 122 c.
Definition digit (c : ascii) : bool := in_range 48 57 c.

Fixpoint span (f : ascii -> bool) (s : gostring) : gostring * gostring :=
  match s with
  | [] => ([], [])
  | c :: rest => if f c then (c :: (span f rest).1, (span f rest).2) else ([], s)
  end.
Definition skipSpace (s : gostring) : gostring := (span mso_space s).2.

Definition take_byte (want : ascii) (p : msoConditionParser) : bool * msoConditionParser :=
  match skipSpace (mc_rest p) with
  | c :: rest => if ceq c want then (true, MkParser rest (mc_failed p)) else (false, MkParser (c :: rest) (mc_failed p))
  | [] => (false, MkParser [] (mc_failed p))
  end.
Definition word (p : msoConditionParser) : gostring * msoConditionParser :=
  let '(w, rest) := span letter (skipSpace (mc_rest p)) in (w, MkParser rest (mc_failed p)).

Definition max_int32 : Z := 2147483647.
Fixpoint number_go (value : Z) (s : gostring) : Z * gostring * bool :=
  match s with
  | c :: rest =>
      if digit c then
        let d := code c - 48 in
        if (max_int32 - d) / 10 <? value then (value, s, true) else number_go (value * 10 + d) rest
      else (value, s, false)
  | [] => (value, [], false)
  end.
Definition number (p : msoConditionParser) : option Z * msoConditionParser :=
  let s := skipSpace (mc_rest p) in
  let '(value, rest, overflow) := number_go 0 s in
  if overflow : bool then (None, MkParser rest true)
  else if (length rest =? length s)%nat then (None, MkParser rest (mc_failed p))
  else (Some value, MkParser rest (mc_failed p)).
Definition optionalNumber (p : msoConditionParser) : option Z * msoConditionParser :=
  match skipSpace (mc_rest p) with
  | c :: _ => if digit c then number p else (None, MkParser (skipSpace (mc_rest p)) (mc_failed p))
  | [] => (None, MkParser [] (mc_failed p))
  end.

Definition comparison_of (word : gostring) : option operator :=
  if equalASCIIFold word (lit "lt") then Some OpLt
  else if equalASCIIFold word (lit "lte") then Some OpLte
  else if equalASCIIFold word (lit "gt") then Some OpGt
  else if equalASCIIFold word (lit "gte") then Some OpGte
  else None.

Definition parseAtom (p : msoConditionParser) : Z * msoConditionParser :=
  let '(w, p) := word p in
  if beq w [] then (0, fail p)
  else if equalASCIIFold w (lit "true") then (msoConditionUniverse, p)
  else if equalASCIIFold w (lit "false") then (0, p)
  else if equalASCIIFold w (lit "IE") then (msoIEMask, p)
  else if equalASCIIFold w (lit "mso") then
    let '(version, p) := optionalNumber p in
    (match version with Some v => msoVersionMask OpEq v | None => msoConditionUniverse end, p)
  else
    match comparison_of w with
    | Some op =>
        let '(feature, p) := word p in
        if negb (equalASCIIFold feature (lit "mso")) then (0, fail p)
        else
          let '(version, p) := number p in
          match version with Some v => (msoVersionMask op v, p) | None => (0, fail p) end
    | None => (0, fail p)
    end.

(** [for !p.failed && p.take(sep)]: a turn takes a byte, so the input bounds the turns. *)
Fixpoint operands (fuel : nat) (sep : ascii) (combine : Z -> Z -> Z) (operand : msoConditionParser -> Z * msoConditionParser) (mask : Z) (p : msoConditionParser) : Z * msoConditionParser :=
  if mc_failed p then (mask, p)
  else
    let '(taken, p) := take_byte sep p in
    if taken then
      match fuel with
      | O => (mask, p)
      | S fuel => let '(m, p) := operand p in operands fuel sep combine operand (combine mask m) p
      end
    else (mask, p).
Definition parse_list (sep : ascii) (combine : Z -> Z -> Z) (operand : msoConditionParser -> Z * msoConditionParser) (p : msoConditionParser) : Z * msoConditionParser :=
  let '(mask, p) := operand p in operands (length (mc_rest p)) sep combine operand mask p.

(** [depth] is what is left of the depth. *)
Fixpoint parseUnary (depth : nat) (p : msoConditionParser) : Z * msoConditionParser :=
  match depth with
  | O => (0, fail p)
  | S depth =>
      let '(negated, p) := take_byte "!" p in
      if negated then let '(m, p) := parseUnary depth p in (Z.lxor msoConditionUniverse m, p)
      else
        let '(group, p) := take_byte "(" p in
        if group then
          let '(m, p) := parse_list "|" Z.lor (parse_list "&" Z.land (parseUnary depth)) p in
          let '(closed, p) := take_byte ")" p in
          (m, if closed then p else fail p)
        else parseAtom p
  end.
Definition parseAnd (depth : nat) : msoConditionParser -> Z * msoConditionParser := parse_list "&" Z.land (parseUnary depth).
Definition parseOr (depth : nat) : msoConditionParser -> Z * msoConditionParser := parse_list "|" Z.lor (parseAnd depth).

Definition msoConditionAlwaysTrue (condition : gostring) : bool :=
  if beq condition [] || (maxMSOConditionBytes <? length condition)%nat then false
  else
    let '(mask, p) := parseOr maxMSOConditionDepth (MkParser condition false) in
    negb (mc_failed p) && beq (skipSpace (mc_rest p)) [] && (mask =? msoConditionUniverse).

(** ** Markers *)

Inductive msoRevealedMarker := msoRevealedNone | msoRevealedStart | msoRevealedUniversalStart | msoRevealedEnd.
#[export] Instance msoRevealedMarker_eq_dec : EqDecision msoRevealedMarker.
Proof. solve_decision. Defined.

Fixpoint before_first (marker value : gostring) : option (gostring * gostring) :=
  if hasPrefix value marker then Some ([], drop (length marker) value)
  else match value with [] => None | c :: rest => (λ '(a, b), (c :: a, b)) <$> before_first marker rest end.

Definition msoDownlevelRevealedMarker (data : gostring) : msoRevealedMarker :=
  let trimmed := trimSpace data in
  if equalASCIIFold trimmed (lit "<![endif]") then msoRevealedEnd
  else if negb (hasASCIIFoldPrefix trimmed (lit "[if ")) then msoRevealedNone
  else
    match before_first (lit "]>") trimmed with
    | None => msoRevealedNone
    | Some (before, after) =>
        if negb (hasPrefix (trimSpace after) (lit "<!")) then msoRevealedNone
        else if msoConditionAlwaysTrue (drop 4 before) then msoRevealedUniversalStart
        else msoRevealedStart
    end.

(** The fragment of a hidden conditional comment, the source of its styles. *)
Definition msoConditionalFragment (data : gostring) : option gostring :=
  let trimmed := trimSpace data in
  if (length trimmed <? 6)%nat || negb (hasASCIIFoldPrefix trimmed (lit "[if ")) then None
  else
    match before_first (lit "]>") trimmed with
    | None => None
    | Some (before, after) =>
        if negb (containsASCIIFold (drop 4 before) (lit "mso")) then None
        else
          match before_last_ASCIIFold trimmed (lit "<![endif]") with
          | Some head => if (length before + 2 <? length head)%nat then Some (drop (length before + 2) head) else None
          | None => None
          end
    end.

(** Open regions: whether each is uncertain, the innermost first. *)
Record msoRevealedState := MkRevealed { mr_stack : list bool; mr_uncertain : Z }.
Definition update (marker : msoRevealedMarker) (s : msoRevealedState) : msoRevealedState :=
  match marker with
  | msoRevealedStart => MkRevealed (true :: mr_stack s) (mr_uncertain s + 1)
  | msoRevealedUniversalStart => MkRevealed (false :: mr_stack s) (mr_uncertain s)
  | msoRevealedEnd =>
      match mr_stack s with
      | last :: rest => MkRevealed rest (if last then mr_uncertain s - 1 else mr_uncertain s)
      | [] => s
      end
  | msoRevealedNone => s
  end.

(** ** Conditions and their meaning *)

Inductive condition :=
  | CTrue | CFalse | CIE | CMso
  | CVersion (op : operator) (wanted : Z)
  | CNot (c : condition) | CAnd (a b : condition) | COr (a b : condition).
(** Word in a version of Office, embedded in Internet Explorer or not. *)
Fixpoint holds (c : condition) (version : Z) (ie : bool) : bool :=
  match c with
  | CTrue | CMso => true
  | CFalse => false
  | CIE => ie
  | CVersion op wanted => matches op version wanted
  | CNot c => negb (holds c version ie)
  | CAnd a b => holds a version ie && holds b version ie
  | COr a b => holds a version ie || holds b version ie
  end.

(** ** The grammar *)

Definition spaces (w : gostring) : Prop := Forall (λ c, mso_space c = true) w.
Definition keyword (k w : gostring) : Prop := equalASCIIFold w k = true.
Definition digits_value (value : Z) (ds : gostring) : Z := fold_left (λ v c, v * 10 + (code c - 48)) ds value.
Definition numeral (ds : gostring) (v : Z) : Prop := ds <> [] /\ Forall (λ c, digit c = true) ds /\ digits_value 0 ds = v /\ v <= max_int32.

Inductive atom : condition -> gostring -> Prop :=
  | AtomTrue w k : spaces w -> keyword (lit "true") k -> atom CTrue (w ++ k)
  | AtomFalse w k : spaces w -> keyword (lit "false") k -> atom CFalse (w ++ k)
  | AtomIE w k : spaces w -> keyword (lit "IE") k -> atom CIE (w ++ k)
  | AtomMso w k : spaces w -> keyword (lit "mso") k -> atom CMso (w ++ k)
  | AtomVersion w k w1 ds v : spaces w -> keyword (lit "mso") k -> spaces w1 -> numeral ds v -> atom (CVersion OpEq v) (w ++ k ++ w1 ++ ds)
  | AtomCompare w o w1 k w2 ds op v : spaces w -> comparison_of o = Some op -> spaces w1 -> w1 <> [] -> keyword (lit "mso") k -> spaces w2 -> numeral ds v ->
      atom (CVersion op v) (w ++ o ++ w1 ++ k ++ w2 ++ ds).

(** Items with separators between them, from left to right. *)
Inductive listed (sep : ascii) (op : condition -> condition -> condition) (item : condition -> gostring -> Prop) : condition -> gostring -> Prop :=
  | ListedOne c t : item c t -> listed sep op item c t
  | ListedMore a s w b t : listed sep op item a s -> spaces w -> item b t -> listed sep op item (op a b) (s ++ w ++ sep :: t).

Fixpoint unary_text (depth : nat) (c : condition) (s : gostring) : Prop :=
  match depth with
  | O => False
  | S depth =>
      atom c s \/
      (exists w t c', s = w ++ "!"%char :: t /\ spaces w /\ c = CNot c' /\ unary_text depth c' t) \/
      (exists w t w', s = w ++ "("%char :: t ++ w' ++ [")"%char] /\ spaces w /\ spaces w' /\ listed "|" COr (listed "&" CAnd (unary_text depth)) c t)
  end.
Definition or_text (depth : nat) : condition -> gostring -> Prop := listed "|" COr (listed "&" CAnd (unary_text depth)).

(** ** Bits *)

Definition environment (version : Z) : Prop := minMSOVersion <= version <= maxMSOVersion.
Record denotes (c : condition) (m : Z) : Prop := {
  dn_bits version ie : environment version -> Z.testbit m (msoEnvironmentBit version ie) = holds c version ie;
  dn_high i : 16 <= i -> Z.testbit m i = false;
}.

Lemma bit_inj a x b y : msoEnvironmentBit a x = msoEnvironmentBit b y <-> a = b /\ x = y.
Proof. unfold msoEnvironmentBit. split; [|by intros [-> ->]]. destruct x, y; intros H; try (exfalso; lia); split; [lia|done|lia|done]. Qed.
Lemma bit_range version ie : environment version -> 0 <= msoEnvironmentBit version ie < 16.
Proof. unfold environment, msoEnvironmentBit, minMSOVersion, maxMSOVersion. destruct ie; lia. Qed.
Lemma bit_of i : 0 <= i < 16 -> exists version ie, environment version /\ msoEnvironmentBit version ie = i.
Proof.
  intros Hi. exists (9 + i / 2), (Z.odd i). unfold environment, msoEnvironmentBit, minMSOVersion, maxMSOVersion.
  pose proof (Z.div_mod i 2 ltac:(done)) as Hd. rewrite Zmod_odd in Hd. split; [|destruct (Z.odd i); lia].
  assert (0 <= i / 2) by (apply Z.div_pos; lia). assert (i / 2 < 8) by (apply Z.div_lt_upper_bound; lia). lia.
Qed.
Lemma version_elem version : version ∈ mso_versions <-> environment version.
Proof. unfold mso_versions, environment. rewrite elem_of_seqZ. unfold minMSOVersion, maxMSOVersion. lia. Qed.
Lemma shift_bit k i : 0 <= k -> 0 <= i -> Z.testbit (Z.shiftl 1 k) i = (i =? k).
Proof.
  intros Hk Hi. rewrite Z.shiftl_spec by done. destruct (Z.eqb_spec i k) as [->|Hn]; [by rewrite Z.sub_diag|].
  destruct (Z.ltb_spec i k); [apply Z.testbit_neg_r; lia|]. replace 1 with (2 ^ 0) by done. apply Z.pow2_bits_false. lia.
Qed.

(** A mask built version by version. *)
Lemma mask_bits (f : Z -> list bool) l acc i : 0 <= i -> Forall environment l ->
  Z.testbit (fold_left (λ mask version, fold_left (λ mask ie, Z.lor mask (Z.shiftl 1 (msoEnvironmentBit version ie))) (f version) mask) l acc) i =
  Z.testbit acc i || existsb (λ version, existsb (λ ie, i =? msoEnvironmentBit version ie) (f version)) l.
Proof.
  intros Hi. revert acc. induction l as [|v l IH]; intros acc Hl; cbn [fold_left existsb]; [by rewrite orb_false_r|].
  inversion_clear Hl as [|? ? Hv Hl']. rewrite IH by done. rewrite orb_assoc. f_equal. generalize (f v) as ies. intros ies. clear IH Hl' l. revert acc.
  induction ies as [|x ies IH]; intros acc; cbn [fold_left existsb]; [by rewrite orb_false_r|]. rewrite IH, Z.lor_spec, orb_assoc. do 2 f_equal.
  apply shift_bit; [pose proof (bit_range v x Hv); lia|done].
Qed.
Lemma versions_ok : Forall environment mso_versions.
Proof. apply Forall_forall. intros v. by rewrite version_elem. Qed.

Lemma mask_denotes (f : Z -> list bool) c : (forall version ie, ie ∈ f version <-> holds c version ie = true) ->
  denotes c (fold_left (λ mask version, fold_left (λ mask ie, Z.lor mask (Z.shiftl 1 (msoEnvironmentBit version ie))) (f version) mask) mso_versions 0).
Proof.
  intros Hf. split.
  - intros version ie Hv. rewrite mask_bits by (try apply versions_ok; pose proof (bit_range version ie Hv); lia). rewrite Z.testbit_0_l. cbn [orb].
    apply eq_true_iff_eq. rewrite existsb_exists, <- Hf. setoid_rewrite existsb_exists. setoid_rewrite Z.eqb_eq. setoid_rewrite bit_inj. split.
    + intros (x & _ & y & Hy & <- & <-). by apply list_elem_of_In.
    + intros He. exists version. split; [apply list_elem_of_In; by apply version_elem|]. exists ie. split; [by apply list_elem_of_In|done].
  - intros i Hi. rewrite mask_bits by (try apply versions_ok; lia). rewrite Z.testbit_0_l. cbn [orb]. apply not_true_is_false. rewrite existsb_exists.
    intros (v & Hv%list_elem_of_In%version_elem & Hx). apply existsb_exists in Hx as (ie & _ & He%Z.eqb_eq). pose proof (bit_range v ie Hv). lia.
Qed.
Lemma ie_denotes : denotes CIE msoIEMask.
Proof.
  apply (mask_denotes (λ _, [true]) CIE). intros version ie. cbn. rewrite list_elem_of_singleton. done.
Qed.
Lemma fold_left_ext {A B} (f g : A -> B -> A) l a : (forall a b, f a b = g a b) -> fold_left f l a = fold_left g l a.
Proof. intros H. revert a. induction l as [|b l IH]; intros a; [done|]. cbn. by rewrite H, IH. Qed.
Lemma version_denotes op wanted : denotes (CVersion op wanted) (msoVersionMask op wanted).
Proof.
  pose proof (mask_denotes (λ version, if matches op version wanted then [false; true] else []) (CVersion op wanted)) as H.
  unfold msoVersionMask. erewrite fold_left_ext; [apply H|].
  - intros version ie. cbn. destruct (matches op version wanted); [|set_solver]. split; [done|]. intros _. destruct ie; set_solver.
  - intros mask version. cbn. by destruct (matches op version wanted).
Qed.
Lemma universe_bits i : 0 <= i -> Z.testbit msoConditionUniverse i = (i <? 16).
Proof. intros Hi. change msoConditionUniverse with (Z.ones 16). destruct (Z.ltb_spec i 16); [apply Z.ones_spec_low; lia|apply Z.ones_spec_high; lia]. Qed.
Lemma universe_denotes c : (forall version ie, holds c version ie = true) -> denotes c msoConditionUniverse.
Proof.
  intros H. split.
  - intros version ie Hv. pose proof (bit_range version ie Hv). rewrite universe_bits by lia. rewrite H. apply Z.ltb_lt. lia.
  - intros i Hi. rewrite universe_bits by lia. apply Z.ltb_ge. lia.
Qed.
Lemma false_denotes : denotes CFalse 0.
Proof. split; intros; by rewrite Z.testbit_0_l. Qed.
Lemma not_denotes c m : denotes c m -> denotes (CNot c) (Z.lxor msoConditionUniverse m).
Proof.
  intros [H1 H2]. split.
  - intros version ie Hv. pose proof (bit_range version ie Hv). rewrite Z.lxor_spec, H1, universe_bits by (done || lia). cbn. replace (_ <? 16) with true by (symmetry; apply Z.ltb_lt; lia). by rewrite xorb_true_l.
  - intros i Hi. rewrite Z.lxor_spec, H2, universe_bits by lia. replace (i <? 16) with false by (symmetry; apply Z.ltb_ge; lia). done.
Qed.
Lemma and_denotes a b m n : denotes a m -> denotes b n -> denotes (CAnd a b) (Z.land m n).
Proof. intros [H1 H2] [H3 H4]. split; intros; rewrite Z.land_spec; [by rewrite H1, H3|by rewrite H2]. Qed.
Lemma or_denotes a b m n : denotes a m -> denotes b n -> denotes (COr a b) (Z.lor m n).
Proof. intros [H1 H2] [H3 H4]. split; intros; rewrite Z.lor_spec; [by rewrite H1, H3|by rewrite H2, H4]. Qed.
(** A mask is full exactly when its condition holds everywhere. *)
Lemma denotes_universe c m : denotes c m -> m = msoConditionUniverse <-> forall version ie, environment version -> holds c version ie = true.
Proof.
  intros [H1 H2]. split.
  - intros -> version ie Hv. rewrite <- H1 by done. rewrite universe_bits by (pose proof (bit_range version ie Hv); lia). apply Z.ltb_lt. pose proof (bit_range version ie Hv). lia.
  - intros Hall. apply Z.bits_inj'. intros i Hi. rewrite universe_bits by done. destruct (Z.ltb_spec i 16) as [Hlt|Hge]; [|apply H2; lia].
    destruct (bit_of i ltac:(lia)) as (version & ie & Hv & <-). rewrite H1 by done. by apply Hall.
Qed.

(** ** Lexing *)

Lemma span_split f s : s = (span f s).1 ++ (span f s).2.
Proof. induction s as [|c s IH]; [done|]. cbn. destruct (f c); cbn; [by rewrite <- IH|done]. Qed.
Lemma span_all f s : Forall (λ c, f c = true) (span f s).1.
Proof. induction s as [|c s IH]; cbn; [constructor|]. destruct (f c) eqn:E; cbn; by constructor. Qed.
Lemma span_app f a b : Forall (λ c, f c = true) a -> span f (a ++ b) = (a ++ (span f b).1, (span f b).2).
Proof. induction 1 as [|c a Hc _ IH]; cbn; [by destruct (span f b)|]. by rewrite Hc, IH. Qed.
Lemma span_stop f s : match s with [] => True | c :: _ => f c = false end -> span f s = ([], s).
Proof. destruct s as [|c s]; cbn; [done|]. by intros ->. Qed.
Lemma span_rest f s : match (span f s).2 with [] => True | c :: _ => f c = false end.
Proof. induction s as [|c s IH]; cbn; [done|]. destruct (f c) eqn:E; cbn; [done|by rewrite E]. Qed.
Lemma skip_app w s : spaces w -> skipSpace (w ++ s) = skipSpace s.
Proof. intros H. unfold skipSpace. by rewrite span_app. Qed.
Lemma skip_split s : exists w, spaces w /\ s = w ++ skipSpace s.
Proof. exists (span mso_space s).1. split; [apply span_all|apply span_split]. Qed.
Lemma skip_skip s : skipSpace (skipSpace s) = skipSpace s.
Proof. unfold skipSpace at 1. rewrite span_stop; [done|]. apply span_rest. Qed.
Lemma skip_length s : (length (skipSpace s) <= length s)%nat.
Proof. destruct (skip_split s) as (w & _ & E). rewrite E at 2. rewrite length_app. lia. Qed.
Lemma skip_stop c s : mso_space c = false -> skipSpace (c :: s) = c :: s.
Proof. intros H. unfold skipSpace. by rewrite span_stop. Qed.
Lemma spaces_app a b : spaces a -> spaces b -> spaces (a ++ b).
Proof. intros. by apply Forall_app. Qed.

(** The rest after an operand: the same but for spaces before it. *)
Definition near (r rest : gostring) : Prop := skipSpace r = skipSpace rest /\ (length r <= length rest)%nat.
Lemma near_refl r : near r r.
Proof. by split. Qed.
Lemma near_skip r : near (skipSpace r) r.
Proof. split; [apply skip_skip|apply skip_length]. Qed.
Lemma near_trans a b c : near a b -> near b c -> near a c.
Proof. intros [H1 H2] [H3 H4]. split; [congruence|lia]. Qed.

(** What may follow an operand. *)
Definition stops (l : list ascii) (rest : gostring) : Prop := match skipSpace rest with [] => True | c :: _ => c ∈ l end.
Definition after_unary : list ascii := ["&"; "|"; ")"]%char.
Definition after_and : list ascii := ["|"; ")"]%char.
Definition after_or : list ascii := [")"]%char.
Lemma stops_weaken l l' rest : (forall c, c ∈ l -> c ∈ l') -> stops l rest -> stops l' rest.
Proof. unfold stops. destruct (skipSpace rest); auto. Qed.
Lemma stops_sep l sep w s : spaces w -> mso_space sep = false -> sep ∈ l -> stops l (w ++ sep :: s).
Proof. intros Hw Hs Hl. unfold stops. rewrite skip_app, skip_stop by done. done. Qed.
(** Such a rest begins neither with a letter nor, after spaces, with a digit. *)
Lemma stops_head f rest : (forall c, mso_space c = true -> f c = false) -> (forall c, c ∈ after_unary -> f c = false) -> stops after_unary rest ->
  match rest with [] => True | c :: _ => f c = false end.
Proof.
  intros Hs Hu H. destruct rest as [|c rest]; [done|]. unfold stops in H. destruct (mso_space c) eqn:E; [by apply Hs|]. rewrite skip_stop in H by done. by apply Hu.
Qed.
Lemma space_not_letter c : mso_space c = true -> letter c = false.
Proof. unfold mso_space. rewrite !orb_true_iff. unfold ceq. rewrite !bool_decide_eq_true. intros [[[[->| ->]| ->]| ->]| ->]; by vm_compute. Qed.
Lemma space_not_digit c : mso_space c = true -> digit c = false.
Proof. unfold mso_space. rewrite !orb_true_iff. unfold ceq. rewrite !bool_decide_eq_true. intros [[[[->| ->]| ->]| ->]| ->]; by vm_compute. Qed.
Lemma after_unary_char c : c ∈ after_unary -> letter c = false /\ digit c = false /\ mso_space c = false.
Proof. unfold after_unary. rewrite !elem_of_cons, elem_of_nil. intros [->|[->|[->|[]]]]; by vm_compute. Qed.
Lemma stops_word rest : stops after_unary rest -> span letter rest = ([], rest).
Proof. intros H. apply span_stop. apply stops_head; [exact space_not_letter| |done]. intros c Hc. by apply after_unary_char. Qed.
Lemma stops_digit rest : stops after_unary rest -> match rest with [] => True | c :: _ => digit c = false end.
Proof. apply stops_head; [exact space_not_digit|]. intros c Hc. by apply after_unary_char. Qed.

(** *** Words *)

Lemma lower_letter c : letter (lower_ascii c) = letter c.
Proof. destruct c as [[] [] [] [] [] [] [] []]; by vm_compute. Qed.
Lemma fold_letters w k : equalASCIIFold w k = true -> Forall (λ c, letter c = true) k -> Forall (λ c, letter c = true) w.
Proof.
  unfold equalASCIIFold, beq. rewrite bool_decide_eq_true. revert k. induction w as [|c w IH]; intros [|d k]; try done.
  cbn. intros H Hk. inversion_clear Hk as [|? ? Hd Hk']. injection H as Hc Hr. constructor; [|by eapply IH]. by rewrite <- lower_letter, Hc, lower_letter.
Qed.
Lemma fold_length w k : equalASCIIFold w k = true -> length w = length k.
Proof. unfold equalASCIIFold, beq. rewrite bool_decide_eq_true. intros H%(f_equal length). by rewrite !length_fmap in H. Qed.
Lemma fold_unique w k k' : equalASCIIFold w k = true -> equalASCIIFold w k' = beq (lower_ascii <$> k) (lower_ascii <$> k').
Proof. unfold equalASCIIFold, beq. rewrite bool_decide_eq_true. by intros ->. Qed.
Lemma letters_not_space w : Forall (λ c, letter c = true) w -> w <> [] -> forall s, skipSpace (w ++ s) = w ++ s.
Proof.
  intros Hw Hn s. destruct w as [|c w]; [done|]. inversion_clear Hw as [|? ? Hc _]. apply skip_stop. apply not_true_is_false. intros H%space_not_letter. congruence.
Qed.
(** A word in front of something that is not a letter. *)
Lemma word_reads w k rest : spaces w -> Forall (λ c, letter c = true) k -> k <> [] -> span letter rest = ([], rest) -> word (MkParser (w ++ k ++ rest) false) = (k, MkParser rest false).
Proof.
  intros Hw Hk Hn Hr. unfold word. cbn [mc_rest mc_failed]. rewrite skip_app, letters_not_space, span_app, Hr by done. cbn. by rewrite app_nil_r.
Qed.
Lemma word_splits p k p' : word p = (k, p') -> exists w, spaces w /\ mc_rest p = w ++ k ++ mc_rest p' /\ mc_failed p' = mc_failed p /\ Forall (λ c, letter c = true) k /\
  match mc_rest p' with [] => True | c :: _ => letter c = false end.
Proof.
  unfold word. pose proof (span_split letter (skipSpace (mc_rest p))) as Hs. pose proof (span_all letter (skipSpace (mc_rest p))) as Ha. pose proof (span_rest letter (skipSpace (mc_rest p))) as Hr.
  destruct (span letter (skipSpace (mc_rest p))) as [a b]. cbn [fst snd] in *. intros [= <- <-]. destruct (skip_split (mc_rest p)) as (w & Hw & E). exists w. cbn [mc_rest mc_failed]. rewrite E at 1. by rewrite Hs.
Qed.

(** *** Numbers *)

Lemma digit_range c : digit c = true -> 0 <= code c - 48 <= 9.
Proof. unfold digit, in_range. rewrite andb_true_iff, !Z.leb_le. lia. Qed.
Lemma digits_mono value ds : 0 <= value -> Forall (λ c, digit c = true) ds -> value <= digits_value value ds.
Proof.
  intros Hv H. revert value Hv. induction H as [|c ds Hc _ IH]; intros value Hv; [done|]. unfold digits_value. cbn [fold_left].
  pose proof (digit_range c Hc). specialize (IH (value * 10 + (code c - 48)) ltac:(lia)). unfold digits_value in IH. lia.
Qed.
Lemma number_reads ds rest value : 0 <= value -> Forall (λ c, digit c = true) ds -> digits_value value ds <= max_int32 -> match rest with [] => True | c :: _ => digit c = false end ->
  number_go value (ds ++ rest) = (digits_value value ds, rest, false).
Proof.
  intros Hv H. revert value Hv. induction H as [|c ds Hc Hds IH]; intros value Hv Hm Hr.
  - cbn. destruct rest as [|c rest]; [done|]. cbn. by rewrite Hr.
  - cbn [app number_go]. rewrite Hc. pose proof (digit_range c Hc) as Hd. unfold digits_value in Hm. cbn [fold_left] in Hm. change (digits_value (value * 10 + (code c - 48)) ds <= max_int32) in Hm.
    pose proof (digits_mono (value * 10 + (code c - 48)) ds ltac:(lia) Hds) as Hle.
    destruct (Z.ltb_spec ((max_int32 - (code c - 48)) / 10) value) as [Hlt|_].
    + exfalso. pose proof (Z.div_le_lower_bound (max_int32 - (code c - 48)) 10 value ltac:(lia) ltac:(lia)). lia.
    + rewrite IH by (done || lia). done.
Qed.
Lemma number_splits s value v rest : 0 <= value -> number_go value s = (v, rest, false) ->
  exists ds, s = ds ++ rest /\ Forall (λ c, digit c = true) ds /\ v = digits_value value ds /\ (value <= max_int32 -> v <= max_int32).
Proof.
  revert value. induction s as [|c s IH]; intros value Hv; cbn [number_go]; [intros [= <- <-]; by exists []|].
  destruct (digit c) eqn:Hc; [|intros [= <- <-]; by exists []]. destruct (Z.ltb_spec ((max_int32 - (code c - 48)) / 10) value) as [|Hle]; [done|].
  pose proof (digit_range c Hc) as Hd. intros (ds & -> & Hds & -> & Hb)%IH; [|lia]. exists (c :: ds). split_and!; [done|by constructor|done|]. intros _. apply Hb.
  pose proof (Z.mul_div_le (max_int32 - (code c - 48)) 10 ltac:(lia)). lia.
Qed.
Lemma numeral_reads w ds v rest : spaces w -> numeral ds v -> match rest with [] => True | c :: _ => digit c = false end ->
  number (MkParser (w ++ ds ++ rest) false) = (Some v, MkParser rest false) /\ optionalNumber (MkParser (w ++ ds ++ rest) false) = (Some v, MkParser rest false).
Proof.
  intros Hw (Hn & Hds & <- & Hm) Hr. assert (Hs : skipSpace (w ++ ds ++ rest) = ds ++ rest).
  { rewrite skip_app by done. destruct ds as [|c ds]; [done|]. inversion_clear Hds as [|? ? Hc _]. apply skip_stop. apply not_true_is_false. intros H%space_not_digit. congruence. }
  assert (Hnum : number (MkParser (w ++ ds ++ rest) false) = (Some (digits_value 0 ds), MkParser rest false)).
  { unfold number. cbn [mc_rest mc_failed]. rewrite Hs, number_reads by done. replace (length rest =? length (ds ++ rest))%nat with false; [done|].
    symmetry. apply Nat.eqb_neq. rewrite length_app. destruct ds; [done|cbn; lia]. }
  split; [done|]. unfold optionalNumber. cbn [mc_rest]. rewrite Hs. destruct ds as [|c ds]; [done|]. cbn [app]. inversion_clear Hds as [|? ? Hc _]. rewrite Hc. exact Hnum.
Qed.
Lemma numeral_splits p v p' : number p = (Some v, p') -> exists w ds, spaces w /\ numeral ds v /\ mc_rest p = w ++ ds ++ mc_rest p' /\ mc_failed p' = mc_failed p.
Proof.
  unfold number. destruct (number_go 0 (skipSpace (mc_rest p))) as [[n rest] o] eqn:E. destruct o; [done|]. destruct (Nat.eqb_spec (length rest) (length (skipSpace (mc_rest p)))) as [|Hn]; [done|].
  intros [= <- <-]. destruct (number_splits _ _ _ _ ltac:(done) E) as (ds & Hs & Hds & Hv & Hm). destruct (skip_split (mc_rest p)) as (w & Hw & Hp). exists w, ds. cbn [mc_rest mc_failed].
  split_and!; [done| |by rewrite <- Hs|done]. split_and!; [|done|done|by apply Hm]. intros ->. by rewrite Hs in Hn.
Qed.
(** Without a number nothing but spaces is taken. *)
Lemma no_number p p' : optionalNumber p = (None, p') -> mc_failed p' = false -> mc_rest p' = skipSpace (mc_rest p) /\ mc_failed p = false.
Proof.
  unfold optionalNumber. destruct (skipSpace (mc_rest p)) as [|c rest] eqn:E; [by intros [= <-]|]. destruct (digit c) eqn:Hc; [|by intros [= <-]].
  unfold number. rewrite E. destruct (number_go 0 (c :: rest)) as [[n r] o] eqn:En. destruct o; [by intros [= <-]|]. destruct (Nat.eqb_spec (length r) (length (c :: rest))) as [Hl|]; [|done].
  exfalso. cbn [number_go] in En. rewrite Hc in En. destruct (_ <? 0) in En; [done|]. destruct (number_splits _ (0 * 10 + (code c - 48)) _ _ ltac:(pose proof (digit_range c Hc); lia) En) as (ds & -> & _). cbn [length] in Hl. rewrite length_app in Hl. lia.
Qed.
Lemma optional_number_reads rest : stops after_unary rest -> optionalNumber (MkParser rest false) = (None, MkParser (skipSpace rest) false).
Proof.
  unfold optionalNumber, stops. cbn [mc_rest mc_failed]. destruct (skipSpace rest) as [|c r]; [done|]. intros Hc. destruct (after_unary_char c Hc) as (_ & -> & _). done.
Qed.
Lemma optional_number p v p' : optionalNumber p = (Some v, p') -> number p = (Some v, p').
Proof. unfold optionalNumber. destruct (skipSpace (mc_rest p)) as [|c r]; [done|]. by destruct (digit c). Qed.

(** ** Atoms *)

Lemma keyword_word K k : keyword K k -> Forall (λ c, letter c = true) K -> K <> [] -> Forall (λ c, letter c = true) k /\ k <> [].
Proof. intros Hk HK Hn. split; [by eapply fold_letters|]. intros ->. apply fold_length in Hk. by destruct K. Qed.
Lemma comparison_keyword o op : comparison_of o = Some op -> exists K, keyword K o /\ K ∈ [lit "lt"; lit "lte"; lit "gt"; lit "gte"].
Proof.
  unfold comparison_of. repeat (case_match; [intros _; eexists; split; [eassumption|set_solver]|]). done.
Qed.
Lemma comparison_facts o op : comparison_of o = Some op -> Forall (λ c, letter c = true) o /\ o <> [] /\
  equalASCIIFold o (lit "true") = false /\ equalASCIIFold o (lit "false") = false /\ equalASCIIFold o (lit "IE") = false /\ equalASCIIFold o (lit "mso") = false.
Proof.
  intros (K & Hk & HK)%comparison_keyword. assert (HL : Forall (λ c, letter c = true) K /\ K <> []).
  { rewrite !elem_of_cons, elem_of_nil in HK. destruct HK as [->|[->|[->|[->|[]]]]]; split; try done; repeat constructor. }
  destruct (keyword_word K o Hk) as [H1 H2]; [apply HL..|]. rewrite !(fold_unique o K _ Hk). rewrite !elem_of_cons, elem_of_nil in HK.
  destruct HK as [->|[->|[->|[->|[]]]]]; by vm_compute.
Qed.
Lemma parseAtom_skip s f : parseAtom (MkParser (skipSpace s) f) = parseAtom (MkParser s f).
Proof. unfold parseAtom, word. cbn [mc_rest mc_failed]. by rewrite skip_skip. Qed.

Ltac keyword_tests Hk := rewrite ?(fold_unique _ _ (lit "true") Hk), ?(fold_unique _ _ (lit "false") Hk), ?(fold_unique _ _ (lit "IE") Hk), ?(fold_unique _ _ (lit "mso") Hk).
Lemma word_nonempty (k : gostring) : k <> [] -> beq k [] = false.
Proof. unfold beq. intros. by rewrite bool_decide_false. Qed.

Lemma numeral_ends_word w ds v rest : spaces w -> numeral ds v -> span letter (w ++ ds ++ rest) = ([], w ++ ds ++ rest).
Proof.
  intros Hs (Hn & Hds & _). apply span_stop. destruct w as [|x w]; cbn; [|inversion_clear Hs; by apply space_not_letter]. destruct ds as [|x ds]; [done|]. cbn.
  inversion_clear Hds as [|? ? Hx _]. unfold digit, letter, in_range in *. apply andb_true_iff in Hx as [Hx1%Z.leb_le Hx2%Z.leb_le]. apply orb_false_iff.
  split; apply andb_false_iff; left; apply Z.leb_gt; lia.
Qed.

Lemma atom_reads c t rest : atom c t -> stops after_unary rest ->
  exists m r, parseAtom (MkParser (t ++ rest) false) = (m, MkParser r false) /\ near r rest /\ denotes c m.
Proof.
  intros Ha Hr. pose proof (stops_word rest Hr) as Hw. pose proof (stops_digit rest Hr) as Hd. unfold parseAtom.
  assert (Hsimple : forall w k K, spaces w -> keyword K k -> Forall (λ c, letter c = true) K -> K <> [] -> word (MkParser ((w ++ k) ++ rest) false) = (k, MkParser rest false) /\ beq k [] = false).
  { intros w k K H1 H2 H3 H4. destruct (keyword_word K k H2 H3 H4). rewrite <- app_assoc, word_reads by done. split; [done|by apply word_nonempty]. }
  destruct Ha as [w k Hs Hk|w k Hs Hk|w k Hs Hk|w k Hs Hk|w k w1 ds v Hs Hk Hs1 Hv|w o w1 k w2 ds op v Hs Ho Hs1 Hn1 Hk Hs2 Hv].
  - destruct (Hsimple w k _ Hs Hk) as [-> ->]; [repeat constructor|done|]. rewrite Hk. eexists _, _. split; [reflexivity|]. split; [apply near_refl|by apply universe_denotes].
  - destruct (Hsimple w k _ Hs Hk) as [-> ->]; [repeat constructor|done|]. keyword_tests Hk. eexists _, _. split; [reflexivity|]. split; [apply near_refl|apply false_denotes].
  - destruct (Hsimple w k _ Hs Hk) as [-> ->]; [repeat constructor|done|]. keyword_tests Hk. eexists _, _. split; [reflexivity|]. split; [apply near_refl|apply ie_denotes].
  - destruct (Hsimple w k _ Hs Hk) as [-> ->]; [repeat constructor|done|]. keyword_tests Hk. cbn. rewrite optional_number_reads by done. eexists _, _. split; [reflexivity|].
    split; [apply near_skip|by apply universe_denotes].
  - destruct (keyword_word _ k Hk) as [H1 H2]; [repeat constructor|done|]. rewrite <- !app_assoc. rewrite word_reads; [|done..|].
    2:{ by eapply numeral_ends_word. }
    rewrite (word_nonempty k H2). keyword_tests Hk. cbn. rewrite (proj2 (numeral_reads w1 ds v rest Hs1 Hv Hd)). eexists _, _. split; [reflexivity|]. split; [apply near_refl|apply version_denotes].
  - destruct (comparison_facts o op Ho) as (H1 & H2 & E1 & E2 & E3 & E4). destruct (keyword_word _ k Hk) as [H3 H4]; [repeat constructor|done|]. rewrite <- !app_assoc. rewrite word_reads; [|done..|].
    2:{ apply span_stop. destruct w1 as [|x w1]; [done|]. cbn. inversion_clear Hs1. by apply space_not_letter. }
    rewrite (word_nonempty o H2), E1, E2, E3, E4, Ho. rewrite word_reads; [|done..|].
    2:{ by eapply numeral_ends_word. }
    rewrite Hk. cbn [negb]. rewrite (proj1 (numeral_reads w2 ds v rest Hs2 Hv Hd)). eexists _, _. split; [reflexivity|]. split; [apply near_refl|apply version_denotes].
Qed.

Lemma atom_splits p m p' : parseAtom p = (m, p') -> mc_failed p' = false ->
  mc_failed p = false /\ exists c t w, mc_rest p = t ++ w ++ mc_rest p' /\ spaces w /\ atom c t /\ denotes c m.
Proof.
  unfold parseAtom. destruct (word p) as [k p1] eqn:Ew. destruct (word_splits _ _ _ Ew) as (w & Hs & Ep & Ef & _ & Hl). rewrite Ep, <- Ef.
  assert (Hdone : forall c, atom c (w ++ k) -> denotes c m -> mc_failed p1 = false -> p' = p1 ->
    mc_failed p1 = false /\ exists c t w0, w ++ k ++ mc_rest p1 = t ++ w0 ++ mc_rest p' /\ spaces w0 /\ atom c t /\ denotes c m).
  { intros c Hc Hm Hf ->. split; [done|]. exists c, (w ++ k), []. rewrite <- app_assoc. split_and!; try done. constructor. }
  destruct (beq k []); [by intros [= <- <-]|].
  destruct (equalASCIIFold k (lit "true")) eqn:E1; [intros [= <- <-] Hf; apply (Hdone CTrue); [by constructor|by apply universe_denotes|done..]|].
  destruct (equalASCIIFold k (lit "false")) eqn:E2; [intros [= <- <-] Hf; apply (Hdone CFalse); [by constructor|apply false_denotes|done..]|].
  destruct (equalASCIIFold k (lit "IE")) eqn:E3; [intros [= <- <-] Hf; apply (Hdone CIE); [by constructor|apply ie_denotes|done..]|].
  destruct (equalASCIIFold k (lit "mso")) eqn:E4.
  - destruct (optionalNumber p1) as [[v|] p2] eqn:En; intros [= <- <-] Hf.
    + apply optional_number in En. destruct (numeral_splits _ _ _ En) as (w1 & ds & Hw1 & Hv & Hp & Hf2). split; [congruence|]. exists (CVersion OpEq v), (w ++ k ++ w1 ++ ds), [].
      rewrite Hp, <- !app_assoc. split_and!; [done|constructor|by constructor|apply version_denotes].
    + destruct (no_number _ _ En Hf) as [Hp Hf1]. split; [done|]. destruct (skip_split (mc_rest p1)) as (w1 & Hw1 & E). exists CMso, (w ++ k), w1. rewrite Hp, <- app_assoc, <- E.
      split_and!; [done..|by constructor|by apply universe_denotes].
  - destruct (comparison_of k) as [op|] eqn:Eo; [|by intros [= <- <-]]. destruct (word p1) as [f p2] eqn:Ew2. destruct (word_splits _ _ _ Ew2) as (w1 & Hs1 & Ep1 & Ef1 & _ & _).
    destruct (equalASCIIFold f (lit "mso")) eqn:E5; cbn [negb]; [|by intros [= <- <-]]. destruct (number p2) as [[v|] p3] eqn:En; [|by intros [= <- <-]]. intros [= <- <-] Hf.
    destruct (numeral_splits _ _ _ En) as (w2 & ds & Hw2 & Hv & Hp & Hf2). split; [congruence|]. exists (CVersion op v), (w ++ k ++ w1 ++ f ++ w2 ++ ds), []. rewrite Ep1, Hp, <- !app_assoc.
    split_and!; [done|constructor| |apply version_denotes]. constructor; try done. intros ->. rewrite Ep1 in Hl. destruct (keyword_word _ f E5) as [H1 H2]; [repeat constructor|done|].
    destruct f as [|x f]; [done|]. cbn in Hl. inversion_clear H1. congruence.
Qed.

(** An atom begins with a letter, after spaces, and may have more of them. *)
Lemma atom_word c t : atom c t -> exists w x s, spaces w /\ t = w ++ x :: s /\ letter x = true.
Proof.
  assert (H : forall w k rest, spaces w -> Forall (λ c, letter c = true) k /\ k <> [] -> exists w' x s, spaces w' /\ w ++ k ++ rest = w' ++ x :: s /\ letter x = true).
  { intros w k rest Hw [Hk Hn]. destruct k as [|x k]; [done|]. inversion_clear Hk. by exists w, x, (k ++ rest). }
  assert (H0 : forall w k, spaces w -> Forall (λ c, letter c = true) k /\ k <> [] -> exists w' x s, spaces w' /\ w ++ k = w' ++ x :: s /\ letter x = true).
  { intros w k Hw Hk. destruct (H w k [] Hw Hk) as (w' & x & s & E). rewrite app_nil_r in E. by exists w', x, s. }
  intros []; try (apply H0; [done|]; eapply keyword_word; [done|repeat constructor|done]); apply H; try done; [eapply keyword_word; [done|repeat constructor|done]|].
  edestruct comparison_facts as (? & ? & _); [eassumption|done].
Qed.
Lemma atom_head c t rest : atom c t -> exists x s, skipSpace (t ++ rest) = x :: s /\ letter x = true.
Proof.
  intros (w & x & s & Hw & -> & Hx)%atom_word. exists x, (s ++ rest). split; [|done]. rewrite <- app_assoc, skip_app by done. apply skip_stop. apply not_true_is_false. intros H%space_not_letter. congruence.
Qed.
Lemma letter_no_sign x : letter x = true -> ceq x "!" = false /\ ceq x "(" = false.
Proof. intros H. unfold ceq. rewrite !bool_decide_eq_false. split; intros ->; by vm_compute in H. Qed.
Lemma atom_spaces c t w : spaces w -> atom c t -> atom c (w ++ t).
Proof. intros Hw []; rewrite app_assoc; constructor; try done; by apply spaces_app. Qed.

(** ** Lists of operands *)

Lemma take_reads sep w rest : spaces w -> mso_space sep = false -> take_byte sep (MkParser (w ++ sep :: rest) false) = (true, MkParser rest false).
Proof. intros Hw Hs. unfold take_byte. cbn [mc_rest mc_failed]. rewrite skip_app, skip_stop by done. unfold ceq. by rewrite bool_decide_true. Qed.
Lemma take_reads_near sep r rest : skipSpace r = sep :: rest -> take_byte sep (MkParser r false) = (true, MkParser rest false).
Proof. intros E. unfold take_byte. cbn [mc_rest mc_failed]. rewrite E. unfold ceq. by rewrite bool_decide_true. Qed.
Lemma take_other sep r x s : skipSpace r = x :: s -> ceq x sep = false -> take_byte sep (MkParser r false) = (false, MkParser (x :: s) false).
Proof. intros E H. unfold take_byte. cbn [mc_rest mc_failed]. by rewrite E, H. Qed.
Lemma take_refuses sep l r : stops l r -> sep ∉ l -> take_byte sep (MkParser r false) = (false, MkParser (skipSpace r) false).
Proof.
  unfold stops, take_byte. cbn [mc_rest mc_failed]. destruct (skipSpace r) as [|c s]; [done|]. intros Hc Hn. unfold ceq. rewrite bool_decide_false; [done|]. by intros ->.
Qed.
Lemma take_splits sep p b p' : take_byte sep p = (b, p') -> mc_failed p' = mc_failed p /\ exists w, spaces w /\ mc_rest p = w ++ (if b then [sep] else []) ++ mc_rest p'.
Proof.
  unfold take_byte. destruct (skip_split (mc_rest p)) as (w & Hw & E). destruct (skipSpace (mc_rest p)) as [|c s] eqn:Es.
  - intros [= <- <-]. split; [done|]. exists w. done.
  - unfold ceq. case_bool_decide as Ec; intros [= <- <-]; (split; [done|]); exists w; [by subst|done].
Qed.

Definition reads_text (item : condition -> gostring -> Prop) (parse : msoConditionParser -> Z * msoConditionParser) (after : list ascii) : Prop :=
  forall c t rest, item c t -> stops after rest -> exists m r, parse (MkParser (t ++ rest) false) = (m, MkParser r false) /\ near r rest /\ denotes c m.
Definition splits_text (item : condition -> gostring -> Prop) (parse : msoConditionParser -> Z * msoConditionParser) : Prop :=
  forall p m p', parse p = (m, p') -> mc_failed p' = false -> mc_failed p = false /\ exists c t w, mc_rest p = t ++ w ++ mc_rest p' /\ spaces w /\ item c t /\ denotes c m.

Section Lists.
Context (sep : ascii) (op : condition -> condition -> condition) (combine : Z -> Z -> Z) (item : condition -> gostring -> Prop).
Context (operand : msoConditionParser -> Z * msoConditionParser) (inside outside : list ascii).
Context (sep_ok : mso_space sep = false) (sep_in : sep ∈ inside) (sep_out : sep ∉ outside) (out_in : forall c, c ∈ outside -> c ∈ inside).
Context (combine_ok : forall a b m n, denotes a m -> denotes b n -> denotes (op a b) (combine m n)).
Context (reads : reads_text item operand inside) (splits : splits_text item operand).
#[local] Set Default Proof Using "All".

Lemma operands_reads c t rest : listed sep op item c t -> stops inside rest ->
  exists m r fuel, parse_list sep combine operand (MkParser (t ++ rest) false) = operands fuel sep combine operand m (MkParser r false) /\ near r rest /\ (length r <= fuel)%nat /\ denotes c m.
Proof.
  intros H. revert rest. induction H as [c t Hi|a s w b t _ IH Hw Hi]; intros rest Hr.
  - destruct (reads c t rest Hi Hr) as (m & r & E & Hn & Hd). exists m, r, (length r). unfold parse_list. by rewrite E.
  - destruct (IH (w ++ sep :: t ++ rest)) as (m1 & r1 & fuel & E & [Hn1 Hn2] & Hf & Hd); [by apply stops_sep|]. rewrite <- !app_assoc. cbn [app]. rewrite E.
    rewrite skip_app, skip_stop in Hn1 by done. assert (Hl : (S (length (t ++ rest)) <= length r1)%nat) by (pose proof (skip_length r1) as Hs; rewrite Hn1 in Hs; exact Hs).
    destruct fuel as [|fuel]; [lia|]. cbn [operands mc_failed]. rewrite (take_reads_near _ _ _ Hn1). destruct (reads b t rest Hi Hr) as (m2 & r2 & E2 & [Hm1 Hm2] & Hd2). rewrite E2.
    exists (combine m1 m2), r2, fuel. split_and!; [done|by split| |by apply combine_ok]. rewrite length_app in Hl. lia.
Qed.
Lemma list_reads : reads_text (listed sep op item) (parse_list sep combine operand) outside.
Proof.
  intros c t rest H Hr. destruct (operands_reads c t rest H) as (m & r & fuel & E & Hn & _ & Hd); [by eapply stops_weaken|]. rewrite E. exists m, (skipSpace r).
  assert (Ht : take_byte sep (MkParser r false) = (false, MkParser (skipSpace r) false)). { apply (take_refuses sep outside); [|done]. unfold stops in *. by rewrite (proj1 Hn). }
  destruct fuel; cbn [operands mc_failed]; rewrite Ht; (split; [done|]); (split; [|done]); eapply near_trans; [apply near_skip|done|apply near_skip|done].
Qed.

Lemma operands_splits fuel m0 p m p' c0 t0 w0 : operands fuel sep combine operand m0 p = (m, p') -> mc_failed p' = false -> (length (mc_rest p) <= fuel)%nat ->
  listed sep op item c0 t0 -> spaces w0 -> denotes c0 m0 -> mc_failed p = false /\ exists c t w, t0 ++ w0 ++ mc_rest p = t ++ w ++ mc_rest p' /\ spaces w /\ listed sep op item c t /\ denotes c m.
Proof.
  revert m0 p c0 t0 w0. induction fuel as [|fuel IH]; intros m0 p c0 t0 w0; cbn [operands]; (destruct (mc_failed p) eqn:Ef; [intros [= <- <-]; congruence|]);
    destruct (take_byte sep p) as [b p1] eqn:Et; destruct (take_splits _ _ _ _ Et) as [Hf1 (w1 & Hw1 & Hp)]; intros E Hf Hl Hc Hw Hd.
  - destruct b; [rewrite Hp, !length_app in Hl; cbn in Hl; lia|]. injection E as <- <-. split; [done|]. exists c0, t0, (w0 ++ w1). rewrite Hp, <- app_assoc. split_and!; try done. by apply spaces_app.
  - destruct b.
    + destruct (operand p1) as [m1 p2] eqn:Eo. destruct (mc_failed p2) eqn:Ef2.
      { destruct fuel; cbn [operands] in E; rewrite Ef2 in E; injection E as <- <-; congruence. }
      destruct (splits _ _ _ Eo Ef2) as [_ (c1 & t1 & w2 & Hp1 & Hw2 & Hi & Hd1)].
      assert (Hle : (length (mc_rest p2) <= fuel)%nat) by (rewrite Hp, Hp1 in Hl; rewrite !length_app in Hl; cbn in Hl; lia).
      destruct (IH _ _ (op c0 c1) (t0 ++ (w0 ++ w1) ++ sep :: t1) w2 E Hf Hle) as [_ (c & t & w & He & Hrest)]; [constructor; [done|by apply spaces_app|done]|done|by apply combine_ok|].
      split; [done|]. exists c, t, w. split; [|done]. rewrite <- He, Hp, Hp1. by rewrite <- !app_assoc.
    + injection E as <- <-. split; [done|]. exists c0, t0, (w0 ++ w1). rewrite Hp, <- app_assoc. split_and!; try done. by apply spaces_app.
Qed.
Lemma list_splits : splits_text (listed sep op item) (parse_list sep combine operand).
Proof.
  intros p m p'. unfold parse_list. destruct (operand p) as [m1 p1] eqn:Eo. intros E Hf. destruct (mc_failed p1) eqn:Ef1.
  { destruct (length (mc_rest p1)); cbn [operands] in E; rewrite Ef1 in E; injection E as <- <-; congruence. }
  destruct (splits _ _ _ Eo Ef1) as [Hp (c1 & t1 & w1 & Hr & Hw & Hi & Hd)]. split; [done|]. rewrite Hr.
  by destruct (operands_splits _ _ _ _ _ c1 t1 w1 E Hf (le_n _) (ListedOne _ _ _ _ _ Hi) Hw Hd) as [_ H].
Qed.
End Lists.

(** ** Expressions *)

Lemma or_level depth : reads_text (unary_text depth) (parseUnary depth) after_unary -> splits_text (unary_text depth) (parseUnary depth) ->
  reads_text (or_text depth) (parseOr depth) after_or /\ splits_text (or_text depth) (parseOr depth).
Proof.
  intros Hr Hs. unfold or_text, parseOr, parseAnd.
  assert (Hand : reads_text (listed "&" CAnd (unary_text depth)) (parse_list "&" Z.land (parseUnary depth)) after_and)
    by (apply (list_reads _ _ _ _ _ after_unary); try done; try exact and_denotes; unfold after_unary, after_and; set_solver).
  assert (Sand : splits_text (listed "&" CAnd (unary_text depth)) (parse_list "&" Z.land (parseUnary depth)))
    by (eapply (list_splits _ _ _ _ _ after_unary after_and); try done; try exact and_denotes; unfold after_unary, after_and; set_solver).
  split; [apply (list_reads _ _ _ _ _ after_and)|eapply (list_splits _ _ _ _ _ after_and after_or)]; try done; try exact or_denotes; unfold after_and, after_or; set_solver.
Qed.
Lemma unary_exact depth : reads_text (unary_text depth) (parseUnary depth) after_unary /\ splits_text (unary_text depth) (parseUnary depth).
Proof.
  induction depth as [|depth [IHr IHs]]; [split; [by intros c t rest []|intros p m p'; cbn; by intros [= <- <-]]|]. destruct (or_level depth IHr IHs) as [Hor Sor]. unfold parseOr, parseAnd in Hor, Sor.
  split.
  - intros c t rest [Ha|[(w & t' & c' & -> & Hw & -> & Ht)|(w & t' & w' & -> & Hw & Hw' & Ht)]] Hr; cbn [parseUnary].
    + assert (Hskip : exists x s, skipSpace (t ++ rest) = x :: s /\ letter x = true) by (by eapply atom_head).
      destruct Hskip as (x & s & Hx & Hlx). destruct (letter_no_sign x Hlx) as [H1 H2]. rewrite (take_other _ _ _ _ Hx H1). rewrite (take_other "(" (x :: s) x s); [|by rewrite <- Hx, skip_skip|done].
      rewrite <- Hx, parseAtom_skip. by apply atom_reads.
    + rewrite <- app_assoc. cbn [app]. rewrite take_reads by done. destruct (IHr c' t' rest Ht Hr) as (m & r & -> & Hn & Hd). eexists _, r. split; [done|]. split; [done|by apply not_denotes].
    + rewrite <- app_assoc. cbn [app]. rewrite <- !app_assoc. cbn [app]. rewrite (take_other _ _ "("%char (t' ++ w' ++ ")"%char :: rest)) by (rewrite ?skip_app by done; done).
      rewrite (take_reads_near "(" _ (t' ++ w' ++ ")"%char :: rest)) by (by apply skip_stop).
      destruct (Hor c t' (w' ++ ")"%char :: rest) Ht) as (m & r & -> & [Hn1 Hn2] & Hd); [apply stops_sep; [done..|unfold after_or; set_solver]|].
      rewrite skip_app, skip_stop in Hn1 by done. rewrite (take_reads_near _ _ _ Hn1). eexists _, rest. split; [done|]. split; [apply near_refl|done].
  - intros p m p'. cbn [parseUnary]. destruct (take_byte "!" p) as [b p1] eqn:E1. destruct (take_splits _ _ _ _ E1) as [Hf1 (w1 & Hw1 & Hp1)]. destruct b.
    + destruct (parseUnary depth p1) as [m1 p2] eqn:E2. intros [= <- <-] Hf. destruct (IHs _ _ _ E2 Hf) as [Hf2 (c & t & w & Hp & Hw & Ht & Hd)]. split; [congruence|].
      exists (CNot c), (w1 ++ "!"%char :: t), w. rewrite Hp1, Hp, <- app_assoc. split_and!; [done..| |by apply not_denotes]. right; left. by exists w1, t, c.
    + destruct (take_byte "(" p1) as [g p2] eqn:E2. destruct (take_splits _ _ _ _ E2) as [Hf2 (w2 & Hw2 & Hp2)]. destruct g.
      * destruct (parse_list "|" Z.lor (parse_list "&" Z.land (parseUnary depth)) p2) as [m1 p3] eqn:E3. destruct (take_byte ")" p3) as [cl p4] eqn:E4. destruct (take_splits _ _ _ _ E4) as [Hf4 (w4 & Hw4 & Hp4)].
        intros [= <- <-] Hf. destruct cl; [|done]. destruct (Sor _ _ _ E3 ltac:(congruence)) as [Hf3 (c & t & w & Hp & Hw & Ht & Hd)]. split; [congruence|].
        exists c, ((w1 ++ w2) ++ "("%char :: t ++ (w ++ w4) ++ [")"%char]), []. rewrite Hp1, Hp2, Hp, Hp4. split_and!; [|constructor| |done].
        { cbn [app]. rewrite <- !app_assoc. cbn [app]. by rewrite <- !app_assoc. }
        right; right. exists (w1 ++ w2), t, (w ++ w4). split_and!; [done|by apply spaces_app|by apply spaces_app|done].
      * intros E Hf. destruct (atom_splits _ _ _ E Hf) as [Hf3 (c & t & w & Hp & Hw & Ht & Hd)]. split; [congruence|]. exists c, ((w1 ++ w2) ++ t), w. rewrite Hp1, Hp2, Hp. cbn [app].
        rewrite <- !app_assoc. split_and!; [done..| |done]. left. rewrite app_assoc. apply atom_spaces; [by apply spaces_app|done].
Qed.

(** ** Claims *)

(** C24: a condition is taken as always true exactly when it is the text of an
    expression, within the limits of size and nesting, that holds in every
    supported environment: in each version of Office from 9 to 16, inside
    Internet Explorer or not. *)
Theorem mso_condition_exact (s : gostring) :
  msoConditionAlwaysTrue s = true <->
  (length s <= maxMSOConditionBytes)%nat /\
  exists c t w, s = t ++ w /\ spaces w /\ or_text maxMSOConditionDepth c t /\
    forall version ie, minMSOVersion <= version <= maxMSOVersion -> holds c version ie = true.
Proof.
  destruct (unary_exact maxMSOConditionDepth) as [Ur Us]. destruct (or_level _ Ur Us) as [Hr Hs]. unfold msoConditionAlwaysTrue. split.
  - destruct (beq s [] || _) eqn:E0; [done|]. apply orb_false_iff in E0 as [_ Hl%Nat.ltb_ge]. destruct (parseOr _ _) as [m p] eqn:E. rewrite !andb_true_iff, negb_true_iff, Z.eqb_eq. intros [[Hf Hn] Hm].
    split; [done|]. destruct (Hs _ _ _ E Hf) as [_ (c & t & w & Hp & Hw & Ht & Hd)]. destruct (skip_split (mc_rest p)) as (w' & Hw' & Hp'). unfold beq in Hn. apply bool_decide_eq_true in Hn.
    rewrite Hn, app_nil_r in Hp'. exists c, t, (w ++ w'). cbn [mc_rest] in Hp. rewrite Hp'  in Hp. split_and!; [done|by apply spaces_app|done|]. by apply (denotes_universe c m Hd).
  - intros [Hl (c & t & w & -> & Hw & Ht & Hall)]. replace (maxMSOConditionBytes <? length (t ++ w))%nat with false by (symmetry; by apply Nat.ltb_ge). rewrite orb_false_r.
    destruct (Hr c t w Ht) as (m & r & E & [Hn _] & Hd); [unfold stops; rewrite <- (app_nil_r w), skip_app by done; done|]. rewrite E. cbn [mc_rest mc_failed negb]. rewrite Hn.
    rewrite <- (app_nil_r w), skip_app by done. apply (denotes_universe c m Hd) in Hall. subst m. rewrite app_nil_r. destruct (beq (t ++ w) []) eqn:Eb; [|by vm_compute].
    apply bool_decide_eq_true in Eb. apply app_eq_nil in Eb as [-> ->]. by vm_compute in E.
Qed.

(** The number of uncertain regions open after some markers: an end closes the
    innermost open region, certain or not, and a stray end closes nothing. *)
Fixpoint open_regions (markers : list msoRevealedMarker) : list bool :=
  match markers with
  | [] => []
  | msoRevealedStart :: older => true :: open_regions older
  | msoRevealedUniversalStart :: older => false :: open_regions older
  | msoRevealedEnd :: older => tail (open_regions older)
  | msoRevealedNone :: older => open_regions older
  end.
(** Regions pair as brackets do, and the counter is the number of uncertain ones. *)
Theorem revealed_regions_paired (markers : list msoRevealedMarker) :
  let s := fold_left (λ s m, update m s) markers (MkRevealed [] 0) in
  mr_stack s = open_regions (rev markers) /\ mr_uncertain s = Z.of_nat (length (List.filter id (mr_stack s))).
Proof.
  induction markers as [|m markers IH] using rev_ind; [done|]. cbn zeta in *. rewrite fold_left_app, rev_app_distr. cbn [fold_left rev app]. destruct (fold_left _ markers _) as [stack n]. cbn [mr_stack mr_uncertain] in *.
  destruct IH as [-> ->]. destruct m; cbn; try done; [split; [done|]; lia|]. destruct (open_regions (rev markers)) as [|[] rest]; cbn; try done; split; [done|lia].
Qed.
