(* ===== verification/CssNumber.v ===== *)
(** * Numbers of style sheets
    (numbers.go of internal/htmlextract)

    A float64 that is not negative is a whole number of units of 2^-1074 whose
    binary digits span at most 53 places, so the arithmetic of the program is
    integer arithmetic followed by [round64], rounding to nearest with ties to
    even.  [parseCSSNumber] answers some numbers from the place of their first
    digit alone; [css_value] is the number a text denotes, correctly rounded. *)
From Stdlib Require Import Znumtheory.
From S2P Require Import Prelude GoText MsoCondition.

(** ** float64 *)

Definition nearest_even (n d : Z) : Z :=
  let q := n / d in
  let r := n mod d in
  if 2 * r <? d then q else if d <? 2 * r then q + 1 else if Z.even q then q else q + 1.
(** The exponent of the unit in the last place. *)
Definition ulp_exp (k : Z) : Z := Z.max 0 (Z.log2 k - 52).
Definition round64 (n d : Z) : Z := let s := ulp_exp (n / d) in nearest_even n (d * 2 ^ s) * 2 ^ s.
(** 1 in units, and the largest finite number. *)
Definition one_unit : Z := 2 ^ 1074.
Definition max_float : Z := (2 ^ 53 - 1) * 2 ^ 2045.

Inductive float := Finite (negative : bool) (units : Z) | Infinite (negative : bool).
Definition to_float (negative : bool) (n d : Z) : float :=
  let k := round64 n d in if max_float <? k then Infinite negative else Finite negative k.
Definition units_of (f : float) : option Z :=
  match f with Finite negative k => Some (if negative then - k else k) | Infinite _ => None end.

(** ** Decimal texts *)

Definition sign_of (s : gostring) : bool * gostring :=
  match s with c :: rest => if ceq c "+" then (false, rest) else if ceq c "-" then (true, rest) else (false, s) | [] => (false, []) end.
(** The digits before and after the point, and the rest. *)
Definition mantissa_of (s : gostring) : option (gostring * gostring * gostring) :=
  let '(ints, rest) := span digit s in
  match rest with
  | c :: after =>
      if ceq c "." then
        let '(fracs, rest) := span digit after in
        if beq fracs [] then None else Some (ints, fracs, rest)
      else if beq ints [] then None else Some (ints, [], rest)
  | [] => if beq ints [] then None else Some (ints, [], [])
  end.
(** Whether the exponent is negative, and its digits. *)
Definition exponent_text (s : gostring) : option (bool * gostring) :=
  match s with
  | [] => Some (false, [])
  | c :: rest =>
      if ceq c "e" || ceq c "E" then
        let '(minus, rest) := sign_of rest in
        let '(ds, rest) := span digit rest in
        if beq ds [] || negb (beq rest []) then None else Some (minus, ds)
      else None
  end.
Record decimal := MkDecimal { dc_negative : bool; dc_ints : gostring; dc_fracs : gostring; dc_minus : bool; dc_exponent : gostring }.
Definition decimal_of (s : gostring) : option decimal :=
  let '(negative, rest) := sign_of s in
  match mantissa_of rest with
  | None => None
  | Some (ints, fracs, rest) =>
      match exponent_text rest with
      | None => None
      | Some (minus, ds) => Some (MkDecimal negative ints fracs minus ds)
      end
  end.
Definition signed (minus : bool) (e : Z) : Z := if minus then - e else e.
Definition mantissa (n : decimal) : Z := digits_value 0 (dc_ints n ++ dc_fracs n).

(** The index of the first digit that is not zero. *)
Fixpoint first_digit (ds : gostring) : option Z :=
  match ds with [] => None | c :: rest => if ceq c "0" then (λ n, n + 1) <$> first_digit rest else Some 0 end.
Definition capped_exponent (cap : Z) (ds : gostring) : Z :=
  fold_left (λ exponent c, let d := code c - 48 in if (cap - d) / 10 <? exponent then cap else exponent * 10 + d) ds 0.

Record css_number := MkCssNumber { cn_order : Z; cn_zero : bool; cn_negative : bool }.
Definition scanCSSNumber (s : gostring) : option css_number :=
  match decimal_of s with
  | None => None
  | Some n =>
      let first := default (-1) (first_digit (dc_ints n ++ dc_fracs n)) in
      let exponent := signed (dc_minus n) (capped_exponent (go_len s + 1024) (dc_exponent n)) in
      Some (MkCssNumber (go_len (dc_ints n) - first - 1 + exponent) (first <? 0) (dc_negative n))
  end.

(** The number m 10^e in units, rounded. *)
Definition scaled (negative : bool) (m e : Z) : float :=
  if 0 <=? e then to_float negative (m * 10 ^ e * one_unit) 1 else to_float negative (m * one_unit) (10 ^ (- e)).
(** [strconv.ParseFloat] on such a text: it stops reading the digits of the
    exponent once that is 10000 or more. *)
Definition library_exponent (ds : gostring) : Z := fold_left (λ e c, if e <? 10000 then e * 10 + (code c - 48) else e) ds 0.
Definition ParseFloat (n : decimal) : float :=
  scaled (dc_negative n) (mantissa n) (signed (dc_minus n) (library_exponent (dc_exponent n)) - go_len (dc_fracs n)).

Definition parseCSSNumber (s : gostring) : option float :=
  match scanCSSNumber s with
  | None => None
  | Some n =>
      if cn_zero n then Some (Finite (cn_negative n) 0)
      else if 309 <=? cn_order n then Some (Infinite (cn_negative n))
      else ParseFloat <$> decimal_of s
  end.
Definition numberWithBudget (s : gostring) : option Z := parseCSSNumber s ≫= units_of.

(** The number a text denotes. *)
Definition css_value (s : gostring) : option float :=
  (λ n, scaled (dc_negative n) (mantissa n) (signed (dc_minus n) (digits_value 0 (dc_exponent n)) - go_len (dc_fracs n))) <$> decimal_of s.

(** ** Operations on widths *)

(** [prev+(b-prev)/2], each operation rounded. *)
Definition midpoint (prev b : Z) : Z := round64 (prev + round64 (round64 (b - prev) 1) 2) 1.
(** [math.Nextafter(x, +Inf)], [None] when that is infinite. *)
Definition nextAfter (x : Z) : option Z := let k := x + 2 ^ ulp_exp x in if max_float <? k then None else Some k.

(** ** Rounding *)

Definition representable (k : Z) : Prop := 0 <= k /\ (2 ^ ulp_exp k | k).

Lemma nearest_lower n d t : 0 < d -> t * d <= n -> t <= nearest_even n d.
Proof.
  intros Hd H. assert (Ht : t <= n / d) by (apply Z.div_le_lower_bound; lia). unfold nearest_even.
  destruct (2 * (n mod d) <? d); [done|]. destruct (d <? 2 * (n mod d)); [lia|]. destruct (Z.even (n / d)); lia.
Qed.
Lemma nearest_upper n d t : 0 < d -> n <= t * d -> nearest_even n d <= t.
Proof.
  intros Hd H. pose proof (Z.div_mod n d ltac:(lia)) as E. pose proof (Z.mod_pos_bound n d Hd) as Hr. unfold nearest_even.
  assert (Hq : n / d < t \/ n / d = t /\ n mod d = 0) by nia.
  destruct Hq as [Hq|[-> ->]]; [destruct (2 * (n mod d) <? d); [lia|]; destruct (d <? 2 * (n mod d)); [lia|]; destruct (Z.even (n / d)); lia|].
  replace (2 * 0 <? d) with true by (symmetry; apply Z.ltb_lt; lia). done.
Qed.
Lemma ulp_nonneg k : 0 <= ulp_exp k.
Proof. unfold ulp_exp. lia. Qed.
Lemma ulp_mono a b : a <= b -> ulp_exp a <= ulp_exp b.
Proof. intros H. unfold ulp_exp. pose proof (Z.log2_le_mono a b H). lia. Qed.
Lemma pow_divide i j : 0 <= i <= j -> (2 ^ i | 2 ^ j).
Proof. intros H. exists (2 ^ (j - i)). rewrite <- Z.pow_add_r by lia. f_equal. lia. Qed.
Lemma pow_pos i : 0 <= i -> 0 < 2 ^ i.
Proof. intros. by apply Z.pow_pos_nonneg. Qed.
#[local] Hint Resolve ulp_nonneg pow_pos : core.

Lemma rep_nonneg k : representable k -> 0 <= k.
Proof. by intros []. Qed.
(** Where a representable number lies. *)
Lemma rep_bounds k : 0 <= k -> k < 2 ^ (53 + ulp_exp k) /\ (ulp_exp k = 0 \/ 2 ^ (52 + ulp_exp k) <= k).
Proof.
  intros Hk. unfold ulp_exp. destruct (Z.eq_dec k 0) as [->|Hz]; [split; [done|by left]|]. pose proof (Z.log2_spec k ltac:(lia)) as [Hl Hh]. split.
  - eapply Z.lt_le_trans; [exact Hh|]. apply Z.pow_le_mono_r; lia.
  - destruct (Z.leb_spec (Z.log2 k) 52); [left; lia|right]. replace (52 + _) with (Z.log2 k) by lia. done.
Qed.
Lemma rep_intro j k : 0 <= j -> 0 <= k -> (2 ^ j | k) -> k <= 2 ^ (53 + j) -> representable k.
Proof.
  intros Hj Hk Hd Hb. split; [done|]. destruct (Z.eq_dec k (2 ^ (53 + j))) as [->|Hne].
  - unfold ulp_exp. rewrite Z.log2_pow2 by lia. apply pow_divide. lia.
  - etrans; [|exact Hd]. apply pow_divide. split; [done|]. unfold ulp_exp. destruct (Z.eq_dec k 0) as [->|Hz]; [cbn; lia|].
    assert (Z.log2 k < 53 + j) by (apply Z.log2_lt_pow2; lia). lia.
Qed.
Lemma rep_pow j : 0 <= j -> representable (2 ^ j).
Proof. intros Hj. apply (rep_intro j); [done|by apply Z.lt_le_incl, pow_pos|done|]. apply Z.pow_le_mono_r; lia. Qed.
(** Multiples of the last place of a number, below it. *)
Lemma rep_below b k : representable b -> 0 <= k <= b -> (2 ^ ulp_exp b | k) -> representable k.
Proof. intros [Hb _] Hk Hd. apply (rep_intro (ulp_exp b)); [done|lia|done|]. destruct (rep_bounds b Hb). lia. Qed.
Lemma rep_divide a b : representable b -> 0 <= a <= b -> (2 ^ ulp_exp a | b).
Proof. intros [_ Hb] Ha. etrans; [|exact Hb]. apply pow_divide. split; [done|]. apply ulp_mono. lia. Qed.
Lemma multiple_next u a b : 0 < u -> (u | a) -> (u | b) -> a < b -> a + u <= b.
Proof. intros Hu [m ->] [n ->] H. assert (m < n) by (apply (Z.mul_lt_mono_pos_r u); lia). nia. Qed.
Lemma rep_succ p : representable p -> representable (p + 2 ^ ulp_exp p).
Proof.
  intros [Hp Hd]. pose proof (rep_bounds p Hp) as [Hb _]. pose proof (pow_pos (ulp_exp p) ltac:(done)). apply (rep_intro (ulp_exp p)); [done|lia|apply Z.divide_add_r; [done|reflexivity]|].
  apply multiple_next; [done|done|apply pow_divide; pose proof (ulp_nonneg p); lia|done].
Qed.
Lemma rep_next p x : representable p -> representable x -> p < x -> p + 2 ^ ulp_exp p <= x.
Proof.
  intros [Hp Ha] Hx Hlt. apply multiple_next; [by apply pow_pos|done|by apply rep_divide; [|lia]|done].
Qed.

Lemma round_lower n d r : 0 < d -> representable r -> r * d <= n -> r <= round64 n d.
Proof.
  intros Hd Hr H. unfold round64. set (q := n / d). pose proof (pow_pos (ulp_exp q) ltac:(done)) as Hu. set (u := 2 ^ ulp_exp q) in *.
  assert (Hq : r <= q) by (apply Z.div_le_lower_bound; lia). pose proof (rep_nonneg r Hr). pose proof (Z.mul_div_le n d Hd) as Hn. fold q in Hn.
  assert (Hb : (u | r) \/ exists t, r <= t * u <= q).
  { destruct (Z.eq_dec (ulp_exp r) (ulp_exp q)) as [E|E]; [left; destruct Hr as [_ Hr]; by rewrite E in Hr|right].
    pose proof (ulp_mono _ _ Hq). exists (2 ^ 52). destruct (rep_bounds r ltac:(lia)) as [Hr1 _]. destruct (rep_bounds q ltac:(lia)) as [_ [Hr2|Hr2]]; [pose proof (ulp_nonneg r); lia|].
    unfold u. rewrite <- Z.pow_add_r by done. split; [|done]. etrans; [apply Z.lt_le_incl, Hr1|]. apply Z.pow_le_mono_r; lia. }
  assert (Ht : exists t, r <= t * u <= q) by (destruct Hb as [[t ->]|Hb]; [exists t; lia|done]). destruct Ht as (t & Hrt & Htq).
  etrans; [exact Hrt|]. apply Z.mul_le_mono_nonneg_r; [lia|]. apply nearest_lower; nia.
Qed.
Lemma round_upper n d r : 0 < d -> 0 <= n -> representable r -> n <= r * d -> round64 n d <= r.
Proof.
  intros Hd Hn Hr H. unfold round64. set (q := n / d). pose proof (pow_pos (ulp_exp q) ltac:(done)) as Hu. assert (0 <= q) by (by apply Z.div_pos).
  assert (Hq : q <= r) by (apply Z.div_le_upper_bound; lia). destruct (rep_divide q r Hr ltac:(lia)) as [t ->]. set (u := 2 ^ ulp_exp q) in *.
  apply Z.mul_le_mono_nonneg_r; [lia|]. apply nearest_upper; nia.
Qed.
Lemma round_exact r d : 0 < d -> representable r -> round64 (r * d) d = r.
Proof. intros Hd Hr. pose proof (rep_nonneg r Hr). apply Z.le_antisymm; [apply round_upper; try done; nia|by apply round_lower]. Qed.
Lemma round_exact1 r : representable r -> round64 r 1 = r.
Proof. intros Hr. rewrite <- (Z.mul_1_r r) at 1. by apply round_exact. Qed.
Lemma round_nonneg n d : 0 < d -> 0 <= n -> 0 <= round64 n d.
Proof. intros. apply round_lower; [done|split; [done|by exists 0]|lia]. Qed.
Lemma round_rep n d : 0 < d -> 0 <= n -> representable (round64 n d).
Proof.
  intros Hd Hn. unfold round64. set (q := n / d). assert (Hq : 0 <= q) by (by apply Z.div_pos). pose proof (pow_pos (ulp_exp q) ltac:(done)) as Hu.
  apply (rep_intro (ulp_exp q)); [done| |by eexists|].
  - apply Z.mul_nonneg_nonneg; [|lia]. apply nearest_lower; nia.
  - rewrite Z.pow_add_r by done. apply Z.mul_le_mono_nonneg_r; [lia|]. apply nearest_upper; [nia|]. destruct (rep_bounds q Hq) as [Hb _]. rewrite Z.pow_add_r in Hb by done.
    pose proof (Z.mul_succ_div_gt n d Hd) as Hg. fold q in Hg. nia.
Qed.

(** ** The midpoint

    A float64 between two others makes their computed midpoint lie strictly
    between them. *)

Section Midpoint.
Variables p x b : Z.
Hypothesis (Rp : representable p) (Rx : representable x) (Rb : representable b) (Hpx : p < x) (Hxb : x < b).
Let d := round64 (b - p) 1.
Let h := round64 d 2.
Let u := 2 ^ ulp_exp b.

Lemma mid_facts : 0 <= p /\ 0 < u /\ 0 <= d /\ 0 <= h.
Proof using All.
  pose proof (rep_nonneg p Rp). split_and!; [done|by apply pow_pos| |]; [apply round_nonneg; lia|]. apply round_nonneg; [done|]. apply round_nonneg; lia.
Qed.
Lemma mid_above : p < midpoint p b.
Proof using All.
  destruct mid_facts as (Hp & _ & Hd & Hh). pose proof (pow_pos (ulp_exp p) ltac:(done)) as Hv. set (v := 2 ^ ulp_exp p) in *.
  pose proof (rep_next p x Rp Rx Hpx). fold v in H. assert (Hx : v <= 2 ^ ulp_exp x) by (apply Z.pow_le_mono_r; [done|apply ulp_mono; lia]).
  pose proof (rep_next x b Rx Rb Hxb). assert (H2 : 2 * v <= d). { apply round_lower; [done| |lia]. unfold v. rewrite <- Z.pow_succ_r by done. apply rep_pow. pose proof (ulp_nonneg p). lia. }
  assert (v <= h) by (apply round_lower; [done|by apply rep_pow|lia]). assert (p + v <= midpoint p b); [|lia]. apply round_lower; [done|by apply rep_succ|]. fold d h. lia.
Qed.

(** An upper bound for the rounded values: the next multiple of the last place of [b]. *)
Lemma ceil_multiple n c : 0 < c -> 0 <= n -> n <= b * c -> exists t, (u | t) /\ n <= t * c /\ t * c < n + u * c /\ 0 <= t <= b.
Proof using All.
  intros Hc Hn Hb. destruct mid_facts as (_ & Hu & _ & _). destruct Rb as [_ [q Hq]]. fold u in Hq. set (m := c * u).
  pose proof (Z.div_mod (n + m - 1) m ltac:(nia)) as E. pose proof (Z.mod_pos_bound (n + m - 1) m ltac:(nia)) as Hr. set (t := (n + m - 1) / m) in *.
  exists (t * u). split; [by exists t|]. assert (t <= q). { apply Z.lt_succ_r. apply Z.div_lt_upper_bound; nia. } assert (0 <= t) by (apply Z.div_pos; nia). nia.
Qed.
Lemma mid_below_far : 5 * u <= b - p -> midpoint p b < b.
Proof using All.
  intros Hf. destruct mid_facts as (Hp & Hu & Hd & Hh).
  destruct (ceil_multiple (b - p) 1) as (t & Ht & H1 & H2 & H3); [lia..|].
  assert (Hdt : d <= t) by (apply round_upper; [lia..|by apply (rep_below b)|lia]).
  destruct (ceil_multiple d 2) as (t' & Ht' & H1' & H2' & H3'); [lia..|].
  assert (Hht : h <= t') by (apply round_upper; [lia..|by apply (rep_below b)|lia]).
  assert (Hr : midpoint p b <= b - u); [|lia]. apply round_upper; [done|fold d h; lia| |fold d h; lia].
  apply (rep_below b); [done|lia|]. apply Z.divide_sub_r; [apply Rb|reflexivity].
Qed.
Lemma mid_below_unit : ulp_exp b = 0 -> b - p < 5 * u -> midpoint p b < b.
Proof using All.
  intros Hj Hn. destruct mid_facts as (Hp & _). unfold u in Hn. rewrite Hj in Hn. destruct (rep_bounds b ltac:(lia)) as [Hb _]. rewrite Hj in Hb.
  assert (Hd : d = b - p) by (apply round_exact1; apply (rep_intro 0); [lia..|apply Z.divide_1_l|lia]).
  assert (Hh : 0 < h < b - p).
  { unfold h. rewrite Hd. assert (Hc : b - p = 2 \/ b - p = 3 \/ b - p = 4) by lia. destruct Hc as [->|[->| ->]]; by vm_compute. }
  unfold midpoint. fold d h. rewrite round_exact1; [lia|]. apply (rep_intro 0); [lia..|apply Z.divide_1_l|lia].
Qed.

(** Near [b] everything is a multiple of half its last place. *)
Lemma near_multiples : 1 <= ulp_exp b -> b - p < 5 * u -> exists v c, v = 2 ^ (ulp_exp b - 1) /\ u = 2 * v /\ b - p = c * v /\ 2 <= c < 10 /\ d = c * v /\ (v | p) /\ (v | x) /\ (v | b).
Proof using All.
  intros Hj Hn. destruct mid_facts as (Hp & Hu & _). destruct (rep_bounds b ltac:(lia)) as [Hb1 [Hb2|Hb2]]; [lia|]. set (v := 2 ^ (ulp_exp b - 1)). exists v.
  assert (Huv : u = 2 * v) by (unfold u, v; rewrite <- Z.pow_succ_r by lia; f_equal; lia).
  assert (Hup : ulp_exp b - 1 <= ulp_exp p).
  { assert (Hl : 2 ^ (51 + ulp_exp b) <= p). { rewrite Z.pow_add_r in Hb2 |- * by lia. fold u in Hb2 |- *. change (2 ^ 52) with 4503599627370496 in Hb2. change (2 ^ 51) with 2251799813685248. lia. }
    unfold ulp_exp at 2. assert (51 + ulp_exp b <= Z.log2 p) by (apply Z.log2_le_pow2; [|done]; pose proof (pow_pos (51 + ulp_exp b) ltac:(lia)); lia). lia. }
  assert (Hv : 0 < v) by (apply pow_pos; lia).
  assert (Hdv : forall y, representable y -> p <= y -> (v | y)). { intros y [Hy1 Hy2] Hpy. etrans; [|exact Hy2]. apply pow_divide. pose proof (ulp_mono p y Hpy). lia. }
  pose proof (Hdv p Rp ltac:(lia)) as Dp. pose proof (Hdv x Rx ltac:(lia)) as Dx. pose proof (Hdv b Rb ltac:(lia)) as Db.
  pose proof (multiple_next v p x Hv Dp Dx Hpx). pose proof (multiple_next v x b Hv Dx Db Hxb). destruct (Z.divide_sub_r v b p Db Dp) as [c Hc]. exists c.
  assert (Hc2 : 2 <= c < 10) by nia. split_and!; try done; try lia. unfold d. rewrite Hc. apply round_exact1. apply (rep_intro (ulp_exp b - 1)); [lia|nia|by exists c|].
  rewrite Z.pow_add_r by lia. fold v. etrans; [|apply Z.mul_le_mono_nonneg_r; [lia|]; exact (Z.pow_le_mono_r 2 4 53 ltac:(done) ltac:(done))]. change (2 ^ 4) with 16. nia.
Qed.
Lemma rep_last : representable (b - u).
Proof using All.
  destruct mid_facts as (Hp & Hu & _). assert (u <= b). { destruct Rb as [_ Hd]. apply Z.divide_pos_le; [lia|done]. } apply (rep_below b); [done|lia|]. apply Z.divide_sub_r; [apply Rb|reflexivity].
Qed.
Lemma mid_bounded r : representable r -> r < b -> p + h <= r -> midpoint p b < b.
Proof using All.
  intros Hr Hlt Hle. destruct mid_facts as (Hp & _ & _ & Hh). apply Z.le_lt_trans with r; [|done]. apply round_upper; [done|fold d h; lia|done|fold d h; lia].
Qed.
Lemma mid_below_two : ulp_exp b = 1 -> b - p < 5 * u -> midpoint p b < b.
Proof using All.
  intros Hj Hn. destruct mid_facts as (Hp0 & Hu0 & _). destruct (near_multiples ltac:(lia) Hn) as (v & c & Hv & Hu & Hc & Hc2 & Hd & Dp & Dx & Db). rewrite Hj in Hv. cbn in Hv. subst v. rewrite Z.mul_1_r in *.
  assert (Hh : h = round64 c 2) by (unfold h; by rewrite Hd). destruct (Z.eq_dec c 2) as [->|H2].
  - apply (mid_bounded x); [done..|]. rewrite Hh. change (round64 2 2) with 1. lia.
  - destruct (Z.eq_dec c 3) as [->|H3].
    + destruct (Z.eq_dec x (b - 1)) as [E|E]; [apply (mid_bounded x); [done..|]; rewrite Hh; change (round64 3 2) with 2; lia|].
      destruct Rb as [_ [q Hq]]. rewrite Hj in Hq. cbn in Hq. destruct (rep_bounds b ltac:(lia)) as [_ [Hb|Hb]]; [lia|]. rewrite Hj in Hb.
      assert (Hp : p < 2 ^ 53).
      { destruct (Z.ltb_spec p (2 ^ 53)) as [|Hge]; [done|]. assert (He : 1 <= ulp_exp p) by (unfold ulp_exp; pose proof (Z.log2_le_mono _ _ Hge) as Hl; change (Z.log2 (2 ^ 53)) with 53 in Hl; lia).
        destruct (proj2 Rp) as [m Hm]. replace (2 ^ ulp_exp p) with (2 * 2 ^ (ulp_exp p - 1)) in Hm by (rewrite <- Z.pow_succ_r by lia; f_equal; lia). lia. }
      change (2 ^ 53) with 9007199254740992 in Hp. change (2 ^ (52 + 1)) with 9007199254740992 in Hb. assert (Hcase : b = 9007199254740992 \/ b = 9007199254740994) by lia.
      unfold midpoint. fold d. rewrite Hd. replace p with (b - 3) by lia. destruct Hcase as [->| ->]; by vm_compute.
    + apply (mid_bounded (b - u) rep_last); [lia|]. assert (Hlist : c = 4 \/ c = 5 \/ c = 6 \/ c = 7 \/ c = 8 \/ c = 9) by lia. rewrite Hh.
      assert (round64 c 2 <= c - 2) by (destruct Hlist as [->|[->|[->|[->|[->| ->]]]]]; by vm_compute). lia.
Qed.
Lemma mid_below_near : 2 <= ulp_exp b -> b - p < 5 * u -> midpoint p b < b.
Proof using All.
  intros Hj Hn. destruct mid_facts as (Hp0 & Hu0 & _). destruct (near_multiples ltac:(lia) Hn) as (v & c & Hv & Hu & Hc & Hc2 & Hd & Dp & Dx & Db). set (w := 2 ^ (ulp_exp b - 2)).
  assert (Hw : 0 < w) by (apply pow_pos; lia). assert (Hvw : v = w * 2) by (subst v; unfold w; rewrite Z.mul_comm, <- Z.pow_succ_r by lia; f_equal; lia).
  assert (Hh : h = c * w).
  { unfold h. rewrite Hd, Hvw, Z.mul_assoc. apply round_exact; [done|]. apply (rep_intro (ulp_exp b - 2)); [lia|nia|by exists c|]. rewrite Z.pow_add_r by lia. fold w.
    etrans; [|apply Z.mul_le_mono_nonneg_r; [lia|]; exact (Z.pow_le_mono_r 2 4 53 ltac:(done) ltac:(done))]. change (2 ^ 4) with 16. nia. }
  destruct (Z.leb_spec 4 c) as [H4|H4]; [apply (mid_bounded (b - u) rep_last); nia|].
  destruct (Z.eq_dec x (b - v)) as [E|E]; [apply (mid_bounded x); [done..|]; nia|].
  assert (Hc3 : c = 3).
  { assert (Hv0 : 0 < v) by lia. pose proof (multiple_next v p x Hv0 Dp Dx Hpx). pose proof (multiple_next v x b Hv0 Dx Db Hxb).
    pose proof (multiple_next v (x + v) b Hv0 (Z.divide_add_r _ _ _ Dx (Z.divide_refl v)) Db ltac:(lia)). nia. }
  subst c.
  destruct (rep_bounds b ltac:(lia)) as [Hb1 [Hb2|Hb2]]; [lia|]. destruct (Z.eq_dec b (2 ^ (52 + ulp_exp b))) as [Eb|Eb].
  - apply (mid_bounded (b - v)); [|nia|nia]. apply (rep_intro (ulp_exp b - 1)); [lia|nia|rewrite <- Hv; apply Z.divide_sub_r; [done|reflexivity]|].
    transitivity b; [nia|]. replace (53 + _) with (52 + ulp_exp b) by lia. by rewrite <- Eb.
  - assert (Hlow : 2 ^ (52 + ulp_exp b) + u <= b) by (apply multiple_next; [by apply pow_pos|apply pow_divide; lia|apply Rb|lia]).
    unfold midpoint. fold d h. rewrite Hh. replace (p + 3 * w) with (b - 3 * w) by lia. unfold round64. rewrite Z.div_1_r.
    assert (Ee : ulp_exp (b - 3 * w) = ulp_exp b). { apply Z.le_antisymm; [apply ulp_mono; lia|]. unfold ulp_exp at 2. assert (52 + ulp_exp b <= Z.log2 (b - 3 * w)) by (apply Z.log2_le_pow2; lia). lia. }
    rewrite Ee, Z.mul_1_l. fold u. destruct Rb as [_ [q Hq]]. fold u in Hq. assert (Hu4 : u = 4 * w) by lia.
    assert (En : nearest_even (b - 3 * w) u = q - 1); [|rewrite En; nia].
    unfold nearest_even. replace (b - 3 * w) with (w + (q - 1) * u) by nia. rewrite Z.div_add, Z.mod_add by lia. rewrite Z.div_small, Z.mod_small by lia.
    replace (2 * w <? u) with true by (symmetry; apply Z.ltb_lt; lia). done.
Qed.
End Midpoint.

Lemma midpoint_between p x b : representable p -> representable x -> representable b -> p < x -> x < b -> p < midpoint p b < b.
Proof.
  intros Rp Rx Rb H1 H2. split; [by apply (mid_above p x b)|]. destruct (Z.leb_spec (5 * 2 ^ ulp_exp b) (b - p)); [by apply (mid_below_far p x b)|].
  pose proof (ulp_nonneg b). destruct (Z.eq_dec (ulp_exp b) 0); [by apply (mid_below_unit p x b)|].
  destruct (Z.eq_dec (ulp_exp b) 1); [by apply (mid_below_two p x b)|apply (mid_below_near p x b); [done..|lia|done]].
Qed.
Lemma midpoint_rep p b : representable p -> p <= b -> representable (midpoint p b).
Proof.
  intros Rp H. pose proof (rep_nonneg p Rp). apply round_rep; [done|]. pose proof (round_nonneg (round64 (b - p) 1) 2 ltac:(done) ltac:(apply round_nonneg; lia)). lia.
Qed.
Lemma nextAfter_next x k : representable x -> nextAfter x = Some k -> representable k /\ x < k /\ forall y, representable y -> x < y -> k <= y.
Proof.
  intros Hx. unfold nextAfter. destruct (_ <? _); [done|]. intros [= <-]. split; [by apply rep_succ|]. split; [pose proof (pow_pos (ulp_exp x) ltac:(done)); lia|]. intros y Hy Hlt. by apply rep_next.
Qed.
Lemma nextAfter_none x y : representable x -> nextAfter x = None -> representable y -> x < y -> max_float < y.
Proof. intros Hx. unfold nextAfter. destruct (Z.ltb_spec max_float (x + 2 ^ ulp_exp x)); [|done]. intros _ Hy Hlt. pose proof (rep_next x y Hx Hy Hlt). lia. Qed.

(** ** Digits *)

Definition digits (ds : gostring) : Prop := Forall (λ c, digit c = true) ds.
Lemma len_cons c (s : gostring) : go_len (c :: s) = go_len s + 1.
Proof. unfold go_len. cbn [length]. lia. Qed.
Lemma len_nonneg (s : gostring) : 0 <= go_len s.
Proof. unfold go_len. lia. Qed.
Lemma len_app (a b : gostring) : go_len (a ++ b) = go_len a + go_len b.
Proof. unfold go_len. rewrite length_app. lia. Qed.
Lemma digits_value_bounds ds v : digits ds -> 0 <= v -> v * 10 ^ go_len ds <= digits_value v ds < (v + 1) * 10 ^ go_len ds.
Proof.
  intros Hd. revert v. induction Hd as [|c ds Hc _ IH]; intros v Hv; [change (10 ^ go_len []) with 1; cbn; lia|]. cbn [digits_value fold_left]. fold (digits_value (v * 10 + (code c - 48)) ds).
  pose proof (digit_range c Hc). rewrite len_cons, Z.pow_add_r by (try apply len_nonneg; done). change (10 ^ 1) with 10. pose proof (IH (v * 10 + (code c - 48)) ltac:(lia)).
  assert (HP : 0 < 10 ^ go_len ds) by (apply Z.pow_pos_nonneg; [done|apply len_nonneg]). generalize dependent (digits_value (v * 10 + (code c - 48)) ds). intros y Hy.
  generalize dependent (10 ^ go_len ds). generalize dependent (code c - 48). intros e He P Hy HP. assert (0 <= e * P) by nia. assert ((e + 1) * P <= 10 * P) by nia. lia.
Qed.
Lemma first_digit_none ds : digits ds -> first_digit ds = None -> digits_value 0 ds = 0.
Proof.
  induction 1 as [|c ds Hc _ IH]; [done|]. cbn [first_digit]. unfold ceq. destruct (bool_decide_reflect (c = "0"%char)) as [->|]; [|done]. destruct (first_digit ds) eqn:E; [done|]. intros _. by apply IH.
Qed.
Lemma first_digit_some ds i : digits ds -> first_digit ds = Some i -> 0 <= i < go_len ds /\ 10 ^ (go_len ds - 1 - i) <= digits_value 0 ds.
Proof.
  intros Hd. revert i. induction Hd as [|c ds Hc Hds IH]; intros i; [done|]. cbn [first_digit]. pose proof (len_nonneg ds). unfold ceq. rewrite len_cons. destruct (bool_decide_reflect (c = "0"%char)) as [->|Hne].
  - destruct (first_digit ds) as [j|] eqn:E; [|done]. intros [= <-]. destruct (IH j eq_refl) as [Hj Hv]. split; [lia|]. cbn. replace (_ + 1 - 1 - (j + 1)) with (go_len ds - 1 - j) by lia. exact Hv.
  - intros [= <-]. split; [lia|]. replace (_ + 1 - 1 - 0) with (go_len ds) by lia. cbn [digits_value fold_left]. fold (digits_value (0 * 10 + (code c - 48)) ds).
    assert (Hp : 1 <= code c - 48). { pose proof (digit_range c Hc). destruct (Z.eq_dec (code c) 48) as [E|]; [|lia]. destruct Hne. rewrite <- (ascii_N_embedding c). unfold code in E. replace (N_of_ascii c) with 48%N by lia. done. }
    pose proof (digits_value_bounds ds (0 * 10 + (code c - 48)) Hds ltac:(lia)). assert (0 < 10 ^ go_len ds) by (by apply Z.pow_pos_nonneg). nia.
Qed.

(** Saturation keeps the exponent, up to the cap. *)
Lemma capped_go cap ds v e : digits ds -> 1 <= cap -> 0 <= v -> e = Z.min cap v ->
  fold_left (λ exponent c, let d := code c - 48 in if (cap - d) / 10 <? exponent then cap else exponent * 10 + d) ds e = Z.min cap (digits_value v ds).
Proof.
  intros Hd Hcap. revert v e. induction Hd as [|c ds Hc _ IH]; intros v e Hv He; [done|]. cbn [fold_left digits_value]. fold (digits_value (v * 10 + (code c - 48)) ds).
  pose proof (digit_range c Hc). apply IH; [lia|]. cbn zeta. destruct (Z.ltb_spec ((cap - (code c - 48)) / 10) e) as [Hlt|Hge].
  - pose proof (Z.mul_succ_div_gt (cap - (code c - 48)) 10 ltac:(done)). lia.
  - pose proof (Z.mul_div_le (cap - (code c - 48)) 10 ltac:(done)). lia.
Qed.
Lemma capped_exponent_min cap ds : digits ds -> 1 <= cap -> capped_exponent cap ds = Z.min cap (digits_value 0 ds).
Proof. intros. apply capped_go; [done..|lia]. Qed.
Lemma library_go ds v e : digits ds -> 0 <= e <= v -> e = v \/ 10000 <= e ->
  let r := fold_left (λ e c, if e <? 10000 then e * 10 + (code c - 48) else e) ds e in r <= digits_value v ds /\ (r = digits_value v ds \/ 10000 <= r).
Proof.
  intros Hd. revert v e. induction Hd as [|c ds Hc _ IH]; intros v e Hv He; [cbn; lia|]. cbn [fold_left digits_value]. fold (digits_value (v * 10 + (code c - 48)) ds).
  pose proof (digit_range c Hc). apply IH; destruct (Z.ltb_spec e 10000); lia.
Qed.
Lemma library_exponent_close ds : digits ds -> library_exponent ds <= digits_value 0 ds /\ (library_exponent ds = digits_value 0 ds \/ 10000 <= library_exponent ds).
Proof. intros Hd. apply library_go; [done|lia|by left]. Qed.

(** ** Scanning *)

Lemma span_digits s : digits (span digit s).1.
Proof. apply span_all. Qed.
Lemma span_len f s : go_len (span f s).1 + go_len (span f s).2 = go_len s.
Proof. rewrite <- len_app. by rewrite <- span_split. Qed.
Lemma sign_len s b r : sign_of s = (b, r) -> go_len r <= go_len s.
Proof.
  destruct s as [|c s]; cbn; [by intros [= <- <-]|]. rewrite len_cons. pose proof (len_nonneg s). destruct (ceq c "+"); [intros [= <- <-]; lia|]. destruct (ceq c "-"); intros [= <- <-]; [lia|rewrite len_cons; lia].
Qed.
Lemma mantissa_of_digits s ints fracs r : mantissa_of s = Some (ints, fracs, r) -> digits ints /\ digits fracs /\ go_len ints + go_len fracs <= go_len s.
Proof.
  unfold mantissa_of. pose proof (span_digits s) as D1. pose proof (span_len digit s) as L1. destruct (span digit s) as [a rest]. cbn in D1, L1. destruct rest as [|c after].
  - destruct (beq a []); [done|]. intros [= <- <- <-]. split_and!; [done|constructor|lia].
  - rewrite len_cons in L1. pose proof (len_nonneg after). destruct (ceq c ".").
    + pose proof (span_digits after) as D2. pose proof (span_len digit after) as L2. destruct (span digit after) as [b rest]. cbn in D2, L2. pose proof (len_nonneg rest).
      destruct (beq b []); [done|]. intros [= <- <- <-]. split_and!; [done|done|lia].
    + destruct (beq a []); [done|]. intros [= <- <- <-]. split_and!; [done|constructor|change (go_len []) with 0; lia].
Qed.
Lemma exponent_text_digits s minus ds : exponent_text s = Some (minus, ds) -> digits ds.
Proof.
  destruct s as [|c rest]; cbn; [intros [= <- <-]; constructor|]. destruct (_ || _); [|done]. destruct (sign_of rest) as [m r]. pose proof (span_digits r) as D. destruct (span digit r) as [a b].
  destruct (_ || _); [done|]. by intros [= <- <-].
Qed.
Lemma decimal_of_digits s n : decimal_of s = Some n -> digits (dc_ints n ++ dc_fracs n) /\ digits (dc_exponent n) /\ go_len (dc_ints n) + go_len (dc_fracs n) <= go_len s.
Proof.
  unfold decimal_of. destruct (sign_of s) as [b r] eqn:E0. apply sign_len in E0. destruct (mantissa_of r) as [[[ints fracs] r']|] eqn:E1; [|done]. destruct (exponent_text r') as [[minus ds]|] eqn:E2; [|done].
  intros [= <-]. cbn. apply mantissa_of_digits in E1 as (D1 & D2 & L). apply exponent_text_digits in E2. split_and!; [by apply Forall_app|done|lia].
Qed.

(** ** Numbers out of range *)

Lemma scaled_zero negative e : scaled negative 0 e = Finite negative 0.
Proof.
  unfold scaled, to_float. rewrite !Z.mul_0_l. assert (R : representable 0) by (split; [done|by exists 0]). assert (Hr : forall d, 0 < d -> round64 0 d = 0) by (intros d Hd; rewrite <- (Z.mul_0_l d) at 1; by apply round_exact).
  destruct (Z.leb_spec 0 e); rewrite Hr; try done. apply Z.pow_pos_nonneg; lia.
Qed.
Lemma overflow_float negative n d : 0 < d -> 2 ^ 2098 * d <= n -> to_float negative n d = Infinite negative.
Proof.
  intros Hd H. unfold to_float. assert (2 ^ 2098 <= round64 n d) by (apply round_lower; [done|by apply rep_pow|done]).
  replace (max_float <? round64 n d) with true; [done|]. symmetry. apply Z.ltb_lt. eapply Z.lt_le_trans; [|done]. by vm_compute.
Qed.
Lemma big_power : 2 ^ 2098 <= 10 ^ 309 * one_unit.
Proof. by vm_compute. Qed.
Lemma scaled_overflow negative m e a : 0 <= a -> 10 ^ a <= m -> 309 <= a + e -> scaled negative m e = Infinite negative.
Proof.
  intros Ha Hm Hae. unfold scaled. pose proof big_power as Hb. assert (Hu : 0 < one_unit) by (by apply Z.pow_pos_nonneg). destruct (Z.leb_spec 0 e) as [He|He].
  - apply overflow_float; [done|]. rewrite Z.mul_1_r. etrans; [exact Hb|]. apply Z.mul_le_mono_nonneg_r; [lia|]. transitivity (10 ^ (a + e)); [by apply Z.pow_le_mono_r; [|lia]|].
    rewrite Z.pow_add_r by lia. apply Z.mul_le_mono_nonneg_r; [|done]. apply Z.lt_le_incl, Z.pow_pos_nonneg; lia.
  - assert (Hp : 0 < 10 ^ (- e)) by (apply Z.pow_pos_nonneg; lia). apply overflow_float; [done|]. transitivity (10 ^ 309 * one_unit * 10 ^ (- e)); [apply Z.mul_le_mono_nonneg_r; lia|].
    replace (10 ^ 309 * one_unit * 10 ^ (- e)) with (10 ^ (309 - e) * one_unit) by (replace (309 - e) with (309 + - e) by lia; rewrite Z.pow_add_r by lia; ring).
    apply Z.mul_le_mono_nonneg_r; [lia|]. etrans; [|exact Hm]. apply Z.pow_le_mono_r; lia.
Qed.
Lemma small_power : 2 * one_unit <= 10 ^ 400.
Proof. by vm_compute. Qed.
Lemma tiny_product m u A z k : 0 <= m < A -> 0 < u -> 2 * u <= z -> 1 <= k -> 2 * (m * u) < A * (z * k).
Proof. intros Hm Hu Hz Hk. assert (m * (2 * u) <= m * z) by nia. assert (m * z < A * z) by nia. assert (A * z * 1 <= A * z * k) by nia. lia. Qed.
Lemma scaled_underflow negative m e a : 0 <= m < 10 ^ a -> 0 <= a -> a + e <= -400 -> scaled negative m e = Finite negative 0.
Proof.
  intros Hm Ha He. unfold scaled. replace (0 <=? e) with false by (symmetry; apply Z.leb_gt; lia). assert (Hp : 0 < 10 ^ (- e)) by (apply Z.pow_pos_nonneg; lia).
  assert (Hlt : 2 * (m * one_unit) < 10 ^ (- e)).
  { replace (- e) with (a + (400 + (- e - a - 400))) by lia. rewrite !Z.pow_add_r by lia. pose proof small_power. assert (Hk : 1 <= 10 ^ (- e - a - 400)) by (pose proof (Z.pow_pos_nonneg 10 (- e - a - 400)); lia).
    assert (Hu : 0 < one_unit) by (by apply Z.pow_pos_nonneg). apply (tiny_product m one_unit (10 ^ a) (10 ^ 400)); lia. }
  assert (Hn : 0 <= m * one_unit) by (apply Z.mul_nonneg_nonneg; [lia|]; apply Z.lt_le_incl; by apply Z.pow_pos_nonneg).
  unfold to_float, round64. generalize dependent (m * one_unit). intros n Hlt Hn. rewrite Z.div_small by lia. change (ulp_exp 0) with 0. rewrite Z.pow_0_r, !Z.mul_1_r. unfold nearest_even.
  rewrite Z.div_small, Z.mod_small by lia. replace (2 * n <? 10 ^ (- e)) with true by (symmetry; apply Z.ltb_lt; lia). done.
Qed.

(** ** Claims *)

(** a number of a style sheet gets its correctly rounded value, infinite or
    zero beyond the range of float64, although exponents are saturated and large
    numbers are answered without a conversion.  The text has at most 8000 bytes:
    in longer ones the library itself misreads exponents that the mantissa
    cancels. *)
Theorem css_numbers_exact (s : gostring) (Hlen : go_len s <= 8000) : parseCSSNumber s = css_value s.
Proof.
  unfold parseCSSNumber, scanCSSNumber, css_value. destruct (decimal_of s) as [n|] eqn:E; [|done]. destruct (decimal_of_digits s n E) as (D1 & D2 & L). cbn [cn_zero cn_order cn_negative fmap option_fmap option_map].
  pose proof (len_nonneg (dc_ints n)). pose proof (len_nonneg (dc_fracs n)). rewrite capped_exponent_min by (done || lia). destruct (first_digit _) as [i|] eqn:Ef; cbn [default].
  2: { unfold mantissa. by rewrite (first_digit_none _ D1 Ef), scaled_zero. }
  destruct (first_digit_some _ _ D1 Ef) as [Hi Hm]. rewrite len_app in Hi, Hm. replace (id i <? 0) with false by (symmetry; apply Z.ltb_ge; cbn; lia). cbn [id].
  pose proof (digits_value_bounds _ 0 D1 ltac:(done)) as [_ Hv]. rewrite len_app in Hv. destruct (library_exponent_close _ D2) as [Le Lc]. fold (mantissa n) in Hm, Hv.
  destruct (Z.leb_spec 309 (go_len (dc_ints n) - i - 1 + signed (dc_minus n) (Z.min (go_len s + 1024) (digits_value 0 (dc_exponent n))))) as [Ho|Ho].
  - f_equal. symmetry. eapply scaled_overflow; [|exact Hm|]; destruct (dc_minus n); cbn [signed] in *; lia.
  - f_equal. unfold ParseFloat. destruct Lc as [->|Lc]; [done|]. destruct (dc_minus n); cbn [signed] in *; [|lia].
    assert (Hm0 : 0 <= mantissa n < 10 ^ (go_len (dc_ints n) + go_len (dc_fracs n))) by (split; [|lia]; pose proof (Z.pow_nonneg 10 (go_len (dc_ints n) + go_len (dc_fracs n) - 1 - i)); lia).
    rewrite !(scaled_underflow _ _ _ _ Hm0) by lia. done.
Qed.

Module Sample.
Lemma css_numbers_exact_witness : go_len (lit "-12.5e2") <= 8000 /\ parseCSSNumber (lit "-12.5e2") = css_value (lit "-12.5e2") /\ css_value (lit "-12.5e2") = Some (Finite true (1250 * one_unit)).
Proof. split; [vm_compute; discriminate|]. split; [|reflexivity]. apply css_numbers_exact. vm_compute. discriminate. Defined.
Example tenth : numberWithBudget (lit "0.1") = Some (3602879701896397 * 2 ^ 1019).
Proof. reflexivity. Qed.
Example huge : parseCSSNumber (lit "1e99999999") = Some (Infinite false) /\ numberWithBudget (lit "1e309") = None /\ numberWithBudget (lit "1e") = None.
Proof. by vm_compute. Qed.
Example smallest : numberWithBudget (lit "5e-324") = Some 1 /\ numberWithBudget (lit "1e-400") = Some 0.
Proof. by vm_compute. Qed.
End Sample.
