(* ===== verification/Media.v ===== *)
(** * Media conditions and viewing cases
    (media.go of internal/htmlextract, with helpers of css_whitespace.go)

    A rule of a style sheet applies under the conditions of the at-rules around
    it, which depend on the width of the view and on its colour scheme.  A page
    is judged in a few widths only.  A condition has three values for a width and
    a scheme: it holds, it does not, or it depends on something the extractor does
    not know; [frame_holds] is its meaning once what is unknown is fixed.

    Widths are float64 numbers that are not negative, in the units of
    [CssNumber]. *)
From stdpp Require Import gmap.
From S2P Require Import Prelude GoText MsoCondition CssNumber.

Definition css_space (c : ascii) : bool := ceq c " " || ceq c (chr 9) || ceq c LF || ceq c CR || ceq c (chr 12).
Definition trimCSSWhitespace (s : gostring) : gostring := rev (span css_space (rev (span css_space s).2)).2.
Definition asciiLower (s : gostring) : gostring := lower_ascii <$> s.

(** ** Conditions *)

Record widthBound := MkBound { wb_min : bool; wb_value : Z }.
Record mediaAlternative := MkAlternative { ma_bounds : list widthBound; ma_schemes : Z; ma_unknown : bool; ma_never : bool }.
Definition mediaCondition : Type := list mediaAlternative.

Definition colourSchemeLight : Z := 1.
Definition colourSchemeDark : Z := 2.
Definition colourSchemeBoth : Z := Z.lor colourSchemeLight colourSchemeDark.

Definition strip (p s : gostring) : option gostring := if hasPrefix s p then Some (drop (length p) s) else None.
(** Digits with an optional point and fraction, or a point and digits. *)
Definition width_number (s : gostring) : option (gostring * gostring) :=
  let '(ints, rest) := span digit s in
  match rest with
  | c :: after =>
      if ceq c "." then
        let '(fracs, rest) := span digit after in
        if beq ints [] && beq fracs [] then None else Some (ints ++ c :: fracs, rest)
      else if beq ints [] then None else Some (ints, rest)
  | [] => if beq ints [] then None else Some (ints, [])
  end.
(** The regular expression [widthFeature]: whether a minimum, the number, and whether it has a unit. *)
Definition widthFeature (s : gostring) : option (bool * gostring * bool) :=
  match strip (lit "(") s with
  | None => None
  | Some s =>
      let s := (span css_space s).2 in
      match (if hasPrefix s (lit "min-") then Some true else if hasPrefix s (lit "max-") then Some false else None) with
      | None => None
      | Some minimum =>
          match strip (lit "width") (trimPrefix (drop 4 s) (lit "device-")) ≫= λ s, strip (lit ":") (span css_space s).2 with
          | None => None
          | Some s =>
              match width_number (span css_space s).2 with
              | None => None
              | Some (number, s) =>
                  if beq (span css_space (trimPrefix s (lit "px"))).2 (lit ")") then Some (minimum, number, hasPrefix s (lit "px")) else None
              end
          end
      end
  end.

(** [regexpAnd.Split(raw, limit)]: parts between [\s+and\s+], the last one whole. *)
Fixpoint split_and (limit : nat) (skip : nat) (cur s : gostring) : list gostring :=
  match s with
  | [] => [rev cur]
  | c :: rest =>
      match skip with
      | S skip => split_and limit skip cur rest
      | O =>
          let '(before, after) := span css_space s in
          let sep := match strip (lit "and") after with Some more => (length (span css_space more).1) | None => 0%nat end in
          match limit with
          | S (S limit') =>
              if css_space c && negb (sep =? 0)%nat then rev cur :: split_and (S limit') (length before + 3 + sep - 1) [] rest
              else split_and limit 0 (c :: cur) rest
          | _ => split_and limit 0 (c :: cur) rest
          end
      end
  end.

Definition add_part (a : mediaAlternative) (part : gostring) : mediaAlternative :=
  let part := trimCSSWhitespace part in
  let unknown := MkAlternative (ma_bounds a) (ma_schemes a) true (ma_never a) in
  if beq part (lit "screen") || beq part (lit "all") then a
  else if beq part (lit "print") then MkAlternative (ma_bounds a) (ma_schemes a) (ma_unknown a) true
  else if beq part (lit "(prefers-color-scheme:light)") || beq part (lit "(prefers-color-scheme: light)") then
    MkAlternative (ma_bounds a) (Z.land (ma_schemes a) colourSchemeLight) (ma_unknown a) (ma_never a)
  else if beq part (lit "(prefers-color-scheme:dark)") || beq part (lit "(prefers-color-scheme: dark)") then
    MkAlternative (ma_bounds a) (Z.land (ma_schemes a) colourSchemeDark) (ma_unknown a) (ma_never a)
  else
    match widthFeature part with
    | None => unknown
    | Some (minimum, number, unit_) =>
        match numberWithBudget (trimSuffix number (lit ".")) with
        | None => unknown
        | Some v => if negb unit_ && negb (v =? 0) then unknown else MkAlternative (ma_bounds a ++ [MkBound minimum v]) (ma_schemes a) (ma_unknown a) (ma_never a)
        end
    end.
Definition unknown_media : mediaCondition := [MkAlternative [] colourSchemeBoth true false].
Fixpoint alternatives (raws : list gostring) (result : mediaCondition) : mediaCondition :=
  match raws with
  | [] => result
  | raw :: raws =>
      let raw := trimCSSWhitespace (trimPrefix (trimCSSWhitespace raw) (lit "only ")) in
      let parts := if contains raw (lit "and") then split_and 17 0 [] raw else [raw] in
      if (16 <? length parts)%nat then unknown_media
      else
        let a := fold_left add_part parts (MkAlternative [] colourSchemeBoth false false) in
        alternatives raws (result ++ [if ma_schemes a =? 0 then MkAlternative (ma_bounds a) (ma_schemes a) (ma_unknown a) true else a])
  end.
Definition parseMedia (src : gostring) : mediaCondition :=
  if (4096 <? length src)%nat || (31 <? countByte src ",")%nat then unknown_media else alternatives (split "," (asciiLower src)) [].

(** ** Evaluation *)

Inductive media_state := mediaNo | mediaYes | mediaUnknown | mediaYesColourScheme | mediaAlternateColourScheme.
#[export] Instance media_state_eq_dec : EqDecision media_state.
Proof. solve_decision. Defined.

Definition bound_fails (width : Z) (b : widthBound) : bool := if wb_min b then width <? wb_value b else wb_value b <? width.
Definition note_state (state current : media_state) : media_state :=
  match state with mediaYes => mediaYes | _ => match current with mediaYes => mediaYes | _ => mediaUnknown end end.
Definition alternative_states (width : Z) (fallback : bool) (current : media_state * media_state) (a : mediaAlternative) : media_state * media_state :=
  let '(light, dark) := current in
  if ma_never a || (negb fallback && existsb (bound_fails width) (ma_bounds a)) then (light, dark)
  else
    let unknown := ma_unknown a || (fallback && negb (bool_decide (ma_bounds a = []))) in
    let state := if unknown then mediaUnknown else mediaYes in
    (if negb (Z.land (ma_schemes a) colourSchemeLight =? 0) then note_state state light else light,
     if negb (Z.land (ma_schemes a) colourSchemeDark =? 0) then note_state state dark else dark).
Definition states (c : mediaCondition) (width : Z) (fallback : bool) : media_state * media_state :=
  fold_left (alternative_states width fallback) c (mediaNo, mediaNo).

Definition intersectMediaState (left right : media_state) : media_state :=
  match left, right with
  | mediaNo, _ | _, mediaNo => mediaNo
  | mediaUnknown, _ | _, mediaUnknown => mediaUnknown
  | _, _ => mediaYes
  end.
(** Frames are shared; [id] is the identity of one. *)
Inductive conditionFrame := NoFrame | Frame (id : nat) (condition : mediaCondition) (parent : conditionFrame).
Abbreviation frame_cache := (gmap nat (media_state * media_state)).
Definition intersect_states (a b : media_state * media_state) : media_state * media_state := (intersectMediaState a.1 b.1, intersectMediaState a.2 b.2).
Fixpoint evaluateConditionFrame (frame : conditionFrame) (width : Z) (fallback : bool) (cache : frame_cache) : (media_state * media_state) * frame_cache :=
  match frame with
  | NoFrame => ((mediaYes, mediaYes), cache)
  | Frame id condition parent =>
      match cache !! id with
      | Some state => (state, cache)
      | None =>
          let '(outer, cache) := evaluateConditionFrame parent width fallback cache in
          let state := intersect_states outer (states condition width fallback) in
          (state, <[id := state]> cache)
      end
  end.
Definition combinedMediaState (light dark : media_state) : media_state :=
  match light with
  | mediaUnknown => mediaUnknown
  | mediaYes => match dark with mediaYes => mediaYes | _ => mediaYesColourScheme end
  | _ => match dark with mediaNo => mediaNo | _ => mediaAlternateColourScheme end
  end.

(** ** Viewing cases *)

Definition same_frame (a b : conditionFrame) : bool :=
  match a, b with NoFrame, NoFrame => true | Frame i _ _, Frame j _ _ => (i =? j)%nat | _, _ => false end.
(** The groups of the rules: no condition first, then each condition once. *)
Definition add_group (groups : list conditionFrame) (frame : conditionFrame) : list conditionFrame :=
  if existsb (same_frame frame) groups then groups else groups ++ [frame].
Definition prepareMediaGroups (rules : list conditionFrame) : list conditionFrame := fold_left add_group rules [NoFrame].

Definition add_bound (bounds : list Z) (b : widthBound) : list Z := if existsb (Z.eqb (wb_value b)) bounds then bounds else bounds ++ [wb_value b].
Fixpoint frame_bounds (frame : conditionFrame) (seen : list nat) (bounds : list Z) : list nat * list Z :=
  match frame with
  | NoFrame => (seen, bounds)
  | Frame id condition parent =>
      if bool_decide (id ∈ seen) then (seen, bounds)
      else frame_bounds parent (id :: seen) (fold_left add_bound (concat (ma_bounds <$> condition)) bounds)
  end.
Definition collect_bounds (groups : list conditionFrame) : list Z :=
  (fold_left (λ '(seen, bounds) group, frame_bounds group seen bounds) groups ([], [])).2.

Fixpoint insert_sorted (b : Z) (l : list Z) : list Z := match l with [] => [b] | x :: rest => if b <=? x then b :: l else x :: insert_sorted b rest end.
Definition sort_widths (l : list Z) : list Z := fold_right insert_sorted [] l.

(** All groups at one width share the cache. *)
Fixpoint evaluate_groups (groups : list conditionFrame) (width : Z) (fallback : bool) (cache : frame_cache) : list media_state :=
  match groups with
  | [] => []
  | group :: rest =>
      let '((light, dark), cache) := evaluateConditionFrame group width fallback cache in
      combinedMediaState light dark :: evaluate_groups rest width fallback cache
  end.
Definition group_states (groups : list conditionFrame) (width : Z) (fallback : bool) : list media_state := evaluate_groups groups width fallback ∅.
Fixpoint candidates_go (prev : Z) (bounds : list Z) : list Z * Z :=
  match bounds with
  | [] => ([], prev)
  | b :: rest =>
      if prev <? b then let '(l, last) := candidates_go b rest in (midpoint prev b :: b :: l, last)
      else candidates_go prev rest
  end.
Definition candidates (bounds : list Z) : list Z :=
  let '(l, last) := candidates_go 0 (sort_widths bounds) in
  0 :: l ++ match nextAfter last with Some after => [after] | None => [] end.
Fixpoint new_widths (groups : list conditionFrame) (seen : list (list media_state)) (widths : list Z) : list Z :=
  match widths with
  | [] => []
  | width :: rest =>
      let signature := tail (group_states groups width false) in
      if bool_decide (signature ∈ seen) then new_widths groups seen rest else width :: new_widths groups (signature :: seen) rest
  end.
Definition default_width : Z := 1024 * one_unit.
Definition viewingCases (cascadeIncomplete : bool) (rules : list conditionFrame) : list Z * bool :=
  if cascadeIncomplete then ([default_width], true)
  else
    let groups := prepareMediaGroups rules in
    let bounds := collect_bounds groups in
    if bool_decide (bounds = []) then ([default_width], false) else (new_widths groups [] (candidates bounds), false).

(** The conditions of at-rules that never apply. *)
Definition neverMedia : mediaCondition := [MkAlternative [] colourSchemeBoth false true].

(** ** Meaning

    An environment fixes what the extractor does not know: whether the unknown
    parts of an alternative hold, for each alternative of each frame, and, in the
    fallback, whether its bounds do. *)

Definition in_scheme (dark : bool) (a : mediaAlternative) : bool := negb (Z.land (ma_schemes a) (if dark then colourSchemeDark else colourSchemeLight) =? 0).
Definition in_width (width : Z) (fallback : bool) (a : mediaAlternative) : bool := fallback || negb (existsb (bound_fails width) (ma_bounds a)).
Definition is_open (fallback : bool) (a : mediaAlternative) : bool := ma_unknown a || (fallback && negb (bool_decide (ma_bounds a = []))).
Definition applies (width : Z) (fallback dark : bool) (unknowns : bool) (a : mediaAlternative) : bool :=
  negb (ma_never a) && in_width width fallback a && in_scheme dark a && (negb (is_open fallback a) || unknowns).
Fixpoint condition_holds (width : Z) (fallback dark : bool) (env : nat -> bool) (c : mediaCondition) : bool :=
  match c with [] => false | a :: c => applies width fallback dark (env 0%nat) a || condition_holds width fallback dark (λ i, env (S i)) c end.
Fixpoint frame_holds (width : Z) (fallback dark : bool) (env : nat -> nat -> bool) (f : conditionFrame) : bool :=
  match f with NoFrame => true | Frame id c parent => condition_holds width fallback dark (env id) c && frame_holds width fallback dark env parent end.

(** ** Evaluation without a cache *)

Fixpoint frame_states (frame : conditionFrame) (width : Z) (fallback : bool) : media_state * media_state :=
  match frame with
  | NoFrame => (mediaYes, mediaYes)
  | Frame _ condition parent => intersect_states (frame_states parent width fallback) (states condition width fallback)
  end.
Fixpoint subframes (f : conditionFrame) : list conditionFrame := f :: match f with NoFrame => [] | Frame _ _ parent => subframes parent end.
Definition all_frames (rules : list conditionFrame) : list conditionFrame := concat (subframes <$> rules).
(** An identity names one frame. *)
Definition shared (rules : list conditionFrame) : Prop :=
  forall id c p c' p', Frame id c p ∈ all_frames rules -> Frame id c' p' ∈ all_frames rules -> Frame id c p = Frame id c' p'.

Lemma self_subframe f : f ∈ subframes f.
Proof. destruct f; cbn; apply elem_of_cons; by left. Qed.
Lemma rule_frame rules f : f ∈ rules -> f ∈ all_frames rules.
Proof. intros H. unfold all_frames. apply list_elem_of_In, in_concat. exists (subframes f). split; [apply list_elem_of_In; by apply list_elem_of_fmap_2|apply list_elem_of_In, self_subframe]. Qed.
Lemma subframes_parent f id c p : Frame id c p ∈ subframes f -> p ∈ subframes f.
Proof.
  induction f as [|id' c' p' IH]; cbn; rewrite !elem_of_cons; [intros [H|H%elem_of_nil]; done|]. intros [[= -> -> ->]|H]; right; [apply self_subframe|by apply IH].
Qed.
Lemma parent_frame rules id c p : Frame id c p ∈ all_frames rules -> p ∈ all_frames rules.
Proof.
  unfold all_frames. rewrite !list_elem_of_In, !in_concat. intros (l & Hl & H). exists l. split; [done|]. apply in_map_iff in Hl as (f & <- & _). apply list_elem_of_In. eapply subframes_parent. by apply list_elem_of_In.
Qed.

Section Cached.
Variables (rules : list conditionFrame) (width : Z) (fallback : bool).
Hypothesis Hshared : shared rules.
Definition cache_sound (cache : frame_cache) : Prop :=
  forall id c p state, Frame id c p ∈ all_frames rules -> cache !! id = Some state -> state = frame_states (Frame id c p) width fallback.
Lemma evaluate_cached f cache : f ∈ all_frames rules -> cache_sound cache ->
  (evaluateConditionFrame f width fallback cache).1 = frame_states f width fallback /\ cache_sound (evaluateConditionFrame f width fallback cache).2.
Proof using Hshared.
  revert cache. induction f as [|id c p IH]; intros cache Hf Hc; [done|]. cbn [evaluateConditionFrame]. destruct (cache !! id) as [st|] eqn:E; [split; [by eapply Hc|done]|].
  destruct (IH cache (parent_frame _ _ _ _ Hf) Hc) as [H1 H2]. destruct (evaluateConditionFrame p width fallback cache) as [outer cache1]. cbn in H1, H2. subst outer. split; [done|].
  intros id' c' p' st Hin. cbn [snd]. destruct (decide (id = id')) as [<-|Hne]; [rewrite fin_maps.lookup_insert_eq|rewrite fin_maps.lookup_insert_ne by done; by apply H2].
  intros [= <-]. by rewrite (Hshared id c' p' c p Hin Hf).
Qed.
Lemma evaluate_groups_cached groups cache : (forall g, g ∈ groups -> g ∈ all_frames rules) -> cache_sound cache ->
  evaluate_groups groups width fallback cache = (λ g, combinedMediaState (frame_states g width fallback).1 (frame_states g width fallback).2) <$> groups.
Proof using Hshared.
  revert cache. induction groups as [|g groups IH]; intros cache Hg Hc; [done|]. cbn [evaluate_groups]. destruct (evaluate_cached g cache) as [H1 H2]; [apply Hg; set_solver|done|].
  destruct (evaluateConditionFrame g width fallback cache) as [[light dark] cache1]. cbn in H1, H2. rewrite fmap_cons, <- H1. cbn. f_equal. apply IH; [set_solver|done].
Qed.
End Cached.

(** ** The groups *)

Lemma same_frame_refl f : same_frame f f = true.
Proof. destruct f; cbn; [done|]. apply Nat.eqb_refl. Qed.
Lemma add_group_elem groups f g : g ∈ add_group groups f -> g ∈ groups \/ g = f.
Proof. unfold add_group. destruct (existsb _ _); [by left|]. rewrite elem_of_app, list_elem_of_singleton. done. Qed.
Lemma groups_elem rules acc g : g ∈ fold_left add_group rules acc -> g ∈ acc \/ g ∈ rules.
Proof.
  revert acc. induction rules as [|r rules IH]; intros acc; cbn; [by left|]. intros [H|H]%IH; [apply add_group_elem in H as [H| ->]; [by left|right; set_solver]|right; set_solver].
Qed.
Lemma fold_groups_head rules acc : exists rest, fold_left add_group rules acc = acc ++ rest.
Proof.
  revert acc. induction rules as [|r rules IH]; intros acc; cbn; [by exists []; rewrite app_nil_r|]. destruct (IH (add_group acc r)) as [rest ->]. unfold add_group. destruct (existsb _ _); [by exists rest|]. exists ([r] ++ rest). by rewrite app_assoc.
Qed.

(** ** The bounds *)

Definition condition_bounds (c : mediaCondition) : list widthBound := concat (ma_bounds <$> c).
Fixpoint chain_bounds (f : conditionFrame) : list Z :=
  match f with NoFrame => [] | Frame _ c p => (wb_value <$> condition_bounds c) ++ chain_bounds p end.
Fixpoint depth (f : conditionFrame) : nat := match f with NoFrame => 0 | Frame _ _ p => S (depth p) end.

Lemma add_bound_elem bounds b v : v ∈ add_bound bounds b <-> v ∈ bounds \/ v = wb_value b.
Proof.
  unfold add_bound. destruct (existsb _ _) eqn:E; [|by rewrite elem_of_app, list_elem_of_singleton]. split; [by left|]. intros [H| ->]; [done|]. apply existsb_exists in E as (x & Hx & <-%Z.eqb_eq). by apply list_elem_of_In.
Qed.
Lemma add_bounds_elem l bounds v : v ∈ fold_left add_bound l bounds <-> v ∈ bounds \/ v ∈ wb_value <$> l.
Proof. revert bounds. induction l as [|b l IH]; intros bounds; cbn [fold_left]; [set_solver|]. rewrite IH, add_bound_elem, fmap_cons, elem_of_cons. tauto. Qed.

Section Bounds.
Variable rules : list conditionFrame.
Hypothesis Hshared : shared rules.
(** A frame seen has its bounds collected, or is on the way from the group to
    the current frame. *)
Definition seen_sound (f : conditionFrame) (seen : list nat) (bounds : list Z) : Prop :=
  forall id c p, id ∈ seen -> Frame id c p ∈ all_frames rules ->
    chain_bounds (Frame id c p) ⊆ bounds \/ (depth f < depth (Frame id c p))%nat /\ chain_bounds (Frame id c p) ⊆ bounds ++ chain_bounds f.
Definition seen_done (seen : list nat) (bounds : list Z) : Prop :=
  forall id c p, id ∈ seen -> Frame id c p ∈ all_frames rules -> chain_bounds (Frame id c p) ⊆ bounds.

Lemma frame_bounds_collects f seen bounds : f ∈ all_frames rules -> seen_sound f seen bounds ->
  let r := frame_bounds f seen bounds in chain_bounds f ⊆ r.2 /\ bounds ⊆ r.2 /\ seen_done r.1 r.2.
Proof using Hshared.
  revert seen bounds. induction f as [|id c p IH]; intros seen bounds Hf Hs; cbn zeta; cbn [frame_bounds].
  - split_and!; [cbn; set_solver|done|]. intros id c p Hid Hin. cbn in *. destruct (Hs id c p Hid Hin) as [H|[_ H]]; [done|]. cbn [chain_bounds] in *. by rewrite app_nil_r in H.
  - destruct (bool_decide_reflect (id ∈ seen)) as [Hid|Hid]; cbn [fst snd].
    + destruct (Hs id c p Hid Hf) as [H|[H _]]; [|lia]. split_and!; [done..|]. intros id' c' p' Hid' Hin. destruct (Hs id' c' p' Hid' Hin) as [H'|[_ H']]; [done|]. intros v Hv. apply H', elem_of_app in Hv as [Hv|Hv]; [done|by apply H].
    + destruct (IH (id :: seen) (fold_left add_bound (condition_bounds c) bounds)) as (H1 & H2 & H3); [by eapply parent_frame| |].
      { intros id' c' p' [->|Hid']%elem_of_cons Hin.
        - rewrite (Hshared id c' p' c p Hin Hf). right. split; [cbn; lia|]. intros v. cbn [chain_bounds]. rewrite !elem_of_app, add_bounds_elem. tauto.
        - destruct (Hs id' c' p' Hid' Hin) as [H|[Hd H]]; [left; intros v Hv; apply add_bounds_elem; left; by apply H|right]. cbn [depth] in Hd |- *. split; [lia|].
          intros v Hv. apply H in Hv. revert Hv. cbn [chain_bounds]. rewrite !elem_of_app, add_bounds_elem. tauto. }
      unfold condition_bounds in *. cbn zeta in *. split_and!; [|intros v Hv; apply H2, add_bounds_elem; by left|done].
      intros v. cbn [chain_bounds]. rewrite elem_of_app. intros [Hv|Hv]; [apply H2, add_bounds_elem; by right|by apply H1].
Qed.
Lemma collect_collects groups : (forall g, g ∈ groups -> g ∈ all_frames rules) -> forall g, g ∈ groups -> chain_bounds g ⊆ collect_bounds groups.
Proof using Hshared.
  unfold collect_bounds. intros Hg. assert (H0 : seen_done [] []) by (intros id c p H%elem_of_nil; done). revert H0. generalize (@nil nat) as seen, (@nil Z) as bounds.
  assert (Hkeep : forall gs seen bounds, (forall g, g ∈ gs -> g ∈ all_frames rules) -> seen_done seen bounds -> bounds ⊆ (fold_left (λ '(seen, bounds) group, frame_bounds group seen bounds) gs (seen, bounds)).2 /\ forall g, g ∈ gs -> chain_bounds g ⊆ (fold_left (λ '(seen, bounds) group, frame_bounds group seen bounds) gs (seen, bounds)).2).
  { intros gs. induction gs as [|g gs IH]; intros seen bounds Hgs Hd; cbn [fold_left]; [split; [done|]; intros g Hx%elem_of_nil; done|].
    destruct (frame_bounds_collects g seen bounds) as (H1 & H2 & H3); [apply Hgs; set_solver|intros id c p Hid Hin; left; by apply Hd|]. cbn zeta in *. destruct (frame_bounds g seen bounds) as [seen' bounds'].
    destruct (IH seen' bounds') as [H4 H5]; [set_solver|done|]. cbn in *. split; [set_solver|]. intros g' [->|Hx]%elem_of_cons; [set_solver|by apply H5]. }
  intros seen bounds Hd. by apply Hkeep.
Qed.
End Bounds.
(** No bounds but those of the frames. *)
Lemma frame_bounds_only f seen bounds v : v ∈ (frame_bounds f seen bounds).2 -> v ∈ bounds \/ v ∈ chain_bounds f.
Proof.
  revert seen bounds. induction f as [|id c p IH]; intros seen bounds; cbn [frame_bounds chain_bounds]; [by left|]. destruct (bool_decide _); [by left|]. intros [H|H]%IH; [apply add_bounds_elem in H as [H|H]|]; [by left|right..]; apply elem_of_app; [by left|by right].
Qed.
Lemma collect_only groups v : v ∈ collect_bounds groups -> exists g, g ∈ groups /\ v ∈ chain_bounds g.
Proof.
  unfold collect_bounds. assert (H : forall seen bounds, v ∈ (fold_left (λ '(seen, bounds) group, frame_bounds group seen bounds) groups (seen, bounds)).2 -> v ∈ bounds \/ exists g, g ∈ groups /\ v ∈ chain_bounds g).
  { induction groups as [|g groups IH]; intros seen bounds; cbn [fold_left]; [by left|]. destruct (frame_bounds g seen bounds) as [seen' bounds'] eqn:E. intros [H|(g' & Hg & H)]%IH; [|right; exists g'; set_solver].
    pose proof (frame_bounds_only g seen bounds v) as Hf. rewrite E in Hf. destruct (Hf H) as [Hb|Hb]; [by left|right; exists g; set_solver]. }
  intros Hv. destruct (H _ _ Hv) as [Hn|Hx]; [by apply elem_of_nil in Hn|done].
Qed.

(** ** Widths that agree on the bounds *)

Definition agree (w w' : Z) (bounds : list Z) : Prop := forall b, b ∈ bounds -> (w <? b) = (w' <? b) /\ (b <? w) = (b <? w').
Lemma agree_states w w' c fallback : agree w w' (wb_value <$> condition_bounds c) -> states c w fallback = states c w' fallback.
Proof.
  intros H. unfold states. assert (Hs : forall l acc, (forall a, a ∈ l -> a ∈ c) -> fold_left (alternative_states w fallback) l acc = fold_left (alternative_states w' fallback) l acc); [|by apply Hs].
  induction l as [|a l IH]; intros acc Hl; [done|]. cbn [fold_left]. rewrite IH by set_solver. f_equal. unfold alternative_states. destruct acc as [light dark].
  replace (existsb (bound_fails w) (ma_bounds a)) with (existsb (bound_fails w') (ma_bounds a)); [done|].
  assert (Hb : forall b, b ∈ ma_bounds a -> bound_fails w' b = bound_fails w b).
  { intros b Hb. destruct (H (wb_value b)) as [H1 H2]; [|unfold bound_fails; by rewrite H1, H2]. apply list_elem_of_fmap_2. unfold condition_bounds. apply list_elem_of_In, in_concat. exists (ma_bounds a). split; apply list_elem_of_In; [apply list_elem_of_fmap_2, Hl; set_solver|done]. }
  clear - Hb. induction (ma_bounds a) as [|b bs IH]; [done|]. cbn. rewrite Hb by set_solver. f_equal. apply IH. set_solver.
Qed.
Lemma agree_frame w w' f fallback : agree w w' (chain_bounds f) -> frame_states f w fallback = frame_states f w' fallback.
Proof.
  induction f as [|id c p IH]; intros H; [done|]. cbn [frame_states chain_bounds] in *. rewrite IH by (intros b Hb; apply H, elem_of_app; by right). f_equal. apply agree_states. intros b Hb. apply H, elem_of_app. by left.
Qed.

(** ** The candidates *)

Lemma insert_sorted_elem b l x : x ∈ insert_sorted b l <-> x = b \/ x ∈ l.
Proof. induction l as [|y l IH]; cbn; [set_solver|]. destruct (b <=? y); [set_solver|]. rewrite !elem_of_cons, IH. tauto. Qed.
Lemma sort_elem l x : x ∈ sort_widths l <-> x ∈ l.
Proof. induction l as [|y l IH]; cbn; [done|]. by rewrite insert_sorted_elem, IH, elem_of_cons. Qed.
Lemma insert_sorted_sorted b l : StronglySorted Z.le l -> StronglySorted Z.le (insert_sorted b l).
Proof.
  induction 1 as [|y l Hl IH Hy]; cbn; [repeat constructor|]. destruct (Z.leb_spec b y) as [Hle|Hgt].
  - constructor; [by constructor|]. constructor; [done|]. eapply Forall_impl; [exact Hy|]. intros z Hz. cbn in *. lia.
  - constructor; [done|]. apply Forall_forall. intros z [->|Hz]%insert_sorted_elem; [lia|]. rewrite Forall_forall in Hy. by apply Hy.
Qed.
Lemma sort_sorted l : StronglySorted Z.le (sort_widths l).
Proof. induction l as [|y l IH]; cbn; [constructor|]. by apply insert_sorted_sorted. Qed.

Lemma agree_cons w w' b bounds : (w <? b) = (w' <? b) /\ (b <? w) = (b <? w') -> agree w w' bounds -> agree w w' (b :: bounds).
Proof. intros H1 H2 x [->|Hx]%elem_of_cons; [done|by apply H2]. Qed.
Lemma agree_above w w' bounds m : (forall b, b ∈ bounds -> b <= m) -> m < w -> m < w' -> agree w w' bounds.
Proof.
  intros Hm Hw Hw' b Hb. apply Hm in Hb. split; [|by rewrite !(proj2 (Z.ltb_lt _ _)) by lia].
  by rewrite !(proj2 (Z.ltb_ge _ _)) by lia.
Qed.
Lemma agree_below w w' bounds m : (forall b, b ∈ bounds -> m <= b) -> w < m -> w' < m -> agree w w' bounds.
Proof.
  intros Hm Hw Hw' b Hb. apply Hm in Hb. split; [by rewrite !(proj2 (Z.ltb_lt _ _)) by lia|].
  by rewrite !(proj2 (Z.ltb_ge _ _)) by lia.
Qed.
(** Above the previous bound, the candidates meet every interval and every point
    up to the last bound. *)
Lemma candidates_cover bounds prev w : StronglySorted Z.le bounds -> representable prev -> (forall b, b ∈ bounds -> representable b) -> representable w -> prev < w ->
  let r := candidates_go prev bounds in
  representable r.2 /\ prev <= r.2 /\ (forall b, b ∈ bounds -> b <= r.2) /\ ((exists w', w' ∈ r.1 /\ prev < w' /\ agree w w' bounds) \/ r.2 < w).
Proof.
  intros Hs. revert prev w. induction Hs as [|b bounds Hs IH Hb]; intros prev w Rp Rb Rw Hw; cbn zeta; cbn [candidates_go].
  - cbn. split_and!; [done|done|intros b Hx%elem_of_nil; done|by right].
  - assert (Rb' : representable b) by (apply Rb; set_solver). assert (Rbs : forall x, x ∈ bounds -> representable x) by (intros; apply Rb; set_solver).
    rewrite Forall_forall in Hb. destruct (Z.ltb_spec prev b) as [Hlt|Hge].
    + assert (Hall : forall x, x ∈ b :: bounds -> b <= x) by (intros x [->|Hx]%elem_of_cons; [lia|by apply Hb]).
      assert (Hlast : forall v, representable v -> b < v -> let r := candidates_go b bounds in representable r.2 /\ b <= r.2 /\ (forall x, x ∈ bounds -> x <= r.2) /\ ((exists w', w' ∈ r.1 /\ b < w' /\ agree v w' bounds) \/ r.2 < v)) by (intros v Rv Hv; by apply IH).
      destruct (Hlast (b + 2 ^ ulp_exp b) (rep_succ b Rb') ltac:(pose proof (pow_pos (ulp_exp b) (ulp_nonneg b)); lia)) as (R2 & L2 & M2 & _).
      specialize (Hlast w Rw). destruct (candidates_go b bounds) as [l last]. cbn [fst snd] in *. split_and!; [done|lia|intros x [->|Hx]%elem_of_cons; [lia|by apply M2]|].
      destruct (Ztrichotomy w b) as [Hwb|[->|Hwb]].
      * left. exists (midpoint prev b). destruct (midpoint_between prev w b Rp Rw Rb' Hw Hwb). split_and!; [apply elem_of_cons; by left|lia|]. by apply (agree_below _ _ _ b).
      * left. exists b. split_and!; [set_solver|lia|done].
      * destruct (Hlast ltac:(lia)) as (_ & _ & _ & [(w' & Hin & Hw' & Ha)|Hl]); [left|by right]. exists w'. split_and!; [set_solver|lia|]. apply agree_cons; [|done]. apply (agree_above w w' [b] b); [intros x ->%list_elem_of_singleton; lia|lia|done|set_solver].
    + destruct (IH prev w Rp Rbs Rw Hw) as (R2 & L2 & M2 & H). split_and!; [done|done|intros x [->|Hx]%elem_of_cons; [lia|by apply M2]|]. destruct H as [(w' & Hin & Hw' & Ha)|Hl]; [left|by right].
      exists w'. split_and!; [done..|]. apply agree_cons; [|done]. apply (agree_above w w' [b] prev); [intros x ->%list_elem_of_singleton; lia|done|done|set_solver].
Qed.
Lemma candidates_agree bounds w : (forall b, b ∈ bounds -> representable b) -> representable w -> w <= max_float -> exists w', w' ∈ candidates bounds /\ agree w w' bounds.
Proof.
  intros Rb Rw Hmax. pose proof (rep_nonneg w Rw) as H0. unfold candidates. destruct (Z.eq_dec w 0) as [->|Hne]; [exists 0; split; [destruct (candidates_go _ _); set_solver|done]|].
  destruct (candidates_cover (sort_widths bounds) 0 w) as (R2 & L2 & M2 & H); [apply sort_sorted|split; [done|by exists 0]|intros b Hb; by apply Rb, sort_elem|done|lia|]. cbn zeta in *.
  destruct (candidates_go 0 (sort_widths bounds)) as [l last]. cbn [fst snd] in *. destruct H as [(w' & Hin & _ & Ha)|Hl].
  - exists w'. split; [set_solver|]. intros b Hb. apply Ha. by apply sort_elem.
  - destruct (nextAfter last) as [k|] eqn:E; [|pose proof (nextAfter_none last w R2 E Rw Hl); lia]. destruct (nextAfter_next last k R2 E) as (_ & Hk & _). exists k. split; [set_solver|].
    apply (agree_above _ _ _ last); [intros b Hb; apply M2; by apply sort_elem|done..].
Qed.
Lemma candidates_length bounds : (length (candidates bounds) <= 2 * length bounds + 2)%nat.
Proof.
  assert (Hi : forall b l, length (insert_sorted b l) = S (length l)) by (intros b l; induction l as [|y l IH]; cbn; [done|]; destruct (b <=? y); cbn; lia).
  assert (Hs : length (sort_widths bounds) = length bounds) by (induction bounds as [|b l IH]; cbn; [done|]; rewrite Hi; f_equal; exact IH).
  assert (Hg : forall l prev, (length (candidates_go prev l).1 <= 2 * length l)%nat).
  { induction l as [|b l IH]; intros prev; cbn; [done|]. destruct (prev <? b); [|pose proof (IH prev); lia]. pose proof (IH b). destruct (candidates_go b l). cbn in *. lia. }
  unfold candidates. pose proof (Hg (sort_widths bounds) 0). destruct (candidates_go _ _) as [l last]. cbn [fst] in *. cbn [length]. rewrite length_app. destruct (nextAfter last); cbn; lia.
Qed.

(** ** Kept widths *)

Definition signature (groups : list conditionFrame) (w : Z) : list media_state := tail (group_states groups w false).
Lemma new_widths_cover groups seen l w : w ∈ l -> (exists w', w' ∈ new_widths groups seen l /\ signature groups w' = signature groups w) \/ signature groups w ∈ seen.
Proof.
  revert seen. induction l as [|v l IH]; intros seen; [intros H%elem_of_nil; done|]. cbn [new_widths]. fold (signature groups v). intros [->|Hw]%elem_of_cons.
  - destruct (bool_decide_reflect (signature groups v ∈ seen)); [by right|left]. exists v. split; [set_solver|done].
  - destruct (bool_decide_reflect (signature groups v ∈ seen)); [by apply IH|]. destruct (IH (signature groups v :: seen) Hw) as [(w' & H1 & H2)|[E|H]%elem_of_cons]; [left; exists w'; set_solver|left; exists v; set_solver|by right].
Qed.
Lemma new_widths_distinct groups seen l : NoDup (signature groups <$> new_widths groups seen l) /\ forall w, w ∈ new_widths groups seen l -> signature groups w ∉ seen /\ w ∈ l.
Proof.
  revert seen. induction l as [|v l IH]; intros seen; cbn [new_widths]; [split; [constructor|]; intros w H%elem_of_nil; done|]. fold (signature groups v).
  destruct (bool_decide_reflect (signature groups v ∈ seen)) as [|Hn]; [destruct (IH seen) as [H1 H2]; split; [done|]; set_solver|]. destruct (IH (signature groups v :: seen)) as [H1 H2]. split.
  - rewrite fmap_cons. constructor; [|done]. intros (w & E & Hw)%list_elem_of_fmap. apply H2 in Hw as [Hw _]. set_solver.
  - intros w [->|Hw]%elem_of_cons; [set_solver|]. apply H2 in Hw. set_solver.
Qed.
Lemma new_widths_length groups seen l : (length (new_widths groups seen l) <= length l)%nat.
Proof. revert seen. induction l as [|v l IH]; intros seen; cbn; [done|]. destruct (bool_decide _); cbn; [pose proof (IH seen)|pose proof (IH (signature groups v :: seen)); unfold signature in *]; lia. Qed.

(** ** Bounds of parsed conditions *)

Lemma scaled_rep m e v : 0 <= m -> units_of (scaled false m e) = Some v -> representable v.
Proof.
  intros Hm. assert (H : forall n d, 0 < d -> 0 <= n -> units_of (to_float false n d) = Some v -> representable v).
  { intros n d Hd Hn. unfold to_float. destruct (_ <? _); [done|]. intros [= <-]. by apply round_rep. }
  assert (Hu : 0 < one_unit) by (by apply Z.pow_pos_nonneg). unfold scaled. destruct (Z.leb_spec 0 e); apply H; try done; try (apply Z.pow_pos_nonneg; lia); [|nia].
  pose proof (Z.pow_nonneg 10 e ltac:(done)). nia.
Qed.
Lemma unsigned_rep s v : match s with c :: _ => ceq c "+" = false /\ ceq c "-" = false | [] => True end -> numberWithBudget s = Some v -> representable v.
Proof.
  intros Hs. unfold numberWithBudget, parseCSSNumber, scanCSSNumber. destruct (decimal_of s) as [n|] eqn:E; [|done].
  assert (Hneg : dc_negative n = false).
  { unfold decimal_of in E. assert (E0 : sign_of s = (false, s)) by (destruct s as [|c s]; [done|]; cbn; destruct Hs as [-> ->]; done). rewrite E0 in E.
    destruct (mantissa_of s) as [[[ints fracs] r]|]; [|done]. destruct (exponent_text r) as [[minus ds]|]; [|done]. by injection E as <-. }
  destruct (decimal_of_digits s n E) as (D1 & _ & _). cbn [cn_zero cn_order cn_negative]. rewrite Hneg. destruct (_ <? 0); [intros [= <-]; split; [done|by exists 0]|]. destruct (309 <=? _); [done|].
  cbn. unfold ParseFloat. rewrite Hneg. apply scaled_rep. pose proof (digits_value_bounds _ 0 D1 ltac:(done)). unfold mantissa. lia.
Qed.
Lemma width_number_unsigned s number rest : width_number s = Some (number, rest) ->
  match trimSuffix number (lit ".") with c :: _ => ceq c "+" = false /\ ceq c "-" = false | [] => True end.
Proof.
  intros H. assert (Hh : match number with c :: _ => ceq c "+" = false /\ ceq c "-" = false | [] => True end).
  { assert (Hd : forall c, digit c = true -> ceq c "+" = false /\ ceq c "-" = false) by (intros c Hc; unfold ceq; split; apply bool_decide_eq_false; intros ->; done).
    revert H. unfold width_number. pose proof (span_digits s) as D. destruct (span digit s) as [ints r]. cbn in D. destruct r as [|c after].
    - destruct (beq ints []); [done|]. intros [= <- <-]. destruct D; [done|by apply Hd].
    - destruct (ceq c ".") eqn:Ec.
      + destruct (span digit after) as [fracs r]. destruct (_ && _); [done|]. intros [= <- <-]. destruct D as [|d ds Hdd _]; cbn [app]; [|by apply Hd]. apply bool_decide_eq_true in Ec. subst c. done.
      + destruct (beq ints []); [done|]. intros [= <- <-]. destruct D; [done|by apply Hd]. }
  unfold trimSuffix. destruct (hasSuffix _ _); [|done]. destruct number as [|c number]; [by destruct (_ - _)%nat|]. by destruct (length (c :: number) - _)%nat.
Qed.
Definition fits (a : mediaAlternative) : Prop := Forall (λ b, representable (wb_value b)) (ma_bounds a).
Lemma add_part_fits a part : fits a -> fits (add_part a part).
Proof.
  intros H. unfold add_part. destruct (_ || _); [done|]. destruct (beq _ _); [done|]. destruct (_ || _); [done|]. destruct (_ || _); [done|].
  destruct (widthFeature _) as [[[minimum number] unit_]|] eqn:E; [|done]. destruct (numberWithBudget _) as [v|] eqn:Ev; [|done]. destruct (_ && _); [done|].
  unfold fits. cbn. apply Forall_app. split; [done|]. constructor; [|constructor]. cbn. eapply unsigned_rep; [|exact Ev]. unfold widthFeature in E.
  destruct (strip _ _); [|done]. destruct (if hasPrefix _ _ then _ else _); [|done]. destruct (_ ≫= _); [|done]. destruct (width_number _) as [[t r]|] eqn:Et; [|done]. destruct (beq _ _); [|done]. injection E as <- <- <-. by eapply width_number_unsigned.
Qed.
Lemma alternatives_fit raws result : Forall fits result -> Forall fits (alternatives raws result).
Proof.
  revert result. induction raws as [|raw raws IH]; intros result H; cbn [alternatives]; [done|]. destruct (_ <? _)%nat; [repeat constructor|]. apply IH. apply Forall_app. split; [done|]. constructor; [|constructor].
  assert (Hf : forall l a, fits a -> fits (fold_left add_part l a)) by (intros l; induction l as [|x l IHl]; intros a Ha; cbn; [done|]; by apply IHl, add_part_fits).
  match goal with |- fits (if _ then ?x else ?y) => assert (Hy : fits y) by (apply Hf; constructor) end. destruct (_ =? 0); [exact Hy|exact Hy].
Qed.
(** A condition the parser of style sheets makes. *)
Definition built (c : mediaCondition) : Prop := c = neverMedia \/ c = unknown_media \/ exists src, c = parseMedia src.
Lemma built_fits c : built c -> Forall fits c.
Proof.
  intros [->|[->|[src ->]]]; [repeat constructor..|]. unfold parseMedia. destruct (_ || _); [repeat constructor|]. by apply alternatives_fit.
Qed.
Definition built_frames (rules : list conditionFrame) : Prop := forall id c p, Frame id c p ∈ all_frames rules -> built c.

(** ** Claims *)

Lemma frames_with_none rules f : f ∈ all_frames (NoFrame :: rules) <-> f = NoFrame \/ f ∈ all_frames rules.
Proof. unfold all_frames. rewrite fmap_cons. cbn. by rewrite elem_of_cons. Qed.
Lemma shared_with_none rules : shared rules -> shared (NoFrame :: rules).
Proof. intros H id c p c' p' [?|H1]%frames_with_none [?|H2]%frames_with_none; try done. by apply H. Qed.
Lemma groups_frames rules g : g ∈ prepareMediaGroups rules -> g ∈ all_frames (NoFrame :: rules).
Proof. intros [->%list_elem_of_singleton|H]%groups_elem; apply frames_with_none; [by left|right; by apply rule_frame]. Qed.
Lemma chain_bounds_rep rules f : built_frames rules -> f ∈ all_frames (NoFrame :: rules) -> forall b, b ∈ chain_bounds f -> representable b.
Proof.
  intros Hb. induction f as [|id c p IH]; intros Hf b; cbn; [intros H%elem_of_nil; done|]. rewrite elem_of_app. intros [(x & -> & Hx)%list_elem_of_fmap|H]; [|apply IH; [by eapply parent_frame|done]].
  apply frames_with_none in Hf as [?|Hf]; [done|]. pose proof (built_fits c (Hb _ _ _ Hf)) as Hc. unfold condition_bounds in Hx. apply list_elem_of_In, in_concat in Hx as (l & Hl & Hx). apply in_map_iff in Hl as (a & <- & Ha).
  rewrite Forall_forall in Hc. specialize (Hc a ltac:(by apply list_elem_of_In)). unfold fits in Hc. rewrite Forall_forall in Hc. apply Hc. by apply list_elem_of_In.
Qed.
Lemma states_of_groups rules w : shared rules ->
  group_states (prepareMediaGroups rules) w false = (λ g, combinedMediaState (frame_states g w false).1 (frame_states g w false).2) <$> prepareMediaGroups rules.
Proof. intros H. apply (evaluate_groups_cached (NoFrame :: rules)); [by apply shared_with_none|by intros g Hg; apply groups_frames|by intros id c p st _ Hl]. Qed.
Lemma states_agree rules w w' : shared rules -> agree w w' (collect_bounds (prepareMediaGroups rules)) -> group_states (prepareMediaGroups rules) w false = group_states (prepareMediaGroups rules) w' false.
Proof.
  intros Hs Ha. rewrite !states_of_groups by done. apply list_fmap_ext. intros i g Hg%list_elem_of_lookup_2. rewrite (agree_frame w w' g); [done|]. intros b Hb. apply Ha.
  eapply (collect_collects (NoFrame :: rules)); [by apply shared_with_none|by intros x Hx; apply groups_frames|exact Hg|exact Hb].
Qed.
Lemma groups_complete rules f : shared rules -> f ∈ rules -> f ∈ prepareMediaGroups rules.
Proof.
  intros Hs Hf. unfold prepareMediaGroups. assert (Hu : forall g, g ∈ [NoFrame] -> g ∈ all_frames (NoFrame :: rules)) by (intros g ->%list_elem_of_singleton; apply frames_with_none; by left).
  assert (Hr : forall g, g ∈ rules -> g ∈ all_frames (NoFrame :: rules)) by (intros g Hg; apply frames_with_none; right; by apply rule_frame). revert Hu Hr Hf. generalize [NoFrame] as acc. pose proof (shared_with_none rules Hs) as Hs'. generalize rules at 2 4 5 as l.
  induction l as [|r l IH]; intros acc Hu Hr; [intros H%elem_of_nil; done|]. intros [->|H]%elem_of_cons; cbn [fold_left].
  - destruct (fold_groups_head l (add_group acc r)) as [rest ->]. apply elem_of_app. left. unfold add_group. destruct (existsb (same_frame r) acc) eqn:E; [|set_solver].
    apply existsb_exists in E as (g & Hg%list_elem_of_In & E). assert (r = g); [|by subst]. pose proof (Hr r ltac:(set_solver)) as R1. pose proof (Hu g Hg) as R2. destruct r, g; cbn in E; try done. apply Nat.eqb_eq in E. subst. by apply Hs'.
  - apply IH; [|set_solver|done]. intros g [Hg| ->]%add_group_elem; [by apply Hu|apply Hr; set_solver].
Qed.
(** The state of the first group, without conditions, is not part of a signature. *)
Lemma signature_states rules w : group_states (prepareMediaGroups rules) w false = mediaYes :: signature (prepareMediaGroups rules) w.
Proof. unfold signature, prepareMediaGroups. destruct (fold_groups_head rules [NoFrame]) as [rest ->]. done. Qed.

(** C23: judging a page in the chosen widths misses no width.  For the rules of
    any style sheet, every float64 width is represented by one of the widths
    chosen: all groups of rules have the same states there.  Each rule is in a
    group, no two chosen widths are equivalent, and there are at most two more
    than twice as many as bounds.  The widths between two bounds are represented
    by their midpoint as it is computed in floating point. *)
Theorem viewing_widths_cover (rules : list conditionFrame) (width : Z)
    (Hshared : shared rules) (Hbuilt : built_frames rules) (Hw : representable width) (Hmax : width <= max_float) :
  let groups := prepareMediaGroups rules in
  let widths := (viewingCases false rules).1 in
  (forall f, f ∈ rules -> f ∈ groups) /\
  (exists w, w ∈ widths /\ group_states groups w false = group_states groups width false) /\
  NoDup ((λ w, group_states groups w false) <$> widths) /\
  (length widths <= 2 * length (collect_bounds groups) + 2)%nat.
Proof.
  cbn zeta. split; [intros f; by apply groups_complete|]. unfold viewingCases. destruct (bool_decide_reflect (collect_bounds (prepareMediaGroups rules) = [])) as [E|E]; cbn [fst].
  - split_and!; [|by apply NoDup_singleton|cbn; lia]. exists default_width. split; [set_solver|]. apply states_agree; [done|]. rewrite E. intros b Hb%elem_of_nil. done.
  - destruct (new_widths_distinct (prepareMediaGroups rules) [] (candidates (collect_bounds (prepareMediaGroups rules)))) as [Hd _]. split_and!.
    + destruct (candidates_agree (collect_bounds (prepareMediaGroups rules)) width) as (w' & Hin & Ha); [|done..|].
      { intros b (g & Hg & Hb)%collect_only. eapply chain_bounds_rep; [done|by apply groups_frames|exact Hb]. }
      destruct (new_widths_cover (prepareMediaGroups rules) [] _ w' Hin) as [(w & Hw1 & Hw2)|H%elem_of_nil]; [|done]. exists w. split; [done|].
      rewrite (states_agree rules width w') by done. by rewrite !signature_states, Hw2.
    + erewrite list_fmap_ext; [|intros i w _; apply signature_states]. rewrite (list_fmap_compose (signature (prepareMediaGroups rules)) (cons mediaYes)). apply NoDup_fmap_2; [by intros ? ? [=]|done].
    + etrans; [apply new_widths_length|apply candidates_length].
Qed.

(** ** The three values *)

Definition scheme_state (dark : bool) (st : media_state * media_state) : media_state := if dark then st.2 else st.1.
Definition kleene (certain possible : bool) : media_state := if certain then mediaYes else if possible then mediaUnknown else mediaNo.
Lemma states_kleene c width fallback dark :
  scheme_state dark (states c width fallback) = kleene (condition_holds width fallback dark (λ _, false) c) (condition_holds width fallback dark (λ _, true) c).
Proof.
  unfold states. assert (H : forall acc x y, scheme_state dark acc = kleene x y -> (x = true -> y = true) ->
    scheme_state dark (fold_left (alternative_states width fallback) c acc) = kleene (x || condition_holds width fallback dark (λ _, false) c) (y || condition_holds width fallback dark (λ _, true) c)).
  { induction c as [|a c IH]; intros acc x y Ha Hxy; cbn [fold_left condition_holds]; [by rewrite !orb_false_r|]. rewrite !orb_assoc. apply IH.
    - destruct acc as [light dark']. unfold alternative_states, applies, in_width. change (is_open fallback a) with (ma_unknown a || (fallback && negb (bool_decide (ma_bounds a = [])))).
      destruct (ma_never a); cbn; [by rewrite !orb_false_r|].
      destruct (fallback || negb (existsb (bound_fails width) (ma_bounds a))) eqn:Ew; cbn; [replace (negb fallback && _) with false by (destruct fallback; [done|]; by destruct (existsb _ _))|replace (negb fallback && _) with true by (destruct fallback; [done|]; by destruct (existsb _ _)); by rewrite !orb_false_r].
      unfold in_scheme, scheme_state in *. cbn [fst snd] in *. generalize (ma_unknown a || (fallback && negb (bool_decide (ma_bounds a = [])))). intros open.
      destruct dark; cbn [fst snd] in *; (destruct (negb (Z.land _ _ =? 0)) in |- *; cbn; [|try (destruct (negb _)); by rewrite !orb_false_r]).
      all: rewrite Ha; destruct open, x, y; cbn; try done; by specialize (Hxy eq_refl).
    - intros [->|Hp]%orb_true_iff; [by rewrite Hxy|]. apply orb_true_iff. right. revert Hp. unfold applies. rewrite orb_false_r, orb_true_r, andb_true_r, !andb_true_iff. tauto. }
  rewrite (H (mediaNo, mediaNo) false false); [done|by destruct dark|done].
Qed.
Lemma condition_mono width fallback dark (env env' : nat -> bool) c : (forall i, env i = true -> env' i = true) -> condition_holds width fallback dark env c = true -> condition_holds width fallback dark env' c = true.
Proof.
  revert env env'. induction c as [|a c IH]; intros env env' He; cbn; [done|]. rewrite !orb_true_iff. intros [H|H]; [left|right; eapply IH; [|exact H]; cbn; auto].
  revert H. unfold applies. rewrite !andb_true_iff, !orb_true_iff. naive_solver.
Qed.
Lemma frame_mono width fallback dark (env env' : nat -> nat -> bool) f : (forall i j, env i j = true -> env' i j = true) -> frame_holds width fallback dark env f = true -> frame_holds width fallback dark env' f = true.
Proof. intros He. induction f as [|id c p IH]; cbn; [done|]. rewrite !andb_true_iff. intros [H1 H2]. split; [eapply condition_mono; [|exact H1]; auto|auto]. Qed.
Lemma frame_kleene f width fallback dark :
  scheme_state dark (frame_states f width fallback) = kleene (frame_holds width fallback dark (λ _ _, false) f) (frame_holds width fallback dark (λ _ _, true) f).
Proof.
  induction f as [|id c p IH]; cbn [frame_states frame_holds]; [by destruct dark|]. pose proof (states_kleene c width fallback dark) as Hc.
  assert (Hi : forall a b, scheme_state dark (intersect_states a b) = intersectMediaState (scheme_state dark a) (scheme_state dark b)) by (intros; by destruct dark). rewrite Hi, IH, Hc.
  pose proof (condition_mono width fallback dark (λ _, false) (λ _, true) c ltac:(done)) as M1. pose proof (frame_mono width fallback dark (λ _ _, false) (λ _ _, true) p ltac:(done)) as M2.
  destruct (condition_holds _ _ _ (λ _, false) c), (condition_holds _ _ _ (λ _, true) c), (frame_holds _ _ _ (λ _ _, false) p), (frame_holds _ _ _ (λ _ _, true) p); cbn; try done; try (by specialize (M1 eq_refl)); by specialize (M2 eq_refl).
Qed.
(** The value of a frame is exact: it holds when the rule applies whatever is
    unknown, it does not when the rule never applies, and it is unknown when both
    can be. *)
Theorem media_states_exact (f : conditionFrame) (width : Z) (fallback dark : bool) (Hshared : shared [f]) :
  match scheme_state dark (evaluateConditionFrame f width fallback ∅).1 with
  | mediaYes => forall env, frame_holds width fallback dark env f = true
  | mediaNo => forall env, frame_holds width fallback dark env f = false
  | mediaUnknown => (exists env, frame_holds width fallback dark env f = true) /\ exists env, frame_holds width fallback dark env f = false
  | _ => False
  end.
Proof.
  destruct (evaluate_cached [f] width fallback Hshared f ∅) as [-> _]; [apply rule_frame; set_solver|by intros id c p st _ Hl|]. rewrite frame_kleene. unfold kleene.
  destruct (frame_holds _ _ _ (λ _ _, false) f) eqn:E1; [intros env; eapply frame_mono; [|exact E1]; done|]. destruct (frame_holds _ _ _ (λ _ _, true) f) eqn:E2; [by eauto|].
  intros env. apply not_true_is_false. intros Ht. eapply (frame_mono _ _ _ _ (λ _ _, true)) in Ht; [congruence|done].
Qed.

Module Sample.
Definition narrow : conditionFrame := Frame 1 (parseMedia (lit "screen and (max-width: 600px)")) NoFrame.
Definition middle : conditionFrame := Frame 2 (parseMedia (lit "only screen and (min-width:480px), print")) NoFrame.
Definition dark_inside : conditionFrame := Frame 3 (parseMedia (lit "(prefers-color-scheme: dark) and (hover)")) narrow.
Definition rules : list conditionFrame := [NoFrame; narrow; middle; dark_inside; narrow].
Example three_widths : ((λ w, (w / one_unit, group_states (prepareMediaGroups rules) w false)) <$> (viewingCases false rules).1) =
  [(0, [mediaYes; mediaYes; mediaNo; mediaAlternateColourScheme]); (480, [mediaYes; mediaYes; mediaYes; mediaAlternateColourScheme]); (600, [mediaYes; mediaNo; mediaYes; mediaNo])].
Proof. vm_compute. reflexivity. Qed.
Lemma sample_frames c1 c2 c3 x : x ∈ all_frames [NoFrame; Frame 1 c1 NoFrame; Frame 2 c2 NoFrame; Frame 3 c3 (Frame 1 c1 NoFrame); Frame 1 c1 NoFrame] ->
  x = NoFrame \/ x = Frame 1 c1 NoFrame \/ x = Frame 2 c2 NoFrame \/ x = Frame 3 c3 (Frame 1 c1 NoFrame).
Proof. unfold all_frames. cbn [fmap list_fmap concat app subframes]. rewrite !elem_of_cons, elem_of_nil. tauto. Qed.
Lemma rules_shared : shared rules.
Proof.
  unfold rules, dark_inside, middle, narrow. generalize (parseMedia (lit "screen and (max-width: 600px)")), (parseMedia (lit "only screen and (min-width:480px), print")), (parseMedia (lit "(prefers-color-scheme: dark) and (hover)")).
  intros c1 c2 c3 id c p c' p' [?|[E|[E|E]]]%sample_frames [?|[E'|[E'|E']]]%sample_frames; congruence.
Qed.
Lemma rules_built : built_frames rules.
Proof.
  assert (H : forall src, built (parseMedia src)) by (intros src; right; right; by exists src). pose proof (H (lit "screen and (max-width: 600px)")) as H1. pose proof (H (lit "only screen and (min-width:480px), print")) as H2. pose proof (H (lit "(prefers-color-scheme: dark) and (hover)")) as H3.
  unfold rules, dark_inside, middle, narrow. generalize dependent (parseMedia (lit "screen and (max-width: 600px)")). generalize dependent (parseMedia (lit "only screen and (min-width:480px), print")).
  generalize dependent (parseMedia (lit "(prefers-color-scheme: dark) and (hover)")). intros c3 H3 c2 H2 c1 H1 id c p [?|[E|[E|E]]]%sample_frames; congruence.
Qed.
Lemma viewing_widths_cover_witness : exists w, w ∈ (viewingCases false rules).1 /\ group_states (prepareMediaGroups rules) w false = group_states (prepareMediaGroups rules) (500 * one_unit) false.
Proof.
  apply (viewing_widths_cover rules (500 * one_unit) rules_shared rules_built).
  - apply (rep_intro 1074); [done|by vm_compute|by exists 500|by vm_compute].
  - by vm_compute.
Defined.
End Sample.
