(* ===== verification/Visibility.v ===== *)
(** * Visibility of the text of a page
    (analyze.go, visibility.go, the scopes of document.go, emptyClip of
    clipping.go and the paint layers of colour.go in internal/htmlextract)

    A parsed page is walked once in each viewing case, a width of the view.  On
    the way down the state of the presentation is refined by the style of each
    element; each text, image and input gets a label and reasons, and the labels
    of all cases are merged.  The cascade that resolves the style of an element
    and the contrast of a colour over the layers below it are the class
    [StyleEngine].

    The stack of frames of the program is the recursion of [visit].  What is done
    with a decision is an argument of the walk: [store_result] keeps it as the
    program does, [store_entry] lists it. *)
From S2P Require Import Prelude GoText MsoCondition CssNumber Media.

(** ** Styles *)

Inductive property :=
  | display | visibility | contentVisibility | msoHide | opacity | fontSize | color | background | backgroundImage | filter | blend | backdropFilter
  | backgroundBlend | maskImage | backgroundClip | textShadow | textFill | transform | position | textStroke | clip | clipPath | lineHeight | scale
  | translate | rotate | fontSizeAdjust.
Record RGBA := MkRGBA { c_R : Z; c_G : Z; c_B : Z; c_A : Z }.
Record Value := MkValue { v_Text : gostring; v_Number : Z; v_Known : bool; v_RGBA : RGBA }.
#[export] Instance RGBA_eq_dec : EqDecision RGBA.
Proof. solve_decision. Defined.
#[export] Instance Value_eq_dec : EqDecision Value.
Proof. solve_decision. Defined.
Definition Style : Type := property -> Value.
Definition text_is (v : Value) (t : string) : bool := beq (v_Text v) (lit t).

Definition transparent : RGBA := MkRGBA 0 0 0 0.
Definition named (t : string) (n : Z) : Value := MkValue (lit t) (n * one_unit) true transparent.
Definition makeInitialStyle : Style := λ p,
  match p with
  | display => named "inline" 0
  | visibility | contentVisibility => named "visible" 0
  | msoHide => named "none" 0
  | opacity => named "1" 1
  | fontSize => named "16px" 16
  | color => MkValue (lit "rgba(0,0,0,1)") 0 true (MkRGBA 0 0 0 one_unit)
  | background => named "rgba(0,0,0,0)" 0
  | backgroundImage | filter | backdropFilter | maskImage | textShadow | transform | scale | translate | rotate | fontSizeAdjust => named "none" 0
  | blend | backgroundBlend => named "normal" 0
  | backgroundClip => named "border-box" 0
  | textFill => named "currentcolor" 0
  | position => named "static" 0
  | textStroke => named "0" 0
  | clip => named "auto" 0
  | clipPath => named "none" 0
  | lineHeight => named "normal" 0
  end.
Definition unresolvedStyle : Style := λ _, MkValue [] 0 false transparent.

(** ** Nodes *)

Inductive node_type := TextNode | CommentNode | ElementNode | DocumentNode | OtherNode.
#[export] Instance node_type_eq_dec : EqDecision node_type.
Proof. solve_decision. Defined.
(** [id] is the identity of a node. *)
Inductive node := Node (id : nat) (type : node_type) (namespace data : gostring) (attrs : list (gostring * gostring)) (children : list node).
Definition n_id (n : node) := let '(Node i _ _ _ _ _) := n in i.
Definition n_Type (n : node) := let '(Node _ t _ _ _ _) := n in t.
Definition n_Namespace (n : node) := let '(Node _ _ s _ _ _) := n in s.
Definition n_Data (n : node) := let '(Node _ _ _ d _ _) := n in d.
Definition n_Attr (n : node) := let '(Node _ _ _ _ a _) := n in a.
Definition n_children (n : node) := let '(Node _ _ _ _ _ c) := n in c.
Definition is_type (t : node_type) (n : node) : bool := bool_decide (n_Type n = t).
Definition data_is (n : node) (t : string) : bool := beq (n_Data n) (lit t).
Definition data_in (n : node) (ts : list string) : bool := existsb (data_is n) ts.
Definition plain (n : node) : bool := beq (n_Namespace n) [].

Definition hasAttr (n : node) (key : string) : bool := existsb (λ a, beq a.1 (lit key)) (n_Attr n).
Definition attr (n : node) (key : string) : gostring := match List.find (λ a, beq a.1 (lit key)) (n_Attr n) with Some a => a.2 | None => [] end.
Definition hiddenInput (n : node) : bool := plain n && data_is n "input" && equalASCIIFold (trimSpace (attr n "type")) (lit "hidden").

Inductive nodeScope := scopeActive | scopeHead | scopeInert.
#[export] Instance nodeScope_eq_dec : EqDecision nodeScope.
Proof. solve_decision. Defined.
Definition nodeContentScope (n : node) (parent : nodeScope) : nodeScope :=
  if negb (is_type ElementNode n) then parent
  else if data_in n ["template"; "iframe"; "noembed"; "noframes"]%string then scopeInert
  else if negb (bool_decide (parent = scopeActive)) then parent
  else if data_is n "head" then scopeHead
  else if data_in n ["style"; "script"; "title"]%string then scopeInert
  else scopeActive.

(** ** Clipping *)

Definition replacedHTMLElement (n : node) : bool :=
  data_in n ["audio"; "button"; "canvas"; "embed"; "iframe"; "img"; "input"; "object"; "select"; "textarea"; "video"]%string.
Definition defaultNonInlineHTMLElement (n : node) : bool :=
  data_in n ["address"; "article"; "aside"; "blockquote"; "body"; "caption"; "center"; "col"; "colgroup"; "dd"; "details"; "dialog"; "dir"; "div"; "dl"; "dt"; "fieldset"; "figcaption"; "figure"; "footer"; "form"; "frame"; "frameset"; "h1"; "h2"; "h3"; "h4"; "h5"; "h6"; "header"; "hgroup"; "hr"; "html"; "legend"; "li"; "listing"; "main"; "menu"; "nav"; "ol"; "p"; "plaintext"; "pre"; "search"; "section"; "summary"; "table"; "tbody"; "td"; "tfoot"; "th"; "thead"; "tr"; "ul"; "xmp"]%string.
Definition nonReplacedInlineBox (n : node) (st : Style) (displayDeclared : bool) : bool :=
  if negb (text_is (st display) "inline") || text_is (st position) "absolute" || text_is (st position) "fixed" || replacedHTMLElement n then false
  else displayDeclared || negb (defaultNonInlineHTMLElement n).
Record clipResult := MkClip { cl_empty : bool; cl_known : bool; cl_inlineUncertain : bool; cl_clientDependent : bool }.
Definition emptyClip (st : Style) (n : node) (displayDeclared : bool) : clipResult :=
  if negb (plain n) || negb (v_Known (st display)) then MkClip false false false false
  else if text_is (st display) "contents" then MkClip false true false false
  else
    let inlineUncertain := negb (text_is (st clipPath) "none") && nonReplacedInlineBox n st displayDeclared in
    let known := v_Known (st clipPath) && negb inlineUncertain in
    let clipPathEmpty := negb inlineUncertain && v_Known (st clipPath) && (v_Number (st clipPath) =? one_unit) in
    let pos := st position in
    if v_Known pos && (text_is pos "static" || text_is pos "relative" || text_is pos "sticky") then MkClip clipPathEmpty known inlineUncertain clipPathEmpty
    else if v_Known pos && (text_is pos "absolute" || text_is pos "fixed") then
      if v_Known (st clip) && (v_Number (st clip) =? one_unit) then MkClip true true inlineUncertain false
      else MkClip clipPathEmpty (known && v_Known (st clip)) inlineUncertain clipPathEmpty
    else MkClip clipPathEmpty (known && v_Known (st clip) && text_is (st clip) "auto") inlineUncertain clipPathEmpty.

(** ** Labels and reasons *)

Definition labelVisible : Z := 1.
Definition labelConcealed : Z := 2.
Definition labelUnknown : Z := 4.
Definition reasonDisplayNone : Z := 1.
Definition reasonVisibilityHidden : Z := 2.
Definition reasonVisibilityCollapse : Z := 4.
Definition reasonOpacity : Z := 8.
Definition reasonFontSize : Z := 16.
Definition reasonColour : Z := 32.
Definition reasonEmptyClip : Z := 64.
Definition reasonContentVisibility : Z := 128.
(** [r & -r] *)
Definition Primary (r : Z) : Z := Z.land r (- r).
Definition and_not (a b : Z) : Z := Z.land a (Z.lnot b).
Definition has (a b : Z) : bool := negb (Z.land a b =? 0).

Definition concealedVisibilityReason (v : Value) : Z :=
  if negb (v_Known v) then 0 else if text_is v "hidden" then reasonVisibilityHidden else if text_is v "collapse" then reasonVisibilityCollapse else 0.

Record presentationState := MkState {
  ps_none : bool; ps_displayKnown : bool; ps_stableDisplayNone : bool; ps_alpha : Z; ps_alphaKnown : bool; ps_clipped : bool; ps_clipKnown : bool;
  ps_contentHidden : bool; ps_contentKnown : bool; ps_msoHidden : bool; ps_msoKnown : bool; ps_layoutUncertain : bool; ps_clipsX : bool; ps_clipsY : bool;
  ps_animationUncertain : bool; ps_fontScaleUncertain : bool; ps_textLayout : bool * bool * bool; ps_clientDependentReasons : Z; ps_alternateReasons : Z }.
Definition initialPresentationState : presentationState :=
  MkState false true false one_unit true false true false true false true false false false false false (false, false, false) 0 0.
Definition with_layoutUncertain (s : presentationState) : presentationState :=
  MkState (ps_none s) (ps_displayKnown s) (ps_stableDisplayNone s) (ps_alpha s) (ps_alphaKnown s) (ps_clipped s) (ps_clipKnown s) (ps_contentHidden s) (ps_contentKnown s)
    (ps_msoHidden s) (ps_msoKnown s) true (ps_clipsX s) (ps_clipsY s) (ps_animationUncertain s) (ps_fontScaleUncertain s) (ps_textLayout s) (ps_clientDependentReasons s) (ps_alternateReasons s).
Definition with_clipped (s : presentationState) : presentationState :=
  MkState (ps_none s) (ps_displayKnown s) (ps_stableDisplayNone s) (ps_alpha s) (ps_alphaKnown s) true (ps_clipKnown s) (ps_contentHidden s) (ps_contentKnown s)
    (ps_msoHidden s) (ps_msoKnown s) (ps_layoutUncertain s) (ps_clipsX s) (ps_clipsY s) (ps_animationUncertain s) (ps_fontScaleUncertain s) (ps_textLayout s) (ps_clientDependentReasons s) (ps_alternateReasons s).
Definition with_none (s : presentationState) : presentationState :=
  MkState true (ps_displayKnown s) (ps_stableDisplayNone s) (ps_alpha s) (ps_alphaKnown s) (ps_clipped s) (ps_clipKnown s) (ps_contentHidden s) (ps_contentKnown s)
    (ps_msoHidden s) (ps_msoKnown s) (ps_layoutUncertain s) (ps_clipsX s) (ps_clipsY s) (ps_animationUncertain s) (ps_fontScaleUncertain s) (ps_textLayout s) (ps_clientDependentReasons s) (ps_alternateReasons s).
Definition iff_then (b : bool) (f : presentationState -> presentationState) (s : presentationState) : presentationState := if b then f s else s.

Definition elementPaintKnown (style : Style) : bool :=
  forallb (λ p, v_Known (style p)) [filter; blend; maskImage; transform; scale; translate; rotate].

(** [.01+1e-14] and [.005] as constants. *)
Definition alpha_threshold : Z := round64 (1000000000001 * one_unit) (10 ^ 14).
Definition colourThreshold : Z := round64 (5 * one_unit) 1000.
Record colourResult := MkColour { cr_distance : Z; cr_known : bool }.
Definition colourConcealed (distance : Z) : bool := distance <=? colourThreshold.

Record visibilityDecision := MkDecision { vd_label : Z; vd_reasons : Z }.
Definition faint (s : presentationState) : bool := ps_alphaKnown s && (ps_alpha s <=? alpha_threshold).
Definition bit (b : bool) (r : Z) : Z := if b then r else 0.
Definition small_font (style : Style) (state : presentationState) : bool :=
  (negb (ps_fontScaleUncertain state || negb (v_Known (style fontSizeAdjust))) || (v_Number (style fontSize) =? 0)) && v_Known (style fontSize) && (v_Number (style fontSize) <=? 2 * one_unit).
Definition decideVisibility (style : Style) (state : presentationState) (colour : option colourResult) : visibilityDecision :=
  let mask := Z.lor (Z.lor (Z.lor (Z.lor (bit (ps_none state) reasonDisplayNone) (concealedVisibilityReason (style visibility))) (bit (faint state) reasonOpacity)) (bit (ps_clipped state) reasonEmptyClip)) (bit (ps_contentHidden state) reasonContentVisibility) in
  let '(tl0, tl1, tl2) := ps_textLayout state in
  let known := ps_displayKnown state && v_Known (style visibility) && ps_alphaKnown state && ps_clipKnown state && ps_contentKnown state && ps_msoKnown state && negb (ps_layoutUncertain state) && negb tl0 && negb tl1 && negb tl2 in
  let '(mask, known) :=
    match colour with
    | Some c =>
        (Z.lor (Z.lor mask (bit (small_font style state) reasonFontSize)) (bit (cr_known c && colourConcealed (cr_distance c)) reasonColour),
         known && v_Known (style fontSize) && cr_known c && negb (ps_fontScaleUncertain state) && v_Known (style fontSizeAdjust))
    | None => (mask, known)
    end in
  let label := if negb (mask =? 0) then labelConcealed else if negb known then labelUnknown else if ps_msoHidden state then labelUnknown else labelVisible in
  let uncertainReasons := Z.lor (ps_clientDependentReasons state) (ps_alternateReasons state) in
  let label := if (label =? labelConcealed) && (and_not mask uncertainReasons =? 0) then labelUnknown else label in
  let label := if ps_animationUncertain state then labelUnknown else label in
  let label := if ps_stableDisplayNone state then labelConcealed else label in
  MkDecision label mask.

Inductive Label := Unknown | ClientDependent | Concealed | Visible.
#[export] Instance Label_eq_dec : EqDecision Label.
Proof. solve_decision. Defined.
Definition aggregateLabel (bits : Z) : Label :=
  if has bits labelUnknown then Unknown
  else if Z.land bits (Z.lor labelVisible labelConcealed) =? Z.lor labelVisible labelConcealed then ClientDependent
  else if has bits labelConcealed then Concealed
  else Visible.

(** ** Paint layers *)

Record paintLayer := MkLayer {
  pl_background : RGBA; pl_backgroundKnown : bool; pl_imageKnown : bool; pl_opacity : Z; pl_opacityKnown : bool; pl_compositionKnown : bool;
  pl_enhancementKnown : bool; pl_glyphKnown : bool; pl_shadowKnown : bool; pl_displayNone : bool }.
Definition colourNeutral (p : paintLayer) : bool :=
  pl_backgroundKnown p && (c_A (pl_background p) =? 0) && pl_imageKnown p && pl_opacityKnown p && (pl_opacity p =? one_unit) && pl_compositionKnown p && pl_enhancementKnown p.
Definition layerWithClipOverride (s : Style) (ignoreClipPath : bool) : paintLayer :=
  let known := v_Known (s display) && negb (text_is (s display) "contents") && (text_is (s clip) "auto" || text_is (s position) "static") && (ignoreClipPath || text_is (s clipPath) "none")
    && forallb (λ p, v_Known (s p)) [filter; blend; backdropFilter; backgroundBlend; maskImage; backgroundClip; transform; scale; translate; rotate] in
  MkLayer (v_RGBA (s background)) (v_Known (s background)) (v_Known (s backgroundImage)) (v_Number (s opacity)) (v_Known (s opacity)) known
    (v_Known (s position) && text_is (s position) "static") (v_Known (s textFill) && v_Known (s textStroke)) (v_Known (s textShadow)) (v_Known (s display) && text_is (s display) "none").
(** The innermost layer first. *)
Definition propagateHTMLBodyBackground (layers : list paintLayer) : list paintLayer :=
  match layers with
  | body :: root :: rest =>
      if pl_displayNone root || pl_displayNone body || negb (pl_backgroundKnown root) || negb (c_A (pl_background root) =? 0) || negb (pl_imageKnown root) then layers
      else
        MkLayer transparent true true (pl_opacity body) (pl_opacityKnown body) (pl_compositionKnown body) (pl_enhancementKnown body) (pl_glyphKnown body) (pl_shadowKnown body) (pl_displayNone body)
        :: MkLayer (pl_background body) (pl_backgroundKnown body) (pl_imageKnown body) (pl_opacity root) (pl_opacityKnown root) (pl_compositionKnown root) (pl_enhancementKnown root) (pl_glyphKnown root) (pl_shadowKnown root) (pl_displayNone root)
        :: rest
  | _ => layers
  end.

(** ** The engine *)

Record viewingCase := MkCase { vc_width : Z; vc_fallback : bool }.
Record elementStyleResult (V : Type) := MkStyleResult {
  es_style : Style; es_variables : V; es_layoutUncertain : bool; es_elementGeometryConcealed : bool; es_clipsX : bool; es_clipsY : bool; es_offsetX : bool; es_offsetY : bool;
  es_displayDeclared : bool; es_alternateReasons : Z; es_animationActive : bool; es_stableDisplayNone : bool; es_fontScaleUncertain : bool; es_textLayout : bool * bool * bool; es_textLayoutSet : bool * bool * bool }.
Arguments MkStyleResult {V}. Arguments es_style {V}. Arguments es_variables {V}. Arguments es_layoutUncertain {V}. Arguments es_elementGeometryConcealed {V}. Arguments es_clipsX {V}. Arguments es_clipsY {V}.
Arguments es_offsetX {V}. Arguments es_offsetY {V}. Arguments es_displayDeclared {V}. Arguments es_alternateReasons {V}. Arguments es_animationActive {V}. Arguments es_stableDisplayNone {V}.
Arguments es_fontScaleUncertain {V}. Arguments es_textLayout {V}. Arguments es_textLayoutSet {V}.

(** The style of an element by its identity, the styles of its parent and of the
    root and the variables in scope, the contrast of a foreground over layers, and
    whether the inline style of an element was too long to be read. *)
Class StyleEngine := {
  variableScope : Type;
  no_variables : variableScope;
  elementStyle : viewingCase -> nat -> Style -> Style -> variableScope -> elementStyleResult variableScope;
  evaluate_colour : Value -> list paintLayer -> colourResult;
  inlineIncomplete : nat -> bool }.

(** ** One viewing case *)

(** A decision about a node, with the font size and opacity in effect. *)
Record entry := MkEntry { en_text : bool; en_node : nat; en_label : Z; en_reasons : Z; en_fontSize : gostring; en_alpha : Z }.

Section Walk.
Context {SE : StyleEngine} {R : Type} (store : entry -> R -> option R) (c : viewingCase).

Record frame := MkFrame { fr_scope : nodeScope; fr_state : presentationState; fr_style : Style; fr_vars : variableScope }.
(** What the walk threads: paint layers with their generation and the remembered
    colour, the style of the root, the conditional regions, and the results. *)
Record world := MkWorld { wo_layers : list paintLayer; wo_generation : Z; wo_memo : option (Value * colourResult * Z); wo_root : Style; wo_mso : msoRevealedState; wo_out : R }.

Definition visited_colour : RGBA := MkRGBA (round64 (85 * one_unit) 255) (round64 (26 * one_unit) 255) (round64 (139 * one_unit) 255) one_unit.
Definition evaluateColour (foreground : Value) (w : world) : colourResult * world :=
  let fresh :=
    let result := evaluate_colour foreground (wo_layers w) in
    let result :=
      if text_is foreground "link-default" && cr_known result then
        let alternate := evaluate_colour (MkValue (v_Text foreground) (v_Number foreground) (v_Known foreground) visited_colour) (wo_layers w) in
        if negb (cr_known alternate) || negb (Bool.eqb (colourConcealed (cr_distance result)) (colourConcealed (cr_distance alternate))) then MkColour 0 false else result
      else result in
    (result, MkWorld (wo_layers w) (wo_generation w) (Some (foreground, result, wo_generation w)) (wo_root w) (wo_mso w) (wo_out w)) in
  match wo_memo w with
  | Some (f, result, generation) => if (generation =? wo_generation w) && bool_decide (f = foreground) then (result, w) else fresh
  | None => fresh
  end.

Definition enterPaintLayer (parent : option node) (n : node) (paint : paintLayer) (w : world) : bool * world :=
  let changed := negb (colourNeutral paint) || match wo_layers w with p :: _ => negb (Bool.eqb (pl_glyphKnown p) (pl_glyphKnown paint)) || negb (Bool.eqb (pl_shadowKnown p) (pl_shadowKnown paint)) | [] => false end in
  let body := plain n && data_is n "body" && match parent with Some p => plain p && data_is p "html" | None => false end in
  let layers := if body then propagateHTMLBodyBackground (paint :: wo_layers w) else paint :: wo_layers w in
  let changed := changed || body in
  (changed, MkWorld layers (if changed then wo_generation w + 1 else wo_generation w) (wo_memo w) (wo_root w) (wo_mso w) (wo_out w)).
Definition leavePaintLayer (changed : bool) (w : world) : world :=
  MkWorld (tail (wo_layers w)) (if changed then wo_generation w + 1 else wo_generation w) (wo_memo w) (wo_root w) (wo_mso w) (wo_out w).

Definition keep (e : entry) (w : world) : option world :=
  (λ out, MkWorld (wo_layers w) (wo_generation w) (wo_memo w) (wo_root w) (wo_mso w) out) <$> store e (wo_out w).
Definition set_root (s : Style) (w : world) : world := MkWorld (wo_layers w) (wo_generation w) (wo_memo w) s (wo_mso w) (wo_out w).

Definition labelled_input (n : node) : bool :=
  data_is n "input" && existsb (λ t, beq (asciiLower (trimCSSWhitespace (attr n "type"))) (lit t)) ["button"; "submit"; "reset"]%string.
Definition recordElement (n : node) (scope : nodeScope) (state : presentationState) (style : Style) (resolved : elementStyleResult variableScope) (w : world) : option world :=
  if negb (bool_decide (scope = scopeActive)) || negb (data_is n "img" || data_is n "input") then Some w
  else
    let elementState := iff_then (hiddenInput n) with_none (iff_then (negb (elementPaintKnown style)) with_layoutUncertain (iff_then (es_elementGeometryConcealed resolved) with_clipped
      (iff_then (0 <? mr_uncertain (wo_mso w)) with_layoutUncertain state))) in
    let '(colour, w) := if labelled_input n then let '(result, w) := evaluateColour (style color) w in (Some result, w) else (None, w) in
    let d := decideVisibility style elementState colour in
    keep (MkEntry false (n_id n) (vd_label d) (vd_reasons d) (v_Text (style fontSize)) (ps_alpha state)) w.
(** Diagnostic inspection, for tests, is left out. *)
Definition recordText (n : node) (f : frame) (w : world) : option world :=
  let style := fr_style f in
  let '(colour, w) := if ps_stableDisplayNone (fr_state f) then (MkColour 0 false, w) else evaluateColour (style color) w in
  let textState := iff_then (0 <? mr_uncertain (wo_mso w)) with_layoutUncertain (fr_state f) in
  let d := decideVisibility style textState (Some colour) in
  keep (MkEntry true (n_id n) (vd_label d) (vd_reasons d) (v_Text (style fontSize)) (ps_alpha (fr_state f))) w.

(** [alpha *= opacity], rounded. *)
Definition fmul (a b : Z) : Z := Z.sgn (a * b) * round64 (Z.abs (a * b)) one_unit.
Definition pick (set_ new old : bool) : bool := if set_ then new else old.
(** The state inside an element, before and after what its own record sees. *)
Definition element_state (n : node) (s : presentationState) (style : Style) (resolved : elementStyleResult variableScope) (cl : clipResult) : presentationState :=
  let client := ps_clientDependentReasons s in
  let client := if cl_empty cl then if cl_clientDependent cl && negb (ps_clipped s) then Z.lor client reasonEmptyClip else if negb (cl_clientDependent cl) then and_not client reasonEmptyClip else client else client in
  let hidden := v_Known (style contentVisibility) && text_is (style contentVisibility) "hidden" in
  let client := if hidden then Z.lor client reasonContentVisibility else client in
  let offset := (ps_clipsX s && es_offsetX resolved) || (ps_clipsY s && es_offsetY resolved) in
  let '(l0, l1, l2) := ps_textLayout s in
  let '(n0, n1, n2) := es_textLayout resolved in
  let '(s0, s1, s2) := es_textLayoutSet resolved in
  let o := style opacity in
  let '(alpha, alphaKnown) :=
    if v_Known o && (v_Number o =? 0) then (0, true)
    else if negb (ps_alphaKnown s && (ps_alpha s =? 0)) then (fmul (ps_alpha s) (v_Number o), ps_alphaKnown s && v_Known o)
    else (ps_alpha s, ps_alphaKnown s) in
  let client := if alphaKnown && (alpha <=? alpha_threshold) then Z.lor client (Z.lor reasonOpacity reasonColour) else client in
  MkState (ps_none s || (v_Known (style display) && text_is (style display) "none")) (ps_displayKnown s && v_Known (style display)) (ps_stableDisplayNone s || es_stableDisplayNone resolved)
    alpha alphaKnown (ps_clipped s || cl_empty cl) (ps_clipKnown s && cl_known cl) (ps_contentHidden s || hidden) (ps_contentKnown s && v_Known (style contentVisibility))
    (ps_msoHidden s || (v_Known (style msoHide) && text_is (style msoHide) "all")) (ps_msoKnown s && v_Known (style msoHide))
    (ps_layoutUncertain s || offset || es_layoutUncertain resolved || negb (v_Known (style translate)) || negb (v_Known (style rotate)) || negb (v_Known (style scale)) || text_is (style display) "table-column" || text_is (style display) "table-column-group")
    (ps_clipsX s || es_clipsX resolved) (ps_clipsY s || es_clipsY resolved) (ps_animationUncertain s || es_animationActive resolved)
    (ps_fontScaleUncertain s || es_fontScaleUncertain resolved || negb (v_Known (style transform)) || negb (v_Known (style scale)))
    (pick s0 n0 l0, pick s1 n1 l1, pick s2 n2 l2) client (Z.lor (ps_alternateReasons s) (es_alternateReasons resolved)).

Definition enterElement (parent : option node) (n : node) (f : frame) (w : world) : option (bool * frame * world) :=
  let resolved :=
    if inlineIncomplete (n_id n) then MkStyleResult unresolvedStyle (fr_vars f) false false false false false false false 0 false false false (false, false, false) (false, false, false)
    else elementStyle c (n_id n) (fr_style f) (wo_root w) (fr_vars f) in
  let style := es_style resolved in
  let cl := emptyClip style n (es_displayDeclared resolved) in
  let '(changed, w) := enterPaintLayer parent n (layerWithClipOverride style (cl_inlineUncertain cl)) w in
  let w := if data_is n "html" then set_root style w else w in
  let state := element_state n (fr_state f) style resolved cl in
  match recordElement n (fr_scope f) state style resolved w with
  | None => None
  | Some w =>
      let state := iff_then (plain n && data_in n ["noscript"; "canvas"; "object"]%string) with_layoutUncertain state in
      Some (changed, MkFrame (fr_scope f) state style (es_variables resolved), w)
  end.

(** Closed details hide all but their first summary from some readers. *)
Definition first_summary (child : node) (seen : bool) : bool := is_type ElementNode child && plain child && data_is child "summary" && negb seen.
Definition closed_details (n : node) : bool := plain n && data_is n "details" && negb (hasAttr n "open").
Definition child_frame (n child : node) (seen : bool) (f : frame) : frame :=
  MkFrame (fr_scope f) (iff_then (closed_details n && negb (first_summary child seen)) with_layoutUncertain (fr_state f)) (fr_style f) (fr_vars f).

Definition visit_children (visit : option node -> node -> frame -> world -> option world) (n : node) (f : frame) : bool -> list node -> world -> option world :=
  fix go (seen : bool) (l : list node) (w : world) {struct l} : option world :=
    match l with
    | [] => Some w
    | child :: l =>
        match visit (Some n) child (child_frame n child seen f) w with
        | None => None
        | Some w => go (seen || first_summary child seen) l w
        end
    end.
Fixpoint visit (parent : option node) (n : node) (f : frame) (w : world) {struct n} : option world :=
  if bool_decide (nodeContentScope n (fr_scope f) = scopeInert) then Some w
  else
    let w := if is_type CommentNode n then MkWorld (wo_layers w) (wo_generation w) (wo_memo w) (wo_root w) (update (msoDownlevelRevealedMarker (n_Data n)) (wo_mso w)) (wo_out w) else w in
    match (if is_type ElementNode n then enterElement parent n f w else Some (false, f, w)) with
    | None => None
    | Some (changed, f, w) =>
        let scope := nodeContentScope n (fr_scope f) in
        let f := MkFrame scope (fr_state f) (fr_style f) (fr_vars f) in
        match (if is_type TextNode n && bool_decide (scope = scopeActive) then recordText n f w else Some w) with
        | None => None
        | Some w =>
            let '(Node _ _ _ _ _ children) := n in
            match visit_children visit n f false children w with
            | None => None
            | Some w => Some (if is_type ElementNode n then leavePaintLayer changed w else w)
            end
        end
    end.
Definition start_frame : frame := MkFrame scopeActive initialPresentationState makeInitialStyle no_variables.
Definition start_world (out : R) : world := MkWorld [] 0 None makeInitialStyle (MkRevealed [] 0) out.
Definition walk (root : node) (out : R) : option R := wo_out <$> visit None root start_frame (start_world out).
End Walk.

(** ** All viewing cases *)

Record Shown := MkShown { sh_Node : nat; sh_FontSize : gostring; sh_EffectiveOpacity : Z }.
Record viewingCaseResults := MkResults { re_shown : list Shown; re_labels : list Z; re_reasons : list Z }.
(** Results of texts and of elements, with the indices of a case. *)
Record results := MkBoth { rs_text : viewingCaseResults; rs_elements : viewingCaseResults; rs_textIndex : nat; rs_elementIndex : nat }.

Definition mergeViewingCaseLabel (labels : list Z) (index : nat) (b : Z) : option (list Z) :=
  match labels !! index with None => None | Some old => Some (<[index := Z.lor old b]> labels) end.
Definition update_shown (e : entry) (s : Shown) : Shown :=
  let s := if has (en_reasons e) reasonFontSize then MkShown (sh_Node s) (en_fontSize e) (sh_EffectiveOpacity s) else s in
  if has (en_reasons e) reasonOpacity && (en_alpha e <? sh_EffectiveOpacity s) then MkShown (sh_Node s) (sh_FontSize s) (en_alpha e) else s.
Definition store_in (initialize : bool) (e : entry) (index : nat) (r : viewingCaseResults) : option viewingCaseResults :=
  if initialize then Some (MkResults (re_shown r ++ [MkShown (en_node e) (en_fontSize e) (en_alpha e)]) (re_labels r ++ [en_label e]) (re_reasons r ++ [en_reasons e]))
  else
    match mergeViewingCaseLabel (re_labels r) index (en_label e) with
    | None => None
    | Some labels => Some (MkResults (alter (update_shown e) index (re_shown r)) labels (alter (λ old, Z.lor old (en_reasons e)) index (re_reasons r)))
    end.
Definition store_result (initialize : bool) (e : entry) (r : results) : option results :=
  if en_text e
  then (λ t, MkBoth t (rs_elements r) (S (rs_textIndex r)) (rs_elementIndex r)) <$> store_in initialize e (rs_textIndex r) (rs_text r)
  else (λ t, MkBoth (rs_text r) t (rs_textIndex r) (S (rs_elementIndex r))) <$> store_in initialize e (rs_elementIndex r) (rs_elements r).

Section Process.
Context {SE : StyleEngine}.

(** [None] is an internal error: the shape of the walk changed between cases. *)
Definition run (c : viewingCase) (initialize : bool) (root : node) (r : results) : option results :=
  match walk (store_result initialize) c root (MkBoth (rs_text r) (rs_elements r) 0 0) with
  | None => None
  | Some r =>
      if negb initialize && (negb (rs_textIndex r =? length (re_labels (rs_text r)))%nat || negb (rs_elementIndex r =? length (re_labels (rs_elements r)))%nat) then None
      else Some r
  end.
Definition no_results : results := MkBoth (MkResults [] [] []) (MkResults [] [] []) 0 0.
Fixpoint run_all (cases : list viewingCase) (initialize : bool) (root : node) (r : results) : option results :=
  match cases with
  | [] => Some r
  | c :: cases => match run c initialize root r with None => None | Some r => run_all cases false root r end
  end.

Record Decided := MkDecided { de_Node : nat; de_FontSize : gostring; de_EffectiveOpacity : Z; de_Label : Label; de_Reasons : Z }.
(** [uncertain] is [unsupportedNesting || msoOrderUncertain]. *)
Definition publish (uncertain : bool) (r : viewingCaseResults) : list Decided :=
  zip_with (λ s '(bits, reasons),
    let bits := if uncertain then Z.lor bits labelUnknown else bits in
    MkDecided (sh_Node s) (sh_FontSize s) (sh_EffectiveOpacity s) (aggregateLabel bits) (if bool_decide (aggregateLabel bits = Concealed) then reasons else 0))
    (re_shown r) (zip (re_labels r) (re_reasons r)).
Definition process (widths : list Z) (fallback uncertain : bool) (root : node) : option (list Decided * list Decided) :=
  (λ r, (publish uncertain (rs_text r), publish uncertain (rs_elements r))) <$> run_all ((λ w, MkCase w fallback) <$> widths) true root no_results.
End Process.

(** ** The decisions of one case *)

Definition store_entry (e : entry) (l : list entry) : option (list entry) := Some (l ++ [e]).
Section Trace.
Context {SE : StyleEngine}.
Definition decisions (c : viewingCase) (root : node) : list entry := default [] (walk store_entry c root []).
End Trace.

(** ** Walks as logs

    Whatever is done with the decisions, a walk makes the same ones in the same
    order, and which nodes get one depends on the page alone. *)

Fixpoint fold_store {R} (store : entry -> R -> option R) (es : list entry) (r : R) : option R :=
  match es with [] => Some r | e :: es => match store e r with None => None | Some r => fold_store store es r end end.
Lemma fold_store_app {R} (store : entry -> R -> option R) a b r : fold_store store (a ++ b) r = fold_store store a r ≫= fold_store store b.
Proof. revert r. induction a as [|e a IH]; intros r; cbn; [done|]. destruct (store e r); cbn; [apply IH|done]. Qed.
Lemma fold_store_entry es l : fold_store store_entry es l = Some (l ++ es).
Proof. revert l. induction es as [|e es IH]; intros l; cbn; [by rewrite app_nil_r|]. by rewrite IH, <- app_assoc. Qed.

Definition recorded (n : node) (scope : nodeScope) : list (bool * nat) :=
  (if is_type ElementNode n && (bool_decide (scope = scopeActive) && (data_is n "img" || data_is n "input")) then [(false, n_id n)] else []) ++
  (if is_type TextNode n && bool_decide (nodeContentScope n scope = scopeActive) then [(true, n_id n)] else []).
(** The nodes of a page with a decision, in order. *)
Fixpoint extractable (n : node) (scope : nodeScope) : list (bool * nat) :=
  if bool_decide (nodeContentScope n scope = scopeInert) then []
  else let '(Node _ _ _ _ _ children) := n in recorded n scope ++ concat ((λ child, extractable child (nodeContentScope n scope)) <$> children).
Definition shape (e : entry) : bool * nat := (en_text e, en_node e).

(** A state that hides everything in it. *)
Definition concealing (s : presentationState) : bool :=
  ps_none s || ps_clipped s || ps_contentHidden s || (ps_alphaKnown s && (ps_alpha s =? 0)) || ps_stableDisplayNone s.
Definition is_label (l : Z) : Prop := l = labelVisible \/ l = labelConcealed \/ l = labelUnknown.
(** What is known of the decisions below a frame. *)
Definition proper (s : presentationState) (e : entry) : Prop := is_label (en_label e) /\ (concealing s = true -> en_label e <> labelVisible).

Section Logs.
Context {SE : StyleEngine} (c : viewingCase).
Definition with_out {R S} (w : world (R := R)) (out : S) : world := MkWorld (wo_layers w) (wo_generation w) (wo_memo w) (wo_root w) (wo_mso w) out.
Lemma with_out_twice {R S T} (w : world (R := R)) (a : S) (b : T) : with_out (with_out w a) b = with_out w b.
Proof. done. Qed.

Lemma bit_lor b r m : 0 < r -> 0 <= m -> b = true -> Z.lor m (bit b r) <> 0.
Proof. intros Hr Hm ->. cbn. rewrite Z.lor_eq_0_iff. lia. Qed.
Lemma decide_label style s colour : is_label (vd_label (decideVisibility style s colour)).
Proof.
  unfold decideVisibility. destruct (ps_textLayout s) as [[? ?] ?]. destruct colour as [?|]; cbn [vd_label]; unfold is_label; destruct (ps_stableDisplayNone s); auto; destruct (ps_animationUncertain s); auto;
  destruct (_ && _); auto; destruct (negb (_ =? 0)); auto; destruct (negb _); auto; destruct (ps_msoHidden s); auto.
Qed.
Lemma visible_no_reason style s colour : vd_label (decideVisibility style s colour) = labelVisible -> vd_reasons (decideVisibility style s colour) = 0 /\ ps_stableDisplayNone s = false.
Proof.
  unfold decideVisibility. destruct (ps_textLayout s) as [[? ?] ?]. destruct colour as [?|]; cbn [vd_label vd_reasons]; (destruct (ps_stableDisplayNone s); [done|]); (destruct (ps_animationUncertain s); [done|]);
  match goal with |- context [negb (?m =? 0)] => destruct (Z.eqb_spec m 0) as [->|Hm] end; cbn [negb]; try done; cbn; destruct (_ =? 0); done.
Qed.
Lemma threshold_positive : 0 <= alpha_threshold.
Proof. by vm_compute. Qed.
Lemma concealing_label style s colour : concealing s = true -> vd_label (decideVisibility style s colour) <> labelVisible.
Proof.
  intros Hc Hv. apply visible_no_reason in Hv as [Hr Hs]. revert Hr. unfold decideVisibility. destruct (ps_textLayout s) as [[? ?] ?]. unfold concealing in Hc. rewrite Hs, orb_false_r in Hc.
  assert (Hf : ps_alphaKnown s && (ps_alpha s =? 0) = true -> faint s = true).
  { unfold faint. rewrite !andb_true_iff, Z.eqb_eq, Z.leb_le. intros [-> ->]. split; [done|apply threshold_positive]. }
  assert (H : forall m, Z.lor (Z.lor (Z.lor (Z.lor (bit (ps_none s) reasonDisplayNone) m) (bit (faint s) reasonOpacity)) (bit (ps_clipped s) reasonEmptyClip)) (bit (ps_contentHidden s) reasonContentVisibility) <> 0).
  { intros m. rewrite !Z.lor_eq_0_iff. intros [[[[H1 _] H2] H3] H4]. destruct (ps_none s); [done|]. destruct (ps_clipped s); [done|]. destruct (ps_contentHidden s); [done|]. cbn [orb] in Hc. apply Hf in Hc. rewrite Hc in H2. done. }
  destruct colour as [?|]; cbn [vd_reasons]; [rewrite !Z.lor_eq_0_iff; intros [[Hm _] _]; revert Hm; rewrite <- !Z.lor_eq_0_iff|]; apply H.
Qed.
Lemma concealing_layout s b : concealing (iff_then b with_layoutUncertain s) = concealing s.
Proof. by destruct b. Qed.
Lemma concealing_stronger s b1 b2 : concealing s = true -> concealing (iff_then b1 with_none (iff_then b2 with_clipped s)) = true.
Proof. unfold concealing. destruct b1, b2; cbn; rewrite ?orb_true_iff; try done; intros; auto; by rewrite ?orb_true_r. Qed.
Lemma concealing_element n s style resolved cl : concealing s = true -> concealing (element_state n s style resolved cl) = true.
Proof.
  unfold concealing, element_state. destruct (ps_textLayout s) as [[? ?] ?], (es_textLayout resolved) as [[? ?] ?], (es_textLayoutSet resolved) as [[? ?] ?].
  destruct (ps_alphaKnown s && (ps_alpha s =? 0)) eqn:E.
  - intros _. apply andb_true_iff in E as [E1 E2]. destruct (v_Known (style opacity) && _); cbn; rewrite ?E1, ?E2; cbn; rewrite ?E1, ?E2; cbn; by rewrite !orb_true_r.
  - rewrite orb_false_r, !orb_true_iff. intros [[[H|H]|H]|H]; destruct (v_Known (style opacity) && (v_Number (style opacity) =? 0)); cbn [negb ps_none ps_clipped ps_contentHidden ps_alphaKnown ps_alpha ps_stableDisplayNone]; rewrite H; repeat first [rewrite orb_true_l|rewrite orb_true_r]; tauto.
Qed.

Lemma colour_logged {R} (w : world (R := R)) {S} (r : S) foreground :
  evaluateColour foreground (with_out w r) = ((evaluateColour foreground w).1, with_out (evaluateColour foreground w).2 r).
Proof. unfold evaluateColour. cbn. destruct (wo_memo w) as [[[f res] g]|]; [|done]. by destruct (_ && _). Qed.
Lemma colour_mso {R} (w : world (R := R)) foreground : wo_mso (evaluateColour foreground w).2 = wo_mso w.
Proof. unfold evaluateColour. destruct (wo_memo w) as [[[f res] g]|]; [|done]. by destruct (_ && _). Qed.
Lemma keep_logged {R} (store : entry -> R -> option R) e (w : world (R := unit)) r : keep store e (with_out w r) = with_out w <$> fold_store store [e] r.
Proof. unfold keep. cbn. by destruct (store e r). Qed.

(** Decisions [es] are made, and the walk goes on from [w1]. *)
Definition logs (s : presentationState) (shapes : list (bool * nat)) (es : list entry) : Prop := shape <$> es = shapes /\ Forall (proper s) es.
Lemma element_logged n scope state style resolved (w : world (R := unit)) : exists es (w1 : world (R := unit)),
  (forall R (store : entry -> R -> option R) r, recordElement store n scope state style resolved (with_out w r) = with_out w1 <$> fold_store store es r) /\
  logs state (if bool_decide (scope = scopeActive) && (data_is n "img" || data_is n "input") then [(false, n_id n)] else []) es.
Proof.
  unfold recordElement. rewrite <- negb_andb. destruct (bool_decide (scope = scopeActive) && (data_is n "img" || data_is n "input")); cbn [negb]; [|exists [], w; split; [done|by split]].
  set (estate := iff_then (hiddenInput n) with_none (iff_then (negb (elementPaintKnown style)) with_layoutUncertain (iff_then (es_elementGeometryConcealed resolved) with_clipped
      (iff_then (0 <? mr_uncertain (wo_mso w)) with_layoutUncertain state)))). assert (He : concealing state = true -> concealing estate = true).
  { intros Hc. unfold estate. destruct (negb (elementPaintKnown style)), (0 <? mr_uncertain (wo_mso w)), (hiddenInput n), (es_elementGeometryConcealed resolved); unfold concealing in *; cbn in *; try done; rewrite ?orb_true_r; done || exact Hc. }
  assert (H : forall colour w1, exists es (w2 : world (R := unit)), (forall R (store : entry -> R -> option R) r, keep store (MkEntry false (n_id n) (vd_label (decideVisibility style estate colour)) (vd_reasons (decideVisibility style estate colour)) (v_Text (style fontSize)) (ps_alpha state)) (with_out (w1 : world (R := unit)) r) = with_out w2 <$> fold_store store es r) /\ logs state [(false, n_id n)] es).
  { intros colour w1. eexists [_], w1. split; [intros; apply keep_logged|]. split; [done|]. constructor; [|constructor]. split; [apply decide_label|]. intros Hc. by apply concealing_label, He. }
  destruct (labelled_input n) eqn:El.
  - destruct (H (Some (evaluateColour (style color) w).1) (evaluateColour (style color) w).2) as (es & w2 & H1 & H2). exists es, w2. split; [|done]. intros R store r. rewrite colour_logged. apply H1.
  - destruct (H None w) as (es & w2 & H1 & H2). exists es, w2. split; [|done]. intros R store r. apply H1.
Qed.
Lemma text_logged n f (w : world (R := unit)) : exists es (w1 : world (R := unit)),
  (forall R (store : entry -> R -> option R) r, recordText store n f (with_out w r) = with_out w1 <$> fold_store store es r) /\ logs (fr_state f) [(true, n_id n)] es.
Proof.
  unfold recordText. set (cw := if ps_stableDisplayNone (fr_state f) then (MkColour 0 false, w) else evaluateColour (fr_style f color) w).
  set (d := decideVisibility (fr_style f) (iff_then (0 <? mr_uncertain (wo_mso cw.2)) with_layoutUncertain (fr_state f)) (Some cw.1)).
  exists [MkEntry true (n_id n) (vd_label d) (vd_reasons d) (v_Text (fr_style f fontSize)) (ps_alpha (fr_state f))], cw.2. split.
  - intros R store r. rewrite <- keep_logged. assert (E : (if ps_stableDisplayNone (fr_state f) then (MkColour 0 false, with_out w r) else evaluateColour (fr_style f color) (with_out w r)) = (cw.1, with_out cw.2 r)) by (unfold cw; destruct (ps_stableDisplayNone _); [done|apply colour_logged]).
    rewrite E. reflexivity.
  - split; [done|]. constructor; [|constructor]. split; [apply decide_label|]. intros Hc. apply concealing_label. by rewrite concealing_layout.
Qed.
Lemma enter_logged parent n f (w : world (R := unit)) : exists es changed f1 (w1 : world (R := unit)),
  (forall R (store : entry -> R -> option R) r, enterElement store c parent n f (with_out w r) = (λ r, (changed, f1, with_out w1 r)) <$> fold_store store es r) /\
  logs (fr_state f) (if bool_decide (fr_scope f = scopeActive) && (data_is n "img" || data_is n "input") then [(false, n_id n)] else []) es /\
  fr_scope f1 = fr_scope f /\ (concealing (fr_state f) = true -> concealing (fr_state f1) = true).
Proof.
  unfold enterElement. set (resolved := if inlineIncomplete (n_id n) then MkStyleResult unresolvedStyle (fr_vars f) false false false false false false false 0 false false false (false, false, false) (false, false, false) else elementStyle c (n_id n) (fr_style f) (wo_root w) (fr_vars f)). set (cl := emptyClip (es_style resolved) n (es_displayDeclared resolved)).
  set (pw := enterPaintLayer parent n (layerWithClipOverride (es_style resolved) (cl_inlineUncertain cl)) w). set (w0 := if data_is n "html" then set_root (es_style resolved) pw.2 else pw.2).
  set (state := element_state n (fr_state f) (es_style resolved) resolved cl). destruct (element_logged n (fr_scope f) state (es_style resolved) resolved w0) as (es & w1 & H1 & H2 & H3).
  exists es, pw.1, (MkFrame (fr_scope f) (iff_then (plain n && data_in n ["noscript"; "canvas"; "object"]%string) with_layoutUncertain state) (es_style resolved) (es_variables resolved)), w1. split_and!.
  - intros R store r. change (wo_root (with_out w r)) with (wo_root w). fold resolved cl. change (enterPaintLayer parent n _ (with_out w r)) with (pw.1, with_out pw.2 r). cbn [fst snd]. fold state.
    assert (E : (if data_is n "html" then set_root (es_style resolved) (with_out pw.2 r) else with_out pw.2 r) = with_out w0 r) by (unfold w0; by destruct (data_is n "html")). rewrite E, H1. by destruct (fold_store store es r).
  - split; [done|]. eapply Forall_impl; [exact H3|]. intros e [Hl Hc]. split; [done|]. intros Hx. apply Hc. by apply concealing_element.
  - done.
  - intros Hc. cbn. rewrite concealing_layout. by apply concealing_element.
Qed.

Lemma logs_app s a b es es' : logs s a es -> logs s b es' -> logs s (a ++ b) (es ++ es').
Proof. intros [H1 H2] [H3 H4]. split; [by rewrite fmap_app, H1, H3|by apply Forall_app]. Qed.
Lemma logs_weaken s s' a es : (concealing s = true -> concealing s' = true) -> logs s' a es -> logs s a es.
Proof. intros H [H1 H2]. split; [done|]. eapply Forall_impl; [exact H2|]. intros e [Hl Hc]. split; auto. Qed.
Lemma logs_nil s : logs s [] [].
Proof. by split. Qed.

Lemma node_induction (P : node -> Prop) : (forall id t ns d a cs, Forall P cs -> P (Node id t ns d a cs)) -> forall n, P n.
Proof.
  intros H. fix IH 1. intros [id t ns d a cs]. apply H. induction cs as [|n cs IHc]; constructor; [apply IH|exact IHc].
Qed.

Definition visit_logs (n : node) : Prop := forall parent f (w : world (R := unit)), exists es (w1 : world (R := unit)),
  (forall R (store : entry -> R -> option R) r, visit store c parent n f (with_out w r) = with_out w1 <$> fold_store store es r) /\
  logs (fr_state f) (extractable n (fr_scope f)) es.
Lemma children_logged n cs : Forall visit_logs cs -> forall seen f (w : world (R := unit)), exists es (w1 : world (R := unit)),
  (forall R (store : entry -> R -> option R) r, visit_children (visit store c) n f seen cs (with_out w r) = with_out w1 <$> fold_store store es r) /\
  logs (fr_state f) (concat ((λ child, extractable child (fr_scope f)) <$> cs)) es.
Proof.
  induction 1 as [|child cs Hc _ IH]; intros seen f w; [exists [], w; split; [done|apply logs_nil]|].
  destruct (Hc (Some n) (child_frame n child seen f) w) as (es1 & w1 & H1 & L1). destruct (IH (seen || first_summary child seen) f w1) as (es2 & w2 & H2 & L2). exists (es1 ++ es2), w2. split.
  - intros R store r. cbn [visit_children]. rewrite H1, fold_store_app. destruct (fold_store store es1 r) as [r1|]; cbn; [apply H2|done].
  - rewrite fmap_cons. cbn [concat]. apply logs_app; [|done]. eapply logs_weaken; [|exact L1]. cbn. by rewrite concealing_layout.
Qed.
Lemma visit_logged n : visit_logs n.
Proof.
  induction n as [id t ns d a cs IH] using node_induction. intros parent f w. cbn [extractable]. set (n := Node id t ns d a cs) in *.
  assert (Hv : forall R (store : entry -> R -> option R) w, visit store c parent n f w =
    if bool_decide (nodeContentScope n (fr_scope f) = scopeInert) then Some w
    else
      let w := if is_type CommentNode n then MkWorld (wo_layers w) (wo_generation w) (wo_memo w) (wo_root w) (update (msoDownlevelRevealedMarker (n_Data n)) (wo_mso w)) (wo_out w) else w in
      match (if is_type ElementNode n then enterElement store c parent n f w else Some (false, f, w)) with
      | None => None
      | Some (changed, f, w) =>
          let scope := nodeContentScope n (fr_scope f) in
          let f := MkFrame scope (fr_state f) (fr_style f) (fr_vars f) in
          match (if is_type TextNode n && bool_decide (scope = scopeActive) then recordText store n f w else Some w) with
          | None => None
          | Some w => (λ w, if is_type ElementNode n then leavePaintLayer changed w else w) <$> visit_children (visit store c) n f false cs w
          end
      end) by (intros; unfold n at 1; cbn [visit]; fold n; reflexivity).
  destruct (bool_decide (nodeContentScope n (fr_scope f) = scopeInert)); [exists [], w; split; [intros; by rewrite Hv|apply logs_nil]|].
  set (w0 := if is_type CommentNode n then MkWorld (wo_layers w) (wo_generation w) (wo_memo w) (wo_root w) (update (msoDownlevelRevealedMarker (n_Data n)) (wo_mso w)) tt else w).
  assert (E0 : forall R (r : R), (if is_type CommentNode n then MkWorld (wo_layers (with_out w r)) (wo_generation (with_out w r)) (wo_memo (with_out w r)) (wo_root (with_out w r)) (update (msoDownlevelRevealedMarker (n_Data n)) (wo_mso (with_out w r))) (wo_out (with_out w r)) else with_out w r) = with_out w0 r) by (intros; unfold w0; by destruct (is_type CommentNode n)).
  assert (He : exists es changed f1 (w1 : world (R := unit)), (forall R (store : entry -> R -> option R) r, (if is_type ElementNode n then enterElement store c parent n f (with_out w0 r) else Some (false, f, with_out w0 r)) = (λ r, (changed, f1, with_out w1 r)) <$> fold_store store es r) /\
    logs (fr_state f) (if is_type ElementNode n && (bool_decide (fr_scope f = scopeActive) && (data_is n "img" || data_is n "input")) then [(false, n_id n)] else []) es /\ fr_scope f1 = fr_scope f /\ (concealing (fr_state f) = true -> concealing (fr_state f1) = true)).
  { destruct (is_type ElementNode n); [apply enter_logged|]. exists [], false, f, w0. split_and!; [done|apply logs_nil|done|done]. }
  destruct He as (es1 & changed & f1 & w1 & H1 & L1 & Hscope & Hc). set (f2 := MkFrame (nodeContentScope n (fr_scope f)) (fr_state f1) (fr_style f1) (fr_vars f1)).
  assert (Ht : exists es (w2 : world (R := unit)), (forall R (store : entry -> R -> option R) r, (if is_type TextNode n && bool_decide (nodeContentScope n (fr_scope f) = scopeActive) then recordText store n f2 (with_out w1 r) else Some (with_out w1 r)) = with_out w2 <$> fold_store store es r) /\
    logs (fr_state f1) (if is_type TextNode n && bool_decide (nodeContentScope n (fr_scope f) = scopeActive) then [(true, n_id n)] else []) es).
  { destruct (is_type TextNode n && bool_decide (nodeContentScope n (fr_scope f) = scopeActive)); [apply (text_logged n f2 w1)|]. exists [], w1. split; [done|apply logs_nil]. }
  destruct Ht as (es2 & w2 & H2 & L2). destruct (children_logged n cs IH false f2 w2) as (es3 & w3 & H3 & L3).
  exists (es1 ++ es2 ++ es3), (if is_type ElementNode n then leavePaintLayer changed w3 else w3). split.
  - intros R store r. rewrite Hv. cbn zeta. rewrite E0, H1, fold_store_app. destruct (fold_store store es1 r) as [r1|]; cbn; [|done]. rewrite Hscope. fold f2. rewrite H2, fold_store_app.
    destruct (fold_store store es2 r1) as [r2|]; cbn; [|done]. rewrite H3. destruct (fold_store store es3 r2); cbn; [|done]. by destruct (is_type ElementNode n).
  - unfold recorded. rewrite <- app_assoc. apply logs_app; [done|]. eapply logs_weaken; [exact Hc|]. apply logs_app; [done|]. exact L3.
Qed.
End Logs.

(** ** Merging *)

Fixpoint fold_in (initialize : bool) (es : list entry) (index : nat) (r : viewingCaseResults) : option viewingCaseResults :=
  match es with [] => Some r | e :: es => match store_in initialize e index r with None => None | Some r => fold_in initialize es (S index) r end end.
Definition of_kind (k : bool) (es : list entry) : list entry := List.filter (λ e, Bool.eqb (en_text e) k) es.
Lemma fold_result initialize es r : fold_store (store_result initialize) es r =
  match fold_in initialize (of_kind true es) (rs_textIndex r) (rs_text r), fold_in initialize (of_kind false es) (rs_elementIndex r) (rs_elements r) with
  | Some t, Some e => Some (MkBoth t e (rs_textIndex r + length (of_kind true es)) (rs_elementIndex r + length (of_kind false es)))
  | _, _ => None
  end.
Proof.
  revert r. induction es as [|e es IH]; intros [t el ti ei]; cbn [fold_store of_kind List.filter fold_in rs_text rs_elements rs_textIndex rs_elementIndex]; [by rewrite !Nat.add_0_r|].
  unfold store_result. destruct (en_text e); cbn [Bool.eqb fold_in length rs_text rs_elements rs_textIndex rs_elementIndex].
  - destruct (store_in initialize e ti t) as [t'|]; cbn; [|done]. rewrite IH. cbn. fold (of_kind true es) (of_kind false es). destruct (fold_in initialize (of_kind true es) (S ti) t'); [|done]. destruct (fold_in initialize (of_kind false es) ei el); [|done]. do 2 f_equal; lia.
  - destruct (store_in initialize e ei el) as [t'|]; cbn; [|by destruct (fold_in _ _ ti t)]. rewrite IH. cbn. fold (of_kind true es) (of_kind false es). destruct (fold_in initialize (of_kind true es) ti t); [|done]. destruct (fold_in initialize (of_kind false es) (S ei) t'); [|done]. do 2 f_equal; lia.
Qed.
Definition first_shown (e : entry) : Shown := MkShown (en_node e) (en_fontSize e) (en_alpha e).
Lemma fold_first es index r : fold_in true es index r = Some (MkResults (re_shown r ++ (first_shown <$> es)) (re_labels r ++ (en_label <$> es)) (re_reasons r ++ (en_reasons <$> es))).
Proof.
  revert index r. induction es as [|e es IH]; intros index r; cbn [fold_in]; [rewrite !app_nil_r; by destruct r|]. cbn [store_in]. rewrite IH. cbn. by rewrite <- !app_assoc.
Qed.
Lemma alter_here {A} (f : A -> A) pre y ys : alter f (length pre) (pre ++ y :: ys) = pre ++ f y :: ys.
Proof. induction pre as [|x pre IH]; cbn; [done|]. f_equal. exact IH. Qed.
Lemma insert_here {A} (x : A) pre y ys : <[length pre := x]> (pre ++ y :: ys) = pre ++ x :: ys.
Proof. induction pre as [|z pre IH]; cbn; [done|]. f_equal. exact IH. Qed.
Lemma lookup_here {A} (pre : list A) y ys : (pre ++ y :: ys) !! length pre = Some y.
Proof. induction pre as [|z pre IH]; cbn; [done|]. exact IH. Qed.
Lemma fold_later es ps pl pr ss ls rs : length ps = length pl -> length pr = length pl -> length ss = length es -> length ls = length es -> length rs = length es ->
  fold_in false es (length pl) (MkResults (ps ++ ss) (pl ++ ls) (pr ++ rs)) =
  Some (MkResults (ps ++ zip_with (λ s e, update_shown e s) ss es) (pl ++ zip_with Z.lor ls (en_label <$> es)) (pr ++ zip_with Z.lor rs (en_reasons <$> es))).
Proof.
  revert ps pl pr ss ls rs. induction es as [|e es IH]; intros ps pl pr ss ls rs Hps Hpr Hss Hls Hrs; destruct ss as [|s ss], ls as [|l ls], rs as [|x rs]; try done; cbn [fold_in store_in re_labels re_shown re_reasons].
  unfold mergeViewingCaseLabel. rewrite lookup_here, insert_here. 
  replace (alter (update_shown e) (length pl) (ps ++ s :: ss)) with (ps ++ update_shown e s :: ss) by (rewrite <- Hps; symmetry; apply alter_here).
  replace (alter (λ old, Z.lor old (en_reasons e)) (length pl) (pr ++ x :: rs)) with (pr ++ Z.lor x (en_reasons e) :: rs) by (rewrite <- Hpr; symmetry; apply (alter_here (λ old, Z.lor old (en_reasons e)))).
  pose proof (IH (ps ++ [update_shown e s]) (pl ++ [Z.lor l (en_label e)]) (pr ++ [Z.lor x (en_reasons e)]) ss ls rs) as H. rewrite !length_app in H. cbn [length] in H. rewrite <- !app_assoc in H. cbn [app] in H.
  replace (S (length pl)) with (length pl + 1)%nat by lia. rewrite H by (cbn in *; lia). done.
Qed.

Section Cases.
Context {SE : StyleEngine} (root : node) (fallback : bool).
Definition rows (k : bool) (c : viewingCase) : list entry := of_kind k (decisions c root).
Definition kind_shape (k : bool) : list (bool * nat) := List.filter (λ p, Bool.eqb p.1 k) (extractable root scopeActive).
Lemma walk_decisions c : shape <$> decisions c root = extractable root scopeActive /\ Forall (λ e, is_label (en_label e)) (decisions c root) /\
  forall R (store : entry -> R -> option R) out, walk store c root out = fold_store store (decisions c root) out.
Proof.
  destruct (visit_logged c root None start_frame (start_world tt)) as (es & w1 & H & Hs & Hp).
  assert (Hw : forall R (store : entry -> R -> option R) out, walk store c root out = fold_store store es out) by (intros R store out; unfold walk; change (start_world out) with (with_out (start_world tt) out); rewrite H; by destruct (fold_store store es out)).
  assert (He : decisions c root = es) by (unfold decisions; rewrite Hw, fold_store_entry; done). rewrite He. split_and!; [exact Hs| |done]. eapply Forall_impl; [exact Hp|]. by intros e [Hl _].
Qed.
Lemma rows_shape k c : shape <$> rows k c = kind_shape k.
Proof.
  unfold rows, kind_shape, of_kind. rewrite <- (proj1 (walk_decisions c)). induction (decisions c root) as [|e es IH]; [done|]. cbn [List.filter]. rewrite fmap_cons. cbn [List.filter shape fst]. destruct (Bool.eqb (en_text e) k); [rewrite fmap_cons|]; by rewrite IH.
Qed.
Lemma rows_length k c : length (rows k c) = length (kind_shape k).
Proof. by rewrite <- (rows_shape k c), length_fmap. Qed.
Lemma rows_label k c i e : rows k c !! i = Some e -> is_label (en_label e).
Proof.
  intros H%list_elem_of_lookup_2. unfold rows, of_kind in H. apply list_elem_of_In, filter_In in H as [H _]. destruct (walk_decisions c) as (_ & Hl & _). rewrite Forall_forall in Hl. apply Hl. by apply list_elem_of_In.
Qed.

Definition results_of (k : bool) (r : results) : viewingCaseResults := if k then rs_text r else rs_elements r.
Definition sized (r : results) : Prop :=
  forall k, length (re_shown (results_of k r)) = length (kind_shape k) /\ length (re_labels (results_of k r)) = length (kind_shape k) /\ length (re_reasons (results_of k r)) = length (kind_shape k).
Definition first_results (c : viewingCase) (k : bool) : viewingCaseResults := MkResults (first_shown <$> rows k c) (en_label <$> rows k c) (en_reasons <$> rows k c).
Lemma run_first c : run c true root no_results = Some (MkBoth (first_results c true) (first_results c false) (length (rows true c)) (length (rows false c))).
Proof. unfold run. rewrite (proj2 (proj2 (walk_decisions c))), fold_result. cbn [rs_text rs_elements rs_textIndex rs_elementIndex no_results]. by rewrite !fold_first. Qed.
Definition merged (c : viewingCase) (k : bool) (r : results) : viewingCaseResults :=
  MkResults (zip_with (λ s e, update_shown e s) (re_shown (results_of k r)) (rows k c)) (zip_with Z.lor (re_labels (results_of k r)) (en_label <$> rows k c)) (zip_with Z.lor (re_reasons (results_of k r)) (en_reasons <$> rows k c)).
Lemma run_later c r : sized r -> run c false root r = Some (MkBoth (merged c true r) (merged c false r) (length (rows true c)) (length (rows false c))).
Proof.
  intros Hs. unfold run. rewrite (proj2 (proj2 (walk_decisions c))), fold_result. cbn [rs_text rs_elements rs_textIndex rs_elementIndex].
  assert (H : forall k, fold_in false (of_kind k (decisions c root)) 0 (results_of k r) = Some (merged c k r)).
  { intros k. destruct (Hs k) as (H1 & H2 & H3). pose proof (rows_length k c) as Hl. pose proof (fold_later (rows k c) [] [] [] (re_shown (results_of k r)) (re_labels (results_of k r)) (re_reasons (results_of k r))) as Hf. cbn [app length] in Hf.
    change (of_kind k (decisions c root)) with (rows k c). assert (Er : results_of k r = MkResults (re_shown (results_of k r)) (re_labels (results_of k r)) (re_reasons (results_of k r))) by (by destruct (results_of k r)).
    rewrite Er at 1. apply Hf; done || lia. }
  pose proof (H true) as Ht. pose proof (H false) as He. cbn [results_of] in Ht, He. rewrite Ht, He. cbn [negb andb rs_text rs_elements rs_textIndex rs_elementIndex]. fold (rows true c) (rows false c).
  assert (Hm : forall k, length (re_labels (merged c k r)) = length (rows k c)). { intros k. cbn. rewrite length_zip_with, length_fmap. destruct (Hs k) as (_ & -> & _). rewrite rows_length. lia. }
  rewrite !Hm, !Nat.add_0_l, !Nat.eqb_refl. done.
Qed.

(** The values of one node in some cases. *)
Definition column (k : bool) (value : entry -> Z) (cases : list viewingCase) (i : nat) : list Z := omap (λ c, value <$> rows k c !! i) cases.
Lemma column_cons k value c cases i e : rows k c !! i = Some e -> column k value (c :: cases) i = value e :: column k value cases i.
Proof. intros H. unfold column. cbn. by rewrite H. Qed.
Lemma run_later_all cases r : sized r -> exists r', run_all cases false root r = Some r' /\ forall k,
  sh_Node <$> re_shown (results_of k r') = sh_Node <$> re_shown (results_of k r) /\ sized r' /\
  (forall i, re_labels (results_of k r') !! i = (fold_left Z.lor (column k en_label cases i)) <$> re_labels (results_of k r) !! i) /\
  (forall i, re_reasons (results_of k r') !! i = (fold_left Z.lor (column k en_reasons cases i)) <$> re_reasons (results_of k r) !! i).
Proof.
  revert r. induction cases as [|c cases IH]; intros r Hs; cbn [run_all].
  - exists r. split; [done|]. intros k. split_and!; [done|done|intros i; cbn; by destruct (_ !! i)|intros i; cbn; by destruct (_ !! i)].
  - rewrite (run_later c r Hs). set (r1 := MkBoth _ _ _ _). assert (E1 : forall k, results_of k r1 = merged c k r) by (by intros []).
    assert (Hs1 : sized r1). { intros k. rewrite E1. cbn. destruct (Hs k) as (H1 & H2 & H3). rewrite !length_zip_with, !length_fmap, H1, H2, H3, rows_length. lia. }
    destruct (IH r1 Hs1) as (r' & -> & H). exists r'. split; [done|]. intros k. destruct (H k) as (Hn & Hs' & Hl & Hr). rewrite E1 in Hn, Hl, Hr. destruct (Hs k) as (L1 & L2 & L3). pose proof (rows_length k c) as Lr. split_and!; [|done| |].
    + rewrite Hn. cbn. apply list_eq. intros i. rewrite !list_lookup_fmap, lookup_zip_with. destruct (re_shown (results_of k r) !! i) as [s|] eqn:Es; cbn; [|done]. apply lookup_lt_Some in Es as Hi. destruct (lookup_lt_is_Some_2 (rows k c) i) as [e He]; [lia|]. rewrite He. cbn.
      f_equal. unfold update_shown. destruct (has _ reasonFontSize), (has _ reasonOpacity && _); try done; by destruct (has _ _ && _).
    + intros i. rewrite Hl. cbn [merged re_labels]. rewrite lookup_zip_with, list_lookup_fmap. destruct (re_labels (results_of k r) !! i) as [l|] eqn:Es; [|done]. apply lookup_lt_Some in Es as Hi. destruct (lookup_lt_is_Some_2 (rows k c) i) as [e He]; [lia|]. by rewrite He, (column_cons _ _ _ _ _ _ He).
    + intros i. rewrite Hr. cbn [merged re_reasons]. rewrite lookup_zip_with, list_lookup_fmap. destruct (re_reasons (results_of k r) !! i) as [l|] eqn:Es; [|done]. apply lookup_lt_Some in Es as Hi. destruct (lookup_lt_is_Some_2 (rows k c) i) as [e He]; [lia|]. by rewrite He, (column_cons _ _ _ _ _ _ He).
Qed.

(** ** Aggregation *)

(** The label of a node from its labels in all cases. *)
Definition verdict (uncertain : bool) (labels : list Z) : Label :=
  if uncertain || existsb (Z.eqb labelUnknown) labels then Unknown
  else if forallb (Z.eqb labelVisible) labels then Visible
  else if forallb (Z.eqb labelConcealed) labels then Concealed
  else ClientDependent.
Definition label_bits (v c u : bool) : Z := Z.lor (Z.lor (bit v labelVisible) (bit c labelConcealed)) (bit u labelUnknown).
Lemma merged_bits ls v c u : Forall is_label ls ->
  fold_left Z.lor ls (label_bits v c u) = label_bits (v || existsb (Z.eqb labelVisible) ls) (c || existsb (Z.eqb labelConcealed) ls) (u || existsb (Z.eqb labelUnknown) ls).
Proof.
  intros H. revert v c u. induction H as [|l ls Hl _ IH]; intros v c u; cbn [fold_left existsb]; [by rewrite !orb_false_r|]. rewrite !orb_assoc, <- IH. f_equal. destruct Hl as [->|[->| ->]]; destruct v, c, u; reflexivity.
Qed.
Lemma forallb_others ls a b : Forall is_label ls -> existsb (Z.eqb labelUnknown) ls = false -> (a = labelVisible /\ b = labelConcealed \/ a = labelConcealed /\ b = labelVisible) ->
  forallb (Z.eqb a) ls = negb (existsb (Z.eqb b) ls).
Proof.
  intros H. induction H as [|l ls Hl _ IH]; intros Hu Hab; [done|]. cbn [existsb forallb] in *. apply orb_false_iff in Hu as [Hl0 Hu]. rewrite (IH Hu Hab). destruct Hab as [[-> ->]|[-> ->]], Hl as [->|[->| ->]]; cbn in *; try done.
Qed.
Lemma aggregate_verdict (l : Z) (ls : list Z) (uncertain : bool) : is_label l -> Forall is_label ls ->
  aggregateLabel (if uncertain then Z.lor (fold_left Z.lor ls l) labelUnknown else fold_left Z.lor ls l) = verdict uncertain (l :: ls).
Proof.
  intros Hl Hls. assert (E : fold_left Z.lor ls l = label_bits (existsb (Z.eqb labelVisible) (l :: ls)) (existsb (Z.eqb labelConcealed) (l :: ls)) (existsb (Z.eqb labelUnknown) (l :: ls))).
  { pose proof (merged_bits (l :: ls) false false false ltac:(by constructor)) as H. cbn [fold_left] in H. exact H. }
  rewrite E. unfold verdict. assert (Ha : Forall is_label (l :: ls)) by (by constructor). destruct (existsb (Z.eqb labelUnknown) (l :: ls)) eqn:Eu; [rewrite orb_true_r; generalize (existsb (Z.eqb labelVisible) (l :: ls)), (existsb (Z.eqb labelConcealed) (l :: ls)); intros v c; by destruct uncertain, v, c|].
  rewrite orb_false_r. destruct uncertain; [generalize (existsb (Z.eqb labelVisible) (l :: ls)), (existsb (Z.eqb labelConcealed) (l :: ls)); by intros [] []|]. rewrite (forallb_others _ labelVisible labelConcealed Ha Eu), (forallb_others _ labelConcealed labelVisible Ha Eu) by auto.
  assert (Hsome : existsb (Z.eqb labelVisible) (l :: ls) || existsb (Z.eqb labelConcealed) (l :: ls) = true). { cbn [existsb] in *. destruct Hl as [->|[->| ->]]; cbn in *; rewrite ?orb_true_r; done. }
  destruct (existsb (Z.eqb labelVisible) (l :: ls)), (existsb (Z.eqb labelConcealed) (l :: ls)); done.
Qed.
End Cases.

(** ** Claims *)

Section Claims.
Context {SE : StyleEngine}.
Lemma publish_lookup uncertain r i d : publish uncertain r !! i = Some d -> exists s bits reasons, re_shown r !! i = Some s /\ re_labels r !! i = Some bits /\ re_reasons r !! i = Some reasons /\
  de_Node d = sh_Node s /\ de_Label d = aggregateLabel (if uncertain then Z.lor bits labelUnknown else bits) /\ de_Reasons d = if bool_decide (de_Label d = Concealed) then reasons else 0.
Proof.
  unfold publish. rewrite lookup_zip_with. destruct (re_shown r !! i) as [s|] eqn:E1; cbn; [|done]. rewrite lookup_zip_with. destruct (re_labels r !! i) as [bits|] eqn:E2; cbn; [|done].
  destruct (re_reasons r !! i) as [reasons|] eqn:E3; cbn; [|done]. intros [= <-]. by exists s, bits, reasons.
Qed.
Lemma publish_nodes uncertain r : length (re_labels r) = length (re_shown r) -> length (re_reasons r) = length (re_shown r) -> de_Node <$> publish uncertain r = sh_Node <$> re_shown r.
Proof.
  unfold publish. generalize (re_labels r) (re_reasons r). induction (re_shown r) as [|s ss IH]; intros [|l ls] [|x xs] H1 H2; try done. cbn [zip zip_with]. rewrite !fmap_cons. cbn [de_Node]. f_equal. apply IH; cbn in *; lia.
Qed.
Lemma column_labels root k cases i : Forall is_label (column root k en_label cases i).
Proof.
  unfold column. apply Forall_forall. intros l (c & _ & Hc)%list_elem_of_omap. destruct (rows root k c !! i) as [e|] eqn:E; [|done]. injection Hc as <-. by eapply rows_label.
Qed.
Lemma column_length root k value cases i : (i < length (kind_shape root k))%nat -> length (column root k value cases i) = length cases.
Proof.
  intros Hi. induction cases as [|c cases IH]; [done|]. destruct (lookup_lt_is_Some_2 (rows root k c) i) as [e He]; [by rewrite rows_length|]. rewrite (column_cons _ _ _ _ _ _ _ He). cbn. by rewrite IH.
Qed.

(** C22: the labels of a page are exact over its viewing cases.  The analysis
    never fails for a change of shape between cases; it decides exactly the texts
    and the images and inputs outside the head and inert containers, in document
    order; and a node is visible when it is visible in every case, concealed when
    it is concealed in every case, dependent on the client when the cases differ,
    and unknown when it is unknown in one or the document is uncertain.  The
    reasons of a concealed node are those of all cases. *)
Theorem visibility_labels_exact (root : node) (widths : list Z) (fallback uncertain : bool) (Hw : widths <> []) :
  exists texts elements, process widths fallback uncertain root = Some (texts, elements) /\
  forall k : bool, let ds := if k then texts else elements in
    pair k <$> (de_Node <$> ds) = List.filter (λ p, Bool.eqb p.1 k) (extractable root scopeActive) /\
    forall i d, ds !! i = Some d ->
      let cases := (λ w, MkCase w fallback) <$> widths in
      length (column root k en_label cases i) = length widths /\
      de_Label d = verdict uncertain (column root k en_label cases i) /\
      de_Reasons d = if bool_decide (de_Label d = Concealed) then fold_left Z.lor (column root k en_reasons cases i) 0 else 0.
Proof.
  destruct widths as [|w widths]; [done|]. unfold process. rewrite fmap_cons. cbn [run_all]. set (c := MkCase w fallback). set (cases := (λ w, MkCase w fallback) <$> widths). rewrite run_first.
  set (r1 := MkBoth _ _ _ _). assert (E1 : forall k, results_of k r1 = first_results root c k) by (by intros []).
  assert (Hs : sized root r1) by (intros k; rewrite E1; cbn; rewrite !length_fmap, rows_length; done). destruct (run_later_all root cases r1 Hs) as (r' & -> & H).
  eexists _, _. split; [reflexivity|]. intros k. cbn zeta. destruct (H k) as (Hn & Hs' & Hl & Hr). rewrite E1 in Hn, Hl, Hr. replace (if k then publish uncertain (rs_text r') else publish uncertain (rs_elements r')) with (publish uncertain (results_of k r')) by (by destruct k).
  destruct (Hs' k) as (L1 & L2 & L3). split.
  - rewrite publish_nodes by lia. rewrite Hn. cbn. fold (kind_shape root k). rewrite <- (rows_shape root k c). rewrite <- !list_fmap_compose. apply list_fmap_ext. intros i e He%list_elem_of_lookup_2. unfold rows, of_kind in He. apply list_elem_of_In, filter_In in He as [_ He]. apply eqb_prop in He. cbn. unfold shape. by rewrite He.
  - intros i d Hd. apply publish_lookup in Hd as (s & bits & reasons & H1 & H2 & H3 & _ & Hlab & Hrea). apply lookup_lt_Some in H1 as Hi. rewrite L1 in Hi. destruct (lookup_lt_is_Some_2 (rows root k c) i) as [e He]; [by rewrite rows_length|].
    split; [rewrite column_length by done; cbn [length]; f_equal; apply length_fmap|].
    rewrite Hl in H2. rewrite Hr in H3. cbn [first_results re_labels re_reasons] in H2, H3. rewrite list_lookup_fmap, He in H2, H3. injection H2 as <-. injection H3 as <-. rewrite !(column_cons _ _ _ _ _ _ _ He). split.
    + rewrite Hlab. apply aggregate_verdict; [by eapply rows_label|apply column_labels].
    + rewrite Hrea. cbn [fold_left]. by rewrite Z.lor_0_l.
Qed.

(** Nothing in an element that is not displayed is ever shown as visible,
    whatever the styles of its descendants. *)
Theorem hidden_subtree_not_visible (c : viewingCase) (parent : option node) (n : node) (f : frame) (w : world (R := list entry)) (Hconcealing : concealing (fr_state f) = true) :
  exists es w', visit store_entry c parent n f w = Some w' /\ wo_out w' = wo_out w ++ es /\ Forall (λ e, en_label e <> labelVisible) es.
Proof.
  destruct (visit_logged c n parent f (with_out w tt)) as (es & w1 & H & _ & Hp). specialize (H _ store_entry (wo_out w)). rewrite with_out_twice, fold_store_entry in H.
  exists es, (with_out w1 (wo_out w ++ es)). split; [destruct w; exact H|]. split; [done|]. eapply Forall_impl; [exact Hp|]. intros e [_ Hc]. by apply Hc.
Qed.
Lemma hidden_element_conceals n s style (resolved : elementStyleResult variableScope) cl : v_Known (style display) = true -> text_is (style display) "none" = true -> concealing (element_state n s style resolved cl) = true.
Proof.
  intros H1 H2. unfold concealing, element_state. destruct (ps_textLayout s) as [[? ?] ?], (es_textLayout resolved) as [[? ?] ?], (es_textLayoutSet resolved) as [[? ?] ?]. rewrite H1, H2.
  destruct (if v_Known (style opacity) && _ then _ else _) as [alpha alphaKnown]. cbn [ps_none andb]. by rewrite orb_true_r.
Qed.
End Claims.

Module Sample.
(** Node 2 is not displayed below 600 pixels. *)
#[local] Instance engine : StyleEngine := {|
  variableScope := unit;
  no_variables := tt;
  elementStyle := λ c id parent root vars,
    let style := λ p, match p with
      | display => if (id =? 2)%nat && (vc_width c <? 600 * one_unit) then named "none" 0 else named "block" 0
      | color | fontSize | visibility => parent p
      | _ => makeInitialStyle p end in
    MkStyleResult style tt false false false false false false true 0 false false false (false, false, false) (false, false, false);
  evaluate_colour := λ _ _, MkColour one_unit true;
  inlineIncomplete := λ _, false |}.
Definition page : node :=
  Node 0 DocumentNode [] [] [] [Node 1 ElementNode [] (lit "body") [] [
    Node 2 ElementNode [] (lit "div") [] [Node 3 TextNode [] (lit "offer") [] []];
    Node 4 ElementNode [] (lit "p") [] [Node 5 TextNode [] (lit "text") [] []; Node 6 ElementNode [] (lit "img") [] []];
    Node 7 ElementNode [] (lit "script") [] [Node 8 TextNode [] (lit "code") [] []]]].
Definition summary (ds : list Decided) : list (nat * Label) := (λ d, (de_Node d, de_Label d)) <$> ds.
Example page_labels : option_map (λ p : list Decided * list Decided, (summary p.1, summary p.2)) (process [0; 1024 * one_unit] false false page) =
  Some ([(3%nat, ClientDependent); (5%nat, Visible)], [(6%nat, Visible)]).
Proof. vm_compute. reflexivity. Qed.
Lemma visibility_labels_exact_witness : exists texts elements, process [0; 1024 * one_unit] false false page = Some (texts, elements) /\ pair true <$> (de_Node <$> texts) = [(true, 3%nat); (true, 5%nat)].
Proof.
  destruct (visibility_labels_exact page [0; 1024 * one_unit] false false ltac:(discriminate)) as (texts & elements & H1 & H2). exists texts, elements. split; [exact H1|].
  destruct (H2 true) as [H _]. exact H.
Defined.
End Sample.
