(* ===== verification/Extract.v ===== *)
(** * Extraction of the content of a message
    (mime.go, mime_restart.go, termination.go, fallback_resources.go,
    processing_limits.go, and the parts of attachment_context.go, rfc822.go,
    html_tree.go, prompt.go that spend the budget, in internal/message)

    A message is taken apart under a budget: a ledger of memory and a check of
    CPU time and cancellation.  A limit ends the work of a stage wherever it is
    met; the primary stage may then be followed, once, by the fallback stage,
    which repeats the interrupted operation with a ledger of its own.

    [X] is the effect: the budget is threaded, and work returns, is terminated
    by a limit, or panics.  The budget stays changed when work is terminated.
    What the code spends while it computes a value is [work]: the next group of
    demands of the schedule, each a check or a charge of the ledger in use.  The
    schedule is arbitrary, so every way of meeting a limit is covered.

    Strings carry the storage they are in, since the code compares storage.  The
    decoders of the Go library and of the forks are the class [MimeLibrary]. *)
From Stdlib Require Import QArith.
From S2P Require Import Prelude GoText Runes Thinking Rdap Message ResourceGuard PromptText PromptUrl AttachedText HtmlText.
#[local] Open Scope Z_scope.

(** ** Strings with their storage *)

(** [None] is a literal of the program: equal literals share their storage. *)
Record text := MkText { t_storage : option nat; t_bytes : gostring }.
Definition literal (s : gostring) : text := MkText None s.
Definition no_text : text := literal [].
(** The same bytes at the same place; empty strings have none. *)
Definition sameStringStorage (a b : text) : bool :=
  beq (t_bytes a) (t_bytes b) &&
  (beq (t_bytes a) [] ||
   match t_storage a, t_storage b with
   | Some i, Some j => (i =? j)%nat
   | None, None => true
   | _, _ => false
   end).

(** ** Content *)

Record extractedImage := MkImage { im_ContentID : gostring; im_Data : gostring }.
Record extractedContent := MkContent {
  Attachment : bool;
  TextAttachments : list attachmentSpan; VisibleAttachments : list attachmentSpan; StrippedAttachments : list attachmentSpan;
  AttachmentLinks : list attachmentLinkGroup;
  Text : text; VisibleText : text; ConfidentVisibleChars : nat; StrippedText : text;
  Links : list gostring; ImageRefs : list gostring; Images : list extractedImage;
  HTML : bool; MIMEIncomplete : bool; TransferIncomplete : bool; ExtractionIncomplete : bool;
  HTMLFallbackUsed : bool; HTMLCPULimitExceeded : bool; HTMLMemoryLimitExceeded : bool; HTMLPrimaryMemoryLimitExceeded : bool; HTMLFallbackMemoryLimitExceeded : bool;
  CSSIncomplete : bool; HasConcealedContent : bool; HTMLComments : htmlCommentStats }.
Definition no_comments : htmlCommentStats := MkCommentStats 0 0.
Definition no_content : extractedContent :=
  MkContent false [] [] [] [] no_text no_text 0 no_text [] [] [] false false false false false false false false false false false no_comments.
Definition incomplete (c : extractedContent) : bool := MIMEIncomplete c || TransferIncomplete c || ExtractionIncomplete c.
Definition hasExtractedContent (c : extractedContent) : bool :=
  negb (beq (trimSpace (t_bytes (Text c))) []) || negb (bool_decide (Links c = [])) || negb (bool_decide (ImageRefs c = [])) || negb (bool_decide (Images c = [])).

(** Updates of fields. *)
Definition with_texts (t v s : text) (ts vs ss : list attachmentSpan) (c : extractedContent) : extractedContent :=
  MkContent (Attachment c) ts vs ss (AttachmentLinks c) t v (ConfidentVisibleChars c) s (Links c) (ImageRefs c) (Images c)
    (HTML c) (MIMEIncomplete c) (TransferIncomplete c) (ExtractionIncomplete c) (HTMLFallbackUsed c) (HTMLCPULimitExceeded c) (HTMLMemoryLimitExceeded c)
    (HTMLPrimaryMemoryLimitExceeded c) (HTMLFallbackMemoryLimitExceeded c) (CSSIncomplete c) (HasConcealedContent c) (HTMLComments c).
Definition with_links (attachment : bool) (groups : list attachmentLinkGroup) (links : list gostring) (c : extractedContent) : extractedContent :=
  MkContent attachment (TextAttachments c) (VisibleAttachments c) (StrippedAttachments c) groups (Text c) (VisibleText c) (ConfidentVisibleChars c) (StrippedText c) links (ImageRefs c) (Images c)
    (HTML c) (MIMEIncomplete c) (TransferIncomplete c) (ExtractionIncomplete c) (HTMLFallbackUsed c) (HTMLCPULimitExceeded c) (HTMLMemoryLimitExceeded c)
    (HTMLPrimaryMemoryLimitExceeded c) (HTMLFallbackMemoryLimitExceeded c) (CSSIncomplete c) (HasConcealedContent c) (HTMLComments c).
(** The three marks of missing evidence, and whether HTML was seen. *)
Definition with_marks (mime transfer extraction html : bool) (c : extractedContent) : extractedContent :=
  MkContent (Attachment c) (TextAttachments c) (VisibleAttachments c) (StrippedAttachments c) (AttachmentLinks c) (Text c) (VisibleText c) (ConfidentVisibleChars c) (StrippedText c) (Links c) (ImageRefs c) (Images c)
    html mime transfer extraction (HTMLFallbackUsed c) (HTMLCPULimitExceeded c) (HTMLMemoryLimitExceeded c)
    (HTMLPrimaryMemoryLimitExceeded c) (HTMLFallbackMemoryLimitExceeded c) (CSSIncomplete c) (HasConcealedContent c) (HTMLComments c).
Definition with_limits (cpu memory primary fallback : bool) (c : extractedContent) : extractedContent :=
  MkContent (Attachment c) (TextAttachments c) (VisibleAttachments c) (StrippedAttachments c) (AttachmentLinks c) (Text c) (VisibleText c) (ConfidentVisibleChars c) (StrippedText c) (Links c) (ImageRefs c) (Images c)
    (HTML c) (MIMEIncomplete c) (TransferIncomplete c) (ExtractionIncomplete c) (HTMLFallbackUsed c) cpu memory primary fallback (CSSIncomplete c) (HasConcealedContent c) (HTMLComments c).
(** What concerns the quality of an HTML part. *)
Definition with_quality (fallbackUsed css concealed : bool) (c : extractedContent) : extractedContent :=
  MkContent (Attachment c) (TextAttachments c) (VisibleAttachments c) (StrippedAttachments c) (AttachmentLinks c) (Text c) (VisibleText c) (ConfidentVisibleChars c) (StrippedText c) (Links c) (ImageRefs c) (Images c)
    (HTML c) (MIMEIncomplete c) (TransferIncomplete c) (ExtractionIncomplete c) fallbackUsed (HTMLCPULimitExceeded c) (HTMLMemoryLimitExceeded c)
    (HTMLPrimaryMemoryLimitExceeded c) (HTMLFallbackMemoryLimitExceeded c) css concealed (HTMLComments c).
Definition mark_incomplete (c : extractedContent) : extractedContent := with_marks true (TransferIncomplete c) true (HTML c) c.
Definition mark_transfer (b : bool) (c : extractedContent) : extractedContent := with_marks (MIMEIncomplete c) b (ExtractionIncomplete c) (HTML c) c.
Definition mark_extraction (b : bool) (c : extractedContent) : extractedContent := with_marks (MIMEIncomplete c) (TransferIncomplete c) b (HTML c) c.
Definition mark_cpu (b : bool) (c : extractedContent) : extractedContent :=
  with_limits b (HTMLMemoryLimitExceeded c) (HTMLPrimaryMemoryLimitExceeded c) (HTMLFallbackMemoryLimitExceeded c) c.

(** A part with a text of the extractor and nothing else. *)
Definition text_content (t : text) : extractedContent := with_texts t no_text no_text [] [] [] no_content.

(** ** The budget *)

Definition maxMIMEParts : Z := 256.
Definition maxHTMLParts : Z := 32.
Definition default_InputBytes : Z := 8388608.
Definition default_CSSBytes : Z := 524288.
Definition default_MemoryBytes : Z := 67108864.

Record extractionProgress := MkProgress { xp_parts : Z; xp_htmlParts : Z; xp_htmlBytesRemaining : Z; xp_decodedTextBytesRemaining : Z; xp_cssBytesRemaining : Z }.
Record ProcessingUsage := MkUsage {
  PrimaryCPUExceeded : bool; FallbackCPUExceeded : bool; UsageMemoryExceeded : bool; PrimaryMemoryExceeded : bool; FallbackMemoryExceeded : bool;
  PrimaryMemoryBytes : Z; FallbackMemoryBytes : Z }.
Definition no_usage : ProcessingUsage := MkUsage false false false false false 0 0.

(** The settings of one extraction: the options of [WithProcessingLimits] and what
    the caller of the extraction asks for. *)
Record settings := MkSettings {
  st_MemoryBytes : Z; st_AllowFallbackAfterLimit : bool; st_compactURLs : bool; st_discardImages : bool; st_omitAttachmentContext : bool; st_countConfidentText : bool }.
Definition memoryBytesLimit (st : settings) : Z := if 0 <? st_MemoryBytes st then st_MemoryBytes st else default_MemoryBytes.
Definition stopOnMemoryLimit (st : settings) : bool := negb (st_AllowFallbackAfterLimit st).

Inductive stop_code := StopCPU | StopCancelled.
Inductive demand := CheckStage (c : option stop_code) | Charge (bytes : N).

(** The fallback stage has its ledger and the text read so far.  [xb_schedule] are
    the demands still to come, [xb_cancelled] what the context will answer when
    the fallback stage is asked for.  [xb_retained] is the part kept for the
    entity being extracted, [xb_content] the content of the message while its
    texts are normalized. *)
Record extractionBudget := MkBudget {
  xb_progress : extractionProgress; xb_primary : Memory; xb_fallback : option (Memory * gostring);
  xb_stageStop : bool; xb_countingStop : bool; xb_terminal : option Failure;
  xb_cpuLimitExceeded : bool; xb_memoryLimitExceeded : bool; xb_fallbackMemoryExceeded : bool; xb_htmlParserPanicReported : bool;
  xb_usage : ProcessingUsage; xb_schedule : list (list demand); xb_cancelled : list bool; xb_fresh : nat; xb_retained : extractedContent; xb_content : extractedContent }.

Definition set_progress (p : extractionProgress) (b : extractionBudget) : extractionBudget :=
  MkBudget p (xb_primary b) (xb_fallback b) (xb_stageStop b) (xb_countingStop b) (xb_terminal b) (xb_cpuLimitExceeded b) (xb_memoryLimitExceeded b) (xb_fallbackMemoryExceeded b)
    (xb_htmlParserPanicReported b) (xb_usage b) (xb_schedule b) (xb_cancelled b) (xb_fresh b) (xb_retained b) (xb_content b).
Definition set_memories (p : Memory) (f : option (Memory * gostring)) (b : extractionBudget) : extractionBudget :=
  MkBudget (xb_progress b) p f (xb_stageStop b) (xb_countingStop b) (xb_terminal b) (xb_cpuLimitExceeded b) (xb_memoryLimitExceeded b) (xb_fallbackMemoryExceeded b)
    (xb_htmlParserPanicReported b) (xb_usage b) (xb_schedule b) (xb_cancelled b) (xb_fresh b) (xb_retained b) (xb_content b).
Definition set_bound (stage counting : bool) (b : extractionBudget) : extractionBudget :=
  MkBudget (xb_progress b) (xb_primary b) (xb_fallback b) stage counting (xb_terminal b) (xb_cpuLimitExceeded b) (xb_memoryLimitExceeded b) (xb_fallbackMemoryExceeded b)
    (xb_htmlParserPanicReported b) (xb_usage b) (xb_schedule b) (xb_cancelled b) (xb_fresh b) (xb_retained b) (xb_content b).
Definition set_terminal (f : Failure) (b : extractionBudget) : extractionBudget :=
  MkBudget (xb_progress b) (xb_primary b) (xb_fallback b) (xb_stageStop b) (xb_countingStop b) (Some f) (xb_cpuLimitExceeded b) (xb_memoryLimitExceeded b) (xb_fallbackMemoryExceeded b)
    (xb_htmlParserPanicReported b) (xb_usage b) (xb_schedule b) (xb_cancelled b) (xb_fresh b) (xb_retained b) (xb_content b).
Definition set_exceeded (cpu memory fallback panicked : bool) (u : ProcessingUsage) (b : extractionBudget) : extractionBudget :=
  MkBudget (xb_progress b) (xb_primary b) (xb_fallback b) (xb_stageStop b) (xb_countingStop b) (xb_terminal b) cpu memory fallback panicked u (xb_schedule b) (xb_cancelled b) (xb_fresh b) (xb_retained b) (xb_content b).
Definition set_world (schedule : list (list demand)) (cancelled : list bool) (b : extractionBudget) : extractionBudget :=
  MkBudget (xb_progress b) (xb_primary b) (xb_fallback b) (xb_stageStop b) (xb_countingStop b) (xb_terminal b) (xb_cpuLimitExceeded b) (xb_memoryLimitExceeded b) (xb_fallbackMemoryExceeded b)
    (xb_htmlParserPanicReported b) (xb_usage b) schedule cancelled (xb_fresh b) (xb_retained b) (xb_content b).
Definition set_fresh (n : nat) (b : extractionBudget) : extractionBudget :=
  MkBudget (xb_progress b) (xb_primary b) (xb_fallback b) (xb_stageStop b) (xb_countingStop b) (xb_terminal b) (xb_cpuLimitExceeded b) (xb_memoryLimitExceeded b) (xb_fallbackMemoryExceeded b)
    (xb_htmlParserPanicReported b) (xb_usage b) (xb_schedule b) (xb_cancelled b) n (xb_retained b) (xb_content b).
Definition set_retained (c : extractedContent) (b : extractionBudget) : extractionBudget :=
  MkBudget (xb_progress b) (xb_primary b) (xb_fallback b) (xb_stageStop b) (xb_countingStop b) (xb_terminal b) (xb_cpuLimitExceeded b) (xb_memoryLimitExceeded b) (xb_fallbackMemoryExceeded b)
    (xb_htmlParserPanicReported b) (xb_usage b) (xb_schedule b) (xb_cancelled b) (xb_fresh b) c (xb_content b).
Definition set_content (c : extractedContent) (b : extractionBudget) : extractionBudget :=
  MkBudget (xb_progress b) (xb_primary b) (xb_fallback b) (xb_stageStop b) (xb_countingStop b) (xb_terminal b) (xb_cpuLimitExceeded b) (xb_memoryLimitExceeded b) (xb_fallbackMemoryExceeded b)
    (xb_htmlParserPanicReported b) (xb_usage b) (xb_schedule b) (xb_cancelled b) (xb_fresh b) (xb_retained b) c.

(** ** The effect *)

Definition X (A : Type) : Type := extractionBudget -> ending A * extractionBudget.
Definition xret {A} (a : A) : X A := λ b, (Returned a, b).
Definition xbind {A B} (m : X A) (k : A -> X B) : X B := λ b,
  match m b with (Returned a, b) => k a b | (Terminated f, b) => (Terminated f, b) | (Panicked, b) => (Panicked, b) end.
Definition xpanic {A} : X A := λ b, (Panicked, b).
Definition xget {A} (f : extractionBudget -> A) : X A := λ b, (Returned (f b), b).
Definition xmod (f : extractionBudget -> extractionBudget) : X unit := λ b, (Returned tt, f b).

Declare Scope extract_scope.
Delimit Scope extract_scope with extract.
Notation "'let*' x := m 'in' k" := (xbind m (λ x, k)) (at level 200, x binder, m at level 100, k at level 200, right associativity) : extract_scope.
Notation "m ;* k" := (xbind m (λ _, k)) (at level 100, right associativity) : extract_scope.
#[local] Open Scope extract_scope.

(** The ledger in use: [allocationMemory]. *)
Definition allocationMemory (b : extractionBudget) : Memory := match xb_fallback b with Some (m, _) => m | None => xb_primary b end.
Definition set_allocation (m : Memory) (b : extractionBudget) : extractionBudget :=
  match xb_fallback b with Some (_, prefix) => set_memories (xb_primary b) (Some (m, prefix)) b | None => set_memories m None b end.
(** An operation of the resource guard on a ledger. *)
Definition on_ledger {A} (m : G A) (l : Memory) : ending A * Memory :=
  let '(e, g) := m (MkGuard (Some l) []) in (e, match ledger g with Some l => l | None => l end).
Definition on_memory {A} (m : G A) : X A := λ b, let '(e, l) := on_ledger m (allocationMemory b) in (e, set_allocation l b).
Definition on_primary {A} (m : G A) : X A := λ b, let '(e, l) := on_ledger m (xb_primary b) in (e, set_memories l (xb_fallback b) b).

(** [checkStage] and the checks of [WithProcessingLimits]: the callback returns or
    ends the stage. *)
Definition check_code (c : option stop_code) : X unit :=
  match c with
  | None => xret tt
  | Some StopCPU => λ b, (Terminated (MkFailure CPUExceeded 0), b)
  | Some StopCancelled => λ b, (Terminated (MkFailure Cancelled 0), b)
  end.
Definition run_demand (d : demand) : X unit := match d with CheckStage c => check_code c | Charge n => on_memory (Reserve (Z.of_N n)) end.
Fixpoint run_demands (l : list demand) : X unit := match l with [] => xret tt | d :: l => run_demand d ;* run_demands l end.
(** The next group of demands. *)
Definition next_demands : X (list demand) := λ b,
  match xb_schedule b with [] => (Returned [], b) | l :: rest => (Returned l, set_world rest (xb_cancelled b) b) end.
Definition work : X unit := let* l := next_demands in run_demands l.

(** Work that charges a ledger of its own, given back also when it is terminated. *)
Fixpoint child_demands (l : list demand) (m : Memory) : ending unit * Memory :=
  match l with
  | [] => (Returned tt, m)
  | CheckStage (Some StopCPU) :: _ => (Terminated (MkFailure CPUExceeded 0), m)
  | CheckStage (Some StopCancelled) :: _ => (Terminated (MkFailure Cancelled 0), m)
  | CheckStage None :: l => child_demands l m
  | Charge n :: l =>
      match on_ledger (Reserve (Z.of_N n)) m with
      | (Returned _, m) => child_demands l m
      | r => r
      end
  end.

Definition fresh_text (s : gostring) : X text := λ b, (Returned (MkText (Some (xb_fresh b)) s), set_fresh (S (xb_fresh b)) b).

(** ** Stages *)

Definition terminated (b : extractionBudget) : bool := match xb_terminal b with Some _ => true | None => false end.
Definition in_fallback (b : extractionBudget) : bool := match xb_fallback b with Some _ => true | None => false end.
Definition is_cancelled (f : Failure) : bool := match f_Code f with Cancelled => true | _ => false end.

(** The callbacks of [WithProcessingLimits] record what was exceeded. *)
Definition cpu_exceeded (fallback : bool) (u : ProcessingUsage) : ProcessingUsage :=
  if fallback then MkUsage (PrimaryCPUExceeded u) true (UsageMemoryExceeded u) (PrimaryMemoryExceeded u) (FallbackMemoryExceeded u) (PrimaryMemoryBytes u) (FallbackMemoryBytes u)
  else MkUsage true (FallbackCPUExceeded u) (UsageMemoryExceeded u) (PrimaryMemoryExceeded u) (FallbackMemoryExceeded u) (PrimaryMemoryBytes u) (FallbackMemoryBytes u).
Definition memory_exceeded (fallback : bool) (u : ProcessingUsage) : ProcessingUsage :=
  MkUsage (PrimaryCPUExceeded u) (FallbackCPUExceeded u) true (PrimaryMemoryExceeded u || negb fallback) (FallbackMemoryExceeded u || fallback) (PrimaryMemoryBytes u) (FallbackMemoryBytes u).

Definition noteMemoryLimit (b : extractionBudget) : extractionBudget :=
  if xb_memoryLimitExceeded b then b
  else set_exceeded (xb_cpuLimitExceeded b) true (xb_fallbackMemoryExceeded b) (xb_htmlParserPanicReported b) (memory_exceeded false (xb_usage b)) b.
Definition observeFallback (b : extractionBudget) : extractionBudget :=
  match xb_fallback b with
  | Some (m, _) =>
      if exhausted m && negb (xb_fallbackMemoryExceeded b)
      then set_exceeded (xb_cpuLimitExceeded b) (xb_memoryLimitExceeded b) true (xb_htmlParserPanicReported b) (memory_exceeded true (xb_usage b)) b
      else b
  | None => b
  end.
Definition noteHTMLParserPanic (b : extractionBudget) : extractionBudget :=
  set_exceeded (xb_cpuLimitExceeded b) (xb_memoryLimitExceeded b) (xb_fallbackMemoryExceeded b) true (xb_usage b) b.

Definition recordTermination (f : Failure) (fallback : bool) (b : extractionBudget) : extractionBudget :=
  let b := match f_Code f with
           | CPUExceeded => set_exceeded true (xb_memoryLimitExceeded b) (xb_fallbackMemoryExceeded b) (xb_htmlParserPanicReported b) (cpu_exceeded fallback (xb_usage b)) b
           | MemoryExceeded => if fallback then observeFallback b else noteMemoryLimit b
           | _ => b
           end in
  if fallback || is_cancelled f then set_terminal f b else b.

Section Extraction.
Context (st : settings).

(** [BeginFallback] of [WithProcessingLimits]: asked whether the stage may begin. *)
Definition allow_fallback : X bool := λ b,
  let '(cancelled, rest) := match xb_cancelled b with [] => (false, []) | c :: rest => (c, rest) end in
  let refused := cancelled || ((PrimaryCPUExceeded (xb_usage b) || PrimaryMemoryExceeded (xb_usage b)) && negb (st_AllowFallbackAfterLimit st)) in
  (Returned (negb refused), set_world (xb_schedule b) rest b).
Definition beginFallback : X bool := λ b,
  if terminated b then (Returned false, b)
  else if in_fallback b then (Returned true, b)
  else if xb_memoryLimitExceeded b && stopOnMemoryLimit st then (Returned false, b)
  else match allow_fallback b with
       | (Returned true, b) => (Returned true, set_memories (xb_primary b) (Some (NewMemory (memoryBytesLimit st), [])) b)
       | r => r
       end.

(** The first attempt of a message binds the checkpoint, inside the stage. *)
Definition bound_work {A} (w : X A) : X A :=
  let* bound := xget xb_stageStop in
  (if bound then xret tt else on_memory (BindCheckpoint 8) ;* xmod (λ b, set_bound true (xb_countingStop b) b)) ;* w.
Definition attemptExtraction {A} (w : X A) : X (Failure + A) := λ b,
  match bound_work w b with
  | (Returned a, b) => (Returned (inr a), b)
  | (Terminated f, b) => (Returned (inl f), b)
  | (Panicked, b) => (Panicked, b)
  end.
Definition runExtraction {A} (w : X A) : X (option A) :=
  let* stopped := xget terminated in
  if stopped then xret None
  else
    let* r := attemptExtraction w in
    let* fallback := xget in_fallback in
    match r with
    | inr a => xret (Some a)
    | inl f =>
        xmod (recordTermination f fallback) ;*
        let* admitted := if fallback || is_cancelled f then xret false else beginFallback in
        if negb admitted then xmod (set_terminal f) ;* xret None
        else
          let* r := attemptExtraction w in
          match r with
          | inr a => xret (Some a)
          | inl f => xmod (recordTermination f true) ;* xret None
          end
    end.

(** ** Memory and limits of HTML *)

Definition remainingInt (remaining used_ : Z) : Z := if remaining <=? used_ then 0 else remaining - used_.
Definition remainingMemory (b : extractionBudget) : Z := remainingInt (limit (xb_primary b)) (Used (Some (xb_primary b))).
Definition consumeMemory (m : Memory) (b : extractionBudget) : extractionBudget :=
  let b := set_memories (on_ledger (RecordUsage (used m)) (xb_primary b)).2 (xb_fallback b) b in
  if exhausted m then noteMemoryLimit b else b.

Record Limits := MkLimits { l_CSSBytes : Z; l_MemoryBytes : Z }.
Definition htmlLimits (bytes : Z) : X (option Limits) :=
  let* remaining := xget remainingMemory in
  (if remaining <=? 0 then on_primary (Reserve 1) else xret tt) ;*
  let* p := xget xb_progress in
  if (maxHTMLParts <? xp_htmlParts p) || (xp_htmlBytesRemaining p <? bytes) || (xp_cssBytesRemaining p <=? 0)
  then xmod (set_progress (MkProgress (xp_parts p) (xp_htmlParts p) 0 (xp_decodedTextBytesRemaining p) (xp_cssBytesRemaining p))) ;* xret None
  else xmod (set_progress (MkProgress (xp_parts p) (xp_htmlParts p) (xp_htmlBytesRemaining p - bytes) (xp_decodedTextBytesRemaining p) (xp_cssBytesRemaining p))) ;*
       xret (Some (MkLimits (xp_cssBytesRemaining p) remaining)).
Definition consumeHTML (cssBytes memoryBytes : Z) (exceeded : bool) (b : extractionBudget) : extractionBudget :=
  let b := if exceeded then noteMemoryLimit b else b in
  let p := xb_progress b in
  let b := set_progress (MkProgress (xp_parts p) (xp_htmlParts p) (xp_htmlBytesRemaining p) (xp_decodedTextBytesRemaining p) (remainingInt (xp_cssBytesRemaining p) cssBytes)) b in
  set_memories (on_ledger (RecordUsage memoryBytes) (xb_primary b)).2 (xb_fallback b) b.

(** A stage of work on a ledger that takes what the primary ledger has left. *)
Definition with_child {A} (size : Z) (finish : Memory -> extractionBudget -> extractionBudget) (result : A) : X A :=
  let* l := next_demands in
  λ b, let '(e, m) := child_demands l (NewMemory size) in
       match e with
       | Returned _ => (Returned result, finish m b)
       | Terminated f => (Terminated f, finish m b)
       | Panicked => (Panicked, finish m b)
       end.
End Extraction.
