(* ===== verification/ExtractMime.v ===== *)
(** * Extraction of the entities of a message
    (mime.go, mime_restart.go, decode_reader.go, and the parts of
    attachment_context.go, rfc822.go, html_tree.go, html_helpers.go and prompt.go
    that extract, in internal/message)

    Decoding, HTML parts, attachments, the loop over the parts of a multipart,
    the choice among alternatives, the assembly of the parts, and the content of
    a whole message.  An entity at depth nine is not read, so that the recursion
    is bounded by its fuel. *)
From Stdlib Require Import QArith.
From S2P Require Import Prelude GoText Runes Thinking Rdap Message ResourceGuard PromptText PromptUrl AttachedText HtmlText Extract.
#[local] Open Scope Z_scope.
#[local] Open Scope extract_scope.

(** A part of a multipart as the reader gives it: the header fields used, the body
    read, and whether reading it ended with an error. *)
Record mimePart := MkPart { mp_type : gostring; mp_encoding : gostring; mp_contentID : gostring; mp_disposition : gostring; mp_body : gostring; mp_failed : bool }.
Inductive html_result :=
  | HtmlError (parserPanic : bool)
  | HtmlDocument (root : node) (unresolvedStylesheet cssLimitExceeded : bool).

Class MimeLibrary := {
  (** [mime.ParseMediaType]: type, parameters, and whether it failed *)
  media_type : gostring -> gostring * list (gostring * gostring) * bool;
  (** [base64.NewDecoder] with [StdEncoding] and [RawStdEncoding], and
      [quotedprintable.NewReader]: what was decoded, and whether all of it was *)
  base64_std : gostring -> gostring * bool;
  base64_raw : gostring -> gostring * bool;
  quoted_printable : gostring -> gostring * bool;
  (** [charset.Lookup]: the canonical name *)
  charset_name : gostring -> option gostring;
  (** [charset.NewReaderLabel] and reading at most so many bytes; [None] is an error *)
  charset_decode : gostring -> gostring -> Z -> option gostring;
  (** [charset.NewReader] for HTML *)
  charset_detect : gostring -> Z -> option gostring;
  (** [multipart.NewReader] and [NextPart]: boundary and source; whether the parts
      ended in [io.EOF] *)
  multipart_read : gostring -> gostring -> list mimePart * bool;
  (** [xhtml.Tokenizer]: the tokens and whether an error ended them *)
  html_tokens : gostring -> list token * bool;
  (** [htmlextract.AnalyzeControlledString] with the limits, and the bytes of CSS it counts *)
  analyze_html : gostring -> Limits -> html_result;
  analyze_css : gostring -> Limits -> Z }.

Definition param (params : list (gostring * gostring)) (key : gostring) : gostring :=
  match list_find (λ e, beq e.1 key = true) params with Some (_, e) => e.2 | None => [] end.
Definition BOM : gostring := [chr 239; chr 187; chr 191].
Definition LFLF : gostring := [LF; LF].

Section Mime.
Context {UT : UnicodeTables} {UR : UrlText} {UD : UrlDetails} {HL : HtmlLibrary} {HD : HeaderDecoder} {ML : MimeLibrary} (st : settings).

(** ** Decoding *)

Definition known_encoding (e : gostring) : bool := bool_decide (e ∈ [[]; lit "7bit"; lit "8bit"; lit "binary"]).
Definition decodeTransferRecovering (encoding data : gostring) : X (gostring * bool) :=
  let e := toLower (trimSpace encoding) in
  if beq e (lit "base64") then
    work ;*
    let '(decoded, ok) := base64_std data in
    if (ok : bool) then xret (decoded, false)
    else
      work ;*
      let '(unpadded, raw_ok) := base64_raw data in
      xret (if (raw_ok : bool) then (unpadded, false) else match decoded with _ :: _ => (decoded, true) | [] => (data, true) end)
  else if beq e (lit "quoted-printable") then
    work ;*
    let '(decoded, ok) := quoted_printable data in
    xret (if (ok : bool) then (decoded, false) else match decoded with _ :: _ => (decoded, true) | [] => (data, true) end)
  else xret (data, negb (known_encoding e) && negb (beq data [])).

Definition validateOpaqueTransfer (encoding data : gostring) : X bool :=
  let e := toLower (trimSpace encoding) in
  if beq e (lit "quoted-printable") then work ;* xret (negb (quoted_printable data).2)
  else if beq e (lit "base64") then
    work ;*
    if (base64_std data).2 then xret false
    else work ;* xret (negb (base64_raw data).2)
  else xret (negb (known_encoding e) && negb (beq data [])).

(** [bounded] in [decodeCharsetWithResources]. *)
Definition bounded_text (maxBytes : Z) (value : gostring) : X (gostring * bool) :=
  work ;*
  let* text := if validString value then xret value else work ;* xret (toValidUTF8 value) in
  xret (if go_len text <=? maxBytes then (text, true) else (take (back_to_start text (Z.to_nat maxBytes)) text, false)).
Definition decodeCharset (label data : gostring) (maxBytes : Z) : X (gostring * bool) :=
  let maxBytes := Z.max 0 maxBytes in
  let label := trimSpace label in
  if beq label [] then bounded_text maxBytes data
  else if validString data && bool_decide (charset_name label = Some (lit "utf-8")) then bounded_text maxBytes data
  else
    work ;*
    match charset_decode label data (maxBytes + 1) with
    | None => bounded_text maxBytes data
    | Some decoded => bounded_text maxBytes decoded
    end.
Definition decodeHTMLCharset (label data : gostring) (maxBytes : Z) : X gostring :=
  let maxBytes := Z.max 0 maxBytes in
  let bounded (value : gostring) : X gostring :=
    let value := trimPrefix value BOM in
    work ;* xret (if maxBytes + 1 <? go_len value then take (Z.to_nat (maxBytes + 1)) value else value) in
  match charset_name (trimSpace label) with
  | Some canonical =>
      if beq canonical (lit "utf-8") && validString data then bounded data
      else work ;* bounded (default data (charset_decode label data (maxBytes + 4)))
  | None => work ;* bounded (default data (charset_detect data (maxBytes + 4)))
  end.

(** ** Texts *)

Definition joinExtractedText (parts : list text) (separator : gostring) : X text :=
  match parts with
  | [] => xret no_text
  | [p] => xret p
  | _ => work ;* fresh_text (join separator (t_bytes <$> parts))
  end.
Definition attachmentMarker (mediaType name : gostring) : gostring :=
  lit "[attachment: " ++ replaceAll (replaceAll name [CR] (lit " ")) [LF] (lit " ") ++ lit "; type=" ++ mediaType ++ lit "]".

(** ** Attachments *)

Record mimePartInfo := MkPartInfo { pi_Disposition : gostring; pi_ParentType : gostring }.
Definition fileAttachmentInfo (mediaType : gostring) (params : list (gostring * gostring)) (info : mimePartInfo) : X (bool * gostring) :=
  if beq (pi_Disposition info) [] && beq (param params (lit "name")) [] then xret (false, [])
  else
    work ;*
    let '(disposition, fields, _) := media_type (pi_Disposition info) in
    let filename := match param fields (lit "filename") with [] => param params (lit "name") | f => f end in
    let attached := beq disposition (lit "attachment") ||
      (beq disposition [] && negb (beq filename []) && negb (beq (pi_ParentType info) (lit "multipart/alternative")) && negb (beq (pi_ParentType info) (lit "multipart/related"))) in
    xret (attached && (beq mediaType (lit "text/plain") || beq mediaType (lit "text/html")), filename).

Definition wrap_one (tag prefix : gostring) (t : text) (spans : list attachmentSpan) : X (text * list attachmentSpan) :=
  work ;*
  let '(result, spans) := wrap_text tag prefix (t_bytes t) spans in
  let* result := fresh_text result in
  xret (result, spans).
Definition wrap_work (content : extractedContent) (tag filename mediaType headers : gostring) : X extractedContent :=
  work ;*
  let prefix := attachmentPrefix tag filename mediaType headers in
  let stripped := if HasConcealedContent content then StrippedText content else Text content in
  let* text := wrap_one tag prefix (Text content) (TextAttachments content) in
  let* visible := if sameStringStorage (Text content) (VisibleText content) then xret text else wrap_one tag prefix (VisibleText content) (VisibleAttachments content) in
  let* strip := if HasConcealedContent content then wrap_one tag prefix stripped (StrippedAttachments content) else xret text in
  work ;*
  let groups := makeAttachmentLinkGroups (Links content) (AttachmentLinks content) prefix (attachmentSuffix tag) in
  xret (with_links true groups [] (with_texts text.1 visible.1 strip.1 text.2 visible.2 strip.2 content)).
Definition wrap_marker (content : extractedContent) (tag : gostring) : extractedContent :=
  let tag := if beq tag attached_email then attached_email else attached_file in
  let marker := literal (incomplete_marker tag) in
  let spans := incomplete_spans tag in
  mark_extraction true (with_links true [] [] (with_texts marker marker marker spans spans spans content)).
Definition wrapAttachment (content : extractedContent) (tag filename mediaType headers : gostring) : X extractedContent :=
  if st_omitAttachmentContext st then xret content
  else
    let* wrapped := runExtraction st (wrap_work content tag filename mediaType headers) in
    xret (default (wrap_marker content tag) wrapped).

(** ** HTML *)

Definition set_prefix (s : gostring) (b : extractionBudget) : extractionBudget :=
  match xb_fallback b with Some (m, _) => set_memories (xb_primary b) (Some (m, s)) b | None => b end.
Definition fallback_prefix_of (b : extractionBudget) : gostring := match xb_fallback b with Some (_, s) => s | None => [] end.
(** The tokens one by one: the text so far is kept before each is read. *)
Fixpoint fallback_loop (tokens : list token) (failed : bool) (s : fallback_state) : X fallback_state :=
  if fallbackTextBytes <=? go_len (fb_text s) then xret s
  else
    work ;* xmod (set_prefix (fb_text s)) ;* work ;*
    match tokens with
    | [] => xret (fallback_end failed s)
    | t :: tokens => fallback_loop tokens failed (fallback_token t s)
    end.
Definition extractBoundedHTMLFallback (source : gostring) : X extractedContent :=
  work ;*
  let '(tokens, failed) := html_tokens source in
  let* s := fallback_loop tokens failed (fallback_start (st_compactURLs st)) in
  work ;*
  let r := fallback_finish s in
  let* t := fresh_text (fc_text r) in
  let c := with_quality true false false (text_content t) in
  xret (mark_extraction (fc_incomplete r) (with_links false [] (fc_links r)
    (MkContent (Attachment c) (TextAttachments c) (VisibleAttachments c) (StrippedAttachments c) (AttachmentLinks c) (Text c) (VisibleText c) 0 (StrippedText c) (Links c) (fc_images r) []
      (HTML c) (MIMEIncomplete c) (TransferIncomplete c) (ExtractionIncomplete c) (HTMLFallbackUsed c) (HTMLCPULimitExceeded c) (HTMLMemoryLimitExceeded c)
      (HTMLPrimaryMemoryLimitExceeded c) (HTMLFallbackMemoryLimitExceeded c) (CSSIncomplete c) (HasConcealedContent c) (HTMLComments c)))).

Definition extractFallback (source : gostring) : X extractedContent :=
  let* begun := beginFallback st in
  let* cpu := xget xb_cpuLimitExceeded in
  let* memory := xget xb_memoryLimitExceeded in
  if negb begun then xret (with_limits cpu memory false false (mark_extraction true no_content))
  else
    xmod (set_prefix []) ;*
    let* r := runExtraction st (extractBoundedHTMLFallback source) in
    let* prefix := xget fallback_prefix_of in
    let prefix := if contains prefix (lit "<") || negb (validString prefix) then [] else prefix in
    let* t := match r with Some _ => xret no_text | None => fresh_text prefix end in
    let content := match r with Some c => c | None => mark_extraction true (with_quality true false false (text_content t)) end in
    xmod observeFallback ;*
    let* cpu := xget xb_cpuLimitExceeded in
    let* fallbackMemory := xget xb_fallbackMemoryExceeded in
    xret (with_limits (HTMLCPULimitExceeded content || cpu) (HTMLMemoryLimitExceeded content || fallbackMemory) (HTMLPrimaryMemoryLimitExceeded content) fallbackMemory content).

Definition analyzeControlledHTML (source : gostring) (limits : Limits) : X html_result :=
  with_child (l_MemoryBytes limits) (λ m, consumeHTML (analyze_css source limits) (used m) (exhausted m)) (analyze_html source limits).

(** What the tree gives: the two renderings share their collectors. *)
Record tree_content := MkTree { tc_tagged : renderedHTML; tc_stripped : gostring; tc_links : list gostring; tc_refs : list gostring; tc_comments : htmlCommentStats; tc_incomplete : bool; tc_confident : nat }.
Definition tree_extract (root : node) : tree_content :=
  let base := match findBase root with Some b => b | None => None end in
  let s := MkWalk (new_collector (st_compactURLs st)) (MkImageRefCollector [] 0) false in
  let '(tagged, s) := render TagHidden base root s in
  let '(stripped, s) := if rh_hasConcealed tagged then let '(r, s) := render StripHidden base root s in (rh_text r, s) else ([], s) in
  MkTree tagged stripped (lc_links (ws_links s)) (ic_refs (ws_images s)) (collectHTMLCommentStats None None root no_comments) (ws_incomplete s)
    (if st_countConfidentText st then confidentVisibleCharacters root else 0%nat).
Definition extractTreeHTMLWithLimits (source : gostring) (limits : Limits) : X extractedContent :=
  let* inspection := analyzeControlledHTML source limits in
  work ;*
  match inspection with
  | HtmlError parserPanic =>
      (if parserPanic then xmod noteHTMLParserPanic else xret tt) ;*
      let* content := extractFallback source in
      xret (mark_extraction true content)
  | HtmlDocument root unresolved cssLimit =>
      let* remaining := xget remainingMemory in
      let* r := with_child remaining consumeMemory (tree_extract root) in
      let cssIncomplete := unresolved || cssLimit in
      let* t := fresh_text (rh_text (tc_tagged r)) in
      let* v := fresh_text (rh_visible (tc_tagged r)) in
      let* s := fresh_text (tc_stripped r) in
      let* cpu := xget xb_cpuLimitExceeded in
      xret (MkContent false [] [] [] [] t v (if cssIncomplete then 0 else tc_confident r) (if rh_hasConcealed (tc_tagged r) then s else no_text) (tc_links r) (tc_refs r) []
              false false false (tc_incomplete r) false cpu false false false cssIncomplete (rh_hasConcealed (tc_tagged r)) (tc_comments r))
  end.
Definition htmlToTextWithBudget (source : gostring) : X extractedContent :=
  let* p := xget xb_progress in
  xmod (set_progress (MkProgress (xp_parts p) (xp_htmlParts p + 1) (xp_htmlBytesRemaining p) (xp_decodedTextBytesRemaining p) (xp_cssBytesRemaining p))) ;*
  work ;*
  let* fallback := xget in_fallback in
  if fallback then extractFallback source
  else
    let* limits := htmlLimits (go_len source) in
    match limits with
    | None => let* content := extractFallback source in xret (mark_extraction true content)
    | Some limits => extractTreeHTMLWithLimits source limits
    end.

(** ** Plain text *)

Definition extractPlain (charset data : gostring) (transferIncomplete : bool) : X extractedContent :=
  let* p := xget xb_progress in
  let* r := decodeCharset charset data (xp_decodedTextBytesRemaining p) in
  let '(value, complete) := r in
  let* p := xget xb_progress in
  xmod (set_progress (MkProgress (xp_parts p) (xp_htmlParts p) (xp_htmlBytesRemaining p) (xp_decodedTextBytesRemaining p - go_len value) (xp_cssBytesRemaining p))) ;*
  work ;*
  let '(shown, links) := rewritePlainTextURLs value (new_collector (st_compactURLs st)) in
  let* visible := fresh_text value in
  let* t := if beq shown value then xret visible else fresh_text shown in
  let* bound := xget xb_countingStop in
  (if st_countConfidentText st
   then work ;* (if bound then xret tt else on_memory (BindCheckpoint 8) ;* xmod (λ b, set_bound (xb_stageStop b) true b)) ;* work
   else xret tt) ;*
  let* cpu := xget xb_cpuLimitExceeded in
  let* memory := xget (λ b, xb_memoryLimitExceeded b || xb_fallbackMemoryExceeded b) in
  xret (MkContent false [] [] [] [] t visible (if st_countConfidentText st then confidentTextCharacters value else 0) no_text (lc_links links) [] []
          false false transferIncomplete (negb complete) false cpu memory false false false false no_comments).

(** ** Parts of a multipart *)

(** The loop's variables. *)
Record multi := MkMulti {
  mu_parts : list extractedContent; mu_html : extractedContent; mu_plain : extractedContent;
  mu_mime : bool; mu_transfer : bool; mu_extraction : bool; mu_stopped : bool; mu_attachments : bool }.
Definition no_multi : multi := MkMulti [] no_content no_content false false false false false.
Definition set_mime (m : multi) : multi := MkMulti (mu_parts m) (mu_html m) (mu_plain m) true (mu_transfer m) (mu_extraction m) (mu_stopped m) (mu_attachments m).
Definition set_stopped (m : multi) : multi := MkMulti (mu_parts m) (mu_html m) (mu_plain m) true (mu_transfer m) (mu_extraction m) true (mu_attachments m).
Definition set_parts (parts : list extractedContent) (m : multi) : multi :=
  MkMulti parts (mu_html m) (mu_plain m) (mu_mime m) (mu_transfer m) (mu_extraction m) (mu_stopped m) (mu_attachments m).
Definition set_alternatives (html plain_ : extractedContent) (m : multi) : multi :=
  MkMulti (mu_parts m) html plain_ (mu_mime m) (mu_transfer m) (mu_extraction m) (mu_stopped m) (mu_attachments m).
Definition note_part (failed : bool) (c : extractedContent) (m : multi) : multi :=
  MkMulti (mu_parts m) (mu_html m) (mu_plain m) (mu_mime m || failed || MIMEIncomplete c) (mu_transfer m || TransferIncomplete c) (mu_extraction m || ExtractionIncomplete c)
    (mu_stopped m) (mu_attachments m || Attachment c).

Definition retainedMIMEPart (parts : list extractedContent) : extractedContent :=
  match List.find hasExtractedContent (rev parts) with
  | Some c => c
  | None => match last parts with Some c => c | None => no_content end
  end.
Definition retainMIMEPartFlags (parts : list extractedContent) (c : extractedContent) : extractedContent :=
  fold_left (λ c p, with_quality (HTMLFallbackUsed c || HTMLFallbackUsed p) (CSSIncomplete c || CSSIncomplete p) (HasConcealedContent c || HasConcealedContent p) c) parts c.
Definition appendMIMEPart (parts : list extractedContent) (c : extractedContent) : X (option (list extractedContent)) :=
  runExtraction st (work ;* xret (parts ++ [c])).
(** Reading a part: after a termination its replay reads the same part again. *)
Definition readRestartableMIMEPart (rest : list mimePart) : X (option (option mimePart)) := runExtraction st (work ;* xret (head rest)).

Definition takePart (b : extractionBudget) : extractionBudget :=
  let p := xb_progress b in
  if maxMIMEParts <=? xp_parts p then b
  else set_progress (MkProgress (xp_parts p + 1) (xp_htmlParts p) (xp_htmlBytesRemaining p) (xp_decodedTextBytesRemaining p) (xp_cssBytesRemaining p)) b.

Definition extractor : Type := gostring -> gostring -> gostring -> gostring -> Z -> mimePartInfo -> X extractedContent.

(** After a part: the parts of the loop, or the content that ends the extraction. *)
Definition part_extracted (mediaType partType : gostring) (content : extractedContent) (m : multi) : X (extractedContent + multi * bool) :=
  let* stopped := xget terminated in
  if stopped then
    xret (inl (mark_incomplete (retainMIMEPartFlags (mu_parts m) (if hasExtractedContent content then content else retainedMIMEPart (mu_parts m)))))
  else if negb (hasExtractedContent content) then
    if beq mediaType (lit "multipart/alternative") then xret (inr (m, true))
    else
      let* r := appendMIMEPart (mu_parts m) content in
      match r with
      | Some parts => xret (inr (set_parts parts m, true))
      | None => xret (inr (set_stopped m, false))
      end
  else
    let* r := appendMIMEPart (mu_parts m) content in
    match r with
    | None => xret (inr (match mu_parts m with [] => set_alternatives (mu_html m) content (set_stopped m) | _ => set_stopped m end, false))
    | Some parts =>
        let m := set_parts parts m in
        if beq mediaType (lit "multipart/alternative") && negb (Attachment content) then
          work ;*
          xret (inr (if HTML content then set_alternatives content (mu_plain m) m
                     else if beq (media_type partType).1.1 (lit "text/plain") then set_alternatives (mu_html m) content m
                     else m, true))
        else xret (inr (m, true))
    end.

Fixpoint parts_loop (rec : extractor) (mediaType : gostring) (depth : Z) (eof : bool) (rest : list mimePart) (m : multi) : X (extractedContent + multi) :=
  let* taken := xget (λ b, xp_parts (xb_progress b)) in
  if maxMIMEParts <=? taken then xret (inr (set_mime m))
  else
    let* read := readRestartableMIMEPart rest in
    match read, rest with
    | None, _ => xret (inr (set_stopped m))
    | Some _, [] => xret (inr (if eof then m else set_mime m))
    | Some _, part :: rest =>
        xmod takePart ;*
        let partType := if beq mediaType (lit "multipart/digest") && beq (trimSpace (mp_type part)) [] then lit "message/rfc822" else mp_type part in
        let* content := rec partType (mp_encoding part) (mp_contentID part) (mp_body part) (depth + 1) (MkPartInfo (mp_disposition part) mediaType) in
        let m := note_part (mp_failed part) content m in
        (if hasExtractedContent content then xmod (set_retained content) else xret tt) ;*
        let* r := part_extracted mediaType partType content m in
        match r with
        | inl c => xret (inl c)
        | inr (m, true) => parts_loop rec mediaType depth eof rest m
        | inr (m, false) => xret (inr m)
        end
    end.

(** ** Alternatives and assembly *)

Definition selected_alternative (m : multi) : extractedContent :=
  if hasExtractedContent (mu_html m) then mu_html m
  else if hasExtractedContent (mu_plain m) then mu_plain m
  else match List.find (λ c, negb (Attachment c)) (rev (mu_parts m)) with Some c => c | None => no_content end.
Fixpoint select_parts (selected : extractedContent) (added : bool) (parts : list extractedContent) : X (list extractedContent * bool) :=
  match parts with
  | [] => xret ([], added)
  | p :: parts =>
      if Attachment p then
        work ;* let* r := select_parts selected added parts in xret (p :: r.1, r.2)
      else if negb added && sameStringStorage (Text p) (Text selected) && hasExtractedContent selected then
        work ;* let* r := select_parts selected true parts in xret (selected :: r.1, r.2)
      else select_parts selected added parts
  end.

(** The variables of the assembly. *)
Record assembly := MkAssembly {
  asm_content : extractedContent; asm_texts : list text; asm_visible : list text; asm_stripped : list text; asm_matches : bool;
  asm_textOffset : nat; asm_visibleOffset : nat; asm_strippedOffset : nat; asm_links : linkCollector; asm_refs : imageRefCollector }.
(** The flags of a part. *)
Definition add_flags (part c : extractedContent) : extractedContent :=
  MkContent (Attachment c) (TextAttachments c) (VisibleAttachments c) (StrippedAttachments c) (AttachmentLinks c) (Text c) (VisibleText c) (ConfidentVisibleChars c + ConfidentVisibleChars part)
    (StrippedText c) (Links c) (ImageRefs c) (Images c)
    (HTML c || HTML part) (MIMEIncomplete c) (TransferIncomplete c) (ExtractionIncomplete c || ExtractionIncomplete part) (HTMLFallbackUsed c || HTMLFallbackUsed part)
    (HTMLCPULimitExceeded c || HTMLCPULimitExceeded part) (HTMLMemoryLimitExceeded c)
    (HTMLPrimaryMemoryLimitExceeded c) (HTMLFallbackMemoryLimitExceeded c) (CSSIncomplete c || CSSIncomplete part) (HasConcealedContent c || HasConcealedContent part)
    (add_stats (HTMLComments c) (HTMLComments part)).
Definition part_stripped (part : extractedContent) : text :=
  if beq (t_bytes (StrippedText part)) [] && negb (HasConcealedContent part) then Text part else StrippedText part.
Definition assemble_part (part : extractedContent) (a : assembly) : assembly :=
  let c := add_flags part (asm_content a) in
  if negb (hasExtractedContent part) then
    MkAssembly c (asm_texts a) (asm_visible a) (asm_stripped a) (asm_matches a) (asm_textOffset a) (asm_visibleOffset a) (asm_strippedOffset a) (asm_links a) (asm_refs a)
  else
    let gap := match asm_texts a with [] => 0%nat | _ => 2%nat end in
    let textOffset := (asm_textOffset a + gap)%nat in
    let visibleOffset := (asm_visibleOffset a + gap)%nat in
    let stripped := part_stripped part in
    let kept := negb (beq (t_bytes stripped) []) in
    let strippedOffset := (asm_strippedOffset a + (match asm_stripped a with [] => 0 | _ => 2 end))%nat in
    let spans := if HasConcealedContent part then StrippedAttachments part else TextAttachments part in
    MkAssembly
      (MkContent (Attachment c) (appendAttachmentSpans (TextAttachments c) (TextAttachments part) textOffset) (appendAttachmentSpans (VisibleAttachments c) (VisibleAttachments part) visibleOffset)
         (if kept then appendAttachmentSpans (StrippedAttachments c) spans strippedOffset else StrippedAttachments c)
         (AttachmentLinks c ++ AttachmentLinks part) (Text c) (VisibleText c) (ConfidentVisibleChars c) (StrippedText c) (Links c) (ImageRefs c) (Images c ++ Images part)
         (HTML c) (MIMEIncomplete c) (TransferIncomplete c) (ExtractionIncomplete c) (HTMLFallbackUsed c) (HTMLCPULimitExceeded c) (HTMLMemoryLimitExceeded c)
         (HTMLPrimaryMemoryLimitExceeded c) (HTMLFallbackMemoryLimitExceeded c) (CSSIncomplete c) (HasConcealedContent c) (HTMLComments c))
      (asm_texts a ++ [Text part]) (asm_visible a ++ [VisibleText part]) (if kept then asm_stripped a ++ [stripped] else asm_stripped a)
      (asm_matches a && sameStringStorage (Text part) (VisibleText part))
      (textOffset + length (t_bytes (Text part))) (visibleOffset + length (t_bytes (VisibleText part)))
      (if kept then strippedOffset + length (t_bytes stripped) else asm_strippedOffset a)
      (add_destinations (Links part) (asm_links a)) (AddAll (ImageRefs part) (asm_refs a)).
Fixpoint assemble_parts (parts : list extractedContent) (a : assembly) : X assembly :=
  match parts with [] => xret a | p :: parts => work ;* assemble_parts parts (assemble_part p a) end.

(** The texts of the whole. *)
Definition finish_texts (m : multi) (a : assembly) : X extractedContent :=
  let c := asm_content a in
  let some := negb (bool_decide (asm_texts a = [])) in
  let* t := if some then joinExtractedText (asm_texts a) LFLF else xret (Text c) in
  if some || negb (mu_stopped m) then
    let* s := if HasConcealedContent c then joinExtractedText (asm_stripped a) LFLF else xret t in
    work ;*
    let* v := if asm_matches a then xret t else joinExtractedText (asm_visible a) LFLF in
    xret (with_texts t v s (TextAttachments c) (VisibleAttachments c) (if HasConcealedContent c then StrippedAttachments c else TextAttachments c) c)
  else xret (with_texts t (VisibleText c) (StrippedText c) (TextAttachments c) (VisibleAttachments c) (StrippedAttachments c) c).
Definition with_found (links refs : list gostring) (c : extractedContent) : extractedContent :=
  MkContent (Attachment c) (TextAttachments c) (VisibleAttachments c) (StrippedAttachments c) (AttachmentLinks c) (Text c) (VisibleText c)
    (ConfidentVisibleChars c) (StrippedText c) links refs (Images c)
    (HTML c) (MIMEIncomplete c) (TransferIncomplete c) (ExtractionIncomplete c) (HTMLFallbackUsed c) (HTMLCPULimitExceeded c) (HTMLMemoryLimitExceeded c)
    (HTMLPrimaryMemoryLimitExceeded c) (HTMLFallbackMemoryLimitExceeded c) (CSSIncomplete c) (HasConcealedContent c) (HTMLComments c).
Definition assemble_texts (m : multi) (parts : list extractedContent) : X (assembly * extractedContent) :=
  let start := match parts with [] => if hasExtractedContent (mu_plain m) then mu_plain m else no_content | _ => no_content end in
  let* a := assemble_parts parts (MkAssembly start [] [] [] true 0 0 0 (new_collector (st_compactURLs st)) (MkImageRefCollector [] 0)) in
  let* final := finish_texts m a in
  xret (a, final).
Definition assemble (m : multi) (parts : list extractedContent) (transferIncomplete : bool) : X extractedContent :=
  let* r := assemble_texts m parts in
  let '(a, final) := r in
  let* cpu := xget xb_cpuLimitExceeded in
  let* seen := xget (λ b, 0 <? xp_htmlParts (xb_progress b)) in
  let c := with_found (lc_links (asm_links a)) (ic_refs (asm_refs a)) final in
  xret (mark_cpu (HTMLCPULimitExceeded c || cpu)
         (with_marks (mu_mime m) (transferIncomplete || mu_transfer m) (ExtractionIncomplete c || mu_stopped m || mu_extraction m) (HTML c || seen) c)).

Definition combine_parts (m : multi) (parts : list extractedContent) (transferIncomplete : bool) : X extractedContent :=
  let* r := runExtraction st (assemble m parts transferIncomplete) in
  xret (match r with Some c => c | None => mark_incomplete (retainedMIMEPart parts) end).
Definition finish_multipart (mediaType : gostring) (transferIncomplete : bool) (m : multi) : X extractedContent :=
  let* stopped := xget terminated in
  if stopped then xret (mark_incomplete (retainMIMEPartFlags (mu_parts m) (retainedMIMEPart (mu_parts m))))
  else if negb (beq mediaType (lit "multipart/alternative")) then combine_parts m (mu_parts m) transferIncomplete
  else
    let* cpu := xget xb_cpuLimitExceeded in
    let* seen := xget (λ b, 0 <? xp_htmlParts (xb_progress b)) in
    let chosen := selected_alternative m in
    let selected := mark_cpu (HTMLCPULimitExceeded chosen || cpu)
      (with_marks (mu_mime m) (transferIncomplete || mu_transfer m) (ExtractionIncomplete chosen || mu_stopped m || mu_extraction m) (HTML chosen || seen) chosen) in
    if negb (mu_attachments m) then xret selected
    else
      let* r := select_parts selected false (mu_parts m) in
      if (length r.1 <=? 1)%nat && r.2 then xret selected
      else combine_parts m r.1 transferIncomplete.

(** ** Entities *)

Definition extractAttachedMessage (rec : extractor) (data : gostring) (depth : Z) (filename : gostring) : X extractedContent :=
  work ;*
  match parseAttachedMessage (st_omitAttachmentContext st) data with
  | None =>
      let t := literal (lit "[attached message could not be parsed]") in
      wrapAttachment (with_marks true false false false (with_texts t t no_text [] [] [] no_content)) attached_email filename [] []
  | Some a =>
      let* content := rec (am_contentType a) (am_transferEncoding a) (am_contentID a) (am_body a) (depth + 1) (MkPartInfo (am_disposition a) []) in
      wrapAttachment content attached_email filename [] (am_headers a)
  end.

Definition wrap_file (isFile : bool) (content : extractedContent) (filename mediaType : gostring) : X extractedContent :=
  if isFile then wrapAttachment content attached_file filename mediaType [] else xret content.

(** The entity of a media type whose data are decoded. *)
Definition extract_decoded (rec : extractor) (mediaType : gostring) (params : list (gostring * gostring)) (contentID decoded : gostring) (transferIncomplete isFile : bool) (filename : gostring) (depth : Z) : X extractedContent :=
  if hasPrefix mediaType (lit "multipart/") then
    let boundary := param params (lit "boundary") in
    if beq boundary [] then xret (with_marks true transferIncomplete false false (text_content (literal (lit "[multipart message has no boundary]"))))
    else
      work ;*
      let '(parts, eof) := multipart_read boundary (multipartBodyFromFirstBoundary decoded boundary) in
      let* r := parts_loop rec mediaType depth eof parts no_multi in
      match r with
      | inl c => xret c
      | inr m => finish_multipart mediaType transferIncomplete m
      end
  else if beq mediaType (lit "message/rfc822") then
    let* content := extractAttachedMessage rec decoded depth filename in
    xret (mark_transfer (TransferIncomplete content || transferIncomplete) content)
  else if negb (beq mediaType (lit "text/plain")) && negb (beq mediaType (lit "text/html")) then
    let* t := fresh_text (attachmentMarker mediaType (param params (lit "name"))) in
    let c := mark_transfer transferIncomplete (text_content t) in
    xret (MkContent (Attachment c) (TextAttachments c) (VisibleAttachments c) (StrippedAttachments c) (AttachmentLinks c) (Text c) (VisibleText c) (ConfidentVisibleChars c) (StrippedText c) (Links c) (ImageRefs c)
            (if hasPrefix mediaType (lit "image/") then [MkImage (normalizeContentID contentID) decoded] else [])
            (HTML c) (MIMEIncomplete c) (TransferIncomplete c) (ExtractionIncomplete c) (HTMLFallbackUsed c) (HTMLCPULimitExceeded c) (HTMLMemoryLimitExceeded c)
            (HTMLPrimaryMemoryLimitExceeded c) (HTMLFallbackMemoryLimitExceeded c) (CSSIncomplete c) (HasConcealedContent c) (HTMLComments c))
  else if beq mediaType (lit "text/html") then
    let* p := xget xb_progress in
    let* source := decodeHTMLCharset (param params (lit "charset")) decoded (xp_htmlBytesRemaining p) in
    let* content := htmlToTextWithBudget source in
    let content := with_marks (MIMEIncomplete content) transferIncomplete (ExtractionIncomplete content) true content in
    wrap_file isFile content filename mediaType
  else
    let* content := extractPlain (param params (lit "charset")) decoded transferIncomplete in
    wrap_file isFile content filename mediaType.

Definition opaque_type (mediaType : gostring) : bool :=
  negb (beq mediaType (lit "text/plain")) && negb (beq mediaType (lit "text/html")) && negb (beq mediaType (lit "message/rfc822")) &&
  negb (hasPrefix mediaType (lit "multipart/")) && (st_discardImages st || negb (hasPrefix mediaType (lit "image/"))).
Definition extractMIMEOnce (rec : extractor) (contentType encoding contentID data : gostring) (depth : Z) (info : mimePartInfo) : X extractedContent :=
  if 8 <? depth then xret (with_marks true false false false (text_content (literal (lit "[MIME nesting limit reached]"))))
  else
    work ;*
    let '(parsed, params, failed) := media_type contentType in
    let mediaType := toLower (if failed || beq parsed [] then lit "text/plain" else parsed) in
    let* file := fileAttachmentInfo mediaType params info in
    if opaque_type mediaType then
      let* incomplete := validateOpaqueTransfer encoding data in
      let* t := fresh_text (attachmentMarker mediaType (param params (lit "name"))) in
      let* cpu := xget xb_cpuLimitExceeded in
      xret (mark_cpu cpu (mark_transfer incomplete (text_content t)))
    else
      let* d := decodeTransferRecovering encoding data in
      extract_decoded rec mediaType params contentID d.1 d.2 file.1 file.2 depth.

(** The limits met so far, noted on the content of an entity. *)
Definition note_limits (c : extractedContent) : X extractedContent :=
  let* cpu := xget xb_cpuLimitExceeded in
  let* memory := xget xb_memoryLimitExceeded in
  let* fallbackMemory := xget xb_fallbackMemoryExceeded in
  xret (with_limits (HTMLCPULimitExceeded c || cpu) (HTMLMemoryLimitExceeded c || memory || fallbackMemory) memory fallbackMemory c).
(** The replay of an interrupted entity starts from the progress it began with. *)
Definition extract_entity (rec : extractor) (contentType encoding contentID data : gostring) (depth : Z) (info : mimePartInfo) : X extractedContent :=
  let* outer := xget xb_retained in
  xmod (set_retained no_content) ;*
  let* progress := xget xb_progress in
  let* result := runExtraction st (xmod (set_progress progress) ;* extractMIMEOnce rec contentType encoding contentID data depth info) in
  let* retained := xget xb_retained in
  xmod (set_retained outer) ;*
  note_limits (match result with Some c => c | None => mark_incomplete retained end).
Fixpoint extractMIMEWithBudget (fuel : nat) : extractor :=
  match fuel with
  | O => λ _ _ _ _ _ _, xpanic
  | S fuel => extract_entity (extractMIMEWithBudget fuel)
  end.
Definition extraction_fuel : nat := 10.

(** ** A message *)

(** Fields that are done stay done when the work is terminated. *)
Definition set_text (field : nat) (t : text) (c : extractedContent) : extractedContent :=
  with_texts (if (field =? 0)%nat then t else Text c) (if (field =? 1)%nat then t else VisibleText c) (if (field =? 2)%nat then t else StrippedText c)
    (TextAttachments c) (VisibleAttachments c) (StrippedAttachments c) c.
Definition get_text (field : nat) (c : extractedContent) : text := match field with 0%nat => Text c | 1%nat => VisibleText c | _ => StrippedText c end.
Definition normalize_field (field : nat) : X unit :=
  let* c := xget xb_content in
  if validString (t_bytes (get_text field c)) then xret tt
  else
    work ;*
    let* t := fresh_text (toValidUTF8 (t_bytes (get_text field c))) in
    xmod (set_content (set_text field t c)).
Definition normalizeExtractedUTF8 : X unit := normalize_field 0 ;* normalize_field 1 ;* normalize_field 2.
Definition discard_invalid (t : text) : text := if validString (t_bytes t) then t else no_text.
Definition discardInvalidUTF8 (c : extractedContent) : extractedContent :=
  with_texts (discard_invalid (Text c)) (discard_invalid (VisibleText c)) (discard_invalid (StrippedText c)) (TextAttachments c) (VisibleAttachments c) (StrippedAttachments c) c.

Definition new_budget (decodedTextBytes : Z) (schedule : list (list demand)) (cancelled : list bool) : extractionBudget :=
  MkBudget (MkProgress 0 0 default_InputBytes (Z.max 0 decodedTextBytes) default_CSSBytes) (NewMemory (memoryBytesLimit st)) None false false None
    false false false false no_usage schedule cancelled 0 no_content no_content.
Definition processedContent (m : Message) : X extractedContent :=
  let* content := extractMIMEWithBudget extraction_fuel (FirstHeader m (lit "Content-Type")) (FirstHeader m (lit "Content-Transfer-Encoding")) [] (BodyBytes m) 0
                    (MkPartInfo (FirstHeader m (lit "Content-Disposition")) []) in
  let content := with_marks (MIMEIncomplete content || MIMEHeadersTruncated m) (TransferIncomplete content) (ExtractionIncomplete content || BodyTruncated m) (HTML content) content in
  xmod (set_content content) ;*
  let* normalized := runExtraction st normalizeExtractedUTF8 in
  let* content := xget xb_content in
  let content := match normalized with Some _ => content | None => discardInvalidUTF8 (mark_extraction true content) end in
  xmod observeFallback ;*
  let* cpu := xget xb_cpuLimitExceeded in
  let* memory := xget xb_memoryLimitExceeded in
  let* fallbackMemory := xget xb_fallbackMemoryExceeded in
  xret (with_limits (HTMLCPULimitExceeded content || cpu) (memory || fallbackMemory) memory fallbackMemory content).
(** [WithProcessingLimits] around the extraction of a message: the content and the
    usage observed; [None] only for a panic. *)
Definition observed_usage (b : extractionBudget) : ProcessingUsage :=
  let u := xb_usage b in
  MkUsage (PrimaryCPUExceeded u) (FallbackCPUExceeded u) (UsageMemoryExceeded u) (PrimaryMemoryExceeded u) (FallbackMemoryExceeded u) (used (xb_primary b))
    (match xb_fallback b with Some (m, _) => used m | None => 0 end).
Definition WithProcessingLimits (m : Message) (schedule : list (list demand)) (cancelled : list bool) : option (extractedContent * ProcessingUsage) :=
  match processedContent m (new_budget (maxBytes m) schedule cancelled) with
  | (Returned c, b) => Some (c, observed_usage b)
  | _ => None
  end.
End Mime.
