(* ===== verification/ExtractSpec.v ===== *)
(** * Invariants of extraction

    A program logic for the effect of extraction: [runs_to m b P] says that [m],
    started in a sound budget, does not panic, leaves a sound budget that has only
    moved forward, and establishes [P] when it returns; nothing is assumed of the
    schedule.  With it: the stages, and the offsets of attachments in the content
    of every entity. *)
From Stdlib Require Import QArith.
From S2P Require Import Prelude GoText Runes Thinking Rdap Message ResourceGuard ResourceGuardSpec PromptText PromptUrl AttachedText AttachedTextSpec HtmlText Extract ExtractMime.
#[local] Open Scope Z_scope.
#[local] Open Scope extract_scope.

Create HintDb extract.

(** ** Sound content and budgets *)

Definition text_spans (t : text) (spans : list attachmentSpan) : Prop := spans_ok (t_bytes t) spans.
(** The offsets kept beside each text are those of the tags in it; a text without
    concealed parts is its own stripped text; an attachment begins with its tag. *)
Record content_ok (c : extractedContent) : Prop := {
  ok_text : text_spans (Text c) (TextAttachments c);
  ok_visible : text_spans (VisibleText c) (VisibleAttachments c);
  ok_stripped : text_spans (StrippedText c) (StrippedAttachments c);
  ok_same : HasConcealedContent c = false -> t_bytes (StrippedText c) = [] \/ t_bytes (StrippedText c) = t_bytes (Text c);
  ok_attachment : Attachment c = true -> exists s, t_bytes (Text c) = "<"%char :: s }.

Definition memory_ok (m : Memory) : Prop := ledger_ok (Some m).
Record budget_ok (b : extractionBudget) : Prop := {
  bo_primary : memory_ok (xb_primary b);
  bo_fallback : match xb_fallback b with Some (m, _) => memory_ok m | None => True end;
  bo_parts : 0 <= xp_parts (xb_progress b) <= maxMIMEParts;
  bo_retained : content_ok (xb_retained b) }.

(** A ledger only grows; the fallback stage never ends, and the primary ledger is
    closed once it has begun; an extraction that has ended stays ended; what was
    met is never forgotten; and the schedule is read from its front. *)
Definition grown (m m' : Memory) : Prop := limit m' = limit m /\ used m <= used m'.
Record advance (b b' : extractionBudget) : Prop := {
  adv_primary : grown (xb_primary b) (xb_primary b');
  adv_fallback : match xb_fallback b with
                 | Some (m, _) => xb_primary b' = xb_primary b /\ exists m' prefix, xb_fallback b' = Some (m', prefix) /\ grown m m'
                 | None => True
                 end;
  adv_terminal : terminated b = true -> terminated b' = true;
  adv_flags : (xb_cpuLimitExceeded b = true -> xb_cpuLimitExceeded b' = true) /\ (xb_memoryLimitExceeded b = true -> xb_memoryLimitExceeded b' = true) /\
              (xb_fallbackMemoryExceeded b = true -> xb_fallbackMemoryExceeded b' = true);
  adv_schedule : exists l, xb_schedule b = l ++ xb_schedule b' }.

Lemma ledger_grown_refl m : grown m m.
Proof. done. Qed.
Lemma ledger_grown_trans m1 m2 m3 : grown m1 m2 -> grown m2 m3 -> grown m1 m3.
Proof. unfold grown. intros [? ?] [? ?]. split; [congruence|lia]. Qed.
Lemma advance_refl b : advance b b.
Proof. split; [apply ledger_grown_refl| |done|done|by exists []]. destruct (xb_fallback b) as [[m p]|]; [|done]. split; [done|]. by exists m, p. Qed.
Lemma advance_trans b1 b2 b3 : advance b1 b2 -> advance b2 b3 -> advance b1 b3.
Proof.
  intros [P1 F1 T1 (C1 & M1 & K1) [l1 S1]] [P2 F2 T2 (C2 & M2 & K2) [l2 S2]]. split.
  - by eapply ledger_grown_trans.
  - destruct (xb_fallback b1) as [[m p]|]; [|done]. destruct F1 as (Hp & m' & p' & Hf & Hg). rewrite Hf in F2. destruct F2 as (Hp' & m'' & p'' & Hf' & Hg').
    split; [congruence|]. exists m'', p''. split; [done|by eapply ledger_grown_trans].
  - auto.
  - auto.
  - exists (l1 ++ l2). by rewrite S1, S2, app_assoc.
Qed.

(** ** The logic *)

Definition runs_to {A} (m : X A) (b : extractionBudget) (P : A -> extractionBudget -> Prop) : Prop :=
  budget_ok b -> budget_ok (m b).2 /\ advance b (m b).2 /\ match (m b).1 with Returned a => P a (m b).2 | Terminated _ => True | Panicked => False end.

Section Logic.
Context {A B : Type}.

Lemma runs_to_ret (a : A) b (P : A -> extractionBudget -> Prop) : P a b -> runs_to (xret a) b P.
Proof. intros Hp Hb. split; [done|]. split; [apply advance_refl|done]. Qed.
Lemma runs_get (f : extractionBudget -> A) b (P : A -> extractionBudget -> Prop) : P (f b) b -> runs_to (xget f) b P.
Proof. intros Hp Hb. split; [done|]. split; [apply advance_refl|done]. Qed.
Lemma runs_to_bind (m : X A) (k : A -> X B) b (Q : A -> extractionBudget -> Prop) (P : B -> extractionBudget -> Prop) :
  runs_to m b Q -> (forall a b', advance b b' -> Q a b' -> runs_to (k a) b' P) -> runs_to (xbind m k) b P.
Proof.
  intros Hm Hk Hb. destruct (Hm Hb) as (H1 & H2 & H3). unfold xbind. destruct (m b) as [[a|f|] b']; cbn [fst snd] in *; [|done|done].
  destruct (Hk a b' H2 H3 H1) as (H4 & H5 & H6). split; [done|]. split; [by eapply advance_trans|done].
Qed.
Lemma runs_to_weaken (m : X A) b (Q P : A -> extractionBudget -> Prop) : runs_to m b Q -> (forall a b', advance b b' -> Q a b' -> P a b') -> runs_to m b P.
Proof. intros Hm HQ Hb. destruct (Hm Hb) as (H1 & H2 & H3). split; [done|]. split; [done|]. destruct (m b).1; auto. Qed.
Lemma runs_mod (f : extractionBudget -> extractionBudget) b (P : unit -> extractionBudget -> Prop) :
  (budget_ok b -> budget_ok (f b) /\ advance b (f b)) -> P tt (f b) -> runs_to (xmod f) b P.
Proof. intros Hf Hp Hb. destruct (Hf Hb). done. Qed.
End Logic.

(** What work leaves as it was. *)
Definition steady (b b' : extractionBudget) : Prop :=
  xb_terminal b' = xb_terminal b /\ in_fallback b' = in_fallback b /\ xb_progress b' = xb_progress b /\ xb_retained b' = xb_retained b.
Lemma steady_refl b : steady b b.
Proof. done. Qed.
Lemma steady_trans b1 b2 b3 : steady b1 b2 -> steady b2 b3 -> steady b1 b3.
Proof. unfold steady. intros (? & ? & ? & ?) (? & ? & ? & ?). split_and!; congruence. Qed.
Definition calm {A} (m : X A) (Q : A -> Prop) : Prop := forall b, runs_to m b (λ a b', steady b b' /\ Q a).

Lemma calm_ret {A} (a : A) (Q : A -> Prop) : Q a -> calm (xret a) Q.
Proof. intros Hq b. apply runs_to_ret. split; [apply steady_refl|done]. Qed.
Lemma calm_get {A} (f : extractionBudget -> A) (Q : A -> Prop) : (forall b, Q (f b)) -> calm (xget f) Q.
Proof. intros Hq b. apply runs_get. split; [apply steady_refl|done]. Qed.
Lemma calm_bind {A B} (m : X A) (k : A -> X B) (R : A -> Prop) (Q : B -> Prop) : calm m R -> (forall a, R a -> calm (k a) Q) -> calm (xbind m k) Q.
Proof.
  intros Hm Hk b. eapply runs_to_bind; [apply Hm|]. intros a b1 _ [H1 Hr]. eapply runs_to_weaken; [apply (Hk a Hr)|]. intros c b2 _ [H2 Hq]. split; [by eapply steady_trans|done].
Qed.
Lemma calm_weaken {A} (m : X A) (R Q : A -> Prop) : calm m R -> (forall a, R a -> Q a) -> calm m Q.
Proof. intros Hm HQ b. eapply runs_to_weaken; [apply Hm|]. intros a b' _ [? ?]. auto. Qed.

(** ** Memory *)

Lemma on_ledger_keeps {A} (m : G A) (l : Memory) : keeps m -> memory_ok l ->
  memory_ok (on_ledger m l).2 /\ grown l (on_ledger m l).2 /\ (on_ledger m l).1 = (m (MkGuard (Some l) [])).1.
Proof.
  intros Hm Hl. specialize (Hm (MkGuard (Some l) []) Hl). unfold on_ledger. destruct (m _) as [e [[l'|] s]]; cbn [fst snd ledger] in *; destruct Hm as [H1 H2 H3 H4 H5 H6]; cbn in *.
  - split; [done|]. split; [split; [congruence|lia]|done].
  - split; [done|]. split; [apply ledger_grown_refl|done].
Qed.
Lemma Reserve_no_panic n l : 0 <= n -> (on_ledger (Reserve n) l).1 <> Panicked.
Proof.
  intros Hn. unfold on_ledger. rewrite Reserve_eq. destruct (Z.ltb_spec n 0); [lia|]. cbn [ledger]. destruct (exhausted l); [done|]. destruct (n <=? 0); [done|]. by destruct (too_large l n).
Qed.
Lemma set_allocation_ok m b : memory_ok m -> grown (allocationMemory b) m -> budget_ok b -> budget_ok (set_allocation m b) /\ advance b (set_allocation m b) /\ steady b (set_allocation m b).
Proof.
  intros Hm Hg [H1 H2 H3 H4]. unfold set_allocation, allocationMemory in *. destruct (xb_fallback b) as [[f p]|] eqn:E.
  - split; [by split|]. split; [|unfold steady, in_fallback; by rewrite E]. split; cbn; rewrite ?E; try done; [split; [done|]; by exists m, p|by exists []].
  - split; [by split|]. split; [|unfold steady, in_fallback; by rewrite E]. split; cbn; rewrite ?E; try done. by exists [].
Qed.
Lemma on_memory_calm {A} (m : G A) (Q : A -> Prop) : keeps m -> (forall l, memory_ok l -> match (on_ledger m l).1 with Returned a => Q a | Terminated _ => True | Panicked => False end) ->
  calm (on_memory m) Q.
Proof.
  intros Hk Hm b Hb. unfold on_memory. assert (Hl : memory_ok (allocationMemory b)).
  { destruct Hb as [H1 H2 _ _]. unfold allocationMemory. by destruct (xb_fallback b) as [[f p]|]. }
  destruct (on_ledger_keeps m _ Hk Hl) as (H1 & H2 & _). specialize (Hm _ Hl). destruct (on_ledger m (allocationMemory b)) as [e l]. cbn [fst snd] in *.
  destruct (set_allocation_ok l b H1 H2 Hb) as (H3 & H4 & H5). split; [done|]. split; [done|]. by destruct e.
Qed.
Lemma Reserve_calm n : 0 <= n -> calm (on_memory (Reserve n)) (λ _, True).
Proof.
  intros Hn. apply on_memory_calm; [apply closed_keeps; eauto with guard|]. intros l _. pose proof (Reserve_no_panic n l Hn). by destruct (on_ledger (Reserve n) l).1.
Qed.

Lemma run_demand_calm d : calm (run_demand d) (λ _, True).
Proof.
  destruct d as [[[]|]|n]; cbn [run_demand check_code]; [| |by apply calm_ret|apply Reserve_calm; lia];
    intros b Hb; split_and!; [done|apply advance_refl|done| done|apply advance_refl|done].
Qed.
Lemma run_demands_calm l : calm (run_demands l) (λ _, True).
Proof. induction l as [|d l IH]; [by apply calm_ret|]. cbn [run_demands]. eapply calm_bind; [apply run_demand_calm|]. intros _ _. apply IH. Qed.
Lemma next_demands_calm : calm next_demands (λ _, True).
Proof.
  intros b Hb. unfold next_demands. destruct (xb_schedule b) as [|l rest] eqn:E; (split; [|split]); try done; try apply advance_refl.
  - destruct Hb. by split.
  - split; cbn; [done| |done|done|by exists [l]]. destruct (xb_fallback b) as [[m p]|]; [|done]. split; [done|]. by exists m, p.
Qed.
Lemma work_calm : calm work (λ _, True).
Proof. eapply calm_bind; [apply next_demands_calm|]. intros l _. apply run_demands_calm. Qed.
Lemma fresh_calm s : calm (fresh_text s) (λ t, t_bytes t = s).
Proof.
  intros b Hb. unfold fresh_text. split; [destruct Hb; by split|]. split; [|done]. split; cbn; [done| |done|done|by exists []].
  destruct (xb_fallback b) as [[m p]|]; [|done]. split; [done|]. by exists m, p.
Qed.
Lemma bind_checkpoint_calm : calm (on_memory (BindCheckpoint 8)) (λ _, True).
Proof. unfold BindCheckpoint. apply Reserve_calm. by vm_compute. Qed.
Lemma set_bound_ok x y b : budget_ok b -> budget_ok (set_bound x y b) /\ advance b (set_bound x y b).
Proof.
  intros [? ? ? ?]. split; [by split|]. split; cbn; [done| |done|done|by exists []]. destruct (xb_fallback b) as [[m p]|]; [|done]. split; [done|]. by exists m, p.
Qed.
Lemma set_bound_calm f : calm (xmod (λ b, set_bound (f b).1 (f b).2 b)) (λ _, True).
Proof. intros b. apply runs_mod; [apply set_bound_ok|done]. Qed.
#[local] Hint Resolve work_calm : extract.

(** One step of calm work. *)
Ltac calm :=
  repeat first
    [ apply calm_ret; try done
    | eapply calm_bind; [apply work_calm|intros _ _]
    | eapply calm_bind; [apply fresh_calm|intros ? ?]
    | eapply calm_bind; [apply calm_get; intros ?; exact I|intros ? _] ].

(** ** Stages *)

(** A change that leaves the ledgers. *)
Lemma touch b b' : xb_primary b' = xb_primary b -> xb_fallback b' = xb_fallback b -> xb_schedule b' = xb_schedule b ->
  (terminated b = true -> terminated b' = true) ->
  (xb_cpuLimitExceeded b = true -> xb_cpuLimitExceeded b' = true) -> (xb_memoryLimitExceeded b = true -> xb_memoryLimitExceeded b' = true) ->
  (xb_fallbackMemoryExceeded b = true -> xb_fallbackMemoryExceeded b' = true) ->
  0 <= xp_parts (xb_progress b') <= maxMIMEParts -> content_ok (xb_retained b') -> budget_ok b -> budget_ok b' /\ advance b b'.
Proof.
  intros Hp Hf Hs Ht Hc Hm Hk Hparts Hr [H1 H2 _ _]. split; [split; rewrite ?Hp, ?Hf; done|]. split; rewrite ?Hp, ?Hf, ?Hs; [done| |done|done|by exists []].
  destruct (xb_fallback b) as [[m p]|]; [|done]. split; [done|]. by exists m, p.
Qed.
Lemma noteMemoryLimit_ok b : budget_ok b -> budget_ok (noteMemoryLimit b) /\ advance b (noteMemoryLimit b).
Proof. intros Hb. pose proof Hb as [? ? ? ?]. apply touch; unfold noteMemoryLimit; destruct (xb_memoryLimitExceeded b) eqn:E; done. Qed.
Lemma observeFallback_ok b : budget_ok b -> budget_ok (observeFallback b) /\ advance b (observeFallback b).
Proof.
  intros Hb. pose proof Hb as [? ? ? ?]. apply touch; unfold observeFallback; try done; destruct (xb_fallback b) as [[m p]|] eqn:Ef; try done; by destruct (exhausted m && _).
Qed.
Lemma steady_noteMemoryLimit b : steady b (noteMemoryLimit b).
Proof. unfold noteMemoryLimit. by destruct (xb_memoryLimitExceeded b). Qed.
Lemma steady_observeFallback b : steady b (observeFallback b).
Proof. unfold observeFallback. destruct (xb_fallback b) as [[m p]|]; [|done]. by destruct (exhausted m && _). Qed.

Definition noted (f : Failure) (fallback : bool) (b : extractionBudget) : extractionBudget :=
  match f_Code f with
  | CPUExceeded => set_exceeded true (xb_memoryLimitExceeded b) (xb_fallbackMemoryExceeded b) (xb_htmlParserPanicReported b) (cpu_exceeded fallback (xb_usage b)) b
  | MemoryExceeded => if fallback then observeFallback b else noteMemoryLimit b
  | _ => b
  end.
Lemma recordTermination_noted f fallback b : recordTermination f fallback b = if fallback || is_cancelled f then set_terminal f (noted f fallback b) else noted f fallback b.
Proof. done. Qed.
Lemma noted_ok f fallback b : budget_ok b -> budget_ok (noted f fallback b) /\ advance b (noted f fallback b).
Proof.
  intros Hb. unfold noted. destruct (f_Code f); [split; [done|apply advance_refl]| |destruct fallback; [by apply observeFallback_ok|by apply noteMemoryLimit_ok]|split; [done|apply advance_refl]].
  pose proof Hb as [? ? ? ?]. by apply touch.
Qed.
Lemma set_terminal_ok f b : budget_ok b -> budget_ok (set_terminal f b) /\ advance b (set_terminal f b).
Proof. intros Hb. pose proof Hb as [? ? ? ?]. by apply touch. Qed.
Lemma recordTermination_ok f fallback b : budget_ok b -> budget_ok (recordTermination f fallback b) /\ advance b (recordTermination f fallback b).
Proof.
  intros Hb. rewrite recordTermination_noted. destruct (noted_ok f fallback b Hb) as [H1 H2]. destruct (fallback || is_cancelled f); [|done].
  destruct (set_terminal_ok f _ H1) as [H3 H4]. split; [done|by eapply advance_trans].
Qed.

Section Stages.
Context (st : settings).

Lemma beginFallback_ok b : runs_to (beginFallback st) b (λ r b', (r = true -> terminated b' = false /\ in_fallback b' = true) /\ terminated b' = terminated b /\
  xb_progress b' = xb_progress b /\ xb_retained b' = xb_retained b).
Proof.
  intros Hb. unfold beginFallback. destruct (terminated b) eqn:Et; [split_and!; try done; apply advance_refl|].
  destruct (in_fallback b) eqn:Ef; [split_and!; try done; apply advance_refl|].
  destruct (xb_memoryLimitExceeded b && stopOnMemoryLimit st); [split_and!; try done; apply advance_refl|].
  unfold allow_fallback. destruct (match xb_cancelled b with [] => (false, []) | c :: rest => (c, rest) end) as [cancelled rest].
  set (refused := cancelled || _). destruct refused; cbn [negb fst snd].
  - split; [destruct Hb; by split|]. split; [|done]. unfold in_fallback in Ef. split; cbn; try done; [by destruct (xb_fallback b)|by exists []].
  - split; [destruct Hb; split; cbn; try done|]. 2: split; [|done].
    + unfold memory_ok, ledger_ok, NewMemory. cbn. lia.
    + unfold in_fallback in Ef. split; cbn; try done; [by destruct (xb_fallback b)|by exists []].
Qed.

Lemma attempt_ok {A} (w : X A) b P : (forall b', advance b b' -> steady b b' -> runs_to w b' P) ->
  runs_to (attemptExtraction w) b (λ r b', match r with inr a => P a b' | inl _ => True end).
Proof.
  intros Hw Hb. unfold attemptExtraction.
  assert (Hm : runs_to (bound_work w) b P).
  { eapply runs_to_bind; [apply (calm_get xb_stageStop (λ _, True)); done|]. intros bound b1 H1 [S1 _]. eapply runs_to_bind.
    - instantiate (1 := λ _ b', steady b1 b'). destruct bound; [by apply runs_to_ret|]. eapply runs_to_bind; [apply bind_checkpoint_calm|]. intros _ b2 _ [S2 _].
      apply runs_mod; [apply set_bound_ok|]. eapply steady_trans; [exact S2|done].
    - intros u b2 H2 S2. apply Hw; [by eapply advance_trans|by eapply steady_trans]. }
  destruct (Hm Hb) as (H1 & H2 & H3). destruct (bound_work w b) as [[a|f|] b']; cbn [fst snd] in *; done.
Qed.

Lemma runExtraction_ok {A} (w : X A) b P : (forall b', advance b b' -> terminated b' = false -> runs_to w b' P) ->
  runs_to (runExtraction st w) b (λ r b', match r with Some a => P a b' | None => terminated b' = true end).
Proof.
  intros Hw. unfold runExtraction. eapply runs_to_bind; [apply (runs_get terminated b (λ t b', t = terminated b')); done|]. intros stopped b1 H1 Es. cbn in Es. subst stopped.
  destruct (terminated b1) eqn:Et; [by apply runs_to_ret|].
  assert (Ha : forall b', advance b1 b' -> terminated b' = false -> runs_to (attemptExtraction w) b' (λ r b', match r with inr a => P a b' | inl _ => True end)).
  { intros b' H' Ht. apply attempt_ok. intros b2 H2 (St & _). apply Hw; [eapply advance_trans; [exact H1|]; by eapply advance_trans|].
    unfold terminated in *. by rewrite St. }
  eapply runs_to_bind; [apply Ha; [apply advance_refl|done]|]. intros [f|a] b2 H2 Hr.
  2: { eapply runs_to_bind; [by apply (runs_get in_fallback b2 (λ _ b', P a b'))|]. intros u b3 _ Hp. by apply runs_to_ret. }
  eapply runs_to_bind; [by apply (runs_get in_fallback b2 (λ x b', True))|]. intros fallback b3 H3 _. eapply runs_to_bind.
  { apply (runs_mod _ _ (λ _ b', fallback || is_cancelled f = true -> terminated b' = true)); [apply recordTermination_ok|]. rewrite recordTermination_noted. by intros ->. }
  intros u4 b4 H4 Hterm. eapply (runs_to_bind _ _ _ (λ r b', r = true -> terminated b' = false)).
  { destruct (fallback || is_cancelled f); [by apply runs_to_ret|]. eapply runs_to_weaken; [apply beginFallback_ok|]. intros r b' _ (Hr' & _) E. by apply Hr'. }
  intros admitted b5 H5 Hadm. destruct admitted; cbn [negb].
  2: { eapply runs_to_bind; [by apply (runs_mod _ _ (λ _ b', terminated b' = true)); [apply set_terminal_ok|]|]. intros u6 b6 _ Ht. by apply runs_to_ret. }
  eapply runs_to_bind; [apply Ha; [eauto using advance_trans|by apply Hadm]|]. intros [f'|a] b6 H6 Hr'; [|by apply runs_to_ret].
  eapply runs_to_bind; [by apply (runs_mod _ _ (λ _ b', terminated b' = true)); [apply recordTermination_ok|]|]. intros u7 b7 _ Ht. by apply runs_to_ret.
Qed.
End Stages.
