(* ===== verification/ExtractFacts.v ===== *)
(** * What extraction gives for each kind of entity

    Sound content from every operation, and nothing lost without a mark: when the
    extraction has ended, the content of the entity at hand says that it is
    incomplete. *)
From Stdlib Require Import QArith.
From S2P Require Import Prelude GoText Runes Thinking Rdap Message ResourceGuard ResourceGuardSpec PromptText PromptUrl AttachedText AttachedTextSpec HtmlText Extract ExtractMime ExtractSpec.
#[local] Open Scope Z_scope.
#[local] Open Scope extract_scope.

(** ** Content *)

Lemma spans_empty l : spans_ok [] l -> l = [].
Proof.
  intros [He _]. destruct l as [|s l]; [done|]. exfalso. inversion_clear He as [|? ? Hs _]. destruct Hs as [[H1 H2] [H3 H4] _ _]. cbn in H4. lia.
Qed.
(** Flags are no part of soundness. *)
Lemma marks_ok a b c d x : content_ok x -> content_ok (with_marks a b c d x).
Proof. by intros [? ? ? ? ?]. Qed.
Lemma limits_ok a b c d x : content_ok x -> content_ok (with_limits a b c d x).
Proof. by intros [? ? ? ? ?]. Qed.
Lemma quality_ok a b h x : content_ok x -> (h = false -> HasConcealedContent x = false) -> content_ok (with_quality a b h x).
Proof. intros [? ? ? ? ?] Hh. split; try done. cbn. auto. Qed.
Lemma no_content_ok : content_ok no_content.
Proof. split; try apply spans_nil; [by left|done]. Qed.
Lemma text_content_ok t : content_ok (text_content t).
Proof. split; try apply spans_nil; [by left|done]. Qed.
Lemma plain_content_ok t v s x : HasConcealedContent x = false -> Attachment x = false -> t_bytes s = [] \/ t_bytes s = t_bytes t -> content_ok (with_texts t v s [] [] [] x).
Proof. intros Hh Ha Hs. split; cbn; try apply spans_nil; [done|by rewrite Ha]. Qed.
#[local] Hint Resolve marks_ok limits_ok no_content_ok text_content_ok : extract.

Lemma flags_fold_ok parts : forall c, content_ok c -> content_ok (retainMIMEPartFlags parts c).
Proof.
  unfold retainMIMEPartFlags. induction parts as [|p parts IH]; intros c Hc; [done|]. cbn [fold_left]. apply IH, quality_ok; [done|]. by intros [? _]%orb_false_iff.
Qed.
Lemma retained_ok parts : Forall content_ok parts -> content_ok (retainedMIMEPart parts).
Proof.
  intros Hp. rewrite Forall_forall in Hp. unfold retainedMIMEPart. destruct (List.find hasExtractedContent (rev parts)) as [c|] eqn:E.
  - apply Hp. apply find_some in E as [E _]. apply in_rev in E. by apply list_elem_of_In.
  - destruct (last parts) as [c|] eqn:El; [|apply no_content_ok]. apply Hp. apply last_Some in El as [l ->]. set_solver.
Qed.

(** The content of an entity: sound, and marked when the extraction has ended. *)
Definition good (c : extractedContent) (b : extractionBudget) : Prop := content_ok c /\ (terminated b = true -> ExtractionIncomplete c = true).
Lemma good_marked c b : content_ok c -> ExtractionIncomplete c = true -> good c b.
Proof. done. Qed.
Lemma good_running c b : content_ok c -> terminated b = false -> good c b.
Proof. intros Hc Ht. split; [done|]. by rewrite Ht. Qed.
Lemma steady_running b b' : steady b b' -> terminated b = false -> terminated b' = false.
Proof. unfold terminated. by intros (-> & _). Qed.

(** ** Decoding *)

Ltac go :=
  repeat (cbv zeta; first
    [ apply calm_ret; done
    | eapply calm_bind; [apply work_calm|intros ? ?]
    | eapply calm_bind; [apply fresh_calm|intros ? ?]
    | eapply calm_bind; [apply calm_get; intros ?; exact I|intros ? ?]
    | match goal with
      | |- calm (if ?b then _ else _) _ => destruct b
      | |- calm (match ?p with (_, _) => _ end) _ => destruct p
      | |- calm (match ?o with Some _ => _ | None => _ end) _ => destruct o
      end ]).

Section Decoding.
Context {UT : UnicodeTables} {UR : UrlText} {UD : UrlDetails} {HL : HtmlLibrary} {HD : HeaderDecoder} {ML : MimeLibrary} (st : settings).

Lemma transfer_calm e d : calm (decodeTransferRecovering e d) (λ _, True).
Proof. unfold decodeTransferRecovering. go. Qed.
Lemma opaque_calm e d : calm (validateOpaqueTransfer e d) (λ _, True).
Proof. unfold validateOpaqueTransfer. go. Qed.
Lemma bounded_text_calm n v : calm (bounded_text n v) (λ _, True).
Proof. unfold bounded_text. go. eapply calm_bind; [|intros ? _; by apply calm_ret]. instantiate (1 := λ _, True). go. Qed.
Lemma charset_calm l d n : calm (decodeCharset l d n) (λ _, True).
Proof.
  unfold decodeCharset. cbv zeta. destruct (beq (trimSpace l) []); [apply bounded_text_calm|]. destruct (_ && _); [apply bounded_text_calm|].
  eapply calm_bind; [apply work_calm|]. intros ? _. destruct (charset_decode _ _ _); apply bounded_text_calm.
Qed.
Lemma html_charset_calm l d n : calm (decodeHTMLCharset l d n) (λ _, True).
Proof. unfold decodeHTMLCharset. go. Qed.
Lemma file_info_calm mt ps i : calm (fileAttachmentInfo mt ps i) (λ _, True).
Proof. unfold fileAttachmentInfo. go. Qed.
Lemma join_calm parts : calm (joinExtractedText parts LFLF) (λ t, t_bytes t = join LFLF (t_bytes <$> parts)).
Proof. unfold joinExtractedText. destruct parts as [|p [|q parts]]; [by apply calm_ret|by apply calm_ret|]. eapply calm_bind; [apply work_calm|intros _ _]. apply fresh_calm. Qed.

(** ** Attachments *)

(** A text that is one attachment from its first byte to its last. *)
Definition covered (tag : gostring) (t : text) (spans : list attachmentSpan) : Prop :=
  exists s rest, spans = s :: rest /\ sp_Start s = 0%nat /\ sp_End s = length (t_bytes t) /\ sp_Tag s = tag.
Definition wrapped (tag : gostring) (c : extractedContent) : Prop :=
  Attachment c = true /\ Links c = [] /\ covered tag (Text c) (TextAttachments c) /\ covered tag (VisibleText c) (VisibleAttachments c) /\ covered tag (StrippedText c) (StrippedAttachments c).

Lemma wrap_one_calm tag filename mt headers t spans : text_spans t spans ->
  calm (wrap_one tag (attachmentPrefix tag filename mt headers) t spans) (λ r, text_spans r.1 r.2 /\ covered tag r.1 r.2 /\ exists s, t_bytes r.1 = "<"%char :: s).
Proof.
  intros Hs. unfold wrap_one. eapply calm_bind; [apply work_calm|intros ? _]. pose proof (wrap_text_ok tag (attachmentPrefix tag filename mt headers) (t_bytes t) spans _ eq_refl Hs) as Hw.
  unfold wrap_text in *. eapply calm_bind; [apply fresh_calm|]. intros r Hr. apply calm_ret. cbn [fst snd]. unfold text_spans. rewrite Hr. split; [exact Hw|]. split.
  - unfold covered. rewrite Hr. by eexists _, _.
  - by eexists.
Qed.
Lemma wrap_work_calm c tag filename mt headers : content_ok c -> calm (wrap_work c tag filename mt headers) (λ c', content_ok c' /\ wrapped tag c').
Proof.
  intros [H1 H2 H3 H4 H5]. unfold wrap_work. eapply calm_bind; [apply work_calm|intros ? _]. eapply calm_bind; [by apply wrap_one_calm|]. intros text (T1 & T2 & T3).
  eapply (calm_bind _ _ (λ r, text_spans r.1 r.2 /\ covered tag r.1 r.2)).
  { destruct (sameStringStorage (Text c) (VisibleText c)); [by apply calm_ret|]. eapply calm_weaken; [by apply wrap_one_calm|]. by intros ? (? & ? & ?). }
  intros visible [V1 V2]. eapply (calm_bind _ _ (λ r, (text_spans r.1 r.2 /\ covered tag r.1 r.2) /\ (HasConcealedContent c = false -> r = text))).
  { destruct (HasConcealedContent c); [|by apply calm_ret]. eapply calm_weaken; [by apply wrap_one_calm|]. by intros ? (? & ? & ?). }
  intros strip ([S1 S2] & S3). eapply calm_bind; [apply work_calm|intros ? _]. apply calm_ret. split.
  - split; cbn; try done. intros Hh. rewrite (S3 Hh). by right.
  - done.
Qed.
Lemma marker_ok c tag : tag = attached_email \/ tag = attached_file -> content_ok (wrap_marker c tag) /\ wrapped tag (wrap_marker c tag) /\ ExtractionIncomplete (wrap_marker c tag) = true.
Proof.
  intros Ht. assert (Hm : (if beq tag attached_email then attached_email else attached_file) = tag) by (by destruct Ht as [-> | ->]). unfold wrap_marker. rewrite Hm.
  assert (Hs : text_spans (literal (incomplete_marker tag)) (incomplete_spans tag)) by (unfold text_spans; cbn; by apply incomplete_ok).
  split_and!; [|split_and!; try done; by eexists _, _|done]. split; cbn; try done; [by right|]. intros _. unfold incomplete_marker. by eexists.
Qed.
Lemma wrapAttachment_ok c tag filename mt headers b : tag = attached_email \/ tag = attached_file -> good c b ->
  runs_to (wrapAttachment st c tag filename mt headers) b (λ c' b', good c' b' /\ (st_omitAttachmentContext st = false -> wrapped tag c')).
Proof.
  intros Ht [Hc Hg]. unfold wrapAttachment. destruct (st_omitAttachmentContext st); [by apply runs_to_ret|]. eapply runs_to_bind.
  { apply (runExtraction_ok st _ _ (λ c' b', good c' b' /\ wrapped tag c')). intros b1 _ Hr. eapply runs_to_weaken; [by apply wrap_work_calm|].
    intros c' b2 _ (S & ? & ?). split; [|done]. apply good_running; [done|by eapply steady_running]. }
  intros r b1 _ Hr. apply runs_to_ret. destruct r as [c'|]; cbn [default]; [by destruct Hr|]. destruct (marker_ok c tag Ht) as (? & ? & ?). done.
Qed.
End Decoding.

(** ** HTML *)

(** What the budget of HTML leaves as it was. *)
Definition quiet (b b' : extractionBudget) : Prop :=
  xb_terminal b' = xb_terminal b /\ in_fallback b' = in_fallback b /\ xb_retained b' = xb_retained b.
Lemma quiet_trans b1 b2 b3 : quiet b1 b2 -> quiet b2 b3 -> quiet b1 b3.
Proof. unfold quiet. intros (? & ? & ?) (? & ? & ?). split_and!; congruence. Qed.
Lemma steady_quiet b b' : steady b b' -> quiet b b'.
Proof. by intros (? & ? & ? & ?). Qed.
Lemma quiet_running b b' : quiet b b' -> terminated b = false -> terminated b' = false.
Proof. unfold terminated. by intros (-> & _). Qed.

Lemma record_usage n l : memory_ok l -> memory_ok (on_ledger (RecordUsage n) l).2 /\ grown l (on_ledger (RecordUsage n) l).2.
Proof.
  intros Hl. unfold on_ledger, RecordUsage, gbind, get_ledger, set_ledger. cbn [ledger]. destruct (exhausted l || (n <=? 0)) eqn:E; [done|]. apply orb_false_iff in E as [_ E%Z.leb_gt].
  destruct (too_large l n) eqn:Et; cbn [snd ledger]; [done|]. apply too_large_false in Et. unfold memory_ok, ledger_ok, grown in *. cbn. lia.
Qed.
Lemma child_demands_ok l : forall m, memory_ok m -> memory_ok (child_demands l m).2 /\ (child_demands l m).1 <> Panicked.
Proof.
  induction l as [|d l IH]; intros m Hm; [done|]. destruct d as [[[]|]|n]; cbn [child_demands]; try done; [by apply IH|].
  destruct (on_ledger_keeps (Reserve (Z.of_N n)) m (closed_keeps _ (Reserve_closed _)) Hm) as (H1 & _ & _). pose proof (Reserve_no_panic (Z.of_N n) m ltac:(lia)) as Hp.
  destruct (on_ledger _ m) as [[u|f|] m']; cbn [fst snd] in *; [by apply IH|done|done].
Qed.
Lemma spend_primary l b : memory_ok l -> grown (xb_primary b) l -> in_fallback b = false -> budget_ok b ->
  budget_ok (set_memories l (xb_fallback b) b) /\ advance b (set_memories l (xb_fallback b) b) /\ quiet b (set_memories l (xb_fallback b) b).
Proof.
  intros Hl Hg Hf [? ? ? ?]. unfold in_fallback in Hf. destruct (xb_fallback b) as [[m p]|] eqn:E; [done|]. split; [by split|].
  split; [|unfold quiet, in_fallback; by rewrite E]. split; cbn; rewrite ?E; try done. by exists [].
Qed.
Lemma set_progress_ok p b : 0 <= xp_parts p <= maxMIMEParts -> budget_ok b -> budget_ok (set_progress p b) /\ advance b (set_progress p b).
Proof. intros Hp Hb. pose proof Hb as [? ? ? ?]. by apply touch. Qed.

Definition finishes (f : Memory -> extractionBudget -> extractionBudget) : Prop := forall m b, memory_ok m -> in_fallback b = false -> budget_ok b ->
  budget_ok (f m b) /\ advance b (f m b) /\ quiet b (f m b).
Lemma noteMemoryLimit_quiet b : quiet b (noteMemoryLimit b).
Proof. unfold noteMemoryLimit. by destruct (xb_memoryLimitExceeded b). Qed.
Lemma consumeMemory_finishes : finishes consumeMemory.
Proof.
  intros m b Hm Hf Hb. unfold consumeMemory. destruct (record_usage (used m) (xb_primary b) (bo_primary _ Hb)) as [H1 H2]. destruct (spend_primary _ b H1 H2 Hf Hb) as (B1 & A1 & Q1).
  destruct (exhausted m); [|done]. destruct (noteMemoryLimit_ok _ B1) as [B2 A2]. split; [done|]. split; [by eapply advance_trans|]. eapply quiet_trans; [exact Q1|apply noteMemoryLimit_quiet].
Qed.
Lemma consumeHTML_finishes css : finishes (λ m, consumeHTML css (used m) (exhausted m)).
Proof.
  intros m b Hm Hf Hb. unfold consumeHTML. set (b1 := if exhausted m then noteMemoryLimit b else b).
  assert (H1 : budget_ok b1 /\ advance b b1 /\ quiet b b1).
  { unfold b1. destruct (exhausted m); [|split; [done|]; split; [apply advance_refl|done]]. destruct (noteMemoryLimit_ok _ Hb). split; [done|]. split; [done|apply noteMemoryLimit_quiet]. }
  clearbody b1. destruct H1 as (B1 & A1 & Q1). match goal with |- context [set_progress ?p b1] => set (b2 := set_progress p b1) end.
  assert (H2 : budget_ok b2 /\ advance b1 b2) by (apply set_progress_ok; [apply (bo_parts _ B1)|done]). destruct H2 as [B2 A2].
  assert (Hf2 : in_fallback b2 = false) by (destruct Q1 as (_ & <- & _) in Hf; exact Hf).
  destruct (record_usage (used m) (xb_primary b2) (bo_primary _ B2)) as [R1 R2]. destruct (spend_primary _ b2 R1 R2 Hf2 B2) as (B3 & A3 & Q3).
  split; [done|]. split; [eauto using advance_trans|]. eapply quiet_trans; [exact Q1|exact Q3].
Qed.
Lemma with_child_ok {A} size f (r : A) b : finishes f -> in_fallback b = false -> runs_to (with_child size f r) b (λ a b', a = r /\ quiet b b').
Proof.
  intros Hf Hb. unfold with_child. eapply runs_to_bind; [apply next_demands_calm|]. intros l b1 _ [S1 _] B1.
  assert (Hm : memory_ok (NewMemory size)) by (unfold memory_ok, ledger_ok, NewMemory; cbn; lia).
  destruct (child_demands_ok l _ Hm) as [Hm' Hp]. destruct (child_demands l (NewMemory size)) as [e m]. cbn [fst snd] in *.
  assert (Hf1 : in_fallback b1 = false) by (destruct S1 as (_ & -> & _); done). destruct (Hf m b1 Hm' Hf1 B1) as (B2 & A2 & Q2).
  assert (Q : quiet b (f m b1)) by (eapply quiet_trans; [apply steady_quiet; exact S1|done]). destruct e; done.
Qed.

Section Html.
Context {UT : UnicodeTables} {UR : UrlText} {UD : UrlDetails} {HL : HtmlLibrary} {HD : HeaderDecoder} {ML : MimeLibrary} (st : settings).

Lemma set_prefix_ok s b : budget_ok b -> budget_ok (set_prefix s b) /\ advance b (set_prefix s b).
Proof.
  intros Hb. unfold set_prefix. destruct (xb_fallback b) as [[m p]|] eqn:E; [|split; [done|apply advance_refl]]. pose proof Hb as [? H2 ? ?]. rewrite E in H2. split; [by split|].
  split; cbn; rewrite ?E; try done; [|by exists []]. split; [done|]. by exists m, s.
Qed.
Lemma set_prefix_calm s : calm (xmod (set_prefix s)) (λ _, True).
Proof. intros b. apply runs_mod; [apply set_prefix_ok|]. split; [|done]. unfold set_prefix, steady, in_fallback. by destruct (xb_fallback b) as [[m p]|] eqn:E; rewrite ?E. Qed.
Lemma fallback_loop_calm failed tokens : forall s, calm (fallback_loop tokens failed s) (λ _, True).
Proof.
  induction tokens as [|t tokens IH]; intros s; cbn [fallback_loop]; (destruct (fallbackTextBytes <=? go_len (fb_text s)); [by apply calm_ret|]);
    (eapply calm_bind; [apply work_calm|intros ? _]; eapply calm_bind; [apply set_prefix_calm|intros ? _]; eapply calm_bind; [apply work_calm|intros ? _]); [by apply calm_ret|apply IH].
Qed.
Lemma bounded_fallback_calm source : calm (extractBoundedHTMLFallback st source) content_ok.
Proof.
  unfold extractBoundedHTMLFallback. eapply calm_bind; [apply work_calm|intros ? _]. destruct (html_tokens source) as [tokens failed].
  eapply calm_bind; [apply fallback_loop_calm|intros s _]. eapply calm_bind; [apply work_calm|intros ? _]. eapply calm_bind; [apply fresh_calm|intros t _]. apply calm_ret.
  split; cbn; try apply spans_nil; [by left|done].
Qed.
Lemma extractFallback_ok source b : runs_to (extractFallback st source) b good.
Proof.
  unfold extractFallback. eapply runs_to_bind; [apply beginFallback_ok|]. intros begun b1 _ _.
  eapply runs_to_bind; [apply (runs_get _ _ (λ _ _, True)); done|]. intros cpu b2 _ _. eapply runs_to_bind; [apply (runs_get _ _ (λ _ _, True)); done|]. intros memory b3 _ _.
  destruct begun; cbn [negb]. 2: { apply runs_to_ret, good_marked; [|done]. by apply limits_ok, marks_ok, no_content_ok. }
  eapply runs_to_bind; [apply set_prefix_calm|]. intros ? b4 _ _. eapply runs_to_bind.
  { apply (runExtraction_ok st _ _ good). intros b5 _ Hr. eapply runs_to_weaken; [apply bounded_fallback_calm|]. intros c b6 _ [S Hc]. apply good_running; [done|by eapply steady_running]. }
  intros r b5 _ Hr. eapply runs_to_bind; [apply (runs_get _ b5 (λ _ b', match r with Some c => good c b' | None => True end)); by destruct r|]. intros prefix b6 _ Hr6. cbv zeta.
  set (shown := if _ || _ then [] else prefix). eapply (runs_to_bind _ _ _ (λ _ b', match r with Some c => good c b' | None => True end)).
  { destruct r; [by apply runs_to_ret|]. eapply runs_to_weaken; [apply fresh_calm|]. done. }
  intros t b7 _ Hr7. set (content := match r with Some c => c | None => _ end).
  assert (Hc : good content b7) by (unfold content; destruct r as [c|]; [done|]; apply good_marked; [|done]; apply marks_ok, quality_ok; [apply text_content_ok|done]).
  clearbody content. eapply runs_to_bind; [apply (runs_mod _ _ (λ _ b', good content b')); [apply observeFallback_ok|]|].
  { destruct Hc as [H1 H2]. split; [done|]. unfold terminated. destruct (steady_observeFallback b7) as (-> & _). exact H2. }
  intros u b8 _ Hg. eapply runs_to_bind; [by apply (runs_get _ b8 (λ _ b', good content b'))|]. intros c1 b9 _ Hg9.
  eapply runs_to_bind; [by apply (runs_get _ b9 (λ _ b', good content b'))|]. intros c2 b10 _ [Hg1 Hg2]. apply runs_to_ret. split; [by apply limits_ok|done].
Qed.

Lemma extractTree_ok source limits b : in_fallback b = false -> terminated b = false -> runs_to (extractTreeHTMLWithLimits st source limits) b good.
Proof.
  intros Hf Ht. unfold extractTreeHTMLWithLimits, analyzeControlledHTML. eapply runs_to_bind; [apply with_child_ok; [apply consumeHTML_finishes|done]|]. intros doc b1 _ [_ Q1].
  eapply runs_to_bind; [apply work_calm|]. intros ? b2 _ [S2 _]. assert (Q2 : quiet b b2) by (eapply quiet_trans; [exact Q1|by apply steady_quiet]).
  destruct doc as [panicked|root unresolved css].
  - eapply (runs_to_bind _ _ _ (λ _ _, True)).
    { destruct panicked; [|by apply runs_to_ret]. apply runs_mod; [|done]. intros Hb. pose proof Hb as [? ? ? ?]. by apply touch. }
    intros ? b3 _ _. eapply runs_to_bind; [apply extractFallback_ok|]. intros c b4 _ [Hc _]. apply runs_to_ret, good_marked; [by apply marks_ok|done].
  - eapply runs_to_bind; [by apply (runs_get remainingMemory b2 (λ _ b', b' = b2))|]. intros remaining b3 _ ->. destruct Q2 as (Qt & Qf & Qr).
    eapply runs_to_bind; [apply with_child_ok; [apply consumeMemory_finishes|congruence]|]. intros r b3 _ [_ Q3]. cbv zeta.
    assert (Hr : terminated b3 = false) by (eapply quiet_running; [exact Q3|]; unfold terminated in *; by rewrite Qt).
    assert (Hc : calm (let* t := fresh_text (rh_text (tc_tagged r)) in let* v := fresh_text (rh_visible (tc_tagged r)) in let* s := fresh_text (tc_stripped r) in let* cpu := xget xb_cpuLimitExceeded in
      xret (MkContent false [] [] [] [] t v (if unresolved || css then 0 else tc_confident r) (if rh_hasConcealed (tc_tagged r) then s else no_text) (tc_links r) (tc_refs r) []
              false false false (tc_incomplete r) false cpu false false false (unresolved || css) (rh_hasConcealed (tc_tagged r)) (tc_comments r))) content_ok).
    { do 3 (eapply calm_bind; [apply fresh_calm|intros ? ?]). eapply calm_bind; [apply (calm_get _ (λ _, True)); done|intros ? _]. apply calm_ret.
      split; cbn; try apply spans_nil; [|done]. intros ->. by left. }
    eapply runs_to_weaken; [apply Hc|]. intros c b4 _ [S4 Hok]. apply good_running; [done|by eapply steady_running].
Qed.

Lemma htmlLimits_ok n b : in_fallback b = false -> terminated b = false -> runs_to (htmlLimits n) b (λ _ b', quiet b b').
Proof.
  intros Hf Ht. unfold htmlLimits. eapply runs_to_bind; [by apply (runs_get remainingMemory b (λ _ b', b' = b))|]. intros remaining b1 _ ->.
  eapply (runs_to_bind _ _ _ (λ _ b', quiet b b')).
  { destruct (remaining <=? 0); [|by apply runs_to_ret]. intros Hb. unfold on_primary.
    destruct (on_ledger_keeps (Reserve 1) (xb_primary b) (closed_keeps _ (Reserve_closed _)) (bo_primary _ Hb)) as (H1 & H2 & _). pose proof (Reserve_no_panic 1 (xb_primary b) ltac:(lia)) as Hp.
    destruct (on_ledger (Reserve 1) (xb_primary b)) as [e l]. cbn [fst snd] in *. destruct (spend_primary l b H1 H2 Hf Hb) as (B1 & A1 & Q1). split; [done|]. split; [done|]. by destruct e. }
  intros ? b1 _ Q1. eapply runs_to_bind; [by apply (runs_get xb_progress b1 (λ p b', p = xb_progress b' /\ quiet b b'))|]. intros p b2 _ [-> Q2].
  destruct (_ || _ || _); (eapply runs_to_bind; [apply (runs_mod _ _ (λ _ b', quiet b b')); [|done]; intros Hb; apply set_progress_ok; [apply (bo_parts _ Hb)|done]|]; intros ? b3 _ Q3; by apply runs_to_ret).
Qed.
Lemma htmlToText_ok source b : terminated b = false -> runs_to (htmlToTextWithBudget st source) b good.
Proof.
  intros Ht. unfold htmlToTextWithBudget. eapply runs_to_bind; [by apply (runs_get xb_progress b (λ p b', p = xb_progress b' /\ terminated b' = false))|]. intros p b1 _ [-> Ht1].
  eapply runs_to_bind; [apply (runs_mod _ _ (λ _ b', terminated b' = false)); [|done]; intros Hb; apply set_progress_ok; [apply (bo_parts _ Hb)|done]|]. intros ? b2 _ Ht2.
  eapply runs_to_bind; [apply work_calm|]. intros ? b3 _ [S3 _]. assert (Ht3 : terminated b3 = false) by (by eapply steady_running).
  eapply runs_to_bind; [by apply (runs_get in_fallback b3 (λ f b', f = in_fallback b' /\ b' = b3))|]. intros f b4 _ [-> ->].
  destruct (in_fallback b3) eqn:Ef; [apply extractFallback_ok|]. eapply runs_to_bind; [by apply htmlLimits_ok|]. intros [limits|] b4 _ Q4.
  - apply extractTree_ok; [destruct Q4 as (_ & -> & _); done|by eapply quiet_running].
  - eapply runs_to_bind; [apply extractFallback_ok|]. intros c b5 _ [Hc _]. apply runs_to_ret, good_marked; [by apply marks_ok|done].
Qed.

(** ** Plain text *)

Lemma extractPlain_ok charset data transfer b : terminated b = false -> runs_to (extractPlain st charset data transfer) b good.
Proof.
  intros Ht. unfold extractPlain. eapply runs_to_bind; [by apply (runs_get xb_progress b (λ _ b', terminated b' = false))|]. intros p b1 _ Ht1.
  eapply runs_to_bind; [apply charset_calm|]. intros [value complete] b2 _ [S2 _]. assert (Ht2 : terminated b2 = false) by (by eapply steady_running).
  eapply runs_to_bind; [by apply (runs_get xb_progress b2 (λ p b', p = xb_progress b' /\ terminated b' = false))|]. intros p2 b3 _ [-> Ht3].
  eapply runs_to_bind; [apply (runs_mod _ _ (λ _ b', terminated b' = false)); [|done]; intros Hb; apply set_progress_ok; [apply (bo_parts _ Hb)|done]|]. intros ? b4 _ Ht4.
  assert (Hc : forall m : X extractedContent, calm m content_ok -> runs_to m b4 good).
  { intros m Hm. eapply runs_to_weaken; [apply Hm|]. intros c b5 _ [S5 Hok]. apply good_running; [done|by eapply steady_running]. }
  apply Hc. eapply calm_bind; [apply work_calm|intros ? _]. destruct (rewritePlainTextURLs value _) as [shown links]. eapply calm_bind; [apply fresh_calm|intros visible _].
  eapply (calm_bind _ _ (λ _, True)); [destruct (beq shown value); [by apply calm_ret|eapply calm_weaken; [apply fresh_calm|done]]|intros t _].
  eapply calm_bind; [by apply (calm_get xb_countingStop (λ _, True))|intros bound _]. eapply (calm_bind _ _ (λ _, True)).
  { destruct (st_countConfidentText st); [|by apply calm_ret]. eapply calm_bind; [apply work_calm|intros ? _]. eapply (calm_bind _ _ (λ _, True)); [|intros ? _; apply work_calm].
    destruct bound; [by apply calm_ret|]. eapply calm_bind; [apply bind_checkpoint_calm|intros ? _]. apply (set_bound_calm (λ b, (xb_stageStop b, true))). }
  intros ? _. do 2 (eapply calm_bind; [apply (calm_get _ (λ _, True)); done|intros ? _]). apply calm_ret. split; cbn; try apply spans_nil; [by left|done].
Qed.
End Html.

(** ** Multiparts, and the content of a message

    The loop over the parts, the assembly of their texts with the offsets of the
    attachments, the choice among alternatives, entities within entities, and the
    message as a whole. *)

(** ** Text that begins with a tag is content *)

Lemma strip_keeps_last seqs c : Forall (λ q, c ∉ q) seqs -> forall fuel s, last s = Some c -> last (strip_go seqs fuel s) = Some c.
Proof.
  intros Hq. induction fuel as [|fuel IH]; intros s Hs; [done|]. cbn [strip_go]. destruct (strip_one seqs s) as [s'|] eqn:E; [|done]. apply IH.
  apply strip_one_Some in E as (q & Hin & ->). rewrite Forall_forall in Hq. specialize (Hq q Hin). rewrite last_app in Hs. destruct (last s') as [d|]; [done|].
  exfalso. apply Hq. apply last_Some in Hs as [l ->]. set_solver.
Qed.
Lemma tag_not_blank s : trimSpace ("<"%char :: s) <> [].
Proof.
  assert (H1 : Forall (λ q, "<"%char ∉ q) space_seqs_rev) by (apply (bool_decide_eq_true_1 (Forall (λ q, "<"%char ∉ q) space_seqs_rev)); by vm_compute).
  unfold trimSpace, trimLeftSpace. rewrite strip_go_id.
  - unfold trimRightSpace. intros H. apply (f_equal (@rev ascii)) in H. rewrite rev_involutive in H.
    pose proof (strip_keeps_last _ _ H1 (length ("<"%char :: s)) (rev ("<"%char :: s))) as Hl. rewrite H in Hl. cbn [rev last] in Hl. rewrite last_snoc in Hl. by specialize (Hl eq_refl).
  - unfold no_strip. apply Forall_forall. intros q Hin. assert (Hall : Forall (λ q, forall s, hasPrefix ("<"%char :: s) q = false) space_seqs).
    { unfold space_seqs, space_runes. repeat (constructor; [intros t; by vm_compute|]). constructor. }
    rewrite Forall_forall in Hall. by apply Hall.
Qed.
Lemma attachment_has_content c : content_ok c -> Attachment c = true -> hasExtractedContent c = true.
Proof.
  intros Hc Ha. destruct (ok_attachment _ Hc Ha) as [s Hs]. unfold hasExtractedContent. rewrite Hs. destruct (beq (trimSpace ("<"%char :: s)) []) eqn:E; [|done].
  apply beq_true in E. by apply tag_not_blank in E.
Qed.

(** ** Joining *)

Lemma join_snoc sep l x : l <> [] -> join sep (l ++ [x]) = join sep l ++ sep ++ x.
Proof.
  induction l as [|p l IH]; [done|]. intros _. destruct l as [|q l]; [done|]. change (join sep ((p :: q :: l) ++ [x])) with (p ++ sep ++ join sep ((q :: l) ++ [x])).
  rewrite IH by done. change (join sep (p :: q :: l)) with (p ++ sep ++ join sep (q :: l)). by rewrite <- !app_assoc.
Qed.
(** One more text with its spans: [offset] is the end of what is joined. *)
Definition joined (texts : list text) : gostring := join LFLF (t_bytes <$> texts).
Definition gap_of (texts : list text) : nat := match texts with [] => 0 | _ => 2 end.
Lemma joined_snoc texts t spans tspans :
  spans_ok (joined texts) spans -> text_spans t tspans ->
  spans_ok (joined (texts ++ [t])) (appendAttachmentSpans spans tspans (length (joined texts) + gap_of texts)) /\
  length (joined (texts ++ [t])) = (length (joined texts) + gap_of texts + length (t_bytes t))%nat.
Proof.
  intros Hs Ht. unfold joined. rewrite fmap_app. cbn [fmap list_fmap]. destruct texts as [|x texts].
  - cbn [fmap list_fmap app join gap_of length Nat.add]. pose proof (spans_join [] [] (t_bytes t) spans tspans Hs Ht) as Hj. done.
  - rewrite join_snoc by done. cbn [gap_of]. pose proof (spans_join (join LFLF (t_bytes <$> x :: texts)) LFLF (t_bytes t) spans tspans Hs Ht) as Hj. rewrite length_app in Hj.
    change (length LFLF) with 2%nat in Hj. split; [done|]. rewrite !length_app. change (length LFLF) with 2%nat. lia.
Qed.
Lemma same_storage_bytes a b : sameStringStorage a b = true -> t_bytes a = t_bytes b.
Proof. unfold sameStringStorage. by intros [?%beq_true _]%andb_true_iff. Qed.

Section Parts.
Context {UT : UnicodeTables} {UR : UrlText} {UD : UrlDetails} {HL : HtmlLibrary} {HD : HeaderDecoder} {ML : MimeLibrary} (st : settings).

(** ** The assembly *)

Record assembly_ok (a : assembly) : Prop := {
  ao_text : spans_ok (joined (asm_texts a)) (TextAttachments (asm_content a)) /\ asm_textOffset a = length (joined (asm_texts a));
  ao_visible : spans_ok (joined (asm_visible a)) (VisibleAttachments (asm_content a)) /\ asm_visibleOffset a = length (joined (asm_visible a));
  ao_stripped : spans_ok (joined (asm_stripped a)) (StrippedAttachments (asm_content a)) /\ asm_strippedOffset a = length (joined (asm_stripped a));
  ao_lengths : length (asm_visible a) = length (asm_texts a);
  ao_some : asm_texts a = [] -> asm_stripped a = [];
  ao_matches : asm_matches a = true -> t_bytes <$> asm_visible a = t_bytes <$> asm_texts a;
  ao_plain : Attachment (asm_content a) = false /\ Text (asm_content a) = no_text /\ VisibleText (asm_content a) = no_text /\ StrippedText (asm_content a) = no_text }.

Lemma part_stripped_spans p : content_ok p -> text_spans (part_stripped p) (if HasConcealedContent p then StrippedAttachments p else TextAttachments p).
Proof.
  intros [H1 H2 H3 H4 H5]. unfold part_stripped. destruct (HasConcealedContent p) eqn:Eh; cbn [negb]; [by rewrite andb_false_r|]. rewrite andb_true_r.
  destruct (beq (t_bytes (StrippedText p)) []) eqn:Eb; [done|]. destruct (H4 eq_refl) as [He|He]; [rewrite He in Eb; by vm_compute in Eb|]. unfold text_spans. by rewrite He.
Qed.
Lemma assemble_part_ok p a : content_ok p -> assembly_ok a -> assembly_ok (assemble_part p a).
Proof.
  intros Hp [[T1 T2] [V1 V2] [S1 S2] L N M P]. unfold assemble_part. destruct (hasExtractedContent p); cbn [negb]; [|by split].
  destruct (joined_snoc _ (Text p) _ _ T1 (ok_text _ Hp)) as [JT1 JT2]. destruct (joined_snoc _ (VisibleText p) _ _ V1 (ok_visible _ Hp)) as [JV1 JV2].
  destruct (joined_snoc _ (part_stripped p) _ _ S1 (part_stripped_spans p Hp)) as [JS1 JS2].
  assert (Hg : gap_of (asm_texts a) = gap_of (asm_visible a)) by (destruct (asm_texts a), (asm_visible a); done).
  split; cbn [asm_content asm_texts asm_visible asm_stripped asm_textOffset asm_visibleOffset asm_strippedOffset asm_matches TextAttachments VisibleAttachments StrippedAttachments Attachment Text VisibleText StrippedText add_flags].
  - fold (gap_of (asm_texts a)). rewrite T2. split; [done|]. by rewrite JT2.
  - fold (gap_of (asm_texts a)). rewrite Hg, V2. split; [done|]. by rewrite JV2.
  - fold (gap_of (asm_stripped a)). destruct (beq (t_bytes (part_stripped p)) []); cbn [negb]; [done|]. rewrite S2. split; [done|]. by rewrite JS2.
  - rewrite !length_app. cbn. lia.
  - intros [_ ?]%app_eq_nil. done.
  - intros [Hm Hs]%andb_true_iff. rewrite !fmap_app, M by done. cbn. by rewrite (same_storage_bytes _ _ Hs).
  - done.
Qed.
Lemma assemble_parts_calm parts : Forall content_ok parts -> forall a, assembly_ok a -> calm (assemble_parts parts a) assembly_ok.
Proof.
  induction 1 as [|p parts Hp _ IH]; intros a Ha; cbn [assemble_parts]; [by apply calm_ret|]. eapply calm_bind; [apply work_calm|intros ? _]. by apply IH, assemble_part_ok.
Qed.

(** The alternative is kept without parts only when retaining it has failed. *)
Definition plain_kept (m : multi) (parts : list extractedContent) : Prop := mu_stopped m = false -> parts = [] -> hasExtractedContent (mu_plain m) = false.
Lemma start_ok b : assembly_ok (MkAssembly no_content [] [] [] true 0 0 0 (new_collector b) (MkImageRefCollector [] 0)).
Proof. split; cbn; try (split; [apply spans_nil|done]); done. Qed.

Lemma joined_calm l : calm (joinExtractedText l LFLF) (λ t, t_bytes t = joined l).
Proof. apply join_calm. Qed.
Lemma finish_texts_calm m a : assembly_ok a -> calm (finish_texts m a) content_ok.
Proof.
  intros [[T1 T2] [V1 V2] [S1 S2] L N M (P1 & P2 & P3 & P4)]. unfold finish_texts. cbv zeta. eapply (calm_bind _ _ (λ t, t_bytes t = joined (asm_texts a))).
  { case_bool_decide as E; cbn [negb]; [|apply joined_calm]. rewrite P2, E. by apply calm_ret. }
  intros t Ht. destruct (negb _ || negb _) eqn:Es.
  - eapply (calm_bind _ _ (λ s, text_spans s (if HasConcealedContent (asm_content a) then StrippedAttachments (asm_content a) else TextAttachments (asm_content a)) /\ (HasConcealedContent (asm_content a) = false -> s = t))).
    { destruct (HasConcealedContent (asm_content a)); [|apply calm_ret; split; [unfold text_spans; by rewrite Ht|done]].
      eapply calm_weaken; [apply joined_calm|]. intros s Hs. split; [|done]. unfold text_spans. by rewrite Hs. }
    intros s [Hs Hst]. eapply calm_bind; [apply work_calm|intros ? _]. eapply (calm_bind _ _ (λ v, t_bytes v = joined (asm_visible a))).
    { destruct (asm_matches a) eqn:Em; [|apply joined_calm]. apply calm_ret. rewrite Ht. unfold joined. by rewrite M. }
    intros v Hv. apply calm_ret. split; cbn; try done; [unfold text_spans; by rewrite Ht|unfold text_spans; by rewrite Hv| |by rewrite P1].
    intros Hh. right. by rewrite (Hst Hh).
  - apply calm_ret. apply orb_false_iff in Es as [Es _]. apply negb_false_iff, bool_decide_eq_true in Es. rewrite Es in *. cbn in Ht.
    assert (TextAttachments (asm_content a) = []) as HT by (by apply spans_empty). assert (asm_visible a = []) as Ev by (by apply length_zero_iff_nil).
    assert (VisibleAttachments (asm_content a) = []) as HV by (apply spans_empty; by rewrite Ev in V1).
    rewrite (N eq_refl) in S1. rewrite P3, P4, HT, HV, (spans_empty _ S1).
    split; cbn; try apply spans_nil; [by left|by rewrite P1].
Qed.

Lemma found_ok l r c : content_ok c -> content_ok (with_found l r c).
Proof. by intros [? ? ? ? ?]. Qed.
Lemma assemble_texts_calm m parts : Forall content_ok parts -> content_ok (mu_plain m) -> plain_kept m parts -> calm (assemble_texts st m parts) (λ r, content_ok r.2).
Proof.
  intros Hp Hm Hk. unfold assemble_texts. cbv zeta. set (start := match parts with [] => _ | _ => _ end).
  assert (Hs : start = no_content \/ (parts = [] /\ start = mu_plain m /\ mu_stopped m = true)).
  { unfold start. destruct parts; [|by left]. destruct (hasExtractedContent (mu_plain m)) eqn:Eh; [|by left]. right. split_and!; [done..|].
    destruct (mu_stopped m) eqn:Es; [done|]. by rewrite (Hk Es eq_refl) in Eh. }
  clearbody start. destruct Hs as [-> |(-> & -> & Hst)].
  - eapply calm_bind; [apply assemble_parts_calm; [done|apply start_ok]|]. intros a Ha. eapply calm_bind; [by apply finish_texts_calm|]. intros c Hc. by apply calm_ret.
  - cbn [assemble_parts]. eapply (calm_bind _ _ (λ a, asm_texts a = [] /\ asm_content a = mu_plain m)); [by apply calm_ret|].
    intros a [Ha1 Ha2]. eapply (calm_bind _ _ content_ok); [|intros c Hc; by apply calm_ret]. unfold finish_texts. rewrite Ha1, Ha2. cbv zeta. rewrite bool_decide_eq_true_2 by done. cbn [negb orb].
    eapply (calm_bind _ _ (λ t, t = Text (mu_plain m))); [by apply calm_ret|]. intros t ->. rewrite Hst. cbn [negb]. apply calm_ret. by destruct Hm as [? ? ? ? ?].
Qed.
Lemma assemble_calm m parts transfer : Forall content_ok parts -> content_ok (mu_plain m) -> plain_kept m parts -> calm (assemble st m parts transfer) content_ok.
Proof.
  intros Hp Hm Hk. eapply calm_bind; [by apply assemble_texts_calm|]. intros [a c] Hok. do 2 (eapply calm_bind; [apply (calm_get _ (λ _, True)); done|intros ? _]). apply calm_ret.
  by apply limits_ok, marks_ok, found_ok.
Qed.
Lemma combine_ok m parts transfer b : Forall content_ok parts -> content_ok (mu_plain m) -> plain_kept m parts -> runs_to (combine_parts st m parts transfer) b good.
Proof.
  intros Hp Hm Hk. unfold combine_parts. eapply runs_to_bind.
  { apply (runExtraction_ok st _ _ good). intros b1 _ Ht. eapply runs_to_weaken; [by apply assemble_calm|]. intros c b2 _ [S Hc]. apply good_running; [done|by eapply steady_running]. }
  intros r b1 _ Hr. apply runs_to_ret. destruct r as [c|]; [done|]. apply good_marked; [|done]. by apply marks_ok, retained_ok.
Qed.

(** ** Alternatives *)

Record multi_ok (m : multi) : Prop := {
  mo_parts : Forall content_ok (mu_parts m);
  mo_html : content_ok (mu_html m);
  mo_plain : content_ok (mu_plain m);
  mo_kept : plain_kept m (mu_parts m);
  mo_attached : mu_stopped m = false -> mu_attachments m = true -> existsb Attachment (mu_parts m) = true }.

Lemma selected_ok m : multi_ok m -> content_ok (selected_alternative m).
Proof.
  intros [H1 H2 H3 _ _]. unfold selected_alternative. destruct (hasExtractedContent (mu_html m)); [done|]. destruct (hasExtractedContent (mu_plain m)); [done|].
  destruct (List.find _ (rev (mu_parts m))) as [c|] eqn:E; [|apply no_content_ok]. apply find_some in E as [E _]. apply in_rev in E. rewrite Forall_forall in H1. by apply H1, list_elem_of_In.
Qed.
Lemma select_parts_calm selected parts : content_ok selected -> Forall content_ok parts -> forall added,
  calm (select_parts selected added parts) (λ r, Forall content_ok r.1 /\ (existsb Attachment parts = true -> r.1 <> [])).
Proof.
  intros Hs. induction 1 as [|p parts Hp _ IH]; intros added; cbn [select_parts existsb]; [by apply calm_ret|]. destruct (Attachment p) eqn:Ea; cbn [orb].
  - eapply calm_bind; [apply work_calm|intros ? _]. eapply calm_bind; [apply IH|]. intros r [Hr _]. apply calm_ret. split; [by constructor|done].
  - destruct (_ && _); [|apply IH]. eapply calm_bind; [apply work_calm|intros ? _]. eapply calm_bind; [apply IH|]. intros r [Hr _]. apply calm_ret. split; [by constructor|done].
Qed.
Lemma finish_parts_ok mediaType transfer m b : multi_ok m -> runs_to (finish_multipart st mediaType transfer m) b good.
Proof.
  intros Hm. pose proof Hm as [H1 H2 H3 H4 H5]. unfold finish_multipart. eapply runs_to_bind; [by apply (runs_get terminated b (λ t b', t = terminated b' /\ b' = b))|]. intros t b1 _ [-> ->].
  destruct (terminated b) eqn:Et; [apply runs_to_ret, good_marked; [|done]; by apply marks_ok, flags_fold_ok, retained_ok|]. destruct (beq mediaType _); cbn [negb]; [|by apply combine_ok].
  do 2 (eapply runs_to_bind; [by apply (runs_get _ b (λ _ b', b' = b))|]; intros ? b' _ ->). cbv zeta.
  match goal with |- context [mark_cpu ?x ?c] => set (selected := mark_cpu x c) end. assert (Hs : content_ok selected) by (by apply limits_ok, marks_ok, selected_ok). clearbody selected.
  destruct (mu_attachments m) eqn:Ea; cbn [negb]; [|apply runs_to_ret; by apply good_running]. eapply runs_to_bind; [by apply select_parts_calm|]. intros [parts added] b1 _ (S1 & Hp & Hne). cbn [fst snd] in *.
  assert (Ht : terminated b1 = false) by (by eapply steady_running). destruct ((length parts <=? 1)%nat && added); [apply runs_to_ret; by apply good_running|]. apply combine_ok; [done|done|].
  intros Hst ->. by destruct (Hne (H5 Hst eq_refl)).
Qed.

(** ** The loop *)

Lemma no_multi_ok : multi_ok no_multi.
Proof. split; cbn; [constructor|apply no_content_ok|apply no_content_ok|by intros|done]. Qed.
Lemma stopped_ok m : Forall content_ok (mu_parts m) -> content_ok (mu_html m) -> content_ok (mu_plain m) -> multi_ok (set_stopped m).
Proof. intros H1 H2 H3. split; cbn; try done. Qed.

Lemma append_ok parts c b : Forall content_ok parts -> content_ok c ->
  runs_to (appendMIMEPart st parts c) b (λ r _, match r with Some l => l = parts ++ [c] | None => True end).
Proof.
  intros Hp Hc. unfold appendMIMEPart. eapply runs_to_weaken.
  - apply (runExtraction_ok st _ _ (λ l _, l = parts ++ [c])). intros b1 _ _. eapply runs_to_bind; [apply work_calm|]. intros ? b2 _ _. by apply runs_to_ret.
  - intros [l|] b1 _ Hr; done.
Qed.
Lemma exists_snoc (l : list extractedContent) c : existsb Attachment (l ++ [c]) = existsb Attachment l || Attachment c.
Proof. rewrite existsb_app. cbn. by rewrite orb_false_r. Qed.

Lemma appended_ok failed c m : multi_ok m -> content_ok c -> multi_ok (set_parts (mu_parts m ++ [c]) (note_part failed c m)).
Proof.
  intros [H1 H2 H3 H4 H5] Hc. split; cbn; [apply Forall_app; split; [done|by constructor]|done|done| |].
  - intros _ Hn. by apply app_eq_nil in Hn as [_ ?].
  - intros Hs Ha. rewrite exists_snoc. apply orb_true_iff in Ha as [Ha|Ha]; [by rewrite H5|rewrite Ha; apply orb_true_r].
Qed.
Lemma skipped_ok failed c m : multi_ok m -> Attachment c = false -> multi_ok (note_part failed c m).
Proof. intros [H1 H2 H3 H4 H5] Ha. split; cbn; try done. by rewrite Ha, orb_false_r. Qed.
Lemma alternatives_ok h p m : multi_ok m -> content_ok h -> content_ok p -> (mu_parts m <> [] \/ mu_stopped m = true) -> multi_ok (set_alternatives h p m).
Proof. intros [H1 H2 H3 H4 H5] Hh Hp Hn. split; cbn; try done. intros Hs He. cbn in *. destruct Hn as [?|?]; congruence. Qed.

Lemma part_extracted_ok mediaType partType c failed m b : multi_ok m -> content_ok c ->
  runs_to (part_extracted st mediaType partType c (note_part failed c m)) b (λ r b', match r with inl c => good c b' | inr (m, _) => multi_ok m end).
Proof.
  intros Hm Hc. pose proof Hm as [H1 H2 H3 _ _]. unfold part_extracted. eapply runs_to_bind; [by apply (runs_get terminated b (λ t b', True))|]. intros t b1 _ _.
  destruct t. { apply runs_to_ret, good_marked; [|done]. apply marks_ok, flags_fold_ok. destruct (hasExtractedContent c); [done|by apply retained_ok]. }
  destruct (hasExtractedContent c) eqn:Ec; cbn [negb].
  - eapply runs_to_bind; [by apply append_ok|]. intros [l|] b2 _ Hl; cbn in Hl.
    + subst l. pose proof (appended_ok failed c m Hm Hc) as Hok. destruct (_ && _); [|by apply runs_to_ret]. eapply runs_to_bind; [apply work_calm|]. intros ? b3 _ _. apply runs_to_ret.
      assert (Hne : mu_parts (set_parts (mu_parts m ++ [c]) (note_part failed c m)) <> []) by (cbn; by intros [_ ?]%app_eq_nil).
      destruct (HTML c); [apply alternatives_ok; auto|]. destruct (beq _ _); [apply alternatives_ok; auto|done].
    + apply runs_to_ret. assert (Hst : multi_ok (set_stopped (note_part failed c m))) by (by apply stopped_ok). cbn [note_part mu_parts]. destruct (mu_parts m); [|done]. apply alternatives_ok; auto.
  - assert (Ha : Attachment c = false) by (destruct (Attachment c) eqn:Ea; [by rewrite (attachment_has_content c Hc Ea) in Ec|done]).
    destruct (beq mediaType _); [apply runs_to_ret; by apply skipped_ok|]. eapply runs_to_bind; [by apply append_ok|]. intros [l|] b2 _ Hl; cbn in Hl; apply runs_to_ret; [subst l; by apply appended_ok|by apply stopped_ok].
Qed.

Definition rec_ok (rec : extractor) (depth : Z) : Prop := forall contentType encoding contentID data info b, runs_to (rec contentType encoding contentID data depth info) b good.
Lemma set_retained_ok c b : content_ok c -> budget_ok b -> budget_ok (set_retained c b) /\ advance b (set_retained c b).
Proof. intros Hc Hb. pose proof Hb as [? ? ? ?]. by apply touch. Qed.

Lemma takePart_ok b : budget_ok b -> budget_ok (takePart b) /\ advance b (takePart b).
Proof.
  intros Hb. unfold takePart. cbv zeta. destruct (Z.leb_spec maxMIMEParts (xp_parts (xb_progress b))); [split; [done|apply advance_refl]|].
  apply set_progress_ok; [|done]. cbn. pose proof (bo_parts _ Hb). lia.
Qed.

Lemma parts_loop_ok rec mediaType depth eof rest : rec_ok rec (depth + 1) -> forall m b, multi_ok m ->
  runs_to (parts_loop st rec mediaType depth eof rest m) b (λ r b', match r with inl c => good c b' | inr m => multi_ok m end).
Proof.
  intros Hrec. induction rest as [|part rest IH]; intros m b Hm; cbn [parts_loop];
    (eapply runs_to_bind; [by apply (runs_get (λ b, xp_parts (xb_progress b)) b (λ _ b', b' = b))|]; intros taken b1 _ ->;
     destruct (maxMIMEParts <=? taken); [apply runs_to_ret; destruct Hm; by split|]; unfold readRestartableMIMEPart).
  - eapply runs_to_bind; [apply (runExtraction_ok st _ _ (λ _ _, True)); intros b1 _ _; eapply runs_to_bind; [apply work_calm|]; intros ? ? _ _; by apply runs_to_ret|].
    intros [read|] b1 _ _; apply runs_to_ret; [destruct eof; [done|destruct Hm; by split]|destruct Hm; by apply stopped_ok].
  - eapply runs_to_bind; [apply (runExtraction_ok st _ _ (λ _ _, True)); intros b1 _ _; eapply runs_to_bind; [apply work_calm|]; intros ? ? _ _; by apply runs_to_ret|].
    intros [read|] b1 _ Hread; [|apply runs_to_ret; destruct Hm; by apply stopped_ok].
    eapply runs_to_bind; [apply (runs_mod _ _ (λ _ _, True)); [apply takePart_ok|done]|]. intros ? b2 _ _. cbv zeta.
    eapply runs_to_bind; [apply Hrec|]. intros c b3 _ [Hc _]. eapply (runs_to_bind _ _ _ (λ _ _, True)); [destruct (hasExtractedContent c); [apply runs_mod; [by apply set_retained_ok|done]|by apply runs_to_ret]|]. intros ? b4 _ _.
    eapply runs_to_bind; [by apply part_extracted_ok|]. intros [r|[m' []]] b5 _ Hr; [by apply runs_to_ret|by apply IH|by apply runs_to_ret].
Qed.

(** ** Entities *)

Lemma runs_assume {A} (m : X A) b P : (budget_ok b -> runs_to m b P) -> runs_to m b P.
Proof. intros H Hb. by apply H. Qed.
Lemma calm_good (m : X extractedContent) b : terminated b = false -> calm m content_ok -> runs_to m b good.
Proof. intros Ht Hm. eapply runs_to_weaken; [apply Hm|]. intros c b' _ [S Hc]. apply good_running; [done|by eapply steady_running]. Qed.

Lemma attached_ok rec data depth filename b : rec_ok rec (depth + 1) -> terminated b = false ->
  runs_to (extractAttachedMessage st rec data depth filename) b (λ c b', good c b' /\ (st_omitAttachmentContext st = false -> wrapped attached_email c)).
Proof.
  intros Hrec Ht. unfold extractAttachedMessage. eapply runs_to_bind; [apply work_calm|]. intros u b1 _ [S1 _]. destruct (parseAttachedMessage _ data) as [a|].
  - eapply runs_to_bind; [apply Hrec|]. intros c b2 _ Hc. apply wrapAttachment_ok; [by left|done].
  - apply wrapAttachment_ok; [by left|]. apply good_running; [|by eapply steady_running]. apply marks_ok. apply plain_content_ok; [done..|by left].
Qed.
Lemma wrap_file_ok isFile c filename mediaType b : good c b -> runs_to (wrap_file st isFile c filename mediaType) b good.
Proof.
  intros Hc. unfold wrap_file. destruct isFile; [|by apply runs_to_ret]. eapply runs_to_weaken; [apply wrapAttachment_ok; [by right|done]|]. by intros ? ? _ [? _].
Qed.
Lemma multipart_ok rec mediaType params decoded transfer depth b : rec_ok rec (depth + 1) -> terminated b = false ->
  let boundary := param params (lit "boundary") in
  runs_to (if beq boundary [] then xret (with_marks true transfer false false (text_content (literal (lit "[multipart message has no boundary]"))))
    else
      work ;*
      let '(parts, eof) := multipart_read boundary (multipartBodyFromFirstBoundary decoded boundary) in
      let* r := parts_loop st rec mediaType depth eof parts no_multi in
      match r with inl c => xret c | inr m => finish_multipart st mediaType transfer m end) b good.
Proof.
  intros Hrec Ht boundary. destruct (beq boundary []); [apply runs_to_ret, good_running; [by apply marks_ok, text_content_ok|done]|]. eapply runs_to_bind; [apply work_calm|]. intros ? b1 _ [S1 _].
  destruct (multipart_read _ _) as [parts eof]. eapply runs_to_bind; [apply parts_loop_ok; [done|apply no_multi_ok]|]. intros [c|m] b2 _ Hr; [by apply runs_to_ret|by apply finish_parts_ok].
Qed.
Lemma extract_decoded_ok rec mediaType params contentID decoded transfer isFile filename depth b : rec_ok rec (depth + 1) -> terminated b = false ->
  runs_to (extract_decoded st rec mediaType params contentID decoded transfer isFile filename depth) b good.
Proof.
  intros Hrec Ht. unfold extract_decoded. destruct (hasPrefix mediaType _); [by apply multipart_ok|]. destruct (beq mediaType (lit "message/rfc822")).
  { eapply runs_to_bind; [by apply attached_ok|]. intros c b1 _ [[Hc Hg] _]. apply runs_to_ret. split; [by apply marks_ok|done]. }
  destruct (negb _ && negb _).
  { apply calm_good; [done|]. eapply calm_bind; [apply fresh_calm|]. intros t _. apply calm_ret. split; cbn; try apply spans_nil; [by left|done]. }
  destruct (beq mediaType (lit "text/html")).
  - eapply runs_to_bind; [by apply (runs_get xb_progress b (λ _ b', terminated b' = false))|]. intros p b1 _ Ht1. eapply runs_to_bind; [apply html_charset_calm|]. intros source b2 _ [S2 _].
    eapply runs_to_bind; [apply htmlToText_ok; by eapply steady_running|]. intros c b3 _ [Hc Hg]. apply wrap_file_ok. split; [by apply marks_ok|done].
  - eapply runs_to_bind; [by apply extractPlain_ok|]. intros c b1 _ Hg. by apply wrap_file_ok.
Qed.

Lemma once_ok rec contentType encoding contentID data depth info b : (depth <= 8 -> rec_ok rec (depth + 1)) -> terminated b = false ->
  runs_to (extractMIMEOnce st rec contentType encoding contentID data depth info) b good.
Proof.
  intros Hrec Ht. unfold extractMIMEOnce. destruct (Z.ltb_spec 8 depth) as [|Hd]; [apply runs_to_ret, good_running; [by apply marks_ok, text_content_ok|done]|]. specialize (Hrec Hd).
  eapply runs_to_bind; [apply work_calm|]. intros ? b1 _ [S1 _]. destruct (media_type contentType) as [[parsed params] failed]. cbv zeta. set (mediaType := toLower _).
  eapply runs_to_bind; [apply file_info_calm|]. intros file b2 _ [S2 _]. assert (Ht2 : terminated b2 = false) by eauto using steady_running. destruct (opaque_type st mediaType).
  - apply calm_good; [done|]. eapply calm_bind; [apply opaque_calm|intros ? _]. eapply calm_bind; [apply fresh_calm|intros ? _]. eapply calm_bind; [apply (calm_get _ (λ _, True)); done|intros ? _].
    apply calm_ret. by apply limits_ok, marks_ok, text_content_ok.
  - eapply runs_to_bind; [apply transfer_calm|]. intros d b3 _ [S3 _]. apply extract_decoded_ok; [done|by eapply steady_running].
Qed.
Lemma note_limits_ok c b : good c b -> runs_to (note_limits c) b good.
Proof.
  intros [Hc Hg]. unfold note_limits. do 3 (eapply runs_to_bind; [by apply (runs_get _ b (λ _ b', b' = b))|]; intros ? b' _ ->). apply runs_to_ret. split; [by apply limits_ok|done].
Qed.
Lemma entity_ok rec depth : (depth <= 8 -> rec_ok rec (depth + 1)) -> rec_ok (extract_entity st rec) depth.
Proof.
  intros Hrec contentType encoding contentID data info b. unfold extract_entity. apply runs_assume. intros Hb. pose proof (bo_retained _ Hb) as Hr. pose proof (bo_parts _ Hb) as Hp.
  eapply runs_to_bind; [by apply (runs_get xb_retained b (λ c b', c = xb_retained b /\ b' = b))|]. intros outer b1 _ [-> ->].
  eapply runs_to_bind; [apply (runs_mod _ _ (λ _ b', xb_progress b' = xb_progress b)); [by apply set_retained_ok, no_content_ok|done]|]. intros ? b2 _ E2. cbn in E2.
  eapply runs_to_bind; [by apply (runs_get xb_progress b2 (λ p _, p = xb_progress b))|]. intros progress b3 _ ->.
  eapply runs_to_bind; [apply (runExtraction_ok st _ _ good)|].
  { intros b4 _ Ht. eapply runs_to_bind; [apply (runs_mod _ _ (λ _ b', terminated b' = false)); [by apply set_progress_ok|done]|]. intros ? b5 _ Ht5. by apply once_ok. }
  intros r b4 _ Hres. eapply runs_to_bind; [apply (runs_get xb_retained b4 (λ c b', c = xb_retained b4 /\ b' = b4)); done|]. intros retained b5 _ [-> ->].
  apply runs_assume. intros Hb4. pose proof (bo_retained _ Hb4) as Hr4. set (c := match r with Some c => c | None => _ end).
  assert (Hg : good c b4) by (unfold c; destruct r; [done|]; apply good_marked; [by apply marks_ok|done]). clearbody c.
  eapply runs_to_bind; [apply (runs_mod _ _ (λ _ b', good c b')); [by apply set_retained_ok|done]|]. intros ? b6 _ Hg6. by apply note_limits_ok.
Qed.
(** The fuel is enough: an entity at depth nine is not read. *)
Lemma extract_ok fuel : forall depth, depth <= 9 -> 10 - depth <= Z.of_nat fuel -> rec_ok (extractMIMEWithBudget st fuel) depth.
Proof.
  induction fuel as [|fuel IH]; intros depth Hd Hf; [lia|]. cbn [extractMIMEWithBudget]. apply entity_ok. intros Hd8. apply IH; lia.
Qed.
End Parts.
