(* ===== verification/ExtractProps.v ===== *)
(** * Properties of extraction

    An extraction always ends with content, within its limits; it moves forward
    only; what is lost is reported; the offsets of attachments are true; and the
    text of an attached message is never shown outside its tags. *)
From Stdlib Require Import QArith.
From S2P Require Import Prelude GoText Runes Thinking Rdap Message ResourceGuard ResourceGuardSpec PromptText PromptUrl AttachedText AttachedTextSpec HtmlText Extract ExtractMime ExtractSpec ExtractFacts.
#[local] Open Scope Z_scope.
#[local] Open Scope extract_scope.

(** ** Variables of the extraction *)

(** Work that leaves the retained part and the content of the message alone, however
    it ends. *)
Definition inert {A} (m : X A) : Prop := forall b, xb_retained (m b).2 = xb_retained b /\ xb_content (m b).2 = xb_content b.
Lemma inert_ret {A} (a : A) : inert (xret a).
Proof. done. Qed.
Lemma inert_get {A} (f : extractionBudget -> A) : inert (xget f).
Proof. done. Qed.
Lemma inert_bind {A B} (m : X A) (k : A -> X B) : inert m -> (forall a, inert (k a)) -> inert (xbind m k).
Proof.
  intros Hm Hk b. specialize (Hm b). unfold xbind. destruct (m b) as [[a|f|] b']; cbn [fst snd] in *; try done. destruct (Hk a b') as [-> ->]. done.
Qed.
Lemma inert_memory {A} (m : G A) : inert (on_memory m).
Proof. intros b. unfold on_memory. destruct (on_ledger m _) as [e l]. cbn. unfold set_allocation. by destruct (xb_fallback b) as [[? ?]|]. Qed.
Lemma inert_demands l : inert (run_demands l).
Proof. induction l as [|d l IH]; [done|]. cbn [run_demands]. apply inert_bind; [|done]. destruct d as [[[]|]|n]; [done..|apply inert_memory]. Qed.
Lemma inert_work : inert work.
Proof. apply inert_bind; [|apply inert_demands]. intros b. unfold next_demands. by destruct (xb_schedule b). Qed.
Lemma inert_fresh s : inert (fresh_text s).
Proof. done. Qed.
Lemma inert_mod f : (forall b, xb_retained (f b) = xb_retained b /\ xb_content (f b) = xb_content b) -> inert (xmod f).
Proof. intros Hf b. apply Hf. Qed.
#[local] Hint Resolve inert_ret inert_get inert_memory inert_work inert_fresh : extract.
Ltac inert_tac :=
  repeat (cbv zeta; first
    [ solve [eauto with extract]
    | apply inert_bind; [|intros ?]
    | match goal with
      | |- inert (if ?b then _ else _) => destruct b
      | |- inert (match ?p with (_, _) => _ end) => destruct p
      | |- inert (match ?o with Some _ => _ | None => _ end) => destruct o
      end ]).

(** An invariant of the two variables. *)
Definition stable (I : extractionBudget -> Prop) : Prop := forall b b', xb_retained b' = xb_retained b -> xb_content b' = xb_content b -> I b -> I b'.
Definition preserves {A} (I : extractionBudget -> Prop) (m : X A) : Prop := forall b, I b -> (m b).1 = Panicked \/ I (m b).2.
Lemma inert_preserves {A} I (m : X A) : stable I -> inert m -> preserves I m.
Proof. intros Hi Hm b Hb. right. destruct (Hm b). by apply (Hi b). Qed.
Lemma preserves_bind {A B} I (m : X A) (k : A -> X B) : preserves I m -> (forall a, preserves I (k a)) -> preserves I (xbind m k).
Proof.
  intros Hm Hk b Hb. specialize (Hm b Hb). unfold xbind. destruct (m b) as [[a|f|] b']; cbn [fst snd] in *; [|destruct Hm; [done|by right]|by left].
  destruct Hm as [|Hb']; [done|]. by apply Hk.
Qed.
Lemma beginFallback_inert st : inert (beginFallback st).
Proof.
  intros b. unfold beginFallback. destruct (terminated b); [done|]. destruct (in_fallback b); [done|]. destruct (_ && _); [done|]. unfold allow_fallback.
  destruct (match xb_cancelled b with [] => (false, []) | c :: rest => (c, rest) end) as [cancelled rest]. by destruct (negb (cancelled || _)).
Qed.
Lemma recordTermination_inert f fallback b : xb_retained (recordTermination f fallback b) = xb_retained b /\ xb_content (recordTermination f fallback b) = xb_content b.
Proof.
  rewrite recordTermination_noted. assert (H : xb_retained (noted f fallback b) = xb_retained b /\ xb_content (noted f fallback b) = xb_content b).
  { unfold noted. destruct (f_Code f); try done. destruct fallback; [unfold observeFallback|unfold noteMemoryLimit].
    - destruct (xb_fallback b) as [[m p]|]; [|done]. by destruct (exhausted m && _).
    - by destruct (xb_memoryLimitExceeded b). }
  by destruct (fallback || is_cancelled f).
Qed.
Lemma runExtraction_preserves {A} st I (w : X A) : stable I -> preserves I w -> preserves I (runExtraction st w).
Proof.
  intros Hi Hw. assert (Ha : preserves I (attemptExtraction w)).
  { intros b Hb. unfold attemptExtraction. assert (Hbw : preserves I (bound_work w)).
    { apply preserves_bind; [by apply inert_preserves|]. intros bound. apply preserves_bind; [|done]. apply inert_preserves; [done|]. destruct bound; [done|]. apply inert_bind; [apply inert_memory|done]. }
    specialize (Hbw b Hb). destruct (bound_work w b) as [[a|f|] b']; cbn in *; [destruct Hbw; [done|by right]..|by left]. }
  unfold runExtraction. apply preserves_bind; [by apply inert_preserves|]. intros stopped. destruct stopped; [by apply inert_preserves|]. apply preserves_bind; [done|]. intros r.
  apply preserves_bind; [by apply inert_preserves|]. intros fallback. destruct r as [f|a]; [|by apply inert_preserves].
  apply preserves_bind; [apply inert_preserves; [done|]; apply inert_mod; apply recordTermination_inert|]. intros u. apply preserves_bind.
  { apply inert_preserves; [done|]. destruct (fallback || is_cancelled f); [done|apply beginFallback_inert]. }
  intros admitted. destruct (negb admitted); [by apply inert_preserves|]. apply preserves_bind; [done|]. intros [f'|a]; [|by apply inert_preserves].
  apply inert_preserves; [done|]. apply inert_bind; [|done]. apply inert_mod; apply recordTermination_inert.
Qed.

(** A stage catches what ends it. *)
Definition caught {A} (m : X A) : Prop := forall b f, (m b).1 <> Terminated f.
Lemma caught_bind {A B} (m : X A) (k : A -> X B) : caught m -> (forall a, caught (k a)) -> caught (xbind m k).
Proof. intros Hm Hk b f. specialize (Hm b). unfold xbind. destruct (m b) as [[a|f'|] b']; cbn in *; [apply Hk|by specialize (Hm f')|done]. Qed.
Lemma runExtraction_caught {A} st (w : X A) : caught (runExtraction st w).
Proof.
  assert (Ha : caught (attemptExtraction w)) by (intros b f; unfold attemptExtraction; by destruct (bound_work w b) as [[a|f'|] b']).
  unfold runExtraction. apply caught_bind; [done|]. intros stopped. destruct stopped; [done|]. apply caught_bind; [done|]. intros r. apply caught_bind; [done|]. intros fallback.
  destruct r as [f|a]; [|done]. apply caught_bind; [done|]. intros u. apply caught_bind.
  { destruct (fallback || is_cancelled f); [done|]. intros b f'. unfold beginFallback. destruct (terminated b); [done|]. destruct (in_fallback b); [done|]. destruct (_ && _); [done|]. unfold allow_fallback.
    destruct (match xb_cancelled b with [] => (false, []) | c :: rest => (c, rest) end) as [cancelled rest]. by destruct (negb (cancelled || _)). }
  intros admitted. destruct (negb admitted); [done|]. apply caught_bind; [done|]. by intros [f'|a'].
Qed.

Lemma runExtraction_stopped {A} st (w : X A) b : terminated b = true -> runExtraction st w b = (Returned None, b).
Proof. intros Ht. unfold runExtraction, xbind, xget. by rewrite Ht. Qed.

Section Props.
Context {UT : UnicodeTables} {UR : UrlText} {UD : UrlDetails} {HL : HtmlLibrary} {HD : HeaderDecoder} {ML : MimeLibrary} (st : settings).

(** ** Attached messages *)

Definition retains (c : extractedContent) (b : extractionBudget) : Prop := xb_retained b = c.
Lemma retains_stable c : stable (retains c).
Proof. unfold stable, retains. congruence. Qed.
#[local] Hint Resolve retains_stable : extract.

(** An entity as one run of its stage. *)
Definition entity_work (rec : extractor) (contentType encoding contentID data : gostring) (depth : Z) (info : mimePartInfo) (b : extractionBudget) : X extractedContent :=
  xmod (set_progress (xb_progress b)) ;* extractMIMEOnce st rec contentType encoding contentID data depth info.
Lemma entity_eq rec contentType encoding contentID data depth info b : extract_entity st rec contentType encoding contentID data depth info b =
  match runExtraction st (entity_work rec contentType encoding contentID data depth info b) (set_retained no_content b) with
  | (Returned r, b') => note_limits (match r with Some c => c | None => mark_incomplete (xb_retained b') end) (set_retained (xb_retained b) b')
  | (Terminated f, b') => (Terminated f, b')
  | (Panicked, b') => (Panicked, b')
  end.
Proof. reflexivity. Qed.
Lemma entity_retains rec contentType encoding contentID data depth info c : preserves (retains c) (extract_entity st rec contentType encoding contentID data depth info).
Proof.
  intros b Hb. rewrite entity_eq. destruct (runExtraction st _ _) as [[r|f|] b1] eqn:E; [right; exact Hb| |by left].
  exfalso. eapply runExtraction_caught. by rewrite E.
Qed.

Definition entity_type (contentType : gostring) : gostring :=
  let '(parsed, _, failed) := media_type contentType in toLower (if failed || beq parsed [] then lit "text/plain" else parsed).
Lemma wrap_work_inert c tag filename mt headers : inert (wrap_work c tag filename mt headers).
Proof. unfold wrap_work, wrap_one, wrap_text. inert_tac. Qed.
Lemma wrapAttachment_preserves I c tag filename mt headers : stable I -> preserves I (wrapAttachment st c tag filename mt headers).
Proof.
  intros Hi. unfold wrapAttachment. destruct (st_omitAttachmentContext st); [by apply inert_preserves|]. apply preserves_bind; [|intros r; by apply inert_preserves].
  apply runExtraction_preserves; [done|]. apply inert_preserves; [done|apply wrap_work_inert].
Qed.
Definition keeps_retained (rec : extractor) : Prop := forall contentType encoding contentID data depth info c, preserves (retains c) (rec contentType encoding contentID data depth info).
Lemma extract_keeps fuel : keeps_retained (extractMIMEWithBudget st fuel).
Proof. destruct fuel as [|fuel]; intros ? ? ? ? ? ? c; [by left|]. apply entity_retains. Qed.

Lemma rfc822_once rec contentType encoding contentID data depth info :
  entity_type contentType = lit "message/rfc822" -> depth <= 8 ->
  extractMIMEOnce st rec contentType encoding contentID data depth info =
  (work ;* let* file := fileAttachmentInfo (lit "message/rfc822") (media_type contentType).1.2 info in
   let* d := decodeTransferRecovering encoding data in
   let* content := extractAttachedMessage st rec d.1 depth file.2 in
   xret (mark_transfer (TransferIncomplete content || d.2) content)).
Proof.
  intros Ht Hd. unfold extractMIMEOnce. destruct (Z.ltb_spec 8 depth); [lia|]. unfold entity_type in Ht. destruct (media_type contentType) as [[parsed params] failed]. cbv zeta.
  rewrite Ht. assert (Ho : opaque_type st (lit "message/rfc822") = false) by (unfold opaque_type; by cbn). rewrite Ho. reflexivity.
Qed.
Lemma rfc822_retains rec contentType encoding contentID data depth info b c : keeps_retained rec -> entity_type contentType = lit "message/rfc822" -> depth <= 8 ->
  preserves (retains c) (entity_work rec contentType encoding contentID data depth info b).
Proof.
  intros Hrec Ht Hd. unfold entity_work. rewrite rfc822_once by done.
  assert (Hw : forall A (m : X A), inert m -> preserves (retains c) m) by (intros; apply inert_preserves; [apply retains_stable|done]).
  apply preserves_bind; [by apply Hw|]. intros u. apply preserves_bind; [apply Hw, inert_work|]. intros u1.
  apply preserves_bind; [apply Hw; unfold fileAttachmentInfo; inert_tac|]. intros file. apply preserves_bind; [apply Hw; unfold decodeTransferRecovering; inert_tac|]. intros d.
  apply preserves_bind; [|intros ?; by apply Hw]. unfold extractAttachedMessage. apply preserves_bind; [apply Hw, inert_work|]. intros u2.
  destruct (parseAttachedMessage _ _); [|apply wrapAttachment_preserves, retains_stable]. apply preserves_bind; [apply Hrec|]. intros x. apply wrapAttachment_preserves, retains_stable.
Qed.
Lemma rfc822_wrapped rec contentType encoding contentID data depth info b0 b : st_omitAttachmentContext st = false -> rec_ok rec (depth + 1) ->
  entity_type contentType = lit "message/rfc822" -> depth <= 8 -> budget_ok b0 -> terminated b = false ->
  runs_to (entity_work rec contentType encoding contentID data depth info b0) b (λ c b', wrapped attached_email c).
Proof.
  intros Ho Hrec Ht Hd Hb0 Hb. unfold entity_work. rewrite rfc822_once by done.
  eapply runs_to_bind; [apply (runs_mod _ _ (λ _ b', terminated b' = false)); [apply set_progress_ok, (bo_parts _ Hb0)|done]|]. intros u b1 _ Ht1.
  eapply runs_to_bind; [apply work_calm|]. intros u2 b2 _ [S2 _]. eapply runs_to_bind; [apply file_info_calm|]. intros file b3 _ [S3 _]. eapply runs_to_bind; [apply transfer_calm|]. intros d b4 _ [S4 _].
  eapply runs_to_bind; [apply attached_ok; [done|eauto using steady_running]|]. intros c b5 _ [_ Hw]. apply runs_to_ret. exact (Hw Ho).
Qed.

Definition nothing_shown (c : extractedContent) : Prop :=
  t_bytes (Text c) = [] /\ t_bytes (VisibleText c) = [] /\ t_bytes (StrippedText c) = [] /\ Links c = [] /\ AttachmentLinks c = [] /\ ImageRefs c = [] /\ Images c = [] /\ ExtractionIncomplete c = true.
Lemma rfc822_entity rec contentType encoding contentID data depth info b : st_omitAttachmentContext st = false -> rec_ok rec (depth + 1) -> keeps_retained rec ->
  entity_type contentType = lit "message/rfc822" -> depth <= 8 ->
  runs_to (extract_entity st rec contentType encoding contentID data depth info) b (λ c _, wrapped attached_email c \/ nothing_shown c).
Proof.
  intros Ho Hrec Hkeep Ht Hd Hb. unfold runs_to in *. destruct (entity_ok st rec depth (λ _, Hrec) contentType encoding contentID data info b Hb) as (H1 & H2 & _). split; [done|]. split; [done|]. clear H1 H2.
  rewrite entity_eq. set (w := entity_work rec contentType encoding contentID data depth info b). set (b0 := set_retained no_content b).
  assert (Hb0 : budget_ok b0) by (by apply set_retained_ok; [apply no_content_ok|]).
  pose proof (runExtraction_ok st w b0 (λ c _, wrapped attached_email c) (λ b' _ Hr, rfc822_wrapped rec contentType encoding contentID data depth info b b' Ho Hrec Ht Hd Hb Hr) Hb0) as (_ & _ & Hr).
  pose proof (runExtraction_preserves st (retains no_content) w (retains_stable _) (rfc822_retains rec contentType encoding contentID data depth info b no_content Hkeep Ht Hd) b0 eq_refl) as Hp.
  destruct (runExtraction st w b0) as [[r|f|] b1] eqn:E; cbn [fst snd] in *; [|exfalso; eapply (runExtraction_caught st w b0 f); by rewrite E|done].
  destruct Hp as [|Hp]; [done|]. unfold retains in Hp. destruct r as [c|]; cbn.
  - left. destruct Hr as (R1 & R2 & R3 & R4 & R5). by split_and!.
  - right. rewrite Hp. by split_and!.
Qed.

(** ** The content of a message *)

(** The content while its texts are normalized, from [c0]. *)
Definition valid_text (t : text) : Prop := validString (t_bytes t) = true.
Record tracks (c0 c : extractedContent) : Prop := {
  tr_spans : TextAttachments c = TextAttachments c0 /\ VisibleAttachments c = VisibleAttachments c0 /\ StrippedAttachments c = StrippedAttachments c0;
  tr_texts : forall i, t_bytes (get_text i c) = t_bytes (get_text i c0) \/ t_bytes (get_text i c) = toValidUTF8 (t_bytes (get_text i c0));
  tr_flags : ExtractionIncomplete c = ExtractionIncomplete c0 /\ MIMEIncomplete c = MIMEIncomplete c0 }.
Lemma tracks_refl c : tracks c c.
Proof. split; try done. by left. Qed.
Lemma get_set_text i j t c : (i < 3)%nat -> (j < 3)%nat -> get_text j (set_text i t c) = if (i =? j)%nat then t else get_text j c.
Proof. intros Hi Hj. destruct i as [|[|[|]]]; [| | |lia]; destruct j as [|[|[|]]]; try lia; done. Qed.
Lemma get_text_high i c : (3 <= i)%nat -> get_text i c = get_text 2 c.
Proof. intros Hi. destruct i as [|[|[|]]]; [lia..|done]. Qed.
Lemma tracks_stable c0 : stable (λ b, tracks c0 (xb_content b)).
Proof. intros b b' _ ->. done. Qed.

Lemma runs_content {A} (m : X A) b P : runs_to m b P -> inert m -> runs_to m b (λ a b', P a b' /\ xb_content b' = xb_content b).
Proof. intros Hm Hi Hb. destruct (Hm Hb) as (H1 & H2 & H3). split; [done|]. split; [done|]. destruct (Hi b) as [_ Hc]. by destruct (m b).1. Qed.
Lemma set_content_ok c b : budget_ok b -> budget_ok (set_content c b) /\ advance b (set_content c b).
Proof. intros Hb. pose proof Hb as [? ? ? ?]. by apply touch. Qed.

Lemma normalize_field_tracks c0 i : (i < 3)%nat -> preserves (λ b, tracks c0 (xb_content b)) (normalize_field i).
Proof.
  intros Hi b Hb. unfold normalize_field, xbind at 1 4, xget. destruct (validString _) eqn:Ev; [by right|].
  pose proof (inert_work b) as [_ Hw]. unfold xbind. destruct (work b) as [[u|f|] b1]; cbn [fst snd] in *; [|right; by rewrite Hw|by left]. right. cbn.
  destruct Hb as [Hs Ht Hf]. split; [done| |done]. intros j. destruct (decide (j < 3)%nat) as [Hj|Hj].
  - rewrite get_set_text by done. destruct (Nat.eqb_spec i j) as [<-|]; [|apply Ht]. cbn [t_bytes]. destruct (Ht i) as [He|He]; [right; by rewrite He|]. rewrite He, toValidUTF8_valid in Ev. done.
  - rewrite (get_text_high j (set_text _ _ _)), (get_text_high j c0) by lia. rewrite get_set_text by lia. destruct (Nat.eqb_spec i 2) as [->|]; [|apply (Ht 2%nat)].
    cbn [t_bytes]. destruct (Ht 2%nat) as [He|He]; [right; by rewrite He|]. rewrite He, toValidUTF8_valid in Ev. done.
Qed.
Lemma normalize_field_valid i b : (i < 3)%nat -> runs_to (normalize_field i) b (λ _ b', valid_text (get_text i (xb_content b')) /\ terminated b' = terminated b /\
  forall j, (j < 3)%nat -> i <> j -> get_text j (xb_content b') = get_text j (xb_content b)).
Proof.
  intros Hi. unfold normalize_field. eapply runs_to_bind; [by apply (runs_get xb_content b (λ c b', c = xb_content b /\ b' = b))|]. intros c b1 _ [-> ->].
  destruct (validString _) eqn:Ev; [by apply runs_to_ret|].
  eapply runs_to_bind; [apply (runs_content _ _ _ (work_calm b) inert_work)|]. intros u b1 _ [[(St & _) _] Hc]. eapply runs_to_bind; [apply (runs_content _ _ _ (fresh_calm _ b1) (inert_fresh _))|].
  intros t b2 _ [[(St2 & _) Ht] Hc2]. apply runs_mod; [apply set_content_ok|]. cbn [xb_content set_content]. split; [|split].
  - rewrite get_set_text, Nat.eqb_refl by done. unfold valid_text. rewrite Ht. apply toValidUTF8_valid.
  - unfold terminated in *. cbn. by rewrite St2, St.
  - intros j Hj Hij. rewrite get_set_text by done. by destruct (Nat.eqb_spec i j).
Qed.
Lemma normalize_tracks c0 : preserves (λ b, tracks c0 (xb_content b)) normalizeExtractedUTF8.
Proof. unfold normalizeExtractedUTF8. do 2 (apply preserves_bind; [apply normalize_field_tracks; lia|intros ?]). apply normalize_field_tracks; lia. Qed.
Lemma normalize_valid b : runs_to normalizeExtractedUTF8 b (λ _ b', (forall i, (i < 3)%nat -> valid_text (get_text i (xb_content b'))) /\ terminated b' = terminated b).
Proof.
  unfold normalizeExtractedUTF8. eapply runs_to_bind; [apply normalize_field_valid; lia|]. intros u b1 _ (V0 & T1 & _). eapply runs_to_bind; [apply normalize_field_valid; lia|]. intros u' b2 _ (V1 & T2 & K1).
  eapply runs_to_weaken; [apply normalize_field_valid; lia|]. intros u2 b3 _ (V2 & T3 & K2). split; [|congruence]. intros i Hi. destruct i as [|[|[|]]]; [| |done|lia].
  - rewrite K2, K1 by lia. done.
  - rewrite K2 by lia. done.
Qed.

(** What is published for the extracted content [c0]. *)
Record published (c0 c : extractedContent) : Prop := {
  pb_spans : TextAttachments c = TextAttachments c0 /\ VisibleAttachments c = VisibleAttachments c0 /\ StrippedAttachments c = StrippedAttachments c0;
  pb_texts : forall i, (i < 3)%nat -> valid_text (get_text i c) /\
    (t_bytes (get_text i c) = toValidUTF8 (t_bytes (get_text i c0)) \/ (t_bytes (get_text i c) = [] /\ validString (t_bytes (get_text i c0)) = false /\ ExtractionIncomplete c = true)) }.
Lemma discard_valid t : valid_text (discard_invalid t).
Proof. unfold discard_invalid, valid_text. by destruct (validString (t_bytes t)) eqn:E. Qed.
Lemma get_discarded i c : (i < 3)%nat -> get_text i (discardInvalidUTF8 c) = discard_invalid (get_text i c).
Proof. intros Hi. destruct i as [|[|[|]]]; [done..|lia]. Qed.
Lemma tracked_published c0 c : tracks c0 c -> (forall i, (i < 3)%nat -> valid_text (get_text i c)) -> published c0 c.
Proof.
  intros [Hs Ht _] Hv. split; [done|]. intros i Hi. split; [by apply Hv|]. left. specialize (Hv i Hi). unfold valid_text in Hv. destruct (Ht i) as [He|He]; [|done].
  rewrite He in *. by rewrite toValidUTF8_id.
Qed.
Lemma discarded_published c0 c : tracks c0 c -> published c0 (discardInvalidUTF8 (mark_extraction true c)).
Proof.
  intros [Hs Ht _]. split; [done|]. intros i Hi. rewrite get_discarded by done. split; [apply discard_valid|]. change (get_text i (mark_extraction true c)) with (get_text i c).
  unfold discard_invalid. specialize (Ht i). destruct (validString (t_bytes (get_text i c))) eqn:Ev.
  - left. destruct Ht as [He|He]; [|done]. rewrite He in *. by rewrite toValidUTF8_id.
  - right. split; [done|]. split; [|done]. destruct Ht as [He|He]; [by rewrite <- He|]. by rewrite He, toValidUTF8_valid in Ev.
Qed.

Lemma processed_ok m b : runs_to (processedContent st m) b (λ c b',
  (exists c0, content_ok c0 /\ published c0 c) /\ (terminated b' = true \/ BodyTruncated m = true -> ExtractionIncomplete c = true) /\ (MIMEHeadersTruncated m = true -> MIMEIncomplete c = true)).
Proof.
  unfold processedContent. eapply runs_to_bind; [apply (extract_ok st extraction_fuel 0); [lia|by vm_compute]|]. intros c b1 _ [Hc Hg]. cbv zeta.
  match goal with |- context [set_content ?x] => set (c0 := x) end. assert (Hc0 : content_ok c0) by (by apply marks_ok).
  assert (Hf0 : (terminated b1 = true \/ BodyTruncated m = true -> ExtractionIncomplete c0 = true) /\ (MIMEHeadersTruncated m = true -> MIMEIncomplete c0 = true)).
  { cbn. split; [intros [Ht| ->]; [by rewrite (Hg Ht)|by rewrite orb_true_r]|intros ->; by rewrite orb_true_r]. }
  clearbody c0. eapply runs_to_bind; [apply (runs_mod _ _ (λ _ b', xb_content b' = c0 /\ terminated b' = terminated b1)); [apply set_content_ok|done]|]. intros u b2 _ [E2 T2].
  eapply (runs_to_bind _ _ _ (λ r b', tracks c0 (xb_content b') /\ match r with
    | Some _ => (forall i, (i < 3)%nat -> valid_text (get_text i (xb_content b'))) /\ terminated b' = false
    | None => True end /\ (r = None -> terminated b' = true))).
  { intros Hb2. pose proof (runExtraction_ok st normalizeExtractedUTF8 b2 (λ _ b', (forall i, (i < 3)%nat -> valid_text (get_text i (xb_content b'))) /\ terminated b' = false)
      (λ b' _ Ht, runs_to_weaken _ _ _ _ (normalize_valid b') (λ a b'' _ Hq, conj (proj1 Hq) (eq_trans (proj2 Hq) Ht))) Hb2) as (H1 & H2 & H3).
    pose proof (runExtraction_preserves st _ normalizeExtractedUTF8 (tracks_stable c0) (normalize_tracks c0) b2) as Hp. cbn beta in Hp. rewrite E2 in Hp. specialize (Hp (tracks_refl c0)).
    split; [done|]. split; [done|]. destruct (runExtraction st normalizeExtractedUTF8 b2) as [[r|f|] b3]; cbn [fst snd] in *; [|done|done]. destruct Hp as [|Hp]; [done|]. split; [done|]. destruct r; done. }
  intros r b3 _ (Htr & Hval & Hnone). eapply runs_to_bind; [by apply (runs_get xb_content b3 (λ c b', c = xb_content b3 /\ b' = b3))|]. intros c1 b4 _ [-> ->].
  set (c2 := match r with Some _ => _ | None => _ end).
  assert (H2 : published c0 c2 /\ (terminated b3 = true \/ BodyTruncated m = true -> ExtractionIncomplete c2 = true) /\ (MIMEHeadersTruncated m = true -> MIMEIncomplete c2 = true)).
  { destruct Hf0 as [F1 F2]. pose proof (tr_flags _ _ Htr) as [Fe Fm]. unfold c2. destruct r as [u'|].
    - destruct Hval as [Hv Ht]. split; [by apply tracked_published|]. rewrite Fe, Fm, Ht. split; [|done]. intros [?|?]; [done|]. apply F1. by right.
    - split; [by apply discarded_published|]. split; [done|]. cbn. by rewrite Fm. }
  clearbody c2. eapply runs_to_bind; [apply (runs_mod _ _ (λ _ b', terminated b' = terminated b3)); [apply observeFallback_ok|]|].
  { unfold terminated. by destruct (steady_observeFallback b3) as (-> & _). }
  intros u' b4 _ T4. cbn in T4. do 3 (eapply runs_to_bind; [apply (runs_get _ b4 (λ _ b', b' = b4)); done|]; intros ? b' _ ->). apply runs_to_ret. rewrite T4. destruct H2 as (P & F1 & F2).
  split; [|done]. exists c0. split; [done|]. destruct P as [Ps Pt]. split; [done|]. intros i Hi. destruct (Pt i Hi) as [V E]. by destruct i as [|[|[|]]].
Qed.

(** ** Claims *)

Lemma new_budget_ok n schedule cancelled : budget_ok (new_budget st n schedule cancelled).
Proof.
  split; [|done| |apply no_content_ok]; cbn; [unfold memory_ok, ledger_ok, NewMemory; cbn; lia|]. unfold maxMIMEParts. lia.
Qed.
Lemma extract_caught fuel contentType encoding contentID data depth info : caught (extractMIMEWithBudget st fuel contentType encoding contentID data depth info).
Proof.
  destruct fuel as [|fuel]; [done|]. intros b f. cbn [extractMIMEWithBudget]. rewrite entity_eq. destruct (runExtraction st _ _) as [[r|f'|] b1] eqn:E; [done| |done].
  intros _. eapply runExtraction_caught. by rewrite E.
Qed.
Lemma processed_caught m : caught (processedContent st m).
Proof.
  unfold processedContent. apply caught_bind; [apply extract_caught|]. intros c. apply caught_bind; [done|]. intros u. apply caught_bind; [apply runExtraction_caught|]. intros r.
  repeat (apply caught_bind; [done|]; intros ?). done.
Qed.

(** C11: an extraction always ends with content. For every message, whatever limits
    are met and whenever, no panic and no endless recursion: the result is
    returned, at most 256 parts were read, and no ledger was charged beyond its
    limit; the primary ledger has the limit it began with. *)
Theorem extraction_always_ends (m : Message) (schedule : list (list demand)) (cancelled : list bool) :
  exists c b, processedContent st m (new_budget st (maxBytes m) schedule cancelled) = (Returned c, b) /\
    WithProcessingLimits st m schedule cancelled = Some (c, observed_usage b) /\
    0 <= xp_parts (xb_progress b) <= maxMIMEParts /\ limit (xb_primary b) = memoryBytesLimit st /\
    0 <= used (xb_primary b) <= Z.max 0 (memoryBytesLimit st) /\
    match xb_fallback b with Some (m, _) => 0 <= used m <= Z.max 0 (limit m) | None => True end.
Proof.
  destruct (processed_ok m _ (new_budget_ok (maxBytes m) schedule cancelled)) as (H1 & H2 & H3). pose proof (processed_caught m (new_budget st (maxBytes m) schedule cancelled)) as Hc. unfold WithProcessingLimits.
  destruct (processedContent st m _) as [[c|f|] b]; cbn [fst snd] in *; [|by specialize (Hc f)|done]. exists c, b. destruct H1 as [B1 B2 B3 B4]. destruct (adv_primary _ _ H2) as [Hl _]. cbn in Hl.
  split_and!; try done; unfold memory_ok, ledger_ok in *; cbn in *; try lia.
Qed.

(** C12: nothing is lost silently. If the extraction was ended by a limit or by
    cancellation before it was complete, or the body was already cut when it was
    received, the content says that the extraction is incomplete; if header fields
    that describe its structure were cut, it says so too. *)
Theorem extraction_loss_reported (m : Message) (schedule : list (list demand)) (cancelled : list bool) :
  match processedContent st m (new_budget st (maxBytes m) schedule cancelled) with
  | (Returned c, b) => (xb_terminal b <> None \/ BodyTruncated m = true -> incomplete c = true /\ ExtractionIncomplete c = true) /\ (MIMEHeadersTruncated m = true -> MIMEIncomplete c = true)
  | _ => False
  end.
Proof.
  destruct (processed_ok m _ (new_budget_ok (maxBytes m) schedule cancelled)) as (_ & _ & H3). pose proof (processed_caught m (new_budget st (maxBytes m) schedule cancelled)) as Hc.
  destruct (processedContent st m _) as [[c|f|] b]; cbn [fst snd] in *; [|by specialize (Hc f)|done]. destruct H3 as (_ & He & Hm). split; [|done]. intros Ht.
  assert (Hx : ExtractionIncomplete c = true). { apply He. destruct Ht as [Ht|Ht]; [left|by right]. unfold terminated. by destruct (xb_terminal b). }
  split; [|done]. unfold incomplete. rewrite Hx. by rewrite orb_true_r.
Qed.

(** C14: the offsets kept beside each text of a message are exactly those of the
    tags the extractor wrote, whatever limits were met: they are sound for content
    [c0] whose texts, made valid UTF-8 or dropped with a mark, are the published
    ones. For texts that were valid the published offsets are therefore true. *)
Theorem attachment_offsets_true (m : Message) (schedule : list (list demand)) (cancelled : list bool) :
  match processedContent st m (new_budget st (maxBytes m) schedule cancelled) with
  | (Returned c, _) => exists c0, content_ok c0 /\ published c0 c /\
      ((forall i, (i < 3)%nat -> validString (t_bytes (get_text i c0)) = true) ->
       spans_ok (t_bytes (Text c)) (TextAttachments c) /\ spans_ok (t_bytes (VisibleText c)) (VisibleAttachments c) /\ spans_ok (t_bytes (StrippedText c)) (StrippedAttachments c))
  | _ => False
  end.
Proof.
  destruct (processed_ok m _ (new_budget_ok (maxBytes m) schedule cancelled)) as (_ & _ & H3). pose proof (processed_caught m (new_budget st (maxBytes m) schedule cancelled)) as Hc.
  destruct (processedContent st m _) as [[c|f|] b]; cbn [fst snd] in *; [|by specialize (Hc f)|done]. destruct H3 as ((c0 & Hc0 & Hp) & _ & _). exists c0. split; [done|]. split; [done|]. intros Hv.
  destruct Hp as [(S1 & S2 & S3) Ht]. rewrite S1, S2, S3. destruct Hc0 as [O1 O2 O3 _ _].
  assert (Hs : forall i, (i < 3)%nat -> t_bytes (get_text i c) = t_bytes (get_text i c0)).
  { intros i Hi. destruct (Ht i Hi) as [_ [He|(_ & He & _)]]; [by rewrite He, toValidUTF8_id by auto|by rewrite Hv in He]. }
  pose proof (Hs 0%nat ltac:(lia)) as E0. pose proof (Hs 1%nat ltac:(lia)) as E1. pose proof (Hs 2%nat ltac:(lia)) as E2. cbn in E0, E1, E2. rewrite E0, E1, E2. done.
Qed.

(** C13: when the context of attachments is kept, as in the extraction for prompts,
    the text of an attached message is never shown as the sender's own. An entity
    of type message/rfc822 gives, at each of the depths that are entered (up to
    eight) and whatever limits are met, either texts that are from first byte to
    last one attachment with the tag of attached messages, and no links of its own,
    or nothing at all and the mark of an incomplete extraction. The extraction of
    command texts leaves the context out, and is not concerned. *)
Theorem attached_email_marked (fuel : nat) (contentType encoding contentID data : gostring) (depth : Z) (info : mimePartInfo) (b : extractionBudget) :
  st_omitAttachmentContext st = false -> entity_type contentType = lit "message/rfc822" -> depth <= 8 -> 10 - depth <= Z.of_nat fuel -> budget_ok b ->
  match extractMIMEWithBudget st fuel contentType encoding contentID data depth info b with
  | (Returned c, _) => wrapped attached_email c \/ nothing_shown c
  | _ => False
  end.
Proof.
  intros Ho Ht Hd Hf Hb. pose proof (extract_caught fuel contentType encoding contentID data depth info b) as Hc. destruct fuel as [|fuel]; [lia|]. cbn [extractMIMEWithBudget] in *.
  destruct (rfc822_entity (extractMIMEWithBudget st fuel) contentType encoding contentID data depth info b Ho (extract_ok st fuel (depth + 1) ltac:(lia) ltac:(lia)) (extract_keeps fuel) Ht Hd Hb) as (_ & _ & Hr).
  destruct (extract_entity st _ _ _ _ _ _ _ b) as [[c|f|] b']; cbn [fst] in *; [done|by specialize (Hc f)|done].
Qed.

(** C20: the stages only move forward. From any sound budget, an entity leaves one;
    once the fallback stage has begun it never ends, its ledger only grows and the
    primary ledger is not touched again; limits that were met stay noted; and when
    the extraction has ended nothing more is spent: the schedule is left as it is
    and the entity gives no text. *)
Theorem stages_move_forward (fuel : nat) (contentType encoding contentID data : gostring) (depth : Z) (info : mimePartInfo) (b : extractionBudget) :
  depth <= 9 -> 10 - depth <= Z.of_nat fuel -> budget_ok b ->
  let b' := (extractMIMEWithBudget st fuel contentType encoding contentID data depth info b).2 in
  budget_ok b' /\ advance b b' /\
  (terminated b = true -> exists c, extractMIMEWithBudget st fuel contentType encoding contentID data depth info b = (Returned c, b') /\
     nothing_shown c /\ xb_schedule b' = xb_schedule b /\ xb_primary b' = xb_primary b /\ xb_fallback b' = xb_fallback b).
Proof.
  intros Hd Hf Hb b'. destruct (extract_ok st fuel depth Hd Hf contentType encoding contentID data info b Hb) as (H1 & H2 & _). split; [done|]. split; [done|]. intros Ht. subst b'.
  destruct fuel as [|fuel]; [lia|]. cbn [extractMIMEWithBudget]. rewrite entity_eq, runExtraction_stopped by done. eexists. split; [reflexivity|]. by split_and!.
Qed.
End Props.

(** ** A message with an attachment *)

Module Sample.
#[local] Instance tables : UnicodeTables := basic_tables.
#[local] Instance urls : UrlText := {| urlParse s := Some (MkURL [] [] [] [] false s); pathUnescape := Some |}.
#[local] Instance details : UrlDetails := {| forceQuery _ := false; escapedFragment s := s |}.
#[local] Instance html : HtmlLibrary :=
  {| format_g6 _ := []; parse_float _ := None; url_string s := s; resolve_reference _ s := s; word_rune _ := true; parse_fragment _ := None |}.
#[local] Instance decoder : HeaderDecoder := {| word_decode := Some |}.
(** A parameter may hold any bytes: [name*=utf-8''%FF%FF...]. *)
Definition odd_name : gostring := repeat (chr 255) 20.
Definition mail_part : mimePart := MkPart (lit "message/rfc822") [] [] [] (lit "Subject: news" ++ [LF; LF] ++ lit "Hello") false.
Definition file_part : mimePart := MkPart (lit "application/pdf") [] [] [] [] false.
#[local] Instance library : MimeLibrary := {|
  media_type s := if beq s (lit "multipart/mixed") then (s, [(lit "boundary", lit "b")], false)
                  else if beq s (lit "application/pdf") then (s, [(lit "name", odd_name)], false) else (s, [], beq s []);
  base64_std s := (s, true); base64_raw s := (s, true); quoted_printable s := (s, true);
  charset_name _ := None; charset_decode _ _ _ := None; charset_detect s _ := Some s;
  multipart_read _ _ := ([file_part; mail_part], true);
  html_tokens s := ([], false); analyze_html _ _ := HtmlError false; analyze_css _ _ := 0 |}.

Definition plain_settings : settings := MkSettings 0 true true true false false.
Definition two_parts : Message := set_headers {[lit "content-type" := [lit "multipart/mixed"]]} (Message.New 0 10000).
Definition two_parts_content : extractedContent :=
  match processedContent plain_settings two_parts (new_budget plain_settings 10000 [] []) with (Returned c, _) => c | _ => no_content end.

(** the published offsets are not always true. Text that is not valid UTF-8 is
    normalized after its offsets were taken, and the name of an attachment may hold
    any bytes: in a message with such a name before an attached message, the
    offsets of the attached message no longer point at its tags. *)
Theorem normalized_text_moves_tags :
  match processedContent plain_settings two_parts (new_budget plain_settings 10000 [] []) with
  | (Returned c, _) => length (TextAttachments c) = 1%nat /\ ~ spans_ok (t_bytes (Text c)) (TextAttachments c) /\ incomplete c = false
  | _ => False
  end.
Proof.
  assert (H : exists s, TextAttachments two_parts_content = [s] /\ slice (t_bytes (Text two_parts_content)) (sp_CloseStart s) (sp_End s) <> attachmentSuffix (sp_Tag s) /\ incomplete two_parts_content = false).
  { eexists. split; [by vm_compute|]. split; [|by vm_compute]. vm_compute. discriminate. }
  unfold two_parts_content in H. destruct (processedContent plain_settings two_parts _) as [[c|f|] b]; destruct H as (s & Hs & Hc & Hi); [|discriminate..]. rewrite Hs. split; [done|]. split; [|done]. intros [Hall _]. inversion_clear Hall as [|? ? Hk _]. by apply Hc, (so_closing _ _ Hk).
Qed.

Lemma attached_email_marked_witness :
  let r := extractMIMEWithBudget plain_settings 10 (lit "message/rfc822") [] [] (mp_body mail_part) 0 (MkPartInfo [] []) (new_budget plain_settings 10000 [] []) in
  (exists c b, r = (Returned c, b) /\ hasPrefix (t_bytes (Text c)) (lit "<attached-email>") = true) /\
  match r with (Returned c, _) => wrapped attached_email c \/ nothing_shown c | _ => False end.
Proof.
  split.
  - eexists _, _. split; [by vm_compute|by vm_compute].
  - apply attached_email_marked; [done|by vm_compute|lia|cbn; lia|apply new_budget_ok].
Defined.

(** A budget whose extraction has been cancelled. *)
Definition ended : extractionBudget := set_terminal (MkFailure Cancelled 0) (new_budget plain_settings 10000 [[Charge 5]] []).
Lemma stages_move_forward_witness :
  let b' := (extractMIMEWithBudget plain_settings 10 (lit "text/plain") [] [] (lit "Hello") 0 (MkPartInfo [] []) ended).2 in
  terminated ended = true /\ xb_schedule b' = [[Charge 5]] /\ budget_ok b' /\ advance ended b'.
Proof.
  assert (Hb : budget_ok ended) by (apply set_terminal_ok, new_budget_ok).
  destruct (stages_move_forward plain_settings 10 (lit "text/plain") [] [] (lit "Hello") 0 (MkPartInfo [] []) ended) as (H1 & H2 & H3); [lia|cbn; lia|done|].
  split; [done|]. destruct (H3 eq_refl) as (c & _ & _ & Hs & _). split; [exact Hs|]. by split.
Defined.
End Sample.
