(* ===== verification/PromptSpec.v ===== *)
(** * Properties of the prompt

    Values of a sender stay on their lines, images stay within their limits, and
    the body that is chosen. *)
From Stdlib Require Import QArith.
From S2P Require Import Prelude GoText SqlDb Calendar Runes NetSafety MailAddr MailAuth Thinking Rdap Policy Message Registration PromptText PromptUrl AttachedText AttachedTextSpec HtmlText Extract ExtractMime ExtractSpec Prompt.
#[local] Open Scope Z_scope.

(** ** Lines *)

Definition single_line (s : gostring) : Prop := LF ∉ s /\ CR ∉ s.
Lemma single_app s t : single_line s -> single_line t -> single_line (s ++ t).
Proof. unfold single_line. set_solver. Qed.
Lemma single_sanitize s : single_line (sanitize s).
Proof.
  unfold sanitize. split; intros Hc.
  - apply elem_replace_char in Hc as [[_ Hc]|Hc]; [done|]. unfold lit in Hc. cbn in Hc. apply elem_of_cons in Hc as [Hc|Hc]; [done|by apply elem_of_nil in Hc].
  - apply elem_replace_char in Hc as [[Hc _]|Hc].
    + apply elem_replace_char in Hc as [[_ Hc]|Hc]; [done|]. unfold lit in Hc. cbn in Hc. apply elem_of_cons in Hc as [Hc|Hc]; [done|by apply elem_of_nil in Hc].
    + unfold lit in Hc. cbn in Hc. apply elem_of_cons in Hc as [Hc|Hc]; [done|by apply elem_of_nil in Hc].
Qed.
Definition printable (s : gostring) : Prop := Forall (λ c, 32 <= code c) s.
Lemma printable_single s : printable s -> single_line s.
Proof. intros Hp. split; intros Hc; (eapply Forall_forall in Hp; [|exact Hc]); vm_compute in Hp; by apply Hp. Qed.
Lemma printable_lit s : forallb (λ c, 32 <=? code c) s = true -> printable s.
Proof. intros H. apply Forall_forall. intros c Hc. rewrite forallb_forall in H. apply Z.leb_le, H. by apply list_elem_of_In. Qed.
Lemma printable_app s t : printable s -> printable t -> printable (s ++ t).
Proof. apply Forall_app_2. Qed.
Ltac plain := apply printable_lit; reflexivity.

Lemma runes_printable s : printable s -> Forall (λ r, 32 <= r) (runes s).
Proof.
  unfold runes, rune_chunks. generalize (length s) as fuel. intros fuel. revert s. induction fuel as [|fuel IH]; intros s Hp; [constructor|]. destruct s as [|c s]; [constructor|].
  cbn [chunks_go]. destruct (decode_rune (c :: s)) as [r w] eqn:E. cbn [fmap list_fmap rc_rune]. constructor; [|apply IH; by apply Forall_drop].
  destruct (Z.ltb_spec r 128); [|lia]. destruct (decode_rune_ascii _ _ _ _ E ltac:(lia)) as [<- _]. by inversion_clear Hp.
Qed.
Lemma encoded_printable l : Forall (λ r, 32 <= r) l -> printable (concat (encode_rune <$> l)).
Proof. intros Hl. unfold printable. apply Forall_concat, Forall_fmap. eapply Forall_impl; [exact Hl|]. intros r Hr. by apply encode_printable. Qed.
Lemma bounded_printable v : printable (boundedConnectionValue v).
Proof.
  unfold boundedConnectionValue. set (v1 := map_runes _ _). assert (H1 : printable v1).
  { unfold v1, map_runes, printable. apply Forall_concat, Forall_fmap, Forall_forall. intros r Hr. cbn. destruct (unicode_is_control r) eqn:E; [constructor|]. apply encode_plain; [done|].
    pose proof (runes_valid (toValidUTF8 v)) as Hv. rewrite Forall_forall in Hv. specialize (Hv r Hr). unfold valid_rune in Hv. lia. }
  assert (H2 : printable (trimSpace v1)) by (destruct (trimSpace_infix v1) as (a & b & Hv); unfold printable in *; rewrite Hv in H1; by apply Forall_app in H1 as [_ [H1 _]%Forall_app]).
  destruct (_ <=? _)%nat; [done|]. apply encoded_printable, Forall_take. by apply runes_printable.
Qed.
Lemma rune_prefix_count n s : (runeCount (rune_prefix n s) <= n)%nat.
Proof.
  unfold rune_prefix. etransitivity; [apply pieces_count|].
  - apply Forall_fmap, Forall_forall. intros r _. apply encoded_piece.
  - rewrite length_fmap, length_take. lia.
Qed.
Lemma bounded_count v : (runeCount (boundedConnectionValue v) <= maxConnectionValueRunes)%nat.
Proof. unfold boundedConnectionValue. destruct (Nat.leb_spec (runeCount (trimSpace (map_runes (λ r, if unicode_is_control r then None else Some r) (toValidUTF8 v)))) maxConnectionValueRunes); [done|]. apply rune_prefix_count. Qed.
Lemma connection_value_ok v : printable (connectionValue v) /\ (runeCount (connectionValue v) <= maxConnectionValueRunes)%nat /\ connectionValue v <> [].
Proof.
  unfold connectionValue. pose proof (bounded_printable v) as Hp. pose proof (bounded_count v) as Hc. destruct (boundedConnectionValue v); [|done].
  split; [plain|]. split; [vm_compute; lia|done].
Qed.

Lemma shown_names_ok l : forall names confirmed failed, Forall printable names -> (length names <= maxReverseDNSNames)%nat ->
  Forall printable (shown_names l names confirmed failed).1.1 /\ (length (shown_names l names confirmed failed).1.1 <= maxReverseDNSNames)%nat.
Proof.
  induction l as [|entry l IH]; intros names confirmed failed Hn Hl; [done|]. cbn [shown_names]. destruct (Nat.leb_spec maxReverseDNSNames (length names)); [done|].
  pose proof (bounded_printable (rd_Hostname entry)) as Hp. destruct (boundedConnectionValue (rd_Hostname entry)) as [|c s]; [by apply IH|]. apply IH; [|rewrite length_app; cbn; lia].
  apply Forall_app. split; [done|]. constructor; [|constructor]. apply printable_app; [done|]. apply printable_app; [plain|]. apply printable_app; [destruct (rd_Confirmation entry); plain|plain].
Qed.
Lemma join_printable sep l : printable sep -> Forall printable l -> printable (join sep l).
Proof.
  intros Hs. induction 1 as [|x l Hx Hl IH]; [constructor|]. destruct l as [|y l]; [done|]. cbn [join]. apply printable_app; [done|]. by apply printable_app.
Qed.
Lemma reverse_lines_ok info : Forall printable (reverse_lines info) /\ length (reverse_lines info) = 2%nat.
Proof.
  unfold reverse_lines. destruct (cn_ReverseDNSStatus info); try (split; [repeat (constructor; [plain|]); constructor|done]).
  destruct (shown_names_ok (cn_ReverseDNS info) [] false false) as [Hn _]; [constructor|cbn; lia|]. destruct (shown_names (cn_ReverseDNS info) [] false false) as [[names confirmed] failed]. cbn [fst] in Hn.
  destruct names as [|n names]; [split; [repeat (constructor; [plain|]); constructor|done]|]. split; [|done]. constructor; [|constructor; [|constructor]].
  - apply printable_app; [plain|]. apply join_printable; [plain|done].
  - apply printable_app; [plain|]. destruct confirmed, failed; plain.
Qed.
Lemma connection_lines_ok info : Forall printable (connection_lines info) /\ length (connection_lines info) = 7%nat.
Proof.
  destruct (reverse_lines_ok info) as [Hr Hl]. unfold connection_lines. split.
  - apply Forall_app. split; [|apply Forall_app; split; [done|]].
    + constructor; [plain|]. constructor; [apply printable_app; [plain|apply connection_value_ok]|]. constructor; [apply printable_app; [plain|apply connection_value_ok]|constructor].
    + constructor; [apply printable_app; [plain|apply connection_value_ok]|]. constructor; [apply printable_app; [plain|apply connection_value_ok]|constructor].
  - rewrite !length_app, Hl. done.
Qed.

Lemma digits_printable s : forallb is_digit s = true -> printable s.
Proof. intros H. apply Forall_forall. intros c Hc. rewrite forallb_forall in H. specialize (H c ltac:(by apply list_elem_of_In)). unfold is_digit, in_range in H. lia. Qed.

Section Headers.
Context {UT : UnicodeTables} {NM : NetMail} {HD : HeaderDecoder}.

Lemma canonical_printable key : key ∈ promptHeaders -> printable (canonicalHeaderName key).
Proof. unfold promptHeaders. rewrite !elem_of_cons. intros [-> |[-> |[-> |[-> |[-> |H]]]]]; [plain..|by apply elem_of_nil in H]. Qed.
Lemma shown_headers_ok m auth : 0 <= FromHeaderCount m -> Forall single_line (header_lines_of m auth) /\
  length (header_lines_of m auth) = (2 + (if (1 <? FromHeaderCount m)%Z then 1 else 0) + sum_list ((λ key, length (decodedHeaderValues m key)) <$> prompt_keys m auth))%nat.
Proof.
  intros Hf. unfold header_lines_of. split.
  - apply Forall_app. split; [repeat (constructor; [apply printable_single; plain|]); constructor|]. apply Forall_app. split.
    + destruct (1 <? FromHeaderCount m); [|constructor]. constructor; [|constructor]. apply single_app; [apply printable_single; plain|].
      apply single_app; [apply printable_single, digits_printable, itoa_digits; done|apply printable_single; plain].
    + apply Forall_concat, Forall_fmap, Forall_forall. intros key Hk. cbn beta. apply Forall_fmap, Forall_forall. intros value _. cbn beta. unfold promptHeaderValue.
      apply single_app; [apply printable_single, canonical_printable|apply single_app; [apply printable_single; plain|apply single_sanitize]].
      unfold prompt_keys in Hk. apply list_elem_of_In, filter_In in Hk as [Hk _]. by apply list_elem_of_In.
  - rewrite !length_app. cbn [length]. rewrite <- Nat.add_assoc. f_equal. f_equal; [by destruct (1 <? FromHeaderCount m)|]. induction (prompt_keys m auth) as [|k l IH]; [done|].
    cbn. rewrite length_app, length_fmap. by f_equal.
Qed.
Lemma recipient_lines_ok m : Forall single_line (recipient_lines m).
Proof.
  unfold recipient_lines. destruct (negb (toHeaderSeen m)); [repeat (constructor; [apply printable_single; plain|]); constructor|]. destruct (emptyRecipientGroup _); [|constructor].
  repeat (constructor; [apply printable_single; plain|]). constructor; [|constructor]. apply single_app; [apply printable_single; plain|apply single_sanitize].
Qed.
End Headers.

(** ** Images *)

Section Vision.
Context {IL : ImageLibrary}.

(** An image that was decoded and is within the limits. *)
Definition image_ok (o : VisionOptions) (c : extractedContent) (i : Image) : Prop :=
  (exists e, e ∈ Images c /\ im_Data e = pm_Data i) /\ go_len (pm_Data i) <= vo_MaxBytes o /\
  exists width height format, decode_config (pm_Data i) = Some (width, height, format) /\ image_type format = Some (pm_MediaType i) /\ 1 <= width /\ 1 <= height /\ width * height <= vo_MaxPixels o.
Lemma visionImage_ok o c e i : 1 <= vo_MaxPixels o -> e ∈ Images c -> visionImage e o = Some i -> image_ok o c i.
Proof.
  intros Hp He. unfold visionImage. destruct (Z.ltb_spec (vo_MaxBytes o) (go_len (im_Data e))); [done|]. destruct (decode_config (im_Data e)) as [[[width height] format]|] eqn:Ed; [|done].
  destruct ((width <? 1) || (height <? 1) || _) eqn:Eb; [done|]. destruct (image_type format) as [t|] eqn:Et; [|done]. intros [= <-]. apply orb_false_iff in Eb as [[E1%Z.ltb_ge E2%Z.ltb_ge]%orb_false_iff E3%Z.ltb_ge].
  split; [by exists e|]. split; [done|]. exists width, height, format. cbn. split_and!; try done. rewrite Z.quot_div_nonneg in E3 by lia. pose proof (Z.mul_div_le (vo_MaxPixels o) height ltac:(lia)). nia.
Qed.
Definition of_class (refs : list gostring) (wanted : bool) (e : extractedImage) : bool := Bool.eqb (bool_decide (im_ContentID e ∈ refs) && negb (beq (im_ContentID e) [])) wanted.
Definition selected_so_far (o : VisionOptions) (c : extractedContent) (s : visionSelection) : Prop :=
  Forall (image_ok o c) (vs_images s) /\ Z.of_nat (length (vs_images s)) <= vo_MaxImages o.
Definition handled (s : visionSelection) : nat := length (vs_images s) + vs_omitted s.
Lemma select_one o c wanted e s : 1 <= vo_MaxPixels o -> e ∈ Images c -> selected_so_far o c s ->
  selected_so_far o c (select_image (ImageRefs c) o wanted s e) /\
  handled (select_image (ImageRefs c) o wanted s e) = (handled s + if of_class (ImageRefs c) wanted e then 1 else 0)%nat.
Proof.
  intros Hp He [Hs Hn]. unfold select_image, handled. fold (of_class (ImageRefs c) wanted e). destruct (of_class (ImageRefs c) wanted e); cbn [negb]; [|split; [done|lia]].
  destruct (Z.leb_spec (vo_MaxImages o) (Z.of_nat (length (vs_images s)))); [split; [done|cbn; lia]|].
  destruct (visionImage e o) as [i|] eqn:Ei; [|split; [done|cbn; lia]]. cbn [vs_images vs_omitted]. split; [|rewrite length_app; cbn; lia].
  split; cbn [vs_images]; [apply Forall_app; split; [done|]; constructor; [by eapply visionImage_ok|constructor]|]. rewrite length_app. cbn. lia.
Qed.
Lemma select_fold o c wanted : 1 <= vo_MaxPixels o -> forall l s, (forall e, e ∈ l -> e ∈ Images c) -> selected_so_far o c s ->
  selected_so_far o c (fold_left (select_image (ImageRefs c) o wanted) l s) /\
  handled (fold_left (select_image (ImageRefs c) o wanted) l s) = (handled s + length (List.filter (of_class (ImageRefs c) wanted) l))%nat.
Proof.
  intros Hp. induction l as [|e l IH]; intros s Hl Hs; cbn [fold_left List.filter]; [split; [done|cbn; lia]|].
  destruct (select_one o c wanted e s Hp (Hl e ltac:(by left)) Hs) as [H1 H2]. destruct (IH _ (λ x Hx, Hl x (list_elem_of_further _ _ _ Hx)) H1) as [H3 H4]. split; [done|]. rewrite H4, H2.
  destruct (of_class (ImageRefs c) wanted e); cbn; lia.
Qed.
Lemma classes_total refs (l : list extractedImage) : (length (List.filter (of_class refs true) l) + length (List.filter (of_class refs false) l) = length l)%nat.
Proof.
  induction l as [|e l IH]; [done|]. cbn [List.filter]. assert (Hn : of_class refs false e = negb (of_class refs true e)) by (unfold of_class; by destruct (_ && _)).
  rewrite Hn. destruct (of_class refs true e); cbn [negb length]; lia.
Qed.

Lemma selection_ok c o : let s := selectVisionImages c o in
  Forall (image_ok o c) (vs_images s) /\ Z.of_nat (length (vs_images s)) <= Z.max 0 (vo_MaxImages o) /\
  ((length (vs_images s) + vs_omitted s)%nat = length (Images c) \/ (vs_images s = [] /\ vs_omitted s = 0%nat /\
     beq (vo_Mode o) (lit "always") = false /\ (beq (vo_Mode o) (lit "fallback") = true -> vo_MinTextChars o <= Z.of_nat (ConfidentVisibleChars c)))).
Proof.
  unfold selectVisionImages. destruct (beq (vo_Mode o) (lit "always") || _) eqn:Ea; cbn [negb].
  2: { apply orb_false_iff in Ea as [E1 E2]. cbn [vs_images vs_omitted length]. split_and!; [constructor|lia|]. right. split_and!; try done. intros Hf. rewrite Hf in E2. cbn [andb] in E2. by apply Z.ltb_ge in E2. }
  destruct ((vo_MaxImages o <? 1) || (vo_MaxBytes o <? 1) || (vo_MaxPixels o <? 1)) eqn:El; [cbn; split_and!; [constructor|lia|by left]|].
  apply orb_false_iff in El as [[E1%Z.ltb_ge _]%orb_false_iff E3%Z.ltb_ge].
  destruct (select_fold o c true E3 (Images c) (MkVisionSelection [] 0)) as [H1 H2]; [done|split; [constructor|cbn; lia]|].
  set (s1 := fold_left _ (Images c) (MkVisionSelection [] 0)) in *. destruct (select_fold o c false E3 (Images c) s1) as [[H3 H4] H5]; [done|done|].
  split_and!; [done|lia|]. left. pose proof (classes_total (ImageRefs c) (Images c)). unfold handled in *. cbn in H2. lia.
Qed.
End Vision.

(** ** The body *)

Lemma sample_bound body maxChars spans : forall fuel allowance, (runeCount (sample_go fuel body maxChars spans allowance) <= Nat.max maxChars (runeCount truncation_notice))%nat.
Proof.
  induction fuel as [|fuel IH]; intros allowance; cbn [sample_go]; set (cut := settle_cut spans (runeByteOffset body allowance)).
  - destruct (Nat.leb_spec (runeCount (take cut body) + runeCount (truncation_notice ++ closing_tags spans cut)) maxChars); cbn [orb].
    + destruct (allowance =? 0)%nat; [lia|]. pose proof (runeCount_app (take cut body) (truncation_notice ++ closing_tags spans cut)). lia.
    + destruct (allowance =? 0)%nat; lia.
  - destruct (Nat.leb_spec (runeCount (take cut body) + runeCount (truncation_notice ++ closing_tags spans cut)) maxChars); cbn [orb].
    + destruct (allowance =? 0)%nat; [lia|]. pose proof (runeCount_app (take cut body) (truncation_notice ++ closing_tags spans cut)). lia.
    + destruct (allowance =? 0)%nat; [lia|]. apply IH.
Qed.
Lemma cut_count body n : (runeCount (take (runeByteOffset body n) body) <= n)%nat.
Proof.
  unfold runeByteOffset. destruct (n <=? runeCount body)%nat eqn:E; [|rewrite take_0; cbn; lia].
  assert (Hf : take (length (flatten_runes (take n (rune_chunks body)))) body = flatten_runes (take n (rune_chunks body))).
  { rewrite <- (rune_chunks_flatten body) at 2. rewrite <- (take_drop n (rune_chunks body)) at 2. unfold flatten_runes. rewrite fmap_app, concat_app. apply take_app_length. }
  rewrite Hf. unfold flatten_runes. etransitivity; [apply pieces_count|rewrite length_fmap, length_take; lia]. rewrite fmap_take. apply Forall_take, chunks_pieces.
Qed.
Lemma sampled_bound body maxChars spans : (runeCount (sampleAttachmentBody body maxChars spans) <= maxChars + runeCount truncation_notice)%nat.
Proof.
  unfold sampleAttachmentBody. destruct spans as [|s spans].
  - unfold truncateOverlongBody. destruct (maxChars <? 1)%nat; [cbn; lia|]. pose proof (runeCount_app (take (runeByteOffset body maxChars) body) truncation_notice). pose proof (cut_count body maxChars). lia.
  - destruct (maxChars <? 1)%nat; [cbn; lia|]. pose proof (sample_bound body maxChars (s :: spans) maxChars maxChars). lia.
Qed.
Lemma selected_bound c maxChars : (runeCount (sb_body (selectProcessedBody c maxChars)) <= maxChars + runeCount truncation_notice + runeCount extraction_notice)%nat.
Proof.
  unfold selectProcessedBody. destruct (if (maxChars <? runeCount (t_bytes (Text c)))%nat && HasConcealedContent c then (t_bytes (StrippedText c), StrippedAttachments c) else (t_bytes (Text c), TextAttachments c)) as [body spans]. cbn [sb_body].
  assert (Hb : (runeCount (if (maxChars <? runeCount body)%nat then sampleAttachmentBody body maxChars spans else body) <= maxChars + runeCount truncation_notice)%nat).
  { destruct (Nat.ltb_spec maxChars (runeCount body)); [apply sampled_bound|lia]. }
  destruct (ExtractionIncomplete c); [|lia]. pose proof (runeCount_app (if (maxChars <? runeCount body)%nat then sampleAttachmentBody body maxChars spans else body) extraction_notice). lia.
Qed.

(** ** Claims *)

(** C17: what a sender controls cannot add lines to the evidence of a prompt. The
    connection section is exactly seven lines of printable characters whatever the
    client said, each value at most 255 characters and never empty; the selected
    headers take one line per value beside the title; and every one of these lines
    and of the lines about recipients is free of line breaks. *)
Theorem evidence_lines_fixed {UT : UnicodeTables} {NM : NetMail} {HD : HeaderDecoder} (info : ConnectionInfo) (m : Message) (authenticated : bool) :
  0 <= FromHeaderCount m ->
  writeConnectionInformation info = lines_of (connection_lines info) /\ length (connection_lines info) = 7%nat /\ Forall printable (connection_lines info) /\
  (forall v, (runeCount (connectionValue v) <= maxConnectionValueRunes)%nat /\ connectionValue v <> []) /\
  Forall single_line (header_lines_of m authenticated) /\
  length (header_lines_of m authenticated) =
    (2 + (if (1 <? FromHeaderCount m)%Z then 1 else 0) + sum_list ((λ key, length (decodedHeaderValues m key)) <$> prompt_keys m authenticated))%nat /\
  Forall single_line (recipient_lines m).
Proof.
  intros Hf. destruct (connection_lines_ok info) as [H1 H2]. destruct (shown_headers_ok m authenticated Hf) as [H3 H4]. split_and!; try done; [|apply recipient_lines_ok].
  intros v. by destruct (connection_value_ok v) as (_ & ? & ?).
Qed.

(** images sent with a prompt stay within their limits, and none disappears
    unnoticed. Every image sent is one of the message, at most the allowed number,
    bytes and pixels, of a known format whose header could be decoded; and the
    images sent and the images reported as omitted are together all images, unless
    images were not asked for. *)
Theorem vision_selection_exact {IL : ImageLibrary} (c : extractedContent) (o : VisionOptions) :
  let s := selectVisionImages c o in
  Forall (image_ok o c) (vs_images s) /\ Z.of_nat (length (vs_images s)) <= Z.max 0 (vo_MaxImages o) /\
  ((length (vs_images s) + vs_omitted s)%nat = length (Images c) \/
   (vs_images s = [] /\ vs_omitted s = 0%nat /\ beq (vo_Mode o) (lit "always") = false /\
    (beq (vo_Mode o) (lit "fallback") = true -> vo_MinTextChars o <= Z.of_nat (ConfidentVisibleChars c)))).
Proof. apply selection_ok. Qed.

(** The text a prompt is made of: the one without concealed parts when there are
    such parts and the whole text is over the limit. *)
Definition chosen_text (c : extractedContent) (maxChars : nat) : gostring * list attachmentSpan :=
  if (maxChars <? runeCount (t_bytes (Text c)))%nat && HasConcealedContent c
  then (t_bytes (StrippedText c), StrippedAttachments c) else (t_bytes (Text c), TextAttachments c).
(** What may become of a text over the limit: its first characters and the notice
    if it has no attachments; a cut that splits no tag; the notice alone. *)
Definition cut_of (base : gostring) (spans : list attachmentSpan) (maxChars : nat) (body : gostring) : Prop :=
  (spans = [] /\ body = truncateOverlongBody base maxChars) \/ sampled base maxChars spans body \/
  body = truncation_notice \/ (maxChars = 0%nat /\ body = []).

Lemma sampled_cut base spans maxChars : spans_ok base spans -> (maxChars < runeCount base)%nat ->
  cut_of base spans maxChars (sampleAttachmentBody base maxChars spans).
Proof.
  intros Hs Hl. unfold sampleAttachmentBody. destruct spans as [|sp spans]; [by left|]. right.
  destruct (Nat.ltb_spec maxChars 1); [right; right; split; [lia|done]|].
  destruct (sample_go_spec base maxChars (sp :: spans) Hs maxChars maxChars) as [H'|H']; [lia..|by left|by right; left].
Qed.

(** C18: the body of a prompt is bounded, and cut without splitting the tags of
    attachments. Whatever was extracted, the body is never longer than the limit
    and the two notices, and a text within the limit is shown whole, followed by
    the notice of an incomplete extraction if there is one; the text is the one
    without concealed parts exactly when the whole text is over the limit and has
    such parts. A text over the limit whose offsets of attachments are true (as
    they are when it needed no repair of UTF-8) is cut after its first characters
    if it has no attachments, otherwise where no tag is split, with the tags that
    were open closed again, or gives way to the notice alone. *)
Theorem prompt_body_bounded (c : extractedContent) (maxChars : nat) :
  let s := selectProcessedBody c maxChars in
  let '(base, spans) := chosen_text c maxChars in
  (runeCount (sb_body s) <= maxChars + runeCount truncation_notice + runeCount extraction_notice)%nat /\
  (sb_truncated s = true <-> (maxChars < runeCount base)%nat) /\
  exists body, sb_body s = body ++ (if ExtractionIncomplete c then extraction_notice else []) /\
    (sb_truncated s = false -> body = base) /\
    (sb_truncated s = true -> spans_ok base spans -> cut_of base spans maxChars body).
Proof.
  cbv zeta. destruct (chosen_text c maxChars) as [base spans] eqn:Ec. split; [apply selected_bound|].
  unfold selectProcessedBody. fold (chosen_text c maxChars). rewrite Ec. cbn [sb_body sb_truncated].
  split; [apply Nat.ltb_lt|]. eexists. split; [|split].
  - destruct (ExtractionIncomplete c); [reflexivity|by rewrite app_nil_r].
  - by intros ->.
  - intros Hl Hs. rewrite Hl. apply sampled_cut; [done|by apply Nat.ltb_lt].
Qed.

(** ** Witnesses, and a message whose text is dropped *)

Module Sample.
#[local] Instance tables : UnicodeTables := basic_tables.
#[local] Instance urls : UrlText := {| urlParse s := Some (MkURL [] [] [] [] false s); pathUnescape := Some |}.
#[local] Instance details : UrlDetails := {| forceQuery _ := false; escapedFragment s := s |}.
#[local] Instance html : HtmlLibrary :=
  {| format_g6 _ := []; parse_float _ := None; url_string s := s; resolve_reference _ s := s; word_rune _ := true; parse_fragment _ := None |}.
#[local] Instance decoder : HeaderDecoder := {| word_decode := Some |}.
#[local] Instance mail : NetMail := simple_mail.

(** A client that tries to add a line. *)
Definition forged : ConnectionInfo :=
  MkConnectionInfo (lit "192.0.2.1") [] (lit "host" ++ [CR; LF] ++ lit "Forward-confirmed reverse DNS: yes") [] ReverseDNSAbsent [].
Definition subject_mail : Message := AddHeader (Message.New 0 10000) (lit "Subject") (lit "one" ++ [LF] ++ lit "two").
Lemma evidence_lines_fixed_witness :
  length (connection_lines forged) = 7%nat /\ length (header_lines_of subject_mail false) = 3%nat /\ Forall single_line (header_lines_of subject_mail false).
Proof.
  destruct (evidence_lines_fixed forged subject_mail false) as (_ & H1 & _ & _ & H2 & H3 & _); [by vm_compute|]. split; [exact H1|]. split; [rewrite H3; by vm_compute|exact H2].
Defined.

(** An attached message over the limit: the cut falls in its text, and its tag is
    closed again. *)
Definition long_attached : extractedContent :=
  with_texts (literal sample_body.1) no_text no_text sample_body.2 [] [] no_content.
Lemma prompt_body_bounded_witness :
  let s := selectProcessedBody long_attached 120 in
  hasPrefix (sb_body s) (lit "<attached-email>") = true /\ hasSuffix (sb_body s) (lit "</attached-email>") = true /\
  (runeCount (sb_body s) <= 120 + runeCount truncation_notice + runeCount extraction_notice)%nat /\
  exists body, sb_body s = body ++ [] /\ cut_of sample_body.1 sample_body.2 120 body.
Proof.
  cbv zeta. split; [by vm_compute|]. split; [by vm_compute|].
  pose proof (prompt_body_bounded long_attached 120) as H. cbv zeta in H.
  change (chosen_text long_attached 120) with (sample_body.1, sample_body.2) in H.
  destruct H as (Hb & _ & body & He & _ & Hc). split; [exact Hb|]. exists body. split; [exact He|].
  apply Hc; [by vm_compute|]. apply (wrap_text_ok sample_tag _ sample_text [] []); [done|apply spans_nil].
Defined.

(** Two HTML parts: the first has concealed text; the second meets the limit of CPU
    time in both stages, after its text was read. *)
Definition judged (l : label) : option visibility := Some (MkVisibility l ReasonDisplayNone 1 []).
Definition first_page : node := Node DocumentNode [] [] None [Node TextNode (lit "Hidden") [] (judged LabelConcealed) []; Node TextNode (lit "Shown") [] (judged LabelVisible) []].
Definition second_text : gostring := lit "the text of the second part...".
Definition html_part (body : gostring) : mimePart := MkPart (lit "text/html") [] [] [] body false.
#[local] Instance library : MimeLibrary := {|
  media_type s := (s, [(lit "boundary", lit "b")], false);
  base64_std s := (s, true); base64_raw s := (s, true); quoted_printable s := (s, true);
  charset_name _ := None; charset_decode _ _ _ := None; charset_detect s _ := Some s;
  multipart_read _ _ := ([html_part (lit "1"); html_part (lit "2")], true);
  html_tokens s := ([TextToken second_text; OtherToken], false);
  analyze_html _ _ := HtmlDocument first_page false false; analyze_css _ _ := 0 |}.
Definition mixed_settings : settings := MkSettings 0 true true true false false.
Definition two_pages : Message := set_headers {[lit "content-type" := [lit "multipart/mixed"]]} (Message.New 0 10000).
Definition late_stops : list (list demand) := repeat [] 12 ++ [[CheckStage (Some StopCPU)]] ++ repeat [] 9 ++ [[CheckStage (Some StopCPU)]].

(** text that was retained can still be left out of the prompt. When an
    extraction ends in a part, the part keeps its text and takes over from its
    siblings that content was concealed, but has no text without concealed parts:
    if the text is over the limit, the body of the prompt is only the notice, and
    it does not count as truncated. *)
Theorem retained_text_dropped :
  match processedContent mixed_settings two_pages (new_budget mixed_settings 10000 late_stops []) with
  | (ResourceGuard.Returned c, _) => t_bytes (Text c) = second_text ++ lit " " /\ HasConcealedContent c = true /\ selectProcessedBody c 20 = MkSelected extraction_notice false true
  | _ => False
  end.
Proof. by vm_compute. Qed.
End Sample.
