(* ===== verification/ScanPolicy.v ===== *)
(** * The attachment policy with its scanner

    Policy.v leaves the answer of the scanner open.  Here it is the scanner of
    Scanner.v, built from the configuration as composition.go builds it, run on
    the headers and the body of the message (attachment_policy.go). *)
From S2P Require Import Prelude GoText Protocol Message Policy.
From S2P Require Import ZipLimits ScanNames Scanner ScannerSpec ScannerProps.
Open Scope Z_scope.

(** [errors.As(err, &typedError)]: the first [*ScanError] of the chain. *)
Fixpoint as_scan_error (err : goerror) : option (bool * bool * gostring) :=
  match err with
  | ErrScan path encrypted malformed _ => Some (malformed, encrypted, path)
  | ErrWrap _ err => as_scan_error err
  | _ => None
  end.

Definition scan_answer (v : verdict) : scan_result :=
  match v with
  | VClean => ScanClean
  | VFound f => ScanFinding (f_Path f) (f_Detection f)
  | VError err => ScanError (as_scan_error err)
  | VStuck => ScanError None
  end.

Section Evaluate.
Context {UT : UnicodeTables} {NT : NameText} {RD : Readers}.

(** The body of [evaluate] after the slot was taken. *)
Definition scan_message (s : Scanner) (answers : list bool) (interruptions : list (option nat)) (msg : Message) : verdict :=
  (ScanContext s answers interruptions (FirstHeader msg (lit "Content-Type")) (FirstHeader msg (lit "Content-Transfer-Encoding"))
    (FirstHeader msg (lit "Content-Disposition")) (body msg)).1.
Definition evaluate_attachments (cfg : AttachmentsConfig) (s : Scanner) (answers : list bool) (interruptions : list (option nat)) (slot : bool) (msg : Message)
    : attachmentPolicyResult := attachment_evaluate (Some cfg) msg slot (scan_answer (scan_message s answers interruptions msg)).

(** A message as the scanner sees it. *)
Definition message_entity (msg : Message) : entity :=
  MkEntity (FirstHeader msg (lit "Content-Type")) (FirstHeader msg (lit "Content-Transfer-Encoding")) (FirstHeader msg (lit "Content-Disposition")) (body msg).

(** Nothing that could not be inspected is let through. *)
Definition strict (cfg : AttachmentsConfig) : Prop :=
  Forall (λ a, a = lit "reject" \/ a = lit "tempfail") [at_UnscannableAction cfg; at_EncryptedArchiveAction cfg] /\ at_InvalidMIMEAction cfg <> lit "accept".

Lemma strict_action a : a = lit "reject" \/ a = lit "tempfail" -> attachmentConfiguredAction a <> actionAccept.
Proof. by intros [-> | ->]. Qed.
Lemma strict_mime a : a <> lit "accept" -> invalidMIMEConfiguredAction a <> actionAccept.
Proof. intros Ha. unfold invalidMIMEConfiguredAction, beq. by rewrite bool_decide_eq_false_2. Qed.

(** Accepting means that the whole message was inspected. *)
Lemma accepted_mail_inspected (cfg : AttachmentsConfig) (s : Scanner) (answers : list bool) (interruptions : list (option nat)) (slot : bool) (msg : Message) :
  strict cfg -> limits_ok s ->
  let r := evaluate_attachments cfg s answers interruptions slot msg in
  ar_proposed r = actionAccept -> ar_cancelled r = false ->
  MIMEHeadersTruncated msg = false /\ BodyTruncated msg = false /\ clean_entity s false (message_entity msg).
Proof.
  intros [[Hu [He _]%Forall_cons]%Forall_cons Hm] Hl r. subst r. unfold evaluate_attachments, attachment_evaluate.
  destruct (MIMEHeadersTruncated msg); cbn [ar_proposed]; [by intros ?%strict_mime|]. destruct slot; cbn [negb ar_cancelled]; [|done].
  destruct (ScanContext_good s answers interruptions (FirstHeader msg (lit "Content-Type")) (FirstHeader msg (lit "Content-Transfer-Encoding"))
    (FirstHeader msg (lit "Content-Disposition")) (body msg) Hl) as [_ Hg]. fold (scan_message s answers interruptions msg) in Hg. fold (message_entity msg) in Hg.
  destruct (scan_message s answers interruptions msg) as [|f|err|]; cbn [scan_answer]; [|done| |done].
  - destruct (BodyTruncated msg); cbn [ar_proposed]; [by intros ?%strict_action|]. by intros _ _.
  - destruct (as_scan_error err) as [[[[] []] p]|]; cbn [ar_proposed]; try (by intros ?%strict_mime); by intros ?%strict_action.
Qed.
End Evaluate.

Definition report_mail : Message := set_body clean_mail (set_headers {[lit "content-type" := [multipart_x]]} (Message.New 0 10000)).
