(* ===== verification/Session.v ===== *)
(** * The Milter session (internal/milter/session.go, session_protocol.go, session_identity.go)

    One Milter connection as a state machine: [session] is the state of the Go
    struct, [handleCommand] the handler of one command.  A handler runs in the
    monad [M] over [St]: the session, the frames sent to the MTA, the schedule
    of write failures, the repositories and the requests to the rejection
    history, the archive, the activity recorder and the reply worker.

    What code outside this development decides during one command is the record
    [Oracle]: the answers of the scanner, the authentication verifier, the
    analyzer, the resolver, the exact-message factory, the extraction of a
    command message's text, the aliases file, and how often the progress ticker fired.  Logging has no effect
    on the state and is left out. *)
From Stdlib Require Import QArith.
From S2P Require Import Prelude GoText Calendar Rejections Activity AdminCmd AdminFormat AdminExec SmtpReply EmailCommands NetSafety MailAddr Protocol Message MailAuth ExactMessage SqlDb IPReputation Correspondents SenderBlocklist IPAllowlist Policy.
Open Scope Z_scope.
Import NetSafety.

Inductive protocolPhase := phaseNegotiation | phaseConnection | phaseEnvelope | phaseBody.
#[export] Instance protocolPhase_eq_dec : EqDecision protocolPhase.
Proof. solve_decision. Defined.

Definition maxEnvelopeRecipients : nat := 100.

Record authenticationState := MkAuthentication { Authenticated : bool; Identity : gostring }.
Definition noAuthentication := MkAuthentication false [].

Record pendingSenderBlocklist := MkPending {
  blockedRecipients : list gostring;
  remainingRecipients : list gostring;
  matchedSender : gostring;
  matchedKind : option SenderBlockKind;
}.

(** The Go interface [mailauth.ExactMessage]. *)
Class ExactStore (X : Type) := {
  x_step : X -> exact_op -> option exact_error * X;
  x_ReaderAt : X -> exact_error + (gostring * Z);
}.
#[export] Instance memory_exact : ExactStore memoryExactMessage := {| x_step := mem_step; x_ReaderAt := mem_ReaderAt |}.
#[export] Instance file_exact {F} `{FileOps F} : ExactStore (fileExactMessage F) := {| x_step := file_step; x_ReaderAt := file_ReaderAt |}.

Section Session.
Context {X : Type}.

Record session := MkSession {
  phase : protocolPhase;
  connected : bool;
  peerIP : Addr;
  peerHostname : gostring;
  mtaHostname : gostring;
  pendingMTAHostname : gostring;
  receiverIP : Addr;
  pendingReceiverIP : Addr;
  heloIdentity : gostring;
  smtpUTF8 : bool;
  authentication : authenticationState;
  envelopeSender : gostring;
  envelopeRecipients : list gostring;
  envelopeRecipientsTruncated : bool;
  visibleSender : gostring;
  visibleSenderDomain : gostring;
  visibleFromInvalid : bool;
  protectedSenderDomain : gostring;
  connectionDNS : connectionDNSResult;
  connectionDNSPending : bool;
  message : Message;
  exactMessage : option X;
  exactMessageErr : bool;
  negotiatedActions : Z;
  pendingSenderBlocks : option pendingSenderBlocklist;
  senderBlocklistFrom : list gostring;
  senderBlocklistFromTruncated : bool;
}.

Definition set_phase (v : protocolPhase) (r : session) : session :=
  MkSession v (connected r) (peerIP r) (peerHostname r) (mtaHostname r) (pendingMTAHostname r)
    (receiverIP r) (pendingReceiverIP r) (heloIdentity r) (smtpUTF8 r) (authentication r)
    (envelopeSender r) (envelopeRecipients r) (envelopeRecipientsTruncated r) (visibleSender r)
    (visibleSenderDomain r) (visibleFromInvalid r) (protectedSenderDomain r) (connectionDNS r)
    (connectionDNSPending r) (message r) (exactMessage r) (exactMessageErr r) (negotiatedActions
    r) (pendingSenderBlocks r) (senderBlocklistFrom r) (senderBlocklistFromTruncated r).
Definition set_connected (v : bool) (r : session) : session :=
  MkSession (phase r) v (peerIP r) (peerHostname r) (mtaHostname r) (pendingMTAHostname r)
    (receiverIP r) (pendingReceiverIP r) (heloIdentity r) (smtpUTF8 r) (authentication r)
    (envelopeSender r) (envelopeRecipients r) (envelopeRecipientsTruncated r) (visibleSender r)
    (visibleSenderDomain r) (visibleFromInvalid r) (protectedSenderDomain r) (connectionDNS r)
    (connectionDNSPending r) (message r) (exactMessage r) (exactMessageErr r) (negotiatedActions
    r) (pendingSenderBlocks r) (senderBlocklistFrom r) (senderBlocklistFromTruncated r).
Definition set_peerIP (v : Addr) (r : session) : session :=
  MkSession (phase r) (connected r) v (peerHostname r) (mtaHostname r) (pendingMTAHostname r)
    (receiverIP r) (pendingReceiverIP r) (heloIdentity r) (smtpUTF8 r) (authentication r)
    (envelopeSender r) (envelopeRecipients r) (envelopeRecipientsTruncated r) (visibleSender r)
    (visibleSenderDomain r) (visibleFromInvalid r) (protectedSenderDomain r) (connectionDNS r)
    (connectionDNSPending r) (message r) (exactMessage r) (exactMessageErr r) (negotiatedActions
    r) (pendingSenderBlocks r) (senderBlocklistFrom r) (senderBlocklistFromTruncated r).
Definition set_peerHostname (v : gostring) (r : session) : session :=
  MkSession (phase r) (connected r) (peerIP r) v (mtaHostname r) (pendingMTAHostname r)
    (receiverIP r) (pendingReceiverIP r) (heloIdentity r) (smtpUTF8 r) (authentication r)
    (envelopeSender r) (envelopeRecipients r) (envelopeRecipientsTruncated r) (visibleSender r)
    (visibleSenderDomain r) (visibleFromInvalid r) (protectedSenderDomain r) (connectionDNS r)
    (connectionDNSPending r) (message r) (exactMessage r) (exactMessageErr r) (negotiatedActions
    r) (pendingSenderBlocks r) (senderBlocklistFrom r) (senderBlocklistFromTruncated r).
Definition set_mtaHostname (v : gostring) (r : session) : session :=
  MkSession (phase r) (connected r) (peerIP r) (peerHostname r) v (pendingMTAHostname r)
    (receiverIP r) (pendingReceiverIP r) (heloIdentity r) (smtpUTF8 r) (authentication r)
    (envelopeSender r) (envelopeRecipients r) (envelopeRecipientsTruncated r) (visibleSender r)
    (visibleSenderDomain r) (visibleFromInvalid r) (protectedSenderDomain r) (connectionDNS r)
    (connectionDNSPending r) (message r) (exactMessage r) (exactMessageErr r) (negotiatedActions
    r) (pendingSenderBlocks r) (senderBlocklistFrom r) (senderBlocklistFromTruncated r).
Definition set_pendingMTAHostname (v : gostring) (r : session) : session :=
  MkSession (phase r) (connected r) (peerIP r) (peerHostname r) (mtaHostname r) v (receiverIP r)
    (pendingReceiverIP r) (heloIdentity r) (smtpUTF8 r) (authentication r) (envelopeSender r)
    (envelopeRecipients r) (envelopeRecipientsTruncated r) (visibleSender r)
    (visibleSenderDomain r) (visibleFromInvalid r) (protectedSenderDomain r) (connectionDNS r)
    (connectionDNSPending r) (message r) (exactMessage r) (exactMessageErr r) (negotiatedActions
    r) (pendingSenderBlocks r) (senderBlocklistFrom r) (senderBlocklistFromTruncated r).
Definition set_receiverIP (v : Addr) (r : session) : session :=
  MkSession (phase r) (connected r) (peerIP r) (peerHostname r) (mtaHostname r)
    (pendingMTAHostname r) v (pendingReceiverIP r) (heloIdentity r) (smtpUTF8 r) (authentication
    r) (envelopeSender r) (envelopeRecipients r) (envelopeRecipientsTruncated r) (visibleSender
    r) (visibleSenderDomain r) (visibleFromInvalid r) (protectedSenderDomain r) (connectionDNS
    r) (connectionDNSPending r) (message r) (exactMessage r) (exactMessageErr r)
    (negotiatedActions r) (pendingSenderBlocks r) (senderBlocklistFrom r)
    (senderBlocklistFromTruncated r).
Definition set_pendingReceiverIP (v : Addr) (r : session) : session :=
  MkSession (phase r) (connected r) (peerIP r) (peerHostname r) (mtaHostname r)
    (pendingMTAHostname r) (receiverIP r) v (heloIdentity r) (smtpUTF8 r) (authentication r)
    (envelopeSender r) (envelopeRecipients r) (envelopeRecipientsTruncated r) (visibleSender r)
    (visibleSenderDomain r) (visibleFromInvalid r) (protectedSenderDomain r) (connectionDNS r)
    (connectionDNSPending r) (message r) (exactMessage r) (exactMessageErr r) (negotiatedActions
    r) (pendingSenderBlocks r) (senderBlocklistFrom r) (senderBlocklistFromTruncated r).
Definition set_heloIdentity (v : gostring) (r : session) : session :=
  MkSession (phase r) (connected r) (peerIP r) (peerHostname r) (mtaHostname r)
    (pendingMTAHostname r) (receiverIP r) (pendingReceiverIP r) v (smtpUTF8 r) (authentication
    r) (envelopeSender r) (envelopeRecipients r) (envelopeRecipientsTruncated r) (visibleSender
    r) (visibleSenderDomain r) (visibleFromInvalid r) (protectedSenderDomain r) (connectionDNS
    r) (connectionDNSPending r) (message r) (exactMessage r) (exactMessageErr r)
    (negotiatedActions r) (pendingSenderBlocks r) (senderBlocklistFrom r)
    (senderBlocklistFromTruncated r).
Definition set_smtpUTF8 (v : bool) (r : session) : session :=
  MkSession (phase r) (connected r) (peerIP r) (peerHostname r) (mtaHostname r)
    (pendingMTAHostname r) (receiverIP r) (pendingReceiverIP r) (heloIdentity r) v
    (authentication r) (envelopeSender r) (envelopeRecipients r) (envelopeRecipientsTruncated r)
    (visibleSender r) (visibleSenderDomain r) (visibleFromInvalid r) (protectedSenderDomain r)
    (connectionDNS r) (connectionDNSPending r) (message r) (exactMessage r) (exactMessageErr r)
    (negotiatedActions r) (pendingSenderBlocks r) (senderBlocklistFrom r)
    (senderBlocklistFromTruncated r).
Definition set_authentication (v : authenticationState) (r : session) : session :=
  MkSession (phase r) (connected r) (peerIP r) (peerHostname r) (mtaHostname r)
    (pendingMTAHostname r) (receiverIP r) (pendingReceiverIP r) (heloIdentity r) (smtpUTF8 r) v
    (envelopeSender r) (envelopeRecipients r) (envelopeRecipientsTruncated r) (visibleSender r)
    (visibleSenderDomain r) (visibleFromInvalid r) (protectedSenderDomain r) (connectionDNS r)
    (connectionDNSPending r) (message r) (exactMessage r) (exactMessageErr r) (negotiatedActions
    r) (pendingSenderBlocks r) (senderBlocklistFrom r) (senderBlocklistFromTruncated r).
Definition set_envelopeSender (v : gostring) (r : session) : session :=
  MkSession (phase r) (connected r) (peerIP r) (peerHostname r) (mtaHostname r)
    (pendingMTAHostname r) (receiverIP r) (pendingReceiverIP r) (heloIdentity r) (smtpUTF8 r)
    (authentication r) v (envelopeRecipients r) (envelopeRecipientsTruncated r) (visibleSender
    r) (visibleSenderDomain r) (visibleFromInvalid r) (protectedSenderDomain r) (connectionDNS
    r) (connectionDNSPending r) (message r) (exactMessage r) (exactMessageErr r)
    (negotiatedActions r) (pendingSenderBlocks r) (senderBlocklistFrom r)
    (senderBlocklistFromTruncated r).
Definition set_envelopeRecipients (v : list gostring) (r : session) : session :=
  MkSession (phase r) (connected r) (peerIP r) (peerHostname r) (mtaHostname r)
    (pendingMTAHostname r) (receiverIP r) (pendingReceiverIP r) (heloIdentity r) (smtpUTF8 r)
    (authentication r) (envelopeSender r) v (envelopeRecipientsTruncated r) (visibleSender r)
    (visibleSenderDomain r) (visibleFromInvalid r) (protectedSenderDomain r) (connectionDNS r)
    (connectionDNSPending r) (message r) (exactMessage r) (exactMessageErr r) (negotiatedActions
    r) (pendingSenderBlocks r) (senderBlocklistFrom r) (senderBlocklistFromTruncated r).
Definition set_envelopeRecipientsTruncated (v : bool) (r : session) : session :=
  MkSession (phase r) (connected r) (peerIP r) (peerHostname r) (mtaHostname r)
    (pendingMTAHostname r) (receiverIP r) (pendingReceiverIP r) (heloIdentity r) (smtpUTF8 r)
    (authentication r) (envelopeSender r) (envelopeRecipients r) v (visibleSender r)
    (visibleSenderDomain r) (visibleFromInvalid r) (protectedSenderDomain r) (connectionDNS r)
    (connectionDNSPending r) (message r) (exactMessage r) (exactMessageErr r) (negotiatedActions
    r) (pendingSenderBlocks r) (senderBlocklistFrom r) (senderBlocklistFromTruncated r).
Definition set_visibleSender (v : gostring) (r : session) : session :=
  MkSession (phase r) (connected r) (peerIP r) (peerHostname r) (mtaHostname r)
    (pendingMTAHostname r) (receiverIP r) (pendingReceiverIP r) (heloIdentity r) (smtpUTF8 r)
    (authentication r) (envelopeSender r) (envelopeRecipients r) (envelopeRecipientsTruncated r)
    v (visibleSenderDomain r) (visibleFromInvalid r) (protectedSenderDomain r) (connectionDNS r)
    (connectionDNSPending r) (message r) (exactMessage r) (exactMessageErr r) (negotiatedActions
    r) (pendingSenderBlocks r) (senderBlocklistFrom r) (senderBlocklistFromTruncated r).
Definition set_visibleSenderDomain (v : gostring) (r : session) : session :=
  MkSession (phase r) (connected r) (peerIP r) (peerHostname r) (mtaHostname r)
    (pendingMTAHostname r) (receiverIP r) (pendingReceiverIP r) (heloIdentity r) (smtpUTF8 r)
    (authentication r) (envelopeSender r) (envelopeRecipients r) (envelopeRecipientsTruncated r)
    (visibleSender r) v (visibleFromInvalid r) (protectedSenderDomain r) (connectionDNS r)
    (connectionDNSPending r) (message r) (exactMessage r) (exactMessageErr r) (negotiatedActions
    r) (pendingSenderBlocks r) (senderBlocklistFrom r) (senderBlocklistFromTruncated r).
Definition set_visibleFromInvalid (v : bool) (r : session) : session :=
  MkSession (phase r) (connected r) (peerIP r) (peerHostname r) (mtaHostname r)
    (pendingMTAHostname r) (receiverIP r) (pendingReceiverIP r) (heloIdentity r) (smtpUTF8 r)
    (authentication r) (envelopeSender r) (envelopeRecipients r) (envelopeRecipientsTruncated r)
    (visibleSender r) (visibleSenderDomain r) v (protectedSenderDomain r) (connectionDNS r)
    (connectionDNSPending r) (message r) (exactMessage r) (exactMessageErr r) (negotiatedActions
    r) (pendingSenderBlocks r) (senderBlocklistFrom r) (senderBlocklistFromTruncated r).
Definition set_protectedSenderDomain (v : gostring) (r : session) : session :=
  MkSession (phase r) (connected r) (peerIP r) (peerHostname r) (mtaHostname r)
    (pendingMTAHostname r) (receiverIP r) (pendingReceiverIP r) (heloIdentity r) (smtpUTF8 r)
    (authentication r) (envelopeSender r) (envelopeRecipients r) (envelopeRecipientsTruncated r)
    (visibleSender r) (visibleSenderDomain r) (visibleFromInvalid r) v (connectionDNS r)
    (connectionDNSPending r) (message r) (exactMessage r) (exactMessageErr r) (negotiatedActions
    r) (pendingSenderBlocks r) (senderBlocklistFrom r) (senderBlocklistFromTruncated r).
Definition set_connectionDNS (v : connectionDNSResult) (r : session) : session :=
  MkSession (phase r) (connected r) (peerIP r) (peerHostname r) (mtaHostname r)
    (pendingMTAHostname r) (receiverIP r) (pendingReceiverIP r) (heloIdentity r) (smtpUTF8 r)
    (authentication r) (envelopeSender r) (envelopeRecipients r) (envelopeRecipientsTruncated r)
    (visibleSender r) (visibleSenderDomain r) (visibleFromInvalid r) (protectedSenderDomain r) v
    (connectionDNSPending r) (message r) (exactMessage r) (exactMessageErr r) (negotiatedActions
    r) (pendingSenderBlocks r) (senderBlocklistFrom r) (senderBlocklistFromTruncated r).
Definition set_connectionDNSPending (v : bool) (r : session) : session :=
  MkSession (phase r) (connected r) (peerIP r) (peerHostname r) (mtaHostname r)
    (pendingMTAHostname r) (receiverIP r) (pendingReceiverIP r) (heloIdentity r) (smtpUTF8 r)
    (authentication r) (envelopeSender r) (envelopeRecipients r) (envelopeRecipientsTruncated r)
    (visibleSender r) (visibleSenderDomain r) (visibleFromInvalid r) (protectedSenderDomain r)
    (connectionDNS r) v (message r) (exactMessage r) (exactMessageErr r) (negotiatedActions r)
    (pendingSenderBlocks r) (senderBlocklistFrom r) (senderBlocklistFromTruncated r).
Definition set_message (v : Message) (r : session) : session :=
  MkSession (phase r) (connected r) (peerIP r) (peerHostname r) (mtaHostname r)
    (pendingMTAHostname r) (receiverIP r) (pendingReceiverIP r) (heloIdentity r) (smtpUTF8 r)
    (authentication r) (envelopeSender r) (envelopeRecipients r) (envelopeRecipientsTruncated r)
    (visibleSender r) (visibleSenderDomain r) (visibleFromInvalid r) (protectedSenderDomain r)
    (connectionDNS r) (connectionDNSPending r) v (exactMessage r) (exactMessageErr r)
    (negotiatedActions r) (pendingSenderBlocks r) (senderBlocklistFrom r)
    (senderBlocklistFromTruncated r).
Definition set_exactMessage (v : option X) (r : session) : session :=
  MkSession (phase r) (connected r) (peerIP r) (peerHostname r) (mtaHostname r)
    (pendingMTAHostname r) (receiverIP r) (pendingReceiverIP r) (heloIdentity r) (smtpUTF8 r)
    (authentication r) (envelopeSender r) (envelopeRecipients r) (envelopeRecipientsTruncated r)
    (visibleSender r) (visibleSenderDomain r) (visibleFromInvalid r) (protectedSenderDomain r)
    (connectionDNS r) (connectionDNSPending r) (message r) v (exactMessageErr r)
    (negotiatedActions r) (pendingSenderBlocks r) (senderBlocklistFrom r)
    (senderBlocklistFromTruncated r).
Definition set_exactMessageErr (v : bool) (r : session) : session :=
  MkSession (phase r) (connected r) (peerIP r) (peerHostname r) (mtaHostname r)
    (pendingMTAHostname r) (receiverIP r) (pendingReceiverIP r) (heloIdentity r) (smtpUTF8 r)
    (authentication r) (envelopeSender r) (envelopeRecipients r) (envelopeRecipientsTruncated r)
    (visibleSender r) (visibleSenderDomain r) (visibleFromInvalid r) (protectedSenderDomain r)
    (connectionDNS r) (connectionDNSPending r) (message r) (exactMessage r) v (negotiatedActions
    r) (pendingSenderBlocks r) (senderBlocklistFrom r) (senderBlocklistFromTruncated r).
Definition set_negotiatedActions (v : Z) (r : session) : session :=
  MkSession (phase r) (connected r) (peerIP r) (peerHostname r) (mtaHostname r)
    (pendingMTAHostname r) (receiverIP r) (pendingReceiverIP r) (heloIdentity r) (smtpUTF8 r)
    (authentication r) (envelopeSender r) (envelopeRecipients r) (envelopeRecipientsTruncated r)
    (visibleSender r) (visibleSenderDomain r) (visibleFromInvalid r) (protectedSenderDomain r)
    (connectionDNS r) (connectionDNSPending r) (message r) (exactMessage r) (exactMessageErr r)
    v (pendingSenderBlocks r) (senderBlocklistFrom r) (senderBlocklistFromTruncated r).
Definition set_pendingSenderBlocks (v : option pendingSenderBlocklist) (r : session) : session :=
  MkSession (phase r) (connected r) (peerIP r) (peerHostname r) (mtaHostname r)
    (pendingMTAHostname r) (receiverIP r) (pendingReceiverIP r) (heloIdentity r) (smtpUTF8 r)
    (authentication r) (envelopeSender r) (envelopeRecipients r) (envelopeRecipientsTruncated r)
    (visibleSender r) (visibleSenderDomain r) (visibleFromInvalid r) (protectedSenderDomain r)
    (connectionDNS r) (connectionDNSPending r) (message r) (exactMessage r) (exactMessageErr r)
    (negotiatedActions r) v (senderBlocklistFrom r) (senderBlocklistFromTruncated r).
Definition set_senderBlocklistFrom (v : list gostring) (r : session) : session :=
  MkSession (phase r) (connected r) (peerIP r) (peerHostname r) (mtaHostname r)
    (pendingMTAHostname r) (receiverIP r) (pendingReceiverIP r) (heloIdentity r) (smtpUTF8 r)
    (authentication r) (envelopeSender r) (envelopeRecipients r) (envelopeRecipientsTruncated r)
    (visibleSender r) (visibleSenderDomain r) (visibleFromInvalid r) (protectedSenderDomain r)
    (connectionDNS r) (connectionDNSPending r) (message r) (exactMessage r) (exactMessageErr r)
    (negotiatedActions r) (pendingSenderBlocks r) v (senderBlocklistFromTruncated r).
Definition set_senderBlocklistFromTruncated (v : bool) (r : session) : session :=
  MkSession (phase r) (connected r) (peerIP r) (peerHostname r) (mtaHostname r)
    (pendingMTAHostname r) (receiverIP r) (pendingReceiverIP r) (heloIdentity r) (smtpUTF8 r)
    (authentication r) (envelopeSender r) (envelopeRecipients r) (envelopeRecipientsTruncated r)
    (visibleSender r) (visibleSenderDomain r) (visibleFromInvalid r) (protectedSenderDomain r)
    (connectionDNS r) (connectionDNSPending r) (message r) (exactMessage r) (exactMessageErr r)
    (negotiatedActions r) (pendingSenderBlocks r) (senderBlocklistFrom r) v.
End Session.
Arguments session : clear implicits.

(** ** Configuration and the world around a session *)

Record EmailCommandsConfig := MkEmailCommandsConfig {
  ec_Enabled : bool;
  ec_recipient : gostring;
  ec_internalToken : gostring;
  ec_Administrators : list gostring;
  ec_AllowAuthenticatedUsers : bool;
  ec_VerifySenderViaAliases : bool;
  ec_Recipient : gostring;
  ec_SendReplies : bool;
}.

Record SenderBlocklistConfig := MkSenderBlocklistConfig { sbc_RejectMessage : gostring; sbc_IncludeSubdomains : bool }.

(** [sessionDependencies], the parts that decide behaviour. *)
Record Deps := MkDeps {
  mode : gostring;
  RejectMessage : gostring;
  AddEmailHeaders : bool;
  ScanAuthenticated : bool;
  SenderDomainAllowlist : list gostring;
  SenderDomainAllowlistRequireAuthentication : bool;
  AuthenticatedOnlySenderDomains : list gostring;
  RejectScore : Q;
  LowConfidenceScore : Q;
  AIErrorAction : gostring;
  HTMLResourceLimitAction : gostring;
  IncompleteBodyAction : gostring;
  maxMessageSize : Z;
  internalAuthentication : bool;
  trustRequirement : gostring;
  correspondentCfg : CorrespondentsConfig;
  ipReputation : ipReputationStore;
  senderBlocklist : option SenderBlocklistConfig;
  attachments : option AttachmentsConfig;
  commands : EmailCommandsConfig;
  dnsLookups : bool;
  formatScore : Q -> gostring;
  archive : bool;
  parseMediaType : gostring -> option gostring;
}.

(** [mailauth.Transaction] *)
Record Transaction := MkTransaction {
  tr_RemoteIP : Addr;
  tr_HELO : gostring;
  tr_EnvelopeSender : gostring;
  tr_ReceiverHostname : gostring;
  tr_ReceiverIP : Addr;
  tr_VisibleFromDomain : gostring;
  tr_VisibleFromInvalid : bool;
  tr_SMTPUTF8 : bool;
  tr_AuthenticationResults : list gostring;
  tr_ReceivedSPF : list gostring;
  tr_TrustedAuthservIDs : list gostring;
  tr_Message : option (gostring * Z);
}.

(** How a worker goroutine ends: with its result, or the context first. *)
Inductive worker_end := WorkerDone | WorkerInterrupted.

(** What happens outside during one command. *)
Record Oracle (W X : Type) := MkOracle {
  or_deadline : bool;
  or_dns : option connectionDNSResult;
  or_exact : option (exact_error + X);
  or_verify : Transaction -> Evidence * bool;
  or_verifyTicks : nat;
  or_verifyEnd : worker_end;
  or_scanSlot : bool;
  or_scan : scan_result;
  or_analysis : analysis_inputs;
  or_analysisTicks : nat;
  or_analysisEnd : worker_end;
  or_aliasesFile : option gostring;
  or_extractionSlot : bool;
  or_extraction : command_extraction;
  or_replySlot : bool;
  or_rejectionSaved : bool;
}.
Arguments or_deadline {W X}. Arguments or_dns {W X}. Arguments or_exact {W X}. Arguments or_verify {W X}.
Arguments or_verifyTicks {W X}. Arguments or_verifyEnd {W X}. Arguments or_scanSlot {W X}. Arguments or_scan {W X}.
Arguments or_analysis {W X}. Arguments or_analysisTicks {W X}. Arguments or_analysisEnd {W X}. Arguments or_aliasesFile {W X}.
Arguments or_extractionSlot {W X}. Arguments or_extraction {W X}. Arguments or_replySlot {W X}. Arguments or_rejectionSaved {W X}.

(** What a queued reply is rendered from: a fixed text, or the commands with
    their responses ([EmailCommands.render_reply]). *)
Inductive reply_request := ReplyText (text : gostring) | ReplyCommands (parts : list (Command * DeferredResponse)).

(** Requests to the rejection history, the archive, the activity recorder and the
    worker that sends replies, in order. *)
Inductive call :=
  | CallRejection (visibleSender envelopeSender subject : gostring) (recipients reasons : list gostring)
  | CallArchive (contents : gostring) (withRecordID : bool)
  | CallActivity (type : ActivityEventType) (outcome : ActivityOutcome) (analysisFailed : bool) (quantity : Z)
  | CallReply (recipient subject : gostring) (request : reply_request).

(** [wfail]: whether each of the next writes fails; afterwards they succeed. *)
Record St (W X : Type) := MkSt { ss : session X; sent : list gostring; wfail : list bool; store : W; calls : list call }.
Arguments MkSt {W X}. Arguments ss {W X}. Arguments sent {W X}. Arguments wfail {W X}. Arguments store {W X}. Arguments calls {W X}.

Definition M (W X A : Type) : Type := St W X -> A * St W X.

Declare Scope session_scope.
Delimit Scope session_scope with session.

Section Monad.
Context {W X : Type}.
Definition ret {A} (a : A) : M W X A := λ s, (a, s).
Definition bind {A B} (m : M W X A) (k : A -> M W X B) : M W X B := λ s, let '(a, s) := m s in k a s.
Definition gets {A} (f : session X -> A) : M W X A := λ s, (f (ss s), s).
Definition modify (f : session X -> session X) : M W X unit := λ s, (tt, MkSt (f (ss s)) (sent s) (wfail s) (store s) (calls s)).
Definition record (c : call) : M W X unit := λ s, (tt, MkSt (ss s) (sent s) (wfail s) (store s) (calls s ++ [c])).
Definition on_store {A} (f : W -> A * W) : M W X A := λ s, let '(a, w) := f (store s) in (a, MkSt (ss s) (sent s) (wfail s) w (calls s)).
(** [writeFrame] of one response; the result tells whether it was sent. *)
Definition write (response : gostring) : M W X bool := λ s,
  match wfail s with
  | true :: rest => (false, MkSt (ss s) (sent s) rest (store s) (calls s))
  | false :: rest => (true, MkSt (ss s) (sent s ++ [response]) rest (store s) (calls s))
  | [] => (true, MkSt (ss s) (sent s ++ [response]) [] (store s) (calls s))
  end.
End Monad.

Notation "'let!' x := m 'in' k" := (bind m (λ x, k)) (at level 200, x binder, m at level 100, k at level 200, right associativity) : session_scope.
Notation "m ;; k" := (bind m (λ _, k)) (at level 100, right associativity) : session_scope.
Open Scope session_scope.

(** Writes frames in order until one fails. *)
Fixpoint write_all {W X} (frames : list gostring) : M W X bool :=
  match frames with
  | [] => ret true
  | f :: rest => let! ok := write f in if ok : bool then write_all rest else ret false
  end.

(** ** Frames of a session *)

Definition classificationHeader := lit "X-MilterGuard-Classification".
Definition scoreHeader := lit "X-MilterGuard-Score".
Definition confidenceHeader := lit "X-MilterGuard-Confidence".
Definition actionHeader := lit "X-MilterGuard-Action".
Definition policyHeader := lit "X-MilterGuard-Policy".
Definition acceptModeAction := lit "accepted-accept-mode".
Definition internalMessageHeader := lit "X-MilterGuard-Internal".
Definition resultHeaderNames : list gostring := [classificationHeader; scoreHeader; confidenceHeader; actionHeader; policyHeader].
Definition senderBlocklistReason := lit "Visible sender matched manual recipient blocklist".

(** Whether an action bit was negotiated. *)
Definition has_action (actions bit : Z) : bool := negb (Z.land actions bit =? 0).

Section Handlers.
Context `{UnicodeTables, NetMail, NetIPText, HeaderDecoder, PublicSuffix} {W X : Type} `{PolicyStores W, ExactStore X}.
Context (dp : Deps) (o : Oracle W X) (now : Z).
#[local] Abbreviation MM := (M W X).

Definition enforcing : bool := beq (mode dp) (lit "enforce").

(** ** Exact messages *)

Definition closeExactMessage : MM unit :=
  let! x := gets exactMessage in
  match x with
  | None => ret tt
  | Some x =>
      let '(e, _) := x_step x XClose in
      modify (λ s, set_exactMessage None (set_exactMessageErr (exactMessageErr s || bool_decide (e <> None)) s))
  end.

Definition captureExact (op : exact_op) : MM unit :=
  modify (λ s, match exactMessage s with
               | Some x => if exactMessageErr s then s
                           else let '(e, x) := x_step x op in set_exactMessage (Some x) (set_exactMessageErr (bool_decide (e <> None)) s)
               | None => s
               end).

Definition resetMessage (p : protocolPhase) : MM unit :=
  closeExactMessage ;;
  modify (λ s,
    let s := set_message (New now (maxMessageSize dp)) s in
    let s := set_exactMessageErr false s in
    let s := set_envelopeSender [] (set_envelopeRecipients [] (set_envelopeRecipientsTruncated false s)) in
    let s := set_visibleSender [] (set_visibleSenderDomain [] (set_visibleFromInvalid false s)) in
    let s := set_protectedSenderDomain [] (set_pendingSenderBlocks None s) in
    let s := set_senderBlocklistFrom [] (set_senderBlocklistFromTruncated false s) in
    let s := set_smtpUTF8 false (set_phase p s) in
    if negb (bool_decide (p = phaseEnvelope)) || negb (internalAuthentication dp) then set_exactMessage None s
    else match or_exact o with
         | None => set_exactMessageErr true (set_exactMessage None s)
         | Some (inl _) => set_exactMessageErr true (set_exactMessage None s)
         | Some (inr x) => set_exactMessage (Some x) s
         end).

(** ** Responses *)

Definition sendContinue : MM bool := write [responseContinue].

Definition confidenceLabel (score : Q) : gostring :=
  if negb (Qle_bool (LowConfidenceScore dp) score) then lit "low" else lit "high".

Definition replaceResultHeaders (headers : list (gostring * gostring)) : MM bool :=
  let! msg := gets message in
  let! actions := gets negotiatedActions in
  let received := List.filter (λ name, 0 <? HeaderOccurrences msg name) resultHeaderNames in
  let deletions := received ≫= λ name, replicate (Z.to_nat (HeaderOccurrences msg name)) (deleteHeaderResponse name) in
  let additions := if has_action actions actionAddHeaders then (λ h, addHeaderResponse h.1 h.2) <$> headers else [] in
  if has_action actions actionChangeHeaders then
    let! ok := write_all deletions in
    if ok : bool then write_all additions else ret false
  else if bool_decide (received <> []) then ret true
  else write_all additions.

Definition writeClassificationHeaders (classification : gostring) (score : option Q) (action : gostring) : MM bool :=
  replaceResultHeaders ([(classificationHeader, classification)] ++
    match score with
    | Some q => [(scoreHeader, formatScore dp q); (confidenceHeader, confidenceLabel q)]
    | None => [(confidenceHeader, lit "unavailable")]
    end ++ [(actionHeader, action)]).

Definition classification_text (c : Classification) : gostring :=
  match c with ClassificationLegitimate => lit "legitimate" | ClassificationUnwanted => lit "unwanted" | ClassificationOther s => s end.

Definition writeAcceptedResultHeaders (result : option evaluationResult) : MM bool :=
  if negb (AddEmailHeaders dp) then replaceResultHeaders []
  else match result with
       | None => writeClassificationHeaders (lit "not-scanned") None (lit "accepted-bypass")
       | Some result =>
           if er_incompleteInspection result then
             replaceResultHeaders [(classificationHeader, lit "not-scanned"); (confidenceHeader, lit "unavailable");
                                   (actionHeader, acceptModeAction); (policyHeader, incompleteInspectionPolicy)]
           else if er_err result && bool_decide (er_selected result = actionAccept) then
             replaceResultHeaders [(classificationHeader, lit "unavailable"); (confidenceHeader, lit "unavailable");
                                   (actionHeader, lit "accepted-ai-error")]
           else
             let action := if bool_decide (er_proposed result = actionReject) then acceptModeAction
                           else if bool_decide (er_classification result = ClassificationUnwanted) then lit "accepted-below-threshold"
                           else lit "accepted" in
             let classification := classification_text (er_classification result) in
             if beq classification [] then writeClassificationHeaders (lit "unavailable") None action
             else replaceResultHeaders [(classificationHeader, classification); (scoreHeader, formatScore dp (er_score result));
                                        (confidenceHeader, confidenceLabel (er_score result)); (actionHeader, action)]
       end.

Definition writePolicyResponse (selected : action) (rejectMessage : gostring) : MM bool :=
  let! pending := gets pendingSenderBlocks in
  let! ok := match selected, pending with
             | actionAccept, Some p => write_all (deleteRecipientResponse <$> blockedRecipients p)
             | _, _ => ret true
             end in
  if ok : bool then write (responseForAction selected rejectMessage) else ret false.

(** ** Effects after a decision *)

(** Adds the rejection to the history, and its copy to the archive; [source] is logged only. *)
Definition recordRejection (visible envelope : gostring) (recipients reasons : list gostring) (source : gostring) : MM unit :=
  let! msg := gets message in
  record (CallRejection visible envelope (DecodedHeader msg (lit "Subject")) recipients reasons) ;;
  if archive dp then record (CallArchive (ArchiveBytes msg) (or_rejectionSaved o)) else ret tt.
Definition recordDeterministic (type : ActivityEventType) (selected : action) (failed : bool) : MM unit :=
  record (CallActivity type (activityOutcome selected failed) false 0).
Definition recordScan (result : evaluationResult) (failed : bool) : MM unit :=
  record (CallActivity (scanEventType result) (activityOutcome (er_selected result) failed) (er_err result) 0).
Definition recordSenderBlocklist (outcome : ActivityOutcome) (quantity : Z) : MM unit :=
  record (CallActivity ActivityEventSenderBlocklist outcome false quantity).

Definition completeSenderBlocklistRemoval : MM unit :=
  let! pending := gets pendingSenderBlocks in
  match pending with
  | None => ret tt
  | Some p =>
      let! env := gets envelopeSender in
      recordRejection (matchedSender p) env (blockedRecipients p) [senderBlocklistReason] (lit "sender_blocklist") ;;
      recordSenderBlocklist ActivityOutcomeAccepted (Z.of_nat (length (blockedRecipients p)))
  end.

Definition awaitConnectionDNS : MM connectionDNSResult :=
  let! pending := gets connectionDNSPending in
  (if pending then modify (λ s, set_connectionDNSPending false
                             (set_connectionDNS (default (MkDNSResult ReverseDNSLookupFailed []) (or_dns o)) s))
   else ret tt) ;;
  gets connectionDNS.

Definition strike : MM unit :=
  let! dns := awaitConnectionDNS in
  let! ip := gets peerIP in
  let! _ := on_store (ip_add (ipReputation dp) ip dns now) in ret tt.

Definition recordLegitimateIP (addr : Addr) : MM unit :=
  let! _ := on_store (ip_RecordLegitimate (ipReputation dp) addr now) in ret tt.

Definition policyEnvelopeRecipients (s : session X) : list gostring :=
  match pendingSenderBlocks s with Some p => remainingRecipients p | None => envelopeRecipients s end.

Definition recipientSetComplete (s : session X) : bool :=
  if envelopeRecipientsTruncated s || bool_decide (envelopeRecipients s = []) then false
  else forallb (λ r, negb (beq (Normalize r) [])) (envelopeRecipients s).

Definition learnAuthenticatedRecipients : MM unit :=
  let! s := gets id in
  let! _ := on_store (st_LearnAuthenticated (envelopeSender s) (policyEnvelopeRecipients s) now) in ret tt.
Definition touchInboundCorrespondent : MM unit :=
  let! s := gets id in
  let! _ := on_store (st_TouchInbound (visibleSender s) (policyEnvelopeRecipients s) now) in ret tt.

Definition messageContext_of (recipientsComplete : bool) (s : session X) : messageContext :=
  MkMessageContext (peerIP s) (connectionDNS s) (Authenticated (authentication s)) (visibleSender s) (visibleSenderDomain s)
    (envelopeSender s) (policyEnvelopeRecipients s) recipientsComplete.

Definition correspondentVerdict (c : Classification) : option InboundVerdict :=
  match c with
  | ClassificationLegitimate => Some InboundVerdictLegitimate
  | ClassificationUnwanted => Some InboundVerdictUnwanted
  | ClassificationOther _ => None
  end.

Definition recordInboundClassification (current : messageContext) (result : evaluationResult) (authenticationSatisfied : bool) : MM unit :=
  match correspondentVerdict (er_classification result) with
  | None => ret tt
  | Some verdict =>
      let! _ := on_store (st_RecordInboundClassification
        (MkInboundClassification (mc_visibleSender current) (mc_envelopeRecipients current) (mc_recipientsComplete current)
           verdict (er_score result) (RejectScore dp) authenticationSatisfied) now) in ret tt
  end.

(** [messagePolicyService.applyPostDecisionUpdates] *)
Definition policy_updates (current : messageContext) (result : evaluationResult) (inbound : inboundEvidence) : MM unit :=
  let rejected := bool_decide (er_selected result = actionReject) in
  let reject_source source := recordRejection (mc_visibleSender current) (mc_envelopeSender current) (mc_envelopeRecipients current)
                                (er_reasons result) source in
  if er_incompleteInspection result then if rejected then reject_source incompleteInspectionPolicy else ret tt
  else
    let limited := er_htmlExceeded result && beq (er_htmlAction result) (lit "reject") in
    let anonymous := negb (mc_authenticated current) in
    (if rejected then
       reject_source (lit "ai") ;;
       (if anonymous && negb limited
        then let! _ := on_store (ip_add (ipReputation dp) (mc_peerIP current) (mc_connectionDNS current) now) in ret tt
        else ret tt)
     else ret tt) ;;
    (if anonymous && negb (er_err result) && bool_decide (er_classification result = ClassificationLegitimate)
     then recordLegitimateIP (mc_peerIP current) else ret tt) ;;
    (if bool_decide (er_selected result = actionAccept) && mc_authenticated current
     then let! _ := on_store (st_LearnAuthenticated (mc_envelopeSender current) (mc_envelopeRecipients current) now) in ret tt
     else ret tt) ;;
    (if anonymous && negb (er_err result) && negb (beq (mc_visibleSender current) []) && negb limited
     then recordInboundClassification current result (ie_trustRequirementMet inbound) else ret tt).

Definition applyPostDecisionUpdates (result : evaluationResult) (inbound : inboundEvidence) : MM unit :=
  if negb enforcing then ret tt
  else
    let! s := gets id in
    let current := messageContext_of (ie_recipientsComplete inbound) s in
    let current := if bool_decide (er_selected result = actionReject)
                   then MkMessageContext (mc_peerIP current) (mc_connectionDNS current) (mc_authenticated current)
                          (mc_visibleSender current) (mc_visibleSenderDomain current) (mc_envelopeSender current)
                          (envelopeRecipients s) (mc_recipientsComplete current)
                   else current in
    policy_updates current result inbound.

(** ** Final decisions *)

Definition finishBypassedMessage (source : gostring) (learn touchInbound : bool) : MM bool :=
  let! headers := writeAcceptedResultHeaders None in
  let! ok := if headers : bool then writePolicyResponse actionAccept (RejectMessage dp) else ret false in
  (if beq source (lit "known_correspondent") then recordDeterministic ActivityEventCorrespondentAccept actionAccept (negb ok)
   else if beq source (lit "sender_domain_allowlist") then recordDeterministic ActivityEventTrustedDomainAccept actionAccept (negb ok)
   else ret tt) ;;
  if negb ok then ret false
  else
    completeSenderBlocklistRemoval ;;
    (if enforcing then
       let! s := gets id in
       (if negb (Authenticated (authentication s)) && (beq source (lit "known_correspondent") || beq source (lit "sender_domain_allowlist"))
        then recordLegitimateIP (peerIP s) else ret tt) ;;
       (if learn then learnAuthenticatedRecipients else ret tt) ;;
       (if touchInbound then touchInboundCorrespondent else ret tt)
     else ret tt) ;;
    resetMessage phaseConnection ;; ret true.

Definition isInternalMessage (s : session X) : bool :=
  let marker := trimSpace (Header (message s) internalMessageHeader) in
  negb (beq marker []) && beq marker (ec_internalToken (commands dp)) &&
  (negb (isValid (peerIP s)) || isLoopback (peerIP s) || negb (AddressRoutable (peerIP s))).

Definition finishInternalMessage : MM bool :=
  let! s := gets id in
  if negb (has_action (negotiatedActions s) actionChangeHeaders) then
    let! ok := write [responseTempfail] in
    if negb ok then ret false else (resetMessage phaseConnection ;; ret true)
  else
    let! ok := write_all (replicate (Z.to_nat (HeaderOccurrences (message s) internalMessageHeader)) (deleteHeaderResponse internalMessageHeader)) in
    if negb ok then ret false else finishBypassedMessage (lit "internal_command_reply") false false.

Definition rejectEmailCommand (reason : gostring) : MM bool :=
  let! ok := write (replyCode (lit "550") (lit "5.7.1") (lit "MilterGuard command rejected: " ++ reason)) in
  if negb ok then ret false else (resetMessage phaseConnection ;; ret true).
Definition discardEmailCommand : MM bool :=
  let! ok := write [responseDiscard] in
  if negb ok then ret false else (resetMessage phaseConnection ;; ret true).

Definition isCommandAdministrator (identity : gostring) : bool :=
  existsb (λ configured, equalFold (trimSpace configured) (trimSpace identity)) (ec_Administrators (commands dp)).

(** A [M (option bool)] is a policy that may have handled the message; then its
    value tells whether the connection stays open. *)
Definition handled (m : MM bool) : MM (option bool) := let! keep := m in ret (Some keep).

(** [queueReplyContentFunc]: the reply is handed to a worker when replies are sent
    and a slot is free. *)
Definition queueReplyContentFunc (recipient subject : gostring) (request : reply_request) : MM unit :=
  if ec_SendReplies (commands dp) && or_replySlot o then record (CallReply recipient subject request) else ret tt.

Definition completeInvalidEmailCommand (identity replyTo reason : gostring) : MM bool :=
  queueReplyContentFunc replyTo (lit "MilterGuard command rejected")
    (ReplyText (reason ++ lit "." ++ newline ++ newline ++ Help (isCommandAdministrator identity) false)) ;;
  discardEmailCommand.
Definition completeFailedEmailCommand (replyTo reason : gostring) : MM bool :=
  queueReplyContentFunc replyTo (lit "MilterGuard command failed")
    (ReplyText (lit "The command could not be executed: " ++ reason ++ lit "." ++ newline)) ;;
  discardEmailCommand.

(** The authorized part of [handleEmailCommand]: the lines of the body are parsed
    and executed as the sender, and one reply is queued. *)
Definition run_email_commands (admin : bool) (identity replyTo : gostring) : MM bool :=
  let! s := gets id in
  match @messageLines _ (Build_MediaTypes (parseMediaType dp)) (or_extractionSlot o) (message s) (HTMLResourceLimitAction dp) (or_extraction o) with
  | inl (LinesFailed reason) => completeFailedEmailCommand replyTo reason
  | inl (LinesInvalid reason) => completeInvalidEmailCommand identity replyTo reason
  | inr lines =>
      let actor := MkActor admin false replyTo false in
      match parse_lines lines actor [] with
      | inl reason => completeInvalidEmailCommand identity replyTo reason
      | inr [] => completeInvalidEmailCommand identity replyTo (lit "command body is empty")
      | inr cmds =>
          let! parts := on_store (execute_commands st_Execute cmds actor now) in
          queueReplyContentFunc replyTo (lit "MilterGuard command results") (ReplyCommands parts) ;;
          discardEmailCommand
      end
  end.

Definition handleEmailCommand : MM (option bool) :=
  let cfg := commands dp in
  if negb (ec_Enabled cfg) then ret None
  else
    let! s := gets id in
    if negb (existsb (λ r, beq (Normalize r) (ec_recipient cfg)) (envelopeRecipients s)) then ret None
    else if negb (bool_decide (length (envelopeRecipients s) = 1%nat)) || envelopeRecipientsTruncated s
    then handled (rejectEmailCommand (lit "command address must be the sole recipient"))
    else if negb (Authenticated (authentication s)) then handled (rejectEmailCommand (lit "authentication required"))
    else
      let identity := trimSpace (Identity (authentication s)) in
      let admin := isCommandAdministrator identity in
      let replyTo := Normalize (envelopeSender s) in
      if negb admin && negb (ec_AllowAuthenticatedUsers cfg)
      then handled (rejectEmailCommand (lit "authenticated user is not authorized"))
      else if negb admin && ec_VerifySenderViaAliases cfg &&
              negb (senderOwnedViaAliases (or_aliasesFile o) (envelopeSender s) identity (ec_Recipient cfg))
      then handled (rejectEmailCommand (lit "envelope sender is not owned by the authenticated user"))
      else if beq replyTo []
      then handled (rejectEmailCommand (lit "authenticated envelope sender is invalid"))
      else handled (run_email_commands admin identity replyTo).

Definition finishAuthenticatedOnlySenderDomain (domain : gostring) : MM bool :=
  let selected := selectActionForMode actionReject (mode dp) in
  let! headers := if bool_decide (selected = actionAccept)
                  then (if AddEmailHeaders dp then writeClassificationHeaders (lit "unwanted") None acceptModeAction
                        else writeAcceptedResultHeaders None)
                  else ret true in
  let! ok := if headers : bool then write (responseForAction selected (RejectMessage dp)) else ret false in
  let rejected := bool_decide (selected = actionReject) in
  (if rejected then recordDeterministic ActivityEventProtectedSenderDomainRejection selected (negb ok) else ret tt) ;;
  if negb ok then ret false
  else
    (if rejected then
       let! s := gets id in
       recordRejection (visibleSender s) (envelopeSender s) (envelopeRecipients s)
         [lit "Visible From domain " ++ domain ++ lit " may only be used by authenticated SMTP submissions"]
         (lit "authenticated_only_sender_domain") ;;
       strike
     else ret tt) ;;
    resetMessage phaseConnection ;; ret true.

Definition applyAuthenticatedOnlySenderDomain : MM (option bool) :=
  let! s := gets id in
  if Authenticated (authentication s) then ret None
  else if beq (protectedSenderDomain s) [] then ret None
  else handled (finishAuthenticatedOnlySenderDomain (protectedSenderDomain s)).

Definition applySenderBlocklist : MM (option bool) :=
  let! s := gets id in
  match senderBlocklist dp with
  | None => ret None
  | Some cfg =>
      if Authenticated (authentication s) then ret None
      else
        let mailboxes := normalizedRecipients (senderBlocklistFrom s) in
        if bool_decide (mailboxes = []) then ret None
        else if senderBlocklistFromTruncated s then ret None
        else if negb (recipientSetComplete s) then ret None
        else
          let recipients := normalizedRecipients (envelopeRecipients s) in
          let! r := on_store (st_MatchSenderBlocks mailboxes recipients (sbc_IncludeSubdomains cfg) now) in
          match r with
          | inl _ => ret None
          | inr m =>
              let blocked := sm_BlockedRecipients m in
              if bool_decide (blocked = []) then ret None
              else
                let remaining := List.filter (λ x, negb (bool_decide (x ∈ blocked))) recipients in
                if negb enforcing then ret None
                else if bool_decide (remaining = []) then
                  handled (
                    let! ok := write (responseForAction actionReject (sbc_RejectMessage cfg)) in
                    if negb ok then ret false
                    else
                      recordRejection (sm_MatchedSender m) (envelopeSender s) blocked [senderBlocklistReason] (lit "sender_blocklist") ;;
                      recordSenderBlocklist ActivityOutcomeRejected 1 ;;
                      resetMessage phaseConnection ;; ret true)
                else if negb (has_action (negotiatedActions s) actionDeleteRecipient) then ret None
                else
                  (modify (set_pendingSenderBlocks (Some (MkPending blocked remaining (sm_MatchedSender m) (sm_MatchedKind m)))) ;;
                   ret None)
          end
  end.

Definition finishAttachmentDecision (cfg : AttachmentsConfig) (r : attachmentPolicyResult) : MM bool :=
  let proposed := ar_proposed r in
  let selected := selectActionForMode proposed (mode dp) in
  let rejectMessage := if beq (ar_rejectMessage r) [] then at_RejectMessage cfg else ar_rejectMessage r in
  let accepted := bool_decide (selected = actionAccept) in
  let rejected := bool_decide (selected = actionReject) in
  let! headers :=
    if accepted then
      if negb (bool_decide (proposed = actionAccept)) && AddEmailHeaders dp then
        if ar_err r then writeClassificationHeaders (lit "unavailable") None acceptModeAction
        else replaceResultHeaders [(classificationHeader, lit "not-scanned"); (confidenceHeader, lit "unavailable");
                                   (actionHeader, acceptModeAction); (policyHeader, lit "prohibited-attachment")]
      else writeAcceptedResultHeaders None
    else ret true in
  let! ok := if headers : bool
             then (if accepted then writePolicyResponse selected rejectMessage else write (responseForAction selected rejectMessage))
             else ret false in
  (if rejected then recordDeterministic ActivityEventAttachmentRejection selected (negb ok) else ret tt) ;;
  if negb ok then ret false
  else
    (if accepted then completeSenderBlocklistRemoval else ret tt) ;;
    (if rejected then
       let! s := gets id in
       recordRejection (visibleSender s) (envelopeSender s) (envelopeRecipients s)
         [ar_detection r ++ (if beq (ar_path r) [] then [] else lit ": " ++ ar_path r)] (lit "attachment_policy") ;;
       (if ar_ipStrike r && at_AddIPReputationStrike cfg && negb (Authenticated (authentication s)) then strike else ret tt)
     else ret tt) ;;
    resetMessage phaseConnection ;; ret true.

Definition applyAttachments : MM (option bool) :=
  let! msg := gets message in
  match attachments dp with
  | None => ret None
  | Some cfg =>
      let r := attachment_evaluate (attachments dp) msg (or_scanSlot o) (or_scan o) in
      if negb (ar_handled r) then ret None
      else if ar_cancelled r then ret (Some false)
      else if ar_err r && bool_decide (ar_proposed r = actionAccept) then ret None
      else handled (finishAttachmentDecision cfg r)
  end.

(** ** Slow work with progress frames *)

(** The ticker fires [ticks] times before the worker or the context ends;
    the result is false on an interruption or a failed progress write. *)
Definition progress (ticks : nat) (ended : worker_end) : MM bool :=
  let! ok := write_all (replicate ticks [responseProgress]) in
  ret (ok && match ended with WorkerDone => true | WorkerInterrupted => false end).

Definition emptyEvidence : Evidence := MkEvidence [] false false false [].

Definition verifyAuthenticationWithProgress : MM (Evidence * bool) :=
  let! s := gets id in
  let envelope := if negb (beq (envelopeSender s) (lit "<>")) then Normalize (envelopeSender s) else envelopeSender s in
  let external := negb (internalAuthentication dp) in
  let reader := match exactMessage s with Some x => if exactMessageErr s then None else Some (x_ReaderAt x) | None => None end in
  (match reader with Some (inl _) => modify (set_exactMessageErr true) | _ => ret tt end) ;;
  let transaction := MkTransaction (peerIP s) (heloIdentity s) envelope (mtaHostname s) (receiverIP s) (visibleSenderDomain s)
    (visibleFromInvalid s) (smtpUTF8 s)
    (if external then HeaderValues (message s) (lit "Authentication-Results") else [])
    (if external then HeaderValues (message s) (lit "Received-SPF") else [])
    (if external then trustedAuthservIDs (correspondentCfg dp) (mtaHostname s) else [])
    (match reader with Some (inr x) => Some x | _ => None end) in
  let! ok := progress (or_verifyTicks o) (or_verifyEnd o) in
  if ok : bool then ret (or_verify o transaction) else ret (emptyEvidence, true).

(** The analysis, which waits for the connection DNS first. *)
Definition evaluateWithProgress : MM (evaluationResult * bool) :=
  let! _ := awaitConnectionDNS in
  let result := evaluate (or_analysis o) (mode dp) (RejectScore dp) (AIErrorAction dp) (HTMLResourceLimitAction dp) (IncompleteBodyAction dp) in
  let! ok := progress (or_analysisTicks o) (or_analysisEnd o) in
  ret (result, negb ok).

(** ** finishMessage *)

Definition identify_sender (s : session X) : session X :=
  let count := FromHeaderCount (message s) in
  if 1 <? count then set_visibleFromInvalid true s
  else if count =? 1 then
    let sender := Normalize (Header (message s) (lit "From")) in
    let domain := Domain sender in
    set_visibleFromInvalid (beq domain []) (set_visibleSenderDomain domain (set_visibleSender sender s))
  else s.

(** Runs the next policy unless one has handled the message. *)
Definition orElse (m : MM (option bool)) (k : MM bool) : MM bool :=
  let! r := m in match r with Some keep => ret keep | None => k end.

Definition authenticate : MM Evidence :=
  let! s := gets id in
  let! r := if negb (internalAuthentication dp) || negb (Authenticated (authentication s))
            then verifyAuthenticationWithProgress else ret (emptyEvidence, false) in
  closeExactMessage ;;
  ret (if r.2 && internalAuthentication dp
       then EvidenceWithUnavailableMethods (ev_Results r.1) (visibleSenderDomain s) (lit "authentication unavailable")
              [MethodSPF; MethodDKIM; MethodDMARC]
       else r.1).

Definition finishAnalyzed (inbound : inboundEvidence) : MM bool :=
  let! r := evaluateWithProgress in
  let result := r.1 in
  if r.2 then recordScan result true ;; ret false
  else
    let! headers := if bool_decide (er_selected result = actionAccept) then writeAcceptedResultHeaders (Some result) else ret true in
    let! ok := if headers : bool
               then writePolicyResponse (er_selected result)
                      (if beq (er_rejectMessage result) [] then RejectMessage dp else er_rejectMessage result)
               else ret false in
    recordScan result (negb ok) ;;
    if negb ok then ret false
    else
      (if bool_decide (er_selected result = actionAccept) then completeSenderBlocklistRemoval else ret tt) ;;
      applyPostDecisionUpdates result inbound ;;
      resetMessage phaseConnection ;; ret true.

Definition finishEvaluated : MM bool :=
  let! authentication := authenticate in
  let! s := gets id in
  let! inbound := on_store (prepareInboundEvidence (correspondentCfg dp) (trustRequirement dp) (SenderDomainAllowlist dp)
      (SenderDomainAllowlistRequireAuthentication dp) (message s) (messageContext_of (recipientSetComplete s) s) authentication now) in
  if negb (beq (ie_allowedSenderDomain inbound) [])
  then finishBypassedMessage (lit "sender_domain_allowlist") false (ie_knownCorrespondent inbound && ie_trustRequirementMet inbound)
  else if ie_bypassAI inbound then finishBypassedMessage (lit "known_correspondent") false (ie_trustRequirementMet inbound)
  else finishAnalyzed inbound.

Definition finishMessage : MM bool :=
  let! p := gets phase in
  if negb (bool_decide (p = phaseBody)) then ret false
  else if negb (or_deadline o) then ret false
  else
    modify identify_sender ;;
    let! s := gets id in
    if isInternalMessage s then finishInternalMessage
    else
      orElse handleEmailCommand (
      orElse applyAuthenticatedOnlySenderDomain (
      orElse applySenderBlocklist (
      if Authenticated (authentication s) && negb (ScanAuthenticated dp)
      then finishBypassedMessage (lit "authenticated_connection") true false
      else
        let! ok := match attachments dp with Some _ => write [responseProgress] | None => ret true end in
        if negb ok then ret false else orElse applyAttachments finishEvaluated))).

(** ** Commands *)

Definition rejectReputationIP : MM (option bool) :=
  let! s := gets id in
  if negb enforcing || Authenticated (authentication s) then ret None
  else if allowed (ipReputation dp) (peerIP s) then ret None
  else
    let! excluded := if usesDomainAllowlist (ipReputation dp)
                     then (let! dns := awaitConnectionDNS in ret (domainAllowed (ipReputation dp) dns)) else ret false in
    if excluded : bool then ret None
    else
      let! entry := on_store (ip_lookup (ipReputation dp) (peerIP s) now) in
      match entry with
      | None => ret None
      | Some _ =>
          let rejectMessage := if beq (ip_rejectMessage (ipReputation dp)) [] then RejectMessage dp else ip_rejectMessage (ipReputation dp) in
          let! ok := write (responseForAction actionReject rejectMessage) in
          recordDeterministic ActivityEventIPRejection actionReject (negb ok) ;;
          ret (Some ok)
      end.

Definition negotiate (payload : gostring) : MM bool :=
  let! p := gets phase in
  if negb (bool_decide (p = phaseNegotiation)) || negb (go_len payload =? optionPayloadBytes) then ret false
  else
    let version := uint32 (take 4 payload) in
    let offeredActions := uint32 (take 4 (drop 4 payload)) in
    if version <? minimumProtocolVersion then ret false
    else
      let version := Z.min version supportedProtocolVersion in
      let requestedActions := Z.land offeredActions (Z.lor resultHeaderActions actionDeleteRecipient) in
      modify (set_negotiatedActions requestedActions) ;;
      let! ok := write (optionResponse version requestedActions) in
      if negb ok then ret false else (modify (set_phase phaseConnection) ;; ret true).

(** The bounded list of visible senders. *)
Fixpoint add_senders (senders existing : list gostring) (truncated : bool) : list gostring * bool :=
  match senders with
  | [] => (existing, truncated)
  | sender :: rest =>
      if bool_decide (sender ∈ existing) then add_senders rest existing truncated
      else if bool_decide (maxSenderBlockAddresses <= length existing)%nat then (existing, true)
      else add_senders rest (existing ++ [sender]) truncated
  end.

Definition note_from (value : gostring) (s : session X) : session X :=
  let s := if beq (protectedSenderDomain s) []
           then set_protectedSenderDomain (authenticatedOnlyFromValue value (AuthenticatedOnlySenderDomains dp)) s else s in
  let '(from, truncated) := add_senders (strictVisibleFromMailboxes [value]) (senderBlocklistFrom s) (senderBlocklistFromTruncated s) in
  set_senderBlocklistFromTruncated truncated (set_senderBlocklistFrom from s).

Definition addHeader (payload : gostring) : MM bool :=
  let! p := gets phase in
  if negb (bool_decide (p = phaseEnvelope)) then ret false
  else match parseHeader payload with
       | None => ret false
       | Some (name, value) =>
           (if equalFold (trimSpace name) (lit "From") then modify (note_from value) else ret tt) ;;
           modify (λ s, set_message (AddHeader (message s) name value) s) ;;
           captureExact (XHeader name value) ;;
           sendContinue
       end.

Definition addBody (payload : gostring) : MM unit :=
  modify (λ s, set_message (AddBody (message s) payload) s) ;; captureExact (XBody payload).

Definition captureSessionMacros (payload : gostring) : MM unit :=
  match parseSessionMacros payload with
  | None => ret tt
  | Some (target, values) =>
      modify (λ s,
        let s := if MTAHostnameFound values then
                   let hostname := validMTAHostname (MTAHostname values) in
                   if ceq target commandConnect then set_pendingMTAHostname hostname s
                   else if connected s then set_mtaHostname hostname s else s
                 else s in
        let s := if ReceiverAddressFound values then
                   let address := canonicalMacroIP (ReceiverAddress values) in
                   if ceq target commandConnect then set_pendingReceiverIP address s
                   else if connected s then set_receiverIP address s else s
                 else s in
        if negb (connected s) || negb (AuthenticationFound values)
           || negb (existsb (ceq target) [commandMail; commandData; commandEndHeaders; commandEndBody]) then s
        else
          let identity := cleanSMTPIdentity (AuthenticationIdentity values) in
          set_authentication (MkAuthentication (negb (beq identity [])) identity) s)
  end.

(** The state of the SMTP client that CONNECT and QUIT_NC clear. *)
Definition forget_client (s : session X) : session X :=
  set_peerIP AddrInvalid (set_peerHostname [] (set_heloIdentity [] (set_authentication noAuthentication
    (set_connectionDNS noDNS (set_connectionDNSPending false s))))).

Definition connect (payload : gostring) (s : session X) : session X :=
  let s := set_connected true s in
  let s := set_pendingMTAHostname [] (set_mtaHostname (pendingMTAHostname s) s) in
  let s := set_pendingReceiverIP AddrInvalid (set_receiverIP (pendingReceiverIP s) s) in
  let s := forget_client s in
  let s := match parseConnectHostname payload with Some hostname => set_peerHostname (cleanSMTPIdentity hostname) s | None => s end in
  match parseConnectIP payload with
  | Some addr => set_connectionDNSPending (dnsLookups dp && AddressRoutable addr) (set_peerIP addr s)
  | None => s
  end.

Definition quit_smtp (s : session X) : session X :=
  let s := forget_client (set_connected false s) in
  set_mtaHostname [] (set_pendingMTAHostname [] (set_receiverIP AddrInvalid (set_pendingReceiverIP AddrInvalid (set_smtpUTF8 false s)))).

Definition handleCommand (command : ascii) (payload : gostring) : MM bool :=
  let! s := gets id in
  let in_phase p := bool_decide (phase s = p) in
  if in_phase phaseNegotiation && negb (ceq command commandOptionNegotiation) && negb (ceq command commandMacro)
     && negb (ceq command commandQuitMilterConnection) then ret false
  else if ceq command commandOptionNegotiation then negotiate payload
  else if ceq command commandMacro then (captureSessionMacros payload ;; ret true)
  else if ceq command commandAbort then (resetMessage phaseConnection ;; ret true)
  else if ceq command commandQuitSMTPConnection then (modify quit_smtp ;; resetMessage phaseConnection ;; ret true)
  else if ceq command commandConnect then
    if negb (in_phase phaseConnection) || connected s then ret false
    else (modify (connect payload) ;; sendContinue)
  else if ceq command commandHelo then
    if negb (in_phase phaseConnection) || negb (connected s) then ret false
    else (modify (set_heloIdentity (match parseSMTPIdentity payload with Some i => cleanSMTPIdentity i | None => [] end)) ;; sendContinue)
  else if ceq command commandMail then
    if negb (in_phase phaseConnection) || negb (connected s) then ret false
    else orElse rejectReputationIP (
           resetMessage phaseEnvelope ;;
           match parseEnvelopeAddress payload with
           | Some sender => modify (λ s, set_smtpUTF8 (containsNonASCII sender || envelopeHasSMTPUTF8 payload) (set_envelopeSender sender s))
           | None => ret tt
           end ;;
           sendContinue)
  else if ceq command commandRecipient then
    if negb (in_phase phaseEnvelope) then ret false
    else (modify (λ s, match parseEnvelopeAddress payload with
                       | None => set_envelopeRecipientsTruncated true s
                       | Some r => if bool_decide (length (envelopeRecipients s) < maxEnvelopeRecipients)%nat
                                   then set_envelopeRecipients (envelopeRecipients s ++ [r]) s
                                   else set_envelopeRecipientsTruncated true s
                       end) ;; sendContinue)
  else if ceq command commandData then (if negb (in_phase phaseEnvelope) then ret false else sendContinue)
  else if ceq command commandUnknown then sendContinue
  else if ceq command commandHeader then addHeader payload
  else if ceq command commandEndHeaders then
    if negb (in_phase phaseEnvelope) then ret false
    else (modify (set_phase phaseBody) ;; captureExact XEndHeaders ;; sendContinue)
  else if ceq command commandBody then
    if negb (in_phase phaseBody) then ret false else (addBody payload ;; sendContinue)
  else if ceq command commandEndBody then
    if negb (in_phase phaseBody) then ret false
    else ((if beq payload [] then ret tt else addBody payload) ;; finishMessage)
  else ret false.
End Handlers.

(** [handleReadError]: whether the read loop goes on. *)
Definition handleReadError (cancelled : bool) (bytesRead : Z) (e : io_error) : bool :=
  if cancelled then false
  else match e with IO_Timeout => bytesRead =? 0 | _ => false end.

(** The session [newSession] makes, with the message of its first reset. *)
Definition zero_session {X} (msg : Message) : session X :=
  MkSession phaseNegotiation false AddrInvalid [] [] [] AddrInvalid AddrInvalid [] false noAuthentication [] [] false [] [] false []
    (MkDNSResult ReverseDNSUnset []) false msg None false 0 None [] false.

(** ** The read loop *)

(** What one turn of the loop in [run] meets: a deadline that cannot be set, a
    failed read, or a frame with the world its command runs in. *)
Inductive read_event (W X : Type) :=
  | ReadNoDeadline
  | ReadError (cancelled : bool) (bytesRead : Z) (e : io_error)
  | ReadFrame (o : Oracle W X) (now : Z) (command : ascii) (payload : gostring).
Arguments ReadNoDeadline {W X}. Arguments ReadError {W X}. Arguments ReadFrame {W X}.

Section Run.
Context `{UnicodeTables, NetMail, NetIPText, HeaderDecoder, PublicSuffix} {W X : Type} `{PolicyStores W, ExactStore X}.

Definition newSession (dp : Deps) (o : Oracle W X) (now : Z) : M W X unit := resetMessage dp o now phaseNegotiation.

Fixpoint run_loop (dp : Deps) (events : list (read_event W X)) : M W X unit :=
  match events with
  | [] => ret tt
  | ReadNoDeadline :: _ => ret tt
  | ReadError cancelled bytesRead e :: rest => if handleReadError cancelled bytesRead e then run_loop dp rest else ret tt
  | ReadFrame o now command payload :: rest =>
      let! keep := handleCommand dp o now command payload in
      if keep : bool then run_loop dp rest else ret tt
  end.

(** [run]: the exact message is closed however the loop ends. *)
Definition run (dp : Deps) (events : list (read_event W X)) : M W X unit := run_loop dp events ;; closeExactMessage.
End Run.
