(* ===== verification/SessionFacts.v ===== *)
(** * The Milter session: reasoning about handlers

    [respects R m]: running [m] relates the state before and after by the
    preorder [R].  The lemmas compose along [bind], and the tactic
    [respects_tac] walks a handler down to its primitive actions, which each
    relation discharges. *)
From Stdlib Require Import QArith.
From S2P Require Import Prelude GoText Calendar Rejections Activity AdminCmd AdminFormat AdminExec SmtpReply EmailCommands NetSafety MailAddr Protocol Message MailAuth ExactMessage SqlDb IPReputation Correspondents SenderBlocklist IPAllowlist Policy Session.
Open Scope Z_scope.

Create HintDb session.

Section Respects.
Context {W X : Type} (R : St W X -> St W X -> Prop) `{!PreOrder R}.

Definition respects {A} (m : M W X A) : Prop := forall s, R s (m s).2.

Lemma respects_ret {A} (a : A) : respects (ret a).
Proof using All. intros s. reflexivity. Qed.
Lemma respects_gets {A} (f : session X -> A) : respects (gets f).
Proof using All. intros s. reflexivity. Qed.
Lemma respects_bind {A B} (m : M W X A) (k : A -> M W X B) : respects m -> (forall a, respects (k a)) -> respects (bind m k).
Proof using All. intros Hm Hk s. unfold bind. specialize (Hm s). destruct (m s) as [a s']. etrans; [exact Hm|apply Hk]. Qed.
Lemma respects_handled (m : M W X bool) : respects m -> respects (handled m).
Proof using All. intros Hm. apply respects_bind; [done|]. intros. apply respects_ret. Qed.
Lemma respects_orElse (m : M W X (option bool)) k : respects m -> respects k -> respects (orElse m k).
Proof using All. intros Hm Hk. apply respects_bind; [done|]. intros []; [apply respects_ret|done]. Qed.
Lemma respects_write_all frames : (forall f, f ∈ frames -> respects (write f)) -> respects (write_all frames).
Proof using All.
  induction frames as [|f rest IH]; intros Hf; [apply respects_ret|]. cbn [write_all]. apply respects_bind; [apply Hf; set_solver|].
  intros []; [apply IH; set_solver|apply respects_ret].
Qed.
End Respects.

(** Descends through binds and branches; primitive actions are left to the
    [session] hints. *)
Ltac respects_step :=
  match goal with
  | |- respects _ (bind _ _) => apply respects_bind; [exact _| |intros ?]
  | |- respects _ (ret _) => apply respects_ret; exact _
  | |- respects _ (gets _) => apply respects_gets; exact _
  | |- respects _ (handled _) => apply respects_handled; [exact _|]
  | |- respects _ (orElse _ _) => apply respects_orElse; [exact _| |]
  | |- respects _ (if ?b then _ else _) => destruct b
  | |- respects _ (match ?x with _ => _ end) => destruct x
  | |- respects _ _ => solve [eauto with session]
  end.
Ltac respects_tac := cbv zeta; repeat (respects_step; cbv zeta).

(** ** Final responses *)

(** A frame that ends the transaction: accept, discard, tempfail or a reply. *)
Definition final_frame (f : gostring) : bool :=
  match f with c :: _ => existsb (ceq c) [responseAccept; responseDiscard; responseTempfail; responseReply] | [] => false end.

(** Frames that are not final may be sent. *)
Definition quiet {W X} (s s' : St W X) : Prop := exists fs, sent s' = sent s ++ fs /\ Forall (λ f, final_frame f = false) fs.
#[export] Instance quiet_preorder {W X} : PreOrder (@quiet W X).
Proof.
  split.
  - intros s. exists []. by rewrite app_nil_r.
  - intros a b c (f & Hf & Hf') (g & Hg & Hg'). exists (f ++ g). rewrite Hg, Hf, app_assoc. split; [done|]. by apply Forall_app.
Qed.

(** Nothing is sent. *)
Definition silent {W X} (s s' : St W X) : Prop := sent s' = sent s.
#[export] Instance silent_preorder {W X} : PreOrder (@silent W X).
Proof. split; [done|]. intros a b c. unfold silent. congruence. Qed.

Definition connection_phase {W X} (s : St W X) : Prop := phase (ss s) = phaseConnection.

(** The handler sends exactly one final frame, as its last one, when it keeps
    the connection, and none when it closes it. *)
Definition ends {W X} (P : St W X -> Prop) (s : St W X) (keep : bool) (s' : St W X) : Prop :=
  exists fs, Forall (λ f, final_frame f = false) fs /\
    if keep then P s' /\ exists fin, final_frame fin = true /\ sent s' = sent s ++ fs ++ [fin] else sent s' = sent s ++ fs.
Definition concludes {W X} (m : M W X bool) : Prop := forall s, ends connection_phase s (m s).1 (m s).2.
(** Sends its frames ending with a final one, or reports a failed write. *)
Definition responds {W X} (m : M W X bool) : Prop := forall s, ends (λ _, True) s (m s).1 (m s).2.
(** A policy: it concludes the message or leaves it to the next one. *)
Definition decides {W X} (m : M W X (option bool)) : Prop := forall s,
  match (m s).1 with Some keep => ends connection_phase s keep (m s).2 | None => quiet s (m s).2 end.

Section Concludes.
Context {W X : Type}.

Lemma write_quiet f : final_frame f = false -> respects (@quiet W X) (write f).
Proof.
  intros Hf s. unfold write. destruct (wfail s) as [|[] ?]; cbn.
  - exists [f]. by split; [|constructor].
  - exists []. by rewrite app_nil_r.
  - exists [f]. by split; [|constructor].
Qed.

Lemma write_responds f : final_frame f = true -> responds (@write W X f).
Proof.
  intros Hf s. exists []. split; [constructor|]. unfold write. destruct (wfail s) as [|[] ?]; cbn; rewrite ?app_nil_r; eauto.
Qed.

Lemma silent_quiet {A} (m : M W X A) : respects silent m -> respects quiet m.
Proof. intros Hm s. exists []. rewrite app_nil_r. split; [apply Hm|constructor]. Qed.

Lemma ends_quiet P (a b c : St W X) keep : quiet a b -> ends P b keep c -> ends P a keep c.
Proof.
  intros (f & Hf & Hf') (g & Hg & Hk). exists (f ++ g). split; [by apply Forall_app|]. rewrite Hf in Hk.
  destruct keep; [|by rewrite Hk, app_assoc].
  destruct Hk as (HP & fin & Hfin & Hs). split; [done|]. exists fin. by rewrite Hs, <- !app_assoc.
Qed.

Lemma responds_bind {A} (m : M W X A) k : respects quiet m -> (forall a, responds (k a)) -> responds (bind m k).
Proof. intros Hm Hk s. unfold bind. specialize (Hm s). destruct (m s) as [a s']. cbn in *. eapply ends_quiet; [exact Hm|apply Hk]. Qed.
Lemma responds_fail : responds (@ret W X bool false).
Proof. intros s. exists []. split; [constructor|]. cbn. by rewrite app_nil_r. Qed.

Lemma concludes_bind {A} (m : M W X A) k : respects quiet m -> (forall a, concludes (k a)) -> concludes (bind m k).
Proof. intros Hm Hk s. unfold bind. specialize (Hm s). destruct (m s) as [a s']. cbn in *. eapply ends_quiet; [exact Hm|apply Hk]. Qed.
Lemma concludes_fail : concludes (@ret W X bool false).
Proof. intros s. exists []. split; [constructor|]. cbn. by rewrite app_nil_r. Qed.

(** What follows a sent response: silent work that ends in the connection phase. *)
Definition settles (m : M W X bool) : Prop :=
  forall s, (m s).1 = true /\ silent s (m s).2 /\ connection_phase (m s).2.

Lemma concludes_respond (m : M W X bool) (k : bool -> M W X bool) :
  responds m -> settles (k true) -> (forall s, (k false s).1 = false /\ silent s (k false s).2) -> concludes (bind m k).
Proof.
  intros Hm Ht Hf s. unfold bind. specialize (Hm s). destruct (m s) as [[|] s1]; cbn in *.
  - destruct (Ht s1) as (H1 & H2 & H3). destruct (k true s1) as [keep s2]. cbn in *. subst keep. unfold silent in H2.
    destruct Hm as (fs & Hfs & _ & fin & Hfin & Hsent). exists fs. split; [done|]. split; [done|]. exists fin. by rewrite H2.
  - destruct (Hf s1) as (H1 & H2). destruct (k false s1) as [keep s2]. cbn in *. subst keep. unfold silent in H2.
    destruct Hm as (fs & Hfs & Hsent). exists fs. split; [done|]. by rewrite H2.
Qed.

Lemma settles_bind {A} (m : M W X A) k : respects silent m -> (forall a, settles (k a)) -> settles (bind m k).
Proof.
  intros Hm Hk s. unfold bind. specialize (Hm s). destruct (m s) as [a s1]. cbn in *. destruct (Hk a s1) as (H1 & H2 & H3).
  split_and!; [done| |done]. unfold silent in *. congruence.
Qed.

Lemma decides_none : decides (@ret W X (option bool) None).
Proof. intros s. cbn. reflexivity. Qed.
Lemma decides_bind {A} (m : M W X A) k : respects quiet m -> (forall a, decides (k a)) -> decides (bind m k).
Proof.
  intros Hm Hk s. unfold bind. specialize (Hm s). destruct (m s) as [a s1]. cbn in *. specialize (Hk a s1).
  destruct ((k a s1).1); [by eapply ends_quiet|by etrans].
Qed.
Lemma decides_handled (m : M W X bool) : concludes m -> decides (handled m).
Proof. intros Hm s. unfold handled, bind. specialize (Hm s). by destruct (m s) as [keep s1]. Qed.
Lemma concludes_orElse (m : M W X (option bool)) k : decides m -> concludes k -> concludes (orElse m k).
Proof.
  intros Hm Hk s. unfold orElse, bind. specialize (Hm s). destruct (m s) as [[keep|] s1]; cbn in *; [done|].
  eapply ends_quiet; [exact Hm|apply Hk].
Qed.
End Concludes.

(** ** Primitive actions *)

Section Silent.
Context {W X : Type}.
Lemma modify_silent f : respects (@silent W X) (modify f).
Proof. done. Qed.
Lemma record_silent c : respects (@silent W X) (record c).
Proof. done. Qed.
Lemma on_store_silent {A} (f : W -> A * W) : respects (@silent W X) (on_store f).
Proof. intros s. unfold on_store, silent. by destruct (f (store s)). Qed.
End Silent.
#[export] Hint Resolve modify_silent record_silent on_store_silent : session.

Lemma response_final selected msg : final_frame (responseForAction selected msg) = true.
Proof. by destruct selected. Qed.

(** ** One final response per message *)

Section Final.
Context `{UnicodeTables, NetMail, NetIPText, HeaderDecoder, PublicSuffix} {W X : Type} `{PolicyStores W, ExactStore X}.
Context (dp : Deps) (o : Oracle W X) (now : Z).

Lemma closeExactMessage_silent : respects (@silent W X) closeExactMessage.
Proof. unfold closeExactMessage. respects_tac. Qed.
#[local] Hint Resolve closeExactMessage_silent : session.
Lemma resetMessage_silent p : respects silent (resetMessage dp o now p).
Proof. unfold resetMessage. respects_tac. Qed.
#[local] Hint Resolve resetMessage_silent : session.

Lemma resetMessage_phase p s : phase (ss (resetMessage dp o now p s).2) = p.
Proof.
  unfold resetMessage, closeExactMessage, bind, gets, modify. destruct (exactMessage (ss s)) as [x|]; cbn;
    [destruct (x_step x XClose) as [e x']; cbn|]; (destruct (_ || _); [done|]); by destruct (or_exact o) as [[|]|].
Qed.

Lemma reset_settles : settles (bind (resetMessage dp o now phaseConnection) (λ _, ret true)).
Proof.
  intros s. unfold bind. pose proof (resetMessage_silent phaseConnection s) as Hs. pose proof (resetMessage_phase phaseConnection s) as Hp.
  destruct (resetMessage _ _ _ _ s) as [u s']. by cbn in *.
Qed.

Lemma frames_quiet (frames : list gostring) : Forall (λ f, final_frame f = false) frames -> respects (@quiet W X) (write_all frames).
Proof. intros Hf. apply respects_write_all; [apply _|]. intros f Hin. rewrite Forall_forall in Hf. by apply write_quiet, Hf. Qed.

Lemma replicate_frames n f : final_frame f = false -> Forall (λ f, final_frame f = false) (replicate n f).
Proof. intros Hf. by apply Forall_replicate. Qed.

Lemma replaceResultHeaders_quiet headers : respects (@quiet W X) (replaceResultHeaders headers).
Proof.
  unfold replaceResultHeaders. apply respects_bind; [exact _|apply respects_gets; exact _|intros msg].
  apply respects_bind; [exact _|apply respects_gets; exact _|intros actions].
  set (deletions := _ ≫= _). set (additions := if has_action actions actionAddHeaders then _ else _).
  assert (Hd : Forall (λ f, final_frame f = false) deletions).
  { apply Forall_forall. intros f (name & Hf & _)%list_elem_of_bind. by apply elem_of_replicate in Hf as [-> _]. }
  assert (Ha : Forall (λ f, final_frame f = false) additions).
  { unfold additions. case_match; [|constructor]. apply Forall_fmap, Forall_forall. by intros h _. }
  clearbody deletions additions. cbv zeta. destruct (has_action actions actionChangeHeaders).
  - apply respects_bind; [exact _|by apply frames_quiet|]. intros []; [by apply frames_quiet|apply respects_ret; exact _].
  - case_match; [apply respects_ret; exact _|by apply frames_quiet].
Qed.
#[local] Hint Resolve replaceResultHeaders_quiet : session.
Lemma writeClassificationHeaders_quiet c q a : respects (@quiet W X) (writeClassificationHeaders dp c q a).
Proof. apply replaceResultHeaders_quiet. Qed.
#[local] Hint Resolve writeClassificationHeaders_quiet : session.
Lemma writeAcceptedResultHeaders_quiet r : respects (@quiet W X) (writeAcceptedResultHeaders dp r).
Proof. unfold writeAcceptedResultHeaders. respects_tac. Qed.
#[local] Hint Resolve writeAcceptedResultHeaders_quiet : session.

Lemma writePolicyResponse_responds selected msg : responds (@writePolicyResponse W X selected msg).
Proof.
  unfold writePolicyResponse. apply responds_bind; [apply respects_gets; exact _|intros pending].
  apply responds_bind.
  - destruct selected, pending as [p|]; try (apply respects_ret; exact _). apply frames_quiet, Forall_fmap, Forall_forall. by intros.
  - intros []; [apply write_responds, response_final|apply responds_fail].
Qed.

Lemma completeSenderBlocklistRemoval_silent : respects (@silent W X) (completeSenderBlocklistRemoval dp o).
Proof. unfold completeSenderBlocklistRemoval, recordSenderBlocklist, recordRejection. respects_tac. Qed.
Lemma awaitConnectionDNS_silent : respects (@silent W X) (awaitConnectionDNS o).
Proof. unfold awaitConnectionDNS. respects_tac. Qed.
#[local] Hint Resolve completeSenderBlocklistRemoval_silent awaitConnectionDNS_silent : session.
Lemma strike_silent : respects (@silent W X) (strike dp o now).
Proof. unfold strike. respects_tac. Qed.
Lemma recordLegitimateIP_silent a : respects (@silent W X) (recordLegitimateIP dp now a).
Proof. unfold recordLegitimateIP. respects_tac. Qed.
Lemma learn_silent : respects (@silent W X) (learnAuthenticatedRecipients now).
Proof. unfold learnAuthenticatedRecipients. respects_tac. Qed.
Lemma touch_silent : respects (@silent W X) (touchInboundCorrespondent now).
Proof. unfold touchInboundCorrespondent. respects_tac. Qed.
#[local] Hint Resolve strike_silent recordLegitimateIP_silent learn_silent touch_silent : session.
Lemma recordInboundClassification_silent c r a : respects (@silent W X) (recordInboundClassification dp now c r a).
Proof. unfold recordInboundClassification. respects_tac. Qed.
#[local] Hint Resolve recordInboundClassification_silent : session.
Lemma applyPostDecisionUpdates_silent r i : respects (@silent W X) (applyPostDecisionUpdates dp o now r i).
Proof. unfold applyPostDecisionUpdates, policy_updates, recordSenderBlocklist, recordRejection. respects_tac. Qed.
#[local] Hint Resolve applyPostDecisionUpdates_silent : session.

Lemma after_response (m : M W X bool) (after : bool -> M W X unit) (k : M W X bool) :
  responds m -> (forall b, respects silent (after b)) -> settles k ->
  concludes (bind m (λ ok, bind (after ok) (λ _, if negb ok then ret false else k))).
Proof.
  intros Hm Ha Hk. apply concludes_respond; [done| |].
  - apply settles_bind; [apply Ha|by intros []].
  - intros s. unfold bind. specialize (Ha false s). by destruct (after false s).
Qed.
Lemma response_reset (m : M W X bool) : responds m ->
  concludes (bind m (λ ok, if negb ok then ret false else bind (resetMessage dp o now phaseConnection) (λ _, ret true))).
Proof. intros Hm. apply concludes_respond; [done|apply reset_settles|done]. Qed.

(** A response that may be skipped after a failed header write. *)
Ltac responding := first
  [ apply responds_fail | apply writePolicyResponse_responds | apply write_responds; first [apply response_final | reflexivity]
  | match goal with |- responds (if ?b then _ else _) => destruct b; responding end ].
Ltac settling := unfold recordDeterministic, recordScan, recordSenderBlocklist, recordRejection; cbv zeta;
  repeat first [apply reset_settles | apply settles_bind; [solve [respects_tac]|intros ?]].

Lemma finishBypassedMessage_concludes source learn touch : concludes (finishBypassedMessage dp o now source learn touch).
Proof.
  unfold finishBypassedMessage. apply concludes_bind; [eauto with session|intros headers].
  apply (after_response _ (λ ok, if beq source _ then _ else _)); [responding|unfold recordDeterministic; intros; respects_tac|settling].
Qed.

Lemma finishInternalMessage_concludes : concludes (finishInternalMessage dp o now).
Proof.
  unfold finishInternalMessage. apply concludes_bind; [apply respects_gets; exact _|intros s].
  destruct (negb _); [apply response_reset; responding|].
  apply concludes_bind; [by apply frames_quiet, replicate_frames|]. intros []; [apply finishBypassedMessage_concludes|apply concludes_fail].
Qed.

Lemma rejectEmailCommand_concludes reason : concludes (rejectEmailCommand dp o now reason).
Proof. apply response_reset. responding. Qed.
Lemma discardEmailCommand_concludes : concludes (discardEmailCommand dp o now).
Proof. apply response_reset. responding. Qed.

Lemma queueReply_quiet recipient subject request : respects quiet (queueReplyContentFunc dp o recipient subject request).
Proof. unfold queueReplyContentFunc. case_match; [apply silent_quiet, record_silent|apply respects_ret; exact _]. Qed.
Lemma completeInvalidEmailCommand_concludes identity replyTo reason : concludes (completeInvalidEmailCommand dp o now identity replyTo reason).
Proof. apply concludes_bind; [apply queueReply_quiet|intros _; apply discardEmailCommand_concludes]. Qed.
Lemma completeFailedEmailCommand_concludes replyTo reason : concludes (completeFailedEmailCommand dp o now replyTo reason).
Proof. apply concludes_bind; [apply queueReply_quiet|intros _; apply discardEmailCommand_concludes]. Qed.
Lemma run_email_commands_concludes admin identity replyTo : concludes (run_email_commands dp o now admin identity replyTo).
Proof.
  apply concludes_bind; [apply respects_gets; exact _|intros s].
  destruct (messageLines _ _ _ _) as [[reason|reason]|lines];
    [apply completeInvalidEmailCommand_concludes|apply completeFailedEmailCommand_concludes|]. cbv zeta.
  destruct (parse_lines _ _ _) as [reason|[|c cmds]]; [apply completeInvalidEmailCommand_concludes..|].
  apply concludes_bind; [apply silent_quiet, on_store_silent|]. intros parts.
  apply concludes_bind; [apply queueReply_quiet|intros _; apply discardEmailCommand_concludes].
Qed.

Lemma handleEmailCommand_decides : decides (handleEmailCommand dp o now).
Proof.
  unfold handleEmailCommand. cbv zeta. destruct (negb (ec_Enabled _)); [apply decides_none|].
  apply decides_bind; [apply respects_gets; exact _|intros s].
  repeat match goal with |- decides (if ?b then _ else _) => destruct b end;
    try apply decides_none; try (apply decides_handled, rejectEmailCommand_concludes).
  apply decides_handled, run_email_commands_concludes.
Qed.

Lemma finishAuthenticatedOnly_concludes domain : concludes (finishAuthenticatedOnlySenderDomain dp o now domain).
Proof.
  unfold finishAuthenticatedOnlySenderDomain. cbv zeta. apply concludes_bind; [respects_tac|intros headers].
  apply (after_response _ (λ ok, if bool_decide _ then _ else _)); [responding|unfold recordDeterministic; intros; respects_tac|settling].
Qed.
Lemma applyAuthenticatedOnly_decides : decides (applyAuthenticatedOnlySenderDomain dp o now).
Proof.
  unfold applyAuthenticatedOnlySenderDomain. apply decides_bind; [apply respects_gets; exact _|intros s].
  repeat match goal with |- decides (if ?b then _ else _) => destruct b end; try apply decides_none.
  apply decides_handled, finishAuthenticatedOnly_concludes.
Qed.

Lemma applySenderBlocklist_decides : decides (applySenderBlocklist dp o now).
Proof.
  unfold applySenderBlocklist. cbv zeta. apply decides_bind; [apply respects_gets; exact _|intros s].
  destruct (senderBlocklist dp) as [cfg|]; [|apply decides_none].
  repeat match goal with |- decides (if ?b then _ else _) => destruct b end; try apply decides_none.
  apply decides_bind; [apply silent_quiet, on_store_silent|intros [e|m]; [apply decides_none|]].
  repeat match goal with |- decides (if ?b then _ else _) => destruct b end; try apply decides_none.
  apply decides_handled, concludes_respond; [responding|settling|done].
Qed.

Lemma finishAttachmentDecision_concludes cfg r : concludes (finishAttachmentDecision dp o now cfg r).
Proof.
  unfold finishAttachmentDecision. cbv zeta. apply concludes_bind; [respects_tac|intros headers].
  apply (after_response _ (λ ok, if bool_decide _ then _ else _)); [responding|unfold recordDeterministic; intros; respects_tac|settling].
Qed.
Lemma applyAttachments_decides : decides (applyAttachments dp o now).
Proof.
  unfold applyAttachments. cbv zeta. apply decides_bind; [apply respects_gets; exact _|intros msg].
  destruct (attachments dp) as [cfg|]; [|apply decides_none].
  repeat match goal with |- decides (if ?b then _ else _) => destruct b end; try apply decides_none.
  - intros s. exists []. split; [constructor|]. cbn. by rewrite app_nil_r.
  - apply decides_handled, finishAttachmentDecision_concludes.
Qed.

Lemma progress_quiet n e : respects (@quiet W X) (progress n e).
Proof. unfold progress. apply respects_bind; [exact _|by apply frames_quiet, replicate_frames|]. intros. apply respects_ret. exact _. Qed.

Lemma finishAnalyzed_concludes inbound : concludes (finishAnalyzed dp o now inbound).
Proof.
  unfold finishAnalyzed. apply concludes_bind.
  { unfold evaluateWithProgress. apply respects_bind; [exact _|apply silent_quiet, awaitConnectionDNS_silent|intros _]. cbv zeta.
    apply respects_bind; [exact _|apply progress_quiet|]. intros. apply respects_ret. exact _. }
  intros [result failed]. cbn [fst snd]. cbv zeta. destruct failed.
  - apply concludes_bind; [apply silent_quiet, record_silent|intros _; apply concludes_fail].
  - apply concludes_bind; [respects_tac|intros headers].
    apply (after_response _ (λ ok, recordScan result (negb ok))); [responding|unfold recordScan; intros; respects_tac|settling].
Qed.

Lemma authenticate_quiet : respects (@quiet W X) (authenticate dp o).
Proof.
  unfold authenticate, verifyAuthenticationWithProgress. cbv zeta.
  repeat first [apply silent_quiet, closeExactMessage_silent | apply silent_quiet, modify_silent | apply progress_quiet | respects_step].
Qed.

Lemma finishEvaluated_concludes : concludes (finishEvaluated dp o now).
Proof.
  unfold finishEvaluated. apply concludes_bind; [apply authenticate_quiet|intros e].
  apply concludes_bind; [apply respects_gets; exact _|intros s].
  apply concludes_bind; [apply silent_quiet, on_store_silent|intros inbound].
  repeat match goal with |- concludes (if ?b then _ else _) => destruct b end;
    try apply finishBypassedMessage_concludes. apply finishAnalyzed_concludes.
Qed.

Lemma finishMessage_concludes : concludes (finishMessage dp o now).
Proof.
  unfold finishMessage. apply concludes_bind; [apply respects_gets; exact _|intros p].
  destruct (negb _); [apply concludes_fail|]. destruct (negb _); [apply concludes_fail|].
  apply concludes_bind; [apply silent_quiet, modify_silent|intros _]. apply concludes_bind; [apply respects_gets; exact _|intros s].
  destruct (isInternalMessage dp s); [apply finishInternalMessage_concludes|].
  apply concludes_orElse; [apply handleEmailCommand_decides|]. apply concludes_orElse; [apply applyAuthenticatedOnly_decides|].
  apply concludes_orElse; [apply applySenderBlocklist_decides|].
  destruct (_ && _); [apply finishBypassedMessage_concludes|].
  apply concludes_bind; [destruct (attachments dp); [by apply write_quiet|apply respects_ret; exact _]|].
  intros []; [|apply concludes_fail]. apply concludes_orElse; [apply applyAttachments_decides|apply finishEvaluated_concludes].
Qed.
End Final.
