(* ===== verification/SessionSpec.v ===== *)
(** * The Milter session: properties

    What every reachable session satisfies ([session_inv]), which frames it may
    send, that a message gets exactly one final response, and that outside
    enforcement nothing adaptive changes. *)
From Stdlib Require Import QArith.
From S2P Require Import Prelude GoText Calendar Rejections Activity AdminCmd AdminFormat AdminExec SmtpReply EmailCommands NetSafety MailAddr Protocol Message MailAuth ExactMessage SqlDb IPReputation Correspondents SenderBlocklist IPAllowlist Policy Session SessionFacts.
Open Scope Z_scope.
Import NetSafety.

(** ** The invariant *)

(** Nothing of a message is left. *)
Record clean {X} (dp : Deps) (s : session X) : Prop := Clean {
  cl_sender : envelopeSender s = [];
  cl_recipients : envelopeRecipients s = [];
  cl_truncated : envelopeRecipientsTruncated s = false;
  cl_visible : visibleSender s = [] /\ visibleSenderDomain s = [] /\ visibleFromInvalid s = false;
  cl_protected : protectedSenderDomain s = [];
  cl_pending : pendingSenderBlocks s = None;
  cl_from : senderBlocklistFrom s = [] /\ senderBlocklistFromTruncated s = false;
  cl_utf8 : smtpUTF8 s = false;
  cl_exact : exactMessage s = None;
  cl_message : exists t, message s = New t (maxMessageSize dp);
}.

Definition all_actions : Z := Z.lor resultHeaderActions actionDeleteRecipient.

Record session_inv {X} (dp : Deps) (s : session X) : Prop := SessionInv {
  inv_connected : phase s = phaseEnvelope \/ phase s = phaseBody -> connected s = true;
  inv_authenticated : Authenticated (authentication s) = true -> connected s = true;
  inv_clean : phase s = phaseNegotiation \/ phase s = phaseConnection -> clean dp s;
  inv_recipients : (length (envelopeRecipients s) <= maxEnvelopeRecipients)%nat;
  inv_from : (length (senderBlocklistFrom s) <= maxSenderBlockAddresses)%nat;
  inv_actions : Z.land (negotiatedActions s) all_actions = negotiatedActions s;
  inv_pending : pendingSenderBlocks s <> None -> has_action (negotiatedActions s) actionDeleteRecipient = true;
  inv_message : message_wf (message s);
}.

(** Frames that edit the message need a negotiated action. *)
Definition frame_allowed (actions : Z) (f : gostring) : Prop :=
  match f with
  | c :: _ => (c = responseAddHeader -> has_action actions actionAddHeaders = true) /\
              (c = responseChangeHeader -> has_action actions actionChangeHeaders = true) /\
              (c = responseDeleteRecipient -> has_action actions actionDeleteRecipient = true)
  | [] => False
  end.

(** One stretch of a handler: the invariant is kept, the connection and the
    negotiated actions stay, and only allowed frames are sent. *)
Definition steps {W X} (dp : Deps) (s s' : St W X) : Prop :=
  session_inv dp (ss s) ->
  session_inv dp (ss s') /\ connected (ss s') = connected (ss s) /\ negotiatedActions (ss s') = negotiatedActions (ss s) /\
  exists fs, sent s' = sent s ++ fs /\ Forall (frame_allowed (negotiatedActions (ss s))) fs.

#[export] Instance steps_preorder {W X} dp : PreOrder (@steps W X dp).
Proof.
  split.
  - intros s Hi. split_and!; try done. exists []. by rewrite app_nil_r.
  - intros a b c Hab Hbc Ha. destruct (Hab Ha) as (Hb & Hc1 & Hn1 & fs & Hs1 & Hf1).
    destruct (Hbc Hb) as (Hc & Hc2 & Hn2 & gs & Hs2 & Hf2). split_and!; [done|congruence|congruence|].
    rewrite Hn1 in Hf2. exists (fs ++ gs). rewrite Hs2, Hs1, app_assoc. split; [done|]. by apply Forall_app.
Qed.

(** A change of the session alone. *)
Lemma steps_session {W X} dp (s s' : St W X) : sent s' = sent s ->
  (session_inv dp (ss s) -> session_inv dp (ss s') /\ connected (ss s') = connected (ss s) /\
     negotiatedActions (ss s') = negotiatedActions (ss s)) -> steps dp s s'.
Proof. intros Hs Hi H. destruct (Hi H) as (? & ? & ?). split_and!; try done. exists []. by rewrite app_nil_r. Qed.

Section Primitives.
Context {W X : Type} (dp : Deps).
#[local] Abbreviation steps_ := (@steps W X dp).

Lemma on_store_steps {A} (f : W -> A * W) : respects steps_ (on_store f).
Proof. intros s. unfold on_store. destruct (f (store s)). by apply steps_session. Qed.
Lemma record_steps c : respects steps_ (record c).
Proof. intros s. by apply steps_session. Qed.

Lemma write_steps f s : frame_allowed (negotiatedActions (ss s)) f -> steps_ s (write f s).2.
Proof.
  intros Hf Hi. unfold write. destruct (wfail s) as [|[] ?]; cbn; split_and!; try done;
    [exists [f]; split; [done|by constructor]|exists []; by rewrite app_nil_r|exists [f]; split; [done|by constructor]].
Qed.
Lemma write_ss f s : ss (@write W X f s).2 = ss s.
Proof. unfold write. by destruct (wfail s) as [|[] ?]. Qed.
Lemma write_all_ss fs s : ss (@write_all W X fs s).2 = ss s.
Proof.
  revert s. induction fs as [|f fs IH]; intros s; [done|]. cbn [write_all]. unfold bind. pose proof (write_ss f s) as Hw.
  destruct (write f s) as [[] s1]; cbn in *; [by rewrite IH|done].
Qed.
Lemma write_all_steps fs s : Forall (frame_allowed (negotiatedActions (ss s))) fs -> steps_ s (write_all fs s).2.
Proof.
  revert s. induction fs as [|f fs IH]; intros s Hf; [cbn; reflexivity|]. apply Forall_cons in Hf as [Hf Hfs]. cbn [write_all]. unfold bind.
  pose proof (write_steps f s Hf) as Hw. pose proof (write_ss f s) as Hss. destruct (write f s) as [[] s1]; cbn in *; [|done].
  etrans; [exact Hw|]. apply IH. by rewrite Hss.
Qed.

(** Frames that need no negotiation. *)
Definition plain_frame (f : gostring) : Prop :=
  match f with c :: _ => c <> responseAddHeader /\ c <> responseChangeHeader /\ c <> responseDeleteRecipient | [] => False end.
Lemma plain_allowed actions f : plain_frame f -> frame_allowed actions f.
Proof. destruct f as [|c f]; [done|]. intros (? & ? & ?). by split_and!. Qed.
Lemma write_plain f : plain_frame f -> respects steps_ (write f).
Proof. intros Hf s. by apply write_steps, plain_allowed. Qed.
Lemma response_plain selected msg : plain_frame (responseForAction selected msg).
Proof. by destruct selected. Qed.
End Primitives.
#[export] Hint Resolve on_store_steps record_steps : session.

(** The invariant under the changes a handler makes. *)

Section Changes.
Context {X : Type} (dp : Deps).
Implicit Types (s : session X).

(** A change that leaves the fields of the invariant alone. *)
Lemma inv_same s s' : phase s' = phase s -> connected s' = connected s -> authentication s' = authentication s ->
  (clean dp s -> clean dp s') -> envelopeRecipients s' = envelopeRecipients s -> senderBlocklistFrom s' = senderBlocklistFrom s ->
  negotiatedActions s' = negotiatedActions s -> pendingSenderBlocks s' = pendingSenderBlocks s -> message s' = message s ->
  session_inv dp s -> session_inv dp s'.
Proof. intros H1 H2 H3 H4 H5 H6 H7 H8 H9 [? ? ? ? ? ? ? ?]. split; rewrite ?H1, ?H2, ?H3, ?H5, ?H6, ?H7, ?H8, ?H9; auto. Qed.

Lemma clean_same s s' : envelopeSender s' = envelopeSender s -> envelopeRecipients s' = envelopeRecipients s ->
  envelopeRecipientsTruncated s' = envelopeRecipientsTruncated s -> visibleSender s' = visibleSender s ->
  visibleSenderDomain s' = visibleSenderDomain s -> visibleFromInvalid s' = visibleFromInvalid s ->
  protectedSenderDomain s' = protectedSenderDomain s -> pendingSenderBlocks s' = pendingSenderBlocks s ->
  senderBlocklistFrom s' = senderBlocklistFrom s -> senderBlocklistFromTruncated s' = senderBlocklistFromTruncated s ->
  smtpUTF8 s' = smtpUTF8 s -> (exactMessage s = None -> exactMessage s' = None) -> message s' = message s ->
  clean dp s -> clean dp s'.
Proof.
  intros H1 H2 H3 H4 H5 H6 H7 H8 H9 H10 H11 H12 H13 [? ? ? ? ? ? ? ? ? ?].
  split; rewrite ?H1, ?H2, ?H3, ?H4, ?H5, ?H6, ?H7, ?H8, ?H9, ?H10, ?H11, ?H13; auto.
Qed.

Lemma inv_dns s d b : session_inv dp s -> session_inv dp (set_connectionDNSPending b (set_connectionDNS d s)).
Proof. apply inv_same; try done. by apply clean_same. Qed.

Lemma identify_clean `{UnicodeTables, NetMail} s : clean dp s -> identify_sender s = s.
Proof. intros [? ? ? ? ? ? ? ? ? [t Hm]]. unfold identify_sender. rewrite Hm. done. Qed.

Lemma inv_identify `{UnicodeTables, NetMail} s : session_inv dp s -> session_inv dp (identify_sender s).
Proof.
  intros Hi. destruct (decide (phase s = phaseNegotiation \/ phase s = phaseConnection)) as [Hp|Hp].
  { by rewrite identify_clean by by apply Hi. }
  revert Hi. unfold identify_sender. case_match; [|case_match; [|done]]; intros [? ? ? ? ? ? ? ?]; split; cbn; auto; by intros.
Qed.
End Changes.

(** ** Every handler keeps the invariant *)

Section Handlers.
Context `{UnicodeTables, NetMail, NetIPText, HeaderDecoder, PublicSuffix} {W X : Type} `{PolicyStores W, ExactStore X}.
Context (dp : Deps) (o : Oracle W X) (now : Z) (Hmax : 0 <= maxMessageSize dp).
#[local] Set Default Proof Using "All".
#[local] Abbreviation steps_ := (@steps W X dp).

Lemma modify_steps f : (forall s, session_inv dp s -> session_inv dp (f s) /\ connected (f s) = connected s /\
    negotiatedActions (f s) = negotiatedActions s) -> respects steps_ (modify f).
Proof. intros Hf s. by apply steps_session; [|apply Hf]. Qed.

Lemma closeExactMessage_steps : respects steps_ closeExactMessage.
Proof.
  intros s. unfold closeExactMessage, bind, gets. cbn. destruct (exactMessage (ss s)) as [x|]; [|cbn; reflexivity].
  destruct (x_step x XClose) as [e x']. apply modify_steps. intros s0 Hi. split_and!; [|done|done].
  revert Hi. apply inv_same; try done. by apply clean_same.
Qed.

Lemma captureExact_steps op : respects steps_ (captureExact op).
Proof.
  unfold captureExact. apply modify_steps. intros s Hi. destruct (exactMessage s) as [x|] eqn:E; [|done].
  destruct (exactMessageErr s); [done|]. destruct (x_step x op) as [e x']. split_and!; [|done|done].
  revert Hi. apply inv_same; try done. apply clean_same; try done. congruence.
Qed.

(** The session a reset leaves. *)
Lemma reset_session p (s : St W X) : let s' := ss (resetMessage dp o now p s).2 in
  phase s' = p /\ connected s' = connected (ss s) /\ authentication s' = authentication (ss s) /\
  negotiatedActions s' = negotiatedActions (ss s) /\ envelopeRecipients s' = [] /\ senderBlocklistFrom s' = [] /\
  pendingSenderBlocks s' = None /\ message s' = New now (maxMessageSize dp) /\
  (p <> phaseEnvelope -> clean dp s').
Proof.
  unfold resetMessage, closeExactMessage, bind, gets, modify. cbv zeta.
  destruct (exactMessage (ss s)) as [x|]; cbn; [destruct (x_step x XClose) as [e x']; cbn|];
    (destruct (negb (bool_decide (p = phaseEnvelope))) eqn:Ep; cbn;
     [|destruct (negb (internalAuthentication dp)); cbn; [|destruct (or_exact o) as [[|]|]; cbn]]);
    split_and!; try done; intros Hp;
    (split; cbn; try done; first [by exists now|by apply negb_false_iff, bool_decide_eq_true in Ep]).
Qed.

Lemma reset_inv p (s : St W X) : (p = phaseEnvelope \/ p = phaseBody -> connected (ss s) = true) -> p <> phaseBody ->
  (Authenticated (authentication (ss s)) = true -> connected (ss s) = true) ->
  Z.land (negotiatedActions (ss s)) all_actions = negotiatedActions (ss s) ->
  session_inv dp (ss (resetMessage dp o now p s).2).
Proof.
  intros Hp Hb Ha Hn. destruct (reset_session p s) as (H1' & H2' & H3' & H4' & H5' & H6' & H7' & H8' & H9').
  split; rewrite ?H1', ?H2', ?H3', ?H4', ?H5', ?H6', ?H7', ?H8'; try done; try (cbn; lia).
  - intros [->| ->]; apply H9'; done.
  - by apply New_wf.
Qed.

Lemma resetMessage_steps : respects steps_ (resetMessage dp o now phaseConnection).
Proof.
  intros s. apply steps_session; [apply resetMessage_silent|]. intros [? ? ? ? ? ? ? ?].
  destruct (reset_session phaseConnection s) as (_ & H2' & _ & H4' & _). split_and!; [|done|done].
  apply reset_inv; try done. by intros [|].
Qed.
#[local] Hint Resolve closeExactMessage_steps captureExact_steps resetMessage_steps : session.

Lemma replaceResultHeaders_steps headers : respects steps_ (replaceResultHeaders headers).
Proof.
  intros s. unfold replaceResultHeaders, bind at 1 2, gets. cbn [fst snd]. cbv zeta.
  set (deletions := _ ≫= _). set (additions := if has_action _ actionAddHeaders then _ else _).
  assert (Ha : Forall (frame_allowed (negotiatedActions (ss s))) additions).
  { unfold additions. destruct (has_action _ _) eqn:E; [|constructor]. apply Forall_fmap, Forall_forall. intros h _. by split_and!. }
  destruct (has_action (negotiatedActions (ss s)) actionChangeHeaders) eqn:Ec.
  - assert (Hd : Forall (frame_allowed (negotiatedActions (ss s))) deletions).
    { apply Forall_forall. intros f (name & Hf & _)%list_elem_of_bind. apply elem_of_replicate in Hf as [-> _]. by split_and!. }
    clearbody deletions additions. pose proof (write_all_steps dp deletions s Hd) as Hw. pose proof (write_all_ss deletions s) as Hss.
    unfold bind. destruct (write_all deletions s) as [[] s1]; cbn in *; [|done]. etrans; [exact Hw|].
    apply write_all_steps. by rewrite Hss.
  - case_match; [cbn; reflexivity|]. by apply write_all_steps.
Qed.
#[local] Hint Resolve replaceResultHeaders_steps : session.
Lemma writeClassificationHeaders_steps c q a : respects steps_ (writeClassificationHeaders dp c q a).
Proof. apply replaceResultHeaders_steps. Qed.
#[local] Hint Resolve writeClassificationHeaders_steps : session.
Lemma writeAcceptedResultHeaders_steps r : respects steps_ (writeAcceptedResultHeaders dp r).
Proof. unfold writeAcceptedResultHeaders. respects_tac. Qed.
#[local] Hint Resolve writeAcceptedResultHeaders_steps : session.

Lemma write_response_steps selected msg : respects steps_ (write (responseForAction selected msg)).
Proof. apply write_plain, response_plain. Qed.
#[local] Hint Resolve write_response_steps : session.

Lemma writePolicyResponse_steps selected msg : respects steps_ (writePolicyResponse selected msg).
Proof.
  intros s Hi. revert Hi. unfold writePolicyResponse. unfold bind at 1, gets. cbn [fst snd].
  assert (Hk : forall (m : M W X bool), steps_ s (m s).2 ->
    steps_ s (bind m (λ ok, if ok then write (responseForAction selected msg) else ret false) s).2).
  { intros m Hm. unfold bind. destruct (m s) as [[] s1]; cbn in *; [|done]. etrans; [exact Hm|]. apply write_response_steps. }
  intros Hi. revert Hi. apply Hk. destruct selected, (pendingSenderBlocks (ss s)) as [p|] eqn:Ep; try (cbn; reflexivity).
  intros Hi. revert Hi. intros Hi. apply write_all_steps; [|done]. apply Forall_fmap, Forall_forall. intros x _.
  split_and!; [done|done|]. intros _. apply Hi. congruence.
Qed.
#[local] Hint Resolve writePolicyResponse_steps : session.

Lemma completeSenderBlocklistRemoval_steps : respects steps_ (completeSenderBlocklistRemoval dp o).
Proof. unfold completeSenderBlocklistRemoval, recordSenderBlocklist, recordRejection. respects_tac. Qed.
Lemma awaitConnectionDNS_steps : respects steps_ (awaitConnectionDNS o).
Proof.
  unfold awaitConnectionDNS. respects_tac. apply modify_steps. intros s Hi. split_and!; [|done|done]. by apply inv_dns.
Qed.
#[local] Hint Resolve completeSenderBlocklistRemoval_steps awaitConnectionDNS_steps : session.
Lemma strike_steps : respects steps_ (strike dp o now).
Proof. unfold strike. respects_tac. Qed.
#[local] Hint Resolve strike_steps : session.

Lemma applyPostDecisionUpdates_steps r i : respects steps_ (applyPostDecisionUpdates dp o now r i).
Proof.
  unfold applyPostDecisionUpdates, policy_updates, recordInboundClassification, recordLegitimateIP, recordSenderBlocklist, recordRejection. respects_tac.
Qed.
#[local] Hint Resolve applyPostDecisionUpdates_steps : session.

Ltac handler_tac := unfold recordDeterministic, recordScan, recordSenderBlocklist, recordRejection, recordLegitimateIP, learnAuthenticatedRecipients,
  touchInboundCorrespondent; respects_tac.

Lemma finishBypassedMessage_steps source learn touch : respects steps_ (finishBypassedMessage dp o now source learn touch).
Proof. unfold finishBypassedMessage. handler_tac. Qed.
#[local] Hint Resolve finishBypassedMessage_steps : session.

Lemma finishInternalMessage_steps : respects steps_ (finishInternalMessage dp o now).
Proof.
  intros s. unfold finishInternalMessage. unfold bind at 1, gets. cbn [fst snd]. cbv beta.
  destruct (has_action (negotiatedActions (id (ss s))) actionChangeHeaders) eqn:E; cbn [negb].
  - unfold bind. set (fs := replicate _ _). assert (Hf : Forall (frame_allowed (negotiatedActions (ss s))) fs).
    { apply Forall_replicate. by split_and!. }
    pose proof (write_all_steps dp fs s Hf) as Hw. destruct (write_all fs s) as [[] s1]; cbn in *; [|done].
    etrans; [exact Hw|apply finishBypassedMessage_steps].
  - apply (respects_bind steps_); [by apply write_plain|]. intros []; respects_tac.
Qed.
#[local] Hint Resolve finishInternalMessage_steps : session.

Lemma email_reply_steps reason : respects steps_ (rejectEmailCommand dp o now reason).
Proof. unfold rejectEmailCommand. apply respects_bind; [exact _|by apply write_plain|]. intros []; respects_tac. Qed.
Lemma email_discard_steps : respects steps_ (discardEmailCommand dp o now).
Proof. unfold discardEmailCommand. apply respects_bind; [exact _|by apply write_plain|]. intros []; respects_tac. Qed.
#[local] Hint Resolve email_reply_steps email_discard_steps : session.
Lemma handleEmailCommand_steps : respects steps_ (handleEmailCommand dp o now).
Proof. unfold handleEmailCommand, handled, run_email_commands, completeInvalidEmailCommand, completeFailedEmailCommand, queueReplyContentFunc. respects_tac. Qed.
Lemma applyAuthenticatedOnly_steps : respects steps_ (applyAuthenticatedOnlySenderDomain dp o now).
Proof. unfold applyAuthenticatedOnlySenderDomain, finishAuthenticatedOnlySenderDomain. handler_tac. Qed.
#[local] Hint Resolve handleEmailCommand_steps applyAuthenticatedOnly_steps : session.

Lemma set_pending_inv (s : session X) p : senderBlocklistFrom s <> [] -> has_action (negotiatedActions s) actionDeleteRecipient = true ->
  session_inv dp s -> session_inv dp (set_pendingSenderBlocks (Some p) s).
Proof.
  intros Hf Ha [? ? Hc ? ? ? ? ?]. split; cbn; try done. intros Hp. specialize (Hc Hp). destruct Hc as [_ _ _ _ _ _ [Hn _] _ _ _]. done.
Qed.

Lemma applySenderBlocklist_steps : respects steps_ (applySenderBlocklist dp o now).
Proof.
  intros s. unfold applySenderBlocklist. unfold bind at 1, gets. cbn [fst snd]. cbv zeta.
  destruct (senderBlocklist dp) as [cfg|]; [|cbn; reflexivity]. change (id (ss s)) with (ss s).
  destruct (Authenticated _); [cbn; reflexivity|]. case_bool_decide as Hm; [cbn; reflexivity|].
  assert (Hfrom : senderBlocklistFrom (ss s) <> []) by (intros Hn; by rewrite Hn in Hm).
  destruct (senderBlocklistFromTruncated _); [cbn; reflexivity|]. destruct (negb _); [cbn; reflexivity|].
  unfold bind at 1, on_store. destruct (st_MatchSenderBlocks _ _ _ _ _) as [[e|m] w]; [by apply steps_session|].
  set (s1 := MkSt (ss s) (sent s) (wfail s) w (calls s)). transitivity s1; [by apply steps_session|].
  assert (Hss : ss s = ss s1) by done. clearbody s1. rewrite Hss in Hfrom |- *.
  destruct (bool_decide _); [cbn; reflexivity|]. destruct (negb _); [cbn; reflexivity|]. destruct (bool_decide _).
  - apply (respects_handled steps_). unfold recordSenderBlocklist, recordRejection. apply respects_bind; [exact _|apply write_response_steps; exact Hmax|].
    intros []; respects_tac.
  - destruct (has_action _ actionDeleteRecipient) eqn:Ea; [|cbn; reflexivity]. cbn.
    apply steps_session; [done|]. intros Hi. split_and!; [|done|done]. by apply set_pending_inv.
Qed.
#[local] Hint Resolve applySenderBlocklist_steps : session.

Lemma applyAttachments_steps : respects steps_ (applyAttachments dp o now).
Proof. unfold applyAttachments, finishAttachmentDecision. handler_tac. Qed.
#[local] Hint Resolve applyAttachments_steps : session.

Lemma progress_steps n e : respects steps_ (progress n e).
Proof.
  unfold progress. apply respects_bind; [exact _| |intros; apply respects_ret; exact _].
  apply respects_write_all; [exact _|]. intros f [-> _]%elem_of_replicate. by apply write_plain.
Qed.
#[local] Hint Resolve progress_steps : session.

Lemma exact_err_steps : respects steps_ (modify (set_exactMessageErr true)).
Proof. apply modify_steps. intros s Hi. split_and!; [|done|done]. revert Hi. apply inv_same; try done. by apply clean_same. Qed.
#[local] Hint Resolve exact_err_steps : session.
Lemma authenticate_steps : respects steps_ (authenticate dp o).
Proof. unfold authenticate, verifyAuthenticationWithProgress. respects_tac. Qed.
#[local] Hint Resolve authenticate_steps : session.
Lemma finishEvaluated_steps : respects steps_ (finishEvaluated dp o now).
Proof. unfold finishEvaluated, finishAnalyzed, evaluateWithProgress. handler_tac. Qed.
#[local] Hint Resolve finishEvaluated_steps : session.

Lemma identify_steps : respects steps_ (modify identify_sender).
Proof.
  apply modify_steps. intros s Hi. split_and!; [by apply inv_identify| |]; unfold identify_sender; repeat case_match; done.
Qed.
Lemma progress_frame_steps : respects steps_ (write [responseProgress]).
Proof. by apply write_plain. Qed.
#[local] Hint Resolve identify_steps progress_frame_steps : session.
Lemma finishMessage_steps : respects steps_ (finishMessage dp o now).
Proof. unfold finishMessage. respects_tac. Qed.
#[local] Hint Resolve finishMessage_steps : session.

Lemma rejectReputationIP_steps : respects steps_ (rejectReputationIP dp o now).
Proof. unfold rejectReputationIP. handler_tac. Qed.
Lemma sendContinue_steps : respects steps_ sendContinue.
Proof. by apply write_plain. Qed.
#[local] Hint Resolve sendContinue_steps : session.

(** ** Commands *)

Lemma add_senders_length senders : forall existing t, (length existing <= maxSenderBlockAddresses)%nat ->
  (length (add_senders senders existing t).1 <= maxSenderBlockAddresses)%nat.
Proof.
  induction senders as [|x senders IH]; intros existing t Hl; [done|]. cbn [add_senders].
  case_bool_decide; [by apply IH|]. case_bool_decide; [done|]. apply IH. rewrite length_app. cbn. lia.
Qed.

(** Changes made while a message is being received. *)
Lemma receiving_steps f (s : St W X) : phase (ss s) = phaseEnvelope \/ phase (ss s) = phaseBody ->
  phase (f (ss s)) = phase (ss s) \/ phase (f (ss s)) = phaseBody -> connected (f (ss s)) = connected (ss s) ->
  authentication (f (ss s)) = authentication (ss s) -> negotiatedActions (f (ss s)) = negotiatedActions (ss s) ->
  pendingSenderBlocks (f (ss s)) = pendingSenderBlocks (ss s) ->
  (message_wf (message (ss s)) -> message_wf (message (f (ss s)))) ->
  ((length (envelopeRecipients (ss s)) <= maxEnvelopeRecipients)%nat -> (length (envelopeRecipients (f (ss s))) <= maxEnvelopeRecipients)%nat) ->
  ((length (senderBlocklistFrom (ss s)) <= maxSenderBlockAddresses)%nat -> (length (senderBlocklistFrom (f (ss s))) <= maxSenderBlockAddresses)%nat) ->
  steps_ s (modify f s).2.
Proof.
  intros Hp Hp' Hc Ha Hn Hpe Hm Hr Hf. apply steps_session; [done|]. intros [I1 I2 I3 I4 I5 I6 I7 I8]. cbn. split_and!; [|done|done].
  split; rewrite ?Hc, ?Ha, ?Hn, ?Hpe; auto. intros Hx. exfalso. destruct Hp as [Hp|Hp], Hp' as [Hp'|Hp'], Hx as [Hx|Hx]; congruence.
Qed.

Lemma note_from_fields value (s : session X) : phase (note_from dp value s) = phase s /\ connected (note_from dp value s) = connected s /\
  authentication (note_from dp value s) = authentication s /\ negotiatedActions (note_from dp value s) = negotiatedActions s /\
  pendingSenderBlocks (note_from dp value s) = pendingSenderBlocks s /\ message (note_from dp value s) = message s /\
  envelopeRecipients (note_from dp value s) = envelopeRecipients s /\
  ((length (senderBlocklistFrom s) <= maxSenderBlockAddresses)%nat ->
   (length (senderBlocklistFrom (note_from dp value s)) <= maxSenderBlockAddresses)%nat).
Proof.
  unfold note_from. cbv zeta.
  destruct (beq (protectedSenderDomain s) []); cbn [senderBlocklistFrom senderBlocklistFromTruncated set_protectedSenderDomain];
    pose proof (add_senders_length (strictVisibleFromMailboxes [value]) (senderBlocklistFrom s) (senderBlocklistFromTruncated s)) as Hl;
    destruct (add_senders _ _ _) as [from t]; cbn in *; by split_and!.
Qed.

Lemma addHeader_steps payload : respects steps_ (addHeader dp payload).
Proof.
  intros s. unfold addHeader. unfold bind at 1, gets. cbn [fst snd]. case_bool_decide as Hp; [|cbn; reflexivity]. cbn [negb].
  destruct (parseHeader payload) as [[name value]|]; [|cbn; reflexivity].
  set (s1 := ((if equalFold (trimSpace name) (lit "From") then modify (note_from dp value) else ret tt) s).2).
  assert (Hs1 : steps_ s s1 /\ phase (ss s1) = phaseEnvelope).
  { unfold s1. destruct (equalFold _ _); [|cbn; split; [reflexivity|done]].
    pose proof (note_from_fields value (ss s)) as (N1 & N2 & N3 & N4 & N5 & N6 & N7 & N8).
    split; [|cbn; congruence]. apply receiving_steps; rewrite ?N6, ?N7; auto. }
  unfold bind at 1. replace ((if equalFold (trimSpace name) (lit "From") then modify (note_from dp value) else ret tt) s) with (tt, s1)
    by (unfold s1; by destruct (equalFold _ _)).
  destruct Hs1 as [Hs1 Hp1]. clearbody s1. etrans; [exact Hs1|]. unfold bind at 1.
  match goal with |- context [modify ?f s1] => assert (Hs2 : steps_ s1 (modify f s1).2) end.
  { apply receiving_steps; auto. cbn. apply AddHeader_wf. }
  destruct (modify _ s1) as [u s2]. cbn [snd] in Hs2. etrans; [exact Hs2|]. apply (respects_bind steps_); [|intros _]; respects_tac.
Qed.

Lemma addBody_steps payload (s : St W X) : phase (ss s) = phaseBody -> steps_ s (addBody payload s).2.
Proof.
  intros Hp. unfold addBody, bind. match goal with |- context [modify ?f s] => assert (Hs1 : steps_ s (modify f s).2) end.
  { apply receiving_steps; auto. cbn. apply AddBody_wf. }
  destruct (modify _ s) as [u s1]. cbn in Hs1. etrans; [exact Hs1|]. by apply captureExact_steps.
Qed.

Lemma macros_steps payload : respects steps_ (captureSessionMacros payload).
Proof.
  unfold captureSessionMacros. destruct (parseSessionMacros payload) as [[target values]|]; [|apply respects_ret; exact _].
  apply modify_steps. intros s Hi. cbv zeta.
  set (s1 := if MTAHostnameFound values then _ else s).
  assert (Hs1 : session_inv dp s1 /\ connected s1 = connected s /\ negotiatedActions s1 = negotiatedActions s).
  { unfold s1. repeat case_match; split_and!; try done; revert Hi; apply inv_same; try done; by apply clean_same. }
  clearbody s1. destruct Hs1 as (I1 & C1 & N1).
  set (s2 := if ReceiverAddressFound values then _ else s1).
  assert (Hs2 : session_inv dp s2 /\ connected s2 = connected s1 /\ negotiatedActions s2 = negotiatedActions s1).
  { unfold s2. repeat case_match; split_and!; try done; revert I1; apply inv_same; try done; by apply clean_same. }
  clearbody s2. destruct Hs2 as (I2 & C2 & N2).
  destruct (connected s2) eqn:Ec; cbn [negb orb]; [|split_and!; [done|congruence|congruence]].
  destruct (_ || _); [split_and!; [done|congruence|congruence]|]. split_and!; [|cbn; congruence|cbn; congruence].
  destruct I2 as [? ? Hcl ? ? ? ? ?]. split; cbn; auto. intros Hp. specialize (Hcl Hp). revert Hcl. by apply clean_same.
Qed.

(** Commands that change the connection itself: the invariant still holds. *)
Lemma forget_inv (s : session X) : (phase s = phaseNegotiation \/ phase s = phaseConnection) -> session_inv dp s ->
  forall b, session_inv dp (forget_client (set_connected b s)).
Proof.
  intros Hp [? ? Hc ? ? ? ? ?] b. split; cbn; try done; try (by intros [|]; destruct Hp; congruence).
  intros _. specialize (Hc Hp). revert Hc. by apply clean_same.
Qed.

Lemma connect_inv payload (s : session X) : phase s = phaseConnection -> session_inv dp s -> session_inv dp (connect dp payload s).
Proof.
  intros Hp [? ? Hc ? ? ? ? ?]. specialize (Hc (or_intror Hp)). unfold connect. cbv zeta.
  assert (Hx : forall s1 : session X, phase s1 = phaseConnection -> clean dp s1 -> connected s1 = true -> negotiatedActions s1 = negotiatedActions s ->
    message s1 = message s -> session_inv dp s1).
  { intros s1 P1 C1 Co1 N1 M1. pose proof C1 as [? R1 ? ? ? Pe1 [F1 _] ? ? ?].
    split; rewrite ?N1, ?M1, ?R1, ?Pe1, ?F1; try done; cbn; lia. }
  destruct (parseConnectHostname payload), (parseConnectIP payload); apply Hx; try done; revert Hc; by apply clean_same.
Qed.

Lemma quit_reset_inv (s : St W X) : session_inv dp (ss s) ->
  session_inv dp (ss (bind (modify quit_smtp) (λ _, bind (resetMessage dp o now phaseConnection) (λ _, ret true)) s).2).
Proof.
  intros [? ? ? ? ? ? ? ?]. unfold bind, modify. cbn [snd fst].
  set (s1 := MkSt _ _ _ _ _). pose proof (reset_inv phaseConnection s1) as Hr.
  destruct (resetMessage dp o now phaseConnection s1) as [u s2]. apply Hr; try done. by intros [|].
Qed.

Lemma mail_steps payload (s : St W X) : connected (ss s) = true ->
  steps_ s (bind (resetMessage dp o now phaseEnvelope) (λ _, bind (match parseEnvelopeAddress payload with
    | Some sender => modify (λ s, set_smtpUTF8 (containsNonASCII sender || envelopeHasSMTPUTF8 payload) (set_envelopeSender sender s))
    | None => ret tt end) (λ _, sendContinue)) s).2.
Proof.
  intros Hc. unfold bind at 1. pose proof (resetMessage_silent dp o now phaseEnvelope s) as Hs.
  pose proof (reset_session phaseEnvelope s) as (P1 & C1 & A1 & N1 & _). pose proof (reset_inv phaseEnvelope s) as Hi.
  destruct (resetMessage dp o now phaseEnvelope s) as [u s1]. cbn [snd] in *.
  etrans; [apply (steps_session dp s s1 Hs); intros [? ? ? ? ? ? ? ?]; split_and!; [by apply Hi|done|done]|].
  unfold bind. destruct (parseEnvelopeAddress payload) as [sender|].
  - match goal with |- context [modify ?f s1] => assert (Hs1 : steps_ s1 (modify f s1).2) by (apply receiving_steps; auto) end.
    destruct (modify _ s1) as [v s2]. cbn [snd] in Hs1. etrans; [exact Hs1|]. by apply sendContinue_steps.
  - cbn. by apply sendContinue_steps.
Qed.

Definition session_command (c : ascii) : bool := existsb (ceq c) [commandOptionNegotiation; commandConnect; commandQuitSMTPConnection].

(** Every command but the three above keeps the connection and its actions. *)
Lemma handleCommand_steps c payload : session_command c = false -> respects steps_ (handleCommand dp o now c payload).
Proof.
  intros Hc s. unfold handleCommand. unfold bind at 1, gets. cbn [fst snd]. cbv zeta. change (id (ss s)) with (ss s).
  unfold session_command in Hc. cbn [existsb] in Hc. apply orb_false_iff in Hc as [Hn Hc]. apply orb_false_iff in Hc as [Hco Hc].
  apply orb_false_iff in Hc as [Hq _]. destruct (_ && _ && _ && _); [cbn; reflexivity|]. rewrite Hn, Hco, Hq.
  destruct (ceq c commandMacro); [apply (respects_bind steps_); [by apply macros_steps|intros; apply respects_ret; exact _]|].
  destruct (ceq c commandAbort); [apply (respects_bind steps_); [by apply resetMessage_steps|intros; apply respects_ret; exact _]|].
  destruct (ceq c commandHelo).
  { destruct (_ || _); [cbn; reflexivity|]. apply (respects_bind steps_); [|intros; by apply sendContinue_steps].
    apply modify_steps. intros s0 Hi. split_and!; [|done|done]. revert Hi. apply inv_same; try done. by apply clean_same. }
  destruct (ceq c commandMail).
  { destruct (bool_decide (phase (ss s) = phaseConnection)); [|cbn; reflexivity]. destruct (connected (ss s)) eqn:Ec; [|cbn; reflexivity].
    cbn [negb orb]. unfold orElse, bind at 1. pose proof (rejectReputationIP_steps s) as Hr.
    destruct (rejectReputationIP dp o now s) as [[keep|] s1]; cbn [snd] in *; [exact Hr|].
    intros Hi. destruct (Hr Hi) as (Hi1 & Hc1 & _). refine ((_ : steps_ s _) Hi). etrans; [exact Hr|]. apply mail_steps. congruence. }
  destruct (ceq c commandRecipient).
  { case_bool_decide as Hp; [|cbn; reflexivity]. cbn [negb]. unfold bind.
    match goal with |- context [modify ?f s] => assert (Hs1 : steps_ s (modify f s).2) end.
    { apply receiving_steps; auto; destruct (parseEnvelopeAddress payload); auto; case_bool_decide; auto; cbn; rewrite ?length_app; cbn; lia. }
    destruct (modify _ s) as [u s1]. cbn [snd] in Hs1. etrans; [exact Hs1|]. by apply sendContinue_steps. }
  destruct (ceq c commandData); [destruct (negb _); [cbn; reflexivity|by apply sendContinue_steps]|].
  destruct (ceq c commandUnknown); [by apply sendContinue_steps|].
  destruct (ceq c commandHeader); [by apply addHeader_steps|].
  destruct (ceq c commandEndHeaders).
  { case_bool_decide as Hp; [|cbn; reflexivity]. cbn [negb]. unfold bind at 1.
    assert (Hs1 : steps_ s (modify (set_phase phaseBody) s).2) by (apply receiving_steps; auto).
    destruct (modify _ s) as [u s1]. cbn [snd] in Hs1. etrans; [exact Hs1|].
    apply (respects_bind steps_); [by apply captureExact_steps|intros; by apply sendContinue_steps]. }
  destruct (ceq c commandBody).
  { case_bool_decide as Hp; [|cbn; reflexivity]. cbn [negb]. unfold bind. pose proof (addBody_steps payload s Hp) as Hs1.
    destruct (addBody payload s) as [u s1]. etrans; [exact Hs1|]. by apply sendContinue_steps. }
  destruct (ceq c commandEndBody); [|cbn; reflexivity].
  case_bool_decide as Hp; [|cbn; reflexivity]. cbn [negb]. destruct (beq payload []).
  - apply (respects_bind steps_); [apply respects_ret; exact _|intros; by apply finishMessage_steps].
  - unfold bind. pose proof (addBody_steps payload s Hp) as Hs1. destruct (addBody payload s) as [u s1].
    etrans; [exact Hs1|]. by apply finishMessage_steps.
Qed.

Lemma negotiate_inv payload (s : St W X) : session_inv dp (ss s) -> session_inv dp (ss (negotiate payload s).2).
Proof.
  intros Hi. unfold negotiate. unfold bind at 1, gets. cbn [fst snd]. case_bool_decide as Hp; [|done]. cbn [negb orb].
  destruct (negb _); [done|]. cbv zeta. destruct (_ <? _); [done|]. set (acts := Z.land _ _).
  assert (Ha : Z.land acts all_actions = acts) by (unfold acts; rewrite <- Z.land_assoc, Z.land_diag; done).
  clearbody acts. destruct Hi as [? ? Hc ? ? ? ? ?]. specialize (Hc (or_introl Hp)). pose proof Hc as [_ _ _ _ _ Hpe _ _ _ _].
  unfold bind, modify at 1. cbn [fst snd]. set (s1 := MkSt (set_negotiatedActions acts (ss s)) _ _ _ _).
  pose proof (write_ss (optionResponse (Z.min (uint32 (take 4 payload)) supportedProtocolVersion) acts) s1) as Hw.
  assert (I1 : forall p, p = phaseNegotiation \/ p = phaseConnection -> session_inv dp (set_phase p (ss s1))).
  { intros p Hpp. split; cbn; try done;
      first [by intros [|]; destruct Hpp; congruence|by intros _; revert Hc; apply clean_same|by rewrite Hpe]. }
  destruct (write _ s1) as [[] s2]; cbn [negb fst snd] in *; cbn; rewrite Hw; [apply I1; by right|].
  specialize (I1 phaseNegotiation (or_introl eq_refl)). revert I1. apply inv_same; try done. by apply clean_same.
Qed.

Lemma handleCommand_inv c payload (s : St W X) : session_inv dp (ss s) -> session_inv dp (ss (handleCommand dp o now c payload s).2).
Proof.
  intros Hi. destruct (session_command c) eqn:Hsc; [|by apply handleCommand_steps].
  unfold handleCommand. unfold bind at 1, gets. cbn [fst snd]. cbv zeta. change (id (ss s)) with (ss s).
  destruct (_ && _ && _ && _); [done|]. destruct (ceq c commandOptionNegotiation) eqn:E1; [by apply negotiate_inv|].
  unfold session_command in Hsc. cbn [existsb] in Hsc. rewrite E1, orb_false_l, orb_false_r in Hsc.
  destruct (ceq c commandQuitSMTPConnection) eqn:E2.
  - apply ceq_true in E2 as ->. change (ceq commandQuitSMTPConnection commandMacro) with false.
    change (ceq commandQuitSMTPConnection commandAbort) with false. cbv iota. by apply quit_reset_inv.
  - rewrite orb_false_r in Hsc. apply ceq_true in Hsc as ->. change (ceq commandConnect commandMacro) with false.
    change (ceq commandConnect commandAbort) with false. change (ceq commandConnect commandConnect) with true. cbv iota.
    case_bool_decide as Hp; [|done]. cbn [negb orb]. destruct (connected (ss s)); [done|]. unfold bind.
    set (s1 := (modify (connect dp payload) s).2). assert (Hi1 : session_inv dp (ss s1)) by (by apply connect_inv).
    change (modify (connect dp payload) s) with (tt, s1). by apply (sendContinue_steps s1).
Qed.
End Handlers.

(** ** Reachable sessions *)

Section Reachable.
Context `{UnicodeTables, NetMail, NetIPText, HeaderDecoder, PublicSuffix} {W X : Type} `{PolicyStores W, ExactStore X}.

(** A new session, and the state after each command that keeps the connection. *)
Inductive reachable (dp : Deps) : St W X -> Prop :=
  | reach_new t wf w : reachable dp (MkSt (zero_session (New t (maxMessageSize dp))) [] wf w [])
  | reach_step o now c payload s s' : reachable dp s -> handleCommand dp o now c payload s = (true, s') -> reachable dp s'.

Lemma reachable_inv dp s : 0 <= maxMessageSize dp -> reachable dp s -> session_inv dp (ss s).
Proof.
  intros Hmax. induction 1 as [t wf w|o now c payload s s' Hr IH Hc].
  - split; cbn; try done; try lia; [by intros [|]| |by apply New_wf].
    intros _. split; cbn; try done. by exists t.
  - pose proof (handleCommand_inv dp o now Hmax c payload s IH) as Hi. by rewrite Hc in Hi.
Qed.

(** [newSession] starts where [reachable] does. *)
Lemma newSession_zero dp (o : Oracle W X) now m wf w :
  (newSession dp o now (MkSt (zero_session m) [] wf w [])).2 = MkSt (zero_session (New now (maxMessageSize dp))) [] wf w [].
Proof. reflexivity. Qed.

(** The loop ends in a reachable session or right after one command of it. *)
Lemma run_loop_reachable dp events (s : St W X) : reachable dp s ->
  reachable dp (run_loop dp events s).2 \/
  exists o now c payload s0, reachable dp s0 /\ handleCommand dp o now c payload s0 = (false, (run_loop dp events s).2).
Proof.
  revert s. induction events as [|[|cancelled bytes e|o now c payload] events IH]; intros s Hs; cbn [run_loop]; [by left|by left| |].
  - destruct (handleReadError cancelled bytes e); [by apply IH|by left].
  - unfold bind. destruct (handleCommand dp o now c payload s) as [[] s1] eqn:E; [apply IH; by eapply reach_step|].
    right. by exists o, now, c, payload, s.
Qed.

(** When [run] returns, the session is well formed and holds no exact message. *)
Lemma run_inv dp events (s : St W X) : 0 <= maxMessageSize dp -> reachable dp s ->
  session_inv dp (ss (run dp events s).2) /\ exactMessage (ss (run dp events s).2) = None.
Proof.
  intros Hmax Hs. unfold run, bind. pose proof (run_loop_reachable dp events s Hs) as Hl.
  destruct (run_loop dp events s) as [u s1]. cbn [snd] in Hl.
  assert (Hi : session_inv dp (ss s1)).
  { destruct Hl as [Hr|(o & now & c & payload & s0 & Hr & Hc)]; [by apply reachable_inv|].
    pose proof (handleCommand_inv dp o now Hmax c payload s0 (reachable_inv dp s0 Hmax Hr)) as Hi. by rewrite Hc in Hi. }
  unfold closeExactMessage, bind, gets. destruct (exactMessage (ss s1)) as [x|] eqn:Ex; [|done]. destruct (x_step x XClose).
  split; [|done]. cbn. revert Hi. apply inv_same; try done. by apply clean_same.
Qed.
End Reachable.

(** A run of commands with one oracle and one clock reading. *)
Definition serve `{UnicodeTables, NetMail, NetIPText, HeaderDecoder, PublicSuffix} {W X} `{PolicyStores W, ExactStore X}
    (dp : Deps) (o : Oracle W X) (now : Z) (frames : list (ascii * gostring)) (s : St W X) : bool * St W X :=
  fold_left (λ acc f, if acc.1 : bool then handleCommand dp o now f.1 f.2 acc.2 else acc) frames (true, s).

Lemma serve_reachable `{UnicodeTables, NetMail, NetIPText, HeaderDecoder, PublicSuffix} {W X} `{PolicyStores W, ExactStore X}
    dp (o : Oracle W X) now frames s : reachable dp s -> (serve dp o now frames s).1 = true -> reachable dp (serve dp o now frames s).2.
Proof.
  unfold serve. intros Hs.
  assert (Hg : forall fs (acc : bool * St W X), (acc.1 = true -> reachable dp acc.2) ->
    let r := fold_left (λ acc f, if acc.1 : bool then handleCommand dp o now f.1 f.2 acc.2 else acc) fs acc in r.1 = true -> reachable dp r.2).
  { induction fs as [|f fs IH]; intros acc Ha; [done|]. cbn [fold_left]. apply IH. destruct acc as [[] s0]; cbn [fst snd] in *; [|done].
    intros Ht. destruct (handleCommand dp o now f.1 f.2 s0) as [b s1] eqn:E. cbn [fst snd] in *. rewrite Ht in E.
    eapply reach_step; [by apply Ha|exact E]. }
  by apply Hg.
Qed.

(** ** A sample connection *)

Definition sample_ip_policy : ipReputationStore := MkIPReputationStore true [] [] [].
Definition sample_deps (m : gostring) : Deps :=
  MkDeps m (lit "rejected") true true [] true [lit "local.example"] (9 # 10) (7 # 10) (lit "tempfail") (lit "reject") (lit "reject") 10000
    false (lit "either") (MkCorrespondentsConfig true (lit "per_sender") (lit "any") true true [])
    sample_ip_policy (Some (MkSenderBlocklistConfig (lit "blocked") true)) None
    (MkEmailCommandsConfig false [] (lit "token") [] false false [] false) true (λ _, lit "0.5") true Some.
Definition sample_oracle (d : Decision_) : Oracle World memoryExactMessage :=
  MkOracle _ _ true None None (λ _, (MkEvidence [] false false false [], false)) 0 WorkerDone true ScanClean
    (MkAnalysisInputs true false false false false (Some d)) 1 WorkerDone None true (MkCommandExtraction [] true false false false false false) true true.
Definition unwanted : Decision_ := MkDecision ClassificationUnwanted 1 [lit "spam"].
Definition sample_frames : list (ascii * gostring) :=
  [(commandOptionNegotiation, putUint32 6 ++ putUint32 25 ++ putUint32 0);
   (commandConnect, lit "mail.remote.example" ++ [NUL] ++ lit "U");
   (commandMail, lit "<a@remote.example>" ++ [NUL]);
   (commandRecipient, lit "<me@local.example>" ++ [NUL]);
   (commandHeader, lit "From" ++ [NUL] ++ lit "a@remote.example" ++ [NUL]);
   (commandEndHeaders, []); (commandBody, lit "hello")].
Definition sample_commands : Processor :=
  MkProcessor (MkCorrespondentOptions true true true CorrespondentScopePerSender 100 (86400000 * millisecond) (9 # 10) 2 true)
    (MkRejectionOptions (86400000 * millisecond) 10)
    (MkIPReputationOptions (3600000 * millisecond) 3 (86400000 * millisecond) (604800000 * millisecond) true 2 100)
    sample_ip_policy (Some (MkSenderBlocklistOptions (3600000 * millisecond) 10)) None None 0.
Definition sample_stores : PolicyStores World :=
  @sqlite_stores basic_tables simple_mail raw_text exact_sum whole_numbers (MkIPReputationOptions (3600000 * millisecond) 3 (86400000 * millisecond) (604800000 * millisecond) true 2 100)
    (MkCorrespondentOptions true true true CorrespondentScopePerSender 100 (86400000 * millisecond) (9 # 10) 2 true)
    (MkSenderBlocklistOptions (3600000 * millisecond) 10) sample_commands (λ _, None).
Definition sample_state : St World memoryExactMessage :=
  MkSt (zero_session (New 0 10000)) [] [] (MkWorld emptyDb []) [].
