(* ===== verification/SessionPassive.v ===== *)
(** * The Milter session outside enforcement

    In every mode but "enforce" a session observes only: whatever the MTA, the
    scanner and the analyzer do, the policy repositories keep their contents,
    nothing but activity counts is recorded, and no message is refused, except
    that one may be deferred where the MTA lets no header be changed.  The proof
    is against [PolicyStoresLaws], so it holds for every implementation of the
    repositories whose lookups do not write. *)
From Stdlib Require Import QArith.
From S2P Require Import Prelude GoText Calendar Rejections Activity AdminCmd AdminFormat AdminExec SmtpReply EmailCommands NetSafety MailAddr Protocol Message MailAuth ExactMessage SqlDb IPReputation Correspondents SenderBlocklist IPAllowlist Policy Session SessionFacts.
Open Scope Z_scope.
Import NetSafety.

(** A recorded rejection, an archived message or a mailed reply: every call but
    the count of an activity. *)
Definition beyond_activity (c : call) : bool := match c with CallActivity _ _ _ _ => false | _ => true end.

(** A final frame accepts the message; the exception is an internal reply that
    the MTA cannot strip of its marker, which is deferred. *)
Definition lenient_frame (actions : Z) (f : gostring) : Prop :=
  final_frame f = true -> f = [responseAccept] \/ (f = [responseTempfail] /\ has_action actions actionChangeHeaders = false).

Definition passive {W X O} `{PolicyStoresLaws W O} (s s' : St W X) : Prop :=
  pendingSenderBlocks (ss s) = None ->
  pendingSenderBlocks (ss s') = None /\ negotiatedActions (ss s') = negotiatedActions (ss s) /\
  st_observe (store s') = st_observe (store s) /\
  (exists cs, calls s' = calls s ++ cs /\ Forall (λ c, beyond_activity c = false) cs) /\
  exists fs, sent s' = sent s ++ fs /\ Forall (lenient_frame (negotiatedActions (ss s))) fs.

Section Passive.
Context `{UnicodeTables, NetMail, NetIPText, HeaderDecoder, PublicSuffix} {W X O : Type} `{PolicyStoresLaws W O, ExactStore X}.
Context (dp : Deps) (o : Oracle W X) (now : Z) (Hmode : enforcing dp = false) (Hcommands : ec_Enabled (commands dp) = false).
#[local] Set Default Proof Using "All".
#[local] Abbreviation passive_ := (@passive W X O _ _).

#[local] Instance passive_preorder : PreOrder passive_.
Proof.
  split.
  - intros s Hp. split_and!; try done; exists []; by rewrite app_nil_r.
  - intros a b c Hab Hbc Ha. destruct (Hab Ha) as (Hb & N1 & O1 & (cs & C1 & F1) & fs & S1 & G1).
    destruct (Hbc Hb) as (Hc & N2 & O2 & (ds & C2 & F2) & gs & S2 & G2). rewrite N1 in G2.
    split_and!; [done|congruence|congruence| |].
    + exists (cs ++ ds). rewrite C2, C1, app_assoc. split; [done|]. by apply Forall_app.
    + exists (fs ++ gs). rewrite S2, S1, app_assoc. split; [done|]. by apply Forall_app.
Qed.

Lemma passive_session (s : St W X) f : pendingSenderBlocks (f (ss s)) = pendingSenderBlocks (ss s) ->
  negotiatedActions (f (ss s)) = negotiatedActions (ss s) -> passive_ s (modify f s).2.
Proof. intros Hp Hn Hs. cbn. rewrite Hp, Hn. split_and!; try done; exists []; by rewrite app_nil_r. Qed.
Lemma modify_passive f : (forall s, pendingSenderBlocks (f s) = pendingSenderBlocks s /\ negotiatedActions (f s) = negotiatedActions s) ->
  respects passive_ (modify f).
Proof. intros Hf s. by apply passive_session; apply Hf. Qed.
Lemma record_passive c : beyond_activity c = false -> respects passive_ (record c).
Proof. intros Hc s Hs. cbn. split_and!; try done; [exists [c]; split; [done|by constructor]|exists []; by rewrite app_nil_r]. Qed.
Lemma on_store_passive {A} (f : W -> A * W) : (forall w, st_observe (f w).2 = st_observe w) -> respects passive_ (on_store f).
Proof.
  intros Hf s Hs. specialize (Hf (store s)). unfold on_store. destruct (f (store s)) as [a w]. cbn in *.
  split_and!; try done; exists []; by rewrite app_nil_r.
Qed.
Lemma write_passive f s : lenient_frame (negotiatedActions (ss s)) f -> passive_ s (write f s).2.
Proof.
  intros Hf Hs. unfold write. destruct (wfail s) as [|[] ?]; cbn; split_and!; try done;
    try (exists []; by rewrite app_nil_r); exists [f]; split; (done || by constructor).
Qed.
Lemma write_nonfinal f : final_frame f = false -> respects passive_ (write f).
Proof. intros Hf s. apply write_passive. intros Ht. congruence. Qed.
Lemma write_accept msg : respects passive_ (write (responseForAction actionAccept msg)).
Proof. intros s. apply write_passive. by left. Qed.
Lemma frames_passive fs : Forall (λ f, final_frame f = false) fs -> respects passive_ (write_all fs).
Proof. intros Hf. apply respects_write_all; [exact _|]. intros f Hin. rewrite Forall_forall in Hf. by apply write_nonfinal, Hf. Qed.
#[local] Hint Resolve write_accept : session.

Lemma closeExactMessage_passive : respects passive_ closeExactMessage.
Proof. unfold closeExactMessage. respects_tac. by apply modify_passive. Qed.
#[local] Hint Resolve closeExactMessage_passive : session.
Lemma captureExact_passive op : respects passive_ (captureExact op).
Proof. apply modify_passive. intros s. destruct (exactMessage s); [|done]. destruct (exactMessageErr s); [done|]. by destruct (x_step _ _). Qed.
#[local] Hint Resolve captureExact_passive : session.

Lemma resetMessage_passive p : respects passive_ (resetMessage dp o now p).
Proof.
  unfold resetMessage. apply respects_bind; [exact _|apply closeExactMessage_passive|intros _]. intros s Hs. cbn.
  destruct (_ || _); [|destruct (or_exact o) as [[|]|]]; cbn; split_and!; try done; exists []; by rewrite app_nil_r.
Qed.
#[local] Hint Resolve resetMessage_passive : session.

Lemma replaceResultHeaders_passive headers : respects passive_ (replaceResultHeaders headers).
Proof.
  unfold replaceResultHeaders. apply respects_bind; [exact _|apply respects_gets; exact _|intros msg].
  apply respects_bind; [exact _|apply respects_gets; exact _|intros actions].
  set (deletions := _ ≫= _). set (additions := if has_action actions actionAddHeaders then _ else _).
  assert (Hd : respects passive_ (write_all deletions)).
  { apply frames_passive, Forall_forall. intros f (name & Hf & _)%list_elem_of_bind. by apply elem_of_replicate in Hf as [-> _]. }
  assert (Ha : respects passive_ (write_all additions)).
  { apply frames_passive. unfold additions. case_match; [|constructor]. apply Forall_fmap, Forall_forall. by intros h _. }
  clearbody deletions additions. respects_tac.
Qed.
#[local] Hint Resolve replaceResultHeaders_passive : session.
Lemma writeClassificationHeaders_passive c q a : respects passive_ (writeClassificationHeaders dp c q a).
Proof. apply replaceResultHeaders_passive. Qed.
#[local] Hint Resolve writeClassificationHeaders_passive : session.
Lemma writeAcceptedResultHeaders_passive r : respects passive_ (writeAcceptedResultHeaders dp r).
Proof. unfold writeAcceptedResultHeaders. respects_tac. Qed.
#[local] Hint Resolve writeAcceptedResultHeaders_passive : session.

Lemma writePolicyResponse_passive msg : respects passive_ (writePolicyResponse actionAccept msg).
Proof.
  unfold writePolicyResponse. apply respects_bind; [exact _|apply respects_gets; exact _|intros pending].
  apply respects_bind; [exact _| |intros []; respects_tac]. destruct pending as [p|]; [|respects_tac].
  apply frames_passive, Forall_fmap, Forall_forall. by intros.
Qed.
#[local] Hint Resolve writePolicyResponse_passive : session.

(** Recipients are only removed when enforcing. *)
Lemma completeSenderBlocklistRemoval_passive : respects passive_ (completeSenderBlocklistRemoval dp o).
Proof.
  intros s Hs. assert (He : completeSenderBlocklistRemoval dp o s = (tt, s)); [|rewrite He; by apply passive_preorder].
  unfold completeSenderBlocklistRemoval, bind, gets. by rewrite Hs.
Qed.
Lemma awaitConnectionDNS_passive : respects passive_ (awaitConnectionDNS o).
Proof. unfold awaitConnectionDNS. respects_tac. by apply modify_passive. Qed.
#[local] Hint Resolve completeSenderBlocklistRemoval_passive awaitConnectionDNS_passive : session.

Lemma activity_passive t r f q : respects passive_ (record (CallActivity t r f q)).
Proof. by apply record_passive. Qed.
#[local] Hint Resolve activity_passive : session.

Lemma finishBypassedMessage_passive source learn touch : respects passive_ (finishBypassedMessage dp o now source learn touch).
Proof. unfold finishBypassedMessage. rewrite Hmode. unfold recordDeterministic. respects_tac. Qed.
#[local] Hint Resolve finishBypassedMessage_passive : session.

Lemma finishInternalMessage_passive : respects passive_ (finishInternalMessage dp o now).
Proof.
  intros s. unfold finishInternalMessage. unfold bind at 1, gets. cbn [fst snd]. cbv beta. change (id (ss s)) with (ss s).
  destruct (has_action (negotiatedActions (ss s)) actionChangeHeaders) eqn:E; cbn [negb].
  - apply (respects_bind passive_); [by apply frames_passive, replicate_frames|]. intros []; respects_tac.
  - unfold bind at 1. assert (Hw : passive_ s (write [responseTempfail] s).2) by (apply write_passive; by right).
    destruct (write _ s) as [[] s1]; cbn [negb snd] in *; [|exact Hw]. etrans; [exact Hw|].
    apply (respects_bind passive_); [|intros _]; respects_tac.
Qed.
#[local] Hint Resolve finishInternalMessage_passive : session.

Lemma handleEmailCommand_passive : respects passive_ (handleEmailCommand dp o now).
Proof. unfold handleEmailCommand. cbv zeta. rewrite Hcommands. cbn [negb]. respects_tac. Qed.

Lemma select_accept a : selectActionForMode a (mode dp) = actionAccept.
Proof. unfold selectActionForMode. unfold enforcing in Hmode. by rewrite Hmode. Qed.

Lemma applyAuthenticatedOnly_passive : respects passive_ (applyAuthenticatedOnlySenderDomain dp o now).
Proof.
  unfold applyAuthenticatedOnlySenderDomain, finishAuthenticatedOnlySenderDomain. rewrite select_accept. unfold recordDeterministic.
  rewrite (bool_decide_true (actionAccept = actionAccept)), (bool_decide_false (actionAccept = actionReject)) by done. respects_tac.
Qed.

Lemma applySenderBlocklist_passive : respects passive_ (applySenderBlocklist dp o now).
Proof.
  unfold applySenderBlocklist. rewrite Hmode. cbv zeta. apply respects_bind; [exact _|apply respects_gets; exact _|intros s].
  destruct (senderBlocklist dp); [|respects_tac]. repeat (respects_step; cbv zeta; cbn [negb]).
  - apply on_store_passive. intros w. apply st_MatchSenderBlocks_observe.
Qed.

Lemma finishAttachmentDecision_passive cfg r : respects passive_ (finishAttachmentDecision dp o now cfg r).
Proof.
  unfold finishAttachmentDecision. cbv zeta. rewrite select_accept. unfold recordDeterministic.
  rewrite (bool_decide_true (actionAccept = actionAccept)), (bool_decide_false (actionAccept = actionReject)) by done. respects_tac.
Qed.
#[local] Hint Resolve finishAttachmentDecision_passive : session.
Lemma applyAttachments_passive : respects passive_ (applyAttachments dp o now).
Proof. unfold applyAttachments. respects_tac. Qed.
#[local] Hint Resolve handleEmailCommand_passive applyAuthenticatedOnly_passive applySenderBlocklist_passive applyAttachments_passive : session.

Lemma progress_passive n e : respects passive_ (progress n e).
Proof. unfold progress. apply respects_bind; [exact _|by apply frames_passive, replicate_frames|]. intros. respects_tac. Qed.
#[local] Hint Resolve progress_passive : session.
Lemma exact_err_passive : respects passive_ (modify (set_exactMessageErr true)).
Proof. by apply modify_passive. Qed.
#[local] Hint Resolve exact_err_passive : session.
Lemma authenticate_passive : respects passive_ (authenticate dp o).
Proof. unfold authenticate, verifyAuthenticationWithProgress. respects_tac. Qed.

Lemma evaluate_accepts i rs ai html inc : er_selected (evaluate i (mode dp) rs ai html inc) = actionAccept.
Proof.
  pose proof Hmode as Hm. unfold enforcing in Hm. unfold evaluate, analysisFailure, applyPolicy. rewrite Hm, !select_accept.
  repeat (case_match; cbn in *; simplify_eq/=; try done); by rewrite ?select_accept.
Qed.

Lemma prepare_passive cfg tr l b m c e : respects passive_ (on_store (prepareInboundEvidence cfg tr l b m c e now)).
Proof.
  apply on_store_passive. intros w. unfold prepareInboundEvidence. case_match; [done|]. cbv zeta. case_match; [done|].
  pose proof (st_Match_observe (mc_visibleSender c) (mc_envelopeRecipients c) now w) as Hm. by destruct (st_Match _ _ _ w).
Qed.
#[local] Hint Resolve authenticate_passive prepare_passive : session.

Lemma updates_passive r i : respects passive_ (applyPostDecisionUpdates dp o now r i).
Proof. unfold applyPostDecisionUpdates. rewrite Hmode. cbn [negb]. respects_tac. Qed.
#[local] Hint Resolve updates_passive : session.

Lemma finishAnalyzed_passive i : respects passive_ (finishAnalyzed dp o now i).
Proof.
  unfold finishAnalyzed, evaluateWithProgress. cbv zeta.
  set (result := evaluate _ _ _ _ _ _). assert (Hr : er_selected result = actionAccept) by apply evaluate_accepts. clearbody result.
  intros s. unfold bind at 1. set (m := bind (awaitConnectionDNS o) _).
  assert (Hm : passive_ s (m s).2 /\ (m s).1.1 = result).
  { split; [revert s; unfold m; change (respects passive_ m); unfold m; respects_tac|].
    unfold m, bind, ret. destruct (awaitConnectionDNS o s) as [a s1]. by destruct (progress _ _ s1). }
  destruct (m s) as [[r failed] s1]. cbn [fst snd] in *. destruct Hm as [Hm ->]. etrans; [exact Hm|].
  rewrite Hr. unfold recordScan. rewrite (bool_decide_true (actionAccept = actionAccept)) by done.
  revert s1 Hm. intros s1 _. match goal with |- passive_ s1 (?m s1).2 => assert (Hx : respects passive_ m); [|exact (Hx s1)] end.
  respects_tac.
Qed.
#[local] Hint Resolve finishAnalyzed_passive : session.
Lemma finishEvaluated_passive : respects passive_ (finishEvaluated dp o now).
Proof. unfold finishEvaluated. respects_tac. Qed.
#[local] Hint Resolve finishEvaluated_passive : session.

Lemma identify_passive : respects passive_ (modify identify_sender).
Proof. apply modify_passive. intros s. unfold identify_sender. by repeat case_match. Qed.
Lemma progress_frame_passive : respects passive_ (write [responseProgress]).
Proof. by apply write_nonfinal. Qed.
#[local] Hint Resolve identify_passive progress_frame_passive : session.
Lemma finishMessage_passive : respects passive_ (finishMessage dp o now).
Proof. unfold finishMessage. respects_tac. Qed.
#[local] Hint Resolve finishMessage_passive : session.

Lemma note_from_passive value : respects passive_ (modify (note_from dp value)).
Proof.
  apply modify_passive. intros s. unfold note_from. cbv zeta.
  destruct (beq (protectedSenderDomain s) []); destruct (add_senders _ _ _) as [from t]; done.
Qed.
Lemma sendContinue_passive : respects passive_ sendContinue.
Proof. by apply write_nonfinal. Qed.
#[local] Hint Resolve note_from_passive sendContinue_passive : session.
Lemma addHeader_passive payload : respects passive_ (addHeader dp payload).
Proof.
  unfold addHeader. apply respects_bind; [exact _|apply respects_gets; exact _|intros p]. destruct (negb _); [respects_tac|].
  destruct (parseHeader payload) as [[name value]|]; [|respects_tac]. apply respects_bind; [exact _|respects_tac|intros _].
  apply respects_bind; [exact _|by apply modify_passive|intros _]. respects_tac.
Qed.
Lemma addBody_passive payload : respects passive_ (addBody payload).
Proof. unfold addBody. apply respects_bind; [exact _|by apply modify_passive|intros _]. respects_tac. Qed.
Lemma macros_passive payload : respects passive_ (captureSessionMacros payload).
Proof.
  unfold captureSessionMacros. destruct (parseSessionMacros payload) as [[target values]|]; [|respects_tac].
  apply modify_passive. intros s. cbv zeta. repeat case_match; done.
Qed.
Lemma rejectReputationIP_passive : respects passive_ (rejectReputationIP dp o now).
Proof. unfold rejectReputationIP. rewrite Hmode. cbn [negb orb]. respects_tac. Qed.
Lemma connect_passive payload : respects passive_ (modify (connect dp payload)).
Proof. apply modify_passive. intros s. unfold connect. cbv zeta. repeat case_match; done. Qed.
Lemma quit_passive : respects passive_ (modify quit_smtp).
Proof. by apply modify_passive. Qed.
#[local] Hint Resolve addHeader_passive addBody_passive macros_passive rejectReputationIP_passive connect_passive quit_passive : session.

Lemma mail_passive payload : respects passive_ (match parseEnvelopeAddress payload with
  | Some sender => modify (λ s, set_smtpUTF8 (containsNonASCII sender || envelopeHasSMTPUTF8 payload) (set_envelopeSender sender s))
  | None => ret tt end).
Proof. case_match; [by apply modify_passive|respects_tac]. Qed.
Lemma recipient_passive payload : respects passive_ (modify (λ s, match parseEnvelopeAddress payload with
  | None => set_envelopeRecipientsTruncated true s
  | Some r => if bool_decide (length (envelopeRecipients s) < maxEnvelopeRecipients)%nat
              then set_envelopeRecipients (envelopeRecipients s ++ [r]) s else set_envelopeRecipientsTruncated true s end)).
Proof. apply modify_passive. intros s. repeat case_match; done. Qed.
Lemma helo_passive i : respects passive_ (modify (set_heloIdentity i)).
Proof. by apply modify_passive. Qed.
Lemma phase_passive p : respects passive_ (modify (set_phase p)).
Proof. by apply modify_passive. Qed.
#[local] Hint Resolve mail_passive recipient_passive helo_passive phase_passive : session.

Lemma handleCommand_passive c payload : ceq c commandOptionNegotiation = false -> respects passive_ (handleCommand dp o now c payload).
Proof.
  intros Hn. unfold handleCommand. apply respects_bind; [exact _|apply respects_gets; exact _|intros s]. cbv zeta. rewrite Hn.
  repeat match goal with |- respects _ (if ?b then _ else _) => destruct b end;
    repeat (apply mail_passive || apply recipient_passive || respects_step).
Qed.

(** Negotiation sends one frame, which is not final, and stores nothing. *)
Lemma negotiate_quiet payload (s : St W X) : let s' := (negotiate payload s).2 in
  pendingSenderBlocks (ss s') = pendingSenderBlocks (ss s) /\ store s' = store s /\ calls s' = calls s /\
  exists fs, sent s' = sent s ++ fs /\ Forall (λ f, final_frame f = false) fs.
Proof.
  assert (Hx : forall s' : St W X, s' = s -> pendingSenderBlocks (ss s') = pendingSenderBlocks (ss s) /\ store s' = store s /\ calls s' = calls s /\
    exists fs, sent s' = sent s ++ fs /\ Forall (λ f, final_frame f = false) fs)
    by (intros s' ->; split_and!; try done; exists []; by rewrite app_nil_r).
  cbv zeta. unfold negotiate, bind, gets, modify, write. cbv beta iota zeta. destruct (_ || _); [by apply Hx|].
  destruct (_ <? _); [by apply Hx|]. cbn [wfail]. destruct (wfail s) as [|[] rest]; cbn; split_and!; try done;
    first [eexists; split; [reflexivity|by repeat constructor]|exists []; by rewrite app_nil_r].
Qed.
End Passive.
