(* ===== verification/SessionProps.v ===== *)
(** * The Milter session: the properties of reachable connections

    Collects the results of [SessionFacts], [SessionSpec] and [SessionPassive]
    about whole commands, with a sample connection for each. *)
From Stdlib Require Import QArith.
From S2P Require Import Prelude GoText Calendar Rejections Activity AdminCmd AdminFormat AdminExec SmtpReply EmailCommands NetSafety MailAddr Protocol Message MailAuth ExactMessage SqlDb IPReputation Correspondents SenderBlocklist IPAllowlist Policy Session SessionFacts SessionSpec SessionPassive.
Open Scope Z_scope.

Section Commands.
Context `{UnicodeTables, NetMail, NetIPText, HeaderDecoder, PublicSuffix} {W X : Type} `{PolicyStores W, ExactStore X}.

(** Commands that cannot end a transaction with a response. *)
Lemma handleCommand_quiet dp (o : Oracle W X) now c payload :
  ceq c commandEndBody = false -> ceq c commandMail = false -> respects quiet (handleCommand dp o now c payload).
Proof.
  intros He Hm. unfold handleCommand. apply respects_bind; [exact _|apply respects_gets; exact _|intros s]. cbv zeta. rewrite He, Hm.
  assert (Hcont : respects (@quiet W X) sendContinue) by (by apply write_quiet).
  assert (Hex : forall op, respects (@quiet W X) (captureExact op)) by (intros; apply silent_quiet, modify_silent).
  assert (Hreset : forall p, respects quiet (resetMessage dp o now p)) by (intros; apply silent_quiet, resetMessage_silent).
  assert (Hmod : forall f, respects (@quiet W X) (modify f)) by (intros; apply silent_quiet, modify_silent).
  unfold negotiate, captureSessionMacros, addHeader, addBody.
  repeat first [apply Hmod | apply Hcont | apply Hex | apply Hreset | by apply write_quiet | respects_step].
Qed.

(** A refused MAIL command sends the one reply and starts no transaction. *)
Lemma rejectReputationIP_decides dp (o : Oracle W X) now (s : St W X) :
  match (rejectReputationIP dp o now s).1 with
  | Some keep => ends (λ s', phase (ss s') = phase (ss s)) s keep (rejectReputationIP dp o now s).2
  | None => quiet s (rejectReputationIP dp o now s).2
  end.
Proof.
  assert (Hq : forall s' : St W X, silent s s' -> quiet s s') by (intros s' Hs; exists []; rewrite app_nil_r; split; [done|constructor]).
  destruct (rejectReputationIP dp o now s) as [a s'] eqn:E. cbn [fst snd]. revert E.
  unfold rejectReputationIP. unfold bind at 1, gets. cbn [fst snd]. change (id (ss s)) with (ss s).
  assert (Hnone : forall x : option bool, (None, s) = (x, s') -> match x with
    | Some keep => ends (λ s', phase (ss s') = phase (ss s)) s keep s' | None => quiet s s' end) by (intros x Hx; simplify_eq; reflexivity).
  destruct (_ || _); [apply Hnone|]. destruct (allowed _ _); [apply Hnone|].
  set (m := if usesDomainAllowlist _ then _ else ret false).
  assert (Hm : silent s (m s).2 /\ phase (ss (m s).2) = phase (ss s)).
  { unfold m. destruct (usesDomainAllowlist _); [|done]. unfold awaitConnectionDNS, bind, gets, modify, ret. cbn.
    by destruct (connectionDNSPending (ss s)). }
  unfold bind at 1. destruct (m s) as [excl s1]. cbn [fst snd] in Hm. destruct Hm as [Hs1 Hp1].
  destruct excl; [intros [= <- <-]; by apply Hq|].
  unfold bind at 1, on_store. destruct (ip_lookup _ _ _ _) as [[b|] w]; [|intros [= <- <-]; by apply Hq]. cbv zeta.
  unfold silent in Hs1. unfold bind, write. cbn [wfail].
  destruct (wfail s1) as [|[] rest]; cbn; intros [= <- <-]; exists []; (split; [constructor|]); cbn; rewrite Hs1, ?app_nil_r; try done;
    (split; [done|]); eexists; (split; [|reflexivity]); reflexivity.
Qed.

(** The handler of MAIL. *)
Lemma handleCommand_mail dp (o : Oracle W X) now payload (s : St W X) :
  handleCommand dp o now commandMail payload s =
  if bool_decide (phase (ss s) = phaseConnection) && connected (ss s)
  then orElse (rejectReputationIP dp o now) (
         bind (resetMessage dp o now phaseEnvelope) (λ _, bind (match parseEnvelopeAddress payload with
         | Some sender => modify (λ s, set_smtpUTF8 (containsNonASCII sender || envelopeHasSMTPUTF8 payload) (set_envelopeSender sender s))
         | None => ret tt
         end) (λ _, sendContinue))) s
  else (false, s).
Proof.
  unfold handleCommand. unfold bind at 1, gets. cbn [fst snd]. cbv zeta. change (id (ss s)) with (ss s).
  by destruct (phase (ss s)), (connected (ss s)).
Qed.
End Commands.

(** C1: One final response per message: at the end of a message a session that
    stays open has sent exactly one final response (accept, discard, tempfail or
    a reply), as the last frame, and is ready for the next transaction; a session
    that closes has sent none.  No other command sends a final response, except
    that a MAIL command may be answered with one, as it is for a blocked address,
    and then starts no transaction. *)
Theorem final_response_once `{UnicodeTables, NetMail, NetIPText, HeaderDecoder, PublicSuffix} {W X} `{PolicyStores W, ExactStore X}
    (dp : Deps) (o : Oracle W X) (now : Z) (c : ascii) (payload : gostring) (s : St W X) :
  let keep := (handleCommand dp o now c payload s).1 in
  let s' := (handleCommand dp o now c payload s).2 in
  if ceq c commandEndBody then phase (ss s) = phaseBody -> ends (λ s', phase (ss s') = phaseConnection) s keep s'
  else if ceq c commandMail then quiet s s' \/ ends (λ s', phase (ss s') = phase (ss s)) s keep s'
  else quiet s s'.
Proof.
  cbv zeta. destruct (ceq c commandEndBody) eqn:Ee.
  { apply ceq_true in Ee as ->. intros Hp.
    assert (Heq : handleCommand dp o now commandEndBody payload s =
      bind (if beq payload [] then ret tt else addBody payload) (λ _, finishMessage dp o now) s).
    { unfold handleCommand. unfold bind at 1, gets. cbn [fst snd]. cbv zeta. change (id (ss s)) with (ss s). by rewrite Hp. }
    rewrite Heq. apply concludes_bind; [|intros _; apply finishMessage_concludes]. unfold addBody.
    destruct (beq payload []); [apply respects_ret; exact _|]. apply silent_quiet. unfold captureExact. respects_tac. }
  destruct (ceq c commandMail) eqn:Em; [|by apply handleCommand_quiet].
  apply ceq_true in Em as ->. rewrite handleCommand_mail. destruct (_ && _); [|left; reflexivity].
  unfold orElse. match goal with |- context [bind _ ?k s] => set (cont := k) end. unfold bind.
  pose proof (rejectReputationIP_decides dp o now s) as Hr.
  destruct (rejectReputationIP dp o now s) as [[keep|] s1]; cbn [fst snd] in *; [by right|]. left. etrans; [exact Hr|].
  unfold cont.
  apply (respects_bind quiet); [apply silent_quiet, resetMessage_silent|intros _].
  apply respects_bind; [exact _|apply silent_quiet; case_match; respects_tac|intros _; by apply write_quiet].
Qed.

(** The sample connection after its body, and the same commands over the samples. *)
Definition sample_session (m : gostring) : St World memoryExactMessage :=
  (@serve basic_tables simple_mail raw_text plain_decoder last_two_labels World memoryExactMessage sample_stores memory_exact
     (sample_deps m) (sample_oracle unwanted) 0 sample_frames sample_state).2.
Definition sample_command (m : gostring) (c : ascii) (payload : gostring) (s : St World memoryExactMessage) : bool * St World memoryExactMessage :=
  @handleCommand basic_tables simple_mail raw_text plain_decoder last_two_labels World memoryExactMessage sample_stores memory_exact
    (sample_deps m) (sample_oracle unwanted) 0 c payload s.
Definition sample_reachable (m : gostring) : St World memoryExactMessage -> Prop :=
  @reachable basic_tables simple_mail raw_text plain_decoder last_two_labels World memoryExactMessage sample_stores memory_exact (sample_deps m).

Definition sample_laws : @PolicyStoresLaws World Db sample_stores := sqlite_stores_laws _ _ _ _ _.

Lemma sample_observe w : @st_observe World Db sample_stores sample_laws w = wdb w.
Proof. reflexivity. Qed.

Lemma sample_session_reachable m : (@serve basic_tables simple_mail raw_text plain_decoder last_two_labels World memoryExactMessage sample_stores
    memory_exact (sample_deps m) (sample_oracle unwanted) 0 sample_frames sample_state).1 = true -> sample_reachable m (sample_session m).
Proof. apply serve_reachable, reach_new. Qed.

(** The end of the sample message is answered by the rejection, once. *)
Lemma final_response_once_witness : let s := sample_session (lit "enforce") in
  phase (ss s) = phaseBody /\
  ends (λ s', phase (ss s') = phaseConnection) s true (sample_command (lit "enforce") commandEndBody [] s).2.
Proof.
  assert (Hp : phase (ss (sample_session (lit "enforce"))) = phaseBody) by (vm_compute; reflexivity).
  split; [exact Hp|].
  assert (He : ends (λ s', phase (ss s') = phaseConnection) (sample_session (lit "enforce"))
      (sample_command (lit "enforce") commandEndBody [] (sample_session (lit "enforce"))).1
      (sample_command (lit "enforce") commandEndBody [] (sample_session (lit "enforce"))).2).
  { exact (@final_response_once basic_tables simple_mail raw_text plain_decoder last_two_labels World memoryExactMessage sample_stores
      memory_exact (sample_deps (lit "enforce")) (sample_oracle unwanted) 0 commandEndBody [] (sample_session (lit "enforce")) Hp). }
  assert (Hk : (sample_command (lit "enforce") commandEndBody [] (sample_session (lit "enforce"))).1 = true) by (vm_compute; reflexivity).
  rewrite Hk in He. exact He.
Defined.

(** C2: Every session a sequence of Milter commands can produce, whatever the
    payloads, the failures of its writes and the answers of the scanner, the
    analyzer and the resolver, satisfies the session invariant: a transaction or
    an authentication needs a connected client, between transactions nothing of
    the last message is left, the recipient and sender lists stay within their
    limits, only supported actions are negotiated, a pending removal needs the
    delete-recipient action, and the message stays within its budget.  However
    the read loop ends after that, the invariant holds and the exact message has
    been closed. *)
Theorem session_invariant `{UnicodeTables, NetMail, NetIPText, HeaderDecoder, PublicSuffix} {W X} `{PolicyStores W, ExactStore X}
    (dp : Deps) (events : list (read_event W X)) (s : St W X) :
  0 <= maxMessageSize dp -> reachable dp s ->
  session_inv dp (ss s) /\ session_inv dp (ss (run dp events s).2) /\ exactMessage (ss (run dp events s).2) = None.
Proof. intros Hmax Hs. split; [by apply reachable_inv|by apply run_inv]. Qed.

Lemma session_invariant_witness : session_inv (sample_deps (lit "enforce")) (ss (sample_session (lit "enforce"))).
Proof.
  assert (Hmax : 0 <= maxMessageSize (sample_deps (lit "enforce"))) by (vm_compute; discriminate).
  assert (Hs : sample_reachable (lit "enforce") (sample_session (lit "enforce"))) by (apply sample_session_reachable; vm_compute; reflexivity).
  exact (proj1 (@session_invariant basic_tables simple_mail raw_text plain_decoder last_two_labels World memoryExactMessage sample_stores
    memory_exact (sample_deps (lit "enforce")) [ReadError false 0 IO_Timeout] (sample_session (lit "enforce")) Hmax Hs)).
Defined.

Section Frames.
Context `{UnicodeTables, NetMail, NetIPText, HeaderDecoder, PublicSuffix} {W X : Type} `{PolicyStores W, ExactStore X}.
Implicit Types (s : St W X).

Definition sends_allowed (actions : Z) s s' : Prop := exists fs, sent s' = sent s ++ fs /\ Forall (frame_allowed actions) fs.

Lemma write_allowed actions f s : plain_frame f -> sends_allowed actions s (write f s).2.
Proof.
  intros Hf. apply (plain_allowed actions) in Hf. unfold write.
  destruct (wfail s) as [|[] ?]; cbn; first [exists [f]; split; [done|by constructor]|exists []; by rewrite app_nil_r].
Qed.
Lemma sent_same_allowed actions s s' : sent s' = sent s -> sends_allowed actions s s'.
Proof. intros Hs. exists []. rewrite app_nil_r. by split. Qed.

Lemma negotiate_allowed payload actions s : sends_allowed actions s (negotiate payload s).2.
Proof.
  unfold negotiate. unfold bind at 1, gets. cbn [fst snd]. destruct (_ || _); [by apply sent_same_allowed|]. cbv zeta.
  destruct (_ <? _); [by apply sent_same_allowed|]. unfold bind, modify. cbn [fst snd].
  match goal with |- context [write ?f ?s1] => pose proof (write_allowed actions f s1) as Hw; destruct (write f s1) as [[] s2] end;
    cbn in *; by apply Hw.
Qed.

Lemma handleCommand_allowed dp (o : Oracle W X) now c payload s : 0 <= maxMessageSize dp -> session_inv dp (ss s) ->
  sends_allowed (negotiatedActions (ss s)) s (handleCommand dp o now c payload s).2.
Proof.
  intros Hmax Hi. destruct (session_command c) eqn:Hsc; [|by apply handleCommand_steps].
  unfold handleCommand. unfold bind at 1, gets. cbn [fst snd]. cbv zeta. change (id (ss s)) with (ss s).
  destruct (_ && _ && _ && _); [by apply sent_same_allowed|]. destruct (ceq c commandOptionNegotiation) eqn:E1; [by apply negotiate_allowed|].
  unfold session_command in Hsc. cbn [existsb] in Hsc. rewrite E1, orb_false_l, orb_false_r in Hsc.
  destruct (ceq c commandQuitSMTPConnection) eqn:E2.
  - apply ceq_true in E2 as ->. change (ceq commandQuitSMTPConnection commandMacro) with false.
    change (ceq commandQuitSMTPConnection commandAbort) with false. cbv iota. unfold bind, modify. cbn [fst snd].
    match goal with |- context [resetMessage dp o now ?p ?s1] => pose proof (resetMessage_silent dp o now p s1) as Hw;
      destruct (resetMessage dp o now p s1) as [u s2] end. by apply sent_same_allowed.
  - rewrite orb_false_r in Hsc. apply ceq_true in Hsc as ->. change (ceq commandConnect commandMacro) with false.
    change (ceq commandConnect commandAbort) with false. change (ceq commandConnect commandConnect) with true. cbv iota.
    destruct (_ || _); [by apply sent_same_allowed|]. unfold bind, modify, sendContinue. cbn [fst snd].
    match goal with |- context [write ?f ?s1] => by apply (write_allowed _ f s1) end.
Qed.
End Frames.

(** C3: A reachable session edits a message only as far as the MTA agreed: every
    header it adds, every header it changes and every recipient it deletes, in
    answer to any command, is within the actions negotiated on the connection. *)
Theorem capability_discipline `{UnicodeTables, NetMail, NetIPText, HeaderDecoder, PublicSuffix} {W X} `{PolicyStores W, ExactStore X}
    (dp : Deps) (o : Oracle W X) (now : Z) (c : ascii) (payload : gostring) (s : St W X) :
  0 <= maxMessageSize dp -> reachable dp s ->
  exists frames, sent (handleCommand dp o now c payload s).2 = sent s ++ frames /\
    Forall (frame_allowed (negotiatedActions (ss s))) frames.
Proof. intros Hmax Hr. apply handleCommand_allowed; [done|by apply reachable_inv]. Qed.

Lemma capability_discipline_witness : let s := sample_session (lit "accept") in
  exists frames, sent (sample_command (lit "accept") commandEndBody [] s).2 = sent s ++ frames /\
    Forall (frame_allowed (negotiatedActions (ss s))) frames.
Proof.
  apply (@capability_discipline basic_tables simple_mail raw_text plain_decoder last_two_labels World memoryExactMessage sample_stores
    memory_exact (sample_deps (lit "accept")) (sample_oracle unwanted) 0 commandEndBody []).
  - vm_compute. discriminate.
  - apply sample_session_reachable. vm_compute. reflexivity.
Defined.

Section Observing.
Context `{UnicodeTables, NetMail, NetIPText, HeaderDecoder, PublicSuffix} {W X O : Type} `{PolicyStoresLaws W O, ExactStore X}.
Context (dp : Deps) (Hmode : enforcing dp = false) (Hcommands : ec_Enabled (commands dp) = false).
#[local] Set Default Proof Using "All".

(** What one command may do outside enforcement, negotiation included. *)
Definition observes (s s' : St W X) : Prop :=
  st_observe (store s') = st_observe (store s) /\
  (exists cs, calls s' = calls s ++ cs /\ Forall (λ c, beyond_activity c = false) cs) /\
  exists fs, sent s' = sent s ++ fs /\ Forall (lenient_frame (negotiatedActions (ss s))) fs.

Lemma handleCommand_negotiates (o : Oracle W X) now payload (s : St W X) :
  handleCommand dp o now commandOptionNegotiation payload s = negotiate payload s.
Proof.
  unfold handleCommand. unfold bind at 1, gets. cbn [fst snd]. cbv zeta. change (id (ss s)) with (ss s).
  change (ceq commandOptionNegotiation commandOptionNegotiation) with true. by destruct (bool_decide (phase (ss s) = phaseNegotiation)).
Qed.

Lemma handleCommand_observes (o : Oracle W X) now c payload (s : St W X) : pendingSenderBlocks (ss s) = None ->
  let s' := (handleCommand dp o now c payload s).2 in pendingSenderBlocks (ss s') = None /\ observes s s'.
Proof.
  cbv zeta. intros Hs. destruct (ceq c commandOptionNegotiation) eqn:E.
  - apply ceq_true in E as ->. rewrite handleCommand_negotiates.
    destruct (negotiate_quiet dp o now Hmode Hcommands payload s) as (Hp & Hw & Hc & fs & Hf & Ha). unfold observes.
    rewrite Hp, Hw, Hc. split_and!; try done; [exists []; by rewrite app_nil_r|]. exists fs. split; [done|].
    eapply Forall_impl; [exact Ha|]. intros f Hx Hy. cbn in Hx. congruence.
  - destruct (handleCommand_passive dp o now Hmode Hcommands c payload E s Hs) as (Hp & _ & Hw & Hc & Hf). by split_and!.
Qed.

Lemma reachable_no_removal (s : St W X) : reachable dp s -> pendingSenderBlocks (ss s) = None.
Proof.
  induction 1 as [t wf w|o now c payload s s' Hr IH Hc]; [done|].
  pose proof (handleCommand_observes o now c payload s IH) as [Hp _]. by rewrite Hc in Hp.
Qed.
End Observing.

(** C4: Outside the "enforce" mode, and with email commands off, a connection
    only observes: for every command of every reachable session the policy
    repositories (reputation, allow list, blocked senders, correspondents) keep
    their contents; no rejection is recorded, nothing is archived and no reply is
    mailed, so that the counts of the activity report are all that is recorded;
    and every final answer accepts, except that it may be a temporary failure
    where the MTA does not let the filter change headers, as for an internal
    reply whose marker cannot be removed. *)
Theorem accept_mode_passive `{UnicodeTables, NetMail, NetIPText, HeaderDecoder, PublicSuffix} {W X O} `{PolicyStoresLaws W O, ExactStore X}
    (dp : Deps) (o : Oracle W X) (now : Z) (c : ascii) (payload : gostring) (s : St W X) :
  enforcing dp = false -> ec_Enabled (commands dp) = false -> reachable dp s ->
  let s' := (handleCommand dp o now c payload s).2 in
  st_observe (store s') = st_observe (store s) /\
  (exists recorded, calls s' = calls s ++ recorded /\ Forall (λ c, beyond_activity c = false) recorded) /\
  (exists frames, sent s' = sent s ++ frames /\ Forall (lenient_frame (negotiatedActions (ss s))) frames).
Proof.
  intros Hmode Hcommands Hr. apply (handleCommand_observes dp Hmode Hcommands), (reachable_no_removal dp Hmode Hcommands), Hr.
Qed.

(** The unwanted sample message is accepted and leaves the tables alone. *)
Lemma accept_mode_passive_witness : let s := sample_session (lit "accept") in
  wdb (store (sample_command (lit "accept") commandEndBody [] s).2) = wdb (store s).
Proof.
  assert (Hr : sample_reachable (lit "accept") (sample_session (lit "accept"))) by (apply sample_session_reachable; vm_compute; reflexivity).
  pose proof (@accept_mode_passive basic_tables simple_mail raw_text plain_decoder last_two_labels World memoryExactMessage Db sample_stores
    sample_laws memory_exact (sample_deps (lit "accept")) (sample_oracle unwanted) 0 commandEndBody [] (sample_session (lit "accept"))
    ltac:(vm_compute; reflexivity) ltac:(vm_compute; reflexivity) Hr) as (Hw & _).
  rewrite !sample_observe in Hw. cbv zeta. unfold sample_command. exact Hw.
Defined.
