(* ===== verification/SessionCommands.v ===== *)
(** * Commands by email in a session

    The commands of a message run only when the session authorizes them, and
    with the rights of its envelope sender: composition of the session
    ([Session.handleEmailCommand]), the parser and executor of commands
    ([AdminCmd], [AdminExec]) and the repositories. *)
From Stdlib Require Import QArith.
From S2P Require Import Prelude GoText Calendar Rejections RejectionsSpec Activity AdminCmd AdminFormat AdminExec AdminSpec SmtpReply EmailCommands NetSafety MailAddr Protocol Message MailAuth ExactMessage SqlDb IPReputation Correspondents SenderBlocklist IPAllowlist Policy Session SessionFacts SessionSpec.
Open Scope Z_scope.

(** ** Several commands *)

(** What a line of a message can become for the user [a]. *)
Definition message_command (a : gostring) (c : Command) : Prop := kind c = commandParseError \/ user_command a c.

Lemma parse_lines_commands `{UnicodeTables, NetMail, NetIPText} lines actor acc cmds :
  Administrator actor = false -> Forall (message_command (normalizeRecipient (DefaultRecipient actor))) acc ->
  (length acc < maxCommandsPerMessage)%nat -> parse_lines lines actor acc = inr cmds ->
  Forall (message_command (normalizeRecipient (DefaultRecipient actor))) cmds /\ (length cmds <= maxCommandsPerMessage)%nat.
Proof.
  intros Ha. revert acc. induction lines as [|line lines IH]; intros acc Hacc Hl Hp; cbn [parse_lines] in Hp; [injection Hp as <-; by split; [|lia]|].
  assert (Hadd : forall c, message_command (normalizeRecipient (DefaultRecipient actor)) c ->
    Forall (message_command (normalizeRecipient (DefaultRecipient actor))) (acc ++ [c]) /\ length (acc ++ [c]) = S (length acc)).
  { intros c Hc. rewrite length_app. cbn. split; [|lia]. apply Forall_app. split; [done|by constructor]. }
  destruct (Parse line actor) as [err|c] eqn:Ep.
  - destruct acc as [|c0 acc]; [discriminate Hp|]. injection Hp as <-. destruct (RecognizedLine line); [|by split; [|lia]].
    destruct (Hadd (ParseError line err)) as [Hf Hn]; [by left|]. split; [done|]. cbn [app length] in *. lia.
  - unfold Parse in Ep. rewrite Ha in Ep. apply parse_user in Ep. cbv zeta in Hp. destruct (Hadd c) as [Hf Hn]; [by right|].
    destruct (bool_decide (length (acc ++ [c]) = maxCommandsPerMessage)) eqn:El; [injection Hp as <-; split; [done|lia]|].
    apply bool_decide_eq_false in El. eapply IH; [exact Hf|lia|exact Hp].
Qed.

Section Batch.
Context `{UnicodeTables, NetMail, NetIPText, FloatSum, FloatText} (proc : Processor) (lookup : Addr -> option (list gostring)).

Lemma execute_commands_kept user cmds actor now w : canonical_mailbox user ->
  Forall (message_command user) cmds ->
  others user (wdb (execute_commands (Execute proc lookup) cmds actor now w).2) = others user (wdb w).
Proof.
  intros Hm Hc. revert w. induction Hc as [|c cmds Hc _ IH]; intros w; [done|]. cbn [execute_commands].
  assert (Hk : others user (wdb (Execute proc lookup c actor now w).2) = others user (wdb w)).
  { destruct Hc as [Hc|Hc]; [unfold Execute; by rewrite Hc|]. exact (Execute_kept user Hm proc lookup c actor now w Hc). }
  destruct (Execute proc lookup c actor now w) as [x w1]. specialize (IH w1). destruct (execute_commands _ cmds actor now w1) as [rest w2].
  cbn [snd] in *. congruence.
Qed.
End Batch.

(** ** Effects of a handler *)

(** Neither the repositories nor the requests change. *)
Definition untouched {W X} (s s' : St W X) : Prop := store s' = store s /\ calls s' = calls s.
#[export] Instance untouched_preorder {W X} : PreOrder (@untouched W X).
Proof. split; [done|]. intros a b c [H1 H2] [H3 H4]. split; congruence. Qed.
Lemma modify_untouched {W X} f : respects (@untouched W X) (modify f).
Proof. done. Qed.
Lemma write_untouched {W X} f : respects (@untouched W X) (write f).
Proof. intros s. unfold write. by destruct (wfail s) as [|[] ?]. Qed.
#[export] Hint Resolve modify_untouched write_untouched : session.

Section Commands.
Context `{UnicodeTables, NetMail, NetIPText, HeaderDecoder, PublicSuffix} {W X : Type} `{PolicyStores W, ExactStore X}.
Context (dp : Deps) (o : Oracle W X) (now : Z).

Lemma resetMessage_untouched p : respects untouched (resetMessage dp o now p).
Proof. unfold resetMessage, closeExactMessage. respects_tac. Qed.
#[local] Hint Resolve resetMessage_untouched : session.
Lemma rejectEmailCommand_untouched reason : respects untouched (rejectEmailCommand dp o now reason).
Proof. unfold rejectEmailCommand. respects_tac. Qed.
Lemma discardEmailCommand_untouched : respects untouched (discardEmailCommand dp o now).
Proof. unfold discardEmailCommand. respects_tac. Qed.

(** At most one reply is requested, to [replyTo]. *)
Definition one_reply (replyTo : gostring) (cs : list call) : Prop := cs = [] \/ exists subject request, cs = [CallReply replyTo subject request].

Lemma queue_and_discard replyTo subject request (s : St W X) :
  let s' := (bind (queueReplyContentFunc dp o replyTo subject request) (λ _, discardEmailCommand dp o now) s).2 in
  store s' = store s /\ exists cs, calls s' = calls s ++ cs /\ one_reply replyTo cs.
Proof.
  unfold bind, queueReplyContentFunc. destruct (_ && _); cbn [record ret].
  - destruct (discardEmailCommand_untouched (MkSt (ss s) (sent s) (wfail s) (store s) (calls s ++ [CallReply replyTo subject request]))) as [E1 E2].
    cbn [store calls] in E1, E2. split; [exact E1|]. eexists. split; [exact E2|]. right. by eexists _, _.
  - destruct (discardEmailCommand_untouched s) as [E1 E2]. split; [exact E1|]. exists []. rewrite app_nil_r. split; [exact E2|by left].
Qed.

(** What the commands of an authorized message do to the repositories. *)
Definition commands_ran (admin : bool) (replyTo : gostring) (w w' : W) : Prop :=
  w' = w \/ exists lines cmds, parse_lines lines (MkActor admin false replyTo false) [] = inr cmds /\
    w' = (execute_commands st_Execute cmds (MkActor admin false replyTo false) now w).2.

Definition effects (admin : bool) (replyTo : gostring) (s s' : St W X) : Prop :=
  commands_ran admin replyTo (store s) (store s') /\ exists cs, calls s' = calls s ++ cs /\ one_reply replyTo cs.

Lemma run_email_commands_effects admin identity replyTo (s : St W X) :
  effects admin replyTo s (run_email_commands dp o now admin identity replyTo s).2.
Proof.
  unfold run_email_commands, completeInvalidEmailCommand, completeFailedEmailCommand. unfold bind at 1, gets. cbn [fst snd]. cbv zeta.
  assert (Hq : forall subject request, effects admin replyTo s (bind (queueReplyContentFunc dp o replyTo subject request) (λ _, discardEmailCommand dp o now) s).2).
  { intros subject request. destruct (queue_and_discard replyTo subject request s) as [E1 E2]. split; [by left|exact E2]. }
  destruct (messageLines _ _ _ _) as [[reason|reason]|lines]; [exact (Hq _ _)|exact (Hq _ _)|].
  destruct (parse_lines lines _ _) as [reason|[|c cmds]] eqn:Ep; [exact (Hq _ _)|exact (Hq _ _)|].
  unfold bind at 1, on_store. destruct (execute_commands _ _ _ _ _) as [parts w'] eqn:Ex.
  match goal with |- context [bind (queueReplyContentFunc _ _ _ ?subject ?request) _ ?s1] => destruct (queue_and_discard replyTo subject request s1) as [E1 E2] end.
  cbn [store calls] in E1, E2. split; [|exact E2]. right. exists lines, (c :: cmds). split; [exact Ep|]. rewrite E1, Ex. reflexivity.
Qed.

(** The conditions under which a session runs the commands of a message. *)
Record command_authorized (s : session X) : Prop := CommandAuthorized {
  ca_enabled : ec_Enabled (commands dp) = true;
  ca_recipient : exists r, envelopeRecipients s = [r] /\ Normalize r = ec_recipient (commands dp);
  ca_complete : envelopeRecipientsTruncated s = false;
  ca_authenticated : Authenticated (authentication s) = true;
  ca_sender : Normalize (envelopeSender s) <> [];
  ca_rights : isCommandAdministrator dp (trimSpace (Identity (authentication s))) = true \/
    (ec_AllowAuthenticatedUsers (commands dp) = true /\
     (ec_VerifySenderViaAliases (commands dp) = true ->
      senderOwnedViaAliases (or_aliasesFile o) (envelopeSender s) (trimSpace (Identity (authentication s))) (ec_Recipient (commands dp)) = true));
}.

Definition decision (s s' : St W X) : Prop :=
  untouched s s' \/
  (command_authorized (ss s) /\
   effects (isCommandAdministrator dp (trimSpace (Identity (authentication (ss s))))) (Normalize (envelopeSender (ss s))) s s').

Lemma handleEmailCommand_effects (s : St W X) :
  decision s (handleEmailCommand dp o now s).2.
Proof.
  unfold handleEmailCommand. cbv zeta. destruct (ec_Enabled (commands dp)) eqn:E1; cbn [negb]; [|by left].
  unfold bind at 1, gets. cbn [fst snd]. change (id (ss s)) with (ss s).
  assert (Hrej : forall reason, untouched s (handled (rejectEmailCommand dp o now reason) s).2).
  { intros reason. unfold handled, bind. pose proof (rejectEmailCommand_untouched reason s) as Hr. by destruct (rejectEmailCommand _ _ _ _ s). }
  unfold decision.
  destruct (existsb _ (envelopeRecipients (ss s))) eqn:E2; cbn [negb]; [|by left].
  destruct (negb (bool_decide _) || envelopeRecipientsTruncated (ss s)) eqn:E3; [left; apply Hrej|].
  apply orb_false_iff in E3 as [E3%negb_false_iff%bool_decide_eq_true E4].
  destruct (Authenticated (authentication (ss s))) eqn:E5; cbn [negb]; [|left; apply Hrej].
  set (identity := trimSpace (Identity (authentication (ss s)))). set (adm := isCommandAdministrator dp identity).
  destruct (negb adm && negb (ec_AllowAuthenticatedUsers (commands dp))) eqn:E6; [left; apply Hrej|].
  destruct (negb adm && ec_VerifySenderViaAliases (commands dp) && _) eqn:E7; [left; apply Hrej|].
  destruct (beq (Normalize (envelopeSender (ss s))) []) eqn:E8; [left; apply Hrej|]. right. split.
  - split; [exact E1| |exact E4|exact E5| |].
    + destruct (envelopeRecipients (ss s)) as [|r [|]]; try discriminate E3. exists r. split; [done|]. cbn in E2. rewrite orb_false_r in E2. by apply beq_true.
    + intros Hn. by rewrite Hn in E8.
    + fold identity. fold adm. destruct adm; [by left|]. right. cbn [negb andb] in E6, E7. apply negb_false_iff in E6. split; [done|].
      intros Hv. rewrite Hv in E7. cbn [andb] in E7. by apply negb_false_iff in E7.
  - pose proof (run_email_commands_effects adm identity (Normalize (envelopeSender (ss s))) s) as Hrun.
    unfold handled, bind. by destruct (run_email_commands _ _ _ _ _ _ s).
Qed.

(** C5: a message to the command address does something only when the session
    authorizes it: commands are enabled, the command address is the only
    recipient, the client is authenticated, the envelope sender is an address,
    and the user is an administrator, or users are allowed and, where the
    aliases must confirm it, own the envelope sender.  Otherwise the repositories
    and the requests are untouched; and at most one reply is requested, to the
    envelope sender. *)
Theorem email_commands_authorized (s : St W X) :
  let s' := (handleEmailCommand dp o now s).2 in
  (command_authorized (ss s) \/ untouched s s') /\
  exists cs, calls s' = calls s ++ cs /\ (cs = [] \/ exists subject request, cs = [CallReply (Normalize (envelopeSender (ss s))) subject request]).
Proof.
  cbv zeta. destruct (handleEmailCommand_effects s) as [Hu|(Ha & _ & Hc)]; [|by split; [left|]].
  split; [by right|]. exists []. rewrite app_nil_r. split; [apply Hu|by left].
Qed.
End Commands.

Section Confined.
Context `{UnicodeTables, NetMail, NetIPText, HeaderDecoder, PublicSuffix, FloatSum, FloatText} {X : Type} `{ExactStore X}.
Context (ip : IPReputationOptions) (co : CorrespondentOptions) (bl : SenderBlocklistOptions) (proc : Processor) (lookup : Addr -> option (list gostring)).
#[local] Abbreviation stores := (sqlite_stores ip co bl proc lookup).

(** C6: whatever a user who is not an administrator writes in a message to the
    command address, the session changes nothing in the database but the rows of
    the allowlist and the blocklist that belong to the envelope sender.  Its
    normalized mailbox must be one that normalizing again leaves alone, as that
    of every lower-case dot-atom mailbox is ([canonical_stable]): the commands
    and the stores normalize it again, and for other mailboxes they can act on
    another one ([quoted_user_changes_another]). *)
Theorem email_commands_confined (dp : Deps) (o : Oracle World X) (now : Z) (user : gostring) (s : St World X) :
  canonical_mailbox user ->
  isCommandAdministrator dp (trimSpace (Identity (authentication (ss s)))) = false ->
  Normalize (envelopeSender (ss s)) = user ->
  others user (wdb (store (handleEmailCommand (H4:=stores) dp o now s).2)) = others user (wdb (store s)).
Proof.
  intros Hm Ha Hs. destruct (handleEmailCommand_effects (H4:=stores) dp o now s) as [[Hu _]|(_ & Hr & _)]; [by rewrite Hu|].
  rewrite Ha, Hs in Hr. destruct Hr as [->|(lines & cmds & Hp & ->)]; [done|]. cbn [st_Execute sqlite_stores].
  apply execute_commands_kept; [exact Hm|].
  destruct (parse_lines_commands lines (MkActor false false user false) [] cmds eq_refl (Forall_nil_2 _) ltac:(unfold maxCommandsPerMessage; cbn; lia) Hp) as [Hf _]. cbn [DefaultRecipient] in Hf.
  unfold normalizeRecipient in Hf. rewrite (own_normal user Hm) in Hf.
  by rewrite (own_trim user Hm), (own_not_star user Hm) in Hf.
Qed.
End Confined.

(** ** A command message of a user *)

Definition command_deps : Deps :=
  MkDeps (lit "enforce") (lit "rejected") true true [] true [] (9 # 10) (7 # 10) (lit "tempfail") (lit "reject") (lit "reject") 10000
    false (lit "either") (MkCorrespondentsConfig true (lit "per_sender") (lit "any") true true [])
    sample_ip_policy (Some (MkSenderBlocklistConfig (lit "blocked") true)) None
    (MkEmailCommandsConfig true (lit "guard@example.com") (lit "token") [lit "root"] true true (lit "guard@example.com") true)
    true (λ _, lit "0.5") true Some.
(** The aliases file sends [bob] to the authenticated user [robert]. *)
Definition command_oracle : Oracle World memoryExactMessage :=
  MkOracle _ _ true None None (λ _, (MkEvidence [] false false false [], false)) 0 WorkerDone true ScanClean
    (MkAnalysisInputs true false false false false None) 1 WorkerDone (Some (lit "bob: robert" ++ newline)) true
    (MkCommandExtraction (lit "blocklist add *@spam.example" ++ newline ++ lit "help") true false false false false false) true true.
Definition command_state : St World memoryExactMessage :=
  MkSt (set_authentication (MkAuthentication true (lit "robert"))
         (set_envelopeSender (lit "<bob@example.com>") (set_envelopeRecipients [lit "<guard@example.com>"] (zero_session (New 0 10000)))))
    [] [] alice_blocks [].
#[local] Abbreviation command_run :=
  (@handleEmailCommand basic_tables simple_mail raw_text World memoryExactMessage sample_stores memory_exact command_deps command_oracle 0 command_state).

Lemma email_commands_confined_witness :
  command_run.1 = Some true /\ (length (sender_blocklist (wdb (store command_run.2))) = 2)%nat /\ (length (calls command_run.2) = 1)%nat /\
  others (lit "bob@example.com") (wdb (store command_run.2)) = others (lit "bob@example.com") (wdb alice_blocks).
Proof.
  split; [vm_compute; reflexivity|]. split; [vm_compute; reflexivity|]. split; [vm_compute; reflexivity|].
  apply (@email_commands_confined basic_tables simple_mail raw_text exact_sum whole_numbers memoryExactMessage memory_exact
    _ _ _ sample_commands (λ _, None) command_deps command_oracle 0 (lit "bob@example.com") command_state).
  - apply (canonical_stable (lit "bob")), example_mailbox; vm_compute; reflexivity || discriminate.
  - vm_compute. reflexivity.
  - vm_compute. reflexivity.
Defined.
