(* ===== verification/SessionActivity.v ===== *)
(** * The activity a session records

    The session and the activity repository agree on the events: every event a
    session records is one the repository accepts, except that of an analysis
    that overran both the content limits and its deadline. *)
From Stdlib Require Import QArith.
From S2P Require Import Prelude GoText Calendar Rejections Activity AdminCmd AdminFormat AdminExec SmtpReply EmailCommands NetSafety MailAddr Protocol Message MailAuth ExactMessage SqlDb IPReputation Correspondents SenderBlocklist IPAllowlist Policy Session SessionFacts.
Open Scope Z_scope.

(** The analysis exceeded its content limits and its deadline while failures
    defer the message. *)
Definition overran (i : analysis_inputs) (mode aiErrorAction htmlLimitAction : gostring) : bool :=
  let action := if beq htmlLimitAction [] then lit "reject" else htmlLimitAction in
  an_slot i && (an_cpuExceeded i || an_memoryExceeded i) && an_expired i && beq mode (lit "enforce") && beq aiErrorAction (lit "tempfail") &&
  (beq action (lit "dos-reject") || beq action (lit "reject")).

Lemma select_not_tempfail a mode : a <> actionTempfail -> selectActionForMode a mode <> actionTempfail.
Proof. unfold selectActionForMode. by case_match. Qed.

(** Only a plain scan may be deferred. *)
Lemma valid_not_deferred t a failed : a <> actionTempfail \/ failed = true ->
  t = ActivityEventScan \/ t = ActivityEventHTMLDoS \/ t = ActivityEventHTMLLimit \/ t = ActivityEventIncompleteInspection ->
  validActivityEvent t (activityOutcome a failed) = true.
Proof. intros Ha Ht. destruct failed, a, Ht as [->|[->|[->| ->]]]; try done; by destruct Ha. Qed.

Lemma scanEventType_cases r : let t := scanEventType r in
  t = ActivityEventScan \/ t = ActivityEventHTMLDoS \/ t = ActivityEventHTMLLimit \/ t = ActivityEventIncompleteInspection.
Proof. unfold scanEventType. repeat case_match; auto. Qed.

Lemma failure_event mode ai exceeded action :
  let r := analysisFailure mode ai exceeded action in
  validActivityEvent (scanEventType r) (activityOutcome (er_selected r) false) =
  negb (exceeded && beq mode (lit "enforce") && beq ai (lit "tempfail") && (beq action (lit "dos-reject") || beq action (lit "reject"))).
Proof.
  cbv zeta. unfold analysisFailure, scanEventType. cbn [er_incompleteInspection er_htmlExceeded er_htmlAction er_selected].
  by destruct exceeded, (beq mode (lit "enforce")), (beq ai (lit "tempfail")), (beq action (lit "dos-reject")), (beq action (lit "reject")).
Qed.

Lemma scan_event_storable i mode score ai html inc failed :
  let r := evaluate i mode score ai html inc in
  validActivityEvent (scanEventType r) (activityOutcome (er_selected r) failed) = negb (overran i mode ai html && negb failed).
Proof.
  cbv zeta. set (r := evaluate i mode score ai html inc). destruct failed.
  { rewrite andb_false_r. apply valid_not_deferred; [by right|apply scanEventType_cases]. }
  rewrite andb_true_r. subst r. unfold evaluate, overran. destruct (an_slot i); cbn [negb andb]; [|by rewrite failure_event].
  cbv zeta. set (exceeded := an_cpuExceeded i || an_memoryExceeded i). set (action := if beq html [] then lit "reject" else html).
  destruct (an_expired i); [rewrite failure_event, andb_true_r; reflexivity|]. rewrite andb_false_r. cbn [andb negb].
  assert (Hs : forall r, er_selected r <> actionTempfail -> validActivityEvent (scanEventType r) (activityOutcome (er_selected r) false) = true).
  { intros r Hr. apply valid_not_deferred; [by left|apply scanEventType_cases]. }
  destruct (exceeded && negb (beq action (lit "fallback"))) eqn:E; [apply Hs; by apply select_not_tempfail|].
  destruct (_ && an_bodyIncomplete i); [apply Hs; by apply select_not_tempfail|].
  destruct (an_decision i) as [d|].
  - apply Hs. unfold applyPolicy. apply select_not_tempfail. by case_match.
  - rewrite failure_event. apply negb_true_iff. destruct exceeded; [|done]. cbn [andb] in *. apply negb_false_iff, beq_true in E as ->.
    by rewrite andb_false_r.
Qed.

Section Storable.
Context `{UnicodeTables, NetMail, NetIPText, HeaderDecoder, PublicSuffix} {W X : Type} `{PolicyStores W, ExactStore X}.
Context (dp : Deps) (o : Oracle W X) (now : Z).

(** A request the repositories accept. *)
Definition storable (c : call) : Prop :=
  match c with
  | CallActivity type outcome _ _ =>
      validActivityEvent type outcome = true \/
      (outcome = ActivityOutcomeTempfailed /\ overran (or_analysis o) (mode dp) (AIErrorAction dp) (HTMLResourceLimitAction dp) = true)
  | _ => True
  end.
Definition records (s s' : St W X) : Prop := exists cs, calls s' = calls s ++ cs /\ Forall storable cs.
#[local] Instance records_preorder : PreOrder records.
Proof.
  split.
  - intros s. exists []. by rewrite app_nil_r.
  - intros a b c (f & Hf & Hf') (g & Hg & Hg'). exists (f ++ g). rewrite Hg, Hf, app_assoc. split; [done|]. by apply Forall_app.
Qed.
Lemma records_same (s s' : St W X) : calls s' = calls s -> records s s'.
Proof. intros E. exists []. by rewrite E, app_nil_r. Qed.
Lemma modify_records f : respects records (modify f).
Proof. intros s. by apply records_same. Qed.
Lemma write_records f : respects records (write f).
Proof. intros s. apply records_same. unfold write. by destruct (wfail s) as [|[] ?]. Qed.
Lemma write_all_records fs : respects records (write_all fs).
Proof. apply respects_write_all; [exact _|]. intros f _. apply write_records. Qed.
Lemma on_store_records {A} (f : W -> A * W) : respects records (on_store f).
Proof. intros s. apply records_same. unfold on_store. by destruct (f (store s)). Qed.
Lemma record_records c : storable c -> respects records (record c).
Proof. intros Hc s. exists [c]. split; [done|by constructor]. Qed.
#[local] Hint Resolve modify_records write_records write_all_records on_store_records : session.

Lemma rejection_records v e su r re : respects records (record (CallRejection v e su r re)).
Proof. by apply record_records. Qed.
Lemma archive_records c b : respects records (record (CallArchive c b)).
Proof. by apply record_records. Qed.
Lemma reply_records r su q : respects records (record (CallReply r su q)).
Proof. by apply record_records. Qed.
#[local] Hint Resolve rejection_records archive_records reply_records : session.

Lemma deterministic_records t a failed :
  validActivityEvent t (activityOutcome a false) = true -> validActivityEvent t ActivityOutcomeResponseFailed = true ->
  respects records (recordDeterministic t a failed).
Proof. intros H1' H2'. apply record_records. left. by destruct failed. Qed.
Lemma blocklist_records a q : validActivityEvent ActivityEventSenderBlocklist a = true -> respects records (recordSenderBlocklist a q).
Proof. intros Hv. apply record_records. by left. Qed.
Lemma scan_records failed :
  respects records (recordScan (evaluate (or_analysis o) (mode dp) (RejectScore dp) (AIErrorAction dp) (HTMLResourceLimitAction dp) (IncompleteBodyAction dp)) failed).
Proof.
  apply record_records. cbn [storable]. rewrite scan_event_storable. destruct failed; [left; by rewrite andb_false_r|]. rewrite andb_true_r.
  destruct (overran _ _ _ _) eqn:Eo; [|by left]. right. split; [|done]. unfold overran in Eo. repeat rewrite andb_true_iff in Eo.
  destruct Eo as [[[[[E1 E2] E3] E4] E5] _]. unfold evaluate, analysisFailure. by rewrite E1, E3, E4, E5.
Qed.

Ltac deterministic := apply deterministic_records; reflexivity.

Lemma removal_records : respects records (completeSenderBlocklistRemoval dp o).
Proof. unfold completeSenderBlocklistRemoval, recordRejection. respects_tac. by apply blocklist_records. Qed.
Lemma reset_records p : respects records (resetMessage dp o now p).
Proof. unfold resetMessage, closeExactMessage. respects_tac. Qed.
Lemma headers_records headers : respects records (replaceResultHeaders headers).
Proof. unfold replaceResultHeaders. respects_tac. Qed.
Lemma await_records : respects records (awaitConnectionDNS o).
Proof. unfold awaitConnectionDNS. respects_tac. Qed.
#[local] Hint Resolve removal_records reset_records headers_records await_records : session.
Lemma strike_records : respects records (strike dp o now).
Proof. unfold strike. respects_tac. Qed.
Lemma class_headers_records c q a : respects records (writeClassificationHeaders dp c q a).
Proof. apply headers_records. Qed.
#[local] Hint Resolve strike_records class_headers_records : session.
Lemma accepted_headers_records r : respects records (writeAcceptedResultHeaders dp r).
Proof. unfold writeAcceptedResultHeaders. respects_tac. Qed.
Lemma response_records selected msg : respects records (writePolicyResponse selected msg).
Proof. unfold writePolicyResponse. respects_tac. Qed.
#[local] Hint Resolve accepted_headers_records response_records : session.

Lemma bypassed_records source learn touch : respects records (finishBypassedMessage dp o now source learn touch).
Proof.
  unfold finishBypassedMessage, recordLegitimateIP, learnAuthenticatedRecipients, touchInboundCorrespondent.
  respects_tac; deterministic.
Qed.
#[local] Hint Resolve bypassed_records : session.
Lemma internal_records : respects records (finishInternalMessage dp o now).
Proof. unfold finishInternalMessage. respects_tac. Qed.
Lemma email_records : respects records (handleEmailCommand dp o now).
Proof.
  unfold handleEmailCommand, handled, run_email_commands, completeInvalidEmailCommand, completeFailedEmailCommand, queueReplyContentFunc,
    rejectEmailCommand, discardEmailCommand. respects_tac.
Qed.

(** Deterministic rejections are recorded when the message is rejected. *)
Lemma rejection_event_records t a failed :
  validActivityEvent t ActivityOutcomeRejected = true -> validActivityEvent t ActivityOutcomeResponseFailed = true ->
  respects records (if bool_decide (a = actionReject) then recordDeterministic t a failed else ret tt).
Proof. intros H1' H2'. case_bool_decide as Ha; [rewrite Ha; by apply deterministic_records|apply respects_ret; exact _]. Qed.
Ltac records_tac := cbv zeta; repeat (first [apply rejection_event_records; reflexivity|deterministic|apply blocklist_records; reflexivity|respects_step]; cbv zeta).

Lemma protected_records : respects records (applyAuthenticatedOnlySenderDomain dp o now).
Proof. unfold applyAuthenticatedOnlySenderDomain, finishAuthenticatedOnlySenderDomain, recordRejection. records_tac. Qed.
Lemma senders_records : respects records (applySenderBlocklist dp o now).
Proof. unfold applySenderBlocklist, recordRejection. records_tac. Qed.
Lemma attachments_records : respects records (applyAttachments dp o now).
Proof. unfold applyAttachments, finishAttachmentDecision, recordRejection. records_tac. Qed.
Lemma reputation_records : respects records (rejectReputationIP dp o now).
Proof. unfold rejectReputationIP. records_tac. Qed.
Lemma progress_records n e : respects records (progress n e).
Proof. unfold progress. records_tac. Qed.
#[local] Hint Resolve internal_records email_records protected_records senders_records attachments_records reputation_records progress_records : session.
Lemma authenticate_records : respects records (authenticate dp o).
Proof. unfold authenticate, verifyAuthenticationWithProgress, closeExactMessage. records_tac. Qed.
Lemma updates_records r i : respects records (applyPostDecisionUpdates dp o now r i).
Proof. unfold applyPostDecisionUpdates, policy_updates, recordInboundClassification, recordLegitimateIP, recordRejection. records_tac. Qed.
#[local] Hint Resolve authenticate_records updates_records : session.

Lemma analyzed_records i : respects records (finishAnalyzed dp o now i).
Proof.
  intros s. unfold finishAnalyzed, evaluateWithProgress. cbv zeta.
  set (result := evaluate _ _ _ _ _ _). unfold bind at 1. set (m := bind (awaitConnectionDNS o) _).
  assert (Hm : records s (m s).2 /\ (m s).1.1 = result).
  { split; [assert (Hx : respects records m) by (unfold m; records_tac); apply Hx|].
    unfold m, bind, ret. destruct (awaitConnectionDNS o s) as [a s1]. by destruct (progress _ _ s1). }
  destruct (m s) as [[r failed] s1]. cbn [fst snd] in *. destruct Hm as [Hm ->]. etrans; [exact Hm|].
  match goal with |- records s1 (?m s1).2 => assert (Hx : respects records m); [|exact (Hx s1)] end.
  pose proof scan_records as Hscan. fold result in Hscan. clearbody result. records_tac.
Qed.
#[local] Hint Resolve analyzed_records : session.
Lemma message_records : respects records (finishMessage dp o now).
Proof. unfold finishMessage, finishEvaluated. records_tac. Qed.
#[local] Hint Resolve message_records : session.

(** every activity event a session records is one that the activity repository
    accepts, whatever the command, the configuration and the answers of the
    outside, with one exception: an analysis that exceeded its content limits and
    then its deadline, while failures defer the message, is recorded as a
    deferred limit event, which the repository refuses. *)
Theorem activity_events_storable (c : ascii) (payload : gostring) (s : St W X) :
  exists cs, calls (handleCommand dp o now c payload s).2 = calls s ++ cs /\
    Forall (λ call, match call with
      | CallActivity type outcome _ _ =>
          validActivityEvent type outcome = true \/
          (outcome = ActivityOutcomeTempfailed /\ overran (or_analysis o) (mode dp) (AIErrorAction dp) (HTMLResourceLimitAction dp) = true)
      | _ => True
      end) cs.
Proof.
  assert (Hh : respects records (handleCommand dp o now c payload)); [|exact (Hh s)].
  unfold handleCommand, addHeader, addBody, captureExact, captureSessionMacros, sendContinue, negotiate. records_tac.
Qed.
End Storable.

(** such an event is lost: the repository answers with an error and stores
    nothing, so a message that was deferred for its resource use leaves no trace
    in the activity report. *)
Theorem overrun_event_lost `{FloatSum} (i : analysis_inputs) (mode ai html inc : gostring) (score : Q) (expiry now : Z) (cost : float64) (w : World) :
  0 < expiry -> overran i mode ai html = true ->
  let r := evaluate i mode score ai html inc in
  Activity.AddActivity expiry (MkActivityEvent None (scanEventType r) (activityOutcome (er_selected r) false) (er_err r) cost 0) now w = (inl RepoInvalid, w).
Proof.
  intros He Ho r. pose proof (scan_event_storable i mode score ai html inc false) as Hs. cbv zeta in Hs. fold r in Hs. rewrite Ho in Hs.
  unfold Activity.AddActivity, Activity.available. rewrite (proj2 (Z.ltb_lt _ _) He). cbn [negb ae_EventType ae_Outcome]. by rewrite Hs.
Qed.

Lemma overrun_event_lost_witness :
  let r := evaluate (MkAnalysisInputs true true false true false None) (lit "enforce") 1%Q (lit "tempfail") (lit "dos-reject") (lit "reject") in
  scanEventType r = ActivityEventHTMLDoS /\ er_selected r = actionTempfail /\
  @Activity.AddActivity 1000 (MkActivityEvent None (scanEventType r) (activityOutcome (er_selected r) false) (er_err r) (FloatFinite 0) 0) 0
    (MkWorld emptyDb []) = (inl RepoInvalid, MkWorld emptyDb []).
Proof.
  intros r. split; [vm_compute; reflexivity|]. split; [vm_compute; reflexivity|].
  apply (@overrun_event_lost exact_sum); [reflexivity|vm_compute; reflexivity].
Defined.
