(* ===== verification/Compose.v ===== *)
(** * Composition (internal/milter/composition.go, repositories.go)

    How the settings of Config.v become the options of the repositories, the
    scanner of attachments and the dependencies of a session, and what validation
    guarantees of the result: nothing that the configuration lists is silently
    dropped when the components are built. *)
From Stdlib Require Import QArith.
From S2P Require Import Prelude GoText NetSafety MailAddr SqlDb Calendar Thinking Config ConfigSpec.
From S2P Require Import IPReputation IPAllowlist Correspondents SenderBlocklist Rejections Activity Archive.
From S2P Require Import ScanNames Scanner ScannerSpec ScannerProps Protocol Message Policy ScanPolicy Session.
Open Scope Z_scope.

(** ** Repositories (repositories.go) *)

Definition correspondentFeaturesEnabled (cfg : Config.CorrespondentsConfig) : bool :=
  co_LearnAuthenticatedRecipients cfg || co_LearnLegitimateSenders cfg || co_UseAllowlist cfg.
Definition rejectionHistoryEnabled (cfg : RejectionHistoryConfig) : bool := 0 <? rh_Expiry cfg.
(** [nil] is [None]. *)
Definition newRejectedMailArchive (cfg : RejectionHistoryConfig) : option Archive.Options :=
  if negb (rh_SaveMessages cfg) || negb (rejectionHistoryEnabled cfg) then None
  else Some (Archive.MkOptions (rh_Expiry cfg) (rh_MessageMaxTotalBytes cfg)).

(** [stores.CorrespondentScope(cfg.Scope)] *)
Definition correspondent_scope (s : gostring) : CorrespondentScope :=
  if beq s (lit "global") then CorrespondentScopeGlobal else if beq s (lit "per_sender") then CorrespondentScopePerSender else CorrespondentScopeOther s.
(** A score of a validated configuration is a number. *)
Definition score_value (f : Config.float64) : Q := match f with Finite q => q | _ => 0 end.

Definition newCorrespondentRepository (cfg : Config.CorrespondentsConfig) : CorrespondentOptions :=
  MkCorrespondentOptions (co_LearnAuthenticatedRecipients cfg) (co_LearnLegitimateSenders cfg) (co_UseAllowlist cfg) (correspondent_scope (co_Scope cfg)) (co_MaxEntries cfg)
    (co_StaleAfter cfg) (score_value (co_LegitimateSenderMinScore cfg)) (co_LegitimateSenderMinMessages cfg) (co_LegitimateSenderRequireAuthentication cfg).
Definition newRejectionRepository (cfg : RejectionHistoryConfig) : RejectionOptions := MkRejectionOptions (rh_Expiry cfg) (rh_MaxEntries cfg).
Definition domainRegistrationExpiryGrace : Z := 14 * 24 * hour.
Definition newDomainRepository (cfg : DomainRegistrationConfig) : DomainOptions := MkDomainOptions (dr_MaxEntries cfg) domainRegistrationExpiryGrace.
Definition newIPRepository (cfg : Config.IPReputationConfig) : IPReputationOptions :=
  MkIPReputationOptions (ir_BlockDuration cfg) (ir_RepeatThreshold cfg) (ir_RepeatWindow cfg) (ir_RepeatBlockDuration cfg) (ir_RepeatRefreshOnAttempt cfg)
    (ir_LegitimatePerStrike cfg) (ir_MaxEntries cfg).
Definition newSenderBlocklistRepository (cfg : Config.SenderBlocklistConfig) : SenderBlocklistOptions := MkSenderBlocklistOptions (sb_Expiry cfg) (sb_MaxEntries cfg).

(** ** Services (composition.go) *)

Section Compose.
Context {UT : UnicodeTables} {NI : NetIPText} {NM : NetMail} {UR : UrlText}.

Definition ip_store (cfg : Config.IPReputationConfig) : ipReputationStore :=
  newIPReputationStore (IPAllowlist.MkIPReputationConfig (ir_MaxEntries cfg) (ir_BlockDuration cfg) (ir_RepeatThreshold cfg) (ir_RejectMessage cfg) (ir_IPAllowlist cfg)
    (ir_DomainAllowlist cfg)).

Definition scanner_options (cfg : Config.AttachmentsConfig) : ScanNames.Options :=
  ScanNames.MkOptions (Config.at_BlockedExtensions cfg) (Config.at_InspectSignatures cfg) (Config.at_InspectArchives cfg) (Config.at_MaxAttachmentBytes cfg)
    (Config.at_MaxArchiveDepth cfg) (Config.at_MaxArchiveFiles cfg) (Config.at_MaxArchiveUncompressedBytes cfg).
Definition attachment_scanner (cfg : Config.AttachmentsConfig) : option Scanner :=
  if Config.at_BlockExecutables cfg then Some (ScanNames.New (scanner_options cfg)) else None.
Definition attachment_policy (cfg : Config.AttachmentsConfig) : Policy.AttachmentsConfig :=
  Policy.MkAttachmentsConfig (Config.at_RejectMessage cfg) (Config.at_InvalidMIMEAction cfg) (Config.at_UnscannableAction cfg) (Config.at_EncryptedArchiveAction cfg)
    (Config.at_AddIPReputationStrike cfg).

(** [GOMAXPROCS] is [parallelism]. *)
Definition attachmentConcurrency (parallelism maxConnections : Z) : Z :=
  if maxConnections <? 1 then 1 else if parallelism <? maxConnections then parallelism else maxConnections.

(** The token, the formatting of scores and the media types come from outside. *)
Definition session_dependencies (cfg : Config.Config) (internalToken : gostring) (formatScore : Q -> gostring) (parseMediaType : gostring -> option gostring) : Deps :=
  let f := c_Filtering cfg in let a := c_AI cfg in let co := c_Correspondents cfg in let em := c_EmailCommands cfg in
  MkDeps (c_Mode cfg) (fi_RejectMessage f) (fi_AddEmailHeaders f) (fi_ScanAuthenticated f) (fi_SenderDomainAllowlist f) (fi_SenderDomainAllowlistRequireAuthentication f)
    (fi_AuthenticatedOnlySenderDomains f) (score_value (fi_RejectScore f)) (score_value (fi_LowConfidenceScore f)) (fi_AIErrorAction f)
    (ai_HTMLResourceLimitAction a) (ai_IncompleteBodyAction a) (mi_MaxMessageSize (c_Milter cfg)) (beq (au_Mode (c_Authentication cfg)) AuthenticationModeInternal)
    (au_TrustRequirement (c_Authentication cfg))
    (Policy.MkCorrespondentsConfig (co_UseAllowlist co) (co_Scope co) (co_RecipientMatch co) (co_BypassAI co) (co_RequireAuthenticationForBypass co) (co_TrustedAuthservIDs co))
    (ip_store (c_IPReputation cfg))
    (Some (Session.MkSenderBlocklistConfig (sb_RejectMessage (c_SenderBlocklist cfg)) (sb_IncludeSubdomains (c_SenderBlocklist cfg))))
    (if Config.at_BlockExecutables (c_Attachments cfg) then Some (attachment_policy (c_Attachments cfg)) else None)
    (Session.MkEmailCommandsConfig (em_Enabled em) (Normalize (em_Recipient em)) internalToken (em_Administrators em) (em_AllowAuthenticatedUsers em)
       (em_VerifySenderViaAliases em) (em_Recipient em) (em_SendReplies em))
    (0 <? mi_ConnectionDNSTimeout (c_Milter cfg)) formatScore
    (match newRejectedMailArchive (c_RejectionHistory cfg) with Some _ => true | None => false end) parseMediaType.

(** ** What validation guarantees of the components *)

Lemma validateExtension_ok e : validateExtension e = None -> normalize_extension e <> [] /\ forallb ext_char (normalize_extension e) = true.
Proof.
  unfold validateExtension, policy_extension. change (trimPrefix (toLower (trimSpace e)) ["."%char]) with (normalize_extension e).
  cbv zeta. destruct (beq (normalize_extension e) []) eqn:E; [done|]. destruct (extension_chars _ _ _) eqn:Hc; [|done]. intros _. split; [by apply beq_nil_false|].
  revert Hc. clear E. generalize (length (normalize_extension e)). generalize 0%nat. intros i n. revert i. induction (normalize_extension e) as [|c l IH]; intros i; [done|].
  cbn [extension_chars forallb]. intros [Hc Hl]%andb_true_iff. apply andb_true_iff. split; [|by eapply IH]. unfold ext_char.
  apply orb_true_iff in Hc as [[Hc|Hc]%orb_true_iff|Hc]; [rewrite Hc; by rewrite orb_true_r|by rewrite Hc|].
  apply andb_true_iff in Hc as [[Hc _]%andb_true_iff _]. apply ceq_true in Hc as ->. done.
Qed.

(** Lower-case extensions are their own lower case. *)
Lemma normalized_lower e : validateExtension e = None -> map lower_ascii (normalize_extension e) = normalize_extension e.
Proof.
  unfold validateExtension, policy_extension. change (trimPrefix (toLower (trimSpace e)) ["."%char]) with (normalize_extension e).
  cbv zeta. destruct (beq (normalize_extension e) []) eqn:E; [done|]. destruct (extension_chars _ _ _) eqn:Hc; [|done]. intros _.
  revert Hc. clear E. generalize (length (normalize_extension e)). generalize 0%nat. intros i n. revert i. induction (normalize_extension e) as [|c l IH]; intros i; [done|].
  cbn [extension_chars map]. intros [Hc Hl]%andb_true_iff. f_equal; [|by eapply IH]. unfold lower_ascii, lowerZ, in_range in *.
  assert (Hr : 97 <= code c \/ code c < 65).
  { apply orb_true_iff in Hc as [Hc|Hc]; [rewrite orb_true_iff, !andb_true_iff, !Z.leb_le in Hc; lia|]. apply andb_true_iff in Hc as [[Hc _]%andb_true_iff _]. apply ceq_true in Hc as ->. by right. }
  destruct ((65 <=? code c) && (code c <=? 90)) eqn:Eu; [exfalso; rewrite andb_true_iff, !Z.leb_le in Eu; lia|apply chr_code].
Qed.

Lemma scanner_limits (c : Config.Config) : Config.Validate c = None -> limits_ok (ScanNames.New (scanner_options (c_Attachments c))).
Proof. intros Hv. destruct (Validate_accepted c Hv). unfold limits_ok. cbn [options ScanNames.New scanner_options MaxArchiveFiles MaxArchiveUncompressedBytes]. lia. Qed.

(** No entry of the list of addresses is dropped. *)
Lemma ip_allowlist_kept (c : Config.Config) : Config.Validate c = None -> length (allowlist (ip_store (c_IPReputation c))) = length (ir_IPAllowlist (c_IPReputation c)) /\
  forall e p, e ∈ ir_IPAllowlist (c_IPReputation c) -> NetSafety.ParseIPPrefix e = Some p -> p ∈ allowlist (ip_store (c_IPReputation c)).
Proof.
  intros Hv. destruct (Validate_accepted c Hv) as [_ _ _ _ _ _ Hips]. cbn [allowlist ip_store newIPReputationStore cfg_IPAllowlist].
  induction Hips as [|e l [p Hp] _ IH]; cbn [mbind list_bind]; [split; [done|]; intros e p He; by apply elem_of_nil in He|]. rewrite Hp. cbn [app length].
  destruct IH as [IHl IHe]. split; [by rewrite IHl|]. intros e' p' [->|He]%elem_of_cons Hp'; [rewrite Hp in Hp'; injection Hp' as <-; set_solver|].
  right. by eapply IHe.
Qed.
End Compose.

Section Guarantees.
Context {UT : UnicodeTables} {NI : NetIPText} {NM : NetMail} {UR : UrlText} {NT : NameText} {RD : Readers}.

(** every extension of a validated configuration is enforced. The scanner built
    from it finds the extension, in whatever letter case the name is written, in any
    directory, behind any stem, before trailing dots and spaces, and before an
    alternate data stream; and the limits of the scanner are usable. *)
Theorem configured_extensions_enforced {PN : PlainNames} (c : Config.Config) :
  Config.Validate c = None ->
  let s := ScanNames.New (scanner_options (c_Attachments c)) in
  limits_ok s /\ forall e ext dir stem rest, e ∈ Config.at_BlockedExtensions (c_Attachments c) -> map lower_ascii ext = normalize_extension e ->
    directory_prefix dir -> plain_name stem ext rest -> blockedExtension s (dir ++ stem ++ DOT :: ext ++ rest) <> [].
Proof.
  intros Hv s. split; [exact (scanner_limits c Hv)|]. intros e ext dir stem rest He Hx Hd Hn. exact (blocked_extension_in (scanner_options (c_Attachments c)) e dir stem ext rest He Hx Hd Hn).
Qed.

(** C7: with a validated configuration whose actions reject or defer what cannot be
    inspected, the attachment policy lets a message pass only when its whole MIME
    structure was inspected: if it proposes to accept and was not interrupted, none
    of the headers that give the structure (Content-Type, Content-Disposition and
    Content-Transfer-Encoding) and no byte of the body was cut off when the message
    was received, and everything inside the message, at any depth and inside its
    archives, is clean under the configured policy.  Other headers may have been
    cut off: the scan does not read them. *)
Theorem accepted_mail_clean (c : Config.Config) (answers : list bool) (interruptions : list (option nat)) (slot : bool) (msg : Message) :
  Config.Validate c = None -> strict (attachment_policy (c_Attachments c)) ->
  let s := ScanNames.New (scanner_options (c_Attachments c)) in
  let r := evaluate_attachments (attachment_policy (c_Attachments c)) s answers interruptions slot msg in
  ar_proposed r = actionAccept -> ar_cancelled r = false ->
  MIMEHeadersTruncated msg = false /\ BodyTruncated msg = false /\ clean_entity s false (message_entity msg).
Proof. intros Hv Hs s r. exact (accepted_mail_inspected _ s answers interruptions slot msg Hs (scanner_limits c Hv)). Qed.

(** nothing that a validated configuration lists is lost when the components are
    built from it: every allowed address range is in the store of the IP policy, no
    domain of a list normalizes to nothing, the command address is a mailbox, the
    scores are numbers between a half and one, and an archive of rejected mail holds
    any message that can be received. *)
Theorem composed_settings_kept (c : Config.Config) (token : gostring) (formatScore : Q -> gostring) (parseMediaType : gostring -> option gostring) :
  Config.Validate c = None ->
  let d := session_dependencies c token formatScore parseMediaType in
  (mode d = lit "accept" \/ mode d = lit "enforce") /\
  length (allowlist (ipReputation d)) = length (ir_IPAllowlist (c_IPReputation c)) /\
  (forall e p, e ∈ ir_IPAllowlist (c_IPReputation c) -> NetSafety.ParseIPPrefix e = Some p -> p ∈ allowlist (ipReputation d)) /\
  Forall (λ h, h <> []) (domainAllowlist (ipReputation d)) /\
  (ec_Enabled (commands d) = true -> mailbox_shape (ec_recipient (commands d))) /\
  ((1 # 2) <= RejectScore d <= 1)%Q /\ ((1 # 2) <= LowConfidenceScore d <= 1)%Q /\
  (forall o, newRejectedMailArchive (c_RejectionHistory c) = Some o -> 0 < Archive.Retention o /\ maxMessageSize d <= Archive.MaxTotalBytes o).
Proof.
  intros Hv d. pose proof (Validate_accepted c Hv) as Ha. destruct (ip_allowlist_kept c Hv) as [Hlen Hkeep].
  destruct (ok_scores c Ha) as (r & l & m & Hr & Hl & _ & Hr1 & Hl1 & _).
  unfold d. cbn [session_dependencies mode ipReputation commands ec_Enabled ec_recipient RejectScore LowConfidenceScore maxMessageSize]. rewrite Hr, Hl. cbn [score_value]. split_and!.
  - exact (ok_mode c Ha).
  - exact Hlen.
  - exact Hkeep.
  - cbn [domainAllowlist ip_store newIPReputationStore cfg_DomainAllowlist]. apply Forall_fmap. pose proof (ok_domains c Ha) as Hd. apply Forall_app in Hd as [Hd _]. exact Hd.
  - intros He. destruct (ok_commands c Ha He) as (Hn & _). unfold Normalize in Hn. rewrite trimSpace_idem in Hn. fold (Normalize (em_Recipient (c_EmailCommands c))) in Hn.
    by destruct (Normalize_cases (em_Recipient (c_EmailCommands c))).
  - apply Hr1.
  - apply Hr1.
  - apply Hl1.
  - apply Hl1.
  - intros o. unfold newRejectedMailArchive, rejectionHistoryEnabled. destruct (rh_SaveMessages (c_RejectionHistory c)) eqn:Es; cbn [negb orb]; [|done].
    destruct (Z.ltb_spec 0 (rh_Expiry (c_RejectionHistory c))); cbn [negb]; [|done]. intros [= <-]. destruct (ok_archive c Ha Es) as (_ & Hsize & _). done.
Qed.
End Guarantees.

(** ** Witnesses *)

#[local] Existing Instances basic_tables raw_text simple_mail Sample.web_urls plain_names plain_names_ok plain_readers.

Lemma sample_valid : Config.Validate Sample.settings = None.
Proof. by vm_compute. Qed.

(** A script for Windows behind a harmless name, with a stream and spare dots. *)
Lemma configured_extensions_witness :
  blockedExtension (ScanNames.New (scanner_options (c_Attachments Sample.settings))) (lit "C:\temp\" ++ lit "invoice.pdf" ++ DOT :: lit "Js" ++ lit " . .:$DATA") <> [].
Proof.
  refine (proj2 (configured_extensions_enforced Sample.settings sample_valid) (lit "js") (lit "Js") (lit "C:\temp\") (lit "invoice.pdf") (lit " . .:$DATA") _ _ _ _).
  - apply list_elem_of_In. vm_compute. tauto.
  - by vm_compute.
  - split; [by vm_compute|]. right. exists (lit "C:\temp"), BACKSLASH. split; [by vm_compute|by right].
  - split; [by vm_compute|by vm_compute; set_solver|by vm_compute; set_solver|by vm_compute|done|].
    exists (lit " . ."), (lit ":$DATA"). split_and!; [done|by vm_compute|]. right. by eexists.
Defined.

Lemma accepted_mail_witness :
  let s := ScanNames.New (scanner_options (c_Attachments Sample.settings)) in
  ar_proposed (evaluate_attachments (attachment_policy (c_Attachments Sample.settings)) s [] [] true report_mail) = actionAccept /\
  clean_entity s false (message_entity report_mail).
Proof.
  cbv zeta. split; [by vm_compute|].
  refine (proj2 (proj2 (accepted_mail_clean Sample.settings [] [] true report_mail sample_valid _ _ _)));
    [split; [apply Forall_cons; split; [by left|]; apply Forall_singleton; by left|done]|by vm_compute|by vm_compute].
Defined.

Lemma composed_settings_witness :
  let d := session_dependencies Sample.settings (lit "token") (λ _, []) (λ _, None) in mode d = lit "enforce" /\ ((1 # 2) <= RejectScore d)%Q.
Proof.
  split; [done|]. destruct (composed_settings_kept Sample.settings (lit "token") (λ _, []) (λ _, None) sample_valid) as (_ & _ & _ & _ & _ & [H _] & _). exact H.
Defined.
